(* ===== verification/_CoqProject ===== *)
-Q . S2P
Prelude.v
Bitset.v
FlatMaps.v
Protocol.v
Quota.v
Reassembly.v
Float32.v
F32Theory.v
Rtt.v
Outgoing.v
Transfer.v
Scheduler.v
Congestion.v
CongestionLaws.v
Session.v
SessionFrames.v
SessionReceive.v
SessionSend.v
SessionFlush.v
SessionRuns.v
SessionSystem.v
SessionTimers.v
Iblt.v
IbltTheory.v
MsgPack.v
MsgPackTheory.v
ToxTypes.v
Derive.v
ToxTheory.v
DeriveTheory.v
MsgPackFormat.v
Wire.v
WireTheory.v
Merkle.v
MerkleModels.v
Dag.v
DagCodec.v
DagWire.v
DagTheory.v
DagValid.v
Identity.v
IdentityTheory.v
IdentityLaws.v
Conversation.v
ConversationTheory.v
SyncSession.v
SyncTheory.v
Cas.v
CasTheory.v
Clock.v
ClockTheory.v
Builder.v
Messages.v
Monad.v
Engine.v
Overlay.v
Memory.v
EngineModels.v
MemoryTheory.v
Verify.v
SideEffects.v
Authoring.v
Processor.v
EngineFrames.v
Handlers.v
OpaqueTheory.v
Poll.v
Node.v
NodeTheory.v
EngineRuns.v
AdmissionTheory.v
AuthoringTheory.v
RotationTheory.v
HistoryTheory.v
Client.v
ClientTheory.v
BlobTheory.v
ClientLocks.v
Files.v
Journal.v
