(* ===== verification/Prelude.v ===== *)
(** * A model of the peer-to-peer messaging stack of this repository

    The repository is a stack of Rust crates.  At the bottom [tox-proto] turns
    values into MessagePack and back, with derive macros in [tox-proto-derive].
    [tox-sequenced] is a reliable message transport over the lossy packets of
    Tox.  [tox-reconcile] compares two sets by exchanging sketches.
    [merkle-tox-core] keeps a signed, replicated graph of messages and uses the
    other three.  This library models their logic as Rocq functions and proves
    what makes it correct.

    ** Conventions

    A definition has the name of the Rust item it models; a Module has the name
    of the Rust type or module.  Machine integers are integers of [Z]; where
    the source uses checked or plain arithmetic, the model checks the width
    ([chk_u16], [chk_usize], ... of this file) and returns [None], the panic
    of a build with overflow checks, and where it wraps or saturates, the model
    does ([sat_sub], [wrap]).  An index out of range is [None] as well.  [Result]
    is [result].  [Instant] and [Duration] count nanoseconds.  Randomness, the
    clock and the answers of callbacks are arguments.

    ** The transport ([src/tox-sequenced/src])

    - [Bitset.v] ([bitset.rs]), [FlatMaps.v] ([flat_map.rs]), [Protocol.v]
      ([protocol.rs], [error.rs]): the data the rest is built from.
    - [Quota.v] ([quota.rs]): the memory quota that all sessions share, once as
      sequential functions and once as interleaved compare-and-swap steps.
    - [Reassembly.v] ([reassembly/]), [Outgoing.v] ([outgoing.rs]): one message
      under way, on the two sides; [Transfer.v] puts them together.
    - [Float32.v], [F32Theory.v]: [f32] over [SpecFloat] and its real-number
      meaning, for [Rtt.v] ([rtt.rs]), [Congestion.v] ([congestion/]) and
      [CongestionLaws.v] (the contract of the controllers).
    - [Scheduler.v] ([scheduler.rs]): deficit round robin.
    - [Session.v] ([session.rs]): the whole session.  [SessionFrames.v] says what
      its operations leave alone, [SessionReceive.v] and [SessionSend.v] give the
      invariants of its halves, [SessionFlush.v] covers sending,
      [SessionRuns.v] whole runs, [SessionTimers.v] wake-ups and the clock
      estimate, [SessionSystem.v] many sessions sharing a quota and two sessions
      joined by a network.

    Theorems: what a session delivers was sent by its peer although the network
    loses, repeats, reorders and replays packets; memory stays within the quota; no
    packet but a [Pong] makes a session panic ([pong_may_panic] shows how); a
    flush ends; fragments in any order give the message back; acknowledgements,
    loss detection, the scheduler, the timers, the estimator and the congestion
    controllers do what they are meant to.  These hold for times and counters
    below the bounds each theorem states: instants and byte counters of a run
    below 2^62 and times a day or so ([STEP], 2^27 bytes) from them, so that no
    sum leaves 64 bits.  [flush_packets] runs its loop with the fuel
    [send_rounds], a measure that each round lowers; [flush_terminates] shows
    that the fuel is not used up.

    ** Set reconciliation ([src/tox-reconcile/src])

    [Iblt.v] models the invertible Bloom lookup table, [IbltTheory.v] shows that it
    is a sum over the symmetric difference, that a successful decoding is
    exactly that difference, that decoding ends ([peel_fuel] pops are enough for every
    sketch, forged ones included), and that it succeeds whenever the difference
    has no unpeelable core.

    ** Serialization ([src/tox-proto/src], [src/tox-proto-derive/src])

    [MsgPack.v] models readers, [skip_value] and [capture_value];
    [ToxTypes.v] the serializable types of the library; [Derive.v] the code that
    the derive macros write.  [MsgPackTheory.v], [ToxTheory.v] and
    [DeriveTheory.v] prove round trips compositionally: [lawful T ok] for a type
    built from lawful types.  [MsgPackFormat.v] is the MessagePack format as
    concrete functions, an instance of the laws that are assumed of [rmp].
    [Wire.v] and [WireTheory.v] apply all this to the packets and envelopes of
    the transport, and discharge the codec that the session assumes.

    ** What is assumed

    Code outside the repository is a parameter, given by a class, with its
    documented behaviour as a second class of laws where a theorem needs it:
    - [Rmp], [RmpLaws] ([MsgPack.v], [MsgPackTheory.v]): the library [rmp];
      [MsgPackFormat.v] is an instance.
    - [EnvelopeCodec], [CodecLaws] ([Session.v], [SessionSystem.v]): the derived
      codec of envelopes; [Wire.wire_codec] is the instance of the source.
    - [Blake3], [Blake3Laws] ([Iblt.v], [IbltTheory.v]): hashing.
    - [Ed25519], [ChaCha20], [Zstd], [Blake3Hash], [HashOrder] and their laws
      ([Merkle.v]): signatures, encryption, compression, and the order in which hash
      maps are traversed.
    - [FileLaws], [HashWidth] ([Files.v], [Journal.v]): what a handle of a file does, and
      that a hash has 32 bytes; the instances are in the same files.
    - [RandSource], [RandLaws]; [PowerFunctions], [PowerLaws] ([Congestion.v] and
      [SessionRuns.v]): random numbers in range, [powf] and [powi].

    ** The message graph ([src/merkle-tox-core/src])

    - [Merkle.v] has what these files share: byte strings for keys and hashes and
      their order, permissions, outcomes, and the classes of the cryptographic
      libraries; [MerkleModels.v] has concrete instances of these, for witnesses.
    - [Dag.v] models nodes, their derived serialization and their validation
      ([dag.rs]), and the errors ([error.rs]).  [DagCodec.v] proves the round trips of
      all node types.  [DagWire.v] models packing, encryption and key derivation
      ([dag.rs], [crypto.rs]).  [DagTheory.v] proves that packed nodes come back, up to
      what is not on the wire, and what a signature covers; [DagValid.v] what validation
      checks, rule by rule, and what a graph of validated nodes looks like.  These rules are
      those of the code; where the documents ask for more, the examples of
      [MemoryTheory.v] show nodes that pass.
    - [Identity.v] models the delegation of trust ([identity.rs]); [IdentityTheory.v]
      and [IdentityLaws.v] show that its recursive search finds exactly the chains of
      records, what its cached answers are worth ([rank_forgotten] shows one that is
      wrong), that authorizing never escalates, and when revocations win.
    - [Conversation.v] models the keys of a conversation ([engine/conversation.rs]),
      [ConversationTheory.v] that late, lost and repeated messages get their keys and
      that senders are identified.
    - [SyncSession.v] models a session with a peer ([engine/session/]); [SyncTheory.v]
      proves what sketches and checksums of shards report of the differences, that
      a missing hash waits until it is requested, and what challenges are worth.

    - [Cas.v] models downloads from a swarm of peers ([cas.rs]), [CasTheory.v] shows
      that requests are shared out and that a stalled download goes on; [Clock.v] and
      [ClockTheory.v] the consensus on the time ([clock.rs]) over binary64;
      [Builder.v] the first nodes of conversations ([builder.rs]); [Messages.v] the
      messages between peers ([lib.rs]).

    ** The engine ([src/merkle-tox-core/src/engine], [node.rs], [testing/store.rs])

    The engine is a state machine over a store.  [Monad.v] has the state and
    error monad of its methods (a computation may also panic), [Engine.v] its
    state, its effects and the class [NodeStore] of the trait of that name,
    [Overlay.v] the view of a store through the cache of pending writes, and
    [Memory.v] the store that the tests of the source use, an instance of the class.
    - [Verify.v] and [Processor.v] admit nodes and judge waiting ones again
      ([processor/]), [SideEffects.v] is what a verified node changes, [Authoring.v]
      writes nodes and rotates keys ([authoring.rs]), [Handlers.v] answers each message
      ([handlers/mod.rs]), [Poll.v] does what is due ([mod.rs]).
    - [Node.v] joins engine, transport and store ([node.rs]); the effects of a call
      are carried out there.
    - [EngineModels.v] has concrete engines for witnesses.

    Theorems: [MemoryTheory.v], that reading nodes and heads through the cache is
    reading the store with the writes done, while other reads differ, and what the
    graph in a store of validated nodes is like; [AdmissionTheory.v], why a node may be taken as verified;
    [HistoryTheory.v], that the search for the history of a node is exact while the
    answers it keeps are complete and that engines with the same history then judge
    alike, ties of rank apart; [AuthoringTheory.v] and
    [RotationTheory.v], that the depth allowed to nested
    rotations does not matter and that a rotation leaves the revoked device out; [OpaqueTheory.v] and [EngineRuns.v], with the frame
    lemmas of [EngineFrames.v], that the account of unreadable nodes is exact
    and bounded in every run; [NodeTheory.v], that the loop over events, when it returns,
    has handled all of them and that the engine is given what the other node queued.

    ** The client ([src/merkle-tox-client/src])

    [Client.v] models the state that a client shows, its policy and its
    operations.  [ClientTheory.v] shows when this state is sound and agrees with a
    rebuilt one, [BlobTheory.v] that a stored blob is readable, and
    [ClientLocks.v] runs the operations as interleaved acquisitions of the two locks
    of a client and shows that they complete.

    ** Files ([src/merkle-tox-core/src/vfs.rs], [src/merkle-tox-fs/src/journal.rs])

    [Files.v] models the traits of file systems and handles, the file system in memory
    and the one that injects faults, and states as laws ([FileLaws]) what a handle
    promises: reads and writes may be partial, writes may fail.  [Journal.v] models
    the journal of a conversation over any file system, and proves that reading it is
    parsing its bytes and that entries appended before the first failure survive it and crashes.

    ** Bounds and fuel

    Recursion over a graph is bounded as in the code ([MAX_AUTH_DEPTH],
    [MAX_ANCESTRY_HOPS]); [effective_timestamp] takes a depth, and any depth above
    the rank gives the result.  The search for the history of a node and the rounds of
    reverification take the argument [fuel] of the engine's definitions;
    [context_exact] shows that one more than the number of edges is enough for the
    first.  The loop over the events of a session has a round for every event
    ([events_all_handled]), the cutting of a blob into chunks one for every byte; the
    searches for nonces take fuel and give the least solution when it is enough.
    The loops over a file have a round for every byte of it or of the buffer, and never
    run out ([read_parses], [read_loop_law], [write_loop_law]).  Key rotation, which
    authors nodes that may rotate, recurses with a depth that
    [rotation_depth_irrelevant] shows does not matter.  Hash maps and sets are [gmap]
    and [gset]; where the code traverses one, the order is [HashOrder], an arbitrary
    permutation.

    ** What is not modelled

    Tests and benchmarks; the system clock; [SmallVec], LRU and lock internals of
    third-party crates; allocation failure; the texts of errors and logging.  In
    [tox-proto]: the key types written by a macro, which are byte arrays.  In
    [merkle-tox-core]: the calls of the operating system ([StdFileSystem]) and the
    picture of the graph ([viz.rs]).  Of [merkle-tox-fs], all but the journal: packs,
    checkpoints, segments of opaque nodes and the store on top, which lay out files and
    their names.  Of the other crates: storage in SQL
    ([merkle-tox-sqlite]), which is statements for a database library; the bindings to
    the C library ([toxcore]) and the bridge on them ([merkle-tox-tox]); the terminal
    client ([toxxi]), the simulator ([merkle-tox-workbench]) and the bots, which are
    input and output around the crates modelled here.
*)

From Stdlib Require Export ZArith Lia Bool.
From stdpp Require Export base tactics option list numbers.

#[global] Set Default Goal Selector "!".
#[global] Open Scope Z_scope.

(** ** Results and panics

    A fallible operation returns [result E A] (Rust's [Result<A, E>]).  An
    operation that may panic (arithmetic overflow with checks on, an index out
    of range, [unwrap] of [None]) returns [option], [None] being the panic;
    stdpp's [x ← c; k] sequences such operations. *)

Inductive result (E A : Type) : Type :=
| Ok (a : A)
| Err (e : E).
Arguments Ok {E A} a.
Arguments Err {E A} e.

Definition is_ok {E A} (r : result E A) : bool :=
  match r with Ok _ => true | Err _ => false end.

(** ** Machine integers *)

Definition u8_max : Z := 2 ^ 8 - 1.
Definition u16_max : Z := 2 ^ 16 - 1.
Definition u32_max : Z := 2 ^ 32 - 1.
Definition u64_max : Z := 2 ^ 64 - 1.
Definition usize_max : Z := 2 ^ 64 - 1.
Definition isize_max : Z := 2 ^ 63 - 1.
Definition i32_max : Z := 2 ^ 31 - 1.
Definition i32_min : Z := - 2 ^ 31.
Definition i64_max : Z := 2 ^ 63 - 1.
Definition i64_min : Z := - 2 ^ 63.

(** [z] is a value of an unsigned type of [w] bits. *)
Definition in_u (w z : Z) : Prop := 0 <= z < 2 ^ w.
(** The value an unsigned [as] cast or a [wrapping_*] operation keeps. *)
Definition wrap (w z : Z) : Z := z mod 2 ^ w.
(** Checked arithmetic: the mathematical result, or a panic out of range. *)
Definition chk (lo hi z : Z) : option Z :=
  if (lo <=? z) && (z <=? hi) then Some z else None.
Definition chk_u16 : Z -> option Z := chk 0 u16_max.
Definition chk_u32 : Z -> option Z := chk 0 u32_max.
Definition chk_u64 : Z -> option Z := chk 0 u64_max.
Definition chk_usize : Z -> option Z := chk 0 usize_max.
Definition chk_i32 : Z -> option Z := chk i32_min i32_max.
Definition chk_i64 : Z -> option Z := chk i64_min i64_max.
(** [saturating_sub] on unsigned operands. *)
Definition sat_sub (a b : Z) : Z := Z.max 0 (a - b).
(** [div_ceil] on unsigned operands. *)
Definition div_ceil (a b : Z) : Z := (a + b - 1) / b.

(** Length of a [Vec], slice or queue. *)
Definition len {A} (l : list A) : Z := Z.of_nat (length l).
(** Index into a [Vec] or slice: a panic when out of range. *)
Definition idx {A} (l : list A) (i : Z) : option A :=
  if 0 <=? i then l !! Z.to_nat i else None.
(** Assignment [l[i] = x]: a panic when out of range. *)
Definition upd {A} (l : list A) (i : Z) (x : A) : option (list A) :=
  if (0 <=? i) && (i <? len l) then Some (<[Z.to_nat i := x]> l) else None.

(** Half-open range [lo..hi] of a [for] loop. *)
Definition zrange (lo hi : Z) : list Z := (fun k : nat => lo + Z.of_nat k) <$> seq 0 (Z.to_nat (hi - lo)).

Lemma chk_Some lo hi z r : chk lo hi z = Some r <-> r = z /\ lo <= z <= hi.
Proof.
  unfold chk. destruct (Z.leb_spec lo z), (Z.leb_spec z hi); simpl; split;
    intros H1; try discriminate; try (destruct H1; lia).
  - injection H1 as <-. lia.
  - destruct H1 as [-> _]. done.
Qed.

Lemma chk_ok lo hi z : lo <= z <= hi -> chk lo hi z = Some z.
Proof. intros H. by apply chk_Some. Qed.

Lemma chk_u16_ok z : 0 <= z <= u16_max -> chk_u16 z = Some z.
Proof. apply chk_ok. Qed.

Lemma chk_u32_ok z : 0 <= z <= u32_max -> chk_u32 z = Some z.
Proof. apply chk_ok. Qed.

Lemma chk_u64_ok z : 0 <= z <= u64_max -> chk_u64 z = Some z.
Proof. apply chk_ok. Qed.

Lemma chk_usize_ok z : 0 <= z <= usize_max -> chk_usize z = Some z.
Proof. apply chk_ok. Qed.

Lemma chk_i32_ok z : i32_min <= z <= i32_max -> chk_i32 z = Some z.
Proof. apply chk_ok. Qed.

Lemma chk_i64_ok z : i64_min <= z <= i64_max -> chk_i64 z = Some z.
Proof. apply chk_ok. Qed.

(** Runs the next operation of a sequence of operations that may panic, once
    it has been rewritten to [Some]. *)
Ltac run := cbn [mbind option_bind fst snd].
(** Discharges the overflow check in front of the goal. *)
Ltac run_chk :=
  first [rewrite chk_u16_ok by (unfold u16_max in *; lia)
        |rewrite chk_u32_ok by (unfold u32_max in *; lia)
        |rewrite chk_u64_ok by (unfold u64_max in *; lia)
        |rewrite chk_usize_ok by (unfold usize_max in *; lia)
        |rewrite chk_i32_ok by (unfold i32_min, i32_max in *; lia)
        |rewrite chk_i64_ok by (unfold i64_min, i64_max in *; lia)]; run.

(** Inverts a sequence of operations that may panic and did not. *)
Lemma bind_Some_inv {A B} (x : option A) (f : A -> option B) r :
  (x ≫= f) = Some r -> exists a, x = Some a /\ f a = Some r.
Proof. destruct x as [a|]; [by exists a|done]. Qed.

Ltac inv_bind H :=
  lazymatch type of H with
  | (_ ≫= _) = Some _ =>
      let a := fresh "v" in let E := fresh "E" in
      apply bind_Some_inv in H; destruct H as (a & E & H)
  end.

Lemma sat_sub_nonneg a b : 0 <= sat_sub a b.
Proof. unfold sat_sub. lia. Qed.

Lemma len_nonneg {A} (l : list A) : 0 <= len l.
Proof. unfold len. lia. Qed.

Lemma len_app {A} (l k : list A) : len (l ++ k) = len l + len k.
Proof. unfold len. rewrite length_app. lia. Qed.

Lemma len_cons {A} (x : A) l : len (x :: l) = 1 + len l.
Proof. unfold len. simpl. lia. Qed.

Lemma idx_Some {A} (l : list A) i x :
  idx l i = Some x <-> 0 <= i /\ l !! Z.to_nat i = Some x.
Proof. unfold idx. destruct (Z.leb_spec 0 i); split; naive_solver lia. Qed.

Lemma idx_is_Some {A} (l : list A) i :
  is_Some (idx l i) <-> 0 <= i < len l.
Proof.
  unfold idx, len. destruct (Z.leb_spec 0 i); split.
  - intros ?%lookup_lt_is_Some. lia.
  - intros ?. apply lookup_lt_is_Some. lia.
  - intros [? ?]. done.
  - lia.
Qed.

Lemma idx_lt {A} (l : list A) i x : idx l i = Some x -> 0 <= i < len l.
Proof. intros H. apply idx_is_Some. eauto. Qed.

Lemma upd_Some {A} (l l' : list A) i x :
  upd l i x = Some l' <-> 0 <= i < len l /\ l' = <[Z.to_nat i := x]> l.
Proof.
  unfold upd. destruct (Z.leb_spec 0 i), (Z.ltb_spec i (len l)); simpl;
    split; naive_solver lia.
Qed.

Lemma upd_ok {A} (l : list A) i x :
  0 <= i < len l -> upd l i x = Some (<[Z.to_nat i := x]> l).
Proof. intros H. by apply upd_Some. Qed.

Lemma len_insert {A} (l : list A) i x : len (<[i := x]> l) = len l.
Proof. unfold len. by rewrite length_insert. Qed.

Lemma idx_insert {A} (l : list A) i j x :
  0 <= i < len l -> 0 <= j ->
  idx (<[Z.to_nat i := x]> l) j = if decide (i = j) then Some x else idx l j.
Proof.
  intros Hi Hj. unfold idx. rewrite (proj2 (Z.leb_le 0 j)) by lia.
  unfold len in Hi. case_decide as E.
  - subst j. apply list_lookup_insert_eq. lia.
  - apply list_lookup_insert_ne. lia.
Qed.

(** Reading an element with a default value for indices out of range. *)
Lemma idx_view {A} (l : list A) (d : A) i : 0 <= i < len l -> idx l i = Some (default d (idx l i)).
Proof. intros [x ->]%idx_is_Some. done. Qed.

Lemma view_insert {A} (l : list A) (d x : A) i j :
  0 <= i < len l -> 0 <= j ->
  default d (idx (<[Z.to_nat i := x]> l) j) = if decide (j = i) then x else default d (idx l j).
Proof. intros Hi Hj. rewrite idx_insert by done. destruct (decide (i = j)), (decide (j = i)); cbn; congruence. Qed.

Lemma NoDup_snoc {A} (l : list A) x : NoDup l -> x ∉ l -> NoDup (l ++ [x]).
Proof.
  induction l as [|y l IH]; intros Hl Hx; cbn; [apply NoDup_singleton|].
  inversion Hl as [|? ? Hy Hl']; subst. rewrite elem_of_cons in Hx. constructor; [|apply IH; tauto].
  rewrite elem_of_app, list_elem_of_singleton. intros [?| ->]; tauto.
Qed.

Lemma elem_of_snoc {A} (l : list A) x y : y ∈ l ++ [x] <-> y ∈ l \/ y = x.
Proof. by rewrite elem_of_app, list_elem_of_singleton. Qed.

Lemma elem_of_zrange x lo hi : x ∈ zrange lo hi <-> lo <= x < hi.
Proof.
  unfold zrange. rewrite list_elem_of_fmap. split.
  - intros (k & -> & Hk). apply elem_of_seq in Hk. lia.
  - intros H. exists (Z.to_nat (x - lo)). split; [lia|]. apply elem_of_seq. lia.
Qed.

Lemma NoDup_zrange lo hi : NoDup (zrange lo hi).
Proof. apply NoDup_fmap_2; [intros ? ? ?; lia | apply NoDup_seq]. Qed.

Lemma zrange_nil lo hi : hi <= lo -> zrange lo hi = [].
Proof. intros H. unfold zrange. by replace (Z.to_nat (hi - lo)) with 0%nat by lia. Qed.

Lemma zrange_cons lo hi : lo < hi -> zrange lo hi = lo :: zrange (lo + 1) hi.
Proof.
  intros H. unfold zrange.
  replace (Z.to_nat (hi - lo)) with (S (Z.to_nat (hi - (lo + 1)))) by lia.
  simpl. f_equal; [lia|]. rewrite <- fmap_S_seq, <- list_fmap_compose.
  apply list_fmap_ext. intros i x _. simpl. lia.
Qed.

Lemma zrange_app lo mid hi :
  lo <= mid <= hi -> zrange lo hi = zrange lo mid ++ zrange mid hi.
Proof.
  intros H. remember (Z.to_nat (mid - lo)) as n eqn:En.
  revert lo H En. induction n as [|n IH]; intros lo H En.
  - replace mid with lo by lia. by rewrite (zrange_nil lo lo) by lia.
  - rewrite (zrange_cons lo hi), (zrange_cons lo mid) by lia.
    simpl. f_equal. apply IH; lia.
Qed.

Lemma len_zrange lo hi : lo <= hi -> len (zrange lo hi) = hi - lo.
Proof. intros H. unfold len, zrange. rewrite length_fmap, length_seq. lia. Qed.

Lemma wrap_small w z : in_u w z -> wrap w z = z.
Proof. intros H. by apply Z.mod_small. Qed.

Lemma wrap_range w z : 0 <= w -> in_u w (wrap w z).
Proof. intros H. apply Z.mod_pos_bound. lia. Qed.

Lemma div_ceil_spec a b : 0 < b -> b * (div_ceil a b - 1) < a <= b * div_ceil a b.
Proof.
  intros H. unfold div_ceil.
  pose proof (Z.div_mod (a + b - 1) b). pose proof (Z.mod_pos_bound (a + b - 1) b). lia.
Qed.

(** ** Searching and counting over integer ranges *)

Definition count_if {A} (p : A -> bool) (l : list A) : Z := len (List.filter p l).

Lemma find_zrange_Some p lo hi r :
  List.find p (zrange lo hi) = Some r <->
  lo <= r < hi /\ p r = true /\ (forall j, lo <= j < r -> p j = false).
Proof.
  remember (Z.to_nat (hi - lo)) as n eqn:En. revert lo En.
  induction n as [|n IH]; intros lo En.
  - rewrite zrange_nil by lia. simpl. split; [done|lia].
  - rewrite zrange_cons by lia. simpl. destruct (p lo) eqn:Ep.
    + split.
      * intros [= <-]. split_and!; [lia|lia|done|]. intros; lia.
      * intros (H1 & H2 & H3). destruct (decide (lo = r)) as [->|]; [done|].
        rewrite H3 in Ep by lia. done.
    + rewrite IH by lia. split.
      * intros (H1 & H2 & H3). split_and!; [lia|lia|done|].
        intros j Hj. destruct (decide (j = lo)) as [->|]; [done|]. apply H3. lia.
      * intros (H1 & H2 & H3). destruct (decide (lo = r)) as [->|]; [congruence|].
        split_and!; [lia|lia|done|]. intros; apply H3; lia.
Qed.

Lemma find_None_forall {A} (p : A -> bool) l :
  List.find p l = None <-> (forall x, x ∈ l -> p x = false).
Proof.
  split.
  - intros H x Hx. eapply List.find_none; [done|]. by apply list_elem_of_In.
  - intros H. destruct (List.find p l) as [y|] eqn:E; [|done].
    apply List.find_some in E as [E1%list_elem_of_In E2]. rewrite H in E2; done.
Qed.

Lemma find_zrange_None p lo hi :
  List.find p (zrange lo hi) = None <-> (forall j, lo <= j < hi -> p j = false).
Proof. rewrite find_None_forall. by setoid_rewrite elem_of_zrange. Qed.

Lemma count_if_nil {A} (p : A -> bool) : count_if p [] = 0.
Proof. done. Qed.

Lemma count_if_cons {A} (p : A -> bool) x l :
  count_if p (x :: l) = (if p x then 1 else 0) + count_if p l.
Proof. unfold count_if. simpl. destruct (p x); rewrite ?len_cons; lia. Qed.

Lemma count_if_app {A} (p : A -> bool) l k :
  count_if p (l ++ k) = count_if p l + count_if p k.
Proof. unfold count_if. by rewrite List.filter_app, len_app. Qed.

Lemma count_if_ext {A} (p q : A -> bool) l :
  (forall x, x ∈ l -> p x = q x) -> count_if p l = count_if q l.
Proof.
  intros H. unfold count_if. f_equal. apply List.filter_ext_in.
  intros x Hx. apply H. by apply list_elem_of_In.
Qed.

Lemma count_if_bounds {A} (p : A -> bool) l : 0 <= count_if p l <= len l.
Proof.
  induction l as [|x l IH]; [done|]. rewrite count_if_cons, len_cons.
  destruct (p x); lia.
Qed.

Lemma count_if_all {A} (p : A -> bool) l :
  count_if p l = len l <-> (forall x, x ∈ l -> p x = true).
Proof.
  induction l as [|x l IH]; [split; [intros _ ? []%elem_of_nil|done]|].
  rewrite count_if_cons, len_cons.
  pose proof (count_if_bounds p l). setoid_rewrite elem_of_cons.
  destruct (p x) eqn:E; split.
  - intros Hc y [->|Hy]; [done|]. apply IH; [lia|done].
  - intros Hall. assert (count_if p l = len l) by (apply IH; auto). lia.
  - lia.
  - intros Hall. rewrite Hall in E by auto. done.
Qed.

Lemma count_if_none {A} (p : A -> bool) l :
  (forall x, x ∈ l -> p x = false) -> count_if p l = 0.
Proof.
  induction l as [|x l IH]; [done|]. intros H. rewrite count_if_cons, H, IH; auto.
  - intros y Hy. apply H. by right.
  - left.
Qed.

Lemma count_if_fmap {A B} (f : A -> B) (p : B -> bool) l :
  count_if p (f <$> l) = count_if (fun x => p (f x)) l.
Proof.
  induction l as [|x l IH]; [done|]. rewrite fmap_cons, !count_if_cons, IH. done.
Qed.

(** Counting in a range changes by one when exactly one new element satisfies
    the predicate. *)
Lemma count_if_zrange_flip (p q : Z -> bool) lo hi i :
  lo <= i < hi -> p i = false -> q i = true ->
  (forall j, lo <= j < hi -> j <> i -> q j = p j) ->
  count_if q (zrange lo hi) = count_if p (zrange lo hi) + 1.
Proof.
  intros Hi Hp Hq Heq.
  rewrite (zrange_app lo i hi), (zrange_cons i hi), !count_if_app, !count_if_cons by lia.
  rewrite Hp, Hq.
  rewrite (count_if_ext q p (zrange lo i)), (count_if_ext q p (zrange (i + 1) hi)); [lia|..];
    intros x Hx%elem_of_zrange; apply Heq; lia.
Qed.

Lemma zrange_shift lo hi d : zrange (lo + d) (hi + d) = (fun i => i + d) <$> zrange lo hi.
Proof.
  unfold zrange. rewrite <- list_fmap_compose.
  replace (hi + d - (lo + d)) with (hi - lo) by lia.
  apply list_fmap_ext. intros i x _. simpl. lia.
Qed.

(** ** Sums *)

Definition zsum {A} (f : A -> Z) (l : list A) : Z := foldr (fun i n => f i + n) 0 l.

Section Sums.
Context {A : Type}.
Implicit Types (f g : A -> Z) (l k : list A).

Lemma zsum_cons f x l : zsum f (x :: l) = f x + zsum f l.
Proof. done. Qed.

Lemma zsum_app f l k : zsum f (l ++ k) = zsum f l + zsum f k.
Proof. unfold zsum. induction l as [|x l IH]; simpl; lia. Qed.

Lemma zsum_mono f g l : (forall x, x ∈ l -> f x <= g x) -> zsum f l <= zsum g l.
Proof.
  induction l as [|x l IH]; intros H; [done|]. rewrite !zsum_cons.
  assert (f x <= g x) by (apply H; left). assert (zsum f l <= zsum g l); [|lia].
  apply IH. intros y Hy. apply H. by right.
Qed.

Lemma zsum_ext f g l : (forall x, x ∈ l -> f x = g x) -> zsum f l = zsum g l.
Proof.
  intros H. apply Z.le_antisymm; apply zsum_mono; intros x Hx; rewrite H by done; done.
Qed.

Lemma zsum_zero l : zsum (fun _ => 0) l = 0.
Proof. induction l as [|x l IH]; [done|]. rewrite zsum_cons. lia. Qed.

Lemma zsum_nonneg f l : (forall x, x ∈ l -> 0 <= f x) -> 0 <= zsum f l.
Proof. intros H. rewrite <- (zsum_zero l). by apply zsum_mono. Qed.

Lemma zsum_le f b l : (forall x, x ∈ l -> f x <= b) -> zsum f l <= len l * b.
Proof.
  unfold zsum. induction l as [|x l IH]; [done|]. rewrite len_cons. simpl. intros H.
  assert (f x <= b) by (apply H; left).
  assert (foldr (fun i n => f i + n) 0 l <= len l * b) by (apply IH; intros y Hy; apply H; by right). lia.
Qed.

Lemma zsum_add f g l : zsum (fun i => f i + g i) l = zsum f l + zsum g l.
Proof. unfold zsum. induction l as [|x l IH]; simpl; lia. Qed.

Lemma zsum_elem f l x : (forall y, y ∈ l -> 0 <= f y) -> x ∈ l -> f x <= zsum f l.
Proof.
  intros H Hx. apply list_elem_of_split in Hx as (k1 & k2 & ->). rewrite zsum_app, zsum_cons.
  assert (0 <= zsum f k1) by (apply zsum_nonneg; intros; apply H; rewrite elem_of_app, elem_of_cons; auto).
  assert (0 <= zsum f k2) by (apply zsum_nonneg; intros; apply H; rewrite elem_of_app, elem_of_cons; auto). lia.
Qed.

End Sums.

Lemma zsum_fmap {A B} (h : A -> B) (f : B -> Z) l : zsum f (h <$> l) = zsum (fun x => f (h x)) l.
Proof. induction l as [|x l IH]; [done|]. rewrite fmap_cons, !zsum_cons. lia. Qed.

(** Changing the summand at one point of the range. *)
Lemma zsum_update f g lo hi i :
  lo <= i < hi -> (forall j, lo <= j < hi -> j <> i -> g j = f j) ->
  zsum g (zrange lo hi) = zsum f (zrange lo hi) - f i + g i.
Proof.
  intros Hi H. rewrite (zrange_app lo i hi), (zrange_cons i hi), !zsum_app by lia. simpl.
  rewrite (zsum_ext g f (zrange lo i)), (zsum_ext g f (zrange (i + 1) hi)); [lia|..];
    intros x Hx%elem_of_zrange; apply H; lia.
Qed.

(** ** Record update

    [r <| f := v |>] is [r] with the field [f] set to [v]; a record type
    supports it once its eta-expansion is declared as an instance of
    [Settable]. *)

Class Settable (R : Type) := eta_of : R -> R.

Class Setter {R T : Type} (proj : R -> T) := set_field : (T -> T) -> R -> R.
Arguments set_field {R T} proj {_} _ _.

Ltac derive_setter :=
  lazymatch goal with
  | |- @Setter ?R ?T ?proj =>
      let inst := constr:(_ : Settable R) in
      let body := eval cbv delta [eta_of] in (@eta_of R inst) in
      let body := eval hnf in body in
      let abs := eval pattern proj in body in
      lazymatch abs with
      | ?h _ => let h := eval cbv beta in (fun f : T -> T => h (fun r : R => f (proj r))) in exact h
      end
  end.

#[export] Hint Extern 0 (Setter _) => derive_setter : typeclass_instances.

Declare Scope record_scope.
#[global] Open Scope record_scope.
Notation "r <| f := v |>" := (set_field f (fun _ => v) r)
  (at level 1, left associativity, f at level 0, v at level 200) : record_scope.
