(* ===== verification/Bitset.v ===== *)
(** Fixed-size bit sets ([tox-sequenced/src/bitset.rs]).

    [U64] holds the bit primitives of [u64] the source uses.  [BitSet] is the
    type [BitSet<N>]: an array of [N] 64-bit words, whose operations are
    translated word by word as written (masks, shifts, word scans).  The
    abstract view of a bit set is the predicate [get s : Z -> bool]; every
    optimised scan is proved equal to the search over single bits it stands
    for. *)

From S2P Require Import Prelude.

(** ** 64-bit word primitives *)

Module U64.

Definition not (w : Z) : Z := Z.ldiff (Z.ones 64) w.
Definition shl (w k : Z) : Z := wrap 64 (Z.shiftl w k).
Definition shr (w k : Z) : Z := Z.shiftr w k.
Definition wrapping_sub (a b : Z) : Z := wrap 64 (a - b).
Definition trailing_zeros (w : Z) : Z :=
  default 64 (List.find (Z.testbit w) (zrange 0 64)).
Definition trailing_ones (w : Z) : Z :=
  default 64 (List.find (fun i => negb (Z.testbit w i)) (zrange 0 64)).
Definition leading_zeros (w : Z) : Z :=
  default 64 (List.find (fun i => Z.testbit w (63 - i)) (zrange 0 64)).
Definition count_ones (w : Z) : Z := count_if (Z.testbit w) (zrange 0 64).

Lemma testbit_high w i : in_u 64 w -> 64 <= i -> Z.testbit w i = false.
Proof.
  intros Hw Hi. rewrite <- (Z.mod_small w (2 ^ 64)) by exact Hw.
  apply Z.mod_pow2_bits_high. lia.
Qed.

Lemma word_ext a b :
  in_u 64 a -> in_u 64 b ->
  (forall i, 0 <= i < 64 -> Z.testbit a i = Z.testbit b i) -> a = b.
Proof.
  intros Ha Hb H. apply Z.bits_inj'. intros i Hi.
  destruct (Z.lt_ge_cases i 64); [apply H; lia|]. by rewrite !testbit_high.
Qed.

Lemma in_u_bits w :
  0 <= w -> (forall i, 64 <= i -> Z.testbit w i = false) -> in_u 64 w.
Proof.
  intros H0 H. split; [done|].
  destruct (Z.eq_dec w 0) as [->|Hne]; [lia|].
  destruct (Z.lt_ge_cases w (2 ^ 64)) as [|Hge]; [done|].
  assert (64 <= Z.log2 w) as Hl by (apply Z.log2_le_pow2; lia).
  pose proof (Z.bit_log2 w ltac:(lia)) as Hb. by rewrite H in Hb.
Qed.

Lemma testbit_not w i : 0 <= i -> Z.testbit (not w) i = (i <? 64) && negb (Z.testbit w i).
Proof. intros H. unfold not. by rewrite Z.ldiff_spec, Z.testbit_ones_nonneg by lia. Qed.

Lemma testbit_shl w k i :
  0 <= k -> 0 <= i -> Z.testbit (shl w k) i = (i <? 64) && Z.testbit w (i - k).
Proof.
  intros Hk Hi. unfold shl, wrap.
  destruct (Z.ltb_spec i 64).
  - by rewrite Z.mod_pow2_bits_low, Z.shiftl_spec by lia.
  - by rewrite Z.mod_pow2_bits_high by lia.
Qed.

Lemma testbit_shr w k i : 0 <= i -> Z.testbit (shr w k) i = Z.testbit w (i + k).
Proof. intros Hi. unfold shr. by rewrite Z.shiftr_spec by lia. Qed.

Lemma shl_one k : 0 <= k < 64 -> shl 1 k = 2 ^ k.
Proof.
  intros H. unfold shl. rewrite Z.shiftl_1_l. apply wrap_small.
  split; [lia|]. apply Z.pow_lt_mono_r; lia.
Qed.

Lemma testbit_pow2 k i : 0 <= k -> Z.testbit (2 ^ k) i = (i =? k).
Proof. intros H. rewrite Z.pow2_bits_eqb by lia. apply Z.eqb_sym. Qed.

Lemma low_mask k : 0 <= k < 64 -> wrapping_sub (shl 1 k) 1 = Z.ones k.
Proof.
  intros H. unfold wrapping_sub. rewrite shl_one by done.
  rewrite wrap_small; [rewrite Z.ones_equiv; lia|].
  assert (0 < 2 ^ k < 2 ^ 64) by (split; [lia|apply Z.pow_lt_mono_r; lia]).
  unfold in_u. lia.
Qed.

Lemma in_u_land a b : in_u 64 a -> in_u 64 (Z.land a b).
Proof.
  intros Ha. apply in_u_bits.
  - apply Z.land_nonneg. left. apply Ha.
  - intros i Hi. rewrite Z.land_spec, testbit_high; done.
Qed.

Lemma in_u_lor a b : in_u 64 a -> in_u 64 b -> in_u 64 (Z.lor a b).
Proof.
  intros Ha Hb. apply in_u_bits.
  - apply Z.lor_nonneg. unfold in_u in *. lia.
  - intros i Hi. rewrite Z.lor_spec, !testbit_high; done.
Qed.

Lemma in_u_pow2 k : 0 <= k < 64 -> in_u 64 (2 ^ k).
Proof. intros H. split; [lia|]. apply Z.pow_lt_mono_r; lia. Qed.

Lemma in_u_not w : in_u 64 (not w).
Proof.
  unfold not. apply in_u_bits.
  - rewrite Z.ldiff_nonneg. left. done.
  - intros i Hi. by rewrite Z.ldiff_spec, Z.ones_spec_high by lia.
Qed.

Lemma in_u_shr w k : 0 <= k -> in_u 64 w -> in_u 64 (shr w k).
Proof.
  intros Hk Hw. apply in_u_bits.
  - apply Z.shiftr_nonneg. apply Hw.
  - intros i Hi. rewrite testbit_shr by lia. apply testbit_high; [done|lia].
Qed.

Lemma in_u_shl w k : in_u 64 (shl w k).
Proof. apply wrap_range. lia. Qed.

Lemma zero_bits w : in_u 64 w -> (w = 0 <-> forall i, 0 <= i < 64 -> Z.testbit w i = false).
Proof.
  intros Hw. split.
  - intros -> i _. apply Z.testbit_0_l.
  - intros H. apply word_ext; [done|unfold in_u; lia|].
    intros i Hi. by rewrite Z.testbit_0_l, H.
Qed.

Lemma land_pow2_zero w k :
  0 <= k < 64 -> in_u 64 w -> (Z.land w (2 ^ k) =? 0) = negb (Z.testbit w k).
Proof.
  intros Hk Hw. destruct (Z.eqb_spec (Z.land w (2 ^ k)) 0) as [E|E].
  - apply (f_equal (fun z => Z.testbit z k)) in E.
    rewrite Z.land_spec, testbit_pow2, Z.eqb_refl, andb_true_r, Z.testbit_0_l in E by lia.
    by rewrite E.
  - destruct (Z.testbit w k) eqn:B; [done|]. exfalso. apply E.
    apply zero_bits; [by apply in_u_land|]. intros i Hi.
    rewrite Z.land_spec, testbit_pow2 by lia.
    destruct (Z.eqb_spec i k) as [->|]; [by rewrite B|by rewrite andb_false_r].
Qed.

Lemma full_bits w :
  in_u 64 w -> ((w =? not 0) = true <-> forall i, 0 <= i < 64 -> Z.testbit w i = true).
Proof.
  intros Hw. rewrite Z.eqb_eq. split.
  - intros -> i Hi. rewrite testbit_not, Z.testbit_0_l by lia.
    by rewrite (proj2 (Z.ltb_lt i 64)) by lia.
  - intros H. apply word_ext; [done|apply in_u_not|]. intros i Hi.
    rewrite H, testbit_not, Z.testbit_0_l by lia. by rewrite (proj2 (Z.ltb_lt i 64)) by lia.
Qed.

(** On a non-zero word [trailing_zeros] is the index of the lowest set bit. *)
Lemma trailing_zeros_spec w :
  in_u 64 w -> w <> 0 ->
  0 <= trailing_zeros w < 64 /\ Z.testbit w (trailing_zeros w) = true /\
  (forall j, 0 <= j < trailing_zeros w -> Z.testbit w j = false).
Proof.
  intros Hw Hne. unfold trailing_zeros.
  destruct (List.find _ _) as [r|] eqn:E; simpl.
  - by apply find_zrange_Some in E.
  - exfalso. apply Hne, zero_bits; [done|]. by apply find_zrange_None.
Qed.

(** On a word other than all ones [trailing_ones] is the lowest clear bit. *)
Lemma trailing_ones_spec w :
  in_u 64 w -> w <> not 0 ->
  0 <= trailing_ones w < 64 /\ Z.testbit w (trailing_ones w) = false /\
  (forall j, 0 <= j < trailing_ones w -> Z.testbit w j = true).
Proof.
  intros Hw Hne. unfold trailing_ones.
  destruct (List.find _ _) as [r|] eqn:E; simpl.
  - apply find_zrange_Some in E as (H1 & H2 & H3).
    split_and!; [lia|lia|by apply negb_true_iff|].
    intros j Hj. by apply negb_false_iff, H3.
  - exfalso. apply Hne, Z.eqb_eq, full_bits; [done|]. intros i Hi.
    apply negb_false_iff. revert i Hi. by apply find_zrange_None.
Qed.

(** On a non-zero word [63 - leading_zeros] is the index of the highest set bit. *)
Lemma leading_zeros_spec w :
  in_u 64 w -> w <> 0 ->
  0 <= 63 - leading_zeros w < 64 /\ Z.testbit w (63 - leading_zeros w) = true /\
  (forall j, 63 - leading_zeros w < j < 64 -> Z.testbit w j = false).
Proof.
  intros Hw Hne. unfold leading_zeros.
  destruct (List.find _ _) as [r|] eqn:E; simpl.
  - apply find_zrange_Some in E as (H1 & H2 & H3). split_and!; [lia|lia|done|].
    intros j Hj. replace j with (63 - (63 - j)) by lia. apply H3. lia.
  - exfalso. apply Hne, zero_bits; [done|]. intros i Hi.
    replace i with (63 - (63 - i)) by lia.
    apply (proj1 (find_zrange_None (fun i => Z.testbit w (63 - i)) 0 64) E). lia.
Qed.

End U64.

(** ** The bit set *)

Module BitSet.

Record t := mk { words : list Z }.
#[global] Instance eta_t : Settable t := fun s => mk (words s).
#[export] Instance t_eq_dec : EqDecision t.
Proof. solve_decision. Defined.

(** The const parameter [N] is the length of the array. *)
Definition N (s : t) : Z := len (words s).

(** [self.words[i]]: every read of the source is guarded by [i < N]. *)
Definition word (s : t) (i : Z) : Z := default 0 (idx (words s) i).

Definition new (n : nat) : t := mk (replicate n 0).

Definition get (s : t) (index : Z) : bool :=
  if N s * 64 <=? index then false
  else
    let w := index / 64 in
    let bit := index mod 64 in
    negb (Z.land (word s w) (U64.shl 1 bit) =? 0).

Definition set (s : t) (index : Z) : t * bool :=
  if N s * 64 <=? index then (s, false)
  else
    let w := index / 64 in
    let bit := index mod 64 in
    let mask := U64.shl 1 bit in
    if Z.land (word s w) mask =? 0
    then (s <| words := <[Z.to_nat w := Z.lor (word s w) mask]> (words s) |>, true)
    else (s, false).

Definition unset (s : t) (index : Z) : t * bool :=
  if N s * 64 <=? index then (s, false)
  else
    let w := index / 64 in
    let bit := index mod 64 in
    let mask := U64.shl 1 bit in
    if negb (Z.land (word s w) mask =? 0)
    then (s <| words := <[Z.to_nat w := Z.land (word s w) (U64.not mask)]> (words s) |>, true)
    else (s, false).

Definition clear (s : t) : t := mk (replicate (length (words s)) 0).
Definition fill (s : t) : t := mk (replicate (length (words s)) (U64.not 0)).

Fixpoint first_zero_loop (ws : list Z) (base limit : Z) : Z :=
  match ws with
  | [] => Z.min base limit
  | w :: ws =>
      if w =? U64.not 0 then first_zero_loop ws (base + 64) limit
      else Z.min (base + U64.trailing_ones w) limit
  end.
Definition first_zero (s : t) (limit : Z) : Z := first_zero_loop (words s) 0 limit.

(** The [while] loops of [next_zero] and [next_one] visit each word at most
    once and leave past the last one, so [N + 1] rounds are enough; the
    theorems below show that the loops do return the searched bit. *)
Fixpoint next_zero_loop (fuel : nat) (s : t) (i limit : Z) : option Z :=
  match fuel with
  | O => None
  | S fuel =>
      if i <? limit then
        let word_idx := i / 64 in
        if N s <=? word_idx then Some i
        else
          let bit_idx := i mod 64 in
          let w := word s word_idx in
          let mask := U64.not (U64.wrapping_sub (U64.shl 1 bit_idx) 1) in
          let inverted := U64.not w in
          let masked := Z.land inverted mask in
          if negb (masked =? 0) then
            let trailing := U64.trailing_zeros masked in
            let found := word_idx * 64 + trailing in
            if found <? limit then Some found else None
          else next_zero_loop fuel s ((word_idx + 1) * 64) limit
      else None
  end.
Definition next_zero (s : t) (start limit : Z) : option Z :=
  next_zero_loop (S (length (words s))) s start limit.

Fixpoint next_one_loop (fuel : nat) (s : t) (i limit : Z) : option Z :=
  match fuel with
  | O => None
  | S fuel =>
      if i <? limit then
        let word_idx := i / 64 in
        if N s <=? word_idx then None
        else
          let bit_idx := i mod 64 in
          let w := word s word_idx in
          let mask := U64.not (U64.wrapping_sub (U64.shl 1 bit_idx) 1) in
          let masked := Z.land w mask in
          if negb (masked =? 0) then
            let trailing := U64.trailing_zeros masked in
            let found := word_idx * 64 + trailing in
            if found <? limit then Some found else None
          else next_one_loop fuel s ((word_idx + 1) * 64) limit
      else None
  end.
Definition next_one (s : t) (start limit : Z) : option Z :=
  next_one_loop (S (length (words s))) s start limit.

Definition next_range (s : t) (search_start limit : Z) : option (Z * Z) :=
  start ← next_one s search_start limit;
  let end_ := default limit (next_zero s start limit) in
  Some (wrap 16 start, wrap 16 end_).

(** The backward scan over full words, from [word_idx] down to word 0. *)
Fixpoint last_one_loop (s : t) (word_idx : nat) : option Z :=
  let w := word s (Z.of_nat word_idx) in
  if negb (w =? 0) then Some (Z.of_nat word_idx * 64 + (63 - U64.leading_zeros w))
  else
    match word_idx with
    | O => None
    | S k => last_one_loop s k
    end.
Definition last_one (s : t) (limit : Z) : option Z :=
  let limit := Z.min limit (N s * 64) in
  if limit =? 0 then None
  else
    let last_idx := limit - 1 in
    let word_idx := last_idx / 64 in
    let bit_limit := last_idx mod 64 + 1 in
    if bit_limit <? 64 then
      let mask := U64.shl 1 bit_limit - 1 in
      let masked_word := Z.land (word s word_idx) mask in
      if negb (masked_word =? 0) then
        Some (word_idx * 64 + (63 - U64.leading_zeros masked_word))
      else if word_idx =? 0 then None
      else last_one_loop s (Z.to_nat (word_idx - 1))
    else last_one_loop s (Z.to_nat word_idx).

Definition sack_mask (s : t) (base_index : Z) : Z :=
  let start := base_index + 1 in
  let word_idx := start / 64 in
  let bit_idx := start mod 64 in
  if N s <=? word_idx then 0
  else
    let mask := U64.shr (word s word_idx) bit_idx in
    if (0 <? bit_idx) && (word_idx + 1 <? N s)
    then Z.lor mask (U64.shl (word s (word_idx + 1)) (64 - bit_idx))
    else mask.

Definition count_ones_between (s : t) (start end_ : Z) : Z :=
  let end_ := Z.min end_ (N s * 64) in
  if end_ <=? start then 0
  else
    let start_word := start / 64 in
    let end_word := (end_ - 1) / 64 in
    if start_word =? end_word then
      let mask := Z.land (U64.shl (U64.not 0) (start mod 64))
                         (U64.shr (U64.not 0) (63 - (end_ - 1) mod 64)) in
      U64.count_ones (Z.land (word s start_word) mask)
    else
      let start_mask := U64.shl (U64.not 0) (start mod 64) in
      let count := U64.count_ones (Z.land (word s start_word) start_mask) in
      let count := foldl (fun c i => c + U64.count_ones (word s i)) count
                         (zrange (start_word + 1) end_word) in
      let end_mask := U64.shr (U64.not 0) (63 - (end_ - 1) mod 64) in
      count + U64.count_ones (Z.land (word s end_word) end_mask).

(** *** Well-formedness and the bit view *)

(** Every word is a [u64]. *)
Definition wf (s : t) : Prop := Forall (in_u 64) (words s).

Lemma word_in_u s i : wf s -> in_u 64 (word s i).
Proof.
  intros H. unfold word. destruct (idx (words s) i) as [w|] eqn:E; simpl.
  - apply idx_Some in E as [_ E]. by eapply Forall_lookup_1.
  - unfold in_u. lia.
Qed.

Lemma split_index i : i = i / 64 * 64 + i mod 64 /\ 0 <= i mod 64 < 64.
Proof. pose proof (Z.div_mod i 64). pose proof (Z.mod_pos_bound i 64). lia. Qed.

Lemma get_word s i :
  wf s -> i < N s * 64 -> get s i = Z.testbit (word s (i / 64)) (i mod 64).
Proof.
  intros Hwf Hi. pose proof (split_index i). unfold get.
  rewrite (proj2 (Z.leb_gt _ _)) by lia. cbv zeta.
  rewrite U64.shl_one, U64.land_pow2_zero, negb_involutive; [done|lia| |lia].
  by apply word_in_u.
Qed.

(** Bit [b] of word [k] is element [64 k + b] of the set. *)
Lemma get_split s k b :
  wf s -> 0 <= k < N s -> 0 <= b < 64 -> get s (k * 64 + b) = Z.testbit (word s k) b.
Proof.
  intros Hwf Hk Hb. rewrite get_word by (done || lia). f_equal; [f_equal|].
  - rewrite Z.div_add_l, Z.div_small by lia. lia.
  - rewrite Z.add_comm, Z.mod_add, Z.mod_small by lia. done.
Qed.

Lemma get_out s i : N s * 64 <= i -> get s i = false.
Proof. intros H. unfold get. by rewrite (proj2 (Z.leb_le _ _)). Qed.

Lemma get_true_lt s i : get s i = true -> i < N s * 64.
Proof. intros H. destruct (Z.lt_ge_cases i (N s * 64)); [done|]. rewrite get_out in H; done. Qed.

Lemma word_insert s i v k :
  0 <= i < N s -> 0 <= k ->
  word (s <| words := <[Z.to_nat i := v]> (words s) |>) k = if decide (i = k) then v else word s k.
Proof.
  intros Hi Hk. unfold word. cbn. rewrite idx_insert by done.
  by case_decide.
Qed.

Lemma wf_insert s i v :
  wf s -> in_u 64 v -> wf (s <| words := <[Z.to_nat i := v]> (words s) |>).
Proof. intros Hwf Hv. unfold wf. cbn. by apply Forall_insert. Qed.

Lemma N_insert s i v : N (s <| words := <[Z.to_nat i := v]> (words s) |>) = N s.
Proof. unfold N. cbn. apply len_insert. Qed.

Lemma get_insert s i v j :
  wf s -> in_u 64 v -> 0 <= i < N s -> 0 <= j ->
  get (s <| words := <[Z.to_nat i := v]> (words s) |>) j =
  if decide (i = j / 64) then Z.testbit v (j mod 64) else get s j.
Proof.
  intros Hwf Hv Hi Hj. pose proof (split_index j).
  destruct (Z.lt_ge_cases j (N s * 64)) as [Hlt|Hge].
  - rewrite !get_word; [|done|done|by apply wf_insert|by rewrite N_insert].
    rewrite word_insert by lia. by case_decide.
  - rewrite !get_out; [|done|by rewrite N_insert]. case_decide; [lia|done].
Qed.

(** Two positions of the same word with the same offset are equal. *)
Lemma split_eq i j : i / 64 = j / 64 -> (i mod 64 =? j mod 64) = (i =? j).
Proof.
  intros H. pose proof (split_index i). pose proof (split_index j).
  destruct (Z.eqb_spec (i mod 64) (j mod 64)), (Z.eqb_spec i j); lia.
Qed.

Lemma set_spec s i :
  wf s -> 0 <= i ->
  wf (set s i).1 /\ N (set s i).1 = N s /\
  (set s i).2 = (i <? N s * 64) && negb (get s i) /\
  (forall j, 0 <= j -> get (set s i).1 j = ((j =? i) && (i <? N s * 64)) || get s j).
Proof.
  intros Hwf Hi. pose proof (split_index i) as Hsp. unfold set.
  destruct (Z.leb_spec (N s * 64) i) as [Hout|Hin].
  { split_and!; [done|done| |].
    - by rewrite (proj2 (Z.ltb_ge _ _)).
    - intros j _. rewrite (proj2 (Z.ltb_ge _ _)) by done. by rewrite andb_false_r. }
  cbv zeta. rewrite U64.shl_one, U64.land_pow2_zero, <- get_word by (try apply word_in_u; done || lia).
  rewrite (proj2 (Z.ltb_lt i _)) by lia.
  assert (in_u 64 (Z.lor (word s (i / 64)) (2 ^ (i mod 64)))).
  { apply U64.in_u_lor; [by apply word_in_u|apply U64.in_u_pow2; lia]. }
  destruct (get s i) eqn:G; cbn [negb fst snd andb].
  - split_and!; [done..|]. intros j _. rewrite andb_true_r.
    by destruct (Z.eqb_spec j i) as [->|].
  - split_and!; [by apply wf_insert|by rewrite N_insert|done|]. intros j Hj.
    pose proof (split_index j). rewrite get_insert by (done || lia). case_decide as E.
    + rewrite Z.lor_spec, U64.testbit_pow2, Z.eqb_sym, split_eq, andb_true_r by lia.
      rewrite get_word, E, orb_comm, Z.eqb_sym by (done || lia). done.
    + destruct (Z.eqb_spec j i) as [->|]; [lia|done].
Qed.

Lemma unset_spec s i :
  wf s -> 0 <= i ->
  wf (unset s i).1 /\ N (unset s i).1 = N s /\ (unset s i).2 = get s i /\
  (forall j, 0 <= j -> get (unset s i).1 j = negb (j =? i) && get s j).
Proof.
  intros Hwf Hi. pose proof (split_index i) as Hsp. unfold unset.
  destruct (Z.leb_spec (N s * 64) i) as [Hout|Hin].
  { rewrite (get_out s i) by done. split_and!; [done..|]. intros j _.
    destruct (Z.eqb_spec j i) as [->|]; [|done]. by rewrite get_out. }
  cbv zeta. rewrite U64.shl_one, U64.land_pow2_zero, <- get_word by (try apply word_in_u; done || lia).
  assert (in_u 64 (Z.land (word s (i / 64)) (U64.not (2 ^ (i mod 64))))).
  { apply U64.in_u_land. by apply word_in_u. }
  rewrite negb_involutive. destruct (get s i) eqn:G; cbn [negb fst snd].
  - split_and!; [by apply wf_insert|by rewrite N_insert|done|]. intros j Hj.
    pose proof (split_index j). rewrite get_insert by (done || lia). case_decide as E.
    + rewrite Z.land_spec, U64.testbit_not, U64.testbit_pow2 by lia.
      rewrite (proj2 (Z.ltb_lt _ 64)) by lia.
      rewrite split_eq, get_word, E by (done || lia). apply andb_comm.
    + destruct (Z.eqb_spec j i) as [->|]; [lia|done].
  - split_and!; [done..|]. intros j _.
    destruct (Z.eqb_spec j i) as [->|]; [by rewrite G|done].
Qed.

Lemma get_replicate n w j :
  in_u 64 w -> 0 <= j ->
  get (mk (replicate n w)) j = (j <? Z.of_nat n * 64) && Z.testbit w (j mod 64).
Proof.
  intros Hw Hj. pose proof (split_index j).
  assert (N (mk (replicate n w)) = Z.of_nat n) as HN.
  { unfold N, len. cbn. by rewrite length_replicate. }
  destruct (Z.ltb_spec j (Z.of_nat n * 64)).
  - rewrite get_word; [|by apply Forall_replicate|by rewrite HN].
    unfold word, idx. cbn. rewrite (proj2 (Z.leb_le 0 _)) by lia.
    by rewrite lookup_replicate_2 by lia.
  - apply get_out. by rewrite HN.
Qed.

Lemma new_spec n : wf (new n) /\ N (new n) = Z.of_nat n /\ (forall j, 0 <= j -> get (new n) j = false).
Proof.
  split_and!.
  - apply Forall_replicate. unfold in_u. lia.
  - unfold N, new, len. cbn. by rewrite length_replicate.
  - intros j Hj. unfold new. rewrite get_replicate, Z.testbit_0_l by (unfold in_u; lia).
    apply andb_false_r.
Qed.

Lemma clear_spec s :
  wf (clear s) /\ N (clear s) = N s /\ (forall j, 0 <= j -> get (clear s) j = false).
Proof. apply (new_spec (length (words s))). Qed.

Lemma fill_spec s :
  wf (fill s) /\ N (fill s) = N s /\ (forall j, 0 <= j -> get (fill s) j = (j <? N s * 64)).
Proof.
  split_and!.
  - apply Forall_replicate. apply U64.in_u_not.
  - unfold N, fill, len. cbn. by rewrite length_replicate.
  - intros j Hj. unfold fill. rewrite get_replicate by (done || apply U64.in_u_not).
    pose proof (split_index j). rewrite U64.testbit_not, Z.testbit_0_l by lia.
    rewrite (proj2 (Z.ltb_lt (j mod 64) 64)) by lia. apply andb_true_r.
Qed.

(** *** Scans *)

(** The mask of the scans keeps the bits from [b] upwards. *)
Lemma testbit_masked w b i :
  0 <= b < 64 -> 0 <= i < 64 ->
  Z.testbit (Z.land w (U64.not (U64.wrapping_sub (U64.shl 1 b) 1))) i =
  Z.testbit w i && (b <=? i).
Proof.
  intros Hb Hi. rewrite U64.low_mask by done.
  rewrite Z.land_spec, U64.testbit_not, (proj2 (Z.ltb_lt i 64)) by lia. simpl. f_equal.
  destruct (Z.leb_spec b i).
  - by rewrite Z.ones_spec_high by lia.
  - by rewrite Z.ones_spec_low by lia.
Qed.

(** The first set bit of the masked word, from offset [b] on. *)
Lemma masked_first w b :
  in_u 64 w -> 0 <= b < 64 ->
  let m := Z.land w (U64.not (U64.wrapping_sub (U64.shl 1 b) 1)) in
  (m = 0 /\ forall i, b <= i < 64 -> Z.testbit w i = false) \/
  (m <> 0 /\ b <= U64.trailing_zeros m < 64 /\ Z.testbit w (U64.trailing_zeros m) = true /\
   forall i, b <= i < U64.trailing_zeros m -> Z.testbit w i = false).
Proof.
  intros Hw Hb m. assert (in_u 64 m) as Hm by (by apply U64.in_u_land).
  assert (forall i, 0 <= i < 64 -> Z.testbit m i = Z.testbit w i && (b <=? i)) as Hbit
    by (intros; by apply testbit_masked).
  destruct (Z.eq_dec m 0) as [E|Hne].
  - left. split; [done|]. intros i Hi.
    pose proof (proj1 (U64.zero_bits m Hm) E i ltac:(lia)) as Hz.
    rewrite Hbit, (proj2 (Z.leb_le b i)), andb_true_r in Hz by lia. done.
  - right. destruct (U64.trailing_zeros_spec m Hm Hne) as (H1 & H2 & H3).
    rewrite Hbit in H2 by done. apply andb_true_iff in H2 as [H2 H4%Z.leb_le].
    split_and!; [done|lia|lia|done|]. intros i Hi.
    specialize (H3 i ltac:(lia)). rewrite Hbit in H3 by lia.
    by rewrite (proj2 (Z.leb_le b i)), andb_true_r in H3 by lia.
Qed.

Lemma next_one_loop_spec s limit fuel i :
  wf s -> 0 <= i -> N s + 1 - i / 64 <= Z.of_nat fuel -> (0 < fuel)%nat ->
  match next_one_loop fuel s i limit with
  | Some r => i <= r < limit /\ get s r = true /\ (forall j, i <= j < r -> get s j = false)
  | None => forall j, i <= j < limit -> get s j = false
  end.
Proof.
  intros Hwf. revert i. induction fuel as [|fuel IH]; intros i Hi Hf Hpos; [lia|].
  cbn [next_one_loop]. pose proof (split_index i) as Hsp.
  destruct (Z.ltb_spec i limit); [|intros; lia].
  destruct (Z.leb_spec (N s) (i / 64)) as [HN|HN]; [intros; apply get_out; lia|].
  cbv zeta.
  assert (forall b, 0 <= b < 64 -> get s (i / 64 * 64 + b) = Z.testbit (word s (i / 64)) b) as Hg
    by (intros; apply get_split; done || lia).
  destruct (masked_first (word s (i / 64)) (i mod 64) (word_in_u s _ Hwf) ltac:(lia))
    as [[-> Hz]|(Hne & Ht & Hset & Hbelow)].
  - cbn. specialize (IH ((i / 64 + 1) * 64) ltac:(lia)).
    rewrite Z.div_mul in IH by lia. specialize (IH ltac:(lia) ltac:(lia)).
    assert (forall j, i <= j < (i / 64 + 1) * 64 -> get s j = false) as Hskip.
    { intros j Hj. replace j with (i / 64 * 64 + (j - i / 64 * 64)) by lia.
      rewrite Hg by lia. apply Hz. lia. }
    destruct (next_one_loop fuel s _ limit) as [r|].
    + destruct IH as (? & ? & Hb). split_and!; [lia|lia|done|]. intros j Hj.
      destruct (Z.lt_ge_cases j ((i / 64 + 1) * 64)); [apply Hskip|apply Hb]; lia.
    + intros j Hj. destruct (Z.lt_ge_cases j ((i / 64 + 1) * 64)); [apply Hskip|apply IH]; lia.
  - rewrite (proj2 (Z.eqb_neq _ _)) by done. cbn [negb].
    assert (forall j, i <= j < i / 64 * 64 + U64.trailing_zeros
             (Z.land (word s (i / 64)) (U64.not (U64.wrapping_sub (U64.shl 1 (i mod 64)) 1))) ->
             get s j = false) as Hskip.
    { intros j Hj. replace j with (i / 64 * 64 + (j - i / 64 * 64)) by lia.
      rewrite Hg by lia. apply Hbelow. lia. }
    destruct (Z.ltb_spec (i / 64 * 64 + U64.trailing_zeros
      (Z.land (word s (i / 64)) (U64.not (U64.wrapping_sub (U64.shl 1 (i mod 64)) 1)))) limit).
    + split_and!; [lia|lia| |done]. by rewrite Hg by lia.
    + intros j Hj. apply Hskip. lia.
Qed.

(** [next_one] is the search for a set bit. *)
Lemma next_one_spec s start limit :
  wf s -> 0 <= start -> next_one s start limit = List.find (get s) (zrange start limit).
Proof.
  intros Hwf Hs. unfold next_one.
  assert (N s + 1 - start / 64 <= Z.of_nat (S (length (words s)))) as Hf
    by (unfold N, len; pose proof (Z.div_pos start 64); lia).
  pose proof (next_one_loop_spec s limit _ start Hwf Hs Hf ltac:(lia)) as H.
  symmetry. destruct (next_one_loop _ _ _ _) as [r|].
  - apply find_zrange_Some. tauto.
  - by apply find_zrange_None.
Qed.

(** [next_zero] scans the complemented words, and takes the bits past the
    array for zeros. *)
Definition complement (s : t) : t := mk (U64.not <$> words s).

Lemma N_complement s : N (complement s) = N s.
Proof. unfold N, len. cbn. by rewrite length_fmap. Qed.

Lemma word_complement s k : 0 <= k < N s -> word (complement s) k = U64.not (word s k).
Proof.
  intros Hk. unfold word. cbn. unfold idx. rewrite (proj2 (Z.leb_le 0 k)) by lia.
  rewrite list_lookup_fmap. destruct (words s !! Z.to_nat k) eqn:E; [done|].
  apply lookup_ge_None in E. unfold N, len in Hk. lia.
Qed.

Lemma wf_complement s : wf (complement s).
Proof. apply Forall_fmap, Forall_true. intros w. apply U64.in_u_not. Qed.

Lemma get_complement s j : wf s -> 0 <= j < N s * 64 -> get (complement s) j = negb (get s j).
Proof.
  intros Hwf Hj. pose proof (split_index j).
  rewrite !get_word; [|done|lia|apply wf_complement|rewrite N_complement; lia].
  rewrite word_complement, U64.testbit_not by lia. by rewrite (proj2 (Z.ltb_lt _ 64)) by lia.
Qed.

Lemma next_zero_loop_complement s limit fuel i :
  wf s -> 0 <= i -> N s + 1 - i / 64 <= Z.of_nat fuel -> (0 < fuel)%nat ->
  next_zero_loop fuel s i limit =
  match next_one_loop fuel (complement s) i limit with
  | Some r => Some r
  | None => if Z.max i (N s * 64) <? limit then Some (Z.max i (N s * 64)) else None
  end.
Proof.
  intros Hwf. revert i. induction fuel as [|fuel IH]; intros i Hi Hf Hpos; [lia|].
  cbn [next_one_loop next_zero_loop]. rewrite N_complement. pose proof (split_index i).
  destruct (Z.ltb_spec i limit); [|by rewrite (proj2 (Z.ltb_ge _ _)) by lia].
  destruct (Z.leb_spec (N s) (i / 64)) as [HN|HN].
  { rewrite Z.max_l by lia. by rewrite (proj2 (Z.ltb_lt _ _)). }
  cbv zeta. rewrite word_complement by (pose proof (Z.div_pos i 64); lia).
  pose proof (masked_first (U64.not (word s (i / 64))) (i mod 64) (U64.in_u_not _) ltac:(lia)) as Hm.
  set (m := Z.land _ _) in *. cbv zeta in Hm. fold m in Hm.
  destruct (Z.eqb_spec m 0) as [E|E]; cbn [negb].
  - rewrite IH; [|lia|rewrite Z.div_mul by lia; lia|lia].
    rewrite !Z.max_r by lia. done.
  - destruct Hm as [[? _]|(_ & Ht & _)]; [done|].
    destruct (Z.ltb_spec (i / 64 * 64 + U64.trailing_zeros m) limit); [done|].
    by rewrite (proj2 (Z.ltb_ge _ _)) by lia.
Qed.

(** [next_zero] is the search for a clear bit. *)
Lemma next_zero_spec s start limit :
  wf s -> 0 <= start ->
  next_zero s start limit = List.find (fun j => negb (get s j)) (zrange start limit).
Proof.
  intros Hwf Hs. unfold next_zero.
  assert (N s + 1 - start / 64 <= Z.of_nat (S (length (words s)))) as Hf
    by (unfold N, len; pose proof (Z.div_pos start 64); lia).
  rewrite next_zero_loop_complement by (done || lia).
  pose proof (next_one_loop_spec (complement s) limit (S (length (words s))) start
    (wf_complement s) Hs) as H. rewrite N_complement in H. specialize (H Hf ltac:(lia)).
  symmetry. destruct (next_one_loop _ _ _ _) as [r|].
  - destruct H as (H1 & H2 & H3). pose proof (get_true_lt _ _ H2) as Hlt.
    rewrite N_complement in Hlt. apply find_zrange_Some. split; [lia|]. split.
    + by rewrite <- get_complement by (done || lia).
    + intros j Hj. rewrite <- get_complement by (done || lia). by apply H3.
  - assert (forall j, start <= j < limit -> j < N s * 64 -> negb (get s j) = false) as Hset.
    { intros j Hj Hlt. rewrite <- get_complement by (done || lia). by apply H. }
    destruct (Z.ltb_spec (Z.max start (N s * 64)) limit).
    + apply find_zrange_Some. split_and!; [lia|lia|by rewrite get_out by lia|].
      intros j Hj. apply Hset; lia.
    + apply find_zrange_None. intros j Hj. apply Hset; lia.
Qed.

(** [first_zero] is the same search from 0, clamped. *)
Lemma first_zero_loop_spec s pre ws limit :
  wf s -> words s = pre ++ ws ->
  let r := first_zero_loop ws (len pre * 64) limit in
  exists z, r = Z.min z limit /\ len pre * 64 <= z <= N s * 64 /\
    (z < N s * 64 -> get s z = false) /\
    (forall j, len pre * 64 <= j < z -> get s j = true).
Proof.
  intros Hwf. revert pre. induction ws as [|w ws IH]; intros pre Heq; cbn [first_zero_loop].
  - assert (N s = len pre) as HN by (unfold N; rewrite Heq, app_nil_r; done).
    exists (len pre * 64). split_and!; [done|lia|lia|lia|intros; lia].
  - assert (word s (len pre) = w) as Hw.
    { unfold word, idx, len. rewrite Heq, (proj2 (Z.leb_le 0 _)), Nat2Z.id by lia.
      by rewrite list_lookup_middle. }
    assert (in_u 64 w) as Hin by (rewrite <- Hw; by apply word_in_u).
    assert (len pre < N s) as HN.
    { unfold N. rewrite Heq, len_app, len_cons. pose proof (len_nonneg ws). lia. }
    assert (forall b, 0 <= b < 64 -> get s (len pre * 64 + b) = Z.testbit w b) as Hg.
    { intros b Hb. rewrite <- Hw. apply get_split; [done| |done]. pose proof (len_nonneg pre). lia. }
    destruct (w =? U64.not 0) eqn:E.
    + pose proof (proj1 (U64.full_bits w Hin) E) as Hfull.
      destruct (IH (pre ++ [w])) as (z & Hr & Hz & Hz' & Hb); [by rewrite <- app_assoc|].
      rewrite len_app, len_cons in *. replace ((len pre + (1 + len [])) * 64) with (len pre * 64 + 64) in *
        by (unfold len; simpl; lia).
      exists z. split_and!; [done|lia|lia|done|]. intros j Hj.
      destruct (Z.lt_ge_cases j (len pre * 64 + 64)); [|apply Hb; lia].
      replace j with (len pre * 64 + (j - len pre * 64)) by lia. rewrite Hg by lia. apply Hfull. lia.
    + apply Z.eqb_neq in E. destruct (U64.trailing_ones_spec w Hin E) as (H1 & H2 & H3).
      exists (len pre * 64 + U64.trailing_ones w). split_and!; [done|lia|lia|by rewrite Hg|].
      intros j Hj. replace j with (len pre * 64 + (j - len pre * 64)) by lia.
      rewrite Hg by lia. apply H3. lia.
Qed.

Lemma first_zero_spec s limit :
  wf s -> 0 <= limit ->
  first_zero s limit =
  default (Z.min (N s * 64) limit)
          (List.find (fun j => negb (get s j)) (zrange 0 (Z.min (N s * 64) limit))).
Proof.
  intros Hwf Hl. destruct (first_zero_loop_spec s [] (words s) limit Hwf eq_refl)
    as (z & Hr & Hz & Hz' & Hb). unfold first_zero. change (len [] * 64) with 0 in *. rewrite Hr.
  destruct (List.find _ _) as [r|] eqn:E; simpl.
  - apply find_zrange_Some in E as (H1 & H2 & H3).
    assert (z = r); [|lia]. destruct (Z.lt_total z r) as [Hlt|[?|Hgt]]; [|done|].
    + specialize (H3 z ltac:(lia)). rewrite Hz' in H3 by lia. done.
    + rewrite Hb in H2 by lia. done.
  - rewrite find_zrange_None in E.
    destruct (Z.lt_ge_cases z (Z.min (N s * 64) limit)) as [Hlt|]; [|lia].
    specialize (E z ltac:(lia)). rewrite Hz' in E by lia. done.
Qed.

(** [last_one] is the highest set bit below the limit. *)
Lemma last_one_loop_eq s k :
  last_one_loop s k =
  if negb (word s (Z.of_nat k) =? 0)
  then Some (Z.of_nat k * 64 + (63 - U64.leading_zeros (word s (Z.of_nat k))))
  else match k with O => None | S k => last_one_loop s k end.
Proof. by destruct k. Qed.

Lemma last_one_loop_spec s k :
  wf s -> Z.of_nat k < N s ->
  match last_one_loop s k with
  | Some r => 0 <= r < (Z.of_nat k + 1) * 64 /\ get s r = true /\
              (forall j, r < j < (Z.of_nat k + 1) * 64 -> get s j = false)
  | None => forall j, 0 <= j < (Z.of_nat k + 1) * 64 -> get s j = false
  end.
Proof.
  intros Hwf. induction k as [k IH] using (well_founded_induction lt_wf). intros Hk.
  rewrite last_one_loop_eq. set (K := Z.of_nat k) in *. assert (K = Z.of_nat k) as HK by done.
  assert (forall b, 0 <= b < 64 -> get s (K * 64 + b) = Z.testbit (word s K) b) as Hg
    by (intros; apply get_split; done || lia).
  destruct (Z.eqb_spec (word s K) 0) as [E|E]; cbn [negb].
  - pose proof (proj1 (U64.zero_bits _ (word_in_u s K Hwf)) E) as Hz.
    assert (forall j, K * 64 <= j < (K + 1) * 64 -> get s j = false) as Hskip.
    { intros j Hj. replace j with (K * 64 + (j - K * 64)) by lia. rewrite Hg by lia. apply Hz; lia. }
    destruct k as [|k]; [intros j Hj; apply Hskip; lia|].
    specialize (IH k ltac:(lia) ltac:(lia)). replace (Z.of_nat k + 1) with K in IH by lia.
    destruct (last_one_loop s k) as [r|].
    + destruct IH as (? & ? & Hb). split_and!; [lia|lia|done|]. intros j Hj.
      destruct (Z.lt_ge_cases j (K * 64)); [apply Hb|apply Hskip]; lia.
    + intros j Hj. destruct (Z.lt_ge_cases j (K * 64)); [apply IH|apply Hskip]; lia.
  - destruct (U64.leading_zeros_spec _ (word_in_u s K Hwf) E) as (H1 & H2 & H3).
    split_and!; [lia|lia|by rewrite Hg|]. intros j Hj.
    replace j with (K * 64 + (j - K * 64)) by lia. rewrite Hg by lia. apply H3; lia.
Qed.

Lemma testbit_low_mask w b i :
  0 <= b < 64 -> 0 <= i < 64 ->
  Z.testbit (Z.land w (U64.shl 1 b - 1)) i = Z.testbit w i && (i <? b).
Proof.
  intros Hb Hi. rewrite U64.shl_one by done.
  replace (2 ^ b - 1) with (Z.ones b) by (rewrite Z.ones_equiv; lia).
  rewrite Z.land_spec, Z.testbit_ones_nonneg by lia. done.
Qed.

Lemma last_one_spec s limit :
  wf s -> 0 <= limit ->
  match last_one s limit with
  | Some r => 0 <= r < limit /\ get s r = true /\ (forall j, r < j < limit -> get s j = false)
  | None => forall j, 0 <= j < limit -> get s j = false
  end.
Proof.
  intros Hwf Hl.
  enough (match last_one s limit with
  | Some r => 0 <= r < Z.min limit (N s * 64) /\ get s r = true /\
              (forall j, r < j < Z.min limit (N s * 64) -> get s j = false)
  | None => forall j, 0 <= j < Z.min limit (N s * 64) -> get s j = false
  end) as H.
  { destruct (last_one s limit) as [r|].
    - destruct H as (H1 & H2 & H3). split_and!; [lia|lia|done|]. intros j Hj.
      destruct (Z.lt_ge_cases j (N s * 64)); [apply H3|apply get_out]; lia.
    - intros j Hj. destruct (Z.lt_ge_cases j (N s * 64)); [apply H|apply get_out]; lia. }
  unfold last_one. set (lim := Z.min limit (N s * 64)).
  assert (0 <= N s) by apply len_nonneg.
  destruct (Z.eqb_spec lim 0); [intros; lia|].
  cbv zeta. pose proof (split_index (lim - 1)) as Hsp.
  set (K := (lim - 1) / 64) in *. set (b := (lim - 1) mod 64) in *.
  assert (0 <= K < N s) as HK by lia.
  pose proof (fun k => last_one_loop_spec s k Hwf) as Hloop.
  destruct (Z.ltb_spec (b + 1) 64).
  - pose proof (word_in_u s K Hwf) as Hw.
    assert (forall i, 0 <= i < 64 -> get s (K * 64 + i) = Z.testbit (word s K) i) as Hg
      by (intros; apply get_split; done || lia).
    pose proof (testbit_low_mask (word s K) (b + 1)) as Hbit.
    set (m := Z.land _ _) in *. assert (in_u 64 m) as Hm by (by apply U64.in_u_land).
    destruct (Z.eqb_spec m 0) as [E|E]; cbn [negb].
    + assert (forall j, K * 64 <= j < lim -> get s j = false) as Hskip.
      { intros j Hj. replace j with (K * 64 + (j - K * 64)) by lia. rewrite Hg by lia.
        pose proof (proj1 (U64.zero_bits m Hm) E (j - K * 64) ltac:(lia)) as Hz.
        rewrite Hbit, (proj2 (Z.ltb_lt _ (b + 1))), andb_true_r in Hz by lia. done. }
      destruct (Z.eqb_spec K 0); [intros j Hj; apply Hskip; lia|].
      specialize (Hloop (Z.to_nat (K - 1)) ltac:(lia)).
      replace (Z.of_nat (Z.to_nat (K - 1)) + 1) with K in Hloop by lia.
      destruct (last_one_loop s _) as [r|].
      * destruct Hloop as (? & ? & Hb). split_and!; [lia|lia|done|]. intros j Hj.
        destruct (Z.lt_ge_cases j (K * 64)); [apply Hb|apply Hskip]; lia.
      * intros j Hj. destruct (Z.lt_ge_cases j (K * 64)); [apply Hloop|apply Hskip]; lia.
    + destruct (U64.leading_zeros_spec m Hm E) as (H1 & H2 & H3).
      rewrite Hbit in H2 by lia. apply andb_true_iff in H2 as [H2 H4%Z.ltb_lt].
      split_and!; [lia|lia|by rewrite Hg by lia|]. intros j Hj.
      replace j with (K * 64 + (j - K * 64)) by lia. rewrite Hg by lia.
      specialize (H3 (j - K * 64) ltac:(lia)).
      rewrite Hbit, (proj2 (Z.ltb_lt _ (b + 1))), andb_true_r in H3 by lia. done.
  - specialize (Hloop (Z.to_nat K) ltac:(lia)).
    replace ((Z.of_nat (Z.to_nat K) + 1) * 64) with lim in Hloop by lia. done.
Qed.

(** Bit [k] of the SACK mask is element [base_index + 1 + k]. *)
Lemma sack_mask_spec s base :
  wf s -> 0 <= base ->
  in_u 64 (sack_mask s base) /\
  (forall k, 0 <= k < 64 -> Z.testbit (sack_mask s base) k = get s (base + 1 + k)).
Proof.
  intros Hwf Hb. unfold sack_mask. cbv zeta. pose proof (split_index (base + 1)) as Hsp.
  set (W := (base + 1) / 64) in *. set (b := (base + 1) mod 64) in *.
  assert (0 <= W) by lia.
  destruct (Z.leb_spec (N s) W) as [HN|HN].
  { split; [unfold in_u; lia|]. intros k Hk. rewrite Z.testbit_0_l. symmetry. apply get_out. lia. }
  pose proof (word_in_u s W Hwf) as Hw.
  assert (forall i, 0 <= i < 64 -> get s (W * 64 + i) = Z.testbit (word s W) i) as Hg
    by (intros; apply get_split; done || lia).
  assert (forall k, 0 <= k < 64 -> k + b < 64 ->
    Z.testbit (U64.shr (word s W) b) k = get s (base + 1 + k)) as Hlow.
  { intros k Hk Hkb. rewrite U64.testbit_shr, <- Hg by lia. f_equal. lia. }
  assert (forall k, 64 <= k + b -> 0 <= k -> Z.testbit (U64.shr (word s W) b) k = false) as Hhigh.
  { intros k Hk Hk0. rewrite U64.testbit_shr by lia. by apply U64.testbit_high. }
  destruct (Z.ltb_spec 0 b), (Z.ltb_spec (W + 1) (N s)); cbn [andb].
  - split; [apply U64.in_u_lor; [apply U64.in_u_shr; [lia|done]|apply U64.in_u_shl]|].
    intros k Hk. rewrite Z.lor_spec, U64.testbit_shl, (proj2 (Z.ltb_lt k 64)) by lia. cbn [andb].
    destruct (Z.lt_ge_cases (k + b) 64).
    + rewrite Hlow, (Z.testbit_neg_r _ (k - (64 - b))), orb_false_r by lia. done.
    + rewrite Hhigh, orb_false_l, <- (get_split s (W + 1)) by (done || lia). f_equal. lia.
  - split; [apply U64.in_u_shr; [lia|done]|]. intros k Hk.
    destruct (Z.lt_ge_cases (k + b) 64); [by apply Hlow|].
    rewrite Hhigh, get_out by lia. done.
  - split; [apply U64.in_u_shr; [lia|done]|]. intros k Hk. apply Hlow; lia.
  - split; [apply U64.in_u_shr; [lia|done]|]. intros k Hk. apply Hlow; lia.
Qed.

(** *** Counting *)

Lemma testbit_high_mask b i :
  0 <= b < 64 -> 0 <= i < 64 -> Z.testbit (U64.shl (U64.not 0) b) i = (b <=? i).
Proof.
  intros Hb Hi. rewrite U64.testbit_shl, (proj2 (Z.ltb_lt i 64)) by lia. cbn [andb].
  destruct (Z.leb_spec b i).
  - rewrite U64.testbit_not, Z.testbit_0_l by lia. by rewrite (proj2 (Z.ltb_lt _ 64)) by lia.
  - by rewrite Z.testbit_neg_r by lia.
Qed.

Lemma testbit_end_mask e i :
  0 <= e < 64 -> 0 <= i < 64 -> Z.testbit (U64.shr (U64.not 0) (63 - e)) i = (i <=? e).
Proof.
  intros He Hi. rewrite U64.testbit_shr, U64.testbit_not, Z.testbit_0_l by lia.
  rewrite andb_true_r. destruct (Z.ltb_spec (i + (63 - e)) 64), (Z.leb_spec i e); lia || done.
Qed.

(** Set bits of one word under a mask given by a predicate on offsets. *)
Lemma count_ones_word s k (m : Z) (lo hi : Z) :
  wf s -> 0 <= k < N s -> 0 <= lo -> hi <= 64 -> lo <= hi ->
  (forall i, 0 <= i < 64 -> Z.testbit m i = (lo <=? i) && (i <? hi)) ->
  U64.count_ones (Z.land (word s k) m) = count_if (get s) (zrange (k * 64 + lo) (k * 64 + hi)).
Proof.
  intros Hwf Hk Hlo Hhi Hle Hm. unfold U64.count_ones.
  rewrite (zrange_app 0 lo 64), (zrange_app lo hi 64), !count_if_app by lia.
  rewrite (count_if_none _ (zrange 0 lo)), (count_if_none _ (zrange hi 64)).
  - rewrite (Z.add_comm (k * 64) lo), (Z.add_comm (k * 64) hi), zrange_shift, count_if_fmap.
    rewrite Z.add_0_l, Z.add_0_r. apply count_if_ext. intros i Hi%elem_of_zrange.
    rewrite Z.add_comm, get_split, Z.land_spec, Hm by (done || lia).
    by rewrite (proj2 (Z.leb_le lo i)), (proj2 (Z.ltb_lt i hi)), andb_true_r by lia.
  - intros i Hi%elem_of_zrange. rewrite Z.land_spec, Hm by lia.
    by rewrite (proj2 (Z.ltb_ge i hi)), !andb_false_r by lia.
  - intros i Hi%elem_of_zrange. rewrite Z.land_spec, Hm by lia.
    by rewrite (proj2 (Z.leb_gt lo i)), andb_false_r by lia.
Qed.

Lemma count_full_words s a b c :
  wf s -> 0 <= a -> a <= b -> b <= N s ->
  foldl (fun c i => c + U64.count_ones (word s i)) c (zrange a b) =
  c + count_if (get s) (zrange (a * 64) (b * 64)).
Proof.
  intros Hwf Ha. remember (Z.to_nat (b - a)) as n eqn:En. revert a c Ha En.
  induction n as [|n IH]; intros a c Ha En Hab Hb.
  - replace b with a by lia. rewrite !zrange_nil by lia. rewrite count_if_nil. simpl. lia.
  - rewrite zrange_cons by lia. simpl. rewrite IH by lia.
    rewrite (zrange_app (a * 64) ((a + 1) * 64) (b * 64)), count_if_app by lia.
    replace (word s a) with (Z.land (word s a) (U64.not 0)).
    + rewrite (count_ones_word s a _ 0 64) by
        (done || lia || (intros i Hi; rewrite U64.testbit_not, Z.testbit_0_l by lia;
         rewrite (proj2 (Z.leb_le 0 i)) by lia; apply andb_true_r)).
      rewrite Z.add_0_r. replace (a * 64 + 64) with ((a + 1) * 64) by lia. lia.
    + apply U64.word_ext; [apply U64.in_u_land|..]; [by apply word_in_u..|].
      intros i Hi. rewrite Z.land_spec, U64.testbit_not, Z.testbit_0_l by lia.
      by rewrite (proj2 (Z.ltb_lt i 64)), andb_true_r by lia.
Qed.

(** The word-wise population count is the number of elements in the range. *)
Lemma count_ones_between_spec s start end_ :
  wf s -> 0 <= start -> count_ones_between s start end_ = count_if (get s) (zrange start end_).
Proof.
  intros Hwf Hs. assert (0 <= N s) by apply len_nonneg.
  assert (start < Z.min end_ (N s * 64) ->
    count_if (get s) (zrange start end_) = count_if (get s) (zrange start (Z.min end_ (N s * 64)))) as Hclip.
  { intros Hlt. rewrite (zrange_app start (Z.min end_ (N s * 64)) end_), count_if_app by lia.
    rewrite (count_if_none _ (zrange (Z.min _ _) _)); [lia|].
    intros j Hj%elem_of_zrange. apply get_out. lia. }
  unfold count_ones_between. set (e := Z.min end_ (N s * 64)) in *. cbv zeta.
  destruct (Z.leb_spec e start) as [Hle|Hlt].
  { rewrite count_if_none; [done|]. intros j Hj%elem_of_zrange. apply get_out. lia. }
  rewrite Hclip by done. clear Hclip.
  pose proof (split_index start) as H1. pose proof (split_index (e - 1)) as H2.
  set (a := start / 64) in *. set (b := start mod 64) in *.
  set (c := (e - 1) / 64) in *. set (d := (e - 1) mod 64) in *.
  destruct (Z.eqb_spec a c) as [E|E].
  - rewrite (count_ones_word s a _ b (d + 1)); [f_equal; f_equal; lia|done|lia|lia|lia|lia|].
    intros i Hi. rewrite Z.land_spec, testbit_high_mask, testbit_end_mask by lia. f_equal. lia.
  - rewrite count_full_words by (done || lia).
    rewrite (count_ones_word s a _ b 64) by
      (done || lia || (intros i Hi; rewrite testbit_high_mask by lia;
       rewrite (proj2 (Z.ltb_lt i 64)), andb_true_r by lia; done)).
    rewrite (count_ones_word s c _ 0 (d + 1)) by
      (done || lia || (intros i Hi; rewrite testbit_end_mask, (proj2 (Z.leb_le 0 i)) by lia;
       cbn [andb]; lia)).
    rewrite <- !count_if_app. f_equal.
    replace (a * 64 + 64) with ((a + 1) * 64) by lia. rewrite Z.add_0_r.
    rewrite <- !zrange_app by lia. f_equal; lia.
Qed.

(** [next_range] is the next maximal run of set bits, when the limit fits [u16]. *)
Lemma next_range_spec s start limit :
  wf s -> 0 <= start -> limit <= u16_max ->
  match next_range s start limit with
  | Some (a, b) => start <= a < b /\ b <= limit /\
      (forall j, start <= j < a -> get s j = false) /\
      (forall j, a <= j < b -> get s j = true) /\ (b < limit -> get s b = false)
  | None => forall j, start <= j < limit -> get s j = false
  end.
Proof.
  intros Hwf Hs Hl. unfold next_range, mbind, option_bind.
  rewrite next_one_spec by done.
  destruct (List.find (get s) _) as [a|] eqn:E1; cbv beta iota zeta.
  - apply find_zrange_Some in E1 as (H1 & H2 & H3). rewrite next_zero_spec by (done || lia).
    assert (forall z, 0 <= z <= limit -> wrap 16 z = z) as Hw.
    { intros z Hz. apply wrap_small. unfold in_u, u16_max in *. lia. }
    destruct (List.find _ _) as [b|] eqn:E2; cbn [default from_option id].
    + apply find_zrange_Some in E2 as (H4 & H5%negb_true_iff & H6).
      assert (a <> b) by congruence.
      rewrite !Hw by lia. split_and!; [lia|lia|lia|done| |done].
      intros j Hj. apply negb_false_iff, H6. lia.
    + rewrite find_zrange_None in E2. rewrite !Hw by lia. split_and!; [lia|lia|lia|done| |lia].
      intros j Hj. apply negb_false_iff, E2. lia.
  - by apply find_zrange_None.
Qed.

(** The optimised scans of a bit set (word masks, trailing and leading
    zero counts, early exits) find exactly the bit a bit-by-bit search finds:
    [next_one] and [next_zero] the first set and clear bit of the range (bits
    past the array being clear), [first_zero] the first clear bit clamped to
    the limit and the capacity, and [count_ones_between] counts the set bits. *)
Theorem scans_are_bit_searches s start limit :
  wf s -> 0 <= start -> 0 <= limit ->
  next_one s start limit = List.find (get s) (zrange start limit) /\
  next_zero s start limit = List.find (fun j => negb (get s j)) (zrange start limit) /\
  first_zero s limit =
    default (Z.min (N s * 64) limit)
      (List.find (fun j => negb (get s j)) (zrange 0 (Z.min (N s * 64) limit))) /\
  count_ones_between s start limit = count_if (get s) (zrange start limit).
Proof.
  intros Hwf Hs Hl. split_and!; [by apply next_one_spec|by apply next_zero_spec
    |by apply first_zero_spec|by apply count_ones_between_spec].
Qed.

Lemma scans_are_bit_searches_witness :
  let s := (set (set (set (new 16) 0).1 1).1 130).1 in
  wf s /\ next_one s 2 1024 = Some 130 /\ next_zero s 0 1024 = Some 2 /\
  count_if (get s) (zrange 0 1024) = 3.
Proof.
  set (s := (set (set (set (new 16) 0).1 1).1 130).1).
  assert (wf s) as Hwf by (apply set_spec; [apply set_spec; [apply set_spec; [apply new_spec|]|]|]; lia).
  destruct (scans_are_bit_searches s 2 1024 Hwf ltac:(lia) ltac:(lia)) as (H1 & H2 & H3 & H4).
  destruct (scans_are_bit_searches s 0 1024 Hwf ltac:(lia) ltac:(lia)) as (H5 & H6 & H7 & H8).
  cbv zeta. rewrite H1, H6, <- H8. split; [exact Hwf|]. vm_compute. auto.
Defined.

End BitSet.
