(* ===== verification/FlatMaps.v ===== *)
(** Association vectors ([tox-sequenced/src/flat_map.rs]).

    [FlatMap K V] is a [Vec<(K, V)>] searched linearly.  The model keeps the
    vector, so the iteration order the session relies on (the oldest entry
    first) is visible.  The abstract specification is a finite map: under the
    invariant that keys are unique, every operation refines the one of [gmap]
    ([flat_map_refines_gmap]), and [insert] and [remove] keep the order of the
    other entries. *)

From S2P Require Import Prelude.
From stdpp Require Import gmap.
#[local] Open Scope Z_scope.

Module FlatMap.

Section FlatMap.
Context {K V : Type} `{EqDecision K}.

Abbreviation t := (list (K * V)).

Definition new : t := [].
Definition len (m : t) : Z := Prelude.len m.
Definition is_empty (m : t) : bool := match m with [] => true | _ => false end.
Definition clear (m : t) : t := [].
Definition iter (m : t) : list (K * V) := m.
Definition values (m : t) : list V := m.*2.
Definition keys (m : t) : list K := m.*1.

(** [retain]: the closure sees each pair in order, may change the value and
    its captured state [St], and says whether the pair stays; a closure that
    panics makes [retain] panic. *)
Fixpoint retain {St} (f : St -> K -> V -> option (St * V * bool)) (st : St) (m : t) : option (St * t) :=
  match m with
  | [] => Some (st, [])
  | (k, v) :: m =>
      '(st, v, keep) ← f st k v;
      '(st, m) ← retain f st m;
      Some (st, if (keep : bool) then (k, v) :: m else m)
  end.

(** The first pair whose key is [key]. *)
Fixpoint get (m : t) (key : K) : option V :=
  match m with
  | [] => None
  | (k, v) :: m => if decide (k = key) then Some v else get m key
  end.

(** Writing through the reference [get_mut] or an occupied entry hands out:
    the value of the first matching pair is replaced in place. *)
Fixpoint write (m : t) (key : K) (value : V) : t :=
  match m with
  | [] => []
  | (k, v) :: m => if decide (k = key) then (k, value) :: m else (k, v) :: write m key value
  end.
Definition get_mut (m : t) (key : K) (f : V -> V) : t :=
  match get m key with Some v => write m key (f v) | None => m end.

Definition contains_key (m : t) (key : K) : bool := existsb (fun p => bool_decide (p.1 = key)) m.

Definition insert (m : t) (key : K) (value : V) : t * option V :=
  match get m key with
  | Some v => (write m key value, Some v)
  | None => (m ++ [(key, value)], None)
  end.

Fixpoint remove (m : t) (key : K) : t * option V :=
  match m with
  | [] => ([], None)
  | (k, v) :: m =>
      if decide (k = key) then (m, Some v)
      else let '(m, r) := remove m key in ((k, v) :: m, r)
  end.

(** [entry(key).or_insert(default)]: the map and the value referred to. *)
Definition or_insert (m : t) (key : K) (default : V) : t * V :=
  match get m key with
  | Some v => (m, v)
  | None => (m ++ [(key, default)], default)
  end.

Definition from_iter (l : list (K * V)) : t :=
  fold_left (fun m p => (insert m p.1 p.2).1) l new.

(** *** Lemmas *)

Lemma get_Some_elem m k v : get m k = Some v -> (k, v) ∈ m.
Proof.
  induction m as [|[k' v'] m IH]; simpl; [done|]. case_decide; [|by right; apply IH].
  intros [= ->]. subst. left.
Qed.

Lemma get_None m k : get m k = None <-> k ∉ keys m.
Proof.
  induction m as [|[k' v'] m IH]; simpl; [split; [by intros _ ?%elem_of_nil|done]|].
  case_decide as E.
  - split; [done|]. intros []. subst. left.
  - rewrite IH, not_elem_of_cons. naive_solver.
Qed.

Lemma elem_get m k v : NoDup (keys m) -> (k, v) ∈ m -> get m k = Some v.
Proof.
  induction m as [|[k' v'] m IH]; simpl; [by intros _ ?%elem_of_nil|].
  intros [Hni Hnd]%NoDup_cons [?|Hin]%elem_of_cons.
  - simplify_eq. by rewrite decide_True.
  - rewrite decide_False; [by apply IH|]. intros ->. destruct Hni.
    apply list_elem_of_fmap. by exists (k, v).
Qed.

Lemma contains_key_spec m k : contains_key m k = true <-> is_Some (get m k).
Proof.
  induction m as [|[k' v'] m IH]; simpl; [split; [done|by intros [? ?]]|].
  case_decide; [rewrite bool_decide_true by done; simpl; split; by eauto|].
  by rewrite bool_decide_false, orb_false_l.
Qed.

Lemma keys_write m k v : keys (write m k v) = keys m.
Proof. induction m as [|[k' v'] m IH]; simpl; [done|]. case_decide; simpl; congruence. Qed.

Lemma get_write m k v j :
  get (write m k v) j = if decide (k = j) then (fun _ => v) <$> get m k else get m j.
Proof.
  induction m as [|[k' v'] m IH]; simpl; [by case_decide|].
  destruct (decide (k' = k)) as [->|Hne]; simpl.
  - destruct (decide (k = j)) as [->|]; done.
  - rewrite IH. destruct (decide (k' = j)) as [->|]; [by rewrite decide_False|done].
Qed.

Lemma get_app m1 m2 k :
  get (m1 ++ m2) k = match get m1 k with Some v => Some v | None => get m2 k end.
Proof. induction m1 as [|[k' v'] m IH]; simpl; [done|]. by case_decide. Qed.

Lemma get_after_insert m k v j :
  get (insert m k v).1 j = if decide (k = j) then Some v else get m j.
Proof.
  unfold insert. destruct (get m k) as [w|] eqn:E; simpl.
  - rewrite get_write, E. done.
  - rewrite get_app. simpl. case_decide as Ej.
    + subst. by rewrite E.
    + by destruct (get m j).
Qed.

Lemma keys_insert m k v :
  keys (insert m k v).1 = if decide (k ∈ keys m) then keys m else keys m ++ [k].
Proof.
  unfold insert. destruct (get m k) as [w|] eqn:E; simpl.
  - rewrite keys_write, decide_True; [done|].
    apply get_Some_elem in E. apply list_elem_of_fmap. by exists (k, w).
  - apply get_None in E. rewrite decide_False by done. unfold keys. by rewrite fmap_app.
Qed.

Lemma NoDup_insert m k v : NoDup (keys m) -> NoDup (keys (insert m k v).1).
Proof.
  intros H. rewrite keys_insert. case_decide; [done|].
  apply NoDup_app. split_and!; [done| |apply NoDup_singleton].
  by intros x Hx ->%list_elem_of_singleton.
Qed.

Lemma remove_snd m k : (remove m k).2 = get m k.
Proof.
  induction m as [|[k' v'] m IH]; simpl; [done|]. case_decide; [done|].
  by destruct (remove m k).
Qed.

Lemma remove_sublist m k : (remove m k).1 `sublist_of` m.
Proof.
  induction m as [|[k' v'] m IH]; simpl; [done|]. case_decide; [by apply sublist_cons|].
  destruct (remove m k). simpl in *. by apply sublist_skip.
Qed.

Lemma NoDup_remove m k : NoDup (keys m) -> NoDup (keys (remove m k).1).
Proof.
  intros H. eapply sublist_NoDup; [done|]. apply fmap_sublist, remove_sublist.
Qed.

Lemma get_remove m k j :
  NoDup (keys m) -> get (remove m k).1 j = if decide (k = j) then None else get m j.
Proof.
  induction m as [|[k' v'] m IH]; simpl; [by case_decide|]. intros [Hni Hnd]%NoDup_cons.
  destruct (decide (k' = k)) as [->|Hne].
  - simpl. case_decide as E; [|done]. subst. by apply get_None.
  - destruct (remove m k) as [m' r]. simpl in *. rewrite IH by done.
    destruct (decide (k' = j)) as [->|]; [by rewrite decide_False|done].
Qed.

Lemma len_remove m k v : get m k = Some v -> len (remove m k).1 = len m - 1.
Proof.
  unfold len. induction m as [|[k' v'] m IH]; simpl; [done|].
  case_decide; intros Hg; rewrite ?len_cons; [simpl; lia|].
  destruct (remove m k); simpl in *. rewrite len_cons, IH by done. lia.
Qed.

Lemma len_insert_le m k v : len (insert m k v).1 <= len m + 1.
Proof.
  unfold insert, len. destruct (get m k); simpl.
  - pose proof (f_equal length (keys_write m k v)) as H. unfold keys in H.
    rewrite !length_fmap in H. unfold Prelude.len. lia.
  - rewrite len_app. unfold Prelude.len. simpl. lia.
Qed.

Lemma or_insert_spec m k d :
  get (or_insert m k d).1 k = Some (or_insert m k d).2 /\
  (or_insert m k d).2 = default d (get m k) /\
  (forall j, j <> k -> get (or_insert m k d).1 j = get m j).
Proof.
  unfold or_insert. destruct (get m k) eqn:E; simpl; [done|].
  split_and!; [|done|].
  - rewrite get_app, E. simpl. by rewrite decide_True.
  - intros j Hj. rewrite get_app. simpl. rewrite decide_False by done. by destruct (get m j).
Qed.

Lemma NoDup_or_insert m k d : NoDup (keys m) -> NoDup (keys (or_insert m k d).1).
Proof.
  pose proof (NoDup_insert m k d) as H. unfold insert, or_insert in *.
  by destruct (get m k).
Qed.

(** A [retain] whose closure never panics keeps a subsequence of the keys. *)
Lemma retain_sublist {St} (f : St -> K -> V -> option (St * V * bool)) st m st' m' :
  retain f st m = Some (st', m') -> keys m' `sublist_of` keys m.
Proof.
  revert st st' m'. induction m as [|[k v] m IH]; simpl; intros st st' m' H.
  - simplify_eq. done.
  - destruct (f st k v) as [[[st1 v1] keep]|]; simpl in H; [|done].
    destruct (retain f st1 m) as [[st2 m2]|] eqn:E; simpl in H; [|done].
    simplify_eq. apply IH in E. destruct keep; simpl; [by apply sublist_skip|by apply sublist_cons].
Qed.

Lemma NoDup_retain {St} (f : St -> K -> V -> option (St * V * bool)) st m st' m' :
  retain f st m = Some (st', m') -> NoDup (keys m) -> NoDup (keys m').
Proof. intros H Hnd. eapply sublist_NoDup; [done|]. by eapply retain_sublist. Qed.

(** Sums over the values. *)
Lemma zsum_values_cons (f : V -> Z) k v m : zsum f (values ((k, v) :: m)) = f v + zsum f (values m).
Proof. done. Qed.

Lemma zsum_write (f : V -> Z) m k v w :
  get m k = Some w -> zsum f (values (write m k v)) = zsum f (values m) - f w + f v.
Proof.
  induction m as [|[k' v'] m IH]; cbn [get write]; [done|]. case_decide; intros Hg; simplify_eq;
    rewrite !zsum_values_cons, ?IH by done; lia.
Qed.

Lemma zsum_remove (f : V -> Z) m k w :
  get m k = Some w -> zsum f (values (remove m k).1) = zsum f (values m) - f w.
Proof.
  induction m as [|[k' v'] m IH]; cbn [get remove]; [done|]. case_decide; intros Hg; simplify_eq.
  - rewrite zsum_values_cons. cbn [fst]. lia.
  - destruct (remove m k) as [m' r]. cbn [fst] in *. rewrite !zsum_values_cons, IH by done. lia.
Qed.

Lemma zsum_append (f : V -> Z) m k v : zsum f (values (m ++ [(k, v)])) = zsum f (values m) + f v.
Proof. unfold values. rewrite fmap_app, zsum_app. cbn. lia. Qed.

Lemma insert_fresh m k v : get m k = None -> insert m k v = (m ++ [(k, v)], None).
Proof. intros H. unfold insert. by rewrite H. Qed.

Lemma len_write m k v : len (write m k v) = len m.
Proof.
  pose proof (f_equal length (keys_write m k v)) as H. unfold keys in H. rewrite !length_fmap in H.
  unfold len, Prelude.len. by rewrite H.
Qed.

Lemma values_write_elem m k v x : x ∈ values (write m k v) -> x = v \/ x ∈ values m.
Proof.
  unfold values. induction m as [|[k' v'] m IH]; simpl; [by intros ?%elem_of_nil|].
  case_decide; cbn; rewrite !elem_of_cons; naive_solver.
Qed.

Lemma write_write m k v w : write (write m k v) k w = write m k w.
Proof.
  induction m as [|[k' v'] m IH]; cbn [write]; [done|]. destruct (decide (k' = k)); cbn [write];
    [by rewrite decide_True|by rewrite decide_False, IH].
Qed.

Lemma remove_write m k v w : get m k = Some w -> remove (write m k v) k = ((remove m k).1, Some v).
Proof.
  induction m as [|[k' v'] m IH]; cbn [get write remove]; [done|]. destruct (decide (k' = k)); cbn [remove]; [by rewrite decide_True|].
  rewrite decide_False by done. intros Hg. rewrite IH by done. by destruct (remove m k).
Qed.

Lemma values_insert_elem m k v x : x ∈ values (insert m k v).1 -> x = v \/ x ∈ values m.
Proof.
  unfold insert. destruct (get m k); cbn; [apply values_write_elem|]. unfold values. rewrite fmap_app, elem_of_app. cbn.
  rewrite list_elem_of_singleton. tauto.
Qed.

Lemma values_or_insert_elem m k d x : x ∈ values (or_insert m k d).1 -> x = d \/ x ∈ values m.
Proof.
  pose proof (values_insert_elem m k d x) as Hi. unfold insert, or_insert in *. destruct (get m k); cbn in *; [tauto|done].
Qed.

Lemma values_remove_elem m k x : x ∈ values (remove m k).1 -> x ∈ values m.
Proof.
  unfold values. intros Hx. eapply sublist_subseteq; [|exact Hx]. apply fmap_sublist, remove_sublist.
Qed.

Lemma remove_absent m k : get m k = None -> remove m k = (m, None).
Proof.
  induction m as [|[k' v'] m IH]; simpl; [done|]. case_decide; [done|]. intros Hg. by rewrite IH.
Qed.

Lemma len_remove_le m k : len (remove m k).1 <= len m.
Proof.
  destruct (get m k) as [v|] eqn:E; [rewrite (len_remove _ _ _ E); lia|]. by rewrite remove_absent.
Qed.

Lemma elem_values m v : NoDup (keys m) -> v ∈ values m -> exists k, get m k = Some v.
Proof.
  intros Hnd Hv. apply list_elem_of_fmap in Hv as ([k w] & -> & Hin). exists k. by apply elem_get.
Qed.

Lemma get_values m k v : get m k = Some v -> v ∈ values m.
Proof. intros H%get_Some_elem. apply list_elem_of_fmap. by exists (k, v). Qed.

End FlatMap.

(** *** Refinement of finite maps *)

Section Refinement.
Context {K V : Type} `{Countable K}.

Lemma get_lookup (m : list (K * V)) k : get m k = (list_to_map m : gmap K V) !! k.
Proof.
  induction m as [|[k' v'] m IH]; simpl; [by rewrite lookup_empty|].
  rewrite lookup_insert, IH. done.
Qed.

(** The abstraction of a flat map. *)
Definition model (m : list (K * V)) : gmap K V := list_to_map m.

(** Under the invariant that keys are unique, which every operation keeps,
    a flat map is a finite map: [get], [contains_key], [insert], [remove] and
    [or_insert] compute the corresponding operations of the abstract map, and
    [len] is its size. *)
Theorem flat_map_refines_gmap (m : list (K * V)) (k : K) (v : V) :
  NoDup (keys m) ->
  get m k = model m !! k /\
  (contains_key m k = true <-> k ∈ dom (model m)) /\
  len m = Z.of_nat (size (model m)) /\
  (model (insert m k v).1 = <[k := v]> (model m) /\ (insert m k v).2 = model m !! k) /\
  (model (remove m k).1 = delete k (model m) /\ (remove m k).2 = model m !! k) /\
  model (or_insert m k v).1 = <[k := default v (model m !! k)]> (model m) /\
  NoDup (keys (insert m k v).1) /\ NoDup (keys (remove m k).1) /\ NoDup (keys (or_insert m k v).1).
Proof.
  intros Hnd. unfold model. rewrite <- !get_lookup. split_and!.
  - done.
  - rewrite contains_key_spec, get_lookup. symmetry. apply elem_of_dom.
  - unfold len, Prelude.len. f_equal. rewrite <- size_dom, dom_list_to_map_L, size_list_to_set by done.
    by rewrite length_fmap.
  - apply map_eq. intros j. rewrite <- get_lookup, get_after_insert, lookup_insert, get_lookup. done.
  - unfold insert. by destruct (get m k).
  - apply map_eq. intros j. rewrite <- get_lookup, get_remove, lookup_delete, get_lookup by done. done.
  - apply remove_snd.
  - destruct (or_insert_spec m k v) as (H1 & H2 & H3).
    apply map_eq. intros j. rewrite <- get_lookup, lookup_insert.
    case_decide as E; [subst; rewrite H1, H2; done|]. rewrite H3 by done. apply get_lookup.
  - by apply NoDup_insert.
  - by apply NoDup_remove.
  - by apply NoDup_or_insert.
Qed.

End Refinement.

Lemma flat_map_refines_gmap_witness :
  get [(3, true); (5, false)] 5 = Some false /\
  model (insert [(3, true); (5, false)] 3 false).1 = <[3 := false]> (model [(3, true); (5, false)]).
Proof.
  assert (NoDup (keys [(3, true); (5, false)])) as Hnd.
  { repeat constructor; set_solver. }
  pose proof (flat_map_refines_gmap [(3, true); (5, false)] 3 false Hnd) as H.
  split; [reflexivity|]. apply H.
Defined.

End FlatMap.
