(* ===== verification/Protocol.v ===== *)
(** Packets, identifiers and constants of the transport
    ([tox-sequenced/src/protocol.rs], [error.rs], the [SessionEvent] of
    [lib.rs], the limits of [tox-proto/src/constants.rs] and
    [peek_message_type] of [session.rs]).

    The newtypes [MessageId], [FragmentIndex], [FragmentCount] and
    [TimestampMs] are their integers; [Instant] and [Duration] are integers
    counting nanoseconds.  A byte is an integer below 256. *)

From S2P Require Import Prelude.
From stdpp Require Export strings.
#[local] Open Scope Z_scope.
#[local] Open Scope list_scope.

Abbreviation bytes := (list Z) (only parsing).
Abbreviation Instant := Z (only parsing).
Abbreviation Duration := Z (only parsing).

(** ** Time *)

Definition from_secs (s : Z) : Duration := s * 1000000000.
Definition from_millis (ms : Z) : Duration := ms * 1000000.
(** [Instant::saturating_duration_since] *)
Definition since (now earlier : Instant) : Duration := sat_sub now earlier.

(** ** Constants *)

Definition MAX_TOX_PACKET_SIZE : Z := 1373.
Definition MIN_TRANSPORT_SLOTS : Z := 32.
Definition MAX_TOTAL_REASSEMBLY_BUFFER : Z := 8 * 32 * 64 * 1024.
Definition ESTIMATED_PAYLOAD_SIZE : Z := 1300.
Definition MAX_MESSAGE_SIZE : Z := 1024 * 1024.
Definition MAX_FRAGMENTS_PER_MESSAGE : Z := 1024.
Definition BITSET_WORDS : nat := Z.to_nat (div_ceil MAX_FRAGMENTS_PER_MESSAGE 64).
Definition MAX_CONCURRENT_OUTGOING : Z := MIN_TRANSPORT_SLOTS.
Definition MAX_CONCURRENT_INCOMING : Z := MIN_TRANSPORT_SLOTS.
Definition MAX_COMPLETED_INCOMING : Z := 1024.
Definition MAX_DATAGRAM_QUEUE : Z := 128.
Definition REASSEMBLY_TIMEOUT_SECS : Z := 30.
Definition PACKET_OVERHEAD : Z := 20.
Definition DELAYED_ACK_TIMEOUT : Duration := from_millis 40.

(** ** Errors *)

Inductive SequencedError :=
| MessageTooLarge
| SerializationError (reason : string)
| QueueFull
| InvalidFragmentIndex
| InvalidMtu
| InvalidTotalFragments.
#[export] Instance SequencedError_eq_dec : EqDecision SequencedError.
Proof. solve_decision. Defined.

(** ** Identifiers *)

Module MessageId.
Definition wrapping_add (self val : Z) : Z := wrap 32 (self + val).
Definition wrapping_sub (self other : Z) : Z := wrap 32 (self - other).
End MessageId.

Module FragmentIndex.
Definition wrapping_add (self val : Z) : Z := wrap 16 (self + val).
End FragmentIndex.

(** ** Priorities and message types *)

Inductive Priority := Critical | High | Standard | Low | Bulk.
#[export] Instance Priority_eq_dec : EqDecision Priority.
Proof. solve_decision. Defined.

(** [priority as u8] *)
Definition priority_level (p : Priority) : Z :=
  match p with Critical => 0 | High => 1 | Standard => 2 | Low => 3 | Bulk => 4 end.

Inductive MessageType :=
| CapsAnnounce | CapsAck | SyncHeads | FetchBatchReq | MerkleNode
| BlobQuery | BlobAvail | BlobReq | BlobData | SyncSketch | SyncReconFail
| SyncShardChecksums | HandshakeError | SyncRateLimited | KeywrapAck
| ReinclusionRequest | ReinclusionResponse | ReconPowChallenge
| ReconPowSolution | AdminGossip.
#[export] Instance MessageType_eq_dec : EqDecision MessageType.
Proof. solve_decision. Defined.

(** The [repr(u8)] discriminant. *)
Definition message_type_tag (m : MessageType) : Z :=
  match m with
  | CapsAnnounce => 1 | CapsAck => 2 | SyncHeads => 3 | FetchBatchReq => 4
  | MerkleNode => 5 | BlobQuery => 6 | BlobAvail => 7 | BlobReq => 8
  | BlobData => 9 | SyncSketch => 10 | SyncReconFail => 11
  | SyncShardChecksums => 12 | HandshakeError => 13 | SyncRateLimited => 14
  | KeywrapAck => 15 | ReinclusionRequest => 16 | ReinclusionResponse => 17
  | ReconPowChallenge => 18 | ReconPowSolution => 19 | AdminGossip => 20
  end.

Definition priority (m : MessageType) : Priority :=
  match m with
  | CapsAnnounce | CapsAck => Critical
  | SyncHeads | FetchBatchReq => High
  | SyncSketch | SyncReconFail | SyncShardChecksums | SyncRateLimited
  | ReconPowChallenge | ReconPowSolution => High
  | HandshakeError | KeywrapAck => High
  | MerkleNode => Standard
  | BlobQuery | BlobAvail | BlobReq => Low
  | BlobData => Bulk
  | ReinclusionRequest | ReinclusionResponse => High
  | AdminGossip => High
  end.

(** ** Packets and events *)

Record SelectiveAck := mkAck {
  ack_message_id : Z;
  ack_base_index : Z;
  ack_bitmask : Z;
  ack_rwnd : Z
}.
#[global] Instance eta_SelectiveAck : Settable SelectiveAck :=
  fun a => mkAck (ack_message_id a) (ack_base_index a) (ack_bitmask a) (ack_rwnd a).
#[export] Instance SelectiveAck_eq_dec : EqDecision SelectiveAck.
Proof. solve_decision. Defined.

Record Nack := mkNack { nack_message_id : Z; missing_indices : list Z }.
#[export] Instance Nack_eq_dec : EqDecision Nack.
Proof. solve_decision. Defined.

Inductive Packet :=
| Data (message_id fragment_index total_fragments : Z) (data : bytes)
| AckP (ack : SelectiveAck)
| NackP (nack : Nack)
| Ping (t1 : Z)
| Pong (t1 t2 t3 : Z)
| Datagram (message_type : MessageType) (data : bytes).
#[export] Instance Packet_eq_dec : EqDecision Packet.
Proof. solve_decision. Defined.

Inductive SessionEvent :=
| MessageCompleted (message_id : Z) (message_type : MessageType) (payload : bytes)
| MessageFailed (message_id : Z) (reason : string)
| MessageAcked (message_id : Z)
| ReadyToSend
| CongestionWindowChanged (cwnd : Z).
#[export] Instance SessionEvent_eq_dec : EqDecision SessionEvent.
Proof. solve_decision. Defined.

(** ** The message type in front of a first fragment

    An envelope is a MessagePack array of two elements ([0x92]) whose first
    element is the type. *)
Definition peek_message_type (data : bytes) : option MessageType :=
  match data with
  | b0 :: b1 :: _ =>
      if negb (b0 =? 0x92) then None
      else
        match b1 with
        | 1 => Some CapsAnnounce | 2 => Some CapsAck | 3 => Some SyncHeads
        | 4 => Some FetchBatchReq | 5 => Some MerkleNode | 6 => Some BlobQuery
        | 7 => Some BlobAvail | 8 => Some BlobReq | 9 => Some BlobData
        | 10 => Some SyncSketch | 11 => Some SyncReconFail
        | 12 => Some SyncShardChecksums | 13 => Some HandshakeError
        | 14 => Some SyncRateLimited | 15 => Some KeywrapAck
        | 16 => Some ReinclusionRequest | 17 => Some ReinclusionResponse
        | 18 => Some ReconPowChallenge | 19 => Some ReconPowSolution
        | 20 => Some AdminGossip
        | _ => None
        end
  | _ => None
  end.

Lemma peek_tag m rest : peek_message_type (0x92 :: message_type_tag m :: rest) = Some m.
Proof. by destruct m. Qed.

Lemma peek_sound d m :
  peek_message_type d = Some m -> exists rest, d = 0x92 :: message_type_tag m :: rest.
Proof.
  destruct d as [|b0 [|b1 rest]]; simpl; [done..|].
  destruct (Z.eqb_spec b0 0x92) as [->|]; simpl; [|done].
  intros H. exists rest. f_equal. f_equal.
  destruct b1 as [|b1|b1]; [done| |done].
  repeat (destruct b1 as [b1|b1|]; try discriminate H; try (by simplify_eq)).
Qed.
