(* ===== verification/Quota.v ===== *)
(** The shared reassembly quota ([tox-sequenced/src/quota.rs]).

    [ReassemblyQuota] models one call running alone: its compare-and-swap loop
    then succeeds in its first round.  [Concurrent] models the loops
    themselves, a load and a compare-and-swap being separate steps of an
    interleaving of any number of threads; a [Relaxed] load may return any
    value the counter has held.  The theorems show that a concurrent execution
    commits its calls one after another as the sequential functions do, and
    that the counter never leaves its bounds. *)

From S2P Require Import Prelude Protocol.
#[local] Open Scope Z_scope.
#[local] Open Scope list_scope.

Module ReassemblyQuota.

Record t := mk { max_bytes : Z; used_bytes : Z }.
#[global] Instance eta_t : Settable t := fun q => mk (max_bytes q) (used_bytes q).

Definition new (max : Z) : t := mk max 0.

(** The percentage of the quota a priority may fill. *)
Definition percent (p : Priority) : Z :=
  match p with Bulk => 70 | Low => 80 | Standard => 90 | High => 95 | Critical => 99 end.

Definition threshold (max : Z) (p : Priority) : option Z :=
  m ← chk_usize (max * percent p); Some (m / 100).

(** One round of the loop of [reserve] and [reserve_guaranteed]: the value to
    store, or [None] when the request does not fit below [limit]. *)
Definition try_add (limit current amount : Z) : option (option Z) :=
  s ← chk_usize (current + amount); Some (if limit <? s then None else Some s).

Definition commit (q : t) (r : option Z) : t * bool :=
  match r with Some s => (q <| used_bytes := s |>, true) | None => (q, false) end.

Definition reserve (q : t) (amount : Z) (p : Priority) : option (t * bool) :=
  th ← threshold (max_bytes q) p;
  commit q <$> try_add th (used_bytes q) amount.

Definition reserve_guaranteed (q : t) (amount : Z) : option (t * bool) :=
  commit q <$> try_add (max_bytes q) (used_bytes q) amount.

Definition release (q : t) (amount : Z) : t := q <| used_bytes := sat_sub (used_bytes q) amount |>.

Definition available (q : t) : Z := sat_sub (max_bytes q) (used_bytes q).
Definition capacity (q : t) : Z := max_bytes q.
Definition used (q : t) : Z := used_bytes q.

(** Bounds of the counter. *)
Definition wf (q : t) : Prop := 0 <= used_bytes q <= max_bytes q /\ max_bytes q * 100 <= usize_max.

Lemma percent_bounds p : 70 <= percent p <= 99.
Proof. destruct p; simpl; lia. Qed.

Lemma threshold_ok max p :
  0 <= max -> max * 100 <= usize_max -> threshold max p = Some (max * percent p / 100).
Proof.
  intros H1 H2. pose proof (percent_bounds p). unfold threshold, chk_usize.
  rewrite chk_ok; [done|]. nia.
Qed.

Lemma threshold_le_max max p : 0 <= max -> max * percent p / 100 <= max.
Proof. intros H. pose proof (percent_bounds p). apply Z.div_le_upper_bound; nia. Qed.

Lemma reserve_spec q amount p :
  wf q -> 0 <= amount -> used_bytes q + amount <= usize_max ->
  reserve q amount p =
  Some (if max_bytes q * percent p / 100 <? used_bytes q + amount then (q, false)
        else (q <| used_bytes := used_bytes q + amount |>, true)).
Proof.
  intros [H1 H2] Ha Hs. unfold reserve. rewrite threshold_ok by lia. cbn.
  unfold try_add, chk_usize. rewrite chk_ok by lia. cbn.
  by destruct (_ <? _).
Qed.

Lemma reserve_guaranteed_spec q amount :
  wf q -> 0 <= amount -> used_bytes q + amount <= usize_max ->
  reserve_guaranteed q amount =
  Some (if max_bytes q <? used_bytes q + amount then (q, false)
        else (q <| used_bytes := used_bytes q + amount |>, true)).
Proof.
  intros [H1 H2] Ha Hs. unfold reserve_guaranteed.
  unfold try_add, chk_usize. rewrite chk_ok by lia. cbn. by destruct (_ <? _).
Qed.

Lemma release_wf q amount : wf q -> 0 <= amount -> wf (release q amount).
Proof. unfold wf, release, sat_sub. cbn. lia. Qed.

End ReassemblyQuota.

(** ** Threads sharing the counter *)

Module Concurrent.

Inductive op :=
| OpReserve (amount : Z) (p : Priority)
| OpReserveGuaranteed (amount : Z)
| OpRelease (amount : Z).

(** A call before its load, between load and compare-and-swap, and after it
    returned. *)
Inductive thread :=
| Ready (o : op)
| Loaded (o : op) (current : Z)
| Returned (o : op) (r : bool)
| Panicked (o : op).

(** What a round computes from the loaded value: a panic ([None]), the return
    of [false] ([Some None]) or the value to swap in. *)
Definition round (max : Z) (o : op) (current : Z) : option (option Z) :=
  match o with
  | OpReserve amount p =>
      th ← ReassemblyQuota.threshold max p; ReassemblyQuota.try_add th current amount
  | OpReserveGuaranteed amount => ReassemblyQuota.try_add max current amount
  | OpRelease amount => Some (Some (sat_sub current amount))
  end.

(** The sequential call. *)
Definition seq_call (q : ReassemblyQuota.t) (o : op) : option (ReassemblyQuota.t * bool) :=
  match o with
  | OpReserve amount p => ReassemblyQuota.reserve q amount p
  | OpReserveGuaranteed amount => ReassemblyQuota.reserve_guaranteed q amount
  | OpRelease amount => Some (ReassemblyQuota.release q amount, true)
  end.

(** The values the counter has held, newest first, and the threads. *)
Record sys := mkSys { current : Z; past : list Z; threads : list thread }.

Definition held (s : sys) : list Z := current s :: past s.

(** [step max s l s']: one thread moves; [l] is the call it commits, if any. *)
Inductive step (max : Z) : sys -> option op -> sys -> Prop :=
| step_load s i o v :
    threads s !! i = Some (Ready o) -> v ∈ held s ->
    step max s None
      (mkSys (current s) (past s)
        (<[i := match round max o v with
                | None => Panicked o
                | Some None => Returned o false
                | Some (Some _) => Loaded o v
                end]> (threads s)))
| step_cas_ok s i o v new :
    threads s !! i = Some (Loaded o v) -> current s = v -> round max o v = Some (Some new) ->
    step max s (Some o) (mkSys new (held s) (<[i := Returned o true]> (threads s)))
| step_cas_fail s i o v :
    threads s !! i = Some (Loaded o v) -> current s <> v ->
    step max s None (mkSys (current s) (past s) (<[i := Ready o]> (threads s))).

(** Runs, with the calls committed in order. *)
Inductive run (max : Z) : sys -> list op -> sys -> Prop :=
| run_nil s : run max s [] s
| run_step s ls s1 l s2 :
    run max s ls s1 -> step max s1 l s2 -> run max s (ls ++ option_list l) s2.

Definition init (u : Z) (ops : list op) : sys := mkSys u [] (Ready <$> ops).

(** The calls one after another, each succeeding. *)
Fixpoint replay (max u : Z) (ops : list op) : option Z :=
  match ops with
  | [] => Some u
  | o :: ops =>
      match seq_call (ReassemblyQuota.mk max u) o with
      | Some (q, true) => replay max (ReassemblyQuota.used_bytes q) ops
      | _ => None
      end
  end.

Definition amount_of (o : op) : Z :=
  match o with OpReserve a _ | OpReserveGuaranteed a | OpRelease a => a end.
Definition op_of (th : thread) : op :=
  match th with Ready o | Loaded o _ | Returned o _ | Panicked o => o end.

Lemma round_seq max u o new :
  round max o u = Some (Some new) ->
  seq_call (ReassemblyQuota.mk max u) o = Some (ReassemblyQuota.mk max new, true).
Proof.
  destruct o; cbn; unfold ReassemblyQuota.reserve, ReassemblyQuota.reserve_guaranteed; cbn.
  - destruct (ReassemblyQuota.threshold max p) as [th|]; cbn; [|done]. by intros ->.
  - by intros ->.
  - intros [= <-]. done.
Qed.

Lemma round_ok max u o :
  0 <= u <= max -> max * 100 <= usize_max -> 0 <= amount_of o <= max ->
  exists r, round max o u = Some r /\ (forall new, r = Some new -> 0 <= new <= max).
Proof.
  intros Hu Hmax Ha. destruct o; cbn in *.
  - rewrite ReassemblyQuota.threshold_ok by lia. cbn.
    unfold ReassemblyQuota.try_add, chk_usize. rewrite chk_ok by lia. cbn. eexists. split; [done|].
    pose proof (ReassemblyQuota.threshold_le_max max p ltac:(lia)).
    destruct (Z.ltb_spec (max * ReassemblyQuota.percent p / 100) (u + amount)); intros; simplify_eq. lia.
  - unfold ReassemblyQuota.try_add, chk_usize. rewrite chk_ok by lia. cbn. eexists. split; [done|].
    destruct (Z.ltb_spec max (u + amount)); intros; simplify_eq. lia.
  - eexists. split; [done|]. intros new [= <-]. unfold sat_sub. lia.
Qed.

Lemma replay_app max u ops1 ops2 :
  replay max u (ops1 ++ ops2) = u' ← replay max u ops1; replay max u' ops2.
Proof.
  revert u. induction ops1 as [|o ops IH]; intros u; cbn; [done|].
  destruct (seq_call _ o) as [[q []]|]; [apply IH|done..].
Qed.

(** The invariant of runs: values in bounds, no thread has panicked. *)
Definition inv (max : Z) (s : sys) : Prop :=
  (forall v, v ∈ held s -> 0 <= v <= max) /\
  (forall th, th ∈ threads s -> 0 <= amount_of (op_of th) <= max /\ (forall o, th <> Panicked o)).

Lemma inv_threads max s i th c p :
  inv max s -> is_Some (threads s !! i) ->
  (forall v, v ∈ c :: p -> 0 <= v <= max) ->
  0 <= amount_of (op_of th) <= max -> (forall o, th <> Panicked o) ->
  inv max (mkSys c p (<[i := th]> (threads s))).
Proof.
  intros [_ H2] _ Hb Ha Hp. split; [done|]. cbn. intros th' Hin.
  apply list_elem_of_lookup in Hin as [j Hj].
  apply list_lookup_insert_Some in Hj as [(_ & <- & _)|(_ & Hj)]; [done|].
  apply H2. by eapply list_elem_of_lookup_2.
Qed.

Lemma step_inv max s l s' :
  max * 100 <= usize_max -> step max s l s' -> inv max s -> inv max s'.
Proof.
  intros Hmax Hstep Hinv. pose proof Hinv as [H1 H2].
  assert (forall i th, threads s !! i = Some th -> 0 <= amount_of (op_of th) <= max) as Hamt.
  { intros i th Hi. apply H2. by eapply list_elem_of_lookup_2. }
  destruct Hstep as [s i o v Hi Hv|s i o v new Hi Hc Hr|s i o v Hi Hc]; specialize (Hamt _ _ Hi);
    cbn in Hamt; apply inv_threads; eauto.
  - destruct (round_ok max v o) as (r & -> & _); [auto..|]. by destruct r.
  - destruct (round_ok max v o) as (r & -> & _); [auto..|]. by destruct r.
  - intros w [->|Hw]%elem_of_cons; [|by apply H1].
    destruct (round_ok max v o) as (r & Hr' & Hb); [apply H1; subst; left|done|done|].
    rewrite Hr in Hr'. injection Hr' as <-. by apply Hb.
Qed.

(** Whatever the interleaving of the load and compare-and-swap steps of
    the threads sharing a quota, and whatever stale values the relaxed loads
    return, the counter stays within [0, max_bytes], no thread panics, and the
    counter is the one the committed calls produce when run one after another
    in commit order, each succeeding as the sequential call does. *)
Theorem quota_commits_sequentially max u ops cs s :
  max * 100 <= usize_max -> 0 <= u <= max -> Forall (fun o => 0 <= amount_of o <= max) ops ->
  run max (init u ops) cs s ->
  0 <= current s <= max /\
  (forall o, Panicked o ∉ threads s) /\
  replay max u cs = Some (current s).
Proof.
  intros Hmax Hu Hops Hrun.
  enough (inv max s /\ replay max u cs = Some (current s)) as [[H1 H2] H3].
  { split; [apply H1; left|]. split; [intros o Ho; by eapply H2|done]. }
  remember (init u ops) as s0 eqn:E. induction Hrun as [s|s ls s1 l s2 _ IH Hstep]; subst.
  - split; [split; cbn|done].
    + intros v Hv. apply list_elem_of_singleton in Hv. cbn in Hv. lia.
    + intros th (o & -> & Ho)%list_elem_of_fmap. rewrite Forall_forall in Hops. split; [by apply Hops|done].
  - destruct (IH eq_refl) as [Hinv Hrep]. split; [by eapply step_inv|].
    rewrite replay_app, Hrep. cbn. destruct Hstep as [| s i o v new Hi Hc Hr |]; cbn; [done| |done].
    subst. by rewrite (round_seq _ _ _ _ Hr).
Qed.

(** Two reservations race on a quota of 1000: both load 0, the first swap
    succeeds, the second fails and retries. *)
Lemma quota_commits_sequentially_witness :
  let o1 := OpReserve 600 Standard in
  let o2 := OpReserve 300 Standard in
  exists s, run 1000 (init 0 [o1; o2]) [o1; o2] s /\ current s = 900 /\
    replay 1000 0 [o1; o2] = Some (current s).
Proof.
  intros o1 o2.
  assert (run 1000 (init 0 [o1; o2]) [o1; o2] (mkSys 900 [600; 0] [Returned o1 true; Returned o2 true])) as Hrun.
  { apply (run_step 1000 _ [o1] (mkSys 600 [0] [Returned o1 true; Loaded o2 600]) (Some o2)).
    2: by apply (step_cas_ok 1000 (mkSys 600 [0] [Returned o1 true; Loaded o2 600]) 1 o2 600 900).
    apply (run_step 1000 _ [o1] (mkSys 600 [0] [Returned o1 true; Ready o2]) None).
    2: apply (step_load 1000 (mkSys 600 [0] [Returned o1 true; Ready o2]) 1 o2 600); [done|left].
    apply (run_step 1000 _ [o1] (mkSys 600 [0] [Returned o1 true; Loaded o2 0]) None).
    2: by apply (step_cas_fail 1000 (mkSys 600 [0] [Returned o1 true; Loaded o2 0]) 1 o2 0).
    apply (run_step 1000 _ [] (mkSys 0 [] [Loaded o1 0; Loaded o2 0]) (Some o1)).
    2: by apply (step_cas_ok 1000 (mkSys 0 [] [Loaded o1 0; Loaded o2 0]) 0 o1 0 600).
    apply (run_step 1000 _ [] (mkSys 0 [] [Loaded o1 0; Ready o2]) None).
    2: apply (step_load 1000 (mkSys 0 [] [Loaded o1 0; Ready o2]) 1 o2 0); [done|left].
    apply (run_step 1000 _ [] (init 0 [o1; o2]) None).
    2: apply (step_load 1000 (init 0 [o1; o2]) 0 o1 0); [done|left].
    constructor. }
  eexists. split; [exact Hrun|]. split; [done|].
  refine (proj2 (proj2 (quota_commits_sequentially 1000 0 [o1; o2] _ _ _ _ _ Hrun))).
  - unfold usize_max. lia.
  - lia.
  - repeat constructor; simpl; lia.
Defined.

End Concurrent.
