(* ===== verification/Reassembly.v ===== *)
(** Message reassembly ([tox-sequenced/src/reassembly/buffer.rs] and
    [reassembly/mod.rs]).

    [FragmentBuffer] stores the fragments of one message with the received
    mask, the counters and the size estimates; its abstract view is the partial
    map from fragment index to fragment ([frag]).  [MessageReassembler] adds the
    message identity, its priority, the memory reserved for it and the
    acknowledgements computed from the buffer. *)

From S2P Require Import Prelude Bitset Protocol.
#[local] Open Scope Z_scope.
#[local] Open Scope list_scope.

Module FragmentBuffer.

Record t := mk {
  fragments : list (option bytes);
  total_fragments : Z;
  received_mask : BitSet.t;
  received_count : Z;
  current_size : Z;
  full_fragment_size : option Z;
  last_fragment_size : option Z;
  base_index : Z;
  highest_index : Z
}.
#[global] Instance eta_t : Settable t := fun b =>
  mk (fragments b) (total_fragments b) (received_mask b) (received_count b) (current_size b)
     (full_fragment_size b) (last_fragment_size b) (base_index b) (highest_index b).

(** [size_of::<Option<Vec<u8>>>()] on a 64-bit target. *)
Definition FRAGMENT_STRUCT_OVERHEAD : Z := 24.
Definition HEAP_OVERHEAD_ESTIMATE : Z := 32.
Definition PER_FRAGMENT_OVERHEAD : Z := FRAGMENT_STRUCT_OVERHEAD + HEAP_OVERHEAD_ESTIMATE.

Definition new (total : Z) : t :=
  {| fragments := replicate (Z.to_nat total) None;
     total_fragments := total;
     received_mask := BitSet.new BITSET_WORDS;
     received_count := 0;
     current_size := 0;
     full_fragment_size := None;
     last_fragment_size := None;
     base_index := 0;
     highest_index := 0 |}.

Definition is_complete (b : t) : bool := received_count b =? total_fragments b.

(** The [while] loop that moves [base_index] over the received fragments. *)
Fixpoint advance_base (fuel : nat) (mask : BitSet.t) (total base : Z) : option Z :=
  match fuel with
  | O => Some base
  | S fuel =>
      if (base <? total) && BitSet.get mask base
      then base ← chk_u16 (base + 1); advance_base fuel mask total base
      else Some base
  end.

Definition add_fragment (b : t) (index : Z) (data : bytes) : option (t * result SequencedError bool) :=
  if total_fragments b <=? index then Some (b, Err InvalidFragmentIndex)
  else if BitSet.get (received_mask b) index then Some (b, Ok (is_complete b))
  else
    last ← chk_u16 (total_fragments b - 1);
    let length := len data in
    let b :=
      if index =? last then b <| last_fragment_size := Some length |>
      else
        match full_fragment_size b with
        | None => b <| full_fragment_size := Some length |>
        | Some current => if current <? length then b <| full_fragment_size := Some length |> else b
        end in
    size ← chk_usize (current_size b + length);
    frags ← upd (fragments b) index (Some data);
    count ← chk_u16 (received_count b + 1);
    let b := b <| current_size := size |> <| fragments := frags |>
               <| received_mask := (BitSet.set (received_mask b) index).1 |>
               <| received_count := count |> in
    b ← (if index =? base_index b then
           base ← chk_u16 (base_index b + 1);
           base ← advance_base (Z.to_nat (total_fragments b)) (received_mask b) (total_fragments b) base;
           Some (b <| base_index := base |>)
         else Some b);
    let b := if highest_index b <? index then b <| highest_index := index |> else b in
    Some (b, Ok (is_complete b)).

(** [into_iter().flatten()] and [extend_from_slice] *)
Definition assemble (b : t) : option bytes :=
  if negb (is_complete b) then None
  else Some (concat (omap id (fragments b))).

Definition total_allocated_size (b : t) : Z :=
  current_size b + received_count b * PER_FRAGMENT_OVERHEAD.

Definition planned_total_size (b : t) : Z :=
  if total_fragments b =? 0 then 0
  else
    let full_size := default ESTIMATED_PAYLOAD_SIZE (full_fragment_size b) in
    let last_size := default full_size (last_fragment_size b) in
    let estimated_payload :=
      if total_fragments b =? 1 then last_size
      else (total_fragments b - 1) * full_size + last_size in
    let overhead := total_fragments b * PER_FRAGMENT_OVERHEAD in
    Z.max (estimated_payload + overhead) (total_allocated_size b).

(** *** Invariant *)

(** The fragment stored at an index. *)
Definition frag (b : t) (i : Z) : option bytes := mjoin (idx (fragments b) i).

Definition frag_len (f : option bytes) : Z := match f with Some d => len d | None => 0 end.
Definition stored_bytes (fs : list (option bytes)) : Z := foldr (fun f n => frag_len f + n) 0 fs.

Record wf (b : t) : Prop := {
  wf_total : 0 <= total_fragments b <= MAX_FRAGMENTS_PER_MESSAGE;
  wf_len : len (fragments b) = total_fragments b;
  wf_mask : BitSet.wf (received_mask b);
  wf_words : BitSet.N (received_mask b) = Z.of_nat BITSET_WORDS;
  wf_recv i : 0 <= i -> BitSet.get (received_mask b) i = bool_decide (is_Some (frag b i));
  wf_count : received_count b =
    count_if (BitSet.get (received_mask b)) (zrange 0 (total_fragments b));
  wf_size : current_size b = stored_bytes (fragments b);
  wf_base : 0 <= base_index b <= total_fragments b;
  wf_base_below i : 0 <= i < base_index b -> BitSet.get (received_mask b) i = true;
  wf_base_at : base_index b < total_fragments b ->
    BitSet.get (received_mask b) (base_index b) = false;
  wf_highest : 0 <= highest_index b <= MAX_FRAGMENTS_PER_MESSAGE;
  wf_above i : highest_index b < i -> BitSet.get (received_mask b) i = false;
  wf_full n : full_fragment_size b = Some n -> 0 <= n <= current_size b;
  wf_last n : last_fragment_size b = Some n -> 0 <= n <= current_size b
}.

Lemma capacity_words b : wf b -> BitSet.N (received_mask b) * 64 = 1024.
Proof. intros H. by rewrite (wf_words b H). Qed.

Lemma stored_nonneg fs : 0 <= stored_bytes fs.
Proof.
  induction fs as [|f fs IH]; simpl; [done|].
  destruct f as [d|]; simpl; [pose proof (len_nonneg d)|]; lia.
Qed.

Lemma stored_insert fs i d :
  idx fs i = Some None -> stored_bytes (<[Z.to_nat i := Some d]> fs) = stored_bytes fs + len d.
Proof.
  intros [Hi H]%idx_Some. revert H. generalize (Z.to_nat i). clear Hi i.
  induction fs as [|f fs IH]; intros [|n] H; simpl in *; [done..| |].
  - simplify_eq. simpl. lia.
  - rewrite IH by done. lia.
Qed.

Lemma new_buffer_wf total : 0 <= total <= MAX_FRAGMENTS_PER_MESSAGE -> wf (new total).
Proof.
  intros Ht. destruct (BitSet.new_spec BITSET_WORDS) as (H1 & H2 & H3).
  assert (forall i, frag (new total) i = None) as Hf.
  { intros i. unfold frag, idx. cbn. destruct (0 <=? i); [|done].
    destruct (replicate _ _ !! _) as [o|] eqn:E; [|done].
    apply lookup_replicate in E as [-> _]. done. }
  split; cbn -[BitSet.new BitSet.get count_if zrange stored_bytes]; try done; try lia.
  - unfold len. rewrite length_replicate. lia.
  - intros i Hi. rewrite H3, Hf by done. done.
  - symmetry. apply count_if_none. intros x Hx%elem_of_zrange. apply H3. lia.
  - generalize (Z.to_nat total). intros n. induction n; simpl; lia.
  - intros i Hi. apply H3. lia.
Qed.

(** The loop stops at the first missing fragment. *)
Lemma advance_base_spec mask total fuel base :
  0 <= base <= total -> total <= MAX_FRAGMENTS_PER_MESSAGE -> total - base <= Z.of_nat fuel ->
  exists r, advance_base fuel mask total base = Some r /\ base <= r <= total /\
    (forall i, base <= i < r -> BitSet.get mask i = true) /\
    (r < total -> BitSet.get mask r = false).
Proof.
  revert base. induction fuel as [|fuel IH]; intros base Hb Ht Hf; cbn.
  - exists base. split_and!; [done|lia|lia|intros; lia|lia].
  - destruct (Z.ltb_spec base total); cbn.
    2: { exists base. split_and!; [done|lia|lia|intros; lia|lia]. }
    destruct (BitSet.get mask base) eqn:E; cbn.
    2: { exists base. split_and!; [done|lia|lia|intros; lia|done]. }
    unfold chk_u16, MAX_FRAGMENTS_PER_MESSAGE, u16_max in *. rewrite chk_ok by lia. cbn.
    destruct (IH (base + 1)) as (r & -> & Hr & Hbelow & Hat); [lia..|].
    exists r. split_and!; [done|lia|lia| |done]. intros i Hi.
    destruct (decide (i = base)) as [->|]; [done|]. apply Hbelow. lia.
Qed.

(** The size estimates. *)
Definition with_sizes (b : t) (full last : option Z) : t :=
  b <| full_fragment_size := full |> <| last_fragment_size := last |>.

Lemma sizes_update b index last length :
  exists full' last',
    (if index =? last then b <| last_fragment_size := Some length |>
     else match full_fragment_size b with
          | None => b <| full_fragment_size := Some length |>
          | Some current => if current <? length then b <| full_fragment_size := Some length |> else b
          end) = with_sizes b full' last' /\
    (full' = full_fragment_size b \/ full' = Some length) /\
    (last' = last_fragment_size b \/ last' = Some length).
Proof.
  destruct b as [? ? ? ? ? full lst ? ?]. cbn.
  destruct (index =? last); [exists full, (Some length); auto|].
  destruct full as [c|]; [destruct (c <? length)|].
  - exists (Some length), lst; auto.
  - exists (Some c), lst; auto.
  - exists (Some length), lst; auto.
Qed.

Lemma frag_eq b b' i : fragments b' = fragments b -> frag b' i = frag b i.
Proof. intros H. unfold frag. by rewrite H. Qed.

Lemma frag_lt b i : wf b -> 0 <= i < total_fragments b -> exists f, idx (fragments b) i = Some f /\ frag b i = f.
Proof.
  intros Hwf Hi. assert (is_Some (idx (fragments b) i)) as [f Hf].
  { apply idx_is_Some. by rewrite (wf_len b Hwf). }
  exists f. unfold frag. rewrite Hf. done.
Qed.

Lemma frag_out b i : wf b -> total_fragments b <= i -> frag b i = None.
Proof.
  intros Hwf Hi. unfold frag. destruct (idx (fragments b) i) eqn:E; [|done].
  apply idx_lt in E. rewrite (wf_len b Hwf) in E. lia.
Qed.

(** The state after a new fragment [d] is stored at [i]. *)
Definition stored (b : t) (full last : option Z) (i : Z) (d : bytes) (base : Z) : t :=
  {| fragments := <[Z.to_nat i := Some d]> (fragments b);
     total_fragments := total_fragments b;
     received_mask := (BitSet.set (received_mask b) i).1;
     received_count := received_count b + 1;
     current_size := current_size b + len d;
     full_fragment_size := full;
     last_fragment_size := last;
     base_index := base;
     highest_index := if highest_index b <? i then i else highest_index b |}.

Lemma stored_frag b full last i d base j :
  wf b -> 0 <= i < total_fragments b ->
  frag (stored b full last i d base) j = if decide (i = j) then Some d else frag b j.
Proof.
  intros Hwf Hi. unfold frag. cbn.
  destruct (Z.lt_ge_cases j 0).
  - unfold idx. rewrite (proj2 (Z.leb_gt 0 j)) by lia. cbn. rewrite decide_False by lia. done.
  - rewrite idx_insert by (rewrite ?(wf_len b Hwf); lia). by case_decide.
Qed.

Lemma stored_get b full last i d base j :
  wf b -> 0 <= i < total_fragments b -> 0 <= j ->
  BitSet.get (received_mask (stored b full last i d base)) j =
  (j =? i) || BitSet.get (received_mask b) j.
Proof.
  intros Hwf Hi Hj. cbn. pose proof (wf_total b Hwf) as Ht. unfold MAX_FRAGMENTS_PER_MESSAGE in Ht.
  destruct (BitSet.set_spec (received_mask b) i (wf_mask b Hwf)) as (_ & _ & _ & Hg); [lia|].
  rewrite Hg by done. rewrite (capacity_words b Hwf), (proj2 (Z.ltb_lt i 1024)), andb_true_r by lia.
  done.
Qed.

Lemma stored_wf b full last i d base :
  wf b -> 0 <= i < total_fragments b -> frag b i = None ->
  0 <= base <= total_fragments b ->
  (forall j, 0 <= j < base -> (j =? i) || BitSet.get (received_mask b) j = true) ->
  (base < total_fragments b -> (base =? i) || BitSet.get (received_mask b) base = false) ->
  full = full_fragment_size b \/ full = Some (len d) ->
  last = last_fragment_size b \/ last = Some (len d) ->
  wf (stored b full last i d base).
Proof.
  intros Hwf Hi Hnone Hbase Hbelow Hat Hfull Hlast.
  pose proof (len_nonneg d) as Hd. pose proof (stored_nonneg (fragments b)) as Hs0.
  rewrite <- (wf_size b Hwf) in Hs0.
  pose proof (fun j => stored_get b full last i d base j Hwf Hi) as Hget.
  cbn -[BitSet.set BitSet.get] in Hget.
  destruct (BitSet.set_spec (received_mask b) i (wf_mask b Hwf) ltac:(lia)) as (Hm1 & Hm2 & _ & _).
  assert (BitSet.get (received_mask b) i = false) as Hni.
  { rewrite (wf_recv b Hwf), Hnone by lia. done. }
  destruct (frag_lt b i Hwf Hi) as (f & Hf & Hf'). rewrite Hnone in Hf'. subst f.
  split; cbn -[BitSet.set BitSet.get].
  - apply Hwf.
  - rewrite len_insert. apply Hwf.
  - done.
  - rewrite Hm2. apply Hwf.
  - intros j Hj. rewrite (Hget j Hj), stored_frag, (wf_recv b Hwf) by done.
    case_decide as E; [subst j; by rewrite Z.eqb_refl|].
    by rewrite (proj2 (Z.eqb_neq j i)) by congruence.
  - rewrite (wf_count b Hwf). symmetry. apply (count_if_zrange_flip _ _ _ _ i); [lia|done|..].
    + by rewrite (Hget i), Z.eqb_refl by lia.
    + intros j Hj Hne. by rewrite (Hget j), (proj2 (Z.eqb_neq j i)) by lia.
  - rewrite (wf_size b Hwf). symmetry. by apply stored_insert.
  - done.
  - intros j Hj. rewrite (Hget j) by lia. by apply Hbelow.
  - intros Hlt. rewrite (Hget base) by lia. by apply Hat.
  - pose proof (wf_highest b Hwf). pose proof (wf_total b Hwf). destruct (Z.ltb_spec (highest_index b) i); lia.
  - intros j Hj. pose proof (wf_highest b Hwf).
    rewrite (Hget j) by (destruct (Z.ltb_spec (highest_index b) i); lia).
    rewrite (proj2 (Z.eqb_neq j i)) by (destruct (Z.ltb_spec (highest_index b) i); lia).
    apply (wf_above b Hwf). destruct (Z.ltb_spec (highest_index b) i); lia.
  - intros n ->. destruct Hfull as [E|[= ->]]; [apply eq_sym, (wf_full b Hwf) in E|]; lia.
  - intros n ->. destruct Hlast as [E|[= ->]]; [apply eq_sym, (wf_last b Hwf) in E|]; lia.
Qed.

(** A new fragment is stored, and the base moves to the first missing one. *)
Lemma add_fragment_new b i d :
  wf b -> 0 <= i < total_fragments b -> frag b i = None -> current_size b + len d <= usize_max ->
  exists full last base,
    add_fragment b i d =
      Some (stored b full last i d base, Ok (is_complete (stored b full last i d base))) /\
    wf (stored b full last i d base).
Proof.
  intros Hwf Hi Hnone Hsz. pose proof (wf_total b Hwf) as Ht.
  pose proof (wf_base b Hwf) as Hb0. pose proof (stored_nonneg (fragments b)) as Hs0.
  rewrite <- (wf_size b Hwf) in Hs0. pose proof (len_nonneg d) as Hd.
  pose proof (count_if_bounds (BitSet.get (received_mask b)) (zrange 0 (total_fragments b))) as Hc.
  rewrite <- (wf_count b Hwf), len_zrange in Hc by lia. unfold MAX_FRAGMENTS_PER_MESSAGE in Ht.
  unfold add_fragment. rewrite (proj2 (Z.leb_gt _ _)) by lia.
  rewrite (wf_recv b Hwf), Hnone, bool_decide_false by (lia || by intros [? ?]).
  run_chk. destruct (sizes_update b i (total_fragments b - 1) (len d)) as (full & last & -> & Hfull & Hlast).
  cbn [current_size fragments received_count base_index highest_index with_sizes set_field].
  rewrite upd_ok by (rewrite (wf_len b Hwf); lia). repeat run_chk.
  cbn [total_fragments received_mask base_index highest_index with_sizes set_field].
  pose proof (fun f l base j => stored_get b f l i d base j Hwf Hi) as Hget.
  cbn -[BitSet.set BitSet.get] in Hget.
  destruct (Z.eqb_spec i (base_index b)) as [E|E].
  - destruct (advance_base_spec (BitSet.set (received_mask b) i).1 (total_fragments b)
      (Z.to_nat (total_fragments b)) (base_index b + 1)) as (r & Heq & Hr & Hbelow & Hat);
      [lia|unfold MAX_FRAGMENTS_PER_MESSAGE; lia|lia|]. rewrite Heq. run.
    exists full, last, r. split.
    + unfold stored. cbn -[BitSet.set len]. by destruct (highest_index b <? i).
    + apply stored_wf; [done|done|done|lia| | |done|done].
      * intros j Hj. rewrite <- Hget by (done || lia).
        destruct (Z.lt_ge_cases j (base_index b + 1)); [|apply Hbelow; lia].
        rewrite Hget by (done || lia). destruct (Z.eqb_spec j i); [done|].
        apply (wf_base_below b Hwf). lia.
      * intros Hlt. rewrite <- Hget by (done || lia). by apply Hat.
  - run. exists full, last, (base_index b). split.
    + unfold stored. cbn -[BitSet.set len]. by destruct (highest_index b <? i).
    + apply stored_wf; [done|done|done|lia| | |done|done].
      * intros j Hj. rewrite (wf_base_below b Hwf) by done. apply orb_true_r.
      * intros Hlt. rewrite (wf_base_at b Hwf), (proj2 (Z.eqb_neq _ i)) by (done || lia). done.
Qed.

Lemma add_fragment_dup b i d :
  wf b -> 0 <= i -> is_Some (frag b i) -> add_fragment b i d = Some (b, Ok (is_complete b)).
Proof.
  intros Hwf Hi Hs. unfold add_fragment.
  destruct (Z.leb_spec (total_fragments b) i).
  - destruct Hs as [f Hs]. by rewrite frag_out in Hs.
  - by rewrite (wf_recv b Hwf), bool_decide_true by (lia || done).
Qed.

Lemma add_fragment_out b i d :
  total_fragments b <= i -> add_fragment b i d = Some (b, Err InvalidFragmentIndex).
Proof. intros Hi. unfold add_fragment. by rewrite (proj2 (Z.leb_le _ _)). Qed.

(** Every call returns; it stores the fragment unless the index is out of
    range or already present, and leaves the other fragments alone. *)
Lemma add_fragment_spec b i d :
  wf b -> 0 <= i -> current_size b + len d <= usize_max ->
  exists b' r, add_fragment b i d = Some (b', r) /\ wf b' /\
    total_fragments b' = total_fragments b /\
    r = (if i <? total_fragments b then Ok (is_complete b') else Err InvalidFragmentIndex) /\
    (forall j, frag b' j =
       if decide (j = i /\ i < total_fragments b) then Some (default d (frag b i)) else frag b j) /\
    current_size b' = current_size b +
      (if decide (i < total_fragments b /\ frag b i = None) then len d else 0).
Proof.
  intros Hwf Hi Hsz. destruct (Z.ltb_spec i (total_fragments b)) as [Hlt|Hge].
  - destruct (frag b i) as [f|] eqn:E.
    + exists b, (Ok (is_complete b)). rewrite add_fragment_dup by eauto.
      split_and!; [done..| |rewrite decide_False by naive_solver; lia].
      intros j. case_decide as Ej; [|done]. destruct Ej as [-> _]. by rewrite E.
    + destruct (add_fragment_new b i d Hwf ltac:(lia) E Hsz) as (full & last & base & -> & Hwf').
      exists (stored b full last i d base). eexists. split_and!; [done..| |].
      * intros j. rewrite stored_frag by (done || lia).
        destruct (decide (i = j)) as [->|]; [by rewrite decide_True|].
        rewrite decide_False by naive_solver. done.
      * rewrite decide_True by done. done.
  - exists b, (Err InvalidFragmentIndex). rewrite add_fragment_out by done.
    split_and!; [done..| |rewrite decide_False by lia; lia].
    intros j. by rewrite decide_False by lia.
Qed.

Lemma is_complete_spec b :
  wf b -> is_complete b = true <-> (forall i, 0 <= i < total_fragments b -> is_Some (frag b i)).
Proof.
  intros Hwf. pose proof (wf_total b Hwf). unfold is_complete. rewrite Z.eqb_eq, (wf_count b Hwf).
  replace (total_fragments b) with (len (zrange 0 (total_fragments b))) at 2
    by (rewrite len_zrange; lia).
  rewrite count_if_all. setoid_rewrite elem_of_zrange. split; intros H1 i Hi.
  - specialize (H1 i Hi). rewrite (wf_recv b Hwf) in H1 by lia. by apply bool_decide_eq_true in H1.
  - rewrite (wf_recv b Hwf) by lia. apply bool_decide_eq_true. by apply H1.
Qed.

Lemma list_of_idx {A} (l : list A) (f : Z -> A) :
  (forall i, 0 <= i < len l -> idx l i = Some (f i)) -> l = f <$> zrange 0 (len l).
Proof.
  intros H. apply list_eq. intros i.
  destruct (decide (i < length l)%nat) as [Hi|Hi].
  - specialize (H (Z.of_nat i) ltac:(unfold len; lia)). apply idx_Some in H as [_ H].
    rewrite Nat2Z.id in H. rewrite H, list_lookup_fmap. unfold zrange.
    rewrite list_lookup_fmap, lookup_seq_lt by (unfold len; lia). done.
  - rewrite !lookup_ge_None_2; [done| |lia]. unfold zrange, len. rewrite !length_fmap, length_seq. lia.
Qed.

(** A complete buffer assembles to its fragments in index order. *)
Lemma assemble_spec b (f : Z -> bytes) :
  wf b -> (forall i, 0 <= i < total_fragments b -> frag b i = Some (f i)) ->
  assemble b = Some (concat (f <$> zrange 0 (total_fragments b))).
Proof.
  intros Hwf Hf. unfold assemble.
  rewrite (proj2 (is_complete_spec b Hwf)) by (intros i Hi; rewrite Hf; eauto). cbn. f_equal. f_equal.
  rewrite <- (wf_len b Hwf). rewrite (list_of_idx (fragments b) (fun i => Some (f i))) at 1.
  - generalize (zrange 0 (len (fragments b))). intros l. induction l as [|x l IH]; [done|].
    cbn. by rewrite <- IH.
  - rewrite (wf_len b Hwf). intros i Hi. destruct (frag_lt b i Hwf Hi) as (x & Hx & Hx').
    rewrite Hx, <- Hx', Hf by done. done.
Qed.

Lemma assemble_incomplete b : is_complete b = false -> assemble b = None.
Proof. intros H. unfold assemble. by rewrite H. Qed.

(** The planned size covers what the buffer already holds. *)
Lemma planned_ge_allocated b :
  wf b -> total_fragments b <> 0 -> total_allocated_size b <= planned_total_size b.
Proof. intros Hwf Hne. unfold planned_total_size. rewrite (proj2 (Z.eqb_neq _ _)) by done. lia. Qed.

(** Planned sizes of messages within the size limit stay far below [usize]. *)
Lemma planned_bound b :
  wf b -> current_size b <= MAX_MESSAGE_SIZE -> 0 <= planned_total_size b <= 2 ^ 31.
Proof.
  intros Hwf Hsz. pose proof (wf_total b Hwf) as Ht. pose proof (stored_nonneg (fragments b)) as Hs0.
  rewrite <- (wf_size b Hwf) in Hs0.
  pose proof (count_if_bounds (BitSet.get (received_mask b)) (zrange 0 (total_fragments b))) as Hc.
  rewrite <- (wf_count b Hwf), len_zrange in Hc by lia.
  unfold MAX_FRAGMENTS_PER_MESSAGE, MAX_MESSAGE_SIZE in *.
  unfold planned_total_size, total_allocated_size, PER_FRAGMENT_OVERHEAD, FRAGMENT_STRUCT_OVERHEAD,
    HEAP_OVERHEAD_ESTIMATE. destruct (Z.eqb_spec (total_fragments b) 0); [lia|].
  assert (0 <= default ESTIMATED_PAYLOAD_SIZE (full_fragment_size b) <= 1048576) as Hf.
  { destruct (full_fragment_size b) as [n0|] eqn:E; cbn; [apply (wf_full b Hwf) in E; lia|].
    unfold ESTIMATED_PAYLOAD_SIZE; lia. }
  set (fs := default ESTIMATED_PAYLOAD_SIZE (full_fragment_size b)) in *.
  assert (0 <= default fs (last_fragment_size b) <= 1048576) as Hl.
  { destruct (last_fragment_size b) as [n0|] eqn:E; cbn; [apply (wf_last b Hwf) in E|]; lia. }
  cbv zeta. destruct (Z.eqb_spec (total_fragments b) 1); nia.
Qed.

End FragmentBuffer.

Module MessageReassembler.

Record t := mk {
  message_id : Z;
  total_fragments : Z;
  priority : Priority;
  buffer : FragmentBuffer.t;
  reserved_bytes : Z;
  last_activity : Instant
}.
#[global] Instance eta_t : Settable t := fun r =>
  mk (message_id r) (total_fragments r) (priority r) (buffer r) (reserved_bytes r) (last_activity r).

Definition new (message_id total_fragments : Z) (priority : Priority) (reserved_bytes : Z)
    (now : Instant) : result SequencedError t :=
  if (total_fragments =? 0) || (MAX_FRAGMENTS_PER_MESSAGE <? total_fragments)
  then Err InvalidTotalFragments
  else Ok (mk message_id total_fragments priority (FragmentBuffer.new total_fragments) reserved_bytes now).

Definition is_received (r : t) (index : Z) : bool :=
  if total_fragments r <=? index then false
  else BitSet.get (FragmentBuffer.received_mask (buffer r)) index.

Definition add_fragment (r : t) (index : Z) (data : bytes) (now : Instant) :
    option (t * result SequencedError bool) :=
  let r := r <| last_activity := now |> in
  size ← chk_usize (FragmentBuffer.current_size (buffer r) + len data);
  if MAX_MESSAGE_SIZE <? size then Some (r, Err MessageTooLarge)
  else
    '(b, res) ← FragmentBuffer.add_fragment (buffer r) index data;
    Some (r <| buffer := b |>, res).

Definition assemble (r : t) : option bytes := FragmentBuffer.assemble (buffer r).

Definition create_ack (r : t) (rwnd_fragments : Z) : SelectiveAck :=
  let base_index := FragmentBuffer.base_index (buffer r) in
  let bitmask := BitSet.sack_mask (FragmentBuffer.received_mask (buffer r)) base_index in
  {| ack_message_id := message_id r; ack_base_index := base_index;
     ack_bitmask := bitmask; ack_rwnd := rwnd_fragments |}.

(** The loop collecting missing indices: it breaks at 128 of them, so 128
    rounds are enough. *)
Fixpoint nack_loop (fuel : nat) (mask : BitSet.t) (curr limit : Z) (missing : list Z) : option (list Z) :=
  match fuel with
  | O => Some missing
  | S fuel =>
      match BitSet.next_zero mask curr limit with
      | None => Some missing
      | Some zero_idx =>
          let zero_idx := wrap 16 zero_idx in
          let missing := missing ++ [zero_idx] in
          if 128 <=? len missing then Some missing
          else curr ← chk_u16 (zero_idx + 1); nack_loop fuel mask curr limit missing
      end
  end.

Definition create_nack (r : t) (base_index : Z) : option (option Nack) :=
  let limit := FragmentBuffer.highest_index (buffer r) in
  missing ← nack_loop 128 (FragmentBuffer.received_mask (buffer r)) base_index limit [];
  Some (match missing with
        | [] => None
        | _ => Some {| nack_message_id := message_id r; missing_indices := missing |}
        end).

Definition received_count (r : t) : Z := FragmentBuffer.received_count (buffer r).
Definition current_size (r : t) : Z := FragmentBuffer.current_size (buffer r).
Definition planned_total_size (r : t) : Z := FragmentBuffer.planned_total_size (buffer r).

(** *** Invariant *)

Record wf (r : t) : Prop := {
  wf_buffer : FragmentBuffer.wf (buffer r);
  wf_total_eq : FragmentBuffer.total_fragments (buffer r) = total_fragments r;
  wf_total_pos : 0 < total_fragments r <= MAX_FRAGMENTS_PER_MESSAGE;
  wf_size_max : FragmentBuffer.current_size (buffer r) <= MAX_MESSAGE_SIZE
}.

(** The fragment received at an index. *)
Definition received (r : t) (i : Z) : option bytes := FragmentBuffer.frag (buffer r) i.

Lemma reassembler_new_spec mid total p res now :
  0 <= total ->
  match new mid total p res now with
  | Ok r => wf r /\ total_fragments r = total /\ message_id r = mid /\ reserved_bytes r = res /\
            priority r = p /\ last_activity r = now /\ (forall i, received r i = None)
  | Err e => e = InvalidTotalFragments /\ (total = 0 \/ MAX_FRAGMENTS_PER_MESSAGE < total)
  end.
Proof.
  intros H0. unfold new. destruct (Z.eqb_spec total 0); cbn [orb]; [auto|].
  destruct (Z.ltb_spec MAX_FRAGMENTS_PER_MESSAGE total); [auto|].
  pose proof (FragmentBuffer.new_buffer_wf total ltac:(lia)) as Hwf. split_and!; try done.
  - split; cbn; [done|done|lia|unfold MAX_MESSAGE_SIZE; lia].
  - intros i. unfold received. cbn. destruct (FragmentBuffer.frag _ i) as [d|] eqn:E; [|done].
    unfold FragmentBuffer.frag, idx in E. cbn in E. destruct (0 <=? i); [|done].
    destruct (replicate _ _ !! _) as [o|] eqn:E2; [|done].
    by apply lookup_replicate in E2 as [-> _].
Qed.

(** Adding a fragment returns, keeps the invariant and stores the fragment or
    reports why not. *)
Lemma reassembler_add_spec r i d now :
  wf r -> 0 <= i -> len d <= isize_max ->
  exists r' res, add_fragment r i d now = Some (r', res) /\ wf r' /\
    message_id r' = message_id r /\ total_fragments r' = total_fragments r /\
    priority r' = priority r /\ reserved_bytes r' = reserved_bytes r /\ last_activity r' = now /\
    match res with
    | Ok complete =>
        i < total_fragments r /\ complete = FragmentBuffer.is_complete (buffer r') /\
        received r' i = Some (default d (received r i)) /\
        (forall j, j <> i -> received r' j = received r j)
    | Err e =>
        buffer r' = buffer r /\
        (MAX_MESSAGE_SIZE < current_size r + len d \/ total_fragments r <= i) /\
        e = (if MAX_MESSAGE_SIZE <? current_size r + len d then MessageTooLarge
             else InvalidFragmentIndex)
    end.
Proof.
  intros Hwf Hi Hd. pose proof Hwf as [Hb Ht Hp Hsz]. unfold MAX_MESSAGE_SIZE in Hsz.
  pose proof (len_nonneg d) as Hd0. pose proof (FragmentBuffer.stored_nonneg (FragmentBuffer.fragments (buffer r))) as Hs0.
  rewrite <- (FragmentBuffer.wf_size _ Hb) in Hs0. unfold isize_max in Hd.
  unfold add_fragment. cbn [buffer set_field]. run_chk. fold (current_size r).
  destruct (Z.ltb_spec MAX_MESSAGE_SIZE (current_size r + len d)) as [Hbig|Hok].
  - eexists _, _. split; [done|]. split; [split; done|]. split_and!; auto.
  - unfold current_size, MAX_MESSAGE_SIZE in *. destruct (Z.lt_ge_cases i (total_fragments r)) as [Hlt|Hge].
    + destruct (FragmentBuffer.add_fragment_spec (buffer r) i d Hb Hi) as (b' & res & -> & Hwf' & Ht' & -> & Hf & Hc).
      { unfold usize_max. lia. }
      run. eexists _, _. split; [done|]. rewrite Ht in *. split.
      { split; cbn; [done|congruence|done|]. rewrite Hc. unfold MAX_MESSAGE_SIZE. case_decide; lia. }
      rewrite (proj2 (Z.ltb_lt i _)) by done. split_and!; try done.
      * unfold received. cbn. by rewrite Hf, decide_True by done.
      * intros j Hj. unfold received. cbn. by rewrite Hf, decide_False by naive_solver.
    + rewrite FragmentBuffer.add_fragment_out by lia. run. eexists _, _. split; [done|].
      split; [split; done|]. split_and!; auto.
Qed.

(** *** Acknowledgements *)

(** The fragments an acknowledgement names: those below the base and those
    whose bit is set in the mask. *)
Definition acknowledges (a : SelectiveAck) (i : Z) : Prop :=
  0 <= i /\
  (i < ack_base_index a \/
   exists k, 0 <= k < 64 /\ i = ack_base_index a + 1 + k /\ Z.testbit (ack_bitmask a) k = true).

Lemma received_get r i :
  wf r -> 0 <= i ->
  BitSet.get (FragmentBuffer.received_mask (buffer r)) i = bool_decide (is_Some (received r i)).
Proof. intros Hwf Hi. by apply FragmentBuffer.wf_recv; [apply Hwf|]. Qed.

Lemma received_iff r i :
  wf r -> 0 <= i ->
  BitSet.get (FragmentBuffer.received_mask (buffer r)) i = true <-> is_Some (received r i).
Proof. intros Hwf Hi. rewrite received_get by done. apply bool_decide_eq_true. Qed.

Lemma create_ack_spec r rwnd i :
  wf r -> i <= FragmentBuffer.base_index (buffer r) + 64 ->
  acknowledges (create_ack r rwnd) i <-> 0 <= i /\ is_Some (received r i).
Proof.
  intros Hwf Hi. pose proof (wf_buffer r Hwf) as Hb.
  pose proof (FragmentBuffer.wf_base _ Hb) as Hbase.
  destruct (BitSet.sack_mask_spec _ (FragmentBuffer.base_index (buffer r)) (FragmentBuffer.wf_mask _ Hb)
    ltac:(lia)) as [_ Hmask].
  unfold acknowledges, create_ack. cbn -[BitSet.sack_mask].
  set (base := FragmentBuffer.base_index (buffer r)) in *. split.
  - intros [H0 [Hlt|(k & Hk & -> & Hbit)]]; (split; [done|]).
    + rewrite <- received_iff by done. by apply (FragmentBuffer.wf_base_below _ Hb).
    + rewrite Hmask in Hbit by done. by rewrite received_iff in Hbit by done.
  - intros [H0 Hs]. split; [done|]. rewrite <- received_iff in Hs by done.
    destruct (Z.lt_total i base) as [?|[->|Hgt]]; [by left| |].
    + destruct (Z.lt_ge_cases base (FragmentBuffer.total_fragments (buffer r))) as [Hlt|Hge].
      * assert (BitSet.get (FragmentBuffer.received_mask (buffer r)) base = false) by (by apply (FragmentBuffer.wf_base_at _ Hb)). congruence.
      * rewrite received_get in Hs by done. unfold received in Hs. by rewrite FragmentBuffer.frag_out in Hs.
    + right. exists (i - base - 1). split_and!; [lia|lia|lia|].
      rewrite Hmask by lia. by replace (base + 1 + (i - base - 1)) with i by lia.
Qed.

(** The loop collects the first missing indices in order. *)
Lemma nack_loop_spec mask limit fuel curr missing :
  BitSet.wf mask -> 0 <= curr -> limit <= MAX_FRAGMENTS_PER_MESSAGE ->
  128 - len missing <= Z.of_nat fuel -> len missing < 128 ->
  nack_loop fuel mask curr limit missing =
  Some (missing ++ take (128 - length missing)
          (List.filter (fun j => negb (BitSet.get mask j)) (zrange curr limit))).
Proof.
  intros Hwf. revert curr missing. induction fuel as [|fuel IH]; intros curr missing Hc Hl Hf Hm; [lia|].
  cbn [nack_loop]. rewrite BitSet.next_zero_spec by done.
  destruct (List.find _ _) as [z|] eqn:E.
  - apply find_zrange_Some in E as (Hz & Hzero & Hbelow).
    unfold MAX_FRAGMENTS_PER_MESSAGE in Hl. rewrite wrap_small by (unfold in_u; lia).
    rewrite (zrange_app curr z limit), List.filter_app, (zrange_cons z limit) by lia.
    rewrite (List.filter_ext_in (fun j => negb (BitSet.get mask j)) (fun _ => false) (zrange curr z)), List.filter_false.
    2: { intros j Hj%list_elem_of_In%elem_of_zrange. by apply Hbelow. }
    cbn [List.filter app]. rewrite Hzero. rewrite len_app. unfold len in *. cbn [length] in *.
    destruct (Z.leb_spec 128 (Z.of_nat (length missing) + Z.of_nat 1)).
    + replace (128 - length missing)%nat with 1%nat by lia. done.
    + run_chk. rewrite IH; [|lia|unfold MAX_FRAGMENTS_PER_MESSAGE; lia|rewrite length_app; cbn; lia|rewrite length_app; cbn; lia].
      rewrite <- app_assoc. do 2 f_equal. rewrite length_app. cbn [length].
      replace (128 - length missing)%nat with (S (128 - (length missing + 1))) by lia. done.
  - rewrite (List.filter_ext_in (fun j => negb (BitSet.get mask j)) (fun _ => false)), List.filter_false.
    + by rewrite take_nil, app_nil_r.
    + intros j Hj%list_elem_of_In. rewrite find_None_forall in E. by apply E.
Qed.

(** The indices of a range that have not been received. *)
Definition missing_in (r : t) (lo hi : Z) : list Z :=
  List.filter (fun j => negb (bool_decide (is_Some (received r j)))) (zrange lo hi).

Lemma missing_in_get r lo hi :
  wf r -> 0 <= lo ->
  List.filter (fun j => negb (BitSet.get (FragmentBuffer.received_mask (buffer r)) j)) (zrange lo hi) =
  missing_in r lo hi.
Proof.
  intros Hwf Hlo. apply List.filter_ext_in. intros j Hj%list_elem_of_In%elem_of_zrange.
  by rewrite received_get by (done || lia).
Qed.

Lemma create_nack_total r base : wf r -> in_u 16 base -> is_Some (create_nack r base).
Proof.
  intros Hwf Hb. pose proof (wf_buffer r Hwf) as Hbuf. unfold create_nack, in_u in *.
  rewrite nack_loop_spec; [|apply (FragmentBuffer.wf_mask _ Hbuf)|lia|apply (FragmentBuffer.wf_highest _ Hbuf)|done|done]. by eexists.
Qed.

(** *** Theorems *)

(** Acknowledgements of the receiver.  An acknowledgement built by
    [create_ack] carries a 16-bit base and a 64-bit mask, names only fragments
    that were received, and names every received fragment up to 64 places past
    its base. *)
Theorem create_ack_names_received r rwnd i :
  wf r ->
  let a := create_ack r rwnd in
  in_u 16 (ack_base_index a) /\ in_u 64 (ack_bitmask a) /\ ack_message_id a = message_id r /\
  (acknowledges a i -> is_Some (received r i)) /\
  (0 <= i <= ack_base_index a + 64 -> is_Some (received r i) -> acknowledges a i).
Proof.
  intros Hwf a. pose proof (wf_buffer r Hwf) as Hb. pose proof (FragmentBuffer.wf_base _ Hb) as Hbase.
  pose proof (FragmentBuffer.wf_total _ Hb) as Htot. unfold MAX_FRAGMENTS_PER_MESSAGE in Htot.
  destruct (BitSet.sack_mask_spec _ (FragmentBuffer.base_index (buffer r)) (FragmentBuffer.wf_mask _ Hb)
    ltac:(lia)) as [Hm _].
  split_and!; [unfold in_u, a, create_ack; cbn; lia|exact Hm|done| |].
  - intros Ha. apply (create_ack_spec r rwnd i Hwf); [|done].
    destruct Ha as [_ [H|(k & Hk & -> & _)]]; cbn in *; lia.
  - intros Hi Hr. apply create_ack_spec; [done|cbn in Hi; lia|]. split; [lia|done].
Qed.

(** A reassembler of four fragments that received the second and the fourth. *)
Definition fresh : t := mk 7 4 Standard (FragmentBuffer.new 4) 0 0.
Definition partial : t :=
  match add_fragment fresh 1 [8] 1 with
  | Some (r, _) => match add_fragment r 3 [9] 2 with Some (r, _) => r | None => fresh end
  | None => fresh
  end.

Lemma partial_wf : wf partial.
Proof.
  pose proof (reassembler_new_spec 7 4 Standard 0 0 ltac:(lia)) as (Hwf & _). fold fresh in Hwf. unfold partial.
  destruct (reassembler_add_spec fresh 1 [8] 1 Hwf ltac:(lia) ltac:(done)) as (r1 & x1 & E1 & Hwf1 & _). rewrite E1.
  destruct (reassembler_add_spec r1 3 [9] 2 Hwf1 ltac:(lia) ltac:(done)) as (r2 & x2 & E2 & Hwf2 & _). by rewrite E2.
Qed.

Lemma create_ack_names_received_witness :
  acknowledges (create_ack partial 9) 3 /\ ~ acknowledges (create_ack partial 9) 2.
Proof.
  destruct (create_ack_names_received partial 9 3 partial_wf) as (_ & _ & _ & _ & H3).
  destruct (create_ack_names_received partial 9 2 partial_wf) as (_ & _ & _ & H2 & _).
  split; [apply H3; [by vm_compute|by exists [9]]|]. intros [d Hd]%H2. by vm_compute in Hd.
Defined.

(** Negative acknowledgements.  Called with a base index, [create_nack]
    never panics and asks for the first 128 fragments, in increasing order, that
    are missing between the base and the highest fragment received; it asks for
    nothing when none is missing there. *)
Theorem create_nack_lists_missing r base :
  wf r -> in_u 16 base ->
  create_nack r base =
  Some (match take 128 (missing_in r base (FragmentBuffer.highest_index (buffer r))) with
        | [] => None
        | l => Some (mkNack (message_id r) l)
        end).
Proof.
  intros Hwf Hb. pose proof (wf_buffer r Hwf) as Hbuf. unfold create_nack, in_u in *.
  rewrite nack_loop_spec; [|apply (FragmentBuffer.wf_mask _ Hbuf)|lia|apply (FragmentBuffer.wf_highest _ Hbuf)|done|done].
  rewrite missing_in_get by (done || lia). cbn [app length]. change (128 - 0)%nat with 128%nat. run.
  by destruct (take 128 _).
Qed.

Lemma create_nack_lists_missing_witness : create_nack partial 0 = Some (Some (mkNack 7 [0; 2])).
Proof. rewrite (create_nack_lists_missing partial 0 partial_wf ltac:(done)). reflexivity. Defined.

(** A fragment that arrives again is measured against the size limit before it
    is recognised as a duplicate, so a duplicate near the limit is answered with
    an error (on which the session drops the whole message).*)
Theorem duplicate_near_limit_rejected r i d now :
  wf r -> is_Some (received r i) -> len d <= isize_max -> MAX_MESSAGE_SIZE < current_size r + len d ->
  exists r', add_fragment r i d now = Some (r', Err MessageTooLarge).
Proof.
  intros Hwf [d' Hd'] Hd Hbig. assert (0 <= i) as Hi.
  { unfold received, FragmentBuffer.frag in Hd'. destruct (idx _ i) eqn:E; [|done]. apply idx_lt in E. lia. }
  pose proof Hwf as [_ _ _ Hsz]. unfold MAX_MESSAGE_SIZE, isize_max, current_size in *.
  pose proof (FragmentBuffer.stored_nonneg (FragmentBuffer.fragments (buffer r))) as Hs0.
  rewrite <- (FragmentBuffer.wf_size _ (wf_buffer r Hwf)) in Hs0. pose proof (len_nonneg d).
  unfold add_fragment. cbn [buffer set_field]. run_chk. unfold MAX_MESSAGE_SIZE.
  rewrite (proj2 (Z.ltb_lt _ _)) by done. by eexists.
Qed.

(** A fragment of a mebibyte less one byte. *)
Definition long_fragment : bytes := replicate (Z.to_nat (2 ^ 20 - 1)) 0.

Lemma duplicate_near_limit_rejected_witness :
  exists r c r', add_fragment fresh 1 long_fragment 1 = Some (r, Ok c) /\
    add_fragment r 1 long_fragment 2 = Some (r', Err MessageTooLarge).
Proof.
  pose proof (reassembler_new_spec 7 4 Standard 0 0 ltac:(lia)) as (Hwf & _). fold fresh in Hwf.
  assert (len long_fragment = 2 ^ 20 - 1) as Hl by (unfold len, long_fragment; rewrite length_replicate; lia).
  assert (option_map (fun p => current_size p.1) (add_fragment fresh 1 long_fragment 1) = Some (2 ^ 20 - 1)) as Hc by (vm_compute; reflexivity).
  destruct (reassembler_add_spec fresh 1 long_fragment 1 Hwf ltac:(lia) ltac:(unfold isize_max; lia)) as (r1 & x1 & E1 & Hwf1 & _ & _ & _ & _ & _ & Hx).
  assert (current_size fresh = 0 /\ total_fragments fresh = 4) as [F1 F2] by (split; reflexivity).
  destruct x1 as [c|e]; [|exfalso; rewrite F1, F2, Hl in Hx; unfold MAX_MESSAGE_SIZE in Hx; lia].
  rewrite E1 in Hc. injection Hc as Hc.
  destruct (duplicate_near_limit_rejected r1 1 long_fragment 2) as (r2 & E2).
  - exact Hwf1.
  - destruct Hx as (_ & _ & Hx & _). rewrite Hx. eexists. reflexivity.
  - unfold isize_max. lia.
  - rewrite Hl, Hc. vm_compute. reflexivity.
  - exists r1, c, r2. split; [exact E1|exact E2].
Defined.

End MessageReassembler.
