(* ===== verification/Float32.v ===== *)
(** Single-precision arithmetic and its use on durations.

    [f32] is IEEE 754 binary32 with round-to-nearest-even, as computed by the
    Standard Library's executable specification [SpecFloat] at precision 24 and
    maximal exponent 128.  The file models the operations of [f32] and of
    [std::time::Duration] the transport uses: comparisons, [max], [min],
    [clamp], casts, [as_secs_f32], [from_secs_f32] and [mul_f32]. *)

From S2P Require Import Prelude Protocol.
From Stdlib Require Import SpecFloat.
#[local] Open Scope Z_scope.
#[local] Open Scope list_scope.

Abbreviation f32 := spec_float (only parsing).

Module F32.

Definition prec : Z := 24.
Definition emax : Z := 128.

(** [z as f32]; also integer-valued literals. *)
Definition of_Z (z : Z) : f32 := binary_normalize prec emax z 0 false.
Definition add : f32 -> f32 -> f32 := SFadd prec emax.
Definition sub : f32 -> f32 -> f32 := SFsub prec emax.
Definition mul : f32 -> f32 -> f32 := SFmul prec emax.
Definition div : f32 -> f32 -> f32 := SFdiv prec emax.
(** The literal nearest to [p / q]. *)
Definition lit (p q : Z) : f32 := div (of_Z p) (of_Z q).

Definition lt (x y : f32) : bool := SFltb x y.
Definition le (x y : f32) : bool := SFleb x y.
Definition gt (x y : f32) : bool := SFltb y x.
Definition ge (x y : f32) : bool := SFleb y x.
Definition eq (x y : f32) : bool := SFeqb x y.

Definition is_nan (x : f32) : bool := match x with S754_nan => true | _ => false end.
Definition is_finite (x : f32) : bool :=
  match x with S754_zero _ | S754_finite _ _ _ => true | _ => false end.

(** [f32::max] and [f32::min] return the other argument when one is a NaN. *)
Definition max (x y : f32) : f32 :=
  if is_nan x then y else if is_nan y then x else if lt x y then y else x.
Definition min (x y : f32) : f32 :=
  if is_nan x then y else if is_nan y then x else if lt y x then y else x.
(** [f32::clamp] *)
Definition clamp (x lo hi : f32) : f32 := if lt x lo then lo else if lt hi x then hi else x.

(** The integer part of a finite value, towards zero. *)
Definition trunc (x : f32) : Z :=
  match x with
  | S754_finite s m e =>
      let v := if 0 <=? e then Z.pos m * 2 ^ e else Z.pos m / 2 ^ (- e) in
      if s then - v else v
  | _ => 0
  end.
(** [x as usize]: truncation, saturating at the bounds, 0 for a NaN. *)
Definition to_usize (x : f32) : Z :=
  match x with
  | S754_nan => 0
  | S754_infinity s => if s then 0 else usize_max
  | _ => Z.max 0 (Z.min usize_max (trunc x))
  end.

End F32.
#[global] Arguments F32.of_Z _ : simpl never.
#[global] Arguments F32.lit _ _ : simpl never.
#[global] Arguments F32.add _ _ : simpl never.
#[global] Arguments F32.sub _ _ : simpl never.
#[global] Arguments F32.mul _ _ : simpl never.
#[global] Arguments F32.div _ _ : simpl never.

(** ** Durations *)

Definition NANOS_PER_SEC : Z := 1000000000.

(** [Duration::as_secs_f32] *)
Definition as_secs_f32 (d : Duration) : f32 :=
  F32.add (F32.of_Z (d / NANOS_PER_SEC))
          (F32.div (F32.of_Z (d mod NANOS_PER_SEC)) (F32.of_Z NANOS_PER_SEC)).

(** The integer nearest to [a / b], ties to even. *)
Definition round_half_even (a b : Z) : Z :=
  let q := a / b in
  let r := a mod b in
  if 2 * r <? b then q else if b <? 2 * r then q + 1 else if Z.even q then q else q + 1.

(** [Duration::from_secs_f32]: the nearest number of nanoseconds; a panic on
    a negative, non-finite or too large argument. *)
Definition from_secs_f32 (x : f32) : option Duration :=
  match x with
  | S754_zero _ => Some 0
  | S754_finite false m e =>
      let n := if 0 <=? e then Z.pos m * 2 ^ e * NANOS_PER_SEC
               else round_half_even (Z.pos m * NANOS_PER_SEC) (2 ^ (- e)) in
      if n / NANOS_PER_SEC <=? u64_max then Some n else None
  | _ => None
  end.

(** [Duration::mul_f32] *)
Definition mul_f32 (d : Duration) (rhs : f32) : option Duration :=
  from_secs_f32 (F32.mul rhs (as_secs_f32 d)).

Example f32_third : F32.lit 1 3 = S754_finite false 11184811 (-25).
Proof. reflexivity. Qed.

Example mul_f32_example : mul_f32 (from_millis 200) (F32.lit 3 2) = Some 300000012.
Proof. reflexivity. Qed.
