(* ===== verification/F32Theory.v ===== *)
(** Real-number semantics of the single-precision operations.

    [F32.val] is the real value of a non-negative finite number.  The central
    fact is that rounding is monotone with respect to representable numbers
    ([round_spec]); from it follow, for each operation the transport uses, that
    it stays finite and non-negative within range and respects every
    representable lower and upper bound of the exact result. *)

From S2P Require Import Prelude Protocol Float32.
From Stdlib Require Import SpecFloat Reals Lra.
#[local] Open Scope Z_scope.

Module F32T.

Definition bpow (e : Z) : R := powerRZ 2 e.

Lemma bpow_pos e : (0 < bpow e)%R.
Proof. apply powerRZ_lt. lra. Qed.

Lemma bpow_add a b : bpow (a + b) = (bpow a * bpow b)%R.
Proof. apply powerRZ_add. lra. Qed.

Lemma bpow_Z n : 0 <= n -> bpow n = IZR (2 ^ n).
Proof. intros H. unfold bpow. symmetry. change 2%R with (IZR 2). rewrite <- (Z2Nat.id n) by done. rewrite <- pow_IZR, <- pow_powerRZ. done. Qed.

Lemma bpow_le a b : a <= b -> (bpow a <= bpow b)%R.
Proof.
  intros H. replace b with (a + (b - a)) by lia. rewrite bpow_add, (bpow_Z (b - a)) by lia.
  assert (1 <= IZR (2 ^ (b - a)))%R by (apply IZR_le; lia). pose proof (bpow_pos a). nra.
Qed.

(** [v] lies at [m * 2^e] exactly, or strictly between it and the next multiple. *)
Definition between (m e : Z) (exact : bool) (v : R) : Prop :=
  if exact then v = (IZR m * bpow e)%R else (IZR m * bpow e < v < (IZR m + 1) * bpow e)%R.

Definition exact_loc (l : location) : bool := match l with loc_Exact => true | _ => false end.

(** *** Digits *)

Lemma digits2_spec p : 2 ^ (Z.pos (digits2_pos p) - 1) <= Z.pos p < 2 ^ Z.pos (digits2_pos p).
Proof.
  induction p as [p IH|p IH|]; cbn [digits2_pos]; [| |done];
    rewrite Pos2Z.inj_succ; unfold Z.succ;
    replace (Z.pos (digits2_pos p) + 1 - 1) with (Z.pos (digits2_pos p)) by lia;
    replace (Z.pos (digits2_pos p)) with (1 + (Z.pos (digits2_pos p) - 1)) at 1 by lia;
    rewrite !Z.pow_add_r by lia; lia.
Qed.

Lemma digits2_bounds m : 0 < m -> 2 ^ (Zdigits2 m - 1) <= m < 2 ^ Zdigits2 m.
Proof. destruct m as [|p|p]; try lia. intros _. apply digits2_spec. Qed.

Lemma digits2_le m n : 0 <= m -> 0 <= n -> m < 2 ^ n -> Zdigits2 m <= n.
Proof.
  intros Hm Hn H. destruct (Z.eq_dec m 0) as [->|]; [done|].
  pose proof (digits2_bounds m ltac:(lia)) as [Hd _]. assert (0 < Zdigits2 m) by (destruct m; cbn; lia).
  apply Z.nlt_ge. intros Hlt. assert (2 ^ n <= 2 ^ (Zdigits2 m - 1)) by (apply Z.pow_le_mono_r; lia). lia.
Qed.

Lemma digits2_nonneg m : 0 <= Zdigits2 m.
Proof. destruct m; cbn; lia. Qed.

(** *** Shifting *)

Lemma shr_1_spec m r s e v :
  0 <= m -> between m e (negb (r || s)) v ->
  let mrs := shr_1 (Build_shr_record m r s) in
  shr_m mrs = m / 2 /\ between (shr_m mrs) (e + 1) (negb (shr_r mrs || shr_s mrs)) v.
Proof.
  intros Hm Hb. pose proof (bpow_pos e) as Hp.
  assert (bpow (e + 1) = (2 * bpow e)%R) as He by (rewrite bpow_add, (bpow_Z 1) by lia; change (IZR (2 ^ 1)) with 2%R; lra).
  destruct m as [|[p|p|]|p]; try lia; cbn -[bpow IZR Z.div].
  - split; [done|]. unfold between in *. rewrite He. destruct (r || s); cbn [negb] in *; lra.
  - split; [by rewrite (Z.div_unique (Z.pos p~1) 2 (Z.pos p) 1) by lia|].
    assert (IZR (Z.pos p~1) = (2 * IZR (Z.pos p) + 1)%R) as Hi.
    { rewrite Pos2Z.inj_xI, plus_IZR, mult_IZR. done. }
    unfold between in *. rewrite Hi, He in *. destruct (r || s); cbn [negb orb] in *; lra.
  - split; [by rewrite (Z.div_unique (Z.pos p~0) 2 (Z.pos p) 0) by lia|].
    assert (IZR (Z.pos p~0) = (2 * IZR (Z.pos p))%R) as Hi by (rewrite Pos2Z.inj_xO, mult_IZR; done).
    unfold between in *. rewrite Hi, He in *. destruct (r || s); cbn [negb orb] in *; lra.
  - split; [done|]. unfold between in *. rewrite He. destruct (r || s); cbn [negb orb] in *; lra.
Qed.

Lemma iter_pos_spec p m r s e v :
  0 <= m -> between m e (negb (r || s)) v ->
  let mrs := SpecFloat.iter_pos shr_1 p (Build_shr_record m r s) in
  shr_m mrs = m / 2 ^ Z.pos p /\ between (shr_m mrs) (e + Z.pos p) (negb (shr_r mrs || shr_s mrs)) v.
Proof.
  revert m r s e. induction p as [p IH|p IH|]; intros m r s e Hm Hb; cbn [SpecFloat.iter_pos].
  - destruct (shr_1_spec m r s e v Hm Hb) as [H1 B1]. destruct (shr_1 _) as [m1 r1 s1]. cbn [shr_m shr_r shr_s] in *.
    destruct (IH m1 r1 s1 (e + 1)) as [H2 B2]; [subst; by apply Z.div_pos|done|].
    destruct (SpecFloat.iter_pos shr_1 p _) as [m2 r2 s2]. cbn [shr_m shr_r shr_s] in *.
    destruct (IH m2 r2 s2 (e + 1 + Z.pos p)) as [H3 B3].
    { subst. apply Z.div_pos; [apply Z.div_pos; lia|lia]. }
    { done. }
    split.
    + assert (2 ^ Z.pos p~1 = 2 * 2 ^ Z.pos p * 2 ^ Z.pos p) as ->.
      { change 2 with (2 ^ 1) at 2. rewrite <- !Z.pow_add_r by lia. f_equal. lia. }
      by rewrite H3, H2, H1, !Z.div_div, ?Z.mul_assoc by lia.
    + by replace (e + Z.pos p~1) with (e + 1 + Z.pos p + Z.pos p) by lia.
  - destruct (IH m r s e Hm Hb) as [H2 B2]. destruct (SpecFloat.iter_pos shr_1 p _) as [m2 r2 s2]. cbn [shr_m shr_r shr_s] in *.
    destruct (IH m2 r2 s2 (e + Z.pos p)) as [H3 B3]; [subst; apply Z.div_pos; lia|done|].
    split.
    + assert (2 ^ Z.pos p~0 = 2 ^ Z.pos p * 2 ^ Z.pos p) as ->.
      { rewrite <- !Z.pow_add_r by lia. f_equal. lia. }
      by rewrite H3, H2, !Z.div_div by lia.
    + by replace (e + Z.pos p~0) with (e + Z.pos p + Z.pos p) by lia.
  - by apply shr_1_spec.
Qed.

(** *** Rounding *)

Abbreviation prec := F32.prec.
Abbreviation emax := F32.emax.

Definition emin_ : Z := -149.
Definition fexp_ (e : Z) : Z := Z.max (e - 24) emin_.

Lemma fexp_eq e : fexp prec emax e = fexp_ e.
Proof. done. Qed.

(** The exponent at which a mantissa is rounded. *)
Definition rexp (m e : Z) : Z := Z.max e (fexp_ (Zdigits2 m + e)).

Lemma shr_fexp_spec m e l v :
  0 <= m -> between m e (exact_loc l) v ->
  let '(mrs, e') := shr_fexp prec emax m e l in
  e' = rexp m e /\ shr_m mrs = m / 2 ^ (e' - e) /\
  between (shr_m mrs) e' (exact_loc (loc_of_shr_record mrs)) v.
Proof.
  intros Hm Hb. unfold shr_fexp. rewrite fexp_eq.
  assert (exists r s, shr_record_of_loc m l = Build_shr_record m r s /\ negb (r || s) = exact_loc l) as (r & s & -> & Hrs).
  { destruct l as [|[]]; eexists _, _; done. }
  rewrite <- Hrs in Hb. unfold shr, rexp. destruct (fexp_ (Zdigits2 m + e) - e) as [|p|p] eqn:Ed.
  - rewrite Z.max_l, Z.sub_diag by lia. cbn [shr_m]. rewrite Z.div_1_r. split_and!; [done..|].
    by destruct r, s.
  - destruct (iter_pos_spec p m r s e v Hm Hb) as [H1 H2].
    rewrite Z.max_r by lia. split_and!; [lia| |].
    + rewrite H1. do 2 f_equal. lia.
    + destruct (SpecFloat.iter_pos shr_1 p _) as [m1 r1 s1]. cbn [shr_m shr_r shr_s] in *. by destruct r1, s1.
  - rewrite Z.max_l, Z.sub_diag by lia. cbn [shr_m]. rewrite Z.div_1_r. split_and!; [done..|].
    by destruct r, s.
Qed.

Lemma shifted_lt m e : 0 <= m -> m / 2 ^ (rexp m e - e) < 2 ^ 24.
Proof.
  intros Hm. destruct (Z.eq_dec m 0) as [->|Hne]; [rewrite Z.div_0_l; [lia|apply Z.pow_nonzero; unfold rexp; lia]|].
  pose proof (digits2_bounds m ltac:(lia)) as [_ Hd]. apply Z.div_lt_upper_bound; [unfold rexp; apply Z.pow_pos_nonneg; lia|].
  rewrite <- Z.pow_add_r by (unfold rexp; lia). eapply Z.lt_le_trans; [done|].
  apply Z.pow_le_mono_r; [lia|]. unfold rexp, fexp_. lia.
Qed.

(** The value of a non-negative number, 0 for the others. *)
Definition val (x : f32) : R := match x with S754_finite _ m e => (IZR (Z.pos m) * bpow e)%R | _ => 0%R end.

(** Non-negative finite numbers in canonical form. *)
Definition nnf (x : f32) : Prop :=
  match x with
  | S754_zero _ => True
  | S754_finite false m e => Z.pos m < 2 ^ 24 /\ -149 <= e <= 104 /\ (2 ^ 23 <= Z.pos m \/ e = -149)
  | _ => False
  end.

(** The rounded mantissa [mr], at exponent [rexp m e], of a number between
    [m * 2^e] and the next multiple. *)
Definition rounds (m e : Z) (exact : bool) (mr : Z) : Prop :=
  let e' := rexp m e in
  let m' := m / 2 ^ (e' - e) in
  (mr = m' \/ mr = m' + 1) /\
  (forall v, between m e exact v -> (IZR m' * bpow e' <= v)%R /\ (v < IZR (m' + 1) * bpow e')%R /\
     (v = IZR m' * bpow e' -> mr = m')%R).

Lemma round_aux_spec m e l :
  0 <= m -> exists mr, rounds m e (exact_loc l) mr /\
    binary_round_aux prec emax false m e l =
    (if decide (mr = 0) then S754_zero false
     else if decide (mr = 2 ^ 24)
     then (if rexp m e + 1 <=? 104 then S754_finite false (2 ^ 23) (rexp m e + 1) else S754_infinity false)
     else (if rexp m e <=? 104 then S754_finite false (Z.to_pos mr) (rexp m e) else S754_infinity false)).
Proof.
  intros Hm. unfold binary_round_aux.
  pose proof (fun v => shr_fexp_spec m e l v Hm) as Hshr. destruct (shr_fexp prec emax m e l) as [mrs e'] eqn:Es.
  assert (exists v, between m e (exact_loc l) v) as [v0 Hv0].
  { pose proof (bpow_pos e). destruct (exact_loc l); [by eexists|]. exists ((IZR m + / 2) * bpow e)%R. cbn. nra. }
  destruct (Hshr v0 Hv0) as (-> & Hm' & _). set (m' := m / 2 ^ (rexp m e - e)) in *.
  assert (0 <= m' < 2 ^ 24) as Hb.
  { split; [apply Z.div_pos; [done|apply Z.pow_pos_nonneg; unfold rexp; lia]|by apply shifted_lt]. }
  set (mr := round_nearest_even (shr_m mrs) (loc_of_shr_record mrs)).
  assert (mr = m' \/ mr = m' + 1) as Hmr.
  { unfold mr. rewrite Hm'. destruct (loc_of_shr_record mrs) as [|[]]; cbn; auto. destruct (Z.even m'); auto. }
  exists mr. split.
  - split; [done|]. intros v Hv. destruct (Hshr v Hv) as (_ & _ & Hbt). rewrite Hm' in Hbt.
    pose proof (bpow_pos (rexp m e)) as Hp. fold m'. rewrite plus_IZR. unfold between in Hbt.
    destruct (exact_loc (loc_of_shr_record mrs)) eqn:Ex.
    + split_and!; [lra|nra|]. intros _. unfold mr. rewrite Hm'. by destruct (loc_of_shr_record mrs).
    + split_and!; [lra|lra|]. intros E. lra.
  - assert (0 <= mr <= 2 ^ 24) as Hmrb by lia.
    pose proof (shr_fexp_spec mr (rexp m e) loc_Exact (IZR mr * bpow (rexp m e)) ltac:(lia) eq_refl) as H2.
    destruct (shr_fexp prec emax mr (rexp m e) loc_Exact) as [mrs2 e2]. destruct H2 as (-> & Hm2 & _).
    assert (-149 <= rexp m e) as HE by (unfold rexp, fexp_, emin_; lia). set (E := rexp m e) in *.
    case_decide as H0; [|case_decide as Hc].
    + rewrite H0 in *. assert (rexp 0 E = E) as HrE by (unfold rexp, fexp_, emin_; cbn; lia).
      rewrite HrE, Z.sub_diag in Hm2. by rewrite Hm2.
    + rewrite Hc in *. assert (rexp (2 ^ 24) E = E + 1) as HrE by (unfold rexp, fexp_, emin_; change (Zdigits2 (2 ^ 24)) with 25; lia).
      rewrite HrE in *. replace (E + 1 - E) with 1 in Hm2 by lia. rewrite Hm2. done.
    + assert (rexp mr E = E) as HrE.
      { unfold rexp, fexp_, emin_. pose proof (digits2_le mr 24 ltac:(lia) ltac:(lia) ltac:(lia)). lia. }
      rewrite HrE in *. rewrite Z.sub_diag, Z.div_1_r in Hm2. rewrite Hm2.
      destruct mr as [|p|p] eqn:Emr; [done| |lia]. done.
Qed.

(** [x] is a non-negative number that respects every representable bound of [v]. *)
Definition approx (v : R) (x : f32) : Prop :=
  nnf x /\
  (forall r, nnf r -> (v <= val r)%R -> (val x <= val r)%R) /\
  (forall r, nnf r -> (val r <= v)%R -> (val r <= val x)%R).

Lemma val_nonneg x : nnf x -> (0 <= val x)%R.
Proof.
  destruct x as [| | |[] m e]; cbn [val nnf]; try lra; try done. intros _.
  pose proof (bpow_pos e). assert (0 < IZR (Z.pos m))%R by (apply IZR_lt; lia). nra.
Qed.

Lemma bpow_lt_inv a b : (bpow a < bpow b)%R -> a < b.
Proof. intros H. apply Z.nle_gt. intros Hle%bpow_le. lra. Qed.

Lemma scale_le (a b : Z) e : (IZR a * bpow e <= IZR b * bpow e)%R <-> a <= b.
Proof.
  pose proof (bpow_pos e) as Hp. split; intros H.
  - apply le_IZR. nra.
  - apply IZR_le in H. nra.
Qed.

Lemma scale_lt (a b : Z) e : (IZR a * bpow e < IZR b * bpow e)%R <-> a < b.
Proof.
  pose proof (bpow_pos e) as Hp. split; intros H.
  - apply lt_IZR. nra.
  - apply IZR_lt in H. nra.
Qed.

(** A representable number as a multiple of a smaller power of two. *)
Lemma nnf_multiple r e : nnf r -> match r with S754_finite _ _ E => e <= E | _ => True end ->
  exists K, 0 <= K /\ val r = (IZR K * bpow e)%R.
Proof.
  destruct r as [| | |[] M E]; try done; intros H He; cbn [val].
  - exists 0. split; [done|]. lra.
  - exists (Z.pos M * 2 ^ (E - e)). split; [lia|]. rewrite mult_IZR, <- bpow_Z, Rmult_assoc, <- bpow_add by lia.
    by replace (E - e + e) with E by lia.
Qed.

Section Rounded.
Context (m e : Z) (exact : bool) (v : R) (mr : Z).
Hypothesis Hm : 0 <= m.
Hypothesis Henough : e <= fexp_ (Zdigits2 m + e).
Hypothesis Hround : rounds m e exact mr.
Hypothesis Hv : between m e exact v.

Let e' := rexp m e.
Let m' := m / 2 ^ (e' - e).

Lemma rexp_enough : e' = fexp_ (Zdigits2 m + e).
Proof. unfold e', rexp. lia. Qed.

Lemma between_ge : (IZR m * bpow e <= v)%R.
Proof. destruct exact; cbn in Hv; lra. Qed.

Lemma m'_nonneg : 0 <= m'.
Proof. apply Z.div_pos; [done|]. apply Z.pow_pos_nonneg; [lia|]. unfold e', rexp. lia. Qed.

Lemma normal_large : -149 < e' -> 2 ^ 23 <= m'.
Proof.
  intros H. pose proof rexp_enough as He. pose proof Henough as Hen. unfold fexp_, emin_ in He, Hen.
  assert (e' = Zdigits2 m + e - 24) as He' by lia. pose proof (digits2_nonneg m).
  assert (m <> 0) as Hne.
  { intros Hz. assert (Zdigits2 m = 0) as Hd0 by (by rewrite Hz). lia. }
  pose proof (digits2_bounds m ltac:(lia)) as [Hd _].
  apply Z.div_le_lower_bound; [apply Z.pow_pos_nonneg; lia|]. rewrite <- Z.pow_add_r by lia.
  etrans; [|exact Hd]. apply Z.pow_le_mono_r; lia.
Qed.

Lemma rexp_below r : nnf r -> (v <= val r)%R -> match r with S754_finite _ _ E => e' <= E | _ => True end.
Proof.
  destruct r as [| | |[] M E]; try done. intros (HM & HE & _) Hle. cbn [val] in Hle.
  pose proof rexp_enough as He. unfold fexp_, emin_ in He. pose proof between_ge as Hge.
  destruct (Z.eq_dec m 0) as [Hz|Hne].
  { assert (Zdigits2 m = 0) as Hd0 by (by rewrite Hz). pose proof Henough as Hen. unfold fexp_, emin_ in Hen. lia. }
  pose proof (digits2_bounds m ltac:(lia)) as [Hd _]. pose proof (bpow_pos e) as Hp. pose proof (bpow_pos E) as HpE.
  pose proof (digits2_nonneg m). assert (0 < Zdigits2 m) by (destruct m; cbn; lia).
  assert (bpow (Zdigits2 m - 1 + e) < bpow (24 + E))%R as Hlt%bpow_lt_inv.
  { rewrite !bpow_add, (bpow_Z (Zdigits2 m - 1)), (bpow_Z 24) by lia. apply IZR_le in Hd. apply IZR_lt in HM. nra. }
  lia.
Qed.

Lemma rounded_le r : nnf r -> (v <= val r)%R -> (IZR mr * bpow e' <= val r)%R.
Proof.
  intros Hr Hle. destruct (nnf_multiple r e' Hr (rexp_below r Hr Hle)) as (K & HK & HvK). rewrite HvK in *.
  destruct Hround as [Hcase Hbd]. destruct (Hbd v Hv) as (H1 & H2 & H3). fold e' m' in Hcase, H1, H2, H3. apply scale_le.
  assert (m' <= K) by (apply (scale_le _ _ e'); lra).
  destruct Hcase as [->| ->]; [done|]. assert (m' <> K); [|lia]. intros <-. assert (v = IZR m' * bpow e')%R as E by lra.
  specialize (H3 E). lia.
Qed.

Lemma rounded_ge r : nnf r -> (val r <= v)%R -> (val r <= IZR mr * bpow e')%R.
Proof.
  intros Hr Hge. destruct Hround as [Hcase Hbd]. destruct (Hbd v Hv) as (H1 & H2 & _). fold e' m' in Hcase, H1, H2.
  pose proof m'_nonneg as Hm'.
  assert (match r with S754_finite _ _ E => e' <= E | _ => True end \/
          exists M E, r = S754_finite false M E /\ E < e') as [Hle|(M & E & -> & Hlt)].
  { destruct r as [| | |[] M E]; auto; [done|]. destruct (Z.le_gt_cases e' E); eauto. }
  - destruct (nnf_multiple r e' Hr Hle) as (K & HK & HvK). rewrite HvK in *. apply scale_le.
    assert (K < m' + 1) by (apply (scale_lt _ _ e'); lra). lia.
  - destruct Hr as (HM & HE & _). pose proof (normal_large ltac:(lia)) as Hbig. cbn [val].
    assert (2 ^ 23 <= mr) as Hmr by lia. apply IZR_le in Hmr. apply IZR_lt in HM.
    pose proof (bpow_pos E). pose proof (bpow_pos e').
    assert (bpow (E + 1) <= bpow e')%R as Hb by (apply bpow_le; lia).
    rewrite bpow_add, (bpow_Z 1) in Hb by lia. change (IZR (2 ^ 1)) with 2%R in Hb.
    change (IZR (2 ^ 24)) with 16777216%R in HM. change (IZR (2 ^ 23)) with 8388608%R in Hmr. nra.
Qed.

End Rounded.

(** The largest magnitude the operations are used at. *)
Definition huge : f32 := S754_finite false (2 ^ 23) 81.
Lemma huge_nnf : nnf huge.
Proof. cbn. lia. Qed.
Lemma huge_val : val huge = bpow 104.
Proof. cbn [val huge]. change (IZR (Z.pos (2 ^ 23))) with (IZR (2 ^ 23)). rewrite <- bpow_Z, <- bpow_add by lia. done. Qed.

Lemma round_aux_bounded m e l v :
  0 <= m -> e <= fexp_ (Zdigits2 m + e) -> between m e (exact_loc l) v -> (v <= bpow 104)%R ->
  approx v (binary_round_aux prec emax false m e l).
Proof.
  intros Hm Hen Hv Hmax. destruct (round_aux_spec m e l Hm) as (mr & Hr & ->).
  pose proof (rounded_le m e _ v mr Hm Hen Hr Hv) as Hle. pose proof (rounded_ge m e _ v mr Hm Hen Hr Hv) as Hge.
  pose proof (m'_nonneg m e Hm) as Hm'. pose proof (normal_large m e Hm Hen) as Hnorm.
  set (E := rexp m e) in *. assert (-149 <= E) as HE by (unfold E, rexp, fexp_, emin_; lia).
  pose proof (Hle huge huge_nnf ltac:(rewrite huge_val; done)) as Hb. rewrite huge_val in Hb.
  pose proof (shifted_lt m e Hm) as Hlt24. fold E in Hlt24.
  assert (mr = m / 2 ^ (E - e) \/ mr = m / 2 ^ (E - e) + 1) as Hcase by (exact (proj1 Hr)).
  assert (0 <= mr) as Hmr by lia.
  assert (mr < 2 ^ 24 + 1) as Hmr2 by lia.
  pose proof (bpow_pos E) as HpE.
  assert (mr <> 0 -> E <= 104) as HE1.
  { intros Hne. apply Z.nlt_ge. intros Hlt. assert (bpow 104 < bpow E)%R.
    { assert (bpow 105 <= bpow E)%R by (apply bpow_le; lia). pose proof (bpow_pos 104).
      change 105 with (1 + 104) in H. rewrite bpow_add, (bpow_Z 1) in H by lia. change (IZR (2 ^ 1)) with 2%R in H. lra. }
    assert (1 <= IZR mr)%R by (apply IZR_le; lia). nra. }
  assert (forall x, val x = (IZR mr * bpow E)%R -> nnf x -> approx v x) as Hfin.
  { intros x Hx Hn. split_and!; [done|intros r H1 H2; rewrite Hx; by apply Hle|intros r H1 H2; rewrite Hx; by apply Hge]. }
  case_decide as H0.
  { apply Hfin; [|done]. rewrite H0. cbn. lra. }
  specialize (HE1 H0). case_decide as Hc.
  - assert (E + 1 <= 104) as HE2.
    { apply Z.nlt_ge. intros Hlt. assert (bpow 105 <= bpow (24 + E))%R by (apply bpow_le; lia).
      rewrite Hc, <- bpow_Z, <- bpow_add in Hb by lia.
      assert (bpow 104 < bpow 105)%R; [|lra]. change 105 with (1 + 104). rewrite bpow_add, (bpow_Z 1) by lia.
      change (IZR (2 ^ 1)) with 2%R. pose proof (bpow_pos 104). lra. }
    rewrite (proj2 (Z.leb_le _ _)) by done. apply Hfin.
    + cbn [val]. rewrite Hc. change (IZR (Z.pos (2 ^ 23))) with (IZR (2 ^ 23)). rewrite bpow_add, <- !bpow_Z by lia.
      change 24 with (23 + 1). rewrite bpow_add. lra.
    + cbn [nnf]. lia.
  - rewrite (proj2 (Z.leb_le _ _)) by done. apply Hfin.
    + cbn [val]. by rewrite Z2Pos.id by lia.
    + cbn [nnf]. rewrite Z2Pos.id by lia. split_and!; [lia|lia|lia|].
      destruct (Z.eq_dec E (-149)) as [|Hne]; [by right|left]. specialize (Hnorm ltac:(lia)).
      lia.
Qed.

(** The result of an operation: an approximation, or an overflow to infinity
    beyond [2^104]. *)
Definition approx_inf (v : R) (x : f32) : Prop := (x = S754_infinity false /\ (bpow 104 < v)%R) \/ approx v x.

Lemma approx_inf_bounded v x : approx_inf v x -> (v <= bpow 104)%R -> approx v x.
Proof. intros [[_ H]|H] Hv; [lra|done]. Qed.

Lemma round_aux_approx m e l v :
  0 <= m -> e <= fexp_ (Zdigits2 m + e) -> between m e (exact_loc l) v ->
  approx_inf v (binary_round_aux prec emax false m e l).
Proof.
  intros Hm Hen Hv. destruct (Rle_or_lt v (bpow 104)) as [Hle|Hgt]; [right; by apply round_aux_bounded|].
  destruct (round_aux_spec m e l Hm) as (mr & Hr & ->).
  pose proof (rounded_le m e _ v mr Hm Hen Hr Hv) as Hle. pose proof (rounded_ge m e _ v mr Hm Hen Hr Hv) as Hge.
  pose proof (m'_nonneg m e Hm) as Hm'. pose proof (normal_large m e Hm Hen) as Hnorm.
  set (E := rexp m e) in *. assert (-149 <= E) as HE by (unfold E, rexp, fexp_, emin_; lia).
  pose proof (shifted_lt m e Hm) as Hlt24. fold E in Hlt24.
  assert (mr = m / 2 ^ (E - e) \/ mr = m / 2 ^ (E - e) + 1) as Hcase by (exact (proj1 Hr)).
  assert (forall x, val x = (IZR mr * bpow E)%R -> nnf x -> approx v x) as Hfin.
  { intros x Hx Hn. split_and!; [done|intros r H1 H2; rewrite Hx; by apply Hle|intros r H1 H2; rewrite Hx; by apply Hge]. }
  case_decide as H0; [right; apply Hfin; [|done]; rewrite H0; cbn; lra|]. case_decide as Hc.
  - destruct (Z.leb_spec (E + 1) 104); [right; apply Hfin|by left].
    + cbn [val]. rewrite Hc. change (IZR (Z.pos (2 ^ 23))) with (IZR (2 ^ 23)). rewrite bpow_add, <- !bpow_Z by lia.
      change 24 with (23 + 1). rewrite bpow_add. lra.
    + cbn [nnf]. lia.
  - destruct (Z.leb_spec E 104); [right; apply Hfin|by left].
    + cbn [val]. by rewrite Z2Pos.id by lia.
    + cbn [nnf]. rewrite Z2Pos.id by lia. split_and!; [lia|lia|lia|].
      destruct (Z.eq_dec E (-149)) as [|Hne]; [by right|left]. specialize (Hnorm ltac:(lia)). lia.
Qed.

(** *** Operations *)

Lemma approx_zero s : approx 0 (S754_zero s).
Proof. split_and!; [done|intros r _ H; exact H|intros r _ H; exact H]. Qed.

Lemma iter_xO m d : Z.pos (Pos.iter xO m d) = Z.pos m * 2 ^ Z.pos d.
Proof.
  revert m. induction d as [|d IH] using Pos.peano_ind; intros m; [cbn; lia|].
  rewrite Pos.iter_succ, Pos2Z.inj_xO, IH, Pos2Z.inj_succ, Z.pow_succ_r by lia. lia.
Qed.

Lemma digits2_unique m d : 0 < d -> 2 ^ (d - 1) <= m < 2 ^ d -> Zdigits2 m = d.
Proof.
  intros Hd [H1 H2]. assert (0 < m) by (pose proof (Z.pow_pos_nonneg 2 (d - 1)); lia).
  apply Z.le_antisymm; [apply digits2_le; lia|]. apply Z.nlt_ge. intros Hlt.
  pose proof (digits2_bounds m ltac:(lia)) as [_ Hb]. pose proof (digits2_nonneg m).
  assert (2 ^ Zdigits2 m <= 2 ^ (d - 1)) by (apply Z.pow_le_mono_r; lia). lia.
Qed.

Lemma digits2_shift m d : 0 < m -> 0 <= d -> Zdigits2 (m * 2 ^ d) = Zdigits2 m + d.
Proof.
  intros Hm Hd. pose proof (digits2_bounds m Hm) as [H1 H2]. assert (0 < Zdigits2 m) by (destruct m; cbn; lia).
  apply digits2_unique; [lia|]. replace (Zdigits2 m + d - 1) with (Zdigits2 m - 1 + d) by lia.
  rewrite !Z.pow_add_r by lia. pose proof (Z.pow_pos_nonneg 2 d). nia.
Qed.

Lemma binary_round_approx p e : approx_inf (IZR (Z.pos p) * bpow e) (binary_round prec emax false p e).
Proof.
  unfold binary_round, shl_align. rewrite fexp_eq. set (f := fexp_ (Z.pos (digits2_pos p) + e)).
  destruct (f - e) as [|d|d] eqn:Ed.
  - apply round_aux_approx; [lia|unfold f in Ed; cbn [Zdigits2]; lia|done].
  - apply round_aux_approx; [lia|unfold f in Ed; cbn [Zdigits2]; lia|done].
  - rewrite iter_xO. apply round_aux_approx; [lia| |].
    + rewrite digits2_shift by lia. cbn [Zdigits2]. replace (Z.pos (digits2_pos p) + Z.pos d + f) with (Z.pos (digits2_pos p) + e) by lia.
      fold f. lia.
    + cbn [exact_loc between]. rewrite mult_IZR, <- bpow_Z, Rmult_assoc, <- bpow_add by lia.
      by replace (Z.pos d + f) with e by lia.
Qed.

Lemma of_Z_approx z : 0 <= z < 2 ^ 104 -> approx (IZR z) (F32.of_Z z).
Proof.
  intros Hz. unfold F32.of_Z, binary_normalize. destruct z as [|p|p]; [apply approx_zero| |lia].
  assert (IZR (Z.pos p) = IZR (Z.pos p) * bpow 0)%R as Hv by (cbn [bpow powerRZ]; unfold bpow; cbn; lra).
  rewrite Hv at 1. apply approx_inf_bounded; [apply binary_round_approx|].
  rewrite <- Hv, bpow_Z by lia. apply IZR_le. lia.
Qed.

Lemma nnf_digits m e : nnf (S754_finite false m e) -> Z.pos (digits2_pos m) = 24 \/ e = -149.
Proof.
  intros (H1 & _ & [H|H]); [left|by right]. apply (digits2_unique (Z.pos m) 24); [lia|]. split; [exact H|lia].
Qed.

Lemma mul_approx x y :
  nnf x -> nnf y -> approx_inf (val x * val y) (F32.mul x y).
Proof.
  intros Hx Hy. unfold F32.mul. destruct x as [sx| | |[] mx ex]; try done; destruct y as [sy| | |[] my ey]; try done; cbn [SFmul val xorb].
  1-3: right; rewrite ?Rmult_0_l, ?Rmult_0_r; apply approx_zero.
  assert (IZR (Z.pos mx) * bpow ex * (IZR (Z.pos my) * bpow ey) = IZR (Z.pos (mx * my)) * bpow (ex + ey))%R as Hv.
  { rewrite Pos2Z.inj_mul, mult_IZR, bpow_add. ring. }
  rewrite Hv. apply round_aux_approx; [lia| |done].
  unfold fexp_, emin_. destruct (nnf_digits mx ex Hx) as [Dx|Dx], (nnf_digits my ey Hy) as [Dy|Dy];
    destruct Hx as (Hx1 & Hx2 & _), Hy as (Hy1 & Hy2 & _); try lia.
  all: assert (24 <= Zdigits2 (Z.pos (mx * my))); [|lia].
  all: apply Z.nlt_ge; intros Hlt; pose proof (digits2_bounds (Z.pos (mx * my)) ltac:(lia)) as [_ Hb];
    assert (2 ^ Zdigits2 (Z.pos (mx * my)) <= 2 ^ 23) by (apply Z.pow_le_mono_r; lia);
    pose proof (digits2_spec mx) as [Hbx _]; pose proof (digits2_spec my) as [Hby _]; rewrite ?Dx, ?Dy in *; lia.
Qed.

Lemma add_approx x y :
  nnf x -> nnf y -> approx_inf (val x + val y) (F32.add x y).
Proof.
  intros Hx Hy. unfold F32.add.
  assert (forall z, nnf z -> approx (val z) z) as Hid by (intros z Hz; split_and!; done).
  destruct x as [sx| | |[] mx ex]; try done; destruct y as [sy| | |[] my ey]; try done; cbn [SFadd].
  - right. cbn [val]. rewrite Rplus_0_l. destruct sx, sy; apply approx_zero.
  - right. cbn [val]. rewrite Rplus_0_l. by apply (Hid (S754_finite false my ey)).
  - right. cbn [val]. rewrite Rplus_0_r. by apply (Hid (S754_finite false mx ex)).
  - set (ez := Z.min ex ey). cbn [cond_Zopp].
    assert (forall m e, ez <= e -> (IZR (Z.pos (fst (shl_align m e ez))) * bpow ez = IZR (Z.pos m) * bpow e)%R) as Hal.
    { intros m e He. unfold shl_align. destruct (ez - e) as [|d|d] eqn:Ed; cbn [fst]; [by replace e with ez by lia|lia|].
      rewrite iter_xO, mult_IZR, <- bpow_Z, Rmult_assoc, <- bpow_add by lia. by replace (Z.pos d + ez) with e by lia. }
    cbn [val] in *. rewrite <- (Hal mx ex), <- (Hal my ey), <- Rmult_plus_distr_r, <- plus_IZR in * by lia.
    destruct (Z.pos _ + Z.pos _) as [|p|p] eqn:Ep; [lia| |lia]. apply binary_round_approx.
Qed.

Lemma new_location_exact n k : 0 <= k -> exact_loc (new_location n k) = (k =? 0).
Proof.
  intros Hk. unfold new_location, new_location_even, new_location_odd. destruct (Z.even n); by destruct (k =? 0).
Qed.

Lemma div_approx x y :
  nnf x -> nnf y -> (0 < val y)%R -> approx_inf (val x / val y) (F32.div x y).
Proof.
  intros Hx Hy Hpos. unfold F32.div.
  destruct x as [sx| | |[] mx ex]; try done; destruct y as [sy| | |[] my ey]; try done; cbn [SFdiv val xorb] in *; try lra.
  { right. unfold Rdiv. rewrite Rmult_0_l. apply approx_zero. }
  unfold SFdiv_core_binary. rewrite fexp_eq. cbn [Zdigits2].
  set (dx := Z.pos (digits2_pos mx)). set (dy := Z.pos (digits2_pos my)).
  set (D := dx + ex - (dy + ey)). set (e' := Z.min (fexp_ D) (ex - ey)). set (s := ex - ey - e').
  assert (0 <= s) as Hs by lia.
  assert (match s with Z0 => Z.pos mx | Z.pos _ => Z.shiftl (Z.pos mx) s | Z.neg _ => 0 end = Z.pos mx * 2 ^ s) as ->.
  { destruct s as [|q|q]; [cbn; lia|by rewrite Z.shiftl_mul_pow2 by lia|lia]. }
  pose proof (Z.div_eucl_eq (Z.pos mx * 2 ^ s) (Z.pos my) ltac:(lia)) as Heq.
  pose proof (Z.mod_pos_bound (Z.pos mx * 2 ^ s) (Z.pos my) ltac:(lia)) as Hr. unfold Z.modulo in Hr.
  destruct (Z.div_eucl (Z.pos mx * 2 ^ s) (Z.pos my)) as [q r].
  assert (0 < 2 ^ s) as Hps by (apply Z.pow_pos_nonneg; lia).
  assert (0 <= q) as Hq by nia.
  assert (IZR (Z.pos mx) * bpow ex / (IZR (Z.pos my) * bpow ey) = (IZR q + IZR r / IZR (Z.pos my)) * bpow e')%R as Hv.
  { pose proof (bpow_pos ey). assert (0 < IZR (Z.pos my))%R by (apply IZR_lt; lia).
    apply (f_equal IZR) in Heq. rewrite plus_IZR, !mult_IZR, <- bpow_Z in Heq by lia.
    assert (bpow ex = bpow s * bpow ey * bpow e')%R as -> by (rewrite <- !bpow_add; f_equal; lia).
    replace (IZR (Z.pos mx) * (bpow s * bpow ey * bpow e'))%R with ((IZR (Z.pos mx) * bpow s) * bpow ey * bpow e')%R by ring.
    rewrite Heq. field. lra. }
  rewrite Hv. apply round_aux_approx; [done| |].
  - destruct (Z.le_gt_cases e' (-149)) as [Hle|Hgt]; [unfold fexp_, emin_; lia|].
    set (k := D - e' - 1). assert (23 <= k) as Hk by (unfold k, e', fexp_, emin_ in *; lia).
    assert (2 ^ k <= q) as Hqk.
    { pose proof (digits2_spec mx) as [Hbx _]. pose proof (digits2_spec my) as [_ Hby]. fold dx in Hbx. fold dy in Hby.
      assert (Z.pos my * 2 ^ k <= Z.pos mx * 2 ^ s); [|nia].
      transitivity (2 ^ dy * 2 ^ k); [nia|]. transitivity (2 ^ (dx - 1) * 2 ^ s); [|nia].
      rewrite <- !Z.pow_add_r by lia. apply Z.pow_le_mono_r; lia. }
    assert (k + 1 <= Zdigits2 q); [|unfold fexp_, emin_, k in *; lia].
    apply Z.nlt_ge. intros Hlt. pose proof (digits2_bounds q ltac:(lia)) as [_ Hb].
    assert (2 ^ Zdigits2 q <= 2 ^ k) by (apply Z.pow_le_mono_r; lia). lia.
  - rewrite new_location_exact by lia. pose proof (bpow_pos e'). assert (0 < IZR (Z.pos my))%R as Hmy by (apply IZR_lt; lia).
    destruct (Z.eqb_spec r 0) as [->|Hne]; cbn [between].
    + unfold Rdiv. rewrite Rmult_0_l. lra.
    + assert (0 < IZR r / IZR (Z.pos my) < 1)%R; [|nra].
      assert (0 < IZR r < IZR (Z.pos my))%R by (split; apply IZR_lt; lia).
      split; [apply Rdiv_lt_0_compat; lra|]. apply (Rmult_lt_reg_r (IZR (Z.pos my))); [lra|].
      unfold Rdiv. rewrite Rmult_assoc, Rinv_l by lra. lra.
Qed.

(** *** Comparisons *)

Lemma compare_val x y :
  nnf x -> nnf y ->
  match SFcompare x y with
  | Some Lt => (val x < val y)%R
  | Some Eq => val x = val y
  | Some Gt => (val y < val x)%R
  | None => False
  end.
Proof.
  intros Hx Hy.
  assert (forall m e, 0 < IZR (Z.pos m) * bpow e)%R as Hpos.
  { intros m e. pose proof (bpow_pos e). assert (0 < IZR (Z.pos m))%R by (apply IZR_lt; lia). nra. }
  assert (forall m1 e1 m2 e2, nnf (S754_finite false m1 e1) -> nnf (S754_finite false m2 e2) -> e1 < e2 ->
    (IZR (Z.pos m1) * bpow e1 < IZR (Z.pos m2) * bpow e2)%R) as Hlex.
  { intros m1 e1 m2 e2 (H1 & H2 & _) (_ & _ & H3) Hlt. assert (2 ^ 23 <= Z.pos m2) as H4 by lia.
    assert (bpow (e1 + 1) <= bpow e2)%R as Hb by (apply bpow_le; lia).
    rewrite bpow_add, (bpow_Z 1) in Hb by lia. change (IZR (2 ^ 1)) with 2%R in Hb.
    apply IZR_lt in H1. apply IZR_le in H4. change (IZR (2 ^ 24)) with 16777216%R in H1. change (IZR (2 ^ 23)) with 8388608%R in H4.
    pose proof (bpow_pos e1). pose proof (bpow_pos e2). nra. }
  destruct x as [sx| | |[] mx ex]; try done; destruct y as [sy| | |[] my ey]; try done; cbn [SFcompare val]; auto.
  destruct (Z.compare_spec ex ey) as [->|Hlt|Hlt]; [|by apply Hlex|by apply Hlex].
  change (Pos.compare_cont Eq mx my) with (mx ?= my)%positive. pose proof (bpow_pos ey).
  destruct (Pos.compare_spec mx my) as [->|H1|H1]; [done| |].
  - assert (IZR (Z.pos mx) < IZR (Z.pos my))%R by (apply IZR_lt; lia). nra.
  - assert (IZR (Z.pos my) < IZR (Z.pos mx))%R by (apply IZR_lt; lia). nra.
Qed.

Lemma lt_val x y : nnf x -> nnf y -> F32.lt x y = true <-> (val x < val y)%R.
Proof.
  intros Hx Hy. pose proof (compare_val x y Hx Hy) as H. unfold F32.lt, SFltb.
  destruct (SFcompare x y) as [[]|]; try done; split; try done; lra.
Qed.

Lemma le_val x y : nnf x -> nnf y -> F32.le x y = true <-> (val x <= val y)%R.
Proof.
  intros Hx Hy. pose proof (compare_val x y Hx Hy) as H. unfold F32.le, SFleb.
  destruct (SFcompare x y) as [[]|]; try done; split; try done; lra.
Qed.

Lemma nnf_not_nan x : nnf x -> F32.is_nan x = false.
Proof. by destruct x. Qed.

Lemma max_val x y : nnf x -> nnf y -> nnf (F32.max x y) /\ val (F32.max x y) = Rmax (val x) (val y).
Proof.
  intros Hx Hy. unfold F32.max. rewrite !nnf_not_nan by done. pose proof (lt_val x y Hx Hy) as H.
  destruct (F32.lt x y).
  - split; [done|]. rewrite Rmax_right; [done|]. apply Rlt_le, H. done.
  - split; [done|]. rewrite Rmax_left; [done|]. apply Rnot_lt_le. intros Hlt. by apply H in Hlt.
Qed.

Lemma min_val x y : nnf x -> nnf y -> nnf (F32.min x y) /\ val (F32.min x y) = Rmin (val x) (val y).
Proof.
  intros Hx Hy. unfold F32.min. rewrite !nnf_not_nan by done. pose proof (lt_val y x Hy Hx) as H.
  destruct (F32.lt y x).
  - split; [done|]. rewrite Rmin_right; [done|]. apply Rlt_le, H. done.
  - split; [done|]. rewrite Rmin_left; [done|]. apply Rnot_lt_le. intros Hlt. by apply H in Hlt.
Qed.

(** *** Conversions *)

(** [x as usize] rounds towards zero. *)
Lemma trunc_val x : nnf x -> 0 <= F32.trunc x /\ (IZR (F32.trunc x) <= val x < IZR (F32.trunc x + 1))%R.
Proof.
  destruct x as [| | |[] m e]; try done; cbn [nnf val F32.trunc]; [intros _; split; [lia|change (0 + 1) with 1; lra]|]. intros _.
  destruct (Z.leb_spec 0 e) as [He|He].
  - split; [lia|]. rewrite plus_IZR, mult_IZR, bpow_Z by done. lra.
  - assert (0 < 2 ^ (- e)) as Hp by (apply Z.pow_pos_nonneg; lia). split; [by apply Z.div_pos|].
    pose proof (Z.div_mod (Z.pos m) (2 ^ (- e)) ltac:(lia)) as Hd.
    pose proof (Z.mod_pos_bound (Z.pos m) (2 ^ (- e)) Hp) as Hr.
    set (q := Z.pos m / 2 ^ (- e)) in *. pose proof (bpow_pos e) as Hpe.
    assert (bpow e * IZR (2 ^ (- e)) = 1)%R as Hinv.
    { rewrite <- bpow_Z, <- bpow_add by lia. by replace (e + - e) with 0 by lia. }
    assert (IZR (q * 2 ^ (- e)) <= IZR (Z.pos m) < IZR ((q + 1) * 2 ^ (- e)))%R as [H1 H2].
    { split; [apply IZR_le|apply IZR_lt]; lia. }
    rewrite mult_IZR in H1, H2.
    assert (forall z, IZR z * IZR (2 ^ (- e)) * bpow e = IZR z)%R as Hz.
    { intros z. rewrite Rmult_assoc, (Rmult_comm _ (bpow e)), Hinv. ring. }
    rewrite <- (Hz q), <- (Hz (q + 1)). split; [apply Rmult_le_compat_r; lra|apply Rmult_lt_compat_r; lra].
Qed.

Lemma to_usize_ge x k : nnf x -> 0 <= k <= usize_max -> (IZR k <= val x)%R -> k <= F32.to_usize x.
Proof.
  intros Hx Hk Hv. destruct (trunc_val x Hx) as [H0 [_ H2]].
  assert (k < F32.trunc x + 1) by (apply lt_IZR; lra).
  assert (F32.to_usize x = Z.max 0 (Z.min usize_max (F32.trunc x))) as -> by (by destruct x as [| | |[] ? ?]). lia.
Qed.

Lemma round_half_even_le a b n : 0 < b -> 0 <= a -> a <= n * b -> 0 <= round_half_even a b <= n.
Proof.
  intros Hb Ha H. unfold round_half_even.
  pose proof (Z.div_mod a b ltac:(lia)). pose proof (Z.mod_pos_bound a b Hb). pose proof (Z.div_pos a b Ha Hb).
  assert (a / b <= n) by (apply Z.div_le_upper_bound; lia).
  assert (a mod b <> 0 -> a / b + 1 <= n) by nia.
  destruct (Z.ltb_spec (2 * (a mod b)) b); [lia|]. destruct (Z.ltb_spec b (2 * (a mod b))); [lia|].
  destruct (Z.even (a / b)); lia.
Qed.

(** Durations from seconds: never a panic below [2^63] seconds, and at most the
    bound on the argument. *)
Lemma from_secs_f32_ok x n :
  nnf x -> 0 <= n <= 2 ^ 63 * NANOS_PER_SEC -> (val x * IZR NANOS_PER_SEC <= IZR n)%R ->
  exists d, from_secs_f32 x = Some d /\ 0 <= d <= n.
Proof.
  intros Hx Hn Hv. unfold from_secs_f32. destruct x as [| | |[] m e]; try done; [exists 0; split; [done|lia]|].
  cbn [val] in Hv. set (d := if 0 <=? e then _ else _). assert (0 <= d <= n) as Hd.
  { unfold d. destruct (Z.leb_spec 0 e) as [He|He].
    - rewrite bpow_Z, <- !mult_IZR in Hv by done. apply le_IZR in Hv. unfold NANOS_PER_SEC in *. lia.
    - apply round_half_even_le; [apply Z.pow_pos_nonneg; lia|unfold NANOS_PER_SEC; lia|]. apply le_IZR.
      assert (bpow e * IZR (2 ^ (- e)) = 1)%R as Hinv.
      { rewrite <- bpow_Z, <- bpow_add by lia. by replace (e + - e) with 0 by lia. }
      assert (0 < IZR (2 ^ (- e)))%R by (apply IZR_lt, Z.pow_pos_nonneg; lia).
      rewrite !mult_IZR. apply (Rmult_le_compat_r (IZR (2 ^ (- e)))) in Hv; [|lra].
      replace (IZR (Z.pos m) * bpow e * IZR NANOS_PER_SEC * IZR (2 ^ (- e)))%R with
        (IZR (Z.pos m) * IZR NANOS_PER_SEC * (bpow e * IZR (2 ^ (- e))))%R in Hv by ring.
      rewrite Hinv in Hv. lra. }
  exists d. split; [|done]. rewrite (proj2 (Z.leb_le _ _)); [done|].
  transitivity (2 ^ 63); [|unfold u64_max; lia]. apply Z.div_le_upper_bound; [done|unfold NANOS_PER_SEC in *; lia].
Qed.

(** The value of an integer that fits the mantissa. *)
Lemma of_Z_nnf z : 0 <= z < 2 ^ 104 -> nnf (F32.of_Z z).
Proof. intros Hz. apply (of_Z_approx z Hz). Qed.

Lemma approx_le v x r : approx v x -> nnf r -> (v <= val r)%R -> (val x <= val r)%R.
Proof. intros (_ & H & _). apply H. Qed.

Lemma approx_ge v x r : approx v x -> nnf r -> (val r <= v)%R -> (val r <= val x)%R.
Proof. intros (_ & _ & H). apply H. Qed.

Lemma approx_eq v x r : approx v x -> nnf r -> v = val r -> val x = val r.
Proof. intros Ha Hr ->. apply Rle_antisym; [by eapply approx_le; [done| |lra]|by eapply approx_ge; [done| |lra]]. Qed.

(** Small integers are exact. *)
Lemma exact_int z : 0 <= z < 2 ^ 24 -> exists r, nnf r /\ val r = IZR z.
Proof.
  intros Hz. destruct (Z.eq_dec z 0) as [->|Hne]; [by exists (S754_zero false)|].
  pose proof (digits2_bounds z ltac:(lia)) as [H1 H2]. pose proof (digits2_le z 24 ltac:(lia) ltac:(lia) ltac:(lia)).
  assert (0 < Zdigits2 z) by (destruct z; cbn; lia). set (k := 24 - Zdigits2 z).
  exists (S754_finite false (Z.to_pos (z * 2 ^ k)) (- k)).
  assert (0 < z * 2 ^ k) as Hpos by (pose proof (Z.pow_pos_nonneg 2 k); nia).
  cbn [nnf val]. rewrite Z2Pos.id by done. split.
  - assert (2 ^ (Zdigits2 z - 1) * 2 ^ k <= z * 2 ^ k < 2 ^ Zdigits2 z * 2 ^ k) as [H3 H4] by (pose proof (Z.pow_pos_nonneg 2 k); nia).
    rewrite <- !Z.pow_add_r in H3, H4 by lia. replace (Zdigits2 z - 1 + k) with 23 in H3 by lia.
    replace (Zdigits2 z + k) with 24 in H4 by lia. lia.
  - rewrite mult_IZR, <- bpow_Z, Rmult_assoc, <- bpow_add by lia. replace (k + - k) with 0 by lia. cbn. unfold bpow. cbn. lra.
Qed.

Lemma of_Z_val z : 0 <= z < 2 ^ 24 -> val (F32.of_Z z) = IZR z.
Proof.
  intros Hz. destruct (exact_int z Hz) as (r & Hr & Hv). rewrite <- Hv.
  by apply (approx_eq (IZR z)); [apply of_Z_approx; lia| |].
Qed.

(** [as_secs_f32] of a duration of at most [k] seconds. *)
Lemma as_secs_f32_bound d k :
  0 <= d <= k * NANOS_PER_SEC -> k < 2 ^ 24 -> nnf (as_secs_f32 d) /\ (val (as_secs_f32 d) <= IZR k)%R.
Proof.
  intros Hd Hk. unfold as_secs_f32. set (s := d / NANOS_PER_SEC). set (n := d mod NANOS_PER_SEC).
  assert (0 <= n < NANOS_PER_SEC) as Hn by (apply Z.mod_pos_bound; done).
  assert (d = NANOS_PER_SEC * s + n) as Hdiv by (apply Z.div_mod; done).
  unfold NANOS_PER_SEC in *. assert (0 <= s <= k) as Hs by lia.
  pose proof (of_Z_approx n ltac:(lia)) as An. pose proof (of_Z_nnf n ltac:(lia)) as Nn.
  pose proof (of_Z_nnf 1000000000 ltac:(lia)) as Nb. pose proof (of_Z_approx 1000000000 ltac:(lia)) as Ab.
  pose proof (approx_le _ _ _ An Nb) as Hle.
  assert (val (F32.of_Z 1000000000) = 1000000000)%R as Vb.
  { assert (F32.of_Z 1000000000 = S754_finite false 15625000 6) as -> by reflexivity.
    cbn [val]. rewrite bpow_Z, <- mult_IZR by lia. done. }
  assert (val (F32.of_Z n) <= 1000000000)%R as Hn1.
  { rewrite <- Vb. apply Hle. rewrite Vb. apply IZR_le. lia. }
  pose proof (val_nonneg _ Nn) as Hn0. destruct (exact_int 1 ltac:(lia)) as (one & None1 & Vone).
  assert (approx (val (F32.of_Z n) / val (F32.of_Z 1000000000)) (F32.div (F32.of_Z n) (F32.of_Z 1000000000))) as Aq.
  { apply approx_inf_bounded; [apply div_approx; [done|done|lra]|]. rewrite Vb.
    assert (1 <= bpow 104)%R by (rewrite bpow_Z by lia; apply IZR_le; lia).
    apply (Rmult_le_reg_r 1000000000); [lra|]. unfold Rdiv. rewrite Rmult_assoc, Rinv_l by lra. nra. }
  pose proof (proj1 Aq) as Nq.
  assert (val (F32.div (F32.of_Z n) (F32.of_Z 1000000000)) <= 1)%R as Hq1.
  { rewrite <- Vone. eapply approx_le; [done|done|]. rewrite Vb, Vone.
    apply (Rmult_le_reg_r 1000000000); [lra|]. unfold Rdiv. rewrite Rmult_assoc, Rinv_l by lra. lra. }
  pose proof (of_Z_nnf s ltac:(lia)) as Ns. pose proof (of_Z_val s ltac:(lia)) as Vs.
  assert (IZR s + val (F32.div (F32.of_Z n) (F32.of_Z 1000000000)) <= IZR k)%R as Hsum.
  { destruct (Z.eq_dec s k) as [->|Hne].
    - assert (n = 0) as -> by lia. assert (val (F32.div (F32.of_Z 0) (F32.of_Z 1000000000)) = 0)%R as -> by reflexivity. lra.
    - assert (IZR (s + 1) <= IZR k)%R by (apply IZR_le; lia). rewrite plus_IZR in *. lra. }
  destruct (exact_int k ltac:(lia)) as (kk & Nk & Vk).
  assert (approx (val (F32.of_Z s) + val (F32.div (F32.of_Z n) (F32.of_Z 1000000000)))
    (F32.add (F32.of_Z s) (F32.div (F32.of_Z n) (F32.of_Z 1000000000)))) as Aadd.
  { apply approx_inf_bounded; [by apply add_approx|]. rewrite Vs.
    assert (IZR k <= bpow 104)%R by (rewrite bpow_Z by lia; apply IZR_le; lia). lra. }
  split; [apply Aadd|]. rewrite <- Vk. eapply approx_le; [done|done|]. by rewrite Vs, Vk.
Qed.

(** [Duration::mul_f32] by a factor [p/q] below one. *)
Lemma mul_f32_ok d f k n :
  0 <= d <= k * NANOS_PER_SEC -> 0 <= k < 2 ^ 24 -> nnf f -> (val f <= 2)%R ->
  (exists r, nnf r /\ val r = val f * IZR k)%R -> 0 <= n <= 2 ^ 63 * NANOS_PER_SEC ->
  (val f * IZR k * IZR NANOS_PER_SEC <= IZR n)%R ->
  exists d', mul_f32 d f = Some d' /\ 0 <= d' <= n.
Proof.
  intros Hd Hk Nf Hf (r & Nr & Vr) Hn Hle. unfold mul_f32.
  destruct (as_secs_f32_bound d k Hd ltac:(lia)) as [Na Ha]. pose proof (val_nonneg _ Na). pose proof (val_nonneg _ Nf).
  assert (0 <= IZR k)%R by (apply IZR_le; lia).
  assert (approx (val f * val (as_secs_f32 d)) (F32.mul f (as_secs_f32 d))) as Am.
  { apply approx_inf_bounded; [by apply mul_approx|].
    assert (IZR k <= 16777216)%R by (apply (IZR_le k 16777216); lia).
    assert (33554432 <= bpow 104)%R by (rewrite bpow_Z by lia; apply IZR_le; lia). nra. }
  apply from_secs_f32_ok; [apply Am|done|].
  assert (val (F32.mul f (as_secs_f32 d)) <= val r)%R as Hmul.
  { eapply approx_le; [done|done|]. rewrite Vr. nra. }
  rewrite Vr in Hmul. assert (0 < IZR NANOS_PER_SEC)%R by (apply IZR_lt; done). nra.
Qed.

(** *** Canonical representations *)

(** Numbers of either sign in canonical form, zeros, infinities and NaN: what
    every operation returns. *)
Definition valid (x : f32) : Prop :=
  match x with S754_finite _ m e => nnf (S754_finite false m e) | _ => True end.

Definition with_sign (s : bool) (x : f32) : f32 :=
  match x with
  | S754_zero _ => S754_zero s
  | S754_infinity _ => S754_infinity s
  | S754_nan => S754_nan
  | S754_finite _ m e => S754_finite s m e
  end.

Lemma valid_with_sign s x : valid (with_sign s x) <-> valid x.
Proof. by destruct x. Qed.

Lemma valid_nnf x : nnf x -> valid x.
Proof. by destruct x as [| | |[] m e]. Qed.

Lemma valid_approx_inf v x : approx_inf v x -> valid x.
Proof. intros [[-> _]|H]; [done|]. apply valid_nnf, H. Qed.

Lemma round_aux_sign s m e l :
  binary_round_aux prec emax s m e l = with_sign s (binary_round_aux prec emax false m e l).
Proof.
  unfold binary_round_aux. destruct (shr_fexp prec emax m e l) as [mrs e1].
  destruct (shr_fexp prec emax _ e1 loc_Exact) as [mrs2 e2]. destruct (shr_m mrs2); try done. by destruct (e2 <=? _).
Qed.

Lemma binary_round_sign s p e : binary_round prec emax s p e = with_sign s (binary_round prec emax false p e).
Proof. unfold binary_round. destruct (shl_align _ _ _). apply round_aux_sign. Qed.

Lemma valid_normalize m e s : valid (binary_normalize prec emax m e s).
Proof.
  destruct m as [|p|p]; cbn [binary_normalize]; [done| |].
  - eapply valid_approx_inf, binary_round_approx.
  - rewrite binary_round_sign, valid_with_sign. eapply valid_approx_inf, binary_round_approx.
Qed.

Lemma valid_of_Z z : valid (F32.of_Z z).
Proof. apply valid_normalize. Qed.

Lemma valid_add x y : valid x -> valid y -> valid (F32.add x y).
Proof.
  intros Hx Hy. unfold F32.add. destruct x as [[]|[]| |[] mx ex], y as [[]|[]| |[] my ey]; cbn [SFadd]; try done;
    apply valid_normalize.
Qed.

Lemma valid_sub x y : valid x -> valid y -> valid (F32.sub x y).
Proof.
  intros Hx Hy. unfold F32.sub. destruct x as [[]|[]| |[] mx ex], y as [[]|[]| |[] my ey]; cbn [SFsub]; try done;
    apply valid_normalize.
Qed.

Lemma valid_mul x y : valid x -> valid y -> valid (F32.mul x y).
Proof.
  intros Hx Hy. unfold F32.mul. destruct x as [|sx| |sx mx ex], y as [|sy| |sy my ey]; cbn [SFmul]; try done.
  rewrite round_aux_sign, valid_with_sign.
  pose proof (mul_approx (S754_finite false mx ex) (S754_finite false my ey) Hx Hy) as H. by apply valid_approx_inf in H.
Qed.

Lemma valid_div x y : valid x -> valid y -> valid (F32.div x y).
Proof.
  intros Hx Hy. unfold F32.div. destruct x as [|sx| |sx mx ex], y as [|sy| |sy my ey]; cbn [SFdiv]; try done.
  assert (0 < val (S754_finite false my ey))%R as Hpos.
  { cbn [val]. pose proof (bpow_pos ey). assert (0 < IZR (Z.pos my))%R by (apply IZR_lt; lia). nra. }
  pose proof (div_approx (S754_finite false mx ex) (S754_finite false my ey) Hx Hy Hpos) as H.
  apply valid_approx_inf in H. unfold F32.div in H. cbn [SFdiv] in H.
  destruct (SFdiv_core_binary _ _ _ _ _ _) as [[mz ez] lz]. rewrite round_aux_sign, valid_with_sign. done.
Qed.

Lemma valid_max x y : valid x -> valid y -> valid (F32.max x y).
Proof. intros Hx Hy. unfold F32.max. by destruct (F32.is_nan x), (F32.is_nan y), (F32.lt x y). Qed.

Lemma valid_min x y : valid x -> valid y -> valid (F32.min x y).
Proof. intros Hx Hy. unfold F32.min. by destruct (F32.is_nan x), (F32.is_nan y), (F32.lt y x). Qed.

Lemma valid_clamp x lo hi : valid x -> valid lo -> valid hi -> valid (F32.clamp x lo hi).
Proof. intros Hx Hl Hh. unfold F32.clamp. by destruct (F32.lt x lo), (F32.lt hi x). Qed.

Lemma valid_as_secs d : valid (as_secs_f32 d).
Proof. apply valid_add; [apply valid_of_Z|]. apply valid_div; apply valid_of_Z. Qed.

(** At least [lo], possibly infinite. *)
Definition above (lo x : f32) : Prop := x = S754_infinity false \/ (nnf x /\ (val lo <= val x)%R).

Lemma above_refl lo : nnf lo -> above lo lo.
Proof. intros H. right. split; [done|lra]. Qed.

Lemma above_trans a b x : (val a <= val b)%R -> above b x -> above a x.
Proof. intros H [->|[Hx Hv]]; [by left|right]. split; [done|lra]. Qed.

Lemma above_valid lo x : above lo x -> valid x.
Proof. intros [->|[H _]]; [done|by apply valid_nnf]. Qed.

(** [max] enforces a floor whatever the other argument, a NaN included. *)
Lemma max_above x lo : valid x -> nnf lo -> above lo (F32.max x lo).
Proof.
  intros Hx Hlo. destruct x as [sx|sx| |sx mx ex].
  - destruct (max_val (S754_zero sx) lo I Hlo) as [H1 H2]. right. split; [done|]. rewrite H2. apply Rmax_r.
  - destruct sx.
    + right. assert (F32.max (S754_infinity true) lo = lo) as ->; [|split; [done|lra]].
      unfold F32.max. rewrite (nnf_not_nan lo) by done. by destruct lo as [| | |[] ? ?].
    + left. unfold F32.max. rewrite (nnf_not_nan lo) by done. by destruct lo as [| | |[] ? ?].
  - right. split; [done|]. cbn. lra.
  - destruct sx.
    + right. assert (F32.max (S754_finite true mx ex) lo = lo) as ->; [|split; [done|lra]].
      unfold F32.max. rewrite (nnf_not_nan lo) by done. by destruct lo as [| | |[] ? ?].
    + destruct (max_val (S754_finite false mx ex) lo Hx Hlo) as [H1 H2]. right. split; [done|]. rewrite H2. apply Rmax_r.
Qed.

Lemma above_to_usize lo x k : above lo x -> 0 <= k <= usize_max -> (IZR k <= val lo)%R -> k <= F32.to_usize x.
Proof. intros [->|[Hx Hv]] Hk Hlo; [cbn; lia|]. apply to_usize_ge; [done|done|lra]. Qed.

Lemma to_usize_range x : 0 <= F32.to_usize x <= usize_max.
Proof.
  assert (0 <= usize_max) by (unfold usize_max; lia). destruct x as [|[]| |]; cbn [F32.to_usize]; lia.
Qed.

(** Adding a non-negative number or an infinity keeps a lower bound. *)
Lemma add_above lo x y : nnf lo -> above lo x -> above (S754_zero false) y -> above lo (F32.add x y).
Proof.
  intros Hlo [->|[Hx Hv]] [->|[Hy Hw]].
  - by left.
  - left. by destruct y as [| | |[] ? ?].
  - left. by destruct x as [| | |[] ? ?].
  - destruct (add_approx x y Hx Hy) as [[H _]|H]; [by left|right]. split; [apply H|].
    eapply approx_ge; [done|done|]. cbn in Hw. lra.
Qed.

(** Quotients of non-negative numbers by positive ones. *)
Lemma div_above x y lo : nnf lo -> (0 < val lo)%R -> above (S754_zero false) x -> above lo y -> x <> S754_infinity false \/ y <> S754_infinity false ->
  above (S754_zero false) (F32.div x y).
Proof.
  intros Hlo Hpos [->|[Hx Hv]] [->|[Hy Hw]] Hne.
  - destruct Hne; done.
  - destruct y as [| | |[] ? ?]; try done; [cbn in Hw; lra|]. by left.
  - right. unfold F32.div. by destruct x as [| | |[] ? ?]; (split; [|cbn; lra]).
  - destruct (div_approx x y Hx Hy ltac:(lra)) as [[H _]|H]; [by left|right]. split; [apply H|]. cbn. apply val_nonneg, H.
Qed.

End F32T.
