(* ===== verification/Rtt.v ===== *)
(** The round-trip-time estimator ([tox-sequenced/src/rtt.rs]), RFC 6298 with
    single-precision factors. *)

From S2P Require Import Prelude Protocol Float32 F32Theory.
From Stdlib Require Import SpecFloat Reals Lra.
#[local] Open Scope Z_scope.

Definition INITIAL_SRTT : Duration := from_millis 200.
Definition INITIAL_RTTVAR : Duration := from_millis 100.
Definition INITIAL_RTO : Duration := from_millis 1000.
Definition MIN_RTO : Duration := from_millis 200.
Definition MAX_RTO : Duration := from_millis 5000.
Definition RTT_ALPHA : f32 := F32.lit 1 8.
Definition RTT_BETA : f32 := F32.lit 1 4.
Definition RTT_K : Z := 4.
Definition MAX_BACKOFF_EXPONENT : Z := 6.

(** [Duration] arithmetic panics beyond [u64] seconds. *)
Definition chk_duration (d : Z) : option Duration := chk 0 (2 ^ 64 * NANOS_PER_SEC - 1) d.

Module RttEstimator.

Record t := mk { srtt : Duration; rttvar : Duration; rto : Duration }.
#[global] Instance eta_t : Settable t := fun r => mk (srtt r) (rttvar r) (rto r).

Definition new : t := mk INITIAL_SRTT INITIAL_RTTVAR INITIAL_RTO.

Definition update (r : t) (sample : Duration) : option t :=
  let alpha := RTT_ALPHA in
  let beta := RTT_BETA in
  let diff := Z.abs (sample - srtt r) in
  a ← mul_f32 (rttvar r) (F32.sub (F32.of_Z 1) beta);
  b ← mul_f32 diff beta;
  rttvar' ← chk_duration (a + b);
  let r := r <| rttvar := rttvar' |> in
  a ← mul_f32 (srtt r) (F32.sub (F32.of_Z 1) alpha);
  b ← mul_f32 sample alpha;
  srtt' ← chk_duration (a + b);
  let r := r <| srtt := srtt' |> in
  var_part ← chk_duration (rttvar r * RTT_K);
  sum ← chk_duration (srtt r + var_part);
  Some (r <| rto := Z.max MIN_RTO (Z.min MAX_RTO sum) |>).

(** [rto * (1 << retries.min(MAX_BACKOFF_EXPONENT))] *)
Definition rto_with_backoff (r : t) (retries : Z) : option Duration :=
  chk_duration (rto r * Z.shiftl 1 (Z.min retries MAX_BACKOFF_EXPONENT)).

(** *** Invariant *)

(** The longest sample considered: 2^22 seconds, about 48 days. *)
Definition HORIZON : Duration := 2 ^ 22 * NANOS_PER_SEC.

Record wf (r : t) : Prop := {
  wf_srtt : 0 <= srtt r <= HORIZON;
  wf_rttvar : 0 <= rttvar r <= HORIZON;
  wf_rto : MIN_RTO <= rto r <= MAX_RTO
}.

Lemma new_estimator_wf : wf new.
Proof. constructor; vm_compute; split; discriminate. Qed.

(** A weight of [p] eighths applied to a duration within the horizon. *)
Lemma weighted d m e p :
  0 <= d <= HORIZON -> 0 <= p <= 16 -> 2 ^ 23 <= Z.pos m < 2 ^ 24 -> -149 <= e <= -22 -> Z.pos m * 8 = p * 2 ^ (- e) ->
  exists d', mul_f32 d (S754_finite false m e) = Some d' /\ 0 <= d' <= p * (HORIZON / 8).
Proof.
  intros Hd Hp Hm He Hpe.
  assert (F32T.val (S754_finite false m e) = IZR p / 8)%R as Hv.
  { cbn [F32T.val]. apply (f_equal IZR) in Hpe. rewrite !mult_IZR in Hpe.
    assert (F32T.bpow e * IZR (2 ^ (- e)) = 1)%R as Hinv.
    { rewrite <- F32T.bpow_Z, <- F32T.bpow_add by lia. by replace (e + - e) with 0 by lia. }
    apply (Rmult_eq_reg_r 8); [|lra]. replace (IZR p / 8 * 8)%R with (IZR p * (F32T.bpow e * IZR (2 ^ (- e))))%R by (rewrite Hinv; field).
    transitivity (IZR (Z.pos m) * 8 * F32T.bpow e)%R; [ring|]. rewrite Hpe. ring. }
  assert (IZR p <= 16)%R by (apply IZR_le; lia). assert (0 <= IZR p)%R by (apply IZR_le; lia).
  apply (F32T.mul_f32_ok d _ (2 ^ 22)); [done|lia|cbn; lia|lra| | |].
  - exists (S754_finite false m (e + 22)). split; [cbn; lia|]. cbn [F32T.val].
    rewrite F32T.bpow_add, (F32T.bpow_Z 22) by lia. ring.
  - assert (HORIZON / 8 = 524288000000000) as -> by done. unfold NANOS_PER_SEC. lia.
  - rewrite Hv, mult_IZR. assert (HORIZON / 8 = 524288000000000) as -> by done. unfold NANOS_PER_SEC.
    change (2 ^ 22) with 4194304. lra.
Qed.

Lemma chk_duration_ok z : 0 <= z <= 2 ^ 60 -> chk_duration z = Some z.
Proof. intros Hz. apply chk_ok. unfold NANOS_PER_SEC. lia. Qed.

Lemma rtt_update_spec r sample : wf r -> 0 <= sample <= HORIZON -> exists r', update r sample = Some r' /\ wf r'.
Proof.
  intros [Hs Hv Hr] Hsam. unfold update.
  destruct (weighted (rttvar r) 12582912 (-24) 6) as (d1 & E1 & Hd1); [done|lia|lia|lia|done|].
  destruct (weighted (Z.abs (sample - srtt r)) 8388608 (-25) 2) as (d2 & E2 & Hd2); [lia|lia|lia|lia|done|].
  destruct (weighted (srtt r) 14680064 (-24) 7) as (d3 & E3 & Hd3); [done|lia|lia|lia|done|].
  destruct (weighted sample 8388608 (-26) 1) as (d4 & E4 & Hd4); [done|lia|lia|lia|done|].
  change (F32.sub (F32.of_Z 1) RTT_BETA) with (S754_finite false 12582912 (-24)).
  change RTT_BETA with (S754_finite false 8388608 (-25)).
  change (F32.sub (F32.of_Z 1) RTT_ALPHA) with (S754_finite false 14680064 (-24)).
  change RTT_ALPHA with (S754_finite false 8388608 (-26)).
  assert (HORIZON / 8 * 8 = HORIZON) as H8 by reflexivity. assert (HORIZON <= 2 ^ 53) as HH by (unfold HORIZON, NANOS_PER_SEC; lia).
  rewrite E1. run. rewrite E2. run. rewrite chk_duration_ok by lia. run. cbn [srtt set_field].
  rewrite E3. run. rewrite E4. run. rewrite chk_duration_ok by lia. run. cbn [srtt rttvar set_field]. unfold RTT_K.
  rewrite chk_duration_ok by lia. run. rewrite chk_duration_ok by lia. run.
  eexists. split; [reflexivity|]. clear E1 E2 E3 E4. constructor; cbn; unfold MIN_RTO, MAX_RTO, from_millis; lia.
Qed.

(** [x * (1 << min(retries, 6))] for a timeout within its bounds. *)
Lemma backoff_scaled x k :
  MIN_RTO <= x <= MAX_RTO -> 0 <= k <= 6 ->
  chk_duration (x * Z.shiftl 1 k) = Some (x * Z.shiftl 1 k) /\ x <= x * Z.shiftl 1 k <= from_secs 320.
Proof.
  intros Hx Hk. assert (1 <= Z.shiftl 1 k <= 64) as Hsh.
  { rewrite Z.shiftl_mul_pow2, Z.mul_1_l by lia. split; [apply (Z.pow_le_mono_r 2 0 k)|apply (Z.pow_le_mono_r 2 k 6)]; lia. }
  unfold MIN_RTO, MAX_RTO, from_millis, from_secs in *.
  assert (x <= x * Z.shiftl 1 k <= 5000 * 1000000 * 64) by nia. split; [apply chk_duration_ok|]; lia.
Qed.

Lemma backoff_spec r retries :
  wf r -> 0 <= retries -> exists d, rto_with_backoff r retries = Some d /\ rto r <= d <= from_secs 320.
Proof.
  intros [_ _ Hr] Hret. unfold rto_with_backoff, MAX_BACKOFF_EXPONENT.
  destruct (backoff_scaled (rto r) (Z.min retries 6) Hr ltac:(lia)) as [-> Hd]. by eexists.
Qed.

(** The estimator is total and bounded.  For round-trip samples of up to
    2^22 seconds, updating a well-formed estimator never panics (the
    single-precision products stay finite and convert back to durations), keeps
    the smoothed values within the same horizon, and leaves a retransmission
    timeout between 200 ms and 5 s; with any number of retries the backed-off
    timeout is at least the timeout and at most 320 s. *)
Theorem update_total r sample retries :
  wf r -> 0 <= sample <= HORIZON -> 0 <= retries ->
  exists r' d, update r sample = Some r' /\ wf r' /\
    rto_with_backoff r' retries = Some d /\ MIN_RTO <= rto r' <= d /\ d <= from_secs 320.
Proof.
  intros Hr Hs Hret. destruct (rtt_update_spec r sample Hr Hs) as (r' & Hu & Hr').
  destruct (backoff_spec r' retries Hr' Hret) as (d & Hd & Hb). pose proof (wf_rto r' Hr'). exists r', d. split_and!; [done..|lia|lia|lia].
Qed.

Lemma update_total_witness : exists r' d, update new (from_millis 120) = Some r' /\ rto_with_backoff r' 9 = Some d /\ d <= from_secs 320.
Proof.
  destruct (update_total new (from_millis 120) 9 new_estimator_wf) as (r' & d & H1 & _ & H2 & _ & H3); [by vm_compute|lia|].
  exists r', d. split; [exact H1|]. split; [exact H2|exact H3].
Defined.

End RttEstimator.
