(* ===== verification/Outgoing.v ===== *)
(** Outgoing messages ([tox-sequenced/src/outgoing.rs]): fragmentation,
    bookkeeping of what was sent and acknowledged, loss detection and
    retransmission queues.

    Mutable references passed between the methods of the source ([to_remove],
    [needs_cleanup], [res]) are threaded together with the message in the
    record [ctx].  Arithmetic that the source leaves unchecked is checked here:
    [None] is the panic of an overflow or of an index out of range, and the
    theorems show that no acknowledgement of a peer leads to one. *)

From S2P Require Import Prelude Bitset Protocol Float32.
#[local] Open Scope Z_scope.
#[local] Open Scope list_scope.

(** Result of processing an ACK for a message. *)
Record AckResult := mkAckResult {
  newly_delivered_bytes : Z;
  newly_completed_in_flight_bytes : Z;
  min_rtt : option Duration;
  first_rtt : option Duration;
  loss_detected : bool;
  delivery_sample : option (Z * Instant * f32 * bool)
}.
#[global] Instance eta_AckResult : Settable AckResult := fun r =>
  mkAckResult (newly_delivered_bytes r) (newly_completed_in_flight_bytes r) (min_rtt r)
              (first_rtt r) (loss_detected r) (delivery_sample r).

Record FragmentDeliveryInfo := mkInfo {
  delivered_at_send : Z;
  delivery_time_at_send : Instant;
  first_sent_time : Instant;
  size : Z;
  app_limited : bool
}.

Record FragmentState := mkState {
  last_sent : option Instant;
  delivery_info : option FragmentDeliveryInfo;
  retransmit_count : Z;
  rto_backoff : Z
}.
#[global] Instance eta_FragmentState : Settable FragmentState := fun s =>
  mkState (last_sent s) (delivery_info s) (retransmit_count s) (rto_backoff s).

Module OutgoingMessage.

Record t := mk {
  message_type : MessageType;
  data : bytes;
  payload_mtu : Z;
  num_fragments : Z;
  acked_bitset : BitSet.t;
  acked_count : Z;
  highest_cumulative_ack : Z;
  next_fragment : Z;
  retransmit_queue : list Z;
  retransmit_bitset : BitSet.t;
  in_flight_queue : list (Z * Instant);
  fragment_states : list FragmentState;
  created_at : Instant;
  last_ack_at : Instant;
  timeout : Duration;
  dup_ack_count : Z;
  last_ack_base : Z;
  highest_sent_time_acked : option Instant
}.
#[global] Instance eta_t : Settable t := fun m =>
  mk (message_type m) (data m) (payload_mtu m) (num_fragments m) (acked_bitset m) (acked_count m)
     (highest_cumulative_ack m) (next_fragment m) (retransmit_queue m) (retransmit_bitset m)
     (in_flight_queue m) (fragment_states m) (created_at m) (last_ack_at m) (timeout m)
     (dup_ack_count m) (last_ack_base m) (highest_sent_time_acked m).

(** The message before anything is sent. *)
Definition initial (message_type : MessageType) (data : bytes) (payload_mtu num_fragments : Z)
    (now : Instant) : t :=
  {| message_type := message_type; data := data; payload_mtu := payload_mtu;
     num_fragments := num_fragments;
     acked_bitset := BitSet.new BITSET_WORDS;
     acked_count := 0;
     highest_cumulative_ack := 0;
     next_fragment := 0;
     retransmit_queue := [];
     retransmit_bitset := BitSet.new BITSET_WORDS;
     in_flight_queue := [];
     fragment_states := replicate (Z.to_nat num_fragments) (mkState None None 0 0);
     created_at := now;
     last_ack_at := now;
     timeout := from_secs 30;
     dup_ack_count := 0;
     last_ack_base := 0;
     highest_sent_time_acked := None |}.

(** [OutgoingMessage::new]; the fragment count is cast to [u16] before it is
    compared with the limit.  A zero MTU panics in [div_ceil]. *)
Definition new (message_type : MessageType) (data : bytes) (payload_mtu : Z) (now : Instant) :
    option (result SequencedError t) :=
  n ← (if len data =? 0 then Some 0
       else if payload_mtu =? 0 then None
       else Some (div_ceil (len data) payload_mtu));
  let num_fragments := wrap 16 n in
  Some (if MAX_FRAGMENTS_PER_MESSAGE <? num_fragments then Err MessageTooLarge
        else Ok (initial message_type data payload_mtu num_fragments now)).

Definition is_acked (m : t) (index : Z) : bool :=
  if num_fragments m <=? index then true else BitSet.get (acked_bitset m) index.

Definition set_acked (m : t) (index : Z) : option (t * bool) :=
  if num_fragments m <=? index then Some (m, false)
  else
    let '(s, fresh) := BitSet.set (acked_bitset m) index in
    let m := m <| acked_bitset := s |> in
    if (fresh : bool) then c ← chk_u16 (acked_count m + 1); Some (m <| acked_count := c |>, true)
    else Some (m, false).

Definition all_acked (m : t) : bool := acked_count m =? num_fragments m.

(** The bounds of a fragment in the data. *)
Definition fragment_bounds (m : t) (i : Z) : option (Z * Z) :=
  start ← chk_usize (i * payload_mtu m);
  stop ← chk_usize (start + payload_mtu m);
  Some (start, Z.min stop (len (data m))).

Definition fragment_len (m : t) (i : Z) : option Z :=
  if num_fragments m <=? i then Some 0
  else '(start, end_) ← fragment_bounds m i; chk_usize (end_ - start).

Definition get_fragment (m : t) (i : Z) : option bytes :=
  if num_fragments m <=? i then Some []
  else
    '(start, end_) ← fragment_bounds m i;
    if start <=? end_ then Some (take (Z.to_nat (end_ - start)) (drop (Z.to_nat start) (data m)))
    else None.

Definition mark_fragment_sent (m : t) (i : Z) (now : Instant) (delivered_bytes : Z)
    (last_delivery_time : Instant) (app_limited : bool) (fragment_size : Z) : option (t * (bool * bool)) :=
  state ← idx (fragment_states m) i;
  let is_retransmission := bool_decide (is_Some (delivery_info state)) in
  let was_in_flight := bool_decide (is_Some (last_sent state)) in
  state ← (if is_retransmission
           then c ← chk_u32 (retransmit_count state + 1); Some (state <| retransmit_count := c |>)
           else Some (state <| delivery_info :=
                  Some {| delivered_at_send := delivered_bytes;
                          delivery_time_at_send := last_delivery_time;
                          first_sent_time := now; size := fragment_size;
                          app_limited := app_limited |} |>));
  let state := state <| last_sent := Some now |> in
  states ← upd (fragment_states m) i state;
  Some (m <| fragment_states := states |> <| in_flight_queue := in_flight_queue m ++ [(i, now)] |>,
        (is_retransmission, was_in_flight)).

Definition prepare_fragment_for_send (m : t) (i : Z) (now : Instant) (delivered_bytes : Z)
    (last_delivery_time : Instant) (app_limited : bool) : option (t * (bytes * Z * bool * bool)) :=
  fragment ← get_fragment m i;
  let total := num_fragments m in
  '(m, (is_retransmission, was_in_flight)) ←
    mark_fragment_sent m i now delivered_bytes last_delivery_time app_limited (len fragment);
  Some (m, (fragment, total, is_retransmission, was_in_flight)).

(** *** Processing an acknowledgement *)

Record ctx := mkCtx { msg : t; to_remove : BitSet.t; needs_cleanup : bool; res : AckResult }.
#[global] Instance eta_ctx : Settable ctx := fun c =>
  mkCtx (msg c) (to_remove c) (needs_cleanup c) (res c).

Definition mark_for_removal (c : ctx) (i : Z) : ctx :=
  if i <? MAX_FRAGMENTS_PER_MESSAGE
  then c <| to_remove := (BitSet.set (to_remove c) i).1 |> <| needs_cleanup := true |>
  else c.

(** The cumulative part of [collect_acked_indices]; each round moves [curr]
    up, so [limit] rounds are enough. *)
Fixpoint collect_cumulative (fuel : nat) (acked : BitSet.t) (curr limit : Z) (acc : list Z) : list Z :=
  match fuel with
  | O => acc
  | S fuel =>
      match BitSet.next_zero acked curr limit with
      | None => acc
      | Some i => collect_cumulative fuel acked (i + 1) limit (acc ++ [wrap 16 i])
      end
  end.

(** The selective part; each round clears one bit of the 64-bit mask. *)
Fixpoint collect_selective (fuel : nat) (acked : BitSet.t) (num base mask : Z) (acc : list Z) : list Z :=
  match fuel with
  | O => acc
  | S fuel =>
      if mask =? 0 then acc
      else
        let i := U64.trailing_zeros mask in
        let mask := Z.land mask (U64.not (U64.shl 1 i)) in
        let index := wrap 16 (wrap 16 (base + 1) + wrap 16 i) in
        let acc := if (index <? num) && negb (BitSet.get acked index) then acc ++ [index] else acc in
        collect_selective fuel acked num base mask acc
  end.

Definition collect_acked_indices (m : t) (base_index bitmask : Z) : t * list Z :=
  let limit := Z.min base_index (num_fragments m) in
  let acc := collect_cumulative (Z.to_nat limit) (acked_bitset m) (highest_cumulative_ack m) limit [] in
  let m := m <| highest_cumulative_ack := Z.max (highest_cumulative_ack m) base_index |> in
  let acc := collect_selective 64 (acked_bitset m) (num_fragments m) base_index bitmask acc in
  (m, acc).

Definition update_delivery_sample (info : FragmentDeliveryInfo) (r : AckResult)
    (total_delivered_bytes : Z) (now : Instant) : option AckResult :=
  let duration := since now (delivery_time_at_send info) in
  if duration =? 0 then Some r
  else
    sum ← chk_usize (total_delivered_bytes + newly_delivered_bytes r);
    delivered_bytes ← chk_usize (sum - delivered_at_send info);
    let current_rate := F32.div (F32.of_Z delivered_bytes) (as_secs_f32 duration) in
    let better := match delivery_sample r with
                  | None => true
                  | Some (_, _, rate, _) => F32.gt current_rate rate
                  end in
    Some (if better
          then r <| delivery_sample := Some (delivered_at_send info, delivery_time_at_send info,
                                             current_rate, app_limited info) |>
          else r).

(** [highest_sent_time_acked] after acknowledging a fragment sent at [ls]. *)
Definition raise_highest (h : option Instant) (ls : option Instant) : option Instant :=
  match ls with
  | Some ls =>
      match h with
      | None => Some ls
      | Some m => if m <? ls then Some ls else h
      end
  | None => h
  end.

(** The RTT fields of the result for a fragment that was never retransmitted. *)
Definition note_rtt (r : AckResult) (rtt : Duration) : AckResult :=
  let r := match first_rtt r with None => r <| first_rtt := Some rtt |> | Some _ => r end in
  match min_rtt r with
  | None => r <| min_rtt := Some rtt |>
  | Some m => if rtt <? m then r <| min_rtt := Some rtt |> else r
  end.

Definition process_single_ack (c : ctx) (i : Z) (now : Instant) (total_delivered_bytes : Z) :
    option (ctx * bool) :=
  let m := msg c in
  if num_fragments m <=? i then Some (c, false)
  else
    let '(s, fresh) := BitSet.set (acked_bitset m) i in
    if (fresh : bool) then
      count ← chk_u16 (acked_count m + 1);
      state ← idx (fragment_states m) i;
      let info := delivery_info state in
      let last_sent_existed := bool_decide (is_Some (last_sent state)) in
      let is_retransmission := 0 <? retransmit_count state in
      states ← upd (fragment_states m) i (state <| last_sent := None |>);
      let m := m <| acked_bitset := s |> <| acked_count := count |>
                 <| highest_sent_time_acked := raise_highest (highest_sent_time_acked m) (last_sent state) |>
                 <| fragment_states := states |> in
      let c := c <| msg := m |> in
      match info with
      | None => Some (c, true)
      | Some info =>
          delivered ← chk_usize (newly_delivered_bytes (res c) + size info);
          let c := c <| res := (res c) <| newly_delivered_bytes := delivered |> |> in
          let c := if (last_sent_existed : bool) then mark_for_removal c i else c in
          r ← update_delivery_sample info (res c) total_delivered_bytes now;
          let r := if (is_retransmission : bool) then r else note_rtt r (since now (first_sent_time info)) in
          Some (c <| res := r |>, true)
      end
    else Some (c, false).

(** The loop of [on_ack] over the collected indices. *)
Fixpoint process_acks (c : ctx) (ids : list Z) (now : Instant) (total_delivered_bytes : Z)
    (any_newly_acked : bool) : option (ctx * bool) :=
  match ids with
  | [] => Some (c, any_newly_acked)
  | i :: ids =>
      '(c, fresh) ← process_single_ack c i now total_delivered_bytes;
      process_acks c ids now total_delivered_bytes (any_newly_acked || fresh)
  end.

(** [trigger_loss]; [handle_fast_retransmit] contains the same statements. *)
Definition trigger_loss (c : ctx) (i : Z) : option ctx :=
  let m := msg c in
  state ← idx (fragment_states m) i;
  states ← upd (fragment_states m) i (state <| last_sent := None |>);
  let m := m <| retransmit_queue := retransmit_queue m ++ [i] |>
             <| retransmit_bitset := (BitSet.set (retransmit_bitset m) i).1 |>
             <| fragment_states := states |> in
  let c := c <| msg := m |> in
  let c := match last_sent state with Some _ => mark_for_removal c i | None => c end in
  Some (c <| res := (res c) <| loss_detected := true |> |>).

Definition handle_fast_retransmit (c : ctx) (base_index : Z) : option ctx :=
  let m := msg c in
  if (base_index =? last_ack_base m) && (base_index <? num_fragments m) then
    d ← chk_u32 (dup_ack_count m + 1);
    let m := m <| dup_ack_count := d |> in
    let c := c <| msg := m |> in
    if (d =? 3) && negb (is_acked m base_index) && negb (BitSet.get (retransmit_bitset m) base_index)
    then
      state ← idx (fragment_states m) base_index;
      let should_trigger :=
        match last_sent state with
        | Some ls_this =>
            match highest_sent_time_acked m with
            | None => true
            | Some ls_acked => ls_this <=? ls_acked
            end
        | None => false
        end in
      if (should_trigger : bool) then trigger_loss c base_index else Some c
    else Some c
  else Some c.

(** The [for] loop of [detect_losses_from_holes]. *)
Fixpoint holes_loop (c : ctx) (ids : list Z) (max_ls : option Instant) (acked_count acked_so_far : Z) :
    option ctx :=
  match ids with
  | [] => Some c
  | i :: ids =>
      let m := msg c in
      if BitSet.get (acked_bitset m) i then
        n ← chk_usize (acked_so_far + 1); holes_loop c ids max_ls acked_count n
      else if negb (BitSet.get (retransmit_bitset m) i) then
        acked_after ← chk_usize (acked_count - acked_so_far);
        if 3 <=? acked_after then
          state ← idx (fragment_states m) i;
          let should_trigger :=
            match last_sent state with
            | Some ls_this => match max_ls with Some ls_acked => ls_this <=? ls_acked | None => false end
            | None => false
            end in
          c ← (if (should_trigger : bool) then trigger_loss c (wrap 16 i) else Some c);
          holes_loop c ids max_ls acked_count acked_so_far
        else holes_loop c ids max_ls acked_count acked_so_far
      else holes_loop c ids max_ls acked_count acked_so_far
  end.

Definition detect_losses_from_holes (c : ctx) : option ctx :=
  let m := msg c in
  let search_limit :=
    match BitSet.last_one (acked_bitset m) (num_fragments m) with Some i => i + 1 | None => 0 end in
  holes_loop c (zrange (highest_cumulative_ack m) search_limit) (highest_sent_time_acked m)
    (acked_count m) (highest_cumulative_ack m).

(** The [retain] of [cleanup_in_flight_queue]: the remaining queue, the
    counted fragments and the removed bytes. *)
Fixpoint cleanup_loop (m : t) (remove : BitSet.t) (q : list (Z * Instant)) (counted : BitSet.t)
    (removed : Z) : option (list (Z * Instant) * Z) :=
  match q with
  | [] => Some ([], removed)
  | (i, at_) :: q =>
      if BitSet.get remove i then
        '(counted, removed) ←
          (if i <? num_fragments m then
             let '(counted, fresh) := BitSet.set counted i in
             if (fresh : bool) then
               '(start, end_) ← fragment_bounds m i;
               n ← chk_usize (end_ - start);
               removed ← chk_usize (removed + n);
               Some (counted, removed)
             else Some (counted, removed)
           else Some (counted, removed));
        cleanup_loop m remove q counted removed
      else
        '(q, removed) ← cleanup_loop m remove q counted removed;
        Some ((i, at_) :: q, removed)
  end.

Definition cleanup_in_flight_queue (m : t) (remove : BitSet.t) : option (t * Z) :=
  '(q, removed) ← cleanup_loop m remove (in_flight_queue m) (BitSet.new BITSET_WORDS) 0;
  Some (m <| in_flight_queue := q |>, removed).

(** Dropping acknowledged fragments from the retransmission queue. *)
Definition purge_retransmit (m : t) : t :=
  let q := List.filter (fun i => if num_fragments m <=? i then false
                                 else negb (BitSet.get (acked_bitset m) i)) (retransmit_queue m) in
  m <| retransmit_queue := q |>
    <| retransmit_bitset := foldl (fun s i => (BitSet.set s i).1) (BitSet.clear (retransmit_bitset m)) q |>.

Definition on_ack (m : t) (base_index bitmask : Z) (now : Instant) (total_delivered_bytes : Z) :
    option (t * AckResult) :=
  let m := m <| last_ack_at := now |> in
  let r := mkAckResult 0 0 None None false None in
  let '(m, acked_indices) := collect_acked_indices m base_index bitmask in
  let c := mkCtx m (BitSet.new BITSET_WORDS) false r in
  '(c, any_newly_acked) ← process_acks c acked_indices now total_delivered_bytes false;
  c ← (if last_ack_base (msg c) <? base_index
       then Some (c <| msg := (msg c) <| last_ack_base := base_index |> <| dup_ack_count := 0 |>
                                      <| last_ack_at := now |> |>)
       else if (any_newly_acked : bool)
       then c ← handle_fast_retransmit c base_index;
            Some (c <| msg := (msg c) <| last_ack_at := now |> |>)
       else Some c);
  c ← detect_losses_from_holes c;
  let c := if (any_newly_acked : bool) then c <| msg := purge_retransmit (msg c) |> else c in
  if needs_cleanup c then
    '(m, removed) ← cleanup_in_flight_queue (msg c) (to_remove c);
    Some (m, (res c) <| newly_completed_in_flight_bytes := removed |>)
  else Some (msg c, res c).

(** *** Fragmentation *)

(** The length of fragment [i] of the data. *)
Definition flen (m : t) (i : Z) : Z := Z.min ((i + 1) * payload_mtu m) (len (data m)) - i * payload_mtu m.

(** The data is cut into [num_fragments] pieces of at most [payload_mtu]. *)
Definition sized (m : t) : Prop :=
  0 < payload_mtu m <= 2 ^ 40 /\
  num_fragments m = div_ceil (len (data m)) (payload_mtu m) /\
  0 <= num_fragments m <= MAX_FRAGMENTS_PER_MESSAGE.

Lemma flen_bounds m i : sized m -> 0 <= i < num_fragments m -> 0 < flen m i <= payload_mtu m.
Proof.
  intros (Hm & Hn & Hx) Hi. unfold flen.
  pose proof (div_ceil_spec (len (data m)) (payload_mtu m)). rewrite <- Hn in *. nia.
Qed.

Lemma fragment_bounds_ok m i :
  sized m -> 0 <= i < num_fragments m ->
  fragment_bounds m i = Some (i * payload_mtu m, i * payload_mtu m + flen m i).
Proof.
  intros (Hm & Hn & Hx) Hi. unfold fragment_bounds, MAX_FRAGMENTS_PER_MESSAGE in *.
  assert (0 <= i * payload_mtu m <= 1024 * 2 ^ 40) by nia.
  do 2 run_chk. unfold flen. f_equal. f_equal. lia.
Qed.

Lemma fragment_len_ok m i : sized m -> 0 <= i < num_fragments m -> fragment_len m i = Some (flen m i).
Proof.
  intros Hs Hi. unfold fragment_len. rewrite (proj2 (Z.leb_gt _ _)) by lia.
  rewrite fragment_bounds_ok by done. run. pose proof (flen_bounds m i Hs Hi).
  destruct Hs as (Hm & _ & _). run_chk. f_equal. lia.
Qed.

Lemma fragment_len_out m i : num_fragments m <= i -> fragment_len m i = Some 0.
Proof. intros H. unfold fragment_len. by rewrite (proj2 (Z.leb_le _ _)). Qed.

(** Fragment [i] of a message. *)
Definition fragment (m : t) (i : Z) : bytes :=
  take (Z.to_nat (flen m i)) (drop (Z.to_nat (i * payload_mtu m)) (data m)).

Lemma get_fragment_ok m i :
  sized m -> 0 <= i < num_fragments m -> get_fragment m i = Some (fragment m i).
Proof.
  intros Hs Hi. unfold get_fragment. rewrite (proj2 (Z.leb_gt _ _)) by lia.
  rewrite fragment_bounds_ok by done. run. pose proof (flen_bounds m i Hs Hi).
  rewrite (proj2 (Z.leb_le _ _)) by lia. unfold fragment. do 3 f_equal. lia.
Qed.

Lemma len_fragment m i : sized m -> 0 <= i < num_fragments m -> len (fragment m i) = flen m i.
Proof.
  intros Hs Hi. pose proof (flen_bounds m i Hs Hi). unfold fragment, len.
  rewrite length_take, length_drop. destruct Hs as (Hm & Hn & Hx).
  unfold flen in *. unfold len in *. nia.
Qed.

Lemma concat_prefix m n :
  sized m -> 0 <= n <= num_fragments m ->
  concat (fragment m <$> zrange 0 n) = take (Z.to_nat (n * payload_mtu m)) (data m).
Proof.
  intros Hs. remember (Z.to_nat n) as k eqn:Ek. revert n Ek.
  induction k as [|k IH]; intros n Ek Hn.
  - replace n with 0 by lia. done.
  - rewrite (zrange_app 0 (n - 1) n) by lia. rewrite fmap_app, concat_app, IH by lia.
    rewrite zrange_cons, (zrange_nil (n - 1 + 1)) by lia. cbn. rewrite app_nil_r.
    unfold fragment. pose proof (flen_bounds m (n - 1) Hs ltac:(lia)) as Hb.
    destruct Hs as (Hm & Hnum & Hx).
    rewrite take_take_drop.
    replace (Z.to_nat (n * payload_mtu m)) with
      (Z.to_nat ((n - 1) * payload_mtu m) + Z.to_nat (payload_mtu m))%nat by nia.
    destruct (decide (n * payload_mtu m <= len (data m))) as [Hle|Hgt].
    + do 2 f_equal. unfold flen. nia.
    + rewrite !take_ge; [done| |]; unfold flen, len in *; nia.
Qed.

(** The fragments in order are the data. *)
Lemma concat_fragments m :
  sized m -> concat (fragment m <$> zrange 0 (num_fragments m)) = data m.
Proof.
  intros Hs. pose proof (proj2 (proj2 Hs)). rewrite concat_prefix by (done || lia).
  destruct Hs as (Hm & Hn & _). pose proof (div_ceil_spec (len (data m)) (payload_mtu m)).
  rewrite <- Hn in *. apply take_ge. unfold len in *. nia.
Qed.

(** *** Invariant *)

(** Fragment [i] has been acknowledged; is in flight; has an entry in the
    queue of fragments in flight. *)
Definition acked (m : t) (i : Z) : bool := BitSet.get (acked_bitset m) i.
Definition sent (m : t) (i : Z) : bool :=
  match idx (fragment_states m) i with Some s => bool_decide (is_Some (last_sent s)) | None => false end.
Definition in_queue (q : list (Z * Instant)) (i : Z) : bool := existsb (fun p => p.1 =? i) q.

(** The part of the invariant that processing an acknowledgement keeps at
    every step. *)
Record core (m : t) : Prop := {
  core_sized : sized m;
  core_acked_wf : BitSet.wf (acked_bitset m);
  core_acked_N : BitSet.N (acked_bitset m) = Z.of_nat BITSET_WORDS;
  core_acked_lt i : 0 <= i -> acked m i = true -> i < num_fragments m;
  core_count : acked_count m = count_if (acked m) (zrange 0 (num_fragments m));
  core_hca : 0 <= highest_cumulative_ack m <= u16_max;
  core_rb_wf : BitSet.wf (retransmit_bitset m);
  core_rb_N : BitSet.N (retransmit_bitset m) = Z.of_nat BITSET_WORDS;
  core_rb i : 0 <= i -> BitSet.get (retransmit_bitset m) i = bool_decide (i ∈ retransmit_queue m);
  core_rq i : i ∈ retransmit_queue m -> 0 <= i < num_fragments m;
  core_rq_nodup : NoDup (retransmit_queue m);
  core_states : len (fragment_states m) = num_fragments m;
  core_sent_info i s : idx (fragment_states m) i = Some s -> is_Some (last_sent s) ->
    is_Some (delivery_info s);
  core_info i s info : idx (fragment_states m) i = Some s -> delivery_info s = Some info ->
    size info = flen m i;
  core_queue i at_ : (i, at_) ∈ in_flight_queue m -> 0 <= i < num_fragments m;
  core_dup : 0 <= dup_ack_count m <= acked_count m;
  core_next : 0 <= next_fragment m <= num_fragments m
}.

(** Everything below the highest cumulative acknowledgement is acknowledged. *)
Definition cumulative (m : t) : Prop :=
  forall i, 0 <= i < highest_cumulative_ack m -> i < num_fragments m -> acked m i = true.
(** The queue of fragments in flight lists the fragments in flight. *)
Definition flight_ok (m : t) : Prop := forall i, 0 <= i -> in_queue (in_flight_queue m) i = sent m i.
(** Acknowledged fragments do not wait for retransmission. *)
Definition rq_unacked (m : t) : Prop := forall i, i ∈ retransmit_queue m -> acked m i = false.

Definition wf (m : t) : Prop := core m /\ cumulative m /\ flight_ok m /\ rq_unacked m.

(** No delivery record is ahead of the session's delivery counter. *)
Definition delivered_ok (total : Z) (m : t) : Prop :=
  forall i s info, idx (fragment_states m) i = Some s -> delivery_info s = Some info ->
    0 <= delivered_at_send info <= total.

(** Bytes of the fragments in flight. *)
Definition flight_bytes (m : t) : Z :=
  zsum (fun i => if sent m i then flen m i else 0) (zrange 0 (num_fragments m)).

Lemma capacity_acked m : core m -> BitSet.N (acked_bitset m) * 64 = 1024.
Proof. intros H. by rewrite (core_acked_N m H). Qed.

Lemma core_count_bounds m : core m -> 0 <= acked_count m <= num_fragments m.
Proof.
  intros H. rewrite (core_count m H). pose proof (proj2 (proj2 (core_sized m H))).
  pose proof (count_if_bounds (acked m) (zrange 0 (num_fragments m))). rewrite len_zrange in *; lia.
Qed.

Lemma state_at m i : core m -> 0 <= i < num_fragments m -> exists s, idx (fragment_states m) i = Some s.
Proof. intros H Hi. apply idx_is_Some. by rewrite (core_states m H). Qed.

Lemma new_state_at n i s :
  idx (replicate n (mkState None None 0 0)) i = Some s -> s = mkState None None 0 0.
Proof. intros [_ H]%idx_Some. by apply lookup_replicate in H as [-> _]. Qed.

Lemma initial_sent mt d mtu n now i : sent (initial mt d mtu n now) i = false.
Proof.
  unfold sent. cbn. destruct (idx _ i) as [s|] eqn:E; [|done].
  by apply new_state_at in E as ->.
Qed.

Lemma initial_wf mt d mtu now :
  0 < mtu <= 2 ^ 40 -> 0 <= div_ceil (len d) mtu <= MAX_FRAGMENTS_PER_MESSAGE ->
  wf (initial mt d mtu (div_ceil (len d) mtu) now).
Proof.
  intros Hmtu Hmax. destruct (BitSet.new_spec BITSET_WORDS) as (B1 & B2 & B3).
  set (n := div_ceil (len d) mtu) in *. set (m := initial mt d mtu n now).
  assert (forall i, 0 <= i -> acked m i = false) as Hacked by (intros; by apply B3).
  assert (count_if (acked m) (zrange 0 n) = 0) as Hcount.
  { apply count_if_none. intros i Hi%elem_of_zrange. apply Hacked. lia. }
  unfold wf, cumulative, flight_ok, rq_unacked. split; [|split_and!].
  - constructor.
    + done.
    + done.
    + done.
    + intros i Hi Ha. by rewrite Hacked in Ha.
    + done.
    + cbn. unfold u16_max. lia.
    + done.
    + done.
    + intros i Hi. cbn -[BitSet.get]. by rewrite B3.
    + by intros i ?%elem_of_nil.
    + constructor.
    + cbn. unfold len. rewrite length_replicate. lia.
    + intros i s E%new_state_at [? H]. by subst.
    + intros i s info E%new_state_at H. by subst.
    + by intros i a ?%elem_of_nil.
    + done.
    + cbn. lia.
  - intros i Hi. cbn in Hi. lia.
  - intros i Hi. symmetry. apply initial_sent.
  - by intros i ?%elem_of_nil.
Qed.

(** A message whose true fragment count is within the limit starts out well formed. *)
Lemma outgoing_new_spec mt d mtu now :
  0 < mtu <= 2 ^ 40 -> div_ceil (len d) mtu <= MAX_FRAGMENTS_PER_MESSAGE ->
  new mt d mtu now = Some (Ok (initial mt d mtu (div_ceil (len d) mtu) now)) /\
  wf (initial mt d mtu (div_ceil (len d) mtu) now).
Proof.
  intros Hmtu Hmax. pose proof (len_nonneg d) as Hd.
  assert (0 <= div_ceil (len d) mtu) as H0.
  { pose proof (div_ceil_spec (len d) mtu). nia. }
  split; [|by apply initial_wf]. unfold MAX_FRAGMENTS_PER_MESSAGE in Hmax.
  assert ((if len d =? 0 then Some 0 else if mtu =? 0 then None else Some (div_ceil (len d) mtu))
          = Some (div_ceil (len d) mtu)) as Hn.
  { destruct (Z.eqb_spec (len d) 0) as [E|E].
    - rewrite E. unfold div_ceil. rewrite Z.div_small by lia. done.
    - by rewrite (proj2 (Z.eqb_neq mtu 0)) by lia. }
  unfold new. rewrite Hn. run. rewrite wrap_small by (unfold in_u; lia).
  by rewrite (proj2 (Z.ltb_ge _ _)) by (unfold MAX_FRAGMENTS_PER_MESSAGE; lia).
Qed.

(** *** The context of [on_ack] *)

(** Queue entries are the fragments in flight and those marked for removal. *)
Definition flight_split (q : list (Z * Instant)) (sent : Z -> bool) (remove : BitSet.t) (cleanup : bool) : Prop :=
  (forall i, 0 <= i -> in_queue q i = sent i || BitSet.get remove i) /\
  (forall i, 0 <= i -> sent i = true -> BitSet.get remove i = false) /\
  (cleanup = false -> forall i, 0 <= i -> BitSet.get remove i = false).

Record cinv (c : ctx) : Prop := {
  ci_core : core (msg c);
  ci_remove_wf : BitSet.wf (to_remove c);
  ci_remove_N : BitSet.N (to_remove c) = Z.of_nat BITSET_WORDS;
  ci_flight : flight_split (in_flight_queue (msg c)) (sent (msg c)) (to_remove c) (needs_cleanup c);
  ci_bytes : 0 <= newly_delivered_bytes (res c) <= acked_count (msg c) * payload_mtu (msg c);
  ci_completed : newly_completed_in_flight_bytes (res c) = 0
}.

Ltac core_same :=
  match goal with H : core ?m |- core _ => destruct H; constructor; assumption end.

(** Fields no acknowledgement changes. *)
Definition static (m m' : t) : Prop :=
  data m' = data m /\ payload_mtu m' = payload_mtu m /\ num_fragments m' = num_fragments m /\
  in_flight_queue m' = in_flight_queue m /\ next_fragment m' = next_fragment m /\
  highest_cumulative_ack m' = highest_cumulative_ack m.

#[global] Instance static_preorder : PreOrder static.
Proof.
  split; [by intros m|]. intros m1 m2 m3. unfold static. intuition congruence.
Qed.

(** Clearing the send time of one fragment. *)
Definition unsend (m : t) (i : Z) (s : FragmentState) : t :=
  m <| fragment_states := <[Z.to_nat i := s <| last_sent := None |>]> (fragment_states m) |>.

Lemma unsend_state m i s j s' :
  0 <= i < len (fragment_states m) ->
  idx (fragment_states (unsend m i s)) j = Some s' ->
  (j = i /\ s' = s <| last_sent := None |>) \/ (j <> i /\ idx (fragment_states m) j = Some s').
Proof.
  intros Hi H. assert (0 <= j) by (apply idx_lt in H; lia). cbn in H. rewrite idx_insert in H by done.
  case_decide; [left|right; split; [congruence|done]]. by simplify_eq.
Qed.

Lemma sent_unsend m i s j :
  idx (fragment_states m) i = Some s -> 0 <= j ->
  sent (unsend m i s) j = negb (j =? i) && sent m j.
Proof.
  intros Hs Hj. pose proof (idx_lt _ _ _ Hs). unfold sent. cbn. rewrite idx_insert by done.
  case_decide as E; [subst j; by rewrite Z.eqb_refl|].
  by rewrite (proj2 (Z.eqb_neq j i)) by congruence.
Qed.

Lemma core_unsend m i s : core m -> idx (fragment_states m) i = Some s -> core (unsend m i s).
Proof.
  intros H Hs. pose proof (idx_lt _ _ _ Hs) as Hi. pose proof H as H'. destruct H. constructor; try done.
  - cbn. by rewrite len_insert.
  - intros j s' Hj Hl. apply unsend_state in Hj as [[-> ->]|[_ Hj]]; [|eauto|done].
    by destruct Hl.
  - intros j s' info Hj Hl. apply unsend_state in Hj as [[-> ->]|[_ Hj]]; [|eauto|done].
    by eapply (core_info m H').
Qed.

Lemma delivered_unsend total m i s :
  delivered_ok total m -> idx (fragment_states m) i = Some s -> delivered_ok total (unsend m i s).
Proof.
  intros H Hs j s' info Hj Hl. pose proof (idx_lt _ _ _ Hs).
  apply unsend_state in Hj as [[-> ->]|[_ Hj]]; [|by eapply H|done]. by eapply (H i s).
Qed.

(** [BitSet::set] on a set of the transport's capacity. *)
Lemma set16 s i :
  BitSet.wf s -> BitSet.N s = Z.of_nat BITSET_WORDS -> 0 <= i < 1024 ->
  BitSet.wf (BitSet.set s i).1 /\ BitSet.N (BitSet.set s i).1 = Z.of_nat BITSET_WORDS /\
  (BitSet.set s i).2 = negb (BitSet.get s i) /\
  (forall j, 0 <= j -> BitSet.get (BitSet.set s i).1 j = (j =? i) || BitSet.get s j).
Proof.
  intros Hwf HN Hi. destruct (BitSet.set_spec s i Hwf ltac:(lia)) as (H1 & H2 & H3 & H4).
  rewrite HN in *. change (Z.of_nat BITSET_WORDS * 64) with 1024 in *.
  rewrite (proj2 (Z.ltb_lt i 1024)) in * by lia. split_and!; [done..|].
  intros j Hj. by rewrite H4, andb_true_r.
Qed.

(** Taking the send time of fragment [i] and marking it for removal when it was
    in flight keeps the queue split. *)
Lemma flight_take q sent sent' remove cleanup i :
  flight_split q sent remove cleanup -> BitSet.wf remove -> BitSet.N remove = Z.of_nat BITSET_WORDS ->
  0 <= i < 1024 -> (forall j, 0 <= j -> sent' j = negb (j =? i) && sent j) ->
  flight_split q sent' (if sent i then (BitSet.set remove i).1 else remove)
    (if sent i then true else cleanup).
Proof.
  intros (F1 & F2 & F3) Hwf HN Hi Hs'.
  destruct (set16 remove i Hwf HN Hi) as (_ & _ & _ & Hg').
  split_and!.
  - intros j Hj. rewrite F1, Hs' by done. destruct (sent i) eqn:E; [rewrite Hg' by done|];
      destruct (Z.eqb_spec j i) as [->|]; simpl; rewrite ?E; auto using orb_true_r.
  - intros j Hj Hsj. rewrite Hs' in Hsj by done. apply andb_true_iff in Hsj as [Hne Hsj].
    destruct (sent i); [rewrite Hg', F2 by done|by apply F2]. by destruct (j =? i).
  - destruct (sent i); [done|auto].
Qed.

Lemma mark_for_removal_eq c i :
  i < 1024 ->
  mark_for_removal c i = c <| to_remove := (BitSet.set (to_remove c) i).1 |> <| needs_cleanup := true |>.
Proof. intros H. unfold mark_for_removal, MAX_FRAGMENTS_PER_MESSAGE. by rewrite (proj2 (Z.ltb_lt _ _)). Qed.

Lemma update_delivery_sample_ok info r total now :
  0 <= delivered_at_send info <= total -> 0 <= newly_delivered_bytes r ->
  total + newly_delivered_bytes r <= usize_max ->
  exists r', update_delivery_sample info r total now = Some r' /\
    newly_delivered_bytes r' = newly_delivered_bytes r /\
    newly_completed_in_flight_bytes r' = newly_completed_in_flight_bytes r /\
    loss_detected r' = loss_detected r.
Proof.
  intros H1 H2 H3. unfold update_delivery_sample. destruct (_ =? 0); [by eexists|].
  do 2 run_chk. eexists. split; [done|].
  destruct (match delivery_sample r with Some _ => _ | None => _ end); done.
Qed.

Lemma note_rtt_frame r rtt :
  newly_delivered_bytes (note_rtt r rtt) = newly_delivered_bytes r /\
  newly_completed_in_flight_bytes (note_rtt r rtt) = newly_completed_in_flight_bytes r /\
  loss_detected (note_rtt r rtt) = loss_detected r.
Proof.
  unfold note_rtt. destruct (first_rtt r); cbn; destruct (min_rtt r) as [x|]; cbn; try done;
    by destruct (rtt <? x).
Qed.

(** The message once fragment [i] is acknowledged. *)
Definition with_ack (m : t) (i : Z) (s : FragmentState) : t :=
  (unsend m i s) <| acked_bitset := (BitSet.set (acked_bitset m) i).1 |>
    <| acked_count := acked_count m + 1 |>
    <| highest_sent_time_acked := raise_highest (highest_sent_time_acked m) (last_sent s) |>.

Lemma core_with_ack m i s :
  core m -> idx (fragment_states m) i = Some s -> acked m i = false -> core (with_ack m i s) /\
  (forall j, 0 <= j -> acked (with_ack m i s) j = (j =? i) || acked m j).
Proof.
  intros H Hs Ha. pose proof (idx_lt _ _ _ Hs) as Hi. rewrite (core_states m H) in Hi.
  pose proof (proj2 (proj2 (core_sized m H))) as Hmax. unfold MAX_FRAGMENTS_PER_MESSAGE in Hmax.
  destruct (set16 (acked_bitset m) i (core_acked_wf m H) (core_acked_N m H) ltac:(lia)) as (B1 & B2 & _ & B3).
  assert (forall j, 0 <= j -> acked (with_ack m i s) j = (j =? i) || acked m j) as Hacked by exact B3.
  split; [|done]. pose proof (core_unsend m i s H Hs) as [].
  constructor; try assumption.
  - intros j Hj. rewrite Hacked by done. destruct (Z.eqb_spec j i) as [->|]; [cbn; lia|].
    intros Hjm. by apply (core_acked_lt m H).
  - cbn [acked_count with_ack set_field num_fragments]. rewrite (core_count m H). symmetry.
    apply (count_if_zrange_flip _ _ _ _ i); [cbn; lia|done| |].
    + rewrite Hacked by lia. by rewrite Z.eqb_refl.
    + intros j Hj Hne. by rewrite Hacked, (proj2 (Z.eqb_neq j i)) by lia.
  - cbn [dup_ack_count acked_count with_ack set_field]. pose proof (core_dup m H). cbn. lia.
Qed.

Lemma sent_state m i s : idx (fragment_states m) i = Some s -> sent m i = bool_decide (is_Some (last_sent s)).
Proof. intros H. unfold sent. by rewrite H. Qed.

(** The context once fragment [i] is acknowledged. *)
Lemma cinv_with_ack c i s r :
  cinv c -> idx (fragment_states (msg c)) i = Some s -> acked (msg c) i = false ->
  0 <= newly_delivered_bytes r <= (acked_count (msg c) + 1) * payload_mtu (msg c) ->
  newly_completed_in_flight_bytes r = 0 ->
  cinv (mkCtx (with_ack (msg c) i s)
    (if sent (msg c) i then (BitSet.set (to_remove c) i).1 else to_remove c)
    (if sent (msg c) i then true else needs_cleanup c) r).
Proof.
  intros [Hcore Hrw HrN Hfl Hby Hco] Hs Ha Hr Hrc. pose proof (idx_lt _ _ _ Hs) as Hi.
  rewrite (core_states _ Hcore) in Hi.
  pose proof (proj2 (proj2 (core_sized _ Hcore))) as Hmax. unfold MAX_FRAGMENTS_PER_MESSAGE in Hmax.
  destruct (set16 (to_remove c) i Hrw HrN ltac:(lia)) as (B1 & B2 & _ & _).
  constructor; cbn [msg to_remove needs_cleanup res].
  - by apply core_with_ack.
  - by destruct (sent (msg c) i).
  - by destruct (sent (msg c) i).
  - apply flight_take; [done..|lia|]. intros j Hj. by apply (sent_unsend (msg c)).
  - exact Hr.
  - exact Hrc.
Qed.

(** Acknowledging one fragment never panics; it adds the fragment to the
    acknowledged ones and moves it from the fragments in flight to those marked
    for removal. *)
Lemma process_single_ack_spec c i now total :
  cinv c -> delivered_ok total (msg c) -> 0 <= i -> 0 <= total <= 2 ^ 62 ->
  exists c' fresh, process_single_ack c i now total = Some (c', fresh) /\ cinv c' /\
    delivered_ok total (msg c') /\ static (msg c) (msg c') /\
    retransmit_queue (msg c') = retransmit_queue (msg c) /\
    last_ack_base (msg c') = last_ack_base (msg c) /\
    dup_ack_count (msg c') = dup_ack_count (msg c) /\
    fresh = (i <? num_fragments (msg c)) && negb (acked (msg c) i) /\
    acked_count (msg c') = acked_count (msg c) + (if fresh then 1 else 0) /\
    (forall j, 0 <= j -> acked (msg c') j =
       ((j =? i) && (i <? num_fragments (msg c))) || acked (msg c) j).
Proof.
  intros [Hcore Hrw HrN Hfl Hby Hco] Hdel Hi Htot. unfold process_single_ack.
  destruct (Z.leb_spec (num_fragments (msg c)) i) as [Hge|Hlt].
  { exists c, false. rewrite (proj2 (Z.ltb_ge i _)) by done.
    split_and!; try done; [lia|]. intros j Hj. by rewrite andb_false_r. }
  rewrite (proj2 (Z.ltb_lt i _)) by done.
  pose proof (proj2 (proj2 (core_sized _ Hcore))) as Hmax. unfold MAX_FRAGMENTS_PER_MESSAGE in Hmax.
  pose proof (proj1 (core_sized _ Hcore)) as Hmtu. pose proof (core_count_bounds _ Hcore) as Hcb.
  destruct (set16 (acked_bitset (msg c)) i (core_acked_wf _ Hcore) (core_acked_N _ Hcore) ltac:(lia))
    as (_ & _ & Hfresh & _).
  rewrite (surjective_pairing (BitSet.set (acked_bitset (msg c)) i)), Hfresh.
  change (BitSet.get (acked_bitset (msg c)) i) with (acked (msg c) i).
  destruct (acked (msg c) i) eqn:Ea; cbn [negb].
  { exists c, false. split_and!; try done; [lia|]. intros j Hj. rewrite andb_true_r.
    by destruct (Z.eqb_spec j i) as [->|]; rewrite ?Ea. }
  destruct (state_at _ i Hcore ltac:(lia)) as [s Hs].
  destruct (core_with_ack _ i s Hcore Hs Ea) as [Hcore' Hacked'].
  assert (forall r, 0 <= newly_delivered_bytes r <= (acked_count (msg c) + 1) * payload_mtu (msg c) ->
    newly_completed_in_flight_bytes r = 0 ->
    let c' := mkCtx (with_ack (msg c) i s)
      (if sent (msg c) i then (BitSet.set (to_remove c) i).1 else to_remove c)
      (if sent (msg c) i then true else needs_cleanup c) r in
    cinv c' /\ delivered_ok total (msg c') /\ static (msg c) (msg c') /\
    retransmit_queue (msg c') = retransmit_queue (msg c) /\
    last_ack_base (msg c') = last_ack_base (msg c) /\
    dup_ack_count (msg c') = dup_ack_count (msg c) /\ true = true && negb false /\
    acked_count (msg c') = acked_count (msg c) + 1 /\
    (forall j, 0 <= j -> acked (msg c') j = ((j =? i) && true) || acked (msg c) j)) as Hfinal.
  { intros r Hr Hrc c'. split; [by apply cinv_with_ack; [split| | | |]|].
    split; [by apply (delivered_unsend total (msg c))|]. split_and!; try done.
    intros j Hj. rewrite andb_true_r. by apply Hacked'. }
  run_chk. rewrite Hs. run. rewrite upd_ok by (rewrite (core_states _ Hcore); lia). run.
  rewrite (sent_state _ _ _ Hs) in Hfinal. pose proof (core_sent_info _ Hcore i s Hs) as Hsi.
  destruct (delivery_info s) as [info|] eqn:Einfo.
  - pose proof (core_info _ Hcore i s info Hs Einfo) as Hsz.
    pose proof (flen_bounds _ i (core_sized _ Hcore) ltac:(lia)) as Hflen.
    cbn [res set_field]. assert (0 <= newly_delivered_bytes (res c) + size info <=
      (acked_count (msg c) + 1) * payload_mtu (msg c)) as Hnew by (rewrite Hsz; nia).
    assert (newly_delivered_bytes (res c) + size info <= 1025 * 2 ^ 40)
      by (etrans; [apply Hnew|]; apply Z.mul_le_mono_nonneg; lia).
    run_chk. destruct (update_delivery_sample_ok info
      ((res c) <| newly_delivered_bytes := newly_delivered_bytes (res c) + size info |>) total now)
      as (r & Hr & Hr1 & Hr2 & _); [by eapply Hdel|cbn; lia|cbn; unfold usize_max; lia|]. cbn in Hr1, Hr2.
    set (r' := if 0 <? retransmit_count s then r else note_rtt r (since now (first_sent_time info))).
    assert (newly_delivered_bytes r' = newly_delivered_bytes (res c) + size info) as Hr'.
    { unfold r'. destruct (0 <? _); [done|]. by rewrite (proj1 (note_rtt_frame _ _)). }
    assert (newly_completed_in_flight_bytes r' = 0) as Hrc'.
    { unfold r'. destruct (0 <? _); [congruence|]. rewrite (proj1 (proj2 (note_rtt_frame _ _))). congruence. }
    specialize (Hfinal r' ltac:(lia) Hrc'). eexists _, true. split; [|exact Hfinal].
    destruct (bool_decide (is_Some (last_sent s))); [rewrite mark_for_removal_eq by lia|];
      cbn [res set_field]; rewrite Hr; run; done.
  - assert (last_sent s = None) as Hnone.
    { destruct (last_sent s); [|done]. destruct Hsi as [? ?]; [eauto|done]. }
    rewrite Hnone in Hfinal. specialize (Hfinal (res c) ltac:(nia) Hco).
    eexists _, true. split; [reflexivity|exact Hfinal].
Qed.

Lemma process_acks_spec ids now total c any :
  cinv c -> delivered_ok total (msg c) -> 0 <= total <= 2 ^ 62 -> (forall i, i ∈ ids -> 0 <= i) ->
  exists c' any', process_acks c ids now total any = Some (c', any') /\ cinv c' /\
    delivered_ok total (msg c') /\ static (msg c) (msg c') /\
    retransmit_queue (msg c') = retransmit_queue (msg c) /\
    last_ack_base (msg c') = last_ack_base (msg c) /\
    dup_ack_count (msg c') = dup_ack_count (msg c) /\
    (any' = any /\ acked_count (msg c') = acked_count (msg c) \/
     any' = true /\ acked_count (msg c) + 1 <= acked_count (msg c')) /\
    (any' = false -> forall j, 0 <= j -> acked (msg c') j = acked (msg c) j) /\
    (forall j, 0 <= j -> acked (msg c') j =
       (bool_decide (j ∈ ids) && (j <? num_fragments (msg c))) || acked (msg c) j).
Proof.
  intros Hc Hd Ht. revert c any Hc Hd. induction ids as [|i ids IH]; intros c any Hc Hd Hids; cbn [process_acks].
  { exists c, any. split_and!; try done. by left. }
  destruct (process_single_ack_spec c i now total Hc Hd (Hids i ltac:(left)) Ht)
    as (c1 & fresh & -> & Hc1 & Hd1 & Hst1 & Hrq1 & Hlab1 & Hdup1 & Hf1 & Hcnt1 & Ha1). run.
  destruct (IH c1 (any || fresh) Hc1 Hd1) as (c2 & any2 & -> & Hc2 & Hd2 & Hst2 & Hrq2 & Hlab2 & Hdup2 & Hcnt2 & Hsame2 & Ha2).
  { intros j Hj. apply Hids. by right. }
  exists c2, any2. split_and!; [done|done|done|by etrans|congruence|congruence|congruence| | |].
  - destruct fresh, any; cbn in *; naive_solver lia.
  - intros -> j Hj. assert (fresh = false) as -> by (destruct fresh, any; cbn in *; naive_solver).
    rewrite Hsame2, Ha1 by done. destruct (Z.eqb_spec j i) as [->|]; [|done].
    by destruct (i <? _), (acked (msg c) i).
  - intros j Hj. rewrite Ha2, Ha1 by done. pose proof (proj1 (proj2 (proj2 Hst1))) as Hnum. rewrite Hnum.
    rewrite orb_assoc. f_equal. destruct (Z.eqb_spec j i) as [->|Hne]; cbn [andb orb].
    + rewrite (bool_decide_true (i ∈ i :: ids)) by left. cbn [andb].
      by destruct (bool_decide (i ∈ ids)), (i <? num_fragments (msg c)).
    + rewrite orb_false_r. f_equal. apply bool_decide_ext. rewrite elem_of_cons. naive_solver.
Qed.

(** *** Which fragments an acknowledgement names *)

(** The fragments below the base and the set bits of the mask, the index
    arithmetic wrapping at 16 bits as in the source. *)
Definition names (base bitmask i : Z) : Prop :=
  i < base \/ exists k, 0 <= k < 64 /\ Z.testbit bitmask k = true /\ i = wrap 16 (base + 1 + k).

Lemma collect_cumulative_spec acked limit fuel curr acc :
  BitSet.wf acked -> 0 <= curr -> limit <= u16_max -> limit - curr <= Z.of_nat fuel ->
  collect_cumulative fuel acked curr limit acc =
  acc ++ List.filter (fun j => negb (BitSet.get acked j)) (zrange curr limit).
Proof.
  intros Hwf. revert curr acc. induction fuel as [|fuel IH]; intros curr acc Hc Hl Hf; cbn [collect_cumulative].
  - rewrite zrange_nil by lia. by rewrite app_nil_r.
  - rewrite BitSet.next_zero_spec by done. destruct (List.find _ _) as [z|] eqn:E.
    + apply find_zrange_Some in E as (Hz & Hzero & Hbelow). rewrite IH by lia.
      rewrite wrap_small by (unfold in_u, u16_max in *; lia).
      rewrite (zrange_app curr z limit), List.filter_app, (zrange_cons z limit) by lia.
      rewrite (List.filter_ext_in _ (fun _ => false) (zrange curr z)), List.filter_false.
      2: { intros j Hj%list_elem_of_In%elem_of_zrange. by apply Hbelow. }
      cbn [List.filter app]. by rewrite Hzero, <- app_assoc.
    + rewrite (List.filter_ext_in _ (fun _ => false)), List.filter_false; [by rewrite app_nil_r|].
      intros j Hj%list_elem_of_In. rewrite find_None_forall in E. by apply E.
Qed.

Lemma wrap16_offset base k : 0 <= k < 64 -> wrap 16 (wrap 16 (base + 1) + wrap 16 k) = wrap 16 (base + 1 + k).
Proof. intros Hk. unfold wrap. by rewrite <- Z.add_mod by lia. Qed.

Lemma collect_selective_elem acked num base fuel mask acc i :
  in_u 64 mask -> count_if (Z.testbit mask) (zrange 0 64) <= Z.of_nat fuel ->
  i ∈ collect_selective fuel acked num base mask acc <->
  i ∈ acc \/ (i < num /\ BitSet.get acked i = false /\
             exists k, 0 <= k < 64 /\ Z.testbit mask k = true /\ i = wrap 16 (base + 1 + k)).
Proof.
  revert mask acc. induction fuel as [|fuel IH]; intros mask acc Hm Hf; cbn [collect_selective].
  - assert (forall k, 0 <= k < 64 -> Z.testbit mask k = false) as Hz.
    { intros k Hk. destruct (Z.testbit mask k) eqn:E; [|done].
      rewrite (zrange_app 0 k 64), (zrange_cons k 64), count_if_app, count_if_cons, E in Hf by lia.
      pose proof (count_if_bounds (Z.testbit mask) (zrange 0 k)).
      pose proof (count_if_bounds (Z.testbit mask) (zrange (k + 1) 64)). lia. }
    split; [auto|]. intros [?|(_ & _ & k & Hk & E & _)]; [done|]. by rewrite Hz in E.
  - destruct (Z.eqb_spec mask 0) as [->|Hne].
    { split; [auto|]. intros [?|(_ & _ & k & Hk & E & _)]; [done|]. by rewrite Z.testbit_0_l in E. }
    destruct (U64.trailing_zeros_spec mask Hm Hne) as (Hr & Hset & Hbelow).
    set (b := U64.trailing_zeros mask) in *. rewrite wrap16_offset by lia.
    set (mask' := Z.land mask (U64.not (U64.shl 1 b))).
    assert (forall k, 0 <= k < 64 -> Z.testbit mask' k = negb (k =? b) && Z.testbit mask k) as Hbit.
    { intros k Hk. unfold mask'. rewrite U64.shl_one, Z.land_spec, U64.testbit_not, U64.testbit_pow2 by lia.
      rewrite (proj2 (Z.ltb_lt k 64)) by lia. apply andb_comm. }
    assert (in_u 64 mask') as Hm' by (by apply U64.in_u_land).
    assert (count_if (Z.testbit mask') (zrange 0 64) <= Z.of_nat fuel) as Hf'.
    { rewrite (count_if_zrange_flip (Z.testbit mask') (Z.testbit mask) 0 64 b) in Hf; [lia|lia| |done|].
      - rewrite Hbit, Z.eqb_refl by lia. done.
      - intros j Hj Hjb. by rewrite Hbit, (proj2 (Z.eqb_neq j b)) by lia. }
    rewrite IH by done. set (x := wrap 16 (base + 1 + b)).
    assert (i ∈ (if (x <? num) && negb (BitSet.get acked x) then acc ++ [x] else acc) <->
      i ∈ acc \/ (i = x /\ i < num /\ BitSet.get acked i = false)) as Hacc.
    { destruct (Z.ltb_spec x num), (BitSet.get acked x) eqn:Ex; cbn [andb negb];
        rewrite ?elem_of_app, ?list_elem_of_singleton; naive_solver (lia || congruence). }
    rewrite Hacc. split.
    + intros [[?|(-> & ? & ?)]|(? & ? & k & Hk & E & ->)]; [by left|right; eauto 8|].
      rewrite Hbit in E by done. apply andb_true_iff in E as [_ E]. right. eauto 8.
    + intros [?|(? & ? & k & Hk & E & ->)]; [by left; left|].
      destruct (decide (k = b)) as [->|Hkb]; [left; right; done|right].
      split_and!; [done|done|]. exists k. split_and!; [lia|lia| |done].
      rewrite Hbit by done. by rewrite (proj2 (Z.eqb_neq k b)).
Qed.

Lemma collect_acked_indices_spec m base bitmask :
  core m -> cumulative m -> 0 <= base <= u16_max -> in_u 64 bitmask ->
  exists ids, collect_acked_indices m base bitmask =
    (m <| highest_cumulative_ack := Z.max (highest_cumulative_ack m) base |>, ids) /\
    (forall i, i ∈ ids -> 0 <= i) /\
    (forall j, 0 <= j < num_fragments m -> (j ∈ ids \/ acked m j = true) <-> (names base bitmask j \/ acked m j = true)).
Proof.
  intros H Hcum Hb Hm. unfold collect_acked_indices. eexists. split; [done|].
  pose proof (core_hca m H) as Hh. pose proof (proj2 (proj2 (core_sized m H))) as Hmax.
  unfold MAX_FRAGMENTS_PER_MESSAGE in Hmax.
  rewrite collect_cumulative_spec by (apply (core_acked_wf m H) || lia). cbn [app].
  assert (forall i, i ∈ collect_selective 64
     (acked_bitset (m <| highest_cumulative_ack := Z.max (highest_cumulative_ack m) base |>))
     (num_fragments (m <| highest_cumulative_ack := Z.max (highest_cumulative_ack m) base |>)) base bitmask
     (List.filter (fun j => negb (BitSet.get (acked_bitset m) j))
       (zrange (highest_cumulative_ack m) (Z.min base (num_fragments m)))) <->
     (highest_cumulative_ack m <= i < Z.min base (num_fragments m) /\ acked m i = false) \/
     (i < num_fragments m /\ acked m i = false /\
        exists k, 0 <= k < 64 /\ Z.testbit bitmask k = true /\ i = wrap 16 (base + 1 + k))) as Hel.
  { intros i. rewrite collect_selective_elem.
    - rewrite list_elem_of_In, List.filter_In, <- list_elem_of_In, elem_of_zrange, negb_true_iff. done.
    - done.
    - pose proof (count_if_bounds (Z.testbit bitmask) (zrange 0 64)). rewrite len_zrange in *; lia. }
  split.
  - intros i [[? _]|(_ & _ & k & _ & _ & ->)]%Hel; [lia|]. apply wrap_range. lia.
  - intros j Hj. rewrite Hel. unfold names. destruct (acked m j) eqn:E; [tauto|]. split.
    + intros [[[? _]|(_ & _ & ?)]|?]; [left; left; lia|by left; right|done].
    + intros [[Hlt|?]|?]; [|left; right; split_and!; done || lia|done]. left. left. split; [|done]. split; [|lia].
      destruct (Z.lt_ge_cases j (highest_cumulative_ack m)) as [Hlt'|]; [|done].
      rewrite Hcum in E by lia. done.
Qed.

(** *** Losses *)

(** What loss detection leaves alone. *)
Definition loss_frame (c c' : ctx) : Prop :=
  static (msg c) (msg c') /\ acked_bitset (msg c') = acked_bitset (msg c) /\
  acked_count (msg c') = acked_count (msg c) /\
  newly_delivered_bytes (res c') = newly_delivered_bytes (res c).

#[global] Instance loss_frame_preorder : PreOrder loss_frame.
Proof.
  split; [by intros c|]. intros c1 c2 c3 (S1 & A1 & B1 & C1) (S2 & A2 & B2 & C2).
  split_and!; [by etrans|congruence..].
Qed.

(** The message once fragment [i] is queued for retransmission. *)
Definition with_loss (m : t) (i : Z) (s : FragmentState) : t :=
  (unsend m i s) <| retransmit_queue := retransmit_queue m ++ [i] |>
    <| retransmit_bitset := (BitSet.set (retransmit_bitset m) i).1 |>.

Lemma core_with_loss m i s :
  core m -> idx (fragment_states m) i = Some s -> BitSet.get (retransmit_bitset m) i = false ->
  core (with_loss m i s).
Proof.
  intros H Hs Hr. pose proof (idx_lt _ _ _ Hs) as Hi. rewrite (core_states m H) in Hi.
  pose proof (proj2 (proj2 (core_sized m H))) as Hmax. unfold MAX_FRAGMENTS_PER_MESSAGE in Hmax.
  destruct (set16 (retransmit_bitset m) i (core_rb_wf m H) (core_rb_N m H) ltac:(lia)) as (B1 & B2 & _ & B3).
  rewrite (core_rb m H) in Hr by lia. apply bool_decide_eq_false in Hr.
  pose proof (core_unsend m i s H Hs) as []. constructor; try assumption.
  - intros j Hj. cbn -[BitSet.get BitSet.set]. rewrite B3, (core_rb m H) by done.
    rewrite (bool_decide_ext (j ∈ retransmit_queue m ++ [i]) (j = i \/ j ∈ retransmit_queue m))
      by (rewrite elem_of_app, list_elem_of_singleton; tauto).
    rewrite bool_decide_or. f_equal. by destruct (Z.eqb_spec j i) as [->|]; [rewrite bool_decide_true|rewrite bool_decide_false].
  - cbn. intros j [Hj| ->%list_elem_of_singleton]%elem_of_app; [by apply (core_rq m H)|done].
  - cbn. apply NoDup_app. split_and!; [apply (core_rq_nodup m H)| |apply NoDup_singleton].
    by intros x Hx ->%list_elem_of_singleton.
Qed.

Lemma trigger_loss_spec c i total :
  cinv c -> delivered_ok total (msg c) -> 0 <= i < num_fragments (msg c) ->
  BitSet.get (retransmit_bitset (msg c)) i = false ->
  exists c', trigger_loss c i = Some c' /\ cinv c' /\ delivered_ok total (msg c') /\ loss_frame c c' /\
    retransmit_queue (msg c') = retransmit_queue (msg c) ++ [i].
Proof.
  intros [Hcore Hrw HrN Hfl Hby Hco] Hd Hi Hr. unfold trigger_loss.
  destruct (state_at _ i Hcore Hi) as [s Hs]. rewrite Hs. run.
  rewrite upd_ok by (by rewrite (core_states _ Hcore)). run.
  pose proof (proj2 (proj2 (core_sized _ Hcore))) as Hmax. unfold MAX_FRAGMENTS_PER_MESSAGE in Hmax.
  destruct (set16 (to_remove c) i Hrw HrN ltac:(lia)) as (B1 & B2 & _ & _).
  exists (mkCtx (with_loss (msg c) i s)
    (if sent (msg c) i then (BitSet.set (to_remove c) i).1 else to_remove c)
    (if sent (msg c) i then true else needs_cleanup c) ((res c) <| loss_detected := true |>)).
  split; [|split; [|split; [|split]]].
  - rewrite (sent_state _ _ _ Hs). destruct (last_sent s); [rewrite mark_for_removal_eq by lia|]; done.
  - constructor; cbn [msg to_remove needs_cleanup].
    + by apply core_with_loss.
    + by destruct (sent (msg c) i).
    + by destruct (sent (msg c) i).
    + apply flight_take; [done..|lia|]. intros j Hj. by apply (sent_unsend (msg c)).
    + exact Hby.
    + exact Hco.
  - by apply (delivered_unsend total (msg c)).
  - done.
  - done.
Qed.

Lemma handle_fast_retransmit_spec c base total :
  cinv c -> delivered_ok total (msg c) -> 0 <= base -> dup_ack_count (msg c) + 1 <= acked_count (msg c) ->
  exists c', handle_fast_retransmit c base = Some c' /\ cinv c' /\ delivered_ok total (msg c') /\ loss_frame c c'.
Proof.
  intros Hc Hd Hb Hdup. pose proof Hc as [Hcore Hrw HrN Hfl Hby Hco]. unfold handle_fast_retransmit.
  destruct (base =? last_ack_base (msg c)), (Z.ltb_spec base (num_fragments (msg c))) as [Hlt|]; cbn [andb];
    try (exists c; split_and!; done).
  pose proof (proj2 (proj2 (core_sized _ Hcore))) as Hmax. unfold MAX_FRAGMENTS_PER_MESSAGE in Hmax.
  pose proof (core_dup _ Hcore). pose proof (core_count_bounds _ Hcore). run_chk.
  set (c1 := c <| msg := _ |>).
  assert (cinv c1) as Hc1.
  { constructor; [|done..]. destruct Hcore. constructor; try assumption. cbn. lia. }
  assert (loss_frame c c1) as Hf1 by done. assert (delivered_ok total (msg c1)) as Hd1 by done.
  destruct (_ && _ && _) eqn:E; [|by exists c1].
  apply andb_true_iff in E as [_ E%negb_true_iff].
  destruct (state_at _ base Hcore ltac:(lia)) as [s Hs]. cbn [fragment_states set_field]. rewrite Hs. run.
  destruct (match last_sent s with Some _ => _ | None => _ end); [|by exists c1].
  destruct (trigger_loss_spec c1 base total Hc1 Hd1 ltac:(done) E) as (c2 & -> & Hc2 & Hd2 & Hf2 & _).
  exists c2. split_and!; [done|done|done|by etrans].
Qed.

(** The loop over the holes never underflows: [acked_so_far] counts the
    acknowledged fragments below the current index. *)
Lemma holes_loop_spec total max_ls limit n i c :
  Z.to_nat (limit - i) = n -> cinv c -> delivered_ok total (msg c) -> 0 <= i -> limit <= num_fragments (msg c) ->
  exists c', holes_loop c (zrange i limit) max_ls (acked_count (msg c))
               (count_if (acked (msg c)) (zrange 0 i)) = Some c' /\
    cinv c' /\ delivered_ok total (msg c') /\ loss_frame c c' /\
    (forall x, x ∈ retransmit_queue (msg c') -> x ∈ retransmit_queue (msg c) \/ acked (msg c) x = false).
Proof.
  revert i c. induction n as [|n IH]; intros i c Hn Hc Hd Hi Hl.
  { rewrite zrange_nil by lia. exists c. split_and!; try done. auto. }
  pose proof (ci_core _ Hc) as Hcore. pose proof (core_count _ Hcore) as Hcnt.
  pose proof (proj2 (proj2 (core_sized _ Hcore))) as Hmax. unfold MAX_FRAGMENTS_PER_MESSAGE in Hmax.
  assert (count_if (acked (msg c)) (zrange 0 (i + 1)) =
    count_if (acked (msg c)) (zrange 0 i) + (if acked (msg c) i then 1 else 0)) as Hnext.
  { rewrite (zrange_app 0 i (i + 1)), (zrange_cons i), (zrange_nil (i + 1)), count_if_app, count_if_cons by lia.
    rewrite count_if_nil. lia. }
  pose proof (count_if_bounds (acked (msg c)) (zrange 0 i)) as Hb0. rewrite len_zrange in Hb0 by lia.
  assert (count_if (acked (msg c)) (zrange 0 i) <= acked_count (msg c)) as Hle.
  { rewrite Hcnt, (zrange_app 0 i (num_fragments (msg c))), count_if_app by lia.
    pose proof (count_if_bounds (acked (msg c)) (zrange i (num_fragments (msg c)))). lia. }
  rewrite zrange_cons by lia. cbn [holes_loop].
  change (BitSet.get (acked_bitset (msg c)) i) with (acked (msg c) i).
  destruct (acked (msg c) i) eqn:Ea.
  { run_chk. rewrite <- Hnext. apply IH; [lia|done|done|lia|done]. }
  rewrite Z.add_0_r in Hnext. rewrite <- Hnext.
  assert (exists c', holes_loop c (zrange (i + 1) limit) max_ls (acked_count (msg c))
    (count_if (acked (msg c)) (zrange 0 (i + 1))) = Some c' /\
    cinv c' /\ delivered_ok total (msg c') /\ loss_frame c c' /\
    (forall x, x ∈ retransmit_queue (msg c') -> x ∈ retransmit_queue (msg c) \/ acked (msg c) x = false)) as Hskip.
  { apply IH; [lia|done|done|lia|done]. }
  destruct (BitSet.get (retransmit_bitset (msg c)) i) eqn:Er; cbn [negb]; [done|].
  pose proof (core_count_bounds _ Hcore). run_chk.
  destruct (3 <=? _); [|done].
  destruct (state_at _ i Hcore ltac:(lia)) as [st Hst]. rewrite Hst. run.
  destruct (match last_sent st with Some _ => _ | None => _ end); run; [|done].
  rewrite wrap_small by (unfold in_u; lia).
  destruct (trigger_loss_spec c i total Hc Hd ltac:(lia) Er) as (c1 & -> & Hc1 & Hd1 & Hf1 & Hq1). run.
  pose proof Hf1 as (Hs1 & Ha1 & Hn1 & _). pose proof (proj1 (proj2 (proj2 Hs1))) as Hnum1.
  assert (forall x, acked (msg c1) x = acked (msg c) x) as Hacked by (intros x; unfold acked; by rewrite Ha1).
  destruct (IH (i + 1) c1) as (c2 & Heq & Hc2 & Hd2 & Hf2 & Hq2); [lia|done|done|lia|by rewrite Hnum1|].
  rewrite (count_if_ext _ (acked (msg c))), Hn1 in Heq by (intros; apply Hacked).
  rewrite Heq. exists c2. split_and!; [done|done|done|by etrans|].
  intros x Hx. apply Hq2 in Hx as [Hx|Hx]; [|right; by rewrite <- Hacked].
  rewrite Hq1 in Hx. apply elem_of_app in Hx as [Hx| ->%list_elem_of_singleton]; auto.
Qed.

Lemma detect_losses_spec c total :
  cinv c -> cumulative (msg c) -> delivered_ok total (msg c) ->
  exists c', detect_losses_from_holes c = Some c' /\ cinv c' /\ delivered_ok total (msg c') /\ loss_frame c c' /\
    (forall x, x ∈ retransmit_queue (msg c') -> x ∈ retransmit_queue (msg c) \/ acked (msg c) x = false).
Proof.
  intros Hc Hcum Hd. pose proof (ci_core _ Hc) as Hcore. unfold detect_losses_from_holes.
  pose proof (core_hca _ Hcore) as Hh. pose proof (proj2 (proj2 (core_sized _ Hcore))) as Hmax.
  pose proof (BitSet.last_one_spec (acked_bitset (msg c)) (num_fragments (msg c)) (core_acked_wf _ Hcore) ltac:(lia)) as Hlast.
  set (limit := match BitSet.last_one _ _ with Some i => i + 1 | None => 0 end).
  assert (limit <= num_fragments (msg c)) as Hlim.
  { unfold limit. destruct (BitSet.last_one _ _); lia. }
  destruct (Z.lt_ge_cases (highest_cumulative_ack (msg c)) limit) as [Hlt|Hge].
  - assert (count_if (acked (msg c)) (zrange 0 (highest_cumulative_ack (msg c))) = highest_cumulative_ack (msg c)) as Hcount.
    { transitivity (len (zrange 0 (highest_cumulative_ack (msg c)))); [|rewrite len_zrange; lia].
      apply count_if_all. intros x Hx%elem_of_zrange. apply Hcum; lia. }
    destruct (holes_loop_spec total (highest_sent_time_acked (msg c)) limit _ (highest_cumulative_ack (msg c)) c eq_refl Hc Hd
      ltac:(lia) Hlim) as (c' & Heq & Hrest). rewrite Hcount in Heq. exists c'. by split.
  - rewrite zrange_nil by done. exists c. split_and!; try done. auto.
Qed.

(** *** Cleaning the queue of fragments in flight *)

Lemma cleanup_loop_spec m remove q counted removed :
  sized m -> BitSet.wf counted -> BitSet.N counted = Z.of_nat BITSET_WORDS ->
  (forall i a, (i, a) ∈ q -> 0 <= i < num_fragments m) ->
  let todo := fun q counted i => BitSet.get remove i && in_queue q i && negb (BitSet.get counted i) in
  let amount := fun q counted => zsum (fun i => if todo q counted i then flen m i else 0) (zrange 0 (num_fragments m)) in
  0 <= removed -> removed + amount q counted <= usize_max ->
  cleanup_loop m remove q counted removed =
  Some (List.filter (fun p => negb (BitSet.get remove p.1)) q, removed + amount q counted).
Proof.
  intros Hsz Hwf HN Hq todo amount H0 Hmax. revert counted removed Hwf HN H0 Hmax.
  assert (forall q c, 0 <= amount q c) as Hpos.
  { intros q' c'. apply zsum_nonneg. intros x Hx%elem_of_zrange. destruct (todo q' c' x); [|lia].
    pose proof (flen_bounds m x Hsz Hx). lia. }
  pose proof (proj2 (proj2 Hsz)) as Hn. unfold MAX_FRAGMENTS_PER_MESSAGE in Hn.
  induction q as [|[i a] q IH]; intros counted removed Hwf HN H0 Hmax; cbn [cleanup_loop List.filter].
  { assert (amount [] counted = 0) as Hz.
    { unfold amount, todo. cbn. rewrite (zsum_ext _ (fun _ => 0)).
      - apply zsum_zero.
      - intros x _. by rewrite andb_false_r. }
    rewrite Hz. do 2 f_equal. lia. }
  assert (0 <= i < num_fragments m) as Hi by (apply (Hq i a); left).
  assert (forall j b, (j, b) ∈ q -> 0 <= j < num_fragments m) as Hq' by (intros j b Hj; apply (Hq j b); by right).
  assert (forall x, in_queue ((i, a) :: q) x = (i =? x) || in_queue q x) as Hin by done.
  cbn [fst]. destruct (BitSet.get remove i) eqn:Er; cbn [negb].
  - rewrite (proj2 (Z.ltb_lt i _)) by lia.
    destruct (set16 counted i Hwf HN ltac:(lia)) as (B1 & B2 & B3 & B4).
    rewrite (surjective_pairing (BitSet.set counted i)), B3.
    destruct (BitSet.get counted i) eqn:Ec; cbn [negb]; run.
    + assert (amount ((i, a) :: q) (BitSet.set counted i).1 = amount q (BitSet.set counted i).1 /\
              amount ((i, a) :: q) counted = amount q (BitSet.set counted i).1) as [_ Heq].
      { split; apply zsum_ext; intros x Hx%elem_of_zrange; unfold todo; rewrite Hin, ?B4 by lia;
          destruct (Z.eqb_spec i x) as [->|]; rewrite ?Z.eqb_refl, ?Ec, ?(proj2 (Z.eqb_neq x i)) by lia;
          cbn; rewrite ?andb_false_r; done. }
      rewrite Heq in *. by rewrite IH.
    + rewrite fragment_bounds_ok by done. run. pose proof (flen_bounds m i Hsz Hi) as Hfl.
      replace (i * payload_mtu m + flen m i - i * payload_mtu m) with (flen m i) by lia.
      assert (amount ((i, a) :: q) counted = amount q (BitSet.set counted i).1 + flen m i) as Heq.
      { unfold amount. rewrite (zsum_update (fun x => if todo q (BitSet.set counted i).1 x then flen m x else 0) _ 0 _ i).
        - unfold todo at 2 3. rewrite B4, Hin, Z.eqb_refl, Er, Ec by lia. cbn. rewrite ?andb_false_r. lia.
        - lia.
        - intros x Hx Hne. unfold todo. rewrite B4, Hin by lia.
          by rewrite (proj2 (Z.eqb_neq x i)), (proj2 (Z.eqb_neq i x)) by lia. }
      pose proof (Hpos q (BitSet.set counted i).1). destruct Hsz as (Hmtu & _ & _).
      do 2 run_chk. rewrite IH; [|done|done|done|lia|lia]. do 2 f_equal. lia.
  - assert (amount ((i, a) :: q) counted = amount q counted) as Heq.
    { apply zsum_ext. intros x Hx. unfold todo. rewrite Hin.
      by destruct (Z.eqb_spec i x) as [->|]; [rewrite Er|]. }
    rewrite Heq in *. by rewrite IH.
Qed.

(** *** Dropping acknowledged fragments from the retransmission queue *)

Lemma fold_set16 q s :
  BitSet.wf s -> BitSet.N s = Z.of_nat BITSET_WORDS -> (forall i, i ∈ q -> 0 <= i < 1024) ->
  let s' := foldl (fun s i => (BitSet.set s i).1) s q in
  BitSet.wf s' /\ BitSet.N s' = Z.of_nat BITSET_WORDS /\
  (forall j, 0 <= j -> BitSet.get s' j = bool_decide (j ∈ q) || BitSet.get s j).
Proof.
  revert s. induction q as [|i q IH]; intros s Hwf HN Hq; cbn [foldl].
  { split_and!; [done..|]. intros j _. by rewrite bool_decide_false by apply not_elem_of_nil. }
  destruct (set16 s i Hwf HN) as (B1 & B2 & _ & B3); [apply Hq; left|].
  destruct (IH _ B1 B2) as (C1 & C2 & C3); [intros j Hj; apply Hq; by right|].
  split_and!; [done..|]. intros j Hj. rewrite C3, B3, orb_assoc by done. f_equal.
  rewrite (bool_decide_ext (j ∈ i :: q) (j ∈ q \/ j = i)) by (rewrite elem_of_cons; tauto).
  rewrite bool_decide_or. f_equal. by destruct (Z.eqb_spec j i) as [->|]; [rewrite bool_decide_true|rewrite bool_decide_false].
Qed.

Lemma purge_retransmit_spec m :
  core m -> core (purge_retransmit m) /\ rq_unacked (purge_retransmit m).
Proof.
  intros H. pose proof (proj2 (proj2 (core_sized m H))) as Hmax. unfold MAX_FRAGMENTS_PER_MESSAGE in Hmax.
  set (q := retransmit_queue (purge_retransmit m)).
  assert (forall i, i ∈ q <-> i ∈ retransmit_queue m /\ acked m i = false) as Hq.
  { intros i. unfold q, purge_retransmit. cbn.
    rewrite list_elem_of_In, List.filter_In, <- list_elem_of_In. unfold acked. split; intros [Hi E]; (split; [done|]).
    - destruct (_ <=? _); [done|by apply negb_true_iff].
    - apply (core_rq m H) in Hi. by rewrite (proj2 (Z.leb_gt _ _)), E by lia. }
  destruct (BitSet.clear_spec (retransmit_bitset m)) as (K1 & K2 & K3).
  destruct (fold_set16 q (BitSet.clear (retransmit_bitset m)) K1) as (B1 & B2 & B3).
  { by rewrite K2, (core_rb_N m H). }
  { intros i [Hi _]%Hq. apply (core_rq m H) in Hi. lia. }
  split; [|by intros i [_ Hi]%Hq].
  pose proof H as []. constructor; try assumption.
  - intros i Hi. etrans; [by apply B3|]. rewrite K3 by done. apply orb_false_r.
  - intros i [Hi _]%Hq. by apply (core_rq m H).
  - apply NoDup_ListNoDup, List.NoDup_filter, NoDup_ListNoDup. done.
Qed.

(** *** The whole acknowledgement *)

Lemma amount_split m m' q remove :
  (forall i, 0 <= i -> in_queue q i = sent m i) ->
  (forall i, 0 <= i -> in_queue q i = sent m' i || BitSet.get remove i) ->
  (forall i, 0 <= i -> sent m' i = true -> BitSet.get remove i = false) ->
  data m' = data m -> payload_mtu m' = payload_mtu m -> num_fragments m' = num_fragments m ->
  flight_bytes m' + zsum (fun i => if BitSet.get remove i && in_queue q i && negb (BitSet.get (BitSet.new BITSET_WORDS) i)
                                   then flen m' i else 0) (zrange 0 (num_fragments m')) = flight_bytes m.
Proof.
  intros H1 H2 H3 Hd Hp Hn. unfold flight_bytes. rewrite Hn, <- zsum_add. apply zsum_ext.
  intros i Hi%elem_of_zrange. rewrite <- (H1 i), H2 by lia.
  rewrite (proj2 (proj2 (BitSet.new_spec BITSET_WORDS)) i) by lia. unfold flen. rewrite Hd, Hp.
  specialize (H3 i ltac:(lia)). destruct (sent m' i), (BitSet.get remove i); cbn; lia.
Qed.

(** The outcome of [on_ack]: which fragments are acknowledged, and how the bytes
    in flight change. *)
Record acknowledged (m m' : t) (r : AckResult) (base bitmask : Z) : Prop := {
  ak_wf : wf m';
  ak_frame : data m' = data m /\ payload_mtu m' = payload_mtu m /\ num_fragments m' = num_fragments m /\
             next_fragment m' = next_fragment m;
  ak_set i : 0 <= i < num_fragments m -> acked m' i = true <-> names base bitmask i \/ acked m i = true;
  ak_flight : flight_bytes m' + newly_completed_in_flight_bytes r = flight_bytes m;
  ak_completed : 0 <= newly_completed_in_flight_bytes r
}.

(** The bytes [cleanup_in_flight_queue] takes out of the queue. *)
Definition removed_bytes (c : ctx) : Z :=
  zsum (fun i => if BitSet.get (to_remove c) i && in_queue (in_flight_queue (msg c)) i &&
                    negb (BitSet.get (BitSet.new BITSET_WORDS) i)
                 then flen (msg c) i else 0) (zrange 0 (num_fragments (msg c))).

Lemma removed_bytes_bounds c : core (msg c) -> 0 <= removed_bytes c <= 1024 * 2 ^ 40.
Proof.
  intros H. pose proof (core_sized _ H) as Hs. pose proof Hs as (Hm & _ & Hn).
  assert (forall i, i ∈ zrange 0 (num_fragments (msg c)) -> 0 <= flen (msg c) i <= 2 ^ 40) as Hb.
  { intros i Hi%elem_of_zrange. pose proof (flen_bounds _ i Hs Hi). lia. }
  split.
  - apply zsum_nonneg. intros i Hi%Hb. destruct (_ && _); lia.
  - etrans; [apply (zsum_le _ (2 ^ 40))|rewrite len_zrange by lia; unfold MAX_FRAGMENTS_PER_MESSAGE in *; nia].
    intros i Hi%Hb. destruct (_ && _); lia.
Qed.

Lemma in_queue_filter (f : Z -> bool) q i :
  in_queue (List.filter (fun p => f p.1) q) i = f i && in_queue q i.
Proof.
  induction q as [|[j a] q IH]; cbn [List.filter]; [by rewrite andb_false_r|].
  change (in_queue ((j, a) :: q) i) with ((j =? i) || in_queue q i). cbn [fst].
  destruct (f j) eqn:E.
  - change (in_queue ((j, a) :: List.filter (fun p => f p.1) q) i) with
      ((j =? i) || in_queue (List.filter (fun p => f p.1) q) i). rewrite IH.
    destruct (Z.eqb_spec j i) as [->|]; [by rewrite E|done].
  - rewrite IH. destruct (Z.eqb_spec j i) as [->|]; [by rewrite E|done].
Qed.

Lemma cleanup_in_flight_queue_spec c :
  cinv c -> exists q, cleanup_in_flight_queue (msg c) (to_remove c) =
      Some ((msg c) <| in_flight_queue := q |>, removed_bytes c) /\
    (forall i, 0 <= i -> in_queue q i = sent (msg c) i) /\ q ⊆ in_flight_queue (msg c).
Proof.
  intros [Hcore Hrw HrN (F1 & F2 & F3) Hby Hco]. unfold cleanup_in_flight_queue.
  destruct (BitSet.new_spec BITSET_WORDS) as (N1 & N2 & _). pose proof (removed_bytes_bounds c Hcore) as Hb.
  rewrite cleanup_loop_spec; [|apply Hcore|done|done|by apply (core_queue _ Hcore)|done|].
  2: { fold (removed_bytes c). unfold usize_max. lia. }
  run. eexists. split; [done|]. split.
  - intros i Hi. rewrite (in_queue_filter (fun j => negb (BitSet.get (to_remove c) j))), F1 by done.
    specialize (F2 i Hi). destruct (sent (msg c) i), (BitSet.get (to_remove c) i); cbn; auto; symmetry; by apply F2.
  - intros p. rewrite list_elem_of_In, List.filter_In, <- list_elem_of_In. by intros [? _].
Qed.

Lemma core_queue_subset m q : core m -> q ⊆ in_flight_queue m -> core (m <| in_flight_queue := q |>).
Proof. intros H Hq. pose proof H as []. constructor; try assumption. intros i a Hi. by eapply (core_queue m H), Hq. Qed.

(** The last step of [on_ack]. *)
Lemma on_ack_finish c :
  cinv c -> cumulative (msg c) -> rq_unacked (msg c) ->
  exists m' r,
    (if needs_cleanup c then
       '(m, removed) ← cleanup_in_flight_queue (msg c) (to_remove c);
       Some (m, (res c) <| newly_completed_in_flight_bytes := removed |>)
     else Some (msg c, res c)) = Some (m', r) /\
    wf m' /\ m' = (msg c) <| in_flight_queue := in_flight_queue m' |> /\
    newly_completed_in_flight_bytes r = removed_bytes c /\
    newly_delivered_bytes r = newly_delivered_bytes (res c).
Proof.
  intros Hc Hcum Hrq. pose proof Hc as [Hcore Hrw HrN (F1 & F2 & F3) Hby Hco].
  destruct (needs_cleanup c).
  - destruct (cleanup_in_flight_queue_spec c Hc) as (q & -> & Hq & Hsub). run.
    eexists _, _. split; [done|]. split_and!; try done. split; [by apply core_queue_subset|done].
  - eexists _, _. split; [done|]. specialize (F3 eq_refl). split_and!; try done.
    + split_and!; try done. intros i Hi. rewrite F1, F3 by done. apply orb_false_r.
    + by destruct (msg c).
    + rewrite Hco. unfold removed_bytes. rewrite (zsum_ext _ (fun _ => 0)).
      * symmetry. apply zsum_zero.
      * intros i Hi%elem_of_zrange. by rewrite F3 by lia.
Qed.

(** The middle of [on_ack]: the duplicate-acknowledgement bookkeeping. *)
Lemma on_ack_base c base now any total :
  cinv c -> delivered_ok total (msg c) -> 0 <= base ->
  (any = true -> dup_ack_count (msg c) + 1 <= acked_count (msg c)) ->
  exists c', (if last_ack_base (msg c) <? base
       then Some (c <| msg := (msg c) <| last_ack_base := base |> <| dup_ack_count := 0 |>
                                      <| last_ack_at := now |> |>)
       else if (any : bool)
       then c ← handle_fast_retransmit c base;
            Some (c <| msg := (msg c) <| last_ack_at := now |> |>)
       else Some c) = Some c' /\ cinv c' /\ delivered_ok total (msg c') /\ loss_frame c c' /\
    (any = false -> retransmit_queue (msg c') = retransmit_queue (msg c)).
Proof.
  intros Hc Hd Hb Hdup. destruct (_ <? base).
  - eexists. split; [done|]. split_and!; try done. destruct Hc as [Hcore]. constructor; try assumption.
    pose proof (core_count_bounds _ Hcore). destruct Hcore. constructor; try assumption. cbn. lia.
  - destruct any.
    + destruct (handle_fast_retransmit_spec c base total Hc Hd Hb (Hdup eq_refl)) as (c1 & -> & Hc1 & Hd1 & Hf1).
      run. eexists. split; [done|]. split_and!; try done. destruct Hc1 as [Hcore1]. constructor; try assumption.
      core_same.
    + eexists. by split_and!.
Qed.

(** The context [on_ack] starts from. *)
Lemma cinv_start m base now :
  core m -> flight_ok m -> 0 <= base <= u16_max ->
  cinv (mkCtx (m <| last_ack_at := now |>
                 <| highest_cumulative_ack := Z.max (highest_cumulative_ack (m <| last_ack_at := now |>)) base |>)
              (BitSet.new BITSET_WORDS) false (mkAckResult 0 0 None None false None)).
Proof.
  intros Hcore Hfl Hb. destruct (BitSet.new_spec BITSET_WORDS) as (N1 & N2 & N3). constructor; try done.
  - pose proof Hcore as []. constructor; try assumption. cbn in *. lia.
  - split_and!; [|by intros; apply N3..]. intros i Hi. cbn [msg to_remove].
    rewrite (N3 i Hi), orb_false_r. by apply Hfl.
  - cbn. pose proof (core_count_bounds _ Hcore). pose proof (proj1 (core_sized _ Hcore)). nia.
Qed.

Lemma on_ack_spec m base bitmask now total :
  wf m -> delivered_ok total m -> 0 <= total <= 2 ^ 62 -> 0 <= base <= u16_max -> in_u 64 bitmask ->
  exists m' r, on_ack m base bitmask now total = Some (m', r) /\
    acknowledged m m' r base bitmask /\ delivered_ok total m' /\
    0 <= newly_delivered_bytes r <= num_fragments m * payload_mtu m.
Proof.
  intros (Hcore & Hcum & Hfl & Hrq) Hd Ht Hb Hm. unfold on_ack.
  set (m0 := m <| last_ack_at := now |>). assert (core m0) as H0 by core_same.
  destruct (collect_acked_indices_spec m0 base bitmask H0 Hcum Hb Hm) as (ids & -> & Hpos & Hids).
  set (c0 := mkCtx _ _ _ _). assert (cinv c0) as Hc0 by (by apply cinv_start).
  destruct (process_acks_spec ids now total c0 false Hc0 Hd Ht Hpos)
    as (c1 & any & -> & Hc1 & Hd1 & Hs1 & Hrq1 & _ & Hdup1 & Hany & Hsame & Ha1). run.
  assert (any = true -> dup_ack_count (msg c1) + 1 <= acked_count (msg c1)) as Hdup.
  { pose proof (core_dup _ Hcore). intros ->. destruct Hany as [[? _]|[_ ?]]; [done|]. cbn in *. lia. }
  destruct (on_ack_base c1 base now any total Hc1 Hd1 ltac:(lia) Hdup) as (c2 & -> & Hc2 & Hd2 & Hf2 & Hq2). run.
  assert (forall i, 0 <= i < num_fragments m -> acked (msg c1) i = true <-> names base bitmask i \/ acked m i = true) as Hset.
  { intros i Hi. rewrite Ha1 by lia. change (num_fragments (msg c0)) with (num_fragments m).
    change (acked (msg c0) i) with (acked m i). specialize (Hids i Hi).
    change (acked m0 i) with (acked m i) in Hids. rewrite <- Hids.
    rewrite (proj2 (Z.ltb_lt _ _)), andb_true_r, orb_true_iff, bool_decide_eq_true by lia. done. }
  assert (forall c, loss_frame c1 c -> cumulative (msg c)) as Hcum'.
  { intros c ((_ & _ & Hn & _ & _ & Hh) & Ha & _) i Hi Hin. destruct Hs1 as (_ & _ & Hn1 & _ & _ & Hh1).
    rewrite Hn, Hn1 in Hin. rewrite Hh, Hh1 in Hi. cbn in Hi, Hin. unfold acked. rewrite Ha. apply Hset; [lia|].
    destruct (Z.lt_ge_cases i (highest_cumulative_ack m)); [right; apply Hcum; lia|left; left; lia]. }
  destruct (detect_losses_spec c2 total Hc2 (Hcum' c2 Hf2) Hd2) as (c3 & -> & Hc3 & Hd3 & Hf3 & Hq3). run.
  pose proof (transitivity Hf2 Hf3) as Hf13.
  set (c4 := if any then _ else c3).
  destruct (purge_retransmit_spec _ (ci_core _ Hc3)) as [Hpc Hpr].
  assert (cinv c4 /\ loss_frame c3 c4 /\ rq_unacked (msg c4) /\ delivered_ok total (msg c4)) as (Hc4 & Hf4 & Hrq4 & Hd4).
  { unfold c4. destruct any.
    { split_and!; try done. destruct Hc3. by constructor. }
    split_and!; try done. intros i Hi.
    destruct Hf3 as (_ & Ha3 & _). destruct Hf2 as (_ & Ha2 & _). unfold acked. rewrite Ha3.
    apply Hq3 in Hi as [Hi|Hi]; [|done]. rewrite Hq2, Hrq1 in Hi by done. apply (core_rq m Hcore) in Hi as Hi'.
    rewrite Ha2. etrans; [apply (Hsame eq_refl); lia|]. by apply Hrq. }
  pose proof (transitivity Hf13 Hf4) as ((Hdt & Hmt & Hnt & Hqt & Hxt & _) & Hat & _).
  assert (data (msg c1) = data m /\ payload_mtu (msg c1) = payload_mtu m /\ num_fragments (msg c1) = num_fragments m /\
    in_flight_queue (msg c1) = in_flight_queue m /\ next_fragment (msg c1) = next_fragment m)
    as (Hd0 & Hm0 & Hn0 & Hq0 & Hx0) by (destruct Hs1 as (? & ? & ? & ? & ? & _); done).
  destruct (on_ack_finish c4 Hc4 (Hcum' c4 (transitivity Hf13 Hf4)) Hrq4) as (m' & r & -> & Hwf & Hm' & Hrem & Hnew).
  exists m', r. split; [done|]. rewrite Hm'. destruct Hc4 as [Hcore4 _ _ (F1 & F2 & _) Hby _].
  split; [|split; [done|]].
  - constructor; [by rewrite <- Hm'|cbn; split_and!; congruence| | |rewrite Hrem; by apply removed_bytes_bounds].
    + intros i Hi. rewrite <- Hset by done. unfold acked. cbn. by rewrite Hat.
    + rewrite Hrem. apply (amount_split m (msg c4)); [|done|done|congruence..].
      rewrite Hqt, Hq0. exact Hfl.
  - rewrite Hnew. pose proof (core_count_bounds _ Hcore4) as Hcb. rewrite Hnt, Hn0 in Hcb.
    rewrite Hmt, Hm0 in Hby. pose proof (proj1 (core_sized _ Hcore)). nia.
Qed.

(** *** Where the records come from

    An acknowledgement only clears send times, and the round-trip time and the
    delivery sample it reports are those of fragments of the message. *)

Definition derived (l0 l : list FragmentState) : Prop :=
  forall i s, idx l i = Some s -> exists s0, idx l0 i = Some s0 /\ (s = s0 \/ s = s0 <| last_sent := None |>).

#[global] Instance derived_preorder : PreOrder derived.
Proof.
  split; [by intros l i s Hs; exists s; auto|]. intros l1 l2 l3 H1 H2 i s Hs.
  destruct (H2 i s Hs) as (s2 & Hs2 & E2). destruct (H1 i s2 Hs2) as (s1 & Hs1 & E1). exists s1. split; [done|].
  destruct E2 as [->| ->], E1 as [->| ->]; auto.
Qed.

Lemma derived_upd l i s l' : idx l i = Some s -> upd l i (s <| last_sent := None |>) = Some l' -> derived l l'.
Proof.
  intros Hs [Hi ->]%upd_Some j x Hx. assert (0 <= j) by (apply idx_lt in Hx; lia). rewrite idx_insert in Hx by done.
  case_decide as E; [|by exists x; auto]. subst j. injection Hx as <-. exists s. auto.
Qed.

(** Delivery information recorded in the message. *)
Definition info_in (l : list FragmentState) (info : FragmentDeliveryInfo) : Prop :=
  exists i s, idx l i = Some s /\ delivery_info s = Some info.

Lemma derived_info l0 l info : derived l0 l -> info_in l info -> info_in l0 info.
Proof.
  intros H (i & s & Hs & Hi). destruct (H i s Hs) as (s0 & Hs0 & E). exists i, s0. split; [done|]. by destruct E; subst.
Qed.

Definition sourced (l : list FragmentState) (now : Instant) (r : AckResult) : Prop :=
  (forall x, min_rtt r = Some x -> exists info, info_in l info /\ x = since now (first_sent_time info)) /\
  (forall d t0 rate lim, delivery_sample r = Some (d, t0, rate, lim) -> exists info, info_in l info /\ d = delivered_at_send info).

Lemma note_rtt_sourced l now r info :
  info_in l info -> sourced l now r -> sourced l now (note_rtt r (since now (first_sent_time info))).
Proof.
  intros Hi [Hr Hs]. unfold note_rtt. split.
  - intros x. destruct (first_rtt r); cbn; (destruct (min_rtt r) as [y|] eqn:E; cbn; [destruct (_ <? y); cbn|]);
      rewrite ?E; intros Hx; simplify_eq; eauto.
  - intros d t0 rate lim. destruct (first_rtt r); cbn; (destruct (min_rtt r) as [y|]; cbn; [destruct (_ <? y); cbn|]); apply Hs.
Qed.

Lemma update_sample_sourced l now r total info r' :
  info_in l info -> sourced l now r -> update_delivery_sample info r total now = Some r' -> sourced l now r'.
Proof.
  intros Hi [Hr Hs] H. unfold update_delivery_sample in H. destruct (_ =? 0); [by simplify_eq|]. do 2 inv_bind H.
  destruct (match delivery_sample r with Some _ => _ | None => true end); simplify_eq; [|by split].
  split; [exact Hr|]. cbn. intros d t0 rate lim [= <- _ _ _]. by exists info.
Qed.

(** The states come from [l0], the reported values from [l1]. *)
Definition from (l0 l1 : list FragmentState) (now : Instant) (c : ctx) : Prop :=
  derived l0 (fragment_states (msg c)) /\ sourced l1 now (res c).

Lemma mark_states (b : bool) c i : fragment_states (msg (if b then mark_for_removal c i else c)) = fragment_states (msg c).
Proof. destruct b; [unfold mark_for_removal; by destruct (_ <? _)|done]. Qed.

Lemma process_single_ack_derived now total c i c' fresh :
  process_single_ack c i now total = Some (c', fresh) ->
  derived (fragment_states (msg c)) (fragment_states (msg c')) /\ (fresh = true -> sent (msg c') i = false).
Proof.
  intros H. unfold process_single_ack in H. destruct (_ <=? i); [by simplify_eq|].
  destruct (BitSet.set (acked_bitset (msg c)) i) as [bs []]; [|by simplify_eq].
  inv_bind H. rename v into count. inv_bind H. rename v into st, E0 into Hst. inv_bind H. rename v into states, E0 into Hup.
  pose proof (derived_upd _ _ _ _ Hst Hup) as Hder.
  assert (sent ((msg c) <| fragment_states := states |>) i = false) as Hsent.
  { unfold sent. cbn. apply upd_Some in Hup as [Hi ->]. rewrite idx_insert by lia. by rewrite decide_True. }
  destruct (delivery_info st) as [info|]; [|by simplify_eq]. inv_bind H. inv_bind H. simplify_eq.
  unfold sent in *. cbn [msg set_field]. rewrite mark_states. by split.
Qed.

Lemma process_single_ack_from l0 now total c i c' fresh :
  from l0 l0 now c -> process_single_ack c i now total = Some (c', fresh) -> from l0 l0 now c'.
Proof.
  intros [Hd Hs] H. split; [etrans; [exact Hd|]; by eapply process_single_ack_derived|].
  unfold process_single_ack in H. destruct (_ <=? i); [by simplify_eq|].
  destruct (BitSet.set (acked_bitset (msg c)) i) as [bs []]; [|by simplify_eq].
  inv_bind H. inv_bind H. rename v0 into st, E0 into Hst. inv_bind H.
  destruct (delivery_info st) as [info|] eqn:Ei; [|by simplify_eq]. inv_bind H. inv_bind H. rename E2 into Hr. simplify_eq.
  assert (info_in l0 info) as Hin by (eapply derived_info; [exact Hd|by exists i, st]).
  assert (sourced l0 now v2) as Hsr.
  { refine (update_sample_sourced l0 now _ total info v2 Hin _ Hr). destruct (bool_decide _); [unfold mark_for_removal; destruct (_ <? _)|]; exact Hs. }
  cbn. destruct (0 <? _); [done|by apply note_rtt_sourced].
Qed.

Lemma derived_sent m m' i : derived (fragment_states m) (fragment_states m') -> sent m' i = true -> sent m i = true.
Proof.
  intros H Hs. unfold sent in *. destruct (idx (fragment_states m') i) as [s|] eqn:E; [|done].
  destruct (H i s E) as (s0 & -> & [->| ->]); [done|]. by rewrite bool_decide_false in Hs by (by intros [? ?]).
Qed.

Lemma process_acks_from l0 now total ids c any c' any' :
  from l0 l0 now c -> process_acks c ids now total any = Some (c', any') -> from l0 l0 now c'.
Proof.
  revert c any. induction ids as [|i ids IH]; intros c any Hc H; cbn in H; [by simplify_eq|].
  inv_bind H. destruct v as [c1 fresh]. eapply IH; [|exact H]. by eapply process_single_ack_from.
Qed.

Lemma process_acks_derived now total ids c any c' any' :
  process_acks c ids now total any = Some (c', any') -> derived (fragment_states (msg c)) (fragment_states (msg c')).
Proof.
  revert c any. induction ids as [|i ids IH]; intros c any H; cbn in H; [by simplify_eq|].
  inv_bind H. destruct v as [c1 fresh]. etrans; [eapply process_single_ack_derived; exact E|by eapply IH].
Qed.

Lemma trigger_loss_from l0 l1 now c i c' : from l0 l1 now c -> trigger_loss c i = Some c' -> from l0 l1 now c'.
Proof.
  intros [Hd Hs] H. unfold trigger_loss in H. inv_bind H. inv_bind H. simplify_eq.
  split; [|by destruct (last_sent v); [unfold mark_for_removal; destruct (_ <? _)|]].
  etrans; [exact Hd|]. etrans; [by eapply derived_upd|]. destruct (last_sent v); [unfold mark_for_removal; destruct (_ <? _)|]; done.
Qed.

Lemma handle_fast_from l0 l1 now c base c' : from l0 l1 now c -> handle_fast_retransmit c base = Some c' -> from l0 l1 now c'.
Proof.
  intros Hc H. unfold handle_fast_retransmit in H. destruct (_ && _); [|by simplify_eq]. inv_bind H.
  destruct (_ && _ && _); [|by simplify_eq]. inv_bind H.
  destruct (match last_sent v0 with Some _ => _ | None => _ end); [|by simplify_eq].
  eapply trigger_loss_from; [|exact H]. exact Hc.
Qed.

Lemma holes_loop_from l0 l1 now ids c max_ls count so_far c' :
  from l0 l1 now c -> holes_loop c ids max_ls count so_far = Some c' -> from l0 l1 now c'.
Proof.
  revert c so_far. induction ids as [|i ids IH]; intros c so_far Hc H; cbn [holes_loop] in H; [by simplify_eq|].
  destruct (BitSet.get (acked_bitset (msg c)) i); [inv_bind H; eauto|].
  destruct (negb _); [|eauto]. inv_bind H. destruct (3 <=? v); [|eauto]. inv_bind H. inv_bind H.
  destruct (match last_sent v0 with Some _ => _ | None => _ end); [|simplify_eq; eauto].
  eapply IH; [|exact H]. by eapply trigger_loss_from.
Qed.

Lemma on_ack_rest l0 l1 c base any now m' r :
  from l0 l1 now c ->
  (c ← (if last_ack_base (msg c) <? base
        then Some (c <| msg := (msg c) <| last_ack_base := base |> <| dup_ack_count := 0 |> <| last_ack_at := now |> |>)
        else if (any : bool)
        then c ← handle_fast_retransmit c base; Some (c <| msg := (msg c) <| last_ack_at := now |> |>)
        else Some c);
   c ← detect_losses_from_holes c;
   let c := if (any : bool) then c <| msg := purge_retransmit (msg c) |> else c in
   if needs_cleanup c then
     '(m, removed) ← cleanup_in_flight_queue (msg c) (to_remove c);
     Some (m, (res c) <| newly_completed_in_flight_bytes := removed |>)
   else Some (msg c, res c)) = Some (m', r) ->
  derived l0 (fragment_states m') /\ sourced l1 now r.
Proof.
  intros Hc H. inv_bind H. rename v into c1.
  assert (from l0 l1 now c1) as Hc1.
  { destruct (_ <? base); [simplify_eq; exact Hc|]. destruct any; [|by simplify_eq]. inv_bind E. simplify_eq.
    eapply handle_fast_from in E0; [|exact Hc]. exact E0. }
  inv_bind H. rename v into c2. unfold detect_losses_from_holes in E0.
  eapply holes_loop_from in E0; [|exact Hc1]. cbv zeta in H.
  set (c3 := if any then c2 <| msg := purge_retransmit (msg c2) |> else c2) in *.
  assert (from l0 l1 now c3) as [Hd Hs] by (unfold c3; by destruct any).
  destruct (needs_cleanup c3); [|by simplify_eq]. inv_bind H. destruct v as [m1 rem]. unfold cleanup_in_flight_queue in E1.
  inv_bind E1. destruct v as [q' rem']. by simplify_eq.
Qed.

Lemma collect_states m base bitmask : fragment_states (collect_acked_indices m base bitmask).1 = fragment_states m.
Proof. done. Qed.

#[local] Strategy 1000 [collect_acked_indices collect_selective collect_cumulative].

Lemma on_ack_from m base bitmask now total m' r :
  on_ack m base bitmask now total = Some (m', r) ->
  derived (fragment_states m) (fragment_states m') /\ sourced (fragment_states m) now r /\
  exists c any, process_acks (mkCtx (collect_acked_indices (m <| last_ack_at := now |>) base bitmask).1
      (BitSet.new BITSET_WORDS) false (mkAckResult 0 0 None None false None))
      (collect_acked_indices (m <| last_ack_at := now |>) base bitmask).2 now total false = Some (c, any) /\
    derived (fragment_states (msg c)) (fragment_states m').
Proof.
  intros H. unfold on_ack in H. destruct (collect_acked_indices (m <| last_ack_at := now |>) base bitmask) as [m0 ids] eqn:Ec.
  pose proof (collect_states (m <| last_ack_at := now |>) base bitmask) as H0. rewrite Ec in H0. cbn [fst] in H0.
  change (fragment_states m0 = fragment_states m) in H0. clear Ec.
  cbn [fst snd]. inv_bind H. destruct v as [c1 any].
  set (c0 := mkCtx m0 _ _ _) in *. assert (from (fragment_states m) (fragment_states m) now c0) as Hc0.
  { split; [by rewrite <- H0|]. by split. }
  pose proof (process_acks_from _ _ _ _ _ _ _ _ Hc0 E) as H1.
  destruct (on_ack_rest _ _ _ _ _ _ _ _ H1 H) as [H2 H3].
  assert (from (fragment_states (msg c1)) (fragment_states m) now c1) as H4 by (split; [done|apply H1]).
  destruct (on_ack_rest _ _ _ _ _ _ _ _ H4 H) as [H5 _]. split_and!; [done|done|]. by exists c1, any.
Qed.

(** Fragments that were acknowledged are not in flight. *)
Definition clean (m : t) : Prop := forall i, 0 <= i -> acked m i = true -> sent m i = false.

Lemma process_acks_unsent ids now total c any c' any' :
  cinv c -> delivered_ok total (msg c) -> 0 <= total <= 2 ^ 62 -> (forall i, i ∈ ids -> 0 <= i) ->
  process_acks c ids now total any = Some (c', any') ->
  forall i, i ∈ ids -> i < num_fragments (msg c) -> acked (msg c) i = false -> sent (msg c') i = false.
Proof.
  intros Hc Hd Ht. revert c any Hc Hd. induction ids as [|j ids IH]; intros c any Hc Hd Hids H i Hi Hlt Ha; [by apply not_elem_of_nil in Hi|].
  cbn in H. destruct (process_single_ack_spec c j now total Hc Hd (Hids j ltac:(left)) Ht)
    as (c1 & fresh & E & Hc1 & Hd1 & (_ & _ & Hn1 & _) & _ & _ & _ & Hf & _ & Ha1).
  rewrite E in H. cbn [mbind option_bind] in H.
  destruct (decide (i = j)) as [->|Hne].
  - assert (fresh = true) as -> by (by rewrite Hf, Ha, (proj2 (Z.ltb_lt _ _)) by done).
    destruct (process_single_ack_derived _ _ _ _ _ _ E) as [_ Hs1]. specialize (Hs1 eq_refl).
    destruct (sent (msg c') j) eqn:Es; [|done]. apply process_acks_derived in H.
    rewrite (derived_sent _ _ _ H Es) in Hs1. done.
  - apply elem_of_cons in Hi as [?|Hi]; [done|]. eapply (IH c1 (any || fresh)); [done|done|intros k Hk; apply Hids; by right|done|done|by rewrite Hn1|].
    rewrite Ha1 by (apply Hids; by right). by rewrite (proj2 (Z.eqb_neq i j)).
Qed.

Lemma on_ack_clean m base bitmask now total m' r :
  wf m -> delivered_ok total m -> 0 <= total <= 2 ^ 62 -> 0 <= base <= u16_max -> in_u 64 bitmask ->
  clean m -> on_ack m base bitmask now total = Some (m', r) -> clean m'.
Proof.
  intros Hwf Hd Ht Hb Hm Hcl Heq i Hi Ha. destruct (sent m' i) eqn:Es; [exfalso|done].
  destruct (on_ack_from _ _ _ _ _ _ _ Heq) as (Hder & _ & c & any & Hp & Hder').
  pose proof (derived_sent _ _ _ Hder Es) as Hsm. pose proof (derived_sent _ _ _ Hder' Es) as Hsc.
  destruct (on_ack_spec m base bitmask now total Hwf Hd Ht Hb Hm) as (m1 & r1 & Heq1 & [A1 A2 A3 _ _] & _). rewrite Heq in Heq1.
  injection Heq1 as <- <-. destruct Hwf as (Hcore & Hcum & Hfl & _).
  assert (i < num_fragments m) as Hlt.
  { unfold sent in Hsm. destruct (idx (fragment_states m) i) eqn:E; [|done]. apply idx_lt in E. rewrite (core_states _ Hcore) in E. lia. }
  destruct (acked m i) eqn:Eam; [by rewrite Hcl in Hsm|].
  apply A3 in Ha as [Hn|?]; [|congruence|lia].
  set (m0 := m <| last_ack_at := now |>) in *. assert (core m0) as H0 by core_same.
  destruct (collect_acked_indices_spec m0 base bitmask H0 Hcum Hb Hm) as (ids & Hc & Hpos & Hids). rewrite Hc in Hp. cbn [fst snd] in Hp.
  rewrite (process_acks_unsent _ _ _ _ _ _ _ (cinv_start m base now Hcore Hfl Hb) Hd Ht Hpos Hp i) in Hsc; [done| |done|done].
  destruct (proj2 (Hids i ltac:(cbn; lia)) (or_introl Hn)) as [?|Ha']; [done|]. change (acked m i = true) in Ha'. congruence.
Qed.

(** *** Sending a fragment *)

(** The record of fragment [i] once it is sent. *)
Definition sent_state_of (s : FragmentState) (now delivered : Z) (last_delivery : Instant) (limited : bool) (n : Z) :
    FragmentState :=
  match delivery_info s with
  | Some _ => mkState (Some now) (delivery_info s) (retransmit_count s + 1) (rto_backoff s)
  | None => mkState (Some now) (Some (mkInfo delivered last_delivery now n limited)) (retransmit_count s) (rto_backoff s)
  end.

Definition with_sent (m : t) (i : Z) (s : FragmentState) (now : Instant) : t :=
  m <| fragment_states := <[Z.to_nat i := s]> (fragment_states m) |>
    <| in_flight_queue := in_flight_queue m ++ [(i, now)] |>.

Lemma mark_fragment_sent_eq m i s now delivered last limited n :
  idx (fragment_states m) i = Some s -> 0 <= retransmit_count s < u32_max ->
  mark_fragment_sent m i now delivered last limited n =
  Some (with_sent m i (sent_state_of s now delivered last limited n) now,
        (bool_decide (is_Some (delivery_info s)), bool_decide (is_Some (last_sent s)))).
Proof.
  intros Hs Hr. unfold mark_fragment_sent. rewrite Hs. run. unfold sent_state_of.
  pose proof (idx_lt _ _ _ Hs). unfold u32_max in Hr.
  destruct (delivery_info s) eqn:E; cbn; [run_chk|]; rewrite upd_ok by lia; run; cbn;
    [rewrite <- E|]; reflexivity.
Qed.

Lemma in_queue_app q q' j : in_queue (q ++ q') j = in_queue q j || in_queue q' j.
Proof. apply List.existsb_app. Qed.

Lemma with_sent_spec m i s now delivered last limited total :
  let s' := sent_state_of s now delivered last limited (flen m i) in
  wf m -> delivered_ok total m -> 0 <= delivered <= total -> 0 <= i < num_fragments m ->
  idx (fragment_states m) i = Some s ->
  wf (with_sent m i s' now) /\ delivered_ok total (with_sent m i s' now) /\
  flight_bytes (with_sent m i s' now) = flight_bytes m + (if sent m i then 0 else flen m i).
Proof.
  intros s' (Hcore & Hcum & Hfl & Hrq) Hd Htot Hi Hs. pose proof (core_states m Hcore) as Hlen.
  assert (last_sent s' = Some now) as Hls by (unfold s', sent_state_of; by destruct (delivery_info s)).
  assert (is_Some (delivery_info s')) as Hinfo by (unfold s', sent_state_of; destruct (delivery_info s) eqn:E; cbn; rewrite ?E; eauto).
  assert (forall info, delivery_info s' = Some info ->
    delivery_info s = Some info \/ (size info = flen m i /\ delivered_at_send info = delivered)) as Hcase.
  { intros info. unfold s', sent_state_of. destruct (delivery_info s) eqn:E; cbn; [rewrite ?E; auto|]. intros [= <-]. by right. }
  assert (forall j x, idx (fragment_states (with_sent m i s' now)) j = Some x ->
    (j = i /\ x = s') \/ idx (fragment_states m) j = Some x) as Hstate.
  { intros j x Hx. assert (0 <= j) by (apply idx_lt in Hx; lia). cbn in Hx. rewrite idx_insert in Hx by lia.
    case_decide; [left; naive_solver|by right]. }
  assert (forall j, 0 <= j -> sent (with_sent m i s' now) j = (j =? i) || sent m j) as Hsent.
  { intros j Hj. unfold sent. cbn. rewrite idx_insert by lia. case_decide as E.
    - subst j. rewrite Z.eqb_refl, Hls. done.
    - by rewrite (proj2 (Z.eqb_neq j i)) by congruence. }
  split; [split_and!|split].
  - pose proof Hcore as []. constructor; try assumption.
    + cbn. by rewrite len_insert.
    + intros j x [[-> ->]|Hx]%Hstate Hl; [done|by eapply (core_sent_info m Hcore)].
    + intros j x info [[-> ->]|Hx]%Hstate Hx'; [|by eapply (core_info m Hcore)].
      apply Hcase in Hx' as [Hx'|[-> _]]; [by eapply (core_info m Hcore)|done].
    + cbn. intros j a [Hj|[= -> ->]%list_elem_of_singleton]%elem_of_app; [by eapply (core_queue m Hcore)|done].
  - exact Hcum.
  - intros j Hj. rewrite Hsent by done. cbn [in_flight_queue with_sent set_field].
    etrans; [apply in_queue_app|]. rewrite Hfl by done. cbn. rewrite orb_false_r, Z.eqb_sym. apply orb_comm.
  - exact Hrq.
  - intros j x info [[-> ->]|Hx]%Hstate Hx'; [|by eapply Hd]. apply Hcase in Hx' as [Hx'|[_ ->]]; [by eapply Hd|done].
  - unfold flight_bytes. rewrite (zsum_update (fun j => if sent m j then flen m j else 0) _ 0 _ i); [|done|].
    + rewrite Hsent, Z.eqb_refl by lia. cbn. change (flen (with_sent m i s' now) i) with (flen m i).
      destruct (sent m i); lia.
    + intros j Hj Hne. rewrite Hsent, (proj2 (Z.eqb_neq j i)) by lia. done.
Qed.

(** *** Theorems *)

(** Sending a fragment.  For a well-formed message and an index in range,
    [prepare_fragment_for_send] yields exactly fragment [i] of the data with
    the fragment count, tells whether the fragment was sent before and whether
    it is still in flight, keeps the message well formed, and raises the bytes
    in flight by the length of the fragment unless it was in flight already. *)
Theorem prepare_fragment_sound m i s now delivered last limited total :
  wf m -> delivered_ok total m -> 0 <= delivered <= total ->
  idx (fragment_states m) i = Some s -> 0 <= retransmit_count s < u32_max ->
  exists m', prepare_fragment_for_send m i now delivered last limited =
      Some (m', (fragment m i, num_fragments m, bool_decide (is_Some (delivery_info s)), sent m i)) /\
    wf m' /\ delivered_ok total m' /\ data m' = data m /\ acked_bitset m' = acked_bitset m /\
    flight_bytes m' = flight_bytes m + (if sent m i then 0 else len (fragment m i)).
Proof.
  intros Hwf Hd Htot Hs Hr. pose proof Hwf as [Hcore _]. pose proof (idx_lt _ _ _ Hs) as Hi.
  rewrite (core_states m Hcore) in Hi. pose proof (core_sized m Hcore) as Hsz.
  unfold prepare_fragment_for_send. rewrite get_fragment_ok by done. run.
  rewrite (mark_fragment_sent_eq _ _ s) by done. run. rewrite (sent_state _ _ _ Hs), len_fragment by done.
  destruct (with_sent_spec m i s now delivered last limited total Hwf Hd Htot Hi Hs) as (W1 & W2 & W3).
  rewrite (sent_state _ _ _ Hs) in W3. eexists. split; [done|]. by split_and!.
Qed.

Lemma initial_delivered_ok total mt d mtu n now : delivered_ok total (initial mt d mtu n now).
Proof. intros i s info H%new_state_at Hi. by subst. Qed.

(** A message of five bytes in three fragments. *)
Definition sample : t := initial MerkleNode [1; 2; 3; 4; 5] 2 3 0.

Lemma sample_wf : wf sample.
Proof. apply (initial_wf MerkleNode [1; 2; 3; 4; 5] 2 0); [lia|done]. Qed.

Lemma prepare_fragment_sound_witness :
  exists m', prepare_fragment_for_send sample 2 7 0 0 true = Some (m', ([5], 3, false, false)) /\ flight_bytes m' = 1.
Proof.
  destruct (prepare_fragment_sound sample 2 (mkState None None 0 0) 7 0 0 true 0 sample_wf
    (initial_delivered_ok 0 _ _ _ _ _) ltac:(lia) eq_refl ltac:(done)) as (m' & H & _ & _ & _ & _ & Hb).
  exists m'. split; [exact H|]. rewrite Hb. reflexivity.
Defined.

(** Acknowledgements are sound against any peer.  Whatever base index and
    64-bit mask an acknowledgement carries, [on_ack] on a well-formed message
    never panics (no overflow, no index out of range), keeps the message well
    formed, and acknowledges exactly the fragments the acknowledgement names,
    on top of those already acknowledged. *)
Theorem on_ack_acknowledges m base bitmask now total :
  wf m -> delivered_ok total m -> 0 <= total <= 2 ^ 62 -> in_u 16 base -> in_u 64 bitmask ->
  exists m' r, on_ack m base bitmask now total = Some (m', r) /\ wf m' /\ delivered_ok total m' /\
    num_fragments m' = num_fragments m /\ data m' = data m /\
    (forall i, 0 <= i < num_fragments m ->
       is_acked m' i = true <-> names base bitmask i \/ is_acked m i = true).
Proof.
  intros Hwf Hd Ht Hb Hm.
  destruct (on_ack_spec m base bitmask now total Hwf Hd Ht) as (m' & r & Heq & [A1 A2 A3 _ _] & Hd' & _);
    [unfold in_u, u16_max in *; lia|done|].
  destruct A2 as (D1 & D2 & D3 & D4). exists m', r. split_and!; [done..|].
  intros i Hi. unfold is_acked. rewrite D3, (proj2 (Z.leb_gt _ _)) by lia. by apply A3.
Qed.

Lemma on_ack_acknowledges_witness :
  exists m' r, on_ack sample 1 1 5 0 = Some (m', r) /\ is_acked m' 0 = true /\ is_acked m' 2 = true.
Proof.
  destruct (on_ack_acknowledges sample 1 1 5 0 sample_wf (initial_delivered_ok 0 _ _ _ _ _) ltac:(lia)
    ltac:(done) ltac:(done)) as (m' & r & H & _ & _ & _ & _ & Ha).
  exists m', r. split; [exact H|]. clear H. split; apply Ha; [done|left; left; lia|done|left; right].
  exists 0. split; [lia|done].
Defined.

(** In-flight bytes are conserved.  The bytes that [on_ack] reports as no
    longer in flight are exactly the difference between the bytes in flight
    before and after: acknowledged and lost fragments are counted once each,
    however often they sit in the queue. *)
Theorem on_ack_conserves_flight m base bitmask now total m' r :
  wf m -> delivered_ok total m -> 0 <= total <= 2 ^ 62 -> in_u 16 base -> in_u 64 bitmask ->
  on_ack m base bitmask now total = Some (m', r) ->
  newly_completed_in_flight_bytes r = flight_bytes m - flight_bytes m' /\
  0 <= newly_completed_in_flight_bytes r /\
  0 <= newly_delivered_bytes r <= num_fragments m * payload_mtu m.
Proof.
  intros Hwf Hd Ht Hb Hm Heq.
  destruct (on_ack_spec m base bitmask now total Hwf Hd Ht) as (m1 & r1 & Heq1 & [A1 A2 A3 A4 A5] & _ & Hn);
    [unfold in_u, u16_max in *; lia|done|].
  rewrite Heq in Heq1. injection Heq1 as <- <-. lia.
Qed.

(** The sample with its first fragment in flight. *)
Definition sample_sent : t := with_sent sample 0 (sent_state_of (mkState None None 0 0) 7 0 0 true 2) 7.

Lemma sample_sent_wf : wf sample_sent /\ delivered_ok 0 sample_sent.
Proof.
  destruct (with_sent_spec sample 0 (mkState None None 0 0) 7 0 0 true 0 sample_wf
    (initial_delivered_ok 0 _ _ _ _ _) ltac:(lia) ltac:(done) eq_refl) as (W1 & W2 & _). by split.
Qed.

Lemma on_ack_conserves_flight_witness :
  exists m' r, on_ack sample_sent 1 0 9 0 = Some (m', r) /\ flight_bytes sample_sent = 2 /\
    newly_completed_in_flight_bytes r = 2 - flight_bytes m'.
Proof.
  destruct sample_sent_wf as [W1 W2]. assert (0 <= 0 <= 2 ^ 62) as Ht by lia.
  assert (in_u 16 1) as Hb by done. assert (in_u 64 0) as Hm by done.
  destruct (on_ack_spec sample_sent 1 0 9 0 W1 W2 Ht ltac:(done) Hm) as (m' & r & H & _).
  exists m', r. split; [exact H|]. split; [reflexivity|].
  exact (proj1 (on_ack_conserves_flight sample_sent 1 0 9 0 m' r W1 W2 Ht Hb Hm H)).
Defined.

(** The fragment count is cut to 16 bits before it is compared with the limit,
    so a message of 65537 one-byte fragments is accepted as one of a single
    fragment.  (The session bounds messages to 1 MiB with an MTU of 1353 bytes,
    so it never gets there.)*)
Theorem new_truncates_fragment_count mt now d :
  len d = 65537 -> exists m, new mt d 1 now = Some (Ok m) /\ num_fragments m = 1 /\ ~ sized m.
Proof.
  intros Hl. eexists. split; [unfold new; rewrite Hl; reflexivity|]. split; [done|].
  intros (_ & H & _). cbn [num_fragments data payload_mtu initial] in H. rewrite Hl in H. done.
Qed.

Lemma new_truncates_fragment_count_witness :
  exists m, new BlobData (replicate (Z.to_nat 65537) 0) 1 5 = Some (Ok m) /\ num_fragments m = 1.
Proof.
  destruct (new_truncates_fragment_count BlobData 5 (replicate (Z.to_nat 65537) 0)) as (m & H1 & H2 & _).
  - unfold len. rewrite length_replicate. lia.
  - exists m. split; [exact H1|exact H2].
Defined.

End OutgoingMessage.
