(* ===== verification/Transfer.v ===== *)
(** Fragmentation and reassembly together: the fragments of an
    [OutgoingMessage] ([outgoing.rs]) fed to a [MessageReassembler]
    ([reassembly/mod.rs]) in the order the network delivers them. *)

From S2P Require Import Prelude Bitset Protocol Reassembly Float32 Outgoing.
#[local] Open Scope Z_scope.
#[local] Open Scope list_scope.

Module OM := OutgoingMessage.
Module MR := MessageReassembler.

(** Delivering fragments of a message one after the other; it stops at the
    first error, as the session drops the message then. *)
Fixpoint deliver_all (m : OM.t) (r : MR.t) (ids : list Z) (now : Instant) : option (result SequencedError MR.t) :=
  match ids with
  | [] => Some (Ok r)
  | i :: ids =>
      d ← OM.get_fragment m i;
      '(r, res) ← MR.add_fragment r i d now;
      match res with
      | Ok _ => deliver_all m r ids now
      | Err e => Some (Err e)
      end
  end.

Lemma stored_bytes_zsum b :
  FragmentBuffer.wf b ->
  FragmentBuffer.current_size b =
  zsum (fun i => FragmentBuffer.frag_len (FragmentBuffer.frag b i)) (zrange 0 (FragmentBuffer.total_fragments b)).
Proof.
  intros Hwf. rewrite (FragmentBuffer.wf_size b Hwf).
  assert (FragmentBuffer.fragments b = FragmentBuffer.frag b <$> zrange 0 (len (FragmentBuffer.fragments b))) as ->.
  { apply FragmentBuffer.list_of_idx. rewrite (FragmentBuffer.wf_len b Hwf). intros i Hi.
    destruct (FragmentBuffer.frag_lt b i Hwf Hi) as (f & Hf & Hf'). congruence. }
  rewrite (FragmentBuffer.wf_len b Hwf). apply (zsum_fmap (FragmentBuffer.frag b) FragmentBuffer.frag_len).
Qed.

Lemma flen_total m n :
  OM.sized m -> 0 <= n <= OM.num_fragments m -> zsum (OM.flen m) (zrange 0 n) <= len (OM.data m).
Proof.
  intros Hs Hn. rewrite <- (zsum_ext (fun i => len (OM.fragment m i))).
  2: { intros i Hi%elem_of_zrange. apply OM.len_fragment; [done|lia]. }
  transitivity (len (concat (OM.fragment m <$> zrange 0 n))).
  - generalize (zrange 0 n). intros l. induction l as [|x l IH]; [done|].
    rewrite fmap_cons, zsum_cons. cbn [concat]. rewrite len_app. lia.
  - rewrite OM.concat_prefix by done. unfold len. rewrite length_take. lia.
Qed.

(** What the receiver holds when the fragments in [got] have arrived. *)
Definition holds (m : OM.t) (r : MR.t) (got : list Z) : Prop :=
  MR.wf r /\ MR.total_fragments r = OM.num_fragments m /\
  forall i, 0 <= i < OM.num_fragments m ->
    MR.received r i = if bool_decide (i ∈ got) then Some (OM.fragment m i) else None.

Lemma holds_size m r got :
  OM.sized m -> holds m r got ->
  MR.current_size r = zsum (fun i => if bool_decide (i ∈ got) then OM.flen m i else 0) (zrange 0 (OM.num_fragments m)).
Proof.
  intros Hs (Hwf & Ht & Hr). unfold MR.current_size. rewrite stored_bytes_zsum by apply Hwf.
  rewrite (MR.wf_total_eq r Hwf), Ht. apply zsum_ext. intros i Hi%elem_of_zrange.
  fold (MR.received r i). rewrite Hr by done. case_bool_decide; cbn; [by rewrite OM.len_fragment|done].
Qed.

(** The fragments received so far and one more fit in the message, or in the
    message and one more fragment when it is a duplicate. *)
Lemma holds_room m r got i :
  OM.sized m -> holds m r got -> 0 <= i < OM.num_fragments m ->
  MR.current_size r + OM.flen m i <= len (OM.data m) + (if bool_decide (i ∈ got) then OM.payload_mtu m else 0).
Proof.
  intros Hs Hh Hi. rewrite (holds_size m r got Hs Hh). pose proof (OM.flen_bounds m i Hs Hi).
  pose proof (flen_total m (OM.num_fragments m) Hs ltac:(lia)) as Htot.
  assert (forall x, x ∈ zrange 0 (OM.num_fragments m) -> 0 <= OM.flen m x) as Hpos.
  { intros x Hx%elem_of_zrange. pose proof (OM.flen_bounds m x Hs Hx). lia. }
  case_bool_decide as Hin.
  - assert (zsum (fun i => if bool_decide (i ∈ got) then OM.flen m i else 0) (zrange 0 (OM.num_fragments m)) <=
            zsum (OM.flen m) (zrange 0 (OM.num_fragments m))); [|lia].
    apply zsum_mono. intros x Hx%Hpos. case_bool_decide; lia.
  - rewrite (zsum_update (fun x => if decide (x = i) then OM.flen m x else if bool_decide (x ∈ got) then OM.flen m x else 0)
      _ 0 _ i) by (lia || (intros j _ Hj; by rewrite decide_False)).
    rewrite decide_True, bool_decide_false by done.
    assert (zsum (fun x => if decide (x = i) then OM.flen m x else if bool_decide (x ∈ got) then OM.flen m x else 0)
      (zrange 0 (OM.num_fragments m)) <= zsum (OM.flen m) (zrange 0 (OM.num_fragments m))); [|lia].
    apply zsum_mono. intros x Hx%Hpos. case_decide; [lia|]. case_bool_decide; lia.
Qed.

(** Fragments are taken in, or a duplicate is refused because the message has no room
    for one more fragment below the size limit. *)
Lemma deliver_all_spec m ids r got now :
  OM.sized m -> len (OM.data m) <= MAX_MESSAGE_SIZE -> holds m r got ->
  (forall i, i ∈ ids -> 0 <= i < OM.num_fragments m) ->
  exists res, deliver_all m r ids now = Some res /\
    match res with
    | Ok r' => holds m r' (got ++ ids)
    | Err e => e = MessageTooLarge /\ ~ NoDup (got ++ ids) /\ MAX_MESSAGE_SIZE < len (OM.data m) + OM.payload_mtu m
    end.
Proof.
  intros Hs Hmax. revert r got. induction ids as [|i ids IH]; intros r got Hh Hids.
  { exists (Ok r). by rewrite app_nil_r. }
  assert (0 <= i < OM.num_fragments m) as Hi by (apply Hids; left).
  pose proof (holds_room m r got i Hs Hh Hi) as Hfit. pose proof (OM.flen_bounds m i Hs Hi) as Hfl.
  cbn [deliver_all]. rewrite OM.get_fragment_ok by done. run.
  pose proof Hh as (Hwf & Ht & Hr). unfold MAX_MESSAGE_SIZE in *.
  pose proof (OM.len_fragment m i Hs Hi) as Hlen.
  destruct (MR.reassembler_add_spec r i (OM.fragment m i) now Hwf ltac:(lia)) as
    (r1 & res & -> & Hwf1 & _ & Ht1 & _ & _ & _ & Hres).
  { rewrite Hlen. destruct Hs as (? & _). unfold isize_max. lia. }
  run. destruct res as [c|e].
  - destruct Hres as (_ & _ & Hri & Hrj). replace (got ++ i :: ids) with ((got ++ [i]) ++ ids) by (by rewrite <- app_assoc).
    apply IH; [|intros j Hj; apply Hids; by right].
    split_and!; [done|congruence|]. intros j Hj. destruct (decide (j = i)) as [->|Hne].
    + rewrite Hri, bool_decide_true by (apply elem_of_app; right; left). rewrite Hr by done. by case_bool_decide.
    + rewrite Hrj, Hr by done. rewrite (bool_decide_ext (j ∈ got ++ [i]) (j ∈ got)); [done|].
      rewrite elem_of_app, list_elem_of_singleton. tauto.
  - destruct Hres as (_ & Hbig & ->). rewrite Hlen in *. destruct Hbig as [Hbig|Hbig]; [|lia]. unfold MAX_MESSAGE_SIZE in *.
    rewrite (proj2 (Z.ltb_lt _ _) Hbig). case_bool_decide as Hin; [|lia]. eexists. split; [done|]. split_and!; [done| |lia].
    intros (_ & Hnd & _)%NoDup_app. apply (Hnd i Hin). left.
Qed.

(** C20: End-to-end transfer.  Take a message of at most 1 MiB cut into fragments
    by [OutgoingMessage] and deliver its fragments to a fresh reassembler in any
    order, with losses and duplicates.  Either all deliveries succeed: then the
    reassembler reports completion exactly when every fragment has arrived, and yields
    the data of the message, and before that it yields nothing.  Or a duplicate is
    refused with [MessageTooLarge], which happens only to messages that leave no
    room for one more fragment below the limit of 1 MiB. *)
Theorem transfer_roundtrip m mid p reserved t0 now ids :
  OM.sized m -> 0 < OM.num_fragments m -> len (OM.data m) <= MAX_MESSAGE_SIZE ->
  (forall i, i ∈ ids -> 0 <= i < OM.num_fragments m) ->
  exists r res, MR.new mid (OM.num_fragments m) p reserved t0 = Ok r /\
    deliver_all m r ids now = Some res /\
    match res with
    | Ok r' =>
        (zrange 0 (OM.num_fragments m) ⊆ ids ->
           FragmentBuffer.is_complete (MR.buffer r') = true /\ MR.assemble r' = Some (OM.data m)) /\
        (~ zrange 0 (OM.num_fragments m) ⊆ ids ->
           FragmentBuffer.is_complete (MR.buffer r') = false /\ MR.assemble r' = None)
    | Err e => e = MessageTooLarge /\ ~ NoDup ids /\ MAX_MESSAGE_SIZE < len (OM.data m) + OM.payload_mtu m
    end.
Proof.
  intros Hs Hpos Hmax Hids. pose proof (proj2 (proj2 Hs)) as Hn.
  pose proof (MR.reassembler_new_spec mid (OM.num_fragments m) p reserved t0 ltac:(lia)) as Hnew.
  destruct (MR.new mid _ p reserved t0) as [r|e]; [|lia].
  destruct Hnew as (Hwf & Ht & _ & _ & _ & _ & Hr). exists r.
  destruct (deliver_all_spec m ids r [] now Hs Hmax) as (res & Hdel & Hres).
  { split_and!; [done|done|]. intros i _. by rewrite bool_decide_false by apply not_elem_of_nil. }
  { done. }
  exists res. split; [done|]. split; [done|]. destruct res as [r'|e]; [|done]. destruct Hres as (Hwf' & Ht' & Hr'). cbn [app] in Hr'.
  pose proof (MR.wf_buffer r' Hwf') as Hb. pose proof (MR.wf_total_eq r' Hwf') as Hbt. rewrite Ht' in Hbt.
  assert (FragmentBuffer.is_complete (MR.buffer r') = true <-> zrange 0 (OM.num_fragments m) ⊆ ids) as Hc.
  { rewrite FragmentBuffer.is_complete_spec, Hbt by done. split.
    - intros H i Hi%elem_of_zrange. specialize (H i Hi). fold (MR.received r' i) in H. rewrite Hr' in H by done.
      case_bool_decide; [done|by destruct H].
    - intros H i Hi. fold (MR.received r' i). rewrite Hr', bool_decide_true by (done || by apply H, elem_of_zrange). eauto. }
  split; intros Hall.
  - split; [by apply Hc|]. unfold MR.assemble. rewrite (FragmentBuffer.assemble_spec _ (OM.fragment m)), Hbt by
      (done || (rewrite Hbt; intros i Hi; fold (MR.received r' i); rewrite Hr', bool_decide_true by
         (done || by apply Hall, elem_of_zrange); done)).
    by rewrite OM.concat_fragments.
  - destruct (FragmentBuffer.is_complete (MR.buffer r')) eqn:E; [by destruct Hall; apply Hc|]. split; [done|].
    by apply FragmentBuffer.assemble_incomplete.
Qed.

Lemma transfer_roundtrip_witness :
  exists r r', MR.new 7 3 Standard 0 0 = Ok r /\ deliver_all OM.sample r [2; 0; 2; 1] 5 = Some (Ok r') /\
    MR.assemble r' = Some [1; 2; 3; 4; 5].
Proof.
  destruct (transfer_roundtrip OM.sample 7 Standard 0 0 5 [2; 0; 2; 1]) as (r & [r'|e] & H1 & H2 & H3).
  - split_and!; done.
  - done.
  - done.
  - intros i Hi. repeat (apply elem_of_cons in Hi as [->|Hi]; [done|]). by apply not_elem_of_nil in Hi.
  - exists r, r'. split; [exact H1|]. split; [exact H2|]. apply H3.
    intros i Hi. repeat (apply elem_of_cons in Hi as [->|Hi]; [rewrite !elem_of_cons; auto|]).
    by apply not_elem_of_nil in Hi.
  - exfalso. destruct H3 as (_ & _ & Hbig). vm_compute in Hbig. discriminate Hbig.
Defined.
