(* ===== verification/Scheduler.v ===== *)
(** The deficit-round-robin scheduler ([tox-sequenced/src/scheduler.rs]).

    Five priority levels, each with a queue of message ids, a deficit counter
    and a quantum.  The closure [is_ready] of [next_message] is an argument of
    the model: it answers the size of the next fragment of a message, [Some
    None] when the message has nothing to send, and [None] when it panics. *)

From S2P Require Import Prelude.
#[local] Open Scope Z_scope.
#[local] Open Scope list_scope.

(** [x as i32] *)
Definition as_i32 (z : Z) : Z := let w := wrap 32 z in if w <? 2 ^ 31 then w else w - 2 ^ 32.

Module PriorityScheduler.

Definition NUM_PRIORITIES : Z := 5.
Definition DEFAULT_QUANTUMS : list Z := [4096; 2048; 1500; 1024; 512].

Record t := mk {
  deficits : list Z;
  quantums : list Z;
  active_queues : list (list Z);
  active_levels : list Z;
  needs_quantum : list bool
}.
#[global] Instance eta_t : Settable t := fun s =>
  mk (deficits s) (quantums s) (active_queues s) (active_levels s) (needs_quantum s).

Definition new : t :=
  {| deficits := replicate 5 0;
     quantums := DEFAULT_QUANTUMS;
     active_queues := replicate 5 [];
     active_levels := [];
     needs_quantum := replicate 5 true |}.

Definition contains (l : list Z) (x : Z) : bool := List.existsb (Z.eqb x) l.
Definition retain_not (id : Z) (q : list Z) : list Z := List.filter (fun x => negb (x =? id)) q.

(** A level that was idle is put in front of the round when its priority is
    high, at its end otherwise. *)
Definition activate (s : t) (p : Z) : option t :=
  if contains (active_levels s) p then Some s
  else
    let levels := if p <=? 1 then p :: active_levels s else active_levels s ++ [p] in
    needs ← upd (needs_quantum s) p true;
    Some (s <| active_levels := levels |> <| needs_quantum := needs |>).

Definition update_message (s : t) (message_id priority : Z) : option t :=
  let p := Z.min priority (NUM_PRIORITIES - 1) in
  s ← activate s p;
  let queues := imap (fun i q => if Z.of_nat i =? p then q else retain_not message_id q) (active_queues s) in
  queue ← idx queues p;
  if contains queue message_id then Some (s <| active_queues := queues |>)
  else
    queues ← upd queues p (queue ++ [message_id]);
    Some (s <| active_queues := queues |>).

(** The body of the loop of [remove_message]. *)
Definition remove_from_level (s : t) (message_id p : Z) : option t :=
  queue ← idx (active_queues s) p;
  let queue := retain_not message_id queue in
  queues ← upd (active_queues s) p queue;
  let s := s <| active_queues := queues |> in
  match queue with
  | [] =>
      ds ← upd (deficits s) p 0;
      needs ← upd (needs_quantum s) p true;
      Some (s <| deficits := ds |> <| active_levels := retain_not p (active_levels s) |>
              <| needs_quantum := needs |>)
  | _ => Some s
  end.

Fixpoint remove_from_levels (s : t) (message_id : Z) (levels : list Z) : option t :=
  match levels with
  | [] => Some s
  | p :: levels => s ← remove_from_level s message_id p; remove_from_levels s message_id levels
  end.

Definition remove_message (s : t) (message_id : Z) : option t :=
  remove_from_levels s message_id (zrange 0 (len (active_queues s))).

Definition rotate_left1 (q : list Z) : list Z :=
  match q with [] => [] | x :: q => q ++ [x] end.

(** What the scan of one level's queue finds. *)
Inductive scan_result :=
  | Chosen (mid size : Z)
  | Exhausted
  | NothingReady.

Section NextMessage.
Variable is_ready : Z -> option (option Z).

(** The inner loop of [next_message]. *)
Fixpoint scan_queue (num_messages : nat) (queue : list Z) (deficit : Z) : option (list Z * scan_result) :=
  match num_messages with
  | O => Some (queue, NothingReady)
  | S n =>
      mid ← List.hd_error queue;
      ready ← is_ready mid;
      match ready with
      | Some size =>
          if as_i32 size <=? deficit then Some (rotate_left1 queue, Chosen mid size)
          else Some (queue, Exhausted)
      | None => scan_queue n (rotate_left1 queue) deficit
      end
  end.

(** Adding the quantum of a level on its first visit of a round. *)
Definition replenish (s : t) (p : Z) : option t :=
  needs ← idx (needs_quantum s) p;
  if (needs : bool) then
    d ← idx (deficits s) p;
    q ← idx (quantums s) p;
    d ← chk_i32 (d + q);
    ds ← upd (deficits s) p (Z.min d 16384);
    ns ← upd (needs_quantum s) p false;
    Some (s <| deficits := ds |> <| needs_quantum := ns |>)
  else Some s.

Definition push_back_level (s : t) (p : Z) : option t :=
  ns ← upd (needs_quantum s) p true;
  Some (s <| active_levels := active_levels s ++ [p] |> <| needs_quantum := ns |>).

(** The body of the outer loop for a level [p] that has been popped; [Some mid]
    is the early return. *)
Definition serve_level (s : t) (p : Z) : option (t * option Z) :=
  queue ← idx (active_queues s) p;
  match queue with
  | [] =>
      ds ← upd (deficits s) p 0;
      ns ← upd (needs_quantum s) p true;
      Some (s <| deficits := ds |> <| needs_quantum := ns |>, None)
  | _ =>
      s ← replenish s p;
      deficit ← idx (deficits s) p;
      '(queue, found) ← scan_queue (length queue) queue deficit;
      queues ← upd (active_queues s) p queue;
      let s := s <| active_queues := queues |> in
      match found with
      | Chosen mid size =>
          d ← chk_i32 (deficit - as_i32 size);
          ds ← upd (deficits s) p d;
          let s := s <| deficits := ds |> in
          s ← (if 0 <? d then Some (s <| active_levels := p :: active_levels s |>)
               else push_back_level s p);
          Some (s, Some mid)
      | _ => s ← push_back_level s p; Some (s, None)
      end
  end.

Fixpoint serve_levels (num_active : nat) (s : t) : option (t * option Z) :=
  match num_active with
  | O => Some (s, None)
  | S n =>
      match active_levels s with
      | [] => Some (s, None)
      | p :: levels =>
          '(s, r) ← serve_level (s <| active_levels := levels |>) p;
          match r with
          | Some mid => Some (s, Some mid)
          | None => serve_levels n s
          end
      end
  end.

Definition next_message (s : t) : option (t * option Z) := serve_levels (length (active_levels s)) s.

End NextMessage.

(** *** Views *)

Definition deficit (s : t) (p : Z) : Z := default 0 (idx (deficits s) p).
Definition queue (s : t) (p : Z) : list Z := default [] (idx (active_queues s) p).
Definition needs (s : t) (p : Z) : bool := default false (idx (needs_quantum s) p).
Definition quantum (p : Z) : Z := default 0 (idx DEFAULT_QUANTUMS p).

Record wf (s : t) : Prop := {
  wf_deficits : len (deficits s) = 5;
  wf_quantums : quantums s = DEFAULT_QUANTUMS;
  wf_queues : len (active_queues s) = 5;
  wf_needs : len (needs_quantum s) = 5;
  wf_deficit p : 0 <= p < 5 -> 0 <= deficit s p <= 16384;
  wf_levels_nodup : NoDup (active_levels s);
  wf_levels p : p ∈ active_levels s -> 0 <= p < 5;
  wf_active p : 0 <= p < 5 -> queue s p <> [] -> p ∈ active_levels s;
  wf_queue_nodup p : 0 <= p < 5 -> NoDup (queue s p);
  wf_unique p q id : 0 <= p < 5 -> 0 <= q < 5 -> id ∈ queue s p -> id ∈ queue s q -> p = q
}.

Lemma as_i32_small z : 0 <= z < 2 ^ 31 -> as_i32 z = z.
Proof.
  intros H. unfold as_i32. rewrite wrap_small by (unfold in_u; lia). by rewrite (proj2 (Z.ltb_lt _ _)) by lia.
Qed.

Lemma contains_elem l x : contains l x = bool_decide (x ∈ l).
Proof.
  unfold contains. apply eq_bool_prop_intro. rewrite bool_decide_spec, Is_true_true, List.existsb_exists.
  setoid_rewrite Z.eqb_eq. setoid_rewrite <- list_elem_of_In. naive_solver.
Qed.

Lemma elem_of_retain_not id q x : x ∈ retain_not id q <-> x ∈ q /\ x <> id.
Proof.
  unfold retain_not. rewrite list_elem_of_In, List.filter_In, <- list_elem_of_In, negb_true_iff, Z.eqb_neq. done.
Qed.

Lemma NoDup_retain_not id q : NoDup q -> NoDup (retain_not id q).
Proof. intros H. apply NoDup_ListNoDup, List.NoDup_filter, NoDup_ListNoDup, H. Qed.

Lemma new_view {A} (x : A) p : 0 <= p < 5 -> idx (replicate 5 x) p = Some x.
Proof. intros Hp. apply idx_Some. split; [lia|]. apply lookup_replicate_2. lia. Qed.

Lemma new_scheduler_wf : wf new.
Proof.
  assert (forall p, 0 <= p < 5 -> queue new p = []) as Hq by (intros p Hp; unfold queue; cbn [active_queues new]; by rewrite new_view).
  constructor; try done.
  - intros p Hp. unfold deficit. cbn [deficits new]. rewrite new_view by done. cbn. lia.
  - constructor.
  - intros p Hp. by apply not_elem_of_nil in Hp.
  - intros p Hp Hne. by rewrite Hq in Hne.
  - intros p Hp. rewrite Hq by done. constructor.
  - intros p q id Hp _ Hi. rewrite Hq in Hi by done. by apply not_elem_of_nil in Hi.
Qed.

(** The queue of one level replaced. *)
Lemma queue_update s qs p q x :
  wf s -> 0 <= p < 5 -> 0 <= x -> qs = <[Z.to_nat p := q]> (active_queues s) ->
  queue (s <| active_queues := qs |>) x = if decide (x = p) then q else queue s x.
Proof. intros H Hp Hx ->. unfold queue. cbn. apply view_insert; [by rewrite (wf_queues s H)|done]. Qed.

Lemma deficit_bounds_update s p d x :
  wf s -> 0 <= p < 5 -> 0 <= x < 5 -> 0 <= d <= 16384 ->
  0 <= default 0 (idx (<[Z.to_nat p := d]> (deficits s)) x) <= 16384.
Proof.
  intros H Hp Hx Hd. rewrite view_insert by (rewrite ?(wf_deficits s H); lia).
  case_decide; [done|]. by apply (wf_deficit s H).
Qed.

Lemma activate_spec s p :
  wf s -> 0 <= p < 5 ->
  exists s', activate s p = Some s' /\ wf s' /\ p ∈ active_levels s' /\
    active_queues s' = active_queues s /\ deficits s' = deficits s.
Proof.
  intros H Hp. unfold activate. rewrite contains_elem. case_bool_decide as Hin; [by exists s|].
  rewrite upd_ok by (rewrite (wf_needs s H); lia). run. eexists. split; [done|].
  assert (forall x, x ∈ (if p <=? 1 then p :: active_levels s else active_levels s ++ [p]) <-> x = p \/ x ∈ active_levels s) as Hel.
  { intros x. destruct (p <=? 1); [apply elem_of_cons|]. rewrite elem_of_app, list_elem_of_singleton. tauto. }
  split_and!; [|by apply Hel; left|done|done].
  pose proof H as []. constructor; try assumption.
  - cbn. by rewrite len_insert.
  - cbn. destruct (p <=? 1); [by constructor|]. by apply NoDup_snoc.
  - cbn. intros x [->|Hx]%Hel; [done|]. by apply (wf_levels s H).
  - cbn. intros x Hx Hne. apply Hel. right. by apply (wf_active s H).
Qed.

(** Replacing the queues keeps the invariant when messages stay unique and
    every level with messages is active. *)
Lemma wf_set_queues s qs :
  wf s -> len qs = 5 ->
  (forall p, 0 <= p < 5 -> default [] (idx qs p) <> [] -> p ∈ active_levels s) ->
  (forall p, 0 <= p < 5 -> NoDup (default [] (idx qs p))) ->
  (forall p q x, 0 <= p < 5 -> 0 <= q < 5 -> x ∈ default [] (idx qs p) -> x ∈ default [] (idx qs q) -> p = q) ->
  wf (s <| active_queues := qs |>).
Proof. intros [] Hl Ha Hn Hu. by constructor. Qed.

Lemma update_queues_spec s p id :
  wf s -> 0 <= p < 5 ->
  let qs := imap (fun i q => if Z.of_nat i =? p then q else retain_not id q) (active_queues s) in
  len qs = 5 /\ forall x, 0 <= x < 5 -> idx qs x = Some (if x =? p then queue s x else retain_not id (queue s x)).
Proof.
  intros H Hp qs. split; [unfold qs, len; rewrite length_imap; apply (wf_queues s H)|].
  intros x Hx. pose proof (idx_view (active_queues s) [] x ltac:(rewrite (wf_queues s H); lia)) as E.
  fold (queue s x) in E. unfold qs, idx in *. rewrite (proj2 (Z.leb_le 0 x)) in * by lia.
  rewrite list_lookup_imap, E. cbn. by rewrite Z2Nat.id by lia.
Qed.

Lemma update_message_spec s id prio :
  wf s -> 0 <= prio ->
  exists s', update_message s id prio = Some s' /\ wf s' /\ deficits s' = deficits s /\
    forall p x, 0 <= p < 5 ->
      x ∈ queue s' p <-> (x = id /\ p = Z.min prio 4) \/ (x <> id /\ x ∈ queue s p).
Proof.
  intros H Hprio. unfold update_message, NUM_PRIORITIES. change (5 - 1) with 4. set (p := Z.min prio 4).
  assert (0 <= p < 5) as Hp by lia.
  destruct (activate_spec s p H Hp) as (s1 & -> & H1 & Hlev & Hq1 & Hd1). run.
  assert (forall x, queue s1 x = queue s x) as Hqq by (intros x; unfold queue; by rewrite Hq1).
  destruct (update_queues_spec s1 p id H1 Hp) as [Hlen Hqs]. set (qs := imap _ _) in *.
  rewrite (Hqs p Hp), Z.eqb_refl. run. rewrite contains_elem, Hqq.
  set (f x := if x =? p then (if bool_decide (id ∈ queue s p) then queue s p else queue s p ++ [id]) else retain_not id (queue s x)).
  assert (forall x y, 0 <= x < 5 -> y ∈ f x <-> (y = id /\ x = p) \/ (y <> id /\ y ∈ queue s x)) as Hf.
  { intros x y Hx. unfold f. destruct (Z.eqb_spec x p) as [->|Hne].
    - case_bool_decide; rewrite ?elem_of_app, ?list_elem_of_singleton; destruct (decide (y = id)); naive_solver.
    - rewrite elem_of_retain_not. tauto. }
  assert (exists qs', (if bool_decide (id ∈ queue s p) then Some (s1 <| active_queues := qs |>)
      else queues ← upd qs p (queue s p ++ [id]); Some (s1 <| active_queues := queues |>)) =
      Some (s1 <| active_queues := qs' |>) /\ len qs' = 5 /\ forall x, 0 <= x < 5 -> default [] (idx qs' x) = f x)
    as (qs' & -> & Hlen' & Hqs').
  { case_bool_decide as Hin.
    - exists qs. split_and!; [done|done|]. intros x Hx. rewrite (Hqs x Hx), Hqq. unfold f.
      destruct (Z.eqb_spec x p) as [->|]; [|done]. done.
    - rewrite upd_ok by lia. eexists. split_and!; [done|by rewrite len_insert|]. intros x Hx.
      rewrite view_insert by lia. unfold f. destruct (Z.eqb_spec x p) as [->|].
      + by rewrite decide_True.
      + rewrite decide_False, (Hqs x Hx), Hqq by done. by rewrite (proj2 (Z.eqb_neq x p)). }
  eexists. split; [done|]. split_and!; [|by rewrite <- Hd1|intros x y Hx; unfold queue at 1; cbn; rewrite Hqs' by done; by apply Hf].
  apply wf_set_queues; [done|done| | |].
  - intros x Hx. rewrite Hqs' by done. destruct (f x) as [|y l] eqn:E; [done|]. intros _.
    assert (y ∈ f x) as Hy by (rewrite E; left). apply Hf in Hy as [[-> ->]|[_ Hy]]; [done| |done].
    apply (wf_active s1 H1); [done|]. rewrite Hqq. intros Hn. rewrite Hn in Hy. by apply not_elem_of_nil in Hy.
  - intros x Hx. rewrite Hqs' by done. pose proof (wf_queue_nodup s H x Hx). unfold f. destruct (Z.eqb_spec x p) as [->|].
    + case_bool_decide; [done|]. by apply NoDup_snoc.
    + by apply NoDup_retain_not.
  - intros x y z Hx Hy. rewrite !Hqs', !Hf by done. intros [[-> ->]|[Hz Hzx]] [[? ->]|[? Hzy]]; try done.
    by apply (wf_unique s H x y z).
Qed.

(** *** Removing a message *)

Lemma remove_from_level_spec s id p :
  wf s -> 0 <= p < 5 ->
  exists s', remove_from_level s id p = Some s' /\ wf s' /\
    forall x, 0 <= x < 5 -> queue s' x = if decide (x = p) then retain_not id (queue s p) else queue s x.
Proof.
  intros H Hp. unfold remove_from_level.
  rewrite (idx_view _ [] p) by (rewrite (wf_queues s H); lia). run. fold (queue s p).
  rewrite upd_ok by (rewrite (wf_queues s H); lia). run.
  set (q := retain_not id (queue s p)). set (qs := <[_ := q]> (active_queues s)).
  assert (forall x, 0 <= x < 5 -> default [] (idx qs x) = if decide (x = p) then q else queue s x) as Hqs.
  { intros x Hx. unfold qs. apply view_insert; [rewrite (wf_queues s H); lia|lia]. }
  assert (len qs = 5) as Hlen by (unfold qs; rewrite len_insert; apply (wf_queues s H)).
  assert (forall x y, 0 <= x < 5 -> y ∈ default [] (idx qs x) -> y ∈ queue s x) as Hsub.
  { intros x y Hx. rewrite Hqs by done. case_decide; [subst x|done]. by intros [? _]%elem_of_retain_not. }
  assert (wf (s <| active_queues := qs |>)) as H1.
  { apply wf_set_queues; [done|done| | |].
    - intros x Hx Hne. apply (wf_active s H); [done|]. destruct (default [] (idx qs x)) as [|y l] eqn:E; [done|].
      intros Hn. specialize (Hsub x y Hx ltac:(rewrite E; left)). rewrite Hn in Hsub. by apply not_elem_of_nil in Hsub.
    - intros x Hx. rewrite Hqs by done. case_decide; [|by apply (wf_queue_nodup s H)].
      apply NoDup_retain_not. by apply (wf_queue_nodup s H).
    - intros x y z Hx Hy Hzx%Hsub Hzy%Hsub; [|done..]. by apply (wf_unique s H x y z). }
  destruct q as [|y l] eqn:Eq; [|eexists; split_and!; [done|done|by apply Hqs]].
  rewrite !upd_ok by (rewrite ?(wf_deficits _ H1), ?(wf_needs _ H1); lia). run.
  eexists. split_and!; [done| |by apply Hqs].
  pose proof H1 as []. constructor; try assumption.
  - cbn. by rewrite len_insert, (wf_deficits s H).
  - cbn. by rewrite len_insert, (wf_needs s H).
  - intros x Hx. apply deficit_bounds_update; [done|done|done|lia].
  - apply NoDup_retain_not. apply (wf_levels_nodup s H).
  - intros x [Hx _]%elem_of_retain_not. by apply (wf_levels s H).
  - intros x Hx Hne. apply elem_of_retain_not. split; [by apply wf_active0|].
    intros ->. apply Hne. etrans; [by apply Hqs|]. by rewrite decide_True.
Qed.

Lemma remove_from_levels_spec levels s id :
  wf s -> (forall p, p ∈ levels -> 0 <= p < 5) ->
  exists s', remove_from_levels s id levels = Some s' /\ wf s' /\
    forall x y, 0 <= x < 5 -> y ∈ queue s' x <-> y ∈ queue s x /\ (y <> id \/ x ∉ levels).
Proof.
  revert s. induction levels as [|p levels IH]; intros s H Hl; cbn [remove_from_levels].
  { exists s. split_and!; [done|done|]. intros x y _. pose proof (not_elem_of_nil x). tauto. }
  destruct (remove_from_level_spec s id p H) as (s1 & -> & H1 & Hq1); [apply Hl; left|]. run.
  destruct (IH s1 H1) as (s2 & -> & H2 & Hq2); [intros; apply Hl; by right|].
  exists s2. split_and!; [done|done|]. intros x y Hx. rewrite Hq2, Hq1, elem_of_cons by done. case_decide.
  - subst x. rewrite elem_of_retain_not. tauto.
  - tauto.
Qed.

Lemma remove_message_spec s id :
  wf s -> exists s', remove_message s id = Some s' /\ wf s' /\
    forall p x, 0 <= p < 5 -> x ∈ queue s' p <-> x <> id /\ x ∈ queue s p.
Proof.
  intros H. unfold remove_message. rewrite (wf_queues s H).
  destruct (remove_from_levels_spec (zrange 0 5) s id H) as (s' & -> & H' & Hq); [by intros p ?%elem_of_zrange|].
  exists s'. split_and!; [done|done|]. intros p x Hp. rewrite Hq, elem_of_zrange by done. tauto.
Qed.

(** *** Choosing a message *)

Section NextMessageSpec.
Context (is_ready : Z -> option (option Z)) (maxsize : Z).
Hypothesis ready_total : forall id, exists r, is_ready id = Some r /\ forall size, r = Some size -> 0 <= size <= maxsize.
Hypothesis maxsize_i32 : maxsize < 2 ^ 31.

Definition ready (id size : Z) : Prop := is_ready id = Some (Some size).

Lemma rotate_perm q : rotate_left1 q ≡ₚ q.
Proof. destruct q as [|x q]; [done|]. cbn. by rewrite Permutation_app_comm. Qed.

Lemma ready_size id size : ready id size -> 0 <= size <= maxsize /\ as_i32 size = size.
Proof.
  intros H. destruct (ready_total id) as (r & Hr & Hs). unfold ready in H. rewrite H in Hr.
  injection Hr as <-. specialize (Hs size eq_refl). split; [done|]. apply as_i32_small. lia.
Qed.

Lemma scan_queue_spec n q d :
  (n <= length q)%nat ->
  exists q' r, scan_queue is_ready n q d = Some (q', r) /\ q' ≡ₚ q /\
    match r with
    | Chosen mid size => mid ∈ q /\ ready mid size /\ size <= d
    | Exhausted => exists id size, id ∈ q /\ ready id size /\ d < size
    | NothingReady => forall id, id ∈ take n q -> is_ready id = Some None
    end.
Proof.
  revert q. induction n as [|n IH]; intros q Hn; cbn [scan_queue].
  { exists q, NothingReady. split_and!; [done|done|]. intros id Hid. by apply not_elem_of_nil in Hid. }
  destruct q as [|x q]; [cbn in Hn; lia|]. cbn [List.hd_error]. run.
  destruct (ready_total x) as (r & Hr & _). rewrite Hr. run. destruct r as [size|].
  - destruct (ready_size x size Hr) as [Hsz Has]. rewrite Has. destruct (Z.leb_spec size d).
    + eexists _, _. split; [done|]. split; [apply rotate_perm|]. split_and!; [left|done|done].
    + eexists _, _. split; [done|]. split; [done|]. exists x, size. split_and!; [left|done|done].
  - destruct (IH (rotate_left1 (x :: q))) as (q' & r & -> & Hp & Hcase).
    { rewrite rotate_perm. cbn in *. lia. }
    exists q', r. split; [done|]. split; [by rewrite Hp, rotate_perm|].
    assert (forall y, y ∈ rotate_left1 (x :: q) -> y ∈ x :: q) as Hel by (intros y; by rewrite rotate_perm).
    destruct r as [mid size| |]; [naive_solver|naive_solver|].
    intros id [->|Hid]%elem_of_cons; [done|]. apply Hcase. cbn [rotate_left1]. cbn in Hn.
    rewrite take_app_le by lia. done.
Qed.

(** The deficit of a level after its visit started. *)
Definition topped (s : t) (p : Z) : Z := if needs s p then Z.min (deficit s p + quantum p) 16384 else deficit s p.

Lemma quantum_bounds p : 0 <= p < 5 -> 512 <= quantum p <= 4096.
Proof.
  intros Hp. assert (p = 0 \/ p = 1 \/ p = 2 \/ p = 3 \/ p = 4) as Hc by lia.
  destruct Hc as [->|[->|[->|[->| ->]]]]; vm_compute; split; discriminate.
Qed.

Lemma topped_bounds s p : wf s -> 0 <= p < 5 -> 0 <= topped s p <= 16384.
Proof.
  intros H Hp. unfold topped. pose proof (wf_deficit s H p Hp). pose proof (quantum_bounds p Hp).
  destruct (needs s p); lia.
Qed.

Lemma replenish_spec s p levels :
  wf s -> 0 <= p < 5 ->
  exists ds ns, replenish (s <| active_levels := levels |>) p =
      Some (mk ds (quantums s) (active_queues s) levels ns) /\
    len ds = 5 /\ len ns = 5 /\
    (forall x, 0 <= x < 5 -> default 0 (idx ds x) = if decide (x = p) then topped s p else deficit s x) /\
    (forall x, 0 <= x < 5 -> default false (idx ns x) = if decide (x = p) then false else needs s x).
Proof.
  intros H Hp. unfold replenish, topped. cbn [needs_quantum deficits quantums set_field]. pose proof (wf_deficit s H p Hp). pose proof (quantum_bounds p Hp).
  rewrite (idx_view (needs_quantum s) false p) by (rewrite (wf_needs s H); lia). run. fold (needs s p).
  destruct (needs s p) eqn:En.
  - rewrite (idx_view (deficits s) 0 p) by (rewrite (wf_deficits s H); lia). run. fold (deficit s p).
    assert (idx (quantums s) p = Some (quantum p)) as ->.
    { rewrite (wf_quantums s H). apply idx_view. change (len DEFAULT_QUANTUMS) with 5. lia. }
    run. run_chk.
    rewrite !upd_ok by (rewrite ?(wf_deficits s H), ?(wf_needs s H); lia). run.
    exists (<[Z.to_nat p := Z.min (deficit s p + quantum p) 16384]> (deficits s)), (<[Z.to_nat p := false]> (needs_quantum s)).
    split; [done|]. rewrite !len_insert, (wf_deficits s H), (wf_needs s H). split_and!; [done|done| |];
      intros x Hx; rewrite view_insert by (rewrite ?(wf_deficits s H), ?(wf_needs s H); lia); done.
  - exists (deficits s), (needs_quantum s). split; [done|].
    split_and!; [apply (wf_deficits s H)|apply (wf_needs s H)| |]; intros x Hx; case_decide; by subst.
Qed.

Lemma wf_rebuild s ds qs lv ns :
  wf s -> len ds = 5 -> (forall x, 0 <= x < 5 -> 0 <= default 0 (idx ds x) <= 16384) -> len qs = 5 -> len ns = 5 ->
  NoDup lv -> (forall x, x ∈ lv -> 0 <= x < 5) ->
  (forall x, 0 <= x < 5 -> default [] (idx qs x) ≡ₚ queue s x) ->
  (forall x, x ∈ active_levels s -> queue s x <> [] -> x ∈ lv) ->
  wf (mk ds (quantums s) qs lv ns).
Proof.
  intros H Hds Hdb Hqs Hns Hnd Hlv Hq Hact. constructor; try done.
  - apply (wf_quantums s H).
  - intros x Hx Hne. assert (queue s x <> []) as Hne'.
    { intros E. apply Hne. specialize (Hq x Hx). rewrite E in Hq. by apply Permutation_nil_r in Hq. }
    apply Hact; [by apply (wf_active s H)|done].
  - intros x Hx. unfold queue. cbn. rewrite Hq by done. by apply (wf_queue_nodup s H).
  - intros x y z Hx Hy. unfold queue. cbn. rewrite !Hq by done. by apply (wf_unique s H).
Qed.

(** What one visit of a level does. *)
Definition visited (s : t) (p : Z) (levels : list Z) (s' : t) (r : option Z) : Prop :=
  wf s' /\ (forall x, 0 <= x < 5 -> queue s' x ≡ₚ queue s x) /\
  (forall x, 0 <= x < 5 -> x <> p -> deficit s' x = deficit s x /\ needs s' x = needs s x) /\
  match r with
  | Some mid => exists size, mid ∈ queue s p /\ ready mid size /\ size <= topped s p /\ deficit s' p = topped s p - size
  | None =>
      (queue s p = [] /\ active_levels s' = levels) \/
      (active_levels s' = levels ++ [p] /\ needs s' p = true /\ deficit s' p = topped s p /\
       ((exists id size, id ∈ queue s p /\ ready id size) -> topped s p < maxsize))
  end.

Lemma serve_level_spec s p levels :
  wf s -> active_levels s = p :: levels ->
  exists s' r, serve_level is_ready (s <| active_levels := levels |>) p = Some (s', r) /\ visited s p levels s' r.
Proof.
  intros H Hal. assert (0 <= p < 5) as Hp by (apply (wf_levels s H); rewrite Hal; left).
  pose proof (wf_levels_nodup s H) as Hnd. rewrite Hal in Hnd. inversion Hnd as [|? ? Hpl Hnd']; subst.
  assert (forall x, x ∈ levels -> 0 <= x < 5) as Hlv by (intros x Hx; apply (wf_levels s H); rewrite Hal; by right).
  pose proof (topped_bounds s p H Hp) as Htop.
  unfold serve_level. cbn [active_queues set_field].
  rewrite (idx_view (active_queues s) [] p) by (rewrite (wf_queues s H); lia). run. fold (queue s p).
  destruct (queue s p) as [|y ys] eqn:Eq.
  - cbn [deficits needs_quantum set_field].
    rewrite !upd_ok by (rewrite ?(wf_deficits s H), ?(wf_needs s H); lia). run.
    exists (mk (<[Z.to_nat p := 0]> (deficits s)) (quantums s) (active_queues s) levels (<[Z.to_nat p := true]> (needs_quantum s))), None.
    split; [done|]. split_and!.
    + apply (wf_rebuild s); rewrite ?len_insert; try done; try apply H.
      * intros x Hx. apply deficit_bounds_update; [done|done|done|lia].
      * intros x Hx Hne. rewrite Hal in Hx. apply elem_of_cons in Hx as [->|Hx]; [by rewrite Eq in Hne|done].
    + done.
    + intros x Hx Hne. unfold deficit, needs. cbn.
      rewrite !view_insert by (rewrite ?(wf_deficits s H), ?(wf_needs s H); lia). by rewrite !decide_False by done.
    + by left.
  - destruct (replenish_spec s p levels H Hp) as (ds & ns & -> & Hlds & Hlns & Hds & Hns). run.
    cbn [deficits set_field]. rewrite (idx_view ds 0 p), (Hds p Hp), decide_True by (lia || done). run.
    destruct (scan_queue_spec (length (y :: ys)) (y :: ys) (topped s p) ltac:(done)) as (q' & found & -> & Hperm & Hf). run.
    cbn [active_queues set_field]. rewrite upd_ok by (rewrite (wf_queues s H); lia). run.
    set (qs := <[_ := q']> _).
    assert (forall x, 0 <= x < 5 -> default [] (idx qs x) ≡ₚ queue s x) as Hqs.
    { intros x Hx. unfold qs. rewrite view_insert by (rewrite ?(wf_queues s H); lia). case_decide; [subst; by rewrite Eq|done]. }
    assert (len qs = 5) as Hlqs by (unfold qs; rewrite len_insert; apply H).
    assert (forall ds' lv ns', len ds' = 5 -> (forall x, 0 <= x < 5 -> 0 <= default 0 (idx ds' x) <= 16384) -> len ns' = 5 ->
      NoDup lv -> (forall x, x ∈ lv <-> x = p \/ x ∈ levels) -> wf (mk ds' (quantums s) qs lv ns')) as Hre.
    { intros ds' lv ns' ? ? ? ? Hel. apply (wf_rebuild s); try done.
      - intros x [->|Hx]%Hel; [done|by apply Hlv].
      - intros x Hx _. apply Hel. rewrite Hal in Hx. by apply elem_of_cons in Hx. }
    assert (NoDup (levels ++ [p]) /\ (forall x, x ∈ levels ++ [p] <-> x = p \/ x ∈ levels)) as [Hnb Heb].
    { split; [by apply NoDup_snoc|]. intros x. rewrite elem_of_snoc. tauto. }
    assert (forall ds', len ds' = 5 ->
      push_back_level (mk ds' (quantums s) qs levels ns) p =
      Some (mk ds' (quantums s) qs (levels ++ [p]) (<[Z.to_nat p := true]> ns))) as Hpush.
    { intros ds' Hl'. unfold push_back_level. cbn [needs_quantum active_levels]. by rewrite upd_ok by lia. }
    assert (forall x, 0 <= x < 5 -> x <> p ->
      default false (idx (<[Z.to_nat p := true]> ns) x) = needs s x) as Hns'.
    { intros x Hx Hne. rewrite view_insert by lia. by rewrite decide_False, Hns, decide_False by done. }
    assert (forall x, 0 <= x < 5 -> 0 <= default 0 (idx ds x) <= 16384) as Hdsb.
    { intros x Hx. rewrite Hds by done. case_decide; [done|by apply (wf_deficit s H)]. }
    assert (len (<[Z.to_nat p := true]> ns) = 5) as Hlns' by (by rewrite len_insert).
    change ((mk ds (quantums s) (active_queues s) levels ns) <| active_queues := qs |>) with (mk ds (quantums s) qs levels ns).
    destruct found as [mid size| |].
    + destruct Hf as (Hmid & Hrd & Hle). destruct (ready_size mid size Hrd) as [Hsz ->]. run_chk.
      cbn [deficits]. rewrite upd_ok by lia. run. set (ds' := <[_ := topped s p - size]> ds).
      change ((mk ds (quantums s) qs levels ns) <| deficits := ds' |>) with (mk ds' (quantums s) qs levels ns).
      assert (len ds' = 5) as Hlds' by (unfold ds'; by rewrite len_insert).
      assert (forall x, 0 <= x < 5 -> default 0 (idx ds' x) = if decide (x = p) then topped s p - size else deficit s x) as Hds'.
      { intros x Hx. unfold ds'. rewrite view_insert by lia. case_decide; [done|]. by rewrite Hds, decide_False. }
      assert (forall x, 0 <= x < 5 -> 0 <= default 0 (idx ds' x) <= 16384) as Hdsb'.
      { intros x Hx. rewrite Hds' by done. case_decide; [lia|by apply (wf_deficit s H)]. }
      destruct (0 <? topped s p - size).
      * exists (mk ds' (quantums s) qs (p :: levels) ns), (Some mid). split; [done|]. split_and!.
        -- apply Hre; try done. intros x. apply elem_of_cons.
        -- done.
        -- intros x Hx Hne. unfold deficit, needs. cbn. by rewrite Hds', Hns, !decide_False.
        -- exists size. rewrite Eq. split_and!; try done. unfold deficit at 1. cbn. by rewrite Hds', decide_True.
      * rewrite Hpush by done. run. eexists _, (Some mid). split; [done|]. split_and!.
        -- by apply Hre.
        -- done.
        -- intros x Hx Hne. unfold deficit, needs. cbn. by rewrite Hds', Hns', decide_False.
        -- exists size. rewrite Eq. split_and!; try done. unfold deficit at 1. cbn. by rewrite Hds', decide_True.
    + rewrite Hpush by done. run. eexists _, None. split; [done|]. split_and!.
      * by apply Hre.
      * done.
      * intros x Hx Hne. unfold deficit, needs. cbn. by rewrite Hds, Hns', decide_False.
      * right. split_and!; [done| | |].
        -- unfold needs. cbn. rewrite view_insert by lia. by rewrite decide_True.
        -- unfold deficit. cbn. by rewrite Hds, decide_True.
        -- intros _. destruct Hf as (id & size & _ & Hr & Hlt). destruct (ready_size id size Hr) as [? _]. lia.
    + rewrite Hpush by done. run. eexists _, None. split; [done|]. split_and!.
      * by apply Hre.
      * done.
      * intros x Hx Hne. unfold deficit, needs. cbn. by rewrite Hds, Hns', decide_False.
      * right. split_and!; [done| | |].
        -- unfold needs. cbn. rewrite view_insert by lia. by rewrite decide_True.
        -- unfold deficit. cbn. by rewrite Hds, decide_True.
        -- rewrite Eq. intros (id & size & Hid & Hr). rewrite firstn_all in Hf. specialize (Hf id Hid).
           unfold ready in Hr. congruence.
Qed.

(** What a round over the levels [todo] does. *)
Definition round (s : t) (todo : list Z) (s' : t) (r : option Z) : Prop :=
  wf s' /\ (forall x, 0 <= x < 5 -> queue s' x ≡ₚ queue s x) /\
  match r with
  | Some mid => exists p size, p ∈ todo /\ mid ∈ queue s p /\ ready mid size /\ size <= topped s p /\
                  deficit s' p = topped s p - size
  | None =>
      (forall x, 0 <= x < 5 -> x ∉ todo -> deficit s' x = deficit s x /\ needs s' x = needs s x) /\
      (forall p, p ∈ todo -> (exists id size, id ∈ queue s p /\ ready id size) ->
         needs s' p = true /\ deficit s' p = topped s p /\ topped s p < maxsize)
  end.

Lemma serve_levels_spec todo back s :
  wf s -> active_levels s = todo ++ back ->
  exists s' r, serve_levels is_ready (length todo) s = Some (s', r) /\ round s todo s' r.
Proof.
  revert back s. induction todo as [|p todo IH]; intros back s H Hal; cbn [length serve_levels].
  { exists s, None. split; [done|]. split_and!; [done|done|done|]. intros p Hp. by apply not_elem_of_nil in Hp. }
  rewrite Hal. cbn [app]. destruct (serve_level_spec s p (todo ++ back) H Hal) as (s1 & r1 & -> & H1 & Hq1 & Hother & Hr1). run.
  assert (0 <= p < 5) as Hp by (apply (wf_levels s H); rewrite Hal; left).
  assert (forall x, x ∈ todo -> 0 <= x < 5) as Htodo.
  { intros x Hx. apply (wf_levels s H). rewrite Hal. right. apply elem_of_app. by left. }
  assert (p ∉ todo) as Hpt.
  { pose proof (wf_levels_nodup s H) as Hnd. rewrite Hal in Hnd. inversion Hnd as [|? ? Hn _]; subst.
    intros Hx. apply Hn. cbn. apply elem_of_app. by left. }
  destruct r1 as [mid|].
  { destruct Hr1 as (size & ? & ? & ? & ?). exists s1, (Some mid). split; [done|]. split_and!; [done|done|].
    exists p, size. split_and!; [left|done..]. }
  assert (exists back', active_levels s1 = todo ++ back') as [back' Hal1].
  { destruct Hr1 as [[_ ->]|[-> _]]; [by eexists|]. exists (back ++ [p]). by rewrite app_assoc. }
  destruct (IH back' s1 H1 Hal1) as (s2 & r & -> & H2 & Hq2 & Hr). exists s2, r. split; [done|].
  assert (forall x, x ∈ todo -> topped s1 x = topped s x) as Htop.
  { intros x Hx. destruct (Hother x (Htodo x Hx) ltac:(by intros ->)) as [E1 E2]. unfold topped. by rewrite E1, E2. }
  split_and!; [done|intros x Hx; by rewrite Hq2, Hq1|]. destruct r as [mid|].
  - destruct Hr as (x & size & Hx & Hm & ? & ? & ?). rewrite Htop in * by done. rewrite Hq1 in Hm by auto.
    exists x, size. split_and!; [by right|done..].
  - destruct Hr as [Hout Hin]. split.
    + intros x Hx Hnx. rewrite elem_of_cons in Hnx. destruct (Hout x Hx ltac:(tauto)) as [-> ->]. apply Hother; tauto.
    + intros x Hx Hready. apply elem_of_cons in Hx as [->|Hx].
      * destruct (Hout p Hp Hpt) as [-> ->]. destruct Hr1 as [[Hn _]|(_ & ? & ? & Hlt)]; [|tauto].
        destruct Hready as (id & size & Hid & _). rewrite Hn in Hid. by apply not_elem_of_nil in Hid.
      * rewrite <- (Htop x Hx). apply Hin; [done|]. by setoid_rewrite Hq1; [|by apply Htodo].
Qed.

Lemma next_message_spec s :
  wf s -> exists s' r, next_message is_ready s = Some (s', r) /\ round s (active_levels s) s' r.
Proof. intros H. apply (serve_levels_spec (active_levels s) [] s H). by rewrite app_nil_r. Qed.

(** Calling [next_message] until it answers, at most [k] times. *)
Fixpoint next_within (k : nat) (s : t) : option (t * option Z) :=
  match k with
  | O => Some (s, None)
  | S k =>
      '(s, r) ← next_message is_ready s;
      match r with Some mid => Some (s, Some mid) | None => next_within k s end
  end.

Lemma next_within_spec k s p id size :
  wf s -> maxsize <= 16384 -> 0 <= p < 5 -> id ∈ queue s p -> ready id size -> needs s p = true ->
  maxsize <= deficit s p + Z.of_nat k * 512 -> (0 < k)%nat ->
  exists s' mid, next_within k s = Some (s', Some mid).
Proof.
  intros H Hmax Hp. revert s H. induction k as [|k IH]; intros s H Hid Hr Hn Hk H0; [lia|]. cbn [next_within].
  destruct (next_message_spec s H) as (s1 & r & -> & H1 & Hq & Hcase). run. destruct r as [mid|]; [eauto|].
  destruct Hcase as [_ Hin]. destruct (Hin p) as (Hn1 & Hd1 & Hlt); [|eauto|].
  { apply (wf_active s H p Hp). intros E. rewrite E in Hid. by apply not_elem_of_nil in Hid. }
  unfold topped in Hd1, Hlt. rewrite Hn in Hd1, Hlt. pose proof (quantum_bounds p Hp). pose proof (wf_deficit s H p Hp).
  apply IH; [done|by rewrite Hq|done|done|lia|]. destruct k; [|lia]. lia.
Qed.

End NextMessageSpec.

(** *** Theorems *)

(** Queueing and removing.  On a well-formed scheduler [update_message]
    and [remove_message] never panic and keep it well formed (every message
    under at most one level, every level with messages in the round exactly
    once, deficits within bounds).  Afterwards the message is filed under
    exactly the level of its priority, respectively nowhere, and every other
    message is where it was. *)
Theorem scheduler_membership s id prio :
  wf s -> 0 <= prio ->
  (exists s', update_message s id prio = Some s' /\ wf s' /\
     forall p x, 0 <= p < 5 -> x ∈ queue s' p <-> (x = id /\ p = Z.min prio 4) \/ (x <> id /\ x ∈ queue s p)) /\
  (exists s', remove_message s id = Some s' /\ wf s' /\
     forall p x, 0 <= p < 5 -> x ∈ queue s' p <-> x <> id /\ x ∈ queue s p).
Proof.
  intros H Hp. split; [|by apply remove_message_spec].
  destruct (update_message_spec s id prio H Hp) as (s' & ? & ? & _ & ?). by exists s'.
Qed.

Lemma scheduler_membership_witness :
  exists s', update_message new 7 9 = Some s' /\ 7 ∈ queue s' 4.
Proof.
  destruct (scheduler_membership new 7 9 new_scheduler_wf ltac:(lia)) as [(s' & H & _ & Hq) _].
  exists s'. split; [exact H|]. apply Hq; [lia|]. by left.
Defined.

(** Choosing a message.  When the readiness test answers for every message
    with sizes below 2^31, [next_message] never panics and keeps the scheduler
    well formed with the same messages per level.  A message it returns was
    queued, is ready, and its size was within the deficit of its level (topped
    up by the quantum, capped at 16384 bytes), which is charged exactly that
    size. *)
Theorem next_message_sound is_ready s :
  (forall id, exists r, is_ready id = Some r /\ forall size, r = Some size -> 0 <= size < 2 ^ 31) -> wf s ->
  exists s' r, next_message is_ready s = Some (s', r) /\ wf s' /\
    (forall p, 0 <= p < 5 -> queue s' p ≡ₚ queue s p) /\
    (forall mid, r = Some mid -> exists p size, 0 <= p < 5 /\ mid ∈ queue s p /\ is_ready mid = Some (Some size) /\
       size <= topped s p /\ deficit s' p = topped s p - size).
Proof.
  intros Hr H. destruct (next_message_spec is_ready (2 ^ 31 - 1)) with (s := s) as (s' & r & Heq & H' & Hq & Hcase).
  - intros id. destruct (Hr id) as (x & ? & Hx). exists x. split; [done|]. intros size Hs. specialize (Hx size Hs). lia.
  - lia.
  - done.
  - exists s', r. split_and!; [done..|]. intros mid ->. destruct Hcase as (p & size & Hp & Hm & Hrd & Hle & Hd).
    exists p, size. split_and!; try done; by apply (wf_levels s H).
Qed.

(** Two messages, one of each of two levels, the bulk one always ready. *)
Definition two_levels : t :=
  match update_message new 7 4 with
  | Some s => match update_message s 8 0 with Some s => s | None => new end
  | None => new
  end.

Lemma two_levels_wf : wf two_levels /\ 7 ∈ queue two_levels 4.
Proof.
  unfold two_levels. destruct (update_message_spec new 7 4 new_scheduler_wf ltac:(lia)) as (s1 & -> & H1 & _ & Hq1).
  destruct (update_message_spec s1 8 0 H1 ltac:(lia)) as (s2 & -> & H2 & _ & Hq2). split; [done|].
  apply Hq2; [lia|]. right. split; [lia|]. apply Hq1; [lia|]. by left.
Qed.

Definition bulk_ready (id : Z) : option (option Z) := Some (if id =? 7 then Some 400 else None).

Lemma bulk_ready_total id : exists r, bulk_ready id = Some r /\ forall size, r = Some size -> 0 <= size <= 400.
Proof. unfold bulk_ready. eexists. split; [done|]. intros size. destruct (id =? 7); [intros [= <-]; lia|done]. Qed.

Lemma next_message_sound_witness :
  exists s' p, next_message bulk_ready two_levels = Some (s', Some 7) /\ deficit s' p = topped two_levels p - 400.
Proof.
  destruct (next_message_sound bulk_ready two_levels) as (s' & r & Heq & _ & _ & Hr).
  - intros id. destruct (bulk_ready_total id) as (r & ? & Hs). exists r. split; [done|]. intros size E. specialize (Hs size E). lia.
  - apply two_levels_wf.
  - assert (r = Some 7) as -> by (vm_compute in Heq; congruence).
    destruct (Hr 7 eq_refl) as (p & size & _ & _ & Hs & _ & Hd). injection Hs as <-. by exists s', p.
Defined.

(** C38: No starvation.  If some queued message is ready and no ready fragment
    is larger than 1536 bytes (the session's fragments are at most 1353), then,
    readiness unchanged, [next_message] returns a message within four calls:
    every unsuccessful call tops up the deficits of the levels that have
    something to send. *)
Theorem next_message_progress is_ready s p id size :
  (forall id, exists r, is_ready id = Some r /\ forall size, r = Some size -> 0 <= size <= 1536) ->
  wf s -> 0 <= p < 5 -> id ∈ queue s p -> is_ready id = Some (Some size) ->
  exists s' mid, next_within is_ready 4 s = Some (s', Some mid).
Proof.
  intros Hr H Hp Hid Hs. change 4%nat with (S 3). cbn [next_within].
  destruct (next_message_spec is_ready 1536 Hr ltac:(lia) s H) as (s1 & r & -> & H1 & Hq & Hcase). run.
  destruct r as [mid|]; [eauto|]. destruct Hcase as [_ Hin].
  destruct (Hin p) as (Hn1 & Hd1 & _); [|eauto|].
  { apply (wf_active s H p Hp). intros E. rewrite E in Hid. by apply not_elem_of_nil in Hid. }
  pose proof (wf_deficit s1 H1 p Hp).
  apply (next_within_spec is_ready 1536 Hr ltac:(lia) 3 s1 p id size); try done; try lia. by rewrite Hq.
Qed.

Lemma next_message_progress_witness : exists s' mid, next_within bulk_ready 4 two_levels = Some (s', Some mid).
Proof.
  apply (next_message_progress bulk_ready two_levels 4 7 400).
  - intros id. destruct (bulk_ready_total id) as (r & ? & Hs). exists r. split; [done|]. intros size E. specialize (Hs size E). lia.
  - apply two_levels_wf.
  - lia.
  - apply two_levels_wf.
  - reflexivity.
Defined.

(** A single call need not serve a ready message: a bulk fragment of 1353 bytes
    meets a deficit of one quantum, 512 bytes. *)
Example next_message_may_defer :
  (s ← update_message new 7 4; '(_, r) ← next_message (fun _ => Some (Some 1353)) s; Some r) = Some None.
Proof. vm_compute. reflexivity. Qed.

End PriorityScheduler.
