(* ===== verification/Congestion.v ===== *)
(** Congestion control ([tox-sequenced/src/congestion/]): the interface
    [CongestionControl] of [mod.rs], its implementations [Aimd] ([aimd.rs]),
    [Cubic] ([cubic.rs]), [Bbrv1] ([bbrv1.rs]) and [Bbrv2] ([bbrv2.rs]), and the
    dispatching enumeration [Algorithm].

    All rates, gains and windows are the single-precision numbers of
    [Float32.v].  The random generator of the BBR algorithms and the power
    functions of CUBIC are library code: they are parameters. *)

From S2P Require Import Prelude Protocol Float32 F32Theory.
From Stdlib Require Import SpecFloat Reals Lra.
#[local] Open Scope Z_scope.
#[local] Open Scope list_scope.

Record DeliverySample := mkSample {
  bytes_delivered : Z;
  duration : Duration;
  sample_now : Instant;
  sample_app_limited : bool
}.

(** The trait; [None] is a panic. *)
Class CongestionControl (C : Type) := {
  on_ack : C -> Duration -> option DeliverySample -> Z -> Z -> Instant -> option C;
  on_nack : C -> Instant -> option C;
  on_timeout : C -> Instant -> option C;
  cwnd : C -> Z;
  pacing_rate : C -> f32;
  min_rtt : C -> Duration;
  on_fragment_sent : C -> Z -> Instant -> C
}.

(** The random source handed to the algorithms. *)
Class RandSource (Rng : Type) := {
  next_u32 : Rng -> Z * Rng;
  gen_usize : Rng -> Z * Rng;
  gen_range : Rng -> Z -> Z -> Z * Rng
}.

(** [protocol::PACING_GAIN] *)
Definition PACING_GAIN : f32 := F32.of_Z 2.

(** Literals shared by the algorithms. *)
Definition f_half : f32 := F32.lit 1 2.
Definition f_one : f32 := F32.of_Z 1.
Definition f_two : f32 := F32.of_Z 2.
Definition f_mtu : f32 := F32.of_Z ESTIMATED_PAYLOAD_SIZE.

(** [last_rtt.as_secs_f32().clamp(0.01, 1.0)] *)
Definition clamped_secs (d : Duration) : f32 := F32.clamp (as_secs_f32 d) (F32.lit 1 100) f_one.

(** [now.saturating_duration_since(stamp) > limit] for a recorded time stamp *)
Definition older (stamp : option Instant) (now : Instant) (limit : Duration) (absent : bool) : bool :=
  match stamp with Some s => limit <? since now s | None => absent end.

Module Aimd.

Definition INITIAL_CWND : f32 := F32.of_Z 10.
Definition INITIAL_SSTHRESH : f32 := F32.of_Z 64.
Definition MIN_SSTHRESH : f32 := F32.of_Z 2.

Record t := mk { a_cwnd : f32; ssthresh : f32; last_rtt : Duration }.
#[global] Instance eta_t : Settable t := fun a => mk (a_cwnd a) (ssthresh a) (last_rtt a).

Definition with_cwnd (initial_cwnd : f32) : t := mk initial_cwnd INITIAL_SSTHRESH (from_millis 200).
Definition new : t := with_cwnd INITIAL_CWND.

Definition ack (a : t) (rtt : Duration) (bytes_acked : Z) : t :=
  let fragments_acked := F32.div (F32.of_Z bytes_acked) f_mtu in
  let a := if F32.lt (a_cwnd a) (ssthresh a)
           then a <| a_cwnd := F32.add (a_cwnd a) fragments_acked |>
           else a <| a_cwnd := F32.add (a_cwnd a) (F32.div fragments_acked (a_cwnd a)) |> in
  a <| last_rtt := rtt |>.

Definition nack (a : t) : t :=
  let a := a <| ssthresh := F32.max (F32.div (a_cwnd a) f_two) MIN_SSTHRESH |> in
  a <| a_cwnd := ssthresh a |>.

Definition timeout (a : t) : t :=
  let a := a <| ssthresh := F32.max (F32.div (a_cwnd a) f_two) MIN_SSTHRESH |> in
  a <| a_cwnd := f_one |>.

Definition window (a : t) : Z := F32.to_usize (a_cwnd a).

Definition rate (a : t) : f32 :=
  F32.div (F32.mul (F32.mul (a_cwnd a) f_mtu) PACING_GAIN) (clamped_secs (last_rtt a)).

#[global] Instance control : CongestionControl t := {
  on_ack a rtt _ bytes_acked _ _ := Some (ack a rtt bytes_acked);
  on_nack a _ := Some (nack a);
  on_timeout a _ := Some (timeout a);
  cwnd := window;
  pacing_rate := rate;
  min_rtt := last_rtt;
  on_fragment_sent a _ _ := a
}.

End Aimd.

(** [f32::powi] and [f32::powf] *)
Class PowerFunctions := { powi : f32 -> Z -> f32; powf : f32 -> f32 -> f32 }.

Module Cubic.

Definition INITIAL_CWND : f32 := F32.of_Z 10.
Definition INITIAL_SSTHRESH : f32 := F32.of_Z 64.
Definition MIN_CWND : f32 := F32.of_Z 2.
Definition C : f32 := F32.lit 2 5.
Definition BETA : f32 := F32.lit 7 10.

Record t := mk {
  c_cwnd : f32; ssthresh : f32; w_max : f32; k : f32; epoch_start : option Instant;
  origin_cwnd : f32; tcp_cwnd : f32; last_rtt : Duration
}.
#[global] Instance eta_t : Settable t := fun c =>
  mk (c_cwnd c) (ssthresh c) (w_max c) (k c) (epoch_start c) (origin_cwnd c) (tcp_cwnd c) (last_rtt c).

Definition new : t :=
  {| c_cwnd := INITIAL_CWND; ssthresh := INITIAL_SSTHRESH; w_max := F32.of_Z 0; k := F32.of_Z 0;
     epoch_start := None; origin_cwnd := F32.of_Z 0; tcp_cwnd := INITIAL_CWND;
     last_rtt := from_millis 200 |}.

Section Cubic.
Context `{PowerFunctions}.

Definition third : f32 := F32.div f_one (F32.of_Z 3).

Definition update_cwnd (c : t) (now : Instant) : t :=
  match epoch_start c with
  | Some start =>
      let t := as_secs_f32 (since now start) in
      let target := F32.add (F32.mul C (powi (F32.sub t (k c)) 3)) (w_max c) in
      if F32.lt target (tcp_cwnd c) then c <| c_cwnd := tcp_cwnd c |> else c <| c_cwnd := target |>
  | None => c
  end.

Definition start_epoch (c : t) (now : Instant) : t :=
  match epoch_start c with
  | None =>
      let c := c <| epoch_start := Some now |> in
      let c := if F32.lt (c_cwnd c) (w_max c)
               then c <| k := powf (F32.div (F32.sub (w_max c) (c_cwnd c)) C) third |>
                      <| origin_cwnd := c_cwnd c |>
               else c <| k := F32.of_Z 0 |> <| origin_cwnd := c_cwnd c |> in
      c <| tcp_cwnd := c_cwnd c |>
  | Some _ => c
  end.

Definition ack (c : t) (rtt : Duration) (bytes_acked : Z) (now : Instant) : t :=
  let c := c <| last_rtt := rtt |> in
  let fragments_acked := F32.div (F32.of_Z bytes_acked) f_mtu in
  if F32.lt (c_cwnd c) (ssthresh c) then
    let c := c <| c_cwnd := F32.add (c_cwnd c) fragments_acked |> in
    c <| tcp_cwnd := c_cwnd c |>
  else
    let c := start_epoch c now in
    let c := c <| tcp_cwnd := F32.add (tcp_cwnd c) (F32.div fragments_acked (tcp_cwnd c)) |> in
    update_cwnd c now.

Definition nack (c : t) : t :=
  let c := c <| epoch_start := None |> in
  let c := if F32.lt (c_cwnd c) (w_max c)
           then c <| w_max := F32.div (F32.mul (c_cwnd c) (F32.add f_one BETA)) f_two |>
           else c <| w_max := c_cwnd c |> in
  let c := c <| c_cwnd := F32.max (F32.mul (c_cwnd c) BETA) MIN_CWND |> in
  let c := c <| ssthresh := c_cwnd c |> in
  let c := c <| tcp_cwnd := c_cwnd c |> in
  c <| k := powf (F32.div (F32.mul (w_max c) (F32.sub f_one BETA)) C) third |>.

Definition timeout (c : t) : t :=
  let c := c <| epoch_start := None |> in
  let c := c <| w_max := c_cwnd c |> in
  let c := c <| ssthresh := F32.max (F32.mul (c_cwnd c) BETA) MIN_CWND |> in
  c <| c_cwnd := f_one |> <| tcp_cwnd := f_one |>.

Definition window (c : t) : Z := F32.to_usize (F32.max (c_cwnd c) MIN_CWND).

Definition rate (c : t) : f32 :=
  F32.div (F32.mul (F32.mul (c_cwnd c) f_mtu) PACING_GAIN) (clamped_secs (last_rtt c)).

#[global] Instance control : CongestionControl t := {
  on_ack c rtt _ bytes_acked _ now := Some (ack c rtt bytes_acked now);
  on_nack c _ := Some (nack c);
  on_timeout c _ := Some (timeout c);
  cwnd := window;
  pacing_rate := rate;
  min_rtt := last_rtt;
  on_fragment_sent c _ _ := c
}.

End Cubic.
End Cubic.

(** ** BBR *)

Definition RT_PROP_FILTER_LEN : Duration := from_secs 10.
Definition PROBE_RTT_INTERVAL : Duration := from_secs 10.
Definition STARTUP_PACING_GAIN : f32 := F32.lit 2885 1000.
Definition DRAIN_PACING_GAIN : f32 := F32.div f_one (F32.lit 2885 1000).
Definition PROBE_BW_CWND_GAIN : f32 := F32.of_Z 2.
Definition PROBE_RTT_DURATION : Duration := from_millis 200.
Definition IDLE_RESTART_THRESHOLD : Duration := from_secs 1.
Definition FULL_BW_THRESH_FACTOR : f32 := F32.lit 5 4.
Definition FULL_BW_COUNT_REQ : Z := 3.
Definition MIN_PACING_RATE : f32 := F32.of_Z 10000.
Definition MIN_CWND : Z := 4.
Definition INITIAL_RTT : Duration := from_secs 10.

(** The windowed maximum filter, the same in both versions. *)
Module MaxFilter.

Record t := mk { samples : list (Instant * f32); window : Duration }.

Definition new (window : Duration) : t := mk [] window.

(** Dropping samples older than the window from the front. *)
Fixpoint expire (now : Instant) (window : Duration) (q : list (Instant * f32)) : list (Instant * f32) :=
  match q with
  | [] => []
  | (t, s) :: q' => if window <? since now t then expire now window q' else q
  end.

(** Popping the samples not above [sample] from the back. *)
Fixpoint pop_smaller (sample : f32) (q : list (Instant * f32)) : list (Instant * f32) :=
  match q with
  | [] => []
  | (t, s) :: q' =>
      match pop_smaller sample q' with
      | [] => if F32.le s sample then [] else [(t, s)]
      | q' => (t, s) :: q'
      end
  end.

Definition add (f : t) (now : Instant) (sample : f32) : t :=
  mk (pop_smaller sample (expire now (window f) (samples f)) ++ [(now, sample)]) (window f).

Definition get (f : t) : f32 := match samples f with (_, s) :: _ => s | [] => F32.of_Z 0 end.

End MaxFilter.

(** A bandwidth sample in bytes per second, over at least one millisecond. *)
Definition sample_bandwidth (sample : DeliverySample) : f32 :=
  F32.div (F32.of_Z (bytes_delivered sample)) (as_secs_f32 (Z.max (duration sample) (from_millis 1))).

Definition add_bandwidth (f : MaxFilter.t) (now : Instant) (sample : DeliverySample) : MaxFilter.t :=
  let bw := sample_bandwidth sample in
  if F32.is_finite bw && F32.gt bw (F32.of_Z 0) &&
     (negb (sample_app_limited sample) || F32.gt bw (MaxFilter.get f))
  then MaxFilter.add f now bw else f.

Module Bbrv1.

Definition PROBE_RTT_CWND_GAIN : f32 := f_one.
Definition PROBE_RTT_PACING_GAIN : f32 := f_one.
Definition STARTUP_MIN_PACING_RATE : f32 := F32.of_Z 200000.
Definition MIN_CWND_GAIN : f32 := F32.lit 11 10.
Definition LOSS_REDUCTION_FACTOR : f32 := F32.lit 9 10.
Definition LOSS_EVENT_THRESHOLD : Z := 8.
Definition PACING_GAINS : list f32 :=
  [F32.lit 5 4; F32.lit 3 4; f_one; f_one; f_one; f_one; f_one; f_one].

Inductive State := Startup | Drain | ProbeBw | ProbeRtt.
#[export] Instance State_eq_dec : EqDecision State.
Proof. solve_decision. Defined.

Section Bbrv1.
Context {Rng : Type} `{RandSource Rng}.

Record t := mk {
  state : State;
  max_bw : MaxFilter.t;
  b_min_rtt : Duration;
  min_rtt_stamp : option Instant;
  pacing_gain : f32;
  cwnd_gain : f32;
  filled_pipe : bool;
  full_bw : f32;
  full_bw_count : Z;
  cycle_index : Z;
  cycle_stamp : option Instant;
  last_ack_time : option Instant;
  loss_count_in_round : Z;
  in_flight_at_round_start : Z;
  round_start : option Instant;
  app_limited : bool;
  has_non_app_limited_sample_in_round : bool;
  rng : Rng
}.
#[global] Instance eta_t : Settable t := fun b =>
  mk (state b) (max_bw b) (b_min_rtt b) (min_rtt_stamp b) (pacing_gain b) (cwnd_gain b) (filled_pipe b)
     (full_bw b) (full_bw_count b) (cycle_index b) (cycle_stamp b) (last_ack_time b)
     (loss_count_in_round b) (in_flight_at_round_start b) (round_start b) (app_limited b)
     (has_non_app_limited_sample_in_round b) (rng b).

Definition enter_startup (b : t) : t :=
  b <| state := Startup |> <| pacing_gain := STARTUP_PACING_GAIN |> <| cwnd_gain := STARTUP_PACING_GAIN |>
    <| filled_pipe := false |> <| full_bw := F32.of_Z 0 |> <| full_bw_count := 0 |>.

Definition new (r : Rng) : t :=
  enter_startup
    {| state := Startup; max_bw := MaxFilter.new RT_PROP_FILTER_LEN; b_min_rtt := INITIAL_RTT;
       min_rtt_stamp := None; pacing_gain := STARTUP_PACING_GAIN; cwnd_gain := STARTUP_PACING_GAIN;
       filled_pipe := false; full_bw := F32.of_Z 0; full_bw_count := 0; cycle_index := 0;
       cycle_stamp := None; last_ack_time := None; loss_count_in_round := 0;
       in_flight_at_round_start := 0; round_start := None; app_limited := false;
       has_non_app_limited_sample_in_round := false; rng := r |}.

Definition update_bandwidth (b : t) (now : Instant) (sample : DeliverySample) : t :=
  b <| max_bw := add_bandwidth (max_bw b) now sample |>.

Definition enter_drain (b : t) : t :=
  b <| state := Drain |> <| pacing_gain := DRAIN_PACING_GAIN |> <| cwnd_gain := STARTUP_PACING_GAIN |>.

Definition enter_probe_bw (b : t) (now : Instant) : option t :=
  let b := b <| state := ProbeBw |> in
  let '(n, r) := gen_usize (rng b) in
  let b := b <| rng := r |> <| cycle_index := n mod len PACING_GAINS |> in
  gain ← idx PACING_GAINS (cycle_index b);
  Some (b <| pacing_gain := gain |> <| cycle_stamp := Some now |>).

Definition enter_probe_rtt (b : t) (now : Instant) : t :=
  b <| state := ProbeRtt |> <| pacing_gain := PROBE_RTT_PACING_GAIN |> <| cwnd_gain := PROBE_RTT_CWND_GAIN |>
    <| cycle_stamp := Some now |>.

Definition update_min_rtt (b : t) (now : Instant) (rtt : Duration) : t :=
  let expired := older (min_rtt_stamp b) now PROBE_RTT_INTERVAL false in
  let b := if (rtt <? b_min_rtt b) || negb (bool_decide (is_Some (min_rtt_stamp b))) || expired
           then b <| b_min_rtt := rtt |> <| min_rtt_stamp := Some now |> else b in
  if expired && negb (bool_decide (state b = ProbeRtt)) then enter_probe_rtt b now else b.

Definition check_filled_pipe (b : t) (round_expired : bool) : option t :=
  if filled_pipe b || negb round_expired || app_limited b then Some b
  else
    let bw := MaxFilter.get (max_bw b) in
    if F32.eq bw (F32.of_Z 0) then Some b
    else if F32.gt bw (F32.mul (full_bw b) FULL_BW_THRESH_FACTOR)
    then Some (b <| full_bw := bw |> <| full_bw_count := 0 |>)
    else
      n ← chk_usize (full_bw_count b + 1);
      let b := b <| full_bw_count := n |> in
      Some (if FULL_BW_COUNT_REQ <=? n then b <| filled_pipe := true |> else b).

(** The start of a round. *)
Definition begin_round (b : t) (in_flight : Z) (now : Instant) : option t :=
  b ← (if bool_decide (state b = Startup) && has_non_app_limited_sample_in_round b
       then check_filled_pipe b true else Some b);
  let b := b <| round_start := Some now |> <| loss_count_in_round := 0 |>
             <| in_flight_at_round_start := in_flight |> <| app_limited := false |>
             <| has_non_app_limited_sample_in_round := false |> in
  Some (b <| cwnd_gain := match state b with
                          | Startup | Drain => STARTUP_PACING_GAIN
                          | ProbeBw => PROBE_BW_CWND_GAIN
                          | ProbeRtt => PROBE_RTT_CWND_GAIN
                          end |>).

(** Recording the delivery sample of an acknowledgement. *)
Definition note_sample (b : t) (now : Instant) (sample : option DeliverySample) : t :=
  match sample with
  | Some s =>
      let b := update_bandwidth b now s in
      if sample_app_limited s then b <| app_limited := true |>
      else b <| has_non_app_limited_sample_in_round := true |>
  | None => b
  end.

Definition bdp (b : t) : f32 := F32.mul (MaxFilter.get (max_bw b)) (as_secs_f32 (b_min_rtt b)).

(** The state machine step at the end of [on_ack]. *)
Definition advance (b : t) (in_flight : Z) (now : Instant) : option t :=
  match state b with
  | Startup => Some (if filled_pipe b then enter_drain b else b)
  | Drain => if F32.le (F32.of_Z in_flight) (bdp b) then enter_probe_bw b now else Some b
  | ProbeBw =>
      if older (cycle_stamp b) now (b_min_rtt b) true then
        let b := b <| cycle_index := (cycle_index b + 1) mod len PACING_GAINS |> in
        gain ← idx PACING_GAINS (cycle_index b);
        Some (b <| pacing_gain := gain |> <| cycle_stamp := Some now |>)
      else Some b
  | ProbeRtt =>
      if older (cycle_stamp b) now PROBE_RTT_DURATION true then enter_probe_bw b now else Some b
  end.

Definition ack (b : t) (rtt : Duration) (sample : option DeliverySample) (in_flight : Z) (now : Instant) : option t :=
  let round_expired := older (round_start b) now (b_min_rtt b) true in
  b ← (if (round_expired : bool) then begin_round b in_flight now else Some b);
  let idle := older (last_ack_time b) now IDLE_RESTART_THRESHOLD false in
  let b := if (idle : bool) then enter_startup b else b in
  let b := b <| last_ack_time := Some now |> in
  let b := update_min_rtt b now rtt in
  let b := note_sample b now sample in
  advance b in_flight now.

Definition nack (b : t) : option t :=
  n ← chk_usize (loss_count_in_round b + 1);
  let b := b <| loss_count_in_round := n |> in
  Some (if LOSS_EVENT_THRESHOLD <? n
        then b <| cwnd_gain := F32.max (F32.mul (cwnd_gain b) LOSS_REDUCTION_FACTOR) MIN_CWND_GAIN |> else b).

Definition timeout (b : t) (now : Instant) : option t :=
  n ← chk_usize (loss_count_in_round b + 1);
  let b := b <| loss_count_in_round := n |> in
  Some (if LOSS_EVENT_THRESHOLD <? n
        then
          let b := b <| cwnd_gain := F32.max (F32.mul (cwnd_gain b) LOSS_REDUCTION_FACTOR) MIN_CWND_GAIN |> in
          let b := enter_startup b in
          b <| max_bw := MaxFilter.add (max_bw b) now (F32.of_Z 10000) |>
        else b).

Definition window (b : t) : Z :=
  if bool_decide (state b = ProbeRtt) then MIN_CWND
  else Z.max (F32.to_usize (F32.div (F32.mul (bdp b) (cwnd_gain b)) f_mtu)) MIN_CWND.

Definition rate (b : t) : f32 :=
  if bool_decide (state b = ProbeRtt)
  then F32.max (F32.mul (MaxFilter.get (max_bw b)) f_half) MIN_PACING_RATE
  else
    let rate := F32.mul (MaxFilter.get (max_bw b)) (pacing_gain b) in
    if bool_decide (state b = Startup) then F32.max rate STARTUP_MIN_PACING_RATE else F32.max rate MIN_PACING_RATE.

#[global] Instance control : CongestionControl t := {
  on_ack b rtt sample _ in_flight now := ack b rtt sample in_flight now;
  on_nack b _ := nack b;
  on_timeout b now := timeout b now;
  cwnd := window;
  pacing_rate := rate;
  min_rtt := b_min_rtt;
  on_fragment_sent b _ _ := b
}.

End Bbrv1.
Arguments t Rng : clear implicits.
End Bbrv1.

Module Bbrv2.

Definition STARTUP_MIN_PACING_RATE : f32 := F32.of_Z 100000.
Definition LOSS_THRESH : f32 := F32.lit 2 100.
Definition BW_PROBE_UP_GAIN : f32 := F32.lit 5 4.
Definition BW_PROBE_DOWN_GAIN : f32 := F32.lit 9 10.
Definition PROBE_RTT_CWND_GAIN : f32 := f_half.
Definition INFINITY : f32 := S754_infinity false.
Definition f_095 : f32 := F32.lit 95 100.

Inductive State := Startup | Drain | ProbeBwDown | ProbeBwCruise | ProbeBwRefill | ProbeBwUp | ProbeRtt.
#[export] Instance State_eq_dec : EqDecision State.
Proof. solve_decision. Defined.

Section Bbrv2.
Context {Rng : Type} `{RandSource Rng}.

Record t := mk {
  state : State;
  max_bw : MaxFilter.t;
  b_min_rtt : Duration;
  min_rtt_stamp : option Instant;
  pacing_gain : f32;
  cwnd_gain : f32;
  filled_pipe : bool;
  full_bw : f32;
  full_bw_count : Z;
  inflight_hi : f32;
  bw_hi : f32;
  inflight_lo : f32;
  bw_lo : f32;
  cycle_stamp : option Instant;
  last_ack_time : option Instant;
  last_now : option Instant;
  delivered : Z;
  next_round_delivered : Z;
  round_count : Z;
  round_start_time : option Instant;
  bytes_lost_in_round : Z;
  bytes_delivered_in_round : Z;
  loss_in_round : bool;
  cruise_rounds : Z;
  app_limited : bool;
  rng : Rng
}.
#[global] Instance eta_t : Settable t := fun b =>
  mk (state b) (max_bw b) (b_min_rtt b) (min_rtt_stamp b) (pacing_gain b) (cwnd_gain b) (filled_pipe b)
     (full_bw b) (full_bw_count b) (inflight_hi b) (bw_hi b) (inflight_lo b) (bw_lo b) (cycle_stamp b)
     (last_ack_time b) (last_now b) (delivered b) (next_round_delivered b) (round_count b)
     (round_start_time b) (bytes_lost_in_round b) (bytes_delivered_in_round b) (loss_in_round b)
     (cruise_rounds b) (app_limited b) (rng b).

Definition enter_startup (b : t) : t :=
  b <| state := Startup |> <| pacing_gain := STARTUP_PACING_GAIN |> <| cwnd_gain := STARTUP_PACING_GAIN |>
    <| filled_pipe := false |> <| full_bw := F32.of_Z 0 |> <| full_bw_count := 0 |>.

Definition new (r : Rng) : t :=
  enter_startup
    {| state := Startup; max_bw := MaxFilter.new RT_PROP_FILTER_LEN; b_min_rtt := INITIAL_RTT;
       min_rtt_stamp := None; pacing_gain := STARTUP_PACING_GAIN; cwnd_gain := STARTUP_PACING_GAIN;
       filled_pipe := false; full_bw := F32.of_Z 0; full_bw_count := 0;
       inflight_hi := INFINITY; bw_hi := INFINITY; inflight_lo := INFINITY; bw_lo := INFINITY;
       cycle_stamp := None; last_ack_time := None; last_now := None; delivered := 0;
       next_round_delivered := 0; round_count := 0; round_start_time := None;
       bytes_lost_in_round := 0; bytes_delivered_in_round := 0; loss_in_round := false;
       cruise_rounds := 0; app_limited := false; rng := r |}.

Definition update_bandwidth (b : t) (now : Instant) (sample : DeliverySample) : t :=
  b <| max_bw := add_bandwidth (max_bw b) now sample |>.

Definition enter_drain (b : t) : t :=
  b <| state := Drain |> <| pacing_gain := DRAIN_PACING_GAIN |> <| cwnd_gain := STARTUP_PACING_GAIN |>.

Definition enter_probe_bw_down (b : t) (now : Instant) : t :=
  b <| state := ProbeBwDown |> <| pacing_gain := BW_PROBE_DOWN_GAIN |> <| cwnd_gain := PROBE_BW_CWND_GAIN |>
    <| cycle_stamp := Some now |>.

Definition enter_probe_bw_cruise (b : t) (now : Instant) : t :=
  let b := b <| state := ProbeBwCruise |> <| pacing_gain := f_one |> <| cwnd_gain := PROBE_BW_CWND_GAIN |>
             <| cycle_stamp := Some now |> in
  let '(n, r) := gen_range (rng b) 4 8 in
  b <| rng := r |> <| cruise_rounds := n |>.

Definition enter_probe_bw_refill (b : t) (now : Instant) : t :=
  b <| state := ProbeBwRefill |> <| pacing_gain := f_one |> <| cwnd_gain := PROBE_BW_CWND_GAIN |>
    <| cycle_stamp := Some now |>.

Definition enter_probe_bw_up (b : t) (now : Instant) : t :=
  b <| state := ProbeBwUp |> <| pacing_gain := BW_PROBE_UP_GAIN |> <| cwnd_gain := PROBE_BW_CWND_GAIN |>
    <| cycle_stamp := Some now |>.

Definition enter_probe_rtt (b : t) (now : Instant) : t :=
  b <| state := ProbeRtt |> <| pacing_gain := f_one |> <| cwnd_gain := PROBE_RTT_CWND_GAIN |>
    <| cycle_stamp := Some now |>.

Definition update_min_rtt (b : t) (now : Instant) (rtt : Duration) : t :=
  let expired := older (min_rtt_stamp b) now PROBE_RTT_INTERVAL false in
  let b := if (rtt <? b_min_rtt b) || negb (bool_decide (is_Some (min_rtt_stamp b))) || expired
           then b <| b_min_rtt := rtt |> <| min_rtt_stamp := Some now |> else b in
  if expired && negb (bool_decide (state b = ProbeRtt)) then enter_probe_rtt b now else b.

Definition check_filled_pipe (b : t) : option t :=
  if filled_pipe b || app_limited b then Some b
  else
    let bw := MaxFilter.get (max_bw b) in
    if F32.gt bw (F32.mul (full_bw b) FULL_BW_THRESH_FACTOR)
    then Some (b <| full_bw := bw |> <| full_bw_count := 0 |>)
    else
      n ← chk_usize (full_bw_count b + 1);
      let b := b <| full_bw_count := n |> in
      Some (if FULL_BW_COUNT_REQ <=? n then b <| filled_pipe := true |> else b).

Definition bdp (b : t) : f32 := F32.mul (MaxFilter.get (max_bw b)) (as_secs_f32 (b_min_rtt b)).

Definition handle_loss_in_round (b : t) (in_flight : Z) (now : Instant) : option t :=
  if bytes_delivered_in_round b =? 0 then Some b
  else
    total_sampled ← chk_usize (bytes_delivered_in_round b + bytes_lost_in_round b);
    let loss_rate := F32.div (F32.of_Z (bytes_lost_in_round b)) (F32.of_Z total_sampled) in
    Some (if F32.gt loss_rate LOSS_THRESH then
            let limit := F32.max (F32.of_Z in_flight) (bdp b) in
            let b := b <| inflight_hi := F32.mul limit f_095 |> in
            let round_duration :=
              F32.max (as_secs_f32 (since now (default now (round_start_time b)))) (F32.lit 1 1000) in
            let current_bw := F32.div (F32.of_Z (bytes_delivered_in_round b)) round_duration in
            let b := b <| bw_hi := F32.mul current_bw f_095 |> in
            if bool_decide (state b = Startup) then enter_drain (b <| filled_pipe := true |>)
            else if bool_decide (state b = ProbeBwUp) then enter_probe_bw_down b now
            else b
          else
            let b := if negb (F32.eq (inflight_hi b) INFINITY)
                     then b <| inflight_hi := F32.add (inflight_hi b) (F32.mul (F32.of_Z 10) f_mtu) |> else b in
            if negb (F32.eq (bw_hi b) INFINITY)
            then b <| bw_hi := F32.mul (bw_hi b) (F32.lit 105 100) |> else b).

Definition inflight_with_headroom (b : t) : f32 :=
  if F32.eq (inflight_hi b) INFINITY then INFINITY
  else
    let headroom := F32.max (F32.mul (inflight_hi b) (F32.lit 15 100)) f_one in
    F32.max (F32.sub (inflight_hi b) headroom) (F32.mul (F32.of_Z MIN_CWND) f_mtu).

(** Round accounting at the start of [on_ack]. *)
Definition count_round (b : t) (bytes_acked in_flight : Z) (now : Instant) : option (t * bool) :=
  let b := b <| last_now := Some now |> in
  d ← chk_usize (delivered b + bytes_acked);
  r ← chk_usize (bytes_delivered_in_round b + bytes_acked);
  let b := b <| delivered := d |> <| bytes_delivered_in_round := r |> in
  if next_round_delivered b <=? d then
    let start_time := default now (round_start_time b) in
    if (b_min_rtt b <=? since now start_time) || negb (bool_decide (is_Some (round_start_time b))) then
      n ← chk_usize (d + Z.max in_flight ESTIMATED_PAYLOAD_SIZE);
      c ← chk_u64 (round_count b + 1);
      Some (b <| next_round_delivered := n |> <| round_count := c |> <| round_start_time := Some now |>, true)
    else Some (b, false)
  else Some (b, false).

Definition end_round (b : t) (in_flight : Z) (now : Instant) : option t :=
  b ← (if bool_decide (state b = Startup) then check_filled_pipe b else Some b);
  b ← handle_loss_in_round b in_flight now;
  Some (b <| loss_in_round := false |> <| bytes_lost_in_round := 0 |> <| bytes_delivered_in_round := 0 |>).

(** The state machine step at the end of [on_ack]. *)
Definition advance (b : t) (in_flight : Z) (round_expired : bool) (now : Instant) : t :=
  match state b with
  | Startup => if filled_pipe b then enter_drain b else b
  | Drain => if F32.le (F32.of_Z in_flight) (bdp b) then enter_probe_bw_down b now else b
  | ProbeBwDown => if F32.le (F32.of_Z in_flight) (bdp b) then enter_probe_bw_cruise b now else b
  | ProbeBwCruise =>
      if round_expired then
        let b := b <| cruise_rounds := sat_sub (cruise_rounds b) 1 |> in
        if cruise_rounds b =? 0 then enter_probe_bw_refill b now else b
      else b
  | ProbeBwRefill => if round_expired then enter_probe_bw_up b now else b
  | ProbeBwUp =>
      if F32.ge (F32.of_Z in_flight) (inflight_with_headroom b) || round_expired || loss_in_round b
      then enter_probe_bw_down b now else b
  | ProbeRtt =>
      if older (cycle_stamp b) now PROBE_RTT_DURATION true
      then (if filled_pipe b then enter_probe_bw_down b now else enter_startup b)
      else b
  end.

Definition ack (b : t) (rtt : Duration) (sample : option DeliverySample) (bytes_acked in_flight : Z)
    (now : Instant) : option t :=
  '(b, round_expired) ← count_round b bytes_acked in_flight now;
  b ← (if (round_expired : bool) then end_round b in_flight now else Some b);
  let idle := older (last_ack_time b) now IDLE_RESTART_THRESHOLD false && (in_flight =? 0) in
  let b := if (idle : bool) then enter_startup b else b in
  let b := b <| last_ack_time := Some now |> in
  let b := update_min_rtt b now rtt in
  let b := match sample with
           | Some s => (update_bandwidth b now s) <| app_limited := sample_app_limited s |>
           | None => b
           end in
  Some (advance b in_flight round_expired now).

Definition nack (b : t) (now : Instant) : option t :=
  let b := b <| last_now := Some now |> in
  n ← chk_usize (bytes_lost_in_round b + ESTIMATED_PAYLOAD_SIZE);
  let b := b <| bytes_lost_in_round := n |> in
  Some (if negb (loss_in_round b) then
          let b := b <| loss_in_round := true |> in
          let bdp := bdp b in
          let current := if F32.eq (inflight_hi b) INFINITY then F32.mul bdp (cwnd_gain b) else inflight_hi b in
          b <| inflight_hi := F32.max (F32.mul current f_095) bdp |>
        else b).

Definition timeout (b : t) (now : Instant) : option t :=
  let b := b <| last_now := Some now |> in
  n ← chk_usize (bytes_lost_in_round b + ESTIMATED_PAYLOAD_SIZE);
  let b := enter_startup (b <| bytes_lost_in_round := n |>) in
  Some (b <| max_bw := MaxFilter.add (MaxFilter.new RT_PROP_FILTER_LEN) now (F32.of_Z 10000) |>
          <| inflight_hi := INFINITY |> <| bw_hi := INFINITY |> <| inflight_lo := INFINITY |> <| bw_lo := INFINITY |>).

Definition window (b : t) : Z :=
  if bool_decide (state b = ProbeRtt) then MIN_CWND
  else
    let target := F32.to_usize (F32.div (F32.mul (bdp b) (cwnd_gain b)) f_mtu) in
    let limit := F32.to_usize (F32.div (inflight_with_headroom b) f_mtu) in
    Z.max (Z.min target limit) MIN_CWND.

Definition rate (b : t) : f32 :=
  if bool_decide (state b = ProbeRtt)
  then F32.max (F32.mul (MaxFilter.get (max_bw b)) f_half) MIN_PACING_RATE
  else
    let rate := F32.mul (MaxFilter.get (max_bw b)) (pacing_gain b) in
    let rate := if bool_decide (state b = Startup) then F32.max rate STARTUP_MIN_PACING_RATE
                else F32.max rate MIN_PACING_RATE in
    if negb (F32.eq (bw_hi b) INFINITY) then F32.min rate (F32.mul (bw_hi b) f_095) else rate.

#[global] Instance control : CongestionControl t := {
  on_ack b rtt sample bytes_acked in_flight now := ack b rtt sample bytes_acked in_flight now;
  on_nack b now := nack b now;
  on_timeout b now := timeout b now;
  cwnd := window;
  pacing_rate := rate;
  min_rtt := b_min_rtt;
  on_fragment_sent b _ now := b <| last_now := Some now |>
}.

End Bbrv2.
Arguments t Rng : clear implicits.
End Bbrv2.

(** ** The dispatching enumeration *)

Module Algorithm.

Inductive AlgorithmType := TAimd | TCubic | TBbrv1 | TBbrv2.

Section Algorithm.
Context {Rng : Type} `{RandSource Rng} `{PowerFunctions}.

Inductive t :=
| AAimd (a : Aimd.t)
| ACubic (c : Cubic.t)
| ABbrv1 (b : Bbrv1.t Rng)
| ABbrv2 (b : Bbrv2.t Rng).

Definition new (algo_type : AlgorithmType) (rng : Rng) : t :=
  match algo_type with
  | TAimd => AAimd Aimd.new
  | TBbrv1 => ABbrv1 (Bbrv1.new rng)
  | TBbrv2 => ABbrv2 (Bbrv2.new rng)
  | TCubic => ACubic Cubic.new
  end.

Definition algo_type (a : t) : AlgorithmType :=
  match a with AAimd _ => TAimd | ABbrv1 _ => TBbrv1 | ABbrv2 _ => TBbrv2 | ACubic _ => TCubic end.

(** The macro [dispatch!] for operations that change the state. *)
Definition dispatch (f : forall C, CongestionControl C -> C -> option C) (a : t) : option t :=
  match a with
  | AAimd x => AAimd <$> f _ Aimd.control x
  | ABbrv1 x => ABbrv1 <$> f _ Bbrv1.control x
  | ABbrv2 x => ABbrv2 <$> f _ Bbrv2.control x
  | ACubic x => ACubic <$> f _ Cubic.control x
  end.

(** The macro for queries. *)
Definition query {A} (f : forall C, CongestionControl C -> C -> A) (a : t) : A :=
  match a with
  | AAimd x => f _ Aimd.control x
  | ABbrv1 x => f _ Bbrv1.control x
  | ABbrv2 x => f _ Bbrv2.control x
  | ACubic x => f _ Cubic.control x
  end.

#[global] Instance control : CongestionControl t := {
  on_ack a rtt sample bytes_acked in_flight now :=
    dispatch (fun C cc x => on_ack x rtt sample bytes_acked in_flight now) a;
  on_nack a now := dispatch (fun C cc x => on_nack x now) a;
  on_timeout a now := dispatch (fun C cc x => on_timeout x now) a;
  cwnd := query (fun C cc x => cwnd x);
  pacing_rate := query (fun C cc x => pacing_rate x);
  min_rtt := query (fun C cc x => min_rtt x);
  on_fragment_sent a bytes now := default a (dispatch (fun C cc x => Some (on_fragment_sent x bytes now)) a)
}.

End Algorithm.
Arguments t Rng : clear implicits.
End Algorithm.
