(* ===== verification/CongestionLaws.v ===== *)
(** What the session relies on from a congestion controller, and that every
    algorithm of [congestion/] provides it.

    [CongestionLaws] is the contract: while the byte and event counters stay
    below 2^62, no callback panics, the window is at least one fragment, and the
    pacing rate is a well-formed number. *)

From S2P Require Import Prelude Protocol Float32 F32Theory Congestion.
From Stdlib Require Import SpecFloat Reals Lra Sorting.Sorted.
#[local] Open Scope Z_scope.
#[local] Open Scope list_scope.

(** [good b c]: the state is sound and its counters are at most [b]. *)
Class CongestionLaws (C : Type) `{CongestionControl C} := {
  good : Z -> C -> Prop;
  good_mono b b' c : b <= b' -> good b c -> good b' c;
  good_on_ack b c rtt sample bytes in_flight now :
    good b c -> 0 <= bytes -> 0 <= in_flight <= 2 ^ 62 -> b + bytes + 1 <= 2 ^ 62 ->
    exists c', on_ack c rtt sample bytes in_flight now = Some c' /\ good (b + bytes + 1) c';
  good_on_nack b c now :
    good b c -> b + ESTIMATED_PAYLOAD_SIZE <= 2 ^ 62 ->
    exists c', on_nack c now = Some c' /\ good (b + ESTIMATED_PAYLOAD_SIZE) c';
  good_on_timeout b c now :
    good b c -> b + ESTIMATED_PAYLOAD_SIZE <= 2 ^ 62 ->
    exists c', on_timeout c now = Some c' /\ good (b + ESTIMATED_PAYLOAD_SIZE) c';
  good_on_fragment_sent b c bytes now : good b c -> good b (on_fragment_sent c bytes now);
  good_cwnd b c : good b c -> 1 <= cwnd c <= usize_max;
  good_pacing_rate b c : good b c -> F32T.valid (pacing_rate c)
}.

Create HintDb f32.
#[export] Hint Resolve F32T.valid_add F32T.valid_sub F32T.valid_mul F32T.valid_div F32T.valid_max F32T.valid_min
  F32T.valid_clamp F32T.valid_as_secs F32T.valid_of_Z F32T.above_valid : f32.

Lemma valid_lit p q : F32T.valid (F32.lit p q).
Proof. unfold F32.lit. auto with f32. Qed.
#[export] Hint Resolve valid_lit : f32.

Ltac f32 := unfold clamped_secs, f_half, f_one, f_two, f_mtu, PACING_GAIN in *; eauto 20 with f32.

Lemma nnf_of_Z z : 0 <= z < 2 ^ 104 -> F32T.nnf (F32.of_Z z).
Proof. apply F32T.of_Z_nnf. Qed.

(** *** AIMD *)

Module AimdLaws.

Definition sound (a : Aimd.t) : Prop :=
  F32T.above f_one (Aimd.a_cwnd a) /\ F32T.above Aimd.MIN_SSTHRESH (Aimd.ssthresh a).

Lemma one_nnf : F32T.nnf f_one.
Proof. by apply nnf_of_Z. Qed.
Lemma one_val : F32T.val f_one = 1%R.
Proof. by apply (F32T.of_Z_val 1). Qed.
Lemma two_nnf : F32T.nnf Aimd.MIN_SSTHRESH.
Proof. by apply nnf_of_Z. Qed.
Lemma two_val : F32T.val Aimd.MIN_SSTHRESH = 2%R.
Proof. by apply (F32T.of_Z_val 2). Qed.

Lemma aimd_new_sound : sound Aimd.new.
Proof.
  split; right; (split; [by apply nnf_of_Z|]); cbn.
  - rewrite one_val. unfold Aimd.INITIAL_CWND. rewrite (F32T.of_Z_val 10) by lia. lra.
  - rewrite two_val. unfold Aimd.INITIAL_SSTHRESH. rewrite (F32T.of_Z_val 64) by lia. lra.
Qed.

Lemma acked_above bytes : 0 <= bytes <= 2 ^ 62 -> F32T.above (S754_zero false) (F32.div (F32.of_Z bytes) f_mtu) /\ F32.div (F32.of_Z bytes) f_mtu <> S754_infinity false.
Proof.
  intros Hb. assert (F32T.nnf f_mtu) as Nm by (by apply nnf_of_Z).
  assert (F32T.val f_mtu = 1300)%R as Vm by (by apply (F32T.of_Z_val 1300)).
  assert (F32T.nnf (F32.of_Z bytes)) as Nb by (apply nnf_of_Z; lia).
  destruct (F32T.div_approx (F32.of_Z bytes) f_mtu Nb Nm ltac:(lra)) as [[_ H]|H].
  - exfalso. assert (F32T.val (F32.of_Z bytes) <= F32T.val F32T.huge)%R as Hle.
    { eapply F32T.approx_le; [apply F32T.of_Z_approx; lia|apply F32T.huge_nnf|].
      rewrite F32T.huge_val, F32T.bpow_Z by lia. apply IZR_le. lia. }
    rewrite F32T.huge_val in Hle. rewrite Vm in H. pose proof (F32T.val_nonneg _ Nb). lra.
  - split; [|intros E; rewrite E in H; by destruct H]. right. split; [apply H|]. cbn. apply F32T.val_nonneg, H.
Qed.

Lemma ack_sound a rtt bytes : sound a -> 0 <= bytes <= 2 ^ 62 -> sound (Aimd.ack a rtt bytes).
Proof.
  intros [Hc Hs] Hb. destruct (acked_above bytes Hb) as [Ha Hne]. unfold Aimd.ack. destruct (F32.lt _ _).
  - split; [|done]. cbn. apply F32T.add_above; [apply one_nnf|done|done].
  - split; [|done]. cbn. apply F32T.add_above; [apply one_nnf|done|].
    apply (F32T.div_above _ _ f_one); [apply one_nnf|rewrite one_val; lra|done|done|by left].
Qed.

Lemma halved_above a : sound a -> F32T.above Aimd.MIN_SSTHRESH (F32.max (F32.div (Aimd.a_cwnd a) f_two) Aimd.MIN_SSTHRESH).
Proof. intros [Hc _]. apply F32T.max_above; [|apply two_nnf]. f32. Qed.

#[global] Instance laws : CongestionLaws Aimd.t.
Proof.
  refine {| good b a := 0 <= b /\ sound a |}.
  - intros b b' a Hb [H0 Ha]. split; [lia|done].
  - intros b a rtt sample bytes in_flight now [H0 Ha] Hb _ Hbb. eexists. split; [done|]. split; [lia|]. apply ack_sound; [done|lia].
  - intros b a now [H0 Ha] _. eexists. split; [done|]. unfold ESTIMATED_PAYLOAD_SIZE. split; [lia|split; [|by apply halved_above]].
    eapply F32T.above_trans; [|by apply halved_above]. rewrite one_val, two_val. lra.
  - intros b a now [H0 Ha] _. eexists. split; [done|]. unfold ESTIMATED_PAYLOAD_SIZE. split; [lia|split; [|by apply halved_above]].
    cbn. apply F32T.above_refl, one_nnf.
  - done.
  - intros b a [_ [Hc _]]. cbn. split; [|apply F32T.to_usize_range].
    apply (F32T.above_to_usize f_one); [done|unfold usize_max; lia|]. rewrite one_val. lra.
  - intros b a [_ [Hc _]]. cbn. unfold Aimd.rate. f32.
Defined.

End AimdLaws.

(** *** CUBIC *)

(** The power functions return well-formed numbers. *)
Class PowerLaws `{PowerFunctions} := {
  valid_powi x n : F32T.valid x -> F32T.valid (powi x n);
  valid_powf x y : F32T.valid x -> F32T.valid y -> F32T.valid (powf x y)
}.
#[export] Hint Resolve valid_powi valid_powf : f32.

Module CubicLaws.
Section Cubic.
Context `{PowerLaws}.

Record sound (c : Cubic.t) : Prop := {
  s_cwnd : F32T.valid (Cubic.c_cwnd c);
  s_w_max : F32T.valid (Cubic.w_max c);
  s_k : F32T.valid (Cubic.k c);
  s_tcp : F32T.valid (Cubic.tcp_cwnd c)
}.
Hint Resolve s_cwnd s_w_max s_k s_tcp : f32.

Ltac cubic := unfold Cubic.C, Cubic.BETA, Cubic.MIN_CWND, Cubic.third; constructor; cbn; f32.

Lemma start_epoch_sound c now : sound c -> sound (Cubic.start_epoch c now).
Proof.
  intros Hc. unfold Cubic.start_epoch. destruct (Cubic.epoch_start c); [done|].
  destruct (F32.lt _ _); cubic.
Qed.

Lemma update_cwnd_sound c now : sound c -> sound (Cubic.update_cwnd c now).
Proof.
  intros Hc. unfold Cubic.update_cwnd. destruct (Cubic.epoch_start c) as [start|]; [|done].
  destruct (F32.lt _ _); cubic.
Qed.

Lemma cubic_ack_sound c rtt bytes now : sound c -> sound (Cubic.ack c rtt bytes now).
Proof.
  intros Hc. unfold Cubic.ack. destruct (F32.lt _ _); [cubic|].
  apply update_cwnd_sound. pose proof (start_epoch_sound (c <| Cubic.last_rtt := rtt |>) now ltac:(by destruct Hc)) as Hs. cubic.
Qed.

Lemma cubic_nack_sound c : sound c -> sound (Cubic.nack c).
Proof. intros Hc. unfold Cubic.nack. destruct (F32.lt _ _); cubic. Qed.

#[global] Instance laws : CongestionLaws Cubic.t.
Proof.
  refine {| good b c := sound c |}.
  - done.
  - intros b c rtt sample bytes in_flight now Hc _ _ _. eexists. split; [done|]. by apply cubic_ack_sound.
  - intros b c now Hc _. eexists. split; [done|]. by apply cubic_nack_sound.
  - intros b c now Hc _. eexists. split; [done|]. unfold Cubic.timeout. cubic.
  - done.
  - intros b c Hc. cbn. split; [|apply F32T.to_usize_range].
    apply (F32T.above_to_usize Cubic.MIN_CWND).
    + apply F32T.max_above; [f32|by apply nnf_of_Z].
    + unfold usize_max; lia.
    + unfold Cubic.MIN_CWND. rewrite (F32T.of_Z_val 2) by lia. lra.
  - intros b c Hc. cbn. unfold Cubic.rate. f32.
Defined.

End Cubic.
End CubicLaws.

(** *** BBR *)

Module FilterLaws.

Definition sound (f : MaxFilter.t) : Prop := forall t s, (t, s) ∈ MaxFilter.samples f -> F32T.valid s.

Lemma expire_subset now w q p : p ∈ MaxFilter.expire now w q -> p ∈ q.
Proof.
  induction q as [|[t s] q IH]; cbn; [done|]. destruct (w <? since now t); [|done]. intros H. right. by apply IH.
Qed.

Lemma pop_smaller_subset x q p : p ∈ MaxFilter.pop_smaller x q -> p ∈ q.
Proof.
  induction q as [|[t s] q IH]; cbn; [done|]. destruct (MaxFilter.pop_smaller x q) as [|p' q'] eqn:E.
  - destruct (F32.le s x); [by intros ?%elem_of_nil|]. intros ->%list_elem_of_singleton. left.
  - intros [->|H]%elem_of_cons; [left|right; by apply IH].
Qed.

Lemma add_sound f now x : sound f -> F32T.valid x -> sound (MaxFilter.add f now x).
Proof.
  intros Hf Hx t s. cbn. intros [H|[= -> ->]]%elem_of_snoc; [|done].
  by eapply Hf, expire_subset, pop_smaller_subset.
Qed.

Lemma get_valid f : sound f -> F32T.valid (MaxFilter.get f).
Proof.
  intros Hf. unfold MaxFilter.get. destruct (MaxFilter.samples f) as [|[t s] q] eqn:E; [f32|].
  apply (Hf t). rewrite E. left.
Qed.

Lemma add_bandwidth_sound f now s : sound f -> sound (add_bandwidth f now s).
Proof.
  intros Hf. unfold add_bandwidth. destruct (_ && _); [|done]. apply add_sound; [done|]. unfold sample_bandwidth. f32.
Qed.

Lemma new_sound w : sound (MaxFilter.new w).
Proof. intros t s H. by apply not_elem_of_nil in H. Qed.

End FilterLaws.
#[export] Hint Resolve FilterLaws.add_sound FilterLaws.get_valid FilterLaws.add_bandwidth_sound FilterLaws.new_sound : f32.

Module Bbrv1Laws.
Section Bbrv1.
Context {Rng : Type} `{RandSource Rng}.
Implicit Types b : Bbrv1.t Rng.

Record sound (n : Z) (b : Bbrv1.t Rng) : Prop := {
  s_index : 0 <= Bbrv1.cycle_index b < 8;
  s_full : 0 <= Bbrv1.full_bw_count b <= n;
  s_loss : 0 <= Bbrv1.loss_count_in_round b <= n;
  s_filter : FilterLaws.sound (Bbrv1.max_bw b);
  s_pacing : F32T.valid (Bbrv1.pacing_gain b);
  s_gain : F32T.valid (Bbrv1.cwnd_gain b);
  s_bw : F32T.valid (Bbrv1.full_bw b)
}.
Hint Resolve s_filter s_pacing s_gain s_bw : f32.

Ltac bbr Hb := unfold STARTUP_PACING_GAIN, DRAIN_PACING_GAIN, PROBE_BW_CWND_GAIN, Bbrv1.PROBE_RTT_PACING_GAIN,
  Bbrv1.PROBE_RTT_CWND_GAIN in *; destruct Hb; constructor; cbn; first [lia|f32].

Lemma gain_at i : 0 <= i < 8 -> exists g, idx Bbrv1.PACING_GAINS i = Some g /\ F32T.valid g.
Proof.
  intros Hi. destruct (proj2 (idx_is_Some Bbrv1.PACING_GAINS i) Hi) as [g Hg]. exists g. split; [done|].
  apply idx_Some in Hg as [_ Hg]. apply list_elem_of_lookup_2 in Hg. unfold Bbrv1.PACING_GAINS in Hg.
  repeat (apply elem_of_cons in Hg as [->|Hg]; [f32|]). by apply not_elem_of_nil in Hg.
Qed.

Lemma startup_sound n b : sound n b -> sound n (Bbrv1.enter_startup b).
Proof. intros Hb. assert (0 <= n) by (destruct Hb; lia). bbr Hb. Qed.

Lemma probe_bw_sound n b now : sound n b -> exists b', Bbrv1.enter_probe_bw b now = Some b' /\ sound n b' /\
  Bbrv1.state b' = Bbrv1.ProbeBw.
Proof.
  intros Hb. unfold Bbrv1.enter_probe_bw. destruct (gen_usize _) as [k r]. cbn [Bbrv1.cycle_index set_field].
  destruct (gain_at (k mod len Bbrv1.PACING_GAINS)) as (g & Hg & Vg); [by apply Z.mod_pos_bound|].
  rewrite Hg. run. eexists. split; [done|]. split; [|done].
  pose proof (Z.mod_pos_bound k (len Bbrv1.PACING_GAINS) ltac:(done)). change (len Bbrv1.PACING_GAINS) with 8 in *. bbr Hb.
Qed.

Lemma min_rtt_sound n b now rtt : sound n b -> sound n (Bbrv1.update_min_rtt b now rtt).
Proof.
  intros Hb. unfold Bbrv1.update_min_rtt. set (b1 := if _ || _ || _ then _ else b).
  assert (sound n b1) as Hb1 by (unfold b1; destruct (_ || _ || _); [bbr Hb|done]).
  destruct (_ && _); [|done]. unfold Bbrv1.enter_probe_rtt. bbr Hb1.
Qed.

Lemma sample_sound n b now s : sound n b -> sound n (Bbrv1.note_sample b now s).
Proof.
  intros Hb. unfold Bbrv1.note_sample. destruct s as [s|]; [|done]. unfold Bbrv1.update_bandwidth.
  destruct (sample_app_limited s); bbr Hb.
Qed.

Lemma begin_round_sound n b in_flight now :
  sound n b -> n + 1 <= 2 ^ 62 -> exists b', Bbrv1.begin_round b in_flight now = Some b' /\ sound (n + 1) b' /\
    Bbrv1.state b' = Bbrv1.state b.
Proof.
  intros Hb Hn. unfold Bbrv1.begin_round.
  assert (exists b', (if bool_decide (Bbrv1.state b = Bbrv1.Startup) && Bbrv1.has_non_app_limited_sample_in_round b
    then Bbrv1.check_filled_pipe b true else Some b) = Some b' /\ sound (n + 1) b' /\ Bbrv1.state b' = Bbrv1.state b) as (b1 & -> & Hb1 & Hs).
  { destruct (_ && _); [|exists b; split_and!; [done|bbr Hb|done]]. unfold Bbrv1.check_filled_pipe.
    destruct (_ || _); [exists b; split_and!; [done|bbr Hb|done]|].
    destruct (F32.eq _ _); [exists b; split_and!; [done|bbr Hb|done]|].
    destruct (F32.gt _ _); [eexists; split_and!; [done|bbr Hb|done]|].
    pose proof (s_full n b Hb). run_chk. eexists. split; [done|].
    destruct (FULL_BW_COUNT_REQ <=? _); split; try done; bbr Hb. }
  run. eexists. split; [done|]. split; [|done]. cbn [Bbrv1.state set_field]. rewrite Hs.
  assert (0 <= n) by (destruct Hb; lia). destruct (Bbrv1.state b); bbr Hb1.
Qed.

Lemma advance_sound n b in_flight now : sound n b -> exists b', Bbrv1.advance b in_flight now = Some b' /\ sound n b'.
Proof.
  intros Hb. unfold Bbrv1.advance. destruct (Bbrv1.state b).
  - eexists. split; [done|]. destruct (Bbrv1.filled_pipe b); [|done]. unfold Bbrv1.enter_drain. bbr Hb.
  - destruct (F32.le _ _); [|by exists b]. destruct (probe_bw_sound n b now Hb) as (b' & ? & ? & _). by exists b'.
  - destruct (older _ _ _ _); [|by exists b]. cbn [Bbrv1.cycle_index set_field].
    destruct (gain_at ((Bbrv1.cycle_index b + 1) mod len Bbrv1.PACING_GAINS)) as (g & Hg & Vg); [by apply Z.mod_pos_bound|].
    rewrite Hg. run. eexists. split; [done|].
    pose proof (Z.mod_pos_bound (Bbrv1.cycle_index b + 1) (len Bbrv1.PACING_GAINS) ltac:(done)).
    change (len Bbrv1.PACING_GAINS) with 8 in *. bbr Hb.
  - destruct (older _ _ _ _); [|by exists b]. destruct (probe_bw_sound n b now Hb) as (b' & ? & ? & _). by exists b'.
Qed.

Lemma sound_mono n n' b : n <= n' -> sound n b -> sound n' b.
Proof. intros Hn Hb. bbr Hb. Qed.

Lemma bbr1_ack_sound n b rtt s in_flight now :
  sound n b -> n + 1 <= 2 ^ 62 -> exists b', Bbrv1.ack b rtt s in_flight now = Some b' /\ sound (n + 1) b'.
Proof.
  intros Hb Hn. unfold Bbrv1.ack.
  assert (exists b1, (if older (Bbrv1.round_start b) now (Bbrv1.b_min_rtt b) true
    then Bbrv1.begin_round b in_flight now else Some b) = Some b1 /\ sound (n + 1) b1) as (b1 & -> & Hb1).
  { destruct (older _ _ _ _); [|exists b; split; [done|by eapply sound_mono; [|done]; lia]].
    destruct (begin_round_sound n b in_flight now Hb Hn) as (b' & ? & ? & _). by exists b'. }
  run. apply advance_sound, sample_sound, min_rtt_sound.
  set (b2 := if older _ _ _ _ then _ else b1). assert (sound (n + 1) b2) as Hb2.
  { unfold b2. destruct (older _ _ _ _); [by apply startup_sound|done]. }
  bbr Hb2.
Qed.

#[global] Instance laws : CongestionLaws (Bbrv1.t Rng).
Proof.
  refine {| good n b := sound n b |}.
  - intros n n' b. apply sound_mono.
  - intros n b rtt s bytes in_flight now Hb H0 _ Hn. assert (0 <= n) by (destruct Hb; lia).
    destruct (bbr1_ack_sound n b rtt s in_flight now Hb ltac:(lia)) as (b' & ? & ?). exists b'.
    split; [done|]. eapply sound_mono; [|done]. lia.
  - intros n b now Hb Hn. unfold ESTIMATED_PAYLOAD_SIZE in *. cbn. unfold Bbrv1.nack. pose proof (s_loss n b Hb). run_chk.
    eexists. split; [done|]. unfold Bbrv1.LOSS_REDUCTION_FACTOR, Bbrv1.MIN_CWND_GAIN. destruct (_ <? _); bbr Hb.
  - intros n b now Hb Hn. unfold ESTIMATED_PAYLOAD_SIZE in *. cbn. unfold Bbrv1.timeout. pose proof (s_loss n b Hb). run_chk.
    eexists. split; [done|]. unfold Bbrv1.LOSS_REDUCTION_FACTOR, Bbrv1.MIN_CWND_GAIN. destruct (_ <? _); bbr Hb.
  - done.
  - intros n b Hb. cbn. unfold Bbrv1.window, MIN_CWND. pose proof (F32T.to_usize_range (F32.div (F32.mul (Bbrv1.bdp b) (Bbrv1.cwnd_gain b)) f_mtu)).
    unfold usize_max in *. case_bool_decide; lia.
  - intros n b Hb. cbn. unfold Bbrv1.rate, MIN_PACING_RATE, Bbrv1.STARTUP_MIN_PACING_RATE.
    destruct (bool_decide _); [f32|]. destruct (bool_decide _); f32.
Defined.

End Bbrv1.
End Bbrv1Laws.

Module Bbrv2Laws.
Section Bbrv2.
Context {Rng : Type} `{RandSource Rng}.
Implicit Types b : Bbrv2.t Rng.

Record sound (n : Z) (b : Bbrv2.t Rng) : Prop := {
  s_full : 0 <= Bbrv2.full_bw_count b <= n;
  s_delivered : 0 <= Bbrv2.delivered b <= n;
  s_round : 0 <= Bbrv2.round_count b <= n;
  s_lost : 0 <= Bbrv2.bytes_lost_in_round b <= n;
  s_in_round : 0 <= Bbrv2.bytes_delivered_in_round b <= n;
  s_filter : FilterLaws.sound (Bbrv2.max_bw b);
  s_pacing : F32T.valid (Bbrv2.pacing_gain b);
  s_gain : F32T.valid (Bbrv2.cwnd_gain b);
  s_bw : F32T.valid (Bbrv2.full_bw b);
  s_hi : F32T.valid (Bbrv2.inflight_hi b);
  s_bw_hi : F32T.valid (Bbrv2.bw_hi b)
}.
Hint Resolve s_filter s_pacing s_gain s_bw s_hi s_bw_hi : f32.

Ltac bbr Hb := unfold STARTUP_PACING_GAIN, DRAIN_PACING_GAIN, PROBE_BW_CWND_GAIN, Bbrv2.BW_PROBE_DOWN_GAIN,
  Bbrv2.BW_PROBE_UP_GAIN, Bbrv2.PROBE_RTT_CWND_GAIN, Bbrv2.f_095, Bbrv2.bdp in *;
  destruct Hb; constructor; cbn; first [lia|f32|exact I].

Lemma v2_sound_mono n n' b : n <= n' -> sound n b -> sound n' b.
Proof. intros Hn Hb. bbr Hb. Qed.

Lemma v2_startup_sound n b : sound n b -> sound n (Bbrv2.enter_startup b).
Proof. intros Hb. assert (0 <= n) by (destruct Hb; lia). bbr Hb. Qed.

Lemma cruise_sound n b now : sound n b -> sound n (Bbrv2.enter_probe_bw_cruise b now).
Proof. intros Hb. unfold Bbrv2.enter_probe_bw_cruise. destruct (gen_range _ _ _) as [k r]. bbr Hb. Qed.

Lemma v2_advance_sound n b in_flight expired now : sound n b -> sound n (Bbrv2.advance b in_flight expired now).
Proof.
  intros Hb. unfold Bbrv2.advance. destruct (Bbrv2.state b).
  - destruct (Bbrv2.filled_pipe b); [bbr Hb|done].
  - destruct (F32.le _ _); [bbr Hb|done].
  - destruct (F32.le _ _); [by apply cruise_sound|done].
  - destruct expired; [|done]. destruct (_ =? 0); bbr Hb.
  - destruct expired; [bbr Hb|done].
  - destruct (_ || _ || _); [bbr Hb|done].
  - destruct (older _ _ _ _); [|done]. destruct (Bbrv2.filled_pipe b); [bbr Hb|by apply v2_startup_sound].
Qed.

Lemma v2_min_rtt_sound n b now rtt : sound n b -> sound n (Bbrv2.update_min_rtt b now rtt).
Proof.
  intros Hb. unfold Bbrv2.update_min_rtt. set (b1 := if _ || _ || _ then _ else b).
  assert (sound n b1) as Hb1 by (unfold b1; destruct (_ || _ || _); [bbr Hb|done]).
  destruct (_ && _); [|done]. unfold Bbrv2.enter_probe_rtt. bbr Hb1.
Qed.

Lemma filled_pipe_sound n b : sound n b -> n + 1 <= 2 ^ 62 ->
  exists b', Bbrv2.check_filled_pipe b = Some b' /\ sound (n + 1) b'.
Proof.
  intros Hb Hn. unfold Bbrv2.check_filled_pipe. destruct (_ || _); [exists b; split; [done|bbr Hb]|].
  destruct (F32.gt _ _); [eexists; split; [done|bbr Hb]|]. pose proof (s_full n b Hb). run_chk.
  eexists. split; [done|]. destruct (FULL_BW_COUNT_REQ <=? _); bbr Hb.
Qed.

Lemma loss_sound n b in_flight now : sound n b -> n <= 2 ^ 62 ->
  exists b', Bbrv2.handle_loss_in_round b in_flight now = Some b' /\ sound n b'.
Proof.
  intros Hb Hn. unfold Bbrv2.handle_loss_in_round. destruct (_ =? 0); [by exists b|].
  pose proof (s_lost n b Hb). pose proof (s_in_round n b Hb). run_chk. eexists. split; [done|].
  destruct (F32.gt _ _).
  - destruct (bool_decide _); [bbr Hb|]. destruct (bool_decide _); bbr Hb.
  - destruct (F32.eq _ _); cbn [negb]; destruct (F32.eq _ _); cbn [negb]; bbr Hb.
Qed.

Lemma count_round_sound n b bytes in_flight now :
  sound n b -> 0 <= bytes -> 0 <= in_flight <= 2 ^ 62 -> n + bytes + 1 <= 2 ^ 62 ->
  exists b' expired, Bbrv2.count_round b bytes in_flight now = Some (b', expired) /\ sound (n + bytes + 1) b' /\
    0 <= Bbrv2.full_bw_count b' <= n.
Proof.
  intros Hb H0 Hf Hn. unfold Bbrv2.count_round.
  pose proof (s_delivered n b Hb). pose proof (s_in_round n b Hb). pose proof (s_round n b Hb). pose proof (s_full n b Hb).
  cbn [Bbrv2.delivered Bbrv2.bytes_delivered_in_round set_field]. run_chk. run_chk.
  destruct (_ <=? _); [|eexists _, _; split; [done|split; [bbr Hb|done]]].
  destruct (_ || _); [|eexists _, _; split; [done|split; [bbr Hb|done]]].
  unfold ESTIMATED_PAYLOAD_SIZE. cbn [Bbrv2.round_count set_field]. rewrite chk_usize_ok by (unfold usize_max; lia). run. run_chk.
  eexists _, _; split; [done|split; [bbr Hb|done]].
Qed.

Lemma end_round_sound n b in_flight now :
  sound n b -> 0 <= Bbrv2.full_bw_count b < n -> n <= 2 ^ 62 ->
  exists b', Bbrv2.end_round b in_flight now = Some b' /\ sound n b'.
Proof.
  intros Hb Hc Hn. unfold Bbrv2.end_round.
  assert (exists b1, (if bool_decide (Bbrv2.state b = Bbrv2.Startup) then Bbrv2.check_filled_pipe b else Some b) = Some b1 /\
    sound n b1) as (b1 & -> & Hb1).
  { destruct (bool_decide _); [|by exists b]. unfold Bbrv2.check_filled_pipe. destruct (_ || _); [by exists b|].
    destruct (F32.gt _ _); [eexists; split; [done|bbr Hb]|]. run_chk.
    eexists. split; [done|]. destruct (FULL_BW_COUNT_REQ <=? _); bbr Hb. }
  run. destruct (loss_sound n b1 in_flight now Hb1 Hn) as (b2 & -> & Hb2). run. eexists. split; [done|].
  assert (0 <= n) by (destruct Hb; lia). bbr Hb2.
Qed.

Lemma bbr2_ack_sound n b rtt s bytes in_flight now :
  sound n b -> 0 <= bytes -> 0 <= in_flight <= 2 ^ 62 -> n + bytes + 1 <= 2 ^ 62 ->
  exists b', Bbrv2.ack b rtt s bytes in_flight now = Some b' /\ sound (n + bytes + 1) b'.
Proof.
  intros Hb H0 Hf Hn. unfold Bbrv2.ack. assert (0 <= n) by (destruct Hb; lia).
  destruct (count_round_sound n b bytes in_flight now Hb H0 Hf Hn) as (b1 & expired & -> & Hb1 & Hc1). run.
  assert (exists b2, (if expired then Bbrv2.end_round b1 in_flight now else Some b1) = Some b2 /\ sound (n + bytes + 1) b2)
    as (b2 & -> & Hb2).
  { destruct expired; [|by exists b1]. apply end_round_sound; [done|lia|lia]. }
  run. eexists. split; [done|]. apply v2_advance_sound.
  set (b3 := if older _ _ _ _ && _ then _ else b2). assert (sound (n + bytes + 1) b3) as Hb3.
  { unfold b3. destruct (_ && _); [by apply v2_startup_sound|done]. }
  assert (sound (n + bytes + 1) (b3 <| Bbrv2.last_ack_time := Some now |>)) as Hb4 by bbr Hb3.
  pose proof (v2_min_rtt_sound _ _ now rtt Hb4) as Hb5. destruct s as [s|]; [|done]. unfold Bbrv2.update_bandwidth. bbr Hb5.
Qed.

#[global] Instance laws : CongestionLaws (Bbrv2.t Rng).
Proof.
  refine {| good n b := sound n b |}.
  - intros n n' b. apply v2_sound_mono.
  - intros n b rtt s bytes in_flight now. apply bbr2_ack_sound.
  - intros n b now Hb Hn. unfold ESTIMATED_PAYLOAD_SIZE in *. cbn. unfold Bbrv2.nack. pose proof (s_lost n b Hb).
    cbn [Bbrv2.bytes_lost_in_round set_field]. unfold ESTIMATED_PAYLOAD_SIZE. run_chk.
    eexists. split; [done|]. destruct (negb _); [|bbr Hb]. destruct (F32.eq _ _); bbr Hb.
  - intros n b now Hb Hn. unfold ESTIMATED_PAYLOAD_SIZE in *. cbn. unfold Bbrv2.timeout. pose proof (s_lost n b Hb).
    cbn [Bbrv2.bytes_lost_in_round set_field]. unfold ESTIMATED_PAYLOAD_SIZE. run_chk.
    eexists. split; [done|]. bbr Hb.
  - intros n b bytes now Hb. cbn. bbr Hb.
  - intros n b Hb. cbn. unfold Bbrv2.window, MIN_CWND.
    pose proof (F32T.to_usize_range (F32.div (F32.mul (Bbrv2.bdp b) (Bbrv2.cwnd_gain b)) f_mtu)).
    unfold usize_max in *. case_bool_decide; lia.
  - intros n b Hb. cbn. unfold Bbrv2.rate, MIN_PACING_RATE, Bbrv2.STARTUP_MIN_PACING_RATE, Bbrv2.f_095.
    destruct (bool_decide _); [f32|]. destruct (bool_decide _), (negb _); f32.
Defined.

End Bbrv2.
End Bbrv2Laws.

(** *** The dispatching enumeration *)

Module AlgorithmLaws.
Section Algorithm.
Context {Rng : Type} `{RandSource Rng} `{PowerLaws}.

Definition sound (n : Z) (a : Algorithm.t Rng) : Prop :=
  match a with
  | Algorithm.AAimd x => good (CongestionLaws := AimdLaws.laws) n x
  | Algorithm.ACubic x => good (CongestionLaws := CubicLaws.laws) n x
  | Algorithm.ABbrv1 x => good (CongestionLaws := Bbrv1Laws.laws) n x
  | Algorithm.ABbrv2 x => good (CongestionLaws := Bbrv2Laws.laws) n x
  end.

#[global] Instance laws : CongestionLaws (Algorithm.t Rng).
Proof.
  refine {| good n a := sound n a |}.
  - intros n n' [x|x|x|x] Hn; cbn [sound]; by apply good_mono.
  - intros n [x|x|x|x] rtt s bytes in_flight now Hx H0' Hf Hn; cbn [sound] in Hx;
      destruct (good_on_ack n x rtt s bytes in_flight now Hx H0' Hf Hn) as (x' & E & Hx');
      eexists; (split; [cbn [on_ack Algorithm.control Algorithm.dispatch]; by rewrite E|done]).
  - intros n [x|x|x|x] now Hx Hn; cbn [sound] in Hx; destruct (good_on_nack n x now Hx Hn) as (x' & E & Hx');
      eexists; (split; [cbn [on_nack Algorithm.control Algorithm.dispatch]; by rewrite E|done]).
  - intros n [x|x|x|x] now Hx Hn; cbn [sound] in Hx; destruct (good_on_timeout n x now Hx Hn) as (x' & E & Hx');
      eexists; (split; [cbn [on_timeout Algorithm.control Algorithm.dispatch]; by rewrite E|done]).
  - intros n [x|x|x|x] bytes now Hx; exact (good_on_fragment_sent n x bytes now Hx).
  - intros n [x|x|x|x] Hx; exact (good_cwnd n x Hx).
  - intros n [x|x|x|x] Hx; exact (good_pacing_rate n x Hx).
Defined.

End Algorithm.
End AlgorithmLaws.

(** *** The windowed maximum *)

Module WindowedMax.

Section Filter.
Variable w : Duration.
Hypothesis w_nonneg : 0 <= w.

(** Earlier and strictly larger. *)
Definition before (p p' : Instant * f32) : Prop := p.1 <= p'.1 /\ (F32T.val p'.2 < F32T.val p.2)%R.

(** What the filter keeps of the samples [hist] seen until [now]. *)
Record inv (q hist : list (Instant * f32)) (now : Instant) : Prop := {
  i_subset p : p ∈ q -> p ∈ hist;
  i_sorted : StronglySorted before q;
  i_window p : p ∈ q -> since now p.1 <= w;
  i_covers p : p ∈ hist -> since now p.1 <= w -> exists p', p' ∈ q /\ p.1 <= p'.1 /\ (F32T.val p.2 <= F32T.val p'.2)%R;
  i_past p : p ∈ hist -> p.1 <= now;
  i_nnf p : p ∈ hist -> F32T.nnf p.2
}.

Lemma expire_sorted now q : StronglySorted before q -> StronglySorted before (MaxFilter.expire now w q).
Proof.
  induction 1 as [|[t s] q Hs IH Hf]; cbn; [constructor|]. destruct (w <? since now t); [done|by constructor].
Qed.

Lemma expire_window now q p : StronglySorted before q -> p ∈ MaxFilter.expire now w q -> since now p.1 <= w.
Proof.
  induction 1 as [|[t s] q Hs IH Hf]; cbn; [by intros ?%elem_of_nil|]. destruct (Z.ltb_spec w (since now t)) as [|Hle]; [done|].
  intros [->|Hp]%elem_of_cons; [done|]. rewrite Forall_forall in Hf. destruct (Hf p Hp) as [Ht _]. unfold since, sat_sub in *. cbn in *. lia.
Qed.

Lemma expire_keeps now q p : p ∈ q -> since now p.1 <= w -> p ∈ MaxFilter.expire now w q.
Proof.
  induction q as [|[t s] q IH]; cbn; [done|]. destruct (Z.ltb_spec w (since now t)) as [Hlt|]; [|done].
  intros [->|Hp]%elem_of_cons Hw; [cbn in Hw; lia|by apply IH].
Qed.

Lemma pop_sorted x q : StronglySorted before q -> StronglySorted before (MaxFilter.pop_smaller x q).
Proof.
  induction 1 as [|[t s] q Hs IH Hf]; cbn; [constructor|].
  destruct (MaxFilter.pop_smaller x q) as [|p q'] eqn:E.
  - destruct (F32.le s x); [constructor|]. constructor; [constructor|constructor].
  - constructor; [done|]. rewrite Forall_forall in *. intros y Hy. apply Hf, (FilterLaws.pop_smaller_subset x). by rewrite E.
Qed.

Lemma pop_above x q p :
  F32T.nnf x -> (forall p, p ∈ q -> F32T.nnf p.2) -> StronglySorted before q ->
  p ∈ MaxFilter.pop_smaller x q -> (F32T.val x < F32T.val p.2)%R.
Proof.
  intros Hx Hn Hsort. revert p Hn. induction Hsort as [|[t s] q Hs IH Hf]; intros p Hn; cbn; [by intros ?%elem_of_nil|].
  assert (F32T.nnf s) as Ns by (apply (Hn (t, s)); left).
  assert (forall p, p ∈ q -> F32T.nnf p.2) as Hn' by (intros y Hy; apply Hn; by right).
  destruct (MaxFilter.pop_smaller x q) as [|p' q'] eqn:E.
  - pose proof (F32T.le_val s x Ns Hx) as Hle. destruct (F32.le s x); [by intros ?%elem_of_nil|].
    intros ->%list_elem_of_singleton. cbn. apply Rnot_le_lt. intros Hc. by apply Hle in Hc.
  - intros [->|Hp]%elem_of_cons; [|by apply IH]. cbn. rewrite Forall_forall in Hf.
    assert (p' ∈ q) as Hp' by (apply (FilterLaws.pop_smaller_subset x); rewrite E; left).
    destruct (Hf p' Hp') as [_ Hlt]. assert (F32T.val x < F32T.val p'.2)%R by (apply IH; [done|left]). cbn in *. lra.
Qed.

Lemma pop_drops x q p :
  F32T.nnf x -> (forall p, p ∈ q -> F32T.nnf p.2) -> p ∈ q ->
  p ∈ MaxFilter.pop_smaller x q \/ (F32T.val p.2 <= F32T.val x)%R.
Proof.
  intros Hx. induction q as [|[t s] q IH]; cbn; [by intros _ ?%elem_of_nil|]. intros Hn Hp.
  assert (F32T.nnf s) as Ns by (apply (Hn (t, s)); left). pose proof (F32T.le_val s x Ns Hx) as Hle.
  assert (forall p, p ∈ q -> F32T.nnf p.2) as Hn' by (intros y Hy; apply Hn; by right).
  specialize (IH Hn'). destruct (MaxFilter.pop_smaller x q) as [|p' q'] eqn:E; apply elem_of_cons in Hp as [->|Hp].
  - destruct (F32.le s x); [right; by apply Hle|left; left].
  - destruct (IH Hp) as [H|H]; [by apply elem_of_nil in H|by right].
  - left. left.
  - destruct (IH Hp) as [H|H]; [left; by right|by right].
Qed.

Lemma sorted_snoc q p : StronglySorted before q -> (forall p', p' ∈ q -> before p' p) -> StronglySorted before (q ++ [p]).
Proof.
  induction 1 as [|y q Hs IH Hf]; intros Hp; cbn; [constructor; constructor|].
  constructor; [apply IH; intros p' Hp'; apply Hp; by right|].
  rewrite Forall_forall in *. intros z [Hz| ->]%elem_of_snoc; [by apply Hf|]. apply Hp. left.
Qed.

Lemma inv_add q hist now now' x :
  inv q hist now -> now <= now' -> F32T.nnf x ->
  inv (MaxFilter.pop_smaller x (MaxFilter.expire now' w q) ++ [(now', x)]) (hist ++ [(now', x)]) now' .
Proof.
  intros [Is Iso Iw Ic Ip In] Hle Hx.
  assert (forall p, p ∈ MaxFilter.expire now' w q -> F32T.nnf p.2) as Hn.
  { intros p Hp. apply In, Is, (FilterLaws.expire_subset now' w), Hp. }
  assert (forall p, p ∈ MaxFilter.pop_smaller x (MaxFilter.expire now' w q) -> p ∈ q) as Hsub.
  { intros p Hp. by eapply FilterLaws.expire_subset, FilterLaws.pop_smaller_subset. }
  pose proof (expire_sorted now' q Iso) as Hes.
  constructor.
  - intros p [Hp| ->]%elem_of_snoc; apply elem_of_snoc; [left; by apply Is, Hsub|by right].
  - apply sorted_snoc; [by apply pop_sorted|]. intros p Hp. split; cbn.
    + apply Hsub, Is, Ip in Hp. lia.
    + by eapply pop_above.
  - intros p [Hp| ->]%elem_of_snoc; [|cbn; unfold since, sat_sub; lia].
    apply (expire_window now' q); [done|]. by eapply FilterLaws.pop_smaller_subset.
  - intros p [Hp| ->]%elem_of_snoc Hw.
    + destruct (Ic p Hp) as (p' & Hp' & Ht & Hv); [unfold since, sat_sub in *; lia|].
      assert (p' ∈ MaxFilter.expire now' w q) as Hk by (apply expire_keeps; [done|unfold since, sat_sub in *; lia]).
      destruct (pop_drops x _ p' Hx Hn Hk) as [Hin|Hle'].
      * exists p'. split; [apply elem_of_snoc; by left|done].
      * exists (now', x). split; [apply elem_of_snoc; by right|]. apply Is, Ip in Hp'. cbn. split; [lia|lra].
    + exists (now', x). split; [apply elem_of_snoc; by right|]. split; [done|lra].
  - intros p [Hp| ->]%elem_of_snoc; [apply Ip in Hp; lia|cbn; lia].
  - intros p [Hp| ->]%elem_of_snoc; [by apply In|done].
Qed.

End Filter.

(** Adding samples one after the other, in the order of their times. *)
Definition feed (f : MaxFilter.t) (hist : list (Instant * f32)) : MaxFilter.t :=
  foldl (fun f p => MaxFilter.add f p.1 p.2) f hist.

Definition in_order (p p' : Instant * f32) : Prop := p.1 <= p'.1.

Lemma in_order_snoc h p : StronglySorted in_order (h ++ [p]) -> StronglySorted in_order h /\ (forall y, y ∈ h -> y.1 <= p.1).
Proof.
  induction h as [|x h IH]; intros Hs; [split; [constructor|by intros y ?%elem_of_nil]|].
  cbn in Hs. inversion Hs as [|? ? Hs' Hf]; subst. destruct (IH Hs') as [H1 H2]. rewrite Forall_forall in Hf. split.
  - constructor; [done|]. apply Forall_forall. intros y Hy. apply Hf, elem_of_snoc. by left.
  - intros y [->|Hy]%elem_of_cons; [|by apply H2]. apply (Hf p), elem_of_snoc. by right.
Qed.

Lemma feed_inv w h p :
  0 <= w -> StronglySorted in_order (h ++ [p]) -> (forall y, y ∈ h ++ [p] -> F32T.nnf y.2) ->
  inv w (MaxFilter.samples (feed (MaxFilter.new w) (h ++ [p]))) (h ++ [p]) p.1 /\
  MaxFilter.window (feed (MaxFilter.new w) (h ++ [p])) = w.
Proof.
  intros Hw. revert p. induction h as [|y h IH] using rev_ind; intros p Hs Hn.
  - split; [|done]. destruct p as [t x]. apply (inv_add w Hw [] [] t t x); [|done|by apply (Hn (t, x)); left].
    constructor; try (by intros p ?%elem_of_nil). constructor.
  - apply in_order_snoc in Hs as [Hs Hlast]. destruct (IH y Hs) as [Hinv Hwin].
    { intros z Hz. apply Hn, elem_of_app. by left. }
    unfold feed in *. rewrite foldl_snoc. cbn [MaxFilter.add MaxFilter.samples MaxFilter.window].
    rewrite Hwin. split; [|done]. destruct p as [t x]. apply (inv_add w Hw _ _ y.1); [done| |].
    + apply Hlast, elem_of_snoc. by right.
    + apply (Hn (t, x)), elem_of_snoc. by right.
Qed.

(** The bandwidth filter is a windowed maximum.  After non-negative samples
    have been added in the order of their times, the monotonic queue of
    [MaxFilter] answers the largest of the samples no older than the window at
    the time of the last one: the answer is one of them and none is larger. *)
Theorem filter_is_windowed_max w h p :
  0 <= w -> StronglySorted in_order (h ++ [p]) -> (forall y, y ∈ h ++ [p] -> F32T.nnf y.2) ->
  let m := MaxFilter.get (feed (MaxFilter.new w) (h ++ [p])) in
  (exists t, (t, m) ∈ h ++ [p] /\ since p.1 t <= w) /\
  (forall t s, (t, s) ∈ h ++ [p] -> since p.1 t <= w -> F32.le s m = true).
Proof.
  intros Hw Hs Hn. destruct (feed_inv w h p Hw Hs Hn) as [[Is Iso Iw Ic Ip In] _]. unfold MaxFilter.get.
  destruct (Ic p) as (p0 & Hp0 & _ & _); [apply elem_of_snoc; by right|unfold since, sat_sub; lia|].
  destruct (MaxFilter.samples _) as [|[t0 m] q] eqn:E; [by apply elem_of_nil in Hp0|]. cbn.
  assert ((t0, m) ∈ (t0, m) :: q) as Hfront by left. split.
  - exists t0. split; [by apply Is|by apply (Iw (t0, m))].
  - intros t s Hts Hwin. destruct (Ic (t, s) Hts Hwin) as (p' & Hp' & _ & Hv). cbn in Hv.
    apply F32T.le_val; [by apply (In (t, s))|by apply (In (t0, m)), Is|].
    apply elem_of_cons in Hp' as [->|Hp']; [done|]. inversion Iso as [|? ? _ Hf]; subst. rewrite Forall_forall in Hf.
    destruct (Hf p' Hp') as [_ Hlt]. cbn in Hlt. lra.
Qed.

Lemma filter_is_windowed_max_witness :
  exists t, (t, F32.of_Z 7) ∈ [(0, F32.of_Z 9); (60, F32.of_Z 7); (80, F32.of_Z 5)] /\ since 80 t <= 50.
Proof.
  refine (proj1 (filter_is_windowed_max 50 [(0, F32.of_Z 9); (60, F32.of_Z 7)] (80, F32.of_Z 5) _ _ _)).
  - lia.
  - repeat (constructor; [|repeat (constructor; [cbn; unfold in_order; cbn; lia|]); constructor]). constructor.
  - intros y Hy. repeat (apply elem_of_cons in Hy as [->|Hy]; [apply F32T.of_Z_nnf; lia|]). by apply not_elem_of_nil in Hy.
Defined.

End WindowedMax.

(** *** Sequences of callbacks *)

Module Runs.

Inductive event :=
| Ack (rtt : Duration) (sample : option DeliverySample) (bytes in_flight : Z) (now : Instant)
| Nack (now : Instant)
| Timeout (now : Instant)
| Sent (bytes : Z) (now : Instant).

Definition event_ok (e : event) : Prop :=
  match e with Ack _ _ bytes in_flight _ => 0 <= bytes /\ 0 <= in_flight <= 2 ^ 62 | _ => True end.

(** The most an event adds to a counter. *)
Definition cost (e : event) : Z :=
  match e with Ack _ _ bytes _ _ => bytes + 1 | Nack _ | Timeout _ => ESTIMATED_PAYLOAD_SIZE | Sent _ _ => 0 end.

Section Run.
Context {C : Type} `{CongestionControl C}.

Definition step (c : C) (e : event) : option C :=
  match e with
  | Ack rtt sample bytes in_flight now => on_ack c rtt sample bytes in_flight now
  | Nack now => on_nack c now
  | Timeout now => on_timeout c now
  | Sent bytes now => Some (on_fragment_sent c bytes now)
  end.

Fixpoint run (c : C) (es : list event) : option C :=
  match es with [] => Some c | e :: es => c ← step c e; run c es end.

Lemma run_good `{!CongestionLaws C} es b c :
  good b c -> (forall e, e ∈ es -> event_ok e) -> b + zsum cost es <= 2 ^ 62 ->
  exists c', run c es = Some c' /\ good (b + zsum cost es) c'.
Proof.
  revert b c. induction es as [|e es IH]; intros b c Hc Hok Hb; cbn [run].
  { exists c. split; [done|]. by replace (b + zsum cost []) with b by (cbn; lia). }
  rewrite zsum_cons in *. assert (event_ok e) as He by (apply Hok; left).
  assert (0 <= zsum cost es) as Hes.
  { apply zsum_nonneg. intros x Hx. assert (event_ok x) as Hx' by (apply Hok; by right).
    destruct x; cbn in *; unfold ESTIMATED_PAYLOAD_SIZE; lia. }
  assert (exists c1, step c e = Some c1 /\ good (b + cost e) c1) as (c1 & -> & Hc1).
  { destruct e as [rtt s bytes in_flight now|now|now|bytes now]; cbn [step cost] in *.
    - destruct He. destruct (good_on_ack b c rtt s bytes in_flight now Hc) as (c1 & ? & ?); [done|done|lia|].
      exists c1. by replace (b + (bytes + 1)) with (b + bytes + 1) by lia.
    - apply good_on_nack; [done|lia].
    - apply good_on_timeout; [done|lia].
    - eexists. split; [done|]. apply (good_mono b); [lia|]. by apply good_on_fragment_sent. }
  run. destruct (IH (b + cost e) c1 Hc1) as (c' & -> & Hc'); [intros x Hx; apply Hok; by right|lia|].
  exists c'. split; [done|]. by replace (b + (cost e + zsum cost es)) with (b + cost e + zsum cost es) by lia.
Qed.

End Run.

Section Algorithms.
Context {Rng : Type} `{RandSource Rng} `{PowerLaws}.

Lemma algorithm_new_sound kind (rng : Rng) : AlgorithmLaws.sound 0 (Algorithm.new kind rng).
Proof.
  destruct kind; cbn [Algorithm.new AlgorithmLaws.sound].
  - split; [done|apply AimdLaws.aimd_new_sound].
  - unfold Cubic.new, Cubic.INITIAL_CWND. constructor; cbn; f32.
  - unfold Bbrv1.new, Bbrv1.enter_startup, STARTUP_PACING_GAIN. constructor; cbn; first [lia|f32].
  - unfold Bbrv2.new, Bbrv2.enter_startup, STARTUP_PACING_GAIN, Bbrv2.INFINITY. constructor; cbn; first [lia|f32|exact I].
Qed.

(** Every congestion controller keeps its contract.  Start any of the four
    algorithms and feed it any sequence of acknowledgements, losses, timeouts
    and sends whose byte and event counts stay below 2^62: no callback panics
    (no counter overflows, no gain is indexed out of range), and afterwards the
    window is between 1 and [usize::MAX] fragments and the pacing rate is a
    well-formed number. *)
Theorem algorithms_keep_contract kind (rng : Rng) es :
  (forall e, e ∈ es -> event_ok e) -> zsum cost es <= 2 ^ 62 ->
  exists a, run (Algorithm.new kind rng) es = Some a /\ 1 <= cwnd a <= usize_max /\ F32T.valid (pacing_rate a).
Proof.
  intros Hok Hb. destruct (run_good es 0 (Algorithm.new kind rng)) as (a & Hr & Ha).
  - exact (algorithm_new_sound kind rng).
  - done.
  - done.
  - exists a. split; [done|]. split; [by apply (good_cwnd _ _ Ha)|by apply (good_pacing_rate _ _ Ha)].
Qed.

End Algorithms.

(** A generator that counts, and power functions by repeated multiplication. *)
#[local] Instance counting : RandSource Z := {| next_u32 n := (n, n + 1); gen_usize n := (n, n + 1); gen_range n lo hi := (lo, n + 1) |}.
#[local] Instance powers : PowerFunctions :=
  {| powi x n := Nat.iter (Z.to_nat n) (F32.mul x) (F32.of_Z 1); powf x y := F32.mul x y |}.
#[local] Instance powers_valid : PowerLaws.
Proof.
  split; cbn; [|intros; f32]. intros x n Hx. induction (Z.to_nat n) as [|k IH]; cbn; [f32|by apply F32T.valid_mul].
Qed.

Lemma algorithms_keep_contract_witness :
  exists a, run (Algorithm.new Algorithm.TBbrv1 (5 : Z)) [Ack (from_millis 30) None 1300 0 1; Timeout 2] = Some a /\ 1 <= cwnd a.
Proof.
  destruct (algorithms_keep_contract Algorithm.TBbrv1 (5 : Z) [Ack (from_millis 30) None 1300 0 1; Timeout 2]) as (a & H1 & H2 & _).
  - intros e He. repeat (apply elem_of_cons in He as [->|He]; [cbn; lia|]). by apply not_elem_of_nil in He.
  - cbn. unfold ESTIMATED_PAYLOAD_SIZE. lia.
  - exists a. split; [exact H1|lia].
Defined.

End Runs.

(** *** Reactions of the algorithms *)

Module Reactions.

Lemma halve_exact x : F32T.nnf x -> (1 <= F32T.val x <= IZR (2 ^ 64))%R -> F32T.nnf (F32.div x f_two) /\ F32T.val (F32.div x f_two) = (F32T.val x / 2)%R.
Proof.
  intros Hx [H1 Hmax]. assert (F32T.nnf f_two) as N2 by (by apply nnf_of_Z).
  assert (F32T.val f_two = 2)%R as V2 by (by apply (F32T.of_Z_val 2)).
  destruct x as [| | |[] m e]; try done; [cbn in H1; lra|].
  assert (exists r, F32T.nnf r /\ F32T.val r = F32T.val (S754_finite false m e) / 2)%R as (r & Nr & Vr).
  { exists (S754_finite false m (e - 1)). destruct Hx as (A & B & D).
    assert (-24 <= e) as He.
    { apply Z.nlt_ge. intros Hlt. cbn [F32T.val] in H1. assert (F32T.bpow e <= F32T.bpow (-25))%R as Hb by (apply F32T.bpow_le; lia).
      apply IZR_lt in A. pose proof (F32T.bpow_pos e).
      assert (F32T.bpow (-25) * IZR (2 ^ 25) = 1)%R as Hinv.
      { rewrite <- F32T.bpow_Z, <- F32T.bpow_add by lia. done. }
      change (IZR (2 ^ 24)) with 16777216%R in A. change (IZR (2 ^ 25)) with 33554432%R in Hinv.
      pose proof (F32T.bpow_pos (-25)). nra. }
    split; [cbn; lia|]. cbn [F32T.val]. replace e with (e - 1 + 1) at 2 by lia.
    rewrite F32T.bpow_add, (F32T.bpow_Z 1) by lia. change (IZR (2 ^ 1)) with 2%R. field. }
  destruct (F32T.div_approx (S754_finite false m e) f_two Hx N2 ltac:(lra)) as [[_ H]|H].
  - exfalso. rewrite V2 in H. rewrite F32T.bpow_Z in H by lia. assert (IZR (2 ^ 64) <= IZR (2 ^ 104))%R by (apply IZR_le; lia). lra.
  - split; [apply H|]. rewrite <- Vr. apply (F32T.approx_eq _ _ r H Nr). by rewrite V2.
Qed.

(** AIMD reacts to loss as it says.  For a window between 1 and 2^64
    fragments, a loss sets both the window and the slow-start threshold to
    exactly half the window, but at least 2; a timeout sets the threshold to the
    same value and the window to 1. *)
Theorem aimd_multiplicative_decrease a :
  F32T.nnf (Aimd.a_cwnd a) -> (1 <= F32T.val (Aimd.a_cwnd a) <= IZR (2 ^ 64))%R ->
  let half := Rmax (F32T.val (Aimd.a_cwnd a) / 2) 2 in
  F32T.val (Aimd.a_cwnd (Aimd.nack a)) = half /\ F32T.val (Aimd.ssthresh (Aimd.nack a)) = half /\
  F32T.val (Aimd.ssthresh (Aimd.timeout a)) = half /\ Aimd.window (Aimd.timeout a) = 1.
Proof.
  intros Hn Hv half. destruct (halve_exact _ Hn Hv) as [N V].
  destruct (F32T.max_val _ Aimd.MIN_SSTHRESH N AimdLaws.two_nnf) as [_ Vm]. rewrite V, AimdLaws.two_val in Vm.
  by split_and!.
Qed.

Lemma aimd_multiplicative_decrease_witness :
  F32T.val (Aimd.a_cwnd (Aimd.nack Aimd.new)) = Rmax (10 / 2) 2.
Proof.
  assert (F32T.val (Aimd.a_cwnd Aimd.new) = 10)%R as V by (by apply (F32T.of_Z_val 10)).
  rewrite <- V. apply (aimd_multiplicative_decrease Aimd.new); [by apply nnf_of_Z|].
  rewrite V. split; [lra|]. apply (IZR_le 10). lia.
Defined.

Section Bbrv1.
Context {Rng : Type} `{RandSource Rng}.
Implicit Types b : Bbrv1.t Rng.

(** The transitions an acknowledgement can make. *)
Inductive transition : Bbrv1.State -> Bbrv1.State -> Prop :=
| stay s : transition s s
| filled : transition Bbrv1.Startup Bbrv1.Drain
| drained : transition Bbrv1.Drain Bbrv1.ProbeBw
| probed : transition Bbrv1.ProbeRtt Bbrv1.ProbeBw
| stale s : transition s Bbrv1.ProbeRtt
| idle s : transition s Bbrv1.Startup.

Lemma probe_bw_state b now b' : Bbrv1.enter_probe_bw b now = Some b' -> Bbrv1.state b' = Bbrv1.ProbeBw.
Proof.
  unfold Bbrv1.enter_probe_bw. destruct (gen_usize _) as [n r]. intros E. inv_bind E. by injection E as <-.
Qed.

Lemma advance_state b in_flight now b' :
  Bbrv1.advance b in_flight now = Some b' ->
  Bbrv1.state b' = Bbrv1.state b \/
  (Bbrv1.state b = Bbrv1.Startup /\ Bbrv1.filled_pipe b = true /\ Bbrv1.state b' = Bbrv1.Drain) \/
  (Bbrv1.state b = Bbrv1.Drain /\ Bbrv1.state b' = Bbrv1.ProbeBw) \/
  (Bbrv1.state b = Bbrv1.ProbeRtt /\ older (Bbrv1.cycle_stamp b) now PROBE_RTT_DURATION true = true /\
   Bbrv1.state b' = Bbrv1.ProbeBw).
Proof.
  unfold Bbrv1.advance. destruct (Bbrv1.state b) eqn:Es.
  - intros [= <-]. destruct (Bbrv1.filled_pipe b) eqn:Ef; [right; left; done|by left].
  - destruct (F32.le _ _); [intros E%probe_bw_state; by right; right; left|intros [= <-]; by left].
  - destruct (older _ _ _ _); [|intros [= <-]; by left]. intros E. inv_bind E. injection E as <-. by left.
  - destruct (older _ _ _ _); [intros E%probe_bw_state; right; right; by right|intros [= <-]; by left].
Qed.

Lemma min_rtt_state b now rtt :
  Bbrv1.state (Bbrv1.update_min_rtt b now rtt) = Bbrv1.state b \/
  (Bbrv1.state (Bbrv1.update_min_rtt b now rtt) = Bbrv1.ProbeRtt /\
   Bbrv1.cycle_stamp (Bbrv1.update_min_rtt b now rtt) = Some now).
Proof.
  unfold Bbrv1.update_min_rtt. set (b1 := if _ || _ || _ then _ else b).
  assert (Bbrv1.state b1 = Bbrv1.state b) as E by (unfold b1; by destruct (_ || _ || _)).
  destruct (_ && _); [by right|by left].
Qed.

Lemma note_sample_frame b now s :
  Bbrv1.state (Bbrv1.note_sample b now s) = Bbrv1.state b /\
  Bbrv1.cycle_stamp (Bbrv1.note_sample b now s) = Bbrv1.cycle_stamp b /\
  Bbrv1.filled_pipe (Bbrv1.note_sample b now s) = Bbrv1.filled_pipe b.
Proof. destruct s as [s|]; [|done]. cbn. by destruct (sample_app_limited s). Qed.

Lemma not_older_now now limit : 0 <= limit -> older (Some now) now limit true = false.
Proof. intros Hl. cbn. unfold since, sat_sub. apply Z.ltb_ge. lia. Qed.

(** The BBRv1 state machine.  An acknowledgement leaves the state alone or
    takes it from start-up to drain, from drain to bandwidth probing, from RTT
    probing to bandwidth probing, to RTT probing when the minimum RTT is stale,
    or back to start-up after an idle period; in particular bandwidth probing is
    entered only by draining or by finishing an RTT probe. *)
Theorem bbrv1_transitions n b rtt sample in_flight now :
  Bbrv1Laws.sound n b -> n + 1 <= 2 ^ 62 ->
  exists b', Bbrv1.ack b rtt sample in_flight now = Some b' /\ transition (Bbrv1.state b) (Bbrv1.state b').
Proof.
  intros Hb Hn. destruct (Bbrv1Laws.bbr1_ack_sound n b rtt sample in_flight now Hb Hn) as (b' & Hack & _).
  exists b'. split; [done|]. unfold Bbrv1.ack in Hack.
  assert (exists b1, (if older (Bbrv1.round_start b) now (Bbrv1.b_min_rtt b) true
    then Bbrv1.begin_round b in_flight now else Some b) = Some b1 /\ Bbrv1.state b1 = Bbrv1.state b) as (b1 & E1 & S1).
  { destruct (older _ _ _ _); [|by exists b].
    destruct (Bbrv1Laws.begin_round_sound n b in_flight now Hb Hn) as (x & ? & _ & ?). by exists x. }
  rewrite E1 in Hack. run. cbn [mbind option_bind] in Hack.
  set (idle_now := older (Bbrv1.last_ack_time b1) now IDLE_RESTART_THRESHOLD false) in Hack.
  set (b2 := (if idle_now then Bbrv1.enter_startup b1 else b1) <| Bbrv1.last_ack_time := Some now |>) in Hack.
  assert ((idle_now = true /\ Bbrv1.state b2 = Bbrv1.Startup /\ Bbrv1.filled_pipe b2 = false) \/ Bbrv1.state b2 = Bbrv1.state b) as S2.
  { unfold b2. destruct idle_now; [by left|right; exact S1]. }
  pose proof (min_rtt_state b2 now rtt) as S3. set (b3 := Bbrv1.update_min_rtt b2 now rtt) in *.
  assert (Bbrv1.filled_pipe b3 = Bbrv1.filled_pipe b2) as F3.
  { unfold b3, Bbrv1.update_min_rtt. destruct (_ || _ || _), (_ && _); done. }
  destruct (note_sample_frame b3 now sample) as (S4 & C4 & F4). set (b4 := Bbrv1.note_sample b3 now sample) in *.
  apply advance_state in Hack. rewrite S4, C4, F4, F3 in Hack.
  destruct S3 as [S3|[S3 C3]].
  - rewrite S3 in Hack. destruct S2 as [(_ & S2 & F2)|S2]; rewrite S2 in Hack.
    + destruct Hack as [->|[(_ & Hf & _)|[[? _]|[? _]]]]; [apply idle|congruence|done|done].
    + destruct Hack as [->|[(-> & _ & ->)|[[-> ->]|(-> & _ & ->)]]]; constructor.
  - rewrite S3, C3, (not_older_now now PROBE_RTT_DURATION) in Hack by done.
    destruct Hack as [->|[(? & _)|[[? _]|(_ & ? & _)]]]; [apply stale|done..].
Qed.

(** A persistent timeout of BBRv1 is meant to reset the bandwidth estimate to a
    small value, but the sample is added to the maximum filter: an estimate
    above 10000 bytes per second that is still in the window survives.*)
Theorem bbrv1_timeout_keeps_bandwidth b now t0 s0 q b' :
  MaxFilter.samples (Bbrv1.max_bw b) = (t0, s0) :: q -> since now t0 <= MaxFilter.window (Bbrv1.max_bw b) ->
  F32.le s0 (F32.of_Z 10000) = false -> Bbrv1.timeout b now = Some b' ->
  MaxFilter.get (Bbrv1.max_bw b') = s0.
Proof.
  intros Hs Hw Hle E. unfold Bbrv1.timeout in E. inv_bind E. injection E as <-.
  destruct (_ <? _); [|unfold MaxFilter.get; cbn; by rewrite Hs]. unfold MaxFilter.get. cbn. rewrite Hs. cbn.
  rewrite (proj2 (Z.ltb_ge _ _)) by done. cbn. destruct (MaxFilter.pop_smaller _ q); [by rewrite Hle|done].
Qed.

End Bbrv1.

#[local] Instance clock_source : RandSource Z := {| next_u32 n := (n, n + 1); gen_usize n := (n, n + 1); gen_range n lo hi := (lo, n + 1) |}.

Lemma bbrv1_transitions_witness :
  exists b', Bbrv1.ack (Bbrv1.new (3 : Z)) (from_millis 30) None 0 5 = Some b' /\ transition Bbrv1.Startup (Bbrv1.state b').
Proof.
  apply (bbrv1_transitions 0 (Bbrv1.new (3 : Z)) (from_millis 30) None 0 5); [|lia].
  unfold Bbrv1.new, Bbrv1.enter_startup, STARTUP_PACING_GAIN. constructor; cbn; first [lia|f32].
Defined.

Lemma bbrv1_timeout_keeps_bandwidth_witness :
  exists b', Bbrv1.timeout ((Bbrv1.new (3 : Z)) <| Bbrv1.max_bw := MaxFilter.add (MaxFilter.new (from_secs 10)) 0 (F32.of_Z 20000) |>
                              <| Bbrv1.loss_count_in_round := 20 |>) 5 = Some b' /\
    MaxFilter.get (Bbrv1.max_bw b') = F32.of_Z 20000.
Proof.
  eexists. split; [vm_compute; reflexivity|].
  eapply (bbrv1_timeout_keeps_bandwidth ((Bbrv1.new (3 : Z)) <| Bbrv1.max_bw := MaxFilter.add (MaxFilter.new (from_secs 10)) 0 (F32.of_Z 20000) |>
    <| Bbrv1.loss_count_in_round := 20 |>) 5 0 _ []); [by vm_compute..|vm_compute; reflexivity].
Defined.

End Reactions.
