(* ===== verification/Session.v ===== *)
(** The transport session ([tox-sequenced/src/session.rs]).

    The state [t] has the fields of [SequenceSession] except three.  The quota
    is shared by all sessions, so it is threaded through the operations next to
    the session.  The clock [time_provider] is library code that is asked at most
    once per operation: its answer is the argument [now_ms].  The phantom of the
    congestion controller's type parameter is the section variable [C].

    The envelope codec is derived by a macro when the crate is built: it is the
    class [EnvelopeCodec].  A [None] is a panic: an arithmetic overflow, an index
    out of range or an [unwrap] of nothing. *)

From S2P Require Import Prelude Bitset FlatMaps Protocol Quota Reassembly Float32 F32Theory Rtt Outgoing Scheduler Congestion.
From Stdlib Require Import SpecFloat.
#[local] Open Scope Z_scope.
#[local] Open Scope list_scope.

Definition PING_INTERVAL_IDLE : Duration := from_secs 60.
Definition PING_INTERVAL_ACTIVE : Duration := from_secs 10.
Definition CONNECTION_TIMEOUT : Duration := from_secs 300.
Definition FAIR_SHARE_GUARANTEE : Z := 16 * 1024.

(** [protocol::serialize] of an [OutboundEnvelope] and [protocol::deserialize]
    of an [InboundEnvelope]. *)
Class EnvelopeCodec := {
  serialize_envelope : MessageType -> bytes -> result string bytes;
  deserialize_envelope : bytes -> result string (MessageType * bytes)
}.

Module SequenceSession.

Section Session.
Context {C : Type} `{CongestionControl C} {Rng : Type} `{RandSource Rng} `{EnvelopeCodec}.

Abbreviation quota_t := ReassemblyQuota.t.

Record t := mk {
  next_message_id : Z;
  outgoing : list (Z * OutgoingMessage.t);
  incoming : list (Z * MessageReassembler.t);
  max_per_session : Z;
  incoming_buffer_size : Z;
  completed_incoming : list (Z * (SelectiveAck * Instant));
  pending_acks : list (Z * (Z * Instant));
  pending_nacks : list (Z * Instant);
  datagram_queue : list Packet;
  scheduler : PriorityScheduler.t;
  events : list SessionEvent;
  rtt : RttEstimator.t;
  congestion_control : C;
  in_flight : Z;
  peer_rwnd : Z;
  delivered_bytes : Z;
  last_delivery_time : Instant;
  last_ping : Instant;
  last_ping_sent : option Instant;
  last_activity : Instant;
  next_pacing_time : Instant;
  last_rwnd_probe : Instant;
  zero_window_probes_sent : Z;
  last_emitted_cwnd : Z;
  app_limited : bool;
  highest_received_id : option Z;
  retransmit_count : Z;
  clock_offset : Z;
  rng : Rng
}.
#[global] Instance eta_t : Settable t := fun s =>
  mk (next_message_id s) (outgoing s) (incoming s) (max_per_session s) (incoming_buffer_size s)
     (completed_incoming s) (pending_acks s) (pending_nacks s) (datagram_queue s) (scheduler s) (events s)
     (rtt s) (congestion_control s) (in_flight s) (peer_rwnd s) (delivered_bytes s) (last_delivery_time s)
     (last_ping s) (last_ping_sent s) (last_activity s) (next_pacing_time s) (last_rwnd_probe s)
     (zero_window_probes_sent s) (last_emitted_cwnd s) (app_limited s) (highest_received_id s)
     (retransmit_count s) (clock_offset s) (rng s).

Definition calculate_priority (message_type : option MessageType) (total_fragments size_est : Z) : Priority :=
  match message_type with
  | Some mtype =>
      if bool_decide (priority mtype = Critical) then Critical
      else if total_fragments =? 1 then Standard else priority mtype
  | None =>
      if total_fragments =? 1 then Standard
      else if size_est <? 32 * 1024 then Standard else Bulk
  end.

(** [with_congestion_control_and_quota_at] *)
Definition new (cc : C) (now : Instant) (r : Rng) : t :=
  let '(next_message_id, r) := next_u32 r in
  {| next_message_id := next_message_id; outgoing := FlatMap.new; incoming := FlatMap.new;
     max_per_session := MAX_TOTAL_REASSEMBLY_BUFFER; incoming_buffer_size := 0;
     completed_incoming := FlatMap.new; pending_acks := FlatMap.new; pending_nacks := FlatMap.new;
     datagram_queue := []; scheduler := PriorityScheduler.new; events := []; rtt := RttEstimator.new;
     congestion_control := cc; in_flight := 0; peer_rwnd := MAX_TOTAL_REASSEMBLY_BUFFER;
     delivered_bytes := 0; last_delivery_time := now; last_ping := now - CONNECTION_TIMEOUT;
     last_ping_sent := None; last_activity := now; next_pacing_time := now; last_rwnd_probe := now;
     zero_window_probes_sent := 0; last_emitted_cwnd := 0; app_limited := true;
     highest_received_id := None; retransmit_count := 0; clock_offset := 0; rng := r |}.

(** The new quota charged with what the session holds; the old quota is not
    released. *)
Definition set_quota (s : t) (quota : quota_t) : option quota_t :=
  if 0 <? incoming_buffer_size s
  then '(quota, _) ← ReassemblyQuota.reserve_guaranteed quota (incoming_buffer_size s); Some quota
  else Some quota.

(** *** Sending *)

(** The search for a free message id. *)
Fixpoint free_id (fuel : nat) (m : list (Z * OutgoingMessage.t)) (id : Z) : Z :=
  match fuel with
  | O => id
  | S fuel =>
      if negb (FlatMap.contains_key m id) then id else free_id fuel m (MessageId.wrapping_add id 1)
  end.

Definition send_message_at (s : t) (message_type : MessageType) (data : bytes) (now : Instant) :
    option (t * result SequencedError Z) :=
  if MAX_CONCURRENT_OUTGOING <=? FlatMap.len (outgoing s) then Some (s, Err QueueFull)
  else
    let id := free_id (Z.to_nat MAX_CONCURRENT_OUTGOING) (outgoing s) (next_message_id s) in
    if FlatMap.contains_key (outgoing s) id then Some (s, Err QueueFull)
    else
      let s := s <| next_message_id := MessageId.wrapping_add id 1 |> in
      match serialize_envelope message_type data with
      | Err e => Some (s, Err (SerializationError e))
      | Ok full_payload =>
          if MAX_MESSAGE_SIZE <? len full_payload then Some (s, Err MessageTooLarge)
          else
            let payload_mtu := sat_sub MAX_TOX_PACKET_SIZE PACKET_OVERHEAD in
            if payload_mtu =? 0 then Some (s, Err MessageTooLarge)
            else
              r ← OutgoingMessage.new message_type full_payload payload_mtu now;
              match r with
              | Err e => Some (s, Err e)
              | Ok msg =>
                  sch ← PriorityScheduler.update_message (scheduler s) id (priority_level (priority message_type));
                  let s := s <| scheduler := sch |> in
                  Some (s <| outgoing := (FlatMap.insert (outgoing s) id msg).1 |>, Ok id)
              end
      end.

Definition set_message_timeout (s : t) (message_id : Z) (timeout : Duration) : t :=
  s <| outgoing := FlatMap.get_mut (outgoing s) message_id (fun m => m <| OutgoingMessage.timeout := timeout |>) |>.

Definition send_datagram (s : t) (message_type : MessageType) (data : bytes) :
    option (t * result SequencedError unit) :=
  if MAX_DATAGRAM_QUEUE <=? len (datagram_queue s) then Some (s, Err QueueFull)
  else
    n ← chk_usize (len data + 10);
    if MAX_TOX_PACKET_SIZE <? n then Some (s, Err MessageTooLarge)
    else Some (s <| datagram_queue := datagram_queue s ++ [Datagram message_type data] |>, Ok tt).

Definition emit (s : t) (e : SessionEvent) : t := s <| events := events s ++ [e] |>.

Definition check_cwnd_change (s : t) : t :=
  let w := cwnd (congestion_control s) in
  let threshold := F32.to_usize (F32.max (F32.mul (F32.of_Z (last_emitted_cwnd s)) (F32.lit 1 10)) f_one) in
  let abs_diff := Z.abs (w - last_emitted_cwnd s) in
  if (threshold <=? abs_diff) || (last_emitted_cwnd s =? 0)
  then (emit s (CongestionWindowChanged w)) <| last_emitted_cwnd := w |>
  else s.

(** *** Receiving data *)

Definition current_rwnd (q : quota_t) (s : t) : Z :=
  let planned_size := zsum MessageReassembler.planned_total_size (FlatMap.values (incoming s)) in
  let local_avail := sat_sub (max_per_session s) planned_size in
  let global_avail := ReassemblyQuota.available q in
  wrap 16 (Z.min (Z.min local_avail global_avail / ESTIMATED_PAYLOAD_SIZE) u16_max).

(** The acknowledgement of a message completed before; [None] if there is none. *)
Definition check_completed_message (q : quota_t) (s : t) (message_id : Z) : option Packet :=
  match FlatMap.get (completed_incoming s) message_id with
  | Some (ack, _) => Some (AckP (ack <| ack_rwnd := current_rwnd q s |>))
  | None => None
  end.

Definition is_ancient_message (s : t) (message_id : Z) : bool :=
  match highest_received_id s with
  | Some highest =>
      let diff := MessageId.wrapping_sub message_id highest in
      let known := FlatMap.contains_key (incoming s) message_id ||
                   FlatMap.contains_key (completed_incoming s) message_id in
      if 0x80000000 <? diff then
        let offset := MessageId.wrapping_sub highest message_id in
        if MAX_COMPLETED_INCOMING <=? offset then true
        else if negb known && (32 <? offset) then true else false
      else if (diff =? 0) && negb known then true else false
  | None => false
  end.

Definition create_rejection_ack (q : quota_t) (s : t) (message_id : Z) : Packet :=
  AckP (mkAck message_id 0 0 (current_rwnd q s)).

(** Reserving memory for a message: guaranteed within the fair share of the
    session, by priority beyond it. *)
Definition reserve_for (q : quota_t) (s : t) (amount : Z) (p : Priority) : option (quota_t * bool) :=
  n ← chk_usize (incoming_buffer_size s + amount);
  if n <=? FAIR_SHARE_GUARANTEE then ReassemblyQuota.reserve_guaranteed q amount
  else ReassemblyQuota.reserve q amount p.

(** The reassembler of a message that is not known yet: [true] when it can be
    added to. *)
Definition open_reassembler (q : quota_t) (s : t) (message_id : Z) (message_type : option MessageType)
    (total_fragments data_len : Z) (now : Instant) : option (quota_t * t * list Packet * bool) :=
  initial_reservation ← (if 1 <? total_fragments
                         then chk_usize (Z.max data_len ESTIMATED_PAYLOAD_SIZE * total_fragments)
                         else Some data_len);
  let priority := calculate_priority message_type total_fragments initial_reservation in
  '(q, reserved) ← reserve_for q s initial_reservation priority;
  sum ← chk_usize (incoming_buffer_size s + initial_reservation);
  if negb reserved || (max_per_session s <? sum) then
    let q := if (reserved : bool) then ReassemblyQuota.release q initial_reservation else q in
    Some (q, s, [create_rejection_ack q s message_id], false)
  else
    match MessageReassembler.new message_id total_fragments priority initial_reservation now with
    | Ok re =>
        let s := s <| incoming_buffer_size := sum |>
                   <| incoming := (FlatMap.insert (incoming s) message_id re).1 |> in
        let newer := match highest_received_id s with
                     | None => true
                     | Some h => MessageId.wrapping_sub message_id h <? 0x80000000
                     end in
        Some (q, if (newer : bool) then s <| highest_received_id := Some message_id |> else s, [], true)
    | Err _ =>
        let q := ReassemblyQuota.release q initial_reservation in
        Some (q, s, [create_rejection_ack q s message_id], false)
    end.

Definition ensure_reassembler (q : quota_t) (s : t) (message_id : Z) (message_type : option MessageType)
    (total_fragments data_len : Z) (now : Instant) : option (quota_t * t * list Packet * bool) :=
  match FlatMap.get (incoming s) message_id with
  | Some entry =>
      let entry := match message_type with
                   | Some mtype =>
                       entry <| MessageReassembler.priority :=
                         calculate_priority (Some mtype) total_fragments (MessageReassembler.reserved_bytes entry) |>
                   | None => entry
                   end in
      Some (q, s <| incoming := FlatMap.write (incoming s) message_id entry |>, [],
            MessageReassembler.total_fragments entry =? total_fragments)
  | None =>
      if MAX_CONCURRENT_INCOMING <=? FlatMap.len (incoming s)
      then Some (q, s, [create_rejection_ack q s message_id], false)
      else open_reassembler q s message_id message_type total_fragments data_len now
  end.

(** Dropping a reassembler and giving its memory back. *)
Definition drop_incoming (q : quota_t) (s : t) (message_id : Z) : option (quota_t * t * option MessageReassembler.t) :=
  let '(m, r) := FlatMap.remove (incoming s) message_id in
  match r with
  | Some r =>
      n ← chk_usize (incoming_buffer_size s - MessageReassembler.reserved_bytes r);
      Some (ReassemblyQuota.release q (MessageReassembler.reserved_bytes r),
            s <| incoming := m |> <| incoming_buffer_size := n |>, Some r)
  | None => Some (q, s <| incoming := m |>, None)
  end.

(** Remembering a completed message, forgetting the oldest beyond the limit. *)
Definition remember_completed (s : t) (message_id : Z) (ack : SelectiveAck) (now : Instant) : option t :=
  let m := (FlatMap.insert (completed_incoming s) message_id (ack, now)).1 in
  m ← (if MAX_COMPLETED_INCOMING <? FlatMap.len m
       then oldest_id ← List.hd_error (FlatMap.keys m); Some (FlatMap.remove m oldest_id).1
       else Some m);
  let s := s <| completed_incoming := m |> in
  Some (s <| pending_acks := (FlatMap.insert (pending_acks s) message_id (2, now)).1 |>).

(** The branch of [process_fragment] for a message that just became complete. *)
Definition complete_message (q : quota_t) (s : t) (message_id : Z) (now : Instant) : option (quota_t * t) :=
  let s := s <| pending_nacks := (FlatMap.remove (pending_nacks s) message_id).1 |> in
  '(q, s, r) ← drop_incoming q s message_id;
  match r with
  | None => Some (q, s)
  | Some reassembler =>
      let ack := MessageReassembler.create_ack reassembler (current_rwnd q s) in
      match MessageReassembler.assemble reassembler with
      | None => Some (q, s)
      | Some assembled =>
          let s := match deserialize_envelope assembled with
                   | Ok (message_type, payload) => emit s (MessageCompleted message_id message_type payload)
                   | Err _ => s
                   end in
          s ← remember_completed s message_id ack now;
          Some (q, s)
      end
  end.

(** Adjusting the reservation of a message to its planned size; [false] when
    the memory is not there and the message was dropped. *)
Definition adjust_reservation (q : quota_t) (s : t) (message_id : Z) (entry : MessageReassembler.t) :
    option (quota_t * t * list Packet * bool) :=
  let new_planned := MessageReassembler.planned_total_size entry in
  let reserved_bytes := MessageReassembler.reserved_bytes entry in
  let write s := s <| incoming := FlatMap.write (incoming s) message_id
                        (entry <| MessageReassembler.reserved_bytes := new_planned |>) |> in
  if new_planned =? reserved_bytes then Some (q, s, [], true)
  else if reserved_bytes <? new_planned then
    let addition := new_planned - reserved_bytes in
    '(q, reserved) ← reserve_for q s addition (MessageReassembler.priority entry);
    sum ← chk_usize (incoming_buffer_size s + addition);
    if negb reserved || (max_per_session s <? sum) then
      let q := if (reserved : bool) then ReassemblyQuota.release q addition else q in
      '(q, s, r) ← drop_incoming q s message_id;
      Some (q, s, match r with Some _ => [create_rejection_ack q s message_id] | None => [] end, false)
    else Some (q, write (s <| incoming_buffer_size := sum |>), [], true)
  else
    let reduction := reserved_bytes - new_planned in
    n ← chk_usize (incoming_buffer_size s - reduction);
    Some (ReassemblyQuota.release q reduction, write (s <| incoming_buffer_size := n |>), [], true).

(** Asking for missing fragments: at once when far ahead, after a delay
    otherwise. *)
Definition note_gap (s : t) (message_id fragment_index base_idx : Z) (now : Instant) : option t :=
  far ← chk_u16 (base_idx + 30);
  Some (if far <? fragment_index
        then s <| pending_nacks := (FlatMap.insert (pending_nacks s) message_id (now - from_secs 1)).1 |>
        else if base_idx <? fragment_index
        then s <| pending_nacks := (FlatMap.or_insert (pending_nacks s) message_id now).1 |>
        else s).

Definition process_fragment (q : quota_t) (s : t) (message_id fragment_index : Z) (data : bytes) (now : Instant) :
    option (quota_t * t * list Packet) :=
  entry ← FlatMap.get (incoming s) message_id;
  '(entry, res) ← MessageReassembler.add_fragment entry fragment_index data now;
  let s := s <| incoming := FlatMap.write (incoming s) message_id entry |> in
  match res with
  | Ok complete =>
      s ← note_gap s message_id fragment_index (FragmentBuffer.base_index (MessageReassembler.buffer entry)) now;
      '(q, s, responses, kept) ← adjust_reservation q s message_id entry;
      if negb kept then Some (q, s, responses)
      else if (complete : bool) then
        '(q, s) ← complete_message q s message_id now;
        Some (q, s, responses)
      else
        let '(m, (count, at_)) := FlatMap.or_insert (pending_acks s) message_id (0, now) in
        count ← chk_usize (count + 1);
        Some (q, s <| pending_acks := FlatMap.write m message_id (count, at_) |>, responses)
  | Err _ =>
      '(q, s, _) ← drop_incoming q s message_id;
      Some (q, s, [])
  end.

Definition handle_data_packet (q : quota_t) (s : t) (message_id fragment_index total_fragments : Z) (data : bytes)
    (now : Instant) : option (quota_t * t * list Packet) :=
  match check_completed_message q s message_id with
  | Some ack => Some (q, s, [ack])
  | None =>
      if is_ancient_message s message_id then Some (q, s, [])
      else
        let peeked_type := if fragment_index =? 0 then peek_message_type data else None in
        '(q, s, responses, ok) ← ensure_reassembler q s message_id peeked_type total_fragments (len data) now;
        if negb ok then Some (q, s, responses)
        else
          '(q, s, more) ← process_fragment q s message_id fragment_index data now;
          Some (q, s, responses ++ more)
  end.

(** *** Acknowledgements *)

(** The delivery sample handed to the congestion controller. *)
Definition final_sample (s : t) (r : AckResult) (now : Instant) : option (option DeliverySample) :=
  match delivery_sample r with
  | Some (delivered_at_send, delivery_time_at_send, _, app_limited) =>
      n ← chk_usize (delivered_bytes s - delivered_at_send);
      Some (Some {| bytes_delivered := n; duration := since now delivery_time_at_send; sample_now := now;
                    sample_app_limited := app_limited |})
  | None => Some None
  end.

Definition handle_ack_packet (s : t) (ack : SelectiveAck) (now : Instant) : option t :=
  rwnd_bytes ← chk_usize (ack_rwnd ack * ESTIMATED_PAYLOAD_SIZE);
  let s := if ESTIMATED_PAYLOAD_SIZE <=? rwnd_bytes then s <| zero_window_probes_sent := 0 |> else s in
  let s := s <| peer_rwnd := rwnd_bytes |> in
  let message_id := ack_message_id ack in
  match FlatMap.get (outgoing s) message_id with
  | Some msg =>
      '(msg, res) ← OutgoingMessage.on_ack msg (ack_base_index ack) (ack_bitmask ack) now (delivered_bytes s);
      let s := s <| outgoing := FlatMap.write (outgoing s) message_id msg |> in
      d ← chk_usize (delivered_bytes s + newly_delivered_bytes res);
      let s := s <| delivered_bytes := d |> in
      let s := if 0 <? newly_delivered_bytes res then s <| last_delivery_time := now |> else s in
      let s := s <| in_flight := sat_sub (in_flight s) (newly_completed_in_flight_bytes res) |> in
      cc ← (if loss_detected res then on_nack (congestion_control s) now else Some (congestion_control s));
      let s := s <| congestion_control := cc |> in
      let message_fully_acked := OutgoingMessage.all_acked msg in
      sample ← final_sample s res now;
      est ← match Outgoing.min_rtt res with Some m => RttEstimator.update (rtt s) m | None => Some (rtt s) end;
      let s := s <| rtt := est |> in
      let rtt_to_report := default (RttEstimator.srtt (rtt s)) (first_rtt res) in
      cc ← on_ack (congestion_control s) rtt_to_report sample (newly_delivered_bytes res) (in_flight s) now;
      let s := s <| congestion_control := cc |> in
      if message_fully_acked then
        let s := emit s (MessageAcked message_id) in
        sch ← PriorityScheduler.remove_message (scheduler s) message_id;
        let s := s <| scheduler := sch |> <| outgoing := (FlatMap.remove (outgoing s) message_id).1 |> in
        Some (emit s ReadyToSend)
      else Some s
  | None =>
      cc ← on_ack (congestion_control s) (RttEstimator.srtt (rtt s)) None 0 (in_flight s) now;
      Some (s <| congestion_control := cc |>)
  end.

(** The loop over the missing indices: the message, the bytes in flight, the
    fragments to drop from the queue, and whether anything was retransmitted. *)
Fixpoint nack_indices (msg : OutgoingMessage.t) (flight : Z) (remove : BitSet.t) (cleanup triggered : bool)
    (ids : list Z) : option (OutgoingMessage.t * Z * BitSet.t * bool * bool) :=
  match ids with
  | [] => Some (msg, flight, remove, cleanup, triggered)
  | i :: ids =>
      if OutgoingMessage.is_acked msg i then nack_indices msg flight remove cleanup triggered ids
      else
        state ← idx (OutgoingMessage.fragment_states msg) i;
        states ← upd (OutgoingMessage.fragment_states msg) i (state <| last_sent := None |>);
        let msg := msg <| OutgoingMessage.fragment_states := states |> in
        '(flight, remove, cleanup) ←
          (match last_sent state with
           | Some _ =>
               n ← OutgoingMessage.fragment_len msg i;
               let '(remove, fresh) := BitSet.set remove i in
               Some (sat_sub flight n, remove, if (fresh : bool) then true else cleanup)
           | None => Some (flight, remove, cleanup)
           end);
        let msg := if BitSet.get (OutgoingMessage.retransmit_bitset msg) i then msg
                   else msg <| OutgoingMessage.retransmit_queue := OutgoingMessage.retransmit_queue msg ++ [i] |>
                            <| OutgoingMessage.retransmit_bitset := (BitSet.set (OutgoingMessage.retransmit_bitset msg) i).1 |> in
        nack_indices msg flight remove cleanup true ids
  end.

Definition handle_nack_packet (s : t) (nack : Nack) (now : Instant) : option t :=
  match FlatMap.get (outgoing s) (nack_message_id nack) with
  | None => Some s
  | Some msg =>
      '(msg, flight, remove, cleanup, triggered) ←
        nack_indices msg (in_flight s) (BitSet.new BITSET_WORDS) false false (missing_indices nack);
      let msg := if (cleanup : bool)
                 then msg <| OutgoingMessage.in_flight_queue :=
                        List.filter (fun p => negb (BitSet.get remove p.1)) (OutgoingMessage.in_flight_queue msg) |>
                 else msg in
      let s := s <| in_flight := flight |> <| outgoing := FlatMap.write (outgoing s) (nack_message_id nack) msg |> in
      if (triggered : bool) then cc ← on_nack (congestion_control s) now; Some (s <| congestion_control := cc |>)
      else Some s
  end.

(** *** Packets *)

(** [((t2 - t1) + (t3 - t4)) / 2] in [i64] *)
Definition clock_estimate (t1 t2 t3 t4 : Z) : option Z :=
  a ← chk_i64 (t2 - t1);
  b ← chk_i64 (t3 - t4);
  c ← chk_i64 (a + b);
  Some (Z.quot c 2).

Definition handle_packet_internal (q : quota_t) (s : t) (packet : Packet) (now : Instant) (now_ms : Z) :
    option (quota_t * t * list Packet) :=
  match packet with
  | Data message_id fragment_index total_fragments data =>
      handle_data_packet q s message_id fragment_index total_fragments data now
  | AckP ack => s ← handle_ack_packet s ack now; Some (q, s, [])
  | NackP nack => s ← handle_nack_packet s nack now; Some (q, s, [])
  | Ping t1 =>
      let '(jitter, r) := gen_range (rng s) (-5) 5 in
      let s := s <| rng := r |> in
      t2 ← chk_i64 (now_ms + jitter);
      Some (q, s, [Pong t1 t2 t2])
  | Pong t1 t2 t3 =>
      match last_ping_sent s with
      | Some sent_time =>
          let s := s <| last_ping_sent := None |> in
          let rtt_sample := since now sent_time in
          est ← RttEstimator.update (rtt s) rtt_sample;
          let s := s <| rtt := est |> in
          off ← clock_estimate t1 t2 t3 now_ms;
          let s := s <| clock_offset := off |> in
          cc ← on_ack (congestion_control s) rtt_sample None 0 (in_flight s) now;
          Some (q, s <| congestion_control := cc |>, [])
      | None => Some (q, s, [])
      end
  | Datagram message_type data => Some (q, emit s (MessageCompleted 0 message_type data), [])
  end.

Definition handle_packet (q : quota_t) (s : t) (packet : Packet) (now : Instant) (now_ms : Z) :
    option (quota_t * t * list Packet) :=
  let s := s <| last_activity := now |> in
  '(q, s, replies) ← handle_packet_internal q s packet now now_ms;
  Some (q, check_cwnd_change s, replies).

(** *** Timers *)

(** The send time and backoff of the fragment at one end of the queue in flight. *)
Definition queued (m : OutgoingMessage.t) (entry : option (Z * Instant)) :
    option (option (FragmentState * Instant)) :=
  match entry with
  | Some (i, at_) => state ← idx (OutgoingMessage.fragment_states m) i; Some (Some (state, at_))
  | None => Some None
  end.
Definition in_flight_front (m : OutgoingMessage.t) := queued m (List.hd_error (OutgoingMessage.in_flight_queue m)).
Definition in_flight_back (m : OutgoingMessage.t) := queued m (last (OutgoingMessage.in_flight_queue m)).

Definition has_new (m : OutgoingMessage.t) : bool := OutgoingMessage.next_fragment m <? OutgoingMessage.num_fragments m.
Definition has_retransmit (m : OutgoingMessage.t) : bool :=
  match OutgoingMessage.retransmit_queue m with [] => false | _ => true end.

(** The first loop of [next_check_time]; [inl] is its early return. *)
Fixpoint check_acks (s : t) (l : list (Z * Instant)) (min_time : Instant) : Instant + Instant :=
  match l with
  | [] => inr min_time
  | (count, first_pending_at) :: l =>
      if count <? 2 then check_acks s l (Z.min min_time (first_pending_at + DELAYED_ACK_TIMEOUT))
      else inl (last_activity s)
  end.

Fixpoint check_messages (s : t) (l : list OutgoingMessage.t) (min_time : Instant) : option Instant :=
  match l with
  | [] => Some min_time
  | m :: l =>
      front ← in_flight_front m;
      min_time ← (match front with
                  | Some (state, at_) =>
                      rto ← RttEstimator.rto_with_backoff (rtt s) (rto_backoff state);
                      Some (Z.min min_time (at_ + rto))
                  | None => Some min_time
                  end);
      let min_time := if has_retransmit m || has_new m then Z.min min_time (next_pacing_time s) else min_time in
      check_messages s l min_time
  end.

Definition next_check_time (s : t) : option Instant :=
  let min_time := Z.min (next_pacing_time s) (last_ping s + PING_INTERVAL_ACTIVE) in
  min_time ← (if peer_rwnd s <? ESTIMATED_PAYLOAD_SIZE then
                d ← RttEstimator.rto_with_backoff (rtt s) (zero_window_probes_sent s);
                Some (Z.min min_time (last_rwnd_probe s + d))
              else Some min_time);
  match check_acks s (FlatMap.values (pending_acks s)) min_time with
  | inl early => Some early
  | inr min_time => check_messages s (FlatMap.values (outgoing s)) min_time
  end.

(** [state.last_sent.is_none_or(|s| s <= last_sent)] *)
Definition latest (state : FragmentState) (at_ : Instant) : bool :=
  match last_sent state with Some x => x <=? at_ | None => true end.

(** [rto_est * (1 << 6.min(retries))] *)
Definition rto_shifted (rto_est : Duration) (retries : Z) : option Duration :=
  chk_duration (rto_est * Z.shiftl 1 (Z.min 6 retries)).

Definition tlp_threshold (s : t) : option Duration :=
  d ← mul_f32 (RttEstimator.srtt (rtt s)) (F32.lit 3 2); Some (Z.max d (from_millis 10)).

(** Whether there is something to send at once. *)
Fixpoint any_new_fits (s : t) (l : list OutgoingMessage.t) : option bool :=
  match l with
  | [] => Some false
  | m :: l =>
      if has_new m then
        n ← OutgoingMessage.fragment_len m (OutgoingMessage.next_fragment m);
        sum ← chk_usize (in_flight s + n);
        if sum <=? peer_rwnd s then Some true else any_new_fits s l
      else any_new_fits s l
  end.

Fixpoint wake_rto (s : t) (l : list OutgoingMessage.t) (next : Instant) : option Instant :=
  match l with
  | [] => Some next
  | m :: l =>
      front ← in_flight_front m;
      next ← (match front with
              | Some (state, at_) =>
                  if latest state at_
                  then d ← rto_shifted (RttEstimator.rto (rtt s)) (rto_backoff state); Some (Z.min next (at_ + d))
                  else Some next
              | None => Some next
              end);
      wake_rto s l next
  end.

Fixpoint wake_tlp (threshold : Duration) (l : list OutgoingMessage.t) (next : Instant) : option Instant :=
  match l with
  | [] => Some next
  | m :: l =>
      back ← in_flight_back m;
      wake_tlp threshold l
        (match back with
         | Some (state, at_) => if latest state at_ then Z.min next (at_ + threshold) else next
         | None => next
         end)
  end.

(** The loops over pending acknowledgements; [inl] is the early return of [now]. *)
Fixpoint wake_acks (l : list (Z * (Z * Instant))) (now next : Instant) : Instant + Instant :=
  match l with
  | [] => inr next
  | (_, (count, pending_at)) :: l =>
      let timeout := pending_at + DELAYED_ACK_TIMEOUT in
      if (2 <=? count) || (timeout <=? now) then inl now else wake_acks l now (Z.min next timeout)
  end.

Definition nack_delay (s : t) : Duration := Z.max (RttEstimator.srtt (rtt s) / 4) (from_millis 10).

Fixpoint wake_nacks (delay : Duration) (l : list (Z * Instant)) (now next : Instant) : Instant + Instant :=
  match l with
  | [] => inr next
  | (_, pending_at) :: l =>
      let timeout := pending_at + delay in
      if timeout <=? now then inl now else wake_nacks delay l now (Z.min next timeout)
  end.

Definition is_active (s : t) : bool := negb (FlatMap.is_empty (outgoing s)) || negb (FlatMap.is_empty (incoming s)).
Definition ping_interval (s : t) : Duration := if is_active s then PING_INTERVAL_ACTIVE else PING_INTERVAL_IDLE.

(** The first part of [next_wakeup]: [inl] is the early return. *)
Definition wake_send (s : t) (now next : Instant) : option (Instant + Instant) :=
  if now <? next_pacing_time s then Some (inr (Z.min next (next_pacing_time s)))
  else
    match datagram_queue s with
    | _ :: _ => Some (inl now)
    | [] =>
        limit ← chk_usize (cwnd (congestion_control s) * ESTIMATED_PAYLOAD_SIZE);
        if in_flight s <? limit then
          if List.existsb has_retransmit (FlatMap.values (outgoing s)) then Some (inl now)
          else
            fits ← any_new_fits s (FlatMap.values (outgoing s));
            Some (if (fits : bool) then inl now else inr next)
        else Some (inr next)
    end.

Definition next_wakeup (s : t) (now : Instant) : option Instant :=
  let next := now + from_secs 3600 in
  first ← wake_send s now next;
  match first with
  | inl early => Some early
  | inr next =>
      next ← wake_rto s (FlatMap.values (outgoing s)) next;
      next ← (if 0 <? in_flight s
              then th ← tlp_threshold s; wake_tlp th (FlatMap.values (outgoing s)) next
              else Some next);
      next ← (if (peer_rwnd s <? ESTIMATED_PAYLOAD_SIZE) && negb (FlatMap.is_empty (outgoing s))
              then d ← RttEstimator.rto_with_backoff (rtt s) (zero_window_probes_sent s);
                   Some (Z.min next (Z.max (last_rwnd_probe s + d) (next_pacing_time s)))
              else Some next);
      match wake_acks (pending_acks s) now next with
      | inl early => Some early
      | inr next =>
          match wake_nacks (nack_delay s) (pending_nacks s) now next with
          | inl early => Some early
          | inr next =>
              let next := Z.min next (last_ping s + ping_interval s) in
              let next := Z.min next (last_activity s + CONNECTION_TIMEOUT) in
              Some (Z.max next now)
          end
      end
  end.

(** *** Producing packets

    The closure [sender] answers whether the transport accepted a packet; its
    captured state is [W]. *)
Section Flush.
Context {W : Type} (sender : W -> Packet -> W * bool).

(** The pause after sending [n] bytes. *)
Definition pacing_gap (rate : f32) (n : Z) : option Duration :=
  let gap_secs := if F32.gt rate (F32.of_Z 0) && F32.is_finite rate
                  then F32.min (F32.div (F32.of_Z n) rate) f_one else F32.of_Z 0 in
  from_secs_f32 gap_secs.

Definition pace (s : t) (rate : f32) (n : Z) (now : Instant) : option t :=
  gap ← pacing_gap rate n;
  Some (s <| next_pacing_time := Z.max (next_pacing_time s) now + gap |>).

(** The mutations of [try_send_fragment] once the packet was accepted. *)
Definition fragment_sent (s : t) (id i fragment_len : Z) (now : Instant) : option t :=
  let rate := pacing_rate (congestion_control s) in
  let w := cwnd (congestion_control s) in
  sum ← chk_usize (in_flight s + fragment_len);
  limit ← chk_usize (w * ESTIMATED_PAYLOAD_SIZE);
  let s := if limit <=? sum then s <| app_limited := false |> else s in
  s ← (match FlatMap.get (outgoing s) id with
       | Some msg =>
           '(msg, (_, was_in_flight)) ←
             OutgoingMessage.mark_fragment_sent msg i now (delivered_bytes s) (last_delivery_time s)
               (app_limited s) fragment_len;
           let s := s <| outgoing := FlatMap.write (outgoing s) id msg |> in
           if (was_in_flight : bool) then
             n ← chk_u64 (retransmit_count s + 1);
             Some (s <| in_flight := sat_sub (in_flight s) fragment_len |> <| retransmit_count := n |>)
           else Some s
       | None => Some s
       end);
  let s := s <| congestion_control := on_fragment_sent (congestion_control s) fragment_len now |> in
  flight ← chk_usize (in_flight s + fragment_len);
  let s := s <| in_flight := flight |> <| last_activity := now |> in
  pace s rate fragment_len now.

Definition try_send_fragment (s : t) (w : W) (id i : Z) (now : Instant) : option (t * W * bool) :=
  match FlatMap.get (outgoing s) id with
  | None => Some (s, w, false)
  | Some msg =>
      fragment ← OutgoingMessage.get_fragment msg i;
      fragment_len ← OutgoingMessage.fragment_len msg i;
      let packet := Data id i (OutgoingMessage.num_fragments msg) fragment in
      let '(w, accepted) := sender w packet in
      if negb accepted then Some (s, w, false)
      else s ← fragment_sent s id i fragment_len now; Some (s, w, true)
  end.

Definition update_outgoing (s : t) (id : Z) (f : OutgoingMessage.t -> OutgoingMessage.t) : t :=
  s <| outgoing := FlatMap.get_mut (outgoing s) id f |>.

(** Dequeuing a retransmitted fragment. *)
Definition pop_retransmit (m : OutgoingMessage.t) : OutgoingMessage.t :=
  match OutgoingMessage.retransmit_queue m with
  | i :: l => m <| OutgoingMessage.retransmit_queue := l |>
                <| OutgoingMessage.retransmit_bitset := (BitSet.unset (OutgoingMessage.retransmit_bitset m) i).1 |>
  | [] => m
  end.

Definition advance_next (m : OutgoingMessage.t) : OutgoingMessage.t :=
  m <| OutgoingMessage.next_fragment := OutgoingMessage.next_fragment m + 1 |>.

(** The mutations after a fragment timed out and was sent again. *)
Definition after_timeout (m : OutgoingMessage.t) (i : Z) : option OutgoingMessage.t :=
  state ← idx (OutgoingMessage.fragment_states m) i;
  n ← chk_u32 (rto_backoff state + 1);
  states ← upd (OutgoingMessage.fragment_states m) i (state <| rto_backoff := n |>);
  Some (m <| OutgoingMessage.fragment_states := states |>
          <| OutgoingMessage.in_flight_queue := List.tl (OutgoingMessage.in_flight_queue m) |>).

(** Sending new data of a message. *)
Definition send_new (s : t) (w : W) (id : Z) (m : OutgoingMessage.t) (now : Instant) : option (t * W * bool) :=
  if has_new m then
    '(s, w, ok) ← try_send_fragment s w id (OutgoingMessage.next_fragment m) now;
    Some (if (ok : bool) then update_outgoing s id advance_next else s, w, ok)
  else Some (s, w, false).

Definition send_next_fragment_for_message (s : t) (w : W) (id : Z) (now : Instant) : option (t * W * bool) :=
  match FlatMap.get (outgoing s) id with
  | None => Some (s, w, false)
  | Some m =>
      match OutgoingMessage.retransmit_queue m with
      | i :: _ =>
          '(s, w, ok) ← try_send_fragment s w id i now;
          Some (if (ok : bool) then update_outgoing s id pop_retransmit else s, w, ok)
      | [] =>
          match OutgoingMessage.in_flight_queue m with
          | (i, at_) :: _ =>
              state ← idx (OutgoingMessage.fragment_states m) i;
              current_rto ← RttEstimator.rto_with_backoff (rtt s) (rto_backoff state);
              if current_rto <=? since now at_ then
                '(s, w, ok) ← try_send_fragment s w id i now;
                if (ok : bool) then
                  match FlatMap.get (outgoing s) id with
                  | Some m =>
                      m ← after_timeout m i;
                      cc ← on_timeout (congestion_control s) now;
                      Some (s <| outgoing := FlatMap.write (outgoing s) id m |> <| congestion_control := cc |>, w, true)
                  | None => Some (s, w, true)
                  end
                else Some (s, w, false)
              else send_new s w id m now
          | [] => send_new s w id m now
          end
      end
  end.

(** The readiness test handed to the scheduler. *)
Definition is_ready (s : t) (any_data_sent : bool) (now : Instant) (id : Z) : option (option Z) :=
  match FlatMap.get (outgoing s) id with
  | None => Some None
  | Some m =>
      if now <? next_pacing_time s then Some None
      else
        let under := in_flight s / ESTIMATED_PAYLOAD_SIZE <? cwnd (congestion_control s) in
        let fits n := sum ← chk_usize (in_flight s + n); Some (sum <=? peer_rwnd s) in
        (* A. retransmissions *)
        a ← (match OutgoingMessage.retransmit_queue m with
             | i :: _ =>
                 if OutgoingMessage.is_acked m i then Some None
                 else
                   n ← OutgoingMessage.fragment_len m i;
                   if i =? OutgoingMessage.highest_cumulative_ack m
                   then Some (if under || negb any_data_sent then Some n else None)
                   else if under then f ← fits n; Some (if (f : bool) then Some n else None)
                   else Some None
             | [] => Some None
             end);
        match a with
        | Some n => Some (Some n)
        | None =>
            (* B. timeouts *)
            b ← (match OutgoingMessage.in_flight_queue m with
                 | (i, at_) :: _ =>
                     state ← idx (OutgoingMessage.fragment_states m) i;
                     current_rto ← rto_shifted (RttEstimator.rto (rtt s)) (rto_backoff state);
                     if (current_rto <=? since now at_) && negb (OutgoingMessage.is_acked m i) && latest state at_ then
                       n ← OutgoingMessage.fragment_len m i;
                       ok ← (if under then f ← fits n; Some ((f : bool) || negb any_data_sent)
                             else Some (negb any_data_sent));
                       Some (if (ok : bool) then Some n else None)
                     else Some None
                 | [] => Some None
                 end);
            match b with
            | Some n => Some (Some n)
            | None =>
                (* C. new data *)
                if has_new m then
                  let i := OutgoingMessage.next_fragment m in
                  state ← idx (OutgoingMessage.fragment_states m) i;
                  if negb (OutgoingMessage.is_acked m i) && negb (bool_decide (is_Some (last_sent state))) &&
                     negb (bool_decide (is_Some (delivery_info state)))
                  then
                    n ← OutgoingMessage.fragment_len m i;
                    if under then f ← fits n; Some (if (f : bool) then Some n else None) else Some None
                  else Some None
                else Some None
            end
        end
  end.

(** The main data loop.  A round that sends dequeues a retransmission, takes an
    expired entry off a queue in flight or advances to a new fragment, so the
    number of those bounds the rounds ([send_rounds]). *)
Fixpoint send_loop (fuel : nat) (s : t) (w : W) (any_data_sent : bool) (now : Instant) : option (t * W * bool) :=
  match fuel with
  | O => None
  | S fuel =>
      '(sch, next_id) ← PriorityScheduler.next_message (is_ready s any_data_sent now) (scheduler s);
      let s := s <| scheduler := sch |> in
      match next_id with
      | Some id =>
          '(s, w, ok) ← send_next_fragment_for_message s w id now;
          if (ok : bool) then send_loop fuel s w true now else Some (s, w, any_data_sent)
      | None => Some (s, w, any_data_sent)
      end
  end.

Definition send_rounds (s : t) : Z :=
  zsum (fun m => len (OutgoingMessage.retransmit_queue m) + len (OutgoingMessage.in_flight_queue m) +
                 (OutgoingMessage.num_fragments m - OutgoingMessage.next_fragment m)) (FlatMap.values (outgoing s)).

(** The datagram loop: each round takes one datagram off the queue. *)
Fixpoint send_datagrams (fuel : nat) (s : t) (w : W) (now : Instant) : option (t * W) :=
  match fuel, datagram_queue s with
  | S fuel, dg :: rest =>
      if now <? next_pacing_time s then Some (s, w)
      else
        dg_len ← (match dg with Datagram _ data => chk_usize (len data + 10) | _ => Some 0 end);
        let s := s <| datagram_queue := rest |> in
        let '(w, accepted) := sender w dg in
        if negb accepted then Some (s, w)
        else
          let s := s <| last_activity := now |> in
          s ← pace s (pacing_rate (congestion_control s)) dg_len now;
          send_datagrams fuel s w now
  | _, _ => Some (s, w)
  end.

Definition send_ping (s : t) (w : W) (now : Instant) (now_ms : Z) : t * W :=
  if ping_interval s <=? since now (last_ping s) then
    let '(w, accepted) := sender w (Ping now_ms) in
    (if (accepted : bool)
     then s <| last_ping := now |> <| last_ping_sent := Some now |> <| last_activity := now |> else s, w)
  else (s, w).

(** The fragment a zero-window probe sends: of the first message that has one,
    and whether it is new. *)
Fixpoint probe_target (l : list (Z * OutgoingMessage.t)) : option (Z * Z * bool) :=
  match l with
  | [] => None
  | (id, m) :: l =>
      match OutgoingMessage.retransmit_queue m with
      | i :: _ => Some (id, i, false)
      | [] =>
          if has_new m then Some (id, OutgoingMessage.next_fragment m, true)
          else match OutgoingMessage.in_flight_queue m with
               | (i, _) :: _ => Some (id, i, false)
               | [] => probe_target l
               end
      end
  end.

Definition send_probe (s : t) (w : W) (now : Instant) : option (t * W) :=
  if (peer_rwnd s <? ESTIMATED_PAYLOAD_SIZE) && negb (FlatMap.is_empty (outgoing s)) then
    probe_delay ← RttEstimator.rto_with_backoff (rtt s) (zero_window_probes_sent s);
    if (next_pacing_time s <=? now) && (probe_delay <=? since now (last_rwnd_probe s)) then
      match probe_target (outgoing s) with
      | Some (id, i, is_new) =>
          '(s, w, ok) ← try_send_fragment s w id i now;
          if (ok : bool) then
            let s := if (is_new : bool) then update_outgoing s id advance_next else s in
            n ← chk_u32 (zero_window_probes_sent s + 1);
            Some (s <| last_rwnd_probe := now |> <| zero_window_probes_sent := n |>, w)
          else Some (s, w)
      | None => Some (s, w)
      end
    else Some (s, w)
  else Some (s, w).

(** The fragment a tail loss probe sends. *)
Fixpoint tlp_target (l : list (Z * OutgoingMessage.t)) (threshold : Duration) (now : Instant) : option (Z * Z) :=
  match l with
  | [] => None
  | (id, m) :: l =>
      match last (OutgoingMessage.in_flight_queue m) with
      | Some (i, at_) => if threshold <=? since now at_ then Some (id, i) else tlp_target l threshold now
      | None => tlp_target l threshold now
      end
  end.

Definition send_tlp (s : t) (w : W) (any_data_sent : bool) (now : Instant) : option (t * W) :=
  if negb any_data_sent && (0 <? in_flight s) then
    threshold ← tlp_threshold s;
    match tlp_target (outgoing s) threshold now with
    | Some (id, i) => '(s, w, _) ← try_send_fragment s w id i now; Some (s, w)
    | None => Some (s, w)
    end
  else Some (s, w).

Definition forget_pending (s : t) (id : Z) : t :=
  s <| pending_acks := (FlatMap.remove (pending_acks s) id).1 |>
    <| pending_nacks := (FlatMap.remove (pending_nacks s) id).1 |>.

Fixpoint send_acks (s : t) (w : W) (rwnd : Z) (ids : list Z) : t * W :=
  match ids with
  | [] => (s, w)
  | id :: ids =>
      let packet :=
        match FlatMap.get (incoming s) id with
        | Some r => Some (AckP (MessageReassembler.create_ack r rwnd))
        | None =>
            match FlatMap.get (completed_incoming s) id with
            | Some (ack, _) => Some (AckP (ack <| ack_rwnd := rwnd |>))
            | None => None
            end
        end in
      match packet with
      | Some p =>
          let '(w, accepted) := sender w p in
          if (accepted : bool) then send_acks (forget_pending s id) w rwnd ids else (s, w)
      | None => send_acks (forget_pending s id) w rwnd ids
      end
  end.

Definition flush_pending_acks (q : quota_t) (s : t) (w : W) (now : Instant) : t * W :=
  let rwnd := current_rwnd q s in
  let due := List.filter (fun '(_, (count, first_pending_at)) =>
               (2 <=? count) || (DELAYED_ACK_TIMEOUT <=? since now first_pending_at)) (pending_acks s) in
  send_acks s w rwnd due.*1.

Definition forget_nack (s : t) (id : Z) : t := s <| pending_nacks := (FlatMap.remove (pending_nacks s) id).1 |>.

Fixpoint send_nacks (s : t) (w : W) (ids : list Z) : option (t * W) :=
  match ids with
  | [] => Some (s, w)
  | id :: ids =>
      nack ← (match FlatMap.get (incoming s) id with
              | Some r => MessageReassembler.create_nack r (FragmentBuffer.base_index (MessageReassembler.buffer r))
              | None => Some None
              end);
      match nack with
      | Some nack =>
          let '(w, accepted) := sender w (NackP nack) in
          if (accepted : bool) then send_nacks (forget_nack s id) w ids else Some (s, w)
      | None => send_nacks (forget_nack s id) w ids
      end
  end.

Definition flush_pending_nacks (s : t) (w : W) (now : Instant) : option (t * W) :=
  let due := List.filter (fun '(_, first_pending_at) => nack_delay s <=? since now first_pending_at) (pending_nacks s) in
  send_nacks s w due.*1.

Definition note_app_limited (s : t) : option t :=
  limit ← chk_usize (cwnd (congestion_control s) * ESTIMATED_PAYLOAD_SIZE);
  Some (if (in_flight s <? limit) &&
           negb (List.existsb (fun m => has_retransmit m || has_new m) (FlatMap.values (outgoing s)))
        then s <| app_limited := true |> else s).

Definition flush_packets (q : quota_t) (s : t) (w : W) (now : Instant) (now_ms : Z) : option (t * W) :=
  let '(s, w) := send_ping s w now now_ms in
  '(s, w) ← send_datagrams (length (datagram_queue s)) s w now;
  '(s, w) ← send_probe s w now;
  '(s, w, any_data_sent) ← send_loop (S (Z.to_nat (send_rounds s))) s w false now;
  '(s, w) ← send_tlp s w any_data_sent now;
  let '(s, w) := flush_pending_acks q s w now in
  '(s, w) ← flush_pending_nacks s w now;
  s ← note_app_limited s;
  Some (s, w).

End Flush.

(** [get_packets_to_send]: a sender that accepts everything. *)
Definition get_packets_to_send (q : quota_t) (s : t) (now : Instant) (now_ms : Z) : option (t * list Packet) :=
  flush_packets (fun packets p => (packets ++ [p], true)) q s [] now now_ms.

(** *** Timeouts and the end *)

(** The closure of the first [retain]: the quota and the buffer size. *)
Definition expire_incoming (now : Instant) (st : quota_t * Z) (_ : Z) (r : MessageReassembler.t) :
    option (quota_t * Z * MessageReassembler.t * bool) :=
  let '(q, size) := st in
  if from_secs REASSEMBLY_TIMEOUT_SECS <=? since now (MessageReassembler.last_activity r) then
    let allocated := MessageReassembler.reserved_bytes r in
    size ← chk_usize (size - allocated);
    Some (ReassemblyQuota.release q allocated, size, r, false)
  else Some (q, size, r, true).

(** The bytes in flight without those of a message. *)
Fixpoint uncount (m : OutgoingMessage.t) (flight i : Z) (states : list FragmentState) : option Z :=
  match states with
  | [] => Some flight
  | state :: states =>
      flight ← (match last_sent state with
                | Some _ => n ← OutgoingMessage.fragment_len m (wrap 16 i); Some (sat_sub flight n)
                | None => Some flight
                end);
      uncount m flight (i + 1) states
  end.

(** The closure of the second [retain]. *)
Definition expire_outgoing (now : Instant) (st : Z * list SessionEvent * PriorityScheduler.t) (id : Z)
    (m : OutgoingMessage.t) : option (Z * list SessionEvent * PriorityScheduler.t * OutgoingMessage.t * bool) :=
  let '(flight, evs, sch) := st in
  let elapsed := since now (OutgoingMessage.last_ack_at m) in
  if (OutgoingMessage.timeout m <=? elapsed) || (CONNECTION_TIMEOUT <=? elapsed) then
    let evs := evs ++ [MessageFailed id "Timed out"] in
    sch ← PriorityScheduler.remove_message sch id;
    flight ← uncount m flight 0 (OutgoingMessage.fragment_states m);
    let m := m <| OutgoingMessage.in_flight_queue := [] |> in
    Some (flight, evs ++ [ReadyToSend], sch, m, false)
  else Some (flight, evs, sch, m, true).

Definition cleanup (q : quota_t) (s : t) (now : Instant) : option (quota_t * t) :=
  '(q, size, m) ← FlatMap.retain (expire_incoming now) (q, incoming_buffer_size s) (incoming s);
  let s := s <| incoming := m |> <| incoming_buffer_size := size |> in
  '(flight, evs, sch, m) ← FlatMap.retain (expire_outgoing now) (in_flight s, events s, scheduler s) (outgoing s);
  let s := s <| outgoing := m |> <| in_flight := flight |> <| events := evs |> <| scheduler := sch |> in
  Some (q, s <| completed_incoming :=
              List.filter (fun '(_, (_, time)) => since now time <? from_secs 30) (completed_incoming s) |>).

Definition is_dead (s : t) (now : Instant) : bool := CONNECTION_TIMEOUT <? since now (last_activity s).

Definition poll_event (s : t) : t * option SessionEvent :=
  match events s with
  | e :: l => (s <| events := l |>, Some e)
  | [] => (s, None)
  end.

(** [Drop]: what the session held goes back to the quota. *)
Definition drop (q : quota_t) (s : t) : quota_t := ReassemblyQuota.release q (incoming_buffer_size s).

Definition retransmit_queue_len (s : t) : Z :=
  zsum (fun m => len (OutgoingMessage.retransmit_queue m)) (FlatMap.values (outgoing s)).

End Session.
Arguments t C Rng : clear implicits.
End SequenceSession.
