(* ===== verification/SessionFrames.v ===== *)
(** What the operations of a session leave alone, and what a flush hands to the
    transport, for every run that returns.

    [kept s0 s] says that the receiving half of [s] is that of [s0] (up to
    acknowledgements that were sent), that every outgoing message of [s] is one of
    [s0] with the same contents, and that no datagram was added.  [emitted s0 p]
    says that packet [p] carries a fragment or datagram that [s0] holds. *)

From S2P Require Import Prelude Bitset FlatMaps Protocol Quota Reassembly Float32 F32Theory Rtt Outgoing Scheduler Congestion Session.
#[local] Open Scope Z_scope.
#[local] Open Scope list_scope.

Module Frames.
Import SequenceSession.

(** Two states of one message: the same data cut the same way. *)
Definition same_cut (m m' : OutgoingMessage.t) : Prop :=
  OutgoingMessage.data m' = OutgoingMessage.data m /\ OutgoingMessage.payload_mtu m' = OutgoingMessage.payload_mtu m /\
  OutgoingMessage.num_fragments m' = OutgoingMessage.num_fragments m.

#[global] Instance same_cut_preorder : PreOrder same_cut.
Proof. split; [by intros m|]. intros m1 m2 m3. unfold same_cut. intuition congruence. Qed.

Lemma same_cut_fragment m m' i : same_cut m m' -> OutgoingMessage.get_fragment m' i = OutgoingMessage.get_fragment m i.
Proof.
  intros (E1 & E2 & E3). unfold OutgoingMessage.get_fragment, OutgoingMessage.fragment_bounds. by rewrite E1, E2, E3.
Qed.

Definition tracks (outs outs' : list (Z * OutgoingMessage.t)) : Prop :=
  forall id m', FlatMap.get outs' id = Some m' -> exists m, FlatMap.get outs id = Some m /\ same_cut m m'.

#[global] Instance tracks_preorder : PreOrder tracks.
Proof.
  split; [by intros o id m; exists m|]. intros o1 o2 o3 H12 H23 id m3 H3.
  destruct (H23 id m3 H3) as (m2 & H2 & C2). destruct (H12 id m2 H2) as (m1 & H1 & C1). exists m1. split; [done|by etrans].
Qed.

Lemma tracks_write outs id m m' : FlatMap.get outs id = Some m -> same_cut m m' -> tracks outs (FlatMap.write outs id m').
Proof.
  intros Hg Hc j x Hx. rewrite FlatMap.get_write in Hx. case_decide as Hj; [|by exists x].
  subst j. exists m. split; [done|]. rewrite Hg in Hx. by simplify_eq/=.
Qed.

(** Acknowledgements of either kind change a message's bookkeeping only. *)
Lemma marked_msg c i : OutgoingMessage.msg (OutgoingMessage.mark_for_removal c i) = OutgoingMessage.msg c.
Proof. unfold OutgoingMessage.mark_for_removal. by destruct (_ <? _). Qed.

Lemma single_ack_cut c i now total c' fresh :
  OutgoingMessage.process_single_ack c i now total = Some (c', fresh) -> same_cut (OutgoingMessage.msg c) (OutgoingMessage.msg c').
Proof.
  unfold OutgoingMessage.process_single_ack. destruct (_ <=? i); [intros E; by simplify_eq|].
  destruct (BitSet.set _ _) as [b fr]. destruct fr; [|intros E; by simplify_eq]. intros E. inv_bind E. inv_bind E. inv_bind E.
  destruct (delivery_info v0) as [info|]; [|by simplify_eq]. inv_bind E. inv_bind E. injection E as <- <-.
  destruct (bool_decide _); cbn; [rewrite marked_msg|]; done.
Qed.

Lemma acks_cut c ids now total any c' any' :
  OutgoingMessage.process_acks c ids now total any = Some (c', any') -> same_cut (OutgoingMessage.msg c) (OutgoingMessage.msg c').
Proof.
  revert c any. induction ids as [|i ids IH]; intros c any E; cbn in E; [by simplify_eq|]. inv_bind E. destruct v as [c1 fresh].
  etrans; [by eapply single_ack_cut|by eapply IH].
Qed.

Lemma loss_cut c i c' : OutgoingMessage.trigger_loss c i = Some c' -> same_cut (OutgoingMessage.msg c) (OutgoingMessage.msg c').
Proof.
  unfold OutgoingMessage.trigger_loss. intros E. inv_bind E. inv_bind E. injection E as <-.
  destruct (last_sent v); cbn; [rewrite marked_msg|]; done.
Qed.

Lemma fast_cut c base c' : OutgoingMessage.handle_fast_retransmit c base = Some c' -> same_cut (OutgoingMessage.msg c) (OutgoingMessage.msg c').
Proof.
  unfold OutgoingMessage.handle_fast_retransmit. destruct (_ && _); [|intros E; by simplify_eq]. intros E. inv_bind E.
  destruct (_ && _ && _); [|by simplify_eq]. inv_bind E. destruct (match last_sent v0 with Some _ => _ | None => _ end); [|by simplify_eq].
  by apply loss_cut in E.
Qed.

Lemma holes_cut c ids ls n k c' : OutgoingMessage.holes_loop c ids ls n k = Some c' -> same_cut (OutgoingMessage.msg c) (OutgoingMessage.msg c').
Proof.
  revert c k. induction ids as [|i ids IH]; intros c k E; cbn in E; [by simplify_eq|].
  destruct (BitSet.get _ i); [inv_bind E; by eapply IH|]. destruct (negb _); [|by eapply IH]. inv_bind E.
  destruct (3 <=? v); [|by eapply IH]. inv_bind E. inv_bind E. etrans; [|by eapply IH].
  destruct (match last_sent v0 with Some _ => _ | None => _ end); [by eapply loss_cut|by simplify_eq].
Qed.

Lemma on_ack_cut m base mask now total m' r : OutgoingMessage.on_ack m base mask now total = Some (m', r) -> same_cut m m'.
Proof.
  unfold OutgoingMessage.on_ack, OutgoingMessage.collect_acked_indices. intros E. inv_bind E. destruct v as [c1 any].
  apply acks_cut in E0. inv_bind E. inv_bind E. transitivity (OutgoingMessage.msg c1); [exact E0|]. transitivity (OutgoingMessage.msg v).
  { destruct (_ <? base); [by simplify_eq|]. destruct any; [|by simplify_eq]. inv_bind E1. injection E1 as <-. by apply fast_cut in E3. }
  apply holes_cut in E2. transitivity (OutgoingMessage.msg v0); [exact E2|].
  set (c2 := if any then _ else v0) in E. assert (same_cut (OutgoingMessage.msg v0) (OutgoingMessage.msg c2)) as H2 by (unfold c2; by destruct any).
  clearbody c2. etrans; [exact H2|]. destruct (OutgoingMessage.needs_cleanup c2); [|by simplify_eq].
  inv_bind E. destruct v1 as [m1 removed]. unfold OutgoingMessage.cleanup_in_flight_queue in E3. inv_bind E3. destruct v1. by simplify_eq.
Qed.

Lemma nack_cut m fl rm cl tr ids m' fl' rm' cl' tr' :
  nack_indices m fl rm cl tr ids = Some (m', fl', rm', cl', tr') -> same_cut m m'.
Proof.
  revert m fl rm cl tr. induction ids as [|i ids IH]; intros m fl rm cl tr E; cbn in E; [by simplify_eq|].
  destruct (OutgoingMessage.is_acked m i); [by eapply IH|]. inv_bind E. inv_bind E. inv_bind E. destruct v1 as [[fl1 rm1] cl1].
  apply IH in E. etrans; [|exact E]. destruct (BitSet.get _ i); done.
Qed.

Lemma tracks_remove outs id : NoDup (FlatMap.keys outs) -> tracks outs (FlatMap.remove outs id).1.
Proof. intros Hnd j m Hm. rewrite FlatMap.get_remove in Hm by done. case_decide; [done|]. by exists m. Qed.

Section Kept.
Context {C : Type} `{CongestionControl C} {Rng : Type} `{RandSource Rng} `{EnvelopeCodec}.

Abbreviation session := (SequenceSession.t C Rng).
Implicit Types s : session.

Record kept s s' : Prop := {
  k_incoming : incoming s' = incoming s;
  k_size : incoming_buffer_size s' = incoming_buffer_size s;
  k_limit : max_per_session s' = max_per_session s;
  k_completed : completed_incoming s' = completed_incoming s;
  k_highest : highest_received_id s' = highest_received_id s;
  k_events : events s' = events s;
  k_next : next_message_id s' = next_message_id s;
  k_pending x : x ∈ FlatMap.values (pending_acks s') -> x ∈ FlatMap.values (pending_acks s);
  k_outgoing : tracks (outgoing s) (outgoing s');
  k_nodup : NoDup (FlatMap.keys (outgoing s)) -> NoDup (FlatMap.keys (outgoing s'));
  k_datagrams p : p ∈ datagram_queue s' -> p ∈ datagram_queue s
}.

#[global] Instance kept_preorder : PreOrder kept.
Proof.
  split; [intros s; by constructor|]. intros s1 s2 s3 [] []. constructor; try congruence; [auto|by etrans|auto|auto].
Qed.

Definition emitted s (p : Packet) : Prop :=
  p ∈ datagram_queue s \/
  match p with
  | Data id i total d => exists m, FlatMap.get (outgoing s) id = Some m /\ OutgoingMessage.num_fragments m = total /\
                                   OutgoingMessage.get_fragment m i = Some d
  | Datagram _ _ => False
  | _ => True
  end.

Lemma emitted_kept s s' p : kept s s' -> emitted s' p -> emitted s p.
Proof.
  intros Hk [Hq|He]; [left; by apply Hk|right]. destruct p as [id i total d| | | | |mt d]; try done.
  destruct He as (m' & Hm & Ht & Hf). destruct (k_outgoing _ _ Hk id m' Hm) as (m & Hg & Hc). exists m.
  split; [done|]. rewrite (same_cut_fragment _ _ i Hc) in Hf. split; [|done]. rewrite <- Ht. symmetry. apply Hc.
Qed.

(** *** Flushing *)

Section Flush.
Context {W : Type} (sender : W -> Packet -> W * bool) (s0 : session) (I : W -> Prop)
  (HI : forall w p, I w -> emitted s0 p -> I (sender w p).1).

(** The state and the transport during a flush that started in [s0]. *)
Definition ongoing s (w : W) : Prop := kept s0 s /\ I w.

Lemma ongoing_step s s' w : ongoing s w -> kept s s' -> ongoing s' w.
Proof. intros [Hk HIw] Hk'. split; [by etrans|done]. Qed.

Lemma ongoing_send s w p w' ok : ongoing s w -> emitted s p -> sender w p = (w', ok) -> ongoing s w'.
Proof using HI.
  intros [Hk HIw] He Es. split; [done|]. pose proof (HI w p HIw (emitted_kept _ _ _ Hk He)) as H2. by rewrite Es in H2.
Qed.

Lemma kept_write s id m m' :
  FlatMap.get (outgoing s) id = Some m -> same_cut m m' -> kept s (s <| outgoing := FlatMap.write (outgoing s) id m' |>).
Proof.
  intros Hg Hc. constructor; try done; [by eapply tracks_write|].
  change (outgoing _) with (FlatMap.write (outgoing s) id m') at 2. by rewrite FlatMap.keys_write.
Qed.

Lemma kept_update s id f : (forall m, same_cut m (f m)) -> kept s (update_outgoing s id f).
Proof.
  intros Hf. unfold update_outgoing, FlatMap.get_mut. destruct (FlatMap.get (outgoing s) id) as [m|] eqn:E; [by apply (kept_write s id m)|].
  by constructor.
Qed.

Lemma marked_cut m i now d l a n m' r : OutgoingMessage.mark_fragment_sent m i now d l a n = Some (m', r) -> same_cut m m'.
Proof. unfold OutgoingMessage.mark_fragment_sent. intros E. inv_bind E. inv_bind E. inv_bind E. by simplify_eq. Qed.

Lemma fragment_sent_kept s id i n now s' : fragment_sent s id i n now = Some s' -> kept s s'.
Proof.
  unfold fragment_sent, pace. intros E. inv_bind E. inv_bind E. inv_bind E. inv_bind E. inv_bind E. injection E as <-.
  transitivity v1; [|by constructor].
  set (s1 := if v0 <=? v then s <| app_limited := false |> else s) in E2.
  assert (kept s s1) as H1' by (unfold s1; by destruct (v0 <=? v)). etrans; [exact H1'|]. clearbody s1.
  destruct (FlatMap.get (outgoing s1) id) as [m|] eqn:Eg; [|by simplify_eq].
  inv_bind E2. match goal with E' : OutgoingMessage.mark_fragment_sent _ _ _ _ _ _ _ = Some ?v |- _ =>
    destruct v as [m' [r was]]; pose proof (kept_write s1 id m m' Eg (marked_cut _ _ _ _ _ _ _ _ _ E')) as Hw end.
  destruct was; [inv_bind E2|]; injection E2 as <-; [|done]. etrans; [exact Hw|]. by constructor.
Qed.

Lemma try_send_ongoing s w id i now s' w' ok :
  ongoing s w -> try_send_fragment sender s w id i now = Some (s', w', ok) -> ongoing s' w'.
Proof using HI.
  intros Ho. unfold try_send_fragment. destruct (FlatMap.get (outgoing s) id) as [m|] eqn:Eg; [|intros E; by simplify_eq].
  intros E. inv_bind E. inv_bind E. destruct (sender w _) as [w1 acc] eqn:Es.
  assert (ongoing s w1) as H1' by (eapply ongoing_send; [exact Ho| |exact Es]; right; by exists m).
  destruct acc; cbn [negb] in E; [inv_bind E|]; simplify_eq; [|done]. eapply ongoing_step; [done|by eapply fragment_sent_kept].
Qed.

Lemma send_new_ongoing s w id m now s' w' ok :
  ongoing s w -> send_new sender s w id m now = Some (s', w', ok) -> ongoing s' w'.
Proof using HI.
  intros Ho. unfold send_new. destruct (has_new m); [|intros E; by simplify_eq]. intros E. inv_bind E. destruct v as [[s1 w1] ok1].
  injection E as <- <- <-. apply try_send_ongoing in E0; [|done]. destruct ok1; [|done]. eapply ongoing_step; [done|]. by apply kept_update.
Qed.

Lemma pop_cut m : same_cut m (pop_retransmit m).
Proof. unfold pop_retransmit. by destruct (OutgoingMessage.retransmit_queue m). Qed.

Lemma timeout_cut m i m' : after_timeout m i = Some m' -> same_cut m m'.
Proof. unfold after_timeout. intros E. inv_bind E. inv_bind E. inv_bind E. by simplify_eq. Qed.

Lemma send_next_ongoing s w id now s' w' ok :
  ongoing s w -> send_next_fragment_for_message sender s w id now = Some (s', w', ok) -> ongoing s' w'.
Proof using HI.
  intros Ho. unfold send_next_fragment_for_message. destruct (FlatMap.get (outgoing s) id) as [m|]; [|intros E; by simplify_eq].
  destruct (OutgoingMessage.retransmit_queue m) as [|i l].
  2: { intros E. inv_bind E. destruct v as [[s1 w1] ok1]. injection E as <- <- <-. apply try_send_ongoing in E0; [|done].
       destruct ok1; [|done]. eapply ongoing_step; [done|]. apply kept_update, pop_cut. }
  destruct (OutgoingMessage.in_flight_queue m) as [|[i at_] l]; [by apply send_new_ongoing|].
  intros E. inv_bind E. inv_bind E. destruct (_ <=? _); [|by eapply send_new_ongoing].
  inv_bind E. destruct v1 as [[s1 w1] ok1]. apply try_send_ongoing in E2; [|done]. destruct ok1; [|by simplify_eq].
  destruct (FlatMap.get (outgoing s1) id) as [m1|] eqn:Eg; [|by simplify_eq]. inv_bind E. inv_bind E. injection E as <- <- <-.
  eapply ongoing_step; [done|]. etrans; [by eapply kept_write, timeout_cut|]. by constructor.
Qed.

Lemma send_loop_ongoing fuel s w any now s' w' any' :
  ongoing s w -> send_loop sender fuel s w any now = Some (s', w', any') -> ongoing s' w'.
Proof using HI.
  revert s w any. induction fuel as [|fuel IH]; intros s w any Ho E; cbn [send_loop] in E; [done|].
  inv_bind E. destruct v as [sch next]. assert (ongoing (s <| scheduler := sch |>) w) as Ho' by (eapply ongoing_step; [done|by constructor]).
  destruct next as [id|]; [|by simplify_eq]. inv_bind E. destruct v as [[s1 w1] ok1]. apply send_next_ongoing in E1; [|done].
  destruct ok1; [exact (IH _ _ _ E1 E)|by simplify_eq].
Qed.

Lemma send_datagrams_ongoing fuel s w now s' w' :
  ongoing s w -> send_datagrams sender fuel s w now = Some (s', w') -> ongoing s' w'.
Proof using HI.
  revert s w. induction fuel as [|fuel IH]; intros s w Ho E; cbn [send_datagrams] in E; [by simplify_eq|].
  destruct (datagram_queue s) as [|dg rest] eqn:Eq; [by simplify_eq|]. destruct (now <? _); [by simplify_eq|].
  inv_bind E. assert (forall w1 acc, sender w dg = (w1, acc) -> ongoing (s <| datagram_queue := rest |>) w1) as Hs1.
  { intros w1 acc Es. apply (ongoing_step s); [|constructor; try done; intros p Hp; rewrite Eq; by right].
    eapply ongoing_send; [exact Ho|left; rewrite Eq; left|exact Es]. }
  destruct (sender w dg) as [w1 acc] eqn:Es. specialize (Hs1 w1 acc eq_refl). destruct acc; cbn [negb] in E; [|by simplify_eq].
  inv_bind E. unfold pace in E1. inv_bind E1. injection E1 as <-. eapply IH; [|exact E].
  eapply ongoing_step; [exact Hs1|]. by constructor.
Qed.

Lemma send_ping_ongoing s w now now_ms s' w' : ongoing s w -> send_ping sender s w now now_ms = (s', w') -> ongoing s' w'.
Proof using HI.
  intros Ho. unfold send_ping. destruct (_ <=? _); [|intros E; by simplify_eq]. destruct (sender w _) as [w1 acc] eqn:Es.
  assert (ongoing s w1) as Ho1 by (eapply ongoing_send; [exact Ho| |exact Es]; by right).
  intros E. destruct acc; simplify_eq; [|done]. eapply ongoing_step; [done|by constructor].
Qed.

Lemma send_probe_ongoing s w now s' w' : ongoing s w -> send_probe sender s w now = Some (s', w') -> ongoing s' w'.
Proof using HI.
  intros Ho. unfold send_probe. destruct (_ && _); [|intros E; by simplify_eq]. intros E. inv_bind E.
  destruct (_ && _); [|by simplify_eq]. destruct (probe_target (outgoing s)) as [[[id i] is_new]|]; [|by simplify_eq].
  inv_bind E. destruct v0 as [[s1 w1] ok]. apply try_send_ongoing in E1; [|done]. destruct ok; [|by simplify_eq]. inv_bind E. simplify_eq.
  eapply ongoing_step; [exact E1|]. destruct is_new; [|by constructor]. etrans; [by apply (kept_update s1 id advance_next)|]. by constructor.
Qed.

Lemma send_tlp_ongoing s w any now s' w' : ongoing s w -> send_tlp sender s w any now = Some (s', w') -> ongoing s' w'.
Proof using HI.
  intros Ho. unfold send_tlp. destruct (_ && _); [|intros E; by simplify_eq]. intros E. inv_bind E.
  destruct (tlp_target (outgoing s) v now) as [[id i]|]; [|by simplify_eq]. inv_bind E. destruct v0 as [[s1 w1] ok].
  apply try_send_ongoing in E1; [|done]. by simplify_eq.
Qed.

Lemma forget_kept s id : kept s (forget_pending s id).
Proof. constructor; try done. cbn. intros x. apply FlatMap.values_remove_elem. Qed.

Lemma send_acks_ongoing s w rwnd ids s' w' : ongoing s w -> send_acks sender s w rwnd ids = (s', w') -> ongoing s' w'.
Proof using HI.
  revert s w. induction ids as [|id ids IH]; intros s w Ho E; cbn [send_acks] in E; [by simplify_eq|].
  set (packet := match FlatMap.get (incoming s) id with Some _ => _ | None => _ end) in E.
  assert (forall p, packet = Some p -> emitted s p) as Hp.
  { intros p. unfold packet. repeat case_match; intros ?; simplify_eq; by right. }
  clearbody packet. destruct packet as [p|]; [|eapply IH; [|exact E]; eapply ongoing_step; [done|apply forget_kept]].
  destruct (sender w p) as [w1 acc] eqn:Es. assert (ongoing s w1) as Ho1 by (eapply ongoing_send; [exact Ho|by apply Hp|exact Es]).
  destruct acc; [|by simplify_eq]. eapply IH; [|exact E]. eapply ongoing_step; [done|apply forget_kept].
Qed.

Lemma send_nacks_ongoing s w ids s' w' : ongoing s w -> send_nacks sender s w ids = Some (s', w') -> ongoing s' w'.
Proof using HI.
  revert s w. induction ids as [|id ids IH]; intros s w Ho E; cbn [send_nacks] in E; [by simplify_eq|]. inv_bind E.
  assert (forall w1, ongoing s w1 -> ongoing (forget_nack s id) w1) as Hf by (intros w1 H2; eapply ongoing_step; [done|by constructor]).
  destruct v as [k|]; [|eapply IH; [|exact E]; by apply Hf].
  destruct (sender w (NackP k)) as [w1 acc] eqn:Es. assert (ongoing s w1) as Ho1 by (eapply ongoing_send; [exact Ho| |exact Es]; by right).
  destruct acc; [|by simplify_eq]. eapply IH; [|exact E]. by apply Hf.
Qed.

Lemma flush_ongoing q s w now now_ms s' w' :
  ongoing s w -> flush_packets sender q s w now now_ms = Some (s', w') -> ongoing s' w'.
Proof using HI.
  intros Ho. unfold flush_packets. destruct (send_ping sender s w now now_ms) as [s1 w1] eqn:E1. apply send_ping_ongoing in E1; [|done].
  intros E. inv_bind E. destruct v as [s2 w2]. apply send_datagrams_ongoing in E0; [|done].
  inv_bind E. destruct v as [s3 w3]. apply send_probe_ongoing in E2; [|done].
  inv_bind E. destruct v as [[s4 w4] any]. apply send_loop_ongoing in E3; [|done].
  inv_bind E. destruct v as [s5 w5]. apply send_tlp_ongoing in E4; [|done].
  unfold flush_pending_acks in E. destruct (send_acks sender s5 w5 _ _) as [s6 w6] eqn:E6. apply send_acks_ongoing in E6; [|done].
  inv_bind E. destruct v as [s7 w7]. apply send_nacks_ongoing in E5; [|done].
  inv_bind E. unfold note_app_limited in E7. inv_bind E7. simplify_eq. eapply ongoing_step; [exact E5|]. destruct (_ && _); by constructor.
Qed.

End Flush.
(** *** Control packets *)

(** An event that delivers nothing to the application. *)
Definition silent (e : SessionEvent) : Prop := match e with MessageCompleted _ _ _ => False | _ => True end.

Record advanced s s' : Prop := {
  ad_kept : kept s (s' <| events := events s |>);
  ad_events : exists evs, events s' = events s ++ evs /\ forall e, e ∈ evs -> silent e
}.

Lemma kept_advanced s s' : kept s s' -> advanced s s'.
Proof.
  intros Hk. pose proof (k_events _ _ Hk) as He. split; [by destruct Hk; constructor|].
  exists []. rewrite app_nil_r. split; [done|]. intros e H2. by apply not_elem_of_nil in H2.
Qed.

Lemma advanced_step s s1 s2 : kept s s1 -> advanced s1 s2 -> advanced s s2.
Proof.
  intros Hk [Hk2 (evs & He & Hs)]. pose proof (k_events _ _ Hk) as Ee. split; [|exists evs; by rewrite He, Ee].
  etrans; [exact Hk|]. by rewrite <- Ee.
Qed.

Lemma handle_ack_advanced s a now s' :
  NoDup (FlatMap.keys (outgoing s)) -> handle_ack_packet s a now = Some s' -> advanced s s'.
Proof.
  intros Hnd. unfold handle_ack_packet. intros E. inv_bind E. cbv zeta in E.
  set (s1 := (if ESTIMATED_PAYLOAD_SIZE <=? v then _ else s) <| peer_rwnd := v |>) in E.
  assert (kept s s1) as Hk1 by (unfold s1; destruct (_ <=? v); by constructor).
  apply (advanced_step _ _ _ Hk1). apply (k_nodup _ _ Hk1) in Hnd. clearbody s1. clear Hk1.
  destruct (FlatMap.get (outgoing s1) (ack_message_id a)) as [m|] eqn:Eg.
  2: { inv_bind E. injection E as <-. apply kept_advanced. by constructor. }
  inv_bind E. destruct v0 as [m' r]. pose proof (kept_write s1 _ m m' Eg (on_ack_cut _ _ _ _ _ _ _ E1)) as Hw.
  set (s2 := s1 <| outgoing := _ |>) in *. apply (advanced_step _ _ _ Hw). apply (k_nodup _ _ Hw) in Hnd. clearbody s2. clear E1.
  inv_bind E. set (s3 := if 0 <? newly_delivered_bytes r then _ else _) in E.
  assert (kept s2 s3) as Hk3 by (unfold s3; destruct (0 <? _); by constructor).
  apply (advanced_step _ _ _ Hk3). apply (k_nodup _ _ Hk3) in Hnd. clearbody s3. inv_bind E. inv_bind E. inv_bind E. inv_bind E.
  destruct (OutgoingMessage.all_acked m'); [inv_bind E|]; injection E as <-; [|apply kept_advanced; by constructor].
  split; [constructor; try done|].
  - by apply tracks_remove.
  - by apply FlatMap.NoDup_remove.
  - eexists. split; [unfold emit; cbn; by rewrite <- app_assoc|]. by intros e [->|[->|?%not_elem_of_nil]%elem_of_cons]%elem_of_cons.
Qed.

Lemma handle_nack_kept s k now s' : handle_nack_packet s k now = Some s' -> kept s s'.
Proof.
  unfold handle_nack_packet. intros E. destruct (FlatMap.get _ _) as [m|] eqn:Eg; [|by simplify_eq]. inv_bind E.
  destruct v as [[[[m' fl] rm] cl] tr]. set (m2 := if cl then _ else m') in E.
  assert (same_cut m m2) as Hc by (etrans; [by eapply nack_cut|]; unfold m2; by destruct cl). clearbody m2.
  pose proof (kept_write s _ m m2 Eg Hc) as Hw.
  destruct tr; [inv_bind E|]; injection E as <-; (etrans; [exact Hw|]; by constructor).
Qed.

Lemma check_cwnd_advanced s : advanced s (check_cwnd_change s).
Proof.
  unfold check_cwnd_change. destruct (_ || _); [|by apply kept_advanced]. split; [by constructor|].
  eexists. split; [done|]. by intros e ->%list_elem_of_singleton.
Qed.

(** *** Packets in general *)

Definition control (p : Packet) : Prop := match p with Data _ _ _ _ | Datagram _ _ => False | _ => True end.

Lemma reject_control q s id : control (create_rejection_ack q s id).
Proof. done. Qed.

Lemma one_control p : control p -> forall r, r ∈ [p] -> control r.
Proof. by intros Hp r ->%list_elem_of_singleton. Qed.

Lemma none_control r : r ∈ ([] : list Packet) -> control r.
Proof. by intros ?%not_elem_of_nil. Qed.

Lemma open_replies q s id mt total n now q' s' ps ok :
  open_reassembler q s id mt total n now = Some (q', s', ps, ok) -> forall r, r ∈ ps -> control r.
Proof.
  unfold open_reassembler. intros E. inv_bind E. inv_bind E. destruct v0 as [q1 reserved]. inv_bind E.
  destruct (negb reserved || _); [simplify_eq; by apply one_control|].
  destruct (MessageReassembler.new _ _ _ _ _); simplify_eq; [apply none_control|by apply one_control].
Qed.

Lemma ensure_replies q s id mt total n now q' s' ps ok :
  ensure_reassembler q s id mt total n now = Some (q', s', ps, ok) -> forall r, r ∈ ps -> control r.
Proof.
  unfold ensure_reassembler. destruct (FlatMap.get _ _); [intros E; simplify_eq; apply none_control|].
  destruct (_ <=? _); [intros E; simplify_eq; by apply one_control|]. apply open_replies.
Qed.

Lemma adjust_replies q s id e q' s' ps ok :
  adjust_reservation q s id e = Some (q', s', ps, ok) -> forall r, r ∈ ps -> control r.
Proof.
  unfold adjust_reservation. destruct (_ =? _); [intros E; simplify_eq; apply none_control|].
  destruct (_ <? _); intros E.
  - inv_bind E. destruct v as [q1 reserved]. inv_bind E. destruct (negb reserved || _); [|simplify_eq; apply none_control].
    inv_bind E. destruct v0 as [[q2 s2] r]. destruct r; simplify_eq; [by apply one_control|apply none_control].
  - inv_bind E. simplify_eq. apply none_control.
Qed.

Lemma fragment_replies q s id i d now q' s' ps :
  process_fragment q s id i d now = Some (q', s', ps) -> forall r, r ∈ ps -> control r.
Proof.
  unfold process_fragment. intros E. inv_bind E. inv_bind E. destruct v0 as [e res].
  destruct res as [complete|err]; [|inv_bind E; destruct v0 as [[q1 s1] r]; simplify_eq; apply none_control].
  inv_bind E. inv_bind E. destruct v1 as [[[q1 s1] ps1] ok]. pose proof (adjust_replies _ _ _ _ _ _ _ _ E3) as Hps.
  destruct ok; cbn [negb] in E; [|by simplify_eq]. destruct complete.
  - inv_bind E. destruct v1 as [q2 s2]. by simplify_eq.
  - destruct (FlatMap.or_insert _ _ _) as [m [count at_]]. inv_bind E. by simplify_eq.
Qed.

Lemma data_replies q s id i total d now q' s' ps :
  handle_data_packet q s id i total d now = Some (q', s', ps) -> forall r, r ∈ ps -> control r.
Proof.
  unfold handle_data_packet. destruct (check_completed_message q s id) as [a|] eqn:Ec.
  { intros E. simplify_eq. apply one_control. unfold check_completed_message in Ec.
    destruct (FlatMap.get _ _) as [[? ?]|]; by simplify_eq. }
  destruct (is_ancient_message s id); [intros E; simplify_eq; apply none_control|]. intros E. inv_bind E.
  destruct v as [[[q1 s1] ps1] ok]. pose proof (ensure_replies _ _ _ _ _ _ _ _ _ _ _ E0) as H1'.
  destruct ok; cbn [negb] in E; [|by simplify_eq]. inv_bind E. destruct v as [[q2 s2] ps2].
  pose proof (fragment_replies _ _ _ _ _ _ _ _ _ E1) as H2'. simplify_eq. intros r [?|?]%elem_of_app; auto.
Qed.

(** What a handled packet can be: data, a datagram, or a control packet, which
    touches the sending half only. *)
Lemma handle_packet_cases q s p now now_ms q' s' ps :
  NoDup (FlatMap.keys (outgoing s)) -> handle_packet q s p now now_ms = Some (q', s', ps) ->
  exists s1, s' = check_cwnd_change s1 /\ (forall r, r ∈ ps -> control r) /\
    match p with
    | Data id i total d => handle_data_packet q (s <| last_activity := now |>) id i total d now = Some (q', s1, ps)
    | Datagram mt d => q' = q /\ s1 = emit (s <| last_activity := now |>) (MessageCompleted 0 mt d)
    | _ => q' = q /\ advanced s s1
    end.
Proof.
  intros Hnd. unfold handle_packet. intros E. inv_bind E. destruct v as [[q1 s1] ps1]. injection E as <- <- <-. exists s1. split; [done|].
  assert (kept s (s <| last_activity := now |>)) as Hk by (by constructor).
  destruct p as [id i total d|a|k|t1|t1 t2 t3|mt d]; cbn [handle_packet_internal] in E0.
  - split; [by eapply data_replies|done].
  - inv_bind E0. injection E0 as <- <- <-. split; [apply none_control|]. split; [done|]. apply (advanced_step _ _ _ Hk).
    by eapply handle_ack_advanced.
  - inv_bind E0. injection E0 as <- <- <-. split; [apply none_control|]. split; [done|]. apply (advanced_step _ _ _ Hk).
    by eapply kept_advanced, handle_nack_kept.
  - destruct (gen_range _ _ _) as [j r]. inv_bind E0. injection E0 as <- <- <-. split; [by apply one_control|]. split; [done|].
    apply kept_advanced. by constructor.
  - destruct (last_ping_sent _) as [sent|]; [|injection E0 as <- <- <-; split; [apply none_control|]; split; [done|]; by apply kept_advanced].
    inv_bind E0. inv_bind E0. inv_bind E0. injection E0 as <- <- <-. split; [apply none_control|]. split; [done|].
    apply kept_advanced. by constructor.
  - injection E0 as <- <- <-. split; [apply none_control|done].
Qed.

End Kept.
End Frames.
