(* ===== verification/SessionReceive.v ===== *)
(** The receiving half of a session: [handle_data_packet] and what it calls.

    [receiver_ok] is the invariant of the receiving state.  It says that the
    memory reserved for the messages under reassembly is what the session has
    booked, covers what their buffers hold and stays below the session's limit,
    and that every fragment stored and every message delivered comes from
    fragments that arrived.  The lemmas show that a data packet never makes the
    session panic, keeps the invariant, and charges the shared quota with
    exactly the change of the session's reservation. *)

From S2P Require Import Prelude Bitset FlatMaps Protocol Quota Reassembly Float32 Rtt Outgoing Scheduler Congestion Session.
#[local] Open Scope Z_scope.
#[local] Open Scope list_scope.

Module Receiving.
Import SequenceSession.

(** [q'] is [q] with [d] more bytes in use. *)
Definition charged (q : ReassemblyQuota.t) (d : Z) (q' : ReassemblyQuota.t) : Prop :=
  ReassemblyQuota.wf q' /\ ReassemblyQuota.max_bytes q' = ReassemblyQuota.max_bytes q /\
  ReassemblyQuota.used_bytes q' = ReassemblyQuota.used_bytes q + d.

Lemma charged_zero q : ReassemblyQuota.wf q -> charged q 0 q.
Proof. intros H. split_and!; [done|done|lia]. Qed.

Lemma charged_trans q1 d1 q2 d2 q3 d :
  charged q1 d1 q2 -> charged q2 d2 q3 -> d = d1 + d2 -> charged q1 d q3.
Proof. intros (_ & M1 & U1) (W & M2 & U2) ->. split_and!; [done|congruence|lia]. Qed.

Lemma charged_release q a :
  ReassemblyQuota.wf q -> 0 <= a <= ReassemblyQuota.used_bytes q -> charged q (- a) (ReassemblyQuota.release q a).
Proof.
  intros Hq Ha. split_and!; [apply ReassemblyQuota.release_wf; [done|lia]|done|].
  unfold ReassemblyQuota.release, sat_sub. cbn. lia.
Qed.

Section Receive.
Context {C : Type} `{CongestionControl C} {Rng : Type} `{RandSource Rng} `{EnvelopeCodec}.

(** The fragments that may arrive: [genuine id total i d] is the fragment
    [d] at index [i] of a message announced with [total] fragments; and the
    datagrams. *)
Context (genuine : Z -> Z -> Z -> bytes -> Prop) (datagram : MessageType -> bytes -> Prop).

Abbreviation session := (SequenceSession.t C Rng).
Implicit Types (s : session) (q : ReassemblyQuota.t).

(** A message under reassembly. *)
Record incoming_ok (id : Z) (r : MessageReassembler.t) : Prop := {
  io_wf : MessageReassembler.wf r;
  io_id : MessageReassembler.message_id r = id;
  io_memory : FragmentBuffer.total_allocated_size (MessageReassembler.buffer r) <= MessageReassembler.reserved_bytes r;
  io_genuine i d : MessageReassembler.received r i = Some d -> genuine id (MessageReassembler.total_fragments r) i d
}.

(** A message delivered to the application: the envelope its fragments hold. *)
Definition delivered (id : Z) (mt : MessageType) (payload : bytes) : Prop :=
  exists fs, (forall i d, idx fs i = Some d -> genuine id (len fs) i d) /\ 0 < len fs /\
    deserialize_envelope (concat fs) = Ok (mt, payload).

Definition event_ok (e : SessionEvent) : Prop :=
  match e with
  | MessageCompleted id mt payload => (id = 0 /\ datagram mt payload) \/ delivered id mt payload
  | _ => True
  end.

Record receiver_ok (b : Z) (inc : list (Z * MessageReassembler.t)) (limit size : Z)
    (completed : list (Z * (SelectiveAck * Instant))) (pending : list (Z * (Z * Instant)))
    (evs : list SessionEvent) : Prop := {
  ro_nodup : NoDup (FlatMap.keys inc);
  ro_incoming id r : FlatMap.get inc id = Some r -> incoming_ok id r;
  ro_len : FlatMap.len inc <= MAX_CONCURRENT_INCOMING;
  ro_size : size = zsum MessageReassembler.reserved_bytes (FlatMap.values inc);
  ro_limit : size <= limit <= 2 ^ 60;
  ro_completed : NoDup (FlatMap.keys completed) /\ FlatMap.len completed <= MAX_COMPLETED_INCOMING;
  ro_pending n at_ : (n, at_) ∈ FlatMap.values pending -> 0 <= n <= b + 2;
  ro_events e : e ∈ evs -> event_ok e
}.

Definition rinv (b : Z) (s : session) : Prop :=
  receiver_ok b (incoming s) (max_per_session s) (incoming_buffer_size s) (completed_incoming s)
    (pending_acks s) (events s).

(** The state of the sending half is untouched. *)
Definition same_sender (s s' : session) : Prop :=
  next_message_id s' = next_message_id s /\ outgoing s' = outgoing s /\ scheduler s' = scheduler s /\
  rtt s' = rtt s /\ congestion_control s' = congestion_control s /\ in_flight s' = in_flight s /\
  peer_rwnd s' = peer_rwnd s /\ delivered_bytes s' = delivered_bytes s /\ last_ping_sent s' = last_ping_sent s /\
  datagram_queue s' = datagram_queue s /\ max_per_session s' = max_per_session s /\
  next_pacing_time s' = next_pacing_time s /\ rng s' = rng s.

#[global] Instance same_sender_preorder : PreOrder same_sender.
Proof. split; [by intros s|]. intros s1 s2 s3. unfold same_sender. intuition congruence. Qed.

(** What an operation on the receiving half does. *)
Definition received_ok (b : Z) q s q' s' : Prop :=
  rinv b s' /\ charged q (incoming_buffer_size s' - incoming_buffer_size s) q' /\ same_sender s s'.

Lemma io_reserved id r : incoming_ok id r -> 0 <= MessageReassembler.reserved_bytes r.
Proof.
  intros [Hwf _ Hm _]. etrans; [|exact Hm]. pose proof (MessageReassembler.wf_buffer _ Hwf) as Hb.
  unfold FragmentBuffer.total_allocated_size, FragmentBuffer.PER_FRAGMENT_OVERHEAD, FragmentBuffer.FRAGMENT_STRUCT_OVERHEAD,
    FragmentBuffer.HEAP_OVERHEAD_ESTIMATE.
  pose proof (FragmentBuffer.stored_nonneg (FragmentBuffer.fragments (MessageReassembler.buffer r))) as Hs.
  rewrite <- (FragmentBuffer.wf_size _ Hb) in Hs. pose proof (FragmentBuffer.wf_count _ Hb) as Hc.
  pose proof (count_if_bounds (BitSet.get (FragmentBuffer.received_mask (MessageReassembler.buffer r)))
    (zrange 0 (FragmentBuffer.total_fragments (MessageReassembler.buffer r)))). lia.
Qed.

Section Map.
Context {b : Z} {inc : list (Z * MessageReassembler.t)} {limit size : Z}
  {completed : list (Z * (SelectiveAck * Instant))} {pending : list (Z * (Z * Instant))} {evs : list SessionEvent}
  (Hok : receiver_ok b inc limit size completed pending evs).

Lemma reserved_le id r : FlatMap.get inc id = Some r -> 0 <= MessageReassembler.reserved_bytes r <= size.
Proof using Hok.
  intros Hr. split; [eapply io_reserved, (ro_incoming _ _ _ _ _ _ _ Hok), Hr|].
  rewrite (ro_size _ _ _ _ _ _ _ Hok). apply zsum_elem; [|by eapply FlatMap.get_values].
  intros y Hy. apply FlatMap.elem_values in Hy as [k Hk]; [|apply Hok].
  eapply io_reserved, (ro_incoming _ _ _ _ _ _ _ Hok), Hk.
Qed.

Lemma size_nonneg : 0 <= size.
Proof using Hok.
  rewrite (ro_size _ _ _ _ _ _ _ Hok). apply zsum_nonneg. intros y Hy.
  apply FlatMap.elem_values in Hy as [k Hk]; [|apply Hok]. eapply io_reserved, (ro_incoming _ _ _ _ _ _ _ Hok), Hk.
Qed.

Lemma receiver_write id r0 r :
  FlatMap.get inc id = Some r0 -> incoming_ok id r ->
  let size' := size - MessageReassembler.reserved_bytes r0 + MessageReassembler.reserved_bytes r in
  size' <= limit -> receiver_ok b (FlatMap.write inc id r) limit size' completed pending evs.
Proof using Hok.
  intros Hg Hr size' Hl. pose proof Hok as []. constructor; try assumption.
  - by rewrite FlatMap.keys_write.
  - intros j x. rewrite FlatMap.get_write. case_decide as E; [|eauto]. subst j. rewrite Hg. cbn. naive_solver.
  - by rewrite FlatMap.len_write.
  - unfold size'. rewrite (FlatMap.zsum_write _ _ _ _ r0) by done. lia.
  - lia.
Qed.

Lemma receiver_remove id r :
  FlatMap.get inc id = Some r ->
  receiver_ok b (FlatMap.remove inc id).1 limit (size - MessageReassembler.reserved_bytes r) completed pending evs.
Proof using Hok.
  intros Hg. pose proof (reserved_le id r Hg). pose proof Hok as []. constructor; try assumption.
  - by apply FlatMap.NoDup_remove.
  - intros j x. rewrite FlatMap.get_remove by done. case_decide; [done|eauto].
  - pose proof (FlatMap.len_remove_le inc id). lia.
  - rewrite (FlatMap.zsum_remove _ _ _ r) by done. lia.
  - lia.
Qed.

Lemma receiver_insert id r :
  FlatMap.get inc id = None -> incoming_ok id r -> FlatMap.len inc < MAX_CONCURRENT_INCOMING ->
  size + MessageReassembler.reserved_bytes r <= limit ->
  receiver_ok b (FlatMap.insert inc id r).1 limit (size + MessageReassembler.reserved_bytes r) completed pending evs.
Proof using Hok.
  intros Hg Hr Hlen Hl. pose proof Hok as []. constructor; try assumption.
  - by apply FlatMap.NoDup_insert.
  - intros j x. rewrite FlatMap.get_after_insert. case_decide; naive_solver.
  - pose proof (FlatMap.len_insert_le inc id r). lia.
  - rewrite FlatMap.insert_fresh by done. cbn [fst]. rewrite FlatMap.zsum_append. lia.
  - lia.
Qed.

End Map.
(** The quota covers what the session has booked. *)
Definition covered q s : Prop := ReassemblyQuota.wf q /\ incoming_buffer_size s <= ReassemblyQuota.used_bytes q.

Lemma received_refl b q s : rinv b s -> covered q s -> received_ok b q s q s.
Proof. intros Hr [Hq _]. split_and!; [done| |done]. rewrite Z.sub_diag. by apply charged_zero. Qed.

Lemma received_trans b q1 s1 q2 s2 q3 s3 :
  received_ok b q1 s1 q2 s2 -> received_ok b q2 s2 q3 s3 -> received_ok b q1 s1 q3 s3.
Proof.
  intros (_ & C1 & S1) (R2 & C2 & S2). split_and!; [done| |by etrans]. eapply charged_trans; [done..|lia].
Qed.

Lemma received_covered b q s q' s' : covered q s -> received_ok b q s q' s' -> covered q' s'.
Proof. intros [_ Hc] (_ & (W & _ & U) & _). split; [done|lia]. Qed.

Lemma rinv_size b s : rinv b s -> 0 <= incoming_buffer_size s <= max_per_session s /\ max_per_session s <= 2 ^ 60.
Proof. intros Hr. pose proof (size_nonneg Hr). pose proof (ro_limit _ _ _ _ _ _ _ Hr). lia. Qed.

Lemma reserve_for_spec b q s amount p :
  rinv b s -> covered q s -> 0 <= amount <= 2 ^ 60 ->
  exists q' (ok : bool), reserve_for q s amount p = Some (q', ok) /\ charged q (if ok then amount else 0) q'.
Proof.
  intros Hr [Hq Hc] Ha. destruct (rinv_size b s Hr) as [Hs Hm]. pose proof Hq as [Hu Hmax]. unfold usize_max in Hmax.
  unfold reserve_for. run_chk. pose proof (ReassemblyQuota.threshold_le_max (ReassemblyQuota.max_bytes q) p ltac:(lia)).
  assert (forall ok : bool, (ok = true -> ReassemblyQuota.used_bytes q + amount <= ReassemblyQuota.max_bytes q) ->
    charged q (if ok then amount else 0) (if ok then q <| ReassemblyQuota.used_bytes := ReassemblyQuota.used_bytes q + amount |> else q)) as Hch.
  { intros [] Hle; [|by apply charged_zero]. specialize (Hle eq_refl). split_and!; [|done..].
    unfold ReassemblyQuota.wf, usize_max. cbn. lia. }
  destruct (_ <=? FAIR_SHARE_GUARANTEE).
  - rewrite ReassemblyQuota.reserve_guaranteed_spec by (done || unfold usize_max; lia).
    destruct (Z.ltb_spec (ReassemblyQuota.max_bytes q) (ReassemblyQuota.used_bytes q + amount));
      [exists q, false|eexists _, true]; (split; [done|]); [by apply (Hch false)|apply (Hch true); lia].
  - rewrite ReassemblyQuota.reserve_spec by (done || unfold usize_max; lia).
    destruct (Z.ltb_spec (ReassemblyQuota.max_bytes q * ReassemblyQuota.percent p / 100) (ReassemblyQuota.used_bytes q + amount));
      [exists q, false|eexists _, true]; (split; [done|]); [by apply (Hch false)|apply (Hch true); lia].
Qed.

(** Dropping a message gives back what was reserved for it. *)
Lemma drop_incoming_spec b q s id :
  rinv b s -> covered q s ->
  exists q' s', drop_incoming q s id = Some (q', s', FlatMap.get (incoming s) id) /\ received_ok b q s q' s' /\
    incoming s' = (FlatMap.remove (incoming s) id).1 /\ completed_incoming s' = completed_incoming s /\ events s' = events s.
Proof.
  intros Hr Hc. unfold drop_incoming. pose proof (FlatMap.remove_snd (incoming s) id) as Hrem.
  destruct (FlatMap.remove (incoming s) id) as [m r] eqn:E. cbn in Hrem. subst r.
  destruct (FlatMap.get (incoming s) id) as [r|] eqn:Eg.
  - pose proof (reserved_le Hr id r Eg) as Hle. destruct (rinv_size b s Hr). run_chk.
    eexists _, _. split; [done|]. split; [|done]. split_and!; [|cbn|done].
    + pose proof (receiver_remove Hr id r Eg) as Hrm. rewrite E in Hrm. exact Hrm.
    + replace (incoming_buffer_size s - MessageReassembler.reserved_bytes r - incoming_buffer_size s)
        with (- MessageReassembler.reserved_bytes r) by lia. destruct Hc. apply charged_release; [done|lia].
  - eexists _, _. split; [done|]. split; [|done]. rewrite FlatMap.remove_absent in E by done. injection E as <-.
    split_and!; [exact Hr| |done]. cbn. rewrite Z.sub_diag. apply charged_zero, Hc.
Qed.

(** Removing an entry that was just written. *)
Lemma drop_written_spec b q s id r0 r :
  rinv b s -> covered q s -> FlatMap.get (incoming s) id = Some r0 ->
  MessageReassembler.reserved_bytes r = MessageReassembler.reserved_bytes r0 ->
  exists q' s', drop_incoming q (s <| incoming := FlatMap.write (incoming s) id r |>) id = Some (q', s', Some r) /\
    received_ok b q s q' s' /\ completed_incoming s' = completed_incoming s /\ events s' = events s.
Proof.
  intros Hr Hc Hg Hres. unfold drop_incoming. cbn [incoming set_field incoming_buffer_size].
  pose proof (reserved_le Hr id r0 Hg) as Hle. destruct (rinv_size b s Hr).
  rewrite (FlatMap.remove_write _ _ _ r0) by done.
  run_chk. eexists _, _. split; [done|]. split; [|done]. split_and!; [|cbn|done].
  - rewrite Hres. exact (receiver_remove Hr id r0 Hg).
  - replace (incoming_buffer_size s - MessageReassembler.reserved_bytes r - incoming_buffer_size s)
      with (- MessageReassembler.reserved_bytes r) by lia. destruct Hc. apply charged_release; [done|lia].
Qed.

(** A reservation that is given back leaves the quota as it was. *)
Lemma reserve_release q amount (ok : bool) q' s :
  covered q s -> 0 <= incoming_buffer_size s -> 0 <= amount -> charged q (if ok then amount else 0) q' ->
  charged q 0 (if ok then ReassemblyQuota.release q' amount else q').
Proof.
  intros [_ Hc] Hs Ha Hch. destruct ok; [|done]. eapply charged_trans; [exact Hch|apply charged_release; [apply Hch|]|lia].
  destruct Hch as (_ & _ & U). cbn in U. lia.
Qed.

Lemma fresh_incoming id total p res now r :
  0 <= total -> 0 <= res -> MessageReassembler.new id total p res now = Ok r -> incoming_ok id r /\
  MessageReassembler.reserved_bytes r = res /\ MessageReassembler.total_fragments r = total.
Proof.
  intros Ht Hres Heq. pose proof (MessageReassembler.reassembler_new_spec id total p res now Ht) as Hn. rewrite Heq in Hn.
  destruct Hn as (Hwf & Htot & Hid & Hr & _ & _ & Hnone). split_and!; [|done..]. constructor; [done..| |].
  - unfold MessageReassembler.new in Heq. destruct (_ || _); [done|]. injection Heq as <-. unfold FragmentBuffer.total_allocated_size. cbn. lia.
  - intros i d Hd. by rewrite Hnone in Hd.
Qed.

Lemma open_reassembler_spec b q s id mt total n now :
  rinv b s -> covered q s -> FlatMap.get (incoming s) id = None -> FlatMap.len (incoming s) < MAX_CONCURRENT_INCOMING ->
  in_u 16 total -> 0 <= n <= 2 ^ 40 ->
  exists q' s' ps ok, open_reassembler q s id mt total n now = Some (q', s', ps, ok) /\ received_ok b q s q' s' /\
    completed_incoming s' = completed_incoming s /\ events s' = events s /\
    (ok = true -> exists r, FlatMap.get (incoming s') id = Some r /\ MessageReassembler.total_fragments r = total).
Proof.
  intros Hr Hc Hg Hlen Ht Hn. destruct (rinv_size b s Hr) as [Hsz Hmax]. unfold open_reassembler, in_u in *.
  assert (exists res, 0 <= res <= 2 ^ 57 /\ (if 1 <? total then chk_usize (Z.max n ESTIMATED_PAYLOAD_SIZE * total) else Some n) = Some res)
    as (res & Hres & ->).
  { destruct (1 <? total); [|exists n; split; [lia|done]]. unfold ESTIMATED_PAYLOAD_SIZE.
    assert (0 <= Z.max n 1300 * total <= 2 ^ 57) by nia. eexists. split; [done|]. run_chk. done. }
  run. destruct (reserve_for_spec b q s res (calculate_priority mt total res) Hr Hc ltac:(lia)) as (q1 & ok & -> & Hch).
  run. run_chk.
  assert (forall q2, charged q 0 q2 -> received_ok b q s q2 s) as Hback.
  { intros q2 Hq2. split_and!; [done| |done]. by rewrite Z.sub_diag. }
  pose proof (reserve_release q res ok q1 s Hc ltac:(lia) ltac:(lia) Hch) as Hrel.
  destruct ok; cbn [negb orb] in *; [|eexists _, _, _, false; split; [done|]; split; [by apply Hback|done]].
  destruct (Z.ltb_spec (max_per_session s) (incoming_buffer_size s + res)) as [Hbig|Hfits].
  { eexists _, _, _, false. split; [done|]. split; [by apply Hback|done]. }
  destruct (MessageReassembler.new id total (calculate_priority mt total res) res now) as [r|e] eqn:Enew.
  2: { eexists _, _, _, false. split; [done|]. split; [by apply Hback|done]. }
  destruct (fresh_incoming id total _ res now r ltac:(lia) ltac:(lia) Enew) as (Hio & Hrb & Htot).
  set (s1 := s <| incoming_buffer_size := incoming_buffer_size s + res |> <| incoming := (FlatMap.insert (incoming s) id r).1 |>).
  assert (received_ok b q s q1 s1 /\ FlatMap.get (incoming s1) id = Some r) as [H1' H2'].
  { split; [split_and!; [|cbn|done]|].
    - pose proof (receiver_insert Hr id r Hg Hio Hlen) as Hi. rewrite Hrb in Hi. exact (Hi Hfits).
    - by replace (incoming_buffer_size s + res - incoming_buffer_size s) with res by lia.
    - cbn. rewrite FlatMap.get_after_insert. by rewrite decide_True. }
  change (FlatMap.insert (incoming (s <| incoming_buffer_size := incoming_buffer_size s + res |>)) id r)
    with (FlatMap.insert (incoming s) id r). fold s1.
  destruct (match highest_received_id s1 with None => true | Some h => _ end).
  - eexists _, _, _, true. split; [done|]. split_and!; [exact H1'|done|done|]. intros _. by exists r.
  - eexists _, _, _, true. split; [done|]. split_and!; [exact H1'|done|done|]. intros _. by exists r.
Qed.

Lemma ensure_reassembler_spec b q s id mt total n now :
  rinv b s -> covered q s -> in_u 16 total -> 0 <= n <= 2 ^ 40 ->
  exists q' s' ps ok, ensure_reassembler q s id mt total n now = Some (q', s', ps, ok) /\ received_ok b q s q' s' /\
    completed_incoming s' = completed_incoming s /\ events s' = events s /\
    (ok = true -> exists r, FlatMap.get (incoming s') id = Some r /\ MessageReassembler.total_fragments r = total).
Proof.
  intros Hr Hc Ht Hn. unfold ensure_reassembler. destruct (FlatMap.get (incoming s) id) as [r|] eqn:Eg.
  - set (r' := match mt with Some _ => _ | None => _ end).
    assert (incoming_ok id r' /\ MessageReassembler.reserved_bytes r' = MessageReassembler.reserved_bytes r) as [Hio Hrb].
    { destruct (ro_incoming _ _ _ _ _ _ _ Hr id r Eg) as [[W1 W2 W3 W4] I M G]. unfold r'. destruct mt; [|done].
      split; [|done]. constructor; [by constructor|done..]. }
    eexists _, _, _, _. split; [done|]. split_and!; [|done|done|].
    + split_and!; [|cbn; rewrite Z.sub_diag; apply charged_zero, Hc|done].
      pose proof (receiver_write Hr id r r' Eg Hio) as Hw. rewrite Hrb in Hw.
      replace (incoming_buffer_size s - MessageReassembler.reserved_bytes r + MessageReassembler.reserved_bytes r)
        with (incoming_buffer_size s) in Hw by lia. destruct (rinv_size b s Hr). apply Hw. lia.
    + intros Heq%Z.eqb_eq. exists r'. split; [|done]. cbn. by rewrite FlatMap.get_write, decide_True, Eg.
  - destruct (Z.leb_spec MAX_CONCURRENT_INCOMING (FlatMap.len (incoming s))).
    + eexists _, _, _, false. split; [done|]. split; [by apply received_refl|done].
    + by apply open_reassembler_spec.
Qed.

Lemma remember_completed_spec b s id ack now :
  0 <= b -> rinv b s ->
  exists s', remember_completed s id ack now = Some s' /\ rinv b s' /\ same_sender s s' /\
    incoming_buffer_size s' = incoming_buffer_size s /\ incoming s' = incoming s /\ events s' = events s.
Proof.
  intros Hb Hr. destruct (ro_completed _ _ _ _ _ _ _ Hr) as [Hnd Hlen]. unfold remember_completed.
  set (m := (FlatMap.insert (completed_incoming s) id (ack, now)).1).
  assert (NoDup (FlatMap.keys m)) as Hm by (by apply FlatMap.NoDup_insert).
  pose proof (FlatMap.len_insert_le (completed_incoming s) id (ack, now)) as Hl. fold m in Hl.
  assert (exists m', (if MAX_COMPLETED_INCOMING <? FlatMap.len m
    then oldest ← List.hd_error (FlatMap.keys m); Some (FlatMap.remove m oldest).1 else Some m) = Some m' /\
    NoDup (FlatMap.keys m') /\ FlatMap.len m' <= MAX_COMPLETED_INCOMING) as (m' & -> & Hm' & Hlm').
  { destruct (Z.ltb_spec MAX_COMPLETED_INCOMING (FlatMap.len m)); [|by exists m].
    destruct m as [|[k v] m0] eqn:Em; [done|]. cbn [List.hd_error FlatMap.keys fmap list_fmap fst]. run.
    eexists. split; [done|]. split; [by apply FlatMap.NoDup_remove|].
    rewrite (FlatMap.len_remove _ _ v) by (cbn; by rewrite decide_True). lia. }
  run. eexists. split; [done|]. split_and!; [|done..]. destruct Hr. constructor; try assumption; [done|].
  cbn. intros n at_ [?|Hp]%FlatMap.values_insert_elem; [simplify_eq; lia|eauto].
Qed.

Lemma assemble_delivers id r :
  incoming_ok id r -> FragmentBuffer.is_complete (MessageReassembler.buffer r) = true ->
  exists fs, MessageReassembler.assemble r = Some (concat fs) /\ len fs = MessageReassembler.total_fragments r /\
    (forall i d, idx fs i = Some d <-> MessageReassembler.received r i = Some d) /\
    forall mt payload, deserialize_envelope (concat fs) = Ok (mt, payload) -> delivered id mt payload.
Proof.
  intros [Hwf _ _ Hgen] Hcomp. pose proof Hwf as [Hb Ht Hp _].
  pose proof (proj1 (FragmentBuffer.is_complete_spec _ Hb) Hcomp) as Hall. rewrite Ht in Hall.
  set (f i := default [] (MessageReassembler.received r i)).
  assert (forall i, 0 <= i < MessageReassembler.total_fragments r -> MessageReassembler.received r i = Some (f i)) as Hf.
  { intros i Hi. unfold f. destruct (Hall i Hi) as [d Hd]. unfold MessageReassembler.received in *. by rewrite Hd. }
  set (fs := f <$> zrange 0 (MessageReassembler.total_fragments r)).
  assert (len fs = MessageReassembler.total_fragments r) as Hlen.
  { unfold fs, len. rewrite length_fmap. fold (len (zrange 0 (MessageReassembler.total_fragments r))). rewrite len_zrange; lia. }
  assert (forall i d, idx fs i = Some d <-> MessageReassembler.received r i = Some d) as Hidx.
  { intros i d. split.
    - intros Hi. pose proof (idx_lt _ _ _ Hi) as Hlt. rewrite Hlen in Hlt. rewrite Hf by done. f_equal.
      apply idx_Some in Hi as [Hi0 Hi]. unfold fs in Hi. rewrite list_lookup_fmap in Hi. unfold zrange in Hi.
      rewrite list_lookup_fmap, lookup_seq_lt in Hi by lia. cbn in Hi. injection Hi as <-. f_equal. lia.
    - intros Hd. assert (0 <= i < MessageReassembler.total_fragments r) as Hi.
      { unfold MessageReassembler.received, FragmentBuffer.frag in Hd. destruct (idx _ i) eqn:E; [|done].
        apply idx_lt in E. rewrite (FragmentBuffer.wf_len _ Hb), Ht in E. done. }
      rewrite Hf in Hd by done. injection Hd as <-. apply idx_Some. split; [lia|]. unfold fs. rewrite list_lookup_fmap. unfold zrange.
      rewrite list_lookup_fmap, lookup_seq_lt by lia. cbn. do 2 f_equal. lia. }
  exists fs. split_and!; [|done|done|].
  - unfold MessageReassembler.assemble. rewrite (FragmentBuffer.assemble_spec _ f Hb); [by rewrite Ht|]. rewrite Ht. exact Hf.
  - intros mt payload Hd. exists fs. split_and!; [|lia|done]. intros i d Hi. rewrite Hlen. apply Hgen. by apply Hidx.
Qed.

(** The event a complete message gives rise to. *)
Definition completion (id : Z) (assembled : bytes) : list SessionEvent :=
  match deserialize_envelope assembled with
  | Ok (mt, payload) => [MessageCompleted id mt payload]
  | Err _ => []
  end.

Lemma rinv_events b s evs :
  rinv b s -> (forall e, e ∈ evs -> event_ok e) -> rinv b (s <| events := events s ++ evs |>).
Proof.
  intros [] He. constructor; try assumption. cbn. intros e [?|?]%elem_of_app; eauto.
Qed.

Lemma complete_message_spec b q s id r now :
  0 <= b -> rinv b s -> covered q s -> FlatMap.get (incoming s) id = Some r ->
  FragmentBuffer.is_complete (MessageReassembler.buffer r) = true ->
  exists q' s' fs, complete_message q s id now = Some (q', s') /\ received_ok b q s q' s' /\
    (forall i d, idx fs i = Some d <-> MessageReassembler.received r i = Some d) /\
    len fs = MessageReassembler.total_fragments r /\
    events s' = events s ++ completion id (concat fs) /\ FlatMap.get (incoming s') id = None.
Proof.
  intros Hb Hr Hc Hg Hcomp. unfold complete_message.
  set (s0 := s <| pending_nacks := _ |>). assert (rinv b s0) as Hr0 by exact Hr.
  destruct (drop_incoming_spec b q s0 id Hr0 Hc) as (q1 & s1 & -> & Hok & Hinc & _ & Hev). run.
  change (FlatMap.get (incoming s0) id) with (FlatMap.get (incoming s) id). rewrite Hg.
  destruct (assemble_delivers id r (ro_incoming _ _ _ _ _ _ _ Hr id r Hg) Hcomp) as (fs & -> & Hlen & Hidx & Hdel).
  set (s2 := match deserialize_envelope (concat fs) with Ok _ => _ | Err _ => s1 end).
  assert (rinv b s2 /\ same_sender s1 s2 /\ incoming_buffer_size s2 = incoming_buffer_size s1 /\
    incoming s2 = incoming s1 /\ events s2 = events s1 ++ completion id (concat fs)) as (Hr2 & Hs2 & Hz2 & Hi2 & He2).
  { unfold s2, completion. destruct (deserialize_envelope (concat fs)) as [[mt payload]|e] eqn:Ed.
    - split_and!; [|done..]. apply rinv_events; [apply Hok|]. intros e ->%list_elem_of_singleton. right. by apply Hdel.
    - split_and!; [apply Hok|done..|by rewrite app_nil_r]. }
  destruct (remember_completed_spec b s2 id (MessageReassembler.create_ack r (current_rwnd q1 s1)) now Hb Hr2)
    as (s3 & -> & Hr3 & Hs3 & Hz3 & Hi3 & He3). run.
  exists q1, s3, fs. split; [done|]. destruct Hok as (_ & Hch & Hss).
  split; [split; [done|split]|split_and!; try done].
  - by rewrite Hz3, Hz2.
  - etrans; [exact Hss|]. by etrans.
  - by rewrite He3, He2, Hev.
  - rewrite Hi3, Hi2, Hinc. cbn. rewrite FlatMap.get_remove by apply Hr. by rewrite decide_True.
Qed.

(** The state between storing a fragment and adjusting the reservation: the
    entry [r0] has been replaced by [r], which may hold more than is reserved. *)
Lemma adjust_reservation_spec b q s id r0 r :
  rinv b s -> covered q s -> FlatMap.get (incoming s) id = Some r0 ->
  MessageReassembler.wf r -> MessageReassembler.message_id r = id ->
  MessageReassembler.reserved_bytes r = MessageReassembler.reserved_bytes r0 ->
  (forall i d, MessageReassembler.received r i = Some d -> genuine id (MessageReassembler.total_fragments r) i d) ->
  exists q' s' ps (kept : bool),
    adjust_reservation q (s <| incoming := FlatMap.write (incoming s) id r |>) id r = Some (q', s', ps, kept) /\
    received_ok b q s q' s' /\ completed_incoming s' = completed_incoming s /\ events s' = events s /\
    (kept = true -> exists r', FlatMap.get (incoming s') id = Some r' /\
       MessageReassembler.buffer r' = MessageReassembler.buffer r /\
       MessageReassembler.total_fragments r' = MessageReassembler.total_fragments r).
Proof.
  intros Hr Hc Hg Hwf Hid Hres Hgen. unfold adjust_reservation.
  set (planned := MessageReassembler.planned_total_size r). pose proof Hwf as [Hbuf Htot Hpos Hsz].
  pose proof (FragmentBuffer.planned_bound _ Hbuf Hsz) as Hpl. fold (MessageReassembler.planned_total_size r) in Hpl. fold planned in Hpl.
  pose proof (FragmentBuffer.planned_ge_allocated _ Hbuf ltac:(lia)) as Hal. fold (MessageReassembler.planned_total_size r) in Hal.
  fold planned in Hal. pose proof (reserved_le Hr id r0 Hg) as Hle. destruct (rinv_size b s Hr) as [Hs Hmax].
  rewrite Hres. cbn [incoming set_field incoming_buffer_size max_per_session].
  assert (forall z q', z = incoming_buffer_size s - MessageReassembler.reserved_bytes r0 + planned -> z <= max_per_session s ->
    charged q (planned - MessageReassembler.reserved_bytes r0) q' ->
    received_ok b q s q' (s <| incoming_buffer_size := z |>
      <| incoming := FlatMap.write (incoming s) id (r <| MessageReassembler.reserved_bytes := planned |>) |>)) as Hwrite.
  { intros z q' -> Hz Hch. split_and!; [|cbn|done].
    - assert (incoming_ok id (r <| MessageReassembler.reserved_bytes := planned |>)) as Hio
        by (constructor; [by constructor|done|exact Hal|exact Hgen]).
      exact (receiver_write Hr id r0 _ Hg Hio Hz).
    - by replace (incoming_buffer_size s - MessageReassembler.reserved_bytes r0 + planned - incoming_buffer_size s)
        with (planned - MessageReassembler.reserved_bytes r0) by lia. }
  assert (forall x, FlatMap.get (FlatMap.write (incoming s) id x) id = Some x) as Hget.
  { intros x. by rewrite FlatMap.get_write, decide_True, Hg. }
  destruct (Z.eqb_spec planned (MessageReassembler.reserved_bytes r0)) as [E|E].
  - eexists _, _, _, true. split; [done|]. split_and!; [|done|done|intros _; exists r; cbn; by rewrite Hget].
    split_and!; [|cbn; rewrite Z.sub_diag; apply charged_zero, Hc|done].
    pose proof (receiver_write Hr id r0 r Hg) as Hw. rewrite Hres in Hw.
    replace (incoming_buffer_size s - MessageReassembler.reserved_bytes r0 + MessageReassembler.reserved_bytes r0)
      with (incoming_buffer_size s) in Hw by lia. apply Hw; [|lia]. constructor; [done..|by rewrite Hres, <- E|done].
  - destruct (Z.ltb_spec (MessageReassembler.reserved_bytes r0) planned) as [Hlt|Hge].
    + destruct (reserve_for_spec b q s (planned - MessageReassembler.reserved_bytes r0) (MessageReassembler.priority r) Hr Hc ltac:(lia))
        as (q1 & ok & Hrf & Hch).
      change (reserve_for q (s <| incoming := FlatMap.write (incoming s) id r |>)) with (reserve_for q s). rewrite Hrf. run. run_chk.
      pose proof (reserve_release q (planned - MessageReassembler.reserved_bytes r0) ok q1 s Hc ltac:(lia) ltac:(lia) Hch) as Hrel.
      set (q2 := if ok then ReassemblyQuota.release q1 (planned - MessageReassembler.reserved_bytes r0) else q1) in *.
      destruct (drop_written_spec b q2 s id r0 r Hr) as (q3 & s3 & Hd & Hok3 & Hc3 & He3); [|done|done|].
      { destruct Hrel as (W & _ & U), Hc. split; [done|lia]. }
      assert (received_ok b q s q3 s3) as Hok.
      { destruct Hok3 as (? & Hch3 & ?). split_and!; [done| |done]. eapply charged_trans; [exact Hrel|exact Hch3|lia]. }
      destruct ok; cbn [negb orb]; [|rewrite Hd; run; eexists _, _, _, false; split; [done|]; split; [done|by split_and!]].
      destruct (Z.ltb_spec (max_per_session s) (incoming_buffer_size s + (planned - MessageReassembler.reserved_bytes r0))).
      * rewrite Hd. run. eexists _, _, _, false. split; [done|]. split; [done|by split_and!].
      * eexists _, _, _, true. split; [done|]. rewrite FlatMap.write_write.
        split_and!; [|done|done|intros _; eexists; cbn; rewrite Hget; split; [done|by split]]. 
        refine (Hwrite (incoming_buffer_size s + (planned - MessageReassembler.reserved_bytes r0)) q1 _ _ Hch); lia.
    + run_chk. eexists _, _, _, true. split; [done|]. rewrite FlatMap.write_write.
      split_and!; [|done|done|intros _; eexists; cbn; rewrite Hget; split; [done|by split]]. 
      refine (Hwrite (incoming_buffer_size s - (MessageReassembler.reserved_bytes r0 - planned)) _ _ _ _); [lia|lia|].
      replace (planned - MessageReassembler.reserved_bytes r0) with (- (MessageReassembler.reserved_bytes r0 - planned)) by lia.
      destruct Hc. apply charged_release; [done|lia].
Qed.

Lemma rinv_mono b b' s : b <= b' -> rinv b s -> rinv b' s.
Proof. intros Hb []. constructor; try assumption. intros n at_ Hn. specialize (ro_pending0 n at_ Hn). lia. Qed.

Lemma received_mono b b' q s q' s' : b <= b' -> received_ok b q s q' s' -> received_ok b' q s q' s'.
Proof. intros Hb (Hr & ? & ?). split_and!; [by eapply rinv_mono|done..]. Qed.

(** The pending negative acknowledgements after fragment [i] arrived. *)
Definition gap_nacks (l : list (Z * Instant)) (id i base : Z) (now : Instant) : list (Z * Instant) :=
  if base + 30 <? i then (FlatMap.insert l id (now - from_secs 1)).1
  else if base <? i then (FlatMap.or_insert l id now).1 else l.

Lemma note_gap_spec s id i base now :
  0 <= base <= MAX_FRAGMENTS_PER_MESSAGE ->
  note_gap s id i base now = Some (s <| pending_nacks := gap_nacks (pending_nacks s) id i base now |>).
Proof.
  intros Hb. unfold note_gap, gap_nacks, MAX_FRAGMENTS_PER_MESSAGE in *. run_chk.
  destruct (_ <? i); [done|]. destruct (base <? i); [done|]. by destruct s.
Qed.

Lemma count_pending_spec b s id now :
  0 <= b <= 2 ^ 62 -> rinv b s ->
  exists n at_, let m := (FlatMap.or_insert (pending_acks s) id (0, now)).1 in
    FlatMap.or_insert (pending_acks s) id (0, now) = (m, (n, at_)) /\ chk_usize (n + 1) = Some (n + 1) /\
    rinv (b + 1) (s <| pending_acks := FlatMap.write m id (n + 1, at_) |>).
Proof.
  intros Hb Hr. destruct (FlatMap.or_insert_spec (pending_acks s) id (0, now)) as (Hg & _ & _).
  destruct (FlatMap.or_insert (pending_acks s) id (0, now)) as [m [n at_]] eqn:E. cbn [fst snd] in *.
  assert (forall x, x ∈ FlatMap.values m -> 0 <= x.1 <= b + 2) as Hm.
  { intros x Hx. pose proof (FlatMap.values_or_insert_elem (pending_acks s) id (0, now) x) as Hv. rewrite E in Hv.
    destruct (Hv Hx) as [->|Hin]; [cbn; lia|]. destruct x. by apply (ro_pending _ _ _ _ _ _ _ Hr) in Hin. }
  pose proof (Hm _ (FlatMap.get_values _ _ _ Hg)) as Hn. cbn in Hn.
  exists n, at_. split_and!; [done|by run_chk|]. destruct Hr. constructor; try assumption. cbn.
  intros k a [[= -> ->]|Hk]%FlatMap.values_write_elem; [lia|]. apply Hm in Hk. cbn in Hk. lia.
Qed.

(** The fragments of [r] with [d] added at [i] unless there is one. *)
Definition with_fragment (r : MessageReassembler.t) (i : Z) (d : bytes) (j : Z) : option bytes :=
  if decide (j = i) then Some (default d (MessageReassembler.received r i)) else MessageReassembler.received r j.

Lemma process_fragment_spec b q s id r i d now :
  0 <= b <= 2 ^ 62 -> rinv b s -> covered q s -> FlatMap.get (incoming s) id = Some r -> 0 <= i -> len d <= 2 ^ 40 ->
  genuine id (MessageReassembler.total_fragments r) i d ->
  exists q' s' ps, process_fragment q s id i d now = Some (q', s', ps) /\ received_ok (b + 1) q s q' s' /\
    (events s' = events s \/
     exists fs, events s' = events s ++ completion id (concat fs) /\ len fs = MessageReassembler.total_fragments r /\
       forall j x, idx fs j = Some x <-> with_fragment r i d j = Some x).
Proof.
  intros Hb Hr Hc Hg Hi Hd Hgen. unfold process_fragment. rewrite Hg. run.
  destruct (ro_incoming _ _ _ _ _ _ _ Hr id r Hg) as [Hwf Hid Hmem Hio].
  destruct (MessageReassembler.reassembler_add_spec r i d now Hwf Hi) as (r' & res & -> & Hwf' & Hid' & Htot & _ & Hres & _ & Hcase);
    [unfold isize_max; lia|]. run. destruct res as [complete|e].
  2: { destruct (drop_written_spec b q s id r r' Hr Hc Hg Hres) as (q1 & s1 & -> & Hok & _ & He). run.
       eexists _, _, _. split; [done|]. split; [eapply received_mono; [|done]; lia|by left]. }
  destruct Hcase as (Hlt & -> & Hri & Hrj).
  assert (forall j, MessageReassembler.received r' j = with_fragment r i d j) as Hrec.
  { intros j. unfold with_fragment. case_decide; [by subst|by apply Hrj]. }
  pose proof (FragmentBuffer.wf_base _ (MessageReassembler.wf_buffer _ Hwf')) as Hbase.
  rewrite (MessageReassembler.wf_total_eq _ Hwf') in Hbase. pose proof (MessageReassembler.wf_total_pos _ Hwf').
  rewrite note_gap_spec by lia. cbn [pending_nacks set_field].
  set (nacks := gap_nacks _ _ _ _ _).
  change (s <| incoming := FlatMap.write (incoming s) id r' |> <| pending_nacks := nacks |>)
    with (s <| pending_nacks := nacks |> <| incoming := FlatMap.write (incoming (s <| pending_nacks := nacks |>)) id r' |>).
  run. set (s0 := s <| pending_nacks := nacks |>). assert (rinv b s0) as Hr0 by exact Hr.
  destruct (adjust_reservation_spec b q s0 id r r' Hr0 Hc Hg Hwf') as (q1 & s1 & ps & kept & Hadj & Hok & _ & He & Hkept);
    [congruence|done| |].
  { intros j x. rewrite Hrec, Htot. unfold with_fragment. case_decide; [subst j|apply Hio]. intros [= <-].
    destruct (MessageReassembler.received r i) eqn:E; cbn; [by apply Hio|done]. }
  rewrite Hadj. run. assert (received_ok b q s q1 s1) as Hok' by exact Hok.
  assert (covered q1 s1) as Hc1 by (eapply received_covered; [exact Hc|exact Hok']). assert (events s1 = events s) as He' by exact He.
  destruct kept; cbn [negb]; [|eexists _, _, _; split; [done|]; split; [eapply received_mono; [|exact Hok']; lia|by left]].
  destruct (Hkept eq_refl) as (r1 & Hg1 & Hbuf1 & Htot1).
  destruct (FragmentBuffer.is_complete (MessageReassembler.buffer r')) eqn:Ecomp.
  - destruct (complete_message_spec b q1 s1 id r1 now) as (q2 & s2 & fs & -> & Hok2 & Hfs & Hlen & He2 & _);
      [lia|apply Hok'|done|done|by rewrite Hbuf1|]. run. eexists _, _, _. split; [done|]. split.
    + eapply received_mono; [|eapply received_trans; done]. lia.
    + right. exists fs. rewrite He2, He'. split_and!; [done|congruence|]. intros j x. rewrite Hfs, <- Hrec.
      unfold MessageReassembler.received. by rewrite Hbuf1.
  - destruct (count_pending_spec b s1 id now Hb ltac:(apply Hok')) as (n & at_ & Hor & Hchk & Hr2).
    rewrite Hor. run. rewrite Hchk. run. eexists _, _, _. split; [done|]. split; [|by left].
    destruct Hok' as (_ & Hch & Hss). split_and!; [exact Hr2|exact Hch|exact Hss].
Qed.

(** A data packet: the receiving half stays sound whatever it carries, the
    quota is charged with the change of the reservation, and the only event is
    the delivery of the message the packet completes. *)
Lemma handle_data_packet_spec b q s id i total d now :
  0 <= b <= 2 ^ 62 -> rinv b s -> covered q s -> in_u 16 i -> in_u 16 total -> len d <= 2 ^ 40 -> genuine id total i d ->
  exists q' s' ps, handle_data_packet q s id i total d now = Some (q', s', ps) /\ received_ok (b + 1) q s q' s'.
Proof.
  intros Hb Hr Hc Hi Ht Hd Hgen. unfold handle_data_packet.
  assert (received_ok (b + 1) q s q s) as Hrefl by (apply received_refl; [eapply rinv_mono; [|done]; lia|done]).
  destruct (check_completed_message q s id); [by eexists _, _, _|].
  destruct (is_ancient_message s id); [by eexists _, _, _|]. pose proof (len_nonneg d).
  destruct (ensure_reassembler_spec b q s id (if i =? 0 then peek_message_type d else None) total (len d) now Hr Hc Ht ltac:(lia))
    as (q1 & s1 & ps & ok & -> & Hok & _ & _ & Hex). run.
  destruct ok; cbn [negb]; [|eexists _, _, _; split; [done|]; eapply received_mono; [|done]; lia].
  destruct (Hex eq_refl) as (r & Hg & Htot). unfold in_u in Hi.
  destruct (process_fragment_spec b q1 s1 id r i d now) as (q2 & s2 & ps2 & -> & Hok2 & _);
    [done|apply Hok|by eapply received_covered|done|lia|done|by rewrite Htot|]. run.
  eexists _, _, _. split; [done|]. eapply received_trans; [|done]. eapply received_mono; [|done]. lia.
Qed.

End Receive.
End Receiving.
