(* ===== verification/SessionSend.v ===== *)
(** The sending half of a session: acknowledgements, negative acknowledgements
    and new messages.

    [sender_ok] is the invariant of the sending state.  It says that every
    outgoing message is sound and scheduled exactly once, that the session's
    count of bytes in flight is the sum over its messages of the fragments in
    flight, and that the estimator and the congestion controller are sound. *)

From S2P Require Import Prelude Bitset FlatMaps Protocol Quota Reassembly Float32 F32Theory Rtt Outgoing Scheduler Congestion CongestionLaws Session.
#[local] Open Scope Z_scope.
#[local] Open Scope list_scope.

Module Sending.
Import SequenceSession.

(** What processing one packet may add to the counters of the controller. *)
Definition STEP : Z := 2 ^ 27.

(** An acknowledgement may name a fragment that was never sent, and a probe may
    then send it after all.  Such a fragment is counted as in flight when the
    message completes, so the session's count is exact only as long as this does
    not happen ([strict]); otherwise it is an upper bound. *)
Section Strict.
Context (strict : bool).

(** *** Messages *)

Record outgoing_ok (total : Z) (m : OutgoingMessage.t) : Prop := {
  oo_wf : OutgoingMessage.wf m;
  oo_clean : strict = true -> OutgoingMessage.clean m;
  oo_delivered : OutgoingMessage.delivered_ok total m;
  oo_times info : OutgoingMessage.info_in (OutgoingMessage.fragment_states m) info -> 0 <= first_sent_time info;
  oo_mtu : OutgoingMessage.payload_mtu m = MAX_TOX_PACKET_SIZE - PACKET_OVERHEAD;
  oo_size : len (OutgoingMessage.data m) <= MAX_MESSAGE_SIZE
}.

Lemma delivered_mono total total' m : total <= total' -> OutgoingMessage.delivered_ok total m -> OutgoingMessage.delivered_ok total' m.
Proof. intros Hle Hd i s info Hs Hi. specialize (Hd i s info Hs Hi). lia. Qed.

Lemma outgoing_mono total total' m : total <= total' -> outgoing_ok total m -> outgoing_ok total' m.
Proof. intros Hle []. constructor; try assumption. by eapply delivered_mono. Qed.

(** The fragments of a message of the session hold less than [STEP / 2] bytes. *)
Lemma fragments_bound total m :
  outgoing_ok total m -> 0 <= OutgoingMessage.num_fragments m * OutgoingMessage.payload_mtu m <= 2 ^ 20 + 1353.
Proof.
  intros Hm. pose proof (OutgoingMessage.core_sized m (proj1 (oo_wf _ _ Hm))) as (_ & Hn & Hb).
  pose proof (oo_mtu _ _ Hm) as Hmtu. pose proof (oo_size _ _ Hm) as Hs. rewrite Hmtu in *.
  unfold MAX_TOX_PACKET_SIZE, PACKET_OVERHEAD, MAX_MESSAGE_SIZE in *.
  pose proof (div_ceil_spec (len (OutgoingMessage.data m)) (1373 - 20) ltac:(lia)). lia.
Qed.

Lemma flight_bytes_bounds total m : outgoing_ok total m -> 0 <= OutgoingMessage.flight_bytes m <= 2 ^ 21.
Proof.
  intros Hm. pose proof (fragments_bound total m Hm) as Hb. pose proof (OutgoingMessage.core_sized m (proj1 (oo_wf _ _ Hm))) as Hs.
  assert (forall i, i ∈ zrange 0 (OutgoingMessage.num_fragments m) ->
    0 <= (if OutgoingMessage.sent m i then OutgoingMessage.flen m i else 0) <= OutgoingMessage.payload_mtu m) as Hf.
  { intros i Hi%elem_of_zrange. pose proof (OutgoingMessage.flen_bounds m i Hs Hi). destruct (OutgoingMessage.sent m i); lia. }
  unfold OutgoingMessage.flight_bytes. split; [apply zsum_nonneg; intros; by apply Hf|].
  etrans; [apply (zsum_le _ (OutgoingMessage.payload_mtu m)); intros; by apply Hf|]. destruct Hs as (_ & _ & ?). rewrite len_zrange; lia.
Qed.

(** A message whose fragments are all acknowledged has none in flight. *)
Lemma all_acked_flight total m :
  strict = true -> outgoing_ok total m -> OutgoingMessage.all_acked m = true -> OutgoingMessage.flight_bytes m = 0.
Proof.
  intros Hst Hm Ha%Z.eqb_eq. pose proof (proj1 (oo_wf _ _ Hm)) as Hcore. rewrite (OutgoingMessage.core_count m Hcore) in Ha.
  pose proof (proj2 (proj2 (OutgoingMessage.core_sized m Hcore))).
  assert (len (zrange 0 (OutgoingMessage.num_fragments m)) = OutgoingMessage.num_fragments m) as Hlen by (rewrite len_zrange; lia).
  rewrite <- Hlen in Ha at 2. rewrite count_if_all in Ha. unfold OutgoingMessage.flight_bytes. rewrite (zsum_ext _ (fun _ => 0)); [apply zsum_zero|].
  intros i Hi. assert (0 <= i) by (apply elem_of_zrange in Hi; lia). by rewrite (oo_clean _ _ Hm Hst) by auto.
Qed.

(** *** Negative acknowledgements *)

Lemma flight_unsend m i s :
  OutgoingMessage.core m -> idx (OutgoingMessage.fragment_states m) i = Some s ->
  OutgoingMessage.flight_bytes (OutgoingMessage.unsend m i s) =
  OutgoingMessage.flight_bytes m - (if OutgoingMessage.sent m i then OutgoingMessage.flen m i else 0).
Proof.
  intros Hcore Hs. pose proof (idx_lt _ _ _ Hs) as Hi. rewrite (OutgoingMessage.core_states m Hcore) in Hi.
  unfold OutgoingMessage.flight_bytes.
  rewrite (zsum_update (fun j => if OutgoingMessage.sent m j then OutgoingMessage.flen m j else 0) _ 0 _ i); [|done|].
  - change (OutgoingMessage.num_fragments (OutgoingMessage.unsend m i s)) with (OutgoingMessage.num_fragments m). rewrite (OutgoingMessage.sent_unsend m i s i), Z.eqb_refl by (done || lia). cbn [negb andb]. cbv beta iota. lia.
  - intros j Hj Hne. rewrite (OutgoingMessage.sent_unsend m i s j), (proj2 (Z.eqb_neq j i)) by (done || lia). done.
Qed.

(** The invariant of the loop: as in the processing of an acknowledgement, the
    queue in flight also lists the fragments marked for removal. *)
Record nack_ok (m : OutgoingMessage.t) (remove : BitSet.t) (cleanup : bool) : Prop := {
  no_core : OutgoingMessage.core m;
  no_rq : OutgoingMessage.rq_unacked m;
  no_remove : BitSet.wf remove;
  no_words : BitSet.N remove = Z.of_nat BITSET_WORDS;
  no_flight : OutgoingMessage.flight_split (OutgoingMessage.in_flight_queue m) (OutgoingMessage.sent m) remove cleanup
}.

(** What the loop leaves alone. *)
Definition nack_frame (m m' : OutgoingMessage.t) : Prop :=
  OutgoingMessage.static m m' /\ OutgoingMessage.acked_bitset m' = OutgoingMessage.acked_bitset m /\
  OutgoingMessage.acked_count m' = OutgoingMessage.acked_count m /\
  OutgoingMessage.derived (OutgoingMessage.fragment_states m) (OutgoingMessage.fragment_states m').

#[global] Instance nack_frame_preorder : PreOrder nack_frame.
Proof.
  split; [intros m; split_and!; [done|done|done|reflexivity]|]. intros m1 m2 m3 (S1 & A1 & C1 & D1) (S2 & A2 & C2 & D2).
  split_and!; [by etrans|congruence|congruence|by etrans].
Qed.

Lemma nack_indices_spec ids m flight remove cleanup triggered :
  nack_ok m remove cleanup -> OutgoingMessage.flight_bytes m <= flight -> (forall i, i ∈ ids -> 0 <= i) ->
  exists m' flight' remove' cleanup' triggered',
    nack_indices m flight remove cleanup triggered ids = Some (m', flight', remove', cleanup', triggered') /\
    nack_ok m' remove' cleanup' /\ nack_frame m m' /\
    flight' = flight - (OutgoingMessage.flight_bytes m - OutgoingMessage.flight_bytes m').
Proof.
  revert m flight remove cleanup triggered. induction ids as [|i ids IH]; intros m flight remove cleanup triggered Hm Hfl Hids; cbn [nack_indices].
  { eexists _, _, _, _, _. split; [done|]. split_and!; [done|done|lia]. }
  assert (0 <= i) as Hi by (apply Hids; left). assert (forall j, j ∈ ids -> 0 <= j) as Hids' by (intros j Hj; apply Hids; by right).
  unfold OutgoingMessage.is_acked at 1. destruct (Z.leb_spec (OutgoingMessage.num_fragments m) i) as [Hge|Hlt]; [by apply IH|].
  destruct (BitSet.get (OutgoingMessage.acked_bitset m) i) eqn:Ea; [by apply IH|].
  pose proof Hm as [Hcore Hrq Hwf HN Hsplit]. destruct (OutgoingMessage.state_at m i Hcore ltac:(lia)) as [st Hst].
  rewrite Hst. run. rewrite upd_ok by (rewrite (OutgoingMessage.core_states m Hcore); lia). run.
  change (m <| OutgoingMessage.fragment_states := <[Z.to_nat i:=st <| last_sent := None |>]> (OutgoingMessage.fragment_states m) |>)
    with (OutgoingMessage.unsend m i st).
  pose proof (OutgoingMessage.core_sized m Hcore) as Hsz. pose proof (OutgoingMessage.flen_bounds m i Hsz ltac:(lia)) as Hlen.
  pose proof (proj2 (proj2 Hsz)) as Hmax. unfold MAX_FRAGMENTS_PER_MESSAGE in Hmax.
  assert (match last_sent st with
    | Some _ => n ← OutgoingMessage.fragment_len (OutgoingMessage.unsend m i st) i;
                let '(remove, fresh) := BitSet.set remove i in Some (sat_sub flight n, remove, if (fresh : bool) then true else cleanup)
    | None => Some (flight, remove, cleanup) end =
    Some (flight - (if OutgoingMessage.sent m i then OutgoingMessage.flen m i else 0),
      (if OutgoingMessage.sent m i then (BitSet.set remove i).1 else remove),
      (if OutgoingMessage.sent m i then true else cleanup))) as ->.
  { rewrite (OutgoingMessage.sent_state _ _ _ Hst). destruct (last_sent st) as [at_|] eqn:El;
      [rewrite bool_decide_true by eauto|rewrite bool_decide_false by (by intros [? ?]); do 3 f_equal; lia].
    assert (OutgoingMessage.sent m i = true) as Hsent by (by rewrite (OutgoingMessage.sent_state _ _ _ Hst), El).
    change (OutgoingMessage.fragment_len (OutgoingMessage.unsend m i st) i) with (OutgoingMessage.fragment_len m i).
    rewrite OutgoingMessage.fragment_len_ok by (done || lia). run.
    destruct (OutgoingMessage.set16 remove i Hwf HN ltac:(lia)) as (_ & _ & Hfresh & _).
    destruct Hsplit as (_ & F2 & _). rewrite F2 in Hfresh by done. destruct (BitSet.set remove i) as [rm fresh]. cbn in *. subst fresh. cbn.
    assert (OutgoingMessage.flen m i <= OutgoingMessage.flight_bytes m).
    { pose proof (zsum_elem (fun j => if OutgoingMessage.sent m j then OutgoingMessage.flen m j else 0)
        (zrange 0 (OutgoingMessage.num_fragments m)) i) as Hel. cbv beta in Hel. rewrite Hsent in Hel. apply Hel; [|apply elem_of_zrange; lia].
      intros j Hj%elem_of_zrange. pose proof (OutgoingMessage.flen_bounds m j Hsz Hj). destruct (OutgoingMessage.sent m j); lia. }
    unfold sat_sub. do 3 f_equal. lia. }
  run. set (m1 := if BitSet.get _ i then _ else _).
  assert (m1 = if BitSet.get (OutgoingMessage.retransmit_bitset m) i then OutgoingMessage.unsend m i st else OutgoingMessage.with_loss m i st) as Hm1 by done.
  assert (OutgoingMessage.core m1 /\ nack_frame m m1 /\ OutgoingMessage.rq_unacked m1 /\
    (forall j, 0 <= j -> OutgoingMessage.sent m1 j = negb (j =? i) && OutgoingMessage.sent m j) /\
    OutgoingMessage.flight_bytes m1 = OutgoingMessage.flight_bytes (OutgoingMessage.unsend m i st)) as (Hcore1 & Hfr1 & Hrq1 & Hsent1 & Hfb1).
  { assert (OutgoingMessage.derived (OutgoingMessage.fragment_states m) (OutgoingMessage.fragment_states (OutgoingMessage.unsend m i st))) as Hder.
    { eapply OutgoingMessage.derived_upd; [exact Hst|]. apply upd_ok. rewrite (OutgoingMessage.core_states m Hcore). lia. }
    rewrite Hm1. destruct (BitSet.get (OutgoingMessage.retransmit_bitset m) i) eqn:Erb.
    - split_and!; [by apply OutgoingMessage.core_unsend|by split_and!|done|intros; by apply OutgoingMessage.sent_unsend|done].
    - split_and!; [by apply OutgoingMessage.core_with_loss|by split_and!| |intros; by apply (OutgoingMessage.sent_unsend m)|done].
      cbn. intros j [Hj| ->]%elem_of_snoc; [by apply Hrq|exact Ea]. }
  assert (nack_ok m1 (if OutgoingMessage.sent m i then (BitSet.set remove i).1 else remove)
    (if OutgoingMessage.sent m i then true else cleanup)) as Hok1.
  { destruct (OutgoingMessage.set16 remove i Hwf HN ltac:(lia)) as (B1 & B2 & _ & _).
    constructor; [done|done|by destruct (OutgoingMessage.sent m i)|by destruct (OutgoingMessage.sent m i)|].
    destruct Hfr1 as ((_ & _ & _ & -> & _) & _). by apply OutgoingMessage.flight_take; [|done|done|lia|]. }
  rewrite (flight_unsend m i st Hcore Hst) in Hfb1.
  destruct (IH m1 (flight - (if OutgoingMessage.sent m i then OutgoingMessage.flen m i else 0)) _ _ true Hok1 ltac:(lia) Hids')
    as (m2 & fl2 & rm2 & cl2 & tr2 & -> & Hok2 & Hfr2 & ->).
  eexists _, _, _, _, _. split; [done|]. split_and!; [done|by etrans|lia].
Qed.

(** The whole handling of a negative acknowledgement on one message. *)
Definition unqueue (m : OutgoingMessage.t) (remove : BitSet.t) (cleanup : bool) : OutgoingMessage.t :=
  if cleanup then m <| OutgoingMessage.in_flight_queue :=
    List.filter (fun p => negb (BitSet.get remove p.1)) (OutgoingMessage.in_flight_queue m) |> else m.

Lemma unqueue_flight m remove cleanup :
  nack_ok m remove cleanup -> OutgoingMessage.flight_ok (unqueue m remove cleanup) /\ OutgoingMessage.core (unqueue m remove cleanup).
Proof.
  intros [Hcore _ _ _ (F1 & F2 & F3)]. unfold unqueue. destruct cleanup.
  - split.
    + intros i Hi. cbn [OutgoingMessage.in_flight_queue set_field].
      rewrite (OutgoingMessage.in_queue_filter (fun j => negb (BitSet.get remove j))), F1 by done. specialize (F2 i Hi).
      change (OutgoingMessage.sent (m <| OutgoingMessage.in_flight_queue := List.filter (fun p => negb (BitSet.get remove p.1)) (OutgoingMessage.in_flight_queue m) |>) i)
        with (OutgoingMessage.sent m i).
      destruct (OutgoingMessage.sent m i), (BitSet.get remove i); cbn; auto; symmetry; by apply F2.
    + apply OutgoingMessage.core_queue_subset; [done|]. intros p. rewrite list_elem_of_In, List.filter_In, <- list_elem_of_In. by intros [? _].
  - split; [|done]. intros i Hi. rewrite F1, F3 by done. apply orb_false_r.
Qed.

Lemma outgoing_derived total m m' :
  outgoing_ok total m -> OutgoingMessage.wf m' ->
  OutgoingMessage.data m' = OutgoingMessage.data m -> OutgoingMessage.payload_mtu m' = OutgoingMessage.payload_mtu m ->
  (strict = true -> OutgoingMessage.clean m') -> OutgoingMessage.delivered_ok total m' ->
  OutgoingMessage.derived (OutgoingMessage.fragment_states m) (OutgoingMessage.fragment_states m') ->
  outgoing_ok total m'.
Proof.
  intros [] Hwf' D1 D2 Hcl' Hd' Hder. constructor; [done..| |congruence|congruence].
  intros info Hi. eauto using OutgoingMessage.derived_info.
Qed.

Lemma frame_clean total m m' :
  nack_frame m m' -> outgoing_ok total m -> (strict = true -> OutgoingMessage.clean m') /\ OutgoingMessage.delivered_ok total m'.
Proof.
  intros (_ & Ha & _ & Hder) [_ Hcl Hd _ _ _]. split.
  - intros Hst i Hi. unfold OutgoingMessage.acked. rewrite Ha. intros Hai. specialize (Hcl Hst i Hi Hai).
    destruct (OutgoingMessage.sent m' i) eqn:E; [|done]. by rewrite (OutgoingMessage.derived_sent _ _ _ Hder E) in Hcl.
  - intros i st info Hst Hi. destruct (OutgoingMessage.derived_info _ _ info Hder) as (j & st0 & Hst0 & Hi0); [by exists i, st|].
    by eapply Hd.
Qed.

Lemma nack_message total m flight ids :
  outgoing_ok total m -> OutgoingMessage.flight_bytes m <= flight -> (forall i, i ∈ ids -> 0 <= i) ->
  exists m1 flight' remove cleanup triggered,
    nack_indices m flight (BitSet.new BITSET_WORDS) false false ids = Some (m1, flight', remove, cleanup, triggered) /\
    outgoing_ok total (unqueue m1 remove cleanup) /\
    flight' = flight - (OutgoingMessage.flight_bytes m - OutgoingMessage.flight_bytes (unqueue m1 remove cleanup)).
Proof.
  intros Hm Hfl Hids. pose proof Hm as [(Hcore & Hcum & Hf & Hrq) _ _ _ _ _].
  destruct (BitSet.new_spec BITSET_WORDS) as (N1 & N2 & N3).
  assert (nack_ok m (BitSet.new BITSET_WORDS) false) as Hok.
  { constructor; try done. split_and!; [|intros; by apply N3..]. intros i Hi. by rewrite N3, orb_false_r, Hf. }
  destruct (nack_indices_spec ids m flight _ _ false Hok Hfl Hids) as (m1 & fl & rm & cl & tr & -> & Hok1 & Hfr & ->).
  eexists _, _, _, _, _. split; [done|]. destruct (unqueue_flight m1 rm cl Hok1) as [Hfo Hco].
  pose proof Hfr as ((D1 & D2 & D3 & D4 & D5 & D6) & Ha & Hc & Hder). destruct (frame_clean total m m1 Hfr Hm) as [Hcl1 Hd1].
  split; [|by unfold unqueue; destruct cl].
  apply (outgoing_derived total m); [done| |by unfold unqueue; destruct cl..].
  split_and!; [done| |done|unfold unqueue; destruct cl; apply (no_rq _ _ _ Hok1)].
  assert (OutgoingMessage.cumulative m1) as Hcum1.
  { intros i Hi Hlt. unfold OutgoingMessage.acked. rewrite Ha. rewrite D3 in Hlt. rewrite D6 in Hi. by apply Hcum. }
  unfold unqueue. by destruct cl.
Qed.

(** The handling of an acknowledgement on one message. *)
Lemma ack_message total m base bitmask now :
  outgoing_ok total m -> 0 <= total <= 2 ^ 62 -> in_u 16 base -> in_u 64 bitmask -> 0 <= now <= RttEstimator.HORIZON ->
  exists m' r, OutgoingMessage.on_ack m base bitmask now total = Some (m', r) /\ outgoing_ok total m' /\
    OutgoingMessage.flight_bytes m' + newly_completed_in_flight_bytes r = OutgoingMessage.flight_bytes m /\
    0 <= newly_completed_in_flight_bytes r /\ 0 <= newly_delivered_bytes r <= 2 ^ 20 + 1353 /\
    (forall x, Outgoing.min_rtt r = Some x -> 0 <= x <= RttEstimator.HORIZON) /\
    (forall d t0 rate lim, delivery_sample r = Some (d, t0, rate, lim) -> 0 <= d <= total).
Proof.
  intros Hm Ht Hb Hmask Hnow. pose proof Hm as [Hwf Hcl Hd Htm Hmtu Hsz]. assert (0 <= base <= u16_max) as Hb' by (unfold in_u, u16_max in *; lia).
  destruct (OutgoingMessage.on_ack_spec m base bitmask now total Hwf Hd Ht Hb' Hmask) as (m' & r & Heq & [A1 A2 A3 A4 A5] & Hd' & Hn).
  destruct (OutgoingMessage.on_ack_from _ _ _ _ _ _ _ Heq) as (Hder & [Hrtt Hsam] & _).
  pose proof (fragments_bound total m Hm). exists m', r. split; [done|]. split_and!; [|done|done|lia|lia| |].
  - destruct A2 as (? & ? & _). apply (outgoing_derived total m); try done. intros Hst.
    exact (OutgoingMessage.on_ack_clean m base bitmask now total m' r Hwf Hd Ht Hb' Hmask (Hcl Hst) Heq).
  - intros x (info & Hi & ->)%Hrtt. apply Htm in Hi. unfold since, sat_sub. lia.
  - intros d t0 rate lim (info & (i & st & Hst & Hi) & ->)%Hsam. by eapply Hd.
Qed.

(** *** The sending state of a session *)

Section Send.
Context {C : Type} `{CongestionLaws C} {Rng : Type} `{RandSource Rng} `{EnvelopeCodec}.

Abbreviation session := (SequenceSession.t C Rng).
Implicit Types s : session.

(** A message id waits in some queue of the scheduler. *)
Definition scheduled (sch : PriorityScheduler.t) (id : Z) : Prop :=
  exists p, 0 <= p < 5 /\ id ∈ PriorityScheduler.queue sch p.

(** By how much the count of bytes in flight may be too high. *)
Definition slack (b : Z) : Z := if strict then 0 else b.

Lemma slack_le b b' : 0 <= b <= b' -> 0 <= slack b <= slack b' /\ slack b <= b.
Proof. unfold slack. destruct strict; lia. Qed.

Record sender_ok (b : Z) (outs : list (Z * OutgoingMessage.t)) (sch : PriorityScheduler.t) (est : RttEstimator.t)
    (cc : C) (flight total : Z) (ping : option Instant) : Prop := {
  so_nodup : NoDup (FlatMap.keys outs);
  so_len : FlatMap.len outs <= MAX_CONCURRENT_OUTGOING;
  so_out id m : FlatMap.get outs id = Some m -> outgoing_ok total m;
  so_sched : PriorityScheduler.wf sch;
  so_scheduled id : scheduled sch id <-> is_Some (FlatMap.get outs id);
  so_rtt : RttEstimator.wf est;
  so_cc : good b cc;
  so_flight : zsum OutgoingMessage.flight_bytes (FlatMap.values outs) <= flight <=
    zsum OutgoingMessage.flight_bytes (FlatMap.values outs) + slack b;
  so_total : 0 <= total <= b;
  so_ping x : ping = Some x -> 0 <= x
}.

Definition sinv (b : Z) s : Prop :=
  sender_ok b (outgoing s) (scheduler s) (rtt s) (congestion_control s) (in_flight s) (delivered_bytes s) (last_ping_sent s).

Section Map.
Context {b : Z} {outs : list (Z * OutgoingMessage.t)} {sch : PriorityScheduler.t} {est : RttEstimator.t}
    {cc : C} {flight total : Z} {ping : option Instant} (Hok : sender_ok b outs sch est cc flight total ping).

Lemma value_ok m : m ∈ FlatMap.values outs -> outgoing_ok total m.
Proof using Hok. intros Hm. apply FlatMap.elem_values in Hm as [id Hid]; [|apply Hok]. by eapply (so_out _ _ _ _ _ _ _ _ Hok). Qed.

Lemma flight_sum_bounds : 0 <= zsum OutgoingMessage.flight_bytes (FlatMap.values outs) <= 2 ^ 26.
Proof using Hok.
  split.
  - apply zsum_nonneg. intros m Hm. by apply (flight_bytes_bounds total), value_ok.
  - etrans; [apply (zsum_le _ (2 ^ 21)); intros m Hm; by apply (flight_bytes_bounds total), value_ok|].
    pose proof (so_len _ _ _ _ _ _ _ _ Hok) as Hl. unfold FlatMap.len, MAX_CONCURRENT_OUTGOING, MIN_TRANSPORT_SLOTS in Hl.
    unfold FlatMap.values, len in *. rewrite length_fmap. lia.
Qed.

Lemma flight_bounds : 0 <= flight <= 2 ^ 26 + b.
Proof using Hok.
  pose proof flight_sum_bounds. pose proof (so_flight _ _ _ _ _ _ _ _ Hok). pose proof (so_total _ _ _ _ _ _ _ _ Hok).
  pose proof (slack_le b b ltac:(lia)). lia.
Qed.

Lemma flight_elem id m : FlatMap.get outs id = Some m -> OutgoingMessage.flight_bytes m <= flight.
Proof using Hok.
  intros Hm. etrans; [|apply (so_flight _ _ _ _ _ _ _ _ Hok)]. apply zsum_elem; [|by eapply FlatMap.get_values].
  intros y Hy. by apply (flight_bytes_bounds total), value_ok.
Qed.

Lemma sender_mono b' total' : b <= b' -> total <= total' <= b' -> sender_ok b' outs sch est cc flight total' ping.
Proof using Hok.
  intros Hb Ht. pose proof Hok as []. pose proof (slack_le b b' ltac:(lia)). constructor; try assumption.
  - intros id m Hm. eapply outgoing_mono; [|eauto]. lia.
  - by eapply good_mono.
  - lia.
  - lia.
Qed.

(** Bytes that stay counted although their message is gone. *)
Lemma sender_leak x :
  0 <= x <= 2 ^ 21 -> (strict = true -> x = 0) -> sender_ok (b + 2 ^ 21) outs sch est cc (flight + x) total ping.
Proof using Hok.
  intros Hx Hst. pose proof (so_total _ _ _ _ _ _ _ _ Hok). destruct (sender_mono (b + 2 ^ 21) total ltac:(lia) ltac:(lia)).
  constructor; try assumption. pose proof (so_flight _ _ _ _ _ _ _ _ Hok) as Hf. unfold slack in *. destruct strict; [specialize (Hst eq_refl)|]; lia.
Qed.

(** Replacing a message by one with another amount in flight. *)
Lemma sender_write id m0 m :
  FlatMap.get outs id = Some m0 -> outgoing_ok total m ->
  sender_ok b (FlatMap.write outs id m) sch est cc
    (flight - OutgoingMessage.flight_bytes m0 + OutgoingMessage.flight_bytes m) total ping.
Proof using Hok.
  intros Hg Hm. pose proof Hok as []. constructor; try assumption.
  - by rewrite FlatMap.keys_write.
  - by rewrite FlatMap.len_write.
  - intros j x. rewrite FlatMap.get_write. case_decide as E; [|eauto]. subst j. rewrite Hg. cbn. naive_solver.
  - intros j. rewrite so_scheduled0, FlatMap.get_write. case_decide as E; [|done]. subst j. rewrite Hg. cbn. split; eauto.
  - rewrite (FlatMap.zsum_write _ _ _ _ m0) by done. lia.
Qed.

(** Taking a message out that has nothing in flight. *)
Lemma sender_remove id m0 :
  FlatMap.get outs id = Some m0 ->
  exists sch', PriorityScheduler.remove_message sch id = Some sch' /\
    sender_ok b (FlatMap.remove outs id).1 sch' est cc (flight - OutgoingMessage.flight_bytes m0) total ping.
Proof using Hok.
  intros Hg. pose proof Hok as []. destruct (PriorityScheduler.remove_message_spec sch id so_sched0) as (sch' & Hrem & Hwf & Hq).
  exists sch'. split; [done|]. constructor; try assumption.
  - by apply FlatMap.NoDup_remove.
  - pose proof (FlatMap.len_remove_le outs id). lia.
  - intros j x. rewrite FlatMap.get_remove by done. case_decide; [done|eauto].
  - intros j. rewrite FlatMap.get_remove by done.
    assert (scheduled sch' j <-> j <> id /\ scheduled sch j) as ->.
    { split.
      - intros (p & Hp & Hj). rewrite Hq in Hj by done. split; [tauto|]. exists p. tauto.
      - intros (Hne & p & Hp & Hj). exists p. split; [done|]. apply Hq; tauto. }
    rewrite so_scheduled0. case_decide; [subst; split; [by intros [? _]|by intros [? ?]]|]. split; [tauto|]. split; [congruence|done].
  - rewrite (FlatMap.zsum_remove _ _ _ m0) by done. lia.
Qed.

End Map.
(** The state of the receiving half is untouched, except for events. *)
Definition same_receiver s s' : Prop :=
  incoming s' = incoming s /\ incoming_buffer_size s' = incoming_buffer_size s /\ max_per_session s' = max_per_session s /\
  completed_incoming s' = completed_incoming s /\ pending_acks s' = pending_acks s /\ pending_nacks s' = pending_nacks s /\
  highest_received_id s' = highest_received_id s.

#[global] Instance same_receiver_preorder : PreOrder same_receiver.
Proof. split; [intros s; by split_and!|]. intros s1 s2 s3. unfold same_receiver. intuition congruence. Qed.

Lemma final_sample_spec s r now total :
  0 <= total <= delivered_bytes s -> delivered_bytes s <= 2 ^ 63 ->
  (forall d t0 rate lim, delivery_sample r = Some (d, t0, rate, lim) -> 0 <= d <= total) ->
  exists sample, final_sample s r now = Some sample.
Proof.
  intros Ht Hb Hd. unfold final_sample. destruct (delivery_sample r) as [[[[d t0] rate] lim]|]; [|by eexists].
  specialize (Hd d t0 rate lim eq_refl). run_chk. by eexists.
Qed.

Lemma handle_ack_packet_spec b s ack now :
  sinv b s -> b + STEP <= 2 ^ 62 -> 0 <= now <= RttEstimator.HORIZON ->
  in_u 16 (ack_base_index ack) -> in_u 64 (ack_bitmask ack) -> in_u 16 (ack_rwnd ack) ->
  exists s', handle_ack_packet s ack now = Some s' /\ sinv (b + STEP) s' /\ same_receiver s s' /\
    peer_rwnd s' = ack_rwnd ack * ESTIMATED_PAYLOAD_SIZE /\
    match FlatMap.get (outgoing s) (ack_message_id ack) with
    | None => outgoing s' = outgoing s /\ events s' = events s
    | Some m => exists m' r, OutgoingMessage.on_ack m (ack_base_index ack) (ack_bitmask ack) now (delivered_bytes s) = Some (m', r) /\
        if OutgoingMessage.all_acked m'
        then outgoing s' = (FlatMap.remove (outgoing s) (ack_message_id ack)).1 /\
             events s' = events s ++ [MessageAcked (ack_message_id ack); ReadyToSend]
        else outgoing s' = FlatMap.write (outgoing s) (ack_message_id ack) m' /\ events s' = events s
    end.
Proof.
  intros Hs Hb Hnow Hbase Hmask Hrw. unfold handle_ack_packet, STEP, in_u, ESTIMATED_PAYLOAD_SIZE in *. run_chk.
  set (s1 := (if 1300 <=? _ then _ else s) <| peer_rwnd := _ |>).
  assert (sinv b s1 /\ same_receiver s s1 /\ outgoing s1 = outgoing s /\ events s1 = events s /\ delivered_bytes s1 = delivered_bytes s /\
    peer_rwnd s1 = ack_rwnd ack * 1300) as (Hs1 & Hrec & Hout & Hev & Hdel & Hpr).
  { unfold s1. destruct (1300 <=? _); by split_and!. }
  clearbody s1. rewrite <- Hout, <- Hdel, <- Hev. pose proof (flight_bounds Hs1) as Hfl. pose proof (so_total _ _ _ _ _ _ _ _ Hs1) as Htot.
  destruct (FlatMap.get (outgoing s1) (ack_message_id ack)) as [m|] eqn:Eg1.
  2: { destruct (good_on_ack b (congestion_control s1) (RttEstimator.srtt (rtt s1)) None 0 (in_flight s1) now (so_cc _ _ _ _ _ _ _ _ Hs1))
         as (cc & -> & Hcc); [lia..|]. run. eexists. split; [done|]. split_and!; try done.
       assert (sinv (b + 2 ^ 27) s1) as [] by (apply (sender_mono Hs1); lia). constructor; try assumption. cbn. eapply good_mono; [|done]. lia. }
  destruct (ack_message (delivered_bytes s1) m (ack_base_index ack) (ack_bitmask ack) now) as (m' & r & Heq & Hm' & Hfb & Hc0 & Hnew & Hrtt & Hsam);
    [by apply (so_out _ _ _ _ _ _ _ _ Hs1 _ _ Eg1)|lia|done|done|done|].
  rewrite Heq. run. cbn [delivered_bytes set_field]. run_chk.
  set (s2 := (if 0 <? newly_delivered_bytes r then _ else _) <| in_flight := _ |>).
  assert (sender_ok (b + 2 ^ 26) (outgoing s2) (scheduler s2) (rtt s2) (congestion_control s1) (in_flight s2) (delivered_bytes s2) (last_ping_sent s2) /\
    good b (congestion_control s2) /\ delivered_bytes s1 <= delivered_bytes s2 <= b + 2 ^ 26 /\
    same_receiver s1 s2 /\ outgoing s2 = FlatMap.write (outgoing s1) (ack_message_id ack) m' /\ events s2 = events s1 /\ peer_rwnd s2 = peer_rwnd s1)
    as (Hs2 & Hcc2 & Hdel2 & Hrec2 & Hout2 & Hev2 & Hpr2).
  { pose proof (sender_write Hs1 _ _ _ Eg1 Hm') as Hw.
    assert (sat_sub (in_flight s1) (newly_completed_in_flight_bytes r) =
      in_flight s1 - OutgoingMessage.flight_bytes m + OutgoingMessage.flight_bytes m') as Hif.
    { pose proof (flight_elem Hs1 _ _ Eg1). pose proof (flight_bytes_bounds _ _ Hm'). unfold sat_sub. lia. }
    rewrite <- Hif in Hw. pose proof (sender_mono Hw (b + 2 ^ 26) (delivered_bytes s1 + newly_delivered_bytes r) ltac:(lia) ltac:(lia)) as Hw'.
    pose proof (so_cc _ _ _ _ _ _ _ _ Hs1) as Hg.
    unfold s2. destruct (0 <? newly_delivered_bytes r); (split; [exact Hw'|]); split_and!; try done; cbn; lia. }
  clearbody s2.
  assert (exists cc1, (if loss_detected r then on_nack (congestion_control s2) now else Some (congestion_control s2)) = Some cc1 /\
    good (b + 1300) cc1) as (cc1 & -> & Hcc1).
  { destruct (loss_detected r); [|eexists; split; [done|]; eapply good_mono; [|exact Hcc2]; lia].
    destruct (good_on_nack b (congestion_control s2) now Hcc2) as (c1 & Hc1 & Hg1); [unfold ESTIMATED_PAYLOAD_SIZE; lia|].
    exists c1. by split. }
  run. destruct (final_sample_spec (s2 <| congestion_control := cc1 |>) r now (delivered_bytes s1)) as [sample ->]; [cbn; lia|cbn; lia|done|]. run.
  cbn [rtt set_field].
  assert (exists est, match Outgoing.min_rtt r with Some x => RttEstimator.update (rtt s2) x | None => Some (rtt s2) end = Some est /\
    RttEstimator.wf est) as (est & -> & Hest).
  { destruct (Outgoing.min_rtt r) as [x|]; [|eexists; split; [done|apply Hs2]].
    destruct (RttEstimator.rtt_update_spec (rtt s2) x) as (e & ? & ?); [apply Hs2|by apply Hrtt|by exists e]. }
  run. cbn [rtt set_field congestion_control in_flight]. pose proof (flight_bounds Hs2).
  edestruct (good_on_ack (b + 1300) cc1) as (cc2 & -> & Hcc2'); [exact Hcc1|apply Hnew|lia|lia|]. run.
  set (s3 := s2 <| congestion_control := cc1 |> <| rtt := est |> <| congestion_control := cc2 |>).
  assert (sinv (b + 2 ^ 27 - 2 ^ 21) s3) as Hs3.
  { destruct (sender_mono Hs2 (b + 2 ^ 27 - 2 ^ 21) (delivered_bytes s2) ltac:(lia) ltac:(lia)). constructor; try assumption.
    eapply good_mono; [|exact Hcc2']. lia. }
  assert (FlatMap.get (outgoing s3) (ack_message_id ack) = Some m') as Eg3.
  { cbn. rewrite Hout2, FlatMap.get_write, decide_True, Eg1 by done. done. }
  destruct (OutgoingMessage.all_acked m') eqn:Eall.
  - destruct (sender_remove Hs3 _ _ Eg3) as (sch & Hsch & Hs4). 
    pose proof (so_out _ _ _ _ _ _ _ _ Hs3 _ _ Eg3) as Hm3.
    pose proof (sender_leak Hs4 (OutgoingMessage.flight_bytes m') (flight_bytes_bounds _ _ Hm3)
      (fun Hst => all_acked_flight _ _ Hst Hm3 Eall)) as Hs5.
    replace (in_flight s3 - OutgoingMessage.flight_bytes m' + OutgoingMessage.flight_bytes m') with (in_flight s3) in Hs5 by lia.
    replace (b + 2 ^ 27 - 2 ^ 21 + 2 ^ 21) with (b + 2 ^ 27) in Hs5 by lia.
    change (scheduler (emit s3 _)) with (scheduler s3). rewrite Hsch. run. eexists. split; [done|]. split; [exact Hs5|]. split; [|split].
    + etrans; [exact Hrec|]. etrans; [exact Hrec2|]. by split_and!.
    + cbn. congruence.
    + exists m', r. split; [done|]. rewrite Eall. cbn. rewrite Hout2, Hev2. split.
      * by rewrite (FlatMap.remove_write _ _ _ m).
      * by rewrite <- app_assoc.
  - eexists. split; [done|]. split; [exact (sender_mono Hs3 (b + 2 ^ 27) (delivered_bytes s2) ltac:(lia) ltac:(cbn; lia))|]. split; [|split].
    + etrans; [exact Hrec|]. etrans; [exact Hrec2|]. by split_and!.
    + cbn. congruence.
    + exists m', r. split; [done|]. rewrite Eall. by split.
Qed.

Lemma handle_nack_packet_spec b s nack now :
  sinv b s -> b + STEP <= 2 ^ 62 -> (forall i, i ∈ missing_indices nack -> 0 <= i) ->
  exists s', handle_nack_packet s nack now = Some s' /\ sinv (b + STEP) s' /\ same_receiver s s' /\ events s' = events s.
Proof.
  intros Hs Hb Hids. unfold handle_nack_packet, STEP in *.
  pose proof (so_total _ _ _ _ _ _ _ _ Hs) as Htot.
  destruct (FlatMap.get (outgoing s) (nack_message_id nack)) as [m|] eqn:Eg.
  2: { eexists. split; [done|]. split_and!; [|by split_and!|done]. apply (sender_mono Hs); lia. }
  destruct (nack_message (delivered_bytes s) m (in_flight s) (missing_indices nack)) as (m1 & fl & rm & cl & tr & -> & Hm' & ->);
    [by apply (so_out _ _ _ _ _ _ _ _ Hs _ _ Eg)|by apply (flight_elem Hs _ _ Eg)|done|]. run. fold (unqueue m1 rm cl).
  pose proof (sender_write Hs _ _ _ Eg Hm') as Hw.
  replace (in_flight s - OutgoingMessage.flight_bytes m + OutgoingMessage.flight_bytes (unqueue m1 rm cl))
    with (in_flight s - (OutgoingMessage.flight_bytes m - OutgoingMessage.flight_bytes (unqueue m1 rm cl))) in Hw by lia.
  destruct tr.
  - destruct (good_on_nack b (congestion_control s) now (so_cc _ _ _ _ _ _ _ _ Hs)) as (cc & Hcc & Hg); [unfold ESTIMATED_PAYLOAD_SIZE; lia|].
    cbn [congestion_control set_field]. rewrite Hcc. run. eexists. split; [done|]. split; [|split; [by split_and!|done]].
    destruct (sender_mono Hw (b + 2 ^ 27) (delivered_bytes s) ltac:(lia) ltac:(lia)). constructor; try assumption.
    eapply good_mono; [|exact Hg]. unfold ESTIMATED_PAYLOAD_SIZE. lia.
  - eexists. split; [done|]. split; [|split; [by split_and!|done]]. exact (sender_mono Hw (b + 2 ^ 27) (delivered_bytes s) ltac:(lia) ltac:(lia)).
Qed.

(** *** New messages *)

(** The search tries consecutive ids. *)
Lemma free_id_tries fuel (outs : list (Z * OutgoingMessage.t)) id :
  in_u 32 id -> in_u 32 (free_id fuel outs id) /\
  (FlatMap.contains_key outs (free_id fuel outs id) = true ->
   forall k, 0 <= k < Z.of_nat fuel -> wrap 32 (id + k) ∈ FlatMap.keys outs).
Proof.
  revert id. induction fuel as [|fuel IH]; intros id Hid; cbn [free_id]; [split; [done|intros _ k; lia]|].
  destruct (FlatMap.contains_key outs id) eqn:E; cbn [negb]; [|split; [done|congruence]].
  destruct (IH (MessageId.wrapping_add id 1)) as [IH1 IH2]; [by apply wrap_range|]. split; [done|]. intros Hc k Hk.
  destruct (decide (k = 0)) as [->|].
  - rewrite Z.add_0_r, wrap_small by done. apply FlatMap.contains_key_spec in E as [v Hv].
    apply FlatMap.get_Some_elem in Hv. apply list_elem_of_fmap. by exists (id, v).
  - specialize (IH2 Hc (k - 1) ltac:(lia)). unfold MessageId.wrapping_add, wrap in *.
    rewrite Zplus_mod_idemp_l in IH2. by replace (id + 1 + (k - 1)) with (id + k) in IH2 by lia.
Qed.

(** With fewer messages than tries the search finds a free id. *)
Lemma free_id_fresh fuel (outs : list (Z * OutgoingMessage.t)) id :
  in_u 32 id -> FlatMap.len outs < Z.of_nat fuel <= 2 ^ 32 -> FlatMap.contains_key outs (free_id fuel outs id) = false.
Proof.
  intros Hid Hlen. destruct (FlatMap.contains_key outs (free_id fuel outs id)) eqn:E; [exfalso|done].
  destruct (free_id_tries fuel outs id Hid) as [_ Hall]. specialize (Hall E).
  assert (NoDup ((fun k => wrap 32 (id + k)) <$> zrange 0 (Z.of_nat fuel))) as Hnd.
  { apply NoDup_fmap_2_strong; [|apply NoDup_zrange]. intros x y Hx%elem_of_zrange Hy%elem_of_zrange Hxy. unfold wrap, in_u in *.
    assert ((id + x) mod 2 ^ 32 - (id + y) mod 2 ^ 32 = 0) as Hz by lia. clear Hxy.
    pose proof (Z.div_mod (id + x) (2 ^ 32)). pose proof (Z.div_mod (id + y) (2 ^ 32)). lia. }
  assert ((fun k => wrap 32 (id + k)) <$> zrange 0 (Z.of_nat fuel) ⊆ FlatMap.keys outs) as Hsub.
  { intros x (k & -> & Hk%elem_of_zrange)%list_elem_of_fmap. by apply Hall. }
  apply (NoDup_submseteq _ _ Hnd), submseteq_length in Hsub. revert Hsub. unfold FlatMap.keys, FlatMap.len, len in *.
  rewrite !length_fmap. unfold zrange. rewrite length_fmap, length_seq. lia.
Qed.

Lemma send_message_at_spec b s mt d now :
  sinv b s -> in_u 32 (next_message_id s) -> 
  exists s' res, send_message_at s mt d now = Some (s', res) /\ sinv b s' /\ same_receiver s s' /\ events s' = events s /\
    in_u 32 (next_message_id s') /\
    match res with
    | Err QueueFull => FlatMap.len (outgoing s) = MAX_CONCURRENT_OUTGOING /\ s' = s
    | Err (SerializationError e) => serialize_envelope mt d = Err e /\ outgoing s' = outgoing s
    | Err MessageTooLarge => (exists p, serialize_envelope mt d = Ok p /\ MAX_MESSAGE_SIZE < len p) /\ outgoing s' = outgoing s
    | Err _ => False
    | Ok id => exists p m, serialize_envelope mt d = Ok p /\ FlatMap.get (outgoing s) id = None /\ in_u 32 id /\
        outgoing s' = outgoing s ++ [(id, m)] /\ OutgoingMessage.data m = p /\ OutgoingMessage.message_type m = mt /\
        id ∈ PriorityScheduler.queue (scheduler s') (priority_level (priority mt))
    end.
Proof.
  intros Hs Hnext. unfold send_message_at. pose proof (so_len _ _ _ _ _ _ _ _ Hs) as Hlen.
  destruct (Z.leb_spec MAX_CONCURRENT_OUTGOING (FlatMap.len (outgoing s))) as [Hfull|Hroom].
  { eexists _, _. split; [done|]. split_and!; try done. lia. }
  assert (FlatMap.len (outgoing s) < Z.of_nat (Z.to_nat MAX_CONCURRENT_OUTGOING) <= 2 ^ 32) as Hfuel
    by (unfold MAX_CONCURRENT_OUTGOING, MIN_TRANSPORT_SLOTS in *; lia).
  pose proof (free_id_fresh _ _ _ Hnext Hfuel) as Hfresh. destruct (free_id_tries (Z.to_nat MAX_CONCURRENT_OUTGOING) (outgoing s) _ Hnext) as [Hid _].
  set (id := free_id _ _ _) in *. rewrite Hfresh.
  assert (FlatMap.get (outgoing s) id = None) as Hg.
  { destruct (FlatMap.get (outgoing s) id) eqn:E; [|done]. rewrite (proj2 (FlatMap.contains_key_spec _ _)) in Hfresh by eauto. done. }
  set (s1 := s <| next_message_id := _ |>). assert (sinv b s1) as Hs1 by exact Hs.
  assert (in_u 32 (next_message_id s1)) as Hn1 by (by apply wrap_range).
  destruct (serialize_envelope mt d) as [p|e] eqn:Ep; [|eexists _, _; split; [done|]; by split_and!].
  destruct (Z.ltb_spec MAX_MESSAGE_SIZE (len p)) as [Hbig|Hsize].
  { eexists _, _. split; [done|]. split_and!; try done. by exists p. }
  change (sat_sub MAX_TOX_PACKET_SIZE PACKET_OVERHEAD) with 1353. cbn [Z.eqb].
  assert (div_ceil (len p) 1353 <= MAX_FRAGMENTS_PER_MESSAGE) as Hfr.
  { pose proof (div_ceil_spec (len p) 1353 ltac:(lia)). unfold MAX_FRAGMENTS_PER_MESSAGE, MAX_MESSAGE_SIZE in *. lia. }
  destruct (OutgoingMessage.outgoing_new_spec mt p 1353 now ltac:(lia) Hfr) as [-> Hwf]. run.
  set (m := OutgoingMessage.initial mt p 1353 (div_ceil (len p) 1353) now) in *.
  assert (0 <= priority_level (priority mt) <= 4) as Hpl by (destruct mt; cbn; lia).
  destruct (PriorityScheduler.update_message_spec (scheduler s1) id (priority_level (priority mt)) (so_sched _ _ _ _ _ _ _ _ Hs1) ltac:(lia))
    as (sch & -> & Hsch & _ & Hq). run.
  change (outgoing (s1 <| scheduler := sch |>)) with (outgoing s). rewrite FlatMap.insert_fresh by done. cbn [fst].
  eexists _, _. split; [done|]. split; [|split; [by split_and!|split_and!; [done|done|]]].
  - assert (forall i, OutgoingMessage.sent m i = false) as Hsent by apply OutgoingMessage.initial_sent.
    assert (OutgoingMessage.flight_bytes m = 0) as Hf0.
    { unfold OutgoingMessage.flight_bytes. rewrite (zsum_ext _ (fun _ => 0)); [apply zsum_zero|]. intros i _. by rewrite Hsent. }
    assert (outgoing_ok (delivered_bytes s) m) as Hm.
    { constructor; try done.
      - intros _ i Hi _. apply Hsent.
      - apply OutgoingMessage.initial_delivered_ok.
      - intros info (i & st & Hst & Hi). apply OutgoingMessage.new_state_at in Hst. by subst. }
    pose proof Hs as []. constructor; try assumption.
    + cbn. replace (outgoing s ++ [(id, m)]) with (FlatMap.insert (outgoing s) id m).1 by (by rewrite FlatMap.insert_fresh). by apply FlatMap.NoDup_insert.
    + cbn. unfold FlatMap.len in *. rewrite len_app. unfold len in *. cbn. lia.
    + cbn. intros j x. rewrite FlatMap.get_app. destruct (FlatMap.get (outgoing s) j) eqn:Ej; [intros; simplify_eq; eauto|].
      cbn. case_decide; naive_solver.
    + cbn. intros j. assert (scheduled sch j <-> j = id \/ scheduled (scheduler s) j) as ->.
      { split.
        - intros (q & Hqr & Hj). rewrite Hq in Hj by done. destruct Hj as [[-> _]|[_ Hj]]; [by left|right; by exists q].
        - intros [->|(q & Hqr & Hj)].
          + exists (priority_level (priority mt)). split; [lia|]. apply Hq; [lia|]. left. split; [done|lia].
          + destruct (decide (j = id)) as [->|Hne].
            * exists (priority_level (priority mt)). split; [lia|]. apply Hq; [lia|]. left. split; [done|lia].
            * exists q. split; [done|]. apply Hq; [done|]. by right. }
      rewrite so_scheduled0, FlatMap.get_app. cbn. destruct (FlatMap.get (outgoing s) j) eqn:Ej; [split; eauto|].
      case_decide; [subst; split; eauto|]. split; [intros [->|[? ?]]; done|by intros [? ?]].
    + pose proof (FlatMap.zsum_append OutgoingMessage.flight_bytes (outgoing s) id m) as Hz.
      cbn [outgoing in_flight set_field]. change (in_flight s1) with (in_flight s). lia.
  - exists p, m. split_and!; try done. cbn. apply Hq; [lia|]. left. split; [done|lia].
Qed.

End Send.
End Strict.

End Sending.
