(* ===== verification/SessionFlush.v ===== *)
(** Producing packets: [flush_packets] and what it calls.

    The closure handed to [flush_packets] may accept or refuse any packet.  The
    lemmas show that flushing never panics as long as the retransmission
    counters have room, that its main loop ends (each round that sends takes a
    fragment off a retransmission queue, an expired entry off a queue in flight,
    or a fragment that was never sent), and that it keeps the invariants of both
    halves of the session. *)

From S2P Require Import Prelude Bitset FlatMaps Protocol Quota Reassembly Float32 F32Theory Rtt Outgoing Scheduler Congestion CongestionLaws Session SessionReceive SessionSend.
From Stdlib Require Import Reals Lra SpecFloat.
#[local] Open Scope Z_scope.
#[local] Open Scope list_scope.

Module Flushing.
Import SequenceSession Sending.

(** *** Messages *)

(** Retransmission counters of a message. *)
Definition counts (n : Z) (m : OutgoingMessage.t) : Prop :=
  forall i st, idx (OutgoingMessage.fragment_states m) i = Some st ->
    0 <= Outgoing.retransmit_count st <= n /\ 0 <= rto_backoff st <= n.

(** What remains to be sent in the current flush. *)
Definition work (now : Instant) (m : OutgoingMessage.t) : Z :=
  len (OutgoingMessage.retransmit_queue m) + count_if (fun p => p.2 <? now) (OutgoingMessage.in_flight_queue m) +
  (OutgoingMessage.num_fragments m - OutgoingMessage.next_fragment m).

Section Strict.
Context (strict : bool).

Lemma sent_ok n total m i st now last lim :
  outgoing_ok strict total m -> counts n m -> 0 <= total -> 0 <= now -> 0 <= i < OutgoingMessage.num_fragments m ->
  idx (OutgoingMessage.fragment_states m) i = Some st -> (strict = true -> OutgoingMessage.acked m i = false) ->
  let m' := OutgoingMessage.with_sent m i (OutgoingMessage.sent_state_of st now total last lim (OutgoingMessage.flen m i)) now in
  outgoing_ok strict total m' /\ counts (n + 1) m' /\ work now m' = work now m /\
  OutgoingMessage.flight_bytes m' =
    OutgoingMessage.flight_bytes m + (if OutgoingMessage.sent m i then 0 else OutgoingMessage.flen m i).
Proof.
  intros [Hwf Hcl Hd Ht Hmtu Hsz] Hc Htot Hnow Hi Hst Hun m'.
  destruct (OutgoingMessage.with_sent_spec m i st now total last lim total Hwf Hd ltac:(lia) Hi Hst) as (W1 & W2 & W3). fold m' in W1, W2, W3.
  pose proof (OutgoingMessage.core_states m (proj1 Hwf)) as Hlen.
  assert (forall j x, idx (OutgoingMessage.fragment_states m') j = Some x ->
    (j = i /\ x = OutgoingMessage.sent_state_of st now total last lim (OutgoingMessage.flen m i)) \/ (j <> i /\ idx (OutgoingMessage.fragment_states m) j = Some x)) as Hstate.
  { intros j x Hx. assert (0 <= j) by (apply idx_lt in Hx; lia). cbn in Hx. rewrite idx_insert in Hx by lia. case_decide; naive_solver. }
  split_and!; [constructor; try done|..|done].
  - intros Hs j Hj Ha. change (OutgoingMessage.acked m' j) with (OutgoingMessage.acked m j) in Ha. assert (j <> i) by (intros ->; rewrite Hun in Ha; done).
    specialize (Hcl Hs j Hj Ha). unfold OutgoingMessage.sent in *. destruct (idx (OutgoingMessage.fragment_states m') j) as [x|] eqn:E; [|done].
    apply Hstate in E as [[? _]|[_ E]]; [done|]. by rewrite E in Hcl.
  - intros info (j & x & Hx & Hinfo). apply Hstate in Hx as [[-> ->]|[_ Hx]]; [|apply Ht; by exists j, x].
    unfold OutgoingMessage.sent_state_of in Hinfo. destruct (delivery_info st) as [info0|] eqn:E; cbn in Hinfo; simplify_eq;
      [apply Ht; exists i, st; split; [done|congruence]|done].
  - intros j x Hx. apply Hstate in Hx as [[-> ->]|[_ Hx]]; [|destruct (Hc j x Hx); lia]. destruct (Hc i st Hst).
    unfold OutgoingMessage.sent_state_of. destruct (delivery_info st); cbn; lia.
  - unfold work. cbn. rewrite count_if_app, count_if_cons, count_if_nil. cbn. rewrite Z.ltb_irrefl. lia.
Qed.

Lemma pop_ok n total m i l now :
  outgoing_ok strict total m -> counts n m -> OutgoingMessage.retransmit_queue m = i :: l ->
  outgoing_ok strict total (pop_retransmit m) /\ counts n (pop_retransmit m) /\ work now (pop_retransmit m) = work now m - 1 /\
  OutgoingMessage.flight_bytes (pop_retransmit m) = OutgoingMessage.flight_bytes m.
Proof.
  intros [(Hcore & Hcum & Hfl & Hrq) Hcl Hd Ht Hmtu Hsz] Hc Hq. unfold pop_retransmit. rewrite Hq.
  assert (0 <= i < OutgoingMessage.num_fragments m) as Hi by (apply (OutgoingMessage.core_rq m Hcore); rewrite Hq; left).
  pose proof (proj2 (proj2 (OutgoingMessage.core_sized m Hcore))) as Hmax. unfold MAX_FRAGMENTS_PER_MESSAGE in Hmax.
  pose proof (OutgoingMessage.core_rq_nodup m Hcore) as Hnd. rewrite Hq in Hnd. apply NoDup_cons in Hnd as [Hni Hnd].
  destruct (BitSet.unset_spec (OutgoingMessage.retransmit_bitset m) i (OutgoingMessage.core_rb_wf m Hcore) ltac:(lia)) as (U1 & U2 & _ & U4).
  split_and!; [constructor; try done| | |done].
  - split_and!; [|done|done|intros j Hj; apply Hrq; rewrite Hq; by right].
    pose proof Hcore as []. constructor; try assumption; cbn -[BitSet.get BitSet.unset].
    + by rewrite U2.
    + intros j Hj. rewrite U4, core_rb, Hq by done. destruct (Z.eqb_spec j i) as [->|Hne]; cbn.
      * symmetry. by apply bool_decide_eq_false.
      * apply bool_decide_ext. rewrite elem_of_cons. naive_solver.
    + intros j Hj. apply core_rq. rewrite Hq. by right.
  - exact Hc.
  - unfold work. cbn. rewrite Hq, len_cons. lia.
Qed.

Lemma advance_ok n total m now :
  outgoing_ok strict total m -> counts n m -> OutgoingMessage.next_fragment m < OutgoingMessage.num_fragments m ->
  outgoing_ok strict total (advance_next m) /\ counts n (advance_next m) /\ work now (advance_next m) = work now m - 1 /\
  OutgoingMessage.flight_bytes (advance_next m) = OutgoingMessage.flight_bytes m.
Proof.
  intros [(Hcore & Hcum & Hfl & Hrq) Hcl Hd Ht Hmtu Hsz] Hc Hlt. split_and!; [constructor; try done|done| |done].
  - split_and!; [|done..]. pose proof Hcore as []. constructor; try assumption. cbn. lia.
  - unfold work. cbn. lia.
Qed.

Lemma after_timeout_ok n total m i at_ l st now :
  outgoing_ok strict total m -> counts n m -> n < u32_max ->
  OutgoingMessage.in_flight_queue m = (i, at_) :: l -> OutgoingMessage.in_queue l i = true -> at_ < now ->
  idx (OutgoingMessage.fragment_states m) i = Some st ->
  exists m', after_timeout m i = Some m' /\ outgoing_ok strict total m' /\ counts (n + 1) m' /\ work now m' = work now m - 1 /\
    OutgoingMessage.flight_bytes m' = OutgoingMessage.flight_bytes m /\
    OutgoingMessage.next_fragment m' = OutgoingMessage.next_fragment m /\ OutgoingMessage.acked_bitset m' = OutgoingMessage.acked_bitset m.
Proof.
  intros [(Hcore & Hcum & Hfl & Hrq) Hcl Hd Ht Hmtu Hsz] Hc Hn Hq Hin Hat Hst. unfold after_timeout. rewrite Hst. run.
  destruct (Hc i st Hst) as [_ Hb]. unfold u32_max in Hn. run_chk. pose proof (idx_lt _ _ _ Hst) as Hi.
  rewrite upd_ok by done. run. eexists. split; [done|]. rewrite Hq. cbn [List.tl].
  set (m' := _ <| OutgoingMessage.in_flight_queue := l |>).
  assert (forall j x, idx (OutgoingMessage.fragment_states m') j = Some x -> exists x0, idx (OutgoingMessage.fragment_states m) j = Some x0 /\
    last_sent x = last_sent x0 /\ delivery_info x = delivery_info x0 /\ Outgoing.retransmit_count x = Outgoing.retransmit_count x0 /\
    rto_backoff x0 <= rto_backoff x <= rto_backoff x0 + 1) as Hstate.
  { intros j x Hx. assert (0 <= j) by (apply idx_lt in Hx; lia). cbn in Hx. rewrite idx_insert in Hx by done. case_decide; [subst j|].
    - injection Hx as <-. exists st. cbn. split_and!; [done..|lia|lia].
    - exists x. split_and!; [done..|lia|lia]. }
  assert (forall j, OutgoingMessage.sent m' j = OutgoingMessage.sent m j) as Hsent.
  { intros j. unfold OutgoingMessage.sent. destruct (idx (OutgoingMessage.fragment_states m') j) as [x|] eqn:E.
    - destruct (Hstate j x E) as (x0 & -> & -> & _). done.
    - destruct (idx (OutgoingMessage.fragment_states m) j) as [y|] eqn:E'; [|done]. exfalso. apply idx_lt in E' as Hj.
      assert (is_Some (idx (OutgoingMessage.fragment_states m') j)) as [? ?]; [|congruence]. apply idx_is_Some. cbn. by rewrite len_insert. }
  split_and!; [constructor; try done| | | |done|done].
  - split_and!; [|done| |done].
    + pose proof Hcore as []. constructor; try assumption.
      * cbn. by rewrite len_insert.
      * intros j x Hx. destruct (Hstate j x Hx) as (x0 & Hx0 & -> & -> & _). by eapply core_sent_info.
      * intros j x info Hx. destruct (Hstate j x Hx) as (x0 & Hx0 & _ & -> & _). by eapply core_info.
      * cbn. intros j a Hj. eapply core_queue. rewrite Hq. right. exact Hj.
    + intros j Hj. rewrite Hsent, <- Hfl by done. cbn [OutgoingMessage.in_flight_queue set_field m']. rewrite Hq. cbn.
      destruct (Z.eqb_spec i j) as [->|]; [done|done].
  - intros Hs j Hj Ha. rewrite Hsent. by apply Hcl.
  - intros j x info Hx. destruct (Hstate j x Hx) as (x0 & Hx0 & _ & -> & _). by eapply Hd.
  - intros info (j & x & Hx & Hinfo). destruct (Hstate j x Hx) as (x0 & Hx0 & _ & E & _). apply Ht. exists j, x0. split; [done|congruence].
  - intros j x Hx. destruct (Hstate j x Hx) as (x0 & Hx0 & _ & _ & E & ?). destruct (Hc j x0 Hx0). rewrite E. lia.
  - unfold work. cbn. rewrite Hq, count_if_cons. cbn. rewrite (proj2 (Z.ltb_lt at_ now)) by done. lia.
  - unfold OutgoingMessage.flight_bytes. apply zsum_ext. intros j _. by rewrite Hsent.
Qed.

(** *** Sending one fragment *)

Section Flush.
Context {C : Type} `{CongestionLaws C} {Rng : Type} `{RandSource Rng} `{EnvelopeCodec}.

Abbreviation session := (SequenceSession.t C Rng).
Implicit Types s : session.

(** The controllers a flush can get to: it reports sent fragments and timeouts. *)
Inductive driven (c : C) : C -> Prop :=
| driven_refl : driven c c
| driven_sent c' n now : driven c c' -> driven c (on_fragment_sent c' n now)
| driven_timeout c' now c'' : driven c c' -> on_timeout c' now = Some c'' -> driven c c''.

(** [c0] is the controller when the flush starts; its window in bytes, and that
    of every controller the flush gets to, fits a [usize]. *)
Context (c0 : C) (Hwindow : forall c, driven c0 c -> cwnd c * ESTIMATED_PAYLOAD_SIZE <= usize_max).

(** The state during a flush: [n] bounds the retransmission counters. *)
Record flush_ok (b n : Z) s : Prop := {
  fo_sender : sinv strict b s;
  fo_counts id m : FlatMap.get (outgoing s) id = Some m -> counts n m;
  fo_ahead id m i : strict = true -> FlatMap.get (outgoing s) id = Some m ->
    OutgoingMessage.next_fragment m <= i -> OutgoingMessage.acked m i = false;
  fo_driven : driven c0 (congestion_control s);
  fo_retransmit : 0 <= retransmit_count s <= 2 ^ 63 + n;
  fo_n : 0 <= n
}.

(** Room for [k] more sends. *)
Definition room (b n k : Z) : Prop := 0 <= k /\ b + ESTIMATED_PAYLOAD_SIZE * k <= 2 ^ 62 - STEP /\ n + 2 * k <= u32_max.

Definition total_work (now : Instant) s : Z := zsum (work now) (FlatMap.values (outgoing s)).

(** What sending leaves alone. *)
Definition send_frame s s' : Prop :=
  same_receiver s s' /\ events s' = events s /\ datagram_queue s' = datagram_queue s /\
  rtt s' = rtt s /\ peer_rwnd s' = peer_rwnd s /\ next_message_id s' = next_message_id s /\
  FlatMap.keys (outgoing s') = FlatMap.keys (outgoing s) /\ zero_window_probes_sent s' = zero_window_probes_sent s /\
  last_ping_sent s' = last_ping_sent s /\ delivered_bytes s' = delivered_bytes s.

#[global] Instance send_frame_preorder : PreOrder send_frame.
Proof.
  split; [intros s; split_and!; done || reflexivity|]. intros s1 s2 s3. unfold send_frame. intros [R1 F1] [R2 F2].
  split; [by etrans|]. intuition congruence.
Qed.

Lemma window_ok s b n : flush_ok b n s -> 0 <= cwnd (congestion_control s) * ESTIMATED_PAYLOAD_SIZE <= usize_max.
Proof using Hwindow.
  intros Hs. pose proof (Hwindow _ (fo_driven _ _ _ Hs)). pose proof (good_cwnd b _ (so_cc _ _ _ _ _ _ _ _ _ (fo_sender _ _ _ Hs))).
  unfold ESTIMATED_PAYLOAD_SIZE in *. lia.
Qed.

Lemma pacing_gap_ok rate n : F32T.valid rate -> 0 <= n <= 2 ^ 40 -> exists d, pacing_gap rate n = Some d /\ 0 <= d <= from_secs 1.
Proof.
  intros Hr Hn. unfold pacing_gap.
  assert (F32T.nnf f_one) as N1 by (by apply nnf_of_Z). assert (F32T.val f_one = 1%R) as V1 by (by apply (F32T.of_Z_val 1)).
  assert (forall x, F32T.nnf x -> (F32T.val x <= 1)%R -> exists d, from_secs_f32 x = Some d /\ 0 <= d <= from_secs 1) as Hok.
  { intros x Hx Hv. change (from_secs 1) with NANOS_PER_SEC. apply (F32T.from_secs_f32_ok x NANOS_PER_SEC); [done|unfold NANOS_PER_SEC; lia|].
    unfold NANOS_PER_SEC. lra. }
  destruct (F32.gt rate (F32.of_Z 0) && F32.is_finite rate) eqn:E.
  2: { apply (Hok (F32.of_Z 0)); [by apply nnf_of_Z|]. rewrite (F32T.of_Z_val 0) by done. lra. }
  apply andb_true_iff in E as [Hpos Hfin]. change (F32.of_Z 0) with (S754_zero false) in Hpos.
  destruct rate as [sg|sg| |[] mr er]; try done. cbn in Hr.
  assert (F32T.nnf (F32.of_Z n)) as Nn by (apply nnf_of_Z; lia).
  assert (0 < F32T.val (S754_finite false mr er))%R as Hv.
  { cbn [F32T.val]. pose proof (F32T.bpow_pos er). assert (0 < IZR (Z.pos mr))%R by (apply IZR_lt; lia). nra. }
  destruct (F32T.div_approx (F32.of_Z n) (S754_finite false mr er) Nn Hr Hv) as [[-> _]|[Nd _]].
  - apply (Hok f_one); [done|lra].
  - destruct (F32T.min_val _ _ Nd N1) as [Nm Vm]. apply Hok; [done|]. rewrite Vm, V1. apply Rmin_r.
Qed.

Lemma pace_spec s rate n now :
  F32T.valid rate -> 0 <= n <= 2 ^ 40 -> exists x, pace s rate n now = Some (s <| next_pacing_time := x |>).
Proof.
  intros Hr Hn. unfold pace. destruct (pacing_gap_ok rate n Hr Hn) as (d & -> & _). run. by eexists.
Qed.

Lemma fragment_sent_spec b n s id m i now :
  flush_ok b n s -> room b n 1 -> 0 <= now -> FlatMap.get (outgoing s) id = Some m -> 0 <= i < OutgoingMessage.num_fragments m ->
  (strict = true -> OutgoingMessage.acked m i = false) ->
  exists s' m', fragment_sent s id i (OutgoingMessage.flen m i) now = Some s' /\ flush_ok b (n + 1) s' /\ send_frame s s' /\
    outgoing s' = FlatMap.write (outgoing s) id m' /\ work now m' = work now m /\
    OutgoingMessage.retransmit_queue m' = OutgoingMessage.retransmit_queue m /\
    OutgoingMessage.in_flight_queue m' = OutgoingMessage.in_flight_queue m ++ [(i, now)] /\
    OutgoingMessage.next_fragment m' = OutgoingMessage.next_fragment m /\
    OutgoingMessage.num_fragments m' = OutgoingMessage.num_fragments m.
Proof using Hwindow.
  intros Hs (_ & Hr1 & Hr2) Hnow Hg Hi Hun. pose proof Hs as [Hsi Hco Hah Hdr Hrt Hn]. unfold ESTIMATED_PAYLOAD_SIZE, STEP, u32_max in Hr1, Hr2.
  pose proof (so_out _ _ _ _ _ _ _ _ _ Hsi id m Hg) as Hm. pose proof Hm as [(Hcore & _) _ _ _ Hmtu _].
  pose proof (OutgoingMessage.flen_bounds m i (OutgoingMessage.core_sized m Hcore) Hi) as Hlen. rewrite Hmtu in Hlen.
  unfold MAX_TOX_PACKET_SIZE, PACKET_OVERHEAD in Hlen. pose proof (flight_bounds _ Hsi) as Hfl. pose proof (so_total _ _ _ _ _ _ _ _ _ Hsi) as Htot.
  pose proof (window_ok s b n Hs) as Hw. unfold fragment_sent. cbv zeta. rewrite (chk_usize_ok (in_flight s + _)) by (unfold usize_max; lia). run. rewrite (chk_usize_ok (cwnd _ * _)) by exact Hw. run.
  set (s1 := if _ <=? _ then s <| app_limited := false |> else s).
  assert (exists al, s1 = s <| app_limited := al |>) as [al Hs1].
  { unfold s1. destruct (_ <=? _); [by exists false|]. exists (app_limited s). by destruct s. }
  rewrite Hs1. clear s1 Hs1. cbn [outgoing set_field delivered_bytes last_delivery_time app_limited]. rewrite Hg.
  destruct (OutgoingMessage.state_at m i Hcore Hi) as [st Hst]. destruct (Hco id m Hg i st Hst) as [Hrc _].
  rewrite (OutgoingMessage.mark_fragment_sent_eq m i st) by (done || unfold u32_max; lia). run.
  destruct (sent_ok n (delivered_bytes s) m i st now (last_delivery_time s) al Hm (Hco id m Hg) ltac:(lia) Hnow Hi Hst Hun) as (Hm' & Hc' & Hwk & Hfb).
  set (m' := OutgoingMessage.with_sent m i _ now) in *.
  pose proof (sender_write _ Hsi id m m' Hg Hm') as Hsw. rewrite Hfb in Hsw.
  rewrite <- (OutgoingMessage.sent_state _ _ _ Hst).
  assert (flush_ok b (n + 1) (s <| outgoing := FlatMap.write (outgoing s) id m' |>
    <| in_flight := in_flight s + (if OutgoingMessage.sent m i then 0 else OutgoingMessage.flen m i) |>
    <| congestion_control := on_fragment_sent (congestion_control s) (OutgoingMessage.flen m i) now |>)) as Hfo.
  { constructor; cbn [outgoing set_field retransmit_count congestion_control]; [|..|lia|lia].
    - replace (in_flight s - OutgoingMessage.flight_bytes m + (OutgoingMessage.flight_bytes m + (if OutgoingMessage.sent m i then 0 else OutgoingMessage.flen m i)))
        with (in_flight s + (if OutgoingMessage.sent m i then 0 else OutgoingMessage.flen m i)) in Hsw by lia.
      destruct Hsw. constructor; try assumption. by apply good_on_fragment_sent.
    - intros j x. rewrite FlatMap.get_write. case_decide as E.
      + subst j. rewrite Hg. cbn. by intros [= <-].
      + intros Hx k y Hy. destruct (Hco j x Hx k y Hy). lia.
    - intros j x k Hstr. rewrite FlatMap.get_write. case_decide as E; [|by apply Hah]. subst j. rewrite Hg. cbn. intros [= <-].
      exact (Hah id m k Hstr Hg).
    - by constructor. }
  pose proof (good_pacing_rate _ _ (so_cc _ _ _ _ _ _ _ _ _ Hsi)) as Hpr.
  assert (FlatMap.keys (FlatMap.write (outgoing s) id m') = FlatMap.keys (outgoing s)) as Hkeys by apply FlatMap.keys_write.
  assert (forall x rc la np, x = in_flight s + (if OutgoingMessage.sent m i then 0 else OutgoingMessage.flen m i) ->
    0 <= rc <= 2 ^ 63 + (n + 1) ->
    let s' := s <| app_limited := al |> <| outgoing := FlatMap.write (outgoing s) id m' |>
      <| retransmit_count := rc |>
      <| congestion_control := on_fragment_sent (congestion_control s) (OutgoingMessage.flen m i) now |>
      <| in_flight := x |> <| last_activity := la |> <| next_pacing_time := np |> in
    flush_ok b (n + 1) s' /\ send_frame s s') as Hfinal.
  { intros x rc la np -> Hrc' s'. destruct Hfo. split; [by constructor|]. by split_and!. }
  destruct (OutgoingMessage.sent m i) eqn:Es.
  - assert (OutgoingMessage.flen m i <= in_flight s) as Hle.
    { etrans; [|apply (flight_elem _ Hsi id m Hg)].
      pose proof (zsum_elem (fun j => if OutgoingMessage.sent m j then OutgoingMessage.flen m j else 0)
        (zrange 0 (OutgoingMessage.num_fragments m)) i) as Hel. cbv beta in Hel. rewrite Es in Hel. apply Hel; [|apply elem_of_zrange; lia].
      intros j Hj%elem_of_zrange. pose proof (OutgoingMessage.flen_bounds m j (OutgoingMessage.core_sized m Hcore) Hj).
      destruct (OutgoingMessage.sent m j); lia. }
    cbn [retransmit_count set_field]. rewrite (chk_u64_ok (retransmit_count s + 1)) by (unfold u64_max; lia). run.
    cbn [in_flight set_field congestion_control]. rewrite (chk_usize_ok (sat_sub _ _ + _)) by (unfold usize_max, sat_sub; lia). run.
    destruct (pace_spec (s <| app_limited := al |> <| outgoing := FlatMap.write (outgoing s) id m' |>
      <| in_flight := sat_sub (in_flight s) (OutgoingMessage.flen m i) |> <| retransmit_count := retransmit_count s + 1 |>
      <| congestion_control := on_fragment_sent (congestion_control s) (OutgoingMessage.flen m i) now |>
      <| in_flight := sat_sub (in_flight s) (OutgoingMessage.flen m i) + OutgoingMessage.flen m i |> <| last_activity := now |>)
      (pacing_rate (congestion_control s)) (OutgoingMessage.flen m i) now Hpr ltac:(lia)) as [np Hnp].
    rewrite Hnp.
    destruct (Hfinal (sat_sub (in_flight s) (OutgoingMessage.flen m i) + OutgoingMessage.flen m i) (retransmit_count s + 1) now np) as [F1 F2];
      [unfold sat_sub; lia|lia|]. eexists _, m'. split; [done|]. split; [exact F1|]. split; [exact F2|]. by split_and!.
  - run. cbn [in_flight set_field congestion_control]. rewrite (chk_usize_ok (in_flight s + _)) by (unfold usize_max; lia). run.
    destruct (pace_spec (s <| app_limited := al |> <| outgoing := FlatMap.write (outgoing s) id m' |>
      <| congestion_control := on_fragment_sent (congestion_control s) (OutgoingMessage.flen m i) now |>
      <| in_flight := in_flight s + OutgoingMessage.flen m i |> <| last_activity := now |>)
      (pacing_rate (congestion_control s)) (OutgoingMessage.flen m i) now Hpr ltac:(lia)) as [np Hnp].
    rewrite Hnp. destruct (Hfinal (in_flight s + OutgoingMessage.flen m i) (retransmit_count s) now np) as [F1 F2]; [done|lia|].
    eexists _, m'. split; [done|]. split; [exact F1|]. split; [exact F2|]. by split_and!.
Qed.

(** Sending a fragment of a message, the transport permitting. *)
Lemma try_send_spec {W} (sender : W -> Packet -> W * bool) b n s w id m i now :
  flush_ok b n s -> room b n 1 -> 0 <= now -> FlatMap.get (outgoing s) id = Some m -> 0 <= i < OutgoingMessage.num_fragments m ->
  (strict = true -> OutgoingMessage.acked m i = false) ->
  exists s' w' (ok : bool), try_send_fragment sender s w id i now = Some (s', w', ok) /\ flush_ok b (n + 1) s' /\ send_frame s s' /\
    if ok then exists m', outgoing s' = FlatMap.write (outgoing s) id m' /\ work now m' = work now m /\
      OutgoingMessage.retransmit_queue m' = OutgoingMessage.retransmit_queue m /\
      OutgoingMessage.in_flight_queue m' = OutgoingMessage.in_flight_queue m ++ [(i, now)] /\
      OutgoingMessage.next_fragment m' = OutgoingMessage.next_fragment m /\
      OutgoingMessage.num_fragments m' = OutgoingMessage.num_fragments m
    else s' = s.
Proof using Hwindow.
  intros Hs Hr Hnow Hg Hi Hun. unfold try_send_fragment. rewrite Hg.
  pose proof (oo_wf _ _ _ (so_out _ _ _ _ _ _ _ _ _ (fo_sender _ _ _ Hs) id m Hg)) as (Hcore & _).
  rewrite OutgoingMessage.get_fragment_ok, OutgoingMessage.fragment_len_ok by (done || apply Hcore). run.
  destruct (sender w _) as [w1 accepted]. destruct accepted; cbn [negb].
  - destruct (fragment_sent_spec b n s id m i now Hs Hr Hnow Hg Hi Hun) as (s' & m' & -> & F1 & F2 & F3). run.
    eexists _, _, true. split; [done|]. split_and!; [done|done|]. by exists m'.
  - eexists _, _, false. split; [done|]. split_and!; [|reflexivity|done]. destruct Hs. constructor; try assumption; [|lia|lia].
    intros j x Hx k y Hy. destruct (fo_counts0 j x Hx k y Hy). lia.
Qed.

(** *** Sending the next fragment of a message *)

Lemma flush_mono b b' n n' s : b <= b' -> n <= n' -> flush_ok b n s -> flush_ok b' n' s.
Proof.
  intros Hb Hn []. pose proof (so_total _ _ _ _ _ _ _ _ _ fo_sender0). constructor; try assumption; [|..|lia|lia].
  - apply (sender_mono _ fo_sender0); lia.
  - intros j x Hx k y Hy. destruct (fo_counts0 j x Hx k y Hy). lia.
Qed.

Lemma flush_write b n s id m m' :
  flush_ok b n s -> FlatMap.get (outgoing s) id = Some m -> outgoing_ok strict (delivered_bytes s) m' -> counts n m' ->
  OutgoingMessage.flight_bytes m' = OutgoingMessage.flight_bytes m ->
  (forall i, OutgoingMessage.next_fragment m' <= i -> OutgoingMessage.next_fragment m <= i /\ OutgoingMessage.acked m' i = OutgoingMessage.acked m i) ->
  flush_ok b n (s <| outgoing := FlatMap.write (outgoing s) id m' |>).
Proof.
  intros [] Hg Hm' Hc Hfb Ha. constructor; try assumption.
  - pose proof (sender_write _ fo_sender0 id m m' Hg Hm') as Hw. rewrite Hfb in Hw.
    replace (in_flight s - OutgoingMessage.flight_bytes m + OutgoingMessage.flight_bytes m) with (in_flight s) in Hw by lia. exact Hw.
  - cbn. intros j x. rewrite FlatMap.get_write. case_decide as E; [|eauto]. subst j. rewrite Hg. cbn. by intros [= <-].
  - cbn. intros j x i Hst. rewrite FlatMap.get_write. case_decide as E; [|eauto]. subst j. rewrite Hg. cbn. intros [= <-] Hi.
    destruct (Ha i Hi) as [? ->]. eauto.
Qed.

Lemma work_write now s id m m' :
  FlatMap.get (outgoing s) id = Some m ->
  zsum (work now) (FlatMap.values (FlatMap.write (outgoing s) id m')) = total_work now s - work now m + work now m'.
Proof. intros Hg. unfold total_work. by rewrite (FlatMap.zsum_write _ _ _ _ m). Qed.

Lemma get_written {K V} `{EqDecision K} (l : list (K * V)) k v w : FlatMap.get l k = Some w -> FlatMap.get (FlatMap.write l k v) k = Some v.
Proof. intros Hg. by rewrite FlatMap.get_write, decide_True, Hg. Qed.

(** What a step of the main loop achieves. *)
Definition sent_step (now : Instant) (b n : Z) s s' (ok : bool) : Prop :=
  flush_ok (b + ESTIMATED_PAYLOAD_SIZE) (n + 2) s' /\ send_frame s s' /\
  (ok = true -> total_work now s' + 1 <= total_work now s) /\ (ok = false -> s' = s).

Section Sender.
Context {W : Type} (sender : W -> Packet -> W * bool).

(** Sending a fragment and then changing its message in a way that takes one
    piece of work away. *)
Lemma send_then b n s w id m i now (f : OutgoingMessage.t -> OutgoingMessage.t) :
  flush_ok b n s -> room b n 1 -> 0 <= now -> FlatMap.get (outgoing s) id = Some m -> 0 <= i < OutgoingMessage.num_fragments m ->
  (strict = true -> OutgoingMessage.acked m i = false) ->
  (forall m', outgoing_ok strict (delivered_bytes s) m' -> counts (n + 1) m' ->
     OutgoingMessage.retransmit_queue m' = OutgoingMessage.retransmit_queue m ->
     OutgoingMessage.next_fragment m' = OutgoingMessage.next_fragment m ->
     OutgoingMessage.num_fragments m' = OutgoingMessage.num_fragments m ->
     outgoing_ok strict (delivered_bytes s) (f m') /\ counts (n + 1) (f m') /\ work now (f m') = work now m' - 1 /\
     OutgoingMessage.flight_bytes (f m') = OutgoingMessage.flight_bytes m' /\
     (forall j, OutgoingMessage.next_fragment (f m') <= j -> OutgoingMessage.next_fragment m' <= j /\ OutgoingMessage.acked (f m') j = OutgoingMessage.acked m' j)) ->
  exists s' w' (ok : bool),
    ('(s, w, ok) ← try_send_fragment sender s w id i now; Some (if (ok : bool) then update_outgoing s id f else s, w, ok)) = Some (s', w', ok) /\
    sent_step now b n s s' ok.
Proof using Hwindow.
  intros Hs Hr Hnow Hg Hi Hun Hf.
  destruct (try_send_spec sender b n s w id m i now Hs Hr Hnow Hg Hi Hun) as (s1 & w1 & ok & -> & F1 & F2 & F3). run.
  eexists _, _, _. split; [done|]. destruct ok; [|subst s1; split_and!; [|done|done|done]].
  2: { eapply flush_mono; [| |exact F1]; unfold ESTIMATED_PAYLOAD_SIZE; lia. }
  destruct F3 as (m' & Ho & Hwk & Hrq & _ & Hnx & Hnum).
  assert (FlatMap.get (outgoing s1) id = Some m') as Hg1 by (rewrite Ho; by eapply get_written).
  assert (delivered_bytes s1 = delivered_bytes s) as Hdel by apply F2.
  pose proof (so_out _ _ _ _ _ _ _ _ _ (fo_sender _ _ _ F1) id m' Hg1) as Hm'. rewrite Hdel in Hm'.
  destruct (Hf m' Hm' (fo_counts _ _ _ F1 id m' Hg1) Hrq Hnx Hnum) as (G1 & G2 & G3 & G4 & G5). rewrite <- Hdel in G1.
  unfold update_outgoing, FlatMap.get_mut. rewrite Hg1. split; [|split; [|split; [|done]]].
  - eapply flush_mono; [| |exact (flush_write b (n + 1) s1 id m' (f m') F1 Hg1 G1 G2 G4 G5)]; unfold ESTIMATED_PAYLOAD_SIZE; lia.
  - etrans; [exact F2|]. split_and!; try done. cbn. apply FlatMap.keys_write.
  - intros _. unfold total_work at 1. cbn [outgoing set_field]. rewrite (work_write now s1 id m') by done. unfold total_work at 1. rewrite Ho.
    rewrite (work_write now s id m) by done. lia.
Qed.

Lemma send_new_spec b n s w id m now :
  flush_ok b n s -> room b n 1 -> 0 <= now -> FlatMap.get (outgoing s) id = Some m ->
  exists s' w' ok, send_new sender s w id m now = Some (s', w', ok) /\ sent_step now b n s s' ok.
Proof using Hwindow.
  intros Hs Hr Hnow Hg. unfold send_new, has_new. destruct (Z.ltb_spec (OutgoingMessage.next_fragment m) (OutgoingMessage.num_fragments m)) as [Hlt|_].
  - pose proof (oo_wf _ _ _ (so_out _ _ _ _ _ _ _ _ _ (fo_sender _ _ _ Hs) id m Hg)) as (Hcore & _).
    pose proof (OutgoingMessage.core_next m Hcore). apply (send_then b n s w id m); try done; [lia|intros Hst; apply (fo_ahead _ _ _ Hs id m _ Hst Hg); lia|].
    intros m' Hm' Hc' Hrq Hnx Hnum. destruct (advance_ok (n + 1) (delivered_bytes s) m' now Hm' Hc' ltac:(lia)) as (A1 & A2 & A3 & A4).
    split_and!; try done. intros j Hj. cbn in Hj. split; [lia|done].
  - eexists _, _, false. split; [done|]. split_and!; [|reflexivity|done|done].
    eapply flush_mono; [| |exact Hs]; unfold ESTIMATED_PAYLOAD_SIZE; lia.
Qed.

Lemma send_next_spec b n s w id now :
  flush_ok b n s -> room b n 1 -> 0 <= now ->
  exists s' w' ok, send_next_fragment_for_message sender s w id now = Some (s', w', ok) /\ sent_step now b n s s' ok.
Proof using Hwindow.
  intros Hs Hr Hnow. unfold send_next_fragment_for_message.
  assert (sent_step now b n s s false) as Hnone.
  { split_and!; [|reflexivity|done|done]. eapply flush_mono; [| |exact Hs]; unfold ESTIMATED_PAYLOAD_SIZE; lia. }
  destruct (FlatMap.get (outgoing s) id) as [m|] eqn:Hg; [|by eexists _, _, false].
  pose proof (so_out _ _ _ _ _ _ _ _ _ (fo_sender _ _ _ Hs) id m Hg) as [(Hcore & _ & Hfl & Hrq) Hcl _ _ _ _].
  destruct (OutgoingMessage.retransmit_queue m) as [|i l] eqn:Erq.
  - destruct (OutgoingMessage.in_flight_queue m) as [|[i at_] l] eqn:Eq; [by apply send_new_spec|].
    assert (0 <= i < OutgoingMessage.num_fragments m) as Hi by (eapply (OutgoingMessage.core_queue m Hcore); rewrite Eq; left).
    destruct (OutgoingMessage.state_at m i Hcore Hi) as [st Hst]. rewrite Hst. run.
    destruct (fo_counts _ _ _ Hs id m Hg i st Hst) as [_ Hbo].
    pose proof (so_rtt _ _ _ _ _ _ _ _ _ (fo_sender _ _ _ Hs)) as Hrtt.
    destruct (RttEstimator.backoff_spec (rtt s) (rto_backoff st) Hrtt ltac:(lia)) as (d & -> & Hd). run.
    destruct (Z.leb_spec d (since now at_)) as [Hexp|_]; [|by apply send_new_spec].
    assert (at_ < now) as Hat.
    { pose proof (RttEstimator.wf_rto _ Hrtt). unfold MIN_RTO, from_millis, since, sat_sub in *. lia. }
    assert (OutgoingMessage.sent m i = true) as Hsent.
    { rewrite <- Hfl by lia. rewrite Eq. cbn. by rewrite Z.eqb_refl. }
    destruct (try_send_spec sender b n s w id m i now Hs Hr Hnow Hg Hi) as (s1 & w1 & ok & -> & F1 & F2 & F3).
    { intros Hstr. destruct (OutgoingMessage.acked m i) eqn:Ea; [|done]. by rewrite Hcl in Hsent by (done || lia). }
    run. destruct ok; [|subst s1; eexists _, _, false; split; [done|exact Hnone]].
    destruct F3 as (m' & Ho & Hwk & Hrq' & Hq' & Hnx & Hnum).
    assert (FlatMap.get (outgoing s1) id = Some m') as Hg1 by (rewrite Ho; by eapply get_written). rewrite Hg1.
    pose proof (so_out _ _ _ _ _ _ _ _ _ (fo_sender _ _ _ F1) id m' Hg1) as Hm'.
    destruct Hr as (_ & Hr1 & Hr2). pose proof (fo_n _ _ _ Hs). unfold ESTIMATED_PAYLOAD_SIZE, STEP, u32_max in Hr1, Hr2.
    destruct (OutgoingMessage.state_at m' i (proj1 (oo_wf _ _ _ Hm')) ltac:(lia)) as [st' Hst'].
    rewrite Eq in Hq'. cbn [app] in Hq'.
    destruct (after_timeout_ok (n + 1) (delivered_bytes s1) m' i at_ (l ++ [(i, now)]) st' now Hm' (fo_counts _ _ _ F1 id m' Hg1)
      ltac:(unfold u32_max; lia) Hq') as (m2 & -> & T1 & T2 & T3 & T4 & T5 & T6); [|done|done|].
    { etrans; [apply OutgoingMessage.in_queue_app|]. cbn. rewrite Z.eqb_refl, orb_true_r. done. }
    run. destruct (good_on_timeout b (congestion_control s1) now) as (cc & Hcc & Hgc); [apply F1|unfold ESTIMATED_PAYLOAD_SIZE; lia|].
    rewrite Hcc. run. eexists _, _, true. split; [done|].
    replace (n + 1 + 1) with (n + 2) in T2 by lia.
    assert (flush_ok b (n + 2) s1) as F1' by (eapply flush_mono; [| |exact F1]; lia).
    assert (forall j, OutgoingMessage.next_fragment m2 <= j -> OutgoingMessage.next_fragment m' <= j /\ OutgoingMessage.acked m2 j = OutgoingMessage.acked m' j) as Hfr.
    { intros j Hj. rewrite T5 in Hj. split; [done|]. unfold OutgoingMessage.acked. by rewrite T6. }
    pose proof (flush_write b (n + 2) s1 id m' m2 F1' Hg1 T1 T2 T4 Hfr) as Hfw.
    split; [|split; [|split; [|done]]].
    + assert (b <= b + ESTIMATED_PAYLOAD_SIZE) as Hbb by (unfold ESTIMATED_PAYLOAD_SIZE; lia).
      pose proof (flush_mono b (b + ESTIMATED_PAYLOAD_SIZE) (n + 2) (n + 2) _ Hbb ltac:(lia) Hfw) as [G1 G2 G3 G4 G5 G6].
      constructor; try assumption; [|by eapply driven_timeout]. destruct G1. by constructor.
    + etrans; [exact F2|]. split_and!; try done. cbn. apply FlatMap.keys_write.
    + intros _. unfold total_work at 1. cbn [outgoing set_field]. rewrite (work_write now s1 id m') by done. unfold total_work at 1. rewrite Ho.
      rewrite (work_write now s id m) by done. lia.
  - assert (0 <= i < OutgoingMessage.num_fragments m) as Hi by (apply (OutgoingMessage.core_rq m Hcore); rewrite Erq; left).
    apply (send_then b n s w id m); try done; [intros _; apply Hrq; rewrite Erq; left|].
    intros m' Hm' Hc' Hrq' Hnx Hnum. destruct (pop_ok (n + 1) (delivered_bytes s) m' i l now Hm' Hc' ltac:(congruence)) as (A1 & A2 & A3 & A4).
    split_and!; try done. unfold pop_retransmit. by rewrite Hrq', Erq.
Qed.

(** *** The main loop *)

Lemma frag_len total m i :
  outgoing_ok strict total m -> 0 <= i < OutgoingMessage.num_fragments m ->
  OutgoingMessage.fragment_len m i = Some (OutgoingMessage.flen m i) /\ 0 < OutgoingMessage.flen m i <= 1353.
Proof.
  intros [(Hcore & _) _ _ _ Hmtu _] Hi. split; [by apply OutgoingMessage.fragment_len_ok; [apply Hcore|]|].
  pose proof (OutgoingMessage.flen_bounds m i (OutgoingMessage.core_sized m Hcore) Hi) as Hl. rewrite Hmtu in Hl. exact Hl.
Qed.

Lemma is_ready_spec b n s any now id :
  flush_ok b n s -> b <= 2 ^ 62 ->
  exists r, is_ready s any now id = Some r /\ forall size, r = Some size -> 0 <= size <= 1536.
Proof.
  intros Hs Hb. unfold is_ready. destruct (FlatMap.get (outgoing s) id) as [m|] eqn:Hg; [|by eexists].
  destruct (now <? next_pacing_time s); [by eexists|]. pose proof (fo_sender _ _ _ Hs) as Hsi.
  pose proof (so_out _ _ _ _ _ _ _ _ _ Hsi id m Hg) as Hm. pose proof (oo_wf _ _ _ Hm) as (Hcore & _).
  pose proof (flight_bounds _ Hsi) as Hfl. set (under := _ <? _).
  assert (forall i, 0 <= i < OutgoingMessage.num_fragments m -> exists x, OutgoingMessage.fragment_len m i = Some x /\ 0 <= x <= 1536 /\
    chk_usize (in_flight s + x) = Some (in_flight s + x)) as Hlen.
  { intros i Hi. destruct (frag_len _ m i Hm Hi) as [-> ?]. eexists. split; [done|]. split; [lia|]. apply chk_usize_ok. unfold usize_max. lia. }
  assert (forall (x : Z) (c : bool), 0 <= x <= 1536 -> forall size, (if c then Some x else None) = Some size -> 0 <= size <= 1536) as Hif
    by (intros x [] Hx size Hsz; naive_solver).
  assert (exists a, match OutgoingMessage.retransmit_queue m with
     | i :: _ => if OutgoingMessage.is_acked m i then Some None
                 else n ← OutgoingMessage.fragment_len m i;
                   if i =? OutgoingMessage.highest_cumulative_ack m then Some (if under || negb any then Some n else None)
                   else if under then f ← (sum ← chk_usize (in_flight s + n); Some (sum <=? peer_rwnd s)); Some (if (f : bool) then Some n else None)
                   else Some None
     | [] => Some None end = Some a /\ forall size, a = Some size -> 0 <= size <= 1536) as (a & -> & Ha).
  { destruct (OutgoingMessage.retransmit_queue m) as [|i l] eqn:Erq; [by eexists|].
    destruct (OutgoingMessage.is_acked m i); [by eexists|].
    destruct (Hlen i) as (x & -> & Hx & Hchk); [apply (OutgoingMessage.core_rq m Hcore); rewrite Erq; left|]. run. rewrite Hchk. run.
    destruct (_ =? _); [eexists; split; [done|by apply Hif]|]. destruct under; [|by eexists]. eexists. split; [done|by apply Hif]. }
  run. destruct a as [x|]; [by eexists|].
  pose proof (so_rtt _ _ _ _ _ _ _ _ _ Hsi) as Hrtt.
  assert (exists a, match OutgoingMessage.in_flight_queue m with
     | (i, at_) :: _ =>
         state ← idx (OutgoingMessage.fragment_states m) i;
         current_rto ← rto_shifted (RttEstimator.rto (rtt s)) (rto_backoff state);
         if (current_rto <=? since now at_) && negb (OutgoingMessage.is_acked m i) && latest state at_ then
           n ← OutgoingMessage.fragment_len m i;
           ok ← (if under then f ← (sum ← chk_usize (in_flight s + n); Some (sum <=? peer_rwnd s)); Some ((f : bool) || negb any)
                 else Some (negb any));
           Some (if (ok : bool) then Some n else None)
         else Some None
     | [] => Some None end = Some a /\ forall size, a = Some size -> 0 <= size <= 1536) as (a & -> & Ha').
  { destruct (OutgoingMessage.in_flight_queue m) as [|[i at_] l] eqn:Eq; [by eexists|].
    assert (0 <= i < OutgoingMessage.num_fragments m) as Hi by (eapply (OutgoingMessage.core_queue m Hcore); rewrite Eq; left).
    destruct (OutgoingMessage.state_at m i Hcore Hi) as [st Hst]. rewrite Hst. run. destruct (fo_counts _ _ _ Hs id m Hg i st Hst) as [_ Hbo].
    unfold rto_shifted. destruct (RttEstimator.backoff_scaled (RttEstimator.rto (rtt s)) (Z.min 6 (rto_backoff st))) as [-> _];
      [apply Hrtt|lia|]. run. destruct (_ && _ && _); [|by eexists].
    destruct (Hlen i Hi) as (x & -> & Hx & Hchk). run. rewrite Hchk. run. destruct under; run; (eexists; split; [done|by apply Hif]). }
  run. destruct a as [x|]; [by eexists|].
  unfold has_new. destruct (Z.ltb_spec (OutgoingMessage.next_fragment m) (OutgoingMessage.num_fragments m)) as [Hlt|_]; [|by eexists].
  pose proof (OutgoingMessage.core_next m Hcore). destruct (OutgoingMessage.state_at m (OutgoingMessage.next_fragment m) Hcore ltac:(lia)) as [st ->]. run.
  destruct (_ && _ && _); [|by eexists]. destruct (Hlen (OutgoingMessage.next_fragment m) ltac:(lia)) as (x & -> & Hx & Hchk). run. rewrite Hchk. run.
  destruct under; [|by eexists]. eexists. split; [done|by apply Hif].
Qed.

Lemma flush_scheduler b n s sch :
  flush_ok b n s -> PriorityScheduler.wf sch ->
  (forall x, 0 <= x < 5 -> PriorityScheduler.queue sch x ≡ₚ PriorityScheduler.queue (scheduler s) x) ->
  flush_ok b n (s <| scheduler := sch |>).
Proof.
  intros [] Hwf Hq. constructor; try assumption. destruct fo_sender0. constructor; try assumption.
  intros j. rewrite <- so_scheduled0. unfold scheduled. cbn. split; intros (p & Hp & Hj); exists p; (split; [done|]);
    [by rewrite <- Hq|by rewrite Hq].
Qed.

Lemma work_nonneg now b n s m : flush_ok b n s -> m ∈ FlatMap.values (outgoing s) -> 0 <= work now m.
Proof.
  intros Hs Hm. apply (value_ok _ (fo_sender _ _ _ Hs)) in Hm as [(Hcore & _) _ _ _ _ _].
  pose proof (OutgoingMessage.core_next m Hcore). unfold work. pose proof (len_nonneg (OutgoingMessage.retransmit_queue m)).
  pose proof (count_if_bounds (fun p => p.2 <? now) (OutgoingMessage.in_flight_queue m)). lia.
Qed.

Lemma total_work_nonneg now b n s : flush_ok b n s -> 0 <= total_work now s.
Proof. intros Hs. apply zsum_nonneg. intros m Hm. by eapply work_nonneg. Qed.

(** The loop ends within [total_work] rounds that send. *)
Lemma send_loop_spec fuel b n s w any now :
  flush_ok b n s -> 0 <= now -> total_work now s < Z.of_nat fuel -> room b n (total_work now s + 1) ->
  exists s' w' any' k, send_loop sender fuel s w any now = Some (s', w', any') /\ 0 <= k <= total_work now s + 1 /\
    flush_ok (b + ESTIMATED_PAYLOAD_SIZE * k) (n + 2 * k) s' /\ send_frame s s' /\ total_work now s' <= total_work now s.
Proof using Hwindow.
  revert b n s w any. induction fuel as [|fuel IH]; intros b n s w any Hs Hnow Hf Hr; [pose proof (total_work_nonneg now b n s Hs); lia|].
  pose proof (total_work_nonneg now b n s Hs) as H0'. pose proof Hr as (_ & Hr1 & Hr2). unfold ESTIMATED_PAYLOAD_SIZE, STEP in Hr1.
  cbn [send_loop].
  destruct (PriorityScheduler.next_message_spec (is_ready s any now) 1536) with (s := scheduler s) as (sch & r & -> & Hwf & Hq & _).
  { intros id. apply (is_ready_spec b n); [done|lia]. }
  { lia. }
  { apply (so_sched _ _ _ _ _ _ _ _ _ (fo_sender _ _ _ Hs)). }
  run. set (s1 := s <| scheduler := sch |>). assert (flush_ok b n s1) as Hs1 by (by apply flush_scheduler).
  assert (send_frame s s1) as Hfr1 by (split_and!; done || reflexivity).
  destruct r as [id|].
  2: { exists s1, w, any, 0. split; [done|]. split; [lia|]. split; [|split; [done|done]]. by replace (b + _) with b by lia; replace (n + _) with n by lia. }
  destruct (send_next_spec b n s1 w id now Hs1) as (s2 & w2 & ok & -> & G1 & G2 & G3 & G4); [|done|].
  { unfold room, ESTIMATED_PAYLOAD_SIZE, STEP. lia. }
  run. destruct ok.
  - specialize (G3 eq_refl). change (total_work now s1) with (total_work now s) in G3. unfold ESTIMATED_PAYLOAD_SIZE in G1.
    destruct (IH (b + 1300) (n + 2) s2 w2 true G1 Hnow ltac:(lia)) as (s3 & w3 & any3 & k & -> & Hk & F1 & F2 & F3).
    { unfold room, ESTIMATED_PAYLOAD_SIZE, STEP. pose proof (total_work_nonneg now _ _ s2 G1). lia. }
    exists s3, w3, any3, (k + 1). split; [done|]. split; [lia|]. split; [|split; [by etrans; [exact Hfr1|etrans]|lia]].
    unfold ESTIMATED_PAYLOAD_SIZE in *. by replace (b + 1300 * (k + 1)) with (b + 1300 + 1300 * k) by lia; replace (n + 2 * (k + 1)) with (n + 2 + 2 * k) by lia.
  - rewrite (G4 eq_refl) in *. exists s1, w2, any, 0. split; [done|]. split; [lia|]. split; [|split; [done|done]].
    by replace (b + _) with b by lia; replace (n + _) with n by lia.
Qed.

(** *** Probes, datagrams and pings *)

(** What a whole flush leaves alone. *)
Definition flush_frame s s' : Prop :=
  incoming s' = incoming s /\ incoming_buffer_size s' = incoming_buffer_size s /\ max_per_session s' = max_per_session s /\
  completed_incoming s' = completed_incoming s /\ highest_received_id s' = highest_received_id s /\ events s' = events s /\
  next_message_id s' = next_message_id s /\ FlatMap.keys (outgoing s') = FlatMap.keys (outgoing s) /\
  (forall x, x ∈ FlatMap.values (pending_acks s') -> x ∈ FlatMap.values (pending_acks s)).

#[global] Instance flush_frame_preorder : PreOrder flush_frame.
Proof.
  split; [intros s; split_and!; done || auto|]. intros s1 s2 s3 (A1 & A2 & A3 & A4 & A5 & A6 & A7 & A8 & A9) (B1 & B2 & B3 & B4 & B5 & B6 & B7 & B8 & B9).
  split_and!; try congruence. auto.
Qed.

Lemma send_flush_frame s s' : send_frame s s' -> flush_frame s s'.
Proof.
  intros ((R1 & R2 & R3 & R4 & R5 & R6 & R7) & E & _ & _ & _ & N & K & _). split_and!; try done. by rewrite R5.
Qed.

Lemma send_ping_spec b n s w now now_ms :
  flush_ok b n s -> 0 <= now ->
  exists s' w', send_ping sender s w now now_ms = (s', w') /\ flush_ok b n s' /\ flush_frame s s' /\ outgoing s' = outgoing s /\
    zero_window_probes_sent s' = zero_window_probes_sent s /\ datagram_queue s' = datagram_queue s.
Proof.
  intros Hs Hnow. unfold send_ping. destruct (_ <=? _); [|eexists _, _; split; [done|]; split_and!; done || reflexivity].
  destruct (sender w (Ping now_ms)) as [w1 []]; (eexists _, _; split; [done|]); (split; [|split; [|done]]).
  - destruct Hs. constructor; try assumption. destruct fo_sender0. constructor; try assumption. cbn. by intros x [= <-].
  - by split_and!.
  - done.
  - reflexivity.
Qed.

Lemma send_datagrams_spec fuel b n s w now :
  flush_ok b n s -> (forall mt d, Datagram mt d ∈ datagram_queue s -> len d <= MAX_TOX_PACKET_SIZE) ->
  exists s' w', send_datagrams sender fuel s w now = Some (s', w') /\ flush_ok b n s' /\ flush_frame s s' /\ outgoing s' = outgoing s /\
    zero_window_probes_sent s' = zero_window_probes_sent s.
Proof.
  revert s w. induction fuel as [|fuel IH]; intros s w Hs Hd; cbn [send_datagrams];
    [eexists _, _; split; [done|]; split_and!; done || reflexivity|].
  destruct (datagram_queue s) as [|dg rest] eqn:Eq; [eexists _, _; split; [done|]; split_and!; done || reflexivity|].
  destruct (now <? next_pacing_time s); [eexists _, _; split; [done|]; split_and!; done || reflexivity|].
  assert (exists l, (match dg with Datagram _ data => chk_usize (len data + 10) | _ => Some 0 end) = Some l /\ 0 <= l <= 2 ^ 40) as (l & -> & Hl).
  { destruct dg as [| | | | |mt d]; try (eexists; split; [done|lia]). unfold MAX_TOX_PACKET_SIZE in Hd.
    assert (len d <= 1373) by (eapply Hd; left). pose proof (len_nonneg d). run_chk. eexists. split; [done|lia]. }
  run. set (s1 := s <| datagram_queue := rest |>). assert (flush_ok b n s1) as Hs1 by (destruct Hs; by constructor).
  assert (flush_frame s s1) as Hf1 by (split_and!; done || reflexivity).
  destruct (sender w dg) as [w1 []]; cbn [negb]; [|eexists _, _; split; [done|]; by split_and!].
  destruct (pace_spec (s1 <| last_activity := now |>) (pacing_rate (congestion_control s)) l now) as [x Hx];
    [eapply good_pacing_rate, (so_cc _ _ _ _ _ _ _ _ _ (fo_sender _ _ _ Hs))|done|].
  change (pacing_rate (congestion_control (s1 <| last_activity := now |>))) with (pacing_rate (congestion_control s)). rewrite Hx. run.
  set (s2 := s1 <| last_activity := now |> <| next_pacing_time := x |>).
  destruct (IH s2 w1) as (s3 & w3 & -> & F1 & F2 & F3 & F4); [destruct Hs; by constructor|intros mt d Hin; eapply Hd; by right|].
  eexists _, _. split; [done|]. split_and!; [done| |by rewrite F3|by rewrite F4]. etrans; [|exact F2]. by split_and!.
Qed.

Lemma probe_target_spec l id i nw :
  probe_target l = Some (id, i, nw) -> exists m, (id, m) ∈ l /\
    (if (nw : bool) then OutgoingMessage.next_fragment m = i /\ i < OutgoingMessage.num_fragments m
     else i ∈ OutgoingMessage.retransmit_queue m \/ exists at_, (i, at_) ∈ OutgoingMessage.in_flight_queue m).
Proof.
  induction l as [|[id' m] l IH]; cbn [probe_target]; [done|].
  destruct (OutgoingMessage.retransmit_queue m) as [|j q] eqn:Erq.
  - unfold has_new. destruct (Z.ltb_spec (OutgoingMessage.next_fragment m) (OutgoingMessage.num_fragments m)).
    + intros [= <- <- <-]. exists m. split; [left|done].
    + destruct (OutgoingMessage.in_flight_queue m) as [|[j at_] q] eqn:Eq; [intros (m0 & ? & Hm0)%IH; exists m0; split; [by right|exact Hm0]|].
      intros [= <- <- <-]. exists m. split; [left|]. right. exists at_. rewrite Eq. left.
  - intros [= <- <- <-]. exists m. split; [left|]. left. rewrite Erq. left.
Qed.

(** A fragment in flight, or waiting for retransmission, may be sent. *)
Lemma sendable b n s id m i :
  flush_ok b n s -> FlatMap.get (outgoing s) id = Some m ->
  i ∈ OutgoingMessage.retransmit_queue m \/ (exists at_, (i, at_) ∈ OutgoingMessage.in_flight_queue m) ->
  0 <= i < OutgoingMessage.num_fragments m /\ (strict = true -> OutgoingMessage.acked m i = false).
Proof.
  intros Hs Hg Hi. pose proof (so_out _ _ _ _ _ _ _ _ _ (fo_sender _ _ _ Hs) id m Hg) as [(Hcore & _ & Hfl & Hrq) Hcl _ _ _ _].
  destruct Hi as [Hi|[at_ Hi]].
  - split; [by apply (OutgoingMessage.core_rq m Hcore)|]. intros _. by apply Hrq.
  - assert (0 <= i < OutgoingMessage.num_fragments m) as Hr by (by eapply (OutgoingMessage.core_queue m Hcore)). split; [done|]. intros Hst.
    destruct (OutgoingMessage.acked m i) eqn:E; [|done]. apply (Hcl Hst) in E; [|lia]. rewrite <- Hfl in E by lia. rewrite <- E.
    symmetry. apply List.existsb_exists. exists (i, at_). split; [by apply list_elem_of_In|apply Z.eqb_refl].
Qed.

Lemma send_probe_spec b n s w now :
  flush_ok b n s -> room b n 1 -> 0 <= now -> 0 <= zero_window_probes_sent s < u32_max ->
  exists s' w', send_probe sender s w now = Some (s', w') /\ flush_ok (b + ESTIMATED_PAYLOAD_SIZE) (n + 2) s' /\ flush_frame s s' /\
    total_work now s' <= total_work now s.
Proof using Hwindow.
  intros Hs Hr Hnow Hz. unfold send_probe.
  assert (flush_ok (b + ESTIMATED_PAYLOAD_SIZE) (n + 2) s) as Hs' by (eapply flush_mono; [| |exact Hs]; unfold ESTIMATED_PAYLOAD_SIZE; lia).
  destruct (_ && _); [|eexists _, _; split; [done|]; split_and!; done || reflexivity].
  destruct (RttEstimator.backoff_spec (rtt s) (zero_window_probes_sent s)) as (d & -> & _); [apply (fo_sender _ _ _ Hs)|lia|]. run.
  destruct (_ && _); [|eexists _, _; split; [done|]; split_and!; done || reflexivity].
  destruct (probe_target (outgoing s)) as [[[id i] nw]|] eqn:Ep; [|eexists _, _; split; [done|]; split_and!; done || reflexivity].
  apply probe_target_spec in Ep as (m & Hin & Hcase). apply FlatMap.elem_get in Hin as Hg; [|apply (fo_sender _ _ _ Hs)].
  assert (0 <= i < OutgoingMessage.num_fragments m /\ (strict = true -> OutgoingMessage.acked m i = false)) as [Hi Hun].
  { destruct nw; [|by apply (sendable b n s id m)]. destruct Hcase as [<- Hlt].
    pose proof (OutgoingMessage.core_next m (proj1 (oo_wf _ _ _ (so_out _ _ _ _ _ _ _ _ _ (fo_sender _ _ _ Hs) id m Hg)))).
    split; [lia|]. intros Hst. by apply (fo_ahead _ _ _ Hs id m _ Hst Hg). }
  destruct (try_send_spec sender b n s w id m i now Hs Hr Hnow Hg Hi Hun) as (s1 & w1 & ok & -> & F1 & F2 & F3). run.
  destruct ok; [|subst s1; eexists _, _; split; [done|]; split_and!; done || reflexivity].
  destruct F3 as (m' & Ho & Hwk & Hrq & _ & Hnx & Hnum).
  assert (FlatMap.get (outgoing s1) id = Some m') as Hg1 by (rewrite Ho; by eapply get_written).
  assert (total_work now s1 = total_work now s) as Htw.
  { unfold total_work at 1. rewrite Ho, (work_write now s id m) by done. lia. }
  set (s2 := if nw then update_outgoing s1 id advance_next else s1).
  assert (flush_ok b (n + 1) s2 /\ send_frame s1 s2 /\ total_work now s2 <= total_work now s1) as (G1 & G2 & G3).
  { unfold s2. destruct nw; [|by split_and!]. destruct Hcase as [<- Hlt].
    pose proof (so_out _ _ _ _ _ _ _ _ _ (fo_sender _ _ _ F1) id m' Hg1) as Hm'.
    destruct (advance_ok (n + 1) (delivered_bytes s1) m' now Hm' (fo_counts _ _ _ F1 id m' Hg1) ltac:(lia)) as (A1 & A2 & A3 & A4).
    unfold update_outgoing, FlatMap.get_mut. rewrite Hg1. split_and!.
    - apply (flush_write b (n + 1) s1 id m'); try done. intros k Hk. cbn in Hk. split; [lia|done].
    - split_and!; try done. cbn. apply FlatMap.keys_write.
    - unfold total_work at 1. cbn [outgoing set_field]. rewrite (work_write now s1 id m') by done. lia. }
  assert (zero_window_probes_sent s2 = zero_window_probes_sent s) as -> by (transitivity (zero_window_probes_sent s1); [apply G2|apply F2]).
  unfold u32_max in Hz. run_chk. eexists _, _. split; [done|]. split; [|split].
  - eapply flush_mono in G1; [destruct G1; by constructor|unfold ESTIMATED_PAYLOAD_SIZE; lia|lia].
  - etrans; [apply send_flush_frame; by etrans|]. by split_and!.
  - change (total_work now s2 <= total_work now s). lia.
Qed.

Lemma tlp_target_spec l th now id i :
  tlp_target l th now = Some (id, i) -> exists m at_, (id, m) ∈ l /\ (i, at_) ∈ OutgoingMessage.in_flight_queue m.
Proof.
  induction l as [|[id' m] l IH]; cbn [tlp_target]; [done|].
  destruct (last (OutgoingMessage.in_flight_queue m)) as [[j at_]|] eqn:El.
  - destruct (th <=? since now at_); [|intros (m0 & a & ? & ?)%IH; exists m0, a; split; [by right|done]].
    intros [= <- <-]. exists m, at_. split; [left|]. by eapply last_Some_elem_of.
  - intros (m0 & a & ? & ?)%IH. exists m0, a. split; [by right|done].
Qed.

Lemma tlp_threshold_ok s : RttEstimator.wf (rtt s) -> is_Some (tlp_threshold s).
Proof.
  intros [Hs _ _]. unfold tlp_threshold. change (F32.lit 3 2) with (S754_finite false 12582912 (-23)).
  destruct (RttEstimator.weighted (RttEstimator.srtt (rtt s)) 12582912 (-23) 12) as (d & -> & _); [done|lia|lia|lia|done|]. run. by eexists.
Qed.

Lemma send_tlp_spec b n s w any now :
  flush_ok b n s -> room b n 1 -> 0 <= now ->
  exists s' w', send_tlp sender s w any now = Some (s', w') /\ flush_ok b (n + 1) s' /\ flush_frame s s'.
Proof using Hwindow.
  intros Hs Hr Hnow. unfold send_tlp.
  assert (flush_ok b (n + 1) s) as Hs' by (eapply flush_mono; [| |exact Hs]; lia).
  destruct (_ && _); [|eexists _, _; split; [done|]; split; [done|reflexivity]].
  destruct (tlp_threshold_ok s) as [th ->]; [apply (fo_sender _ _ _ Hs)|]. run.
  destruct (tlp_target (outgoing s) th now) as [[id i]|] eqn:Et; [|eexists _, _; split; [done|]; split; [done|reflexivity]].
  apply tlp_target_spec in Et as (m & at_ & Hin & Hq). apply FlatMap.elem_get in Hin as Hg; [|apply (fo_sender _ _ _ Hs)].
  destruct (sendable b n s id m i Hs Hg) as [Hi Hun]; [right; by exists at_|].
  destruct (try_send_spec sender b n s w id m i now Hs Hr Hnow Hg Hi Hun) as (s1 & w1 & ok & -> & F1 & F2 & _). run.
  eexists _, _. split; [done|]. split; [done|by apply send_flush_frame].
Qed.

(** *** Acknowledgements *)

Lemma flush_pending b n s pa pn :
  flush_ok b n s -> flush_ok b n (s <| pending_acks := pa |> <| pending_nacks := pn |>).
Proof. intros []. by constructor. Qed.

Lemma send_acks_spec b n s w rwnd ids :
  flush_ok b n s -> exists s' w', send_acks sender s w rwnd ids = (s', w') /\ flush_ok b n s' /\ flush_frame s s'.
Proof.
  revert s w. induction ids as [|id ids IH]; intros s w Hs; cbn [send_acks]; [eexists _, _; split; [done|]; split; [done|reflexivity]|].
  assert (forall w, exists s' w', send_acks sender (forget_pending s id) w rwnd ids = (s', w') /\ flush_ok b n s' /\ flush_frame s s') as Hstep.
  { intros w'. destruct (IH (forget_pending s id) w') as (s' & w1 & -> & F1 & F2); [by apply flush_pending|].
    eexists _, _. split; [done|]. split; [done|]. etrans; [|exact F2]. split_and!; try done. cbn. intros x. apply FlatMap.values_remove_elem. }
  destruct (match FlatMap.get (incoming s) id with Some _ => _ | None => _ end) as [p|]; [|apply Hstep].
  destruct (sender w p) as [w1 []]; [apply Hstep|]. eexists _, _. split; [done|]. split; [done|reflexivity].
Qed.

Lemma send_nacks_spec b n s w ids :
  flush_ok b n s -> (forall id r, FlatMap.get (incoming s) id = Some r -> MessageReassembler.wf r) ->
  exists s' w', send_nacks sender s w ids = Some (s', w') /\ flush_ok b n s' /\ flush_frame s s'.
Proof.
  revert s w. induction ids as [|id ids IH]; intros s w Hs Hwf; cbn [send_nacks]; [eexists _, _; split; [done|]; split; [done|reflexivity]|].
  assert (forall w, exists s' w', send_nacks sender (forget_nack s id) w ids = Some (s', w') /\ flush_ok b n s' /\ flush_frame s s') as Hstep.
  { intros w'. destruct (IH (forget_nack s id) w') as (s' & w1 & -> & F1 & F2); [by destruct Hs; constructor|exact Hwf|].
    eexists _, _. split; [done|]. split; [done|]. etrans; [|exact F2]. split_and!; done || auto. }
  assert (exists nk, match FlatMap.get (incoming s) id with
     | Some r => MessageReassembler.create_nack r (FragmentBuffer.base_index (MessageReassembler.buffer r))
     | None => Some None end = Some nk) as [nk ->].
  { destruct (FlatMap.get (incoming s) id) as [r|] eqn:E; [|by eexists]. apply Hwf in E as Hr.
    apply MessageReassembler.create_nack_total; [done|].
    pose proof (FragmentBuffer.wf_base _ (MessageReassembler.wf_buffer r Hr)). pose proof (FragmentBuffer.wf_total _ (MessageReassembler.wf_buffer r Hr)).
    unfold in_u, MAX_FRAGMENTS_PER_MESSAGE in *. lia. }
  run. destruct nk as [nack|]; [|apply Hstep].
  destruct (sender w (NackP nack)) as [w1 []]; [apply Hstep|]. eexists _, _. split; [done|]. split; [done|reflexivity].
Qed.

(** *** The whole flush *)

Lemma work_rounds now b n s : flush_ok b n s -> total_work now s <= send_rounds s.
Proof.
  intros Hs. apply zsum_mono. intros m _. unfold work.
  pose proof (count_if_bounds (fun p => p.2 <? now) (OutgoingMessage.in_flight_queue m)). lia.
Qed.

Lemma note_app_limited_spec b n s :
  flush_ok b n s -> exists al, note_app_limited s = Some (s <| app_limited := al |>).
Proof using Hwindow.
  intros Hs. unfold note_app_limited. rewrite chk_usize_ok by (by eapply window_ok). run.
  destruct (_ && _); [by exists true|]. exists (app_limited s). by destruct s.
Qed.

(** The datagrams waiting to be sent fit a packet. *)
Definition datagrams_fit s : Prop := forall mt d, Datagram mt d ∈ datagram_queue s -> len d <= MAX_TOX_PACKET_SIZE.

Lemma flush_packets_spec b n q s w now now_ms :
  flush_ok b n s -> datagrams_fit s -> 0 <= now -> 0 <= zero_window_probes_sent s < u32_max ->
  (forall id r, FlatMap.get (incoming s) id = Some r -> MessageReassembler.wf r) ->
  room b n (total_work now s + 3) ->
  exists s' w', flush_packets sender q s w now now_ms = Some (s', w') /\
    flush_ok (b + ESTIMATED_PAYLOAD_SIZE * (total_work now s + 3)) (n + 2 * (total_work now s + 3)) s' /\ flush_frame s s'.
Proof using Hwindow.
  intros Hs Hd Hnow Hz Hwf Hr. pose proof Hr as (_ & Hr1 & Hr2). unfold ESTIMATED_PAYLOAD_SIZE, STEP, u32_max in Hr1, Hr2.
  unfold flush_packets. destruct (send_ping_spec b n s w now now_ms Hs Hnow) as (s1 & w1 & -> & F1 & G1 & O1 & Z1 & D1).
  destruct (send_datagrams_spec (length (datagram_queue s1)) b n s1 w1 now F1) as (s2 & w2 & -> & F2 & G2 & O2 & Z2); [unfold datagrams_fit in Hd; by rewrite D1|]. run.
  assert (total_work now s2 = total_work now s) as Htw2 by (unfold total_work; by rewrite O2, O1).
  pose proof (total_work_nonneg now _ _ _ Hs) as Htw0.
  destruct (send_probe_spec b n s2 w2 now F2) as (s3 & w3 & -> & F3 & G3 & T3); [unfold room, ESTIMATED_PAYLOAD_SIZE, STEP, u32_max; lia|done|by rewrite Z2, Z1|]. run.
  unfold ESTIMATED_PAYLOAD_SIZE in F3. pose proof (work_rounds now _ _ _ F3) as Hwr. pose proof (total_work_nonneg now _ _ _ F3) as Htw3.
  destruct (send_loop_spec (S (Z.to_nat (send_rounds s3))) (b + 1300) (n + 2) s3 w3 false now F3 Hnow) as (s4 & w4 & any & k & -> & Hk & F4 & G4 & T4);
    [lia|unfold room, ESTIMATED_PAYLOAD_SIZE, STEP, u32_max; lia|]. run. unfold ESTIMATED_PAYLOAD_SIZE in F4.
  destruct (send_tlp_spec _ _ s4 w4 any now F4) as (s5 & w5 & -> & F5 & G5); [unfold room, ESTIMATED_PAYLOAD_SIZE, STEP, u32_max; lia|done|]. run.
  unfold flush_pending_acks. destruct (send_acks_spec _ _ s5 w5 (current_rwnd q s5)
    (List.filter (fun '(_, (count, first_pending_at)) => (2 <=? count) || (DELAYED_ACK_TIMEOUT <=? since now first_pending_at)) (pending_acks s5)).*1 F5)
    as (s6 & w6 & -> & F6 & G6).
  assert (flush_frame s s6) as G06.
  { etrans; [exact G1|]. etrans; [exact G2|]. etrans; [exact G3|]. etrans; [apply send_flush_frame; exact G4|]. by etrans. }
  unfold flush_pending_nacks. destruct (send_nacks_spec _ _ s6 w6
    (List.filter (fun '(_, first_pending_at) => nack_delay s6 <=? since now first_pending_at) (pending_nacks s6)).*1 F6) as (s7 & w7 & -> & F7 & G7).
  { intros id r. rewrite (proj1 G06). apply Hwf. }
  run. destruct (note_app_limited_spec _ _ s7 F7) as [al ->]. run. eexists _, _. split; [done|]. split.
  - eapply flush_mono in F7; [destruct F7; by constructor|unfold ESTIMATED_PAYLOAD_SIZE; lia|lia].
  - etrans; [exact G06|]. etrans; [exact G7|]. split_and!; done || auto.
Qed.

End Sender.
End Flush.
End Strict.
End Flushing.
