(* ===== verification/SessionRuns.v ===== *)
(** A whole session, and sessions that share a reassembly quota.

    [inv] joins the invariants of the two halves.  The theorems show that every
    operation of a session returns and keeps [inv] whatever the peer sends, that
    the quota shared by several sessions holds exactly the sum of what they have
    reserved, and that what is delivered to the application was sent. *)

From S2P Require Import Prelude Bitset FlatMaps Protocol Quota Reassembly Float32 F32Theory Rtt Outgoing Scheduler Congestion CongestionLaws Session SessionFrames SessionReceive SessionSend SessionFlush.
#[local] Open Scope Z_scope.
#[local] Open Scope list_scope.

(** The random source returns numbers in the ranges it is asked for. *)
Class RandLaws (Rng : Type) `{RandSource Rng} := {
  next_u32_range r : in_u 32 (next_u32 r).1;
  gen_range_bounds r lo hi : lo <= hi -> lo <= (gen_range r lo hi).1 <= hi
}.

Module Runs.
Import SequenceSession Receiving Sending Frames.

(** *** Expiry *)

Section Expire.
Implicit Types q : ReassemblyQuota.t.

(** A message under reassembly, an outgoing message that timed out. *)
Definition stale (now : Instant) (r : MessageReassembler.t) : bool :=
  from_secs REASSEMBLY_TIMEOUT_SECS <=? since now (MessageReassembler.last_activity r).
Definition expired (now : Instant) (m : OutgoingMessage.t) : bool :=
  (OutgoingMessage.timeout m <=? since now (OutgoingMessage.last_ack_at m)) ||
  (CONNECTION_TIMEOUT <=? since now (OutgoingMessage.last_ack_at m)).

(** The events of the messages that timed out. *)
Definition failures (now : Instant) (outs : list (Z * OutgoingMessage.t)) : list SessionEvent :=
  List.flat_map (fun p => if expired now p.2 then [MessageFailed p.1 "Timed out"; ReadyToSend] else []) outs.

Lemma failures_elem now outs e : e ∈ failures now outs -> (exists id, e = MessageFailed id "Timed out") \/ e = ReadyToSend.
Proof.
  intros (p & _ & He)%list_elem_of_In%in_flat_map. destruct (expired now p.2); [|done].
  destruct He as [<-|[<-|[]]]; eauto.
Qed.

Lemma expire_incoming_spec now inc q size :
  (forall r, r ∈ FlatMap.values inc -> 0 <= MessageReassembler.reserved_bytes r) ->
  zsum MessageReassembler.reserved_bytes (FlatMap.values inc) <= size <= 2 ^ 60 ->
  ReassemblyQuota.wf q -> size <= ReassemblyQuota.used_bytes q ->
  exists q' size' inc', FlatMap.retain (expire_incoming now) (q, size) inc = Some (q', size', inc') /\
    inc' = List.filter (fun p => negb (stale now p.2)) inc /\ inc' `sublist_of` inc /\ charged q (size' - size) q' /\
    size' - zsum MessageReassembler.reserved_bytes (FlatMap.values inc') =
    size - zsum MessageReassembler.reserved_bytes (FlatMap.values inc).
Proof.
  revert q size. induction inc as [|[k r] inc IH]; intros q size Hpos Hsum Hq Hu; cbn [FlatMap.retain].
  { eexists _, _, _. split; [done|]. split_and!; [done|done|rewrite Z.sub_diag; by apply charged_zero|done]. }
  rewrite FlatMap.zsum_values_cons in Hsum.
  assert (0 <= MessageReassembler.reserved_bytes r) as Hr by (apply Hpos; left).
  assert (forall x, x ∈ FlatMap.values inc -> 0 <= MessageReassembler.reserved_bytes x) as Hpos' by (intros x Hx; apply Hpos; by right).
  pose proof (zsum_nonneg _ _ Hpos') as Hs0. cbn [expire_incoming].
  cbn [List.filter snd]. unfold stale at 1. destruct (_ <=? since now (MessageReassembler.last_activity r)); cbn [negb].
  - run_chk. destruct (IH (ReassemblyQuota.release q (MessageReassembler.reserved_bytes r)) (size - MessageReassembler.reserved_bytes r))
      as (q' & size' & inc' & -> & Hfil & Hsub & Hch & Heq); [done|lia|apply ReassemblyQuota.release_wf; [done|lia]|
      unfold ReassemblyQuota.release, sat_sub; cbn; lia|]. run.
    eexists _, _, _. split; [done|]. split_and!; [done|by apply sublist_cons| |rewrite FlatMap.zsum_values_cons; lia].
    pose proof (charged_release q (MessageReassembler.reserved_bytes r) Hq ltac:(lia)) as Hrel.
    eapply charged_trans; [exact Hrel|exact Hch|lia].
  - run. destruct (IH q size Hpos' ltac:(lia) Hq Hu) as (q' & size' & inc' & -> & Hfil & Hsub & Hch & Heq). run.
    eexists _, _, _. split; [done|]. split_and!; [by rewrite Hfil|by apply sublist_skip|done|]. rewrite !FlatMap.zsum_values_cons. lia.
Qed.

Lemma sublist_get {K V} `{EqDecision K} (m m' : list (K * V)) k v :
  m' `sublist_of` m -> NoDup (FlatMap.keys m) -> FlatMap.get m' k = Some v -> FlatMap.get m k = Some v.
Proof.
  intros Hsub Hnd Hg. apply FlatMap.elem_get; [done|]. eapply sublist_subseteq; [done|]. by apply FlatMap.get_Some_elem.
Qed.

Lemma sublist_keys {K V} `{EqDecision K} (m m' : list (K * V)) :
  m' `sublist_of` m -> NoDup (FlatMap.keys m) -> NoDup (FlatMap.keys m') /\ FlatMap.len m' <= FlatMap.len m.
Proof.
  intros Hsub Hnd. split; [eapply sublist_NoDup; [done|]; by apply fmap_sublist|].
  unfold FlatMap.len, len. apply sublist_length in Hsub. lia.
Qed.

(** The loop that takes a message's fragments out of the bytes in flight. *)
Lemma uncount_spec strict total m flight i states :
  outgoing_ok strict total m -> 0 <= i -> (forall k, idx states k = idx (OutgoingMessage.fragment_states m) (i + k) \/ k < 0) ->
  len states = OutgoingMessage.num_fragments m - i ->
  let rest := zsum (fun j => if OutgoingMessage.sent m j then OutgoingMessage.flen m j else 0) (zrange i (OutgoingMessage.num_fragments m)) in
  rest <= flight -> uncount m flight i states = Some (flight - rest).
Proof.
  intros Hm. pose proof (oo_wf _ _ _ Hm) as (Hcore & _). pose proof (OutgoingMessage.core_sized m Hcore) as Hsz.
  pose proof (proj2 (proj2 Hsz)) as Hmax. unfold MAX_FRAGMENTS_PER_MESSAGE in Hmax.
  revert flight i. induction states as [|st states IH]; intros flight i Hi Hidx Hlen rest Hle; cbn [uncount].
  { unfold rest. change (len []) with 0 in Hlen. rewrite zrange_nil by lia. cbn. by rewrite Z.sub_0_r. }
  rewrite len_cons in Hlen. pose proof (len_nonneg states).
  destruct (Hidx 0) as [Hst|?]; [|lia]. rewrite Z.add_0_r in Hst. cbn in Hst. symmetry in Hst.
  unfold rest in *. rewrite (zrange_cons i), zsum_cons in * by lia. rewrite (OutgoingMessage.sent_state _ _ _ Hst) in *.
  assert (0 <= zsum (fun j => if OutgoingMessage.sent m j then OutgoingMessage.flen m j else 0) (zrange (i + 1) (OutgoingMessage.num_fragments m))) as Hnn.
  { apply zsum_nonneg. intros j Hj%elem_of_zrange. pose proof (OutgoingMessage.flen_bounds m j Hsz ltac:(lia)). destruct (OutgoingMessage.sent m j); lia. }
  assert (forall k, idx states k = idx (OutgoingMessage.fragment_states m) (i + 1 + k) \/ k < 0) as Hidx'.
  { intros k. destruct (Z.lt_ge_cases k 0); [by right|left]. destruct (Hidx (k + 1)) as [Hk|?]; [|lia].
    replace (i + 1 + k) with (i + (k + 1)) by lia. rewrite <- Hk. unfold idx.
    rewrite (proj2 (Z.leb_le 0 k)), (proj2 (Z.leb_le 0 (k + 1))) by lia. by replace (Z.to_nat (k + 1)) with (S (Z.to_nat k)) by lia. }
  pose proof (OutgoingMessage.flen_bounds m i Hsz ltac:(lia)) as Hl.
  destruct (last_sent st) as [x|]; [rewrite bool_decide_true in * by eauto|rewrite bool_decide_false in * by (by intros [? ?])].
  - rewrite wrap_small by (unfold in_u; lia). rewrite OutgoingMessage.fragment_len_ok by (done || lia). run.
    rewrite IH; [|lia|done|lia|unfold sat_sub; lia]. f_equal. unfold sat_sub. lia.
  - run. rewrite IH; [done|lia|done|lia|lia].
Qed.

Lemma expire_outgoing_spec strict total now outs flight evs sch :
  (forall m, m ∈ FlatMap.values outs -> outgoing_ok strict total m) -> PriorityScheduler.wf sch -> NoDup (FlatMap.keys outs) ->
  zsum OutgoingMessage.flight_bytes (FlatMap.values outs) <= flight ->
  exists flight' sch' outs',
    FlatMap.retain (expire_outgoing now) (flight, evs, sch) outs = Some (flight', evs ++ failures now outs, sch', outs') /\
    outs' = List.filter (fun p => negb (expired now p.2)) outs /\ outs' `sublist_of` outs /\ PriorityScheduler.wf sch' /\
    (forall id, scheduled sch' id <-> scheduled sch id /\ (id ∈ FlatMap.keys outs -> id ∈ FlatMap.keys outs')) /\
    flight' - zsum OutgoingMessage.flight_bytes (FlatMap.values outs') = flight - zsum OutgoingMessage.flight_bytes (FlatMap.values outs).
Proof.
  revert flight evs sch. induction outs as [|[k m] outs IH]; intros flight evs sch Hout Hsch Hnd Hsum; cbn [FlatMap.retain].
  { exists flight, sch, []. rewrite app_nil_r. split; [done|]. split_and!; try done. tauto. }
  rewrite FlatMap.zsum_values_cons in Hsum.
  assert (outgoing_ok strict total m) as Hm by (apply Hout; left).
  assert (forall x, x ∈ FlatMap.values outs -> outgoing_ok strict total x) as Hout' by (intros x Hx; apply Hout; by right).
  assert (0 <= zsum OutgoingMessage.flight_bytes (FlatMap.values outs)) as Hs0 by (apply zsum_nonneg; intros x Hx; eapply flight_bytes_bounds; by apply Hout').
  pose proof (flight_bytes_bounds _ _ _ Hm) as Hfm. cbn [FlatMap.keys fmap list_fmap fst] in Hnd. apply NoDup_cons in Hnd as [Hk Hnd].
  unfold failures. cbn [expire_outgoing List.filter List.flat_map fst snd]. fold (failures now outs). cbv zeta.
  change (_ || _) with (expired now m). destruct (expired now m); cbn [negb app].
  - destruct (PriorityScheduler.remove_message_spec sch k Hsch) as (sch1 & -> & Hsch1 & Hq). run.
    assert (uncount m flight 0 (OutgoingMessage.fragment_states m) = Some (flight - OutgoingMessage.flight_bytes m)) as ->.
    { apply (uncount_spec strict total); [done|lia|intros j; left; by rewrite Z.add_0_l| |fold (OutgoingMessage.flight_bytes m); lia].
      rewrite (OutgoingMessage.core_states m (proj1 (oo_wf _ _ _ Hm))). lia. }
    run. destruct (IH (flight - OutgoingMessage.flight_bytes m) ((evs ++ [MessageFailed k "Timed out"]) ++ [ReadyToSend]) sch1 Hout' Hsch1 Hnd ltac:(lia))
      as (fl & sch' & outs' & -> & Hfil & Hsub & Hwf & Hs & Hfl). run.
    exists fl, sch', outs'. split_and!; [by rewrite <- !app_assoc|done|by apply sublist_cons|done| |].
    + intros id. rewrite Hs. assert (scheduled sch1 id <-> id <> k /\ scheduled sch id) as ->.
      { split.
        - intros (p & Hp & Hid). rewrite Hq in Hid by done. split; [tauto|]. exists p. tauto.
        - intros (Hne & p & Hp & Hid). exists p. split; [done|]. apply Hq; tauto. }
      cbn [FlatMap.keys fmap list_fmap fst]. rewrite elem_of_cons. fold (FlatMap.keys outs).
      assert (k ∉ FlatMap.keys outs') by (intros Hin; apply Hk; eapply sublist_subseteq; [|exact Hin]; by apply fmap_sublist).
      destruct (decide (id = k)) as [->|]; [|tauto]. split; [tauto|]. intros [? Himp]. exfalso. tauto.
    + rewrite FlatMap.zsum_values_cons. lia.
  - run. destruct (IH flight evs sch Hout' Hsch Hnd ltac:(lia)) as (fl & sch' & outs' & -> & Hfil & Hsub & Hwf & Hs & Hfl). run.
    exists fl, sch', ((k, m) :: outs'). split_and!; [done|by rewrite Hfil|by apply sublist_skip|done| |].
    + intros id. rewrite Hs. cbn [FlatMap.keys fmap list_fmap fst]. rewrite !elem_of_cons. fold (FlatMap.keys outs) (FlatMap.keys outs').
      destruct (decide (id = k)) as [->|]; [|tauto]. tauto.
    + rewrite !FlatMap.zsum_values_cons. lia.
Qed.

End Expire.
(** *** One session *)

Section Session.
Context {C : Type} `{CongestionLaws C} {Rng : Type} `{RandLaws Rng} `{EnvelopeCodec}.
Context (genuine : Z -> Z -> Z -> bytes -> Prop) (datagram : MessageType -> bytes -> Prop) (strict : bool).

Abbreviation session := (SequenceSession.t C Rng).
Implicit Types (s : session) (q : ReassemblyQuota.t).

(** The invariant of a session; [b] bounds its counters. *)
Record inv (b : Z) s : Prop := {
  inv_receiver : rinv genuine datagram b s;
  inv_sender : sinv strict b s;
  inv_next : in_u 32 (next_message_id s);
  inv_datagrams : Flushing.datagrams_fit s
}.

(** What the transport can deliver: fields within their types, and fragments
    and datagrams that a peer sent. *)
Definition packet_ok (p : Packet) : Prop :=
  match p with
  | Data id i total d => in_u 16 i /\ in_u 16 total /\ len d <= 2 ^ 40 /\ genuine id total i d
  | AckP a => in_u 16 (ack_base_index a) /\ in_u 64 (ack_bitmask a) /\ in_u 16 (ack_rwnd a)
  | NackP k => forall i, i ∈ missing_indices k -> in_u 16 i
  | Ping _ => True
  | Pong _ _ _ => True
  | Datagram mt d => datagram mt d
  end.

(** The answer to a ping whose time stamps overflow the estimate of the clock offset. *)
Definition clock_overflows (now_ms : Z) (s : session) (p : Packet) : Prop :=
  match p with Pong t1 t2 t3 => is_Some (last_ping_sent s) /\ clock_estimate t1 t2 t3 now_ms = None | _ => False end.

(** The monotonic clock counts nanoseconds from the start of the process; the
    wall clock is away from the ends of [i64]. *)
Definition time_ok (now now_ms : Z) : Prop :=
  0 <= now <= RttEstimator.HORIZON /\ i64_min + 5 <= now_ms <= i64_max - 5.

Lemma inv_mono b b' s : b <= b' -> inv b s -> inv b' s.
Proof.
  intros Hb []. pose proof (so_total _ _ _ _ _ _ _ _ _ inv_sender0). constructor; [by eapply rinv_mono| |done..].
  apply (sender_mono _ inv_sender0); lia.
Qed.

Lemma new_inv b cc now r : good b cc -> 0 <= b -> inv b (new cc now r).
Proof.
  intros Hcc Hb. unfold new. pose proof (next_u32_range r) as Hr. destruct (next_u32 r) as [id r']. constructor; [| |exact Hr|].
  - constructor; cbn; try done; try lia; [apply NoDup_nil_2|split; [apply NoDup_nil_2|done]| |].
    + intros n at_ Hn. by apply not_elem_of_nil in Hn.
    + intros e He. by apply not_elem_of_nil in He.
  - constructor; cbn; try done; try lia; [apply NoDup_nil_2|apply PriorityScheduler.new_scheduler_wf| |].
    + intros j. split; [|by intros [? ?]]. intros (p & Hp & Hj). exfalso. revert Hj. clear -Hp.
      assert (p = 0 \/ p = 1 \/ p = 2 \/ p = 3 \/ p = 4) as Hc by lia.
      destruct Hc as [->|[->|[->|[->| ->]]]]; cbn; apply not_elem_of_nil.
    + unfold slack. destruct strict; lia.
  - intros mt d Hd. by apply not_elem_of_nil in Hd.
Qed.

Lemma same_receiver_rinv b s s' evs :
  rinv genuine datagram b s -> same_receiver s s' -> events s' = events s ++ evs -> (forall e, e ∈ evs -> event_ok genuine datagram e) ->
  rinv genuine datagram b s'.
Proof.
  intros [] (E1 & E2 & E3 & E4 & E5 & E6 & E7) Hev He. unfold rinv. rewrite E1, E2, E3, E4, E5, Hev. constructor; try assumption.
  intros e [?|?]%elem_of_app; eauto.
Qed.

Lemma same_sender_sinv b s s' : sinv strict b s -> same_sender s s' -> sinv strict b s'.
Proof.
  intros Hs (_ & E2 & E3 & E4 & E5 & E6 & _ & E8 & E9 & _). unfold sinv. by rewrite E2, E3, E4, E5, E6, E8, E9.
Qed.

Lemma check_cwnd_change_inv b s : inv b s -> inv b (check_cwnd_change s) /\ incoming_buffer_size (check_cwnd_change s) = incoming_buffer_size s.
Proof.
  intros [Hr Hs Hn Hd]. unfold check_cwnd_change. destruct (_ || _); [|done]. split; [|done]. constructor; try assumption.
  exact (rinv_events _ _ b s [CongestionWindowChanged (cwnd (congestion_control s))] Hr ltac:(by intros e ->%list_elem_of_singleton)).
Qed.

(** What an operation does: the invariant holds again and the quota moves by
    exactly what the session books. *)
Definition served (b : Z) q s q' s' : Prop :=
  inv b s' /\ charged q (incoming_buffer_size s' - incoming_buffer_size s) q'.

Lemma kept_rinv b s s' : rinv genuine datagram b s -> kept s s' -> rinv genuine datagram b s'.
Proof.
  intros [] [E1 E2 E3 E4 _ E6 _ Hp _ _]. unfold rinv. rewrite E1, E2, E3, E4, E6. constructor; try done.
  intros n at_ Hn. by eapply ro_pending0, Hp.
Qed.

Lemma advanced_rinv b s s' : rinv genuine datagram b s -> advanced s s' -> rinv genuine datagram b s'.
Proof.
  intros Hr [Hk (evs & He & Hs)]. apply (kept_rinv _ _ _ Hr) in Hk. destruct Hk as []. constructor; try done.
  rewrite He. intros e [H4|H4%Hs]%elem_of_app; [by apply ro_events0|]. by destruct e.
Qed.

Lemma served_sender b b' q s s' :
  inv b s -> covered q s -> b <= b' -> sinv strict b' s' -> advanced s s' -> served b' q s q s'.
Proof.
  intros [Hr Hs Hn Hd] [Hq _] Hb Hs' Ha. pose proof (ad_kept _ _ Ha) as Hk. split.
  - constructor; [|done|by rewrite <- (k_next _ _ Hk) in Hn|].
    + eapply rinv_mono; [exact Hb|by eapply advanced_rinv].
    + intros mt d Hin. apply (Hd mt d). by apply (k_datagrams _ _ Hk).
  - pose proof (k_size _ _ Hk) as E. cbn in E. rewrite E, Z.sub_diag. by apply charged_zero.
Qed.

Lemma handle_packet_internal_spec b q s p now now_ms :
  inv b s -> covered q s -> packet_ok p -> ~ clock_overflows now_ms s p -> time_ok now now_ms -> b + STEP <= 2 ^ 62 ->
  exists q' s' ps, handle_packet_internal q s p now now_ms = Some (q', s', ps) /\ served (b + STEP) q s q' s'.
Proof.
  intros Hinv Hc Hp Hno [Hnow Hms] Hb. pose proof Hinv as [Hr Hs Hn Hd]. pose proof (so_total _ _ _ _ _ _ _ _ _ Hs) as Htot.
  destruct p as [id i total d|a|k|t1|t1 t2 t3|mt d]; cbn [handle_packet_internal packet_ok] in *.
  - destruct Hp as (Hi & Ht & Hl & Hg).
    destruct (handle_data_packet_spec genuine datagram b q s id i total d now) as (q' & s' & ps & -> & Hr' & Hch & Hsame); [unfold STEP in *; lia|done..|].
    eexists _, _, _. split; [done|]. split; [|done]. pose proof Hsame as (E1 & _ & _ & _ & _ & _ & _ & _ & _ & E2 & _). constructor.
    + eapply rinv_mono; [|done]. unfold STEP. lia.
    + eapply same_sender_sinv; [|done]. apply (sender_mono _ Hs); unfold STEP; lia.
    + by rewrite E1.
    + unfold Flushing.datagrams_fit in *. by rewrite E2.
  - destruct Hp as (Hbase & Hmask & Hrw). destruct (handle_ack_packet_spec strict b s a now) as (s' & E & Hs' & _); [done..|].
    rewrite E. run. eexists _, _, _. split; [done|]. eapply served_sender; try done; [unfold STEP; lia|].
    eapply handle_ack_advanced; [apply Hs|done].
  - destruct (handle_nack_packet_spec strict b s k now) as (s' & E & Hs' & _); [done..|intros i Hi; apply Hp in Hi; unfold in_u in Hi; lia|].
    rewrite E. run. eexists _, _, _. split; [done|]. eapply served_sender; try done; [unfold STEP; lia|].
    by eapply kept_advanced, handle_nack_kept.
  - pose proof (gen_range_bounds (rng s) (-5) 5 ltac:(lia)) as Hj. destruct (gen_range (rng s) (-5) 5) as [jitter r]. cbn [fst] in Hj.
    run_chk. eexists _, _, _. split; [done|]. split; [|cbn; rewrite Z.sub_diag; by apply charged_zero, Hc].
    apply (inv_mono b); [unfold STEP; lia|]. by constructor.
  - destruct (last_ping_sent s) as [sent|] eqn:Eping.
    + destruct (clock_estimate t1 t2 t3 now_ms) as [off|] eqn:Hoff; [|by destruct Hno; cbn; rewrite Eping]. pose proof (so_ping _ _ _ _ _ _ _ _ _ Hs sent Eping) as Hsent.
      destruct (RttEstimator.rtt_update_spec (rtt s) (since now sent)) as (est & E1 & Hest); [apply Hs|unfold since, sat_sub; lia|].
      pose proof (flight_bounds _ Hs) as Hfl.
      destruct (good_on_ack b (congestion_control s) (since now sent) None 0 (in_flight s) now) as (cc & E2 & Hcc); [apply Hs|lia|unfold STEP in *; lia|unfold STEP in *; lia|].
      cbn [rtt set_field congestion_control in_flight]. rewrite E1. run. rewrite E2. run.
      eexists _, _, _. split; [done|]. split; [|cbn; rewrite Z.sub_diag; by apply charged_zero, Hc].
      constructor; [eapply rinv_mono; [|exact Hr]; unfold STEP; lia| |done|done].
      destruct (sender_mono _ Hs (b + STEP) (delivered_bytes s)); [unfold STEP; lia..|]. constructor; try done.
      eapply good_mono; [|exact Hcc]. unfold STEP. lia.
    + eexists _, _, _. split; [done|]. split; [apply (inv_mono b); [unfold STEP; lia|done]|rewrite Z.sub_diag; by apply charged_zero, Hc].
  - eexists _, _, _. split; [done|]. split; [|cbn; rewrite Z.sub_diag; by apply charged_zero, Hc]. constructor; [| |done|done].
    + eapply rinv_events; [eapply rinv_mono; [|exact Hr]; unfold STEP; lia|]. intros e ->%list_elem_of_singleton. by left.
    + apply (sender_mono _ Hs); cbn; unfold STEP; lia.
Qed.

Lemma handle_packet_spec b q s p now now_ms :
  inv b s -> covered q s -> packet_ok p -> ~ clock_overflows now_ms s p -> time_ok now now_ms -> b + STEP <= 2 ^ 62 ->
  exists q' s' ps, handle_packet q s p now now_ms = Some (q', s', ps) /\ served (b + STEP) q s q' s'.
Proof.
  intros [] Hc Hp Hno Ht Hb. unfold handle_packet.
  destruct (handle_packet_internal_spec b q (s <| last_activity := now |>) p now now_ms) as (q' & s' & ps & -> & Hi & Hch); [by constructor|done..|].
  run. eexists _, _, _. split; [done|]. destruct (check_cwnd_change_inv _ _ Hi) as [? E]. split; [done|]. by rewrite E.
Qed.

Lemma overflow_panics q s p now now_ms : clock_overflows now_ms s p -> handle_packet q s p now now_ms = None.
Proof.
  destruct p as [| | | |t1 t2 t3|]; try done. intros [[sent Es] Eo]. unfold handle_packet. cbn [handle_packet_internal]. cbn. rewrite Es, Eo. by destruct (RttEstimator.update _ _).
Qed.

(** *** Timeouts *)

Definition remembered (now : Instant) (p : Z * (SelectiveAck * Instant)) : bool := since now p.2.2 <? from_secs 30.

Lemma filter_sublist {A} (f : A -> bool) (l : list A) : List.filter f l `sublist_of` l.
Proof. induction l as [|x l IH]; cbn; [done|]. destruct (f x); by constructor. Qed.

Lemma keys_get {V} (m : list (Z * V)) k : k ∈ FlatMap.keys m <-> is_Some (FlatMap.get m k).
Proof.
  rewrite <- not_eq_None_Some, FlatMap.get_None. split; [tauto|apply dec_stable].
Qed.

Lemma zsum_sublist {A} (f : A -> Z) (l k : list A) : (forall x, x ∈ k -> 0 <= f x) -> l `sublist_of` k -> zsum f l <= zsum f k.
Proof.
  intros Hpos Hsub. induction Hsub as [|x l k _ IH|x l k _ IH]; [done| |]; rewrite !zsum_cons.
  - assert (zsum f l <= zsum f k) by (apply IH; intros y Hy; apply Hpos; by right). lia.
  - assert (zsum f l <= zsum f k) by (apply IH; intros y Hy; apply Hpos; by right). specialize (Hpos x ltac:(left)). lia.
Qed.

Lemma sender_sublist b outs sch est cc flight total ping outs' sch' flight' :
  sender_ok strict b outs sch est cc flight total ping -> outs' `sublist_of` outs -> PriorityScheduler.wf sch' ->
  (forall id, scheduled sch' id <-> scheduled sch id /\ (id ∈ FlatMap.keys outs -> id ∈ FlatMap.keys outs')) ->
  flight' - zsum OutgoingMessage.flight_bytes (FlatMap.values outs') = flight - zsum OutgoingMessage.flight_bytes (FlatMap.values outs) ->
  sender_ok strict b outs' sch' est cc flight' total ping.
Proof.
  intros [] Hsub Hwf Hsch Hfl. destruct (sublist_keys _ _ Hsub so_nodup0) as [Hnd Hlen]. constructor; try done; [lia| | |lia].
  - intros id m Hm. eapply so_out0, sublist_get; done.
  - intros id. rewrite Hsch, so_scheduled0, <- !keys_get. split; [tauto|]. intros Hk.
    split; [|done]. eapply sublist_subseteq; [|exact Hk]. by apply fmap_sublist.
Qed.

Lemma receiver_sublist b s inc size now evs :
  rinv genuine datagram b s -> inc `sublist_of` incoming s ->
  size - zsum MessageReassembler.reserved_bytes (FlatMap.values inc) =
    incoming_buffer_size s - zsum MessageReassembler.reserved_bytes (FlatMap.values (incoming s)) ->
  size <= incoming_buffer_size s -> (forall e, e ∈ evs -> event_ok genuine datagram e) ->
  receiver_ok genuine datagram b inc (max_per_session s) size (List.filter (remembered now) (completed_incoming s))
    (pending_acks s) (events s ++ evs).
Proof.
  intros [] Hsub Hz Hle Hev. destruct (sublist_keys _ _ Hsub ro_nodup0) as [Hnd Hlen].
  destruct ro_completed0 as [Hnc Hlc]. destruct (sublist_keys _ _ (filter_sublist (remembered now) _) Hnc) as [Hnc' Hlc'].
  constructor; try done; [|lia|lia|lia|split; [done|lia]|].
  - intros id r Hr. eapply ro_incoming0, sublist_get; done.
  - intros e [?|?]%elem_of_app; eauto.
Qed.

Lemma cleanup_spec b q s now :
  inv b s -> covered q s ->
  exists q' s', cleanup q s now = Some (q', s') /\ served b q s q' s' /\
    incoming s' = List.filter (fun p => negb (stale now p.2)) (incoming s) /\
    outgoing s' = List.filter (fun p => negb (expired now p.2)) (outgoing s) /\
    completed_incoming s' = List.filter (remembered now) (completed_incoming s) /\
    events s' = events s ++ failures now (outgoing s).
Proof.
  intros [Hr Hs Hn Hd] [Hq Hu]. pose proof (rinv_size _ _ _ _ Hr) as [Hsize Hmax].
  assert (forall r, r ∈ FlatMap.values (incoming s) -> 0 <= MessageReassembler.reserved_bytes r) as Hpos.
  { intros r Hin. apply FlatMap.elem_values in Hin as [k Hk]; [|apply Hr].
    exact (io_reserved genuine k r (ro_incoming _ _ _ _ _ _ _ _ _ Hr k r Hk)). }
  pose proof (ro_size _ _ _ _ _ _ _ _ _ Hr) as Hsz.
  destruct (expire_incoming_spec now (incoming s) q (incoming_buffer_size s)) as (q' & size & inc & E1 & F1 & Hsub & Hch & Hz); [done|lia|done|done|].
  destruct (expire_outgoing_spec strict (delivered_bytes s) now (outgoing s) (in_flight s) (events s) (scheduler s))
    as (fl & sch & outs & E2 & F2 & Hsub2 & Hwf & Hsch & Hfl);
    [intros m Hm; by apply (value_ok _ Hs)|apply Hs|apply Hs|apply Hs|].
  unfold cleanup. rewrite E1. run. cbn [in_flight events scheduler outgoing set_field]. rewrite E2. run.
  eexists _, _. split; [done|]. cbn [incoming outgoing completed_incoming set_field].
  split_and!; [|done|done|by apply List.filter_ext; intros [? [? ?]]|done].
  split; [|done]. constructor; [| |done|done].
  - unfold rinv. cbn. erewrite List.filter_ext; [apply receiver_sublist; try done|by intros [? [? ?]]].
    + pose proof (zsum_sublist _ _ _ Hpos (fmap_sublist snd _ _ Hsub)) as Hle. unfold FlatMap.values in *. lia.
    + intros e He. by destruct (failures_elem _ _ _ He) as [[? ->]| ->].
  - by eapply sender_sublist.
Qed.

(** *** What a session guarantees *)

Lemma send_message_queue s mt d now s' res :
  send_message_at s mt d now = Some (s', res) -> datagram_queue s' = datagram_queue s.
Proof.
  unfold send_message_at. generalize (free_id (Z.to_nat MAX_CONCURRENT_OUTGOING) (outgoing s) (next_message_id s)). intros id E.
  repeat first [case_match; simplify_eq/=|inv_bind E; simplify_eq/=]; done.
Qed.

(** C18: Packets from the network.  Whatever packet arrives, its fields only within
    their types, handling it panics exactly when it is the answer to a ping whose time
    stamps overflow the estimate of the clock offset.  Otherwise it returns: no
    arithmetic overflows, no index is out of range, no [unwrap] fails.  The invariant
    of the session holds again, with its counters moved by at most [STEP], and the
    shared quota changes by exactly the difference of the session's reservations.  A
    [Datagram] or a completed message it reports was received as such. *)
Theorem handle_packet_safe b q s p now now_ms :
  inv b s -> covered q s -> packet_ok p -> time_ok now now_ms -> b + STEP <= 2 ^ 62 ->
  (clock_overflows now_ms s p -> handle_packet q s p now now_ms = None) /\
  (~ clock_overflows now_ms s p ->
   exists q' s' replies, handle_packet q s p now now_ms = Some (q', s', replies) /\ inv (b + STEP) s' /\
     charged q (incoming_buffer_size s' - incoming_buffer_size s) q' /\
     (forall e, e ∈ events s' -> event_ok genuine datagram e)).
Proof.
  intros Hi Hc Hp Ht Hb. split; [apply overflow_panics|]. intros Hno. destruct (handle_packet_spec b q s p now now_ms Hi Hc Hp Hno Ht Hb) as (q' & s' & ps & E & Hi' & Hch).
  exists q', s', ps. split_and!; [done..|]. apply (inv_receiver _ _ Hi').
Qed.

(** C37: Timeouts.  [cleanup] returns; it keeps exactly the reassemblies heard of
    within 30 seconds, the outgoing messages acknowledged within their timeout and
    within five minutes, and the completed messages of the last 30 seconds, in
    their order; it reports each message it gives up, gives back to the quota
    exactly what the dropped reassemblies held, and keeps the invariant (so the
    bytes in flight and the scheduler forget the dropped messages). *)
Theorem cleanup_expires b q s now :
  inv b s -> covered q s ->
  exists q' s', cleanup q s now = Some (q', s') /\ inv b s' /\
    incoming s' = List.filter (fun p => negb (stale now p.2)) (incoming s) /\
    outgoing s' = List.filter (fun p => negb (expired now p.2)) (outgoing s) /\
    completed_incoming s' = List.filter (remembered now) (completed_incoming s) /\
    events s' = events s ++ failures now (outgoing s) /\
    charged q (zsum MessageReassembler.reserved_bytes (FlatMap.values (incoming s')) -
               zsum MessageReassembler.reserved_bytes (FlatMap.values (incoming s))) q'.
Proof.
  intros Hi Hc. destruct (cleanup_spec b q s now Hi Hc) as (q' & s' & E & [Hi' Hch] & F1 & F2 & F3 & F4).
  exists q', s'. split_and!; try done.
  by rewrite <- (ro_size _ _ _ _ _ _ _ _ _ (inv_receiver _ _ Hi)), <- (ro_size _ _ _ _ _ _ _ _ _ (inv_receiver _ _ Hi')).
Qed.

(** C36: Accepting a message.  [send_message_at] returns and keeps the invariant.
    It refuses with [QueueFull] exactly when 32 messages are outstanding (the
    search for a free id always succeeds below that), with the codec's error when
    the envelope does not serialize, and with [MessageTooLarge] when it is longer
    than 1 MiB; otherwise the message is stored under an id no outstanding message
    has, and queued in the scheduler at the level of its type. *)
Theorem send_message_accepts b s mt d now :
  inv b s ->
  exists s' res, send_message_at s mt d now = Some (s', res) /\ inv b s' /\
    match res with
    | Err QueueFull => FlatMap.len (outgoing s) = MAX_CONCURRENT_OUTGOING /\ s' = s
    | Err (SerializationError e) => serialize_envelope mt d = Err e /\ outgoing s' = outgoing s
    | Err MessageTooLarge => (exists p, serialize_envelope mt d = Ok p /\ MAX_MESSAGE_SIZE < len p) /\ outgoing s' = outgoing s
    | Err _ => False
    | Ok id => exists p m, serialize_envelope mt d = Ok p /\ FlatMap.get (outgoing s) id = None /\ in_u 32 id /\
        outgoing s' = outgoing s ++ [(id, m)] /\ OutgoingMessage.data m = p /\ OutgoingMessage.message_type m = mt /\
        id ∈ PriorityScheduler.queue (scheduler s') (priority_level (priority mt))
    end.
Proof.
  intros [Hr Hs Hn Hd]. destruct (send_message_at_spec strict b s mt d now Hs Hn) as (s' & res & E & Hs' & Hrec & Hev & Hn' & Hres).
  exists s', res. split_and!; [done| |done]. constructor; [|done|done|].
  - eapply (same_receiver_rinv b s s' []); [done|done|by rewrite app_nil_r|]. intros e He. by apply not_elem_of_nil in He.
  - unfold Flushing.datagrams_fit in *. erewrite (send_message_queue s mt d now s' res); done.
Qed.

(** C19: Sending terminates.  Let the window of the controller, and of any
    controller it can turn into by reporting sent fragments and timeouts, fit a
    [usize] in bytes, and let the counters have room for the work at hand.
    Whatever the transport answers, [flush_packets] returns: its main loop runs at
    most once per queued retransmission, expired fragment and unsent fragment.
    The invariant holds again, the receiving half, the events and the set of
    outgoing messages are untouched, and only acknowledgements that were sent are
    forgotten. *)
Theorem flush_terminates {W} (sender : W -> Packet -> W * bool) b n q s w now now_ms :
  inv b s -> (forall c, Flushing.driven (congestion_control s) c -> cwnd c * ESTIMATED_PAYLOAD_SIZE <= usize_max) ->
  (forall id m, FlatMap.get (outgoing s) id = Some m -> Flushing.counts n m) ->
  (forall id m i, strict = true -> FlatMap.get (outgoing s) id = Some m -> OutgoingMessage.next_fragment m <= i -> OutgoingMessage.acked m i = false) ->
  0 <= n -> 0 <= retransmit_count s <= 2 ^ 63 -> 0 <= zero_window_probes_sent s < u32_max -> 0 <= now ->
  Flushing.room b n (Flushing.total_work now s + 3) ->
  exists s' w', flush_packets sender q s w now now_ms = Some (s', w') /\
    inv (b + ESTIMATED_PAYLOAD_SIZE * (Flushing.total_work now s + 3)) s' /\ Flushing.flush_frame s s'.
Proof.
  intros [Hr Hs Hn Hd] Hw Hcnt Hahead H0n Hret Hz Hnow Hroom.
  assert (Flushing.flush_ok strict (congestion_control s) b n s) as Hf by (constructor; try done; [constructor|lia]).
  destruct (Flushing.flush_packets_spec strict (congestion_control s) Hw sender b n q s w now now_ms Hf Hd Hnow Hz) as (s' & w' & E & Hok & Hfr);
    [intros id r Hg; apply (ro_incoming _ _ _ _ _ _ _ _ _ Hr id r Hg)|done|].
  exists s', w'. split_and!; [done| |done].
  pose proof (flush_ongoing sender s (fun _ => True) ltac:(done) q s w now now_ms s' w' (conj (reflexivity s) Logic.I) E) as [Hk _].
  destruct Hroom as (Hk0 & _). constructor.
  - eapply rinv_mono; [|by eapply kept_rinv]. unfold ESTIMATED_PAYLOAD_SIZE. lia.
  - apply (Flushing.fo_sender _ _ _ _ _ Hok).
  - by rewrite (k_next _ _ Hk).
  - intros mt d Hq. by apply (Hd mt d), (k_datagrams _ _ Hk).
Qed.

End Session.

(** *** A concrete session *)

(** A codec that writes the two tag bytes in front of the payload. *)
#[local] Instance tagging : EnvelopeCodec := {|
  serialize_envelope mt d := Ok (0x92 :: message_type_tag mt :: d);
  deserialize_envelope b := match peek_message_type b with Some mt => Ok (mt, List.skipn 2 b) | None => Err "invalid" end
|}.
#[local] Instance ticking : RandSource Z :=
  {| next_u32 n := (n mod 2 ^ 32, n + 1); gen_usize n := (n, n + 1); gen_range n lo hi := (lo, n + 1) |}.
#[local] Instance ticking_laws : RandLaws Z.
Proof. split; [intros r; unfold in_u; cbn; apply Z.mod_pos_bound; lia|cbn; lia]. Qed.

Definition idle_session : SequenceSession.t Aimd.t Z := new Aimd.new 0 7.
Definition idle_quota : ReassemblyQuota.t := ReassemblyQuota.new (2 ^ 20).

Lemma idle_good : good 0 Aimd.new.
Proof. split; [lia|apply AimdLaws.aimd_new_sound]. Qed.

Lemma idle_inv strict : inv (fun _ _ _ _ => True) (fun _ _ => True) strict 0 idle_session.
Proof. apply new_inv; [apply idle_good|lia]. Qed.

Lemma idle_covered : covered idle_quota idle_session.
Proof. by split. Qed.

Lemma handle_packet_safe_witness :
  exists q' s' replies, handle_packet idle_quota idle_session (Data 5 0 1 [0x92; 3; 42]) 10 20 = Some (q', s', replies) /\
    events s' = [MessageCompleted 5 SyncHeads [42]; CongestionWindowChanged 10] /\
    inv (fun _ _ _ _ => True) (fun _ _ => True) true STEP s'.
Proof.
  destruct (handle_packet_safe (fun _ _ _ _ => True) (fun _ _ => True) true 0 idle_quota idle_session (Data 5 0 1 [0x92; 3; 42]) 10 20
    (idle_inv true) idle_covered) as [_ Hno].
  - by repeat split.
  - by repeat split.
  - by vm_compute.
  - destruct Hno as (q' & s' & ps & E & Hi & _); [by intros []|]. exists q', s', ps. split; [exact E|]. split; [|exact Hi]. vm_compute in E. injection E as <- <- <-. reflexivity.
Defined.

(** The session with one message to send. *)
Definition busy_session : SequenceSession.t Aimd.t Z :=
  match send_message_at idle_session BlobData [1; 2; 3] 5 with Some (s, _) => s | None => idle_session end.

Lemma busy_inv strict : inv (fun _ _ _ _ => True) (fun _ _ => True) strict 0 busy_session.
Proof.
  destruct (idle_inv strict) as [Hr Hs Hn Hd]. destruct (send_message_at_spec strict 0 idle_session BlobData [1; 2; 3] 5 Hs Hn)
    as (s' & res & E & Hs' & Hrec & Hev & Hn' & _).
  assert (busy_session = s') as -> by (unfold busy_session; by rewrite E).
  constructor; [|done|done|].
  - apply (same_receiver_rinv _ _ 0 idle_session s' []); [done|done|by rewrite Hev|]. intros e He. by apply not_elem_of_nil in He.
  - unfold Flushing.datagrams_fit. by rewrite (send_message_queue _ _ _ _ _ _ E).
Qed.

Lemma cleanup_expires_witness :
  exists q' s', cleanup idle_quota busy_session (from_secs 400) = Some (q', s') /\ outgoing s' = [] /\
    events s' = [MessageFailed 7 "Timed out"; ReadyToSend].
Proof.
  destruct (cleanup_expires (fun _ _ _ _ => True) (fun _ _ => True) true 0 idle_quota busy_session (from_secs 400) (busy_inv true) idle_covered)
    as (q' & s' & E & _ & _ & Ho & _ & He & _).
  exists q', s'. split; [exact E|]. split; [exact Ho|exact He].
Defined.

Lemma send_message_accepts_witness :
  exists s', send_message_at busy_session SyncHeads [9] 6 = Some (s', Ok 8) /\ len (outgoing s') = 2.
Proof.
  destruct (send_message_accepts (fun _ _ _ _ => True) (fun _ _ => True) true 0 busy_session SyncHeads [9] 6 (busy_inv true))
    as (s' & res & E & _ & Hres).
  assert (res = Ok 8) as -> by (by vm_compute in E; injection E as _ <-).
  exists s'. split; [exact E|]. destruct Hres as (p & m & _ & _ & _ & Ho & _). rewrite Ho. reflexivity.
Defined.

Lemma aimd_driven c : Flushing.driven Aimd.new c -> cwnd c = 10 \/ cwnd c = 1.
Proof.
  induction 1 as [|c' k t Hd IH|c' t c'' Hd IH E]; [by left|done|]. right. cbn in E. by injection E as <-.
Qed.

Lemma flush_terminates_witness :
  exists s' w', flush_packets (fun packets p => (packets ++ [p], true)) idle_quota busy_session [] 20 30 = Some (s', w') /\
    w' = [Ping 30; Data 7 0 1 [0x92; 9; 1; 2; 3]] /\ FlatMap.keys (outgoing s') = [7].
Proof.
  destruct (flush_terminates (fun _ _ _ _ => True) (fun _ _ => True) false (fun packets p => (packets ++ [p], true)) 0 0 idle_quota busy_session [] 20 30
    (busy_inv false)) as (s' & w' & E & _ & Hfr).
  - intros c Hc. destruct (aimd_driven c Hc) as [-> | ->]; by vm_compute.
  - intros id m Hm i st Hst. apply FlatMap.get_Some_elem, list_elem_of_singleton in Hm. injection Hm as -> ->.
    assert (0 <= i < 1) as Hi by exact (idx_lt _ _ _ Hst). assert (i = 0) as -> by lia. vm_compute in Hst. injection Hst as <-. by vm_compute.
  - done.
  - lia.
  - by vm_compute.
  - by vm_compute.
  - lia.
  - by vm_compute.
  - exists s', w'. split; [exact E|]. split; [vm_compute in E; by injection E as <- <-|]. by destruct Hfr as (_ & _ & _ & _ & _ & _ & _ & -> & _).
Defined.

End Runs.
