(* ===== verification/SessionSystem.v ===== *)
(** Sessions in company.

    [Endpoint] gathers what the owner of a session can do with it as one relation
    [action].  [SharedQuota] runs any number of sessions that share a reassembly
    quota and shows that memory stays within it whatever the peers send.
    [Delivery] joins two sessions by a network that loses, duplicates, reorders
    and replays packets and forges control packets, and shows that what one side
    delivers is what the other side sent. *)

From S2P Require Import Prelude Bitset FlatMaps Protocol Quota Reassembly Float32 F32Theory Rtt Outgoing Scheduler Congestion Session SessionFrames SessionReceive.
From S2P Require Import CongestionLaws SessionSend SessionFlush SessionRuns.
#[local] Open Scope Z_scope.
#[local] Open Scope list_scope.

Module Endpoint.
Import SequenceSession Receiving Sending Frames.

Section Endpoint.
Context {C : Type} `{CongestionControl C} {Rng : Type} `{RandSource Rng} `{EnvelopeCodec}.

Abbreviation session := (SequenceSession.t C Rng).
Implicit Types (s : session) (q : ReassemblyQuota.t).

(** What the rest of the world sees of an action. *)
Inductive label :=
| Received (p : Packet) (replies : list Packet)
| Sent (mt : MessageType) (d : bytes) (res : result SequencedError Z)
| Posted (mt : MessageType) (d : bytes) (res : result SequencedError unit)
| Flushed (packets : list Packet)
| Polled (e : SessionEvent)
| Internal.

(** The closure given to [flush_packets]: a transport that accepts or refuses
    each packet as it likes. *)
Definition transport (accepts : list Packet -> Packet -> bool) (w : list Packet) (p : Packet) : list Packet * bool :=
  if accepts w p then (w ++ [p], true) else (w, false).

Inductive action q s : label -> ReassemblyQuota.t -> session -> Prop :=
| do_receive p now now_ms q' s' ps : handle_packet q s p now now_ms = Some (q', s', ps) -> action q s (Received p ps) q' s'
| do_send mt d now s' res : send_message_at s mt d now = Some (s', res) -> action q s (Sent mt d res) q s'
| do_post mt d s' res : send_datagram s mt d = Some (s', res) -> action q s (Posted mt d res) q s'
| do_flush accepts now now_ms s' w : flush_packets (transport accepts) q s [] now now_ms = Some (s', w) -> action q s (Flushed w) q s'
| do_cleanup now q' s' : cleanup q s now = Some (q', s') -> action q s Internal q' s'
| do_timeout id d : action q s Internal q (set_message_timeout s id d)
| do_poll s' e : poll_event s = (s', Some e) -> action q s (Polled e) q s'.

(** The fields of a packet are within their types. *)
Definition well_typed (p : Packet) : Prop :=
  match p with Data _ i total d => in_u 16 i /\ in_u 16 total /\ len d <= 2 ^ 40 | _ => True end.

Definition typed (l : label) : Prop := match l with Received p _ => well_typed p | _ => True end.

Lemma transport_emitted s accepts w p :
  (forall r, r ∈ w -> emitted s r) -> emitted s p -> forall r, r ∈ (transport accepts w p).1 -> emitted s r.
Proof. intros Hw Hp r. unfold transport. destruct (accepts w p); cbn; [intros [?| ->%list_elem_of_singleton]%elem_of_app|]; auto. Qed.

Lemma flushed_kept q s accepts now now_ms s' w :
  flush_packets (transport accepts) q s [] now now_ms = Some (s', w) -> kept s s' /\ forall r, r ∈ w -> emitted s r.
Proof.
  intros E. apply (flush_ongoing (transport accepts) s (fun w => forall r, r ∈ w -> emitted s r)) in E; [done| |].
  - intros w1 p. apply transport_emitted.
  - split; [done|]. intros r Hr. by apply not_elem_of_nil in Hr.
Qed.

(** Taking an expired message out keeps the others as they are. *)
Lemma expire_retained now fl evs sch outs fl' evs' sch' outs' :
  FlatMap.retain (expire_outgoing now) (fl, evs, sch) outs = Some (fl', evs', sch', outs') ->
  outs' `sublist_of` outs /\ exists more, evs' = evs ++ more /\ forall e, e ∈ more -> silent e.
Proof.
  revert fl evs sch outs'. induction outs as [|[k m] outs IH]; intros fl evs sch outs' E; cbn [FlatMap.retain] in E.
  { simplify_eq. split; [done|]. exists []. rewrite app_nil_r. split; [done|]. intros e He. by apply not_elem_of_nil in He. }
  inv_bind E. destruct v as [[[[fl1 evs1] sch1] m1] keep]. inv_bind E. destruct v as [[[fl2 evs2] sch2] outs2]. simplify_eq.
  destruct (IH _ _ _ _ E1) as (Hsub & more & He & Hs). cbn [expire_outgoing] in E0. destruct (_ || _) in E0.
  - inv_bind E0. inv_bind E0. injection E0 as <- <- <- <- <-. split; [by apply sublist_cons|].
    exists (MessageFailed k "Timed out" :: ReadyToSend :: more). rewrite He, <- !app_assoc. split; [done|].
    by intros e [->|[->|?%Hs]%elem_of_cons]%elem_of_cons.
  - injection E0 as <- <- <- <- <-. split; [by apply sublist_skip|]. by exists more.
Qed.

(** A peer that sends whatever it likes. *)
Definition anything (id total i : Z) (d : bytes) : Prop := True.
Definition any_datagram (mt : MessageType) (d : bytes) : Prop := True.

(** *** The receiving half *)

Section Receive.
Context (genuine : Z -> Z -> Z -> bytes -> Prop) (datagram : MessageType -> bytes -> Prop).

(** A packet the network may deliver. *)
Definition admissible (p : Packet) : Prop :=
  well_typed p /\ match p with
                  | Data id i total d => genuine id total i d
                  | Datagram mt d => datagram mt d
                  | _ => True
                  end.

Definition may (l : label) : Prop := match l with Received p _ => admissible p | _ => True end.

Record ep_inv (b : Z) q s : Prop := {
  ei_receiver : rinv genuine datagram b s;
  ei_covered : covered q s;
  ei_nodup : NoDup (FlatMap.keys (outgoing s))
}.

Lemma size_charged b q s q' s' : ep_inv b q s -> charged q (incoming_buffer_size s' - incoming_buffer_size s) q' -> covered q' s'.
Proof. intros [_ [_ Hu] _] (W & _ & U). split; [done|lia]. Qed.

(** What an action does to the receiving half and to the quota. *)
Definition booked (b : Z) q s q' s' : Prop :=
  rinv genuine datagram b s' /\ charged q (incoming_buffer_size s' - incoming_buffer_size s) q' /\
  NoDup (FlatMap.keys (outgoing s')).

Lemma booked_advanced b q s s' : 0 <= b -> ep_inv b q s -> advanced s s' -> booked (b + 1) q s q s'.
Proof.
  intros Hb [Hr [Hq _] Hnd] Ha. pose proof (ad_kept _ _ Ha) as Hk. split_and!.
  - eapply rinv_mono; [|by eapply Runs.advanced_rinv]. lia.
  - pose proof (k_size _ _ Hk) as E. cbn in E. rewrite E, Z.sub_diag. by apply charged_zero.
  - exact (k_nodup _ _ Hk Hnd).
Qed.

Lemma booked_cwnd b q s q' s' : booked b q s q' s' -> booked b q s q' (check_cwnd_change s').
Proof.
  intros (Hr & Hc & Hnd). pose proof (check_cwnd_advanced s') as Ha. pose proof (ad_kept _ _ Ha) as Hk. split_and!.
  - by eapply Runs.advanced_rinv.
  - pose proof (k_size _ _ Hk) as E. cbn in E. by rewrite E.
  - exact (k_nodup _ _ Hk Hnd).
Qed.

Lemma receive_booked b q s p now now_ms q' s' ps :
  0 <= b <= 2 ^ 62 -> ep_inv b q s -> admissible p -> handle_packet q s p now now_ms = Some (q', s', ps) -> booked (b + 1) q s q' s'.
Proof.
  intros Hb Hi [Hty Hp] E. destruct (handle_packet_cases _ _ _ _ _ _ _ _ (ei_nodup _ _ _ Hi) E) as (s1 & -> & _ & Hcase).
  apply booked_cwnd. destruct p as [id i total d| | | | |mt d]; [|destruct Hcase as [-> Ha]; by apply booked_advanced; [lia|..]..|].
  - destruct Hty as (Hi1 & Ht & Hl). destruct Hi as [Hr Hc Hnd].
    destruct (handle_data_packet_spec genuine datagram b q (s <| last_activity := now |>) id i total d now) as (q2 & s2 & ps2 & E2 & Hr2 & Hc2 & Hs2);
      [done..|]. rewrite E2 in Hcase. injection Hcase as -> -> ->. split_and!; [done|done|]. destruct Hs2 as (_ & -> & _). done.
  - destruct Hcase as [-> ->]. destruct Hi as [Hr [Hq _] Hnd]. split_and!; [|cbn; rewrite Z.sub_diag; by apply charged_zero|done].
    eapply rinv_events; [eapply rinv_mono; [|exact Hr]; lia|]. intros e ->%list_elem_of_singleton. by left.
Qed.

Lemma send_advanced s mt d now s' res :
  NoDup (FlatMap.keys (outgoing s)) -> send_message_at s mt d now = Some (s', res) ->
  same_receiver s s' /\ events s' = events s /\ datagram_queue s' = datagram_queue s /\ NoDup (FlatMap.keys (outgoing s')).
Proof.
  intros Hnd. unfold send_message_at. generalize (free_id (Z.to_nat MAX_CONCURRENT_OUTGOING) (outgoing s) (next_message_id s)). intros id E.
  repeat first [case_match; simplify_eq/=|inv_bind E; simplify_eq/=]; (split; [done|]; split; [done|]; split; [done|]); try done.
  by apply FlatMap.NoDup_insert.
Qed.

Lemma receiver_booked b q s s' :
  0 <= b -> ep_inv b q s -> same_receiver s s' -> events s' = events s -> NoDup (FlatMap.keys (outgoing s')) -> booked (b + 1) q s q s'.
Proof.
  intros Hb [Hr [Hq _] Hnd] Hs He Hnd'. split_and!; [|destruct Hs as (_ & -> & _); rewrite Z.sub_diag; by apply charged_zero|done].
  eapply rinv_mono; [|apply (Runs.same_receiver_rinv genuine datagram b s s' [])]; [lia|done|done|by rewrite app_nil_r|].
  intros e He'. by apply not_elem_of_nil in He'.
Qed.

Lemma cleanup_booked b q s now q' s' :
  0 <= b -> ep_inv b q s -> cleanup q s now = Some (q', s') ->
  booked (b + 1) q s q' s' /\ tracks (outgoing s) (outgoing s') /\ next_message_id s' = next_message_id s /\ datagram_queue s' = datagram_queue s.
Proof.
  intros Hb [Hr [Hq Hu] Hnd] E. pose proof (rinv_size _ _ _ _ Hr) as [Hsize Hmax].
  assert (forall r, r ∈ FlatMap.values (incoming s) -> 0 <= MessageReassembler.reserved_bytes r) as Hpos.
  { intros r Hin. apply FlatMap.elem_values in Hin as [k Hk]; [|apply Hr].
    exact (io_reserved genuine k r (ro_incoming _ _ _ _ _ _ _ _ _ Hr k r Hk)). }
  pose proof (ro_size _ _ _ _ _ _ _ _ _ Hr) as Hsz.
  destruct (Runs.expire_incoming_spec now (incoming s) q (incoming_buffer_size s)) as (q1 & size & inc & E1 & F1 & Hsub & Hch & Hz); [done|lia|done|done|].
  unfold cleanup in E. rewrite E1 in E. cbn [mbind option_bind] in E. inv_bind E. destruct v as [[[fl evs] sch] outs].
  apply expire_retained in E0 as (Hsub2 & more & -> & Hsil). injection E as <- <-. cbn in Hsub2.
  destruct (Runs.sublist_keys _ _ Hsub2 Hnd) as [Hnd' _]. split; [split_and!; [|done|done]|split_and!; [|done|done]].
  - unfold rinv. cbn. erewrite List.filter_ext; [eapply Runs.receiver_sublist; try done|by intros [? [? ?]]].
    + eapply rinv_mono; [|exact Hr]. lia.
    + pose proof (Runs.zsum_sublist _ _ _ Hpos (fmap_sublist snd _ _ Hsub)) as Hle. unfold FlatMap.values in *. lia.
    + intros e He. apply Hsil in He. by destruct e.
  - intros id m Hm. exists m. split; [|done]. by eapply Runs.sublist_get.
Qed.

Lemma action_booked b q s l q' s' :
  0 <= b <= 2 ^ 62 -> ep_inv b q s -> may l -> action q s l q' s' -> booked (b + 1) q s q' s'.
Proof.
  intros Hb Hi Hl Ha. destruct Ha as [p now now_ms q' s' ps E|mt d now s' res E|mt d s' res E|acc now now_ms s' w E|now q' s' E|id d|s' e E].
  - by eapply receive_booked.
  - destruct (send_advanced _ _ _ _ _ _ (ei_nodup _ _ _ Hi) E) as (Hs & He & _ & Hnd). apply receiver_booked; (done || lia).
  - apply receiver_booked; [lia|done|..]; revert E; unfold send_datagram; intros E; repeat first [inv_bind E|case_match]; simplify_eq; try done; apply Hi.
  - apply booked_advanced; [lia|done|]. by eapply kept_advanced, flushed_kept.
  - eapply cleanup_booked; [|done..]. lia.
  - apply booked_advanced; [lia|done|]. apply kept_advanced. by apply (kept_update s id (fun m => m <| OutgoingMessage.timeout := d |>)).
  - unfold poll_event in E. destruct (events s) as [|e0 l] eqn:Ee; [done|]. injection E as <- ->. destruct Hi as [Hr [Hq _] Hnd].
    split_and!; [|cbn; rewrite Z.sub_diag; by apply charged_zero|done]. eapply rinv_mono; [|destruct Hr as []; constructor; try done]; [lia|].
    cbn. intros x Hx. apply ro_events0. rewrite Ee. by right.
Qed.

End Receive.

Lemma typed_may l : typed l -> may anything any_datagram l.
Proof. by destruct l as [[]| | | | |]. Qed.

Lemma event_weaken (g1 g2 : Z -> Z -> Z -> bytes -> Prop) (d1 d2 : MessageType -> bytes -> Prop) e :
  (forall id total i d, g1 id total i d -> g2 id total i d) -> (forall mt d, d1 mt d -> d2 mt d) -> event_ok g1 d1 e -> event_ok g2 d2 e.
Proof.
  intros Hg Hd. destruct e as [id mt p| | | |]; try done. intros [[-> ?]|(fs & Hfs & ?)]; [left; auto|right]. exists fs. split; [|done].
  intros i d Hi. auto.
Qed.

Lemma rinv_weaken (g1 g2 : Z -> Z -> Z -> bytes -> Prop) (d1 d2 : MessageType -> bytes -> Prop) b s :
  (forall id total i d, g1 id total i d -> g2 id total i d) -> (forall mt d, d1 mt d -> d2 mt d) -> rinv g1 d1 b s -> rinv g2 d2 b s.
Proof.
  intros Hg Hd []. constructor; try done.
  - intros id r Hr. destruct (ro_incoming0 id r Hr). constructor; auto.
  - intros e He. apply ro_events0 in He. by apply (event_weaken g1 g2 d1 d2).
Qed.

(** *** The sending half *)

Definition sender_frame s s' : Prop :=
  tracks (outgoing s) (outgoing s') /\ next_message_id s' = next_message_id s /\
  forall p, p ∈ datagram_queue s' -> p ∈ datagram_queue s.

Lemma kept_frame s s' : kept s s' -> sender_frame s s'.
Proof. intros []. by split_and!. Qed.

Lemma action_frame b q s l q' s' :
  0 <= b <= 2 ^ 62 -> ep_inv anything any_datagram b q s -> typed l -> action q s l q' s' ->
  match l with
  | Sent _ _ _ => True
  | Posted mt d res => outgoing s' = outgoing s /\ next_message_id s' = next_message_id s /\
      datagram_queue s' = datagram_queue s ++ (if is_ok res then [Datagram mt d] else [])
  | Flushed w => sender_frame s s' /\ forall r, r ∈ w -> emitted s r
  | Received _ replies => sender_frame s s' /\ forall r, r ∈ replies -> control r
  | _ => sender_frame s s'
  end.
Proof.
  intros Hb Hi Hl Ha. destruct Ha as [p now now_ms q' s' ps E|mt d now s' res E|mt d s' res E|acc now now_ms s' w E|now q' s' E|id d|s' e E].
  - destruct (handle_packet_cases _ _ _ _ _ _ _ _ (ei_nodup _ _ _ _ _ Hi) E) as (s1 & -> & Hps & Hcase). split; [|done].
    assert (sender_frame s s1) as (F1 & F2 & F3).
    + destruct p as [id i total d| | | | |mt d]; [|destruct Hcase as [-> Ha]; exact (kept_frame _ _ (ad_kept _ _ Ha))..|destruct Hcase as [-> ->]; by split_and!].
      destruct Hl as (Hi1 & Ht & Hle). destruct Hi as [Hr Hc Hnd].
      destruct (handle_data_packet_spec anything any_datagram b q (s <| last_activity := now |>) id i total d now) as (q2 & s2 & ps2 & E2 & _ & _ & Hs2);
        [done..|]. rewrite E2 in Hcase. injection Hcase as -> -> ->. destruct Hs2 as (N & O & _ & _ & _ & _ & _ & _ & _ & D & _).
      cbn in N, O, D. unfold sender_frame. by rewrite N, O, D.
    + pose proof (kept_frame _ _ (ad_kept _ _ (check_cwnd_advanced s1))) as (G1 & G2 & G3).
      cbn in G1, G2, G3. split_and!; [by etrans|by etrans|auto].
  - done.
  - revert E. unfold send_datagram. intros E. repeat first [inv_bind E|case_match]; simplify_eq; by rewrite ?app_nil_r.
  - apply flushed_kept in E as [Hk Hw]. split; [by apply kept_frame|done].
  - destruct (cleanup_booked anything any_datagram b q s now q' s') as (_ & Ht & Hn & Hd); [lia|done|done|]. split_and!; [done|done|by rewrite Hd].
  - by apply kept_frame, (kept_update s id (fun m => m <| OutgoingMessage.timeout := d |>)).
  - unfold poll_event in E. destruct (events s) as [|e0 l] eqn:Ee; [done|]. injection E as <- ->. by split_and!.
Qed.

End Endpoint.
End Endpoint.

(** *** Many sessions, one quota *)

Module SharedQuota.
Import SequenceSession Receiving Sending Frames Endpoint.

Section System.
Context {C : Type} `{CongestionControl C} {Rng : Type} `{RandSource Rng} `{EnvelopeCodec}.
Abbreviation session := (SequenceSession.t C Rng).

(** The sessions of a process and the quota they share. *)
Record sys := mkSys { quota : ReassemblyQuota.t; sessions : list session }.

(** A session is opened, acts, or is dropped. *)
Inductive step : sys -> sys -> Prop :=
| step_open q ss cc now r : step (mkSys q ss) (mkSys q (ss ++ [new cc now r]))
| step_act q l1 s l2 l q' s' : typed l -> action q s l q' s' -> step (mkSys q (l1 ++ s :: l2)) (mkSys q' (l1 ++ s' :: l2))
| step_drop q l1 s l2 : step (mkSys q (l1 ++ s :: l2)) (mkSys (drop q s) (l1 ++ l2)).

Inductive run (start : sys) : Z -> sys -> Prop :=
| run_nil : run start 0 start
| run_snoc n S S' : run start n S -> step S S' -> run start (n + 1) S'.

Record sys_inv (n : Z) (S : sys) : Prop := {
  si_quota : ReassemblyQuota.wf (quota S);
  si_used : ReassemblyQuota.used_bytes (quota S) = zsum incoming_buffer_size (sessions S);
  si_sessions s : s ∈ sessions S -> rinv anything any_datagram n s /\ NoDup (FlatMap.keys (outgoing s))
}.

Lemma new_rinv n (cc : C) now (r : Rng) : 0 <= n -> rinv anything any_datagram n (new cc now r) /\ NoDup (FlatMap.keys (outgoing (new cc now r))).
Proof.
  intros Hn. unfold new. destruct (next_u32 r) as [id r']. split; [|apply NoDup_nil_2].
  constructor; cbn; try done; [apply NoDup_nil_2|split; [apply NoDup_nil_2|done]| |].
  - intros k at_ Hk. by apply not_elem_of_nil in Hk.
  - intros e He. by apply not_elem_of_nil in He.
Qed.

Lemma sizes_nonneg n (l : list session) :
  (forall s, s ∈ l -> rinv anything any_datagram n s /\ NoDup (FlatMap.keys (outgoing s))) -> 0 <= zsum incoming_buffer_size l.
Proof. intros Hl. apply zsum_nonneg. intros s Hs. destruct (Hl s Hs) as [Hr _]. apply (rinv_size _ _ _ _ Hr). Qed.

Lemma quota_step_inv n S S' : 0 <= n <= 2 ^ 62 -> sys_inv n S -> step S S' -> sys_inv (n + 1) S'.
Proof.
  intros Hn [Hq Hu Hs] Hst. destruct Hst as [q ss cc now r|q l1 s l2 l q' s' Hl Ha|q l1 s l2]; cbn [quota sessions] in *.
  - split; [done| |]; cbn [quota sessions].
    + rewrite zsum_app, zsum_cons. unfold new. destruct (next_u32 r). cbn. lia.
    + intros s [Hin| ->%list_elem_of_singleton]%elem_of_app; [|apply new_rinv; lia]. destruct (Hs s Hin). split; [eapply rinv_mono; [|done]; lia|done].
  - assert (s ∈ l1 ++ s :: l2) as Hin by (apply elem_of_app; right; left). destruct (Hs s Hin) as [Hr Hnd].
    assert (0 <= zsum incoming_buffer_size l1) as H1' by (eapply sizes_nonneg; intros x Hx; apply Hs, elem_of_app; by left).
    assert (0 <= zsum incoming_buffer_size l2) as H2' by (eapply sizes_nonneg; intros x Hx; apply Hs, elem_of_app; right; by right).
    rewrite zsum_app, zsum_cons in Hu.
    destruct (action_booked anything any_datagram n q s l q' s') as (Hr' & (W & M & U) & Hnd'); [done| |by apply typed_may|done|].
    { split; [done|split; [done|lia]|done]. }
    split; [done| |]; cbn [quota sessions].
    + rewrite zsum_app, zsum_cons. lia.
    + intros x [Hx|[->|Hx]%elem_of_cons]%elem_of_app; [| done |];
        (destruct (Hs x) as [? ?]; [apply elem_of_app; rewrite elem_of_cons; tauto|]; split; [eapply rinv_mono; [|done]; lia|done]).
  - assert (s ∈ l1 ++ s :: l2) as Hin by (apply elem_of_app; right; left). destruct (Hs s Hin) as [Hr _].
    pose proof (rinv_size _ _ _ _ Hr) as [Hsz _]. rewrite zsum_app, zsum_cons in Hu.
    assert (0 <= zsum incoming_buffer_size l1) as H1' by (eapply sizes_nonneg; intros x Hx; apply Hs, elem_of_app; by left).
    assert (0 <= zsum incoming_buffer_size l2) as H2' by (eapply sizes_nonneg; intros x Hx; apply Hs, elem_of_app; right; by right).
    destruct (charged_release q (incoming_buffer_size s) Hq ltac:(lia)) as (W & _ & U). split; [done| |]; cbn [quota sessions].
    + rewrite zsum_app. unfold drop. lia.
    + intros x Hx. destruct (Hs x) as [? ?]; [apply elem_of_app in Hx as [?|?]; apply elem_of_app; [by left|right; by right]|].
      split; [eapply rinv_mono; [|done]; lia|done].
Qed.

Lemma run_inv start n S : 0 <= n -> sys_inv 0 start -> run start n S -> n <= 2 ^ 62 -> sys_inv n S.
Proof.
  intros Hn H0' Hrun. induction Hrun as [|n S S' Hrun IH Hst]; [done|]. intros Hle.
  assert (0 <= n) by (clear -Hrun; induction Hrun; lia). apply (quota_step_inv n S); [lia|apply IH; lia|done].
Qed.

(** The memory held by the fragments of a session. *)
Definition buffered (s : session) : Z :=
  zsum (fun r => FragmentBuffer.total_allocated_size (MessageReassembler.buffer r)) (FlatMap.values (incoming s)).

Lemma buffered_le n s : rinv anything any_datagram n s -> buffered s <= incoming_buffer_size s.
Proof.
  intros Hr. rewrite (ro_size _ _ _ _ _ _ _ _ _ Hr). apply zsum_mono. intros r Hin.
  apply FlatMap.elem_values in Hin as [k Hk]; [|apply Hr]. apply (ro_incoming _ _ _ _ _ _ _ _ _ Hr k r Hk).
Qed.

(** C11: Bounded memory.  Sessions of one process share a quota of [max] bytes.
    Open and drop sessions and let each handle arbitrary packets, send, flush,
    clean up and poll, in any interleaving of up to 2^62 steps.  Then the quota in
    use is exactly the sum of what the sessions have reserved and never exceeds
    [max]; no session reserves more than its own limit or keeps more than 32
    reassemblies; the fragments a session buffers fit what it has reserved, so
    together they fit [max]. *)
Theorem quota_bounds_memory max n S :
  0 <= max -> max * 100 <= usize_max -> 0 <= n <= 2 ^ 62 -> run (mkSys (ReassemblyQuota.new max) []) n S ->
  ReassemblyQuota.used (quota S) = zsum incoming_buffer_size (sessions S) /\
  ReassemblyQuota.used (quota S) <= ReassemblyQuota.capacity (quota S) /\
  zsum buffered (sessions S) <= ReassemblyQuota.used (quota S) /\
  (forall s, s ∈ sessions S -> buffered s <= incoming_buffer_size s <= max_per_session s /\
     FlatMap.len (incoming s) <= MAX_CONCURRENT_INCOMING).
Proof.
  intros Hmax Hm Hn Hrun. apply run_inv in Hrun as [[Hq _] Hu Hs]; [|lia| |lia].
  2: { split; [split; cbn; lia|done|]. intros s Hin. by apply not_elem_of_nil in Hin. }
  unfold ReassemblyQuota.used, ReassemblyQuota.capacity. split_and!; [done|lia| |].
  - rewrite Hu. apply zsum_mono. intros s Hin. destruct (Hs s Hin) as [Hr _]. by eapply buffered_le.
  - intros s Hin. destruct (Hs s Hin) as [Hr _]. pose proof (rinv_size _ _ _ _ Hr) as [? _]. pose proof (buffered_le _ _ Hr).
    split; [lia|apply Hr].
Qed.

End System.
#[local] Existing Instance Runs.tagging.
#[local] Existing Instance Runs.ticking.

Lemma quota_bounds_memory_witness :
  exists S : sys (C := Aimd.t) (Rng := Z), run (mkSys (ReassemblyQuota.new (2 ^ 20)) []) 2 S /\
    ReassemblyQuota.used (quota S) = 116 /\ zsum buffered (sessions S) <= 116.
Proof.
  destruct (handle_packet (ReassemblyQuota.new (2 ^ 20)) (new Aimd.new 0 (7 : Z)) (Data 5 0 2 [1; 2]) 10 20) as [[[q' s'] ps]|] eqn:E;
    [|by vm_compute in E].
  assert (run (mkSys (ReassemblyQuota.new (2 ^ 20)) []) 2 (mkSys q' [s'])) as Hrun.
  { apply (run_snoc _ 1 (mkSys (ReassemblyQuota.new (2 ^ 20)) [new Aimd.new 0 (7 : Z)])).
    - apply (run_snoc _ 0 _ _ (run_nil _)). exact (step_open _ [] Aimd.new 0 (7 : Z)).
    - refine (step_act _ [] _ [] (Received (Data 5 0 2 [1; 2]) ps) _ _ _ (do_receive _ _ _ _ _ _ _ _ E)).
      by repeat split. }
  exists (mkSys q' [s']). split; [exact Hrun|].
  destruct (quota_bounds_memory (2 ^ 20) 2 (mkSys q' [s'])) as (_ & _ & Hb & _); [lia|by vm_compute|lia|exact Hrun|].
  assert (ReassemblyQuota.used q' = 116) as Hu by (vm_compute in E; by injection E as <- _ _). cbn [quota] in *. rewrite Hu in Hb. split; [exact Hu|exact Hb].
Defined.

End SharedQuota.

(** *** Two sessions and a network *)

(** Encoding and then decoding an envelope that is not too large gives it back. *)
Class CodecLaws `{EnvelopeCodec} := {
  decode_encode mt d p : serialize_envelope mt d = Ok p -> len p <= MAX_MESSAGE_SIZE -> deserialize_envelope p = Ok (mt, d)
}.

Module Delivery.
Import SequenceSession Receiving Sending Frames Endpoint.

Section Network.
Context {C : Type} `{CongestionControl C} {Rng : Type} `{RandSource Rng} `{CodecLaws}.
Abbreviation session := (SequenceSession.t C Rng).
Implicit Types (s : session) (q : ReassemblyQuota.t).

(** The fragments of an encoded envelope. *)
Definition MTU : Z := MAX_TOX_PACKET_SIZE - PACKET_OVERHEAD.
Definition cut (p : bytes) : OutgoingMessage.t := OutgoingMessage.initial CapsAnnounce p MTU (div_ceil (len p) MTU) 0.

Lemma cut_sized p : len p <= MAX_MESSAGE_SIZE -> OutgoingMessage.sized (cut p).
Proof.
  intros Hp. pose proof (len_nonneg p). unfold MAX_MESSAGE_SIZE in Hp. split; [|split; [done|]].
  - cbn. unfold MTU. vm_compute. split; congruence.
  - cbn. change MTU with 1353. pose proof (div_ceil_spec (len p) 1353 ltac:(lia)). unfold MAX_FRAGMENTS_PER_MESSAGE. lia.
Qed.

(** What was accepted for sending, with the ids it got; and the datagrams. *)
Definition journal := list (Z * (MessageType * bytes)).

Definition of_journal (log : journal) (id : Z) (p : bytes) : Prop :=
  exists mt d, (id, (mt, d)) ∈ log /\ serialize_envelope mt d = Ok p /\ len p <= MAX_MESSAGE_SIZE.

Definition sent_fragment (log : journal) (id total i : Z) (d : bytes) : Prop :=
  exists p, of_journal log id p /\ OutgoingMessage.num_fragments (cut p) = total /\ OutgoingMessage.get_fragment (cut p) i = Some d.

Definition sent_datagram (posts : list (MessageType * bytes)) (mt : MessageType) (d : bytes) : Prop := (mt, d) ∈ posts.

Lemma of_journal_unique log id p p' : NoDup log.*1 -> of_journal log id p -> of_journal log id p' -> p = p'.
Proof.
  intros Hnd (mt & d & Hin & E & _) (mt' & d' & Hin' & E' & _).
  apply (FlatMap.elem_get _ _ _ Hnd) in Hin, Hin'. congruence.
Qed.

(** Fragments of one message put together are that message. *)
Lemma fragments_of_one log id fs :
  NoDup log.*1 -> 0 < len fs -> (forall i d, idx fs i = Some d -> sent_fragment log id (len fs) i d) ->
  exists p, of_journal log id p /\ concat fs = p.
Proof.
  intros Hnd Hpos Hfs. destruct (proj2 (idx_is_Some fs 0) ltac:(lia)) as [d0 Hd0]. destruct (Hfs 0 d0 Hd0) as (p & Hp & Hlen & _).
  exists p. split; [done|]. pose proof (cut_sized p) as Hsz. assert (len p <= MAX_MESSAGE_SIZE) as Hle by (by destruct Hp as (? & ? & _ & _ & ?)).
  specialize (Hsz Hle). assert (fs = OutgoingMessage.fragment (cut p) <$> zrange 0 (len fs)) as ->.
  - apply list_eq. intros j. rewrite list_lookup_fmap. destruct (fs !! j) as [d|] eqn:Ej.
    + assert (idx fs (Z.of_nat j) = Some d) as Ed by (apply idx_Some; rewrite Nat2Z.id; split; [lia|done]).
      pose proof (idx_lt _ _ _ Ed) as Hj. destruct (Hfs _ _ Ed) as (p' & Hp' & _ & Hf). rewrite <- (of_journal_unique log id p p' Hnd Hp Hp') in Hf.
      rewrite OutgoingMessage.get_fragment_ok in Hf by (done || lia). injection Hf as <-.
      unfold zrange. rewrite list_lookup_fmap, lookup_seq_lt by (unfold len in *; lia). by repeat f_equal.
    + apply lookup_ge_None in Ej. unfold zrange. rewrite list_lookup_fmap, lookup_seq_ge by (unfold len in *; lia). done.
  - rewrite <- Hlen. by apply OutgoingMessage.concat_fragments.
Qed.

Lemma delivered_in_journal log id mt d :
  NoDup log.*1 -> delivered (sent_fragment log) id mt d -> (id, (mt, d)) ∈ log.
Proof.
  intros Hnd (fs & Hfs & Hpos & Hdec). destruct (fragments_of_one log id fs Hnd Hpos Hfs) as (p & (mt' & d' & Hin & Henc & Hle) & Hc).
  rewrite Hc in Hdec. rewrite (decode_encode _ _ _ Henc Hle) in Hdec. by simplify_eq.
Qed.

(** *** The network *)

Record net := mkNet {
  alice : session; alice_quota : ReassemblyQuota.t;
  bob : session; bob_quota : ReassemblyQuota.t;
  wire : list Packet;
  log : journal; posts : list (MessageType * bytes);
  inbox : list SessionEvent
}.

(** What an action of the sender adds to the wire and to the journals. *)
Definition on_wire (l : label) : list Packet := match l with Flushed w => w | Received _ replies => replies | _ => [] end.
Definition logged (l : label) : journal := match l with Sent mt d (Ok id) => [(id, (mt, d))] | _ => [] end.
Definition posted (l : label) : list (MessageType * bytes) := match l with Posted mt d (Ok _) => [(mt, d)] | _ => [] end.
Definition taken (l : label) : list SessionEvent := match l with Polled e => [e] | _ => [] end.

(** The receiver gets packets that were put on the wire, in any order and any
    number of times, and control packets from anyone. *)
Definition arrives (w : list Packet) (l : label) : Prop := match l with Received p _ => p ∈ w \/ control p | _ => True end.

Inductive step (n : net) : net -> Prop :=
| alice_acts l q' s' : typed l -> action (alice_quota n) (alice n) l q' s' ->
    step n (mkNet s' q' (bob n) (bob_quota n) (wire n ++ on_wire l) (log n ++ logged l) (posts n ++ posted l) (inbox n))
| bob_acts l q' s' : typed l -> arrives (wire n) l -> action (bob_quota n) (bob n) l q' s' ->
    step n (mkNet (alice n) (alice_quota n) s' q' (wire n) (log n) (posts n) (inbox n ++ taken l)).

Inductive run (start : net) : Z -> net -> Prop :=
| run_nil : run start 0 start
| run_snoc k n n' : run start k n -> step n n' -> run start (k + 1) n'.

(** A packet that may be on the wire. *)
Definition genuine_packet (log : journal) (posts : list (MessageType * bytes)) (p : Packet) : Prop :=
  match p with
  | Data id i total d => sent_fragment log id total i d
  | Datagram mt d => sent_datagram posts mt d
  | _ => True
  end.

(** The part of the invariant that speaks about the sender. *)
Record sender_inv (start k : Z) s (w : list Packet) (log : journal) (posts : list (MessageType * bytes)) : Prop := {
  sn_out id m : FlatMap.get (outgoing s) id = Some m -> exists p, of_journal log id p /\ same_cut (cut p) m;
  sn_queue p : p ∈ datagram_queue s -> exists mt d, p = Datagram mt d /\ (mt, d) ∈ posts;
  sn_wire p : p ∈ w -> genuine_packet log posts p;
  sn_ids : exists j, 0 <= j <= k /\ next_message_id s = wrap 32 (start + j) /\
    forall id, id ∈ log.*1 -> exists i, 0 <= i < j /\ id = wrap 32 (start + i);
  sn_nodup : NoDup log.*1
}.

Record net_inv (start k : Z) (n : net) : Prop := {
  ni_alice : ep_inv anything any_datagram k (alice_quota n) (alice n);
  ni_bob : ep_inv (sent_fragment (log n)) (sent_datagram (posts n)) k (bob_quota n) (bob n);
  ni_inbox e : e ∈ inbox n -> event_ok (sent_fragment (log n)) (sent_datagram (posts n)) e;
  ni_sender : sender_inv start k (alice n) (wire n) (log n) (posts n)
}.

Lemma of_journal_app log more id p : of_journal log id p -> of_journal (log ++ more) id p.
Proof. intros (mt & d & Hin & ?). exists mt, d. split; [|done]. apply elem_of_app. by left. Qed.

Lemma sent_fragment_app log more id total i d : sent_fragment log id total i d -> sent_fragment (log ++ more) id total i d.
Proof. intros (p & Hp & ?). exists p. split; [|done]. by apply of_journal_app. Qed.

Lemma genuine_app log posts more mposts p : genuine_packet log posts p -> genuine_packet (log ++ more) (posts ++ mposts) p.
Proof.
  destruct p as [id i total d| | | | |mt d]; cbn; try done; [apply sent_fragment_app|]. intros Hin. apply elem_of_app. by left.
Qed.

(** What a flush puts on the wire is genuine. *)
Lemma emitted_genuine start k s w log posts p : sender_inv start k s w log posts -> emitted s p -> genuine_packet log posts p.
Proof.
  intros Hi [Hq|He]; [destruct (sn_queue _ _ _ _ _ _ Hi p Hq) as (mt & d & -> & Hin); exact Hin|].
  destruct p as [id i total d| | | | |mt d]; try done. destruct He as (m & Hm & Ht & Hf).
  destruct (sn_out _ _ _ _ _ _ Hi id m Hm) as (p & Hp & Hc). exists p. split; [done|]. rewrite <- (same_cut_fragment _ _ i Hc). split; [|done].
  rewrite <- Ht. symmetry. apply Hc.
Qed.

(** The ids handed out are consecutive, so none is reused before they wrap. *)
Lemma wrap_distinct start i j : 0 <= i < j -> j < 2 ^ 32 -> wrap 32 (start + i) <> wrap 32 (start + j).
Proof.
  intros Hi Hj E. unfold wrap in E. pose proof (Z.div_mod (start + i) (2 ^ 32)). pose proof (Z.div_mod (start + j) (2 ^ 32)). lia.
Qed.

Lemma free_id_first fuel m id : FlatMap.contains_key m id = false -> free_id (S fuel) m id = id.
Proof. intros E. cbn. by rewrite E. Qed.

Lemma send_outcome s mt d now s' res :
  FlatMap.get (outgoing s) (next_message_id s) = None -> send_message_at s mt d now = Some (s', res) ->
  datagram_queue s' = datagram_queue s /\
  match res with
  | Ok id => id = next_message_id s /\ next_message_id s' = MessageId.wrapping_add id 1 /\
      exists p m, serialize_envelope mt d = Ok p /\ len p <= MAX_MESSAGE_SIZE /\ outgoing s' = outgoing s ++ [(id, m)] /\ same_cut (cut p) m
  | Err _ => outgoing s' = outgoing s /\
      (next_message_id s' = next_message_id s \/ next_message_id s' = MessageId.wrapping_add (next_message_id s) 1)
  end.
Proof.
  intros Hg. assert (FlatMap.contains_key (outgoing s) (next_message_id s) = false) as Hc.
  { destruct (FlatMap.contains_key _ _) eqn:E; [|done]. apply FlatMap.contains_key_spec in E as [? ?]. congruence. }
  unfold send_message_at. destruct (_ <=? _); [intros E; simplify_eq; eauto|].
  change (Z.to_nat MAX_CONCURRENT_OUTGOING) with (S 31). rewrite free_id_first, Hc by done.
  destruct (serialize_envelope mt d) as [p|e] eqn:Ep; [|intros E; simplify_eq; cbn; eauto].
  destruct (Z.ltb_spec MAX_MESSAGE_SIZE (len p)) as [|Hle]; [intros E; simplify_eq; cbn; eauto|].
  change (sat_sub MAX_TOX_PACKET_SIZE PACKET_OVERHEAD) with MTU. change (MTU =? 0) with false. cbn iota.
  pose proof (cut_sized p Hle) as (Hm1 & Hm2 & Hm3). change (OutgoingMessage.payload_mtu (cut p)) with MTU in *.
  change (OutgoingMessage.data (cut p)) with p in *. change (OutgoingMessage.num_fragments (cut p)) with (div_ceil (len p) MTU) in *.
  destruct (OutgoingMessage.outgoing_new_spec mt p MTU now ltac:(lia) ltac:(lia)) as [-> _]. cbn [mbind option_bind].
  intros E. inv_bind E. injection E as <- <-. cbn. split; [done|]. split; [done|]. split; [done|].
  exists p, (OutgoingMessage.initial mt p MTU (div_ceil (len p) MTU) now). split; [done|]. split; [done|]. split; [|done].
  by rewrite FlatMap.insert_fresh.
Qed.

Lemma ids_later start k s s' (log : journal) :
  next_message_id s' = next_message_id s ->
  (exists j, 0 <= j <= k /\ next_message_id s = wrap 32 (start + j) /\ forall id, id ∈ log.*1 -> exists i, 0 <= i < j /\ id = wrap 32 (start + i)) ->
  exists j, 0 <= j <= k + 1 /\ next_message_id s' = wrap 32 (start + j) /\ forall id, id ∈ log.*1 -> exists i, 0 <= i < j /\ id = wrap 32 (start + i).
Proof. intros E (j & Hj & Hn & Hl). exists j. split; [lia|]. by rewrite E. Qed.

Lemma wrap_next start j : MessageId.wrapping_add (wrap 32 (start + j)) 1 = wrap 32 (start + (j + 1)).
Proof. unfold MessageId.wrapping_add, wrap. rewrite Zplus_mod_idemp_l. f_equal. lia. Qed.

Lemma frame_sender start k s s' w more log posts :
  sender_inv start k s w log posts -> sender_frame s s' -> (forall p, p ∈ more -> genuine_packet log posts p) ->
  sender_inv start (k + 1) s' (w ++ more) log posts.
Proof.
  intros [] (F1 & F2 & F3) Hmore. constructor; [|auto| |by eapply ids_later|done].
  - intros id m Hm. destruct (F1 id m Hm) as (m0 & Hm0 & Hc). destruct (sn_out0 id m0 Hm0) as (p & Hp & Hc0). exists p. split; [done|by etrans].
  - intros p [?|?]%elem_of_app; auto.
Qed.

Lemma next_free start k s w log posts :
  sender_inv start k s w log posts -> k < 2 ^ 32 -> (next_message_id s ∉ log.*1) /\ FlatMap.get (outgoing s) (next_message_id s) = None.
Proof.
  intros Hs Hk. destruct (sn_ids _ _ _ _ _ _ Hs) as (j & Hj & Hn & Hl).
  assert (next_message_id s ∉ log.*1) as Hfree.
  { intros Hin. destruct (Hl _ Hin) as (i & Hi & E). rewrite Hn in E. symmetry in E. by apply wrap_distinct in E; [|lia..]. }
  split; [done|]. destruct (FlatMap.get _ _) as [m|] eqn:E; [|done]. exfalso. apply Hfree.
  destruct (sn_out _ _ _ _ _ _ Hs _ _ E) as (p & (mt & d & Hin & _) & _). apply list_elem_of_fmap. by exists (next_message_id s, (mt, d)).
Qed.

Lemma send_sender start k s mt d now s' res w log posts :
  sender_inv start k s w log posts -> k < 2 ^ 32 -> send_message_at s mt d now = Some (s', res) ->
  sender_inv start (k + 1) s' w (log ++ logged (Sent mt d res)) posts.
Proof.
  intros Hs Hk E. destruct (next_free _ _ _ _ _ _ Hs Hk) as [Hfree Hg]. destruct (send_outcome _ _ _ _ _ _ Hg E) as [Hq Hres].
  pose proof Hs as []. destruct sn_ids0 as (j & Hj & Hn & Hl). destruct res as [id|e]; cbn [logged].
  - destruct Hres as (-> & Hnext & p & m & Hser & Hle & Hout & Hc). constructor.
    + intros id x. rewrite Hout, FlatMap.get_app. destruct (FlatMap.get (outgoing s) id) as [y|] eqn:Ey.
      * intros Hx. simplify_eq. destruct (sn_out0 id x Ey) as (p' & Hp' & Hc'). exists p'. split; [by apply of_journal_app|done].
      * cbn. case_decide as Hd; [|done]. intros Hx. simplify_eq. exists p. split; [|done]. exists mt, d. split; [|done]. apply elem_of_app. right. by left.
    + by rewrite Hq.
    + intros r Hr. rewrite <- (app_nil_r posts). by apply genuine_app, sn_wire0.
    + exists (j + 1). split; [lia|]. split; [by rewrite Hnext, Hn, wrap_next|]. intros id. rewrite fmap_app, elem_of_app. cbn. rewrite list_elem_of_singleton.
      intros [Hin| ->]; [destruct (Hl id Hin) as (i & Hi & ->); exists i; split; [lia|done]|exists j; split; [lia|done]].
    + rewrite fmap_app. apply NoDup_app. split; [done|]. cbn. split; [by intros x Hx ->%list_elem_of_singleton|apply NoDup_singleton].
  - destruct Hres as [Hout Hnext]. rewrite app_nil_r. constructor; [by rewrite Hout|by rewrite Hq|done| |done].
    destruct Hnext as [Hnext|Hnext]; [by eapply ids_later; [|exists j]|]. exists (j + 1). rewrite Hnext, Hn, wrap_next.
    split; [lia|]. split; [done|]. intros id Hin. destruct (Hl id Hin) as (i & Hi & ->). exists i. split; [lia|done].
Qed.

Lemma post_sender start k s mt d s' (res : result SequencedError unit) w log posts :
  sender_inv start k s w log posts -> outgoing s' = outgoing s -> next_message_id s' = next_message_id s ->
  datagram_queue s' = datagram_queue s ++ (if is_ok res then [Datagram mt d] else []) ->
  sender_inv start (k + 1) s' w log (posts ++ posted (Posted mt d res)).
Proof.
  intros [] Ho Hn Hq. constructor; [by rewrite Ho| | |by eapply ids_later|done].
  - intros p. rewrite Hq, elem_of_app. intros [Hp|Hp].
    + destruct (sn_queue0 p Hp) as (mt' & d' & -> & Hin). exists mt', d'. split; [done|]. apply elem_of_app. by left.
    + destruct res as [u|e]; cbn in Hp; [|by apply not_elem_of_nil in Hp]. apply list_elem_of_singleton in Hp as ->.
      exists mt, d. split; [done|]. apply elem_of_app. right. by left.
  - intros p Hp. rewrite <- (app_nil_r log). by apply genuine_app, sn_wire0.
Qed.

Lemma alice_sender start k q s l q' s' w log posts :
  0 <= k < 2 ^ 32 -> ep_inv anything any_datagram k q s -> sender_inv start k s w log posts -> typed l -> action q s l q' s' ->
  sender_inv start (k + 1) s' (w ++ on_wire l) (log ++ logged l) (posts ++ posted l).
Proof.
  intros Hk Hi Hs Hl Ha. pose proof (action_frame k q s l q' s' ltac:(lia) Hi Hl Ha) as Hf.
  destruct l as [p replies|mt d res|mt d res|pkts|e|]; cbn [on_wire logged posted]; rewrite ?(app_nil_r log), ?(app_nil_r posts).
  - destruct Hf as [Hf Hr]. apply (frame_sender _ _ _ _ _ _ _ _ Hs Hf). intros r Hin%Hr. by destruct r.
  - inversion Ha; subst. rewrite (app_nil_r w). by eapply send_sender; [done|lia|].
  - destruct Hf as (H1' & H2' & H3'). rewrite (app_nil_r w). by eapply post_sender.
  - destruct Hf as [Hf Hr]. apply (frame_sender _ _ _ _ _ _ _ _ Hs Hf). intros r Hin%Hr. by eapply emitted_genuine.
  - apply (frame_sender _ _ _ _ _ _ _ _ Hs Hf). intros r Hin. by apply not_elem_of_nil in Hin.
  - apply (frame_sender _ _ _ _ _ _ _ _ Hs Hf). intros r Hin. by apply not_elem_of_nil in Hin.
Qed.

Lemma booked_ep genuine datagram b b' q s q' s' :
  ep_inv genuine datagram b q s -> booked genuine datagram b' q s q' s' -> ep_inv genuine datagram b' q' s'.
Proof. intros Hi (Hr & Hc & Hnd). split; [done|by eapply size_charged|done]. Qed.

Lemma net_step_inv start k n n' : 0 <= k < 2 ^ 32 -> net_inv start k n -> step n n' -> net_inv start (k + 1) n'.
Proof.
  intros Hk [Ha Hb Hin Hs] Hst. destruct Hst as [l q' s' Hl Hact|l q' s' Hl Harr Hact].
  - assert (forall id total i d, sent_fragment (log n) id total i d -> sent_fragment (log n ++ logged l) id total i d) as Hg by (intros; by apply sent_fragment_app).
    assert (forall mt d, sent_datagram (posts n) mt d -> sent_datagram (posts n ++ posted l) mt d) as Hd by (intros mt d Hp; apply elem_of_app; by left).
    constructor; cbn [alice alice_quota bob bob_quota wire log posts inbox].
    + eapply booked_ep; [exact Ha|]. apply (action_booked _ _ _ _ _ l); [lia|done|by apply typed_may|done].
    + destruct Hb as [Hr Hc Hnd]. split; [|done|done]. eapply rinv_weaken; [done|done|]. eapply rinv_mono; [|done]. lia.
    + intros e He. apply Hin in He. by eapply event_weaken.
    + by eapply alice_sender.
  - assert (may (sent_fragment (log n)) (sent_datagram (posts n)) l) as Hmay.
    { destruct l as [p replies| | | | |]; try done. split; [done|]. destruct Harr as [Hw|Hctl]; [|by destruct p].
      apply (sn_wire _ _ _ _ _ _ Hs) in Hw. by destruct p. }
    pose proof (action_booked _ _ k _ _ l q' s' ltac:(lia) Hb Hmay Hact) as Hbk.
    constructor; cbn [alice alice_quota bob bob_quota wire log posts inbox].
    + destruct Ha as [Hr Hc Hnd]. split; [|done|done]. eapply rinv_mono; [|done]. lia.
    + by eapply booked_ep.
    + intros e [He|He]%elem_of_app; [by apply Hin|]. destruct l as [| | | |x|]; cbn in He; try by apply not_elem_of_nil in He.
      apply list_elem_of_singleton in He as ->. inversion Hact as [| | | | | |s1 e1 Epoll]; subst. unfold poll_event in Epoll.
      destruct (events (bob n)) as [|y l] eqn:Ee; [done|]. injection Epoll as _ ->.
      apply (ro_events _ _ _ _ _ _ _ _ _ (ei_receiver _ _ _ _ _ Hb)). rewrite Ee. left.
    + destruct Hs as []. constructor; try done. by eapply ids_later.
Qed.

Definition open_net (cca : C) (ta : Instant) (ra : Rng) (ma : Z) (ccb : C) (tb : Instant) (rb : Rng) (mb : Z) : net :=
  mkNet (new cca ta ra) (ReassemblyQuota.new ma) (new ccb tb rb) (ReassemblyQuota.new mb) [] [] [] [].

Lemma open_ep (genuine : Z -> Z -> Z -> bytes -> Prop) (datagram : MessageType -> bytes -> Prop) (cc : C) (t : Instant) (r : Rng) max :
  0 <= max -> max * 100 <= usize_max -> ep_inv genuine datagram 0 (ReassemblyQuota.new max) (new cc t r).
Proof.
  intros H1' H2'. destruct (SharedQuota.new_rinv 0 cc t r ltac:(lia)) as [Hr Hnd]. split; [| |done].
  - unfold new in *. destruct (next_u32 r) as [id r']. destruct Hr as []. constructor; try done; cbn.
    intros e He. by apply not_elem_of_nil in He.
  - unfold new. destruct (next_u32 r) as [id r']. split; [split; cbn; lia|cbn; lia].
Qed.

Lemma open_inv `{!RandLaws Rng} cca ta ra ma ccb tb rb mb :
  0 <= ma -> ma * 100 <= usize_max -> 0 <= mb -> mb * 100 <= usize_max ->
  net_inv (next_message_id (new cca ta ra)) 0 (open_net cca ta ra ma ccb tb rb mb).
Proof.
  intros. constructor; [by apply open_ep|by apply open_ep| |].
  - intros e He. by apply not_elem_of_nil in He.
  - constructor; cbn [open_net alice wire log posts].
    + unfold new. destruct (next_u32 ra). done.
    + unfold new. destruct (next_u32 ra). intros p Hp. by apply not_elem_of_nil in Hp.
    + intros p Hp. by apply not_elem_of_nil in Hp.
    + exists 0. split; [lia|]. split; [|intros id Hid; by apply not_elem_of_nil in Hid]. rewrite Z.add_0_r.
      unfold new. pose proof (next_u32_range ra) as Hr. destruct (next_u32 ra). cbn in *. symmetry. by apply wrap_small.
    + apply NoDup_nil_2.
Qed.

Lemma run_net_inv start start_net k n : net_inv start 0 start_net -> run start_net k n -> k <= 2 ^ 32 -> 0 <= k /\ net_inv start k n.
Proof.
  intros Hi Hrun. induction Hrun as [|k n n' Hrun IH Hst]; [done|]. intros Hk. destruct IH as [Hk0 IH]; [lia|].
  split; [lia|]. apply (net_step_inv start k n); [lia|done|done].
Qed.

(** What is delivered is in the journal. *)
Lemma delivered_journal `{!RandLaws Rng} cca ta ra ma ccb tb rb mb k n id mt d :
  0 <= ma -> ma * 100 <= usize_max -> 0 <= mb -> mb * 100 <= usize_max ->
  run (open_net cca ta ra ma ccb tb rb mb) k n -> k <= 2 ^ 32 -> MessageCompleted id mt d ∈ inbox n ->
  (id, (mt, d)) ∈ log n \/ (id = 0 /\ (mt, d) ∈ posts n).
Proof.
  intros H1' H2' H3' H4' Hrun Hk Hin.
  destruct (run_net_inv _ _ _ _ (open_inv cca ta ra ma ccb tb rb mb H1' H2' H3' H4') Hrun Hk) as [_ [_ _ Hbox Hs]].
  apply Hbox in Hin as [[-> Hd]|Hd]; [by right|left]. eapply delivered_in_journal; [|done]. apply (sn_nodup _ _ _ _ _ _ Hs).
Qed.

(** C1: Delivery is sound.  Two sessions talk over a network that loses,
    duplicates, delays, reorders and replays packets, and in which anyone may
    forge acknowledgements, negative acknowledgements, pings and pongs.  The
    envelope codec decodes what it encodes.  After any run of up to 2^32 actions
    of the two owners, every message the receiver's application polls was
    accepted for sending under that id with that type and payload, or was posted
    as a datagram. *)
Theorem delivered_was_sent `{!RandLaws Rng} cca ta ra ma ccb tb rb mb k n id mt d :
  0 <= ma -> ma * 100 <= usize_max -> 0 <= mb -> mb * 100 <= usize_max ->
  run (open_net cca ta ra ma ccb tb rb mb) k n -> k <= 2 ^ 32 -> MessageCompleted id mt d ∈ inbox n ->
  (id, (mt, d)) ∈ log n \/ (id = 0 /\ (mt, d) ∈ posts n).
Proof. apply delivered_journal. Qed.

End Network.

#[local] Existing Instance Runs.tagging.
#[local] Existing Instance Runs.ticking.
#[local] Existing Instance Runs.ticking_laws.

#[local] Instance tagging_laws : CodecLaws.
Proof. split. intros mt d p E _. injection E as <-. by destruct mt. Qed.

Definition start_net : net (C := Aimd.t) (Rng := Z) := open_net Aimd.new 0 7 (2 ^ 20) Aimd.new 0 9 (2 ^ 20).

Lemma delivered_was_sent_witness :
  exists n, run start_net 4 n /\ inbox n = [MessageCompleted 7 SyncHeads [42]] /\ (7, (SyncHeads, [42])) ∈ log n.
Proof.
  destruct (send_message_at (alice start_net) SyncHeads [42] 5) as [[s1 r1]|] eqn:E1; [|by vm_compute in E1].
  assert (r1 = Ok 7) as -> by (vm_compute in E1; by injection E1).
  destruct (flush_packets (transport (fun _ _ => true)) (alice_quota start_net) s1 [] 6 6) as [[s2 w]|] eqn:E2;
    [|subst; vm_compute in E1; injection E1 as <-; by vm_compute in E2].
  assert (w = [Ping 6; Data 7 0 1 [0x92; 3; 42]]) as ->.
  { vm_compute in E1. injection E1 as <-. vm_compute in E2. by injection E2. }
  destruct (handle_packet (bob_quota start_net) (bob start_net) (Data 7 0 1 [0x92; 3; 42]) 8 8) as [[[q3 s3] ps]|] eqn:E3; [|by vm_compute in E3].
  destruct (poll_event s3) as [s4 e] eqn:E4.
  assert (e = Some (MessageCompleted 7 SyncHeads [42])) as ->.
  { vm_compute in E3. injection E3 as _ <- _. vm_compute in E4. by injection E4. }
  set (pkts := [Ping 6; Data 7 0 1 [0x92; 3; 42]]) in *. set (journal1 := [(7, (SyncHeads, [42]))] : journal).
  set (qa := alice_quota start_net) in *. set (qb := bob_quota start_net) in *. set (sb := bob start_net) in *.
  assert (step start_net (mkNet s1 qa sb qb [] journal1 [] [])) as S1
    by exact (alice_acts start_net (Sent SyncHeads [42] (Ok 7)) _ _ Logic.I (do_send _ _ _ _ _ _ _ E1)).
  assert (step (mkNet s1 qa sb qb [] journal1 [] []) (mkNet s2 qa sb qb pkts journal1 [] [])) as S2
    by exact (alice_acts (mkNet s1 qa sb qb [] journal1 [] []) (Flushed pkts) _ _ Logic.I (do_flush _ _ _ _ _ _ _ E2)).
  assert (step (mkNet s2 qa sb qb pkts journal1 [] []) (mkNet s2 qa s3 q3 pkts journal1 [] [])) as S3.
  { refine (bob_acts (mkNet s2 qa sb qb pkts journal1 [] []) (Received (Data 7 0 1 [0x92; 3; 42]) ps) _ _ _ _ (do_receive _ _ _ _ _ _ _ _ E3)).
    - by repeat split.
    - left. right. left. }
  assert (step (mkNet s2 qa s3 q3 pkts journal1 [] []) (mkNet s2 qa s4 q3 pkts journal1 [] [MessageCompleted 7 SyncHeads [42]])) as S4
    by exact (bob_acts (mkNet s2 qa s3 q3 pkts journal1 [] []) (Polled (MessageCompleted 7 SyncHeads [42])) _ _ Logic.I Logic.I (do_poll _ _ _ _ E4)).
  pose proof (run_snoc _ 3 _ _ (run_snoc _ 2 _ _ (run_snoc _ 1 _ _ (run_snoc _ 0 _ _ (run_nil start_net) S1) S2) S3) S4) as R4.
  eexists. split; [exact R4|]. split; [reflexivity|].
  destruct (delivered_was_sent Aimd.new 0 (7 : Z) (2 ^ 20) Aimd.new 0 (9 : Z) (2 ^ 20) 4 _ 7 SyncHeads [42] ltac:(lia) ltac:(by vm_compute) ltac:(lia) ltac:(by vm_compute) R4)
    as [Hlog|[Hz _]]; [lia|left|exact Hlog|done].
Defined.

End Delivery.
