(* ===== verification/SessionTimers.v ===== *)
(** The timers of a session ([next_wakeup], [next_check_time]) and its estimate
    of the peer's clock ([handle_packet_internal], the [Pong] branch). *)

From S2P Require Import Prelude Bitset FlatMaps Protocol Quota Reassembly Float32 F32Theory Rtt Outgoing Scheduler Congestion CongestionLaws Session SessionReceive SessionSend SessionFlush SessionRuns.
#[local] Open Scope Z_scope.
#[local] Open Scope list_scope.

Module Timers.
Import SequenceSession Receiving Sending.

Section Wakeup.
Context {C : Type} `{CongestionLaws C} {Rng : Type} `{RandLaws Rng} `{EnvelopeCodec}.
Context (strict : bool).
Abbreviation session := (SequenceSession.t C Rng).
Implicit Types s : session.

(** A message whose timers can be computed. *)
Definition timed (m : OutgoingMessage.t) : Prop :=
  OutgoingMessage.core m /\ forall i st, idx (OutgoingMessage.fragment_states m) i = Some st -> 0 <= rto_backoff st.

Lemma queued_ok m e : timed m -> (forall i at_, e = Some (i, at_) -> (i, at_) ∈ OutgoingMessage.in_flight_queue m) ->
  exists r, queued m e = Some r /\ forall st at_, r = Some (st, at_) -> 0 <= rto_backoff st.
Proof.
  intros [Hc Hb] He. destruct e as [[i at_]|]; cbn; [|by eexists].
  pose proof (OutgoingMessage.core_queue m Hc i at_ (He i at_ eq_refl)) as Hi.
  destruct (idx (OutgoingMessage.fragment_states m) i) as [st|] eqn:Es; cbn.
  - eexists. split; [done|]. intros st' at' ?. simplify_eq. by eapply Hb.
  - rewrite <- (OutgoingMessage.core_states m Hc) in Hi. apply idx_is_Some in Hi as [? ?]. congruence.
Qed.

Lemma front_ok m : timed m -> exists r, in_flight_front m = Some r /\ forall st at_, r = Some (st, at_) -> 0 <= rto_backoff st.
Proof. intros Hm. apply queued_ok; [done|]. intros i at_ E. destruct (OutgoingMessage.in_flight_queue m); [done|]. cbn in E. simplify_eq. left. Qed.

Lemma back_ok m : timed m -> exists r, in_flight_back m = Some r.
Proof.
  intros Hm. destruct (queued_ok m (last (OutgoingMessage.in_flight_queue m))) as (r & E & _); [done| |by exists r].
  intros i at_ El. by eapply last_Some_elem_of.
Qed.

(** The deadline of the oldest fragment in flight. *)
Definition rto_due s (m : OutgoingMessage.t) (t : Instant) : Prop :=
  forall st at_, in_flight_front m = Some (Some (st, at_)) -> latest st at_ = true ->
    exists d, rto_shifted (RttEstimator.rto (rtt s)) (rto_backoff st) = Some d /\ t <= at_ + d.

Lemma wake_rto_spec s l next :
  RttEstimator.wf (rtt s) -> (forall m, m ∈ l -> timed m) ->
  exists t, wake_rto s l next = Some t /\ t <= next /\ forall m, m ∈ l -> rto_due s m t.
Proof.
  intros Hr. revert next. induction l as [|m l IH]; intros next Hl; cbn [wake_rto].
  { exists next. split; [done|]. split; [lia|]. intros m Hm. by apply not_elem_of_nil in Hm. }
  assert (forall x, x ∈ l -> timed x) as Hl' by (intros x Hx; apply Hl; by right).
  destruct (front_ok m) as (r & Ef & Hbk); [apply Hl; left|]. rewrite Ef. run.
  assert (exists nx, match r with
    | Some (st, at_) => if latest st at_ then d ← rto_shifted (RttEstimator.rto (rtt s)) (rto_backoff st); Some (Z.min next (at_ + d)) else Some next
    | None => Some next end = Some nx /\ nx <= next /\ forall t, t <= nx -> rto_due s m t) as (nx & -> & Hle & Hdue).
  { destruct r as [[st at_]|]; [|exists next; split; [done|]; split; [lia|]; intros t _ st at_ E _; congruence].
    destruct (latest st at_) eqn:El; [|exists next; split; [done|]; split; [lia|]; intros t _ st' at' E El'; rewrite Ef in E; simplify_eq; congruence].
    unfold rto_shifted. destruct (RttEstimator.backoff_scaled (RttEstimator.rto (rtt s)) (Z.min 6 (rto_backoff st))) as [Ed _];
      [apply Hr|specialize (Hbk st at_ eq_refl); lia|]. rewrite Ed. run. eexists. split; [done|]. split; [lia|].
    intros t Ht st' at' E _. rewrite Ef in E. simplify_eq. eexists. split; [exact Ed|lia]. }
  run. destruct (IH nx Hl') as (t & -> & Ht & Hall). exists t. split; [done|]. split; [lia|].
  intros x [->|Hx]%elem_of_cons; [by apply Hdue|by apply Hall].
Qed.

Lemma wake_tlp_spec th l next : (forall m, m ∈ l -> timed m) -> exists t, wake_tlp th l next = Some t /\ t <= next.
Proof.
  revert next. induction l as [|m l IH]; intros next Hl; cbn [wake_tlp]; [exists next; split; [done|lia]|].
  destruct (back_ok m) as (r & ->); [apply Hl; left|]. run.
  destruct (IH (match r with Some (st, at_) => if latest st at_ then Z.min next (at_ + th) else next | None => next end)) as (t & -> & Ht);
    [intros x Hx; apply Hl; by right|].
  exists t. split; [done|]. destruct r as [[st at_]|]; [destruct (latest st at_)|]; lia.
Qed.

Lemma wake_acks_spec (l : list (Z * (Z * Instant))) now next :
  match wake_acks l now next with
  | inl t => t = now
  | inr t => t <= next /\ forall id n at_, (id, (n, at_)) ∈ l -> n < 2 /\ t <= at_ + DELAYED_ACK_TIMEOUT
  end.
Proof.
  revert next. induction l as [|[id [n at_]] l IH]; intros next; cbn [wake_acks].
  { split; [lia|]. intros id n at_ Hin. by apply not_elem_of_nil in Hin. }
  destruct (Z.leb_spec 2 n) as [|Hn]; cbn [orb]; [done|]. destruct (Z.leb_spec (at_ + DELAYED_ACK_TIMEOUT) now); [done|].
  specialize (IH (Z.min next (at_ + DELAYED_ACK_TIMEOUT))). destruct (wake_acks l now _) as [t|t]; [done|]. destruct IH as [Ht Hall].
  split; [lia|]. intros id' n' at' [E|Hin]%elem_of_cons; [|by eapply Hall]. simplify_eq. lia.
Qed.

Lemma wake_nacks_spec delay (l : list (Z * Instant)) now next :
  match wake_nacks delay l now next with
  | inl t => t = now
  | inr t => t <= next /\ forall id at_, (id, at_) ∈ l -> t <= at_ + delay
  end.
Proof.
  revert next. induction l as [|[id at_] l IH]; intros next; cbn [wake_nacks].
  { split; [lia|]. intros id at_ Hin. by apply not_elem_of_nil in Hin. }
  destruct (Z.leb_spec (at_ + delay) now); [done|]. specialize (IH (Z.min next (at_ + delay))).
  destruct (wake_nacks delay l now _) as [t|t]; [done|]. destruct IH as [Ht Hall].
  split; [lia|]. intros id' at' [E|Hin]%elem_of_cons; [|by eapply Hall]. simplify_eq. lia.
Qed.

Lemma any_new_fits_ok b s l :
  sinv strict b s -> b <= 2 ^ 62 -> (forall m, m ∈ l -> outgoing_ok strict (delivered_bytes s) m) -> is_Some (any_new_fits s l).
Proof.
  intros Hs Hb. pose proof (flight_bounds strict Hs) as Hf. induction l as [|m l IH]; intros Hl; cbn [any_new_fits]; [by eexists|].
  assert (is_Some (any_new_fits s l)) as IH' by (apply IH; intros x Hx; apply Hl; by right).
  unfold has_new. destruct (Z.ltb_spec (OutgoingMessage.next_fragment m) (OutgoingMessage.num_fragments m)) as [Hlt|]; [|done].
  assert (outgoing_ok strict (delivered_bytes s) m) as Hm by (apply Hl; left). pose proof (proj1 (oo_wf _ _ _ Hm)) as Hc.
  pose proof (OutgoingMessage.core_next m Hc). pose proof (OutgoingMessage.core_sized m Hc) as Hsz.
  pose proof (OutgoingMessage.flen_bounds m (OutgoingMessage.next_fragment m) Hsz ltac:(lia)) as Hfl. rewrite OutgoingMessage.fragment_len_ok by (done || lia).
  rewrite (oo_mtu _ _ _ Hm) in Hfl. unfold MAX_TOX_PACKET_SIZE, PACKET_OVERHEAD in Hfl. run. run_chk. destruct (_ <=? peer_rwnd s); [by eexists|done].
Qed.

Lemma wake_send_ok b s now next :
  sinv strict b s -> b <= 2 ^ 62 -> cwnd (congestion_control s) * ESTIMATED_PAYLOAD_SIZE <= usize_max ->
  exists r, wake_send s now next = Some r /\
    match r with
    | inl t => t = now
    | inr t => t <= next /\ (now < next_pacing_time s \/ datagram_queue s = [])
    end.
Proof.
  intros Hs Hb Hw. unfold wake_send. destruct (Z.ltb_spec now (next_pacing_time s)).
  { eexists. split; [done|]. split; [lia|by left]. }
  destruct (datagram_queue s); [|by eexists]. pose proof (good_cwnd b _ (so_cc _ _ _ _ _ _ _ _ _ Hs)) as Hc.
  rewrite chk_usize_ok by (unfold ESTIMATED_PAYLOAD_SIZE in *; lia). run.
  destruct (in_flight s <? _); [|eexists; split; [done|]; split; [lia|by right]].
  destruct (List.existsb _ _); [by eexists|].
  destruct (any_new_fits_ok b s (FlatMap.values (outgoing s)) Hs Hb) as [fits ->]; [by apply (value_ok strict Hs)|]. run.
  destruct fits; [by eexists|]. eexists. split; [done|]. split; [lia|by right].
Qed.

(** Every deadline of the session is met by waking at [t]. *)
Record in_time s (now t : Instant) : Prop := {
  it_acks id n at_ : (id, (n, at_)) ∈ pending_acks s -> t <= Z.max now (at_ + DELAYED_ACK_TIMEOUT) /\ (2 <= n -> t = now);
  it_nacks id at_ : (id, at_) ∈ pending_nacks s -> t <= Z.max now (at_ + nack_delay s);
  it_rto m : m ∈ FlatMap.values (outgoing s) -> t = now \/ rto_due s m t;
  it_ping : t <= Z.max now (last_ping s + ping_interval s);
  it_dead : t <= Z.max now (last_activity s + CONNECTION_TIMEOUT);
  it_datagrams : datagram_queue s <> [] -> next_pacing_time s <= now -> t = now
}.

Lemma at_once s now : in_time s now now.
Proof. constructor; intros; first [lia|by left]. Qed.

(** No timer is missed.  In a session that satisfies the invariant (with
    the window in bytes and the probe counter within their types) [next_wakeup]
    returns a time between now and an hour from now, no later than: now if there
    are datagrams to send or two packets to acknowledge, the end of each delayed
    acknowledgement and negative acknowledgement, the retransmission timeout of
    the oldest fragment in flight of each message, the next ping and the
    connection timeout. *)
Theorem next_wakeup_sound b n s now :
  sinv strict b s -> b <= 2 ^ 62 -> cwnd (congestion_control s) * ESTIMATED_PAYLOAD_SIZE <= usize_max ->
  (forall id m, FlatMap.get (outgoing s) id = Some m -> Flushing.counts n m) -> 0 <= zero_window_probes_sent s ->
  exists t, next_wakeup s now = Some t /\ now <= t <= now + from_secs 3600 /\ in_time s now t.
Proof.
  intros Hs Hb Hw Hcnt Hz. pose proof (so_rtt _ _ _ _ _ _ _ _ _ Hs) as Hrtt.
  assert (forall m, m ∈ FlatMap.values (outgoing s) -> timed m) as Htm.
  { intros m Hm. apply FlatMap.elem_values in Hm as [id Hid]; [|apply Hs].
    split; [apply (oo_wf _ _ _ (so_out _ _ _ _ _ _ _ _ _ Hs id m Hid))|]. intros i st Hst. apply (Hcnt id m Hid i st Hst). }
  assert (now <= now <= now + from_secs 3600) as Hnow by (unfold from_secs; lia).
  unfold next_wakeup. destruct (wake_send_ok b s now (now + from_secs 3600) Hs Hb Hw) as (r & -> & Hr). run.
  destruct r as [t|next]; [subst t; exists now; split; [done|]; split; [done|apply at_once]|]. destruct Hr as [Hn1 Hdg].
  destruct (wake_rto_spec s (FlatMap.values (outgoing s)) next Hrtt Htm) as (n2 & -> & Hn2 & Hdue). run.
  assert (exists n3, (if 0 <? in_flight s then th ← tlp_threshold s; wake_tlp th (FlatMap.values (outgoing s)) n2 else Some n2) = Some n3 /\ n3 <= n2) as (n3 & -> & Hn3).
  { destruct (0 <? in_flight s); [|exists n2; split; [done|lia]]. destruct (Flushing.tlp_threshold_ok s Hrtt) as [th ->]. run. by apply wake_tlp_spec. }
  run. assert (exists n4, (if (peer_rwnd s <? ESTIMATED_PAYLOAD_SIZE) && negb (FlatMap.is_empty (outgoing s))
    then d ← RttEstimator.rto_with_backoff (rtt s) (zero_window_probes_sent s); Some (Z.min n3 (Z.max (last_rwnd_probe s + d) (next_pacing_time s)))
    else Some n3) = Some n4 /\ n4 <= n3) as (n4 & -> & Hn4).
  { destruct (_ && _); [|exists n3; split; [done|lia]]. destruct (RttEstimator.backoff_spec (rtt s) _ Hrtt Hz) as (d & -> & _). run.
    eexists. split; [done|lia]. }
  run. pose proof (wake_acks_spec (pending_acks s) now n4) as Ha.
  destruct (wake_acks (pending_acks s) now n4) as [t|n5]; [subst t; exists now; split; [done|]; split; [done|apply at_once]|]. destruct Ha as [Hn5 Hacks].
  pose proof (wake_nacks_spec (nack_delay s) (pending_nacks s) now n5) as Hk.
  destruct (wake_nacks _ _ now n5) as [t|n6]; [subst t; exists now; split; [done|]; split; [done|apply at_once]|]. destruct Hk as [Hn6 Hnacks].
  eexists. split; [done|]. split; [lia|]. constructor; [..|lia|lia|].
  - intros id k at_ Hin. destruct (Hacks id k at_ Hin). lia.
  - intros id at_ Hin. specialize (Hnacks id at_ Hin). lia.
  - intros m Hm. match goal with |- ?t = now \/ _ => destruct (Z.eq_dec t now); [by left|right] end.
    intros st at_ E El. destruct (Hdue m Hm st at_ E El) as (d & Ed & Hd). exists d. split; [done|lia].
  - intros Hne Hp. destruct Hdg as [?|?]; [lia|done].
Qed.

End Wakeup.
(** *** The clock offset *)

(** The clock estimate.  Let the peer's clock be [off] ahead, let a ping
    take [d1], be answered after [hold], and let the pong take [d2].  Then the
    estimate computed from the four time stamps misses [off] by at most half the
    difference of the two delays (rounded towards zero), so it is exact when the
    delays are equal; nothing overflows while the stamps and the sum stay within
    [i64]. *)
Theorem clock_estimate_error t1 off d1 hold d2 :
  let t2 := t1 + off + d1 in let t3 := t2 + hold in let t4 := t1 + d1 + hold + d2 in
  i64_min <= off + d1 <= i64_max -> i64_min <= off - d2 <= i64_max -> i64_min <= 2 * off + d1 - d2 <= i64_max ->
  exists e, clock_estimate t1 t2 t3 t4 = Some e /\ 2 * Z.abs (e - off) <= Z.abs (d1 - d2) + 1 /\ (d1 = d2 -> e = off).
Proof.
  intros t2 t3 t4 H1 H2 H3. unfold clock_estimate. replace (t2 - t1) with (off + d1) by lia. replace (t3 - t4) with (off - d2) by lia.
  rewrite chk_i64_ok by done. run. rewrite chk_i64_ok by done. run. replace (off + d1 + (off - d2)) with (2 * off + d1 - d2) by lia.
  rewrite chk_i64_ok by done. run. eexists. split; [done|]. pose proof (Z.quot_rem' (2 * off + d1 - d2) 2) as Hq.
  pose proof (Z.rem_bound_abs (2 * off + d1 - d2) 2 ltac:(lia)) as Hr. split; [lia|].
  intros ->. replace (2 * off + d2 - d2) with (off * 2) by lia. by rewrite Z.quot_mul.
Qed.

Lemma clock_estimate_error_witness :
  exists e, clock_estimate 1000 (1000 + 50 + 7) (1000 + 50 + 7 + 3) (1000 + 7 + 3 + 7) = Some e /\ e = 50.
Proof.
  destruct (clock_estimate_error 1000 50 7 3 7) as (e & E & _ & He); [by vm_compute..|]. exists e. split; [exact E|by apply He].
Defined.

(** The time stamps of a pong are the peer's.  While a session waits for a
    pong, one whose stamps make the subtraction overflow [i64] panics (it wraps
    in a build without overflow checks). *)
Theorem pong_may_panic {C Rng : Type} `{CongestionControl C} `{RandSource Rng} `{EnvelopeCodec}
    q (s : SequenceSession.t C Rng) t1 t2 t3 sent now now_ms :
  last_ping_sent s = Some sent -> i64_max < t2 - t1 \/ t2 - t1 < i64_min -> handle_packet q s (Pong t1 t2 t3) now now_ms = None.
Proof.
  intros Hp Hov. unfold handle_packet. cbn [handle_packet_internal last_ping_sent set_field]. rewrite Hp.
  destruct (RttEstimator.update _ _); [run|done]. unfold clock_estimate, chk_i64, chk.
  destruct (Z.leb_spec i64_min (t2 - t1)), (Z.leb_spec (t2 - t1) i64_max); [lia|done..].
Qed.

(** *** A timer run *)

#[local] Existing Instance Runs.tagging.
#[local] Existing Instance Runs.ticking.
#[local] Existing Instance Runs.ticking_laws.

Lemma pong_may_panic_witness :
  handle_packet Runs.idle_quota (Runs.idle_session <| last_ping_sent := Some 5 |>) (Pong 1 i64_min 0) 10 20 = None.
Proof. apply (pong_may_panic _ _ 1 i64_min 0 5); [reflexivity|right; vm_compute; reflexivity]. Defined.

Lemma next_wakeup_sound_witness :
  exists t, next_wakeup Runs.busy_session 20 = Some t /\ 20 <= t <= 20 + from_secs 3600 /\ in_time Runs.busy_session 20 t.
Proof.
  apply (next_wakeup_sound true 0 0 Runs.busy_session 20).
  - apply (Runs.inv_sender _ _ _ _ _ (Runs.busy_inv true)).
  - lia.
  - by vm_compute.
  - intros id m Hm i st Hst. apply FlatMap.get_Some_elem, list_elem_of_singleton in Hm. injection Hm as -> ->.
    assert (0 <= i < 1) as Hi by exact (idx_lt _ _ _ Hst). assert (i = 0) as -> by lia. vm_compute in Hst. injection Hst as <-. by vm_compute.
  - by vm_compute.
Defined.

End Timers.
