(* ===== verification/Iblt.v ===== *)
(** Set reconciliation ([tox-reconcile/src/iblt.rs]): the invertible Bloom lookup
    table.

    Blake3 is library code: the class [Blake3] holds the functions of it that the
    sketch uses.  [None] is a panic (an [i32] count that overflows, an index out
    of range) or, in [get_indices], an output stream without enough distinct
    indices, on which the loop of the source does not end. *)

From S2P Require Import Prelude.
From stdpp Require Import strings sorting.
#[local] Open Scope Z_scope.
#[local] Open Scope list_scope.

(** [derive_key], the output stream of a keyed hasher as little-endian [u32]
    numbers, and the first eight bytes of its hash as a [u64]. *)
Class Blake3 := {
  derive_key : string -> list Z -> list Z;
  xof_u32 : list Z -> list Z -> nat -> Z;
  hash_u64 : list Z -> list Z -> Z;
  draws : nat
}.

Module IbltSketch.

Inductive Tier := Tiny | Small | Medium | Large.

Definition cell_count (t : Tier) : Z :=
  match t with Tiny => 16 | Small => 64 | Medium => 256 | Large => 1024 end.

Definition from_cell_count (count : Z) : Tier :=
  if count <=? 16 then Tiny else if count <=? 64 then Small else if count <=? 256 then Medium else Large.

Definition d_max (t : Tier) : Z :=
  match t with Tiny => 10 | Small => 40 | Medium => 170 | Large => 680 end.

Record IbltCell := mkCell { count : Z; id_sum : list Z; hash_sum : Z }.
#[global] Instance eta_IbltCell : Settable IbltCell := fun c => mkCell (count c) (id_sum c) (hash_sum c).
#[export] Instance IbltCell_eq_dec : EqDecision IbltCell.
Proof. solve_decision. Defined.

(** [IbltCell::default()] *)
Definition empty_cell : IbltCell := mkCell 0 (replicate 32 0) 0.

Record DecodingStats := mkStats { cells_peeled : Z; iterations : Z }.
#[global] Instance eta_DecodingStats : Settable DecodingStats := fun s => mkStats (cells_peeled s) (iterations s).

Inductive ReconciliationError :=
| DecodingFailed (stats : DecodingStats)
| InvalidSketch.

Record t := mk { cells : list IbltCell; k : Z; k_iblt : option (list Z) }.
#[global] Instance eta_t : Settable t := fun s => mk (cells s) (k s) (k_iblt s).

Definition K : Z := 4.
Definition HASH_CONTEXT_CHECKSUM : string := "merkle-tox v1 iblt checksum".
Definition HASH_CONTEXT_INDICES : string := "merkle-tox v1 iblt indices".

Definition new_keyed (cell_count : Z) (key : option (list Z)) : t := mk (replicate (Z.to_nat cell_count) empty_cell) K key.
Definition new (cell_count : Z) : t := new_keyed cell_count None.
Definition from_cells_keyed (cs : list IbltCell) (key : option (list Z)) : t := mk cs K key.
Definition from_cells (cs : list IbltCell) : t := from_cells_keyed cs None.

(** The byte-wise loop [*s ^= b] over two arrays. *)
Definition xor_bytes (a b : list Z) : list Z := zip_with Z.lxor a b.

Section Sketch.
Context `{Blake3}.

Definition blake3_key (context : string) : list Z := derive_key context [].

(** The key of a hash: derived from the sketch's own key if it has one. *)
Definition key_for (s : t) (context : string) : list Z :=
  match k_iblt s with Some key => derive_key context key | None => blake3_key context end.

(** The loop of [get_indices] after [i] draws. *)
Fixpoint draw_indices (fuel i : nat) (stream : nat -> Z) (want num_cells : Z) (indices : list Z) : option (list Z) :=
  if (len indices <? want) && (len indices <? num_cells) then
    match fuel with
    | O => None
    | S fuel =>
        let idx := stream i mod num_cells in
        draw_indices fuel (S i) stream want num_cells (if bool_decide (idx ∈ indices) then indices else indices ++ [idx])
    end
  else Some indices.

Definition get_indices (s : t) (id : list Z) : option (list Z) :=
  let num_cells := len (cells s) in
  let key := key_for s HASH_CONTEXT_INDICES in
  indices ← draw_indices draws 0 (xof_u32 key id) (k s) num_cells [];
  Some (merge_sort Z.le indices).

Definition get_checksum (s : t) (id : list Z) : Z := hash_u64 (key_for s HASH_CONTEXT_CHECKSUM) id.

(** The loop of [update]: adds to the count, xors the id and the checksum. *)
Fixpoint touch_cells (cs : list IbltCell) (indices : list Z) (id : list Z) (delta checksum : Z) : option (list IbltCell) :=
  match indices with
  | [] => Some cs
  | i :: indices =>
      cell ← idx cs i;
      n ← chk_i32 (count cell + delta);
      cs ← upd cs i (mkCell n (xor_bytes (id_sum cell) id) (Z.lxor (hash_sum cell) checksum));
      touch_cells cs indices id delta checksum
  end.

Definition update (s : t) (id : list Z) (delta : Z) : option t :=
  indices ← get_indices s id;
  cs ← touch_cells (cells s) indices id delta (get_checksum s id);
  Some (s <| cells := cs |>).

Definition insert (s : t) (id : list Z) : option t := update s id 1.
Definition remove (s : t) (id : list Z) : option t := update s id (-1).

(** The loop of [subtract]. *)
Fixpoint subtract_cells (cs os : list IbltCell) : option (list IbltCell) :=
  match cs, os with
  | c :: cs, o :: os =>
      n ← chk_i32 (count c - count o);
      cs ← subtract_cells cs os;
      Some (mkCell n (xor_bytes (id_sum c) (id_sum o)) (Z.lxor (hash_sum c) (hash_sum o)) :: cs)
  | _, _ => Some cs
  end.

Definition subtract (s other : t) : option (result ReconciliationError t) :=
  if negb (len (cells s) =? len (cells other)) then Some (Err InvalidSketch)
  else cs ← subtract_cells (cells s) (cells other); Some (Ok (s <| cells := cs |>)).

(** [count.abs()] panics on [i32::MIN]. *)
Definition is_pure (s : t) (i : Z) : option bool :=
  cell ← idx (cells s) i;
  a ← chk_i32 (Z.abs (count cell));
  Some (if negb (a =? 1) then false else get_checksum s (id_sum cell) =? hash_sum cell).

(** The first loop of [decode]: the pure cells. *)
Fixpoint find_pure (s : t) (is_ : list Z) (pure_cells : list Z) : option (list Z) :=
  match is_ with
  | [] => Some pure_cells
  | i :: is_ => p ← is_pure s i; find_pure s is_ (if (p : bool) then pure_cells ++ [i] else pure_cells)
  end.

(** Taking an element out of the cells it maps to; newly pure cells are pushed. *)
Fixpoint peel_cells (s : t) (indices : list Z) (id : list Z) (cnt checksum : Z) (pure_cells : list Z) : option (t * list Z) :=
  match indices with
  | [] => Some (s, pure_cells)
  | i :: indices =>
      c ← idx (cells s) i;
      n ← chk_i32 (count c - cnt);
      cs ← upd (cells s) i (mkCell n (xor_bytes (id_sum c) id) (Z.lxor (hash_sum c) checksum));
      let s := s <| cells := cs |> in
      p ← is_pure s i;
      peel_cells s indices id cnt checksum (if (p : bool) then pure_cells ++ [i] else pure_cells)
  end.

(** The peeling loop; the stack [pure_cells] has its top at the end.  [inl] is
    the early return. *)
Fixpoint peel_loop (fuel : nat) (s : t) (in_self in_other : list (list Z)) (pure_cells : list Z) (stats : DecodingStats) :
    option ((t * DecodingStats) + (t * list (list Z) * list (list Z) * DecodingStats)) :=
  match last pure_cells with
  | None => Some (inr (s, in_self, in_other, stats))
  | Some i =>
      match fuel with
      | O => None
      | S fuel =>
          let pure_cells := removelast pure_cells in
          let stats := stats <| iterations := iterations stats + 1 |> in
          p ← is_pure s i;
          if negb p then peel_loop fuel s in_self in_other pure_cells stats
          else
            cell ← idx (cells s) i;
            let id := id_sum cell in
            let cnt := count cell in
            let '(in_self, in_other) := if cnt =? 1 then (in_self ++ [id], in_other) else (in_self, in_other ++ [id]) in
            let stats := stats <| cells_peeled := cells_peeled stats + 1 |> in
            if d_max (from_cell_count (len (cells s))) <? len in_self + len in_other then Some (inl (s, stats))
            else
              indices ← get_indices s id;
              '(s, pure_cells) ← peel_cells s indices id cnt (hash_sum cell) pure_cells;
              peel_loop fuel s in_self in_other pure_cells stats
      end
  end.

(** The final check: every cell is empty, or the iterations until the first
    that is not. *)
Fixpoint all_empty (cs : list IbltCell) (n : Z) : Z * bool :=
  match cs with
  | [] => (n, true)
  | c :: cs =>
      if negb (count c =? 0) || negb (hash_sum c =? 0) || negb (bool_decide (id_sum c = replicate 32 0)) then (n + 1, false)
      else all_empty cs (n + 1)
  end.

(** How many pops the peeling loop can make: the cells found pure at first and
    those pushed by at most [d_max] peelings. *)
Definition peel_fuel (s : t) : nat := Z.to_nat (len (cells s) + K * d_max (from_cell_count (len (cells s))) + 1).

Definition decode (s : t) : option (t * result ReconciliationError (list (list Z) * list (list Z) * DecodingStats)) :=
  pure_cells ← find_pure s (zrange 0 (len (cells s))) [];
  let stats := mkStats 0 (len (cells s)) in
  r ← peel_loop (peel_fuel s) s [] [] pure_cells stats;
  match r with
  | inl (s, stats) => Some (s, Err (DecodingFailed stats))
  | inr (s, in_self, in_other, stats) =>
      let '(n, ok) := all_empty (cells s) (iterations stats) in
      let stats := stats <| iterations := n |> in
      Some (s, if (ok : bool) then Ok (in_self, in_other, stats) else Err (DecodingFailed stats))
  end.

End Sketch.
End IbltSketch.
