(* ===== verification/IbltTheory.v ===== *)
(** The sketch as a sum in a commutative group, and what decoding recovers.

    A sketch that has seen a list [L] of signed elements holds in cell [i] the sum
    [total L i] of their contributions, whatever their order ([holds]).  From this
    follow that subtracting two sketches leaves the sketch of the symmetric
    difference, that a successful decoding explains the sketch completely, and
    that a sketch of few elements without an unpeelable core decodes. *)

From S2P Require Import Prelude Iblt.
From stdpp Require Import strings sorting sets.
#[local] Open Scope Z_scope.
#[local] Open Scope list_scope.

(** Output streams hit enough different cells, and hashes are [u64] numbers. *)
Class Blake3Laws `{Blake3} := {
  hash_range key x : in_u 64 (hash_u64 key x);
  xof_spreads key x n : 0 < n -> Z.min 4 n <= len (remove_dups ((fun i => xof_u32 key x i mod n) <$> seq 0 draws))
}.

Module IbltTheory.
Import IbltSketch.

(** *** Cells as a group *)

Definition combine (c d : IbltCell) : IbltCell :=
  mkCell (count c + count d) (xor_bytes (id_sum c) (id_sum d)) (Z.lxor (hash_sum c) (hash_sum d)).

Definition cell_wf (c : IbltCell) : Prop := length (id_sum c) = 32%nat.

Lemma xor_bytes_comm a b : xor_bytes a b = xor_bytes b a.
Proof. unfold xor_bytes. revert b. induction a as [|x a IH]; intros [|y b]; cbn; try done. by rewrite Z.lxor_comm, IH. Qed.

Lemma xor_bytes_assoc a b c : xor_bytes a (xor_bytes b c) = xor_bytes (xor_bytes a b) c.
Proof. unfold xor_bytes. revert b c. induction a as [|x a IH]; intros [|y b] [|z c]; cbn; try done. by rewrite Z.lxor_assoc, IH. Qed.

Lemma xor_bytes_zero a n : length a = n -> xor_bytes a (replicate n 0) = a.
Proof. intros <-. unfold xor_bytes. induction a as [|x a IH]; cbn; [done|]. by rewrite Z.lxor_0_r, IH. Qed.

Lemma xor_bytes_self a n : length a = n -> xor_bytes a a = replicate n 0.
Proof. intros <-. unfold xor_bytes. induction a as [|x a IH]; cbn; [done|]. by rewrite Z.lxor_nilpotent, IH. Qed.

Lemma xor_bytes_length a b n : length a = n -> length b = n -> length (xor_bytes a b) = n.
Proof. intros Ha Hb. unfold xor_bytes. rewrite length_zip_with. lia. Qed.

Lemma combine_comm c d : combine c d = combine d c.
Proof. unfold combine. f_equal; [lia|apply xor_bytes_comm|apply Z.lxor_comm]. Qed.

Lemma combine_assoc c d e : combine c (combine d e) = combine (combine c d) e.
Proof. unfold combine. cbn. f_equal; [lia|apply xor_bytes_assoc|by rewrite Z.lxor_assoc]. Qed.

Lemma combine_empty c : cell_wf c -> combine c empty_cell = c.
Proof. intros Hc. unfold combine. cbn -[replicate]. rewrite (xor_bytes_zero _ 32 Hc), Z.lxor_0_r, Z.add_0_r. by destruct c. Qed.

Lemma combine_wf c d : cell_wf c -> cell_wf d -> cell_wf (combine c d).
Proof. intros Hc Hd. by apply xor_bytes_length. Qed.

Lemma empty_wf : cell_wf empty_cell.
Proof. done. Qed.

(** The opposite of a cell. *)
Definition opposite (c : IbltCell) : IbltCell := mkCell (- count c) (id_sum c) (hash_sum c).

Lemma combine_opposite c : cell_wf c -> combine c (opposite c) = empty_cell.
Proof. intros Hc. unfold combine, empty_cell. cbn -[replicate]. by rewrite (xor_bytes_self _ 32 Hc), Z.lxor_nilpotent, Z.add_opp_diag_r. Qed.

Lemma combine_cancel c d : cell_wf c -> cell_wf d -> combine (combine c d) (opposite d) = c.
Proof. intros Hc Hd. by rewrite <- combine_assoc, combine_opposite, combine_empty. Qed.

(** *** Indices *)

Section Theory.
Context `{Blake3Laws}.
Context (n : Z) (key : option (list Z)).

(** Sketches of [n] cells under one key. *)
Record shape (s : t) : Prop := {
  sh_len : len (cells s) = n;
  sh_k : k s = K;
  sh_key : k_iblt s = key;
  sh_cells c : c ∈ cells s -> cell_wf c
}.

Definition stream (id : list Z) : nat -> Z := xof_u32 (key_for (mk [] K key) HASH_CONTEXT_INDICES) id.
Definition check (id : list Z) : Z := hash_u64 (key_for (mk [] K key) HASH_CONTEXT_CHECKSUM) id.

(** The cells an id maps to. *)
Definition slots (id : list Z) : list Z :=
  merge_sort Z.le (default [] (draw_indices draws 0 (stream id) K n [])).

Lemma draw_indices_spec (f : nat -> Z) fuel i acc m :
  0 <= m -> NoDup acc -> (forall x, x ∈ acc <-> x ∈ (fun j => f j mod m) <$> seq 0 i) -> (forall x, x ∈ acc -> 0 <= x < m) ->
  (0 < m -> Z.min K m <= len (remove_dups ((fun j => f j mod m) <$> seq 0 (i + fuel)))) -> len acc <= Z.min K m ->
  exists l, draw_indices fuel i f K m acc = Some l /\ NoDup l /\ (forall x, x ∈ l -> 0 <= x < m) /\ len l = Z.min K m.
Proof.
  intros Hm. revert i acc. induction fuel as [|fuel IH]; intros i acc Hnd Hacc Hrg Hsp Hlen; cbn [draw_indices].
  - assert (Z.min K m <= len acc) as Hge.
    { pose proof (len_nonneg acc). destruct (Z.eq_dec m 0) as [->|]; [unfold K; lia|]. etrans; [apply Hsp; lia|]. rewrite Nat.add_0_r.
      unfold len. apply Nat2Z.inj_le, submseteq_length, NoDup_submseteq; [apply NoDup_remove_dups|].
      intros x Hx. rewrite elem_of_remove_dups in Hx. exact (proj2 (Hacc x) Hx). }
    destruct (Z.ltb_spec (len acc) K), (Z.ltb_spec (len acc) m); cbn [andb]; [lia|..]; (exists acc; split_and!; [done..|lia]).
  - destruct (Z.ltb_spec (len acc) K), (Z.ltb_spec (len acc) m); cbn [andb]; [|exists acc; split_and!; [done..|lia]..].
    pose proof (len_nonneg acc). pose proof (Z.mod_pos_bound (f i) m ltac:(lia)) as Hx.
    assert (seq 0 (S i) = seq 0 i ++ [i]) as Hseq by (by rewrite seq_S).
    apply IH.
    + case_bool_decide; [done|]. by apply NoDup_snoc.
    + intros x. rewrite Hseq, fmap_app, elem_of_app. cbn. rewrite list_elem_of_singleton, <- Hacc.
      case_bool_decide as Hin; [split; [by left|intros [?| ->]; done]|]. by rewrite elem_of_app, list_elem_of_singleton.
    + intros x. case_bool_decide; [apply Hrg|]. intros [?| ->%list_elem_of_singleton]%elem_of_app; [by apply Hrg|done].
    + by replace (S i + fuel)%nat with (i + S fuel)%nat by lia.
    + case_bool_decide; [lia|]. rewrite len_app. unfold len at 2. cbn. lia.
Qed.

Lemma slots_spec id : 0 <= n ->
  draw_indices draws 0 (stream id) K n [] = Some (default [] (draw_indices draws 0 (stream id) K n [])) /\
  NoDup (slots id) /\ (forall i, i ∈ slots id -> 0 <= i < n) /\ len (slots id) = Z.min K n.
Proof.
  intros Hn. destruct (draw_indices_spec (stream id) draws 0 [] n) as (l & E & Hnd & Hrg & Hlen);
    [done|apply NoDup_nil_2|done|by intros x ?%not_elem_of_nil|intros Hp; by apply xof_spreads|unfold K, len; cbn; lia|].
  unfold slots. rewrite E. cbn. pose proof (merge_sort_Permutation Z.le l) as Hp. split; [done|]. split; [by rewrite Hp|].
  split; [intros i; rewrite Hp; apply Hrg|]. unfold len in *. by rewrite Hp.
Qed.

Lemma get_indices_slots s id : 0 <= n -> shape s -> get_indices s id = Some (slots id).
Proof.
  intros Hn [Hl Hk Hkey _]. unfold get_indices, key_for. rewrite Hl, Hk, Hkey. destruct (slots_spec id Hn) as [E _].
  unfold stream, key_for in *. cbn [k_iblt] in *. rewrite E. done.
Qed.

Lemma checksum_check s id : shape s -> get_checksum s id = check id.
Proof. intros [_ _ Hkey _]. unfold get_checksum, check, key_for. by rewrite Hkey. Qed.

(** *** Sums of signed elements *)

Implicit Types (L : list (list Z * Z)).

(** Ids have 32 bytes, signs are plus or minus one. *)
Definition signed L : Prop := forall e, e ∈ L -> length e.1 = 32%nat /\ (e.2 = 1 \/ e.2 = -1).

Definition contribution (e : list Z * Z) (i : Z) : IbltCell :=
  if bool_decide (i ∈ slots e.1) then mkCell e.2 e.1 (check e.1) else empty_cell.

Definition total L (i : Z) : IbltCell := foldr (fun e c => combine (contribution e i) c) empty_cell L.

Lemma total_cons e L i : total (e :: L) i = combine (contribution e i) (total L i).
Proof. done. Qed.

Lemma contribution_wf e i : length e.1 = 32%nat -> cell_wf (contribution e i).
Proof. intros He. unfold contribution. by case_bool_decide. Qed.

Lemma signed_cons e L : signed (e :: L) <-> (length e.1 = 32%nat /\ (e.2 = 1 \/ e.2 = -1)) /\ signed L.
Proof.
  split; [intros Hs; split; [apply Hs; left|intros x Hx; apply Hs; by right]|].
  intros [He Hs] x [->|Hx]%elem_of_cons; [done|by apply Hs].
Qed.

Lemma signed_app L M : signed (L ++ M) <-> signed L /\ signed M.
Proof.
  split; [intros Hs; split; intros e He; apply Hs, elem_of_app; auto|]. intros [HL HM] e [?|?]%elem_of_app; auto.
Qed.

Lemma total_wf L i : signed L -> cell_wf (total L i).
Proof.
  induction L as [|e L IH]; [done|]. intros [[He _] Hs]%signed_cons. cbn. apply combine_wf; [by apply contribution_wf|by apply IH].
Qed.

Lemma total_perm L M i : L ≡ₚ M -> total L i = total M i.
Proof.
  induction 1 as [|e L M _ IH|e1 e2 L|L M N _ IH1 _ IH2]; cbn [total foldr]; [done|by f_equal| |congruence].
  by rewrite !combine_assoc, (combine_comm (contribution e1 i)).
Qed.

Lemma total_app L M i : signed M -> total (L ++ M) i = combine (total L i) (total M i).
Proof.
  intros HM. induction L as [|e L IH]; cbn [app].
  - change (total [] i) with empty_cell. rewrite combine_comm, combine_empty; [done|by apply total_wf].
  - by rewrite !total_cons, IH, combine_assoc.
Qed.

Lemma total_count L i : signed L -> Z.abs (count (total L i)) <= len L.
Proof.
  induction L as [|e L IH]; [done|]. intros [[_ He] Hs]%signed_cons. specialize (IH Hs). rewrite len_cons, total_cons.
  unfold contribution. case_bool_decide; cbn [combine count empty_cell]; lia.
Qed.

(** Reversing the signs. *)
Definition negate L : list (list Z * Z) := (fun e => (e.1, - e.2)) <$> L.

Lemma signed_negate L : signed L -> signed (negate L).
Proof. intros Hs e (x & -> & Hx)%list_elem_of_fmap. destruct (Hs x Hx). cbn. split; [done|lia]. Qed.

Lemma total_negate L i : total (negate L) i = opposite (total L i).
Proof.
  induction L as [|e L IH]; [done|]. unfold negate in *. rewrite fmap_cons, !total_cons, IH. unfold contribution, combine, opposite.
  cbn [fst snd]. case_bool_decide; cbn [count id_sum hash_sum empty_cell]; f_equal; lia.
Qed.

Lemma total_cancel L M i : signed L -> signed M -> total (L ++ negate L ++ M) i = total M i.
Proof.
  intros HL HM. pose proof (signed_negate L HL) as HN. rewrite !total_app by (try apply signed_app; done).
  rewrite combine_assoc, total_negate, combine_opposite by (by apply total_wf). rewrite combine_comm. by apply combine_empty, total_wf.
Qed.

(** *** Sketches that hold a sum *)

Record holds (s : t) L : Prop := {
  h_shape : shape s;
  h_cell i : 0 <= i < n -> idx (cells s) i = Some (total L i)
}.

Lemma holds_perm s L M : L ≡ₚ M -> holds s L -> holds s M.
Proof. intros Hp [Hs Hc]. split; [done|]. intros i Hi. by rewrite <- (total_perm L M i Hp), Hc. Qed.

(** Two sketches that hold the same elements are the same. *)
Lemma holds_unique s s' L : holds s L -> holds s' L -> s = s'.
Proof.
  intros [[Hl Hk Hkey _] Hc] [[Hl' Hk' Hkey' _] Hc']. destruct s as [cs k0 key0], s' as [cs' k1 key1]. cbn in *. f_equal; try congruence.
  apply list_eq. intros j. destruct (decide (Z.of_nat j < n)) as [Hj|Hj].
  - specialize (Hc (Z.of_nat j) ltac:(lia)). specialize (Hc' (Z.of_nat j) ltac:(lia)). apply idx_Some in Hc as [_ Hc], Hc' as [_ Hc'].
    rewrite Nat2Z.id in Hc, Hc'. congruence.
  - rewrite !lookup_ge_None_2; [done|unfold len in *; lia..].
Qed.

Lemma holds_new : 0 <= n -> holds (new_keyed n key) [].
Proof.
  intros Hn. split; [split; cbn; try done|].
  - unfold len. rewrite length_replicate. lia.
  - intros c Hc. apply elem_of_replicate in Hc as [-> _]. apply empty_wf.
  - intros i Hi. apply idx_Some. split; [lia|]. apply lookup_replicate. split; [done|lia].
Qed.

(** A cell list after changing the cells named in [is_]. *)
Lemma touch_cells_spec cs is_ id delta ck :
  NoDup is_ -> (forall i, i ∈ is_ -> exists c, idx cs i = Some c /\ i32_min <= count c + delta <= i32_max) ->
  exists cs', touch_cells cs is_ id delta ck = Some cs' /\ len cs' = len cs /\
    forall i c, idx cs i = Some c -> idx cs' i = Some (if bool_decide (i ∈ is_) then combine c (mkCell delta id ck) else c).
Proof.
  revert cs. induction is_ as [|j is_ IH]; intros cs Hnd Hok; cbn [touch_cells].
  { exists cs. split; [done|]. split; [done|]. intros i c ->. by rewrite bool_decide_false by apply not_elem_of_nil. }
  apply NoDup_cons in Hnd as [Hj Hnd]. destruct (Hok j ltac:(left)) as (c & Hc & Hb). rewrite Hc. run. rewrite chk_i32_ok by done. run.
  pose proof (idx_lt _ _ _ Hc) as Hjr. rewrite upd_ok by done. run. fold (combine c (mkCell delta id ck)). set (c' := mkCell _ _ _).
  destruct (IH (<[Z.to_nat j := c']> cs)) as (cs' & -> & Hl & Hcs); [done| |].
  { intros i Hi. destruct (Hok i ltac:(by right)) as (d & Hd & Hbd). exists d. split; [|done].
    pose proof (idx_lt _ _ _ Hd). rewrite idx_insert by lia. rewrite decide_False by congruence. done. }
  exists cs'. split; [done|]. split; [by rewrite Hl, len_insert|]. intros i d Hd.
  destruct (decide (i = j)) as [->|Hne].
  - rewrite (Hcs j c') by (rewrite idx_insert by lia; by rewrite decide_True). rewrite bool_decide_false by done.
    rewrite bool_decide_true by left. by simplify_eq.
  - rewrite (Hcs i d) by (rewrite idx_insert by (apply idx_lt in Hd; lia); by rewrite decide_False). f_equal.
    by rewrite (bool_decide_ext (i ∈ j :: is_) (i ∈ is_)) by (rewrite elem_of_cons; tauto).
Qed.

(** Cells that hold sums are well formed. *)
Lemma cells_wf cs L :
  len cs = n -> signed L -> (forall i, 0 <= i < n -> idx cs i = Some (total L i)) -> forall c, c ∈ cs -> cell_wf c.
Proof.
  intros Hl HL Hcell c (j & Hj)%list_elem_of_lookup. pose proof (lookup_lt_Some _ _ _ Hj) as Hjl. unfold len in Hl.
  specialize (Hcell (Z.of_nat j) ltac:(lia)). apply idx_Some in Hcell as [_ Hcell]. rewrite Nat2Z.id in Hcell.
  assert (c = total L (Z.of_nat j)) as -> by congruence. by apply total_wf.
Qed.

Lemma update_holds s L x delta :
  0 <= n -> holds s L -> signed ((x, delta) :: L) -> len L < i32_max ->
  exists s', update s x delta = Some s' /\ holds s' ((x, delta) :: L).
Proof.
  intros Hn [Hsh Hc] Hs Hlen. pose proof Hs as [[Hx Hd] HL]%signed_cons. cbn in Hx, Hd. destruct (slots_spec x Hn) as (_ & Hnd & Hrg & _).
  unfold update. rewrite (get_indices_slots s x Hn Hsh). run. rewrite (checksum_check s x Hsh).
  destruct (touch_cells_spec (cells s) (slots x) x delta (check x) Hnd) as (cs & -> & Hl & Hcs).
  { intros i Hi. exists (total L i). split; [by apply Hc, Hrg|]. pose proof (total_count L i HL). unfold i32_min, i32_max in *. lia. }
  run. eexists. split; [done|].
  assert (forall i, 0 <= i < n -> idx cs i = Some (total ((x, delta) :: L) i)) as Hcell.
  { intros i Hi. rewrite (Hcs i _ (Hc i Hi)), total_cons. unfold contribution. cbn [fst snd]. case_bool_decide; f_equal; [apply combine_comm|].
    rewrite combine_comm, combine_empty; [done|by apply total_wf]. }
  split; [|exact Hcell]. destruct Hsh as [S1 S2 S3 S4]. split; try done; cbn [cells set_field]; [by rewrite Hl|].
  apply (cells_wf cs _ ltac:(lia) Hs Hcell).
Qed.

(** An operation for each of several ids. *)
Fixpoint for_each (f : t -> list Z -> option t) (s : t) (ids : list (list Z)) : option t :=
  match ids with [] => Some s | x :: ids => s ← f s x; for_each f s ids end.

Definition with_sign (delta : Z) (ids : list (list Z)) : list (list Z * Z) := (fun x => (x, delta)) <$> ids.

Definition ids_ok (ids : list (list Z)) : Prop := forall x, x ∈ ids -> length x = 32%nat.

Lemma with_sign_signed delta ids : delta = 1 \/ delta = -1 -> ids_ok ids -> signed (with_sign delta ids).
Proof. intros Hd Hi e (x & -> & Hx)%list_elem_of_fmap. split; [by apply Hi|done]. Qed.

Lemma for_each_holds s L ids delta :
  0 <= n -> holds s L -> signed L -> delta = 1 \/ delta = -1 -> ids_ok ids -> len ids + len L <= i32_max ->
  exists s', for_each (fun s x => update s x delta) s ids = Some s' /\ holds s' (with_sign delta ids ++ L).
Proof.
  intros Hn. revert s L. induction ids as [|x ids IH]; intros s L Hh HL Hd Hids Hlen; cbn [for_each]; [by exists s|].
  rewrite len_cons in Hlen. pose proof (len_nonneg ids). assert (ids_ok ids) as Hids' by (intros y Hy; apply Hids; by right).
  assert (signed ((x, delta) :: L)) as HL' by (apply signed_cons; split; [split; [apply Hids; left|done]|done]).
  destruct (update_holds s L x delta Hn Hh HL' ltac:(lia)) as (s1 & -> & Hh1). run.
  destruct (IH s1 _ Hh1 HL' Hd Hids') as (s' & E & Hh'); [rewrite len_cons; lia|]. exists s'. split; [done|].
  eapply holds_perm; [|exact Hh']. unfold with_sign. rewrite fmap_cons. cbn. by rewrite Permutation_middle.
Qed.

Lemma subtract_cells_spec cs os :
  len cs = len os -> (forall i c o, idx cs i = Some c -> idx os i = Some o -> i32_min <= count c - count o <= i32_max) ->
  exists cs', subtract_cells cs os = Some cs' /\ len cs' = len cs /\
    forall i c o, idx cs i = Some c -> idx os i = Some o -> idx cs' i = Some (combine c (opposite o)).
Proof.
  revert os. induction cs as [|c cs IH]; intros [|o os] Hl Hb; cbn [subtract_cells].
  - exists []. split; [done|]. split; [done|]. intros i c o Hc. by apply idx_Some in Hc as [_ ?].
  - by rewrite len_cons in Hl; pose proof (len_nonneg os); unfold len in Hl at 1; cbn in Hl; lia.
  - by rewrite len_cons in Hl; pose proof (len_nonneg cs); unfold len in Hl at 2; cbn in Hl; lia.
  - rewrite !len_cons in Hl. rewrite chk_i32_ok by (by apply (Hb 0)). run.
    destruct (IH os) as (cs' & -> & Hl' & Hcs); [lia| |].
    { intros i c' o' Hc Ho. apply (Hb (i + 1)); apply idx_Some; apply idx_Some in Hc as [? Hc], Ho as [? Ho];
        (split; [lia|]); by replace (Z.to_nat (i + 1)) with (S (Z.to_nat i)) by lia. }
    run. eexists. split; [done|]. split; [rewrite !len_cons; lia|].
    intros i c' o' [Hi Hc]%idx_Some [_ Ho]%idx_Some. apply idx_Some. split; [done|]. destruct (Z.to_nat i) as [|j] eqn:Ej; cbn in *.
    + by simplify_eq.
    + specialize (Hcs (Z.of_nat j) c' o'). rewrite !idx_Some, Nat2Z.id in Hcs. by apply Hcs; (split; [lia|]).
Qed.

Lemma subtract_holds s o L M :
  0 <= n -> holds s L -> holds o M -> signed L -> signed M -> len L + len M <= i32_max ->
  exists d, subtract s o = Some (Ok d) /\ holds d (L ++ negate M).
Proof.
  intros Hn [Hsh Hc] [Hsh' Hc'] HL HM Hlen. pose proof Hsh as [S1 S2 S3 S4]. pose proof Hsh' as [T1 _ _ _].
  unfold subtract. rewrite S1, T1, Z.eqb_refl. cbn [negb].
  destruct (subtract_cells_spec (cells s) (cells o)) as (cs & -> & Hl & Hcs); [congruence| |].
  { intros i c c' Hi Hi'. pose proof (idx_lt _ _ _ Hi) as Hr. rewrite Hc in Hi by lia. rewrite Hc' in Hi' by lia. simplify_eq.
    pose proof (total_count L i HL). pose proof (total_count M i HM). unfold i32_min, i32_max in *. lia. }
  run. eexists. split; [done|]. pose proof (signed_negate M HM) as HN.
  assert (forall i, 0 <= i < n -> idx cs i = Some (total (L ++ negate M) i)) as Hcell.
  { intros i Hi. rewrite (Hcs i _ _ (Hc i Hi) (Hc' i Hi)), total_app by done. by rewrite total_negate. }
  split; [|exact Hcell]. split; try done; cbn [cells set_field]; [congruence|].
  apply (cells_wf cs (L ++ negate M) ltac:(lia)); [by apply signed_app|exact Hcell].
Qed.

(** *** The difference of two sets *)

Lemma split_common (A B : list (list Z)) : NoDup A -> A ≡ₚ list_intersection A B ++ list_difference A B.
Proof.
  intros HA. apply NoDup_Permutation; [done| |].
  - apply NoDup_app. split; [by apply NoDup_list_intersection|]. split; [|by apply NoDup_list_difference].
    intros x [_ Hx]%list_elem_of_intersection [_ Hn]%list_elem_of_difference. done.
  - intros x. rewrite elem_of_app, list_elem_of_intersection, list_elem_of_difference.
    destruct (decide (x ∈ B)); tauto.
Qed.

Lemma common_comm (A B : list (list Z)) : NoDup A -> NoDup B -> list_intersection A B ≡ₚ list_intersection B A.
Proof.
  intros HA HB. apply NoDup_Permutation; [by apply NoDup_list_intersection..|]. intros x. rewrite !list_elem_of_intersection. tauto.
Qed.

Lemma negate_with_sign delta ids : negate (with_sign delta ids) = with_sign (- delta) ids.
Proof. unfold negate, with_sign. rewrite <- list_fmap_compose. done. Qed.

Lemma ids_ok_sub ids ids' : ids_ok ids -> (forall x, x ∈ ids' -> x ∈ ids) -> ids_ok ids'.
Proof. intros Hi Hs x Hx. by apply Hi, Hs. Qed.

(** Two sums with the same cells. *)
Lemma holds_total s L M : holds s L -> (forall i, 0 <= i < n -> total L i = total M i) -> holds s M.
Proof. intros [Hs Hc] He. split; [done|]. intros i Hi. rewrite Hc by done. f_equal. by apply He. Qed.

Lemma difference_total A B i :
  NoDup A -> NoDup B -> ids_ok A -> ids_ok B ->
  total (with_sign 1 A ++ negate (with_sign 1 B)) i = total (with_sign (-1) (list_difference B A) ++ with_sign 1 (list_difference A B)) i.
Proof.
  intros HA HB HiA HiB. set (C := list_intersection A B).
  assert (signed (with_sign 1 C)) as HC.
  { apply with_sign_signed; [by left|]. apply (ids_ok_sub A); [done|]. intros x [? _]%list_elem_of_intersection. done. }
  assert (signed (with_sign (-1) (list_difference B A) ++ with_sign 1 (list_difference A B))) as HD.
  { apply signed_app. split; (apply with_sign_signed; [lia|]); [apply (ids_ok_sub B)|apply (ids_ok_sub A)]; try done;
      intros x [? _]%list_elem_of_difference; done. }
  rewrite <- (total_cancel (with_sign 1 C) _ i HC HD). apply total_perm. rewrite !negate_with_sign.
  assert (with_sign 1 A ≡ₚ with_sign 1 C ++ with_sign 1 (list_difference A B)) as ->.
  { unfold with_sign. rewrite <- fmap_app. by apply fmap_Permutation, split_common. }
  assert (with_sign (- (1)) B ≡ₚ with_sign (- (1)) C ++ with_sign (- (1)) (list_difference B A)) as ->.
  { unfold with_sign, C. rewrite <- fmap_app. apply fmap_Permutation. rewrite (common_comm A B HA HB). by apply split_common. }
  solve_Permutation.
Qed.

(** *** Purity *)

Definition pure_cell (c : IbltCell) : bool := (Z.abs (count c) =? 1) && (check (id_sum c) =? hash_sum c).
Definition pure_at (s : t) (i : Z) : bool := match idx (cells s) i with Some c => pure_cell c | None => false end.

(** Counts of magnitude at most [b]. *)
Definition counts_within (s : t) (b : Z) : Prop := forall c, c ∈ cells s -> Z.abs (count c) <= b.

Lemma idx_elem {A} (l : list A) i x : idx l i = Some x -> x ∈ l.
Proof. intros [_ Hx]%idx_Some. by eapply list_elem_of_lookup_2. Qed.

Lemma is_pure_at s i b : shape s -> counts_within s b -> b <= i32_max -> 0 <= i < n -> is_pure s i = Some (pure_at s i).
Proof.
  intros Hsh Hb Hm Hi. unfold is_pure, pure_at. destruct (proj2 (idx_is_Some (cells s) i)) as [c Hc]; [rewrite (sh_len s Hsh); lia|].
  rewrite Hc. run. specialize (Hb c (idx_elem _ _ _ Hc)). rewrite chk_i32_ok by (unfold i32_min in *; lia). run.
  unfold pure_cell. rewrite (checksum_check s _ Hsh). by destruct (Z.abs (count c) =? 1).
Qed.

Lemma find_pure_spec s b is_ acc :
  shape s -> counts_within s b -> b <= i32_max -> (forall i, i ∈ is_ -> 0 <= i < n) ->
  find_pure s is_ acc = Some (acc ++ filter (fun i => pure_at s i) is_).
Proof.
  intros Hsh Hb Hm. revert acc. induction is_ as [|i is_ IH]; intros acc Hr; cbn [find_pure]; [by rewrite app_nil_r|].
  rewrite (is_pure_at s i b Hsh Hb Hm) by (apply Hr; left). run. rewrite IH by (intros j Hj; apply Hr; by right). f_equal.
  rewrite filter_cons. destruct (pure_at s i); cbn; [by rewrite <- app_assoc|done].
Qed.

(** *** Peeling *)

(** The cells of [s'] are those of [s] less the element in the cells [is_]. *)
Definition peeled (s s' : t) (is_ : list Z) (e : list Z * Z) : Prop :=
  forall i c, idx (cells s) i = Some c ->
    idx (cells s') i = Some (if bool_decide (i ∈ is_) then combine c (opposite (mkCell e.2 e.1 (check e.1))) else c).

(** Every cell of a sketch satisfies [P]. *)
Lemma cells_forall s (P : IbltCell -> Prop) :
  len (cells s) = n -> (forall i c, 0 <= i < n -> idx (cells s) i = Some c -> P c) -> forall c, c ∈ cells s -> P c.
Proof.
  intros Hl HP c (j & Hj)%list_elem_of_lookup. pose proof (lookup_lt_Some _ _ _ Hj). unfold len in Hl.
  apply (HP (Z.of_nat j)); [lia|]. apply idx_Some. rewrite Nat2Z.id. split; [lia|done].
Qed.

Lemma cell_at s i : shape s -> 0 <= i < n -> exists c, idx (cells s) i = Some c.
Proof. intros Hs Hi. apply idx_is_Some. rewrite (sh_len s Hs). lia. Qed.

(** Writing one cell. *)
Lemma write_cell s i c c' b :
  shape s -> idx (cells s) i = Some c -> cell_wf c' -> counts_within s b -> Z.abs (count c') <= b ->
  exists cs, upd (cells s) i c' = Some cs /\ shape (s <| cells := cs |>) /\ counts_within (s <| cells := cs |>) b /\
    forall j, idx cs j = if decide (j = i) then Some c' else idx (cells s) j.
Proof.
  intros Hsh Hc Hw Hb Hc'. pose proof (idx_lt _ _ _ Hc) as Hi. rewrite upd_ok by done. eexists. split; [done|].
  assert (forall d, d ∈ <[Z.to_nat i := c']> (cells s) -> d = c' \/ d ∈ cells s) as Hin.
  { intros d (j & Hj)%list_elem_of_lookup. apply list_lookup_insert_Some in Hj as [(_ & -> & _)|[_ Hj]]; [by left|right].
    by eapply list_elem_of_lookup_2. }
  destruct Hsh as [S1 S2 S3 S4]. split_and!.
  - split; cbn [cells set_field k k_iblt]; try done; [by rewrite len_insert|]. intros d [->|?]%Hin; auto.
  - intros d [->|?]%Hin; auto.
  - intros j. destruct (decide (0 <= j)); [by rewrite idx_insert by lia; destruct (decide (i = j)), (decide (j = i))|].
    rewrite decide_False by lia. unfold idx. by destruct (Z.leb_spec 0 j); [lia|].
Qed.

Lemma peel_cells_spec is_ e s b pure :
  NoDup is_ -> (forall i, i ∈ is_ -> 0 <= i < n) -> length e.1 = 32%nat -> e.2 = 1 \/ e.2 = -1 -> shape s -> b < i32_max ->
  counts_within s (b + 1) -> (forall i c, i ∈ is_ -> idx (cells s) i = Some c -> Z.abs (count c) <= b) ->
  exists s', peel_cells s is_ e.1 e.2 (check e.1) pure = Some (s', pure ++ filter (fun i => pure_at s' i) is_) /\
    shape s' /\ counts_within s' (b + 1) /\ peeled s s' is_ e.
Proof.
  intros Hnd Hr He Hd Hsh Hb. revert s pure Hsh Hnd Hr. induction is_ as [|i is_ IH]; intros s pure Hsh Hnd Hr Hw Hc; cbn [peel_cells].
  { exists s. rewrite app_nil_r. split_and!; try done. intros i c ->. by rewrite bool_decide_false by apply not_elem_of_nil. }
  apply NoDup_cons in Hnd as [Hi Hnd]. pose proof (Hr i ltac:(left)) as Hir. destruct (cell_at s i Hsh Hir) as [c Ec].
  pose proof (Hc i c ltac:(left) Ec) as Hcc. rewrite Ec. run. rewrite chk_i32_ok by (unfold i32_min, i32_max in *; lia). run.
  set (c' := mkCell _ _ _). assert (c' = combine c (opposite (mkCell e.2 e.1 (check e.1)))) as Ec' by (unfold c', combine; cbn; f_equal; lia).
  assert (cell_wf c') as Hwf by (rewrite Ec'; apply combine_wf; [apply (sh_cells s Hsh), (idx_elem _ _ _ Ec)|exact He]).
  destruct (write_cell s i c c' (b + 1) Hsh Ec Hwf Hw) as (cs & -> & Hsh1 & Hw1 & Hcs); [cbn; lia|]. run.
  set (s1 := s <| cells := cs |>) in *. change (cells s1) with cs in *. rewrite (is_pure_at s1 i (b + 1) Hsh1 Hw1) by (lia || done). run.
  destruct (IH s1 (if pure_at s1 i then pure ++ [i] else pure) Hsh1 Hnd) as (s' & -> & Hsh' & Hw' & Hp); [intros j Hj; apply Hr; by right|done| |].
  { intros j d Hj. unfold s1; cbn. rewrite Hcs, decide_False by congruence. intros Hd'. apply (Hc j d); [by right|done]. }
  exists s'. split.
  { f_equal. f_equal. rewrite filter_cons. assert (pure_at s' i = pure_at s1 i) as ->.
    { unfold pure_at. change (cells s1) with cs. rewrite Hcs, decide_True by done. rewrite (Hp i c').
      - by rewrite bool_decide_false.
      - unfold s1; cbn. by rewrite Hcs, decide_True. }
    destruct (pure_at s1 i); cbn; [by rewrite <- app_assoc|done]. }
  split_and!; [done..|]. intros j d Ej. destruct (decide (j = i)) as [->|Hne].
  - rewrite (Hp i c') by (unfold s1; cbn; by rewrite Hcs, decide_True). rewrite bool_decide_false, bool_decide_true by (done || left). congruence.
  - rewrite (Hp j d) by (unfold s1; cbn; by rewrite Hcs, decide_False).
    by rewrite (bool_decide_ext (j ∈ i :: is_) (j ∈ is_)) by (rewrite elem_of_cons; tauto).
Qed.

(** The sum of what was taken out and what is left. *)
Definition explains (s0 s : t) L : Prop :=
  forall i c, idx (cells s) i = Some c -> idx (cells s0) i = Some (combine c (total L i)).

Lemma peeled_explains s0 s s' L e :
  shape s -> shape s' -> signed (e :: L) -> peeled s s' (slots e.1) e -> explains s0 s L -> explains s0 s' (e :: L).
Proof.
  intros Hsh Hsh' [[He _] HL]%signed_cons Hp Hx i c' Hc'. pose proof (idx_lt _ _ _ Hc') as Hi. rewrite (sh_len s' Hsh') in Hi.
  destruct (cell_at s i Hsh Hi) as [c Hc]. rewrite (Hx i c Hc). f_equal. rewrite (Hp i c Hc) in Hc'.
  assert (cell_wf c) as Hw by (apply (sh_cells s Hsh), (idx_elem _ _ _ Hc)).
  assert (cell_wf (mkCell e.2 e.1 (check e.1))) as Hwe by exact He.
  rewrite total_cons. unfold contribution. case_bool_decide; simplify_eq; rewrite combine_assoc; f_equal.
  - rewrite <- combine_assoc, (combine_comm (opposite _)), combine_opposite, combine_empty; done.
  - by rewrite combine_empty.
Qed.

(** The elements decoded so far. *)
Definition outs (P N : list (list Z)) : list (list Z * Z) := with_sign 1 P ++ with_sign (-1) N.

Definition limit : Z := d_max (from_cell_count n).

Lemma skip_step fuel s P N pure i st b :
  shape s -> counts_within s b -> b < i32_max -> 0 <= i < n -> pure_at s i = false ->
  exists st', peel_loop (S fuel) s P N (pure ++ [i]) st = peel_loop fuel s P N pure st'.
Proof.
  intros Hsh Hb Hm Hi Hp. cbn [peel_loop]. rewrite last_snoc, List.removelast_last, (is_pure_at s i b Hsh Hb ltac:(lia) Hi), Hp. run.
  eexists. reflexivity.
Qed.

Lemma pure_cell_eq c : pure_cell c = true -> (count c = 1 \/ count c = -1) /\ c = mkCell (count c) (id_sum c) (check (id_sum c)).
Proof. unfold pure_cell. intros [?%Z.eqb_eq Hh%Z.eqb_eq]%andb_true_iff. split; [lia|]. rewrite Hh. by destruct c. Qed.

Lemma peel_step fuel s P N pure i st b :
  0 <= n -> shape s -> counts_within s b -> b < i32_max -> 0 <= i < n -> pure_at s i = true ->
  exists x d P' N' st', (d = 1 \/ d = -1) /\ idx (cells s) i = Some (mkCell d x (check x)) /\ length x = 32%nat /\
    outs P' N' ≡ₚ (x, d) :: outs P N /\ len P' + len N' = len P + len N + 1 /\
    if limit <? len P' + len N' then peel_loop (S fuel) s P N (pure ++ [i]) st = Some (inl (s, st'))
    else exists s', peel_loop (S fuel) s P N (pure ++ [i]) st = peel_loop fuel s' P' N' (pure ++ filter (fun i => pure_at s' i) (slots x)) st' /\
      shape s' /\ counts_within s' (b + 1) /\ peeled s s' (slots x) (x, d).
Proof.
  intros Hn Hsh Hb Hm Hi Hp. cbn [peel_loop]. rewrite last_snoc, List.removelast_last, (is_pure_at s i b Hsh Hb ltac:(lia) Hi), Hp. run.
  destruct (cell_at s i Hsh Hi) as [c Hc]. unfold pure_at in Hp. rewrite Hc in Hp. apply pure_cell_eq in Hp as [Hd Ec].
  pose proof (sh_cells s Hsh c (idx_elem _ _ _ Hc)) as Hw. rewrite Hc. run. cbn [negb].
  set (x := id_sum c) in *. set (d := count c) in *.
  assert (exists P' N', (if d =? 1 then (P ++ [x], N) else (P, N ++ [x])) = (P', N') /\ outs P' N' ≡ₚ (x, d) :: outs P N /\
    len P' + len N' = len P + len N + 1) as (P' & N' & -> & Ho & Hl).
  { unfold outs, with_sign. destruct (Z.eqb_spec d 1) as [->|]; eexists _, _; (split; [done|]); rewrite fmap_app, len_app; cbn [fmap list_fmap];
      (split; [|unfold len at 2; cbn; lia || (unfold len; cbn; lia)]); [solve_Permutation|].
    replace d with (-1) by lia. solve_Permutation. }
  rewrite (sh_len s Hsh). fold limit. exists x, d, P', N'. eexists. split_and!; [done|by rewrite <- Ec|done..|].
  destruct (limit <? len P' + len N'); [reflexivity|]. rewrite (get_indices_slots s x Hn Hsh). run.
  destruct (slots_spec x Hn) as (_ & Hnd & Hrg & _). replace (hash_sum c) with (check x) by (by rewrite Ec).
  destruct (peel_cells_spec (slots x) (x, d) s b pure) as (s' & E & Hs'); cbn [fst snd]; try done.
  - intros c' Hc'. specialize (Hb c' Hc'). lia.
  - intros j c' _ Hc'. apply Hb, (idx_elem _ _ _ Hc').
  - cbn [fst snd] in E. rewrite E. run. exists s'. split; [reflexivity|done].
Qed.

Lemma len_filter (p : Z -> bool) (l : list Z) : len (filter (fun i => p i) l) <= len l.
Proof. unfold len. apply Nat2Z.inj_le, length_filter. Qed.

(** Indices left on the stack after a peeling. *)
Lemma stack_step s' x pure (Hn : 0 <= n) :
  (forall i, i ∈ pure -> 0 <= i < n) ->
  (forall i, i ∈ pure ++ filter (fun i => pure_at s' i) (slots x) -> 0 <= i < n) /\
  len (pure ++ filter (fun i => pure_at s' i) (slots x)) <= len pure + K.
Proof.
  intros Hp. destruct (slots_spec x Hn) as (_ & _ & Hrg & Hl). split.
  - intros i [?|[_ ?]%list_elem_of_filter]%elem_of_app; auto.
  - rewrite len_app. pose proof (len_filter (pure_at s') (slots x)). lia.
Qed.

Lemma outs_next P N P' N' x d :
  outs P' N' ≡ₚ (x, d) :: outs P N -> signed (outs P N) -> length x = 32%nat -> d = 1 \/ d = -1 -> signed (outs P' N').
Proof. intros Ho Hs Hx Hd e He. rewrite Ho in He. apply elem_of_cons in He as [->|He]; [done|by apply Hs]. Qed.

Lemma peel_loop_total s0 fuel s P N pure st b :
  0 <= n -> shape s -> counts_within s b -> b + (limit - (len P + len N)) < i32_max -> (forall i, i ∈ pure -> 0 <= i < n) ->
  signed (outs P N) -> explains s0 s (outs P N) -> len P + len N <= limit -> len pure + K * (limit - (len P + len N)) <= Z.of_nat fuel ->
  exists r, peel_loop fuel s P N pure st = Some r /\
    match r with
    | inl _ => True
    | inr (s', P', N', _) => shape s' /\ signed (outs P' N') /\ explains s0 s' (outs P' N') /\ len P' + len N' <= limit
    end.
Proof.
  intros Hn. revert s P N pure st b. induction fuel as [|fuel IH]; intros s P N pure st b Hsh Hb Hm Hpure Hsg Hx Hlim Hf;
    (destruct pure as [|i pure0 _] using rev_ind; [cbn [peel_loop last]; eexists; split; [done|]; done|]); rewrite ?len_app in Hf.
  { pose proof (len_nonneg pure0). unfold len in Hf at 2. cbn [length] in Hf. unfold K in Hf. lia. }
  assert (0 <= i < n) as Hi by (apply Hpure, elem_of_app; right; by left).
  assert (forall j, j ∈ pure0 -> 0 <= j < n) as Hp0 by (intros j Hj; apply Hpure, elem_of_app; by left).
  assert (len [i] = 1) as H1 by done. rewrite H1 in Hf. destruct (pure_at s i) eqn:Ep.
  - destruct (peel_step fuel s P N pure0 i st b Hn Hsh Hb ltac:(lia) Hi Ep) as (x & d & P' & N' & st' & Hd & _ & Hlx & Ho & Hl & Hstep).
    destruct (Z.ltb_spec limit (len P' + len N')); [rewrite Hstep; by eexists|]. destruct Hstep as (s' & -> & Hsh' & Hb' & Hpl).
    pose proof (outs_next _ _ _ _ _ _ Ho Hsg Hlx Hd) as Hsg'. destruct (stack_step s' x pure0 Hn Hp0) as [Hr Hlen].
    apply (IH s' P' N' _ st' (b + 1)); try done; [lia| |unfold K in *; lia].
    intros j c Hc. rewrite (total_perm _ _ j Ho). revert j c Hc. apply (peeled_explains s0 s s' (outs P N) (x, d)); try done.
    by apply signed_cons.
  - destruct (skip_step fuel s P N pure0 i st b Hsh Hb ltac:(lia) Hi Ep) as [st' ->]. apply (IH s P N pure0 st' b); try done. lia.
Qed.

(** The final check of [decode]. *)
Lemma all_empty_true cs m : snd (all_empty cs m) = true <-> forall c, c ∈ cs -> c = empty_cell.
Proof.
  revert m. induction cs as [|c cs IH]; intros m; cbn [all_empty]; [split; [by intros _ c ?%not_elem_of_nil|done]|].
  assert (negb (count c =? 0) || negb (hash_sum c =? 0) || negb (bool_decide (id_sum c = replicate 32 0)) = false <-> c = empty_cell) as Hc.
  { rewrite !orb_false_iff, !negb_false_iff, !Z.eqb_eq, bool_decide_eq_true. destruct c. unfold empty_cell. cbn [count hash_sum id_sum]. split; [naive_solver|].
    intros [=]. done. }
  destruct (_ || _); cbn [snd].
  - split; [done|]. intros Ha. specialize (Ha c ltac:(left)). by apply Hc in Ha.
  - rewrite IH. split; [|intros Ha d Hd; apply Ha; by right]. intros Ha d [->|Hd]%elem_of_cons; [by apply Hc|by apply Ha].
Qed.

Lemma limit_range : 10 <= limit <= 680.
Proof. unfold limit, from_cell_count. repeat case_match; cbn; lia. Qed.

(** The stack at the start of the peeling loop. *)
Definition first_stack (s : t) : list Z := filter (fun i => pure_at s i) (zrange 0 n).

Lemma first_stack_range s i : i ∈ first_stack s -> 0 <= i < n.
Proof. intros [_ Hi%elem_of_zrange]%list_elem_of_filter. lia. Qed.

Lemma first_stack_fuel s : 0 <= n -> shape s -> len (first_stack s) + K * (limit - (len (@nil (list Z)) + len (@nil (list Z)))) <= Z.of_nat (peel_fuel s).
Proof.
  intros Hn Hsh. pose proof (len_filter (pure_at s) (zrange 0 n)) as Hl. rewrite len_zrange in Hl by lia. pose proof limit_range.
  unfold peel_fuel, first_stack, K. rewrite (sh_len s Hsh). fold limit. change (len (@nil (list Z))) with 0. lia.
Qed.

Lemma explains_empty s0 s L :
  shape s0 -> shape s -> explains s0 s L -> signed L -> (forall c, c ∈ cells s -> c = empty_cell) -> holds s0 L.
Proof.
  intros Hs0 Hsh Hx HL He. split; [done|]. intros i Hi. destruct (cell_at s i Hsh Hi) as [c Hc]. rewrite (Hx i c Hc). f_equal.
  rewrite (He c (idx_elem _ _ _ Hc)), combine_comm. by apply combine_empty, total_wf.
Qed.

Lemma decode_spec s b :
  0 <= n -> shape s -> counts_within s b -> b + limit < i32_max ->
  exists s' r, decode s = Some (s', r) /\
    match r with
    | Ok (P, N, _) => holds s (outs P N) /\ signed (outs P N) /\ len P + len N <= limit
    | Err err => exists st, err = DecodingFailed st
    end.
Proof.
  intros Hn Hsh Hb Hm. pose proof limit_range. unfold decode. rewrite (sh_len s Hsh).
  rewrite (find_pure_spec s b (zrange 0 n) [] Hsh Hb ltac:(lia)) by (intros i Hi; by apply elem_of_zrange in Hi). run. cbn [app]. fold (first_stack s).
  destruct (peel_loop_total s (peel_fuel s) s [] [] (first_stack s) (mkStats 0 n) b) as ([[s' st]|[[[s' P] N] st]] & -> & Hr);
    [done|done|done|change (len (@nil (list Z))) with 0; lia|apply first_stack_range|by intros e ?%not_elem_of_nil| |change (len (@nil (list Z))) with 0; lia|
     by apply first_stack_fuel| |].
  { intros i c Hc. rewrite Hc. f_equal. symmetry. apply combine_empty, (sh_cells s Hsh), (idx_elem _ _ _ Hc). }
  - run. eexists _, _. split; [done|]. by eexists.
  - destruct Hr as (Hsh' & Hsg & Hx & Hl). run. pose proof (all_empty_true (cells s') (iterations st)) as He.
    destruct (all_empty (cells s') (iterations st)) as [m ok]. cbn [snd] in He. eexists _, _. split; [done|].
    destruct ok; [|by eexists]. split; [|done]. by apply (explains_empty s s'), He.
Qed.

(** *** When decoding succeeds *)

(** The elements that map to a cell. *)
Definition hits L (i : Z) : list (list Z * Z) := filter (fun e => i ∈ slots e.1) L.

(** No part of the elements is a core in which every cell holds none or several. *)
Definition peelable L : Prop := forall D, D ⊆+ L -> D <> [] -> exists i e, 0 <= i < n /\ hits D i = [e].

(** No cell that holds several elements passes the purity check. *)
Definition no_collisions L : Prop := forall D i, D ⊆+ L -> 0 <= i < n -> pure_cell (total D i) = true -> exists e, hits D i = [e].

Lemma total_hits L i : signed L -> total L i = total (hits L i) i.
Proof.
  induction L as [|e L IH]; [done|]. intros [[He Hd] HL]%signed_cons. unfold hits. rewrite filter_cons, total_cons, (IH HL). fold (hits L i).
  case_decide as Hi; [by rewrite total_cons|]. unfold contribution. rewrite bool_decide_false by done.
  rewrite combine_comm. apply combine_empty. rewrite <- (IH HL). by apply total_wf.
Qed.

Lemma total_single L i e : signed L -> hits L i = [e] -> total L i = mkCell e.2 e.1 (check e.1) /\ i ∈ slots e.1 /\ e ∈ L.
Proof.
  intros HL Hh. assert (e ∈ hits L i) as He by (rewrite Hh; left). apply list_elem_of_filter in He as [Hi He]. split; [|done].
  rewrite (total_hits L i HL), Hh. cbn [total foldr]. unfold contribution. rewrite bool_decide_true by done. apply combine_empty. by apply HL.
Qed.

Lemma pure_single L i e : signed L -> hits L i = [e] -> pure_cell (total L i) = true.
Proof.
  intros HL Hh. destruct (total_single L i e HL Hh) as (-> & _ & He). unfold pure_cell. cbn. rewrite Z.eqb_refl, andb_true_r.
  apply Z.eqb_eq. destruct (HL e He) as [_ [-> | ->]]; done.
Qed.

Lemma holds_counts s L : signed L -> holds s L -> counts_within s (len L).
Proof.
  intros HL [Hsh Hc]. unfold counts_within. apply (cells_forall s (fun c => Z.abs (count c) <= len L)); [apply Hsh|].
  intros i c Hi. rewrite Hc by done. intros [= <-]. by apply total_count.
Qed.

Lemma holds_pure s L i : holds s L -> 0 <= i < n -> pure_at s i = pure_cell (total L i).
Proof. intros [_ Hc] Hi. unfold pure_at. by rewrite Hc. Qed.

Lemma peeled_holds s s' e L :
  holds s (e :: L) -> signed (e :: L) -> shape s' -> peeled s s' (slots e.1) e -> holds s' L.
Proof.
  intros [_ Hc] [[He _] HL]%signed_cons Hsh' Hp. split; [done|]. intros i Hi. rewrite (Hp i _ (Hc i Hi)), total_cons. f_equal.
  pose proof (total_wf L i HL). unfold contribution. case_bool_decide; rewrite (combine_comm _ (total L i)).
  - by rewrite combine_cancel.
  - by apply combine_empty.
Qed.

(** Everything not yet decoded is still in the sketch, and every pure cell is on
    the stack. *)
Record peeling (D : list (list Z * Z)) (s : t) (P N : list (list Z)) (pure : list Z) (R : list (list Z * Z)) : Prop := {
  pl_holds : holds s R;
  pl_split : outs P N ++ R ≡ₚ D;
  pl_stack i : 0 <= i < n -> pure_at s i = true -> i ∈ pure;
  pl_range i : i ∈ pure -> 0 <= i < n
}.

Lemma peeling_signed D s P N pure R : signed D -> peeling D s P N pure R -> signed R /\ signed (outs P N) /\ R ⊆+ D /\ len P + len N + len R = len D.
Proof.
  intros HD [_ Hs _ _]. assert (signed (outs P N ++ R)) as [? ?]%signed_app by (intros e He; apply HD; by rewrite <- Hs).
  split_and!; [done..| |].
  - rewrite <- Hs. apply submseteq_inserts_l. done.
  - unfold len. rewrite <- (Permutation_length Hs), length_app. unfold outs, with_sign. rewrite length_app, !length_fmap. lia.
Qed.

(** One peeling of a pure cell. *)
Lemma peeling_next D s P N pure i R x d P' N' s' :
  signed D -> no_collisions D -> peeling D s P N (pure ++ [i]) R -> pure_at s i = true ->
  idx (cells s) i = Some (mkCell d x (check x)) -> outs P' N' ≡ₚ (x, d) :: outs P N -> 0 <= n ->
  shape s' -> peeled s s' (slots x) (x, d) ->
  exists R', peeling D s' P' N' (pure ++ filter (fun i => pure_at s' i) (slots x)) R'.
Proof.
  intros HD Hnc Hpl Hp Hc Ho Hn Hsh' Hpd. destruct (peeling_signed _ _ _ _ _ _ HD Hpl) as (HR & _ & Hsub & _).
  destruct Hpl as [Hh Hs Hst Hrg]. assert (0 <= i < n) as Hi by (apply Hrg, elem_of_app; right; by left).
  rewrite (holds_pure s R i Hh Hi) in Hp. destruct (Hnc R i Hsub Hi Hp) as [e He]. destruct (total_single R i e HR He) as (Ht & Hie & Hin).
  rewrite (h_cell _ _ Hh i Hi), Ht in Hc. injection Hc as Ed Ex _. destruct e as [ex ed]. cbn in Ed, Ex, Hie. subst ex ed.
  apply elem_of_Permutation in Hin as [R' HR']. exists R'.
  assert (forall j, j ∈ pure ++ filter (fun i => pure_at s' i) (slots x) -> 0 <= j < n) as Hrg'.
  { apply stack_step; [done|]. intros j Hj. apply Hrg, elem_of_app. by left. }
  split; [| | |exact Hrg'].
  - apply (peeled_holds s s' (x, d)); [by apply (holds_perm _ R)| |done..]. intros e He'. apply HR. by rewrite HR'.
  - rewrite Ho, <- Hs, HR'. cbn. by rewrite Permutation_middle.
  - intros j Hj Hpj. apply elem_of_app. destruct (decide (j ∈ slots x)) as [Hx|Hx].
    { right. apply list_elem_of_filter. split; [by rewrite Hpj|done]. }
    left. assert (pure_at s j = true) as Hq.
    { destruct (cell_at s j (h_shape _ _ Hh) Hj) as [c Hcj]. unfold pure_at in *. rewrite (Hpd j c Hcj), bool_decide_false in Hpj by done. by rewrite Hcj. }
    apply (Hst j Hj) in Hq as [?| ->%list_elem_of_singleton]%elem_of_app; done.
Qed.

Lemma peel_loop_complete D fuel s P N pure R st :
  0 <= n -> signed D -> peelable D -> no_collisions D -> len D <= limit -> peeling D s P N pure R ->
  len pure + K * (limit - (len P + len N)) <= Z.of_nat fuel ->
  exists s' P' N' st', peel_loop fuel s P N pure st = Some (inr (s', P', N', st')) /\ outs P' N' ≡ₚ D /\ holds s' [].
Proof.
  intros Hn HD Hpe Hnc Hlim. pose proof limit_range. revert s P N pure R st. induction fuel as [|fuel IH]; intros s P N pure R st Hpl Hf;
    destruct (peeling_signed _ _ _ _ _ _ HD Hpl) as (HR & _ & Hsub & Hlen); pose proof (len_nonneg R);
    (destruct pure as [|i pure0 _] using rev_ind; [|rewrite len_app in Hf; change (len [i]) with 1 in Hf]).
  1, 3: (cbn [peel_loop last]; assert (R = []) as ->; [|eexists _, _, _, _; split; [done|]; split; [by rewrite <- (pl_split _ _ _ _ _ _ Hpl), app_nil_r|apply Hpl]];
    destruct (decide (R = [])) as [|Hne]; [done|]; destruct (Hpe R Hsub Hne) as (i & e & Hi & He); exfalso;
    eapply not_elem_of_nil, (pl_stack _ _ _ _ _ _ Hpl i Hi); rewrite (holds_pure s R i (pl_holds _ _ _ _ _ _ Hpl) Hi); by eapply pure_single).
  { pose proof (len_nonneg pure0). unfold K in Hf. lia. }
  pose proof (holds_counts s R HR (pl_holds _ _ _ _ _ _ Hpl)) as Hb. pose proof (h_shape _ _ (pl_holds _ _ _ _ _ _ Hpl)) as Hsh.
  assert (len R < i32_max) as Hm by (unfold i32_max; pose proof (len_nonneg P); pose proof (len_nonneg N); lia).
  assert (0 <= i < n) as Hi by (apply (pl_range _ _ _ _ _ _ Hpl), elem_of_app; right; by left). destruct (pure_at s i) eqn:Ep.
  - destruct (peel_step fuel s P N pure0 i st _ Hn Hsh Hb Hm Hi Ep) as (x & d & P' & N' & st' & Hd & Hc & Hlx & Ho & Hl & Hstep).
    assert (len P' + len N' <= limit) as Hle.
    { destruct (Hnc R i Hsub Hi) as [e He]; [by rewrite <- (holds_pure s R i (pl_holds _ _ _ _ _ _ Hpl) Hi)|].
      destruct (total_single R i e HR He) as (_ & _ & [R' HR']%elem_of_Permutation). apply Permutation_length in HR'. cbn in HR'. unfold len in *. lia. }
    destruct (Z.ltb_spec limit (len P' + len N')); [lia|]. destruct Hstep as (s' & -> & Hsh' & _ & Hpd).
    destruct (peeling_next _ _ _ _ _ _ _ _ _ _ _ _ HD Hnc Hpl Ep Hc Ho Hn Hsh' Hpd) as [R' Hpl']. apply (IH _ _ _ _ R' _ Hpl').
    destruct (stack_step s' x pure0 Hn) as [_ Hls]; [intros j Hj; apply (pl_range _ _ _ _ _ _ Hpl), elem_of_app; by left|]. unfold K in *. lia.
  - destruct (skip_step fuel s P N pure0 i st _ Hsh Hb Hm Hi Ep) as [st' ->]. apply (IH _ _ _ _ R); [|lia]. destruct Hpl as [Q1 Q2 Q3 Q4].
    split; [done..| |].
    + intros j Hj Hpj. destruct (proj1 (elem_of_snoc _ _ _) (Q3 j Hj Hpj)) as [?| ->]; [done|congruence].
    + intros j Hj. apply Q4, elem_of_app. by left.
Qed.

Lemma outs_ids (d : Z) P N : d = 1 \/ d = -1 -> (filter (fun e => e.2 = d) (outs P N)).*1 = if decide (d = 1) then P else N.
Proof.
  assert (forall a (ids : list (list Z)), (filter (fun e => e.2 = d) (with_sign a ids)).*1 = if decide (a = d) then ids else []) as Hf.
  { intros a ids. unfold with_sign. induction ids as [|x ids IH]; [by case_decide|]. rewrite fmap_cons, filter_cons. cbn [snd].
    case_decide; cbn [fmap list_fmap fst]; by rewrite IH. }
  intros Hd. unfold outs. rewrite filter_app, fmap_app, !Hf. destruct Hd as [-> | ->]; cbn; [by rewrite app_nil_r|done].
Qed.

Lemma outs_inj P N P' N' : outs P N ≡ₚ outs P' N' -> P ≡ₚ P' /\ N ≡ₚ N'.
Proof.
  intros Ho. pose proof (outs_ids 1 P N ltac:(lia)) as E1. pose proof (outs_ids 1 P' N' ltac:(lia)) as E2.
  pose proof (outs_ids (-1) P N ltac:(lia)) as E3. pose proof (outs_ids (-1) P' N' ltac:(lia)) as E4.
  rewrite decide_True in E1, E2 by done. rewrite decide_False in E3, E4 by done.
  split; [rewrite <- E1, <- E2|rewrite <- E3, <- E4]; by rewrite Ho.
Qed.

Lemma decode_complete_spec s D :
  0 <= n -> holds s D -> signed D -> peelable D -> no_collisions D -> len D <= limit ->
  exists s' P N st, decode s = Some (s', Ok (P, N, st)) /\ outs P N ≡ₚ D.
Proof.
  intros Hn Hh HD Hpe Hnc Hlim. pose proof limit_range. pose proof (h_shape _ _ Hh) as Hsh. pose proof (holds_counts s D HD Hh) as Hb.
  unfold decode. rewrite (sh_len s Hsh), (find_pure_spec s (len D) (zrange 0 n) [] Hsh Hb);
    [|unfold i32_max; lia|intros i Hi; by apply elem_of_zrange in Hi]. run. cbn [app]. fold (first_stack s).
  assert (peeling D s [] [] (first_stack s) D) as Hpl.
  { split; [done|done| |apply first_stack_range]. intros i Hi Hp. apply list_elem_of_filter. split; [by rewrite Hp|by apply elem_of_zrange]. }
  destruct (peel_loop_complete D (peel_fuel s) s [] [] (first_stack s) D (mkStats 0 n) Hn HD Hpe Hnc Hlim Hpl) as (s' & P & N & st & -> & Ho & Hh');
    [by apply first_stack_fuel|]. run.
  pose proof (proj2 (all_empty_true (cells s') (iterations st))) as He.
  destruct (all_empty (cells s') (iterations st)) as [m ok]. cbn [snd] in He. rewrite He; [by eexists _, _, _, _|].
  apply cells_forall; [apply Hh'|]. intros i c Hi. rewrite (h_cell _ _ Hh' i Hi). by intros [= <-].
Qed.

(** The sketches of two sets and their difference. *)
Lemma difference_holds A B :
  0 <= n -> NoDup A -> NoDup B -> ids_ok A -> ids_ok B -> len A + len B <= i32_max ->
  exists sa sb sd, for_each insert (new_keyed n key) A = Some sa /\ for_each insert (new_keyed n key) B = Some sb /\
    subtract sa sb = Some (Ok sd) /\ holds sd (outs (list_difference A B) (list_difference B A)).
Proof.
  intros Hn HA HB HiA HiB Hl. pose proof (len_nonneg A). pose proof (len_nonneg B).
  assert (forall X, ids_ok X -> len X <= i32_max -> exists s, for_each insert (new_keyed n key) X = Some s /\ holds s (with_sign 1 X)) as Hins.
  { intros X HX HlX. destruct (for_each_holds (new_keyed n key) [] X 1 Hn (holds_new Hn)) as (s & E & Hh);
      [by intros e ?%not_elem_of_nil|by left|done|unfold len at 2; cbn; lia|]. exists s. split; [exact E|]. by rewrite app_nil_r in Hh. }
  destruct (Hins A HiA ltac:(lia)) as (sa & Ea & Ha), (Hins B HiB ltac:(lia)) as (sb & Eb & Hb).
  destruct (subtract_holds sa sb _ _ Hn Ha Hb) as (sd & Es & Hd); [by apply with_sign_signed; [left|]..|by unfold len, with_sign in *; rewrite !length_fmap|].
  exists sa, sb, sd. split_and!; [done..|]. apply (holds_perm _ (with_sign (-1) (list_difference B A) ++ with_sign 1 (list_difference A B))).
  - unfold outs. apply Permutation_app_comm.
  - apply (holds_total _ _ _ Hd). intros i _. by apply difference_total.
Qed.

End Theory.
(** *** Reconciliation *)

(** inserting two sets of 32-byte ids into fresh sketches of the same size
    and key and subtracting one from the other leaves the sketch that inserting
    the ids only in the first set and removing the ids only in the second makes:
    common ids leave no trace, and no count overflows while the sets together
    have at most [i32::MAX] ids. *)
Theorem sketch_of_difference `{Blake3Laws} n key A B :
  0 <= n -> NoDup A -> NoDup B -> ids_ok A -> ids_ok B -> len A + len B <= i32_max ->
  exists sa sb s1 sd, for_each insert (new_keyed n key) A = Some sa /\ for_each insert (new_keyed n key) B = Some sb /\
    subtract sa sb = Some (Ok sd) /\
    for_each insert (new_keyed n key) (list_difference A B) = Some s1 /\ for_each remove s1 (list_difference B A) = Some sd.
Proof.
  intros Hn HA HB HiA HiB Hl. destruct (difference_holds n key A B Hn HA HB HiA HiB Hl) as (sa & sb & sd & Ea & Eb & Es & Hd).
  assert (forall X Y : list (list Z), len (list_difference X Y) <= len X) as Hle.
  { intros X Y. unfold len. apply Nat2Z.inj_le, sublist_length. induction X as [|x X IH]; cbn; [constructor|]. case_decide; by constructor. }
  assert (forall X Y, ids_ok X -> ids_ok (list_difference X Y)) as Hok.
  { intros X Y HX. apply (ids_ok_sub X); [done|]. by intros x [? _]%list_elem_of_difference. }
  pose proof (Hle A B). pose proof (Hle B A).
  destruct (for_each_holds n key (new_keyed n key) [] (list_difference A B) 1 Hn (holds_new n key Hn)) as (s1 & E1 & Hs1);
    [by intros e ?%not_elem_of_nil|by left|by apply Hok|unfold len at 2; cbn; pose proof (len_nonneg B); lia|].
  rewrite app_nil_r in Hs1.
  destruct (for_each_holds n key s1 _ (list_difference B A) (-1) Hn Hs1) as (sd' & E2 & Hs2);
    [apply with_sign_signed; [by left|by apply Hok]|by right|by apply Hok|unfold with_sign; unfold len in *; rewrite length_fmap; lia|].
  exists sa, sb, s1, sd. split_and!; [done..|exact E1|]. rewrite <- (holds_unique n key sd' sd _ Hs2); [exact E2|].
  apply (holds_perm n key sd _ _ (Permutation_app_comm _ _) Hd).
Qed.

(** decoding a sketch of any cells whose counts stay at least the tier's
    limit away from the bounds of [i32] ends without a panic, after at most the
    number of cells plus four times the limit pops of the stack, and fails only
    with [DecodingFailed]. *)
Theorem decode_terminates `{Blake3Laws} n key s b :
  0 <= n -> shape n key s -> counts_within s b -> b + limit n < i32_max ->
  exists s' r, decode s = Some (s', r) /\ forall err, r = Err err -> exists st, err = DecodingFailed st.
Proof.
  intros Hn Hsh Hb Hm. destruct (decode_spec n key s b Hn Hsh Hb Hm) as (s' & r & E & Hr). exists s', r. split; [exact E|].
  by intros err ->.
Qed.

(** when decoding succeeds, the elements it returns account for the whole
    sketch, for arbitrary (also forged) cells: every cell equals the sum of the
    contributions of the returned elements, with count, id and checksum sums;
    the returned ids have 32 bytes and are at most the tier's limit many. *)
Theorem decode_sound `{Blake3Laws} n key s b s' P N st :
  0 <= n -> shape n key s -> counts_within s b -> b + limit n < i32_max -> decode s = Some (s', Ok (P, N, st)) ->
  (forall i, 0 <= i < n -> idx (cells s) i = Some (total n key (with_sign 1 P ++ with_sign (-1) N) i)) /\
  ids_ok P /\ ids_ok N /\ len P + len N <= d_max (from_cell_count n).
Proof.
  intros Hn Hsh Hb Hm E. destruct (decode_spec n key s b Hn Hsh Hb Hm) as (s1 & r & E' & Hr). rewrite E in E'. injection E' as <- <-.
  destruct Hr as (Hh & [HP HN]%signed_app & Hl). split; [apply Hh|]. split_and!; [..|exact Hl];
    intros x Hx; [apply (HP (x, 1))|apply (HN (x, -1))]; apply list_elem_of_fmap; by exists x.
Qed.

Lemma reconcile_exact `{Blake3Laws} n key A B :
  0 <= n -> NoDup A -> NoDup B -> ids_ok A -> ids_ok B -> len A + len B <= i32_max ->
  let D := outs (list_difference A B) (list_difference B A) in
  peelable n key D -> no_collisions n key D -> len D <= d_max (from_cell_count n) ->
  exists sa sb sd s' P N st, for_each insert (new_keyed n key) A = Some sa /\ for_each insert (new_keyed n key) B = Some sb /\
    subtract sa sb = Some (Ok sd) /\ decode sd = Some (s', Ok (P, N, st)) /\
    P ≡ₚ list_difference A B /\ N ≡ₚ list_difference B A.
Proof.
  intros Hn HA HB HiA HiB Hl D Hpe Hnc Hlim. destruct (difference_holds n key A B Hn HA HB HiA HiB Hl) as (sa & sb & sd & Ea & Eb & Es & Hd).
  assert (signed D) as HD.
  { apply signed_app. split; (apply with_sign_signed; [lia|]); [apply (ids_ok_sub A)|apply (ids_ok_sub B)]; try done;
      intros x [? _]%list_elem_of_difference; done. }
  destruct (decode_complete_spec n key sd D Hn Hd HD Hpe Hnc Hlim) as (s' & P & N & st & E & [HP HN]%outs_inj).
  by exists sa, sb, sd, s', P, N, st.
Qed.

(** C35: reconciliation of two sets [A] and [B] through their sketches recovers
    exactly [A∖B] and [B∖A] when the differences are within the tier's limit,
    have no part in which every cell holds none or several of its elements, and
    no cell with several elements passes the checksum test. *)
Theorem reconcile_complete `{Blake3Laws} n key A B :
  0 <= n -> NoDup A -> NoDup B -> ids_ok A -> ids_ok B -> len A + len B <= i32_max ->
  let D := outs (list_difference A B) (list_difference B A) in
  peelable n key D -> no_collisions n key D -> len D <= d_max (from_cell_count n) ->
  exists sa sb sd s' P N st, for_each insert (new_keyed n key) A = Some sa /\ for_each insert (new_keyed n key) B = Some sb /\
    subtract sa sb = Some (Ok sd) /\ decode sd = Some (s', Ok (P, N, st)) /\
    P ≡ₚ list_difference A B /\ N ≡ₚ list_difference B A.
Proof. apply reconcile_exact. Qed.

Lemma subtract_cells_at cs os cs' i c o :
  subtract_cells cs os = Some cs' -> idx cs i = Some c -> idx os i = Some o ->
  i32_min <= count c - count o <= i32_max /\ exists c', idx cs' i = Some c' /\ count c' = count c - count o.
Proof.
  setoid_rewrite idx_Some. generalize (Z.to_nat i) as j. intros j E [Hi Hc] [_ Ho]. revert cs os cs' E Hc Ho.
  induction j as [|j IH]; intros [|a cs] [|b os] cs' E Hc Ho; try done; cbn in Hc, Ho; cbn [subtract_cells] in E;
    (destruct (chk_i32 (count a - count b)) as [m|] eqn:Em; [|done]; cbn in E; destruct (subtract_cells cs os) as [cs1|] eqn:E1; [|done]; cbn in E; simplify_eq).
  - apply chk_Some in Em as [-> Hr]. split; [done|]. eexists. by split_and!.
  - destruct (IH cs os cs1 E1 Hc Ho) as (Hr & c' & [_ ?] & ?). split; [done|]. by exists c'.
Qed.

Lemma find_pure_none `{Blake3} s i is_ acc : i ∈ is_ -> is_pure s i = None -> find_pure s is_ acc = None.
Proof.
  intros Hi Hn. revert acc. induction Hi as [i is_|i j is_ _ IH]; intros acc; cbn [find_pure]; [by rewrite Hn|].
  destruct (is_pure s j); [|done]. run. by apply IH.
Qed.

(** the counts of a peer's sketch are used unchecked.  If one of them is
    [i32::MIN], subtracting the local sketch (whose counts are not negative) or
    the purity test of the decoding that follows overflows, a panic with overflow
    checks on, whatever else the sketch contains. *)
Theorem forged_count_panics `{Blake3} remote local i c o :
  len (cells remote) = len (cells local) -> idx (cells remote) i = Some c -> idx (cells local) i = Some o ->
  0 <= count o -> count c = i32_min ->
  subtract remote local = None \/ exists d, subtract remote local = Some (Ok d) /\ decode d = None.
Proof.
  intros Hl Hc Ho H0 Hm. unfold subtract. rewrite Hl, Z.eqb_refl. cbn [negb].
  destruct (subtract_cells (cells remote) (cells local)) as [cs|] eqn:E; [right|by left]. run. eexists. split; [done|].
  destruct (subtract_cells_at _ _ _ i c o E Hc Ho) as (Hr & c' & Hc' & Hcnt). pose proof (idx_lt _ _ _ Hc') as Hi.
  unfold decode. rewrite (find_pure_none _ i); [done|by apply elem_of_zrange|]. unfold is_pure. cbn [cells set_field]. rewrite Hc'. run.
  unfold chk_i32, chk. rewrite Hcnt, Hm. assert (count o = 0) as -> by lia. done.
Qed.

(** *** Witnesses *)

(** A hash for concrete runs: the stream counts up from the first byte. *)
Definition counting : Blake3 :=
  {| derive_key _ key := key; xof_u32 _ x i := hd 0 x mod 256 + Z.of_nat i; hash_u64 _ x := (3 * hd 0 x + 1) mod 2 ^ 64; draws := 4 |}.
#[local] Existing Instance counting.

Lemma counting_spreads x m : 0 < m ->
  Z.min 4 m <= len (remove_dups ((fun i => (x + Z.of_nat i) mod m) <$> seq 0 4)).
Proof.
  intros Hm. set (f := fun i : nat => (x + Z.of_nat i) mod m). trans (len (f <$> seq 0 (Z.to_nat (Z.min 4 m)))).
  { unfold len. rewrite length_fmap, length_seq. lia. }
  unfold len. apply Nat2Z.inj_le, submseteq_length, NoDup_submseteq.
  - apply NoDup_fmap_2_strong; [|apply NoDup_seq]. intros i j Hi%elem_of_seq Hj%elem_of_seq. unfold f. intros E.
    assert ((Z.of_nat i - Z.of_nat j) mod m = 0) as Hd.
    { replace (Z.of_nat i - Z.of_nat j) with ((x + Z.of_nat i) - (x + Z.of_nat j)) by lia. by rewrite Zminus_mod, E, Z.sub_diag. }
    apply Z.mod_divide in Hd as [q Hq]; [|lia]. assert (q = 0) as -> by nia. lia.
  - intros y (i & -> & Hi%elem_of_seq)%list_elem_of_fmap. rewrite elem_of_remove_dups. apply list_elem_of_fmap_2, elem_of_seq. lia.
Qed.

#[local] Instance counting_laws : Blake3Laws.
Proof.
  split; [|intros key x m Hm; by apply counting_spreads].
  intros key x. unfold in_u. apply Z.mod_pos_bound. lia.
Qed.

Definition id_of (b : Z) : list Z := b :: replicate 31 7.

Lemma decided (P : Prop) `{Decision P} : bool_decide P = true -> P.
Proof. apply bool_decide_eq_true. Qed.

Ltac all_ids :=
  let x := fresh in let Hx := fresh in
  intros x Hx; repeat (apply elem_of_cons in Hx as [->|Hx]; [reflexivity|]); by apply not_elem_of_nil in Hx.

Lemma sketch_of_difference_witness :
  exists sa sb s1 sd, for_each insert (new_keyed 16 None) [id_of 1; id_of 2] = Some sa /\ for_each insert (new_keyed 16 None) [id_of 2; id_of 9] = Some sb /\
    subtract sa sb = Some (Ok sd) /\
    for_each insert (new_keyed 16 None) (list_difference [id_of 1; id_of 2] [id_of 2; id_of 9]) = Some s1 /\
    for_each remove s1 (list_difference [id_of 2; id_of 9] [id_of 1; id_of 2]) = Some sd.
Proof.
  apply sketch_of_difference; [lia|by refine (decided _ _)|by refine (decided _ _)|all_ids|all_ids|vm_compute; discriminate].
Defined.

(** A sketch whose only content is a forged cell. *)
Definition forged : t := from_cells_keyed (mkCell 3 (id_of 5) 8 :: replicate 15 empty_cell) None.

Lemma sixteen_shape : shape 16 None forged.
Proof. split; [done..|]. intros c [->|[-> _]%elem_of_replicate]%elem_of_cons; done. Qed.

Lemma decode_terminates_witness :
  exists s' r, decode forged = Some (s', r) /\ forall err, r = Err err -> exists st, err = DecodingFailed st.
Proof.
  apply (decode_terminates 16 None forged 3); [lia|apply sixteen_shape| |vm_compute; reflexivity].
  intros c [->|[-> _]%elem_of_replicate]%elem_of_cons; vm_compute; discriminate.
Defined.

(** The difference of the sets [{1, 2}] and [{2, 3}], as made by [subtract]. *)
Definition difference_sketch : t :=
  default forged (s ← insert (new_keyed 16 None) (id_of 1); remove s (id_of 3)).

Lemma decode_sound_witness :
  idx (cells difference_sketch) 3 = Some (total 16 None (with_sign 1 [id_of 1] ++ with_sign (-1) [id_of 3]) 3).
Proof.
  refine (proj1 (decode_sound 16 None difference_sketch 1 (default forged (fst <$> decode difference_sketch)) [id_of 1] [id_of 3]
    (mkStats 2 38) _ _ _ _ _) 3 _); [lia| | |vm_compute; reflexivity|vm_compute; reflexivity|lia].
  - split; [vm_compute; reflexivity..|]. refine (proj1 (Forall_forall (fun c => length (id_sum c) = 32%nat) _) _). refine (decided _ _). vm_compute. reflexivity.
  - refine (proj1 (Forall_forall (fun c => Z.abs (count c) <= 1) _) _). refine (decided _ _). vm_compute. reflexivity.
Defined.

(** The parts of two elements. *)
Lemma parts_of_two (a b : list Z * Z) D : D ⊆+ [a; b] -> D ∈ [[]; [a]; [b]; [a; b]; [b; a]].
Proof.
  intros (l & Hp & Hs)%submseteq_sublist_r. assert (l ∈ [[]; [a]; [b]; [a; b]]) as Hl.
  { apply sublist_cons_r in Hs as [Hs|(l1 & -> & Hs)]; apply sublist_cons_r in Hs as [Hs|(l2 & -> & Hs)]; apply sublist_nil_r in Hs as ->; set_solver. }
  repeat (apply elem_of_cons in Hl as [->|Hl]); [..|by apply not_elem_of_nil in Hl].
  - apply Permutation_nil_r in Hp as ->. set_solver.
  - apply Permutation_singleton_r in Hp as ->. set_solver.
  - apply Permutation_singleton_r in Hp as ->. set_solver.
  - symmetry in Hp. apply Permutation_length_2_inv in Hp as [-> | ->]; set_solver.
Qed.

(** A boolean check of what [reconcile_complete] asks of one part. *)
Definition part_ok (D : list (list Z * Z)) : bool :=
  (bool_decide (D = []) || existsb (fun i => len (hits 16 None D i) =? 1) (zrange 0 16)) &&
  forallb (fun i => implb (pure_cell None (total 16 None D i)) (len (hits 16 None D i) =? 1)) (zrange 0 16).

Lemma part_ok_spec D : part_ok D = true ->
  (D <> [] -> exists i e, 0 <= i < 16 /\ hits 16 None D i = [e]) /\
  (forall i, 0 <= i < 16 -> pure_cell None (total 16 None D i) = true -> exists e, hits 16 None D i = [e]).
Proof.
  assert (forall l : list (list Z * Z), len l = 1 -> exists e, l = [e]) as Hone.
  { intros [|e [|]]; unfold len; cbn; [lia|by exists e|lia]. }
  unfold part_ok. intros [H1 H2]%andb_true_iff. split.
  - intros Hne. apply orb_true_iff in H1 as [H1|H1]; [by apply bool_decide_eq_true in H1|].
    apply existsb_exists in H1 as (i & Hi & Hl%Z.eqb_eq%Hone). destruct Hl as [e He]. exists i, e. split; [|done].
    apply elem_of_zrange. by apply list_elem_of_In.
  - intros i Hi Hp. rewrite forallb_forall in H2. specialize (H2 i). rewrite Hp in H2. apply Hone, Z.eqb_eq, H2, list_elem_of_In, elem_of_zrange. lia.
Qed.

Lemma example_parts D : D ⊆+ [(id_of 1, 1); (id_of 3, -1)] -> part_ok D = true.
Proof.
  intros Hd%parts_of_two. revert D Hd. refine (proj1 (Forall_forall (fun D => part_ok D = true) _) _). refine (decided _ _). vm_compute. reflexivity.
Qed.

(** The elements 1 and 3 can be told apart in 16 cells. *)
Lemma example_decodable : peelable 16 None [(id_of 1, 1); (id_of 3, -1)] /\ no_collisions 16 None [(id_of 1, 1); (id_of 3, -1)].
Proof.
  split; [intros D Hd; apply (part_ok_spec D), example_parts, Hd|intros D i Hd; apply (part_ok_spec D), example_parts, Hd].
Qed.

Lemma reconcile_complete_witness :
  exists sa sb sd s' P N st, for_each insert (new_keyed 16 None) [id_of 1; id_of 2] = Some sa /\ for_each insert (new_keyed 16 None) [id_of 2; id_of 3] = Some sb /\
    subtract sa sb = Some (Ok sd) /\ decode sd = Some (s', Ok (P, N, st)) /\
    P ≡ₚ list_difference [id_of 1; id_of 2] [id_of 2; id_of 3] /\ N ≡ₚ list_difference [id_of 2; id_of 3] [id_of 1; id_of 2].
Proof.
  apply reconcile_complete; [lia|by refine (decided _ _)|by refine (decided _ _)|all_ids|all_ids|vm_compute; discriminate|apply example_decodable|apply example_decodable|vm_compute; discriminate].
Defined.

Lemma forged_count_panics_witness :
  let remote := from_cells_keyed (replicate 3 empty_cell ++ [mkCell i32_min (id_of 0) 0]) None in
  subtract remote (new_keyed 4 None) = None \/ exists d, subtract remote (new_keyed 4 None) = Some (Ok d) /\ decode d = None.
Proof. apply (forged_count_panics _ _ 3 (mkCell i32_min (id_of 0) 0) empty_cell); vm_compute; done. Defined.

End IbltTheory.
