(* ===== verification/MsgPack.v ===== *)
(** The MessagePack layer of [tox-proto/src/lib.rs]: readers over a byte string,
    [skip_value], [capture_value], [read_enum_header], and the library [rmp] they
    are built on.

    [rmp] is library code: the class [Rmp] holds the functions of it that the
    source calls and [RmpLaws] what its documentation and the MessagePack format
    say of them.  A writer is the byte string written, a reader the byte string
    left to read.  The texts of errors are left out. *)

From S2P Require Import Prelude.
#[local] Open Scope Z_scope.
#[local] Open Scope list_scope.

Abbreviation bytes := (list Z) (only parsing).

Inductive Error := Io | Deserialize | Serialize.
#[export] Instance Error_eq_dec : EqDecision Error.
Proof. solve_decision. Defined.

(** ** Outcomes

    [None] is a panic (or undefined behaviour), [Err] a returned error. *)

Definition M (A : Type) : Type := option (result Error A).
Definition reader (A : Type) : Type := bytes -> M (A * bytes).

Definition ret {A} (a : A) : M A := Some (Ok a).
Definition fail {A} (e : Error) : M A := Some (Err e).
Definition panic {A} : M A := None.
Definition andThen {A B} (m : M A) (k : A -> M B) : M B :=
  match m with Some (Ok a) => k a | Some (Err e) => Some (Err e) | None => None end.
(** A checked operation of [Prelude] inside an outcome. *)
Definition checked {A} (o : option A) : M A := match o with Some a => ret a | None => panic end.

Declare Scope proto_scope.
#[global] Open Scope proto_scope.
Notation "'let!' x := m 'in' k" := (andThen m (fun x => k)) (at level 10, x pattern, m at level 100, k at level 200) : proto_scope.

(** ** Bytes of integers *)

(** [to_le_bytes], [to_be_bytes] of an [n]-byte integer and the way back. *)
Fixpoint le_bytes (n : nat) (v : Z) : bytes :=
  match n with O => [] | S n => v mod 256 :: le_bytes n (v / 256) end.
Definition be_bytes (n : nat) (v : Z) : bytes := reverse (le_bytes n v).
Fixpoint from_le (l : bytes) : Z := match l with [] => 0 | b :: l => b + 256 * from_le l end.
Definition from_be (l : bytes) : Z := from_le (reverse l).
(** The signed integer of [n] bytes with the same bits. *)
Definition to_signed (n : nat) (v : Z) : Z := if v <? 2 ^ (8 * Z.of_nat n - 1) then v else v - 2 ^ (8 * Z.of_nat n).

(** [Read::read_exact] into a buffer of [n] bytes. *)
Definition read_exact (n : Z) : reader bytes :=
  fun rd => if n <=? len rd then ret (take (Z.to_nat n) rd, drop (Z.to_nat n) rd) else fail Io.

(** ** The library [rmp] *)

(** [rmp::Marker] *)
Inductive Marker :=
| FixPos (v : Z) | FixNeg (v : Z) | FixMap (len : Z) | FixArray (len : Z) | FixStr (len : Z)
| Null | Reserved | False_ | True_ | Bin8 | Bin16 | Bin32 | Ext8 | Ext16 | Ext32 | F32 | F64
| U8 | U16 | U32 | U64 | I8 | I16 | I32 | I64 | FixExt1 | FixExt2 | FixExt4 | FixExt8 | FixExt16
| Str8 | Str16 | Str32 | Array16 | Array32 | Map16 | Map32.
#[export] Instance Marker_eq_dec : EqDecision Marker.
Proof. solve_decision. Defined.

(** A reading function returns what it read and the rest of the input, or an
    error.  [read_int] is given the range of the integer type asked for. *)
Class Rmp := {
  read_marker : bytes -> option (Marker * bytes);
  read_int : Z -> Z -> bytes -> option (Z * bytes);
  read_bool : bytes -> option (bool * bytes);
  read_f32 : bytes -> option (Z * bytes);
  read_f64 : bytes -> option (Z * bytes);
  read_str_len : bytes -> option (Z * bytes);
  read_bin_len : bytes -> option (Z * bytes);
  read_array_len : bytes -> option (Z * bytes);
  read_map_len : bytes -> option (Z * bytes);
  write_uint : Z -> bytes;
  write_sint : Z -> bytes;
  write_bool : bool -> bytes;
  write_f32 : Z -> bytes;
  write_f64 : Z -> bytes;
  write_str : bytes -> bytes;
  write_bin : bytes -> bytes;
  write_bin_len : Z -> bytes;
  write_array_len : Z -> bytes;
  write_map_len : Z -> bytes
}.

(** An [rmp] read with its error mapped to [Error::Deserialize]. *)
Definition lift {A} (f : bytes -> option (A * bytes)) : reader A :=
  fun rd => match f rd with Some x => ret x | None => fail Deserialize end.

Section Skip.
Context `{Rmp}.

(** A length field of [n] bytes. *)
Definition read_len (n : nat) : reader Z :=
  fun rd => let! (buf, rd) := read_exact (Z.of_nat n) rd in ret (from_be buf, rd).

(** Reads and drops [n] bytes. *)
Definition discard (n : Z) : reader unit :=
  fun rd => let! (_, rd) := read_exact n rd in ret (tt, rd).

(** [for _ in 0..n { skip(reader)?; }] *)
Fixpoint repeat_skip (skip : reader unit) (fuel : nat) (n : Z) (rd : bytes) : M (unit * bytes) :=
  if n <=? 0 then ret (tt, rd)
  else
    match fuel with
    | O => panic
    | S fuel => let! (_, rd) := skip rd in repeat_skip skip fuel (n - 1) rd
    end.

(** The match of [skip_value]; [skips n] skips [n] values. *)
Definition skip_payload (skips : Z -> reader unit) (marker : Marker) : reader unit :=
  fun rd =>
  match marker with
  | FixPos _ | FixNeg _ | Null | True_ | False_ => ret (tt, rd)
  | U8 | I8 => discard 1 rd
  | U16 | I16 => discard 2 rd
  | U32 | I32 | F32 => discard 4 rd
  | U64 | I64 | F64 => discard 8 rd
  | FixStr n => discard n rd
  | Str8 | Bin8 => let! (n, rd) := read_len 1 rd in discard n rd
  | Str16 | Bin16 => let! (n, rd) := read_len 2 rd in discard n rd
  | Str32 | Bin32 => let! (n, rd) := read_len 4 rd in discard n rd
  | FixArray n => skips n rd
  | Array16 => let! (n, rd) := read_len 2 rd in skips n rd
  | Array32 => let! (n, rd) := read_len 4 rd in skips n rd
  | FixMap n => let! n := checked (chk 0 u8_max (n * 2)) in skips n rd
  | Map16 => let! (n, rd) := read_len 2 rd in let! n := checked (chk_u16 (n * 2)) in skips n rd
  | Map32 => let! (n, rd) := read_len 4 rd in let! n := checked (chk_u32 (n * 2)) in skips n rd
  | FixExt1 => discard (1 + 1) rd
  | FixExt2 => discard (1 + 2) rd
  | FixExt4 => discard (1 + 4) rd
  | FixExt8 => discard (1 + 8) rd
  | FixExt16 => discard (1 + 16) rd
  | Ext8 => let! (n, rd) := read_len 1 rd in discard (1 + n) rd
  | Ext16 => let! (n, rd) := read_len 2 rd in discard (1 + n) rd
  | Ext32 => let! (n, rd) := read_len 4 rd in discard (1 + n) rd
  | Reserved => fail Deserialize
  end.

(** [skip_value]; the fuel bounds the nesting and the length of each loop. *)
Fixpoint skip_value_fuel (fuel : nat) (rd : bytes) : M (unit * bytes) :=
  match fuel with
  | O => panic
  | S fuel =>
      let! (marker, rd) := lift read_marker rd in
      skip_payload (fun n rd => repeat_skip (skip_value_fuel fuel) fuel n rd) marker rd
  end.

(** Every value takes at least one byte. *)
Definition skip_value : reader unit := fun rd => skip_value_fuel (S (length rd)) rd.

(** Skipping several values. *)
Definition skip_values (n : Z) : reader unit := fun rd => repeat_skip skip_value (S (length rd)) n rd.

(** [capture_value]: the wrapped reader records what passes through it, which is
    what [skip_value] took from the input. *)
Definition capture_value : reader bytes :=
  fun rd => let! (_, rest) := skip_value rd in ret (take (length rd - length rest) rd, rest).

(** [u8::deserialize] *)
Definition read_u8 : reader Z := lift (read_int 0 u8_max).

Definition read_enum_header : reader (Z * Z) :=
  fun rd =>
    let! (marker, rd) := lift read_marker rd in
    match marker with
    | FixPos idx => ret ((idx, 1), rd)
    | U8 => let! (buf, rd) := read_exact 1 rd in ret ((from_be buf, 1), rd)
    | FixArray n => let! (idx, rd) := read_u8 rd in ret ((idx, n), rd)
    | Array16 => let! (n, rd) := read_len 2 rd in let! (idx, rd) := read_u8 rd in ret ((idx, n), rd)
    | Array32 => let! (n, rd) := read_len 4 rd in let! (idx, rd) := read_u8 rd in ret ((idx, n), rd)
    | _ => fail Deserialize
    end.

End Skip.
