(* ===== verification/MsgPackTheory.v ===== *)
(** What [rmp] promises, and what follows for [skip_value], [capture_value] and
    [read_enum_header]. *)

From S2P Require Import Prelude MsgPack.
#[local] Open Scope Z_scope.
#[local] Open Scope list_scope.

(** ** The shapes of MessagePack headers *)

(** The number of bytes that follow the marker of a scalar. *)
Definition scalar (m : Marker) : option Z :=
  match m with
  | FixPos _ | FixNeg _ | Null | True_ | False_ => Some 0
  | U8 | I8 => Some 1
  | U16 | I16 => Some 2
  | U32 | I32 | F32 => Some 4
  | U64 | I64 | F64 => Some 8
  | _ => None
  end.

(** Marker and length field in front of [n] bytes, values or pairs. *)
Inductive blob_header : Marker -> bytes -> Z -> Prop :=
| blob_fix n : blob_header (FixStr n) [] n
| blob_8 m p n : m = Str8 \/ m = Bin8 -> length p = 1%nat -> from_be p = n -> blob_header m p n
| blob_16 m p n : m = Str16 \/ m = Bin16 -> length p = 2%nat -> from_be p = n -> blob_header m p n
| blob_32 m p n : m = Str32 \/ m = Bin32 -> length p = 4%nat -> from_be p = n -> blob_header m p n.

Inductive array_header : Marker -> bytes -> Z -> Prop :=
| array_fix n : array_header (FixArray n) [] n
| array_16 p n : length p = 2%nat -> from_be p = n -> array_header Array16 p n
| array_32 p n : length p = 4%nat -> from_be p = n -> array_header Array32 p n.

Inductive map_header : Marker -> bytes -> Z -> Prop :=
| map_fix n : n < 16 -> map_header (FixMap n) [] n
| map_16 p n : length p = 2%nat -> from_be p = n -> map_header Map16 p n
| map_32 p n : length p = 4%nat -> from_be p = n -> map_header Map32 p n.

(** The shortest representation of an unsigned integer, of a length. *)
Definition uint_size (v : Z) : Z :=
  if v <? 2 ^ 7 then 1 else if v <? 2 ^ 8 then 2 else if v <? 2 ^ 16 then 3 else if v <? 2 ^ 32 then 5 else 9.
Definition bin_size (n : Z) : Z := if n <? 2 ^ 8 then 2 else if n <? 2 ^ 16 then 3 else 5.

Class RmpLaws `{Rmp} := {
  (** [read_marker] takes one byte. *)
  marker_byte rd m r : read_marker rd = Some (m, r) -> exists b, rd = b :: r;
  (** Integers in the shortest form that [read_int] reads back at any type that
      has the value. *)
  uint_wire v : in_u 64 v -> exists m p, (forall r, read_marker (write_uint v ++ r) = Some (m, p ++ r)) /\ scalar m = Some (len p);
  int_range lo hi rd v r : read_int lo hi rd = Some (v, r) -> lo <= v <= hi;
  uint_read lo hi v r : in_u 64 v -> lo <= v <= hi -> read_int lo hi (write_uint v ++ r) = Some (v, r);
  uint_fix v r : 0 <= v < 2 ^ 7 -> write_uint v = [v] /\ read_marker (v :: r) = Some (FixPos v, r);
  uint_byte v r : 2 ^ 7 <= v < 2 ^ 8 -> read_marker (write_uint v ++ r) = Some (U8, v :: r);
  uint_len v : in_u 64 v -> len (write_uint v) = uint_size v;
  sint_wire v : i64_min <= v <= i64_max -> exists m p, (forall r, read_marker (write_sint v ++ r) = Some (m, p ++ r)) /\ scalar m = Some (len p);
  sint_read lo hi v r : i64_min <= v <= i64_max -> lo <= v <= hi -> read_int lo hi (write_sint v ++ r) = Some (v, r);
  sint_len v : i64_min <= v <= i64_max -> len (write_sint v) <= 9;
  (** Booleans and floating-point numbers, given by their bits. *)
  bool_wire b : exists m p, (forall r, read_marker (write_bool b ++ r) = Some (m, p ++ r)) /\ scalar m = Some (len p);
  bool_read b r : read_bool (write_bool b ++ r) = Some (b, r);
  f32_wire v : in_u 32 v -> exists m p, (forall r, read_marker (write_f32 v ++ r) = Some (m, p ++ r)) /\ scalar m = Some (len p);
  f32_read v r : in_u 32 v -> read_f32 (write_f32 v ++ r) = Some (v, r);
  f64_wire v : in_u 64 v -> exists m p, (forall r, read_marker (write_f64 v ++ r) = Some (m, p ++ r)) /\ scalar m = Some (len p);
  f64_read v r : in_u 64 v -> read_f64 (write_f64 v ++ r) = Some (v, r);
  (** Byte strings: a header and the bytes. *)
  bin_bytes s : len s <= u32_max -> write_bin s = write_bin_len (len s) ++ s;
  bin_range rd n r : read_bin_len rd = Some (n, r) -> in_u 32 n;
  bin_long s : len s <= len (write_bin s);
  bin_wire n : in_u 32 n -> exists m p, (forall r, read_marker (write_bin_len n ++ r) = Some (m, p ++ r)) /\ blob_header m p n;
  bin_read n r : in_u 32 n -> read_bin_len (write_bin_len n ++ r) = Some (n, r);
  bin_len n : in_u 32 n -> len (write_bin_len n) = bin_size n;
  str_bytes s : len s <= u32_max -> exists h m p, write_str s = h ++ s /\ (forall r, read_str_len (h ++ r) = Some (len s, r)) /\
    (forall r, read_marker (h ++ r) = Some (m, p ++ r)) /\ blob_header m p (len s);
  (** Lengths of arrays and maps. *)
  array_wire n : in_u 32 n -> exists m p, (forall r, read_marker (write_array_len n ++ r) = Some (m, p ++ r)) /\ array_header m p n;
  array_read n r : in_u 32 n -> read_array_len (write_array_len n ++ r) = Some (n, r);
  array_fixed n : 0 <= n < 16 -> write_array_len n = [0x90 + n];
  map_wire n : in_u 32 n -> exists m p, (forall r, read_marker (write_map_len n ++ r) = Some (m, p ++ r)) /\ map_header m p n;
  map_read n r : in_u 32 n -> read_map_len (write_map_len n ++ r) = Some (n, r)
}.

(** ** Bytes of integers *)

Lemma le_bytes_length n v : length (le_bytes n v) = n.
Proof. revert v. induction n as [|n IH]; intros v; cbn; [done|]. by rewrite IH. Qed.

Lemma be_bytes_length n v : length (be_bytes n v) = n.
Proof. unfold be_bytes. by rewrite length_reverse, le_bytes_length. Qed.

Lemma from_le_bytes n v : 0 <= v < 2 ^ (8 * Z.of_nat n) -> from_le (le_bytes n v) = v.
Proof.
  revert v. induction n as [|n IH]; intros v Hv; cbn [le_bytes from_le]; [cbn in Hv; lia|].
  rewrite IH; [pose proof (Z.div_mod v 256 ltac:(lia)); lia|].
  replace (8 * Z.of_nat (S n)) with (8 + 8 * Z.of_nat n) in Hv by lia. rewrite Z.pow_add_r in Hv by lia.
  split; [apply Z.div_pos; lia|]. apply Z.div_lt_upper_bound; lia.
Qed.

Lemma from_be_bytes n v : 0 <= v < 2 ^ (8 * Z.of_nat n) -> from_be (be_bytes n v) = v.
Proof. intros Hv. unfold from_be, be_bytes. rewrite reverse_involutive. by apply from_le_bytes. Qed.

Lemma from_be_single v : from_be [v] = v.
Proof. unfold from_be. change (reverse [v]) with [v]. cbn [from_le]. lia. Qed.

(** Two's complement. *)
Lemma to_signed_wrap n v : (0 < n)%nat -> - 2 ^ (8 * Z.of_nat n - 1) <= v < 2 ^ (8 * Z.of_nat n - 1) ->
  to_signed n (wrap (8 * Z.of_nat n) v) = v.
Proof.
  intros Hn Hv. unfold to_signed, wrap. set (k := 8 * Z.of_nat n - 1) in *. replace (8 * Z.of_nat n) with (k + 1) by lia.
  rewrite Z.pow_add_r by lia. change (2 ^ 1) with 2. assert (0 < 2 ^ k) by (apply Z.pow_pos_nonneg; lia).
  destruct (Z.leb_spec 0 v).
  - rewrite Z.mod_small by lia. destruct (Z.ltb_spec v (2 ^ k)); lia.
  - rewrite <- (Z.mod_add v 1) by lia. rewrite Z.mod_small by lia. destruct (Z.ltb_spec (v + 1 * (2 ^ k * 2)) (2 ^ k)); lia.
Qed.

(** ** Reading *)

Lemma read_exact_app p r : read_exact (len p) (p ++ r) = ret (p, r).
Proof.
  unfold read_exact. rewrite len_app. pose proof (len_nonneg r). destruct (Z.leb_spec (len p) (len p + len r)); [|lia].
  unfold len. rewrite Nat2Z.id, take_app_length, drop_app_length. done.
Qed.

Lemma discard_app p r n : len p = n -> discard n (p ++ r) = ret (tt, r).
Proof. intros <-. unfold discard. by rewrite read_exact_app. Qed.

Lemma read_len_app n p r : length p = n -> read_len n (p ++ r) = ret (from_be p, r).
Proof. intros <-. unfold read_len. fold (len p). by rewrite read_exact_app. Qed.

(** Whatever a reader leaves is a suffix of its input. *)
Lemma read_exact_suffix n rd p r : read_exact n rd = ret (p, r) -> rd = p ++ r.
Proof. unfold read_exact. case_match; [|done]. intros [= <- <-]. by rewrite take_drop. Qed.

Lemma discard_suffix n rd r : discard n rd = ret (tt, r) -> exists p, rd = p ++ r.
Proof. unfold discard. destruct (read_exact n rd) as [[[p r']|]|] eqn:E; try done. intros [= <-]. exists p. by apply read_exact_suffix in E. Qed.

Lemma read_len_suffix n rd v r : read_len n rd = ret (v, r) -> exists p, rd = p ++ r.
Proof.
  unfold read_len. destruct (read_exact _ rd) as [[[p r']|]|] eqn:E; try done. intros [= _ <-]. exists p. by apply read_exact_suffix in E.
Qed.

(** ** Skipping values *)

Section Skip.
Context `{RmpLaws}.

(** A reader takes a non-empty prefix of its input. *)
Definition consumes (skip : reader unit) : Prop := forall rd r, skip rd = ret (tt, r) -> exists p, rd = p ++ r /\ p <> [].

Lemma repeat_suffix skip fuel n rd r : consumes skip -> repeat_skip skip fuel n rd = ret (tt, r) -> exists p, rd = p ++ r.
Proof.
  intros Hc. revert n rd. induction fuel as [|fuel IH]; intros n rd; cbn [repeat_skip]; destruct (n <=? 0);
    try (intros [= <-]; by exists []).
  destruct (skip rd) as [[[[] r1]|]|] eqn:E; try done. cbn. intros Hr. destruct (Hc _ _ E) as (p & -> & _), (IH _ _ Hr) as [q ->].
  exists (p ++ q). by rewrite app_assoc.
Qed.

Lemma payload_suffix skips m rd r :
  (forall n rd r, skips n rd = ret (tt, r) -> exists p, rd = p ++ r) -> skip_payload skips m rd = ret (tt, r) -> exists p, rd = p ++ r.
Proof.
  intros Hs. assert (forall k (f : Z -> reader unit) rd r, (forall n rd r, f n rd = ret (tt, r) -> exists p, rd = p ++ r) ->
    (let! (n, rd) := read_len k rd in f n rd) = ret (tt, r) -> exists p, rd = p ++ r) as Hlen.
  { intros k f rd0 r0 Hf. destruct (read_len k rd0) as [[[n r1]|]|] eqn:E; try done. cbn. intros Hr.
    destruct (read_len_suffix _ _ _ _ E) as [p ->], (Hf _ _ _ Hr) as [q ->]. exists (p ++ q). by rewrite app_assoc. }
  assert (forall (o : Z -> option Z) n rd r, (let! n := checked (o n) in skips n rd) = ret (tt, r) -> exists p, rd = p ++ r) as Hchk.
  { intros o n rd0 r0. destruct (o n); [|done]. cbn. apply Hs. }
  destruct m; cbn [skip_payload]; try (apply discard_suffix); try (intros [= <-]; by exists []); try apply Hs; try (apply Hlen; intros *; apply discard_suffix).
  - apply (Hchk (fun n => chk 0 u8_max (n * 2))).
  - apply Hlen, Hs.
  - apply Hlen, Hs.
  - apply Hlen. intros n rd0 r0. apply (Hchk (fun n => chk_u16 (n * 2))).
  - apply Hlen. intros n rd0 r0. apply (Hchk (fun n => chk_u32 (n * 2))).
Qed.

Lemma lift_marker rd m r : lift read_marker rd = ret (m, r) -> exists b, rd = b :: r.
Proof. unfold lift. destruct (read_marker rd) as [[m' r']|] eqn:E; [|done]. intros [= -> ->]. by eapply marker_byte. Qed.

Lemma skip_consumes fuel : consumes (skip_value_fuel fuel).
Proof.
  induction fuel as [|fuel IH]; intros rd r; cbn [skip_value_fuel]; [done|].
  destruct (lift read_marker rd) as [[[m r1]|]|] eqn:E; try done. cbn. intros Hr. destruct (lift_marker _ _ _ E) as [b ->].
  destruct (payload_suffix _ _ _ _ ltac:(intros n rd r0; by apply repeat_suffix) Hr) as [p ->]. by exists (b :: p).
Qed.

(** Loops over readers that agree on shorter inputs agree. *)
Lemma repeat_agree skip skip' f f' n rd :
  consumes skip -> (forall rd', (length rd' <= length rd)%nat -> skip rd' = skip' rd') -> (length rd < f)%nat -> (length rd < f')%nat ->
  repeat_skip skip f n rd = repeat_skip skip' f' n rd.
Proof.
  intros Hc. revert f' n rd. induction f as [|f IH]; intros f' n rd Ha Hf Hf'; [lia|]. destruct f' as [|f']; [lia|]. cbn [repeat_skip].
  destruct (n <=? 0); [done|]. rewrite <- (Ha rd) by lia. destruct (skip rd) as [[[[] r]|]|] eqn:E; try done. cbn.
  destruct (Hc _ _ E) as (p & -> & Hp). destruct p as [|b p]; [done|]. rewrite length_app in *. cbn [length] in *.
  apply IH; [|lia..]. intros rd' Hrd. apply Ha. lia.
Qed.

Lemma payload_agree skips skips' m rd :
  (forall n rd', (length rd' <= length rd)%nat -> skips n rd' = skips' n rd') -> skip_payload skips m rd = skip_payload skips' m rd.
Proof.
  intros Ha. assert (forall k (f g : Z -> reader unit), (forall n rd', (length rd' <= length rd)%nat -> f n rd' = g n rd') ->
    (let! (n, rd) := read_len k rd in f n rd) = (let! (n, rd) := read_len k rd in g n rd)) as Hlen.
  { intros k f g Hfg. destruct (read_len k rd) as [[[n r]|]|] eqn:E; try done. cbn. destruct (read_len_suffix _ _ _ _ E) as [p ->].
    apply Hfg. rewrite length_app. lia. }
  assert (forall (o : Z -> option Z) n rd', (length rd' <= length rd)%nat ->
    (let! n := checked (o n) in skips n rd') = (let! n := checked (o n) in skips' n rd')) as Hchk.
  { intros o n rd' Hl. destruct (o n); [|done]. by apply Ha. }
  destruct m; cbn [skip_payload]; try done; try (by apply Ha).
  - by apply (Hchk (fun n => chk 0 u8_max (n * 2))).
  - by apply Hlen.
  - by apply Hlen.
  - apply Hlen. intros n rd' Hl. by apply (Hchk (fun n => chk_u16 (n * 2))).
  - apply Hlen. intros n rd' Hl. by apply (Hchk (fun n => chk_u32 (n * 2))).
Qed.

(** Fuel beyond the length of the input does not matter. *)
Lemma skip_fuel_enough f f' rd : (length rd < f)%nat -> (length rd < f')%nat -> skip_value_fuel f rd = skip_value_fuel f' rd.
Proof.
  revert f' rd. induction f as [|f IH]; intros f' rd Hf Hf'; [lia|]. destruct f' as [|f']; [lia|]. cbn [skip_value_fuel].
  destruct (lift read_marker rd) as [[[m r]|]|] eqn:E; try done. cbn. destruct (lift_marker _ _ _ E) as [b ->]. cbn [length] in *.
  apply payload_agree. intros n rd' Hl. apply repeat_agree; [apply skip_consumes| |lia..]. intros rd2 Hl2. apply IH; lia.
Qed.

Lemma skip_value_fuel_eq f rd : (length rd < f)%nat -> skip_value_fuel f rd = skip_value rd.
Proof. intros Hf. apply skip_fuel_enough; lia. Qed.

Lemma skip_value_consumes : consumes skip_value.
Proof. intros rd r. apply skip_consumes. Qed.

Lemma skip_unfold rd : skip_value rd = let! (m, rd) := lift read_marker rd in skip_payload skip_values m rd.
Proof.
  unfold skip_value at 1. cbn [skip_value_fuel]. destruct (lift read_marker rd) as [[[m r]|]|] eqn:E; try done. cbn.
  destruct (lift_marker _ _ _ E) as [b ->]. cbn [length]. apply payload_agree. intros n rd' Hl. unfold skip_values.
  apply repeat_agree; [apply skip_consumes| |lia..]. intros rd2 Hl2. apply skip_value_fuel_eq. lia.
Qed.

(** The bytes of exactly one value. *)
Definition one_value (b : bytes) : Prop := forall r, skip_value (b ++ r) = ret (tt, r).

Lemma one_value_nonempty b : one_value b -> b <> [].
Proof. intros Hb ->. specialize (Hb []). destruct (skip_value_consumes _ _ Hb) as (p & Hp & Hne). by destruct p. Qed.

Lemma skip_marker w m p r : read_marker (w ++ r) = Some (m, p ++ r) -> skip_value (w ++ r) = skip_payload skip_values m (p ++ r).
Proof. intros Hm. rewrite skip_unfold. unfold lift. by rewrite Hm. Qed.

Lemma scalar_one w m p : (forall r, read_marker (w ++ r) = Some (m, p ++ r)) -> scalar m = Some (len p) -> one_value w.
Proof.
  intros Hm Hs r. rewrite (skip_marker w m p r (Hm r)).
  assert (forall n, len p = n -> discard n (p ++ r) = ret (tt, r)) as Hd by (intros n; apply discard_app).
  destruct m; cbn in Hs; try discriminate Hs; injection Hs as Hs; cbn [skip_payload]; try (by apply Hd);
    (destruct p; [done|]; unfold len in Hs; cbn in Hs; lia).
Qed.

Lemma blob_one h m p s : (forall r, read_marker (h ++ r) = Some (m, p ++ r)) -> blob_header m p (len s) -> one_value (h ++ s).
Proof.
  intros Hm Hb r. rewrite <- app_assoc, (skip_marker h m p _ (Hm _)).
  inversion Hb as [n Hn|m' p' n [-> | ->] Hp Hn|m' p' n [-> | ->] Hp Hn|m' p' n [-> | ->] Hp Hn]; subst; cbn [skip_payload app];
    rewrite ?(read_len_app _ p _ Hp); cbn; rewrite ?Hn; by apply discard_app.
Qed.

Lemma repeat_concat f bs r : Forall one_value bs -> (length bs <= f)%nat -> repeat_skip skip_value f (len bs) (concat bs ++ r) = ret (tt, r).
Proof.
  revert f. induction bs as [|b bs IH]; intros f Hbs Hf; [by destruct f|]. apply Forall_cons_iff in Hbs as [Hb Hbs]. cbn [length] in Hf.
  destruct f as [|f]; [lia|]. cbn [repeat_skip concat]. rewrite len_cons. pose proof (len_nonneg bs). destruct (Z.leb_spec (1 + len bs) 0); [lia|].
  rewrite <- app_assoc, Hb. cbn. replace (1 + len bs - 1) with (len bs) by lia. apply IH; [done|lia].
Qed.

Lemma concat_length bs : Forall one_value bs -> (length bs <= length (concat bs))%nat.
Proof.
  induction 1 as [|b bs Hb _ IH]; cbn; [done|]. rewrite length_app. apply one_value_nonempty in Hb. destruct b; [done|]. cbn. lia.
Qed.

Lemma skip_values_concat bs r n : Forall one_value bs -> n = len bs -> skip_values n (concat bs ++ r) = ret (tt, r).
Proof.
  intros Hbs ->. unfold skip_values. apply repeat_concat; [done|]. pose proof (concat_length bs Hbs). rewrite length_app. lia.
Qed.

Lemma array_one h m p bs :
  (forall r, read_marker (h ++ r) = Some (m, p ++ r)) -> array_header m p (len bs) -> Forall one_value bs -> one_value (h ++ concat bs).
Proof.
  intros Hm Ha Hbs r. rewrite <- app_assoc, (skip_marker h m p _ (Hm _)). inversion Ha as [n Hn|p' n Hp Hn|p' n Hp Hn]; subst; cbn [skip_payload app];
    rewrite ?(read_len_app _ p _ Hp); cbn; rewrite ?Hn; by apply skip_values_concat.
Qed.

(** The doubled length of a map must fit the integer that holds it. *)
Lemma map_one h m p bs n :
  (forall r, read_marker (h ++ r) = Some (m, p ++ r)) -> map_header m p n -> 0 <= n < 2 ^ 15 -> len bs = n * 2 -> Forall one_value bs -> one_value (h ++ concat bs).
Proof.
  intros Hm Ha Hn15 Hl Hbs r. rewrite <- app_assoc, (skip_marker h m p _ (Hm _)). inversion Ha as [n' Hs Hn|p' n' Hp Hn|p' n' Hp Hn]; subst; cbn [skip_payload app];
    rewrite ?(read_len_app _ p _ Hp); cbn [andThen ret];
    unfold chk_u16, chk_u32; rewrite chk_ok by (unfold u8_max, u16_max, u32_max; lia); cbn; by apply skip_values_concat.
Qed.

Lemma uint_one v : in_u 64 v -> one_value (write_uint v).
Proof. intros Hv. destruct (uint_wire v Hv) as (m & p & Hm & Hs). by apply (scalar_one _ m p). Qed.

(** Capturing copies the bytes of the value. *)
Lemma capture_one b r : one_value b -> capture_value (b ++ r) = ret (b, r).
Proof.
  intros Hb. unfold capture_value. rewrite Hb. cbn. rewrite length_app. replace (length b + length r - length r)%nat with (length b) by lia.
  by rewrite take_app_length.
Qed.

Lemma in_u_le w w' v : 0 <= w <= w' -> in_u w v -> in_u w' v.
Proof. unfold in_u. intros Hw Hv. pose proof (Z.pow_le_mono_r 2 w w' ltac:(lia) ltac:(lia)). lia. Qed.

Lemma read_u8_uint v r : in_u 8 v -> read_u8 (write_uint v ++ r) = ret (v, r).
Proof.
  intros Hv. unfold read_u8, lift. rewrite uint_read; [done|apply (in_u_le 8); [lia|done]|]. unfold in_u, u8_max in *. lia.
Qed.

(** A unit variant is its bare index, any other an array that starts with it. *)
Lemma enum_header_unit idx r : in_u 8 idx -> read_enum_header (write_uint idx ++ r) = ret ((idx, 1), r).
Proof.
  intros Hi. unfold read_enum_header, lift. unfold in_u in Hi. destruct (Z.ltb_spec idx (2 ^ 7)).
  - destruct (uint_fix idx r ltac:(lia)) as [-> Hm]. cbn [app]. by rewrite Hm.
  - rewrite uint_byte by lia. cbn. unfold read_exact. rewrite len_cons. pose proof (len_nonneg r).
    destruct (Z.leb_spec 1 (1 + len r)); [|lia]. change (take (Z.to_nat 1) (idx :: r)) with [idx]. cbn [andThen ret]. by rewrite from_be_single.
Qed.

Lemma enum_header_array n idx r : in_u 32 n -> in_u 8 idx -> read_enum_header (write_array_len n ++ write_uint idx ++ r) = ret ((idx, n), r).
Proof.
  intros Hn Hi. destruct (array_wire n Hn) as (m & p & Hm & Ha). unfold read_enum_header, lift. rewrite Hm.
  inversion Ha as [n' Hn'|p' n' Hp Hn'|p' n' Hp Hn']; subst; cbn [andThen ret app];
    rewrite ?(read_len_app _ p _ Hp); cbn [andThen ret]; by rewrite read_u8_uint.
Qed.

End Skip.
