(* ===== verification/ToxTypes.v ===== *)
(** The serializable types of [tox-proto/src/lib.rs].

    An implementation of the traits [ToxSize], [ToxSerialize] and
    [ToxDeserialize] for a Rust type is a value of [ToxType A], [A] being the type
    of its values; a generic implementation is a function of such values.  Integer
    types have values in [Z], byte strings and UTF-8 strings are byte lists,
    floating-point numbers their bits, durations and instants nanoseconds.

    [Vec::with_capacity] on a length read from the input may run out of memory;
    memory is not modelled. *)

From S2P Require Import Prelude MsgPack.
From stdpp Require Import gmap.
#[local] Open Scope Z_scope.
#[local] Open Scope list_scope.

(** [TimeProvider] as its two readings, and [ToxContext]. *)
Record TimeProvider := mkClock { now_instant : Z; now_system_ms : Z }.
Definition ToxContext : Type := option TimeProvider.
Definition empty_ctx : ToxContext := None.

(** [to_byte] and [from_byte] are what the [unsafe] conversions between [Vec<T>]
    and [Vec<u8>] do for a type of size one; [None] is undefined behaviour. *)
Record ToxType (A : Type) := mkType {
  SIZE : option Z;
  IS_BYTE_LIKE : bool;
  flat_len : A -> M Z;
  serialize : ToxContext -> A -> M bytes;
  serialize_flat : ToxContext -> A -> M bytes;
  deserialize : ToxContext -> reader A;
  deserialize_flat : ToxContext -> reader A;
  to_byte : A -> option Z;
  from_byte : Z -> option A
}.
Arguments mkType {A} _ _ _ _ _ _ _ _ _.
Arguments SIZE {A} _.
Arguments IS_BYTE_LIKE {A} _.
Arguments flat_len {A} _ _.
Arguments serialize {A} _ _ _.
Arguments serialize_flat {A} _ _ _.
Arguments deserialize {A} _ _ _.
Arguments deserialize_flat {A} _ _ _.
Arguments to_byte {A} _ _.
Arguments from_byte {A} _ _.

(** The default methods of the traits. *)
Definition default_flat_len {A} (size : option Z) (_ : A) : M Z := match size with Some n => ret n | None => panic end.
Definition no_flat_out {A} (_ : ToxContext) (_ : A) : M bytes := fail Serialize.
Definition no_flat_in {A} (_ : ToxContext) : reader A := fun _ => fail Deserialize.

(** Writing one part after another. *)
Definition and_write (m k : M bytes) : M bytes := let! a := m in let! b := k in ret (a ++ b).
Infix ">>>" := and_write (at level 60, right associativity) : proto_scope.
Definition write_all (b : bytes) : M bytes := ret b.

(** [for item in self { item.serialize(writer, ctx)?; }] *)
Fixpoint write_each {A} (f : A -> M bytes) (l : list A) : M bytes :=
  match l with [] => ret [] | a :: l => f a >>> write_each f l end.

(** [for _ in 0..n { vec.push(T::deserialize(reader, ctx)?); }] *)
Fixpoint read_times {A} (f : reader A) (n : nat) (rd : bytes) : M (list A * bytes) :=
  match n with
  | O => ret ([], rd)
  | S n => let! (a, rd) := f rd in let! (l, rd) := read_times f n rd in ret (a :: l, rd)
  end.

(** A conversion that may fail. *)
Definition convert {A B} (f : A -> option B) (m : M (A * bytes)) : M (B * bytes) :=
  let! (a, rd) := m in match f a with Some b => ret (b, rd) | None => fail Deserialize end.

Section Types.
Context `{Rmp}.

(** ** Pointers and locks: the value they hold *)

(** [&T], [Box<T>], [Arc<T>], [Mutex<T>] and [RwLock<T>]; locks are assumed not to
    be poisoned.  Their memory is not the value's, so the [unsafe] conversions are
    undefined. *)
Definition boxed {A} (T : ToxType A) : ToxType A :=
  mkType (SIZE T) (IS_BYTE_LIKE T) (default_flat_len (SIZE T)) (serialize T) (serialize_flat T) (deserialize T) (deserialize_flat T)
    (fun _ => None) (fun _ => None).

(** ** Integers, booleans, floating-point numbers, characters *)

(** [impl_rmp_int!] with [write_uint] for a type of [n] bytes. *)
Definition uint_type (n : nat) : ToxType Z :=
  mkType (Some (Z.of_nat n)) false (default_flat_len (Some (Z.of_nat n)))
    (fun _ v => ret (write_uint v)) (fun _ v => write_all (be_bytes n v))
    (fun _ => lift (read_int 0 (2 ^ (8 * Z.of_nat n) - 1)))
    (fun _ rd => let! (buf, rd) := read_exact (Z.of_nat n) rd in ret (from_be buf, rd))
    (fun v => Some v) (fun v => Some v).

(** [impl_rmp_int!] with [write_sint]. *)
Definition sint_type (n : nat) : ToxType Z :=
  mkType (Some (Z.of_nat n)) false (default_flat_len (Some (Z.of_nat n)))
    (fun _ v => ret (write_sint v)) (fun _ v => write_all (be_bytes n (wrap (8 * Z.of_nat n) v)))
    (fun _ => lift (read_int (- 2 ^ (8 * Z.of_nat n - 1)) (2 ^ (8 * Z.of_nat n - 1) - 1)))
    (fun _ rd => let! (buf, rd) := read_exact (Z.of_nat n) rd in ret (to_signed n (from_be buf), rd))
    (fun v => Some (wrap (8 * Z.of_nat n) v)) (fun v => Some (to_signed n v)).

Definition u8 : ToxType Z :=
  mkType (Some 1) true (default_flat_len (Some 1))
    (fun _ v => ret (write_uint v)) (fun _ v => write_all [v])
    (fun _ => lift (read_int 0 u8_max))
    (fun _ rd => let! (buf, rd) := read_exact 1 rd in ret (from_be buf, rd))
    (fun v => Some v) (fun v => Some v).
Definition u16 : ToxType Z := uint_type 2.
Definition u32 : ToxType Z := uint_type 4.
Definition u64 : ToxType Z := uint_type 8.
Definition usize : ToxType Z := uint_type 8.
Definition i8 : ToxType Z := sint_type 1.
Definition i16 : ToxType Z := sint_type 2.
Definition i32 : ToxType Z := sint_type 4.
Definition i64 : ToxType Z := sint_type 8.
Definition isize : ToxType Z := sint_type 8.

(** Floating-point numbers by their bits. *)
Definition f32 : ToxType Z :=
  mkType (Some 4) false (default_flat_len (Some 4))
    (fun _ v => ret (write_f32 v)) (fun _ v => write_all (be_bytes 4 v))
    (fun _ => lift read_f32)
    (fun _ rd => let! (buf, rd) := read_exact 4 rd in ret (from_be buf, rd))
    (fun _ => None) (fun _ => None).
Definition f64 : ToxType Z :=
  mkType (Some 8) false (default_flat_len (Some 8))
    (fun _ v => ret (write_f64 v)) (fun _ v => write_all (be_bytes 8 v))
    (fun _ => lift read_f64)
    (fun _ rd => let! (buf, rd) := read_exact 8 rd in ret (from_be buf, rd))
    (fun _ => None) (fun _ => None).

(** [char::from_u32] *)
Definition char_from_u32 (u : Z) : option Z :=
  if (u <? 0xD800) || ((0xE000 <=? u) && (u <=? 0x10FFFF)) then Some u else None.

Definition char_type : ToxType Z :=
  mkType (Some 4) false (default_flat_len (Some 4))
    (fun _ v => ret (write_uint v)) (fun _ v => write_all (be_bytes 4 v))
    (fun _ rd => convert char_from_u32 (lift (read_int 0 u32_max) rd))
    (fun _ rd => convert char_from_u32 (let! (buf, rd) := read_exact 4 rd in ret (from_be buf, rd)))
    (fun _ => None) (fun _ => None).

(** A [bool] in memory is zero or one; any other byte is no [bool]. *)
Definition bool_type : ToxType bool :=
  mkType (Some 1) false (default_flat_len (Some 1))
    (fun _ b => ret (write_bool b)) (fun _ b => write_all [if (b : bool) then 1 else 0])
    (fun _ => lift read_bool)
    (fun _ rd => let! (buf, rd) := read_exact 1 rd in ret (negb (from_be buf =? 0), rd))
    (fun b => Some (if (b : bool) then 1 else 0)) (fun v => if v =? 0 then Some false else if v =? 1 then Some true else None).

(** [u128], [i128]: binaries of sixteen bytes, least significant first. *)
Definition read_bin16 : reader bytes :=
  fun rd => let! (n, rd) := lift read_bin_len rd in if negb (n =? 16) then fail Deserialize else read_exact 16 rd.

Definition u128 : ToxType Z :=
  mkType (Some 16) false (default_flat_len (Some 16))
    (fun _ v => ret (write_bin (le_bytes 16 v))) (fun _ v => write_all (le_bytes 16 v))
    (fun _ rd => let! (buf, rd) := read_bin16 rd in ret (from_le buf, rd))
    (fun _ rd => let! (buf, rd) := read_exact 16 rd in ret (from_le buf, rd))
    (fun _ => None) (fun _ => None).
Definition i128 : ToxType Z :=
  mkType (Some 16) false (default_flat_len (Some 16))
    (fun _ v => ret (write_bin (le_bytes 16 (wrap 128 v)))) (fun _ v => write_all (le_bytes 16 (wrap 128 v)))
    (fun _ rd => let! (buf, rd) := read_bin16 rd in ret (to_signed 16 (from_le buf), rd))
    (fun _ rd => let! (buf, rd) := read_exact 16 rd in ret (to_signed 16 (from_le buf), rd))
    (fun _ => None) (fun _ => None).

(** ** Strings and byte arrays *)

(** A continuation byte of UTF-8. *)
Definition utf8_tail (b : Z) : bool := (0x80 <=? b) && (b <=? 0xBF).

(** [String::from_utf8] accepts well-formed UTF-8: shortest forms of code points
    other than the surrogates. *)
Fixpoint valid_utf8 (l : bytes) : bool :=
  match l with
  | [] => true
  | b :: l =>
      if (0 <=? b) && (b <=? 0x7F) then valid_utf8 l
      else
        match l with
        | b1 :: l =>
            if (0xC2 <=? b) && (b <=? 0xDF) then utf8_tail b1 && valid_utf8 l
            else
              match l with
              | b2 :: l =>
                  if (0xE0 <=? b) && (b <=? 0xEF) then
                    utf8_tail b1 && utf8_tail b2 && (negb (b =? 0xE0) || (0xA0 <=? b1)) && (negb (b =? 0xED) || (b1 <=? 0x9F)) && valid_utf8 l
                  else
                    match l with
                    | b3 :: l =>
                        (0xF0 <=? b) && (b <=? 0xF4) && utf8_tail b1 && utf8_tail b2 && utf8_tail b3 &&
                        (negb (b =? 0xF0) || (0x90 <=? b1)) && (negb (b =? 0xF4) || (b1 <=? 0x8F)) && valid_utf8 l
                    | [] => false
                    end
              | [] => false
              end
        | [] => false
        end
  end.
Definition from_utf8 (l : bytes) : option bytes := if valid_utf8 l then Some l else None.

(** [Read::read_to_end] *)
Definition read_to_end : reader bytes := fun rd => ret (rd, []).

Definition string_type : ToxType bytes :=
  mkType None true (fun s => ret (len s))
    (fun _ s => ret (write_str s)) (fun _ s => write_all s)
    (fun _ rd => let! (n, rd) := lift read_str_len rd in convert from_utf8 (read_exact n rd))
    (fun _ rd => convert from_utf8 (read_to_end rd))
    (fun _ => None) (fun _ => None).

(** [str] and [[u8]] are only written. *)
Definition serialize_str (s : bytes) : M bytes := ret (write_str s).
Definition serialize_slice (s : bytes) : M bytes := ret (write_bin s).

(** ** Sequences *)

(** The items of a [Vec<T>] as bytes, and back. *)
Definition as_bytes {A} (T : ToxType A) (l : list A) : M bytes := checked (mapM (to_byte T) l).
Definition from_bytes {A} (T : ToxType A) (b : bytes) : M (list A) := checked (mapM (from_byte T) b).

(** [while let Ok(item) = T::deserialize_flat(reader, ctx) { vec.push(item); }]; a
    read that fails leaves nothing to read.  An item of no bytes is read forever. *)
Fixpoint read_while {A} (f : reader A) (fuel : nat) (rd : bytes) : M (list A * bytes) :=
  match f rd with
  | None => panic
  | Some (Err _) => ret ([], [])
  | Some (Ok (a, rd)) =>
      match fuel with
      | O => panic
      | S fuel => let! (l, rd) := read_while f fuel rd in ret (a :: l, rd)
      end
  end.

(** [SmallVec<T, N>], [VecDeque<T>] and the general case of [Vec<T>]: an array. *)
Definition write_seq {A} (T : ToxType A) (ctx : ToxContext) (l : list A) : M bytes :=
  write_all (write_array_len (wrap 32 (len l))) >>> write_each (serialize T ctx) l.
Definition read_seq {A} (T : ToxType A) (ctx : ToxContext) : reader (list A) :=
  fun rd => let! (n, rd) := lift read_array_len rd in read_times (deserialize T ctx) (Z.to_nat n) rd.

Definition seq_type {A} (T : ToxType A) : ToxType (list A) :=
  mkType None false (default_flat_len None) (write_seq T) no_flat_out (read_seq T) no_flat_in (fun _ => None) (fun _ => None).

Definition is_byte_size {A} (T : ToxType A) : bool := bool_decide (SIZE T = Some 1).

Definition vec_type {A} (T : ToxType A) : ToxType (list A) :=
  mkType None (IS_BYTE_LIKE T)
    (fun l => match SIZE T with Some n => checked (chk_usize (len l * n)) | None => panic end)
    (fun ctx l => if is_byte_size T then let! b := as_bytes T l in ret (write_bin b) else write_seq T ctx l)
    (fun ctx l => match SIZE T with Some _ => write_each (serialize_flat T ctx) l | None => fail Serialize end)
    (fun ctx rd =>
       if is_byte_size T then
         let! (n, rd) := lift read_bin_len rd in
         let! (b, rd) := read_exact n rd in
         let! l := from_bytes T b in ret (l, rd)
       else read_seq T ctx rd)
    (fun ctx rd =>
       if is_byte_size T then let! (b, rd) := read_to_end rd in let! l := from_bytes T b in ret (l, rd)
       else match SIZE T with Some _ => read_while (deserialize_flat T ctx) (S (length rd)) rd | None => fail Deserialize end)
    (fun _ => None) (fun _ => None).

(** [[T; N]]; its values are lists of [n] items. *)
Definition array_type {A} (T : ToxType A) (n : nat) : ToxType (list A) :=
  let size := (fun s => s * Z.of_nat n) <$> SIZE T in
  mkType size (IS_BYTE_LIKE T) (default_flat_len size)
    (fun ctx l =>
       if is_byte_size T then let! b := as_bytes T l in ret (write_bin b)
       else write_all (write_array_len (wrap 32 (Z.of_nat n))) >>> write_each (serialize T ctx) l)
    (fun ctx l => write_each (serialize_flat T ctx) l)
    (fun ctx rd =>
       if is_byte_size T then
         let! (k, rd) := lift read_bin_len rd in
         if negb (k =? Z.of_nat n) then fail Deserialize
         else let! (b, rd) := read_exact (Z.of_nat n) rd in let! l := from_bytes T b in ret (l, rd)
       else
         let! (k, rd) := lift read_array_len rd in
         if negb (k =? Z.of_nat n) then fail Deserialize else read_times (deserialize T ctx) n rd)
    (fun ctx rd => read_times (deserialize_flat T ctx) n rd)
    (fun l => match l with [a] => to_byte T a | _ => None end) (fun v => (fun a => [a]) <$> from_byte T v).

(** ** Maps and sets

    [order] is the order in which the collection is iterated. *)

Definition write_pair {A B} (K : ToxType A) (V : ToxType B) (ctx : ToxContext) (kv : A * B) : M bytes :=
  serialize K ctx kv.1 >>> serialize V ctx kv.2.
Definition read_pair {A B} (K : ToxType A) (V : ToxType B) (ctx : ToxContext) : reader (A * B) :=
  fun rd => let! (k, rd) := deserialize K ctx rd in let! (v, rd) := deserialize V ctx rd in ret ((k, v), rd).

(** [HashMap<K, V, S>], [BTreeMap<K, V>] *)
Definition map_type {A B} `{Countable A} (K : ToxType A) (V : ToxType B) (order : gmap A B -> list (A * B)) : ToxType (gmap A B) :=
  mkType None false (default_flat_len None)
    (fun ctx m => write_all (write_map_len (wrap 32 (Z.of_nat (size m)))) >>> write_each (write_pair K V ctx) (order m))
    no_flat_out
    (fun ctx rd =>
       let! (n, rd) := lift read_map_len rd in
       let! (l, rd) := read_times (read_pair K V ctx) (Z.to_nat n) rd in
       ret (foldl (fun m kv => <[kv.1 := kv.2]> m) ∅ l, rd))
    no_flat_in (fun _ => None) (fun _ => None).

(** [HashSet<T, S>], [BTreeSet<T>] *)
Definition set_type {A} `{Countable A} (T : ToxType A) (order : gset A -> list A) : ToxType (gset A) :=
  mkType None false (default_flat_len None)
    (fun ctx s => write_all (write_array_len (wrap 32 (Z.of_nat (size s)))) >>> write_each (serialize T ctx) (order s))
    no_flat_out
    (fun ctx rd => let! (l, rd) := read_seq T ctx rd in ret (foldl (fun s a => {[a]} ∪ s) ∅ l, rd))
    no_flat_in (fun _ => None) (fun _ => None).

(** ** [Result], [Option] *)

Definition result_type {A E} (T : ToxType A) (U : ToxType E) : ToxType (result E A) :=
  mkType None false (default_flat_len None)
    (fun ctx r =>
       write_all (write_array_len 2) >>>
       match r with Ok v => serialize u8 ctx 1 >>> serialize T ctx v | Err e => serialize u8 ctx 0 >>> serialize U ctx e end)
    no_flat_out
    (fun ctx rd =>
       let! (n, rd) := lift read_array_len rd in
       if negb (n =? 2) then fail Deserialize
       else
         let! (variant, rd) := deserialize u8 ctx rd in
         if variant =? 1 then let! (v, rd) := deserialize T ctx rd in ret (Ok v, rd)
         else if variant =? 0 then let! (e, rd) := deserialize U ctx rd in ret (Err e, rd)
         else fail Deserialize)
    no_flat_in (fun _ => None) (fun _ => None).

Definition option_type {A} (T : ToxType A) : ToxType (option A) :=
  mkType None false (default_flat_len None)
    (fun ctx o => match o with Some v => write_all (write_array_len 1) >>> serialize T ctx v | None => write_all (write_array_len 0) end)
    no_flat_out
    (fun ctx rd =>
       let! (n, rd) := lift read_array_len rd in
       if n =? 0 then ret (None, rd)
       else if n =? 1 then let! (v, rd) := deserialize T ctx rd in ret (Some v, rd)
       else let! (_, rd) := skip_values n rd in ret (None, rd))
    no_flat_in (fun _ => None) (fun _ => None).

(** ** Time *)

(** A [Duration] is its nanoseconds, cut to 64 bits when read. *)
Definition duration_type : ToxType Z :=
  mkType (Some 16) false (default_flat_len (Some 16))
    (serialize u128) (serialize_flat u128)
    (fun ctx rd => let! (nanos, rd) := deserialize u128 ctx rd in ret (wrap 64 nanos, rd))
    (fun ctx rd => let! (nanos, rd) := deserialize_flat u128 ctx rd in ret (wrap 64 nanos, rd))
    (fun _ => None) (fun _ => None).

(** [i64::saturating_sub] *)
Definition i64_saturating_sub (a b : Z) : Z := Z.max i64_min (Z.min i64_max (a - b)).

(** An [Instant] counts nanoseconds on its clock, whose earliest value
    [instant_min] depends on the platform; it travels as its age in microseconds
    and the sender's wall clock. *)
Definition write_instant (ctx : ToxContext) (t : Z) : M bytes :=
  match ctx with
  | None => fail Serialize
  | Some tp =>
      let now_inst := now_instant tp in
      let now_sys := now_system_ms tp in
      let age_micros := if t <=? now_inst then - ((now_inst - t) / 1000) else (t - now_inst) / 1000 in
      write_all (write_array_len 2) >>> serialize i128 ctx age_micros >>> serialize i64 ctx now_sys
  end.

Definition read_instant (instant_min : Z) (ctx : ToxContext) : reader Z :=
  fun rd =>
  match ctx with
  | None => fail Deserialize
  | Some tp =>
      let! (n, rd) := lift read_array_len rd in
      if negb (n =? 2) then fail Deserialize
      else
        let! (age_micros, rd) := deserialize i128 ctx rd in
        let! (system_time_at_send, rd) := deserialize i64 ctx rd in
        let now_inst := now_instant tp in
        let now_sys := now_system_ms tp in
        let time_passed_ms := i64_saturating_sub now_sys system_time_at_send in
        let! adjusted_age_micros := checked (chk (- 2 ^ 127) (2 ^ 127 - 1) (age_micros - time_passed_ms * 1000)) in
        if 0 <=? adjusted_age_micros then ret (now_inst, rd)
        else
          let! opposite := checked (chk (- 2 ^ 127) (2 ^ 127 - 1) (- adjusted_age_micros)) in
          let ago := wrap 64 opposite * 1000 in
          ret ((if instant_min <=? now_inst - ago then now_inst - ago else now_inst), rd)
  end.

Definition instant_type (instant_min : Z) : ToxType Z :=
  mkType None false (default_flat_len None) write_instant no_flat_out (read_instant instant_min) no_flat_in (fun _ => None) (fun _ => None).

(** [Arc<dyn TimeProvider>]: nothing on the wire, taken from the context. *)
Definition time_provider_type : ToxType TimeProvider :=
  mkType None false (default_flat_len None) (fun _ _ => ret []) no_flat_out
    (fun ctx rd => match ctx with Some tp => ret (tp, rd) | None => fail Deserialize end)
    no_flat_in (fun _ => None) (fun _ => None).

(** ** Entry points *)

Definition serialize_with_ctx {A} (T : ToxType A) (val : A) (ctx : ToxContext) : M bytes := serialize T ctx val.
Definition to_vec {A} (T : ToxType A) (val : A) : M bytes := serialize_with_ctx T val empty_ctx.
Definition deserialize_with_ctx {A} (T : ToxType A) (b : bytes) (ctx : ToxContext) : M A :=
  let! (a, _) := deserialize T ctx b in ret a.
Definition from_slice {A} (T : ToxType A) (b : bytes) : M A := deserialize_with_ctx T b empty_ctx.

End Types.
