(* ===== verification/Derive.v ===== *)
(** The implementations that the derive macros of [tox-proto-derive/src] write for
    structs and enums ([size.rs], [serialize.rs], [deserialize.rs]).

    The generated code depends on the list of the fields that are not marked
    [#[tox(skip)]] ([fields], over the nested pairs of their values) and on how a
    struct is taken apart and built (skipped fields get their default when
    built); an enum is the list of its variants in the order of the source. *)

From S2P Require Import Prelude MsgPack ToxTypes.
#[local] Open Scope Z_scope.
#[local] Open Scope list_scope.

(** The types of the fields. *)
Inductive fields : Type -> Type :=
| FNil : fields unit
| FCons {A B} (T : ToxType A) (fs : fields B) : fields (A * B).

(** One method for each field, in order. *)
Fixpoint write_fields (m : forall A, ToxType A -> A -> M bytes) {T} (fs : fields T) : T -> M bytes :=
  match fs with
  | FNil => fun _ => ret []
  | FCons F fs => fun v => m _ F v.1 >>> write_fields m fs v.2
  end.
Fixpoint read_fields (m : forall A, ToxType A -> reader A) {T} (fs : fields T) : reader T :=
  match fs with
  | FNil => fun rd => ret (tt, rd)
  | FCons F fs => fun rd => let! (a, rd) := m _ F rd in let! (b, rd) := read_fields m fs rd in ret ((a, b), rd)
  end.

Fixpoint field_count {T} (fs : fields T) : Z := match fs with FNil => 0 | FCons _ fs => 1 + field_count fs end.

(** [size.rs]: the sum of the sizes, whether all fields are byte-like. *)
Fixpoint sum_sizes {T} (fs : fields T) : option Z :=
  match fs with
  | FNil => Some 0
  | FCons F fs => match SIZE F, sum_sizes fs with Some s1, Some s2 => Some (s1 + s2) | _, _ => None end
  end.
Fixpoint all_byte_like {T} (fs : fields T) : bool :=
  match fs with FNil => true | FCons F fs => IS_BYTE_LIKE F && all_byte_like fs end.

(** Rule 2: the sizes of all fields but the last, which must be fixed, and the
    [flat_len] of the last. *)
Fixpoint concatenated_len {T} (fs : fields T) : T -> M Z :=
  match fs with
  | FNil => fun _ => panic
  | FCons F fs =>
      match fs with
      | FNil => fun v => flat_len F v.1
      | FCons _ _ => fun v => match SIZE F with Some n => let! k := concatenated_len fs v.2 in checked (chk_usize (n + k)) | None => panic end
      end
  end.

Section Derived.
Context `{Rmp}.

(** ** Structs *)

Section Struct.
Context {S T : Type} (fs : fields T) (get : S -> T) (make : T -> S).

Definition serialize_fields (ctx : ToxContext) (s : S) : M bytes := write_fields (fun A F => serialize F ctx) fs (get s).
Definition serialize_flat_fields (ctx : ToxContext) (s : S) : M bytes := write_fields (fun A F => serialize_flat F ctx) fs (get s).
Definition deserialize_flat_fields (ctx : ToxContext) : reader S :=
  fun rd => let! (v, rd) := read_fields (fun A F => deserialize_flat F ctx) fs rd in ret (make v, rd).

(** An array of the fields. *)
Definition serialize_array (ctx : ToxContext) (s : S) : M bytes :=
  write_all (write_array_len (wrap 32 (field_count fs))) >>> serialize_fields ctx s.

(** At least the fields that are expected; more are skipped. *)
Definition deserialize_array (ctx : ToxContext) : reader S :=
  fun rd =>
    let! (n, rd) := lift read_array_len rd in
    if n <? field_count fs then fail Deserialize
    else
      let! (v, rd) := read_fields (fun A F => deserialize F ctx) fs rd in
      let! (_, rd) := skip_values (n - field_count fs) rd in
      ret (make v, rd).

Definition derive_struct : ToxType S :=
  mkType None false (default_flat_len None) serialize_array serialize_flat_fields deserialize_array deserialize_flat_fields
    (fun _ => None) (fun _ => None).

(** Rule 2 of [#[tox(flat)]]: one binary of all fields. *)
Definition serialize_concatenated (ctx : ToxContext) (s : S) : M bytes :=
  let! total_size := concatenated_len fs (get s) in
  write_all (write_bin_len (wrap 32 total_size)) >>> serialize_flat_fields ctx s.

(** The fields are read from the binary only; what they leave of it is dropped. *)
Definition deserialize_concatenated (ctx : ToxContext) : reader S :=
  fun rd =>
    let! (bin_len, rd) := lift read_bin_len rd in
    let! (s, _) := deserialize_flat_fields ctx (take (Z.to_nat bin_len) rd) in
    ret (s, drop (Z.to_nat bin_len) rd).

(** [#[tox(flat)]] on a struct of several fields. *)
Definition derive_flat_struct : ToxType S :=
  mkType (sum_sizes fs) (all_byte_like fs) (default_flat_len (sum_sizes fs))
    (fun ctx s => if all_byte_like fs then serialize_concatenated ctx s else serialize_array ctx s)
    serialize_flat_fields
    (fun ctx rd => if all_byte_like fs then deserialize_concatenated ctx rd else deserialize_array ctx rd)
    deserialize_flat_fields
    (fun _ => None) (fun _ => None).

End Struct.

(** [#[tox(flat)]] on a struct of one field (rule 1), and [#[tox(bits)]]: the field
    itself. *)
Definition derive_transparent {S A} (F : ToxType A) (get : S -> A) (make : A -> S) : ToxType S :=
  mkType (SIZE F) (IS_BYTE_LIKE F) (default_flat_len (SIZE F))
    (fun ctx s => serialize F ctx (get s)) (fun ctx s => serialize_flat F ctx (get s))
    (fun ctx rd => let! (a, rd) := deserialize F ctx rd in ret (make a, rd))
    (fun ctx rd => let! (a, rd) := deserialize_flat F ctx rd in ret (make a, rd))
    (fun s => to_byte F (get s)) (fun v => make <$> from_byte F v).

(** Tuples ([impl_tox_tuple!]): an array whose length must match. *)
Definition tuple_type {T} (fs : fields T) : ToxType T :=
  mkType (sum_sizes fs) (all_byte_like fs) (default_flat_len (sum_sizes fs))
    (fun ctx v => write_all (write_array_len (wrap 32 (field_count fs))) >>> write_fields (fun A F => serialize F ctx) fs v)
    (fun ctx v => write_fields (fun A F => serialize_flat F ctx) fs v)
    (fun ctx rd =>
       let! (n, rd) := lift read_array_len rd in
       if negb (n =? field_count fs) then fail Deserialize else read_fields (fun A F => deserialize F ctx) fs rd)
    (fun ctx => read_fields (fun A F => deserialize_flat F ctx) fs)
    (fun _ => None) (fun _ => None).

(** ** Enums *)

(** An arm of the generated matches: [v_serialize] is [None] on values of other
    variants; [v_deserialize] is given the length of the header. *)
Record variant (S : Type) := mkVariant {
  v_tag : Z;
  v_serialize : ToxContext -> S -> option (M bytes);
  v_deserialize : ToxContext -> Z -> reader S
}.
Arguments mkVariant {S} _ _ _.
Arguments v_tag {S} _.
Arguments v_serialize {S} _ _ _.
Arguments v_deserialize {S} _ _ _ _.

Definition unit_variant {S} (tag : Z) (matches : S -> bool) (s : S) : variant S :=
  mkVariant tag
    (fun ctx x => if matches x then Some (serialize u8 ctx tag) else None)
    (fun ctx n rd => if negb (n =? 1) then fail Deserialize else ret (s, rd)).

(** A payload of one field. *)
Definition single_variant {S A} (tag : Z) (F : ToxType A) (proj : S -> option A) (inj : A -> S) : variant S :=
  mkVariant tag
    (fun ctx x => (fun a => write_all (write_array_len 2) >>> serialize u8 ctx tag >>> serialize F ctx a) <$> proj x)
    (fun ctx n rd =>
       if negb (n =? 2) then fail Deserialize
       else let! (a, rd) := deserialize F ctx rd in ret (inj a, rd)).

(** A payload of several fields, in an array of its own. *)
Definition multi_variant {S T} (tag : Z) (fs : fields T) (proj : S -> option T) (inj : T -> S) : variant S :=
  mkVariant tag
    (fun ctx x =>
       (fun v => write_all (write_array_len 2) >>> serialize u8 ctx tag >>>
                 write_all (write_array_len (field_count fs)) >>> write_fields (fun A F => serialize F ctx) fs v) <$> proj x)
    (fun ctx n rd =>
       if negb (n =? 2) then fail Deserialize
       else
         let! (inner_len, rd) := lift read_array_len rd in
         if inner_len <? field_count fs then fail Deserialize
         else
           let! (v, rd) := read_fields (fun A F => deserialize F ctx) fs rd in
           let! (_, rd) := skip_values (inner_len - field_count fs) rd in
           ret (inj v, rd)).

(** [#[tox(catch_all)]]: variants that are not known keep their index and bytes. *)
Record catch_all (S : Type) := mkCatch { c_proj : S -> option (Z * bytes); c_inj : Z -> bytes -> S }.
Arguments mkCatch {S} _ _.
Arguments c_proj {S} _ _.
Arguments c_inj {S} _ _ _.

Definition serialize_unknown (ctx : ToxContext) (discriminant : Z) (data : bytes) : M bytes :=
  match data with
  | [] => serialize u8 ctx (wrap 8 discriminant)
  | _ => write_all (write_array_len 2) >>> serialize u8 ctx (wrap 8 discriminant) >>> write_all data
  end.

(** [for _ in 1..len { data.extend(capture_value(reader)?); }] *)
Definition capture_values (n : Z) : reader bytes :=
  fun rd => let! (l, rd) := read_times capture_value (Z.to_nat n) rd in ret (concat l, rd).

(** The arm of a value; the matches of the source are exhaustive. *)
Fixpoint serialize_enum {S} (vs : list (variant S)) (other : option (catch_all S)) (ctx : ToxContext) (s : S) : M bytes :=
  match vs with
  | v :: vs => match v_serialize v ctx s with Some m => m | None => serialize_enum vs other ctx s end
  | [] =>
      match other with
      | Some c => match c_proj c s with Some (discriminant, data) => serialize_unknown ctx discriminant data | None => panic end
      | None => panic
      end
  end.

Definition deserialize_enum {S} (vs : list (variant S)) (other : option (catch_all S)) (ctx : ToxContext) : reader S :=
  fun rd =>
    let! (idx, n, rd) := read_enum_header rd in
    match List.find (fun v => v_tag v =? idx) vs with
    | Some v => v_deserialize v ctx n rd
    | None =>
        match other with
        | Some c => let! (data, rd) := capture_values (n - 1) rd in ret (c_inj c idx data, rd)
        | None => fail Deserialize
        end
    end.

Definition derive_enum {S} (vs : list (variant S)) (other : option (catch_all S)) : ToxType S :=
  mkType None false (default_flat_len None) (serialize_enum vs other) no_flat_out (deserialize_enum vs other) no_flat_in
    (fun _ => None) (fun _ => None).

End Derived.
Arguments mkVariant {S} _ _ _.
Arguments v_tag {S} _.
Arguments v_serialize {S} _ _ _.
Arguments v_deserialize {S} _ _ _ _.
Arguments mkCatch {S} _ _.
Arguments c_proj {S} _ _.
Arguments c_inj {S} _ _ _.
