(* ===== verification/ToxTheory.v ===== *)
(** Round trips of the serializable types.

    [lawful T ok]: every value that satisfies [ok] is written as the bytes of one
    MessagePack value, and reading these bytes in front of anything returns the
    value and leaves the rest.  The generic implementations preserve it. *)

From S2P Require Import Prelude MsgPack MsgPackTheory ToxTypes.
From stdpp Require Import gmap.
#[local] Open Scope Z_scope.
#[local] Open Scope list_scope.

Section Laws.
Context `{RmpLaws}.

(** The bytes [b] stand for [a]. *)
Definition encodes {A} (T : ToxType A) (ctx : ToxContext) (a : A) (b : bytes) : Prop :=
  serialize T ctx a = ret b /\ (forall r, deserialize T ctx (b ++ r) = ret (a, r)) /\ one_value b.

Definition lawful {A} (T : ToxType A) (ok : A -> Prop) : Prop := forall ctx a, ok a -> exists b, encodes T ctx a b.

(** The flat form of a type of fixed size. *)
Record fixed {A} (T : ToxType A) (ok : A -> Prop) : Prop := {
  fixed_range n : SIZE T = Some n -> 0 <= n;
  fixed_flat n ctx a : SIZE T = Some n -> ok a ->
    exists b, serialize_flat T ctx a = ret b /\ len b = n /\ forall r, deserialize_flat T ctx (b ++ r) = ret (a, r);
  fixed_read n ctx rd : SIZE T = Some n ->
    (exists e, deserialize_flat T ctx rd = fail e) \/ exists a r, deserialize_flat T ctx rd = ret (a, r) /\ len rd = n + len r
}.

Lemma fixed_short {A} (T : ToxType A) ok n ctx rd : fixed T ok -> SIZE T = Some n -> len rd < n -> exists e, deserialize_flat T ctx rd = fail e.
Proof.
  intros HT Hn Hl. destruct (fixed_read T ok HT n ctx rd Hn) as [?|(a & r & _ & E)]; [done|]. pose proof (len_nonneg r). lia.
Qed.

(** The [unsafe] conversions of a type of one byte. *)
Definition bytewise {A} (T : ToxType A) (ok : A -> Prop) : Prop :=
  SIZE T = Some 1 -> forall a, ok a -> exists c, to_byte T a = Some c /\ from_byte T c = Some a /\ forall ctx, serialize_flat T ctx a = ret [c].

Lemma bytewise_wide {A} (T : ToxType A) ok : SIZE T <> Some 1 -> bytewise T ok.
Proof. by intros Hn Hs. Qed.

Lemma lawful_weaken {A} (T : ToxType A) (P Q : A -> Prop) : (forall a, Q a -> P a) -> lawful T P -> lawful T Q.
Proof. intros Hpq Hl ctx a Ha. by apply Hl, Hpq. Qed.

(** ** Sequencing *)

Lemma write_then a b k : k = ret b -> write_all a >>> k = ret (a ++ b).
Proof. by intros ->. Qed.

Lemma each_spec {A} (f : A -> M bytes) (g : reader A) (P : bytes -> Prop) l :
  (forall a, a ∈ l -> exists b, f a = ret b /\ (forall r, g (b ++ r) = ret (a, r)) /\ P b) ->
  exists bs, write_each f l = ret (concat bs) /\ length bs = length l /\ Forall P bs /\
    forall r, read_times g (length l) (concat bs ++ r) = ret (l, r).
Proof.
  induction l as [|a l IH]; intros Hl; [by exists []|].
  destruct (Hl a ltac:(left)) as (b & Ef & Eg & Hp). destruct IH as (bs & E & Hlen & HP & Hr); [intros x Hx; apply Hl; by right|].
  exists (b :: bs). cbn [write_each concat length]. rewrite Ef, E. split_and!; [done|by rewrite Hlen|by constructor|].
  intros r. cbn [read_times]. rewrite <- app_assoc, Eg. cbn. by rewrite Hr.
Qed.

Lemma each_lawful {A} (T : ToxType A) ok ctx l : lawful T ok -> Forall ok l ->
  exists bs, write_each (serialize T ctx) l = ret (concat bs) /\ length bs = length l /\ Forall one_value bs /\
    forall r, read_times (deserialize T ctx) (length l) (concat bs ++ r) = ret (l, r).
Proof.
  intros Hl Hok. apply each_spec. intros a Ha. rewrite Forall_forall in Hok. destruct (Hl ctx a (Hok a Ha)) as (b & ? & ? & ?). by exists b.
Qed.

(** A length field and what it counts. *)
Definition short {A} (l : list A) : Prop := len l <= u32_max.

Lemma short_u32 {A} (l : list A) : short l -> in_u 32 (len l).
Proof. unfold short, in_u, u32_max. pose proof (len_nonneg l). lia. Qed.

Lemma wrap_short {A} (l : list A) : short l -> wrap 32 (len l) = len l.
Proof. intros Hl%short_u32. unfold wrap. by apply Z.mod_small. Qed.

Lemma array_value bs n : in_u 32 n -> n = len bs -> Forall one_value bs -> one_value (write_array_len n ++ concat bs).
Proof. intros Hn -> Hbs. destruct (array_wire (len bs) Hn) as (m & p & Hm & Ha). by apply (array_one _ m p). Qed.

Lemma bin_value s : short s -> one_value (write_bin s).
Proof.
  intros Hs. rewrite bin_bytes by done. destruct (bin_wire (len s) (short_u32 s Hs)) as (m & p & Hm & Hb). by apply (blob_one _ m p).
Qed.

(** ** Primitives *)

Lemma u64_of n v : (n <= 8)%nat -> in_u (8 * Z.of_nat n) v -> in_u 64 v.
Proof. intros Hn. apply in_u_le. lia. Qed.

Lemma uint_lawful n : (n <= 8)%nat -> lawful (uint_type n) (in_u (8 * Z.of_nat n)).
Proof.
  intros Hn ctx v Hv. exists (write_uint v). pose proof (u64_of n v Hn Hv). split; [done|]. split; [|by apply uint_one].
  intros r. cbn. unfold lift. rewrite uint_read; [done|done|]. unfold in_u in Hv. lia.
Qed.

Lemma u8_lawful : lawful u8 (in_u 8).
Proof. intros ctx v Hv. exact (uint_lawful 1 ltac:(lia) ctx v Hv). Qed.

Lemma sint_lawful n : (0 < n <= 8)%nat -> lawful (sint_type n) (fun v => - 2 ^ (8 * Z.of_nat n - 1) <= v < 2 ^ (8 * Z.of_nat n - 1)).
Proof.
  intros Hn ctx v Hv. exists (write_sint v). pose proof (Z.pow_le_mono_r 2 (8 * Z.of_nat n - 1) 63 ltac:(lia) ltac:(lia)).
  assert (i64_min <= v <= i64_max) as H64 by (unfold i64_min, i64_max; lia). split; [done|]. split.
  - intros r. cbn. unfold lift. rewrite sint_read; [done|done|lia].
  - destruct (sint_wire v H64) as (m & p & Hm & Hs). by apply (scalar_one _ m p).
Qed.

Lemma bool_lawful : lawful bool_type (fun _ => True).
Proof.
  intros ctx b _. exists (write_bool b). split; [done|]. split; [intros r; cbn; unfold lift; by rewrite bool_read|].
  destruct (bool_wire b) as (m & p & Hm & Hs). by apply (scalar_one _ m p).
Qed.

Lemma f32_lawful : lawful f32 (in_u 32).
Proof.
  intros ctx v Hv. exists (write_f32 v). split; [done|]. split; [intros r; cbn; unfold lift; by rewrite f32_read|].
  destruct (f32_wire v Hv) as (m & p & Hm & Hs). by apply (scalar_one _ m p).
Qed.

Lemma f64_lawful : lawful f64 (in_u 64).
Proof.
  intros ctx v Hv. exists (write_f64 v). split; [done|]. split; [intros r; cbn; unfold lift; by rewrite f64_read|].
  destruct (f64_wire v Hv) as (m & p & Hm & Hs). by apply (scalar_one _ m p).
Qed.

(** The Unicode scalar values. *)
Definition scalar_value (v : Z) : Prop := 0 <= v < 0xD800 \/ 0xE000 <= v <= 0x10FFFF.

Lemma char_ok v : scalar_value v -> char_from_u32 v = Some v.
Proof.
  intros Hv. unfold char_from_u32. destruct (Z.ltb_spec v 0xD800), (Z.leb_spec 0xE000 v), (Z.leb_spec v 0x10FFFF); cbn; try done;
    unfold scalar_value in Hv; lia.
Qed.

Lemma char_lawful : lawful char_type scalar_value.
Proof.
  intros ctx v Hv. exists (write_uint v). assert (in_u 64 v) as H64 by (unfold in_u, scalar_value in *; lia). split; [done|]. split; [|by apply uint_one].
  intros r. cbn. unfold lift. rewrite uint_read; [|done|unfold scalar_value, u32_max in *; lia]. unfold convert. cbn. by rewrite char_ok.
Qed.

Lemma bin16_value l : length l = 16%nat -> (forall r, read_bin16 (write_bin l ++ r) = ret (l, r)) /\ one_value (write_bin l).
Proof.
  intros Hl. assert (len l = 16) as Hz by (unfold len; by rewrite Hl). assert (short l) as Hs by (unfold short, u32_max; lia).
  split; [|by apply bin_value]. intros r. unfold read_bin16, lift. rewrite bin_bytes, Hz by done. rewrite <- app_assoc, bin_read by (unfold in_u; lia).
  cbn. rewrite <- Hz. apply read_exact_app.
Qed.

Lemma u128_lawful : lawful u128 (in_u 128).
Proof.
  intros ctx v Hv. exists (write_bin (le_bytes 16 v)). destruct (bin16_value (le_bytes 16 v)) as [Hr H1]; [apply le_bytes_length|].
  split; [done|]. split; [|done]. intros r. cbn -[le_bytes]. rewrite Hr. cbn -[le_bytes]. by rewrite from_le_bytes.
Qed.

Lemma i128_lawful : lawful i128 (fun v => - 2 ^ 127 <= v < 2 ^ 127).
Proof.
  intros ctx v Hv. exists (write_bin (le_bytes 16 (wrap 128 v))). destruct (bin16_value (le_bytes 16 (wrap 128 v))) as [Hr H1]; [apply le_bytes_length|].
  split; [done|]. split; [|done]. intros r. cbn -[le_bytes to_signed wrap]. rewrite Hr. cbn -[le_bytes to_signed wrap]. rewrite from_le_bytes by (apply Z.mod_pos_bound; lia).
  change 128 with (8 * Z.of_nat 16). rewrite to_signed_wrap; [done|lia|]. exact Hv.
Qed.

Lemma string_lawful : lawful string_type (fun s => short s /\ valid_utf8 s = true).
Proof.
  intros ctx s [Hs Hu]. destruct (str_bytes s Hs) as (h & m & p & E & Hr & Hm & Hb). exists (write_str s). split; [done|]. rewrite E. split.
  - intros r. cbn. unfold lift. rewrite <- app_assoc, Hr. cbn. rewrite read_exact_app. unfold convert, from_utf8. cbn. by rewrite Hu.
  - by apply (blob_one _ m p).
Qed.

(** *** Flat forms *)

Lemma read_exact_cases n rd : 0 <= n -> read_exact n rd = fail Io \/ exists b r, read_exact n rd = ret (b, r) /\ len b = n /\ len rd = n + len r.
Proof.
  intros Hn. unfold read_exact. destruct (Z.leb_spec n (len rd)) as [Hl|]; [right|by left]. eexists _, _. split; [done|].
  unfold len in *. rewrite length_take, length_drop. lia.
Qed.

Lemma fixed_of {A} (T : ToxType A) ok n (enc : A -> bytes) (dec : bytes -> result Error A) :
  SIZE T = Some n -> 0 <= n -> (forall ctx a, serialize_flat T ctx a = ret (enc a)) -> (forall a, ok a -> len (enc a) = n /\ dec (enc a) = Ok a) ->
  (forall ctx rd, deserialize_flat T ctx rd = let! (buf, rd) := read_exact n rd in let! a := Some (dec buf) in ret (a, rd)) -> fixed T ok.
Proof.
  intros Hn H0' Hs He Hd. split.
  - intros m E. by simplify_eq.
  - intros m ctx a E Ha. assert (m = n) as -> by congruence. destruct (He a Ha) as [Hl Hdec]. exists (enc a). split; [done|]. split; [done|].
    intros r. rewrite Hd, <- Hl, read_exact_app. cbn. by rewrite Hdec.
  - intros m ctx rd E. assert (m = n) as -> by congruence. rewrite Hd. destruct (read_exact_cases n rd H0') as [->|(b & r & -> & _ & Hl)]; [left; by exists Io|]. cbn.
    destruct (dec b) as [a|e]; [right; by exists a, r|left; by exists e].
Qed.

Lemma uint_fixed n : fixed (uint_type n) (in_u (8 * Z.of_nat n)).
Proof.
  apply (fixed_of _ _ (Z.of_nat n) (be_bytes n) (fun buf => Ok (from_be buf))); try done; [lia|].
  intros v Hv. rewrite from_be_bytes by done. unfold len. by rewrite be_bytes_length.
Qed.

Lemma u8_fixed : fixed u8 (in_u 8).
Proof.
  apply (fixed_of _ _ 1 (fun v => [v]) (fun buf => Ok (from_be buf))); try done. intros v Hv. by rewrite from_be_single.
Qed.

Lemma sint_fixed n : (0 < n)%nat -> fixed (sint_type n) (fun v => - 2 ^ (8 * Z.of_nat n - 1) <= v < 2 ^ (8 * Z.of_nat n - 1)).
Proof.
  intros Hn. apply (fixed_of _ _ (Z.of_nat n) (fun v => be_bytes n (wrap (8 * Z.of_nat n) v)) (fun buf => Ok (to_signed n (from_be buf)))); try done; [lia|].
  intros v Hv. split; [unfold len; by rewrite be_bytes_length|]. rewrite from_be_bytes by (apply Z.mod_pos_bound, Z.pow_pos_nonneg; lia). by rewrite to_signed_wrap.
Qed.

Lemma bool_fixed : fixed bool_type (fun _ => True).
Proof.
  apply (fixed_of _ _ 1 (fun b => [if (b : bool) then 1 else 0]) (fun buf => Ok (negb (from_be buf =? 0)))); try done.
  intros b _. rewrite from_be_single. by destruct b.
Qed.

Lemma char_fixed : fixed char_type scalar_value.
Proof.
  apply (fixed_of _ _ 4 (be_bytes 4) (fun buf => match char_from_u32 (from_be buf) with Some b => Ok b | None => Err Deserialize end)); try done.
  - intros v Hv. split; [done|]. rewrite from_be_bytes by (unfold scalar_value in Hv; lia). by rewrite char_ok.
  - intros ctx rd. cbn. unfold convert. destruct (read_exact 4 rd) as [[[buf r]|]|]; try done. cbn. by destruct (char_from_u32 (from_be buf)).
Qed.

Lemma u128_fixed : fixed u128 (in_u 128).
Proof.
  apply (fixed_of _ _ 16 (le_bytes 16) (fun buf => Ok (from_le buf))); try done. intros v Hv. rewrite from_le_bytes by done.
  unfold len. by rewrite le_bytes_length.
Qed.

Lemma u8_bytewise ok : bytewise u8 ok.
Proof. intros _ a _. by exists a. Qed.

Lemma i8_bytewise : bytewise i8 (fun v => - 2 ^ 7 <= v < 2 ^ 7).
Proof.
  intros _ a Ha. exists (wrap 8 a). split_and!; [done| |].
  - cbn -[to_signed wrap]. f_equal. change 8 with (8 * Z.of_nat 1). apply to_signed_wrap; [lia|exact Ha].
  - intros ctx. cbn -[wrap]. unfold write_all, wrap. by rewrite Z.mod_mod by lia.
Qed.

Lemma bool_bytewise : bytewise bool_type (fun _ => True).
Proof. intros _ b _. by destruct b; eexists. Qed.

(** ** Sequences *)

Lemma seq_wire {A} (T : ToxType A) ok ctx l : lawful T ok -> short l -> Forall ok l ->
  exists b, write_seq T ctx l = ret b /\ (forall r, read_seq T ctx (b ++ r) = ret (l, r)) /\ one_value b.
Proof.
  intros HT Hs Hl. destruct (each_lawful T ok ctx l HT Hl) as (bs & Ew & Hlen & Hbs & Hr). pose proof (short_u32 l Hs) as Hu.
  exists (write_array_len (len l) ++ concat bs). unfold write_seq, read_seq. rewrite wrap_short by done. split; [by apply write_then|]. split.
  - intros r. unfold lift. rewrite <- app_assoc, array_read by done. cbn. unfold len. by rewrite Nat2Z.id, Hr.
  - apply array_value; [done|unfold len; by rewrite Hlen|done].
Qed.

Lemma seq_lawful {A} (T : ToxType A) ok : lawful T ok -> lawful (seq_type T) (fun l => short l /\ Forall ok l).
Proof. intros HT ctx l [Hs Hl]. destruct (seq_wire T ok ctx l HT Hs Hl) as (b & ? & ? & ?). by exists b. Qed.

Lemma mapM_bytes {A} (T : ToxType A) ok l : bytewise T ok -> SIZE T = Some 1 -> Forall ok l ->
  exists b, as_bytes T l = ret b /\ len b = len l /\ from_bytes T b = ret l.
Proof.
  intros Hb H1 Hl. unfold as_bytes, from_bytes. assert (exists b, mapM (to_byte T) l = Some b /\ length b = length l /\ mapM (from_byte T) b = Some l) as (b & -> & Hlen & E).
  { induction Hl as [|a l Ha _ (b & E1 & E2 & E3)]; [by exists []|]. destruct (Hb H1 a Ha) as (c & Ec & Ed & _). exists (c :: b). cbn [mapM length].
    rewrite Ec, E1, E2. cbn. by rewrite Ed, E3. }
  exists b. unfold len. rewrite Hlen, E. done.
Qed.

(** A binary of items of one byte. *)
Lemma bytes_wire {A} (T : ToxType A) ok l : bytewise T ok -> SIZE T = Some 1 -> Forall ok l -> short l ->
  exists b, as_bytes T l = ret b /\ from_bytes T b = ret l /\ len b = len l /\ one_value (write_bin b) /\
    forall r, write_bin b ++ r = write_bin_len (len l) ++ b ++ r.
Proof.
  intros Hb H1 Hl Hs. destruct (mapM_bytes T ok l Hb H1 Hl) as (b & E1 & E2 & E3). exists b. assert (short b) by (unfold short; by rewrite E2).
  split_and!; try done; [by apply bin_value|]. intros r. by rewrite bin_bytes, E2, <- app_assoc.
Qed.

Lemma vec_bytes_lawful {A} (T : ToxType A) ok : SIZE T = Some 1 -> bytewise T ok -> lawful (vec_type T) (fun l => short l /\ Forall ok l).
Proof.
  intros Hone Hb ctx l [Hs Hl]. unfold encodes. cbn. unfold is_byte_size. rewrite bool_decide_true by done.
  destruct (bytes_wire T ok l Hb Hone Hl Hs) as (b & E1 & E2 & E3 & E4 & E5). exists (write_bin b). rewrite E1. split; [done|]. split; [|done].
  intros r. unfold lift. rewrite E5, bin_read by (by apply short_u32). cbn. rewrite <- E3, read_exact_app. cbn. by rewrite E2.
Qed.

Lemma vec_lawful {A} (T : ToxType A) ok : lawful T ok -> bytewise T ok -> lawful (vec_type T) (fun l => short l /\ Forall ok l).
Proof.
  intros HT Hb. destruct (decide (SIZE T = Some 1)) as [Hone|Hone]; [by apply vec_bytes_lawful|]. intros ctx l [Hs Hl].
  unfold encodes. cbn. unfold is_byte_size. rewrite bool_decide_false by done. exact (seq_wire T ok ctx l HT Hs Hl).
Qed.

Lemma array_lawful {A} (T : ToxType A) ok n : lawful T ok -> bytewise T ok -> Z.of_nat n <= u32_max ->
  lawful (array_type T n) (fun l => length l = n /\ Forall ok l).
Proof.
  intros HT Hb Hn ctx l [Hlen Hl]. assert (short l) as Hs by (unfold short, len; lia). unfold encodes. cbn. unfold is_byte_size. case_bool_decide as H1.
  - destruct (bytes_wire T ok l Hb H1 Hl Hs) as (b & E1 & E2 & E3 & E4 & E5). exists (write_bin b). rewrite E1. split; [done|]. split; [|done].
    intros r. unfold lift. rewrite E5, bin_read by (by apply short_u32). cbn. fold (len l) in *. replace (len l) with (Z.of_nat n) in * by (unfold len; lia).
    rewrite Z.eqb_refl. cbn [negb]. rewrite <- E3, read_exact_app. cbn. by rewrite E2.
  - destruct (each_lawful T ok ctx l HT Hl) as (bs & Ew & Hbs & Hone & Hr). rewrite Hlen in Hr. assert (in_u 32 (Z.of_nat n)) as Hu by (unfold in_u, u32_max in *; lia).
    exists (write_array_len (Z.of_nat n) ++ concat bs). replace (wrap 32 (Z.of_nat n)) with (Z.of_nat n) by (symmetry; by apply Z.mod_small).
    split; [by apply write_then|]. split; [|apply array_value; [done|unfold len; lia|done]].
    intros r. unfold lift. rewrite <- app_assoc, array_read by done. cbn. rewrite Z.eqb_refl. apply Hr.
Qed.

(** *** Flat sequences *)

(** The flat form of a last field, which takes the rest of the input. *)
Definition tail_flat {A} (T : ToxType A) (ok : A -> Prop) : Prop :=
  forall ctx a, ok a -> exists b, serialize_flat T ctx a = ret b /\ flat_len T a = ret (len b) /\ deserialize_flat T ctx b = ret (a, []).

Lemma fixed_tail {A} (T : ToxType A) ok n : fixed T ok -> SIZE T = Some n -> (forall a, flat_len T a = ret n) -> tail_flat T ok.
Proof.
  intros HT Hn Hf ctx a Ha. destruct (fixed_flat T ok HT n ctx a Hn Ha) as (b & E1 & E2 & E3). exists b. rewrite Hf, E2. split_and!; try done.
  specialize (E3 []). by rewrite app_nil_r in E3.
Qed.

Lemma string_tail : tail_flat string_type (fun s => valid_utf8 s = true).
Proof. intros ctx s Hs. exists s. split_and!; try done. cbn. unfold convert, from_utf8. cbn. by rewrite Hs. Qed.

Lemma read_while_spec {A} (T : ToxType A) ok n ctx l fuel : fixed T ok -> SIZE T = Some n -> 0 < n -> Forall ok l -> (length l <= fuel)%nat ->
  exists b, write_each (serialize_flat T ctx) l = ret b /\ len b = len l * n /\ read_while (deserialize_flat T ctx) fuel b = ret (l, []).
Proof.
  intros HT Hn Hpos Hl. revert fuel. induction Hl as [|a l Ha _ IH]; intros fuel Hf.
  - exists []. split_and!; [done..|]. destruct (fixed_short T ok n ctx [] HT Hn) as [e E]; [unfold len; cbn; lia|]. destruct fuel; cbn [read_while]; by rewrite E.
  - cbn [length] in Hf. destruct fuel as [|fuel]; [lia|]. destruct (IH fuel ltac:(lia)) as (b & E1 & E2 & E3).
    destruct (fixed_flat T ok HT n ctx a Hn Ha) as (c & F1 & F2 & F3). exists (c ++ b). cbn [write_each read_while]. rewrite F1, E1, F3. cbn [ret andThen]. rewrite E3. split_and!; try done.
    rewrite len_app, len_cons. lia.
Qed.

Lemma vec_tail {A} (T : ToxType A) ok n : fixed T ok -> bytewise T ok -> SIZE T = Some n -> 0 < n ->
  tail_flat (vec_type T) (fun l => Forall ok l /\ len l * n <= usize_max).
Proof.
  intros HT Hb Hn Hpos ctx l [Hl Hu]. cbn. unfold is_byte_size. rewrite Hn. pose proof (len_nonneg l).
  destruct (read_while_spec T ok n ctx l (S (Z.to_nat (len l * n))) HT Hn Hpos Hl) as (b & E1 & E2 & E3); [unfold len; nia|].
  exists b. rewrite E1. split; [done|]. unfold chk_usize. rewrite chk_ok, E2 by nia. split; [done|].
  case_bool_decide as Hone.
  - destruct (mapM_bytes T ok l Hb ltac:(congruence) Hl) as (b' & F1 & F2 & F3). assert (b' = b) as ->; [|cbn; by rewrite F3].
    clear E2 E3 F2 F3 Hu. simplify_eq. unfold as_bytes in F1. destruct (mapM (to_byte T) l) as [l'|] eqn:E; [|done]. injection F1 as <-.
    revert b l' E E1. induction Hl as [|a l Ha Hl IH]; intros b l' E E1; [injection E as <-; by injection E1 as <-|].
    destruct (Hb Hn a Ha) as (c & Ec & _ & Es). cbn in E. rewrite Ec in E. cbn in E. destruct (mapM (to_byte T) l) as [m|] eqn:Em; [|done]. cbn in E. simplify_eq.
    cbn [write_each] in E1. rewrite Es in E1. destruct (write_each (serialize_flat T ctx) l) as [[w|]|] eqn:Ew; try done. cbn in E1. unfold ret in E1. simplify_eq.
    injection E as <-. f_equal. by apply IH; [apply len_nonneg|..].
  - replace (length b) with (Z.to_nat (len l * n)) by (unfold len in *; lia). done.
Qed.

Lemma array_fixed_size {A} (T : ToxType A) ok n : fixed T ok -> fixed (array_type T n) (fun l => length l = n /\ Forall ok l).
Proof.
  intros HT. assert (forall m, (fun s => s * Z.of_nat n) <$> SIZE T = Some m -> exists s, SIZE T = Some s /\ 0 <= s /\ m = s * Z.of_nat n) as Hsz.
  { intros m E. destruct (SIZE T) as [s|] eqn:Es; [|done]. exists s. pose proof (fixed_range T ok HT s Es). by simplify_eq/=. }
  split; cbn -[Z.mul].
  - intros m (s & _ & ? & ->)%Hsz. lia.
  - intros m ctx l (s & Es & _ & ->)%Hsz [Hlen Hl].
    destruct (each_spec (serialize_flat T ctx) (deserialize_flat T ctx) (fun b => len b = s) l) as (bs & E & Hbs & Hs & Hr).
    { intros a Ha. rewrite Forall_forall in Hl. destruct (fixed_flat T ok HT s ctx a Es (Hl a Ha)) as (b & ? & ? & ?). by exists b. }
    exists (concat bs). split; [done|]. rewrite <- Hlen. split; [|done]. rewrite <- Hbs. clear -Hs. induction Hs as [|b bs Hb _ IH]; [unfold len; cbn; lia|].
    cbn [concat length]. rewrite len_app, IH. lia.
  - intros m ctx rd (s & Es & _ & ->)%Hsz. clear Hsz. revert rd.
    induction n as [|n' IH]; intros rd; cbn [read_times]; [right; exists [], rd; split; [done|lia]|].
    destruct (fixed_read T ok HT s ctx rd Es) as [[e ->]|(a & r & -> & El)]; [left; by exists e|]. cbn.
    destruct (IH r) as [[e ->]|(l & r' & -> & El')]; [left; by exists e|right; exists (a :: l), r'; split; [done|lia]].
Qed.

(** ** Maps and sets *)

Lemma pairs_values bs : Forall (fun b => exists k v, b = k ++ v /\ one_value k /\ one_value v) bs ->
  exists cs, concat cs = concat bs /\ Forall one_value cs /\ len cs = len bs * 2.
Proof.
  induction 1 as [|b bs (k & v & -> & Hk & Hv) _ (cs & E1 & E2 & E3)]; [by exists []|]. exists (k :: v :: cs). cbn [concat]. rewrite E1, app_assoc.
  split_and!; [done|by repeat constructor|]. rewrite !len_cons. lia.
Qed.

(** Inserting the pairs of a map in any order gives the map. *)
Lemma insert_all {A B} `{Countable A} (l : list (A * B)) (m : gmap A B) : l ≡ₚ map_to_list m -> foldl (fun m kv => <[kv.1 := kv.2]> m) ∅ l = m.
Proof.
  intros Hl. rewrite <- (list_to_map_to_list m). assert (NoDup l.*1) as Hnd by (rewrite Hl; apply NoDup_fst_map_to_list).
  rewrite <- (list_to_map_proper l (map_to_list m) Hnd Hl). clear Hl m. assert (forall (l : list (A * B)) (m : gmap A B), NoDup l.*1 -> (forall k, k ∈ l.*1 -> m !! k = None) ->
    foldl (fun m kv => <[kv.1 := kv.2]> m) m l = list_to_map l ∪ m) as Hf; [|rewrite Hf by done; by rewrite (right_id_L ∅ (∪))].
  clear l Hnd. intros l. induction l as [|[k v] l IH]; intros m Hnd Hm; cbn; [by rewrite (left_id_L ∅ (∪))|].
  cbn in Hnd, Hm. apply NoDup_cons in Hnd as [Hk Hnd]. rewrite IH; [|done|].
  - rewrite <- insert_union_l, insert_union_r; [done|]. by apply not_elem_of_list_to_map_1.
  - intros k' Hk'. rewrite lookup_insert_ne by (intros ->; done). apply Hm. by right.
Qed.

Lemma insert_each {A} `{Countable A} (l : list A) (s : gset A) : l ≡ₚ elements s -> foldl (fun s a => {[a]} ∪ s) ∅ l = s.
Proof.
  intros Hl. apply set_eq. intros x. rewrite <- (elem_of_elements s), <- Hl. clear Hl. assert (forall s, x ∈ foldl (fun s a => {[a]} ∪ s) s l <-> x ∈ l \/ x ∈ s) as ->.
  { induction l as [|a l IH]; intros t; cbn; [set_solver|]. rewrite IH. set_solver. }
  set_solver.
Qed.

Lemma map_lawful {A B} `{Countable A} (K : ToxType A) (V : ToxType B) okK okV (order : gmap A B -> list (A * B)) :
  (forall m, order m ≡ₚ map_to_list m) -> lawful K okK -> lawful V okV ->
  lawful (map_type K V order) (fun m => Z.of_nat (size m) < 2 ^ 15 /\ map_Forall (fun k v => okK k /\ okV v) m).
Proof.
  intros Ho HK HV ctx m [Hs Hm]. destruct (each_spec (write_pair K V ctx) (read_pair K V ctx) (fun b => exists k v, b = k ++ v /\ one_value k /\ one_value v) (order m))
    as (bs & Ew & Hl & Hbs & Hr).
  { intros [k v] Hin. rewrite Ho in Hin. apply elem_of_map_to_list in Hin. destruct (Hm k v Hin) as [Hk Hv].
    destruct (HK ctx k Hk) as (bk & K1 & K2 & K3), (HV ctx v Hv) as (bv & V1 & V2 & V3). exists (bk ++ bv). unfold write_pair, read_pair. cbn [fst snd].
    rewrite K1, V1. split_and!; [done| |by exists bk, bv]. intros r. rewrite <- app_assoc, K2. cbn. by rewrite V2. }
  assert (length (order m) = size m) as Hlen by (rewrite Ho; apply length_map_to_list). set (n := Z.of_nat (size m)) in *.
  assert (in_u 32 n) as Hu by (unfold in_u; lia). exists (write_map_len n ++ concat bs). split_and!.
  - cbn. fold n. replace (wrap 32 n) with n by (symmetry; by apply Z.mod_small). by apply write_then.
  - intros r. cbn. unfold lift. rewrite <- app_assoc, map_read by done. cbn. unfold n. rewrite Nat2Z.id, <- Hlen, Hr. cbn. by rewrite (insert_all (order m) m).
  - destruct (pairs_values bs Hbs) as (cs & <- & Hone & Hlc). destruct (map_wire n Hu) as (mk & p & Hmk & Hh).
    apply (map_one _ mk p cs n); [done|done|lia| |done]. rewrite Hlc. unfold len, n. by rewrite Hl, Hlen.
Qed.

Lemma set_lawful {A} `{Countable A} (T : ToxType A) ok (order : gset A -> list A) :
  (forall s, order s ≡ₚ elements s) -> lawful T ok -> lawful (set_type T order) (fun s => Z.of_nat (size s) <= u32_max /\ set_Forall ok s).
Proof.
  intros Ho HT ctx s [Hs Hok]. assert (length (order s) = size s) as Hlen by (by rewrite Ho).
  destruct (seq_wire T ok ctx (order s) HT) as (b & E1 & E2 & E3); [unfold short, len; by rewrite Hlen| |].
  { apply Forall_forall. intros a Ha. apply Hok, elem_of_elements. by rewrite <- Ho. }
  exists b. split_and!; [|intros r; cbn; rewrite E2; cbn; by rewrite (insert_each (order s) s)|done]. unfold write_seq, len in E1. cbn. by rewrite <- Hlen.
Qed.

(** ** Results, options, durations *)

Lemma u8_at v r ctx : in_u 8 v -> deserialize u8 ctx (write_uint v ++ r) = ret (v, r).
Proof. intros Hv. by apply read_u8_uint. Qed.

Lemma small_array n : 0 <= n < 16 -> in_u 32 n.
Proof. unfold in_u. lia. Qed.

Lemma pair_array b c : one_value b -> one_value c -> one_value (write_array_len 2 ++ b ++ c).
Proof. intros Hb Hc. pose proof (array_value [b; c] 2 (small_array 2 ltac:(lia)) eq_refl ltac:(by repeat constructor)) as Ha. cbn in Ha. by rewrite app_nil_r in Ha. Qed.

Lemma result_lawful {A E} (T : ToxType A) (U : ToxType E) okT okU : lawful T okT -> lawful U okU ->
  lawful (result_type T U) (fun r => match r with Ok v => okT v | Err e => okU e end).
Proof.
  intros HT HU ctx [v|e] Hok; [destruct (HT ctx v Hok) as (b & E1 & E2 & E3)|destruct (HU ctx e Hok) as (b & E1 & E2 & E3)];
    [exists (write_array_len 2 ++ write_uint 1 ++ b)|exists (write_array_len 2 ++ write_uint 0 ++ b)]; unfold encodes; cbn -[u8]; rewrite E1;
    (split_and!; [done| |apply pair_array; [apply uint_one; unfold in_u; lia|done]]);
    intros r; unfold lift at 1; rewrite <- !app_assoc, array_read by (by apply small_array); cbn -[u8];
    [rewrite (u8_at 1)|rewrite (u8_at 0)]; try (unfold in_u; lia); cbn; by rewrite E2.
Qed.

Lemma option_lawful {A} (T : ToxType A) ok : lawful T ok -> lawful (option_type T) (fun o => match o with Some v => ok v | None => True end).
Proof.
  intros HT ctx [v|] Hok.
  - destruct (HT ctx v Hok) as (b & E1 & E2 & E3). exists (write_array_len 1 ++ b). unfold encodes. cbn. rewrite E1. split_and!; [done| |].
    + intros r. unfold lift. rewrite <- app_assoc, array_read by (by apply small_array). cbn. by rewrite E2.
    + pose proof (array_value [b] 1 (small_array 1 ltac:(lia)) eq_refl ltac:(by repeat constructor)) as Ha. cbn in Ha. by rewrite app_nil_r in Ha.
  - exists (write_array_len 0). unfold encodes. cbn. split_and!; [done| |].
    + intros r. unfold lift. by rewrite array_read by (by apply small_array).
    + pose proof (array_value [] 0 (small_array 0 ltac:(lia)) eq_refl ltac:(constructor)) as Ha. by rewrite app_nil_r in Ha.
Qed.

Lemma duration_lawful : lawful duration_type (in_u 64).
Proof.
  intros ctx v Hv. destruct (u128_lawful ctx v (in_u_le 64 128 v ltac:(lia) Hv)) as (b & E1 & E2 & E3). exists b. split_and!; [done| |done].
  intros r. change (deserialize duration_type ctx (b ++ r)) with (let! (nanos, rd) := deserialize u128 ctx (b ++ r) in ret (wrap 64 nanos, rd)).
  rewrite E2. cbn -[wrap]. unfold wrap. by rewrite Z.mod_small.
Qed.

(** An instant in the past of the sender's clock keeps its age, cut to
    microseconds and increased by the milliseconds that passed between the two
    wall clocks. *)
Lemma instant_age instant_min sent got t : t <= now_instant sent -> now_instant sent - t < 2 ^ 63 ->
  i64_min <= now_system_ms sent <= now_system_ms got -> now_system_ms got <= i64_max -> now_system_ms got - now_system_ms sent < 2 ^ 53 ->
  let age := (now_instant sent - t) / 1000 * 1000 + (now_system_ms got - now_system_ms sent) * 1000000 in
  instant_min <= now_instant got - age ->
  exists b, write_instant (Some sent) t = ret b /\ (forall r, read_instant instant_min (Some got) (b ++ r) = ret (now_instant got - age, r)) /\ one_value b.
Proof.
  intros Ht Ha Hs1 Hs2 Hd. set (us := (now_instant sent - t) / 1000). set (ms := now_system_ms got - now_system_ms sent) in *. intros age Hmin.
  assert (0 <= us < 2 ^ 63) as Hus by (unfold us; split; [apply Z.div_pos; lia|apply Z.div_lt_upper_bound; lia]).
  destruct (i128_lawful (Some sent) (- us)) as (b1 & A1 & A2 & A3); [lia|].
  destruct (sint_lawful 8 ltac:(lia) (Some sent) (now_system_ms sent)) as (b2 & B1 & B2 & B3); [unfold i64_min, i64_max in *; lia|].
  exists (write_array_len 2 ++ b1 ++ b2). split_and!; [|intros r|by apply pair_array].
  - unfold write_instant. destruct (Z.leb_spec t (now_instant sent)); [|lia]. fold us. rewrite A1. unfold i64. rewrite B1. done.
  - unfold read_instant, lift. rewrite <- !app_assoc, array_read by (by apply small_array). cbn [andThen ret Z.eqb negb Pos.eqb].
    change (deserialize i128 (Some got)) with (deserialize i128 (Some sent)). rewrite A2. cbn [andThen ret].
    change (deserialize i64 (Some got)) with (deserialize (sint_type 8) (Some sent)). rewrite B2. cbn [andThen ret].
    unfold i64_saturating_sub. fold ms. replace (Z.max i64_min (Z.min i64_max ms)) with ms by (unfold i64_min, i64_max in *; lia).
    rewrite chk_ok by lia. cbn [andThen ret checked]. destruct (Z.leb_spec 0 (- us - ms * 1000)).
    + assert (age = 0) as ->; [unfold age; fold us; lia|]. by rewrite Z.sub_0_r.
    + rewrite chk_ok by lia. cbn [andThen ret checked]. unfold wrap. rewrite Z.mod_small by lia.
      replace (- (- us - ms * 1000) * 1000) with age by (unfold age; fold us; lia). destruct (Z.leb_spec instant_min (now_instant got - age)); [done|lia].
Qed.

(** Pointers and locks. *)
Lemma boxed_lawful {A} (T : ToxType A) ok : lawful T ok -> lawful (boxed T) ok.
Proof. intros HT ctx a Ha. destruct (HT ctx a Ha) as (b & ? & ? & ?). by exists b. Qed.

End Laws.
