(* ===== verification/DeriveTheory.v ===== *)
(** Round trips of derived types, and what readers make of arrays and variants
    of other versions of a type. *)

From S2P Require Import Prelude MsgPack MsgPackTheory ToxTypes ToxTheory Derive.
From stdpp Require Import list.
#[local] Open Scope Z_scope.
#[local] Open Scope list_scope.

Section Laws.
Context `{RmpLaws}.

(** ** Fields *)

(** The bytes [bs] of the fields one after another. *)
Definition fields_encode {T} (fs : fields T) (ctx : ToxContext) (v : T) (bs : list bytes) : Prop :=
  write_fields (fun A F => serialize F ctx) fs v = ret (concat bs) /\ len bs = field_count fs /\ Forall one_value bs /\
  forall r, read_fields (fun A F => deserialize F ctx) fs (concat bs ++ r) = ret (v, r).

Definition fields_lawful {T} (fs : fields T) (ok : T -> Prop) : Prop := forall ctx v, ok v -> exists bs, fields_encode fs ctx v bs.

Lemma fnil_lawful : fields_lawful FNil (fun _ => True).
Proof. intros ctx [] _. by exists []. Qed.

Lemma fcons_lawful {A B} (F : ToxType A) (fs : fields B) okF ok :
  lawful F okF -> fields_lawful fs ok -> fields_lawful (FCons F fs) (fun v => okF v.1 /\ ok v.2).
Proof.
  intros HF Hfs ctx [a v] [Ha Hv]. destruct (HF ctx a Ha) as (b & F1 & F2 & F3), (Hfs ctx v Hv) as (bs & E1 & E2 & E3 & E4).
  exists (b :: bs). unfold fields_encode. cbn [write_fields read_fields field_count fst snd concat]. rewrite F1, E1, len_cons, E2.
  split_and!; [done|done|by constructor|]. intros r. rewrite <- app_assoc, F2. cbn [andThen ret]. by rewrite E4.
Qed.

Lemma field_count_nonneg {T} (fs : fields T) : 0 <= field_count fs.
Proof. induction fs; cbn; lia. Qed.

(** ** Structs *)

Section Struct.
Context {S T : Type} (fs : fields T) (get : S -> T) (make : T -> S) (ok : T -> Prop).
Hypothesis fs_lawful : fields_lawful fs ok.
Hypothesis fs_few : field_count fs <= u32_max.

(** Reading an array of values of which the first are the fields. *)
Lemma read_array_of ctx v bs extra r : fields_encode fs ctx v bs -> Forall one_value extra -> field_count fs + len extra <= u32_max ->
  deserialize_array fs make ctx (write_array_len (field_count fs + len extra) ++ concat bs ++ concat extra ++ r) = ret (make v, r).
Proof.
  intros (_ & Hl & _ & Hr) He Hu. pose proof (field_count_nonneg fs). pose proof (len_nonneg extra). unfold deserialize_array, lift.
  rewrite array_read by (unfold in_u, u32_max in *; lia). cbn [andThen ret]. destruct (Z.ltb_spec (field_count fs + len extra) (field_count fs)); [lia|].
  rewrite Hr. cbn [andThen ret]. rewrite skip_values_concat by (done || lia). done.
Qed.

Lemma struct_lawful : lawful (derive_struct fs get make) (fun s => ok (get s) /\ make (get s) = s).
Proof.
  intros ctx s [Hok Hm]. destruct (fs_lawful ctx (get s) Hok) as (bs & E). pose proof E as (E1 & E2 & E3 & _). pose proof (field_count_nonneg fs).
  assert (in_u 32 (field_count fs)) as Hu by (unfold in_u, u32_max in *; lia). exists (write_array_len (field_count fs) ++ concat bs). split_and!.
  - cbn. unfold serialize_array, serialize_fields. unfold wrap. rewrite Z.mod_small by done. by apply write_then.
  - intros r. cbn. trans (ret (make (get s), r) : M (S * bytes)); [|by rewrite Hm]. rewrite <- (read_array_of ctx (get s) bs [] r E ltac:(constructor)); [|unfold len; cbn; lia].
    cbn [concat app]. unfold len. cbn [length]. by rewrite Z.add_0_r, <- app_assoc.
  - by apply array_value.
Qed.

End Struct.

(** Structs of one field, and types of bits. *)
Lemma transparent_lawful {S A} (F : ToxType A) (get : S -> A) (make : A -> S) ok :
  lawful F ok -> lawful (derive_transparent F get make) (fun s => ok (get s) /\ make (get s) = s).
Proof.
  intros HF ctx s [Hok Hm]. destruct (HF ctx (get s) Hok) as (b & E1 & E2 & E3). exists b. split_and!; [done| |done].
  intros r. cbn. rewrite E2. cbn. by rewrite Hm.
Qed.

Lemma tuple_lawful {T} (fs : fields T) ok : fields_lawful fs ok -> field_count fs <= u32_max -> lawful (tuple_type fs) ok.
Proof.
  intros Hfs Hfew ctx v Hok. destruct (Hfs ctx v Hok) as (bs & E1 & E2 & E3 & E4). pose proof (field_count_nonneg fs).
  assert (in_u 32 (field_count fs)) as Hu by (unfold in_u, u32_max in *; lia). exists (write_array_len (field_count fs) ++ concat bs). split_and!.
  - cbn. unfold wrap. rewrite Z.mod_small by done. by apply write_then.
  - intros r. cbn. unfold lift. rewrite <- app_assoc, array_read by done. cbn [andThen ret]. rewrite Z.eqb_refl. apply E4.
  - by apply array_value.
Qed.

(** *** Flat structs *)

(** The flat form of several fields: all but the last of fixed size, the last
    takes what is left. *)
Fixpoint flat_ok {T} (fs : fields T) : (T -> Prop) -> Prop :=
  match fs with
  | FNil => fun _ => False
  | FCons F fs =>
      match fs with
      | FNil => fun ok => exists okF, tail_flat F okF /\ forall v, ok v -> okF v.1
      | FCons _ _ => fun ok => exists okF oks n, fixed F okF /\ SIZE F = Some n /\ flat_ok fs oks /\ forall v, ok v -> okF v.1 /\ oks v.2
      end
  end.

Lemma flat_fields {T} (fs : fields T) ok ctx v : flat_ok fs ok -> ok v ->
  exists b, write_fields (fun A F => serialize_flat F ctx) fs v = ret b /\ read_fields (fun A F => deserialize_flat F ctx) fs b = ret (v, []) /\
    (len b <= usize_max -> concatenated_len fs v = ret (len b)).
Proof.
  revert ok v. induction fs as [|A B F fs IH]; intros ok v Hf Hv; [done|]. destruct v as [a v]. destruct fs as [|C D G gs].
  - destruct Hf as (okF & HF & Hok). destruct (HF ctx a (Hok _ Hv)) as (b & E1 & E2 & E3). destruct v. exists b.
    cbn [write_fields read_fields concatenated_len fst snd]. rewrite E1, E3. cbn. by rewrite app_nil_r.
  - destruct Hf as (okF & oks & n & HF & Hn & Hfs & Hok). destruct (Hok _ Hv) as [Ha Hvs]. destruct (fixed_flat F okF HF n ctx a Hn Ha) as (b & E1 & E2 & E3).
    destruct (IH oks v Hfs Hvs) as (c & F1 & F2 & F3). exists (b ++ c). set (fs := FCons G gs) in *. cbn [write_fields read_fields fst snd].
    rewrite E1, F1. split; [done|]. split; [rewrite E3; cbn [andThen ret]; by rewrite F2|]. rewrite len_app, E2. intros Hl.
    pose proof (fixed_range F okF HF n Hn). pose proof (len_nonneg c). unfold fs in *. cbn [concatenated_len] in F3 |- *. cbn [fst snd]. rewrite Hn, F3 by lia.
    cbn [andThen ret]. unfold chk_usize. by rewrite chk_ok by lia.
Qed.

Lemma flat_struct_lawful {S T} (fs : fields T) (get : S -> T) (make : T -> S) ok : all_byte_like fs = true -> flat_ok fs ok ->
  lawful (derive_flat_struct fs get make) (fun s => ok (get s) /\ make (get s) = s /\
    forall ctx b, write_fields (fun A F => serialize_flat F ctx) fs (get s) = ret b -> len b <= u32_max).
Proof.
  intros Hb Hf ctx s (Hok & Hm & Hlen). destruct (flat_fields fs ok ctx (get s) Hf Hok) as (b & E1 & E2 & E3). specialize (Hlen ctx b E1).
  assert (short b) as Hs by exact Hlen. pose proof (short_u32 b Hs) as Hu. exists (write_bin_len (len b) ++ b). unfold encodes. cbn. rewrite Hb. split_and!.
  - unfold serialize_concatenated, serialize_flat_fields. rewrite E3 by (unfold u32_max, usize_max in *; lia). cbn [andThen ret]. rewrite wrap_short by done.
    by apply write_then.
  - intros r. unfold deserialize_concatenated, deserialize_flat_fields, lift. rewrite <- app_assoc, bin_read by done. cbn [andThen ret].
    unfold len. rewrite Nat2Z.id, take_app_length, drop_app_length, E2. cbn. by rewrite Hm.
  - rewrite <- bin_bytes by done. by apply bin_value.
Qed.

(** ** Enums *)

(** What an arm writes for [s] is read by it, after the header. *)
Definition arm {S} (v : variant S) (s : S) : Prop :=
  forall ctx, exists b n p, v_serialize v ctx s = Some (ret b) /\ one_value b /\
    (forall r, read_enum_header (b ++ r) = ret ((v_tag v, n), p ++ r)) /\ forall r, v_deserialize v ctx n (p ++ r) = ret (s, r).

Lemma unit_arm {S} tag (matches : S -> bool) s : in_u 8 tag -> matches s = true -> arm (unit_variant tag matches s) s.
Proof.
  intros Ht Hm ctx. exists (write_uint tag), 1, []. cbn. rewrite Hm. split_and!; [done|by apply uint_one, (in_u_le 8)| |done].
  intros r. by apply enum_header_unit.
Qed.

(** The header of a variant with a payload. *)
Lemma payload_header tag p r : in_u 8 tag -> read_enum_header ((write_array_len 2 ++ write_uint tag ++ p) ++ r) = ret ((tag, 2), p ++ r).
Proof. intros Ht. rewrite <- !app_assoc. by apply enum_header_array; [apply small_array|]. Qed.

Lemma payload_value tag p : in_u 8 tag -> one_value p -> one_value (write_array_len 2 ++ write_uint tag ++ p).
Proof. intros Ht Hp. apply pair_array; [|done]. by apply uint_one, (in_u_le 8). Qed.

Lemma single_arm {S A} tag (F : ToxType A) (proj : S -> option A) (inj : A -> S) okF s a :
  in_u 8 tag -> lawful F okF -> proj s = Some a -> okF a -> inj a = s -> arm (single_variant tag F proj inj) s.
Proof.
  intros Ht HF Hp Ha Hi ctx. destruct (HF ctx a Ha) as (p & E1 & E2 & E3). exists (write_array_len 2 ++ write_uint tag ++ p), 2, p.
  cbn -[u8]. rewrite Hp. cbn -[u8]. rewrite E1. split_and!; [done|by apply payload_value|intros r; by apply payload_header|].
  intros r. rewrite E2. cbn. by rewrite Hi.
Qed.

Lemma multi_arm {S T} tag (fs : fields T) (proj : S -> option T) (inj : T -> S) ok s v :
  in_u 8 tag -> fields_lawful fs ok -> field_count fs <= u32_max -> proj s = Some v -> ok v -> inj v = s -> arm (multi_variant tag fs proj inj) s.
Proof.
  intros Ht Hfs Hfew Hp Hv Hi ctx. destruct (Hfs ctx v Hv) as (bs & E). pose proof E as (E1 & E2 & E3 & _). pose proof (field_count_nonneg fs).
  assert (in_u 32 (field_count fs)) as Hu by (unfold in_u, u32_max in *; lia). set (p := write_array_len (field_count fs) ++ concat bs).
  exists (write_array_len 2 ++ write_uint tag ++ p), 2, p. cbn -[u8]. rewrite Hp. cbn -[u8]. rewrite E1.
  split_and!; [done|apply payload_value; [done|by apply array_value]|intros r; by apply payload_header|].
  intros r. pose proof (read_array_of fs inj ctx v bs [] r E ltac:(constructor) ltac:(unfold len; cbn; lia)) as Hr. cbn [concat app] in Hr. change (len (@nil bytes)) with 0 in Hr.
  rewrite Z.add_0_r in Hr. unfold p. rewrite <- app_assoc. unfold deserialize_array in Hr. rewrite Hi in Hr. exact Hr.
Qed.

(** The arm of a value is the first that matches it. *)
Definition arm_of {S} (vs : list (variant S)) (s : S) : Prop :=
  exists vs1 v vs2, vs = vs1 ++ v :: vs2 /\ arm v s /\ forall w ctx, w ∈ vs1 -> v_serialize w ctx s = None.

Lemma find_tag {S} (vs1 : list (variant S)) v vs2 : NoDup (v_tag <$> vs1 ++ v :: vs2) ->
  List.find (fun w => v_tag w =? v_tag v) (vs1 ++ v :: vs2) = Some v.
Proof.
  induction vs1 as [|w vs1 IH]; cbn; [by rewrite Z.eqb_refl|]. intros [Hw Hnd]%NoDup_cons. destruct (Z.eqb_spec (v_tag w) (v_tag v)) as [E|]; [|by apply IH].
  destruct Hw. rewrite E. apply list_elem_of_fmap_2, elem_of_app. right. left.
Qed.

Lemma serialize_skips {S} (vs1 vs2 : list (variant S)) other ctx s : (forall w, w ∈ vs1 -> v_serialize w ctx s = None) ->
  serialize_enum (vs1 ++ vs2) other ctx s = serialize_enum vs2 other ctx s.
Proof.
  induction vs1 as [|w vs1 IH]; intros Hw; cbn; [done|]. rewrite Hw by left. apply IH. intros x Hx. apply Hw. by right.
Qed.

Lemma enum_lawful {S} (vs : list (variant S)) other (ok : S -> Prop) :
  NoDup (v_tag <$> vs) -> (forall s, ok s -> arm_of vs s) -> lawful (derive_enum vs other) ok.
Proof.
  intros Hnd Harm ctx s Hs. destruct (Harm s Hs) as (vs1 & v & vs2 & -> & Hv & Hno). destruct (Hv ctx) as (b & n & p & E1 & E2 & E3 & E4).
  exists b. split_and!; [| |done].
  - cbn. rewrite serialize_skips by (intros w; apply Hno). cbn. by rewrite E1.
  - intros r. cbn. unfold deserialize_enum. rewrite E3. cbn [andThen ret]. rewrite find_tag by done. apply E4.
Qed.

(** ** What is read is well typed *)

Lemma andThen_ret {A B} (m : M A) (k : A -> M B) b : andThen m k = ret b -> exists a, m = ret a /\ k a = ret b.
Proof. destruct m as [[a|]|]; [by exists a|done..]. Qed.

(** A reader returns values that satisfy [P] only. *)
Definition yields {A} (f : reader A) (P : A -> Prop) : Prop := forall rd a r, f rd = ret (a, r) -> P a.
Definition typed {A} (T : ToxType A) (P : A -> Prop) : Prop := forall ctx, yields (deserialize T ctx) P.
Definition fields_typed {T} (fs : fields T) (P : T -> Prop) : Prop := forall ctx, yields (read_fields (fun A F => deserialize F ctx) fs) P.

Lemma int_typed lo hi : yields (lift (read_int lo hi)) (fun v => lo <= v <= hi).
Proof. intros rd v r. unfold lift. destruct (read_int lo hi rd) as [[v' r']|] eqn:E; [|done]. intros [= -> ->]. by eapply int_range. Qed.

Lemma uint_typed n : typed (uint_type n) (in_u (8 * Z.of_nat n)).
Proof. intros ctx rd v r Hv. apply int_typed in Hv. unfold in_u. lia. Qed.

Lemma sint_typed n : typed (sint_type n) (fun v => - 2 ^ (8 * Z.of_nat n - 1) <= v < 2 ^ (8 * Z.of_nat n - 1)).
Proof. intros ctx rd v r Hv. apply int_typed in Hv. lia. Qed.

Lemma read_exact_len n rd b r : 0 <= n -> read_exact n rd = ret (b, r) -> len b = n.
Proof.
  intros Hn. unfold read_exact. destruct (Z.leb_spec n (len rd)); [|done]. intros [= <- _]. unfold len in *. rewrite length_take. lia.
Qed.

Lemma vec_u8_typed : typed (vec_type u8) (fun d => short d).
Proof.
  intros ctx rd d r. cbn -[is_byte_size]. change (is_byte_size u8) with true. cbn iota. unfold lift. intros ([n rd1] & E1 & E)%andThen_ret. apply andThen_ret in E as ([b rd2] & E2 & E).
  apply andThen_ret in E as (l & E3 & E). injection E as <- _. destruct (read_bin_len rd) as [[n' rd']|] eqn:En; [|done]. injection E1 as <- <-.
  pose proof (bin_range _ _ _ En) as Hn. unfold in_u in Hn. apply read_exact_len in E2; [|lia]. unfold from_bytes, checked in E3.
  destruct (mapM (from_byte u8) b) as [l'|] eqn:Em; [|done]. injection E3 as <-. apply length_mapM in Em. unfold short, len, u32_max in *. lia.
Qed.

Lemma fnil_typed : fields_typed FNil (fun _ => True).
Proof. by intros ctx rd a r _. Qed.

Lemma fcons_typed {A B} (F : ToxType A) (fs : fields B) P Q : typed F P -> fields_typed fs Q -> fields_typed (FCons F fs) (fun v => P v.1 /\ Q v.2).
Proof.
  intros HF Hfs ctx rd v r. cbn [read_fields]. intros ([a rd1] & E1 & E)%andThen_ret. apply andThen_ret in E as ([b rd2] & E2 & E). injection E as <- _.
  split; [by apply (HF ctx) in E1|by apply (Hfs ctx) in E2].
Qed.

Lemma array_typed {S T} (fs : fields T) (make : T -> S) P ctx : fields_typed fs P -> yields (deserialize_array fs make ctx) (fun s => exists v, s = make v /\ P v).
Proof.
  intros Hfs rd s r. unfold deserialize_array. intros ([n rd1] & _ & E)%andThen_ret. destruct (n <? field_count fs); [done|].
  apply andThen_ret in E as ([v rd2] & E2 & E). apply andThen_ret in E as ([u rd3] & _ & E). injection E as <- _. exists v. split; [done|]. by apply (Hfs ctx) in E2.
Qed.

Lemma transparent_typed {S A} (F : ToxType A) (get : S -> A) (make : A -> S) P : typed F P -> typed (derive_transparent F get make) (fun s => exists a, s = make a /\ P a).
Proof.
  intros HF ctx rd s r. cbn. intros ([a rd1] & E1 & E)%andThen_ret. injection E as <- _. exists a. split; [done|]. by apply (HF ctx) in E1.
Qed.

(** The arms of an enum. *)
Definition arm_typed {S} (P : S -> Prop) (v : variant S) : Prop := forall ctx n, yields (v_deserialize v ctx n) P.

Lemma single_typed {S A} tag (F : ToxType A) (proj : S -> option A) inj P : typed F P -> arm_typed (fun s => exists a, s = inj a /\ P a) (single_variant tag F proj inj).
Proof.
  intros HF ctx n rd s r. cbn. destruct (negb (n =? 2)); [done|]. intros ([a rd1] & E1 & E)%andThen_ret. injection E as <- _. exists a. split; [done|]. by apply (HF ctx) in E1.
Qed.

Lemma multi_typed {S T} tag (fs : fields T) (proj : S -> option T) inj P :
  fields_typed fs P -> arm_typed (fun s => exists v, s = inj v /\ P v) (multi_variant tag fs proj inj).
Proof.
  intros Hfs ctx n rd s r. cbn. destruct (negb (n =? 2)); [done|]. apply (array_typed fs inj P ctx Hfs).
Qed.

Lemma enum_typed {S} (vs : list (variant S)) P : Forall (arm_typed P) vs -> typed (derive_enum vs None) P.
Proof.
  intros Hvs ctx rd s r. cbn. unfold deserialize_enum. intros ([[idx n] rd1] & _ & E)%andThen_ret. destruct (List.find _ vs) as [v|] eqn:Ef; [|done].
  apply find_some in Ef as [Hin _]. apply list_elem_of_In in Hin. rewrite Forall_forall in Hvs. by apply (Hvs v Hin ctx n) in E.
Qed.

Lemma arm_typed_weaken {S} (P Q : S -> Prop) v : (forall s, P s -> Q s) -> arm_typed P v -> arm_typed Q v.
Proof. intros Hpq Hv ctx n rd s r E. by eapply Hpq, Hv. Qed.

Lemma read_times_typed {A} (f : reader A) P n : yields f P -> yields (read_times f n) (Forall P).
Proof.
  intros Hf. induction n as [|n IH]; intros rd l r; cbn [read_times]; [by intros [= <- _]|].
  intros ([a rd1] & E1 & E)%andThen_ret. apply andThen_ret in E as ([l' rd2] & E2 & E). injection E as <- _. constructor; [by eapply Hf|by eapply IH].
Qed.

Lemma seq_typed {A} (T : ToxType A) P : typed T P -> typed (seq_type T) (Forall P).
Proof.
  intros HT ctx rd l r. cbn. unfold read_seq. intros ([n rd1] & _ & E)%andThen_ret. by apply (read_times_typed _ P) in E; [|apply HT].
Qed.

Lemma typed_weaken {A} (T : ToxType A) (P Q : A -> Prop) : (forall a, P a -> Q a) -> typed T P -> typed T Q.
Proof. intros Hpq HT ctx rd a r E. by eapply Hpq, HT. Qed.

(** ** Variants of later versions *)

(** A variant that is not known is kept as it came and written back the same. *)
Lemma unknown_forwarded {S} (vs : list (variant S)) (c : catch_all S) ctx tag p r :
  in_u 8 tag -> tag ∉ (v_tag <$> vs) -> one_value p -> (forall w, w ∈ vs -> v_serialize w ctx (c_inj c tag p) = None) ->
  c_proj c (c_inj c tag p) = Some (tag, p) ->
  deserialize (derive_enum vs (Some c)) ctx ((write_array_len 2 ++ write_uint tag ++ p) ++ r) = ret (c_inj c tag p, r) /\
  serialize (derive_enum vs (Some c)) ctx (c_inj c tag p) = ret (write_array_len 2 ++ write_uint tag ++ p).
Proof.
  intros Ht Hnew Hp Hno Hc. split.
  - cbn. unfold deserialize_enum. rewrite payload_header by done. cbn [andThen ret]. destruct (List.find _ vs) as [v|] eqn:Ef.
    { apply find_some in Ef as [Hin Heq%Z.eqb_eq]. destruct Hnew. rewrite <- Heq. apply list_elem_of_fmap_2. by apply list_elem_of_In. }
    unfold capture_values. change (Z.to_nat (2 - 1)) with 1%nat. cbn [read_times]. rewrite capture_one by done. cbn. by rewrite app_nil_r.
  - cbn. rewrite <- (app_nil_r vs), serialize_skips by done. cbn [serialize_enum]. rewrite Hc. unfold serialize_unknown. destruct p as [|b p]; [by apply one_value_nonempty in Hp|].
    unfold wrap. rewrite Z.mod_small by done. done.
Qed.

End Laws.
