(* ===== verification/MsgPackFormat.v ===== *)
(** The MessagePack format as an instance of [Rmp]: it satisfies [RmpLaws], so
    that what is proved from these laws applies to concrete bytes. *)

From S2P Require Import Prelude MsgPack MsgPackTheory.
From stdpp Require Import list.
#[local] Open Scope Z_scope.
#[local] Open Scope list_scope.

Module Format.

Definition marker_of (b : Z) : Marker :=
  if b <? 0x80 then FixPos b else if b <? 0x90 then FixMap (b - 0x80) else if b <? 0xa0 then FixArray (b - 0x90)
  else if b <? 0xc0 then FixStr (b - 0xa0)
  else
    match b with
    | 0xc0 => Null | 0xc1 => Reserved | 0xc2 => False_ | 0xc3 => True_ | 0xc4 => Bin8 | 0xc5 => Bin16 | 0xc6 => Bin32
    | 0xc7 => Ext8 | 0xc8 => Ext16 | 0xc9 => Ext32 | 0xca => F32 | 0xcb => F64 | 0xcc => U8 | 0xcd => U16 | 0xce => U32 | 0xcf => U64
    | 0xd0 => I8 | 0xd1 => I16 | 0xd2 => I32 | 0xd3 => I64 | 0xd4 => FixExt1 | 0xd5 => FixExt2 | 0xd6 => FixExt4 | 0xd7 => FixExt8
    | 0xd8 => FixExt16 | 0xd9 => Str8 | 0xda => Str16 | 0xdb => Str32 | 0xdc => Array16 | 0xdd => Array32 | 0xde => Map16 | 0xdf => Map32
    | _ => FixNeg (b - 256)
    end.

Definition marker (rd : bytes) : option (Marker * bytes) := match rd with b :: rd => Some (marker_of b, rd) | [] => None end.

(** An unsigned integer of [n] bytes. *)
Definition number (n : nat) (rd : bytes) : option (Z * bytes) :=
  if (n <=? length rd)%nat then Some (wrap (8 * Z.of_nat n) (from_be (take n rd)), drop n rd) else None.
Definition signed (n : nat) (rd : bytes) : option (Z * bytes) := '(v, rd) ← number n rd; Some (to_signed n v, rd).

Definition int_at (lo hi : Z) (x : Z * bytes) : option (Z * bytes) := if (lo <=? x.1) && (x.1 <=? hi) then Some x else None.

Definition int (lo hi : Z) (rd : bytes) : option (Z * bytes) :=
  '(m, rd) ← marker rd;
  x ← match m with
      | FixPos v | FixNeg v => Some (v, rd)
      | U8 => number 1 rd | U16 => number 2 rd | U32 => number 4 rd | U64 => number 8 rd
      | I8 => signed 1 rd | I16 => signed 2 rd | I32 => signed 4 rd | I64 => signed 8 rd
      | _ => None
      end;
  int_at lo hi x.

Definition uint (v : Z) : bytes :=
  if v <? 2 ^ 7 then [v] else if v <? 2 ^ 8 then 0xcc :: be_bytes 1 v else if v <? 2 ^ 16 then 0xcd :: be_bytes 2 v
  else if v <? 2 ^ 32 then 0xce :: be_bytes 4 v else 0xcf :: be_bytes 8 v.

Definition sint (v : Z) : bytes :=
  if 0 <=? v then uint v
  else if -32 <=? v then [v + 256]
  else if - 2 ^ 7 <=? v then 0xd0 :: be_bytes 1 (wrap 8 v) else if - 2 ^ 15 <=? v then 0xd1 :: be_bytes 2 (wrap 16 v)
  else if - 2 ^ 31 <=? v then 0xd2 :: be_bytes 4 (wrap 32 v) else 0xd3 :: be_bytes 8 (wrap 64 v).

(** A length with one marker for each width of the length field. *)
Definition length_field (m8 : option Z) (m16 m32 n : Z) : bytes :=
  match m8 with
  | Some m => if n <? 2 ^ 8 then m :: be_bytes 1 n else if n <? 2 ^ 16 then m16 :: be_bytes 2 n else m32 :: be_bytes 4 n
  | None => if n <? 2 ^ 16 then m16 :: be_bytes 2 n else m32 :: be_bytes 4 n
  end.

Definition str_header (n : Z) : bytes := if n <? 32 then [0xa0 + n] else length_field (Some 0xd9) 0xda 0xdb n.
Definition bin_header (n : Z) : bytes := length_field (Some 0xc4) 0xc5 0xc6 n.
Definition array_len (n : Z) : bytes := if n <? 16 then [0x90 + n] else length_field None 0xdc 0xdd n.
Definition map_len (n : Z) : bytes := if n <? 16 then [0x80 + n] else length_field None 0xde 0xdf n.

(** Reading the length that a marker announces. *)
Definition length_after (f : Marker -> option (bytes -> option (Z * bytes))) (rd : bytes) : option (Z * bytes) :=
  '(m, rd) ← marker rd; g ← f m; g rd.

#[export] Instance format : Rmp := {|
  read_marker := marker;
  read_int := int;
  read_bool := fun rd => '(m, rd) ← marker rd; match m with True_ => Some (true, rd) | False_ => Some (false, rd) | _ => None end;
  read_f32 := length_after (fun m => match m with F32 => Some (number 4) | _ => None end);
  read_f64 := length_after (fun m => match m with F64 => Some (number 8) | _ => None end);
  read_str_len := length_after (fun m =>
    match m with FixStr n => Some (fun rd => Some (n, rd)) | Str8 => Some (number 1) | Str16 => Some (number 2) | Str32 => Some (number 4) | _ => None end);
  read_bin_len := length_after (fun m => match m with Bin8 => Some (number 1) | Bin16 => Some (number 2) | Bin32 => Some (number 4) | _ => None end);
  read_array_len := length_after (fun m =>
    match m with FixArray n => Some (fun rd => Some (n, rd)) | Array16 => Some (number 2) | Array32 => Some (number 4) | _ => None end);
  read_map_len := length_after (fun m =>
    match m with FixMap n => Some (fun rd => Some (n, rd)) | Map16 => Some (number 2) | Map32 => Some (number 4) | _ => None end);
  write_uint := uint;
  write_sint := sint;
  write_bool := fun b => [if (b : bool) then 0xc3 else 0xc2];
  write_f32 := fun v => 0xca :: be_bytes 4 v;
  write_f64 := fun v => 0xcb :: be_bytes 8 v;
  write_str := fun s => str_header (len s) ++ s;
  write_bin := fun s => bin_header (len s) ++ s;
  write_bin_len := bin_header;
  write_array_len := array_len;
  write_map_len := map_len
|}.

(** ** The laws *)

Lemma marker_fix_pos b : 0 <= b < 0x80 -> marker_of b = FixPos b.
Proof. intros Hb. unfold marker_of. by destruct (Z.ltb_spec b 0x80); [|lia]. Qed.

Lemma marker_fix_map n : 0 <= n < 16 -> marker_of (0x80 + n) = FixMap n.
Proof.
  intros Hn. unfold marker_of. destruct (Z.ltb_spec (0x80 + n) 0x80); [lia|]. destruct (Z.ltb_spec (0x80 + n) 0x90); [|lia]. f_equal. lia.
Qed.

Lemma marker_fix_array n : 0 <= n < 16 -> marker_of (0x90 + n) = FixArray n.
Proof.
  intros Hn. unfold marker_of. destruct (Z.ltb_spec (0x90 + n) 0x80); [lia|]. destruct (Z.ltb_spec (0x90 + n) 0x90); [lia|].
  destruct (Z.ltb_spec (0x90 + n) 0xa0); [|lia]. f_equal. lia.
Qed.

Lemma marker_fix_str n : 0 <= n < 32 -> marker_of (0xa0 + n) = FixStr n.
Proof.
  intros Hn. unfold marker_of. destruct (Z.ltb_spec (0xa0 + n) 0x80); [lia|]. destruct (Z.ltb_spec (0xa0 + n) 0x90); [lia|].
  destruct (Z.ltb_spec (0xa0 + n) 0xa0); [lia|]. destruct (Z.ltb_spec (0xa0 + n) 0xc0); [|lia]. f_equal. lia.
Qed.

Lemma marker_fix_neg v : -32 <= v < 0 -> marker_of (v + 256) = FixNeg v.
Proof.
  intros Hv. assert (v ∈ zrange (-32) 0) as Hin by (apply elem_of_zrange; lia). clear Hv. revert v Hin.
  refine (proj1 (Forall_forall (fun v => marker_of (v + 256) = FixNeg v) _) _). refine (bool_decide_unpack _ _). vm_compute. exact I.
Qed.

Lemma number_app n v r : 0 <= v < 2 ^ (8 * Z.of_nat n) -> number n (be_bytes n v ++ r) = Some (v, r).
Proof.
  intros Hv. pose proof (be_bytes_length n v) as Hl. unfold number. rewrite length_app, Hl. destruct (Nat.leb_spec n (n + length r)); [|lia].
  f_equal. f_equal; [|rewrite <- Hl at 1; apply drop_app_length]. rewrite <- Hl at 2. rewrite take_app_length, from_be_bytes by done. by apply Z.mod_small.
Qed.

Lemma signed_number_app n v r : (0 < n)%nat -> - 2 ^ (8 * Z.of_nat n - 1) <= v < 2 ^ (8 * Z.of_nat n - 1) ->
  signed n (be_bytes n (wrap (8 * Z.of_nat n) v) ++ r) = Some (v, r).
Proof.
  intros Hn Hv. unfold signed. rewrite number_app by (apply Z.mod_pos_bound, Z.pow_pos_nonneg; lia). cbn -[to_signed wrap Z.mul]. by rewrite to_signed_wrap.
Qed.

Lemma int_at_ok lo hi v r : lo <= v <= hi -> int_at lo hi (v, r) = Some (v, r).
Proof. intros Hv. unfold int_at. cbn. destruct (Z.leb_spec lo v), (Z.leb_spec v hi); cbn; done || lia. Qed.

Lemma int_step lo hi b v p r :
  match marker_of b with
  | FixPos v | FixNeg v => Some (v, p)
  | U8 => number 1 p | U16 => number 2 p | U32 => number 4 p | U64 => number 8 p
  | I8 => signed 1 p | I16 => signed 2 p | I32 => signed 4 p | I64 => signed 8 p
  | _ => None
  end = Some (v, r) -> lo <= v <= hi -> int lo hi (b :: p) = Some (v, r).
Proof. intros E Hv. unfold int. cbn [marker mbind option_bind]. rewrite E. cbn. by apply int_at_ok. Qed.

(** A marker in front of bytes, as the laws state it. *)
Lemma wire_head (w : bytes) b p m : w = b :: p -> marker_of b = m -> forall r, marker (w ++ r) = Some (m, p ++ r).
Proof. intros -> <- r. done. Qed.

Lemma uint_cases v : in_u 64 v ->
  (0 <= v < 2 ^ 7 /\ uint v = [v]) \/
  exists n b, n ∈ [1; 2; 4; 8]%nat /\ 0 <= v < 2 ^ (8 * Z.of_nat n) /\ uint v = b :: be_bytes n v /\ scalar (marker_of b) = Some (Z.of_nat n) /\
    forall r, match marker_of b with
      | U8 => number 1 (be_bytes n v ++ r) | U16 => number 2 (be_bytes n v ++ r) | U32 => number 4 (be_bytes n v ++ r) | U64 => number 8 (be_bytes n v ++ r)
      | _ => None
      end = Some (v, r).
Proof.
  intros Hv. unfold in_u in Hv. unfold uint. destruct (Z.ltb_spec v (2 ^ 7)); [left; split; [lia|done]|right].
  destruct (Z.ltb_spec v (2 ^ 8)); [|destruct (Z.ltb_spec v (2 ^ 16)); [|destruct (Z.ltb_spec v (2 ^ 32))]].
  - exists 1%nat, 0xcc. split_and!; [by left|cbn; lia..|done|done|]. intros r. apply (number_app 1). cbn. lia.
  - exists 2%nat, 0xcd. split_and!; [by right; left|cbn; lia..|done|done|]. intros r. apply (number_app 2). cbn. lia.
  - exists 4%nat, 0xce. split_and!; [by right; right; left|cbn; lia..|done|done|]. intros r. apply (number_app 4). cbn. lia.
  - exists 8%nat, 0xcf. split_and!; [by right; right; right; left|cbn; lia..|done|done|]. intros r. apply (number_app 8). cbn. lia.
Qed.

Lemma length_field_cases m8 m16 m32 n : in_u 32 n ->
  (exists a, m8 = Some a /\ 0 <= n < 2 ^ 8 /\ length_field m8 m16 m32 n = a :: be_bytes 1 n) \/
  (0 <= n < 2 ^ 16 /\ length_field m8 m16 m32 n = m16 :: be_bytes 2 n) \/
  (0 <= n < 2 ^ 32 /\ length_field m8 m16 m32 n = m32 :: be_bytes 4 n).
Proof.
  intros Hn. unfold in_u in Hn. unfold length_field. destruct m8 as [a|].
  - destruct (Z.ltb_spec n (2 ^ 8)); [left; exists a; split_and!; try done; lia|].
    destruct (Z.ltb_spec n (2 ^ 16)); [right; left|right; right]; (split; [lia|done]).
  - destruct (Z.ltb_spec n (2 ^ 16)); [right; left|right; right]; (split; [lia|done]).
Qed.

(** The first byte of a string, binary, array or map header and what follows it. *)
Definition heads (w : bytes) (n : Z) (ms : list (Marker * nat)) : Prop :=
  exists b p k, w = b :: p /\ (marker_of b, k) ∈ ms /\ length p = k /\ from_be p = n /\ forall r, number k (p ++ r) = Some (n, r).

Lemma heads_be b k n ms : 0 <= n < 2 ^ (8 * Z.of_nat k) -> (marker_of b, k) ∈ ms -> heads (b :: be_bytes k n) n ms.
Proof.
  intros Hn Hm. exists b, (be_bytes k n), k. split_and!; [done|done|apply be_bytes_length|by apply from_be_bytes|]. intros r. by apply number_app.
Qed.

Lemma bin_heads n : in_u 32 n -> heads (bin_header n) n [(Bin8, 1%nat); (Bin16, 2%nat); (Bin32, 4%nat)].
Proof.
  intros Hn. destruct (length_field_cases (Some 0xc4) 0xc5 0xc6 n Hn) as [(a & [= <-] & Hb & E)|[[Hb E]|[Hb E]]]; unfold bin_header; rewrite E;
    apply heads_be; try done; [by left|by right; left|by right; right; left].
Qed.

Lemma str_heads n : in_u 32 n -> n < 32 /\ str_header n = [0xa0 + n] \/ heads (str_header n) n [(Str8, 1%nat); (Str16, 2%nat); (Str32, 4%nat)].
Proof.
  intros Hn. unfold str_header. destruct (Z.ltb_spec n 32); [by left|right].
  destruct (length_field_cases (Some 0xd9) 0xda 0xdb n Hn) as [(a & [= <-] & Hb & E)|[[Hb E]|[Hb E]]]; rewrite E;
    apply heads_be; try done; [by left|by right; left|by right; right; left].
Qed.

Lemma array_heads n : in_u 32 n -> n < 16 /\ array_len n = [0x90 + n] \/ heads (array_len n) n [(Array16, 2%nat); (Array32, 4%nat)].
Proof.
  intros Hn. unfold array_len. destruct (Z.ltb_spec n 16); [by left|right].
  destruct (length_field_cases None 0xdc 0xdd n Hn) as [(a & [=] & _)|[[Hb E]|[Hb E]]]; rewrite E;
    apply heads_be; try done; [by left|by right; left].
Qed.

Lemma map_heads n : in_u 32 n -> n < 16 /\ map_len n = [0x80 + n] \/ heads (map_len n) n [(Map16, 2%nat); (Map32, 4%nat)].
Proof.
  intros Hn. unfold map_len. destruct (Z.ltb_spec n 16); [by left|right].
  destruct (length_field_cases None 0xde 0xdf n Hn) as [(a & [=] & _)|[[Hb E]|[Hb E]]]; rewrite E;
    apply heads_be; try done; [by left|by right; left].
Qed.

(** Header and shape. *)
Lemma heads_wire w n ms (P : Marker -> bytes -> Z -> Prop) : heads w n ms ->
  (forall m k p, (m, k) ∈ ms -> length p = k -> from_be p = n -> P m p n) -> exists m p, (forall r, marker (w ++ r) = Some (m, p ++ r)) /\ P m p n.
Proof. intros (b & p & k & -> & Hm & Hl & Hn & _) HP. exists (marker_of b), p. split; [done|]. by apply (HP _ k). Qed.

Lemma heads_read w n ms f r : heads w n ms -> (forall m k, (m, k) ∈ ms -> f m = Some (number k)) -> length_after f (w ++ r) = Some (n, r).
Proof. intros (b & p & k & -> & Hm & _ & _ & Hr) Hf. unfold length_after. cbn [marker app mbind option_bind]. rewrite (Hf _ k Hm). apply Hr. Qed.

Lemma blob_shape m k p n : (m, k) ∈ [(Bin8, 1%nat); (Bin16, 2%nat); (Bin32, 4%nat)] -> length p = k -> from_be p = n -> blob_header m p n.
Proof.
  rewrite !elem_of_cons, elem_of_nil. intros [[= -> ->]|[[= -> ->]|[[= -> ->]|[]]]] Hl Hn;
    [apply blob_8|apply blob_16|apply blob_32]; auto.
Qed.

Lemma str_shape m k p n : (m, k) ∈ [(Str8, 1%nat); (Str16, 2%nat); (Str32, 4%nat)] -> length p = k -> from_be p = n -> blob_header m p n.
Proof.
  rewrite !elem_of_cons, elem_of_nil. intros [[= -> ->]|[[= -> ->]|[[= -> ->]|[]]]] Hl Hn;
    [apply blob_8|apply blob_16|apply blob_32]; auto.
Qed.

Lemma array_shape m k p n : (m, k) ∈ [(Array16, 2%nat); (Array32, 4%nat)] -> length p = k -> from_be p = n -> array_header m p n.
Proof. rewrite !elem_of_cons, elem_of_nil. intros [[= -> ->]|[[= -> ->]|[]]] Hl Hn; [by apply array_16|by apply array_32]. Qed.

Lemma map_shape m k p n : (m, k) ∈ [(Map16, 2%nat); (Map32, 4%nat)] -> length p = k -> from_be p = n -> map_header m p n.
Proof. rewrite !elem_of_cons, elem_of_nil. intros [[= -> ->]|[[= -> ->]|[]]] Hl Hn; [by apply map_16|by apply map_32]. Qed.

(** The markers that a reading function accepts. *)
Lemma bin_accepts m k : (m, k) ∈ [(Bin8, 1%nat); (Bin16, 2%nat); (Bin32, 4%nat)] ->
  match m with Bin8 => Some (number 1) | Bin16 => Some (number 2) | Bin32 => Some (number 4) | _ => None end = Some (number k).
Proof. rewrite !elem_of_cons, elem_of_nil. by intros [[= -> ->]|[[= -> ->]|[[= -> ->]|[]]]]. Qed.

Lemma byte_of_wire (rd : bytes) m r : marker rd = Some (m, r) -> exists b, rd = b :: r.
Proof. destruct rd as [|b rd]; [done|]. cbn. intros [= _ <-]. by exists b. Qed.

Lemma sint_cases v : i64_min <= v <= i64_max ->
  (0 <= v /\ sint v = uint v) \/ (-32 <= v < 0 /\ sint v = [v + 256]) \/
  exists n b, (0 < n <= 8)%nat /\ sint v = b :: be_bytes n (wrap (8 * Z.of_nat n) v) /\ scalar (marker_of b) = Some (Z.of_nat n) /\
    forall r, match marker_of b with
      | I8 => signed 1 (be_bytes n (wrap (8 * Z.of_nat n) v) ++ r) | I16 => signed 2 (be_bytes n (wrap (8 * Z.of_nat n) v) ++ r)
      | I32 => signed 4 (be_bytes n (wrap (8 * Z.of_nat n) v) ++ r) | I64 => signed 8 (be_bytes n (wrap (8 * Z.of_nat n) v) ++ r)
      | _ => None
      end = Some (v, r).
Proof.
  intros Hv. unfold i64_min, i64_max in Hv. unfold sint. destruct (Z.leb_spec 0 v); [by left|right]. destruct (Z.leb_spec (-32) v); [left; split; [lia|done]|right].
  destruct (Z.leb_spec (- 2 ^ 7) v); [|destruct (Z.leb_spec (- 2 ^ 15) v); [|destruct (Z.leb_spec (- 2 ^ 31) v)]].
  - exists 1%nat, 0xd0. split_and!; [lia|lia|done|done|]. intros r. apply (signed_number_app 1); cbn; lia.
  - exists 2%nat, 0xd1. split_and!; [lia|lia|done|done|]. intros r. apply (signed_number_app 2); cbn; lia.
  - exists 4%nat, 0xd2. split_and!; [lia|lia|done|done|]. intros r. apply (signed_number_app 4); cbn; lia.
  - exists 8%nat, 0xd3. split_and!; [lia|lia|done|done|]. intros r. apply (signed_number_app 8); cbn; lia.
Qed.

Lemma uint_marker v : in_u 64 v -> exists m p, (forall r, marker (uint v ++ r) = Some (m, p ++ r)) /\ scalar m = Some (len p).
Proof.
  intros Hv. destruct (uint_cases v Hv) as [[Hs ->]|(n & b & _ & _ & -> & Hs & _)].
  - exists (FixPos v), []. split; [|done]. intros r. cbn. by rewrite marker_fix_pos by (cbn in Hs; lia).
  - exists (marker_of b), (be_bytes n v). split; [done|]. rewrite Hs. unfold len. by rewrite be_bytes_length.
Qed.

Lemma uint_at lo hi v r : in_u 64 v -> lo <= v <= hi -> int lo hi (uint v ++ r) = Some (v, r).
Proof.
  intros Hv Hr. destruct (uint_cases v Hv) as [[Hs ->]|(n & b & _ & _ & -> & _ & Hn)]; apply int_step; try done.
  - by rewrite marker_fix_pos by (cbn in Hs; lia).
  - specialize (Hn r). by destruct (marker_of b).
Qed.

Lemma sint_marker v : i64_min <= v <= i64_max -> exists m p, (forall r, marker (sint v ++ r) = Some (m, p ++ r)) /\ scalar m = Some (len p).
Proof.
  intros Hv. destruct (sint_cases v Hv) as [[Hs ->]|[[Hs ->]|(n & b & _ & -> & Hs & _)]].
  - apply uint_marker. unfold in_u, i64_max in *. lia.
  - exists (FixNeg v), []. split; [|done]. intros r. cbn. by rewrite marker_fix_neg.
  - exists (marker_of b), (be_bytes n (wrap (8 * Z.of_nat n) v)). split; [done|]. rewrite Hs. unfold len. by rewrite be_bytes_length.
Qed.

Lemma sint_at lo hi v r : i64_min <= v <= i64_max -> lo <= v <= hi -> int lo hi (sint v ++ r) = Some (v, r).
Proof.
  intros Hv Hr. destruct (sint_cases v Hv) as [[Hs ->]|[[Hs ->]|(n & b & _ & -> & _ & Hn)]].
  - apply uint_at; [|done]. unfold in_u, i64_max in *. lia.
  - apply int_step; [|done]. by rewrite marker_fix_neg.
  - apply int_step; [|done]. specialize (Hn r). by destruct (marker_of b).
Qed.

Lemma len_be n v : len (be_bytes n v) = Z.of_nat n.
Proof. unfold len. by rewrite be_bytes_length. Qed.

Lemma uint_length v : len (uint v) = uint_size v.
Proof. unfold uint, uint_size. repeat case_match; rewrite ?len_cons, ?len_be; done. Qed.

Lemma sint_length v : len (sint v) <= 9.
Proof.
  unfold sint. repeat case_match; rewrite ?len_cons, ?len_be; try (unfold len; cbn; lia). rewrite uint_length. unfold uint_size. repeat case_match; lia.
Qed.

Lemma bin_length n : len (bin_header n) = bin_size n.
Proof. unfold bin_header, length_field, bin_size. repeat case_match; rewrite ?len_cons, ?len_be; done. Qed.

Lemma float_read n b v r ms : marker_of b = ms -> in_u (8 * Z.of_nat n) v ->
  forall f : Marker -> option (bytes -> option (Z * bytes)), f ms = Some (number n) -> length_after f ((b :: be_bytes n v) ++ r) = Some (v, r).
Proof. intros <- Hv f Hf. unfold length_after. cbn [marker app mbind option_bind]. rewrite Hf. by apply number_app. Qed.

Lemma int_in_range lo hi rd v r : int lo hi rd = Some (v, r) -> lo <= v <= hi.
Proof.
  unfold int. destruct (marker rd) as [[m rd']|]; [|done]. cbn [mbind option_bind]. intros E. apply bind_Some in E as ([v' r'] & _ & E).
  unfold int_at in E. cbn in E. destruct (Z.leb_spec lo v'), (Z.leb_spec v' hi); cbn in E; by simplify_eq.
Qed.

Lemma bin_in_range rd n r :
  length_after (fun m => match m with Bin8 => Some (number 1) | Bin16 => Some (number 2) | Bin32 => Some (number 4) | _ => None end) rd = Some (n, r) -> in_u 32 n.
Proof.
  unfold length_after. destruct rd as [|b rd]; [done|]. cbn [marker mbind option_bind].
  assert (forall k, (k <= 4)%nat -> number k rd = Some (n, r) -> in_u 32 n) as Hk; [|destruct (marker_of b); cbn; try done; apply Hk; lia].
  intros k Hk. unfold number. destruct (Nat.leb_spec k (length rd)); [|done]. intros [= <- _]. apply (in_u_le (8 * Z.of_nat k)); [lia|].
  apply Z.mod_pos_bound, Z.pow_pos_nonneg; lia.
Qed.

#[export] Instance format_laws : RmpLaws.
Proof.
  split.
  - exact byte_of_wire.
  - exact uint_marker.
  - exact int_in_range.
  - exact uint_at.
  - intros v r Hv. split.
    + cbn. unfold uint. by destruct (Z.ltb_spec v (2 ^ 7)); [|lia].
    + cbn. by rewrite marker_fix_pos by (cbn in Hv; lia).
  - intros v r Hv. cbn. unfold uint. destruct (Z.ltb_spec v (2 ^ 7)); [lia|]. destruct (Z.ltb_spec v (2 ^ 8)); [|lia]. cbn -[be_bytes].
    f_equal. f_equal. unfold be_bytes. change (reverse (le_bytes 1 v)) with [v mod 256]. by rewrite Z.mod_small by lia.
  - intros v _. apply uint_length.
  - exact sint_marker.
  - exact sint_at.
  - intros v _. apply sint_length.
  - intros [|]; [exists True_, []|exists False_, []]; by split.
  - by intros [|] r.
  - intros v Hv. exists F32, (be_bytes 4 v). by split.
  - intros v r Hv. by apply (float_read 4 0xca v r F32).
  - intros v Hv. exists F64, (be_bytes 8 v). by split.
  - intros v r Hv. by apply (float_read 8 0xcb v r F64).
  - done.
  - exact bin_in_range.
  - intros s. change (len s <= len (bin_header (len s) ++ s)). rewrite len_app. pose proof (len_nonneg (bin_header (len s))). lia.
  - intros n Hn. apply (heads_wire _ n _ blob_header (bin_heads n Hn)). intros m k p. apply blob_shape.
  - intros n r Hn. apply (heads_read _ n _ _ r (bin_heads n Hn)). exact bin_accepts.
  - intros n _. apply bin_length.
  - intros s Hs. assert (in_u 32 (len s)) as Hu by (unfold in_u, u32_max in *; pose proof (len_nonneg s); lia). exists (str_header (len s)).
    destruct (str_heads (len s) Hu) as [[Hl E]|Hh].
    + exists (FixStr (len s)), []. pose proof (len_nonneg s). assert (marker_of (0xa0 + len s) = FixStr (len s)) as Hm by (apply marker_fix_str; lia).
      split_and!; [done|intros r; rewrite E; cbn; unfold length_after; cbn [marker mbind option_bind]; by rewrite Hm|intros r; rewrite E; cbn; by rewrite Hm|constructor].
    + destruct (heads_wire _ _ _ blob_header Hh) as (m & p & Hm & Hb); [intros m k p; apply str_shape|]. exists m, p. split_and!; try done.
      intros r. apply (heads_read _ _ _ _ r Hh). intros m' k. rewrite !elem_of_cons, elem_of_nil. by intros [[= -> ->]|[[= -> ->]|[[= -> ->]|[]]]].
  - intros n Hn. destruct (array_heads n Hn) as [[Hl E]|Hh]; cbn; [rewrite E|apply (heads_wire _ n _ array_header Hh); intros m k p; apply array_shape].
    exists (FixArray n), []. unfold in_u in Hn. split; [|constructor]. intros r. cbn. by rewrite marker_fix_array by lia.
  - intros n r Hn. cbn. destruct (array_heads n Hn) as [[Hl E]|Hh].
    + rewrite E. unfold length_after. cbn. unfold in_u in Hn. by rewrite marker_fix_array by lia.
    + apply (heads_read _ n _ _ r Hh). intros m k. rewrite !elem_of_cons, elem_of_nil. by intros [[= -> ->]|[[= -> ->]|[]]].
  - intros n Hn. cbn. unfold array_len. by destruct (Z.ltb_spec n 16); [|lia].
  - intros n Hn. destruct (map_heads n Hn) as [[Hl E]|Hh]; cbn; [rewrite E|apply (heads_wire _ n _ map_header Hh); intros m k p; apply map_shape].
    exists (FixMap n), []. unfold in_u in Hn. split; [|by constructor]. intros r. cbn. by rewrite marker_fix_map by lia.
  - intros n r Hn. cbn. destruct (map_heads n Hn) as [[Hl E]|Hh].
    + rewrite E. unfold length_after. cbn. unfold in_u in Hn. by rewrite marker_fix_map by lia.
    + apply (heads_read _ n _ _ r Hh). intros m k. rewrite !elem_of_cons, elem_of_nil. by intros [[= -> ->]|[[= -> ->]|[]]].
Qed.

End Format.
