(* ===== verification/Wire.v ===== *)
(** The packets and envelopes of [tox-sequenced/src/protocol.rs] on the wire: what
    the derive macros make of their declarations, and the codec of envelopes that
    the session is given. *)

From S2P Require Import Prelude Protocol Session MsgPack ToxTypes Derive.
#[local] Open Scope Z_scope.
#[local] Open Scope list_scope.

Module Wire.

Section Types.
Context `{Rmp}.

(** [protocol_newtype!]: flat structs of one field. *)
Definition newtype (F : ToxType Z) : ToxType Z := derive_transparent F (fun x => x) (fun x => x).
Definition message_id : ToxType Z := newtype u32.
Definition fragment_index : ToxType Z := newtype u16.
Definition fragment_count : ToxType Z := newtype u16.
Definition timestamp_ms : ToxType Z := newtype i64.

(** A variant without fields. *)
Definition bare {A} `{EqDecision A} (tag : A -> Z) (x : A) : variant A := unit_variant (tag x) (fun y => bool_decide (y = x)) x.

Definition priority_type : ToxType Priority := derive_enum (bare priority_level <$> [Critical; High; Standard; Low; Bulk]) None.

Definition message_types : list MessageType :=
  [CapsAnnounce; CapsAck; SyncHeads; FetchBatchReq; MerkleNode; BlobQuery; BlobAvail; BlobReq; BlobData; SyncSketch; SyncReconFail;
   SyncShardChecksums; HandshakeError; SyncRateLimited; KeywrapAck; ReinclusionRequest; ReinclusionResponse; ReconPowChallenge;
   ReconPowSolution; AdminGossip].
Definition message_type : ToxType MessageType := derive_enum (bare message_type_tag <$> message_types) None.

(** [SelectiveAck], [Nack] *)
Definition selective_ack : ToxType SelectiveAck :=
  derive_struct (FCons message_id (FCons fragment_index (FCons u64 (FCons fragment_count FNil))))
    (fun a => (ack_message_id a, (ack_base_index a, (ack_bitmask a, (ack_rwnd a, tt)))))
    (fun '(m, (b, (k, (w, _)))) => mkAck m b k w).
Definition nack : ToxType Nack :=
  derive_struct (FCons message_id (FCons (seq_type fragment_index) FNil))
    (fun n => (nack_message_id n, (missing_indices n, tt))) (fun '(m, (l, _)) => mkNack m l).

(** [Packet] *)
Definition data_variant : variant Packet :=
  multi_variant 0 (FCons message_id (FCons fragment_index (FCons fragment_count (FCons (vec_type u8) FNil))))
    (fun p => match p with Data m i t d => Some (m, (i, (t, (d, tt)))) | _ => None end) (fun '(m, (i, (t, (d, _)))) => Data m i t d).
Definition ack_variant : variant Packet :=
  single_variant 1 selective_ack (fun p => match p with AckP a => Some a | _ => None end) AckP.
Definition nack_variant : variant Packet :=
  single_variant 2 nack (fun p => match p with NackP n => Some n | _ => None end) NackP.
Definition ping_variant : variant Packet :=
  single_variant 3 timestamp_ms (fun p => match p with Ping t1 => Some t1 | _ => None end) Ping.
Definition pong_variant : variant Packet :=
  multi_variant 4 (FCons timestamp_ms (FCons timestamp_ms (FCons timestamp_ms FNil)))
    (fun p => match p with Pong t1 t2 t3 => Some (t1, (t2, (t3, tt))) | _ => None end) (fun '(t1, (t2, (t3, _))) => Pong t1 t2 t3).
Definition datagram_variant : variant Packet :=
  multi_variant 5 (FCons message_type (FCons (vec_type u8) FNil))
    (fun p => match p with Datagram mt d => Some (mt, (d, tt)) | _ => None end) (fun '(mt, (d, _)) => Datagram mt d).
Definition packet_variants : list (variant Packet) :=
  [data_variant; ack_variant; nack_variant; ping_variant; pong_variant; datagram_variant].
Definition packet : ToxType Packet := derive_enum packet_variants None.

(** ** Envelopes *)

(** The field [payload: &[u8]], which is only written. *)
Definition slice : ToxType bytes :=
  mkType None false (default_flat_len None) (fun _ s => serialize_slice s) no_flat_out no_flat_in no_flat_in (fun _ => None) (fun _ => None).

Definition outbound_envelope : ToxType (MessageType * bytes) :=
  derive_struct (FCons message_type (FCons slice FNil)) (fun e => (e.1, (e.2, tt))) (fun '(mt, (d, _)) => (mt, d)).
Definition inbound_envelope : ToxType (MessageType * bytes) :=
  derive_struct (FCons message_type (FCons (vec_type u8) FNil)) (fun e => (e.1, (e.2, tt))) (fun '(mt, (d, _)) => (mt, d)).

(** The texts of the errors, without their details. *)
Definition error_text (e : Error) : string :=
  match e with Io => "IO error" | Deserialize => "Deserialize error" | Serialize => "Serialize error" end.
Definition outcome {A} (m : M A) : result string A :=
  match m with Some (Ok a) => Ok a | Some (Err e) => Err (error_text e) | None => Err "panic" end.

Definition wire_codec : EnvelopeCodec := {|
  serialize_envelope mt d := outcome (to_vec outbound_envelope (mt, d));
  deserialize_envelope b := outcome (from_slice inbound_envelope b)
|}.

End Types.
End Wire.
