(* ===== verification/WireTheory.v ===== *)
(** What the wire format guarantees: packets and envelopes survive encoding, data
    packets fit a Tox packet, whatever arrives decodes to well-typed packets, and
    readers cope with values of other versions. *)

From S2P Require Import Prelude Protocol Session SessionSystem MsgPack MsgPackTheory MsgPackFormat ToxTypes ToxTheory Derive DeriveTheory Wire.
From stdpp Require Import list gmap.
#[local] Open Scope Z_scope.
#[local] Open Scope list_scope.

Module WireTheory.
Import Wire.

(** One goal for each field. *)
Ltac fields := repeat first [apply fnil_lawful | apply fcons_lawful].
Ltac fields_typed := repeat first [apply fnil_typed | apply fcons_typed].

Section Laws.
Context `{RmpLaws}.

(** ** Packets *)

Definition bytes_ok (d : bytes) : Prop := short d /\ Forall (in_u 8) d.
Definition i64_ok (t : Z) : Prop := i64_min <= t <= i64_max.

Definition packet_ok (p : Packet) : Prop :=
  match p with
  | Data m i t d => in_u 32 m /\ in_u 16 i /\ in_u 16 t /\ bytes_ok d
  | AckP a => in_u 32 (ack_message_id a) /\ in_u 16 (ack_base_index a) /\ in_u 64 (ack_bitmask a) /\ in_u 16 (ack_rwnd a)
  | NackP n => in_u 32 (nack_message_id n) /\ short (missing_indices n) /\ Forall (in_u 16) (missing_indices n)
  | Ping t1 => i64_ok t1
  | Pong t1 t2 t3 => i64_ok t1 /\ i64_ok t2 /\ i64_ok t3
  | Datagram _ d => bytes_ok d
  end.

Lemma newtype_lawful F ok : lawful F ok -> lawful (newtype F) ok.
Proof. intros HF. apply (lawful_weaken _ _ _ (fun a Ha => conj Ha eq_refl) (transparent_lawful F (fun x => x) (fun x => x) ok HF)). Qed.

Lemma message_id_lawful : lawful message_id (in_u 32).
Proof. apply newtype_lawful, (uint_lawful 4). lia. Qed.
Lemma index_lawful : lawful fragment_index (in_u 16).
Proof. apply newtype_lawful, (uint_lawful 2). lia. Qed.
Lemma count_lawful : lawful fragment_count (in_u 16).
Proof. exact index_lawful. Qed.
Lemma timestamp_lawful : lawful timestamp_ms i64_ok.
Proof.
  apply newtype_lawful, (lawful_weaken _ (fun v => - 2 ^ (8 * Z.of_nat 8 - 1) <= v < 2 ^ (8 * Z.of_nat 8 - 1))); [|apply (sint_lawful 8); lia].
  intros t Ht. unfold i64_ok, i64_min, i64_max in Ht. cbn. lia.
Qed.
Lemma bytes_lawful : lawful (vec_type u8) bytes_ok.
Proof. apply (vec_lawful u8 (in_u 8)); [apply u8_lawful|apply u8_bytewise]. Qed.

(** Enums of bare variants. *)
Lemma bare_lawful {A} `{EqDecision A} (tag : A -> Z) xs :
  NoDup (tag <$> xs) -> (forall x, x ∈ xs -> in_u 8 (tag x)) -> (forall x, x ∈ xs) -> lawful (derive_enum (bare tag <$> xs) None) (fun _ => True).
Proof.
  intros Hnd Ht Hall. apply enum_lawful; [by rewrite <- list_fmap_compose|]. intros x _. specialize (Hall x). apply list_elem_of_split in Hall as (l1 & l2 & ->).
  exists (bare tag <$> l1), (bare tag x), (bare tag <$> l2). split; [by rewrite fmap_app|]. split.
  - apply unit_arm; [apply Ht, elem_of_app; right; left|by apply bool_decide_eq_true].
  - intros w ctx (y & -> & Hy)%list_elem_of_fmap. cbn. rewrite bool_decide_false; [done|]. intros ->. rewrite fmap_app in Hnd. apply NoDup_app in Hnd as (_ & Hd & _).
    apply (Hd (tag y)); [by apply list_elem_of_fmap_2|left].
Qed.

Lemma message_type_lawful : lawful message_type (fun _ => True).
Proof.
  apply bare_lawful; [refine (bool_decide_unpack _ _); by vm_compute|intros [] _; unfold in_u; cbn; lia|].
  intros x. apply list_elem_of_In. destruct x; cbn; tauto.
Qed.

Lemma priority_lawful : lawful priority_type (fun _ => True).
Proof.
  apply bare_lawful; [refine (bool_decide_unpack _ _); by vm_compute|intros [] _; unfold in_u; cbn; lia|].
  intros x. apply list_elem_of_In. destruct x; cbn; tauto.
Qed.

Lemma selective_ack_lawful : lawful selective_ack (fun a => packet_ok (AckP a)).
Proof.
  eapply lawful_weaken; cycle 1.
  - apply struct_lawful; [fields; [apply message_id_lawful|apply index_lawful|apply (uint_lawful 8); lia|apply count_lawful]|by vm_compute].
  - intros [m b k w] (? & ? & ? & ?). split_and!; done.
Qed.

Lemma nack_lawful : lawful nack (fun n => packet_ok (NackP n)).
Proof.
  eapply lawful_weaken; cycle 1.
  - apply struct_lawful; [fields; [apply message_id_lawful|apply seq_lawful, index_lawful]|by vm_compute].
  - intros [m l] (? & ? & ?). split_and!; done.
Qed.

Lemma in_tag v : 0 <= v < 256 -> in_u 8 v.
Proof. done. Qed.

(** The arm of each kind of packet. *)
Lemma packet_arm p : packet_ok p -> arm_of packet_variants p.
Proof.
  destruct p as [m i t d|a|n|t1|t1 t2 t3|mt d]; intros Hp.
  - exists [], data_variant, [ack_variant; nack_variant; ping_variant; pong_variant; datagram_variant]. split; [done|]. split; [|by intros w ctx ?%not_elem_of_nil].
    eapply multi_arm; [by apply in_tag|fields; [apply message_id_lawful|apply index_lawful|apply count_lawful|apply bytes_lawful]|by vm_compute|done|naive_solver|done].
  - exists [data_variant], ack_variant, [nack_variant; ping_variant; pong_variant; datagram_variant]. split; [done|]. split; [|by intros w ctx ->%list_elem_of_singleton].
    by eapply single_arm; [apply in_tag|apply selective_ack_lawful|..].
  - exists [data_variant; ack_variant], nack_variant, [ping_variant; pong_variant; datagram_variant]. split; [done|]. split.
    + by eapply single_arm; [apply in_tag|apply nack_lawful|..].
    + by intros w ctx [->| ->%list_elem_of_singleton]%elem_of_cons.
  - exists [data_variant; ack_variant; nack_variant], ping_variant, [pong_variant; datagram_variant]. split; [done|]. split.
    + by eapply single_arm; [apply in_tag|apply timestamp_lawful|..].
    + by intros w ctx [->|[->| ->%list_elem_of_singleton]%elem_of_cons]%elem_of_cons.
  - exists [data_variant; ack_variant; nack_variant; ping_variant], pong_variant, [datagram_variant]. split; [done|]. split.
    + eapply multi_arm; [by apply in_tag|fields; apply timestamp_lawful|by vm_compute|done|naive_solver|done].
    + by intros w ctx [->|[->|[->| ->%list_elem_of_singleton]%elem_of_cons]%elem_of_cons]%elem_of_cons.
  - exists [data_variant; ack_variant; nack_variant; ping_variant; pong_variant], datagram_variant, []. split; [done|]. split.
    + eapply multi_arm; [by apply in_tag|fields; [apply message_type_lawful|apply bytes_lawful]|by vm_compute|done|naive_solver|done].
    + by intros w ctx [->|[->|[->|[->| ->%list_elem_of_singleton]%elem_of_cons]%elem_of_cons]%elem_of_cons]%elem_of_cons.
Qed.

Lemma packet_lawful : lawful packet packet_ok.
Proof. apply enum_lawful; [refine (bool_decide_unpack _ _); by vm_compute|apply packet_arm]. Qed.

(** ** Decoded packets *)

(** The ranges of the fields of a packet that was read. *)
Definition decoded_ok (p : Packet) : Prop :=
  match p with
  | Data m i t d => in_u 32 m /\ in_u 16 i /\ in_u 16 t /\ short d
  | AckP a => in_u 32 (ack_message_id a) /\ in_u 16 (ack_base_index a) /\ in_u 64 (ack_bitmask a) /\ in_u 16 (ack_rwnd a)
  | NackP n => in_u 32 (nack_message_id n) /\ Forall (in_u 16) (missing_indices n)
  | Ping t1 => i64_ok t1
  | Pong t1 t2 t3 => i64_ok t1 /\ i64_ok t2 /\ i64_ok t3
  | Datagram _ d => short d
  end.

Lemma newtype_typed F P : typed F P -> typed (newtype F) P.
Proof. intros HF. eapply typed_weaken; [|by apply transparent_typed]. intros a (x & -> & Hx). exact Hx. Qed.

Lemma message_id_typed : typed message_id (in_u 32).
Proof. apply newtype_typed, (uint_typed 4). Qed.
Lemma index_typed : typed fragment_index (in_u 16).
Proof. apply newtype_typed, (uint_typed 2). Qed.
Lemma timestamp_typed : typed timestamp_ms i64_ok.
Proof.
  apply newtype_typed. eapply typed_weaken; [|apply (sint_typed 8)]. intros v Hv. unfold i64_ok, i64_min, i64_max. cbn in Hv. lia.
Qed.
Lemma any_typed {A} (T : ToxType A) : typed T (fun _ => True).
Proof. by intros ctx rd a r _. Qed.

Lemma struct_typed {S T} (fs : fields T) (get : S -> T) make P : fields_typed fs P -> typed (derive_struct fs get make) (fun s => exists v, s = make v /\ P v).
Proof. intros Hfs ctx. by apply array_typed. Qed.

Lemma packet_typed : typed packet decoded_ok.
Proof.
  apply enum_typed. repeat (apply Forall_cons; split); [..|by constructor].
  - eapply arm_typed_weaken; [|apply multi_typed; fields_typed; [apply message_id_typed|apply index_typed|apply index_typed|apply vec_u8_typed]].
    intros s ((m & i & t & d & []) & -> & ? & ? & ? & ? & _). by cbn in *.
  - eapply arm_typed_weaken; [|apply single_typed, struct_typed; fields_typed; [apply message_id_typed|apply index_typed|apply (uint_typed 8)|apply index_typed]].
    intros s (a & -> & (m & b & k & w & []) & -> & ? & ? & ? & ? & _). by cbn in *.
  - eapply arm_typed_weaken; [|apply single_typed, struct_typed; fields_typed; [apply message_id_typed|apply seq_typed, index_typed]].
    intros s (a & -> & (m & l & []) & -> & ? & ? & _). by cbn in *.
  - eapply arm_typed_weaken; [|apply single_typed, timestamp_typed]. by intros s (a & -> & ?).
  - eapply arm_typed_weaken; [|apply multi_typed; fields_typed; apply timestamp_typed]. intros s ((t1 & t2 & t3 & []) & -> & ? & ? & ? & _). by cbn in *.
  - eapply arm_typed_weaken; [|apply multi_typed; fields_typed; [apply any_typed|apply vec_u8_typed]]. intros s ((mt & d & []) & -> & _ & ? & _). by cbn in *.
Qed.

(** ** Sizes *)

Lemma uint_at_most v w k : in_u w v -> 0 <= w <= 64 -> uint_size (2 ^ w - 1) = k -> len (write_uint v) <= k.
Proof.
  intros Hv Hw <-. rewrite uint_len by (apply (in_u_le w); done). unfold in_u in Hv. unfold uint_size. repeat case_match; lia.
Qed.

Lemma data_size ctx m i t d : in_u 32 m -> in_u 16 i -> in_u 16 t -> len d < 2 ^ 16 ->
  exists b, serialize packet ctx (Data m i t d) = ret b /\ len b <= len d + 17.
Proof.
  intros Hm Hi Ht Hd. assert (mapM (to_byte u8) d = Some d) as E.
  { clear Hd. induction d as [|x d IH]; [done|]. cbn [mapM]. cbn in IH |- *. by rewrite IH. }
  pose proof (len_nonneg d). assert (in_u 32 (len d)) as Hu by (unfold in_u; lia).
  eexists. split.
  - cbn -[write_uint is_byte_size]. change (is_byte_size u8) with true. cbn iota. unfold as_bytes. rewrite E. cbn. reflexivity.
  - rewrite !len_app, bin_bytes, len_app, bin_len by (unfold u32_max; lia || done). rewrite !array_fixed by lia. cbn [len].
    pose proof (uint_at_most 0 7 1 ltac:(done) ltac:(lia) eq_refl). pose proof (uint_at_most m 32 5 Hm ltac:(lia) eq_refl).
    pose proof (uint_at_most i 16 3 Hi ltac:(lia) eq_refl). pose proof (uint_at_most t 16 3 Ht ltac:(lia) eq_refl).
    unfold bin_size. change (len [0x90 + 2]) with 1. change (len [0x90 + (1 + (1 + (1 + (1 + 0))))]) with 1. change (len (@nil Z)) with 0. repeat case_match; lia.
Qed.

(** ** Envelopes *)

Lemma plain_bytes (d : bytes) : mapM (to_byte u8) d = Some d.
Proof. induction d as [|x d IH]; [done|]. cbn [mapM]. cbn in IH |- *. by rewrite IH. Qed.

(** Both forms of an envelope have the same bytes. *)
Lemma outbound_inbound ctx e : serialize outbound_envelope ctx e = serialize inbound_envelope ctx e.
Proof.
  destruct e as [mt d]. cbn -[is_byte_size message_type]. change (is_byte_size u8) with true. cbn iota. unfold as_bytes. rewrite plain_bytes. done.
Qed.

Lemma inbound_lawful : lawful inbound_envelope (fun e => short e.2).
Proof.
  eapply lawful_weaken; cycle 1.
  - apply struct_lawful; [apply fcons_lawful; [apply message_type_lawful|apply fcons_lawful; [|apply fnil_lawful]]|by vm_compute].
    apply (vec_bytes_lawful u8 (fun _ => True)); [done|apply u8_bytewise].
  - intros [mt d] Hd. cbn in *. split_and!; try done. by apply Forall_true.
Qed.

Lemma envelope_bytes mt d : to_vec outbound_envelope (mt, d) = ret (0x92 :: message_type_tag mt :: write_bin d).
Proof.
  assert (0 <= message_type_tag mt < 2 ^ 7) as Ht by (destruct mt; cbn; lia). destruct (uint_fix (message_type_tag mt) [] Ht) as [Hu _].
  unfold to_vec, serialize_with_ctx. rewrite outbound_inbound. cbn -[is_byte_size message_type]. change (is_byte_size u8) with true. cbn iota.
  unfold as_bytes. rewrite plain_bytes, array_fixed by done. assert (serialize message_type empty_ctx mt = ret [message_type_tag mt]) as ->.
  { rewrite <- Hu. by destruct mt. }
  cbn. by rewrite app_nil_r.
Qed.

Lemma envelope_decodes mt d p : outcome (to_vec outbound_envelope (mt, d)) = Ok p -> len p <= MAX_MESSAGE_SIZE ->
  outcome (from_slice inbound_envelope p) = Ok (mt, d).
Proof.
  rewrite envelope_bytes. intros [= <-] Hl. rewrite !len_cons in Hl. pose proof (bin_long d). assert (short d) as Hd by (unfold short, MAX_MESSAGE_SIZE, u32_max in *; lia).
  destruct (inbound_lawful empty_ctx (mt, d) Hd) as (b & E1 & E2 & _). rewrite <- outbound_inbound in E1. pose proof (envelope_bytes mt d) as Eb.
  unfold to_vec, serialize_with_ctx in Eb. rewrite E1 in Eb. injection Eb as ->. specialize (E2 []). rewrite app_nil_r in E2.
  unfold from_slice, deserialize_with_ctx. by rewrite E2.
Qed.

#[export] Instance wire_codec_laws : @CodecLaws wire_codec.
Proof. split. exact envelope_decodes. Qed.

End Laws.
(** ** The properties *)

(** every packet whose fields are in the ranges of their types is written as
    the bytes of one MessagePack value, and reading these bytes in front of anything
    returns the packet and leaves the rest. *)
Theorem packet_roundtrip `{RmpLaws} ctx p : packet_ok p ->
  exists b, serialize packet ctx p = ret b /\ (forall r, deserialize packet ctx (b ++ r) = ret (p, r)) /\ forall r, skip_value (b ++ r) = ret (tt, r).
Proof. intros Hp. destruct (packet_lawful ctx p Hp) as (b & ? & ? & ?). by exists b. Qed.

(** whatever bytes arrive, a packet read from them has all its fields in range,
    so it is one that the session's handler is proved safe for. *)
Theorem packet_decodes_typed `{RmpLaws} ctx rd p r : deserialize packet ctx rd = ret (p, r) -> decoded_ok p /\ Endpoint.well_typed p.
Proof.
  intros E%packet_typed. split; [done|]. destruct p as [m i t d| | | | |]; try done. destruct E as (_ & ? & ? & Hd). unfold short, u32_max in Hd.
  cbn. split_and!; [done..|lia].
Qed.

(** the envelope that a session writes is read back as the message it was made
    from whenever it is small enough to be sent, and its first two bytes reveal the
    message type to [peek_message_type]. *)
Theorem envelope_codec `{RmpLaws} mt d p : @serialize_envelope wire_codec mt d = Ok p ->
  peek_message_type p = Some mt /\ (len p <= MAX_MESSAGE_SIZE -> @deserialize_envelope wire_codec p = Ok (mt, d)).
Proof.
  intros E. split; [|by apply envelope_decodes]. change (outcome (to_vec outbound_envelope (mt, d)) = Ok p) in E. rewrite envelope_bytes in E. injection E as <-. apply peek_tag.
Qed.

(** a data packet with a payload of at most the fragment size that the session
    cuts messages into ([MAX_TOX_PACKET_SIZE - PACKET_OVERHEAD]) fits a Tox packet. *)
Theorem data_packet_fits `{RmpLaws} ctx m i t d : in_u 32 m -> in_u 16 i -> in_u 16 t -> len d <= MAX_TOX_PACKET_SIZE - PACKET_OVERHEAD ->
  exists b, serialize packet ctx (Data m i t d) = ret b /\ len b <= MAX_TOX_PACKET_SIZE.
Proof.
  intros Hm Hi Ht Hd. unfold MAX_TOX_PACKET_SIZE, PACKET_OVERHEAD in *. destruct (data_size ctx m i t d Hm Hi Ht) as (b & E & Hb); [lia|].
  exists b. split; [done|lia].
Qed.

(** the generic implementations preserve round trips: sequences, vectors and
    arrays (as binaries for types of one byte), options, results, maps in whatever
    order they are iterated, and pointers, of types that round-trip, round-trip. *)
Theorem containers_roundtrip `{RmpLaws} {A B} `{Countable A} (T : ToxType A) (U : ToxType B) okT okU n order :
  lawful T okT -> lawful U okU -> bytewise T okT -> Z.of_nat n <= u32_max -> (forall m, order m ≡ₚ map_to_list m) ->
  lawful (vec_type T) (fun l => short l /\ Forall okT l) /\
  lawful (seq_type T) (fun l => short l /\ Forall okT l) /\
  lawful (array_type T n) (fun l => length l = n /\ Forall okT l) /\
  lawful (option_type U) (fun o => match o with Some v => okU v | None => True end) /\
  lawful (result_type T U) (fun r => match r with Ok v => okT v | Err e => okU e end) /\
  lawful (map_type T U order) (fun m => Z.of_nat (size m) < 2 ^ 15 /\ map_Forall (fun k v => okT k /\ okU v) m) /\
  lawful (boxed U) okU.
Proof.
  intros HT HU Hb Hn Ho. split_and!; [by apply vec_lawful|by apply seq_lawful|by apply array_lawful|by apply option_lawful|by apply result_lawful|
    by apply map_lawful|by apply boxed_lawful].
Qed.

(** a derived struct is read from an array of its fields followed by any values
    that a later version adds, which are skipped; an array with fewer fields is an
    error whatever it contains. *)
Theorem struct_versions `{RmpLaws} {S T} (fs : fields T) (get : S -> T) (make : T -> S) ctx v bs extra r n :
  fields_encode fs ctx v bs -> Forall one_value extra -> field_count fs + len extra <= u32_max -> 0 <= n < field_count fs ->
  deserialize (derive_struct fs get make) ctx (write_array_len (field_count fs + len extra) ++ concat bs ++ concat extra ++ r) = ret (make v, r) /\
  deserialize (derive_struct fs get make) ctx (write_array_len n ++ r) = fail Deserialize.
Proof.
  intros Hv He Hl Hn. split; [exact (read_array_of fs make ctx v bs extra r Hv He Hl)|]. cbn. unfold deserialize_array, lift. pose proof (len_nonneg extra).
  rewrite array_read by (unfold in_u, u32_max in *; lia). cbn [andThen ret]. by destruct (Z.ltb_spec n (field_count fs)); [|lia].
Qed.

(** an enum with a catch-all keeps a variant with a payload that it does not
    know, and writes it back byte for byte. *)
Theorem unknown_variant_forwarded `{RmpLaws} {S} (vs : list (variant S)) (c : catch_all S) ctx tag p r :
  in_u 8 tag -> tag ∉ (v_tag <$> vs) -> one_value p -> (forall w, w ∈ vs -> v_serialize w ctx (c_inj c tag p) = None) ->
  c_proj c (c_inj c tag p) = Some (tag, p) ->
  deserialize (derive_enum vs (Some c)) ctx ((write_array_len 2 ++ write_uint tag ++ p) ++ r) = ret (c_inj c tag p, r) /\
  serialize (derive_enum vs (Some c)) ctx (c_inj c tag p) = ret (write_array_len 2 ++ write_uint tag ++ p).
Proof. apply unknown_forwarded. Qed.

(** skipping a value ends on every input: the recursion never goes deeper than
    the input is long (more fuel changes nothing); when it succeeds it has taken a
    non-empty prefix, which is what capturing the value returns. *)
Theorem skip_value_ends `{RmpLaws} rd fuel : (length rd < fuel)%nat ->
  skip_value_fuel fuel rd = skip_value rd /\
  forall r, skip_value rd = ret (tt, r) -> exists p, rd = p ++ r /\ p <> [] /\ capture_value rd = ret (p, r).
Proof.
  intros Hf. split; [by apply skip_value_fuel_eq|]. intros r Hr. destruct (skip_value_consumes rd r Hr) as (p & -> & Hp). exists p. split_and!; [done..|].
  unfold capture_value. rewrite Hr. cbn. rewrite length_app. replace (length p + length r - length r)%nat with (length p) by lia. by rewrite take_app_length.
Qed.

(** the number of values of a skipped map is computed in the width of its length
    field: a data packet that carries a fifth field with the header of a map of
    2^15 or more pairs overflows it, a panic with overflow checks on. *)
Theorem oversized_map_panics `{RmpLaws} ctx m i t d h p r :
  packet_ok (Data m i t d) -> (forall r, read_marker (h ++ r) = Some (Map16, p ++ r)) -> length p = 2%nat -> 2 ^ 15 <= from_be p ->
  exists f, serialize packet ctx (Data m i t d) = ret (write_array_len 2 ++ write_uint 0 ++ write_array_len 4 ++ f) /\
    deserialize packet ctx (write_array_len 2 ++ write_uint 0 ++ write_array_len 5 ++ f ++ h ++ r) = None.
Proof.
  intros (Hm & Hi & Ht & Hd) Hh Hp Hn.
  eassert (fields_lawful (FCons message_id (FCons fragment_index (FCons fragment_count (FCons (vec_type u8) FNil)))) _) as Hfs.
  { fields; [apply message_id_lawful|apply index_lawful|apply count_lawful|apply bytes_lawful]. }
  destruct (Hfs ctx (m, (i, (t, (d, tt))))) as (bs & E1 & _ & _ & E4); [by cbn; split_and!|]. exists (concat bs). split.
  - cbn -[write_fields write_uint]. rewrite E1. done.
  - assert (skip_value (h ++ r) = None) as Hskip.
    { rewrite (skip_marker h Map16 p r (Hh r)). cbn [skip_payload]. rewrite (read_len_app 2 p r Hp). cbn [andThen ret]. unfold chk_u16, chk.
      destruct (Z.leb_spec 0 (from_be p * 2)), (Z.leb_spec (from_be p * 2) u16_max); cbn; try done. unfold u16_max in *. lia. }
    cbn [deserialize packet derive_enum]. unfold deserialize_enum. rewrite enum_header_array by (done || apply small_array; lia). cbn [andThen ret].
    cbn [List.find packet_variants v_tag data_variant multi_variant Z.eqb v_deserialize negb Pos.eqb]. unfold lift at 1.
    rewrite array_read by (apply small_array; lia). cbn [andThen ret]. change (5 <? field_count _) with false. cbn iota. rewrite E4. cbn [andThen ret].
    change (5 - field_count _) with 1. unfold skip_values. cbn [repeat_skip Z.leb Z.compare]. by rewrite Hskip.
Qed.

(** ** Witnesses, over the MessagePack format *)

Import Format.

Lemma packet_roundtrip_witness :
  exists b, serialize packet None (AckP (mkAck 70000 300 (2 ^ 40) 64)) = ret b /\
    (forall r, deserialize packet None (b ++ r) = ret (AckP (mkAck 70000 300 (2 ^ 40) 64), r)) /\ forall r, skip_value (b ++ r) = ret (tt, r).
Proof. apply (packet_roundtrip None (AckP (mkAck 70000 300 (2 ^ 40) 64))). split_and!; by vm_compute. Defined.

Lemma packet_decodes_typed_witness :
  decoded_ok (Data 7 300 900 [1; 2]) /\ Endpoint.well_typed (Data 7 300 900 [1; 2]).
Proof.
  apply (packet_decodes_typed None [0x92; 0; 0x94; 7; 0xcd; 1; 44; 0xcd; 3; 132; 0xc4; 2; 1; 2; 255] (Data 7 300 900 [1; 2]) [255]). vm_compute. reflexivity.
Defined.

Lemma envelope_codec_witness :
  peek_message_type [0x92; 3; 0xc4; 2; 42; 43] = Some SyncHeads /\
  (len [0x92; 3; 0xc4; 2; 42; 43] <= MAX_MESSAGE_SIZE -> @deserialize_envelope wire_codec [0x92; 3; 0xc4; 2; 42; 43] = Ok (SyncHeads, [42; 43])).
Proof. apply (envelope_codec SyncHeads [42; 43] [0x92; 3; 0xc4; 2; 42; 43]). vm_compute. reflexivity. Defined.

Lemma data_packet_fits_witness :
  exists b, serialize packet None (Data 100000 700 775 (replicate 1353 9)) = ret b /\ len b <= MAX_TOX_PACKET_SIZE.
Proof. apply data_packet_fits; by vm_compute. Defined.

Lemma containers_roundtrip_witness :
  lawful (vec_type u16) (fun l => short l /\ Forall (in_u 16) l) /\
  lawful (seq_type u16) (fun l => short l /\ Forall (in_u 16) l) /\
  lawful (array_type u16 3) (fun l => length l = 3%nat /\ Forall (in_u 16) l) /\
  lawful (option_type bool_type) (fun o => match o with Some v => True | None => True end) /\
  lawful (result_type u16 bool_type) (fun r => match r with Ok v => in_u 16 v | Err e => True end) /\
  lawful (map_type u16 bool_type map_to_list) (fun m => Z.of_nat (size m) < 2 ^ 15 /\ map_Forall (fun k v => in_u 16 k /\ True) m) /\
  lawful (boxed bool_type) (fun _ => True).
Proof.
  apply containers_roundtrip; [apply (uint_lawful 2); lia|apply bool_lawful|by apply bytewise_wide|vm_compute; discriminate|done].
Defined.

Lemma struct_versions_witness :
  deserialize selective_ack None ([0x96] ++ concat [[7]; [1]; [0]; [64]] ++ concat [[0xc0]; [0x91; 5]] ++ [99]) = ret (mkAck 7 1 0 64, [99]) /\
  deserialize selective_ack None ([0x93] ++ [99]) = fail Deserialize.
Proof.
  refine (struct_versions (FCons message_id (FCons fragment_index (FCons u64 (FCons fragment_count FNil)))) _ _ None
    (7, (1, (0, (64, tt)))) [[7]; [1]; [0]; [64]] [[0xc0]; [0x91; 5]] [99] 3 _ _ _ _).
  - split; [done|]. split; [done|]. split; [|by intros r]. repeat constructor; apply (uint_one 7) || apply (uint_one 1) || apply (uint_one 0) || apply (uint_one 64); done.
  - constructor; [by apply (scalar_one [0xc0] Null [])|constructor; [|constructor]].
    change [0x91; 5] with (write_array_len 1 ++ concat [[5]]). apply (array_value [[5]] 1); [done|done|]. constructor; [change [5] with (write_uint 5); by apply uint_one|constructor].
  - vm_compute. discriminate.
  - vm_compute. split; [discriminate|reflexivity].
Defined.

(** An enum with one variant and a catch-all. *)
Inductive known := Known | Other (discriminant : Z) (data : bytes).
Definition known_variants : list (variant known) := [unit_variant 0 (fun k => match k with Known => true | _ => false end) Known].
Definition other_catch : catch_all known := mkCatch (fun k => match k with Other d b => Some (d, b) | _ => None end) Other.

Lemma unknown_variant_forwarded_witness :
  deserialize (derive_enum known_variants (Some other_catch)) None ((write_array_len 2 ++ write_uint 9 ++ [0xcc; 200]) ++ [1]) = ret (Other 9 [0xcc; 200], [1]) /\
  serialize (derive_enum known_variants (Some other_catch)) None (Other 9 [0xcc; 200]) = ret (write_array_len 2 ++ write_uint 9 ++ [0xcc; 200]).
Proof.
  apply (unknown_variant_forwarded known_variants other_catch None 9 [0xcc; 200] [1]).
  - done.
  - cbn. by intros ?%list_elem_of_singleton.
  - change [0xcc; 200] with (write_uint 200). by apply uint_one.
  - by intros w ->%list_elem_of_singleton.
  - done.
Defined.

Lemma skip_value_ends_witness :
  skip_value_fuel 20 [0x92; 5; 0x81; 1; 0xc3; 77] = skip_value [0x92; 5; 0x81; 1; 0xc3; 77] /\
  forall r, skip_value [0x92; 5; 0x81; 1; 0xc3; 77] = ret (tt, r) ->
    exists p, [0x92; 5; 0x81; 1; 0xc3; 77] = p ++ r /\ p <> [] /\ capture_value [0x92; 5; 0x81; 1; 0xc3; 77] = ret (p, r).
Proof. apply skip_value_ends. cbn. lia. Defined.

Lemma oversized_map_panics_witness :
  exists f, serialize packet None (Data 7 0 1 [9]) = ret (write_array_len 2 ++ write_uint 0 ++ write_array_len 4 ++ f) /\
    deserialize packet None (write_array_len 2 ++ write_uint 0 ++ write_array_len 5 ++ f ++ [0xde; 0x80; 0x00] ++ [1]) = None.
Proof.
  apply (oversized_map_panics None 7 0 1 [9] [0xde; 0x80; 0x00] [0x80; 0x00] [1]); [|done|done|vm_compute; discriminate].
  split_and!; [by vm_compute..|]. split; [by vm_compute|]. repeat constructor; by vm_compute.
Defined.


End WireTheory.
