(* ===== verification/Merkle.v ===== *)
(** What the files on [merkle-tox-core] share: keys and hashes, the orders of
    their bytes, permissions, and the libraries the crate calls.

    The newtypes of [tox-proto/src/lib.rs] ([NodeHash], [PhysicalDevicePk], ...)
    are the byte strings they wrap.  [HashMap] and [HashSet] are [gmap] and [gset];
    where the source iterates over one, the order is a parameter. *)

From S2P Require Import Prelude Protocol MsgPack ToxTypes Derive.
From stdpp Require Import gmap.
#[local] Open Scope Z_scope.
#[local] Open Scope list_scope.

(** ** Bytes *)

Definition NodeHash : Type := bytes.
Definition ConversationId : Type := bytes.
Definition LogicalIdentityPk : Type := bytes.
Definition PhysicalDevicePk : Type := bytes.
Definition Ed25519Signature : Type := bytes.

#[export] Instance NodeHash_eq_dec : EqDecision NodeHash := list_eq_dec.
#[export] Instance NodeHash_countable : Countable NodeHash := list_countable.

Definition to_physical (pk : LogicalIdentityPk) : PhysicalDevicePk := pk.
Definition to_logical (pk : PhysicalDevicePk) : LogicalIdentityPk := pk.
Definition to_node_hash (id : ConversationId) : NodeHash := id.
Definition to_conversation_id (h : NodeHash) : ConversationId := h.

(** [[0u8; 32]], [[0xFF; 32]] *)
Definition zero_hash : NodeHash := replicate 32 0.
Definition top_hash : NodeHash := replicate 32 255.

(** The derived order of byte arrays: lexicographic. *)
Fixpoint bytes_compare (a b : bytes) : comparison :=
  match a, b with
  | [], [] => Eq
  | [], _ :: _ => Lt
  | _ :: _, [] => Gt
  | x :: a, y :: b => match x ?= y with Eq => bytes_compare a b | c => c end
  end.

(** The order of pairs [(u64, NodeHash)]. *)
Definition ranked_compare (a b : Z * NodeHash) : comparison :=
  match a.1 ?= b.1 with Eq => bytes_compare a.2 b.2 | c => c end.
Definition ranked_ltb (a b : Z * NodeHash) : bool := match ranked_compare a b with Lt => true | _ => false end.
Definition ranked_leb (a b : Z * NodeHash) : bool := match ranked_compare a b with Gt => false | _ => true end.

Definition bytes_le (a b : bytes) : Prop := bytes_compare a b <> Gt.
#[export] Instance bytes_le_dec : RelDecision bytes_le := fun a b => decide (bytes_compare a b <> Gt).

Lemma bytes_compare_refl a : bytes_compare a a = Eq.
Proof. induction a as [|x a IH]; cbn; [done|]. by rewrite Z.compare_refl. Qed.

Lemma bytes_compare_eq a b : bytes_compare a b = Eq <-> a = b.
Proof.
  split; [|intros ->; apply bytes_compare_refl]. revert b. induction a as [|x a IH]; intros [|y b]; cbn; try done.
  destruct (Z.compare_spec x y) as [->| |]; try done. intros E. f_equal. by apply IH.
Qed.

Lemma bytes_compare_antisym a b : bytes_compare b a = CompOpp (bytes_compare a b).
Proof.
  revert b. induction a as [|x a IH]; intros [|y b]; cbn; try done.
  rewrite (Z.compare_antisym x y). destruct (x ?= y); cbn; done.
Qed.

Lemma bytes_compare_trans a b c : bytes_compare a b = Lt -> bytes_compare b c = Lt -> bytes_compare a c = Lt.
Proof.
  revert b c. induction a as [|x a IH]; intros [|y b] [|z c]; cbn; try done.
  destruct (Z.compare_spec x y), (Z.compare_spec y z), (Z.compare_spec x z); try done; try lia; subst; try lia. apply IH.
Qed.

Lemma ranked_compare_antisym a b : ranked_compare b a = CompOpp (ranked_compare a b).
Proof. unfold ranked_compare. rewrite (Z.compare_antisym a.1 b.1). destruct (a.1 ?= b.1); cbn; [apply bytes_compare_antisym|done|done]. Qed.

Lemma ranked_compare_eq a b : ranked_compare a b = Eq <-> a = b.
Proof.
  destruct a as [x a], b as [y b]. unfold ranked_compare. cbn. destruct (Z.compare_spec x y) as [->| |]; rewrite ?bytes_compare_eq; split; naive_solver lia.
Qed.

Lemma ranked_leb_total a b : ranked_leb a b = negb (ranked_ltb b a).
Proof. unfold ranked_leb, ranked_ltb. rewrite (ranked_compare_antisym a b). by destruct (ranked_compare a b). Qed.

(** ** Permissions ([dag.rs]) *)

Module Permissions.

(** A set of flags is its bits. *)
Definition t : Type := Z.
Definition NONE : t := 0.
Definition ADMIN : t := 1.
Definition MESSAGE : t := 2.
Definition SYNC : t := 4.
Definition ALL : t := Z.lor (Z.lor ADMIN MESSAGE) SYNC.

(** [contains], [&] and [|] of the library [bitflags]. *)
Definition contains (p q : t) : bool := Z.land p q =? q.
Definition inter (p q : t) : t := Z.land p q.
Definition union (p q : t) : t := Z.lor p q.

Lemma contains_spec p q : contains p q = true <-> forall b, 0 <= b -> Z.testbit q b = true -> Z.testbit p b = true.
Proof.
  unfold contains. rewrite Z.eqb_eq. split.
  - intros E b Hb Hq. rewrite <- E, Z.land_spec in Hq. by apply andb_true_iff in Hq as [? _].
  - intros Hpq. apply Z.bits_inj'. intros b Hb. rewrite Z.land_spec. specialize (Hpq b Hb). destruct (Z.testbit q b); [by rewrite Hpq|by rewrite andb_false_r].
Qed.

End Permissions.

(** ** Library code *)

(** The order in which a hash map is traversed. *)
Class HashOrder := iterate : forall {K V} `{Countable K}, gmap K V -> list (K * V).
Arguments iterate {_ K V _ _} m.
Class HashOrderLaws `{HashOrder} := iterate_perm : forall {K V} `{Countable K} (m : gmap K V), iterate m ≡ₚ map_to_list m.

(** The elements of a hash set, in the order of traversal. *)
Definition elements_of `{HashOrder} {K} `{Countable K} (X : gset K) : list K := fst <$> iterate (mapset.mapset_car X).

Lemma elem_of_elements_of `{HashOrderLaws} {K} `{Countable K} (X : gset K) x : x ∈ elements_of X <-> x ∈ X.
Proof.
  unfold elements_of. rewrite list_elem_of_fmap. setoid_rewrite iterate_perm. split.
  - intros ([y []] & -> & Hy%elem_of_map_to_list). exact Hy.
  - intros Hx. exists (x, ()). split; [done|]. by apply elem_of_map_to_list.
Qed.

#[export] Instance tree_order : HashOrder := fun K V _ _ m => map_to_list m.
#[export] Instance tree_order_laws : HashOrderLaws.
Proof. intros K V ? ? m. reflexivity. Qed.

(** A bounded cache ([lru::LruCache]): reading changes the order of eviction.
    [contents] is what it holds. *)
Class LruCache (K V : Type) := {
  cache : Type;
  cache_new : Z -> cache;
  cache_get : K -> cache -> option V * cache;
  cache_push : K -> V -> cache -> cache;
  cache_clear : cache -> cache
}.

Class LruCacheLaws K V `{Countable K} `{LruCache K V} := {
  contents : cache -> gmap K V;
  new_contents n : contents (cache_new n) = ∅;
  get_contents k c : (cache_get k c).1 = contents c !! k /\ contents (cache_get k c).2 = contents c;
  push_contents k v c : contents (cache_push k v c) ⊆ <[k := v]> (contents c);
  clear_contents c : contents (cache_clear c) = ∅
}.

(** A cache that keeps everything. *)
#[export] Instance map_cache {K V} `{Countable K} : LruCache K V := {|
  cache := gmap K V;
  cache_new _ := ∅;
  cache_get k c := (c !! k, c);
  cache_push k v c := <[k := v]> c;
  cache_clear _ := ∅
|}.
#[export] Instance map_cache_laws {K V} `{Countable K} : LruCacheLaws K V.
Proof. by exists (fun c => c). Defined.

(** Ed25519 signatures ([ed25519_dalek]). *)
Class Ed25519 := {
  key_ok : bytes -> bool;
  verify : bytes -> bytes -> Ed25519Signature -> bool;
  sign : bytes -> bytes -> Ed25519Signature;
  verifying_key : bytes -> bytes
}.
Class Ed25519Laws `{Ed25519} := {
  own_key_ok sk : key_ok (verifying_key sk) = true;
  sign_verify sk msg : verify (verifying_key sk) msg (sign sk msg) = true
}.

(** Blake3 as [merkle-tox-core] uses it. *)
Class Blake3Hash := {
  blake3 : bytes -> bytes;
  blake3_derive : string -> bytes -> bytes;
  blake3_keyed : bytes -> bytes -> bytes
}.

(** The cipher ChaCha20 ([chacha20]), which is its own inverse, and its
    authenticated form ([chacha20poly1305]): ciphertext and tag. *)
Class ChaCha20 := {
  chacha20 : bytes -> bytes -> bytes -> bytes;
  aead_encrypt : bytes -> bytes -> bytes -> bytes -> bytes * bytes;
  aead_decrypt : bytes -> bytes -> bytes -> bytes -> bytes -> option bytes
}.
Class ChaCha20Laws `{ChaCha20} := {
  chacha20_len k n d : length (chacha20 k n d) = length d;
  chacha20_involutive k n d : chacha20 k n (chacha20 k n d) = d;
  aead_len k n aad p : length (aead_encrypt k n aad p).1 = length p /\ length (aead_encrypt k n aad p).2 = 16%nat;
  aead_opens k n aad p : aead_decrypt k n aad (aead_encrypt k n aad p).1 (aead_encrypt k n aad p).2 = Some p
}.

(** The compression of [zstd]; failure is [None]. *)
Class Zstd := { encode_all : bytes -> option bytes; decode_all : bytes -> option bytes }.
Class ZstdLaws `{Zstd} := zstd_inverse : forall d c, encode_all d = Some c -> decode_all c = Some d.

(** ** Outcomes

    [None] is a panic, as everywhere. *)

Definition Outcome (E A : Type) : Type := option (result E A).
Definition succeed {E A} (a : A) : Outcome E A := Some (Ok a).
Definition refuse {E A} (e : E) : Outcome E A := Some (Err e).
Definition obind {E A B} (m : Outcome E A) (k : A -> Outcome E B) : Outcome E B :=
  match m with Some (Ok a) => k a | Some (Err e) => Some (Err e) | None => None end.
(** [.map_err(f)?] *)
Definition map_err {E F A} (f : E -> F) (m : Outcome E A) : Outcome F A :=
  match m with Some (Ok a) => Some (Ok a) | Some (Err e) => Some (Err (f e)) | None => None end.
(** [.expect(...)] *)
Definition expect {E A} (m : Outcome E A) : option A :=
  match m with Some (Ok a) => Some a | _ => None end.
(** [if c { return Err(e) }] *)
Definition require {E} (c : bool) (e : E) : Outcome E unit := if c then refuse e else succeed tt.

Declare Scope outcome_scope.
Notation "'let?' x := m 'in' k" := (obind m (fun x => k)) (at level 10, x pattern, m at level 100, k at level 200) : outcome_scope.
Notation "m ;? k" := (obind m (fun _ : unit => k)) (at level 100, right associativity) : outcome_scope.
#[global] Open Scope outcome_scope.

Lemma obind_ok {E A B} (m : Outcome E A) (k : A -> Outcome E B) b : obind m k = Some (Ok b) <-> exists a, m = Some (Ok a) /\ k a = Some (Ok b).
Proof. destruct m as [[a|e]|]; cbn; naive_solver. Qed.

Lemma require_ok {E} c (e : E) u : require c e = Some (Ok u) <-> c = false /\ u = tt.
Proof. destruct c, u; cbn; naive_solver. Qed.
