(* ===== verification/MerkleModels.v ===== *)
(** Functions that satisfy the laws of [Merkle]: what is proved from these laws
    applies to them.  They have none of the secrecy of the real ones, which no law
    states. *)

From S2P Require Import Prelude Protocol MsgPack MsgPackTheory Merkle.
From stdpp Require Import list strings.
#[local] Open Scope Z_scope.
#[local] Open Scope list_scope.

Module Models.

(** A checksum, as 32 bytes. *)
Definition checksum (data : bytes) : bytes := be_bytes 32 (foldl (fun h b => Z.land ((h + b + 1) * 0x9E3779B97F4A7C15F39CC0605CEDC8341082276BF3A27251F86C6A11D0C18E95) 0xFFFFFFFFFFFFFFFFFFFFFFFFFFFFFFFFFFFFFFFFFFFFFFFFFFFFFFFFFFFFFFFF) 0 data).
Definition label (s : string) : bytes := (fun c => Z.of_N (Ascii.N_of_ascii c)) <$> String.list_ascii_of_string s.

#[export] Instance sum_hash : Blake3Hash := {|
  blake3 := checksum;
  blake3_derive context data := checksum (label context ++ data);
  blake3_keyed key data := checksum (key ++ data)
|}.

(** A signature is the key and a checksum of the message. *)
#[export] Instance named_signature : Ed25519 := {|
  key_ok _ := true;
  verify pk msg sig := bool_decide (sig = take 32 (pk ++ replicate 32 0) ++ checksum msg);
  sign sk msg := take 32 (sk ++ replicate 32 0) ++ checksum msg;
  verifying_key sk := sk
|}.
#[export] Instance named_signature_laws : Ed25519Laws.
Proof. split; [done|]. intros sk msg. cbn. by rewrite bool_decide_true. Defined.

(** The cipher with an empty key stream; the tag is part of a checksum. *)
#[export] Instance plain_cipher : ChaCha20 := {|
  chacha20 _ _ data := data;
  aead_encrypt key nonce aad data := (data, take 16 (checksum (key ++ nonce ++ aad ++ data)));
  aead_decrypt key nonce aad data tag := if decide (tag = take 16 (checksum (key ++ nonce ++ aad ++ data))) then Some data else None
|}.
#[export] Instance plain_cipher_laws : ChaCha20Laws.
Proof.
  split; [done|done| |].
  - intros k n aad p. cbn [aead_encrypt plain_cipher fst snd]. split; [done|]. rewrite length_take. unfold checksum. rewrite be_bytes_length. lia.
  - intros k n aad p. cbn. by rewrite decide_True.
Defined.

(** Compression of runs of zeros at the end. *)
Fixpoint strip (data : bytes) : bytes * Z :=
  match data with
  | [] => ([], 0)
  | b :: data => let '(kept, zeros) := strip data in if (b =? 0) && bool_decide (kept = []) then ([], zeros + 1) else (b :: kept, zeros)
  end.
#[export] Instance zero_runs : Zstd := {|
  encode_all data := let '(kept, zeros) := strip data in Some (zeros :: kept);
  decode_all data := match data with zeros :: kept => Some (kept ++ replicate (Z.to_nat zeros) 0) | [] => None end
|}.
Lemma strip_inverse data : 0 <= (strip data).2 /\ (strip data).1 ++ replicate (Z.to_nat (strip data).2) 0 = data.
Proof.
  induction data as [|b data [IH0 IH]]; [done|]. cbn [strip]. destruct (strip data) as [kept zeros]. cbn [fst snd] in *.
  destruct (Z.eqb_spec b 0) as [->|]; cbn; [|by rewrite IH]. case_bool_decide as E; cbn [fst snd]; [|cbn; by rewrite IH].
  split; [lia|]. rewrite E in IH. cbn in IH. replace (Z.to_nat (zeros + 1)) with (S (Z.to_nat zeros)) by lia. cbn. by rewrite IH.
Qed.
#[export] Instance zero_runs_laws : ZstdLaws.
Proof.
  intros d c. cbn. pose proof (strip_inverse d) as [_ E]. destruct (strip d) as [kept zeros]. intros [= <-]. cbn [fst snd] in E. by rewrite E.
Defined.

End Models.
