(* ===== verification/Dag.v ===== *)
(** Nodes of the replicated graph ([merkle-tox-core/src/dag.rs]): their data and
    serialization, proof of work, what is signed, validation against the protocol
    rules, and the wire format with its padding, compression and encryption. *)

From S2P Require Import Prelude Protocol MsgPack ToxTypes Derive Merkle.
From stdpp Require Import gmap strings.
From Stdlib Require Ascii.
#[local] Open Scope Z_scope.
#[local] Open Scope list_scope.

Module Dag.

(** ** Data *)

(** [WireFlags] is its bits. *)
Definition FLAG_COMPRESSED : Z := 1.
Definition FLAG_ENCRYPTED : Z := 2.

Inductive NodeAuth :=
| EphemeralSignature (sig : Ed25519Signature)
| Signature (sig : Ed25519Signature).

Inductive EmojiSource :=
| Unicode (s : bytes)
| CustomEmoji (hash : bytes) (shortcode : bytes).

Record MemberInfo := mkMember { member_pk : LogicalIdentityPk; member_role : Z; joined_at : Z }.

Record DelegationCertificate := mkCert {
  cert_version : Z;
  cert_conversation : ConversationId;
  cert_device : PhysicalDevicePk;
  cert_permissions : Permissions.t;
  cert_expires : Z;
  cert_signature : Ed25519Signature
}.

Record InviteAction := mkInvite { invitee_pk : LogicalIdentityPk; invite_role : Z }.
Record SignedPreKey := mkPreKey { pre_key : bytes; pre_key_signature : Ed25519Signature; pre_key_expires : Z }.
Record WrappedKey := mkWrapped { recipient_pk : PhysicalDevicePk; opk_id : NodeHash; ciphertext : bytes }.
Record SnapshotData := mkSnapshot {
  basis_hash : NodeHash;
  members : list MemberInfo;
  last_seq_numbers : list (PhysicalDevicePk * Z)
}.

Inductive ControlAction :=
| Genesis (title : bytes) (creator_pk : LogicalIdentityPk) (permissions : Permissions.t) (flags created_at pow_nonce : Z)
| SetTitle (title : bytes)
| SetTopic (topic : bytes)
| Invite (invite : InviteAction)
| Leave (pk : LogicalIdentityPk)
| AuthorizeDevice (cert : DelegationCertificate)
| RevokeDevice (target_device_pk : PhysicalDevicePk) (reason : bytes)
| Announcement (pre_keys : list SignedPreKey) (last_resort_key : SignedPreKey)
| HandshakePulse
| Snapshot (data : SnapshotData)
| AnchorSnapshot (data : SnapshotData) (cert : DelegationCertificate)
| SoftAnchor (basis : NodeHash) (cert : DelegationCertificate).

Inductive Content :=
| Custom (tag_id : Z) (data : bytes)
| KeyWrap (generation : Z) (anchor_hash : NodeHash) (ephemeral_pk : bytes) (wrapped_keys : list WrappedKey)
| SenderKeyDistribution (ephemeral_pk : bytes) (wrapped_keys : list WrappedKey) (ephemeral_signing_pk : bytes) (disclosed_keys : list bytes)
| HistoryExport (blob_hash : NodeHash) (blob_size : Z) (bao_root : option bytes) (ephemeral_pk : bytes) (wrapped_keys : list WrappedKey)
| Control (action : ControlAction)
| Text (text : bytes)
| Blob (hash : NodeHash) (name mime_type : bytes) (size : Z) (metadata : bytes)
| Location (latitude longitude : Z) (title : option bytes)
| Edit (target_hash : NodeHash) (new_text : bytes)
| Reaction (target_hash : NodeHash) (emoji : EmojiSource)
| Redaction (target_hash : NodeHash) (reason : bytes)
| LegacyBridge (source_pk : PhysicalDevicePk) (text : bytes) (message_type : Z) (dedup_id : NodeHash)
| Unknown (discriminant : Z) (data : bytes).

Record MerkleNode := mkNode {
  parents : list NodeHash;
  author_pk : LogicalIdentityPk;
  sender_pk : PhysicalDevicePk;
  sequence_number : Z;
  topological_rank : Z;
  network_timestamp : Z;
  content : Content;
  metadata : bytes;
  authentication : NodeAuth;
  pow_nonce : Z
}.
#[global] Instance eta_MerkleNode : Settable MerkleNode := fun n =>
  mkNode (parents n) (author_pk n) (sender_pk n) (sequence_number n) (topological_rank n) (network_timestamp n) (content n) (metadata n)
    (authentication n) (pow_nonce n).

Record WireNode := mkWire {
  wire_parents : list NodeHash;
  sender_hint : bytes;
  encrypted_routing : bytes;
  payload_data : bytes;
  wire_rank : Z;
  wire_flags : Z;
  wire_authentication : NodeAuth
}.

(** [WireAuthData] *)
Record WireAuthData := mkAuthData {
  auth_parents : list NodeHash;
  auth_hint : bytes;
  auth_routing : bytes;
  auth_payload : bytes;
  auth_rank : Z;
  auth_flags : Z
}.

Inductive NodeType := Admin | ContentNode.
#[export] Instance NodeType_eq_dec : EqDecision NodeType.
Proof. solve_decision. Defined.

(** [NodeLookup] *)
Record NodeLookup := mkLookup {
  get_node_type : NodeHash -> option NodeType;
  get_rank : NodeHash -> option Z;
  get_admin_distance : NodeHash -> option Z;
  contains_node : NodeHash -> bool;
  has_children : NodeHash -> bool;
  get_soft_anchor_chain_length : NodeHash -> option Z
}.

(** [ValidationError] *)
Inductive ValidationError :=
| MaxParentsExceeded (actual max : Z)
| MaxMetadataExceeded (actual max : Z)
| TooManySpeculativeNodes
| TooManyVerifiedNodes
| PoWInvalid
| EmptyDag
| InvalidWirePayloadSize (actual expected_min : Z)
| AncestryCapExceeded (actual max : Z)
| TopologicalRankViolation (actual expected : Z)
| MissingParents (hashes : list NodeHash)
| InvalidAdminSignature
| GenesisMacWithParents
| AdminCannotHaveContentParent
| ContentNodeShouldUseMac
| AdminNodeShouldUseSignature
| DuplicateParent (hash : NodeHash)
| InvalidSequenceNumber (actual last : Z)
| InvalidPadding
| DecompressionFailed
| MacMismatch
| MaxMessageSizeExceeded (actual max : Z)
| SoftAnchorInvalidParent
| SoftAnchorChainingCapExceeded (actual max : Z)
| InvalidEditTarget
| EditAuthorMismatch
| RedactionPermissionDenied
| InvalidReactionTarget
| InvalidLegacyBridgeDedup.

(** [IdentityError] *)
Inductive IdentityError :=
| InvalidSignature
| Expired (expires_at now_ms : Z)
| NoTrustPath
| ChainTooDeep
| PermissionEscalation
| TooManyDevices (max : Z)
| TooManyGroupDevices (max : Z)
| ConversationIdMismatch.

(** [MerkleToxError]; errors of libraries are not looked into. *)
Inductive MerkleToxError :=
| IoError
| SerializationError
| DeserializationError
| ProtocolError (e : Error)
| IdentityFailed (e : IdentityError)
| Validation (e : ValidationError)
| CryptoError (what : string)
| PermissionDenied (pk : PhysicalDevicePk) (required actual : Z)
| NodeNotFound (hash : NodeHash)
| KeyNotFound (conversation_id : ConversationId) (epoch : Z)
| BlobNotFound (hash : NodeHash)
| RatchetError (what : string)
| Reconciliation (what : string)
| Quarantined (hash : NodeHash)
| StorageError (what : string)
| NotAuthorized
| OtherError (what : string).

Definition POW_DIFFICULTY : Z := 20.
Definition MAX_SOFT_ANCHOR_CHAIN : Z := 3.
Definition MAX_PARENTS : Z := 16.
Definition MAX_ANCESTRY_HOPS : Z := 500.
Definition MAX_METADATA_SIZE : Z := 32 * 1024.
Definition MAX_MESSAGE_SIZE : Z := 1048576.
Definition MIN_PADDING_BIN : Z := 128.

(** ** Serialization, as derived *)

Section Types.
Context `{Rmp}.

(** The newtypes [NodeHash], ..., [Ed25519Signature]: structs of one field. *)
Definition key_type (n : nat) : ToxType bytes := derive_struct (FCons (array_type u8 n) FNil) (fun k => (k, tt)) fst.
Definition key32 : ToxType bytes := key_type 32.
Definition signature_type : ToxType bytes := key_type 64.
(** [Permissions], [WireFlags] *)
Definition bits_type : ToxType Z := derive_transparent u32 (fun b => b) (fun b => b).
Definition blob_type : ToxType bytes := vec_type u8.

Definition node_auth : ToxType NodeAuth :=
  derive_enum [
    single_variant 0 signature_type (fun a => match a with EphemeralSignature s => Some s | _ => None end) EphemeralSignature;
    single_variant 1 signature_type (fun a => match a with Signature s => Some s | _ => None end) Signature] None.

Definition emoji_source : ToxType EmojiSource :=
  derive_enum [
    single_variant 0 string_type (fun e => match e with Unicode s => Some s | _ => None end) Unicode;
    multi_variant 1 (FCons (array_type u8 32) (FCons string_type FNil))
      (fun e => match e with CustomEmoji h s => Some (h, (s, tt)) | _ => None end) (fun '(h, (s, _)) => CustomEmoji h s)] None.

Definition member_info : ToxType MemberInfo :=
  derive_struct (FCons key32 (FCons u8 (FCons i64 FNil)))
    (fun m => (member_pk m, (member_role m, (joined_at m, tt)))) (fun '(p, (r, (j, _))) => mkMember p r j).

Definition certificate : ToxType DelegationCertificate :=
  derive_struct (FCons u32 (FCons key32 (FCons key32 (FCons bits_type (FCons i64 (FCons signature_type FNil))))))
    (fun c => (cert_version c, (cert_conversation c, (cert_device c, (cert_permissions c, (cert_expires c, (cert_signature c, tt)))))))
    (fun '(v, (c, (d, (p, (e, (s, _)))))) => mkCert v c d p e s).

Definition invite_action : ToxType InviteAction :=
  derive_struct (FCons key32 (FCons u8 FNil)) (fun i => (invitee_pk i, (invite_role i, tt))) (fun '(p, (r, _)) => mkInvite p r).

Definition signed_pre_key : ToxType SignedPreKey :=
  derive_struct (FCons key32 (FCons signature_type (FCons i64 FNil)))
    (fun k => (pre_key k, (pre_key_signature k, (pre_key_expires k, tt)))) (fun '(p, (s, (e, _))) => mkPreKey p s e).

Definition wrapped_key : ToxType WrappedKey :=
  derive_struct (FCons key32 (FCons key32 (FCons blob_type FNil)))
    (fun k => (recipient_pk k, (opk_id k, (ciphertext k, tt)))) (fun '(r, (o, (c, _))) => mkWrapped r o c).

Definition snapshot_data : ToxType SnapshotData :=
  derive_struct (FCons key32 (FCons (vec_type member_info) (FCons (vec_type (tuple_type (FCons key32 (FCons u64 FNil)))) FNil)))
    (fun s => (basis_hash s, (members s, ((fun p => (p.1, (p.2, tt))) <$> last_seq_numbers s, tt))))
    (fun '(b, (m, (l, _))) => mkSnapshot b m ((fun p => (p.1, p.2.1)) <$> l)).

Definition control_variants : list (variant ControlAction) := [
  multi_variant 0 (FCons string_type (FCons key32 (FCons bits_type (FCons u64 (FCons i64 (FCons u64 FNil))))))
    (fun a => match a with Genesis t c p f at_ n => Some (t, (c, (p, (f, (at_, (n, tt)))))) | _ => None end)
    (fun '(t, (c, (p, (f, (at_, (n, _)))))) => Genesis t c p f at_ n);
  single_variant 1 string_type (fun a => match a with SetTitle s => Some s | _ => None end) SetTitle;
  single_variant 2 string_type (fun a => match a with SetTopic s => Some s | _ => None end) SetTopic;
  single_variant 3 invite_action (fun a => match a with Invite i => Some i | _ => None end) Invite;
  single_variant 4 key32 (fun a => match a with Leave k => Some k | _ => None end) Leave;
  single_variant 5 certificate (fun a => match a with AuthorizeDevice c => Some c | _ => None end) AuthorizeDevice;
  multi_variant 6 (FCons key32 (FCons string_type FNil))
    (fun a => match a with RevokeDevice t r => Some (t, (r, tt)) | _ => None end) (fun '(t, (r, _)) => RevokeDevice t r);
  multi_variant 7 (FCons (vec_type signed_pre_key) (FCons signed_pre_key FNil))
    (fun a => match a with Announcement l k => Some (l, (k, tt)) | _ => None end) (fun '(l, (k, _)) => Announcement l k);
  unit_variant 8 (fun a => match a with HandshakePulse => true | _ => false end) HandshakePulse;
  single_variant 9 snapshot_data (fun a => match a with Snapshot d => Some d | _ => None end) Snapshot;
  multi_variant 10 (FCons snapshot_data (FCons certificate FNil))
    (fun a => match a with AnchorSnapshot d c => Some (d, (c, tt)) | _ => None end) (fun '(d, (c, _)) => AnchorSnapshot d c);
  multi_variant 11 (FCons key32 (FCons certificate FNil))
    (fun a => match a with SoftAnchor b c => Some (b, (c, tt)) | _ => None end) (fun '(b, (c, _)) => SoftAnchor b c)].

Definition control_action : ToxType ControlAction := derive_enum control_variants None.

Definition content_variants : list (variant Content) := [
  multi_variant 0 (FCons u32 (FCons blob_type FNil))
    (fun c => match c with Custom t d => Some (t, (d, tt)) | _ => None end) (fun '(t, (d, _)) => Custom t d);
  multi_variant 1 (FCons u64 (FCons key32 (FCons key32 (FCons (vec_type wrapped_key) FNil))))
    (fun c => match c with KeyWrap g a e w => Some (g, (a, (e, (w, tt)))) | _ => None end) (fun '(g, (a, (e, (w, _)))) => KeyWrap g a e w);
  multi_variant 2 (FCons key32 (FCons (vec_type wrapped_key) (FCons key32 (FCons (vec_type key32) FNil))))
    (fun c => match c with SenderKeyDistribution e w s d => Some (e, (w, (s, (d, tt)))) | _ => None end)
    (fun '(e, (w, (s, (d, _)))) => SenderKeyDistribution e w s d);
  multi_variant 3 (FCons key32 (FCons u64 (FCons (option_type (array_type u8 32)) (FCons key32 (FCons (vec_type wrapped_key) FNil)))))
    (fun c => match c with HistoryExport h n r e w => Some (h, (n, (r, (e, (w, tt))))) | _ => None end)
    (fun '(h, (n, (r, (e, (w, _))))) => HistoryExport h n r e w);
  single_variant 4 control_action (fun c => match c with Control a => Some a | _ => None end) Control;
  single_variant 5 string_type (fun c => match c with Text s => Some s | _ => None end) Text;
  multi_variant 6 (FCons key32 (FCons string_type (FCons string_type (FCons u64 (FCons blob_type FNil)))))
    (fun c => match c with Blob h n m s d => Some (h, (n, (m, (s, (d, tt))))) | _ => None end) (fun '(h, (n, (m, (s, (d, _))))) => Blob h n m s d);
  multi_variant 7 (FCons f64 (FCons f64 (FCons (option_type string_type) FNil)))
    (fun c => match c with Location a o t => Some (a, (o, (t, tt))) | _ => None end) (fun '(a, (o, (t, _))) => Location a o t);
  multi_variant 8 (FCons key32 (FCons string_type FNil))
    (fun c => match c with Edit t s => Some (t, (s, tt)) | _ => None end) (fun '(t, (s, _)) => Edit t s);
  multi_variant 9 (FCons key32 (FCons emoji_source FNil))
    (fun c => match c with Reaction t e => Some (t, (e, tt)) | _ => None end) (fun '(t, (e, _)) => Reaction t e);
  multi_variant 10 (FCons key32 (FCons string_type FNil))
    (fun c => match c with Redaction t s => Some (t, (s, tt)) | _ => None end) (fun '(t, (s, _)) => Redaction t s);
  multi_variant 11 (FCons key32 (FCons string_type (FCons u8 (FCons key32 FNil))))
    (fun c => match c with LegacyBridge p s m d => Some (p, (s, (m, (d, tt)))) | _ => None end) (fun '(p, (s, (m, (d, _)))) => LegacyBridge p s m d)].

Definition content_unknown : catch_all Content := mkCatch (fun c => match c with Unknown d b => Some (d, b) | _ => None end) Unknown.
Definition content_type : ToxType Content := derive_enum content_variants (Some content_unknown).

(** [pow_nonce] is skipped. *)
Definition merkle_node : ToxType MerkleNode :=
  derive_struct (FCons (vec_type key32) (FCons key32 (FCons key32 (FCons u64 (FCons u64 (FCons i64 (FCons content_type (FCons blob_type (FCons node_auth FNil)))))))))
    (fun n => (parents n, (author_pk n, (sender_pk n, (sequence_number n, (topological_rank n, (network_timestamp n, (content n, (metadata n, (authentication n, tt))))))))))
    (fun '(p, (a, (s, (q, (r, (t, (c, (m, (u, _))))))))) => mkNode p a s q r t c m u 0).

Definition wire_node : ToxType WireNode :=
  derive_struct (FCons (vec_type key32) (FCons (array_type u8 4) (FCons blob_type (FCons blob_type (FCons u64 (FCons bits_type (FCons node_auth FNil)))))))
    (fun w => (wire_parents w, (sender_hint w, (encrypted_routing w, (payload_data w, (wire_rank w, (wire_flags w, (wire_authentication w, tt))))))))
    (fun '(p, (h, (r, (d, (k, (f, (a, _))))))) => mkWire p h r d k f a).

Definition wire_auth_data : ToxType WireAuthData :=
  derive_struct (FCons (vec_type key32) (FCons (array_type u8 4) (FCons blob_type (FCons blob_type (FCons u64 (FCons bits_type FNil))))))
    (fun w => (auth_parents w, (auth_hint w, (auth_routing w, (auth_payload w, (auth_rank w, (auth_flags w, tt)))))))
    (fun '(p, (h, (r, (d, (k, (f, _)))))) => mkAuthData p h r d k f).

End Types.

(** ** Padding *)

(** [usize::next_power_of_two] *)
Definition next_power_of_two (n : Z) : Z := if n <=? 1 then 1 else 2 ^ Z.log2_up n.

(** A byte [0x80] and zeros; [Vec::resize] to a target that is not shorter. *)
Definition apply_padding (data : bytes) : bytes :=
  let data := data ++ [0x80] in
  let target_len := Z.max (next_power_of_two (len data)) MIN_PADDING_BIN in
  data ++ replicate (Z.to_nat (target_len - len data)) 0.

(** [rposition] of a byte that is not zero, and what is before it. *)
Fixpoint last_nonzero (rev_data : bytes) : option (Z * bytes) :=
  match rev_data with
  | [] => None
  | b :: rest => if b =? 0 then last_nonzero rest else Some (b, reverse rest)
  end.

(** [None] is the returned error. *)
Definition remove_padding (data : bytes) : option bytes :=
  match last_nonzero (reverse data) with
  | Some (b, before) => if b =? 0x80 then Some before else None
  | None => None
  end.

(** ** Nodes *)

Definition action_type (a : ControlAction) : NodeType :=
  match a with
  | Genesis _ _ _ _ _ _ | AuthorizeDevice _ | RevokeDevice _ _ | Snapshot _ | AnchorSnapshot _ _ | SoftAnchor _ _ => Admin
  | _ => ContentNode
  end.

(** [Content::node_type] *)
Definition node_type_of (c : Content) : NodeType :=
  match c with KeyWrap _ _ _ _ => Admin | Control a => action_type a | _ => ContentNode end.
Definition node_type (n : MerkleNode) : NodeType := node_type_of (content n).

Definition is_control (c : Content) : bool := match c with Control _ => true | _ => false end.
Definition is_skd (c : Content) : bool := match c with SenderKeyDistribution _ _ _ _ => true | _ => false end.
Definition is_genesis (c : Content) : bool := match c with Control (Genesis _ _ _ _ _ _) => true | _ => false end.
Definition is_soft_anchor (c : Content) : bool := match c with Control (SoftAnchor _ _) => true | _ => false end.

Definition is_exception_node (n : MerkleNode) : bool :=
  bool_decide (node_type n = Admin) || (is_control (content n) || is_skd (content n)).
Definition skips_ratchet (n : MerkleNode) : bool :=
  is_exception_node n || match content n with HistoryExport _ _ _ _ _ => true | _ => false end.

(** The bytes of a literal. *)
Definition literal (s : string) : bytes := (fun c => Z.of_N (Ascii.N_of_ascii c)) <$> String.list_ascii_of_string s.
Definition ADMIN_SEPARATOR : bytes := literal "merkle-tox v1 admin-sig".
Definition CONTENT_SEPARATOR : bytes := literal "merkle-tox v1 content-sig".

(** [u8::leading_zeros] *)
Definition byte_leading_zeros (b : Z) : Z := if b =? 0 then 8 else 7 - Z.log2 b.
Fixpoint count_leading_zeros (hash : bytes) : Z :=
  match hash with
  | [] => 0
  | b :: rest => if b =? 0 then 8 + count_leading_zeros rest else byte_leading_zeros b
  end.

Section Nodes.
Context `{Rmp} `{Blake3Hash} `{Ed25519}.

(** ** Proof of work *)

Definition validate_pow_v1 (creator_pk : bytes) (node_hash : NodeHash) (nonce : Z) : bool :=
  POW_DIFFICULTY <=? count_leading_zeros (blake3 (creator_pk ++ node_hash ++ le_bytes 8 nonce)).

Definition validate_pow_v2 (creator_pk : bytes) (genesis_action : ControlAction) : option bool :=
  action_bytes ← expect (to_vec control_action genesis_action);
  Some (POW_DIFFICULTY <=? count_leading_zeros (blake3 (creator_pk ++ action_bytes))).

(** [MerkleNode::hash] *)
Definition hash (n : MerkleNode) : option NodeHash := data ← expect (to_vec merkle_node n); Some (blake3 data).

(** [MerkleNode::validate_pow] *)
Definition validate_pow (n : MerkleNode) : option bool :=
  match content n with
  | Control (Genesis _ creator_pk _ _ _ nonce as action) =>
      match authentication n with
      | EphemeralSignature _ => Some true
      | Signature _ =>
          v2 ← (if negb (nonce =? 0) then validate_pow_v2 creator_pk action else Some false);
          if (v2 : bool) then Some true else h ← hash n; Some (validate_pow_v1 creator_pk h (pow_nonce n))
      end
  | _ => Some true
  end.

(** ** What is signed *)

(** The payload before padding. *)
Definition payload_of (n : MerkleNode) (content_data : bytes) : bytes := be_bytes 8 (network_timestamp n) ++ content_data ++ metadata n.
Definition cleartext_routing (n : MerkleNode) : bytes := sender_pk n ++ be_bytes 8 (sequence_number n).

(** [MerkleNode::serialize_for_auth] *)
Definition serialize_for_auth (n : MerkleNode) : option bytes :=
  content_data ← expect (to_vec content_type (content n));
  serialized ← expect (to_vec wire_auth_data
    (mkAuthData (parents n) [0; 0; 0; 0] (cleartext_routing n) (apply_padding (payload_of n content_data)) (topological_rank n) 0));
  Some ((match node_type n with Admin => ADMIN_SEPARATOR | ContentNode => CONTENT_SEPARATOR end) ++ serialized).

(** [WireNode::serialize_for_auth] *)
Definition serialize_wire_for_auth (w : WireNode) : option bytes :=
  serialized ← expect (to_vec wire_auth_data
    (mkAuthData (wire_parents w) (sender_hint w) (encrypted_routing w) (payload_data w) (wire_rank w) (wire_flags w)));
  Some ((if Permissions.contains (wire_flags w) FLAG_ENCRYPTED then CONTENT_SEPARATOR else ADMIN_SEPARATOR) ++ serialized).

Definition verify_admin_signature (n : MerkleNode) : option bool :=
  match authentication n with
  | Signature sig =>
      if negb (key_ok (sender_pk n)) then Some false
      else auth_data ← serialize_for_auth n; Some (verify (sender_pk n) auth_data sig)
  | EphemeralSignature _ => Some (if is_genesis (content n) then bool_decide (parents n = []) else false)
  end.

(** ** Validation *)

(** The loop with the set of the parents seen. *)
Fixpoint unique_parents (seen ps : list NodeHash) : Outcome ValidationError unit :=
  match ps with
  | [] => succeed tt
  | p :: ps => if decide (p ∈ seen) then refuse (DuplicateParent p) else unique_parents (p :: seen) ps
  end.

(** Rule 1: the kind of authentication. *)
Definition check_authentication (n : MerkleNode) (allows_device_sig : bool) : Outcome ValidationError unit :=
  match authentication n, node_type n, allows_device_sig with
  | Signature _, Admin, _ => succeed tt
  | EphemeralSignature _, ContentNode, _ => succeed tt
  | Signature _, ContentNode, true => succeed tt
  | Signature _, ContentNode, false => refuse ContentNodeShouldUseMac
  | EphemeralSignature _, Admin, _ =>
      if is_genesis (content n) then require (negb (bool_decide (parents n = []))) GenesisMacWithParents
      else refuse AdminNodeShouldUseSignature
  end.

(** Rule 2: proof of work and signature. *)
Definition check_authenticity (n : MerkleNode) : Outcome ValidationError unit :=
  match validate_pow n with
  | None => None
  | Some false => refuse PoWInvalid
  | Some true =>
      match verify_admin_signature n with
      | None => None
      | Some false => refuse InvalidAdminSignature
      | Some true => succeed tt
      end
  end.

(** The loop of rule 3: the highest rank of a parent, and the parents that are
    missing. *)
Fixpoint parent_ranks (lookup : NodeLookup) (ps : list NodeHash) (max_parent_rank : Z) (missing : list NodeHash) : Z * list NodeHash :=
  match ps with
  | [] => (max_parent_rank, missing)
  | p :: ps =>
      match get_rank lookup p with
      | Some parent_rank => parent_ranks lookup ps (if max_parent_rank <=? parent_rank then parent_rank else max_parent_rank) missing
      | None => parent_ranks lookup ps max_parent_rank (missing ++ [p])
      end
  end.

Definition check_rank (n : MerkleNode) (lookup : NodeLookup) : Outcome ValidationError unit :=
  let '(max_parent_rank, missing) := parent_ranks lookup (parents n) 0 [] in
  match missing with
  | _ :: _ => refuse (MissingParents missing)
  | [] =>
      match (if bool_decide (parents n = []) then Some 0 else chk_u64 (max_parent_rank + 1)) with
      | None => None
      | Some expected_rank => require (negb (topological_rank n =? expected_rank)) (TopologicalRankViolation (topological_rank n) expected_rank)
      end
  end.

(** Rule 4: parents of an admin node are admin nodes. *)
Fixpoint check_isolation (lookup : NodeLookup) (ps : list NodeHash) : Outcome ValidationError unit :=
  match ps with
  | [] => succeed tt
  | p :: ps =>
      match get_node_type lookup p with
      | Some Admin => check_isolation lookup ps
      | Some ContentNode => refuse AdminCannotHaveContentParent
      | None => refuse (MissingParents [p])
      end
  end.

(** Rule 4b *)
Definition check_soft_anchor (n : MerkleNode) (lookup : NodeLookup) : Outcome ValidationError unit :=
  match content n with
  | Control (SoftAnchor basis _) =>
      require (negb (bool_decide (parents n = [basis]))) SoftAnchorInvalidParent ;?
      match get_soft_anchor_chain_length lookup basis with
      | None => succeed tt
      | Some chain_len =>
          match chk_u64 (chain_len + 1) with
          | None => None
          | Some new_chain_len => require (MAX_SOFT_ANCHOR_CHAIN <? new_chain_len) (SoftAnchorChainingCapExceeded new_chain_len MAX_SOFT_ANCHOR_CHAIN)
          end
      end
  | _ => succeed tt
  end.

(** The loop of rule 5: the distance of the parent nearest to an admin node. *)
Fixpoint nearest_admin (lookup : NodeLookup) (ps : list NodeHash) (min_distance : Z) : Outcome ValidationError Z :=
  match ps with
  | [] => succeed min_distance
  | p :: ps =>
      match get_admin_distance lookup p with
      | Some dist => nearest_admin lookup ps (Z.min min_distance dist)
      | None => refuse (MissingParents [p])
      end
  end.

Definition check_ancestry (n : MerkleNode) (lookup : NodeLookup) : Outcome ValidationError unit :=
  if bool_decide (node_type n = ContentNode) && negb (bool_decide (parents n = [])) then
    let? min_distance := nearest_admin lookup (parents n) u64_max in
    if MAX_ANCESTRY_HOPS <=? min_distance then
      match chk_u64 (min_distance + 1) with None => None | Some actual => refuse (AncestryCapExceeded actual MAX_ANCESTRY_HOPS) end
    else succeed tt
  else succeed tt.

(** Rule 0: the sizes. *)
Definition check_size (n : MerkleNode) : Outcome ValidationError unit :=
  match to_vec content_type (content n) with
  | None => None
  | Some r =>
      let content_size := match r with Ok v => len v | Err _ => 0 end in
      match chk_usize (len (metadata n) + content_size) with
      | None => None
      | Some total_size => require (MAX_MESSAGE_SIZE <? total_size) (MaxMessageSizeExceeded total_size MAX_MESSAGE_SIZE)
      end
  end.

(** [MerkleNode::validate] *)
Definition validate (n : MerkleNode) (lookup : NodeLookup) : Outcome ValidationError unit :=
  require (MAX_PARENTS <? len (parents n)) (MaxParentsExceeded (len (parents n)) MAX_PARENTS) ;?
  unique_parents [] (parents n) ;?
  require (MAX_METADATA_SIZE <? len (metadata n)) (MaxMetadataExceeded (len (metadata n)) MAX_METADATA_SIZE) ;?
  check_size n ;?
  let is_control_content := is_control (content n) && bool_decide (node_type n = ContentNode) in
  let allows_device_sig := is_skd (content n) || is_control_content in
  check_authentication n allows_device_sig ;?
  let is_device_signed := match authentication n with Signature _ => true | _ => false end in
  (if bool_decide (node_type n = Admin) || (allows_device_sig && is_device_signed) then check_authenticity n else succeed tt) ;?
  check_rank n lookup ;?
  (if bool_decide (node_type n = Admin) && negb (is_soft_anchor (content n)) then check_isolation lookup (parents n) else succeed tt) ;?
  check_soft_anchor n lookup ;?
  check_ancestry n lookup.

(** [effective_timestamp]: the nodes that the store lacks do not count.  The
    recursion of the source ends because the graph has no cycles; [fuel] bounds
    its depth. *)
Fixpoint effective_timestamp (fuel : nat) (get_node : NodeHash -> option MerkleNode) (n : MerkleNode) : option Z :=
  match fuel with
  | O => None
  | S fuel =>
      foldl (fun t_eff p =>
        t ← t_eff;
        match get_node p with
        | Some parent => u ← effective_timestamp fuel get_node parent; Some (Z.max t u)
        | None => Some t
        end) (Some (network_timestamp n)) (parents n)
  end.

End Nodes.
End Dag.
