(* ===== verification/DagCodec.v ===== *)
(** Round trips of the node types of [dag.rs]. *)

From S2P Require Import Prelude Protocol MsgPack MsgPackTheory ToxTypes ToxTheory Derive DeriveTheory Merkle Dag.
From stdpp Require Import list gmap.
#[local] Open Scope Z_scope.
#[local] Open Scope list_scope.

Module DagCodec.
Import Dag.

(** ** Well-formed values

    The ranges of the Rust types, and lengths below 2^32. *)

Definition key_ok (n : nat) (k : bytes) : Prop := length k = n /\ Forall (in_u 8) k.
Definition blob_ok (b : bytes) : Prop := short b /\ Forall (in_u 8) b.
Definition text_ok (s : bytes) : Prop := short s /\ valid_utf8 s = true.
Definition i64_range (t : Z) : Prop := i64_min <= t <= i64_max.
Definition each_ok {A} (ok : A -> Prop) (l : list A) : Prop := short l /\ Forall ok l.
Definition optional {A} (ok : A -> Prop) (o : option A) : Prop := match o with Some a => ok a | None => True end.

Definition auth_ok (a : NodeAuth) : Prop := match a with EphemeralSignature s | Signature s => key_ok 64 s end.
Definition emoji_ok (e : EmojiSource) : Prop := match e with Unicode s => text_ok s | CustomEmoji h s => key_ok 32 h /\ text_ok s end.
Definition member_ok (m : MemberInfo) : Prop := key_ok 32 (member_pk m) /\ in_u 8 (member_role m) /\ i64_range (joined_at m).
Definition cert_ok (c : DelegationCertificate) : Prop :=
  in_u 32 (cert_version c) /\ key_ok 32 (cert_conversation c) /\ key_ok 32 (cert_device c) /\ in_u 32 (cert_permissions c) /\
  i64_range (cert_expires c) /\ key_ok 64 (cert_signature c).
Definition invite_ok (i : InviteAction) : Prop := key_ok 32 (invitee_pk i) /\ in_u 8 (invite_role i).
Definition pre_key_ok (k : SignedPreKey) : Prop := key_ok 32 (pre_key k) /\ key_ok 64 (pre_key_signature k) /\ i64_range (pre_key_expires k).
Definition wrapped_ok (k : WrappedKey) : Prop := key_ok 32 (recipient_pk k) /\ key_ok 32 (opk_id k) /\ blob_ok (ciphertext k).
Definition snapshot_ok (s : SnapshotData) : Prop :=
  key_ok 32 (basis_hash s) /\ each_ok member_ok (members s) /\ each_ok (fun p => key_ok 32 p.1 /\ in_u 64 p.2) (last_seq_numbers s).

Definition action_ok (a : ControlAction) : Prop :=
  match a with
  | Genesis t c p f at_ n => text_ok t /\ key_ok 32 c /\ in_u 32 p /\ in_u 64 f /\ i64_range at_ /\ in_u 64 n
  | SetTitle s | SetTopic s => text_ok s
  | Invite i => invite_ok i
  | Leave k => key_ok 32 k
  | AuthorizeDevice c => cert_ok c
  | RevokeDevice t r => key_ok 32 t /\ text_ok r
  | Announcement l k => each_ok pre_key_ok l /\ pre_key_ok k
  | HandshakePulse => True
  | Snapshot d => snapshot_ok d
  | AnchorSnapshot d c => snapshot_ok d /\ cert_ok c
  | SoftAnchor b c => key_ok 32 b /\ cert_ok c
  end.

(** An unknown variant is one of a later version: its index is not in use and its
    payload is empty or one value. *)
Definition content_ok (c : Content) : Prop :=
  match c with
  | Custom t d => in_u 32 t /\ blob_ok d
  | KeyWrap g a e w => in_u 64 g /\ key_ok 32 a /\ key_ok 32 e /\ each_ok wrapped_ok w
  | SenderKeyDistribution e w s d => key_ok 32 e /\ each_ok wrapped_ok w /\ key_ok 32 s /\ each_ok (key_ok 32) d
  | HistoryExport h n r e w => key_ok 32 h /\ in_u 64 n /\ optional (key_ok 32) r /\ key_ok 32 e /\ each_ok wrapped_ok w
  | Control a => action_ok a
  | Text s => text_ok s
  | Blob h n m s d => key_ok 32 h /\ text_ok n /\ text_ok m /\ in_u 64 s /\ blob_ok d
  | Location a o t => in_u 64 a /\ in_u 64 o /\ optional text_ok t
  | Edit t s => key_ok 32 t /\ text_ok s
  | Reaction t e => key_ok 32 t /\ emoji_ok e
  | Redaction t s => key_ok 32 t /\ text_ok s
  | LegacyBridge p s m d => key_ok 32 p /\ text_ok s /\ in_u 8 m /\ key_ok 32 d
  | Unknown _ _ => False
  end.

Definition node_ok (n : MerkleNode) : Prop :=
  each_ok (key_ok 32) (parents n) /\ key_ok 32 (author_pk n) /\ key_ok 32 (sender_pk n) /\ in_u 64 (sequence_number n) /\
  in_u 64 (topological_rank n) /\ i64_range (network_timestamp n) /\ content_ok (content n) /\ blob_ok (metadata n) /\ auth_ok (authentication n).

Definition wire_ok (w : WireNode) : Prop :=
  each_ok (key_ok 32) (wire_parents w) /\ key_ok 4 (sender_hint w) /\ blob_ok (encrypted_routing w) /\ blob_ok (payload_data w) /\
  in_u 64 (wire_rank w) /\ in_u 32 (wire_flags w) /\ auth_ok (wire_authentication w).

Definition auth_data_ok (w : WireAuthData) : Prop :=
  each_ok (key_ok 32) (auth_parents w) /\ key_ok 4 (auth_hint w) /\ blob_ok (auth_routing w) /\ blob_ok (auth_payload w) /\
  in_u 64 (auth_rank w) /\ in_u 32 (auth_flags w).

Create HintDb codec discriminated.
#[export] Hint Constants Opaque : codec.

Section Laws.
Context `{RmpLaws}.

(** ** Building blocks *)

Lemma u32_codec : lawful u32 (in_u 32).
Proof. apply (uint_lawful 4). lia. Qed.
Lemma u64_codec : lawful u64 (in_u 64).
Proof. apply (uint_lawful 8). lia. Qed.
Lemma i64_codec : lawful i64 i64_range.
Proof.
  apply (lawful_weaken _ (fun v => - 2 ^ (8 * Z.of_nat 8 - 1) <= v < 2 ^ (8 * Z.of_nat 8 - 1))); [|apply (sint_lawful 8); lia].
  intros t Ht. unfold i64_range, i64_min, i64_max in Ht. cbn. lia.
Qed.
Lemma bits_codec : lawful bits_type (in_u 32).
Proof. apply (lawful_weaken _ _ _ (fun a Ha => conj Ha eq_refl) (transparent_lawful u32 (fun x => x) (fun x => x) _ u32_codec)). Qed.
Lemma blob_codec : lawful blob_type blob_ok.
Proof. apply (vec_lawful u8 (in_u 8)); [apply u8_lawful|apply u8_bytewise]. Qed.
Lemma raw_codec n : Z.of_nat n <= u32_max -> lawful (array_type u8 n) (key_ok n).
Proof. apply array_lawful; [apply u8_lawful|apply u8_bytewise]. Qed.

Lemma wide_vec {A} (T : ToxType A) ok : SIZE T = None -> lawful T ok -> lawful (vec_type T) (each_ok ok).
Proof. intros Hs HT. apply vec_lawful; [done|]. apply bytewise_wide. by rewrite Hs. Qed.

Lemma key_codec n : Z.of_nat n <= u32_max -> lawful (key_type n) (key_ok n).
Proof.
  intros Hn. eapply lawful_weaken; [|apply struct_lawful; [apply fcons_lawful; [by apply raw_codec|apply fnil_lawful]|by vm_compute]].
  intros k Hk. split_and!; done.
Qed.
Lemma key32_codec : lawful key32 (key_ok 32).
Proof. by apply key_codec. Qed.
Lemma signature_codec : lawful signature_type (key_ok 64).
Proof. by apply key_codec. Qed.

End Laws.

#[export] Hint Resolve u8_lawful u32_codec u64_codec i64_codec f64_lawful bits_codec blob_codec string_lawful key32_codec signature_codec : codec.

(** The codec of a type, by its shape. *)
Ltac codec :=
  lazymatch goal with
  | |- fields_lawful FNil _ => apply fnil_lawful
  | |- fields_lawful (FCons _ _) _ => apply fcons_lawful; codec
  | |- lawful (vec_type _) _ => apply wide_vec; [reflexivity|codec]
  | |- lawful (option_type _) _ => apply option_lawful; codec
  | |- lawful (array_type u8 _) _ => apply raw_codec; by vm_compute
  | |- lawful (tuple_type _) _ => apply tuple_lawful; [codec|by vm_compute]
  | |- lawful _ _ => solve [eauto 2 with codec nocore]
  end.

(** The codec of a struct: its fields have codecs, and it is put together again. *)
Ltac struct_codec := eapply lawful_weaken; [|apply struct_lawful; [codec|by vm_compute]]; cbn; intros s Hs; (split; [repeat split; first [apply Hs|exact I]|by destruct s]).

(** The arm of a value, at its place among the variants. *)
Ltac pick_arm i :=
  lazymatch goal with
  | |- arm_of ?vs _ =>
      let before := eval cbn in (take i vs) in
      let after := eval cbn in (drop (S i) vs) in
      let v := eval cbn in (vs !! i) in
      lazymatch v with
      | Some ?v =>
          exists before, v, after; split; [reflexivity|]; split;
          [|let w := fresh in let ctx := fresh in intros w ctx ?; repeat match goal with
              | H : _ ∈ _ :: _ |- _ => apply elem_of_cons in H as [->|H]
              | H : _ ∈ [] |- _ => by apply not_elem_of_nil in H
              end; reflexivity]
      end
  end.
Ltac one_field := eapply single_arm; [done|codec|reflexivity|done|reflexivity].
Ltac many_fields := eapply multi_arm; [done|codec|by vm_compute|reflexivity|cbn in *; naive_solver|reflexivity].

Section Laws.
Context `{RmpLaws}.

Lemma auth_codec : lawful node_auth auth_ok.
Proof.
  apply enum_lawful; [refine (bool_decide_unpack _ _); by vm_compute|]. intros [s|s] Hs; [pick_arm 0%nat|pick_arm 1%nat]; one_field.
Qed.

Lemma emoji_codec : lawful emoji_source emoji_ok.
Proof.
  apply enum_lawful; [refine (bool_decide_unpack _ _); by vm_compute|]. intros [s|h s] Hs; [pick_arm 0%nat; one_field|pick_arm 1%nat; many_fields].
Qed.

Lemma member_codec : lawful member_info member_ok.
Proof. struct_codec. Qed.
Lemma cert_codec : lawful certificate cert_ok.
Proof. struct_codec. Qed.
Lemma invite_codec : lawful invite_action invite_ok.
Proof. struct_codec. Qed.
Lemma pre_key_codec : lawful signed_pre_key pre_key_ok.
Proof. struct_codec. Qed.
Lemma wrapped_codec : lawful wrapped_key wrapped_ok.
Proof. struct_codec. Qed.

End Laws.

#[export] Hint Resolve auth_codec emoji_codec member_codec cert_codec invite_codec pre_key_codec wrapped_codec : codec.

Section Laws.
Context `{RmpLaws}.

Lemma seq_number_codec : lawful (tuple_type (FCons key32 (FCons u64 FNil))) (fun p => key_ok 32 p.1 /\ in_u 64 p.2.1).
Proof. eapply lawful_weaken; [|codec]. cbn. intros p Hp. split_and!; apply Hp || exact I. Qed.

Lemma snapshot_codec : lawful snapshot_data snapshot_ok.
Proof.
  eapply lawful_weaken; [|apply struct_lawful; [apply fcons_lawful; [codec|apply fcons_lawful; [codec|apply fcons_lawful; [|codec]]]|by vm_compute]];
    [|apply wide_vec; [reflexivity|apply seq_number_codec]].
  cbn. intros [b m l] (Hb & Hm & Hl & Hq). cbn in *. split; [split_and!; try done; split|].
  - unfold short, len in *. by rewrite length_fmap.
  - apply Forall_fmap. eapply Forall_impl; [exact Hq|]. intros [p q] Hp. exact Hp.
  - f_equal. rewrite <- list_fmap_compose. rewrite <- (list_fmap_id l) at 2. apply list_fmap_ext. by intros i [p q] _.
Qed.

End Laws.

#[export] Hint Resolve snapshot_codec : codec.

Section Laws.
Context `{RmpLaws}.

Lemma action_arm a : action_ok a -> arm_of control_variants a.
Proof.
  destruct a; intros Ha.
  - pick_arm 0%nat. many_fields.
  - pick_arm 1%nat. one_field.
  - pick_arm 2%nat. one_field.
  - pick_arm 3%nat. one_field.
  - pick_arm 4%nat. one_field.
  - pick_arm 5%nat. one_field.
  - pick_arm 6%nat. many_fields.
  - pick_arm 7%nat. many_fields.
  - pick_arm 8%nat. by apply unit_arm.
  - pick_arm 9%nat. one_field.
  - pick_arm 10%nat. many_fields.
  - pick_arm 11%nat. many_fields.
Qed.

Lemma action_codec : lawful control_action action_ok.
Proof. apply enum_lawful; [refine (bool_decide_unpack _ _); by vm_compute|apply action_arm]. Qed.

End Laws.

#[export] Hint Resolve action_codec : codec.

Section Laws.
Context `{RmpLaws}.

Lemma content_arm c : content_ok c -> arm_of content_variants c.
Proof.
  destruct c; intros Hc; [..|done].
  - pick_arm 0%nat. many_fields.
  - pick_arm 1%nat. many_fields.
  - pick_arm 2%nat. many_fields.
  - pick_arm 3%nat. many_fields.
  - pick_arm 4%nat. one_field.
  - pick_arm 5%nat. one_field.
  - pick_arm 6%nat. many_fields.
  - pick_arm 7%nat. many_fields.
  - pick_arm 8%nat. many_fields.
  - pick_arm 9%nat. many_fields.
  - pick_arm 10%nat. many_fields.
  - pick_arm 11%nat. many_fields.
Qed.

Lemma content_codec : lawful content_type content_ok.
Proof. apply enum_lawful; [refine (bool_decide_unpack _ _); by vm_compute|apply content_arm]. Qed.

End Laws.

#[export] Hint Resolve content_codec : codec.

Section Laws.
Context `{RmpLaws}.

Lemma node_codec : lawful merkle_node (fun n => node_ok n /\ pow_nonce n = 0).
Proof.
  eapply lawful_weaken; [|apply struct_lawful; [codec|by vm_compute]]. cbn. intros n [Hn Hp]. split.
  - unfold node_ok in Hn. tauto.
  - destruct n. cbn in *. by rewrite Hp.
Qed.

Lemma wire_codec : lawful wire_node wire_ok.
Proof. struct_codec. Qed.

Lemma auth_data_codec : lawful wire_auth_data auth_data_ok.
Proof. struct_codec. Qed.

End Laws.
(** ** Examples of nodes *)

Definition key1 : bytes := replicate 32 1.
Definition key2 : bytes := replicate 32 2.
Definition sig0 : Ed25519Signature := replicate 64 0.
Definition genesis_node : MerkleNode :=
  mkNode [] key1 key1 0 0 5000 (Control (Genesis (literal "room") key1 Permissions.ALL 0 5000 0)) [] (EphemeralSignature sig0) 0.
Definition text_node : MerkleNode := mkNode [key2] key1 key1 1 1 4000 (Text (literal "hello")) [] (EphemeralSignature sig0) 0.

Lemma node_ok_examples : node_ok genesis_node /\ node_ok text_node.
Proof.
  assert (forall n k v, in_u 8 v -> Z.of_nat n <= u32_max -> k = replicate n v -> key_ok n k) as Hk.
  { intros n k v Hv Hn ->. split; [apply length_replicate|by apply Forall_replicate]. }
  assert (key_ok 32 key1) by (by apply (Hk 32%nat _ 1)). assert (key_ok 32 key2) by (by apply (Hk 32%nat _ 2)). assert (key_ok 64 sig0) by (by apply (Hk 64%nat _ 0)).
  assert (each_ok (key_ok 32) []) by (split; [done|constructor]). assert (blob_ok []) by (split; [done|constructor]).
  split; unfold node_ok, auth_ok, content_ok, action_ok, i64_range, text_ok; cbn [parents author_pk sender_pk sequence_number topological_rank network_timestamp content metadata authentication genesis_node text_node];
    split_and!; try done; try (by vm_compute). split; [done|by repeat constructor].
Qed.

End DagCodec.
