(* ===== verification/DagWire.v ===== *)
(** Key derivation and the encryption of routing data
    ([merkle-tox-core/src/crypto.rs]), and the wire format of nodes
    ([dag.rs]: [pack_wire], [try_decrypt_routing], [unpack_wire_content],
    [unpack_wire_exception], [decode_payload]). *)

From S2P Require Import Prelude Protocol MsgPack ToxTypes Derive Merkle Dag.
From stdpp Require Import gmap strings.
#[local] Open Scope Z_scope.
#[local] Open Scope list_scope.

(** ** Keys *)

Module Crypto.

Definition KConv : Type := bytes.
Definition ChainKey : Type := bytes.
Definition MessageKey : Type := bytes.
Definition SenderKey : Type := bytes.
Definition HeaderKey : Type := bytes.

(** [PackContentKeys], [PackKeys] *)
Record PackContentKeys := mkPackKeys { k_msg : MessageKey; k_header : HeaderKey; routing_nonce : bytes; payload_nonce : bytes }.
Inductive PackKeys := PackContent (keys : PackContentKeys) | PackException.

Record ConversationKeys := mkConversationKeys { k_conv : KConv; k_enc : bytes; k_mac : bytes }.

(** [array.copy_from_slice(slice)] of [n] bytes: panics on another length. *)
Definition sized (n : nat) (b : bytes) : option bytes := if Nat.eqb (length b) n then Some b else None.

Section Crypto.
Context `{Blake3Hash} `{ChaCha20}.

Definition derive_k_header_epoch (k : KConv) (sender_key_n : SenderKey) : HeaderKey :=
  blake3_derive "merkle-tox v1 header-key" (k ++ sender_key_n).

Definition compute_sender_hint (k : MessageKey) : bytes := take 4 (blake3_derive "merkle-tox v1 hint" k).

Definition encrypt_routing_aead (k : HeaderKey) (nonce : bytes) (seq : Z) (aad : bytes) : bytes :=
  let '(buffer, tag) := aead_encrypt k nonce aad (be_bytes 8 seq) in buffer ++ tag.

Definition decrypt_routing_aead (k : HeaderKey) (nonce ciphertext aad : bytes) : option Z :=
  if negb (len ciphertext =? 24) then None
  else
    buffer ← aead_decrypt k nonce aad (take 8 ciphertext) (drop 8 ciphertext);
    if Nat.eqb (length buffer) 8 then Some (from_be buffer) else None.

(** [ConversationKeys::derive], [calculate_mac], [verify_mac], [encrypt],
    [decrypt] *)
Definition derive_keys (k : KConv) : ConversationKeys :=
  mkConversationKeys k (blake3_derive "merkle-tox v1 enc" k) (blake3_derive "merkle-tox v1 mac" k).
Definition calculate_mac (keys : ConversationKeys) (data : bytes) : bytes := blake3_keyed (k_mac keys) data.
Definition verify_mac (keys : ConversationKeys) (data mac : bytes) : bool := bool_decide (calculate_mac keys data = mac).
Definition encrypt (keys : ConversationKeys) (nonce data : bytes) : bytes := chacha20 (k_enc keys) nonce data.
Definition decrypt (keys : ConversationKeys) (nonce data : bytes) : bytes := encrypt keys nonce data.
Definition encrypt_payload_with_mac (keys : ConversationKeys) (mac data : bytes) : bytes := encrypt keys (take 12 mac) data.
Definition decrypt_payload_with_mac (keys : ConversationKeys) (mac data : bytes) : bytes := decrypt keys (take 12 mac) data.

(** The ratchet of a sender. *)
Definition ratchet_init_sender (k : KConv) (sender : PhysicalDevicePk) : ChainKey := blake3_derive "merkle-tox v1 sender-seed" (k ++ sender).
Definition ratchet_step (k : ChainKey) : ChainKey := blake3_derive "merkle-tox v1 ratchet-step" k.
Definition ratchet_message_key (k : ChainKey) : MessageKey := blake3_derive "merkle-tox v1 message-key" k.

Definition derive_k_iblt (k : KConv) (conversation_id : ConversationId) : bytes := blake3_derive "merkle-tox v1 iblt-conv-key" (k ++ conversation_id).
Definition derive_k_header_export (k : KConv) : HeaderKey := blake3_derive "merkle-tox v1 header-export" k.
Definition derive_k_payload_export (k : KConv) : bytes := blake3_derive "merkle-tox v1 payload-export" k.

Definition derive_legacy_bridge_dedup_id (conversation_id : ConversationId) (source_pk : PhysicalDevicePk) (text : bytes) (message_type : Z) : NodeHash :=
  blake3 (conversation_id ++ source_pk ++ be_bytes 4 (wrap 32 (len text)) ++ text ++ [message_type]).

(** ** Key agreement

    [x25519] is the library's [diffie_hellman]; keys are converted from Ed25519 by
    library functions. *)

Section KeyAgreement.
Variable x25519 : bytes -> bytes -> bytes.
Variable sha512 : bytes -> bytes.
Variable to_montgomery : bytes -> option bytes.

(** The clamping of a scalar. *)
Definition clamp (x : bytes) : option bytes :=
  b0 ← idx x 0; x ← upd x 0 (Z.land b0 248);
  b31 ← idx x 31; upd x 31 (Z.lor (Z.land b31 127) 64).

Definition ed25519_sk_to_x25519 (ed_sk : bytes) : option bytes := x ← sized 32 (take 32 (sha512 ed_sk)); clamp x.
Definition ed25519_pk_to_x25519 (ed_pk : bytes) : option bytes := to_montgomery ed_pk.
Definition device_pk_to_x25519 (pk : bytes) : bytes := default pk (ed25519_pk_to_x25519 pk).

(** The material of [ecies_wrap] and [ecies_unwrap]. *)
Definition wrap_key (shared_spk : bytes) (shared_opk auth_secret : option bytes) : bytes :=
  blake3_derive "merkle-tox v1 keywrap" (shared_spk ++ default [] shared_opk ++ default [] auth_secret).

Definition ecies_wrap (ephemeral_sk recipient_spk : bytes) (recipient_opk auth_secret : option bytes) (plaintext : bytes) : bytes :=
  let k := wrap_key (x25519 ephemeral_sk recipient_spk) (x25519 ephemeral_sk <$> recipient_opk) auth_secret in
  let '(c, tag) := aead_encrypt k (replicate 12 0) [] plaintext in c ++ tag.

Definition ecies_unwrap (self_spk_sk ephemeral_pk : bytes) (self_opk_sk auth_secret : option bytes) (ct : bytes) : option bytes :=
  if len ct <? 16 then None
  else
    let k := wrap_key (x25519 self_spk_sk ephemeral_pk) ((fun opk => x25519 opk ephemeral_pk) <$> self_opk_sk) auth_secret in
    let n := (length ct - 16)%nat in
    aead_decrypt k (replicate 12 0) [] (take n ct) (drop n ct).

Definition ecies_unwrap_32 (self_spk_sk ephemeral_pk : bytes) (self_opk_sk auth_secret : option bytes) (ct : bytes) : option bytes :=
  pt ← ecies_unwrap self_spk_sk ephemeral_pk self_opk_sk auth_secret ct; sized 32 pt.

(** The outer [None] is a panic, the inner one a key that does not convert. *)
Definition x3dh_derive_secret_initiator (self_device_sk self_ephemeral_sk peer_device_pk peer_signed_pre_pk : bytes)
    (peer_one_time_pk : option bytes) : option (option bytes) :=
  i_a ← ed25519_sk_to_x25519 self_device_sk;
  Some (i_b ← ed25519_pk_to_x25519 peer_device_pk;
    Some (blake3_derive "merkle-tox v1 x3dh-shared"
      (x25519 i_a peer_signed_pre_pk ++ x25519 self_ephemeral_sk i_b ++ x25519 self_ephemeral_sk peer_signed_pre_pk ++
       default [] (x25519 self_ephemeral_sk <$> peer_one_time_pk)))).

Definition x3dh_derive_secret_recipient (self_device_sk self_signed_pre_sk peer_device_pk peer_ephemeral_pk : bytes)
    (self_one_time_sk : option bytes) : option (option bytes) :=
  i_b ← ed25519_sk_to_x25519 self_device_sk;
  Some (i_a ← ed25519_pk_to_x25519 peer_device_pk;
    Some (blake3_derive "merkle-tox v1 x3dh-shared"
      (x25519 self_signed_pre_sk i_a ++ x25519 i_b peer_ephemeral_pk ++ x25519 self_signed_pre_sk peer_ephemeral_pk ++
       default [] ((fun opk => x25519 opk peer_ephemeral_pk) <$> self_one_time_sk)))).

End KeyAgreement.
End Crypto.
End Crypto.

(** ** Nodes on the wire *)

Module DagWire.
Import Dag Crypto.

Section Wire.
Context `{Rmp} `{Blake3Hash} `{ChaCha20} `{Zstd}.

(** The payload, compressed when that is asked for and shorter. *)
Definition compress (use_compression : bool) (payload : bytes) : bytes * Z :=
  match (if use_compression then encode_all payload else None) with
  | Some compressed => if len compressed <? len payload then (compressed, FLAG_COMPRESSED) else (payload, 0)
  | None => (payload, 0)
  end.

Definition pack_wire (n : MerkleNode) (keys : PackKeys) (use_compression : bool) : Outcome MerkleToxError WireNode :=
  let? content_data := map_err ProtocolError (to_vec content_type (content n)) in
  let '(payload, flags) := compress use_compression (payload_of n content_data) in
  let payload := apply_padding payload in
  match keys with
  | PackException =>
      succeed (mkWire (parents n) [0; 0; 0; 0] (cleartext_routing n) payload (topological_rank n) flags (authentication n))
  | PackContent ck =>
      let encrypted_payload := payload_nonce ck ++ chacha20 (k_msg ck) (payload_nonce ck) payload in
      let payload_hash := blake3 encrypted_payload in
      let aead_ct := encrypt_routing_aead (k_header ck) (routing_nonce ck) (sequence_number n) payload_hash in
      succeed (mkWire (parents n) (compute_sender_hint (k_msg ck)) (routing_nonce ck ++ aead_ct) encrypted_payload
        (topological_rank n) (Z.lor flags FLAG_ENCRYPTED) (authentication n))
  end.

Definition try_decrypt_routing (w : WireNode) (k : HeaderKey) : option Z :=
  if negb (len (encrypted_routing w) =? 36) then None
  else decrypt_routing_aead k (take 12 (encrypted_routing w)) (drop 12 (encrypted_routing w)) (blake3 (payload_data w)).

Definition decode_payload (w : WireNode) (sender : PhysicalDevicePk) (author : LogicalIdentityPk) (seq : Z) (payload : bytes) :
    Outcome MerkleToxError MerkleNode :=
  match remove_padding payload with
  | None => refuse (Validation InvalidPadding)
  | Some payload =>
      let? payload := (if Permissions.contains (wire_flags w) FLAG_COMPRESSED
                       then match decode_all payload with Some d => succeed d | None => refuse (Validation DecompressionFailed) end
                       else succeed payload) in
      if len payload <? 8 then refuse (Validation (InvalidWirePayloadSize (len payload) 8))
      else
        let network_timestamp := to_signed 8 (from_be (take 8 payload)) in
        let? (c, rest) := map_err ProtocolError (deserialize content_type empty_ctx (drop 8 payload)) in
        succeed (mkNode (wire_parents w) author sender seq (wire_rank w) network_timestamp c rest (wire_authentication w) 0)
  end.

Definition unpack_wire_content (w : WireNode) (sender : PhysicalDevicePk) (author : LogicalIdentityPk) (seq : Z) (k : MessageKey) :
    Outcome MerkleToxError MerkleNode :=
  if len (payload_data w) <? 12 then refuse (Validation (InvalidWirePayloadSize (len (payload_data w)) 12))
  else decode_payload w sender author seq (chacha20 k (take 12 (payload_data w)) (drop 12 (payload_data w))).

Definition unpack_wire_exception (w : WireNode) : Outcome MerkleToxError MerkleNode :=
  let routing := encrypted_routing w in
  if len routing <? 40 then refuse (Validation (InvalidWirePayloadSize (len routing) 40))
  else
    let sender := take 32 routing in
    decode_payload w sender (to_logical sender) (from_be (take 8 (drop 32 routing))) (payload_data w).

End Wire.
End DagWire.
