(* ===== verification/DagTheory.v ===== *)
(** What the wire format of nodes and their signatures guarantee: padding and
    nodes survive packing and unpacking, and what is signed determines the node but
    for its author. *)

From S2P Require Import Prelude Protocol MsgPack MsgPackTheory ToxTypes ToxTheory Derive DeriveTheory MsgPackFormat Merkle MerkleModels Dag DagCodec DagWire.
From stdpp Require Import list gmap strings.
#[local] Open Scope Z_scope.
#[local] Open Scope list_scope.

Module DagTheory.
Import Dag DagCodec Crypto DagWire.

(** ** Padding *)

Lemma last_nonzero_pad n (d : bytes) b : b <> 0 -> last_nonzero (replicate n 0 ++ b :: d) = Some (b, reverse d).
Proof. intros Hb. induction n as [|n IH]; cbn; [|exact IH]. by destruct (Z.eqb_spec b 0). Qed.

Lemma padding_inverse d : remove_padding (apply_padding d) = Some d.
Proof.
  unfold remove_padding, apply_padding. rewrite reverse_app, reverse_replicate, reverse_snoc. rewrite last_nonzero_pad by lia. cbn.
  by rewrite reverse_involutive.
Qed.

Lemma next_power_spec n : 1 <= n -> n <= next_power_of_two n < 2 * n /\ exists k, 0 <= k /\ next_power_of_two n = 2 ^ k.
Proof.
  intros Hn. unfold next_power_of_two. destruct (Z.leb_spec n 1).
  - split; [lia|]. by exists 0.
  - pose proof (Z.log2_up_spec n ltac:(lia)) as [Hlo Hhi]. pose proof (Z.log2_up_pos n ltac:(lia)).
    split; [|exists (Z.log2_up n); split; [lia|done]]. split; [done|].
    replace (Z.log2_up n) with (Z.succ (Z.pred (Z.log2_up n))) by lia. rewrite Z.pow_succ_r by lia. lia.
Qed.

(** The length after padding shows no more than a power of two. *)
Lemma padded_len d : len (apply_padding d) = Z.max (next_power_of_two (len d + 1)) MIN_PADDING_BIN.
Proof.
  unfold apply_padding. pose proof (len_nonneg d). pose proof (next_power_spec (len d + 1) ltac:(lia)).
  assert (forall k, len (replicate k 0) = Z.of_nat k) as Hr by (intros k; unfold len; by rewrite length_replicate).
  rewrite len_app, Hr, len_app. change (len [128]) with 1. lia.
Qed.

Lemma padded_short d : len d < 2 ^ 31 -> short (apply_padding d).
Proof.
  intros Hd. unfold short. rewrite padded_len. pose proof (len_nonneg d). destruct (next_power_spec (len d + 1) ltac:(lia)) as [Hlt (k & Hk & E)].
  unfold MIN_PADDING_BIN, u32_max. assert (next_power_of_two (len d + 1) <= 2 ^ 31); [|lia]. rewrite E in Hlt |- *.
  apply Z.pow_le_mono_r; [lia|]. destruct (Z.le_gt_cases k 31); [done|]. pose proof (Z.pow_le_mono_r 2 32 k ltac:(lia) ltac:(lia)). lia.
Qed.

Lemma padded_bytes d : Forall (in_u 8) d -> Forall (in_u 8) (apply_padding d).
Proof. intros Hd. unfold apply_padding. apply Forall_app. split; [apply Forall_app; split; [done|by repeat constructor]|by apply Forall_replicate]. Qed.

Lemma be_bytes_u8 n v : Forall (in_u 8) (be_bytes n v).
Proof.
  unfold be_bytes. apply Forall_reverse. revert v. induction n as [|n IH]; intros v; cbn; constructor; [|apply IH].
  unfold in_u. apply Z.mod_pos_bound. lia.
Qed.

Lemma le_bytes_wrap n v : le_bytes n (wrap (8 * Z.of_nat n) v) = le_bytes n v.
Proof.
  unfold wrap. revert v. induction n as [|n IH]; intros v; [done|]. cbn [le_bytes]. replace (8 * Z.of_nat (S n)) with (8 + 8 * Z.of_nat n) by lia.
  rewrite Z.pow_add_r by lia. change (2 ^ 8) with 256. pose proof (Z.pow_pos_nonneg 2 (8 * Z.of_nat n) ltac:(lia) ltac:(lia)). rewrite Z.rem_mul_r by lia.
  rewrite (Z.mul_comm 256), Z.mod_add, Z.div_add by lia. rewrite Z.mod_mod, (Z.div_small (v mod 256)) by (try apply Z.mod_pos_bound; lia). f_equal.
  rewrite Z.add_0_l. apply IH.
Qed.

Lemma be_signed t : i64_range t -> to_signed 8 (from_be (be_bytes 8 t)) = t.
Proof.
  intros Ht. unfold be_bytes. rewrite <- (le_bytes_wrap 8 t). fold (be_bytes 8 (wrap (8 * Z.of_nat 8) t)).
  rewrite from_be_bytes by (apply Z.mod_pos_bound; lia). apply (to_signed_wrap 8); [lia|]. unfold i64_range, i64_min, i64_max in Ht. cbn. lia.
Qed.

(** ** Packing and unpacking *)

Section Wire.
Context `{RmpLaws} `{Blake3Hash} `{ChaCha20Laws} `{ZstdLaws}.

Lemma content_bytes c : content_ok c ->
  exists b, to_vec content_type c = ret b /\ forall r, deserialize content_type empty_ctx (b ++ r) = ret (c, r).
Proof. intros Hc. destruct (content_codec empty_ctx c Hc) as (b & E1 & E2 & _). by exists b. Qed.

Lemma compress_inverse use payload : forall p flags, compress use payload = (p, flags) ->
  (flags = 0 /\ p = payload) \/ (flags = FLAG_COMPRESSED /\ decode_all p = Some payload).
Proof.
  unfold compress. intros p flags E. destruct (if use then encode_all payload else None) as [c|] eqn:Ec; [|left; naive_solver].
  destruct use; [|done]. destruct (len c <? len payload); simplify_eq; [right; split; [done|by apply zstd_inverse]|by left].
Qed.

(** Decoding a payload that [pack_wire] made. *)
Lemma decode_packed n use b p flags w sender author seq :
  content_ok (content n) -> i64_range (network_timestamp n) -> to_vec content_type (content n) = ret b ->
  (forall r, deserialize content_type empty_ctx (b ++ r) = ret (content n, r)) -> compress use (payload_of n b) = (p, flags) ->
  (Permissions.contains (wire_flags w) FLAG_COMPRESSED = Permissions.contains flags FLAG_COMPRESSED) ->
  decode_payload w sender author seq (apply_padding p) =
    succeed (mkNode (wire_parents w) author sender seq (wire_rank w) (network_timestamp n) (content n) (metadata n) (wire_authentication w) 0).
Proof.
  intros Hc Ht Eb Hd Ep Hw. unfold decode_payload. rewrite padding_inverse, Hw.
  assert ((if Permissions.contains flags FLAG_COMPRESSED
           then match decode_all p with Some d => succeed d | None => refuse (Validation DecompressionFailed) end
           else succeed p) = (succeed (payload_of n b) : Outcome MerkleToxError bytes)) as ->.
  { destruct (compress_inverse _ _ _ _ Ep) as [[-> ->]|[-> Hz]]; [done|]. cbn. by rewrite Hz. }
  cbn [obind succeed]. unfold payload_of. rewrite len_app. pose proof (len_nonneg (b ++ metadata n)).
  assert (len (be_bytes 8 (network_timestamp n)) = 8) as E8 by (unfold len; by rewrite be_bytes_length). rewrite E8.
  destruct (Z.ltb_spec (8 + len (b ++ metadata n)) 8); [lia|].
  rewrite take_app_length', drop_app_length' by (by rewrite be_bytes_length). rewrite Hd. cbn [map_err obind ret succeed]. by rewrite be_signed.
Qed.

Lemma routing_inverse k nonce seq aad : in_u 64 seq -> decrypt_routing_aead k nonce (encrypt_routing_aead k nonce seq aad) aad = Some seq.
Proof.
  intros Hs. unfold decrypt_routing_aead, encrypt_routing_aead. pose proof (aead_len k nonce aad (be_bytes 8 seq)) as [Hc Ht].
  pose proof (aead_opens k nonce aad (be_bytes 8 seq)) as Ho. destruct (aead_encrypt k nonce aad (be_bytes 8 seq)) as [c t]. cbn [fst snd] in *.
  rewrite be_bytes_length in Hc. assert (len (c ++ t) = 24) as -> by (unfold len; by rewrite length_app, Hc, Ht). cbn [negb Z.eqb Pos.eqb].
  rewrite take_app_length', drop_app_length' by done. rewrite Ho. cbn [mbind option_bind]. rewrite be_bytes_length. cbn [Nat.eqb]. by rewrite from_be_bytes.
Qed.

Lemma routing_len k nonce seq aad : len (encrypt_routing_aead k nonce seq aad) = 24.
Proof.
  unfold encrypt_routing_aead. pose proof (aead_len k nonce aad (be_bytes 8 seq)) as [Hc Ht]. destruct (aead_encrypt _ _ _ _) as [c t].
  cbn [fst snd] in *. rewrite be_bytes_length in Hc. unfold len. by rewrite length_app, Hc, Ht.
Qed.

(** An encrypted node comes back, given the keys it was packed with. *)
Lemma content_unpacked n ck use : node_ok n -> length (routing_nonce ck) = 12%nat -> length (payload_nonce ck) = 12%nat ->
  exists w, pack_wire n (PackContent ck) use = succeed w /\ sender_hint w = compute_sender_hint (k_msg ck) /\
    try_decrypt_routing w (k_header ck) = Some (sequence_number n) /\
    unpack_wire_content w (sender_pk n) (author_pk n) (sequence_number n) (k_msg ck) = succeed (n <| pow_nonce := 0 |>).
Proof.
  intros (Hp & Ha & Hs & Hq & Hr & Ht & Hc & Hm & Hu) Hn1 Hn2. destruct (content_bytes _ Hc) as (b & Eb & Hd). unfold pack_wire. rewrite Eb. cbn [map_err obind ret].
  destruct (compress use (payload_of n b)) as [p flags] eqn:Ep. eexists. split; [done|]. split; [done|]. split.
  - unfold try_decrypt_routing. cbn [encrypted_routing payload_data]. rewrite len_app, routing_len. unfold len. rewrite Hn1. cbn [negb Z.eqb].
    change (Z.of_nat 12 + 24 =? 36) with true. cbn [negb]. rewrite take_app_length', drop_app_length' by done. by apply routing_inverse.
  - unfold unpack_wire_content. cbn [payload_data]. rewrite len_app. pose proof (len_nonneg (chacha20 (k_msg ck) (payload_nonce ck) (apply_padding p))).
    assert (len (payload_nonce ck) = 12) as -> by (unfold len; by rewrite Hn2). destruct (Z.ltb_spec (12 + len (chacha20 (k_msg ck) (payload_nonce ck) (apply_padding p))) 12); [lia|].
    rewrite take_app_length', drop_app_length', chacha20_involutive by done. erewrite decode_packed; [|done..|].
    + by destruct n.
    + cbn [wire_flags]. by destruct (compress_inverse _ _ _ _ Ep) as [[-> _]|[-> _]].
Qed.

(** A node sent in the clear comes back up to its author, which is not on the wire. *)
Lemma exception_unpacked n use : node_ok n ->
  exists w, pack_wire n PackException use = succeed w /\
    unpack_wire_exception w = succeed (n <| author_pk := to_logical (sender_pk n) |> <| pow_nonce := 0 |>).
Proof.
  intros (Hp & Ha & [Hs _] & Hq & Hr & Ht & Hc & Hm & Hu). destruct (content_bytes _ Hc) as (b & Eb & Hd). unfold pack_wire. rewrite Eb. cbn [map_err obind ret].
  destruct (compress use (payload_of n b)) as [p flags] eqn:Ep. eexists. split; [done|]. unfold unpack_wire_exception. cbn [encrypted_routing payload_data].
  unfold cleartext_routing. rewrite len_app. unfold len. rewrite be_bytes_length, Hs. cbn [Z.of_nat Z.ltb]. change (Z.of_nat 32 + Z.of_nat 8 <? 40) with false.
  cbn iota. rewrite take_app_length', drop_app_length' by done. rewrite take_ge by (by rewrite be_bytes_length). rewrite from_be_bytes by exact Hq.
  erewrite decode_packed; [|done..]. by destruct n.
Qed.

End Wire.


(** ** What is signed *)

Section Signed.
Context `{RmpLaws}.

(** Values that are written as the same bytes, in front of anything, are equal. *)
Lemma codec_injective {A} (T : ToxType A) ok a a' b r r' : lawful T ok -> ok a -> ok a' ->
  serialize T empty_ctx a = ret b -> (exists b', serialize T empty_ctx a' = ret b' /\ b ++ r = b' ++ r') -> a = a' /\ r = r'.
Proof.
  intros HT Ha Ha' E (b' & E' & Hr). destruct (HT empty_ctx a Ha) as (c & F1 & F2 & _), (HT empty_ctx a' Ha') as (c' & F1' & F2' & _).
  rewrite E in F1. rewrite E' in F1'. injection F1 as <-. injection F1' as <-. specialize (F2 r). rewrite Hr, F2' in F2. by injection F2 as <- <-.
Qed.

Lemma separators_differ a b : ADMIN_SEPARATOR ++ a <> CONTENT_SEPARATOR ++ b.
Proof. intros E. apply (f_equal (fun l => l !! 15%nat)) in E. by vm_compute in E. Qed.

Definition separator (t : NodeType) : bytes := match t with Admin => ADMIN_SEPARATOR | ContentNode => CONTENT_SEPARATOR end.

Lemma separator_inv t t' a b : separator t ++ a = separator t' ++ b -> t = t' /\ a = b.
Proof.
  destruct t, t'; cbn [separator]; intros E; [by apply app_inv_head in E|by apply separators_differ in E| |by apply app_inv_head in E].
  symmetry in E. by apply separators_differ in E.
Qed.

(** The size of what a node carries. *)
Definition carries (n : MerkleNode) : Prop :=
  forall b, to_vec content_type (content n) = ret b -> len b + len (metadata n) < 2 ^ 30 /\ Forall (in_u 8) b.

Definition auth_data (n : MerkleNode) (b : bytes) : WireAuthData :=
  mkAuthData (parents n) [0; 0; 0; 0] (cleartext_routing n) (apply_padding (payload_of n b)) (topological_rank n) 0.

Lemma auth_data_of_node n b : node_ok n -> carries n -> to_vec content_type (content n) = ret b -> auth_data_ok (auth_data n b).
Proof.
  intros (Hp & Ha & [Hs Hs8] & Hq & Hr & Ht & Hc & [Hm Hm8] & Hu) Hcar Eb. destruct (Hcar b Eb) as [Hl Hb8].
  assert (Forall (in_u 8) (payload_of n b)) by (apply Forall_app; split; [apply be_bytes_u8|by apply Forall_app]).
  assert (len (payload_of n b) < 2 ^ 31).
  { unfold payload_of. rewrite !len_app. assert (len (be_bytes 8 (network_timestamp n)) = 8) as -> by (unfold len; by rewrite be_bytes_length). lia. }
  unfold auth_data_ok, auth_data. cbn [auth_parents auth_hint auth_routing auth_payload auth_rank auth_flags].
  split_and!; [done| | |split; [by apply padded_short|by apply padded_bytes]|done|done].
  - split; [done|by repeat constructor].
  - unfold cleartext_routing. split; [|apply Forall_app; split; [done|apply be_bytes_u8]].
    unfold short. rewrite len_app. unfold len. rewrite Hs, be_bytes_length. by vm_compute.
Qed.

Lemma signed_bytes n a : node_ok n -> carries n -> serialize_for_auth n = Some a ->
  exists b s, to_vec content_type (content n) = ret b /\ auth_data_ok (auth_data n b) /\
    serialize wire_auth_data empty_ctx (auth_data n b) = ret s /\ a = separator (node_type n) ++ s.
Proof.
  intros Hn Hcar. destruct (content_bytes (content n) ltac:(apply Hn)) as (b & Eb & _). pose proof (auth_data_of_node n b Hn Hcar Eb) as Hok.
  unfold serialize_for_auth. rewrite Eb. cbn [expect mbind option_bind ret]. destruct (auth_data_codec empty_ctx (auth_data n b) Hok) as (s & Es & _).
  change (to_vec wire_auth_data _) with (serialize wire_auth_data empty_ctx (auth_data n b)). rewrite Es. cbn. intros [= <-]. exists b, s. by destruct (node_type n).
Qed.

(** Nodes with the same bytes to sign are the same but for author and
    authentication. *)
Lemma auth_injective n m a : node_ok n -> node_ok m -> carries n -> carries m ->
  serialize_for_auth n = Some a -> serialize_for_auth m = Some a ->
  parents n = parents m /\ sender_pk n = sender_pk m /\ sequence_number n = sequence_number m /\ topological_rank n = topological_rank m /\
  network_timestamp n = network_timestamp m /\ content n = content m /\ metadata n = metadata m.
Proof.
  intros Hn Hm Hcn Hcm En Em. destruct (signed_bytes n a Hn Hcn En) as (b & s & Eb & Hok & Es & ->), (signed_bytes m _ Hm Hcm Em) as (b' & s' & Eb' & Hok' & Es' & E).
  apply separator_inv in E as [_ ->]. destruct (codec_injective wire_auth_data _ _ _ _ [] [] auth_data_codec Hok Hok' Es ltac:(by exists s')) as [E _].
  assert (parents n = parents m) as Hp by exact (f_equal auth_parents E). assert (topological_rank n = topological_rank m) as Hr by exact (f_equal auth_rank E).
  assert (cleartext_routing n = cleartext_routing m) as Hrt by exact (f_equal auth_routing E).
  assert (payload_of n b = payload_of m b') as Hpay.
  { apply (f_equal auth_payload), (f_equal remove_padding) in E. cbn [auth_payload auth_data] in E. rewrite !padding_inverse in E. by apply (inj Some) in E. }
  destruct Hn as (_ & _ & [Hs _] & Hq & _ & Ht & Hc & _), Hm as (_ & _ & [Hs' _] & Hq' & _ & Ht' & Hc' & _).
  unfold cleartext_routing in Hrt. unfold payload_of in Hpay. apply app_inj_1 in Hrt as [Hsender Hseq]; [|congruence]. apply app_inj_1 in Hpay as [Hts Hcont]; [|by rewrite !be_bytes_length].
  apply (f_equal from_be) in Hseq. rewrite !from_be_bytes in Hseq by done. apply (f_equal (fun x => to_signed 8 (from_be x))) in Hts. rewrite !be_signed in Hts by done.
  destruct (codec_injective content_type _ _ _ _ _ _ content_codec Hc Hc' Eb ltac:(by exists b')) as [Hcc Hmm]. by split_and!.
Qed.


End Signed.


(** ** Properties *)

Section Properties.
Context `{RmpLaws} `{Blake3Hash} `{ChaCha20Laws} `{ZstdLaws}.

(** C12: A node of known content that is packed for the wire is unpacked again, up to
    its nonce of the proof of work, which is not on the wire and not part of its hash.
    Encrypted, it comes back from the keys it was packed with and for the sender and
    author that the receiver knows, whatever the compression does, with the
    hint of its key and its sequence number readable with the header key.  In the clear
    it comes back with its sender in place of its author, who is not on the wire;
    with the author put back, as the caller does, its hash is that of the node. *)
Theorem wire_roundtrip n ck use : node_ok n -> length (routing_nonce ck) = 12%nat -> length (payload_nonce ck) = 12%nat ->
  (exists w n', pack_wire n (PackContent ck) use = succeed w /\ sender_hint w = compute_sender_hint (k_msg ck) /\
    try_decrypt_routing w (k_header ck) = Some (sequence_number n) /\
    unpack_wire_content w (sender_pk n) (author_pk n) (sequence_number n) (k_msg ck) = succeed n' /\
    n' = n <| pow_nonce := 0 |> /\ hash n' = hash n) /\
  exists w n', pack_wire n PackException use = succeed w /\ unpack_wire_exception w = succeed n' /\
    n' = n <| author_pk := to_logical (sender_pk n) |> <| pow_nonce := 0 |> /\ hash (n' <| author_pk := author_pk n |>) = hash n.
Proof.
  intros Hn Hr Hp. split.
  - destruct (content_unpacked n ck use Hn Hr Hp) as (w & E & Eh & Er & Eu). by exists w, (n <| pow_nonce := 0 |>).
  - destruct (exception_unpacked n use Hn) as (w & E & Eu). by eexists w, _.
Qed.

(** C40: Two nodes of known content, with less than 2^30 bytes of content and metadata,
    for which [serialize_for_auth] gives the same bytes to sign agree on parents,
    sender, sequence number, rank, timestamp, content and metadata; the separators keep
    admin and content nodes apart.  The author and the nonce of the proof of work are
    not signed. *)
Theorem signature_covers_node n m a : node_ok n -> node_ok m -> carries n -> carries m ->
  serialize_for_auth n = Some a -> serialize_for_auth m = Some a ->
  parents n = parents m /\ sender_pk n = sender_pk m /\ sequence_number n = sequence_number m /\ topological_rank n = topological_rank m /\
  network_timestamp n = network_timestamp m /\ content n = content m /\ metadata n = metadata m.
Proof. apply auth_injective. Qed.

(** Nodes, wire nodes and the data that is signed are written as one MessagePack
    value and read back, in front of any further input; only the nonce of a node is
    not written. *)
Theorem nodes_roundtrip : lawful content_type content_ok /\ lawful wire_node wire_ok /\ lawful wire_auth_data auth_data_ok /\
  lawful merkle_node (fun n => node_ok n /\ pow_nonce n = 0).
Proof. split_and!; [apply content_codec|apply wire_codec|apply auth_data_codec|apply node_codec]. Qed.

(** Padding is inverted, and the length of a padded payload shows no more than
    a power of two. *)
Theorem padding_hides d : remove_padding (apply_padding d) = Some d /\ len (apply_padding d) = Z.max (next_power_of_two (len d + 1)) MIN_PADDING_BIN.
Proof. split; [apply padding_inverse|apply padded_len]. Qed.

End Properties.

Import Models Format.

Definition example_keys : PackContentKeys := mkPackKeys (replicate 32 3) (replicate 32 4) (replicate 12 5) (replicate 12 6).

Lemma wire_roundtrip_witness :
  (exists w n', pack_wire text_node (PackContent example_keys) true = succeed w /\
    unpack_wire_content w (sender_pk text_node) (author_pk text_node) (sequence_number text_node) (k_msg example_keys) = succeed n' /\ hash n' = hash text_node) /\
  exists w n', pack_wire text_node PackException true = succeed w /\ unpack_wire_exception w = succeed n' /\ hash (n' <| author_pk := author_pk text_node |>) = hash text_node.
Proof.
  destruct (wire_roundtrip text_node example_keys true) as [(w & n1 & E1 & _ & _ & E2 & _ & E3) (v & n2 & E4 & E5 & _ & E6)]; [apply node_ok_examples|done|done|].
  split; [exists w, n1|exists v, n2]; (split; [assumption|]); split; assumption.
Defined.

Lemma carries_example : carries text_node.
Proof. intros b Eb. vm_compute in Eb. injection Eb as <-. split; [done|]. by repeat constructor. Qed.

Lemma signature_covers_node_witness : content text_node = content (text_node <| author_pk := key2 |>).
Proof.
  destruct (serialize_for_auth text_node) as [a|] eqn:Ea; [|vm_compute in Ea; discriminate].
  apply (signature_covers_node text_node (text_node <| author_pk := key2 |>) a); [apply node_ok_examples| |apply carries_example|apply carries_example|done|done].
  destruct node_ok_examples as [_ (Hp & _ & Hrest)]. assert (key_ok 32 key2) by (by apply (Forall_inv (proj2 Hp))). by split.
Defined.

End DagTheory.
