(* ===== verification/DagValid.v ===== *)
(** What validation accepts, and what follows for a graph of validated nodes.

    [valid] states the checks of [validate] as properties of a node; [validate] accepts
    exactly the nodes that satisfy them.  A store that is filled with validated nodes
    stays [sound]: it has no cycles, keeps the isolation of admin nodes, short chains
    of soft anchors and the distance of content to an admin node. *)

From S2P Require Import Prelude Protocol MsgPack MsgPackTheory ToxTypes ToxTheory Derive MsgPackFormat Merkle MerkleModels Dag DagCodec.
From stdpp Require Import list gmap.
#[local] Open Scope Z_scope.
#[local] Open Scope list_scope.

Module DagValid.
Import Dag DagCodec.

(** ** The loops *)

Lemma unique_parents_ok seen ps : unique_parents seen ps = succeed tt <-> NoDup ps /\ forall p, p ∈ ps -> p ∉ seen.
Proof.
  revert seen. induction ps as [|p ps IH]; intros seen; cbn.
  - split; [intros _; split; [constructor|by intros p ?%not_elem_of_nil]|done].
  - case_decide as Hp; [split; [done|]|].
    + intros [_ Hs]. destruct (Hs p ltac:(left) Hp).
    + rewrite IH, NoDup_cons. setoid_rewrite elem_of_cons. split; [intros [Hnd Hs]|intros [[Hn Hnd] Hs]]; split_and!; try done.
      * intros Hin. apply (Hs p Hin). by left.
      * intros q [->|Hq]; [done|]. intros Hin. apply (Hs q Hq). by right.
      * intros q Hq [->|Hin]; [done|]. apply (Hs q); [by right|done].
Qed.

(** The highest rank of a parent. *)
Definition max_rank (lookup : NodeLookup) (ps : list NodeHash) : Z := foldr (fun p m => Z.max (default 0 (get_rank lookup p)) m) 0 ps.

Lemma max_rank_cons lookup p ps : max_rank lookup (p :: ps) = Z.max (default 0 (get_rank lookup p)) (max_rank lookup ps).
Proof. done. Qed.

Lemma parent_ranks_spec lookup ps m missing :
  (forall p, p ∈ ps -> is_Some (get_rank lookup p)) -> 0 <= m -> parent_ranks lookup ps m missing = (Z.max m (max_rank lookup ps), missing).
Proof.
  revert m. induction ps as [|p ps IH]; intros m Hall Hm; cbn [parent_ranks]; [f_equal; cbn; lia|].
  destruct (Hall p ltac:(left)) as [r Er]. rewrite Er. rewrite max_rank_cons, Er. cbn [from_option id].
  destruct (Z.leb_spec m r); (rewrite IH; [f_equal; lia|intros q Hq; apply Hall; by right|lia]).
Qed.

Lemma parent_ranks_missing lookup ps m missing : (exists p, p ∈ ps /\ get_rank lookup p = None) \/ missing <> [] -> (parent_ranks lookup ps m missing).2 <> [].
Proof.
  revert m missing. induction ps as [|p ps IH]; intros m missing Hm; cbn; [destruct Hm as [(q & ?%not_elem_of_nil & _)|]; done|].
  destruct (get_rank lookup p) as [r|] eqn:Er; apply IH.
  - destruct Hm as [(q & [->|Hq]%elem_of_cons & Eq)|]; [congruence|left; by exists q|by right].
  - right. destruct missing; done.
Qed.

Lemma max_rank_ge lookup ps p r : p ∈ ps -> get_rank lookup p = Some r -> r <= max_rank lookup ps.
Proof.
  intros Hp Er. induction ps as [|q ps IH]; [by apply not_elem_of_nil in Hp|]. rewrite max_rank_cons. apply elem_of_cons in Hp as [->|Hp]; [rewrite Er; cbn [from_option id]; lia|].
  specialize (IH Hp). lia.
Qed.

Lemma max_rank_bounds lookup ps : (forall p r, get_rank lookup p = Some r -> in_u 64 r) -> in_u 64 (max_rank lookup ps).
Proof.
  intros Hl. induction ps as [|q ps IH]; [done|]. rewrite max_rank_cons. destruct (get_rank lookup q) as [r|] eqn:Er; cbn [from_option id]; [apply Hl in Er|]; unfold in_u in *; lia.
Qed.

Lemma isolation_ok lookup ps : check_isolation lookup ps = succeed tt <-> forall p, p ∈ ps -> get_node_type lookup p = Some Admin.
Proof.
  induction ps as [|p ps IH]; cbn; [split; [by intros _ p ?%not_elem_of_nil|done]|]. setoid_rewrite elem_of_cons.
  destruct (get_node_type lookup p) as [[]|] eqn:Et; [rewrite IH; naive_solver|split; [done|]..]; intros Hall; specialize (Hall p ltac:(by left)); congruence.
Qed.

Lemma nearest_ok lookup ps m d : nearest_admin lookup ps m = succeed d <->
  (forall p, p ∈ ps -> is_Some (get_admin_distance lookup p)) /\ d = foldr (fun p m => Z.min (default 0 (get_admin_distance lookup p)) m) m ps.
Proof.
  revert m. induction ps as [|p ps IH]; intros m; cbn.
  - split; [intros [= <-]; split; [by intros p ?%not_elem_of_nil|done]|by intros [_ ->]].
  - setoid_rewrite elem_of_cons. destruct (get_admin_distance lookup p) as [x|] eqn:Ex.
    + rewrite IH. cbn. assert (foldr (fun p m => Z.min (default 0 (get_admin_distance lookup p)) m) (Z.min m x) ps =
        Z.min x (foldr (fun p m => Z.min (default 0 (get_admin_distance lookup p)) m) m ps)) as ->.
      { clear. induction ps as [|p ps IH]; cbn; lia. }
      split; [intros [Hs ->]; split; [|done]; intros q [->|Hq]; eauto|naive_solver].
    + split; [done|]. intros [Hs _]. destruct (Hs p ltac:(by left)) as [? ?]. congruence.
Qed.

Lemma nearest_below lookup ps m k : k < m -> foldr (fun p m => Z.min (default 0 (get_admin_distance lookup p)) m) m ps <= k <->
  exists p, p ∈ ps /\ default 0 (get_admin_distance lookup p) <= k.
Proof.
  intros Hk. induction ps as [|p ps IH]; cbn; [split; [lia|by intros (p & ?%not_elem_of_nil & _)]|]. setoid_rewrite elem_of_cons. split.
  - intros Hm. destruct (decide (default 0 (get_admin_distance lookup p) <= k)); [eauto|]. destruct IH as [IH _]. destruct IH as (q & ? & ?); [lia|eauto].
  - intros (q & [->|Hq] & Hle); [lia|]. destruct IH as [_ IH]. specialize (IH ltac:(eauto)). lia.
Qed.

(** ** The checks *)

Section Rules.
Context `{RmpLaws} `{Blake3Hash} `{Ed25519}.

Definition device_signed (n : MerkleNode) : Prop := exists sig, authentication n = Signature sig.
Definition may_device_sign (c : Content) : Prop := is_skd c = true \/ is_control c = true.

Record valid (n : MerkleNode) (lookup : NodeLookup) : Prop := {
  valid_few : len (parents n) <= MAX_PARENTS;
  valid_unique : NoDup (parents n);
  valid_metadata : len (metadata n) <= MAX_METADATA_SIZE;
  valid_size b : to_vec content_type (content n) = ret b -> len (metadata n) + len b <= MAX_MESSAGE_SIZE;
  valid_kind : if bool_decide (node_type n = Admin)
               then device_signed n \/ (is_genesis (content n) = true /\ parents n = [])
               else device_signed n -> may_device_sign (content n);
  valid_authentic : node_type n = Admin \/ device_signed n -> validate_pow n = Some true /\ verify_admin_signature n = Some true;
  valid_known p : p ∈ parents n -> is_Some (get_rank lookup p);
  valid_rank : topological_rank n = if bool_decide (parents n = []) then 0 else max_rank lookup (parents n) + 1;
  valid_isolation p : node_type n = Admin -> is_soft_anchor (content n) = false -> p ∈ parents n -> get_node_type lookup p = Some Admin;
  valid_anchor basis cert : content n = Control (SoftAnchor basis cert) -> parents n = [basis] /\
    forall k, get_soft_anchor_chain_length lookup basis = Some k -> k < MAX_SOFT_ANCHOR_CHAIN;
  valid_ancestry : node_type n = ContentNode -> parents n <> [] ->
    (forall p, p ∈ parents n -> is_Some (get_admin_distance lookup p)) /\
    exists p d, p ∈ parents n /\ get_admin_distance lookup p = Some d /\ d < MAX_ANCESTRY_HOPS
}.

Record lookup_ok (lookup : NodeLookup) : Prop := {
  rank_u64 p r : get_rank lookup p = Some r -> in_u 64 r;
  distance_u64 p d : get_admin_distance lookup p = Some d -> in_u 64 d;
  chain_u64 p k : get_soft_anchor_chain_length lookup p = Some k -> in_u 64 k
}.

Lemma then_ok {E A} (m : Outcome E unit) (k : Outcome E A) a : (m ;? k) = succeed a <-> m = succeed tt /\ k = succeed a.
Proof. destruct m as [[[]|e]|]; cbn; naive_solver. Qed.

Lemma require_le {E} a b (e : E) : require (a <? b) e = succeed tt <-> b <= a.
Proof. unfold require. destruct (Z.ltb_spec a b); split; try done; lia. Qed.

Lemma size_ok n : content_ok (content n) -> check_size n = succeed tt <->
  forall b, to_vec content_type (content n) = ret b -> len (metadata n) + len b <= MAX_MESSAGE_SIZE.
Proof.
  intros Hc. destruct (content_codec empty_ctx _ Hc) as (b & E & _). unfold check_size. change (to_vec content_type (content n)) with (serialize content_type empty_ctx (content n)).
  rewrite E. cbn [ret]. pose proof (len_nonneg (metadata n)). pose proof (len_nonneg b). unfold chk_usize, chk, MAX_MESSAGE_SIZE.
  destruct (Z.leb_spec 0 (len (metadata n) + len b)); [|lia]. destruct (Z.leb_spec (len (metadata n) + len b) usize_max) as [Hle|Hle]; cbn [andb].
  - rewrite require_le. split; [intros Hs b' [= <-]; lia|intros Hs; by apply Hs].
  - split; [done|]. intros Hs. specialize (Hs b eq_refl). unfold usize_max in Hle. lia.
Qed.

Lemma kind_ok n : check_authentication n (is_skd (content n) || (is_control (content n) && bool_decide (node_type n = ContentNode))) = succeed tt <->
  if bool_decide (node_type n = Admin) then device_signed n \/ (is_genesis (content n) = true /\ parents n = [])
  else device_signed n -> may_device_sign (content n).
Proof.
  unfold check_authentication, device_signed, may_device_sign. destruct (authentication n) as [s|s], (node_type n) eqn:Et; cbn.
  - destruct (is_genesis (content n)); unfold require.
    + destruct (decide (parents n = [])) as [E|E]; [rewrite (bool_decide_true _ E)|rewrite (bool_decide_false _ E)]; cbn; split; try naive_solver.
    + split; [done|]. intros [[? ?]|[? _]]; done.
  - split; [|done]. intros _ [? ?]. done.
  - split; [|done]. intros _. left. eauto.
  - destruct (is_skd (content n)), (is_control (content n)); cbn; naive_solver.
Qed.

Lemma authentic_ok n : check_authenticity n = succeed tt <-> validate_pow n = Some true /\ verify_admin_signature n = Some true.
Proof. unfold check_authenticity. destruct (validate_pow n) as [[]|], (verify_admin_signature n) as [[]|]; naive_solver. Qed.

Lemma rank_ok n lookup : lookup_ok lookup -> in_u 64 (topological_rank n) -> check_rank n lookup = succeed tt <->
  (forall p, p ∈ parents n -> is_Some (get_rank lookup p)) /\ topological_rank n = if bool_decide (parents n = []) then 0 else max_rank lookup (parents n) + 1.
Proof.
  intros Hl Hr. unfold check_rank. destruct (decide (Exists (fun p => get_rank lookup p = None) (parents n))) as [(p & Hp & Ep)%Exists_exists|Hall].
  - pose proof (parent_ranks_missing lookup (parents n) 0 [] ltac:(left; eauto)) as Hm. destruct (parent_ranks lookup (parents n) 0 []) as [m [|q l]]; [done|].
    split; [done|]. intros [Hs _]. destruct (Hs p Hp). congruence.
  - assert (forall p, p ∈ parents n -> is_Some (get_rank lookup p)) as Hs.
    { intros p Hp. destruct (get_rank lookup p) eqn:E; [eauto|]. destruct Hall. apply Exists_exists. eauto. }
    rewrite parent_ranks_spec by (done || lia). pose proof (max_rank_bounds lookup (parents n) (rank_u64 _ Hl)). case_bool_decide as Hn.
    + unfold require. destruct (Z.eqb_spec (topological_rank n) 0); cbn; naive_solver.
    + rewrite Z.max_r by (unfold in_u in *; lia). unfold chk_u64, chk. unfold in_u, u64_max in *.
      destruct (Z.leb_spec 0 (max_rank lookup (parents n) + 1)); [|lia]. destruct (Z.leb_spec (max_rank lookup (parents n) + 1) (2 ^ 64 - 1)); cbn [andb].
      * unfold require. destruct (Z.eqb_spec (topological_rank n) (max_rank lookup (parents n) + 1)); cbn; naive_solver.
      * split; [done|]. intros [_ E]. lia.
Qed.

Lemma anchor_ok n lookup : lookup_ok lookup -> check_soft_anchor n lookup = succeed tt <->
  forall basis cert, content n = Control (SoftAnchor basis cert) -> parents n = [basis] /\
    forall k, get_soft_anchor_chain_length lookup basis = Some k -> k < MAX_SOFT_ANCHOR_CHAIN.
Proof.
  intros Hl. unfold check_soft_anchor. destruct (content n) as [| | | |[]| | | | | | | |] eqn:Ec; try (split; [intros _ b c [=]|done]).
  assert ((forall b c, Control (SoftAnchor basis cert) = Control (SoftAnchor b c) -> parents n = [b] /\
      forall k, get_soft_anchor_chain_length lookup b = Some k -> k < MAX_SOFT_ANCHOR_CHAIN) <->
    parents n = [basis] /\ forall k, get_soft_anchor_chain_length lookup basis = Some k -> k < MAX_SOFT_ANCHOR_CHAIN) as ->.
  { split; [intros Hp; by apply (Hp basis cert)|by intros Hp b c [= <- <-]]. }
  rewrite then_ok. unfold require at 1. destruct (decide (parents n = [basis])) as [E|E]; [rewrite (bool_decide_true _ E)|rewrite (bool_decide_false _ E)]; cbn [negb];
    [|split; [by intros [? _]|by intros [? _]]].
  destruct (get_soft_anchor_chain_length lookup basis) as [k|] eqn:Ek; [|by split].
  pose proof (chain_u64 _ Hl _ _ Ek) as Hk. unfold chk_u64, chk, MAX_SOFT_ANCHOR_CHAIN in *. unfold in_u, u64_max in *. destruct (Z.leb_spec 0 (k + 1)); [|lia].
  destruct (Z.leb_spec (k + 1) (2 ^ 64 - 1)); cbn [andb].
  - rewrite require_le. split; [intros [_ Hle]; split; [done|]; intros j [= <-]; lia|intros [_ Hj]; specialize (Hj k eq_refl); split; [done|lia]].
  - split; [by intros [_ ?]|]. intros [_ Hj]. specialize (Hj k eq_refl). lia.
Qed.

Lemma ancestry_ok n lookup : lookup_ok lookup -> check_ancestry n lookup = succeed tt <->
  (node_type n = ContentNode -> parents n <> [] ->
    (forall p, p ∈ parents n -> is_Some (get_admin_distance lookup p)) /\
    exists p d, p ∈ parents n /\ get_admin_distance lookup p = Some d /\ d < MAX_ANCESTRY_HOPS).
Proof.
  intros Hl. unfold check_ancestry. destruct (decide (node_type n = ContentNode)) as [Et|Et]; [rewrite (bool_decide_true _ Et)|rewrite (bool_decide_false _ Et); naive_solver].
  destruct (decide (parents n = [])) as [Ep|Ep]; [rewrite (bool_decide_true _ Ep); naive_solver|rewrite (bool_decide_false _ Ep)]. cbn [andb negb].
  destruct (nearest_admin lookup (parents n) u64_max) as [[d|e]|] eqn:En; cbn [obind].
  - apply nearest_ok in En as [Hall ->]. pose proof (nearest_below lookup (parents n) u64_max (MAX_ANCESTRY_HOPS - 1) ltac:(by vm_compute)) as Hb.
    set (d := foldr _ _ _) in *. assert (d < MAX_ANCESTRY_HOPS <-> exists p d, p ∈ parents n /\ get_admin_distance lookup p = Some d /\ d < MAX_ANCESTRY_HOPS) as Hd.
    { split.
      - intros Hlt. destruct Hb as [Hb _]. destruct Hb as (p & Hp & Hle); [lia|]. destruct (Hall p Hp) as [x Ex]. rewrite Ex in Hle. cbn in Hle. exists p, x. split_and!; try done. lia.
      - intros (p & x & Hp & Ex & Hlt). destruct Hb as [_ Hb]. enough (d <= MAX_ANCESTRY_HOPS - 1) by lia. apply Hb. exists p. rewrite Ex. cbn. split; [done|lia]. }
    destruct (Z.leb_spec MAX_ANCESTRY_HOPS d) as [Hle|Hlt].
    + split; [by destruct (chk_u64 (d + 1))|]. intros Hv. destruct (Hv Et Ep) as [_ Hv']. apply Hd in Hv'. lia.
    + split; [|done]. intros _ _ _. split; [done|by apply Hd].
  - split; [done|]. intros Hv. destruct (Hv Et Ep) as [Hall _]. pose proof (proj2 (nearest_ok lookup (parents n) u64_max _) (conj Hall eq_refl)) as Hn. by rewrite En in Hn.
  - split; [done|]. intros Hv. destruct (Hv Et Ep) as [Hall _]. pose proof (proj2 (nearest_ok lookup (parents n) u64_max _) (conj Hall eq_refl)) as Hn. by rewrite En in Hn.
Qed.

(** Validation accepts exactly the nodes that pass the checks. *)
Lemma validate_iff n lookup : node_ok n -> lookup_ok lookup -> validate n lookup = succeed tt <-> valid n lookup.
Proof.
  intros Hn Hl. assert (in_u 64 (topological_rank n)) as Hr by apply Hn. assert (content_ok (content n)) as Hc by apply Hn. unfold validate.
  rewrite !then_ok, !require_le, unique_parents_ok, size_ok, kind_ok, rank_ok, anchor_ok, ancestry_ok by done. split.
  - intros (R2 & [R3 _] & R4 & R5 & R6 & R7 & [R8 R9] & R10 & R11 & R12). constructor; try done.
    + intros Hd. assert (check_authenticity n = succeed tt) as Ha%authentic_ok; [|done]. rewrite <- R7. destruct (decide (node_type n = Admin)) as [Ea|Ea]; [by rewrite bool_decide_true|].
      rewrite (bool_decide_false (node_type n = Admin)) in * by done. destruct Hd as [|Hd]; [done|]. specialize (R6 Hd). destruct Hd as [sig Hsig]. rewrite Hsig.
      assert (node_type n = ContentNode) as Et by (by destruct (node_type n)). rewrite (bool_decide_true _ Et).
      destruct R6 as [E|E]; rewrite E; cbn; [done|by rewrite orb_true_r].
    + intros p Ea Es Hp. rewrite (bool_decide_true _ Ea), Es in R10. cbn in R10. rewrite isolation_ok in R10. by apply R10.
  - intros []. split_and!; try done.
    + by intros p _ ?%not_elem_of_nil.
    + destruct (bool_decide (node_type n = Admin)) eqn:Ea; cbn [orb].
      * apply authentic_ok, valid_authentic0. left. by apply bool_decide_eq_true in Ea.
      * destruct (authentication n) as [s|s] eqn:Es; [by rewrite andb_false_r|]. rewrite andb_true_r. destruct (_ || _); [|done]. apply authentic_ok, valid_authentic0. right. by exists s.
    + destruct (bool_decide (node_type n = Admin)) eqn:Ea; [|done]. destruct (is_soft_anchor (content n)) eqn:Es; [done|]. cbn. apply isolation_ok. intros p. apply valid_isolation0; [|done].
      by apply bool_decide_eq_true in Ea.
Qed.

(** Validation accepts nothing else, whatever the lookup answers. *)
Lemma rank_sound n lookup : check_rank n lookup = succeed tt ->
  (forall p, p ∈ parents n -> is_Some (get_rank lookup p)) /\ topological_rank n = if bool_decide (parents n = []) then 0 else max_rank lookup (parents n) + 1.
Proof.
  unfold check_rank. intros Hv. assert (forall p, p ∈ parents n -> is_Some (get_rank lookup p)) as Hs.
  { intros p Hp. destruct (get_rank lookup p) eqn:E; [eauto|]. pose proof (parent_ranks_missing lookup (parents n) 0 [] ltac:(left; eauto)) as Hm.
    by destruct (parent_ranks lookup (parents n) 0 []) as [m [|q l]]. }
  split; [done|]. rewrite parent_ranks_spec in Hv by (done || lia). case_bool_decide as Hn.
  - unfold require in Hv. destruct (Z.eqb_spec (topological_rank n) 0); [done|]. by destruct (0 =? 0).
  - rewrite Z.max_r in Hv by (unfold max_rank; clear; induction (parents n); cbn; lia). unfold chk_u64, chk in Hv. destruct (_ && _); [|done].
    unfold require in Hv. by destruct (Z.eqb_spec (topological_rank n) (max_rank lookup (parents n) + 1)).
Qed.

Lemma anchor_sound n lookup basis cert : check_soft_anchor n lookup = succeed tt -> content n = Control (SoftAnchor basis cert) ->
  parents n = [basis] /\ forall k, get_soft_anchor_chain_length lookup basis = Some k -> k < MAX_SOFT_ANCHOR_CHAIN.
Proof.
  unfold check_soft_anchor. intros Hv Ec. rewrite Ec in Hv. apply then_ok in Hv as [Hp Hv]. unfold require in Hp.
  split; [by destruct (decide (parents n = [basis])); [|rewrite bool_decide_false in Hp]|]. intros k Ek. rewrite Ek in Hv. unfold chk_u64, chk in Hv. destruct (_ && _); [|done].
  apply require_le in Hv. lia.
Qed.

Lemma ancestry_sound n lookup : check_ancestry n lookup = succeed tt -> node_type n = ContentNode -> parents n <> [] ->
  (forall p, p ∈ parents n -> is_Some (get_admin_distance lookup p)) /\ exists p d, p ∈ parents n /\ get_admin_distance lookup p = Some d /\ d < MAX_ANCESTRY_HOPS.
Proof.
  intros Hv Et Ep. unfold check_ancestry in Hv. rewrite (bool_decide_true _ Et), (bool_decide_false _ Ep) in Hv. cbn [andb negb] in Hv.
  destruct (nearest_admin lookup (parents n) u64_max) as [[d|e]|] eqn:En; cbn [obind] in Hv; [|done..]. destruct (Z.leb_spec MAX_ANCESTRY_HOPS d) as [Hle|Hlt]; [by destruct (chk_u64 (d + 1))|].
  apply nearest_ok in En as [Hall ->]. split; [done|]. destruct (proj1 (nearest_below lookup (parents n) u64_max (MAX_ANCESTRY_HOPS - 1) ltac:(by vm_compute))) as (p & Hp & Hle); [lia|].
  destruct (Hall p Hp) as [x Ex]. rewrite Ex in Hle. cbn in Hle. exists p, x. split_and!; [done|done|lia].
Qed.

(** What the rules say of the parents of an accepted node. *)
Lemma validate_parents n lookup : validate n lookup = succeed tt ->
  (forall p, p ∈ parents n -> is_Some (get_rank lookup p)) /\
  topological_rank n = (if bool_decide (parents n = []) then 0 else max_rank lookup (parents n) + 1) /\
  (node_type n = Admin -> is_soft_anchor (content n) = false -> forall p, p ∈ parents n -> get_node_type lookup p = Some Admin) /\
  (forall basis cert, content n = Control (SoftAnchor basis cert) -> parents n = [basis] /\
     forall k, get_soft_anchor_chain_length lookup basis = Some k -> k < MAX_SOFT_ANCHOR_CHAIN) /\
  (node_type n = ContentNode -> parents n <> [] -> (forall p, p ∈ parents n -> is_Some (get_admin_distance lookup p)) /\
     exists p d, p ∈ parents n /\ get_admin_distance lookup p = Some d /\ d < MAX_ANCESTRY_HOPS).
Proof.
  unfold validate. rewrite !then_ok. intros (_ & _ & _ & _ & _ & _ & [Hk Hr]%rank_sound & Hi & Ha & Hn).
  split_and!; [done|done| |intros basis cert; by apply anchor_sound|by apply ancestry_sound].
  intros Et Es. rewrite (bool_decide_true _ Et), Es in Hi. by apply isolation_ok.
Qed.

(** ** A graph of validated nodes *)

(** [h] is [d] steps away from an admin node along parents, where content without
    parents counts as 10 steps away, as in the stores. *)
Inductive near (store : gmap NodeHash MerkleNode) : NodeHash -> Z -> Prop :=
| near_admin h n : store !! h = Some n -> node_type n = Admin -> near store h 0
| near_root h n : store !! h = Some n -> node_type n = ContentNode -> parents n = [] -> near store h 10
| near_parent h n p d : store !! h = Some n -> p ∈ parents n -> near store p d -> near store h (d + 1).

(** [h] is the last of [k] soft anchors in a row. *)
Fixpoint anchors (store : gmap NodeHash MerkleNode) (k : nat) (h : NodeHash) : Prop :=
  match k with
  | O => True
  | S k => exists n basis cert, store !! h = Some n /\ content n = Control (SoftAnchor basis cert) /\ anchors store k basis
  end.

(** What a [NodeLookup] promises of the store it looks into. *)
Record faithful (store : gmap NodeHash MerkleNode) (lookup : NodeLookup) : Prop := {
  lookup_rank h : get_rank lookup h = topological_rank <$> store !! h;
  lookup_type h : get_node_type lookup h = node_type <$> store !! h;
  lookup_near h d : get_admin_distance lookup h = Some d -> near store h d;
  lookup_chain h : anchors store 3 h -> exists k, get_soft_anchor_chain_length lookup h = Some k /\ MAX_SOFT_ANCHOR_CHAIN <= k
}.

(** [p] is a parent of [h]. *)
Definition parent_of (store : gmap NodeHash MerkleNode) (p h : NodeHash) : Prop := exists n, store !! h = Some n /\ p ∈ parents n.

(** The place of a node in a sound store. *)
Record placed (store : gmap NodeHash MerkleNode) (n : MerkleNode) : Prop := {
  placed_parent p : p ∈ parents n -> exists m, store !! p = Some m /\ topological_rank m < topological_rank n;
  placed_tight : parents n <> [] -> exists p m, p ∈ parents n /\ store !! p = Some m /\ topological_rank n = topological_rank m + 1;
  placed_root : parents n = [] -> topological_rank n = 0;
  placed_isolated p m : node_type n = Admin -> is_soft_anchor (content n) = false -> p ∈ parents n -> store !! p = Some m -> node_type m = Admin;
  placed_anchor basis cert : content n = Control (SoftAnchor basis cert) -> parents n = [basis] /\ ~ anchors store 3 basis;
  placed_near : node_type n = ContentNode -> parents n <> [] -> exists p d, p ∈ parents n /\ near store p d /\ d < MAX_ANCESTRY_HOPS
}.

Definition sound (store : gmap NodeHash MerkleNode) : Prop := map_Forall (fun _ n => 0 <= topological_rank n /\ placed store n) store.

Lemma near_mono s t h d : s ⊆ t -> near s h d -> near t h d.
Proof.
  intros Hst. induction 1 as [h n Hs Ha|h n Hs Hc Hr|h n p d Hs Hp _ IH]; [eapply near_admin|eapply near_root|eapply near_parent]; eauto using lookup_weaken.
Qed.

Lemma anchors_back s t k : sound s -> s ⊆ t -> forall h, is_Some (s !! h) -> anchors t k h -> anchors s k h.
Proof.
  intros Hs Hst. induction k as [|k IH]; [done|]. intros h [n Hn] (n' & basis & cert & Hn' & Ec & Ha). rewrite (lookup_weaken _ _ _ _ Hn Hst) in Hn'. injection Hn' as <-.
  exists n, basis, cert. split_and!; [done|done|]. apply IH; [|done]. destruct (Hs h n Hn) as [_ Hpl]. destruct (placed_anchor _ _ Hpl _ _ Ec) as [Ep _].
  destruct (placed_parent _ _ Hpl basis) as (m & Hm & _); [rewrite Ep; by left|by exists m].
Qed.

Lemma placed_mono s t n : sound s -> s ⊆ t -> placed s n -> placed t n.
Proof.
  intros Hs Hst [Hp Htight Hr Hi Ha Hn]. constructor; try done.
  - intros p Hin. destruct (Hp p Hin) as (m & Hm & Hlt). exists m. eauto using lookup_weaken.
  - intros Hne. destruct (Htight Hne) as (p & m & Hin & Hm & E). exists p, m. eauto using lookup_weaken.
  - intros p m Et Es Hin Hm. destruct (Hp p Hin) as (m' & Hm' & _). apply (Hi p m Et Es Hin). rewrite (lookup_weaken _ _ _ _ Hm' Hst) in Hm. by injection Hm as ->.
  - intros basis cert Ec. destruct (Ha basis cert Ec) as [Ep Hno]. split; [done|]. intros Hk. apply Hno. eapply anchors_back; [done|done| |done].
    destruct (Hp basis) as (m & Hm & _); [rewrite Ep; by left|by exists m].
  - intros Hc Hne. destruct (Hn Hc Hne) as (p & d & Hin & Hnear & Hd). exists p, d. eauto using near_mono.
Qed.

Lemma max_rank_attained lookup ps : ps <> [] -> (forall p, p ∈ ps -> is_Some (get_rank lookup p)) -> (forall p r, get_rank lookup p = Some r -> 0 <= r) ->
  exists p, p ∈ ps /\ get_rank lookup p = Some (max_rank lookup ps).
Proof.
  intros Hne Hs Hpos. induction ps as [|p ps IH]; [done|]. destruct (Hs p ltac:(left)) as [r Er]. pose proof (Hpos p r Er) as Hr0. rewrite max_rank_cons, Er. cbn [from_option id].
  destruct (decide (ps = [])) as [->|Hps].
  - exists p. split; [left|]. rewrite Er. f_equal. unfold max_rank. cbn. lia.
  - destruct IH as (q & Hq & Eq); [done|intros q Hq; apply Hs; by right|]. destruct (Z.max_spec r (max_rank lookup ps)) as [[_ ->]|[_ ->]]; [exists q|exists p]; split; try done; [by right|left].
Qed.

Lemma validated_placed store lookup n : sound store -> faithful store lookup -> validate n lookup = succeed tt -> placed store n.
Proof.
  intros Hs [Hrank Htype Hnear Hchain] (Hknown & Hr & Hi & Ha & Hn)%validate_parents.
  assert (forall p r, get_rank lookup p = Some r -> 0 <= r) as Hpos.
  { intros p r Er. rewrite Hrank in Er. apply fmap_Some in Er as (m & Hm & ->). by destruct (Hs p m Hm). }
  assert (forall p, p ∈ parents n -> bool_decide (parents n = []) = false) as Hne by (intros p Hp; apply bool_decide_false; intros E; rewrite E in Hp; by apply not_elem_of_nil in Hp).
  constructor.
  - intros p Hp. destruct (Hknown p Hp) as [r Er]. pose proof (max_rank_ge _ _ _ _ Hp Er). rewrite Hrank in Er. apply fmap_Some in Er as (m & Hm & ->).
    exists m. split; [done|]. rewrite Hr, (Hne p Hp). lia.
  - intros Hps. destruct (max_rank_attained lookup (parents n) Hps Hknown Hpos) as (p & Hp & Er). rewrite Hrank in Er. apply fmap_Some in Er as (m & Hm & Em).
    exists p, m. split_and!; [done|done|]. rewrite Hr, (Hne p Hp). lia.
  - intros E. by rewrite Hr, (bool_decide_true _ E).
  - intros p m Et Es Hp Hm. specialize (Hi Et Es p Hp). rewrite Htype, Hm in Hi. by injection Hi.
  - intros basis cert Ec. destruct (Ha basis cert Ec) as [Ep Hk]. split; [done|]. intros (k & Ek & Hle)%Hchain. specialize (Hk k Ek). lia.
  - intros Hc Hps. destruct (Hn Hc Hps) as (_ & p & d & Hp & Hd & Hlt). exists p, d. split_and!; [done|by apply Hnear|done].
Qed.

Lemma sound_insert store h n lookup : sound store -> store !! h = None -> faithful store lookup -> 0 <= topological_rank n -> validate n lookup = succeed tt ->
  sound (<[h := n]> store).
Proof.
  intros Hs Hnew Hf Hr Hv. assert (store ⊆ <[h := n]> store) as Hsub by (by apply insert_subseteq). apply map_Forall_insert_2.
  - split; [done|]. eapply placed_mono; [done|done|by eapply validated_placed].
  - intros k m Hm. destruct (Hs k m Hm). split; [done|by eapply placed_mono].
Qed.

Lemma rank_increases store p h n m : sound store -> tc (parent_of store) p h -> store !! p = Some n -> store !! h = Some m -> topological_rank n < topological_rank m.
Proof.
  intros Hs Hp. revert n m. induction Hp as [p h (m' & Hm' & Hin)|p q h (m' & Hm' & Hin) _ IH]; intros n m Hn Hm.
  - destruct (Hs h m' Hm') as [_ Hpl]. destruct (placed_parent _ _ Hpl p Hin) as (n' & Hn' & Hlt). by simplify_eq.
  - destruct (Hs q m' Hm') as [_ Hpl]. destruct (placed_parent _ _ Hpl p Hin) as (n' & Hn' & Hlt). simplify_eq. specialize (IH m' m Hm' Hm). lia.
Qed.

Lemma acyclic store h : sound store -> ~ tc (parent_of store) h h.
Proof.
  intros Hs Hp. assert (exists n, store !! h = Some n) as [n Hn].
  { clear -Hp. induction Hp as [p h (n & Hn & _)|p q h _ _ IH]; [eauto|done]. }
  pose proof (rank_increases store h h n n Hs Hp Hn Hn). lia.
Qed.

(** ** Effective timestamps *)

(** The step of the fold of [effective_timestamp]. *)
Definition later_of (get_node : NodeHash -> option MerkleNode) (eff : MerkleNode -> option Z) (t_eff : option Z) (p : NodeHash) : option Z :=
  t ← t_eff; match get_node p with Some parent => u ← eff parent; Some (Z.max t u) | None => Some t end.

Lemma later_fold get_node eff ps t :
  (forall p, p ∈ ps -> exists m u, get_node p = Some m /\ eff m = Some u) ->
  exists t', foldl (later_of get_node eff) (Some t) ps = Some t' /\ t <= t' /\
    (forall p m u, p ∈ ps -> get_node p = Some m -> eff m = Some u -> u <= t') /\
    (t' = t \/ exists p m, p ∈ ps /\ get_node p = Some m /\ eff m = Some t').
Proof.
  revert t. induction ps as [|p ps IH]; intros t Hps.
  - exists t. split_and!; [done|lia|by intros p m u ?%not_elem_of_nil|by left].
  - destruct (Hps p ltac:(left)) as (m & u & Em & Eu). destruct (IH (Z.max t u)) as (t' & E & Hle & Hall & Hex); [intros q Hq; apply Hps; by right|].
    exists t'. assert (later_of get_node eff (Some t) p = Some (Z.max t u)) as Hstep by (unfold later_of; cbn; by rewrite Em, Eu).
    cbn [foldl]. rewrite Hstep. split_and!; [done|lia| |].
    + intros q m' u' [->|Hq]%elem_of_cons Em' Eu'; [simplify_eq; lia|by eapply Hall].
    + destruct Hex as [->|(q & m' & Hq & Em' & Eu')]; [|right; exists q, m'; split_and!; [by right|done|done]].
      destruct (Z.max_spec t u) as [[_ E']|[_ E']]; rewrite E'; [right; exists p, m; split_and!; [left|done|done]|by left].
Qed.

(** The effective timestamp is the latest timestamp among a node and its
    ancestors; the recursion is no deeper than the rank. *)
Lemma effective_spec store k h n : sound store -> store !! h = Some n -> topological_rank n < Z.of_nat k ->
  exists t, effective_timestamp k (fun p => store !! p) n = Some t /\
    (forall p m, rtc (parent_of store) p h -> store !! p = Some m -> network_timestamp m <= t) /\
    exists p m, rtc (parent_of store) p h /\ store !! p = Some m /\ network_timestamp m = t.
Proof.
  intros Hs. revert h n. induction k as [|k IH]; intros h n Hn Hk.
  { destruct (Hs h n Hn) as [? _]. lia. }
  destruct (Hs h n Hn) as [_ Hpl]. cbn [effective_timestamp].
  change (foldl _ _ _) with (foldl (later_of (fun p => store !! p) (effective_timestamp k (fun p => store !! p))) (Some (network_timestamp n)) (parents n)).
  destruct (later_fold (fun p => store !! p) (effective_timestamp k (fun p => store !! p)) (parents n) (network_timestamp n)) as (t & E & Hle & Hall & Hex).
  { intros p Hp. destruct (placed_parent _ _ Hpl p Hp) as (m & Hm & Hlt). destruct (IH p m Hm ltac:(lia)) as (u & Eu & _). by exists m, u. }
  exists t. split; [done|]. split.
  - intros p m Hp Hm. apply rtc_inv_r in Hp as [->|(q & Hpq & m' & Hm' & Hq)]; [by simplify_eq|]. simplify_eq.
    destruct (placed_parent _ _ Hpl q Hq) as (mq & Hmq & Hlt). destruct (IH q mq Hmq ltac:(lia)) as (u & Eu & Hu & _).
    specialize (Hall q mq u Hq Hmq Eu). specialize (Hu p m Hpq Hm). lia.
  - destruct Hex as [->|(q & mq & Hq & Hmq & Eu)]; [by exists h, n|]. destruct (placed_parent _ _ Hpl q Hq) as (mq' & Hmq' & Hlt). simplify_eq.
    destruct (IH q mq Hmq ltac:(lia)) as (u & Eu' & _ & p & m & Hp & Hm & Ht). simplify_eq. exists p, m. split_and!; [|done|done].
    eapply rtc_r; [exact Hp|]. by exists n.
Qed.

(** What holds in a sound store of each node. *)
Lemma sound_graph store : sound store -> (forall h, ~ tc (parent_of store) h h) /\ (forall h, ~ anchors store 4 h) /\
  forall h n, store !! h = Some n ->
    (forall p, p ∈ parents n -> exists m, store !! p = Some m /\ topological_rank m < topological_rank n /\
      (node_type n = Admin -> is_soft_anchor (content n) = false -> node_type m = Admin)) /\
    (forall basis cert, content n = Control (SoftAnchor basis cert) -> parents n = [basis]) /\
    (node_type n = ContentNode -> exists d, near store h d /\ d <= MAX_ANCESTRY_HOPS).
Proof.
  intros Hs. split; [intros h; by apply acyclic|]. split.
  - intros h (n & basis & cert & Hn & Ec & Ha). destruct (Hs h n Hn) as [_ Hpl]. by destruct (placed_anchor _ _ Hpl _ _ Ec).
  - intros h n Hn. destruct (Hs h n Hn) as [_ Hpl]. split_and!.
    + intros p Hp. destruct (placed_parent _ _ Hpl p Hp) as (m & Hm & Hlt). exists m. split_and!; [done|done|]. intros Et Es. by apply (placed_isolated _ _ Hpl p).
    + intros basis cert Ec. by destruct (placed_anchor _ _ Hpl _ _ Ec).
    + intros Hc. destruct (decide (parents n = [])) as [Ep|Ep]; [exists 10; split; [by eapply near_root|done]|].
      destruct (placed_near _ _ Hpl Hc Ep) as (p & d & Hp & Hd & Hlt). exists (d + 1). split; [by eapply near_parent|lia].
Qed.

End Rules.

(** ** Instances of the properties *)

Import Models Format.

Definition store_lookup (store : gmap NodeHash MerkleNode) : NodeLookup := {|
  get_node_type h := node_type <$> store !! h;
  get_rank h := topological_rank <$> store !! h;
  get_admin_distance h := match store !! h with Some n => if decide (node_type n = Admin) then Some 0 else None | None => None end;
  contains_node h := bool_decide (is_Some (store !! h));
  has_children h := false;
  get_soft_anchor_chain_length h := None
|}.

Definition genesis_store : gmap NodeHash MerkleNode := {[key2 := genesis_node]}.

End DagValid.
