(* ===== verification/Identity.v ===== *)
(** Delegated trust ([merkle-tox-core/src/identity.rs]): certificates, and the
    [IdentityManager] that decides what the devices of a conversation may do.

    Hash maps are [gmap]; where the source traverses one, the order is that of
    [HashOrder].  The cache behind the lock of [path_cache] is threaded through the
    operations that read or fill it.  Recursion over issuers is bounded by the
    levels that [MAX_AUTH_DEPTH] leaves: [O] levels are a depth beyond it. *)

From S2P Require Import Prelude Protocol MsgPack ToxTypes Derive Merkle Dag.
From stdpp Require Import gmap sorting.
#[local] Open Scope Z_scope.
#[local] Open Scope list_scope.

Module Identity.
Import Dag.

Definition MAX_AUTH_DEPTH : nat := 16.
Definition MAX_DEVICES_PER_IDENTITY : Z := 32.
Definition MAX_GROUP_DEVICES : Z := 4096.
Definition DELEGATION_VERSION : Z := 1.
Definition PATH_CACHE_SIZE : Z := 1000.

(** ** Certificates *)

Record DelegationSignData := mkSignData {
  sign_version : Z;
  sign_conversation : ConversationId;
  sign_device : PhysicalDevicePk;
  sign_permissions : Permissions.t;
  sign_expires : Z
}.

Section Certificates.
Context `{Rmp} `{Ed25519}.

Definition delegation_sign_data : ToxType DelegationSignData :=
  derive_struct (FCons u32 (FCons key32 (FCons key32 (FCons bits_type (FCons i64 FNil)))))
    (fun s => (sign_version s, (sign_conversation s, (sign_device s, (sign_permissions s, (sign_expires s, tt))))))
    (fun '(v, (c, (d, (p, (e, _))))) => mkSignData v c d p e).

Definition sign_delegation (signing_key : bytes) (device_pk : PhysicalDevicePk) (permissions : Permissions.t) (expires_at : Z)
    (conversation_id : ConversationId) : option DelegationCertificate :=
  signed_data ← expect (to_vec delegation_sign_data (mkSignData DELEGATION_VERSION conversation_id device_pk permissions expires_at));
  Some (mkCert DELEGATION_VERSION conversation_id device_pk permissions expires_at (sign signing_key signed_data)).

Definition verify_delegation (cert : DelegationCertificate) (issuer_pk : bytes) (now_ms : Z) : Outcome IdentityError unit :=
  require (cert_expires cert <? now_ms) (Expired (cert_expires cert) now_ms) ;?
  require (negb (key_ok issuer_pk)) InvalidSignature ;?
  let? signed_data := map_err (fun _ => InvalidSignature) (to_vec delegation_sign_data
    (mkSignData (cert_version cert) (cert_conversation cert) (cert_device cert) (cert_permissions cert) (cert_expires cert))) in
  require (negb (verify issuer_pk signed_data (cert_signature cert))) InvalidSignature.

End Certificates.

(** ** State *)

Record AuthRecord := mkAuth {
  logical_pk : LogicalIdentityPk;
  issuer_pk : PhysicalDevicePk;
  permissions : Permissions.t;
  expires_at : Z;
  auth_rank : Z;
  auth_hash : NodeHash
}.
#[export] Instance AuthRecord_eq_dec : EqDecision AuthRecord.
Proof. solve_decision. Defined.

Record RevocationRecord := mkRevocation { rev_rank : Z; revoker_seniority : Z * NodeHash; revocation_hash : NodeHash }.

Record CausalContext := mkContext { evaluating_node_hash : NodeHash; admin_ancestor_hashes : gset NodeHash }.

(** [CausalContext::global] *)
Definition global : CausalContext := mkContext zero_hash {[zero_hash]}.

(** (conversation, device, logical identity, evaluating node) *)
Definition PathKey : Type := ConversationId * PhysicalDevicePk * LogicalIdentityPk * NodeHash.

Section Manager.
Context `{HashOrder} `{LruCache PathKey Z}.

Record t := mk {
  authorized_devices : gmap (ConversationId * PhysicalDevicePk) (list AuthRecord);
  logical_members : gmap (ConversationId * LogicalIdentityPk) (Z * Z);
  revoked_devices : gmap (ConversationId * PhysicalDevicePk) (list RevocationRecord);
  path_cache : cache
}.
#[global] Instance eta_t : Settable t := fun m => mk (authorized_devices m) (logical_members m) (revoked_devices m) (path_cache m).

Definition new : t := mk ∅ ∅ ∅ (cache_new PATH_CACHE_SIZE).

(** ** Revocation of a record *)

(** Whether the device that owns [revoker_auth_hash] was itself revoked by the
    owner of [target_auth_hash]. *)
Definition is_mutual_revocation (m : t) (conversation_id : ConversationId) (revoker_auth_hash target_auth_hash : NodeHash) : bool :=
  if bool_decide (revoker_auth_hash = zero_hash) || bool_decide (target_auth_hash = zero_hash) then false
  else
    match List.find (fun '((cid, _), records) => bool_decide (cid = conversation_id) && existsb (fun r => bool_decide (auth_hash r = revoker_auth_hash)) records)
            (iterate (authorized_devices m)) with
    | Some ((_, pk), _) =>
        match revoked_devices m !! (conversation_id, pk) with
        | Some revs => existsb (fun r => bool_decide ((revoker_seniority r).2 = target_auth_hash)) revs
        | None => false
        end
    | None => false
    end.

Definition is_global (ctx : CausalContext) : bool := bool_decide (evaluating_node_hash ctx = zero_hash).

(** A revocation takes a record away from the device. *)
Definition revokes (m : t) (ctx : CausalContext) (conversation_id : ConversationId) (rank : Z) (record : AuthRecord) (rev : RevocationRecord) : bool :=
  let my_seniority := (auth_rank record, auth_hash record) in
  let in_history := bool_decide (revocation_hash rev = zero_hash) || is_global ctx || bool_decide (revocation_hash rev ∈ admin_ancestor_hashes ctx) in
  in_history && (rev_rank rev <=? rank) &&
  (if is_mutual_revocation m conversation_id (revoker_seniority rev).2 (auth_hash record)
   then ranked_leb (revoker_seniority rev) my_seniority
   else (revoker_seniority rev).1 <=? my_seniority.1).

(** The part of the loops over records that [is_authorized_recursive] and
    [get_permissions_recursive] share: a record that is not skipped. *)
Definition record_counts (m : t) (ctx : CausalContext) (conversation_id : ConversationId) (device_pk : PhysicalDevicePk) (logical : LogicalIdentityPk)
    (now_ms rank : Z) (record : AuthRecord) : bool :=
  negb (negb (bool_decide (logical_pk record = logical)) || (expires_at record <=? now_ms) || (rank <? auth_rank record)) &&
  negb (negb (is_global ctx) && negb (bool_decide (auth_hash record = zero_hash)) && negb (bool_decide (auth_hash record ∈ admin_ancestor_hashes ctx))) &&
  negb (existsb (revokes m ctx conversation_id rank record) (default [] (revoked_devices m !! (conversation_id, device_pk)))).

(** ** Trust paths *)

Definition better (f : Z -> Z -> Z) (best : option Z) (v : Z) : option Z := Some (match best with Some b => f b v | None => v end).

(** The time until which a path lasts. *)
Fixpoint is_authorized_recursive (levels : nat) (m : t) (ctx : CausalContext) (conversation_id : ConversationId) (device_pk : PhysicalDevicePk)
    (logical : LogicalIdentityPk) (now_ms rank : Z) : option Z :=
  match levels with
  | O => None
  | S levels =>
      if decide (device_pk = to_physical logical) then Some i64_max
      else
        match authorized_devices m !! (conversation_id, device_pk) with
        | Some records =>
            foldl (fun max_expires record =>
              if negb (record_counts m ctx conversation_id device_pk logical now_ms rank record) then max_expires
              else if decide (issuer_pk record = to_physical logical) then better Z.max max_expires (expires_at record)
              else
                match is_authorized_recursive levels m ctx conversation_id (issuer_pk record) logical now_ms rank with
                | Some issuer_expires => better Z.max max_expires (Z.min (expires_at record) issuer_expires)
                | None => max_expires
                end) None records
        | None => None
        end
  end.

Fixpoint get_permissions_recursive (levels : nat) (m : t) (ctx : CausalContext) (conversation_id : ConversationId) (device_pk : PhysicalDevicePk)
    (logical : LogicalIdentityPk) (now_ms rank : Z) : option Permissions.t :=
  match levels with
  | O => None
  | S levels =>
      if decide (device_pk = to_physical logical) then Some Permissions.ALL
      else
        match authorized_devices m !! (conversation_id, device_pk) with
        | Some records =>
            foldl (fun effective record =>
              if negb (record_counts m ctx conversation_id device_pk logical now_ms rank record) then effective
              else if decide (issuer_pk record = to_physical logical) then better Permissions.union effective (permissions record)
              else
                match get_permissions_recursive levels m ctx conversation_id (issuer_pk record) logical now_ms rank with
                | Some issuer_perms => better Permissions.union effective (Permissions.inter (permissions record) issuer_perms)
                | None => effective
                end) None records
        | None => None
        end
  end.

(** The shortest chain of records, whether they count or not. *)
Fixpoint get_auth_depth_recursive (levels : nat) (m : t) (conversation_id : ConversationId) (device_pk : PhysicalDevicePk)
    (logical : LogicalIdentityPk) (rank : Z) : option nat :=
  match levels with
  | O => None
  | S levels =>
      if decide (device_pk = to_physical logical) then Some O
      else
        match authorized_devices m !! (conversation_id, device_pk) with
        | Some records =>
            foldl (fun min_depth record =>
              if bool_decide (logical_pk record = logical) && (auth_rank record <=? rank) then
                match get_auth_depth_recursive levels m conversation_id (issuer_pk record) logical rank with
                | Some d => Some (match min_depth with Some k => Nat.min k (S d) | None => S d end)
                | None => min_depth
                end
              else min_depth) None records
        | None => None
        end
  end.

(** A depth starts at 0. *)
Definition LEVELS : nat := S MAX_AUTH_DEPTH.
Definition get_auth_depth := get_auth_depth_recursive LEVELS.
Definition get_permissions := get_permissions_recursive LEVELS.

Definition is_admin (m : t) (ctx : CausalContext) (conversation_id : ConversationId) (device_pk : PhysicalDevicePk) (logical : LogicalIdentityPk)
    (now_ms rank : Z) : bool :=
  match get_permissions m ctx conversation_id device_pk logical now_ms rank with
  | Some p => Permissions.contains p Permissions.ADMIN
  | None => false
  end.

(** [is_authorized], with the cache of paths. *)
Definition is_authorized (m : t) (ctx : CausalContext) (conversation_id : ConversationId) (device_pk : PhysicalDevicePk) (logical : LogicalIdentityPk)
    (now_ms rank : Z) : t * bool :=
  if decide (device_pk = to_physical logical) then (m, true)
  else
    let key := (conversation_id, device_pk, logical, evaluating_node_hash ctx) in
    let '(hit, c) := cache_get key (path_cache m) in
    let m := m <| path_cache := c |> in
    if match hit with Some expires_at => now_ms <? expires_at | None => false end then (m, true)
    else
      match is_authorized_recursive LEVELS m ctx conversation_id device_pk logical now_ms rank with
      | Some expires_at => (m <| path_cache := cache_push key expires_at (path_cache m) |>, true)
      | None => (m, false)
      end.

(** ** Members and devices *)

Definition add_member (m : t) (conversation_id : ConversationId) (logical : LogicalIdentityPk) (role joined_at : Z) : t :=
  m <| logical_members := <[(conversation_id, logical) := (role, joined_at)]> (logical_members m) |>.

(** The oldest record that makes the revoker an admin. *)
Definition seniority_of (conversation_revoker : list AuthRecord) (logical : LogicalIdentityPk) (rank now_ms : Z) : Z * NodeHash :=
  foldl (fun best record =>
    if bool_decide (logical_pk record = logical) && (now_ms <? expires_at record) && (auth_rank record <=? rank) &&
       Permissions.contains (permissions record) Permissions.ADMIN
    then let seniority := (auth_rank record, auth_hash record) in if ranked_ltb seniority best then seniority else best
    else best) (u64_max, top_hash) conversation_revoker.

Definition revoke_device (m : t) (conversation_id : ConversationId) (revoker_pk : PhysicalDevicePk) (revoker_logical_pk : LogicalIdentityPk)
    (target_device_pk : PhysicalDevicePk) (rank now_ms : Z) (revocation_hash : NodeHash) : t :=
  let revoker_seniority :=
    if decide (revoker_pk = to_physical revoker_logical_pk) then (0, zero_hash)
    else seniority_of (default [] (authorized_devices m !! (conversation_id, revoker_pk))) revoker_logical_pk rank now_ms in
  let key := (conversation_id, target_device_pk) in
  m <| revoked_devices := <[key := default [] (revoked_devices m !! key) ++ [mkRevocation rank revoker_seniority revocation_hash]]> (revoked_devices m) |>
    <| path_cache := cache_clear (path_cache m) |>.

Definition remove_member (m : t) (conversation_id : ConversationId) (revoker_pk : PhysicalDevicePk) (revoker_logical_pk logical : LogicalIdentityPk)
    (rank now_ms : Z) (revocation_hash : NodeHash) : t :=
  let m := m <| logical_members := delete (conversation_id, logical) (logical_members m) |> in
  let devices_to_remove := (fun '((_, d), _) => d) <$>
    List.filter (fun '((cid, _), records) => bool_decide (cid = conversation_id) && existsb (fun r => bool_decide (logical_pk r = logical)) records)
      (iterate (authorized_devices m)) in
  foldl (fun m d => revoke_device m conversation_id revoker_pk revoker_logical_pk d rank now_ms revocation_hash) m devices_to_remove.

Definition has_authorization_record (m : t) (conversation_id : ConversationId) (device_pk : PhysicalDevicePk) : bool :=
  bool_decide (is_Some (authorized_devices m !! (conversation_id, device_pk))).

Definition resolve_logical_pk (m : t) (conversation_id : ConversationId) (device_pk : PhysicalDevicePk) : option LogicalIdentityPk :=
  match logical_members m !! (conversation_id, to_logical device_pk) with
  | Some _ => Some (to_logical device_pk)
  | None => records ← authorized_devices m !! (conversation_id, device_pk); logical_pk <$> head records
  end.

Definition get_admin_seniority (m : t) (conversation_id : ConversationId) (device_pk : PhysicalDevicePk) : option (Z * NodeHash) :=
  records ← authorized_devices m !! (conversation_id, device_pk);
  foldl (fun best r =>
    if Permissions.contains (permissions r) Permissions.ADMIN
    then Some (match best with
               | Some b => if ranked_ltb (auth_rank r, auth_hash r) b then (auth_rank r, auth_hash r) else b
               | None => (auth_rank r, auth_hash r)
               end)
    else best) None records.

(** ** Listings *)

Definition list_members (m : t) (conversation_id : ConversationId) : list (LogicalIdentityPk * Z * Z) :=
  merge_sort (fun a b => bytes_le a.1.1 b.1.1)
    ((fun '((_, pk), (role, joined)) => (pk, role, joined)) <$>
     List.filter (fun '((cid, _), _) => bool_decide (cid = conversation_id)) (iterate (logical_members m))).

Definition get_founder (m : t) (conversation_id : ConversationId) : option LogicalIdentityPk :=
  (fun e => e.1.2) <$> List.find (fun '((cid, _), (role, _)) => bool_decide (cid = conversation_id) && (role =? 0)) (iterate (logical_members m)).

Definition devices_of (m : t) (conversation_id : ConversationId) : list PhysicalDevicePk :=
  (fun e => e.1.2) <$> List.filter (fun '((cid, _), _) => bool_decide (cid = conversation_id)) (iterate (authorized_devices m)).

Definition list_authorized_devices (m : t) (conversation_id : ConversationId) : list PhysicalDevicePk :=
  merge_sort bytes_le (devices_of m conversation_id).

(** [Vec::dedup]: equal neighbours are merged. *)
Fixpoint dedup {A} `{EqDecision A} (l : list A) : list A :=
  match l with
  | a :: rest => match dedup rest with b :: rest' => if decide (a = b) then b :: rest' else a :: b :: rest' | [] => [a] end
  | [] => []
  end.

(** The inner loop: the explicit devices that are authorized for one member. *)
Fixpoint active_devices_of (m : t) (ctx : CausalContext) (conversation_id : ConversationId) (now_ms rank : Z) (logical : LogicalIdentityPk)
    (candidates : list PhysicalDevicePk) : t * list PhysicalDevicePk :=
  match candidates with
  | [] => (m, [])
  | d :: rest =>
      let '(m, ok) := is_authorized m ctx conversation_id d logical now_ms rank in
      let '(m, active) := active_devices_of m ctx conversation_id now_ms rank logical rest in
      (m, if (ok : bool) then d :: active else active)
  end.

Fixpoint active_devices_for (m : t) (ctx : CausalContext) (conversation_id : ConversationId) (now_ms rank : Z) (members : list (LogicalIdentityPk * Z * Z))
    (candidates : list PhysicalDevicePk) : t * list PhysicalDevicePk :=
  match members with
  | [] => (m, [])
  | (logical, _, _) :: rest =>
      let '(m, active) := active_devices_of m ctx conversation_id now_ms rank logical candidates in
      let active := match active with [] => [to_physical logical] | _ => active end in
      let '(m, more) := active_devices_for m ctx conversation_id now_ms rank rest candidates in
      (m, active ++ more)
  end.

Definition list_active_authorized_devices (m : t) (ctx : CausalContext) (conversation_id : ConversationId) (now_ms rank : Z) : t * list PhysicalDevicePk :=
  let '(m, active) := active_devices_for m ctx conversation_id now_ms rank (list_members m conversation_id) (devices_of m conversation_id) in
  (m, dedup (merge_sort bytes_le active)).

Definition list_authorized_devices_for_author (m : t) (conversation_id : ConversationId) (logical : LogicalIdentityPk) : list PhysicalDevicePk :=
  let pks := (fun e => e.1.2) <$>
    List.filter (fun '((cid, _), records) => bool_decide (cid = conversation_id) && existsb (fun r => bool_decide (logical_pk r = logical)) records)
      (iterate (authorized_devices m)) in
  merge_sort bytes_le (if decide (to_physical logical ∈ pks) then pks else pks ++ [to_physical logical]).

(** The order of pairs of keys. *)
Definition pair_le (a b : PhysicalDevicePk * LogicalIdentityPk) : Prop :=
  match bytes_compare a.1 b.1 with Lt => True | Gt => False | Eq => bytes_le a.2 b.2 end.
#[global] Instance pair_le_dec : RelDecision pair_le.
Proof. intros a b. unfold pair_le. destruct (bytes_compare a.1 b.1); apply _. Defined.

Definition list_all_authorized_sender_pairs (m : t) (conversation_id : ConversationId) : list (PhysicalDevicePk * LogicalIdentityPk) :=
  let pairs := List.flat_map (fun '((cid, device_pk), records) =>
    if bool_decide (cid = conversation_id) then (fun r => (device_pk, logical_pk r)) <$> records else []) (iterate (authorized_devices m)) in
  let pairs := foldl (fun pairs '((cid, logical), _) =>
    if bool_decide (cid = conversation_id) && negb (bool_decide ((to_physical logical, logical) ∈ pairs)) then pairs ++ [(to_physical logical, logical)]
    else pairs) pairs (iterate (logical_members m)) in
  dedup (merge_sort pair_le pairs).

End Manager.

(** ** Authorization *)

Section Authorize.
Context `{Rmp} `{Ed25519} `{HashOrder} `{LruCache PathKey Z}.

(** The inner loop over the records of one candidate. *)
Fixpoint issuer_record (m : t) (ctx : CausalContext) (conversation_id : ConversationId) (logical : LogicalIdentityPk) (cert : DelegationCertificate)
    (now_ms rank : Z) (dev_pk : PhysicalDevicePk) (records : list AuthRecord) : option (option (PhysicalDevicePk * Permissions.t)) :=
  match records with
  | [] => Some None
  | record :: records =>
      if bool_decide (logical_pk record = logical) && (now_ms <? expires_at record) && (auth_rank record <=? rank) &&
         Permissions.contains (permissions record) Permissions.ADMIN
      then
        signed ← verify_delegation cert dev_pk now_ms;
        match (if is_ok signed then get_permissions_recursive LEVELS m ctx conversation_id dev_pk logical now_ms rank else None) with
        | Some effective =>
            if Permissions.contains effective Permissions.ADMIN then Some (Some (dev_pk, effective))
            else issuer_record m ctx conversation_id logical cert now_ms rank dev_pk records
        | None => issuer_record m ctx conversation_id logical cert now_ms rank dev_pk records
        end
      else issuer_record m ctx conversation_id logical cert now_ms rank dev_pk records
  end.

(** The outer loop over the devices, in the order of the map. *)
Fixpoint find_issuer (m : t) (ctx : CausalContext) (conversation_id : ConversationId) (logical : LogicalIdentityPk) (cert : DelegationCertificate)
    (now_ms rank : Z) (entries : list ((ConversationId * PhysicalDevicePk) * list AuthRecord)) : option (option (PhysicalDevicePk * Permissions.t)) :=
  match entries with
  | [] => Some None
  | ((cid, dev_pk), records) :: entries =>
      if negb (bool_decide (cid = conversation_id)) then find_issuer m ctx conversation_id logical cert now_ms rank entries
      else
        found ← issuer_record m ctx conversation_id logical cert now_ms rank dev_pk records;
        match found with
        | Some issuer => Some (Some issuer)
        | None => find_issuer m ctx conversation_id logical cert now_ms rank entries
        end
  end.

(** Adding a record unless it is there. *)
Definition add_record (m : t) (conversation_id : ConversationId) (device_pk : PhysicalDevicePk) (record : AuthRecord) : t :=
  let key := (conversation_id, device_pk) in
  let records := default [] (authorized_devices m !! key) in
  m <| authorized_devices := <[key := if decide (record ∈ records) then records else records ++ [record]]> (authorized_devices m) |>.

Definition authorize_device (m : t) (ctx : CausalContext) (conversation_id : ConversationId) (logical : LogicalIdentityPk) (cert : DelegationCertificate)
    (now_ms rank : Z) (hash : NodeHash) : option (t * result IdentityError unit) :=
  let m := m <| path_cache := cache_clear (path_cache m) |> in
  if negb (bool_decide (cert_conversation cert = conversation_id)) then Some (m, Err ConversationIdMismatch)
  else
    by_master ← verify_delegation cert logical now_ms;
    if is_ok by_master then
      Some (add_record m conversation_id (cert_device cert)
              (mkAuth logical (to_physical logical) (cert_permissions cert) (cert_expires cert) rank hash), Ok tt)
    else
      found ← find_issuer m ctx conversation_id logical cert now_ms rank (iterate (authorized_devices m));
      match found with
      | None => Some (m, Err NoTrustPath)
      | Some (issuer, issuer_perms) =>
          if negb (Permissions.contains issuer_perms (cert_permissions cert)) then Some (m, Err PermissionEscalation)
          else
            let depth := default O (get_auth_depth m conversation_id issuer logical rank) in
            if (MAX_AUTH_DEPTH <? S depth)%nat then Some (m, Err ChainTooDeep)
            else
              let device_count := count_if (fun '((cid, _), records) => bool_decide (cid = conversation_id) &&
                existsb (fun r => bool_decide (logical_pk r = logical)) records) (iterate (authorized_devices m)) in
              if MAX_DEVICES_PER_IDENTITY <=? device_count then Some (m, Err (TooManyDevices MAX_DEVICES_PER_IDENTITY))
              else
                let total_devices := count_if (fun '((cid, _), _) => bool_decide (cid = conversation_id)) (iterate (authorized_devices m)) in
                if MAX_GROUP_DEVICES <=? total_devices then Some (m, Err (TooManyGroupDevices MAX_GROUP_DEVICES))
                else
                  Some (add_record m conversation_id (cert_device cert)
                          (mkAuth logical issuer (cert_permissions cert) (cert_expires cert) rank hash), Ok tt)
      end.

End Authorize.
End Identity.
