(* ===== verification/IdentityTheory.v ===== *)
(** What the identity manager decides.

    [trust_path] is the reference: a chain of records that count, from a device to
    the master key.  The recursive functions compute over all such chains of at
    most [MAX_AUTH_DEPTH + 1] records; the cache keeps answers
    to earlier questions, under keys without the rank; a
    certificate is accepted only from an issuer with the permissions it grants;
    revocation cuts every chain through the device. *)

From S2P Require Import Prelude Protocol MsgPack MsgPackTheory ToxTypes ToxTheory Derive DeriveTheory Merkle Dag DagCodec Identity.
From stdpp Require Import list gmap sorting.
#[local] Open Scope Z_scope.
#[local] Open Scope list_scope.

Module IdentityTheory.
Import Dag DagCodec Identity.

(** ** Folds over records *)

Section Folds.
Context {A : Type} (value : A -> option Z).
Definition gather (f : Z -> Z -> Z) (best : option Z) (r : A) : option Z := match value r with Some v => better f best v | None => best end.

Lemma gather_none f l best : foldl (gather f) best l = None <-> best = None /\ forall r, r ∈ l -> value r = None.
Proof.
  revert best. induction l as [|r l IH]; intros best; cbn; [split; [intros ->; split; [done|by intros r ?%not_elem_of_nil]|naive_solver]|].
  rewrite IH. unfold gather, better. setoid_rewrite elem_of_cons. destruct (value r) eqn:E; split; naive_solver.
Qed.

Lemma gather_max l best e : foldl (gather Z.max) best l = Some e ->
  (best = Some e \/ exists r, r ∈ l /\ value r = Some e) /\ (forall v, best = Some v -> v <= e) /\ forall r v, r ∈ l -> value r = Some v -> v <= e.
Proof.
  revert best. induction l as [|r l IH]; intros best; cbn.
  - intros ->. split_and!; [by left|intros v [= ->]; lia|by intros r v ?%not_elem_of_nil].
  - intros E. apply IH in E as (Hex & Hb & Hl). unfold gather, better in *. setoid_rewrite elem_of_cons. destruct (value r) as [v|] eqn:Ev.
    + split_and!.
      * destruct Hex as [[= <-]|(s & Hs & Es)]; [|naive_solver]. destruct best as [b|]; [|naive_solver].
        destruct (Z.max_spec b v) as [[_ ->]|[_ ->]]; naive_solver.
      * intros w ->. specialize (Hb _ eq_refl). lia.
      * intros s w [->|Hs] Es; [|by eapply Hl]. simplify_eq. specialize (Hb _ eq_refl). destruct best; lia.
    + split_and!; [naive_solver|done|]. intros s w [->|Hs] Es; [congruence|by eapply Hl].
Qed.

Lemma gather_union l best p b : foldl (gather Permissions.union) best l = Some p -> 0 <= b ->
  (Z.testbit p b = true <-> (exists q, best = Some q /\ Z.testbit q b = true) \/ exists r v, r ∈ l /\ value r = Some v /\ Z.testbit v b = true).
Proof.
  intros E Hb. revert best E. induction l as [|r l IH]; intros best; cbn.
  - intros ->. split; [intros Ht; left; eauto|]. intros [(q & [= <-] & ?)|(r & v & ?%not_elem_of_nil & _)]; done.
  - intros E. rewrite (IH _ E). unfold gather. split.
    + intros [(w & Ew & Hw)|(s & v & Hs & Ev & Hv)]; [|right; exists s, v; by rewrite elem_of_cons; auto].
      destruct (value r) as [v|] eqn:Ev; [|left; eauto]. unfold better in Ew. destruct best as [q|]; injection Ew as <-.
      * unfold Permissions.union in Hw. rewrite Z.lor_spec in Hw. apply orb_true_iff in Hw as [Hw|Hw]; [left; eauto|right; exists r, v; by rewrite elem_of_cons; auto].
      * right. exists r, v. by rewrite elem_of_cons; auto.
    + intros [(q & -> & Hq)|(s & v & [->|Hs]%elem_of_cons & Ev & Hv)].
      * left. destruct (value r) as [v|]; [|eauto]. eexists. split; [done|]. unfold Permissions.union. by rewrite Z.lor_spec, Hq.
      * left. rewrite Ev. eexists. split; [done|]. unfold Permissions.union. destruct best; [|done]. by rewrite Z.lor_spec, Hv, orb_true_r.
      * right. eauto.
Qed.
End Folds.

(** ** Trust paths *)

Section Paths.
Context `{HashOrder} `{LruCache PathKey Z}.

Section Fixed.
Context (m : t) (ctx : CausalContext) (conversation_id : ConversationId) (logical : LogicalIdentityPk) (rank : Z).
Let master := to_physical logical.

(** A record of [dev] that counts at time [now]. *)
Definition counts (now : Z) (dev : PhysicalDevicePk) (r : AuthRecord) : Prop :=
  r ∈ default [] (authorized_devices m !! (conversation_id, dev)) /\ record_counts m ctx conversation_id dev logical now rank r = true.

Inductive trust_path (now : Z) : PhysicalDevicePk -> list AuthRecord -> Prop :=
| path_direct dev r : dev <> master -> counts now dev r -> issuer_pk r = master -> trust_path now dev [r]
| path_via dev r path : dev <> master -> counts now dev r -> issuer_pk r <> master -> trust_path now (issuer_pk r) path -> trust_path now dev (r :: path).

(** How long a path lasts, and what it grants. *)
Fixpoint path_expires (path : list AuthRecord) : Z :=
  match path with
  | [] => i64_max
  | [r] => expires_at r
  | r :: path => Z.min (expires_at r) (path_expires path)
  end.
Definition path_grants (path : list AuthRecord) (b : Z) : Prop := forall r, r ∈ path -> Z.testbit (permissions r) b = true.

Lemma path_not_nil now dev path : trust_path now dev path -> path <> [].
Proof. by destruct 1. Qed.

Lemma path_expires_cons r path : path <> [] -> path_expires (r :: path) = Z.min (expires_at r) (path_expires path).
Proof. by destruct path. Qed.

Lemma path_expires_le path r : r ∈ path -> path_expires path <= expires_at r.
Proof.
  induction path as [|s path IH]; intros Hr; [by apply not_elem_of_nil in Hr|]. apply elem_of_cons in Hr as [->|Hr].
  - destruct path; [done|]. rewrite path_expires_cons by done. lia.
  - rewrite path_expires_cons by (intros ->; by apply not_elem_of_nil in Hr). specialize (IH Hr). lia.
Qed.

(** Time only enters through the expiry of the records. *)
Lemma counts_later now later dev r : counts now dev r -> later < expires_at r -> counts later dev r.
Proof.
  intros [Hr Hc] Hl. split; [done|]. unfold record_counts in *. destruct (bool_decide (logical_pk r = logical)), (rank <? auth_rank r); cbn in *; try done;
    rewrite ?orb_true_r in *; try done. rewrite orb_false_r in *. destruct (Z.leb_spec (expires_at r) later); [lia|]. destruct (expires_at r <=? now); done.
Qed.

Lemma path_at now later dev path : trust_path now dev path -> later < path_expires path -> trust_path later dev path.
Proof.
  induction 1 as [dev r Hd Hc Hi|dev r path Hd Hc Hi Hp IH]; intros Hl.
  - by apply path_direct; [|eapply counts_later|].
  - rewrite path_expires_cons in Hl by (by eapply path_not_nil). apply path_via; try done; [eapply counts_later; [done|lia]|apply IH; lia].
Qed.

Lemma path_lasts now dev path : trust_path now dev path -> now < path_expires path.
Proof.
  assert (forall d r, counts now d r -> now < expires_at r) as Hx.
  { intros d r [_ Hc]. unfold record_counts in Hc. destruct (Z.leb_spec (expires_at r) now); [|lia]. by rewrite orb_true_r in Hc. }
  induction 1 as [dev r _ Hc _|dev r path _ Hc _ Hp IH]; [by eapply Hx|]. rewrite path_expires_cons by (by eapply path_not_nil). specialize (Hx _ _ Hc). lia.
Qed.

(** ** The recursive functions compute over all paths *)

(** The value of one record, from that of its issuer. *)
Definition record_value (now : Z) (dev : PhysicalDevicePk) (own : AuthRecord -> Z) (join : Z -> Z -> Z) (rec : PhysicalDevicePk -> option Z) (r : AuthRecord) : option Z :=
  if record_counts m ctx conversation_id dev logical now rank r then
    if decide (issuer_pk r = master) then Some (own r) else join (own r) <$> rec (issuer_pk r)
  else None.

Lemma fold_step now dev own join f rec best records :
  foldl (fun best r =>
      if negb (record_counts m ctx conversation_id dev logical now rank r) then best
      else if decide (issuer_pk r = master) then better f best (own r)
      else match rec (issuer_pk r) with Some v => better f best (join (own r) v) | None => best end) best records =
  foldl (gather (record_value now dev own join rec) f) best records.
Proof.
  revert best. induction records as [|r l IH]; intros best; cbn [foldl]; [done|]. rewrite IH. f_equal. unfold gather, record_value.
  destruct (record_counts _ _ _ _ _ _ _ r); cbn; [|done]. case_decide; [done|]. by destruct (rec (issuer_pk r)).
Qed.

Lemma authorized_unfold levels now dev : dev <> master ->
  is_authorized_recursive (S levels) m ctx conversation_id dev logical now rank =
  foldl (gather (record_value now dev expires_at Z.min (fun d => is_authorized_recursive levels m ctx conversation_id d logical now rank)) Z.max) None
    (default [] (authorized_devices m !! (conversation_id, dev))).
Proof.
  intros Hd. cbn [is_authorized_recursive]. rewrite decide_False by done. destruct (authorized_devices m !! (conversation_id, dev)) as [l|]; [|done].
  cbn [from_option id]. rewrite <- fold_step. done.
Qed.

Lemma permissions_unfold levels now dev : dev <> master ->
  get_permissions_recursive (S levels) m ctx conversation_id dev logical now rank =
  foldl (gather (record_value now dev permissions Permissions.inter (fun d => get_permissions_recursive levels m ctx conversation_id d logical now rank)) Permissions.union) None
    (default [] (authorized_devices m !! (conversation_id, dev))).
Proof.
  intros Hd. cbn [get_permissions_recursive]. rewrite decide_False by done. destruct (authorized_devices m !! (conversation_id, dev)) as [l|]; [|done].
  cbn [from_option id]. rewrite <- fold_step. done.
Qed.

(** [dev] has a path of at most [levels] records. *)
Definition reaches (levels : nat) (now : Z) (dev : PhysicalDevicePk) (path : list AuthRecord) : Prop := trust_path now dev path /\ (length path <= levels)%nat.

Lemma reaches_inv levels now dev path : reaches (S levels) now dev path ->
  exists r rest, path = r :: rest /\ counts now dev r /\ ((issuer_pk r = master /\ rest = []) \/ (issuer_pk r <> master /\ reaches levels now (issuer_pk r) rest)).
Proof. intros [Hp Hl]. destruct Hp as [dev r Hd Hc Hi|dev r path Hd Hc Hi Hp]; exists r; eexists; (split; [done|]); (split; [done|]); [by left|right]. split; [done|]. split; [done|cbn in Hl; lia]. Qed.

Lemma reaches_direct levels now dev r : dev <> master -> counts now dev r -> issuer_pk r = master -> reaches (S levels) now dev [r].
Proof. intros Hd Hc Hi. split; [by apply path_direct|cbn; lia]. Qed.

Lemma reaches_via levels now dev r path : dev <> master -> counts now dev r -> issuer_pk r <> master -> reaches levels now (issuer_pk r) path -> reaches (S levels) now dev (r :: path).
Proof. intros Hd Hc Hi [Hp Hl]. split; [by apply path_via|cbn; lia]. Qed.

Lemma reaches_not_nil levels now dev path : reaches levels now dev path -> path <> [].
Proof. intros [Hp _]. by eapply path_not_nil. Qed.

Lemma authorized_spec levels now dev : dev <> master ->
  match is_authorized_recursive levels m ctx conversation_id dev logical now rank with
  | Some e => (exists path, reaches levels now dev path /\ path_expires path = e) /\ forall path, reaches levels now dev path -> path_expires path <= e
  | None => forall path, ~ reaches levels now dev path
  end.
Proof.
  revert dev. induction levels as [|levels IH]; intros dev Hd; [intros path [Hp Hl]; apply path_not_nil in Hp; destruct path; [done|cbn in Hl; lia]|].
  rewrite authorized_unfold by done. set (value := record_value _ _ _ _ _). set (records := default [] _).
  assert (forall r path, counts now dev r -> reaches (S levels) now dev (r :: path) -> exists v, value r = Some v /\ path_expires (r :: path) <= v) as Hpath.
  { intros r path [_ Hc] Hr. unfold value, record_value. rewrite Hc. apply reaches_inv in Hr as (r' & rest & [= <- <-] & _ & [[Hi ->]|[Hi Hrest]]).
    - rewrite decide_True by done. exists (expires_at r). split; [done|cbn; lia].
    - rewrite decide_False by done. specialize (IH _ Hi). destruct (is_authorized_recursive levels _ _ _ (issuer_pk r) _ _ _) as [e|]; [|by destruct (IH path)].
      eexists. split; [done|]. rewrite path_expires_cons by (by eapply reaches_not_nil). destruct IH as [_ IH]. specialize (IH path Hrest). lia. }
  assert (forall r v, r ∈ records -> value r = Some v -> exists path, reaches (S levels) now dev path /\ path_expires path = v) as Hvalue.
  { intros r v Hr. unfold value, record_value. destruct (record_counts _ _ _ _ _ _ _ r) eqn:Ec; [|done]. assert (counts now dev r) as Hc by done. case_decide as Hi.
    - intros [= <-]. exists [r]. split; [by apply reaches_direct|done].
    - intros (e & Ee & ->)%fmap_Some. specialize (IH _ Hi). rewrite Ee in IH. destruct IH as [(path & Hp & <-) _].
      exists (r :: path). split; [by apply reaches_via|]. by rewrite path_expires_cons by (by eapply reaches_not_nil). }
  destruct (foldl (gather value Z.max) None records) as [e|] eqn:E.
  - apply gather_max in E as ([?|(r & Hr & Ev)] & _ & Hmax); [done|]. split; [by eapply Hvalue|]. intros path Hp.
    pose proof Hp as (s & rest & -> & Hc & _)%reaches_inv. destruct (Hpath s rest Hc Hp) as (v & Ev' & Hle). specialize (Hmax s v ltac:(apply Hc) Ev'). lia.
  - apply gather_none in E as [_ Hnone]. intros path Hp. pose proof Hp as (s & rest & -> & Hc & _)%reaches_inv. destruct (Hpath s rest Hc Hp) as (v & Ev' & _).
    by rewrite Hnone in Ev' by apply Hc.
Qed.

Lemma permissions_spec levels now dev : dev <> master ->
  match get_permissions_recursive levels m ctx conversation_id dev logical now rank with
  | Some p => (exists path, reaches levels now dev path) /\
      forall b, 0 <= b -> Z.testbit p b = true <-> exists path, reaches levels now dev path /\ path_grants path b
  | None => forall path, ~ reaches levels now dev path
  end.
Proof.
  revert dev. induction levels as [|levels IH]; intros dev Hd; [intros path [Hp Hl]; apply path_not_nil in Hp; destruct path; [done|cbn in Hl; lia]|].
  rewrite permissions_unfold by done. set (value := record_value _ _ _ _ _). set (records := default [] _).
  assert (forall r path, counts now dev r -> reaches (S levels) now dev (r :: path) ->
    exists v, value r = Some v /\ forall b, 0 <= b -> path_grants (r :: path) b -> Z.testbit v b = true) as Hpath.
  { intros r path [_ Hc] Hr. unfold value, record_value. rewrite Hc. apply reaches_inv in Hr as (r' & rest & [= <- <-] & _ & [[Hi ->]|[Hi Hrest]]).
    - rewrite decide_True by done. exists (permissions r). split; [done|]. intros b _ Hg. apply Hg. left.
    - rewrite decide_False by done. specialize (IH _ Hi). destruct (get_permissions_recursive levels _ _ _ (issuer_pk r) _ _ _) as [p|]; [|by destruct (IH path)].
      eexists. split; [done|]. intros b Hb Hg. unfold Permissions.inter. rewrite Z.land_spec, (Hg r) by left. destruct IH as [_ IH]. cbn.
      apply IH; [done|]. exists path. split; [done|]. intros s Hs. apply Hg. by right. }
  assert (forall r v, r ∈ records -> value r = Some v -> (exists path, reaches (S levels) now dev path) /\
    forall b, 0 <= b -> Z.testbit v b = true -> exists path, reaches (S levels) now dev path /\ path_grants path b) as Hvalue.
  { intros r v Hr. unfold value, record_value. destruct (record_counts _ _ _ _ _ _ _ r) eqn:Ec; [|done]. assert (counts now dev r) as Hc by done. case_decide as Hi.
    - intros [= <-]. split; [exists [r]; by apply reaches_direct|]. intros b _ Ht. exists [r]. split; [by apply reaches_direct|]. by intros s ->%list_elem_of_singleton.
    - intros (p & Ep & ->)%fmap_Some. specialize (IH _ Hi). rewrite Ep in IH. destruct IH as [(path & Hp) IH]. split; [exists (r :: path); by apply reaches_via|].
      intros b Hb Ht. unfold Permissions.inter in Ht. rewrite Z.land_spec in Ht. apply andb_true_iff in Ht as [Ht1 Ht2]. apply IH in Ht2 as (path' & Hp' & Hg); [|done].
      exists (r :: path'). split; [by apply reaches_via|]. intros s [->|Hs]%elem_of_cons; [done|by apply Hg]. }
  destruct (foldl (gather value Permissions.union) None records) as [p|] eqn:E.
  - split.
    + destruct (decide (Exists (fun r => is_Some (value r)) records)) as [(r & Hr & v & Ev)%Exists_exists|Hno]; [by destruct (Hvalue r v Hr Ev)|].
      assert (foldl (gather value Permissions.union) None records = None) as E'; [|congruence]. apply gather_none. split; [done|]. intros r Hr.
      destruct (value r) eqn:Ev; [|done]. destruct Hno. apply Exists_exists. eauto.
    + intros b Hb. rewrite (gather_union _ _ _ _ b E Hb). split.
      * intros [(q & ? & _)|(r & v & Hr & Ev & Ht)]; [done|]. by eapply Hvalue.
      * intros (path & Hp & Hg). right. pose proof Hp as (s & rest & -> & Hc & _)%reaches_inv. destruct (Hpath s rest Hc Hp) as (v & Ev' & Hv).
        exists s, v. split_and!; [apply Hc|done|by apply Hv].
  - apply gather_none in E as [_ Hnone]. intros path Hp. pose proof Hp as (s & rest & -> & Hc & _)%reaches_inv. destruct (Hpath s rest Hc Hp) as (v & Ev' & _).
    by rewrite Hnone in Ev' by apply Hc.
Qed.

End Fixed.
End Paths.
End IdentityTheory.
