(* ===== verification/IdentityLaws.v ===== *)
(** The promises of the identity manager: an answer is the existence of a chain of
    records, a cached one that of a question with the same key, a certificate gives a
    device no more than its issuer has, and of two devices that revoke each other one remains. *)

From S2P Require Import Prelude Protocol MsgPack MsgPackTheory ToxTypes ToxTheory Derive DeriveTheory MsgPackFormat Merkle MerkleModels Dag DagCodec DagTheory Identity IdentityTheory.
From stdpp Require Import list gmap sorting.
#[local] Open Scope Z_scope.
#[local] Open Scope list_scope.

Module IdentityLaws.
Import Dag DagCodec Identity IdentityTheory.
#[local] Arguments get_permissions_recursive : simpl never.
#[local] Arguments is_authorized_recursive : simpl never.

(** ** Signed certificates *)

Section Certificates.
Context `{RmpLaws} `{Ed25519Laws}.

Definition sign_data_ok (s : DelegationSignData) : Prop :=
  in_u 32 (sign_version s) /\ key_ok 32 (sign_conversation s) /\ key_ok 32 (sign_device s) /\ in_u 32 (sign_permissions s) /\
  i64_range (sign_expires s).

Lemma sign_data_codec : lawful delegation_sign_data sign_data_ok.
Proof. struct_codec. Qed.

Definition signed_part (c : DelegationCertificate) : DelegationSignData :=
  mkSignData (cert_version c) (cert_conversation c) (cert_device c) (cert_permissions c) (cert_expires c).

Lemma sign_data_bytes s : sign_data_ok s -> exists b, to_vec delegation_sign_data s = ret b.
Proof. intros Hs. destruct (sign_data_codec empty_ctx s Hs) as (b & E & _). by exists b. Qed.

(** Checking a certificate, on every branch. *)
Lemma verify_delegation_spec c pk now : sign_data_ok (signed_part c) ->
  exists b, to_vec delegation_sign_data (signed_part c) = ret b /\
    verify_delegation c pk now =
      if cert_expires c <? now then refuse (Expired (cert_expires c) now)
      else if Merkle.key_ok pk && verify pk b (cert_signature c) then succeed tt else refuse InvalidSignature.
Proof.
  intros Hc. destruct (sign_data_bytes _ Hc) as (b & Eb). exists b. split; [done|]. unfold verify_delegation. change (mkSignData _ _ _ _ _) with (signed_part c).
  rewrite Eb. destruct (cert_expires c <? now); [done|]. cbn. destruct (Merkle.key_ok pk); [|done]. cbn. by destruct (verify pk b _).
Qed.

Lemma delegation_verifies sk d p e cid now : sign_data_ok (mkSignData DELEGATION_VERSION cid d p e) -> now <= e ->
  exists c, sign_delegation sk d p e cid = Some c /\ verify_delegation c (verifying_key sk) now = succeed tt /\
    cert_device c = d /\ cert_permissions c = p /\ cert_conversation c = cid /\ cert_expires c = e.
Proof.
  intros Hs He. destruct (sign_data_bytes _ Hs) as (b & Eb). unfold sign_delegation. rewrite Eb. cbn. eexists. split; [done|]. split; [|done].
  destruct (verify_delegation_spec (mkCert DELEGATION_VERSION cid d p e (sign sk b)) (verifying_key sk) now Hs) as (b' & Eb' & ->). cbn [cert_expires cert_signature].
  change (signed_part _) with (mkSignData DELEGATION_VERSION cid d p e) in Eb'. rewrite Eb in Eb'. injection Eb' as <-.
  destruct (Z.ltb_spec e now); [lia|]. by rewrite own_key_ok, sign_verify.
Qed.

(** What is signed determines all of a certificate but the signature. *)
Lemma signed_part_determined s s' b : sign_data_ok s -> sign_data_ok s' ->
  to_vec delegation_sign_data s = ret b -> to_vec delegation_sign_data s' = ret b -> s = s'.
Proof. intros Hs Hs' E E'. destruct (DagTheory.codec_injective delegation_sign_data sign_data_ok s s' b [] [] sign_data_codec Hs Hs' E) as [? _]; [by exists b|done]. Qed.

End Certificates.

Section Laws.
Context `{HashOrder} `{LruCacheLaws PathKey Z}.

(** ** Answers are chains *)

Definition authorized (m : t) ctx cid log rank now dev : Prop :=
  dev = to_physical log \/ exists path, reaches m ctx cid log rank LEVELS now dev path.

Lemma permissions_spec_at m ctx cid dev log now rank p : get_permissions m ctx cid dev log now rank = Some p -> dev <> to_physical log ->
  (exists path, reaches m ctx cid log rank LEVELS now dev path) /\
  forall b, 0 <= b -> Z.testbit p b = true <-> exists path, reaches m ctx cid log rank LEVELS now dev path /\ path_grants path b.
Proof. intros E Hd. pose proof (permissions_spec m ctx cid log rank LEVELS now dev Hd) as Hs. unfold get_permissions in E. by rewrite E in Hs. Qed.

(** The permissions of a device are those that some chain grants throughout. *)
Lemma permissions_are_chains m ctx cid dev log now rank :
  (get_permissions m ctx cid dev log now rank = None <-> ~ authorized m ctx cid log rank now dev) /\
  forall p, get_permissions m ctx cid dev log now rank = Some p ->
    if decide (dev = to_physical log) then p = Permissions.ALL
    else forall b, 0 <= b -> Z.testbit p b = true <-> exists path, reaches m ctx cid log rank LEVELS now dev path /\ path_grants path b.
Proof.
  case_decide as Hd.
  - unfold get_permissions, LEVELS, authorized, get_permissions_recursive. rewrite decide_True by done. split; [naive_solver|by intros p [= <-]].
  - split; [|intros p E; by apply permissions_spec_at]. pose proof (permissions_spec m ctx cid log rank LEVELS now dev Hd) as Hs. unfold get_permissions, authorized.
    destruct (get_permissions_recursive _ _ _ _ _ _ _ _); [|naive_solver]. destruct Hs as [Hex _]. naive_solver.
Qed.

Lemma recursive_authorized m ctx cid dev log now rank : dev <> to_physical log ->
  match is_authorized_recursive LEVELS m ctx cid dev log now rank with
  | Some e => exists path, reaches m ctx cid log rank LEVELS now dev path /\ path_expires path = e
  | None => ~ authorized m ctx cid log rank now dev
  end.
Proof.
  intros Hd. pose proof (authorized_spec m ctx cid log rank LEVELS now dev Hd) as Hs. unfold authorized. destruct (is_authorized_recursive _ _ _ _ _ _ _ _); naive_solver.
Qed.

(** ** The tables decide *)

(** Two managers that differ in their cache and members only. *)
Definition same_tables (m m' : t) : Prop := authorized_devices m' = authorized_devices m /\ revoked_devices m' = revoked_devices m.

Lemma tables_count m m' ctx cid dev log now rank r : same_tables m m' -> record_counts m' ctx cid dev log now rank r = record_counts m ctx cid dev log now rank r.
Proof.
  intros [Ea Er]. unfold record_counts. rewrite Er. f_equal. f_equal. induction (default [] (revoked_devices m !! (cid, dev))) as [|v l IH]; [done|]. cbn.
  rewrite IH. f_equal. unfold revokes, is_mutual_revocation. by rewrite Ea, Er.
Qed.

Lemma tables_path m m' ctx cid log rank now dev path : same_tables m m' -> trust_path m ctx cid log rank now dev path -> trust_path m' ctx cid log rank now dev path.
Proof.
  intros Hm. assert (forall d r, counts m ctx cid log rank now d r -> counts m' ctx cid log rank now d r) as Hc.
  { intros d r [Hr Hc]. split; [destruct Hm as [-> _]; done|by rewrite (tables_count m)]. }
  induction 1; [by apply path_direct; [|apply Hc|]|by apply path_via; [|apply Hc| |]].
Qed.

Lemma tables_sym m m' : same_tables m m' -> same_tables m' m.
Proof. intros [Ea Er]. by split. Qed.

Lemma tables_reaches m m' ctx cid log rank levels now dev path : same_tables m m' ->
  reaches m ctx cid log rank levels now dev path <-> reaches m' ctx cid log rank levels now dev path.
Proof. intros Hm. split; intros [Hp Hl]; (split; [|done]); (eapply tables_path; [|exact Hp]); [done|by apply tables_sym]. Qed.

Lemma tables_authorized m m' ctx cid log rank now dev : same_tables m m' ->
  authorized m ctx cid log rank now dev <-> authorized m' ctx cid log rank now dev.
Proof. intros Hm. unfold authorized. by setoid_rewrite (tables_reaches m m' _ _ _ _ _ _ _ _ Hm). Qed.

(** ** The cache *)

(** What a question answers and leaves in the cache: the answer is immediate, kept,
    searched and found, or searched and not found. *)
Lemma ask_spec m ctx cid dev log now rank : let key := (cid, dev, log, evaluating_node_hash ctx) in
  exists m' b, is_authorized m ctx cid dev log now rank = (m', b) /\ same_tables m m' /\ logical_members m' = logical_members m /\
    ((b = true /\ dev = to_physical log /\ contents (path_cache m') = contents (path_cache m)) \/
     (b = true /\ (exists e, contents (path_cache m) !! key = Some e /\ now < e) /\ contents (path_cache m') = contents (path_cache m)) \/
     (b = true /\ exists path, reaches m ctx cid log rank LEVELS now dev path /\ contents (path_cache m') ⊆ <[key := path_expires path]> (contents (path_cache m))) \/
     (b = false /\ ~ authorized m ctx cid log rank now dev /\ contents (path_cache m') = contents (path_cache m))).
Proof.
  intros key. unfold is_authorized. case_decide as Hd; [exists m, true; split_and!; try done; by left|]. fold key.
  destruct (get_contents key (path_cache m)) as [Eget Ec]. destruct (cache_get key (path_cache m)) as [hit c]. cbn [fst snd] in *. set (m1 := m <| path_cache := c |>).
  assert (same_tables m m1) as Hm1 by done. destruct (match hit with Some e => now <? e | None => false end) eqn:Ehit.
  - exists m1, true. split_and!; try done. right; left. split_and!; [done| |exact Ec]. destruct hit as [e|]; [|done]. exists e. split; [exact (eq_sym Eget)|by apply Z.ltb_lt].
  - pose proof (recursive_authorized m1 ctx cid dev log now rank Hd) as Hs. destruct (is_authorized_recursive LEVELS m1 ctx cid dev log now rank) as [e|].
    + destruct Hs as (path & Hp & <-). eexists _, true. split; [done|]. split_and!; try done. right; right; left. split; [done|]. exists path. split; [by apply (tables_reaches m m1)|].
      pose proof (push_contents key (path_expires path) c) as Hpush. rewrite Ec in Hpush. exact Hpush.
    + exists m1, false. split_and!; try done. right; right; right. split_and!; [done| |exact Ec]. intros Ha. destruct Hs. by apply (tables_authorized m m1).
Qed.

(** An evaluating node is always asked about with the same ancestors and rank. *)
Context (view : NodeHash -> CausalContext * Z).
Definition consistent (ctx : CausalContext) (rank : Z) : Prop := view (evaluating_node_hash ctx) = (ctx, rank).

(** What is cached is how long some chain lasts. *)
Definition coherent (m : t) : Prop :=
  forall cid dev log h e, contents (path_cache m) !! (cid, dev, log, h) = Some e ->
    exists then_ path, reaches m (view h).1 cid log (view h).2 LEVELS then_ dev path /\ path_expires path = e.

Lemma coherent_tables m m' : same_tables m m' -> contents (path_cache m') ⊆ contents (path_cache m) -> coherent m -> coherent m'.
Proof.
  intros Hm Hc Hco cid dev log h e He. destruct (Hco cid dev log h e) as (then_ & path & Hr & Ep); [by eapply lookup_weaken|].
  exists then_, path. split; [by apply (tables_reaches m m')|done].
Qed.

Lemma coherent_clear m : contents (path_cache m) = ∅ -> coherent m.
Proof. intros Hc cid dev log h e. by rewrite Hc, lookup_empty. Qed.

(** Asking gives the answer of the tables, cached or not. *)
Lemma is_authorized_exact m ctx cid dev log now rank : coherent m -> consistent ctx rank ->
  exists m' b, is_authorized m ctx cid dev log now rank = (m', b) /\ coherent m' /\ same_tables m m' /\ logical_members m' = logical_members m /\
    (b = true <-> authorized m ctx cid log rank now dev).
Proof.
  intros Hco Hv. destruct (ask_spec m ctx cid dev log now rank) as (m' & b & E & Ht & Hl & Hcase). exists m', b. split; [done|].
  destruct Hcase as [(-> & Hd & Ec)|[(-> & (e & He & Hlt) & Ec)|[(-> & path & Hp & Ec)|(-> & Hn & Ec)]]].
  - split_and!; [by apply (coherent_tables m); [|rewrite Ec|]|done|done|]. split; [by left|done].
  - split_and!; [by apply (coherent_tables m); [|rewrite Ec|]|done|done|]. split; [intros _; right|done].
    destruct (Hco _ _ _ _ _ He) as (then_ & path & [Hp Hlv] & Ep). rewrite Hv in Hp. exists path. split; [|done]. eapply path_at; [exact Hp|lia].
  - split_and!; [|done|done|by split; [intros _; right; eauto|]]. intros cid' dev' log' h e He. eapply lookup_weaken in He; [|exact Ec].
    apply lookup_insert_Some in He as [[[= <- <- <- <-] <-]|[_ He]]; [exists now, path; rewrite Hv; split; [by apply (tables_reaches m)|done]|].
    destruct (Hco cid' dev' log' h e He) as (t' & p' & Hr' & Ep'). exists t', p'. split; [by apply (tables_reaches m)|done].
  - split_and!; [by apply (coherent_tables m); [|rewrite Ec|]|done|done|done].
Qed.

(** ** The operations keep the cache coherent *)

Lemma new_coherent : coherent new.
Proof. apply coherent_clear. apply new_contents. Qed.

Lemma add_member_coherent m cid log role joined : coherent m -> coherent (add_member m cid log role joined).
Proof. by apply coherent_tables. Qed.

Lemma revoke_device_coherent m cid revoker rlog target rank now h : coherent (revoke_device m cid revoker rlog target rank now h).
Proof. apply coherent_clear. apply clear_contents. Qed.

Lemma remove_member_coherent m cid revoker rlog log rank now h : coherent m -> coherent (remove_member m cid revoker rlog log rank now h).
Proof.
  intros Hm. unfold remove_member. set (m1 := m <| logical_members := _ |>). assert (coherent m1) as Hm1 by (by apply (coherent_tables m)).
  set (ds := _ <$> _). clearbody ds m1. clear m Hm. revert m1 Hm1. induction ds as [|d ds IH]; intros m Hm; [done|]. apply IH, revoke_device_coherent.
Qed.

Lemma authorize_clears `{Rmp} `{Ed25519} m ctx cid log cert now rank h m' r :
  authorize_device m ctx cid log cert now rank h = Some (m', r) -> contents (path_cache m') = ∅.
Proof.
  intros E. assert (forall c d x, path_cache (add_record (m <| path_cache := cache_clear (path_cache m) |>) c d x) = cache_clear (path_cache m)) as Ha by done.
  unfold authorize_device in E. repeat (case_match || (apply bind_Some in E as (? & _ & E)) || (apply (inj Some) in E; injection E as <- _); try (cbn; rewrite ?Ha; apply clear_contents)).
Qed.

Lemma authorize_coherent `{Rmp} `{Ed25519} m ctx cid log cert now rank h m' r : authorize_device m ctx cid log cert now rank h = Some (m', r) -> coherent m'.
Proof. intros E. apply coherent_clear. by eapply authorize_clears. Qed.

End Laws.
(** ** Authorization *)

Section Authorize.
Context `{HashOrder} `{LruCacheLaws PathKey Z} `{RmpLaws} `{Ed25519}.

Lemma issuer_record_sound m ctx cid log cert now rank dev records d p : issuer_record m ctx cid log cert now rank dev records = Some (Some (d, p)) ->
  d = dev /\ verify_delegation cert dev now = succeed tt /\ get_permissions m ctx cid dev log now rank = Some p /\ Permissions.contains p Permissions.ADMIN = true.
Proof.
  induction records as [|r records IH]; cbn; [done|]. destruct (_ && _ && _ && _); [|exact IH].
  intros (signed & Es & E)%bind_Some. destruct signed as [[]|e]; cbn in E; [|by apply IH].
  destruct (get_permissions_recursive _ _ _ _ _ _ _ _) as [q|] eqn:Eq; [|by apply IH]. destruct (Permissions.contains q Permissions.ADMIN) eqn:Ec; [|by apply IH].
  injection E as <- <-. done.
Qed.

Lemma find_issuer_sound m ctx cid log cert now rank entries d p : find_issuer m ctx cid log cert now rank entries = Some (Some (d, p)) ->
  verify_delegation cert d now = succeed tt /\ get_permissions m ctx cid d log now rank = Some p /\ Permissions.contains p Permissions.ADMIN = true.
Proof.
  induction entries as [|[[c dev] records] entries IH]; cbn; [done|]. case_bool_decide; cbn; [|exact IH].
  intros (found & Ef & E)%bind_Some. destruct found as [[d' p']|]; [|by apply IH]. injection E as -> ->. by apply issuer_record_sound in Ef as (-> & ?).
Qed.

Lemma issuer_record_returns m ctx cid log cert now rank dev records : sign_data_ok (signed_part cert) -> issuer_record m ctx cid log cert now rank dev records <> None.
Proof.
  intros Hc. induction records as [|r records IH]; cbn; [done|]. destruct (_ && _ && _ && _); [|exact IH].
  destruct (verify_delegation_spec cert dev now Hc) as (b & _ & ->). destruct (cert_expires cert <? now); [exact IH|].
  destruct (_ && _); cbn; [|exact IH]. destruct (get_permissions_recursive _ _ _ _ _ _ _ _); [|exact IH]. by destruct (Permissions.contains _ _).
Qed.

Lemma find_issuer_returns m ctx cid log cert now rank entries : sign_data_ok (signed_part cert) -> find_issuer m ctx cid log cert now rank entries <> None.
Proof.
  intros Hc. induction entries as [|[[c dev] records] entries IH]; cbn; [done|]. case_bool_decide; cbn; [|exact IH].
  pose proof (issuer_record_returns m ctx cid log cert now rank dev records Hc). destruct (issuer_record _ _ _ _ _ _ _ _ _) as [[?|]|]; done.
Qed.

(** What is known of an issuer. *)
Definition entitled (m : t) ctx cid log now rank (issuer : PhysicalDevicePk) (p : Permissions.t) : Prop :=
  issuer = to_physical log \/
  forall b, 0 <= b -> Z.testbit (Permissions.union Permissions.ADMIN p) b = true ->
    exists path, reaches m ctx cid log rank LEVELS now issuer path /\ path_grants path b.

Lemma entitled_of m ctx cid log now rank issuer p q : get_permissions m ctx cid issuer log now rank = Some p ->
  Permissions.contains p Permissions.ADMIN = true -> Permissions.contains p q = true -> entitled m ctx cid log now rank issuer q.
Proof.
  intros Ep Ha Hq. destruct (decide (issuer = to_physical log)) as [Hi|Hi]; [by left|right]. destruct (permissions_are_chains m ctx cid issuer log now rank) as [_ Hp].
  specialize (Hp p Ep). rewrite decide_False in Hp by done. intros b Hb Ht. apply Hp; [done|]. unfold Permissions.union in Ht. rewrite Z.lor_spec in Ht.
  rewrite Permissions.contains_spec in Ha, Hq. apply orb_true_iff in Ht as [Ht|Ht]; auto.
Qed.

(** A certificate is recorded only if its issuer signed it and holds, besides the
    right to delegate, every permission it grants; a refusal changes no table. *)
Lemma authorize_outcome m ctx cid log cert now rank h m' r : authorize_device m ctx cid log cert now rank h = Some (m', r) ->
  revoked_devices m' = revoked_devices m /\ logical_members m' = logical_members m /\
  match r with
  | Err e => authorized_devices m' = authorized_devices m
  | Ok _ => cert_conversation cert = cid /\ exists issuer,
      verify_delegation cert issuer now = succeed tt /\ entitled m ctx cid log now rank issuer (cert_permissions cert) /\
      authorized_devices m' = authorized_devices (add_record m cid (cert_device cert) (mkAuth log issuer (cert_permissions cert) (cert_expires cert) rank h))
  end.
Proof.
  unfold authorize_device. set (m1 := m <| path_cache := _ |>). assert (same_tables m1 m) as Hm by done. assert (authorized_devices m1 = authorized_devices m) as Ed by done.
  case_bool_decide as Hc; cbn [negb]; [|by intros [= <- <-]]. intros (by_master & Em & E)%bind_Some. destruct by_master as [[]|e]; cbn [is_ok] in E.
  { injection E as <- <-. split_and!; [done..|]. exists (to_physical log). split_and!; [done|by left|done]. }
  apply bind_Some in E as (found & Ef & E). destruct found as [[issuer p]|]; [|by injection E as <- <-].
  apply find_issuer_sound in Ef as (Hv & Hp & Ha). destruct (Permissions.contains p (cert_permissions cert)) eqn:Hq; cbn [negb] in E; [|by injection E as <- <-].
  repeat (case_match; [by injection E as <- <-|]). injection E as <- <-. split_and!; [done..|]. exists issuer. split_and!; [done| |done].
  destruct (entitled_of m1 ctx cid log now rank issuer p (cert_permissions cert) Hp Ha Hq) as [|Hb]; [by left|right]. intros b Hb' Ht.
  destruct (Hb b Hb' Ht) as (path & Hr & Hg). exists path. split; [|done]. by apply (tables_reaches m1 m).
Qed.

Lemma authorize_returns m ctx cid log cert now rank h : sign_data_ok (signed_part cert) -> authorize_device m ctx cid log cert now rank h <> None.
Proof.
  intros Hc. unfold authorize_device. set (m1 := m <| path_cache := _ |>). destruct (negb _); [done|].
  assert (exists v, verify_delegation cert log now = Some v) as [v ->].
  { destruct (verify_delegation_spec cert log now Hc) as (b & _ & ->). repeat case_match; eauto. }
  cbn [mbind option_bind]. destruct (is_ok v); [done|]. pose proof (find_issuer_returns m1 ctx cid log cert now rank (iterate (authorized_devices m1)) Hc).
  destruct (find_issuer _ _ _ _ _ _ _ _) as [[[issuer p]|]|]; [|done..]. cbn [mbind option_bind]. by repeat case_match.
Qed.

(** A device that the master key certified, and nobody revoked, is authorized. *)
Lemma certified_authorized m ctx cid log cert now rank h m' : authorize_device m ctx cid log cert now rank h = Some (m', Ok tt) ->
  verify_delegation cert (to_physical log) now = succeed tt -> revoked_devices m !! (cid, cert_device cert) = None -> now < cert_expires cert ->
  is_global ctx = true \/ h = zero_hash \/ h ∈ admin_ancestor_hashes ctx -> authorized m' ctx cid log rank now (cert_device cert).
Proof.
  intros E Hv Hr Hn Hh. destruct (decide (cert_device cert = to_physical log)) as [?|Hd]; [by left|right]. unfold authorize_device in E.
  set (m1 := m <| path_cache := _ |>) in E. case_bool_decide; cbn [negb] in E; [|done]. change (to_physical log) with log in Hv. rewrite Hv in E. cbn in E. injection E as <-.
  set (record := mkAuth log (to_physical log) (cert_permissions cert) (cert_expires cert) rank h). exists [record].
  apply reaches_direct; [done| |done]. split.
  - cbn. rewrite lookup_insert_eq. cbn [from_option id]. case_decide; [done|]. apply elem_of_app. right. by left.
  - unfold record_counts. cbn [logical_pk Identity.expires_at auth_rank auth_hash record revoked_devices add_record]. cbn. rewrite Hr. cbn. rewrite bool_decide_true by done.
    destruct (Z.leb_spec (cert_expires cert) now); [lia|]. destruct (Z.ltb_spec rank rank); [lia|]. cbn. destruct Hh as [->|[->|Hin]]; [done| |].
    + rewrite bool_decide_true by done. cbn. by rewrite andb_false_r.
    + rewrite (bool_decide_true (h ∈ _)) by done. by rewrite andb_false_r.
Qed.

End Authorize.

(** ** Revocation *)

Section Revocation.
Context `{HashOrderLaws} `{LruCacheLaws PathKey Z}.

Lemma ranked_leb_first a b : ranked_leb a b = true -> a.1 <= b.1.
Proof. unfold ranked_leb, ranked_compare. destruct (Z.compare_spec a.1 b.1); [lia..|done]. Qed.

(** Nobody takes a record away from a device that is more senior. *)
Lemma revokes_junior m ctx cid rank r v : revokes m ctx cid rank r v = true -> (revoker_seniority v).1 <= auth_rank r /\ rev_rank v <= rank.
Proof.
  unfold revokes. intros [[_ Hr]%andb_true_iff Hs]%andb_true_iff. apply Z.leb_le in Hr. split; [|done].
  destruct (is_mutual_revocation _ _ _ _); [by apply ranked_leb_first in Hs|by apply Z.leb_le in Hs].
Qed.

(** The master key revokes a device in every view that includes the revocation. *)
Definition sees (ctx : CausalContext) (h : NodeHash) : Prop := h = zero_hash \/ is_global ctx = true \/ h ∈ admin_ancestor_hashes ctx.

Lemma sees_true ctx h : sees ctx h -> bool_decide (h = zero_hash) || is_global ctx || bool_decide (h ∈ admin_ancestor_hashes ctx) = true.
Proof. intros [E|[E|E]]; [by rewrite bool_decide_true|rewrite E; by rewrite orb_true_r|rewrite (bool_decide_true _ E); by rewrite orb_true_r]. Qed.

Definition ranks_ok (m : t) : Prop := forall k l r, authorized_devices m !! k = Some l -> r ∈ l -> 0 <= auth_rank r.

Lemma master_revocation_cuts m ctx cid rlog target rank now h log rank' now' r : ranks_ok m -> sees ctx h -> rank <= rank' ->
  ~ counts (revoke_device m cid (to_physical rlog) rlog target rank now h) ctx cid log rank' now' target r.
Proof.
  intros Hok Hh Hr [Hin Hc]. change (authorized_devices (revoke_device m cid (to_physical rlog) rlog target rank now h)) with (authorized_devices m) in Hin.
  destruct (authorized_devices m !! (cid, target)) as [l|] eqn:El; [|by apply not_elem_of_nil in Hin]. cbn [from_option id] in Hin. specialize (Hok _ _ _ El Hin).
  unfold record_counts in Hc. apply andb_true_iff in Hc as [_ Hc]. apply negb_true_iff, not_true_iff_false in Hc. apply Hc. apply existsb_exists.
  exists (mkRevocation rank (0, zero_hash) h). split.
  - unfold revoke_device. cbn. rewrite lookup_insert_eq. cbn [from_option id]. apply in_or_app. right. left. by rewrite decide_True.
  - unfold revokes. cbn [revocation_hash rev_rank revoker_seniority fst snd]. rewrite (sees_true _ _ Hh). destruct (Z.leb_spec rank rank'); [|lia]. cbn [andb].
    unfold is_mutual_revocation. rewrite bool_decide_true by done. cbn. by apply Z.leb_le.
Qed.

(** No chain leads through a device that the master key revoked. *)
Lemma revoked_by_master m ctx cid rlog target rank now h log rank' now' dev path : ranks_ok m -> sees ctx h -> rank <= rank' ->
  target <> to_physical log ->
  trust_path (revoke_device m cid (to_physical rlog) rlog target rank now h) ctx cid log rank' now' dev path ->
  dev <> target /\ forall r, r ∈ path -> issuer_pk r <> target.
Proof.
  intros Hok Hh Hr Ht. assert (forall d r, counts (revoke_device m cid (to_physical rlog) rlog target rank now h) ctx cid log rank' now' d r -> d <> target) as Hne.
  { intros d r Hc ->. by apply (master_revocation_cuts m ctx cid rlog target rank now h log rank' now' r). }
  induction 1 as [d r Hd Hc Hi|d r path Hd Hc Hi Hp [IHd IH]]; (split; [by eapply Hne|]).
  - intros s ->%list_elem_of_singleton. by rewrite Hi.
  - intros s [->|Hs]%elem_of_cons; [done|by apply IH].
Qed.

(** ** Mutual revocation *)

(** [hash] names the record of one device only. *)
Definition owned (m : t) (cid : ConversationId) (hash : NodeHash) (dev : PhysicalDevicePk) : Prop :=
  forall d l r, authorized_devices m !! (cid, d) = Some l -> r ∈ l -> auth_hash r = hash -> d = dev.

Lemma mutual_spec m cid revoker_hash target_hash dev l revs : revoker_hash <> zero_hash -> target_hash <> zero_hash -> owned m cid revoker_hash dev ->
  authorized_devices m !! (cid, dev) = Some l -> (exists r, r ∈ l /\ auth_hash r = revoker_hash) -> revoked_devices m !! (cid, dev) = Some revs ->
  is_mutual_revocation m cid revoker_hash target_hash = existsb (fun r => bool_decide ((revoker_seniority r).2 = target_hash)) revs.
Proof.
  intros Hz1 Hz2 Hown El (r & Hr & Er) Erev. unfold is_mutual_revocation. rewrite !bool_decide_false by done. cbn [orb].
  assert (forall c d records, In ((c, d), records) (iterate (authorized_devices m)) <-> authorized_devices m !! (c, d) = Some records) as Hin.
  { intros c d records. by rewrite <- list_elem_of_In, iterate_perm, elem_of_map_to_list. }
  destruct (List.find _ _) as [[[c d] records]|] eqn:Ef.
  - apply find_some in Ef as [Hf Hp]. apply andb_true_iff in Hp as [->%bool_decide_eq_true Hp]. apply existsb_exists in Hp as (s & Hs%list_elem_of_In & Es%bool_decide_eq_true).
    apply Hin in Hf. rewrite (Hown d records s Hf Hs Es). by rewrite Erev.
  - exfalso. pose proof (find_none _ _ Ef ((cid, dev), l) ltac:(by apply Hin)) as Hno. cbn in Hno. rewrite bool_decide_true in Hno by done. cbn in Hno.
    apply not_true_iff_false in Hno. apply Hno. apply existsb_exists. exists r. split; [by apply list_elem_of_In|by apply bool_decide_eq_true].
Qed.

(** A device with one record that makes it an admin. *)
Record admin_of (m : t) (cid : ConversationId) (dev : PhysicalDevicePk) (r : AuthRecord) (now rank : Z) : Prop := {
  adm_record : authorized_devices m !! (cid, dev) = Some [r];
  adm_not_master : dev <> to_physical (logical_pk r);
  adm_admin : Permissions.contains (permissions r) Permissions.ADMIN = true;
  adm_live : now < expires_at r;
  adm_rank : 0 <= auth_rank r <= rank;
  adm_below : auth_rank r < u64_max;
  adm_hash : auth_hash r <> zero_hash;
  adm_owned : owned m cid (auth_hash r) dev
}.

Lemma revoker_seniority_of m cid dev r now rank : admin_of m cid dev r now rank ->
  seniority_of (default [] (authorized_devices m !! (cid, dev))) (logical_pk r) rank now = (auth_rank r, auth_hash r).
Proof.
  intros [El _ Ha Hl Hr Hb _ _]. rewrite El. cbn [from_option id]. unfold seniority_of. cbn [foldl]. rewrite bool_decide_true by done. rewrite Ha.
  destruct (Z.ltb_spec now (expires_at r)); [|lia]. destruct (Z.leb_spec (auth_rank r) rank); [|lia]. cbn [andb].
  unfold ranked_ltb, ranked_compare. cbn [fst snd]. destruct (Z.compare_spec (auth_rank r) u64_max); [lia|done|lia].
Qed.

(** Whether the only revocation of a device takes its only record away. *)
Lemma counts_alone m cid dev r now rank v : authorized_devices m !! (cid, dev) = Some [r] -> revoked_devices m !! (cid, dev) = Some [v] ->
  now < expires_at r -> auth_rank r <= rank ->
  record_counts m global cid dev (logical_pk r) now rank r = negb (revokes m global cid rank r v).
Proof.
  intros El Ev Hl Hr. unfold record_counts. rewrite Ev. rewrite bool_decide_true by done. destruct (Z.leb_spec (expires_at r) now); [lia|].
  destruct (Z.ltb_spec rank (auth_rank r)); [lia|]. cbn. by rewrite orb_false_r.
Qed.

Lemma mutual_revocation m cid a b ra rb now ranka rankb rank ha hb : a <> b ->
  admin_of m cid a ra now ranka -> admin_of m cid b rb now rankb -> ranka <= rank -> rankb <= rank ->
  revoked_devices m !! (cid, a) = None -> revoked_devices m !! (cid, b) = None ->
  let m1 := revoke_device m cid a (logical_pk ra) b ranka now ha in
  let m2 := revoke_device m1 cid b (logical_pk rb) a rankb now hb in
  record_counts m2 global cid a (logical_pk ra) now rank ra = ranked_ltb (auth_rank ra, auth_hash ra) (auth_rank rb, auth_hash rb) /\
  record_counts m2 global cid b (logical_pk rb) now rank rb = ranked_ltb (auth_rank rb, auth_hash rb) (auth_rank ra, auth_hash ra).
Proof.
  intros Hab Ha Hb Hra Hrb Na Nb m1 m2. pose proof (revoker_seniority_of _ _ _ _ _ _ Ha) as Sa. pose proof (revoker_seniority_of _ _ _ _ _ _ Hb) as Sb.
  destruct Ha as [Ela Hma _ Hla Hka _ Hza Hoa], Hb as [Elb Hmb _ Hlb Hkb _ Hzb Hob].
  assert (authorized_devices m2 = authorized_devices m) as Ed by done.
  assert (revoked_devices m2 !! (cid, b) = Some [mkRevocation ranka (auth_rank ra, auth_hash ra) ha]) as Eb.
  { unfold m2, m1, revoke_device. cbn. rewrite lookup_insert_ne by congruence. rewrite lookup_insert_eq, Nb. cbn. rewrite decide_False by done. by rewrite Sa. }
  assert (revoked_devices m2 !! (cid, a) = Some [mkRevocation rankb (auth_rank rb, auth_hash rb) hb]) as Ea.
  { unfold m2, revoke_device at 1. cbn. rewrite lookup_insert_eq. rewrite lookup_insert_ne by congruence. rewrite Na. cbn. rewrite decide_False by done. by rewrite Sb. }
  assert (is_mutual_revocation m2 cid (auth_hash rb) (auth_hash ra) = true) as Mab.
  { rewrite (mutual_spec m2 cid _ _ b [rb] _ Hzb Hza Hob Elb ltac:(exists rb; by split; [left|]) Eb). cbn. by rewrite bool_decide_true. }
  assert (is_mutual_revocation m2 cid (auth_hash ra) (auth_hash rb) = true) as Mba.
  { rewrite (mutual_spec m2 cid _ _ a [ra] _ Hza Hzb Hoa Ela ltac:(exists ra; by split; [left|]) Ea). cbn. by rewrite bool_decide_true. }
  rewrite (counts_alone m2 cid a ra now rank _ Ela Ea) by lia. rewrite (counts_alone m2 cid b rb now rank _ Elb Eb) by lia.
  unfold revokes. cbn [revocation_hash rev_rank revoker_seniority fst snd]. rewrite Mab, Mba, !ranked_leb_total.
  destruct (Z.leb_spec ranka rank); [|lia]. destruct (Z.leb_spec rankb rank); [|lia]. assert (is_global global = true) as -> by done. rewrite !orb_true_r. cbn. by rewrite !negb_involutive.
Qed.

End Revocation.

(** ** Properties *)

Section Properties.
Context `{HashOrderLaws} `{LruCacheLaws PathKey Z} `{RmpLaws} `{Ed25519Laws}.

(** A question: the context, conversation, device, identity and rank. *)
Definition Question : Type := CausalContext * ConversationId * PhysicalDevicePk * LogicalIdentityPk * Z.

(** What may happen to a manager, with the questions that were asked of it since the
    last revocation or authorization. *)
Inductive history : list Question -> t -> Prop :=
| history_new : history [] new
| history_add qs m cid log role joined : history qs m -> history qs (add_member m cid log role joined)
| history_remove qs m cid revoker rlog log rank now h : history qs m -> history qs (remove_member m cid revoker rlog log rank now h)
| history_revoke qs m cid revoker rlog target rank now h : history qs m -> history [] (revoke_device m cid revoker rlog target rank now h)
| history_authorize qs m ctx cid log cert now rank h m' r : history qs m -> authorize_device m ctx cid log cert now rank h = Some (m', r) -> history [] m'
| history_ask qs m ctx cid dev log now rank : history qs m -> history ((ctx, cid, dev, log, rank) :: qs) (is_authorized m ctx cid dev log now rank).1.

(** What is cached is how long some chain lasts, for a question that was asked. *)
Definition explained (qs : list Question) (m : t) : Prop :=
  forall cid dev log h e, contents (path_cache m) !! (cid, dev, log, h) = Some e ->
    exists ctx rank then_ path, (ctx, cid, dev, log, rank) ∈ qs /\ evaluating_node_hash ctx = h /\
      reaches m ctx cid log rank LEVELS then_ dev path /\ path_expires path = e.

Lemma explained_clear qs m : contents (path_cache m) = ∅ -> explained qs m.
Proof. intros Hc cid dev log h e. by rewrite Hc, lookup_empty. Qed.

Lemma explained_tables qs qs' m m' : same_tables m m' -> contents (path_cache m') ⊆ contents (path_cache m) -> (forall q, q ∈ qs -> q ∈ qs') -> explained qs m -> explained qs' m'.
Proof.
  intros Hm Hc Hq He cid dev log h e Hl. destruct (He cid dev log h e) as (ctx & rank & then_ & path & Hin & Eh & Hr & Ep); [by eapply lookup_weaken|].
  exists ctx, rank, then_, path. split_and!; [by apply Hq|done|by apply (tables_reaches m m')|done].
Qed.

Lemma remove_explained qs m cid revoker rlog log rank now h : explained qs m -> explained qs (remove_member m cid revoker rlog log rank now h).
Proof.
  intros Hm. unfold remove_member. set (m1 := m <| logical_members := _ |>). assert (explained qs m1) as Hm1 by (by apply (explained_tables qs _ m)).
  set (ds := _ <$> _). clearbody ds m1. clear m Hm. revert m1 Hm1. induction ds as [|d ds IH]; intros m Hm; [done|]. apply IH, explained_clear, clear_contents.
Qed.

Lemma ask_explained qs m ctx cid dev log now rank : explained qs m -> explained ((ctx, cid, dev, log, rank) :: qs) (is_authorized m ctx cid dev log now rank).1.
Proof.
  intros Hex. destruct (ask_spec m ctx cid dev log now rank) as (m' & b & -> & Ht & _ & Hcase). cbn [fst].
  assert (contents (path_cache m') ⊆ contents (path_cache m) -> explained ((ctx, cid, dev, log, rank) :: qs) m') as Hsub.
  { intros Hc. apply (explained_tables qs _ m); [done|done| |done]. intros q Hq. by right. }
  destruct Hcase as [(_ & _ & Ec)|[(_ & _ & Ec)|[(_ & path & Hp & Ec)|(_ & _ & Ec)]]]; [by apply Hsub; rewrite Ec..| |by apply Hsub; rewrite Ec].
  intros cid' dev' log' h e He. eapply lookup_weaken in He; [|exact Ec]. apply lookup_insert_Some in He as [[[= <- <- <- <-] <-]|[_ He]].
  - exists ctx, rank, now, path. split_and!; [left|done|by apply (tables_reaches m)|done].
  - destruct (Hex cid' dev' log' h e He) as (ctx' & rank' & t' & p' & Hin & Eh & Hr & Ep). exists ctx', rank', t', p'. split_and!; [by right|done|by apply (tables_reaches m)|done].
Qed.

Lemma history_explained qs m : history qs m -> explained qs m.
Proof.
  induction 1 as [|qs m cid log role joined _ IH|qs m cid revoker rlog log rank now h _ IH|qs m cid revoker rlog target rank now h _ _|qs m ctx cid log cert now rank h m' r _ _ E|
    qs m ctx cid dev log now rank _ IH].
  - apply explained_clear, new_contents.
  - by apply (explained_tables qs _ m).
  - by apply remove_explained.
  - apply explained_clear, clear_contents.
  - apply explained_clear. by eapply authorize_clears.
  - by apply ask_explained.
Qed.

(** C3: [is_authorized], with its cache, in any state that a manager can reach.  A yes
    is never missed: it says yes whenever a chain of at most 17 counting records leads
    from the device to the master key.  Since the key of the cache leaves out the rank,
    a yes may be the answer to another question: then, for some question
    asked since the last revocation or authorization about the same device, identity
    and node, there still is a chain.  When all these were asked with the same rank and
    ancestors, the answer is yes exactly if there is a chain.  Asking changes neither
    records nor members. *)
Theorem cached_answers_exact qs m ctx cid dev log now rank : history qs m ->
  exists m' b, is_authorized m ctx cid dev log now rank = (m', b) /\ same_tables m m' /\ logical_members m' = logical_members m /\
    (authorized m ctx cid log rank now dev -> b = true) /\
    (b = true -> exists ctx' rank', (ctx', cid, dev, log, rank') ∈ (ctx, cid, dev, log, rank) :: qs /\
       evaluating_node_hash ctx' = evaluating_node_hash ctx /\ authorized m ctx' cid log rank' now dev) /\
    ((forall ctx' rank', (ctx', cid, dev, log, rank') ∈ qs -> evaluating_node_hash ctx' = evaluating_node_hash ctx -> ctx' = ctx /\ rank' = rank) ->
       b = true <-> authorized m ctx cid log rank now dev).
Proof.
  intros Hex%history_explained. destruct (ask_spec m ctx cid dev log now rank) as (m' & b & E & Ht & Hl & Hcase). exists m', b. split_and!; [done|done|done|..].
  all: assert (authorized m ctx cid log rank now dev -> b = true) as Hyes by (by destruct Hcase as [(-> & _)|[(-> & _)|[(-> & _)|(_ & Hn & _)]]]).
  all: assert (b = true -> exists ctx' rank', (ctx', cid, dev, log, rank') ∈ (ctx, cid, dev, log, rank) :: qs /\
       evaluating_node_hash ctx' = evaluating_node_hash ctx /\ authorized m ctx' cid log rank' now dev) as Hsome.
  all: try (intros ->; destruct Hcase as [(_ & Hd & _)|[(_ & (e & He & Hlt) & _)|[(_ & path & Hp & _)|([=] & _)]]]).
  all: try (exists ctx, rank; split_and!; [left|done|by left]). all: try (exists ctx, rank; split_and!; [left|done|right; by exists path]).
  all: try (destruct (Hex _ _ _ _ _ He) as (ctx' & rank' & then_ & path & Hin & Eh & [Hp Hlv] & Ep); exists ctx', rank'; split_and!; [by right|done|right; exists path; split; [eapply path_at; [exact Hp|lia]|done]]).
  - done.
  - intros Hone. split; [|done]. intros (ctx' & rank' & [[= -> ->]|Hin]%elem_of_cons & Eh & Ha)%Hsome; [done|]. by destruct (Hone _ _ Hin Eh) as [-> ->].
Qed.

(** C21: The effective permissions of a device are the union over its chains of the
    intersection along each chain; a device without a chain has none. *)
Theorem permissions_exact m ctx cid dev log now rank :
  (get_permissions m ctx cid dev log now rank = None <-> ~ authorized m ctx cid log rank now dev) /\
  forall p, get_permissions m ctx cid dev log now rank = Some p ->
    if decide (dev = to_physical log) then p = Permissions.ALL
    else forall b, 0 <= b -> Z.testbit p b = true <-> exists path, reaches m ctx cid log rank LEVELS now dev path /\ path_grants path b.
Proof. apply permissions_are_chains. Qed.

(** C4: Authorizing a device returns, whatever the certificate; it records the
    certificate only if its issuer signed it, for this conversation, and holds the
    right to delegate and every permission that it grants; a refusal changes neither
    records, revocations nor members. *)
Theorem authorize_never_escalates m ctx cid log cert now rank h : sign_data_ok (signed_part cert) ->
  exists m' r, authorize_device m ctx cid log cert now rank h = Some (m', r) /\
    revoked_devices m' = revoked_devices m /\ logical_members m' = logical_members m /\
    match r with
    | Err e => authorized_devices m' = authorized_devices m
    | Ok _ => cert_conversation cert = cid /\ exists issuer,
        verify_delegation cert issuer now = succeed tt /\ entitled m ctx cid log now rank issuer (cert_permissions cert) /\
        authorized_devices m' = authorized_devices (add_record m cid (cert_device cert) (mkAuth log issuer (cert_permissions cert) (cert_expires cert) rank h))
    end.
Proof.
  intros Hc. pose proof (authorize_returns m ctx cid log cert now rank h Hc) as Hr. destruct (authorize_device m ctx cid log cert now rank h) as [[m' r]|] eqn:E; [|done].
  exists m', r. split; [done|]. by apply authorize_outcome in E.
Qed.

(** A certificate signed with a master key is accepted until it expires, and its
    device is then authorized in every view that includes it, until revoked. *)
Theorem delegation_takes_effect m ctx cid sk device p e now rank h :
  sign_data_ok (mkSignData DELEGATION_VERSION cid device p e) -> now < e -> revoked_devices m !! (cid, device) = None -> sees ctx h ->
  exists cert m', sign_delegation sk device p e cid = Some cert /\
    authorize_device m ctx cid (verifying_key sk) cert now rank h = Some (m', Ok tt) /\ authorized m' ctx cid (verifying_key sk) rank now device.
Proof.
  intros Hs He Hr Hh. destruct (delegation_verifies sk device p e cid now Hs ltac:(lia)) as (cert & Ec & Hv & <- & <- & <- & <-).
  exists cert. assert (exists m', authorize_device m ctx (cert_conversation cert) (verifying_key sk) cert now rank h = Some (m', Ok tt)) as [m' E].
  { unfold authorize_device. rewrite bool_decide_true by done. cbn [negb]. rewrite Hv. by eexists. }
  exists m'. split_and!; [done|done|]. eapply certified_authorized; try done. unfold sees in Hh. naive_solver.
Qed.

(** C23: Once the master key revoked a device, no chain leads through it in any view
    that includes the revocation, at any later time. *)
Theorem master_revocation_final m ctx cid rlog target rank now h log rank' now' dev path : ranks_ok m -> sees ctx h -> rank <= rank' ->
  target <> to_physical log ->
  trust_path (revoke_device m cid (to_physical rlog) rlog target rank now h) ctx cid log rank' now' dev path ->
  dev <> target /\ forall r, r ∈ path -> issuer_pk r <> target.
Proof. apply revoked_by_master. Qed.

(** C22: When two admins revoke each other, the record that counts afterwards is that
    of the senior one, by rank and then by hash, in whatever order the revocations
    arrive. *)
Theorem mutual_revocation_senior_wins m cid a b ra rb now ranka rankb rank ha hb : a <> b ->
  admin_of m cid a ra now ranka -> admin_of m cid b rb now rankb -> ranka <= rank -> rankb <= rank ->
  revoked_devices m !! (cid, a) = None -> revoked_devices m !! (cid, b) = None ->
  let m1 := revoke_device m cid a (logical_pk ra) b ranka now ha in
  let m2 := revoke_device m1 cid b (logical_pk rb) a rankb now hb in
  record_counts m2 global cid a (logical_pk ra) now rank ra = ranked_ltb (auth_rank ra, auth_hash ra) (auth_rank rb, auth_hash rb) /\
  record_counts m2 global cid b (logical_pk rb) now rank rb = ranked_ltb (auth_rank rb, auth_hash rb) (auth_rank ra, auth_hash ra).
Proof. apply mutual_revocation. Qed.

End Properties.

(** ** Instances of the properties *)

Import Models Format.

Definition room : ConversationId := replicate 32 9.
Definition device (b : Z) : PhysicalDevicePk := replicate 32 b.
Definition record (log : Z) (r h : Z) : AuthRecord := mkAuth (device log) (device log) Permissions.ALL 9000 r (device h).
(** Two admins of two identities. *)
Definition two_admins : @t (@map_cache PathKey Z _ _) := mk {[(room, device 11) := [record 1 1 21]; (room, device 12) := [record 2 2 22]]} ∅ ∅ ∅.
Definition no_devices : @t (@map_cache PathKey Z _ _) := new.
Definition room_data : DelegationSignData := mkSignData DELEGATION_VERSION room (device 11) Permissions.ALL 9000.
Definition room_cert : DelegationCertificate := mkCert DELEGATION_VERSION room (device 11) Permissions.ALL 9000 (replicate 64 0).

Lemma room_data_ok : sign_data_ok room_data.
Proof. repeat split; try by vm_compute. all: by repeat constructor. Qed.

(** Device 11 is authorized by the master key from rank 5 on, and asked about. *)
Definition signed_cert : DelegationCertificate := default room_cert (sign_delegation (device 1) (device 11) Permissions.ALL 9000 room).
Definition delegated : @t (@map_cache PathKey Z _ _) :=
  match authorize_device no_devices global room (device 1) signed_cert 100 5 (device 30) with Some (m, _) => m | None => no_devices end.
Definition asked : @t (@map_cache PathKey Z _ _) := (is_authorized delegated global room (device 11) (device 1) 100 5).1.

Lemma delegated_history : history [] delegated.
Proof.
  unfold delegated. destruct (authorize_device no_devices global room (device 1) signed_cert 100 5 (device 30)) as [[m r]|] eqn:E; [|constructor].
  eapply history_authorize; [constructor|exact E].
Qed.

Lemma asked_alike ctx' rank' : (ctx', room, device 11, device 1, rank') ∈ [(global, room, device 11, device 1, 5)] ->
  evaluating_node_hash ctx' = evaluating_node_hash global -> ctx' = global /\ rank' = 5.
Proof. intros Hq _. apply list_elem_of_singleton in Hq. injection Hq as -> ->. split; reflexivity. Qed.

Lemma cached_answers_exact_witness : exists m' b, is_authorized asked global room (device 11) (device 1) 200 5 = (m', b) /\ b = true /\
  authorized asked global room (device 1) 5 200 (device 11).
Proof.
  destruct (cached_answers_exact [(global, room, device 11, device 1, 5)] asked global room (device 11) (device 1) 200 5 (history_ask [] delegated global room (device 11) (device 1) 100 5 delegated_history))
    as (m' & b & E & _ & _ & _ & _ & Hb).
  assert (b = true) as -> by (assert ((is_authorized asked global room (device 11) (device 1) 200 5).2 = true) as E2 by (vm_compute; reflexivity); rewrite E in E2; exact E2).
  exists m', true. split; [exact E|]. split; [reflexivity|]. exact (proj1 (Hb asked_alike) eq_refl).
Defined.

(** A kept yes is given for another rank, at which the device was not yet authorized. *)
Example rank_forgotten : (is_authorized asked global room (device 11) (device 1) 100 4).2 = true /\
  (is_authorized delegated global room (device 11) (device 1) 100 4).2 = false.
Proof. by vm_compute. Qed.

Lemma authorize_never_escalates_witness : exists m' r,
  authorize_device two_admins global room (device 2) room_cert 100 5 (device 30) = Some (m', r) /\
    revoked_devices m' = revoked_devices two_admins /\ logical_members m' = logical_members two_admins /\
    match r with
    | Err e => authorized_devices m' = authorized_devices two_admins
    | Ok _ => cert_conversation room_cert = room /\ exists issuer,
        verify_delegation room_cert issuer 100 = succeed tt /\ entitled two_admins global room (device 2) 100 5 issuer (cert_permissions room_cert) /\
        authorized_devices m' = authorized_devices (add_record two_admins room (cert_device room_cert) (mkAuth (device 2) issuer (cert_permissions room_cert) (cert_expires room_cert) 5 (device 30)))
    end.
Proof. apply (authorize_never_escalates two_admins). exact room_data_ok. Defined.

Lemma delegation_takes_effect_witness : exists cert m', sign_delegation (device 1) (device 11) Permissions.ALL 9000 room = Some cert /\
  authorize_device no_devices global room (verifying_key (device 1)) cert 100 5 (device 30) = Some (m', Ok tt) /\ authorized m' global room (verifying_key (device 1)) 5 100 (device 11).
Proof. apply (delegation_takes_effect no_devices global room (device 1) (device 11) Permissions.ALL 9000 100 5 (device 30)); [apply room_data_ok|done|done|by right; left]. Defined.

Lemma ranks_ok_example : ranks_ok two_admins.
Proof.
  intros k l r Hl Hr. cbn in Hl. apply lookup_insert_Some in Hl as [[_ <-]|[_ Hl]]; [|apply lookup_singleton_Some in Hl as [_ <-]];
    apply list_elem_of_singleton in Hr as ->; by vm_compute.
Qed.

(** The master of identity 1 revoked device 11; device 12 of identity 2 is not affected. *)
Definition after_revocation := revoke_device two_admins room (device 1) (device 1) (device 11) 3 100 (device 30).

Lemma record_kept : record 2 2 22 ∈ default [] (authorized_devices after_revocation !! (room, device 12)).
Proof. assert (E : authorized_devices after_revocation !! (room, device 12) = Some [record 2 2 22]) by by vm_compute. rewrite E. left. Qed.
Lemma path_example : trust_path after_revocation global room (device 2) 5 200 (device 12) [record 2 2 22].
Proof. apply path_direct; [by vm_compute| |by vm_compute]. split; [exact record_kept|by vm_compute]. Qed.

Lemma master_revocation_final_witness : device 12 <> device 11 /\ forall r, r ∈ [record 2 2 22] -> issuer_pk r <> device 11.
Proof.
  apply (master_revocation_final two_admins global room (device 1) (device 11) 3 100 (device 30) (device 2) 5 200 (device 12) [record 2 2 22] ranks_ok_example);
    [by right; left|lia|by vm_compute|exact path_example].
Defined.

Lemma owned_examples : owned two_admins room (device 21) (device 11) /\ owned two_admins room (device 22) (device 12).
Proof.
  split; intros d l r Hl Hr E; cbn in Hl; (apply lookup_insert_Some in Hl as [[Ek <-]|[_ Hl]]; [|apply lookup_singleton_Some in Hl as [Ek <-]]);
    apply list_elem_of_singleton in Hr as ->; first [by vm_compute in E|by injection Ek as <-].
Qed.

Lemma admin_examples : admin_of two_admins room (device 11) (record 1 1 21) 100 3 /\ admin_of two_admins room (device 12) (record 2 2 22) 100 4.
Proof. split; constructor; try apply owned_examples; by vm_compute. Qed.

Lemma mutual_revocation_senior_wins_witness :
  let m1 := revoke_device two_admins room (device 11) (logical_pk (record 1 1 21)) (device 12) 3 100 (device 30) in
  let m2 := revoke_device m1 room (device 12) (logical_pk (record 2 2 22)) (device 11) 4 100 (device 31) in
  record_counts m2 global room (device 11) (logical_pk (record 1 1 21)) 100 5 (record 1 1 21) = ranked_ltb (1, device 21) (2, device 22) /\
  record_counts m2 global room (device 12) (logical_pk (record 2 2 22)) 100 5 (record 2 2 22) = ranked_ltb (2, device 22) (1, device 21).
Proof.
  exact (mutual_revocation_senior_wins two_admins room (device 11) (device 12) (record 1 1 21) (record 2 2 22) 100 3 4 5 (device 30) (device 31)
    ltac:(by vm_compute) (proj1 admin_examples) (proj2 admin_examples) ltac:(lia) ltac:(lia) eq_refl eq_refl).
Defined.

End IdentityLaws.
