(* ===== verification/Conversation.v ===== *)
(** The keys of a conversation ([merkle-tox-core/src/engine/conversation.rs]):
    epochs, the ratchet of each sender, keys of messages that were skipped, and the
    search for the sender of an encrypted node.

    Hash maps are [gmap], traversed in the order of [HashOrder].  Sequence numbers
    hold the epoch in their upper 32 bits.  [None] is a panic. *)

From S2P Require Import Prelude Protocol MsgPack ToxTypes Derive Merkle Dag DagWire Identity.
From stdpp Require Import gmap sorting strings.
#[local] Open Scope Z_scope.
#[local] Open Scope list_scope.

Module Conversation.
Import Dag Crypto DagWire.

Definition FLAG_ADMIN_ONLY_INVITE : Z := 1.
Definition FLAG_MEMBER_INVITE : Z := 2.

Definition Vouchers : Type := gmap NodeHash (gmap PhysicalDevicePk Z).

Record Pending := mkPending {
  speculative_nodes : gset NodeHash;
  pending_vouchers : Vouchers;
  pending_flags : Z
}.
#[global] Instance eta_Pending : Settable Pending := fun p => mkPending (speculative_nodes p) (pending_vouchers p) (pending_flags p).

(** Last sequence number, next chain key, last node, epoch. *)
Record Ratchet := mkRatchet { last_seq : Z; next_key : ChainKey; last_node : option NodeHash; ratchet_epoch : Z }.
#[global] Instance eta_Ratchet : Settable Ratchet := fun r => mkRatchet (last_seq r) (next_key r) (last_node r) (ratchet_epoch r).

Record Established := mkEstablished {
  epochs : gmap Z ConversationKeys;
  sender_ratchets : gmap PhysicalDevicePk Ratchet;
  skipped_keys : gmap (PhysicalDevicePk * Z) (MessageKey * Z);
  current_epoch : Z;
  message_count : Z;
  last_rotation_time_ms : Z;
  vouchers : Vouchers;
  sender_keys : gmap (PhysicalDevicePk * Z) SenderKey;
  shared_keys_sent_to : gset PhysicalDevicePk;
  jit_headers : gmap (PhysicalDevicePk * Z) HeaderKey;
  identity_pending : bool;
  genesis_flags : Z;
  self_message_count : Z;
  self_last_rekey_time_ms : Z
}.
#[global] Instance eta_Established : Settable Established := fun s =>
  mkEstablished (epochs s) (sender_ratchets s) (skipped_keys s) (current_epoch s) (message_count s) (last_rotation_time_ms s) (vouchers s)
    (sender_keys s) (shared_keys_sent_to s) (jit_headers s) (identity_pending s) (genesis_flags s) (self_message_count s) (self_last_rekey_time_ms s).

Record ConversationData (S : Type) := mkConversation { id : ConversationId; state : S }.
Arguments mkConversation {S} id state.
Arguments id {S} _.
Arguments state {S} _.

Inductive Conversation :=
| PendingConv (c : ConversationData Pending)
| EstablishedConv (c : ConversationData Established).

Definition conversation_id (c : Conversation) : ConversationId := match c with PendingConv c => id c | EstablishedConv c => id c end.
Definition is_established (c : Conversation) : bool := match c with EstablishedConv _ => true | _ => false end.
Definition flags_of (c : Conversation) : Z := match c with PendingConv c => pending_flags (state c) | EstablishedConv c => genesis_flags (state c) end.
Definition set_genesis_flags (c : Conversation) (flags : Z) : Conversation :=
  match c with
  | PendingConv c => PendingConv (mkConversation (id c) ((state c) <| pending_flags := flags |>))
  | EstablishedConv c => EstablishedConv (mkConversation (id c) ((state c) <| genesis_flags := flags |>))
  end.
(** [vouchers], and assignment through [vouchers_mut] *)
Definition vouchers_of (c : Conversation) : Vouchers := match c with PendingConv c => pending_vouchers (state c) | EstablishedConv c => vouchers (state c) end.
Definition set_vouchers (c : Conversation) (v : Vouchers) : Conversation :=
  match c with
  | PendingConv c => PendingConv (mkConversation (id c) ((state c) <| pending_vouchers := v |>))
  | EstablishedConv c => EstablishedConv (mkConversation (id c) ((state c) <| vouchers := v |>))
  end.

Definition new_pending (conversation : ConversationId) : ConversationData Pending := mkConversation conversation (mkPending ∅ ∅ 0).
Definition record_speculative (c : ConversationData Pending) (hash : NodeHash) : ConversationData Pending :=
  mkConversation (id c) ((state c) <| speculative_nodes := speculative_nodes (state c) ∪ {[hash]} |>).

(** The limit of a skip, and how long skipped keys are kept. *)
Definition MAX_SKIP : Z := 2000.
Definition MAX_RATCHET_SKIP : nat := 2000.
Definition SKIPPED_TTL_MS : Z := 86400000.

Section Keys.
Context `{Blake3Hash}.

Definition establish (c : ConversationData Pending) (initial_k_conv : KConv) (now_ms epoch : Z) : ConversationData Established :=
  mkConversation (id c)
    (mkEstablished {[epoch := derive_keys initial_k_conv]} ∅ ∅ epoch 0 now_ms (pending_vouchers (state c)) ∅ ∅ ∅ false (pending_flags (state c)) 0 now_ms).

Definition new_established (conversation : ConversationId) (initial_k_conv : KConv) (now_ms : Z) : ConversationData Established :=
  mkConversation conversation (mkEstablished {[0 := derive_keys initial_k_conv]} ∅ ∅ 0 0 now_ms ∅ ∅ ∅ ∅ false 0 0 now_ms).

Definition get_keys (s : Established) (epoch : Z) : option ConversationKeys := epochs s !! epoch.

Definition rotate (s : Established) (new_k_conv : KConv) (now_ms : Z) : option (Established * Z) :=
  e ← chk_u64 (current_epoch s + 1);
  Some (s <| current_epoch := e |>
          <| epochs := <[e := derive_keys new_k_conv]> (epochs s) |>
          <| sender_ratchets := ∅ |>
          <| message_count := 0 |>
          <| last_rotation_time_ms := now_ms |>
          <| shared_keys_sent_to := ∅ |>
          <| jit_headers := ∅ |>
          <| self_message_count := 0 |>
          <| self_last_rekey_time_ms := now_ms |>, e).

Definition add_epoch (s : Established) (epoch : Z) (k : KConv) : Established :=
  let s := s <| epochs := <[epoch := derive_keys k]> (epochs s) |> in
  if current_epoch s <? epoch then s <| current_epoch := epoch |> <| sender_ratchets := ∅ |> <| message_count := 0 |> else s.

(** ** The ratchet *)

(** [seq >> 32], [seq & 0xFFFFFFFF] and back *)
Definition epoch_of (seq : Z) : Z := Z.shiftr seq 32.
Definition counter_of (seq : Z) : Z := Z.land seq 0xFFFFFFFF.
Definition seq_of (epoch counter : Z) : Z := Z.lor (Z.shiftl epoch 32) counter.

(** [retain] on the skipped keys: those not older than a day. *)
Definition drop_old_keys (keys : gmap (PhysicalDevicePk * Z) (MessageKey * Z)) (now_ms : Z) : option (gmap (PhysicalDevicePk * Z) (MessageKey * Z)) :=
  if forallb (fun e => match chk_i64 (now_ms - e.2.2) with Some _ => true | None => false end) (map_to_list keys)
  then Some (filter (fun e => now_ms - e.2.2 <= SKIPPED_TTL_MS) keys) else None.

(** The loop of a skip: the keys of [seqs] are kept for later. *)
Definition skip_keys (sender : PhysicalDevicePk) (now_ms : Z) (seqs : list Z) (keys : gmap (PhysicalDevicePk * Z) (MessageKey * Z)) (chain_key : ChainKey) :
    gmap (PhysicalDevicePk * Z) (MessageKey * Z) * ChainKey :=
  foldl (fun '(keys, ck) s => (<[(sender, s) := (ratchet_message_key ck, now_ms)]> keys, ratchet_step ck)) (keys, chain_key) seqs.

(** The chain key a sender starts an epoch with. *)
Definition seed (s : Established) (sender : PhysicalDevicePk) (epoch : Z) (keys : ConversationKeys) : ChainKey :=
  default (ratchet_init_sender (k_conv keys) sender) (sender_keys s !! (sender, epoch)).

(** The message key and the chain key after it. *)
Definition keys_at (ck : ChainKey) : MessageKey * ChainKey := (ratchet_message_key ck, ratchet_step ck).

(** The end of [peek_keys]: from the start of the epoch. *)
Definition peek_fresh (s : Established) (sender : PhysicalDevicePk) (seq now_ms : Z) : Established * option (MessageKey * ChainKey) :=
  let epoch := epoch_of seq in let counter := counter_of seq in
  match get_keys s epoch with
  | None => (s, None)
  | Some keys =>
      if MAX_SKIP <? counter then (s, None)
      else
        let '(skipped, chain_key) := skip_keys sender now_ms (seq_of epoch <$> zrange 1 counter) (skipped_keys s) (seed s sender epoch keys) in
        (s <| skipped_keys := skipped |>, Some (keys_at chain_key))
  end.

Definition peek_keys (s : Established) (sender : PhysicalDevicePk) (seq now_ms : Z) : option (Established * option (MessageKey * ChainKey)) :=
  skipped ← drop_old_keys (skipped_keys s) now_ms;
  let s := s <| skipped_keys := skipped |> in
  match sender_ratchets s !! sender with
  | Some r =>
      if negb (ratchet_epoch r =? epoch_of seq) then Some (peek_fresh s sender seq now_ms)
      else
        next ← chk_u64 (last_seq r + 1);
        if seq =? next then Some (s, Some (keys_at (next_key r)))
        else if seq <=? last_seq r then
          Some (s, match skipped_keys s !! (sender, seq) with Some (k, _) => Some (k, zero_hash) | None => None end)
        else if MAX_SKIP <? seq - next then Some (s, None)
        else
          let '(skipped, chain_key) := skip_keys sender now_ms (zrange next seq) (skipped_keys s) (next_key r) in
          Some (s <| skipped_keys := skipped |>, Some (keys_at chain_key))
  | None => Some (peek_fresh s sender seq now_ms)
  end.

Definition commit_node_key (s : Established) (sender : PhysicalDevicePk) (seq : Z) (next_chain_key : ChainKey) (node_hash : NodeHash) (epoch_id : Z) :
    Established * option NodeHash :=
  let s := s <| skipped_keys := delete (sender, seq) (skipped_keys s) |> in
  let stays := match sender_ratchets s !! sender with
               | Some r => (epoch_id <? ratchet_epoch r) || ((ratchet_epoch r =? epoch_id) && (seq <=? last_seq r))
               | None => false
               end in
  if stays then (s, None)
  else
    (s <| sender_ratchets := <[sender := mkRatchet seq next_chain_key (Some node_hash) epoch_id]> (sender_ratchets s) |>,
     r ← sender_ratchets s !! sender; last_node r).

Definition track_sender_seq (s : Established) (sender : PhysicalDevicePk) (seq epoch_id : Z) : Established :=
  match sender_ratchets s !! sender with
  | Some r =>
      if (ratchet_epoch r <? epoch_id) || ((epoch_id =? ratchet_epoch r) && (last_seq r <? seq))
      then s <| sender_ratchets := <[sender := r <| last_seq := seq |> <| ratchet_epoch := epoch_id |>]> (sender_ratchets s) |>
      else s
  | None => s
  end.

Definition get_sender_last_seq (s : Established) (sender : PhysicalDevicePk) : Z :=
  match sender_ratchets s !! sender with
  | Some r => if ratchet_epoch r =? current_epoch s then last_seq r else 0
  | None => 0
  end.

End Keys.

(** ** Nodes *)

Section Nodes.
Context `{Rmp} `{Blake3Hash} `{Ed25519} `{ChaCha20} `{Zstd} `{HashOrder}.

Definition verify_node_ephemeral_sig (n : MerkleNode) (peer_eph_keys : gmap (PhysicalDevicePk * Z) bytes) : option bool :=
  match authentication n with
  | Signature _ => Some true
  | EphemeralSignature sig =>
      match peer_eph_keys !! (sender_pk n, epoch_of (sequence_number n)) with
      | Some vk =>
          if key_ok vk then auth_data ← serialize_for_auth n; Some (verify vk auth_data sig) else Some false
      | None => Some false
      end
  end.

(** [.ok()] *)
Definition ok {E A} (m : Outcome E A) : option (option A) :=
  match m with Some (Ok a) => Some (Some a) | Some (Err _) => Some None | None => None end.

(** Whether the message key of a position opens the node. *)
Definition try_position (w : WireNode) (sender : PhysicalDevicePk) (logical : LogicalIdentityPk) (k_header : HeaderKey) (k_msg : MessageKey) :
    option (option MerkleNode) :=
  if bool_decide (compute_sender_hint k_msg = sender_hint w) then
    match try_decrypt_routing w k_header with
    | Some seq => ok (unpack_wire_content w sender logical seq k_msg)
    | None => Some None
    end
  else Some None.

(** The positions of one epoch. *)
Fixpoint try_positions (n : nat) (w : WireNode) (sender : PhysicalDevicePk) (logical : LogicalIdentityPk) (k_header : HeaderKey) (ck : ChainKey) :
    option (option MerkleNode) :=
  match n with
  | O => Some None
  | S n =>
      found ← try_position w sender logical k_header (ratchet_message_key ck);
      match found with Some node => Some (Some node) | None => try_positions n w sender logical k_header (ratchet_step ck) end
  end.

(** Where the search in an epoch starts, and its header key. *)
Definition start_key (s : Established) (sender : PhysicalDevicePk) (epoch : Z) (keys : ConversationKeys) : ChainKey :=
  match sender_ratchets s !! sender with
  | Some r => if ratchet_epoch r =? epoch then next_key r else seed s sender epoch keys
  | None => seed s sender epoch keys
  end.
Definition header_key (s : Established) (sender : PhysicalDevicePk) (epoch : Z) (keys : ConversationKeys) : HeaderKey :=
  match jit_headers s !! (sender, epoch) with
  | Some h => h
  | None => derive_k_header_epoch (k_conv keys) (seed s sender epoch keys)
  end.

Fixpoint try_sender_for_wire (s : Established) (w : WireNode) (sender : PhysicalDevicePk) (logical : LogicalIdentityPk) (es : list Z) :
    option (option MerkleNode) :=
  match es with
  | [] => Some None
  | epoch :: es =>
      match get_keys s epoch with
      | None => Some None
      | Some keys =>
          found ← try_positions MAX_RATCHET_SKIP w sender logical (header_key s sender epoch keys) (start_key s sender epoch keys);
          match found with Some node => Some (Some node) | None => try_sender_for_wire s w sender logical es end
      end
  end.

Fixpoint try_senders (s : Established) (w : WireNode) (es : list Z) (senders : list (PhysicalDevicePk * LogicalIdentityPk)) : option (option MerkleNode) :=
  match senders with
  | [] => Some None
  | (sender, logical) :: senders =>
      found ← try_sender_for_wire s w sender logical es;
      match found with Some node => Some (Some node) | None => try_senders s w es senders end
  end.

(** The epochs, the latest first. *)
Definition later_first (a b : Z) : Prop := b <= a.
#[local] Instance later_first_dec : RelDecision later_first.
Proof. intros a b. unfold later_first. apply _. Defined.
Definition sorted_epochs (s : Established) : list Z := merge_sort later_first (fst <$> iterate (epochs s)).

Definition identify_sender_and_unpack (s : Established) (w : WireNode) (all_senders : list (PhysicalDevicePk * LogicalIdentityPk)) : option (option MerkleNode) :=
  if negb (Permissions.contains (wire_flags w) FLAG_ENCRYPTED) then ok (unpack_wire_exception w)
  else
    let es := sorted_epochs s in
    found ← try_senders s w es all_senders;
    match found with
    | Some node => Some (Some node)
    | None =>
        try_senders s w es
          ((fun e => (e.1, to_logical e.1)) <$>
           List.filter (fun e => negb (existsb (fun p => bool_decide (p.1 = e.1)) all_senders)) (iterate (sender_ratchets s)))
    end.

(** The inner loop over the senders. *)
Fixpoint export_from (w : WireNode) (seq : Z) (k_msg : MessageKey) (senders : list (PhysicalDevicePk * LogicalIdentityPk)) : option (option MerkleNode) :=
  match senders with
  | [] => Some None
  | (sender, logical) :: senders =>
      found ← ok (unpack_wire_content w sender logical seq k_msg);
      match found with
      | Some node => match content node with HistoryExport _ _ _ _ _ => Some (Some node) | _ => export_from w seq k_msg senders end
      | None => export_from w seq k_msg senders
      end
  end.

Fixpoint try_exports (w : WireNode) (all_senders : list (PhysicalDevicePk * LogicalIdentityPk)) (keys : list ConversationKeys) : option (option MerkleNode) :=
  match keys with
  | [] => Some None
  | k :: keys =>
      let k_msg := derive_k_payload_export (k_conv k) in
      if bool_decide (compute_sender_hint k_msg = sender_hint w) then
        match try_decrypt_routing w (derive_k_header_export (k_conv k)) with
        | Some seq =>
            found ← export_from w seq k_msg all_senders;
            match found with Some node => Some (Some node) | None => try_exports w all_senders keys end
        | None => try_exports w all_senders keys
        end
      else try_exports w all_senders keys
  end.

Definition try_unpack_history_export (s : Established) (w : WireNode) (all_senders : list (PhysicalDevicePk * LogicalIdentityPk)) : option (option MerkleNode) :=
  if negb (Permissions.contains (wire_flags w) FLAG_ENCRYPTED) then Some None
  else try_exports w all_senders (snd <$> iterate (epochs s)).

End Nodes.
End Conversation.
