(* ===== verification/ConversationTheory.v ===== *)
(** What the keys of a conversation guarantee: each message of a sender gets its
    own key once, in whatever order messages arrive; the ratchet never goes back;
    the sender of an encrypted node is found. *)

From S2P Require Import Prelude Protocol MsgPack MsgPackTheory ToxTypes ToxTheory Derive MsgPackFormat Merkle MerkleModels Dag DagCodec DagWire DagTheory Identity Conversation.
From stdpp Require Import gmap sorting strings.
#[local] Open Scope Z_scope.
#[local] Open Scope list_scope.

Module ConversationTheory.
Import Dag DagCodec Crypto DagWire DagTheory Conversation.

(** ** Sequence numbers *)

Lemma seq_split e c : 0 <= e -> 0 <= c < 2 ^ 32 -> epoch_of (seq_of e c) = e /\ counter_of (seq_of e c) = c /\ seq_of e c = e * 2 ^ 32 + c.
Proof.
  intros He Hc. unfold epoch_of, counter_of, seq_of. change 0xFFFFFFFF with (Z.ones 32). rewrite Z.land_ones, Z.shiftr_div_pow2, Z.shiftl_mul_pow2 by lia.
  assert (Z.lor (e * 2 ^ 32) c = e * 2 ^ 32 + c) as ->.
  { symmetry. apply Z.add_nocarry_lor. rewrite <- Z.shiftl_mul_pow2 by lia. apply Z.bits_inj'. intros i Hi. rewrite Z.land_spec, Z.bits_0.
    destruct (Z.lt_ge_cases i 32); [by rewrite Z.shiftl_spec_low by lia|]. rewrite (Z.bits_above_log2 c i), ?andb_false_r; [done|lia|].
    destruct (Z.eq_dec c 0) as [->|]; [cbn; lia|]. apply Z.log2_lt_pow2; [lia|]. pose proof (Z.pow_le_mono_r 2 32 i ltac:(lia) ltac:(lia)). lia. }
  split_and!; [rewrite Z.div_add_l by lia; rewrite Z.div_small by lia; lia| |done]. rewrite Z.add_comm, Z.mod_add, Z.mod_small by lia. done.
Qed.

(** ** The chain of a sender *)

Section Chain.
Context `{Blake3Hash}.

Definition chain (start : ChainKey) (n : nat) : ChainKey := Nat.iter n ratchet_step start.
(** The key of the [c]th message; the first is 1. *)
Definition key_of (start : ChainKey) (c : Z) : MessageKey := ratchet_message_key (chain start (Z.to_nat (c - 1))).
Definition chain_after (start : ChainKey) (c : Z) : ChainKey := chain start (Z.to_nat c).

Lemma chain_after_succ start c : 0 <= c -> chain_after start (c + 1) = ratchet_step (chain_after start c).
Proof. intros Hc. unfold chain_after. by replace (Z.to_nat (c + 1)) with (S (Z.to_nat c)) by lia. Qed.

Lemma keys_at_after start c : 0 <= c -> keys_at (chain_after start c) = (key_of start (c + 1), chain_after start (c + 1)).
Proof. intros Hc. unfold keys_at. rewrite chain_after_succ by done. unfold key_of, chain_after. by replace (c + 1 - 1) with c by lia. Qed.

Lemma zrange_seq e a b : 0 <= e -> 0 <= a -> b <= 2 ^ 32 -> seq_of e <$> zrange a b = zrange (e * 2 ^ 32 + a) (e * 2 ^ 32 + b).
Proof.
  intros He Ha Hb. unfold zrange. rewrite <- list_fmap_compose. replace (e * 2 ^ 32 + b - (e * 2 ^ 32 + a)) with (b - a) by lia.
  apply list_fmap_ext. intros i x Hx. apply lookup_seq in Hx as [-> Hi]. cbn. destruct (seq_split e (a + Z.of_nat i) He) as (_ & _ & ->); lia.
Qed.

Lemma seq_inj e c d : 0 <= e -> 0 <= c < 2 ^ 32 -> 0 <= d < 2 ^ 32 -> seq_of e c = seq_of e d -> c = d.
Proof. intros He Hc Hd E. destruct (seq_split e c He Hc) as (_ & _ & Ec), (seq_split e d He Hd) as (_ & _ & Ed). lia. Qed.

(** Skipping the messages from [a] up to [b] keeps their keys and no others. *)
Lemma skip_keys_spec sender now start e b : 0 <= e -> b <= 2 ^ 32 -> forall k a keys, Z.to_nat (b - a) = k -> 1 <= a <= b ->
  exists keys', skip_keys sender now (seq_of e <$> zrange a b) keys (chain_after start (a - 1)) = (keys', chain_after start (b - 1)) /\
    (forall c, a <= c < b -> keys' !! (sender, seq_of e c) = Some (key_of start c, now)) /\
    (forall p, (forall c, a <= c < b -> p <> (sender, seq_of e c)) -> keys' !! p = keys !! p).
Proof.
  intros He Hb. induction k as [|k IH]; intros a keys Hk Ha.
  - rewrite zrange_nil by lia. exists keys. replace (b - 1) with (a - 1) by lia. split_and!; [done|lia|done].
  - rewrite zrange_cons by lia. cbn [fmap list_fmap skip_keys foldl].
    destruct (IH (a + 1) (<[(sender, seq_of e a) := (ratchet_message_key (chain_after start (a - 1)), now)]> keys)) as (keys' & E & Hin & Hout); [lia..|].
    exists keys'. split; [|split].
    + unfold skip_keys in E |- *. cbn [foldl]. rewrite <- E. f_equal. f_equal. rewrite <- chain_after_succ by lia. f_equal. lia.
    + intros c Hc. destruct (decide (c = a)) as [->|Hne]; [|apply Hin; lia]. rewrite Hout.
      * by rewrite lookup_insert_eq.
      * intros c Hc' [= E']. apply seq_inj in E'; lia.
    + intros p Hp. rewrite Hout by (intros c Hc; apply Hp; lia). apply lookup_insert_ne. intros <-. by apply (Hp a); [lia|].
Qed.

End Chain.

(** ** Receiving *)

Section Receive.
Context `{Blake3Hash}.

(** The key of a message, and the ratchet moved on. *)
Definition receive (s : Established) (sender : PhysicalDevicePk) (seq : Z) (hash : NodeHash) (now : Z) : option (Established * option MessageKey) :=
  '(s, found) ← peek_keys s sender seq now;
  match found with
  | Some (k, next) => Some ((commit_node_key s sender seq next hash (epoch_of seq)).1, Some k)
  | None => Some (s, None)
  end.

Section Sender.
Context (sender : PhysicalDevicePk) (e : Z) (start : ChainKey) (t0 : Z).

(** The clock during which skipped keys are kept. *)
Definition in_time (now : Z) : Prop := t0 <= now <= t0 + SKIPPED_TTL_MS /\ 0 <= t0 /\ t0 + SKIPPED_TTL_MS <= i64_max.

Definition ratchet_at (s : Established) (h : Z) : Prop :=
  if decide (h = 0) then match sender_ratchets s !! sender with Some r => ratchet_epoch r < e | None => True end
  else exists r, sender_ratchets s !! sender = Some r /\ last_seq r = seq_of e h /\ next_key r = chain_after start h /\ ratchet_epoch r = e.

(** The messages [got] were received, the last of them is [h]. *)
Record received (s : Established) (got : gset Z) (h : Z) : Prop := {
  rcv_seed : exists keys, get_keys s e = Some keys /\ seed s sender e keys = start;
  rcv_got c : c ∈ got -> 1 <= c <= h;
  rcv_head : 0 <= h < 2 ^ 32 - 1;
  rcv_ratchet : ratchet_at s h;
  rcv_skipped c : 1 <= c < 2 ^ 32 -> (exists t, skipped_keys s !! (sender, seq_of e c) = Some (key_of start c, t)) /\ c <= h /\ c ∉ got \/
    skipped_keys s !! (sender, seq_of e c) = None /\ (h < c \/ c ∈ got);
  rcv_times p k t : skipped_keys s !! p = Some (k, t) -> in_time t
}.

Lemma drop_nothing keys now : (forall p k t, keys !! p = Some (k, t) -> in_time t) -> in_time now -> drop_old_keys keys now = Some keys.
Proof.
  intros Hk [Hn [H0 Ht]]. unfold drop_old_keys. assert (forall p k t, keys !! p = Some (k, t) -> now - t <= SKIPPED_TTL_MS) as Hage.
  { intros p k t Hp. destruct (Hk p k t Hp). lia. }
  destruct (forallb _ _) eqn:E.
  - f_equal. apply map_filter_id. intros p [k t] Hp. cbn. by eapply Hage.
  - apply not_true_iff_false in E. destruct E. apply forallb_forall. intros [p [k t]] Hp%list_elem_of_In%elem_of_map_to_list. cbn.
    destruct (Hk p k t Hp) as (? & _). rewrite chk_i64_ok; [done|]. unfold SKIPPED_TTL_MS, i64_min, i64_max in *. lia.
Qed.

(** How far a message may be ahead of the last one: 2000 messages may be skipped, or as
    many counters while there is no ratchet. *)
Definition reach (h : Z) : Z := if decide (h = 0) then MAX_SKIP else h + 1 + MAX_SKIP.

(** A message beyond the head: its key, and the keys of those before it. *)
Lemma peek_ahead s got h c now : received s got h -> in_time now -> 0 <= e < 2 ^ 32 -> h < c -> c <= reach h -> c < 2 ^ 32 - 1 ->
  exists keys', peek_keys s sender (seq_of e c) now = Some (s <| skipped_keys := keys' |>, Some (key_of start c, chain_after start c)) /\
    (forall d, h < d < c -> keys' !! (sender, seq_of e d) = Some (key_of start d, now)) /\
    (forall p, (forall d, h < d < c -> p <> (sender, seq_of e d)) -> keys' !! p = skipped_keys s !! p).
Proof.
  intros [(keys & Ek & Es) Hgot Hh Hr Hs Ht] Hnow He Hc Hw Hmax. destruct (seq_split e c ltac:(lia) ltac:(lia)) as (Ee & Ec & Eseq).
  destruct (skip_keys_spec sender now start e c ltac:(lia) ltac:(lia) _ (h + 1) (skipped_keys s) eq_refl ltac:(lia)) as (keys' & E & Hin & Hout).
  exists keys'. split; [|split; [intros d Hd; apply Hin; lia|intros p Hp; apply Hout; intros d Hd; apply Hp; lia]].
  assert (keys_at (chain_after start (c - 1)) = (key_of start c, chain_after start c)) as Ekeys.
  { rewrite keys_at_after by lia. by replace (c - 1 + 1) with c by lia. }
  unfold peek_keys. rewrite (drop_nothing _ now Ht Hnow). cbn [mbind option_bind].
  assert (s <| skipped_keys := skipped_keys s |> = s) as -> by (by destruct s).
  unfold reach in Hw. unfold ratchet_at in Hr. case_decide as H0.
  - assert (Some (peek_fresh s sender (seq_of e c) now) = Some (s <| skipped_keys := keys' |>, Some (key_of start c, chain_after start c))) as Hf.
    { unfold peek_fresh. rewrite Ee, Ec, Ek, Es. destruct (Z.ltb_spec MAX_SKIP c); [lia|]. replace (h + 1) with 1 in E by lia. change (chain_after start (1 - 1)) with start in E.
      rewrite E, Ekeys. done. }
    destruct (sender_ratchets s !! sender) as [r|]; [|exact Hf]. rewrite Ee. destruct (Z.eqb_spec (ratchet_epoch r) e); [lia|exact Hf].
  - destruct Hr as (r & -> & El & En & Ere). rewrite Ee, Ere, Z.eqb_refl. cbn [negb]. destruct (seq_split e h ltac:(lia) ltac:(lia)) as (_ & _ & Eh).
    rewrite chk_u64_ok by (unfold u64_max; lia). cbn [mbind option_bind]. rewrite El, En, Eh, Eseq. replace (h + 1 - 1) with h in E by lia.
    destruct (Z.eqb_spec (e * 2 ^ 32 + c) (e * 2 ^ 32 + h + 1)).
    + replace c with (h + 1) in E |- * by lia. rewrite zrange_nil in E by lia. cbn in E. injection E as <- _. rewrite keys_at_after by lia. by destruct s.
    + destruct (Z.leb_spec (e * 2 ^ 32 + c) (e * 2 ^ 32 + h)); [lia|]. destruct (Z.ltb_spec MAX_SKIP (e * 2 ^ 32 + c - (e * 2 ^ 32 + h + 1))); [lia|].
      rewrite zrange_seq in E by lia. replace (e * 2 ^ 32 + h + 1) with (e * 2 ^ 32 + (h + 1)) by lia. rewrite E, Ekeys. done.
Qed.

(** A message too far ahead has no key, and changes nothing. *)
Lemma peek_beyond s got h c now : received s got h -> in_time now -> 0 <= e < 2 ^ 32 -> reach h < c -> c < 2 ^ 32 - 1 ->
  peek_keys s sender (seq_of e c) now = Some (s, None).
Proof.
  intros [(keys & Ek & Es) Hgot Hh Hr Hs Ht] Hnow He Hw Hmax. assert (h < c) as Hc by (unfold reach, MAX_SKIP in Hw; case_decide; lia).
  destruct (seq_split e c ltac:(lia) ltac:(lia)) as (Ee & Ec & Eseq).
  unfold peek_keys. rewrite (drop_nothing _ now Ht Hnow). cbn [mbind option_bind].
  assert (s <| skipped_keys := skipped_keys s |> = s) as -> by (by destruct s). unfold reach in Hw. unfold ratchet_at in Hr. case_decide as H0.
  - assert (Some (peek_fresh s sender (seq_of e c) now) = Some (s, None)) as Hf by (unfold peek_fresh; rewrite Ee, Ec, Ek; by destruct (Z.ltb_spec MAX_SKIP c); [|lia]).
    destruct (sender_ratchets s !! sender) as [r|]; [|exact Hf]. rewrite Ee. destruct (Z.eqb_spec (ratchet_epoch r) e); [lia|exact Hf].
  - destruct Hr as (r & -> & El & En & Ere). rewrite Ee, Ere, Z.eqb_refl. cbn [negb]. destruct (seq_split e h ltac:(lia) ltac:(lia)) as (_ & _ & Eh).
    rewrite chk_u64_ok by (unfold u64_max; lia). cbn [mbind option_bind]. rewrite El, Eh, Eseq. unfold MAX_SKIP in *.
    destruct (Z.eqb_spec (e * 2 ^ 32 + c) (e * 2 ^ 32 + h + 1)); [lia|]. destruct (Z.leb_spec (e * 2 ^ 32 + c) (e * 2 ^ 32 + h)); [lia|].
    by destruct (Z.ltb_spec 2000 (e * 2 ^ 32 + c - (e * 2 ^ 32 + h + 1))); [|lia].
Qed.

Lemma peek_behind s got h c now : received s got h -> in_time now -> 0 <= e < 2 ^ 32 -> 1 <= c <= h ->
  peek_keys s sender (seq_of e c) now = Some (s, if decide (c ∈ got) then None else Some (key_of start c, zero_hash)).
Proof.
  intros [_ Hgot Hh Hr Hs Ht] Hnow He Hc. destruct (seq_split e c ltac:(lia) ltac:(lia)) as (Ee & Ec & Eseq), (seq_split e h ltac:(lia) ltac:(lia)) as (_ & _ & Eh).
  unfold peek_keys. rewrite (drop_nothing _ now Ht Hnow). cbn [mbind option_bind]. assert (s <| skipped_keys := skipped_keys s |> = s) as -> by (by destruct s).
  unfold ratchet_at in Hr. rewrite decide_False in Hr by lia. destruct Hr as (r & -> & El & En & Ere). rewrite Ee, Ere, Z.eqb_refl. cbn [negb].
  rewrite chk_u64_ok by (unfold u64_max; lia). cbn [mbind option_bind]. rewrite El, Eh, Eseq.
  destruct (Z.eqb_spec (e * 2 ^ 32 + c) (e * 2 ^ 32 + h + 1)); [lia|]. destruct (Z.leb_spec (e * 2 ^ 32 + c) (e * 2 ^ 32 + h)); [|lia]. rewrite <- Eseq.
  destruct (Hs c ltac:(lia)) as [((t & ->) & _ & Hn)|[-> [?|Hg]]]; [by rewrite decide_False|lia|by rewrite decide_True].
Qed.

(** Receiving message [c], in whatever place: its key if it is new. *)
Lemma receive_step s got h c hash now : received s got h -> in_time now -> 0 <= e < 2 ^ 32 -> 1 <= c <= Z.max h (reach h) -> c < 2 ^ 32 - 1 ->
  exists s', receive s sender (seq_of e c) hash now = Some (s', if decide (c ∈ got) then None else Some (key_of start c)) /\
    received s' (got ∪ {[c]}) (Z.max h c).
Proof.
  intros Hrcv Hnow He Hc Hmax. destruct (seq_split e c ltac:(lia) ltac:(lia)) as (Ee & Ec & Eseq). unfold receive. destruct (Z.le_gt_cases c h) as [Hle|Hgt].
  - rewrite (peek_behind s got h c now Hrcv Hnow He ltac:(lia)). cbn [mbind option_bind]. rewrite Z.max_l by lia. case_decide as Hg.
    { exists s. split; [done|]. replace (got ∪ {[c]}) with got by set_solver. done. }
    eexists. split; [done|]. destruct Hrcv as [Hseed Hgot Hh Hr Hs Ht]. unfold ratchet_at in Hr. rewrite decide_False in Hr by lia. destruct Hr as (r & Er & El & En & Ere).
    destruct (seq_split e h ltac:(lia) ltac:(lia)) as (_ & _ & Eh).
    assert ((commit_node_key s sender (seq_of e c) zero_hash hash (epoch_of (seq_of e c))).1 = s <| skipped_keys := delete (sender, seq_of e c) (skipped_keys s) |>) as ->.
    { unfold commit_node_key. cbn. rewrite Er, Ee, Ere, Z.ltb_irrefl, Z.eqb_refl, El. destruct (Z.leb_spec (seq_of e c) (seq_of e h)); [done|lia]. }
    constructor; cbn; [done|set_solver by lia|done|unfold ratchet_at; rewrite decide_False by lia; cbn; eauto| |].
    + intros d Hd. destruct (decide (d = c)) as [->|Hne]; [right; split; [by rewrite lookup_delete_eq|set_solver]|].
      rewrite lookup_delete_ne by (intros [= E]; apply seq_inj in E; lia). destruct (Hs d Hd) as [(? & ? & ?)|[? [?|?]]]; [left|right|right]; (split; [done|]); set_solver.
    + intros p k t Hp. apply lookup_delete_Some in Hp as [_ Hp]. by eapply Ht.
  - destruct (peek_ahead s got h c now Hrcv Hnow He) as (keys' & E & Hin & Hout); [lia..|]. rewrite E. cbn [mbind option_bind]. rewrite Z.max_r by lia.
    destruct Hrcv as [Hseed Hgot Hh Hr Hs Ht]. assert (c ∉ got) as Hn by (intros Hg%Hgot; lia). rewrite decide_False by done. eexists. split; [done|].
    assert ((commit_node_key (s <| skipped_keys := keys' |>) sender (seq_of e c) (chain_after start c) hash (epoch_of (seq_of e c))).1 =
      s <| skipped_keys := delete (sender, seq_of e c) keys' |> <| sender_ratchets := <[sender := mkRatchet (seq_of e c) (chain_after start c) (Some hash) e]> (sender_ratchets s) |>) as ->.
    { unfold commit_node_key. cbn. rewrite Ee. unfold ratchet_at in Hr. case_decide as H0.
      - destruct (sender_ratchets s !! sender) as [r|]; [|done]. destruct (Z.ltb_spec e (ratchet_epoch r)), (Z.eqb_spec (ratchet_epoch r) e); try lia. done.
      - destruct Hr as (r & -> & -> & _ & ->). destruct (seq_split e h ltac:(lia) ltac:(lia)) as (_ & _ & Eh). rewrite Z.ltb_irrefl, Z.eqb_refl.
        destruct (Z.leb_spec (seq_of e c) (seq_of e h)); [lia|done]. }
    constructor; cbn; [done| |lia|unfold ratchet_at; rewrite decide_False by lia; cbn; rewrite lookup_insert_eq; eauto| |].
    + intros d Hd. apply elem_of_union in Hd as [Hd%Hgot|Hd%elem_of_singleton]; lia.
    + intros d Hd. destruct (decide (d = c)) as [->|Hne]; [right; split; [by rewrite lookup_delete_eq|set_solver]|].
      rewrite lookup_delete_ne by (intros [= E']; apply seq_inj in E'; lia). destruct (decide (h < d < c)) as [Hm|Hm].
      * left. split; [exists now; by apply Hin|]. split; [lia|]. intros [Hg%Hgot|Hg%elem_of_singleton]%elem_of_union; lia.
      * rewrite Hout by (intros x Hx [= E']; apply seq_inj in E'; lia). destruct (Hs d Hd) as [(Hx & Hdh & Hdg)|[Hx Hdh]]; [left|right]; (split; [done|]); [split; [lia|set_solver]|].
        destruct Hdh as [Hdh|Hdg]; [left; lia|right; set_solver].
    + intros p k t Hp. apply lookup_delete_Some in Hp as [_ Hp]. destruct (decide (h < counter_of p.2 < c /\ p = (sender, seq_of e (counter_of p.2)))) as [[Hd Ep]|Hno].
      * rewrite Ep, (Hin _ Hd) in Hp. by injection Hp as <- <-.
      * rewrite Hout in Hp; [by eapply Ht|]. intros d Hd ->. apply Hno. cbn. destruct (seq_split e d ltac:(lia) ltac:(lia)) as (_ & -> & _). done.
Qed.

End Sender.

(** Messages as they arrive: counter, hash, time. *)
Fixpoint receive_all (s : Established) (sender : PhysicalDevicePk) (e : Z) (msgs : list (Z * NodeHash * Z)) : option (Established * list (option MessageKey)) :=
  match msgs with
  | [] => Some (s, [])
  | (c, hash, now) :: msgs =>
      '(s, k) ← receive s sender (seq_of e c) hash now;
      '(s, ks) ← receive_all s sender e msgs;
      Some (s, k :: ks)
  end.

(** Messages have counters of an epoch and come while skipped keys are kept. *)
Definition timely (t0 : Z) (msgs : list (Z * NodeHash * Z)) : Prop := forall c hash now, (c, hash, now) ∈ msgs -> 1 <= c < 2 ^ 32 - 1 /\ in_time t0 now.

(** The key of each message the first time it arrives, unless it is too far ahead of
    the last message [h] that was accepted. *)
Fixpoint expected (start : ChainKey) (got : gset Z) (h : Z) (msgs : list (Z * NodeHash * Z)) : list (option MessageKey) :=
  match msgs with
  | [] => []
  | (c, _, _) :: msgs =>
      if decide (Z.max h (reach h) < c) then None :: expected start got h msgs
      else (if decide (c ∈ got) then None else Some (key_of start c)) :: expected start (got ∪ {[c]}) (Z.max h c) msgs
  end.

Lemma receive_run sender e start t0 msgs : 0 <= e < 2 ^ 32 -> forall s got h, received sender e start t0 s got h -> timely t0 msgs ->
  exists s', receive_all s sender e msgs = Some (s', expected start got h msgs).
Proof.
  intros He. induction msgs as [|[[c hash] now] msgs IH]; intros s got h Hs Hr; [by eexists|]. cbn [receive_all expected].
  destruct (Hr c hash now ltac:(left)) as [Hc Hnow]. assert (timely t0 msgs) as Hr' by (intros c' hash' now' Hin; apply (Hr c' hash'); by right). case_decide as Hfar.
  - unfold receive. rewrite (peek_beyond sender e start t0 s got h c now Hs Hnow He) by lia. cbn [mbind option_bind].
    destruct (IH s got h Hs Hr') as (s2 & ->). cbn [mbind option_bind]. by eexists.
  - destruct (receive_step sender e start t0 s got h c hash now Hs Hnow He) as (s' & -> & Hs'); [lia..|]. cbn [mbind option_bind].
    destruct (IH s' _ _ Hs' Hr') as (s2 & ->). cbn [mbind option_bind]. by eexists.
Qed.

(** ** The head of a ratchet *)

Definition head_le (a b : option Ratchet) : Prop :=
  match a, b with
  | Some a, Some b => ratchet_epoch a < ratchet_epoch b \/ (ratchet_epoch a = ratchet_epoch b /\ last_seq a <= last_seq b)
  | None, _ => True
  | Some _, None => False
  end.

Lemma head_le_refl a : head_le a a.
Proof. destruct a; [right; lia|done]. Qed.

Lemma commit_forward s sender seq next hash e p : head_le (sender_ratchets s !! p) (sender_ratchets (commit_node_key s sender seq next hash e).1 !! p).
Proof.
  unfold commit_node_key. cbn [sender_ratchets]. destruct (sender_ratchets s !! sender) as [r|] eqn:Er; cbn.
  - rewrite Er. destruct (Z.ltb_spec e (ratchet_epoch r)); cbn; [apply head_le_refl|]. destruct (Z.eqb_spec (ratchet_epoch r) e); cbn.
    + destruct (Z.leb_spec seq (last_seq r)); cbn; [apply head_le_refl|]. destruct (decide (p = sender)) as [->|]; [rewrite Er, lookup_insert_eq; right; cbn; lia|].
      rewrite lookup_insert_ne by done. apply head_le_refl.
    + destruct (decide (p = sender)) as [->|]; [rewrite Er, lookup_insert_eq; left; cbn; lia|]. rewrite lookup_insert_ne by done. apply head_le_refl.
  - rewrite Er. cbn. destruct (decide (p = sender)) as [->|]; [by rewrite Er|]. rewrite lookup_insert_ne by done. apply head_le_refl.
Qed.

Lemma track_forward s sender seq e p : head_le (sender_ratchets s !! p) (sender_ratchets (track_sender_seq s sender seq e) !! p).
Proof.
  unfold track_sender_seq. destruct (sender_ratchets s !! sender) as [r|] eqn:Er; [|apply head_le_refl].
  destruct (decide (p = sender)) as [->|].
  - rewrite Er. destruct (Z.ltb_spec (ratchet_epoch r) e); cbn; [rewrite lookup_insert_eq; left; cbn; lia|].
    destruct (Z.eqb_spec e (ratchet_epoch r)); cbn; [|rewrite Er; right; cbn; lia]. destruct (Z.ltb_spec (last_seq r) seq); cbn; [rewrite lookup_insert_eq; right; cbn; lia|].
    rewrite Er. right; cbn; lia.
  - destruct (_ || _); cbn; [rewrite lookup_insert_ne by done|]; apply head_le_refl.
Qed.

Lemma peek_forward s sender seq now s' r : peek_keys s sender seq now = Some (s', r) -> sender_ratchets s' = sender_ratchets s.
Proof.
  assert (forall s, sender_ratchets (peek_fresh s sender seq now).1 = sender_ratchets s) as Hf.
  { intros s0. unfold peek_fresh. destruct (get_keys s0 _); [|done]. destruct (MAX_SKIP <? _); [done|]. by destruct (skip_keys _ _ _ _ _). }
  unfold peek_keys. intros (skipped & _ & E)%bind_Some. cbn in E. set (s1 := s <| skipped_keys := skipped |>) in E. specialize (Hf s1). change (sender_ratchets s) with (sender_ratchets s1) in *.
  destruct (sender_ratchets s1 !! sender) as [h|]; [|injection E as Es; by rewrite <- Hf, Es]. destruct (negb _); [injection E as Es; by rewrite <- Hf, Es|].
  apply bind_Some in E as (next & _ & E).
  destruct (seq =? next); [by injection E as <- _|]. destruct (seq <=? last_seq h); [by injection E as <- _|]. destruct (MAX_SKIP <? seq - next); [by injection E as <- _|].
  destruct (skip_keys _ _ _ _ _). by injection E as <- _.
Qed.

End Receive.

(** ** The sender of an encrypted node *)

Section Identify.
Context `{RmpLaws} `{Blake3Hash} `{Ed25519} `{ChaCha20Laws} `{ZstdLaws} `{HashOrderLaws}.

(** None of the first [n] message keys from [start] has the hint of the node. *)
Definition no_hint (w : WireNode) (start : ChainKey) (n : nat) : Prop :=
  forall i, (i < n)%nat -> compute_sender_hint (ratchet_message_key (chain start i)) <> sender_hint w.

Lemma chain_succ start i : chain (ratchet_step start) i = chain start (S i).
Proof. unfold chain. by rewrite <- Nat.iter_succ_r. Qed.

Lemma no_hint_step w start n : no_hint w start (S n) -> compute_sender_hint (ratchet_message_key start) <> sender_hint w /\ no_hint w (ratchet_step start) n.
Proof. intros Hn. split; [apply (Hn O); lia|]. intros i Hi. rewrite chain_succ. apply Hn. lia. Qed.

Lemma try_positions_none n w sender logical kh start : no_hint w start n -> try_positions n w sender logical kh start = Some None.
Proof.
  revert start. induction n as [|n IH]; intros start Hn; [done|]. apply no_hint_step in Hn as [Hfirst Hn]. cbn [try_positions]. unfold try_position.
  rewrite bool_decide_false by done. cbn [mbind option_bind]. by apply IH.
Qed.

(** The search stops at the first position whose key opens the node. *)
Lemma try_positions_found n i w sender logical kh start node : (i < n)%nat -> no_hint w start i ->
  compute_sender_hint (ratchet_message_key (chain start i)) = sender_hint w ->
  (exists seq, try_decrypt_routing w kh = Some seq /\ unpack_wire_content w sender logical seq (ratchet_message_key (chain start i)) = succeed node) ->
  try_positions n w sender logical kh start = Some (Some node).
Proof.
  revert n start. induction i as [|i IH]; intros [|n] start Hi Hn Eh Hd; [lia| |lia|]; cbn [try_positions]; unfold try_position.
  - destruct Hd as (seq & Ed & Eu). cbn in Eh, Eu. rewrite bool_decide_true by done. rewrite Ed, Eu. done.
  - apply no_hint_step in Hn as [Hfirst Hn]. rewrite bool_decide_false by done. cbn [mbind option_bind]. apply IH; [lia|done| |]; by rewrite chain_succ.
Qed.

(** No key of [sender] in the epochs [es] has the hint. *)
Definition silent (s : Established) (w : WireNode) (sender : PhysicalDevicePk) (es : list Z) : Prop :=
  forall e keys, e ∈ es -> get_keys s e = Some keys -> no_hint w (start_key s sender e keys) MAX_RATCHET_SKIP.

Lemma try_sender_none s w sender logical es : silent s w sender es -> try_sender_for_wire s w sender logical es = Some None.
Proof.
  induction es as [|e es IH]; intros Hs; [done|]. cbn [try_sender_for_wire]. destruct (get_keys s e) as [keys|] eqn:Ek; [|done].
  rewrite try_positions_none by (by apply (Hs e keys); [left|]). cbn [mbind option_bind]. apply IH. intros e' k' He'. apply Hs. by right.
Qed.

Lemma try_sender_found s w sender logical es1 es2 e keys i node : silent s w sender es1 -> (forall e, e ∈ es1 -> is_Some (get_keys s e)) -> get_keys s e = Some keys ->
  (i < MAX_RATCHET_SKIP)%nat -> no_hint w (start_key s sender e keys) i ->
  compute_sender_hint (ratchet_message_key (chain (start_key s sender e keys) i)) = sender_hint w ->
  (exists seq, try_decrypt_routing w (header_key s sender e keys) = Some seq /\
    unpack_wire_content w sender logical seq (ratchet_message_key (chain (start_key s sender e keys) i)) = succeed node) ->
  try_sender_for_wire s w sender logical (es1 ++ e :: es2) = Some (Some node).
Proof.
  intros Hs Hk Ek Hi Hn Eh Hd. induction es1 as [|e1 es1 IH]; cbn [app try_sender_for_wire].
  - rewrite Ek. by erewrite try_positions_found by done.
  - destruct (Hk e1 ltac:(left)) as [k1 E1]. rewrite E1. rewrite try_positions_none by (by apply (Hs e1 k1); [left|]). cbn [mbind option_bind].
    apply IH; [intros e' k' He'; apply Hs; by right|intros e' He'; apply Hk; by right].
Qed.

Lemma try_senders_found s w es pre sender logical post node : (forall p, p ∈ pre -> silent s w p.1 es) ->
  try_sender_for_wire s w sender logical es = Some (Some node) -> try_senders s w es (pre ++ (sender, logical) :: post) = Some (Some node).
Proof.
  intros Hpre E. induction pre as [|[p l] pre IH]; cbn [app try_senders]; [by rewrite E|].
  rewrite try_sender_none by (by apply (Hpre (p, l)); left). cbn [mbind option_bind]. apply IH. intros q Hq. apply Hpre. by right.
Qed.

Lemma sorted_epochs_known s e : e ∈ sorted_epochs s <-> is_Some (get_keys s e).
Proof.
  unfold sorted_epochs. rewrite merge_sort_Permutation. rewrite iterate_perm, list_elem_of_fmap. unfold get_keys. split.
  - intros ([e' k] & -> & Hk%elem_of_map_to_list). by exists k.
  - intros [k Hk]. exists (e, k). by rewrite elem_of_map_to_list.
Qed.

Lemma packed_encrypted n ck use w : pack_wire n (PackContent ck) use = succeed w -> Permissions.contains (wire_flags w) FLAG_ENCRYPTED = true.
Proof.
  unfold pack_wire. destruct (map_err ProtocolError (to_vec content_type (content n))) as [[b|]|]; cbn [obind]; [|done..].
  destruct (compress use (payload_of n b)) as [p flags] eqn:Ep. intros [= <-]. cbn [wire_flags]. by destruct (compress_inverse _ _ _ _ Ep) as [[-> _]|[-> _]].
Qed.

(** C13: A node packed with the keys of a position of its sender's ratchet, less than
    2000 positions ahead of where the receiver stands, is recognised and decrypted,
    whoever else is in the conversation, unless the 4-byte hint of a key that is
    tried earlier happens to be the same. *)
Theorem sender_identified s n ck use w pre post es1 es2 e keys i :
  let start := start_key s (sender_pk n) e keys in
  node_ok n -> length (routing_nonce ck) = 12%nat -> length (payload_nonce ck) = 12%nat ->
  pack_wire n (PackContent ck) use = succeed w ->
  get_keys s e = Some keys -> k_msg ck = ratchet_message_key (chain start i) -> k_header ck = header_key s (sender_pk n) e keys ->
  (i < MAX_RATCHET_SKIP)%nat -> sorted_epochs s = es1 ++ e :: es2 ->
  (forall p, p ∈ pre -> silent s w p.1 (sorted_epochs s)) -> silent s w (sender_pk n) es1 -> no_hint w start i ->
  identify_sender_and_unpack s w (pre ++ (sender_pk n, author_pk n) :: post) = Some (Some (n <| pow_nonce := 0 |>)).
Proof.
  intros start Hn Hr Hp Ew Ek Em Eh Hi Ees Hpre Hes Hno. destruct (content_unpacked n ck use Hn Hr Hp) as (w' & Ew' & Ehint & Eroute & Eunpack).
  rewrite Ew in Ew'. injection Ew' as <-. unfold identify_sender_and_unpack. rewrite (packed_encrypted _ _ _ _ Ew). cbn [negb].
  rewrite (try_senders_found s w (sorted_epochs s) pre (sender_pk n) (author_pk n) post (n <| pow_nonce := 0 |>) Hpre); [done|]. rewrite Ees.
  apply (try_sender_found s w _ _ es1 es2 e keys i); try done.
  - intros e' He'. apply sorted_epochs_known. rewrite Ees. apply elem_of_app. by left.
  - fold start. by rewrite <- Em, Ehint.
  - exists (sequence_number n). rewrite <- Eh. fold start. rewrite <- Em. done.
Qed.

End Identify.

Section Properties.
Context `{Blake3Hash}.

(** C14: At the start of an epoch, before anything of a sender was received or skipped in
    it, messages of the sender in that epoch may be lost, duplicated and reordered.
    Each gets the key of its place in the sender's chain the first time it arrives and
    none after that; a message that is more than 2000 messages beyond the next one
    (while nothing was received: with a counter above 2000) gets none and changes
    nothing.  All this within the 24 hours for which skipped keys are kept. *)
Theorem ratchet_any_order s sender e keys t0 msgs : 0 <= e < 2 ^ 32 -> get_keys s e = Some keys ->
  (forall p k t, skipped_keys s !! p = Some (k, t) -> in_time t0 t /\ forall c, 1 <= c < 2 ^ 32 -> p <> (sender, seq_of e c)) ->
  match sender_ratchets s !! sender with Some r => ratchet_epoch r < e | None => True end -> timely t0 msgs ->
  exists s', receive_all s sender e msgs = Some (s', expected (seed s sender e keys) ∅ 0 msgs).
Proof.
  intros He Ek Hs Hr Hm. apply (receive_run sender e (seed s sender e keys) t0 msgs He s ∅ 0); [|done]. constructor; [by exists keys|set_solver|lia|done| |].
  - intros c Hc. right. split; [|left; lia]. destruct (skipped_keys s !! (sender, seq_of e c)) as [[k t]|] eqn:E; [|done]. by destruct (Hs _ _ _ E) as [_ Hno]; destruct (Hno c Hc).
  - intros p k t Hp. by destruct (Hs _ _ _ Hp).
Qed.

(** Committing keys and tracking numbers never take a ratchet back to an earlier
    epoch or message, for any sender and in any order; looking keys up leaves the
    ratchets alone. *)
Theorem ratchet_never_regresses s sender seq next hash e now p :
  head_le (sender_ratchets s !! p) (sender_ratchets (commit_node_key s sender seq next hash e).1 !! p) /\
  head_le (sender_ratchets s !! p) (sender_ratchets (track_sender_seq s sender seq e) !! p) /\
  (forall s' r, peek_keys s sender seq now = Some (s', r) -> sender_ratchets s' = sender_ratchets s).
Proof. split_and!; [apply commit_forward|apply track_forward|apply peek_forward]. Qed.

End Properties.

(** ** Instances of the properties *)

Import Models Format.

Definition room : ConversationId := replicate 32 9.
Definition fresh : Established := state (new_established room (replicate 32 8) 1000).

Lemma ratchet_any_order_witness : exists s', receive_all fresh key1 0 [(2, key1, 1000); (1, key2, 1001); (2, key1, 1002); (2004, key2, 1002); (5, key1, 1003); (4, key2, 1004)] =
  Some (s', [Some (key_of (seed fresh key1 0 (derive_keys (replicate 32 8))) 2); Some (key_of (seed fresh key1 0 (derive_keys (replicate 32 8))) 1); None; None;
             Some (key_of (seed fresh key1 0 (derive_keys (replicate 32 8))) 5); Some (key_of (seed fresh key1 0 (derive_keys (replicate 32 8))) 4)]).
Proof.
  apply (ratchet_any_order fresh key1 0 (derive_keys (replicate 32 8)) 1000 [(2, key1, 1000); (1, key2, 1001); (2, key1, 1002); (2004, key2, 1002); (5, key1, 1003); (4, key2, 1004)]);
    [lia|done|by intros p k t Hp|done|]. unfold timely. intros c hash now Hin. repeat (apply elem_of_cons in Hin as [[= -> -> ->]|Hin]; [unfold in_time, SKIPPED_TTL_MS, i64_max; lia|]).
  by apply not_elem_of_nil in Hin.
Defined.

Definition own_keys : PackContentKeys :=
  mkPackKeys (ratchet_message_key (chain (start_key fresh key1 0 (derive_keys (replicate 32 8))) 1)) (header_key fresh key1 0 (derive_keys (replicate 32 8)))
    (replicate 12 5) (replicate 12 6).

Lemma own_keys_facts : k_msg own_keys = ratchet_message_key (chain (start_key fresh key1 0 (derive_keys (replicate 32 8))) 1) /\
  k_header own_keys = header_key fresh key1 0 (derive_keys (replicate 32 8)) /\ (1 < MAX_RATCHET_SKIP)%nat /\ sorted_epochs fresh = [] ++ 0 :: [] /\
  length (routing_nonce own_keys) = 12%nat /\ length (payload_nonce own_keys) = 12%nat /\ get_keys fresh 0 = Some (derive_keys (replicate 32 8)).
Proof.
  split; [unfold own_keys; cbn [k_msg]; reflexivity|]. split; [unfold own_keys; cbn [k_header]; reflexivity|].
  split; [unfold MAX_RATCHET_SKIP; apply Nat.ltb_lt; by vm_compute|]. split; [by vm_compute|]. split; [done|]. by split.
Qed.

Lemma packed_check : match pack_wire text_node (PackContent own_keys) true with
  | Some (Ok w) => negb (bool_decide (compute_sender_hint (ratchet_message_key (start_key fresh key1 0 (derive_keys (replicate 32 8)))) = sender_hint w))
  | _ => false
  end = true.
Proof. by vm_compute. Qed.

Lemma packed_example : exists w, pack_wire text_node (PackContent own_keys) true = succeed w /\
  no_hint w (start_key fresh key1 0 (derive_keys (replicate 32 8))) 1.
Proof.
  pose proof packed_check as Hc. destruct (pack_wire text_node (PackContent own_keys) true) as [[w|]|]; [|done..]. exists w. split; [done|].
  intros i Hi. assert (i = O) as -> by lia. by apply negb_true_iff, bool_decide_eq_false in Hc.
Qed.

Lemma sender_identified_witness : exists w, pack_wire text_node (PackContent own_keys) true = succeed w /\
  identify_sender_and_unpack fresh w ([] ++ [(sender_pk text_node, author_pk text_node)]) = Some (Some (text_node <| pow_nonce := 0 |>)).
Proof.
  destruct packed_example as (w & Ew & Hno). destruct own_keys_facts as (E1 & E2 & E3 & E4 & E5 & E6 & E7). exists w. split; [exact Ew|].
  refine (sender_identified fresh text_node own_keys true w [] [] [] [] 0 (derive_keys (replicate 32 8)) 1 (proj2 node_ok_examples) E5 E6 Ew E7 E1 E2 E3 E4 _ _ Hno).
  - intros p Hp. destruct (not_elem_of_nil _ Hp).
  - intros e k He. destruct (not_elem_of_nil _ He).
Defined.

End ConversationTheory.
