(* ===== verification/SyncSession.v ===== *)
(** Synchronisation with a peer ([merkle-tox-core/src/engine/session/mod.rs],
    [handshake.rs], [active.rs]; messages and traits of [sync/mod.rs]): heads,
    queues of missing nodes, sketches, checksums of shards, proof-of-work
    challenges.

    What a session reads of the stores is a [StoreView]; time is passed in, and a
    nonce that the random generator makes is an argument.  [None] is a panic. *)

From S2P Require Import Prelude Protocol MsgPack ToxTypes Derive Iblt Merkle Dag.
From stdpp Require Import gmap sorting strings.
#[local] Open Scope Z_scope.
#[local] Open Scope list_scope.

Module SyncSession.
Import Dag IbltSketch.

Definition PowNonce : Type := bytes.
Definition ShardHash : Type := bytes.

Record SyncRange := mkRange { range_min : Z; range_max : Z }.
#[export] Instance SyncRange_eq_dec : EqDecision SyncRange.
Proof. solve_decision. Defined.
#[export] Instance SyncRange_countable : Countable SyncRange.
Proof. refine (inj_countable' (fun r => (range_min r, range_max r)) (fun p => mkRange p.1 p.2) _). by intros []. Defined.

Record SyncSketch := mkSketch { sketch_conversation : ConversationId; sketch_cells : list IbltCell; sketch_range : SyncRange }.
Record SyncHeads := mkHeads { heads_conversation : ConversationId; heads : list NodeHash; heads_flags : Z; anchor_hash : option NodeHash }.
Record FetchBatchReq := mkFetch { fetch_conversation : ConversationId; hashes : list NodeHash }.
Inductive DecodingResult := Success (missing_locally missing_remotely : list NodeHash) | Failed.

Definition FLAG_CAS_INVENTORY : Z := 1.
Definition SHARD_SIZE : Z := 1000.
Definition MAX_HEADS_SYNC : nat := 64.
Definition HOT_WINDOW_RANKS : Z := 1000.
Definition POW_CHALLENGE_TIMEOUT : Duration := from_secs 60.
Definition RECONCILIATION_INTERVAL : Duration := from_secs 60.
Definition DEFAULT_RECON_DIFFICULTY : Z := 12.

(** What is read of [NodeStore] and [BlobStore]. *)
Record StoreView := mkView {
  node_lookup : NodeLookup;
  get_heads : ConversationId -> list NodeHash;
  get_admin_heads : ConversationId -> list NodeHash;
  has_node : NodeHash -> bool;
  get_node_hashes_in_range : ConversationId -> SyncRange -> result MerkleToxError (list NodeHash)
}.
Definition BlobView : Type := NodeHash -> bool.

Record SessionCommon := mkCommon {
  reachable : bool;
  shallow : bool;
  min_rank : Z;
  min_timestamp : Z;
  local_heads : gset NodeHash;
  remote_heads : gset NodeHash;
  missing_admin_nodes : list NodeHash;
  missing_nodes_hot : list NodeHash;
  missing_nodes_cold : list NodeHash;
  in_flight_fetches : gset NodeHash;
  missing_blobs : gset NodeHash;
  peer_features : Z;
  time_samples : list Z;
  vouchers : gmap NodeHash (gset PhysicalDevicePk);
  iblt_tiers : gmap SyncRange Tier;
  exhausted_iblt_ranges : gset SyncRange;
  heads_dirty : bool;
  recon_dirty : bool;
  last_recon_time : Instant;
  effective_difficulty : Z;
  difficulty_votes : gmap PhysicalDevicePk Z;
  pending_challenges : gmap PowNonce Instant;
  pending_sketches : gmap PowNonce SyncSketch;
  rate_limited_until : option Instant;
  max_backfill_nodes : Z;
  backfill_count : Z;
  remote_anchor_hash : option NodeHash
}.
#[global] Instance eta_SessionCommon : Settable SessionCommon := fun c =>
  mkCommon (reachable c) (shallow c) (min_rank c) (min_timestamp c) (local_heads c) (remote_heads c) (missing_admin_nodes c) (missing_nodes_hot c)
    (missing_nodes_cold c) (in_flight_fetches c) (missing_blobs c) (peer_features c) (time_samples c) (vouchers c) (iblt_tiers c)
    (exhausted_iblt_ranges c) (heads_dirty c) (recon_dirty c) (last_recon_time c) (effective_difficulty c) (difficulty_votes c)
    (pending_challenges c) (pending_sketches c) (rate_limited_until c) (max_backfill_nodes c) (backfill_count c) (remote_anchor_hash c).

Inductive Handshake := HandshakeState.
Inductive Active := ActiveState.

Record SyncSession (S : Type) := mkSession { conversation_id : ConversationId; common : SessionCommon; state : S }.
Arguments mkSession {S} conversation_id common state.
Arguments conversation_id {S} _.
Arguments common {S} _.
Arguments state {S} _.

(** [&mut self.common] *)
Definition on_common {S} (f : SessionCommon -> SessionCommon) (s : SyncSession S) : SyncSession S := mkSession (conversation_id s) (f (common s)) (state s).

Inductive PeerSession := HandshakePeer (s : SyncSession Handshake) | ActivePeer (s : SyncSession Active).

Definition with_limits {S} (s : SyncSession S) (rank timestamp : Z) : SyncSession S :=
  on_common (fun c => c <| min_rank := rank |> <| min_timestamp := timestamp |>) s.

(** The largest of a list, or 0. *)
Definition max_or_0 (l : list Z) : Z := foldr Z.max 0 l.

Section Session.
Context `{Rmp} `{Blake3Hash} `{Ed25519} `{Blake3} `{HashOrder}.

Definition record_vouch (node_hash : NodeHash) (peer : PhysicalDevicePk) (c : SessionCommon) : SessionCommon :=
  c <| vouchers := <[node_hash := default ∅ (vouchers c !! node_hash) ∪ {[peer]}]> (vouchers c) |>.

Definition heads_list (c : SessionCommon) : list NodeHash := take MAX_HEADS_SYNC (elements_of (local_heads c)).

(** A node that is neither stored nor queued nor requested. *)
Definition is_missing (store : StoreView) (h : NodeHash) (c : SessionCommon) : bool :=
  negb (has_node store h) && negb (bool_decide (h ∈ missing_nodes_hot c)) && negb (bool_decide (h ∈ missing_nodes_cold c)) &&
  negb (bool_decide (h ∈ in_flight_fetches c)).

Definition push_hot (h : NodeHash) (c : SessionCommon) : SessionCommon := c <| missing_nodes_hot := missing_nodes_hot c ++ [h] |>.
Definition push_hot_front (h : NodeHash) (c : SessionCommon) : SessionCommon := c <| missing_nodes_hot := h :: missing_nodes_hot c |>.

(** The loops that queue what is missing of a list. *)
Definition want_hot (store : StoreView) (c : SessionCommon) (hs : list NodeHash) : SessionCommon :=
  foldl (fun c h => if is_missing store h c then push_hot h c else c) c hs.

(** The first part of [on_node_received]: the heads. *)
Definition note_node (store : StoreView) (n : MerkleNode) (hash : NodeHash) (c : SessionCommon) : SessionCommon :=
  let c := c <| in_flight_fetches := in_flight_fetches c ∖ {[hash]} |> in
  let c := foldl (fun c p => c <| local_heads := local_heads c ∖ {[p]} |>) c (parents n) in
  let c := if has_children (node_lookup store) hash then c else c <| local_heads := local_heads c ∪ {[hash]} |> in
  c <| heads_dirty := true |>.

(** ** Handshake *)

Definition new_handshake (conversation : ConversationId) (store : StoreView) (is_shallow : bool) (now : Instant) : SyncSession Handshake :=
  mkSession conversation
    (mkCommon true is_shallow 0 0 (list_to_set (get_heads store conversation)) ∅ [] [] [] ∅ ∅ 0 [] ∅ ∅ ∅ true true now
       DEFAULT_RECON_DIFFICULTY ∅ ∅ ∅ None 0 0 None)
    HandshakeState.

(** The parents of an admin node go to the front. *)
Definition want_parents (store : StoreView) (is_admin : bool) (c : SessionCommon) (ps : list NodeHash) : SessionCommon :=
  foldl (fun c p => if is_missing store p c then (if is_admin then push_hot_front p c else push_hot p c) else c) c ps.

Definition handshake_on_node_received (s : SyncSession Handshake) (n : MerkleNode) (store : StoreView) : option (SyncSession Handshake) :=
  h ← hash n;
  Some (on_common (fun c => want_parents store (bool_decide (node_type n = Admin)) (note_node store n h c) (parents n)) s).

Definition handshake_make_sync_heads (s : SyncSession Handshake) (flags : Z) : SyncHeads :=
  mkHeads (conversation_id s) (heads_list (common s)) flags None.

Definition handshake_next_wakeup (now : Instant) : Instant := now + from_secs 3600.

Definition activate (s : SyncSession Handshake) (features : Z) : SyncSession Active :=
  mkSession (conversation_id s) ((common s) <| peer_features := features |>) ActiveState.

(** ** Tiers *)

Definition get_iblt_tier (s : SyncSession Active) (range : SyncRange) : option Tier :=
  if bool_decide (range ∈ exhausted_iblt_ranges (common s)) then None else Some (default Small (iblt_tiers (common s) !! range)).

Definition next_tier (t : Tier) : option Tier := match t with Tiny => Some Small | Small => Some Medium | Medium => Some Large | Large => None end.

Definition promote_iblt_tier (s : SyncSession Active) (range : SyncRange) : SyncSession Active :=
  if bool_decide (range ∈ exhausted_iblt_ranges (common s)) then s
  else
    match next_tier (default Small (get_iblt_tier s range)) with
    | Some n => on_common (fun c => c <| iblt_tiers := <[range := n]> (iblt_tiers c) |>) s
    | None => on_common (fun c => c <| exhausted_iblt_ranges := exhausted_iblt_ranges c ∪ {[range]} |> <| iblt_tiers := delete range (iblt_tiers c) |>) s
    end.

Definition handle_sync_recon_fail := promote_iblt_tier.

(** ** Missing nodes *)

Definition on_wire_node_received (s : SyncSession Active) (hash : NodeHash) (w : WireNode) (store : StoreView) : SyncSession Active :=
  on_common (fun c => want_hot store (c <| in_flight_fetches := in_flight_fetches c ∖ {[hash]} |>) (wire_parents w)) s.

Definition max_head_rank (store : StoreView) (hs : list NodeHash) : Z := max_or_0 (omap (get_rank (node_lookup store)) hs).

Definition enqueue_missing (c : SessionCommon) (hash : NodeHash) (hint_rank : option Z) (store : StoreView) : option SessionCommon :=
  if bool_decide (hash ∈ in_flight_fetches c) then Some c
  else if bool_decide (hash ∈ missing_nodes_hot c) || bool_decide (hash ∈ missing_nodes_cold c) then Some c
  else
    let max_head := max_head_rank store (elements_of (local_heads c) ++ elements_of (remote_heads c)) in
    is_hot ← match hint_rank with None => Some true | Some r => x ← chk_u64 (r + HOT_WINDOW_RANKS); Some (max_head <=? x) end;
    Some (if (is_hot : bool) then push_hot hash c else c <| missing_nodes_cold := missing_nodes_cold c ++ [hash] |>).

Definition handle_sync_heads (s : SyncSession Active) (m : SyncHeads) (store : StoreView) : SyncSession Active :=
  if negb (bool_decide (heads_conversation m = conversation_id s)) then s
  else
    on_common (fun c =>
      let c := match anchor_hash m with Some a => c <| remote_anchor_hash := Some a |> | None => c end in
      foldl (fun c h =>
        let c := c <| remote_heads := remote_heads c ∪ {[h]} |> in
        if is_missing store h c then push_hot h c else c) c (heads m)) s.

(** One loop of [next_fetch_batch]: what is left of a queue, what is in flight, and
    the batch. *)
Fixpoint drain (queue : list NodeHash) (in_flight : gset NodeHash) (batch : list NodeHash) (batch_size : Z) : list NodeHash * gset NodeHash * list NodeHash :=
  match queue with
  | [] => ([], in_flight, batch)
  | h :: queue' =>
      if len batch <? batch_size then
        if decide (h ∈ in_flight) then drain queue' in_flight batch batch_size
        else drain queue' (in_flight ∪ {[h]}) (batch ++ [h]) batch_size
      else (queue, in_flight, batch)
  end.

Definition next_fetch_batch (s : SyncSession Active) (batch_size : Z) : SyncSession Active * option FetchBatchReq :=
  let c := common s in
  let '(admin, in_flight, batch) := drain (missing_admin_nodes c) (in_flight_fetches c) [] batch_size in
  let '(hot, in_flight, batch) := drain (missing_nodes_hot c) in_flight batch batch_size in
  let '(cold, in_flight, batch) := drain (missing_nodes_cold c) in_flight batch batch_size in
  let s := on_common (fun c => c <| missing_admin_nodes := admin |> <| missing_nodes_hot := hot |> <| missing_nodes_cold := cold |>
                                <| in_flight_fetches := in_flight |>) s in
  (s, match batch with [] => None | _ => Some (mkFetch (conversation_id s) batch) end).

(** The parents of an admin node go to the front, others by their rank. *)
Fixpoint enqueue_parents (store : StoreView) (n : MerkleNode) (is_admin : bool) (c : SessionCommon) (ps : list NodeHash) : option SessionCommon :=
  match ps with
  | [] => Some c
  | p :: ps =>
      c ← (if is_missing store p c
           then if is_admin then Some (push_hot_front p c) else enqueue_missing c p (Some (sat_sub (topological_rank n) 1)) store
           else Some c);
      enqueue_parents store n is_admin c ps
  end.

Definition is_snapshot (c : Content) : bool :=
  match c with Control (Snapshot _) | Control (AnchorSnapshot _ _) => true | _ => false end.

Definition on_node_received (s : SyncSession Active) (n : MerkleNode) (store : StoreView) (blobs : option BlobView) : option (SyncSession Active) :=
  h ← hash n;
  let c := note_node store n h (common s) in
  let c := match content n, blobs with
           | Blob bh _ _ _ _, Some has_blob => if has_blob bh then c else c <| missing_blobs := missing_blobs c ∪ {[bh]} |>
           | _, _ => c
           end in
  let finish c := Some (mkSession (conversation_id s) c (state s)) in
  if is_snapshot (content n) && shallow c then finish c
  else if shallow c && ((topological_rank n <=? min_rank c) || (network_timestamp n <=? min_timestamp c)) then finish c
  else
    let is_admin := bool_decide (node_type n = Admin) in
    '(c, full) ← (if shallow c && (0 <? max_backfill_nodes c) then
                    k ← (if is_admin then Some (backfill_count c) else chk_u64 (backfill_count c + 1));
                    Some (c <| backfill_count := k |>, max_backfill_nodes c <=? k)
                  else Some (c, false));
    if (full : bool) then finish c
    else c ← enqueue_parents store n is_admin c (parents n); finish c.

(** ** Sketches *)

(** [for hash in hashes { iblt.insert(hash) }] *)
Fixpoint insert_all (sk : IbltSketch.t) (hs : list NodeHash) : option IbltSketch.t :=
  match hs with [] => Some sk | h :: hs => sk ← IbltSketch.insert sk h; insert_all sk hs end.

Definition make_sync_sketch_keyed (s : SyncSession Active) (range : SyncRange) (tier : Tier) (store : StoreView) (k_iblt : option bytes) :
    Outcome MerkleToxError SyncSketch :=
  let? hs := Some (get_node_hashes_in_range store (conversation_id s) range) in
  match insert_all (new_keyed (cell_count tier) k_iblt) hs with
  | Some iblt => succeed (mkSketch (conversation_id s) (cells iblt) range)
  | None => None
  end.
Definition make_sync_sketch (s : SyncSession Active) (range : SyncRange) (tier : Tier) (store : StoreView) :=
  make_sync_sketch_keyed s range tier store None.

Definition handle_sync_sketch_keyed (s : SyncSession Active) (sketch : SyncSketch) (store : StoreView) (k_iblt : option bytes) :
    option (SyncSession Active * result MerkleToxError DecodingResult) :=
  if negb (bool_decide (sketch_conversation sketch = conversation_id s)) then Some (s, Ok Failed)
  else
    match get_node_hashes_in_range store (conversation_id s) (sketch_range sketch) with
    | Err e => Some (s, Err e)
    | Ok local_hashes =>
        local_iblt ← insert_all (new_keyed (len (sketch_cells sketch)) k_iblt) local_hashes;
        r ← subtract (from_cells_keyed (sketch_cells sketch) k_iblt) local_iblt;
        match r with
        | Err _ => Some (s, Err (Reconciliation "Sketch subtraction failed: Invalid sketch: cell count mismatch"))
        | Ok remote_iblt =>
            '(_, d) ← decode remote_iblt;
            match d with
            | Ok (missing_locally, missing_remotely, _) =>
                Some (on_common (fun c => want_hot store c missing_locally) s, Ok (Success missing_locally missing_remotely))
            | Err _ => Some (promote_iblt_tier s (sketch_range sketch), Ok Failed)
            end
        end
    end.
Definition handle_sync_sketch (s : SyncSession Active) (sketch : SyncSketch) (store : StoreView) := handle_sync_sketch_keyed s sketch store None.

(** ** Heads and shards *)

Definition make_sync_heads_with_store (s : SyncSession Active) (flags : Z) (store : option StoreView) : SyncHeads :=
  mkHeads (conversation_id s) (heads_list (common s)) flags (st ← store; head (get_admin_heads st (conversation_id s))).
Definition make_sync_heads (s : SyncSession Active) (flags : Z) : SyncHeads := make_sync_heads_with_store s flags None.

(** The loop over the shards; hashes are sorted as bytes. *)
Fixpoint shard_checksums (store : StoreView) (conversation : ConversationId) (starts : list Z) : Outcome MerkleToxError (list (SyncRange * ShardHash)) :=
  match starts with
  | [] => succeed []
  | start :: starts =>
      match (x ← chk_u64 (start + SHARD_SIZE); chk_u64 (x - 1)) with
      | None => None
      | Some last =>
          let range := mkRange start last in
          let? hs := Some (get_node_hashes_in_range store conversation range) in
          let checksum := blake3 (concat (merge_sort bytes_le hs)) in
          let? rest := shard_checksums store conversation starts in
          succeed ((range, checksum) :: rest)
      end
  end.

(** [(0..=max_rank).step_by(SHARD_SIZE)] *)
Definition shard_starts (max_rank : Z) : list Z := (fun i => i * SHARD_SIZE) <$> zrange 0 (max_rank / SHARD_SIZE + 1).

Definition make_sync_shard_checksums (s : SyncSession Active) (store : StoreView) : Outcome MerkleToxError (list (SyncRange * ShardHash)) :=
  shard_checksums store (conversation_id s) (shard_starts (max_head_rank store (get_heads store (conversation_id s)))).

Definition handle_sync_shard_checksums (s : SyncSession Active) (remote_shards : list (SyncRange * ShardHash)) (store : StoreView) :
    Outcome MerkleToxError (list SyncRange) :=
  let? local_shards := make_sync_shard_checksums s store in
  let local_map : gmap SyncRange ShardHash := foldl (fun m p => <[p.1 := p.2]> m) ∅ local_shards in
  succeed (fst <$> List.filter (fun p => negb (bool_decide (local_map !! p.1 = Some p.2))) remote_shards).

(** ** Timers *)

Definition next_wakeup (s : SyncSession Active) (now : Instant) : Instant :=
  let c := common s in
  let has_fetchable_missing :=
    existsb (fun h => negb (bool_decide (h ∈ in_flight_fetches c))) (missing_admin_nodes c ++ missing_nodes_hot c ++ missing_nodes_cold c) in
  let wakeup := if heads_dirty c || recon_dirty c || has_fetchable_missing then now else now + from_secs 3600 in
  let wakeup := foldl (fun w e => Z.min w (Z.max e.2 now)) wakeup (iterate (pending_challenges c)) in
  let next_recon := last_recon_time c + RECONCILIATION_INTERVAL in
  let wakeup := if now <? next_recon then Z.min wakeup next_recon else wakeup in
  match rate_limited_until c with
  | Some until => if now <? until then Z.min wakeup until else wakeup
  | None => wakeup
  end.

(** ** Proof-of-work challenges *)

Definition generate_challenge (s : SyncSession Active) (sketch : SyncSketch) (now : Instant) (nonce : PowNonce) : SyncSession Active :=
  on_common (fun c => c <| pending_challenges := <[nonce := now + POW_CHALLENGE_TIMEOUT]> (pending_challenges c) |>
                        <| pending_sketches := <[nonce := sketch]> (pending_sketches c) |>) s.

Definition take_pending_sketch (s : SyncSession Active) (nonce : PowNonce) : SyncSession Active * option SyncSketch :=
  (on_common (fun c => c <| pending_sketches := delete nonce (pending_sketches c) |>) s, pending_sketches (common s) !! nonce).

Definition solves (nonce : PowNonce) (solution difficulty : Z) : bool := difficulty <=? count_leading_zeros (blake3 (nonce ++ le_bytes 8 solution)).

Definition forget_challenge (nonce : PowNonce) : SyncSession Active -> SyncSession Active :=
  on_common (fun c => c <| pending_challenges := delete nonce (pending_challenges c) |>).

Definition verify_solution (s : SyncSession Active) (nonce : PowNonce) (solution : Z) (now : Instant) : SyncSession Active * bool :=
  match pending_challenges (common s) !! nonce with
  | Some expiry =>
      if expiry <? now then (forget_challenge nonce s, false)
      else if solves nonce solution (effective_difficulty (common s)) then (forget_challenge nonce s, true) else (s, false)
  | None => (s, false)
  end.

Definition update_difficulty_consensus (s : SyncSession Active) (voter : PhysicalDevicePk) (difficulty : Z) : option (SyncSession Active) :=
  let votes := <[voter := difficulty]> (difficulty_votes (common s)) in
  let sorted := merge_sort Z.le (snd <$> iterate votes) in
  d ← (if bool_decide (sorted = []) then Some DEFAULT_RECON_DIFFICULTY else idx sorted (len sorted / 2));
  Some (on_common (fun c => c <| difficulty_votes := votes |> <| effective_difficulty := d |>) s).

(** The loop of [solve_challenge] from [solution] on. *)
Fixpoint solve_challenge (fuel : nat) (nonce : PowNonce) (difficulty solution : Z) : option Z :=
  match fuel with
  | O => None
  | S fuel => if solves nonce solution difficulty then Some solution else next ← chk_u64 (solution + 1); solve_challenge fuel nonce difficulty next
  end.

(** ** New nodes *)

Definition create_node (s : SyncSession Active) (author : LogicalIdentityPk) (sender : PhysicalDevicePk) (c : Content) (meta : bytes) (timestamp seq : Z)
    (store : StoreView) : option MerkleNode :=
  let ps := elements_of (local_heads (common s)) in
  let max_parent_rank := max_head_rank store ps in
  rank ← (if bool_decide (ps = []) then Some 0 else chk_u64 (max_parent_rank + 1));
  Some (mkNode ps author sender seq rank timestamp c meta (EphemeralSignature (replicate 64 0)) 0).

(** ** Sessions of either kind *)

Definition peer_common (p : PeerSession) : SessionCommon := match p with HandshakePeer s => common s | ActivePeer s => common s end.
Definition peer_conversation (p : PeerSession) : ConversationId := match p with HandshakePeer s => conversation_id s | ActivePeer s => conversation_id s end.
(** Assignment through [common_mut]. *)
Definition on_peer_common (f : SessionCommon -> SessionCommon) (p : PeerSession) : PeerSession :=
  match p with HandshakePeer s => HandshakePeer (on_common f s) | ActivePeer s => ActivePeer (on_common f s) end.
Definition peer_on_node_received (p : PeerSession) (n : MerkleNode) (store : StoreView) (blobs : option BlobView) : option PeerSession :=
  match p with
  | HandshakePeer s => HandshakePeer <$> handshake_on_node_received s n store
  | ActivePeer s => ActivePeer <$> on_node_received s n store blobs
  end.
Definition peer_on_wire_node_received (p : PeerSession) (hash : NodeHash) (w : WireNode) (store : StoreView) : PeerSession :=
  match p with HandshakePeer _ => p | ActivePeer s => ActivePeer (on_wire_node_received s hash w store) end.
Definition peer_record_vouch (p : PeerSession) (node_hash : NodeHash) (peer : PhysicalDevicePk) : PeerSession := on_peer_common (record_vouch node_hash peer) p.
Definition peer_make_sync_heads (p : PeerSession) (flags : Z) : SyncHeads :=
  match p with HandshakePeer s => handshake_make_sync_heads s flags | ActivePeer s => make_sync_heads s flags end.

End Session.
End SyncSession.
