(* ===== verification/SyncTheory.v ===== *)
(** What synchronisation guarantees: no hash is queued twice in one place and none
    is forgotten before it is requested; what sketches and checksums of shards find; challenges
    are solved once; a minority of votes does not move the difficulty. *)

From S2P Require Import Prelude Protocol MsgPack MsgPackTheory ToxTypes ToxTheory Derive MsgPackFormat Iblt IbltTheory Merkle MerkleModels Dag DagCodec DagValid SyncSession.
From stdpp Require Import gmap sorting strings.
#[local] Open Scope Z_scope.
#[local] Open Scope list_scope.

Module SyncTheory.
Import Dag IbltSketch SyncSession.

(** ** Queues *)

(** The elements of a list that are new, each once. *)
Fixpoint first_new (seen : gset NodeHash) (l : list NodeHash) : list NodeHash :=
  match l with [] => [] | h :: l => if decide (h ∈ seen) then first_new seen l else h :: first_new (seen ∪ {[h]}) l end.

Lemma first_new_spec seen l : NoDup (first_new seen l) /\ forall h, h ∈ first_new seen l <-> h ∈ l /\ h ∉ seen.
Proof.
  revert seen. induction l as [|x l IH]; intros seen; cbn; [split; [constructor|intros h; by rewrite elem_of_nil; naive_solver]|].
  case_decide as Hx.
  - destruct (IH seen) as [Hnd Hin]. split; [done|]. intros h. rewrite Hin, elem_of_cons. naive_solver.
  - destruct (IH (seen ∪ {[x]})) as [Hnd Hin]. split; [constructor; [rewrite Hin; set_solver|done]|]. intros h. rewrite !elem_of_cons, Hin. destruct (decide (h = x)) as [->|]; set_solver.
Qed.

Lemma first_new_app seen a b : first_new seen (a ++ b) = first_new seen a ++ first_new (seen ∪ list_to_set a) b.
Proof.
  revert seen. induction a as [|x a IH]; intros seen; cbn; [by rewrite union_empty_r_L|]. case_decide as Hx.
  - rewrite IH. f_equal. f_equal. set_solver.
  - rewrite IH. cbn. f_equal. f_equal. f_equal. set_solver.
Qed.

(** What a loop takes off a queue. *)
Lemma drain_spec queue fl batch n : exists used rest, queue = used ++ rest /\
  drain queue fl batch n = (rest, fl ∪ list_to_set used, batch ++ first_new fl used) /\
  (rest <> [] -> n <= len (batch ++ first_new fl used)) /\ (len batch <= n -> len (batch ++ first_new fl used) <= n) /\
  (n <= len batch -> used = []).
Proof.
  revert fl batch. induction queue as [|h queue IH]; intros fl batch; cbn [drain].
  - exists [], []. cbn. rewrite union_empty_r_L, app_nil_r. by split_and!.
  - destruct (Z.ltb_spec (len batch) n) as [Hlt|Hge].
    + case_decide as Hh.
      * destruct (IH fl batch) as (used & rest & -> & -> & Hr & Hl & _). exists (h :: used), rest. cbn. rewrite decide_True by done. split_and!; try done; [f_equal; f_equal; set_solver|lia].
      * destruct (IH (fl ∪ {[h]}) (batch ++ [h])) as (used & rest & -> & -> & Hr & Hl & _). exists (h :: used), rest. cbn. rewrite decide_False by done.
        rewrite <- app_assoc in Hr, Hl |- *. cbn in Hr, Hl |- *. split_and!; try done; [f_equal; f_equal; set_solver| |lia]. intros _. apply Hl. rewrite len_app. unfold len at 2. cbn. lia.
    + exists [], (h :: queue). cbn. rewrite union_empty_r_L, app_nil_r. split_and!; try done.
Qed.

(** Everything that waits, in the order of priority. *)
Definition waiting (c : SessionCommon) : list NodeHash := missing_admin_nodes c ++ missing_nodes_hot c ++ missing_nodes_cold c.

Lemma fetch_batch_runs s n : 0 <= n -> exists used rest, waiting (common s) = used ++ rest /\
  let batch := first_new (in_flight_fetches (common s)) used in
  exists s', next_fetch_batch s n = (s', match batch with [] => None | _ => Some (mkFetch (conversation_id s) batch) end) /\
    waiting (common s') = rest /\ in_flight_fetches (common s') = in_flight_fetches (common s) ∪ list_to_set used /\
    (missing_admin_nodes (common s') `suffix_of` missing_admin_nodes (common s)) /\
    (missing_nodes_hot (common s') `suffix_of` missing_nodes_hot (common s)) /\ (missing_nodes_cold (common s') `suffix_of` missing_nodes_cold (common s)) /\
    (rest <> [] -> n <= len batch) /\ len batch <= n.
Proof.
  intros Hn. unfold next_fetch_batch. set (c := common s). set (fl := in_flight_fetches c).
  destruct (drain_spec (missing_admin_nodes c) fl [] n) as (u1 & r1 & E1 & -> & Hr1 & Hl1 & _). cbn [app] in *.
  destruct (drain_spec (missing_nodes_hot c) (fl ∪ list_to_set u1) (first_new fl u1) n) as (u2 & r2 & E2 & -> & Hr2 & Hl2 & Hu2).
  destruct (drain_spec (missing_nodes_cold c) (fl ∪ list_to_set u1 ∪ list_to_set u2) (first_new fl u1 ++ first_new (fl ∪ list_to_set u1) u2) n) as (u3 & r3 & E3 & -> & Hr3 & Hl3 & Hu3).
  exists (u1 ++ u2 ++ u3), (r1 ++ r2 ++ r3). split.
  { unfold waiting. rewrite E1, E2, E3. destruct (decide (r1 = [])) as [->|H1].
    - destruct (decide (r2 = [])) as [->|H2]; [by rewrite !app_nil_r, <- !app_assoc|]. rewrite (Hu3 ltac:(by apply Hr2)). cbn. by rewrite app_nil_r, <- !app_assoc.
    - rewrite (Hu2 ltac:(by apply Hr1)) in *. rewrite Hu3; [cbn; by rewrite app_nil_r, <- !app_assoc|]. cbn. rewrite app_nil_r. by apply Hr1. }
  assert (first_new fl (u1 ++ u2 ++ u3) = (first_new fl u1 ++ first_new (fl ∪ list_to_set u1) u2) ++ first_new (fl ∪ list_to_set u1 ∪ list_to_set u2) u3) as ->.
  { by rewrite !first_new_app, app_assoc. }
  eexists. split; [done|]. cbn. split_and!; [done|set_solver|by exists u1|by exists u2|by exists u3| |by apply Hl3, Hl2, Hl1].
  intros Hne. destruct (decide (r3 = [])) as [->|H3]; [|by apply Hr3]. rewrite app_nil_r in Hne. rewrite len_app.
  pose proof (len_nonneg (first_new (fl ∪ list_to_set u1 ∪ list_to_set u2) u3)). destruct (decide (r2 = [])) as [->|H2].
  - rewrite app_nil_r in Hne. specialize (Hr1 Hne). rewrite len_app. pose proof (len_nonneg (first_new (fl ∪ list_to_set u1) u2)). lia.
  - specialize (Hr2 H2). lia.
Qed.

(** ** Sessions in general *)

(** No hash waits twice among the nodes that are fetched first, nor among the others.  One
    that was gossiped may wait in both places. *)
Definition tidy (c : SessionCommon) : Prop := NoDup (missing_admin_nodes c) /\ NoDup (missing_nodes_hot c ++ missing_nodes_cold c).

Lemma tidy_same c c' : missing_admin_nodes c' = missing_admin_nodes c -> missing_nodes_hot c' = missing_nodes_hot c -> missing_nodes_cold c' = missing_nodes_cold c -> tidy c -> tidy c'.
Proof. intros E1 E2 E3. unfold tidy. by rewrite E1, E2, E3. Qed.

Lemma tidy_suffix c c' : (missing_admin_nodes c' `suffix_of` missing_admin_nodes c) -> (missing_nodes_hot c' `suffix_of` missing_nodes_hot c) ->
  (missing_nodes_cold c' `suffix_of` missing_nodes_cold c) -> tidy c -> tidy c'.
Proof.
  intros [t E] [u E1] [v E2]. unfold tidy. rewrite E, E1, E2. intros [Ha Hnd]. split; [by apply NoDup_app in Ha as (_ & _ & ?)|].
  eapply sublist_NoDup; [exact Hnd|]. apply sublist_app; by apply sublist_inserts_l.
Qed.

Lemma missing_spec store h c : is_missing store h c = true <->
  has_node store h = false /\ (h ∉ missing_nodes_hot c) /\ (h ∉ missing_nodes_cold c) /\ (h ∉ in_flight_fetches c).
Proof. unfold is_missing. rewrite !andb_true_iff, !negb_true_iff, !bool_decide_eq_false. tauto. Qed.

Lemma push_hot_tidy h c : h ∉ missing_nodes_hot c -> h ∉ missing_nodes_cold c -> tidy c -> tidy (push_hot h c).
Proof.
  intros Hh Hc [Ha Ht]. split; [exact Ha|]. unfold push_hot. cbn. rewrite <- app_assoc. cbn. rewrite <- Permutation_middle. constructor; [|done]. by rewrite elem_of_app; intros [?|?].
Qed.
Lemma push_front_tidy h c : h ∉ missing_nodes_hot c -> h ∉ missing_nodes_cold c -> tidy c -> tidy (push_hot_front h c).
Proof. intros Hh Hc [Ha Ht]. split; [exact Ha|]. unfold push_hot_front. cbn. constructor; [|done]. by rewrite elem_of_app; intros [?|?]. Qed.
Lemma push_cold_tidy h c : h ∉ missing_nodes_hot c -> h ∉ missing_nodes_cold c -> tidy c -> tidy (c <| missing_nodes_cold := missing_nodes_cold c ++ [h] |>).
Proof.
  intros Hh Hc [Ha Ht]. split; [exact Ha|]. cbn. rewrite app_assoc. rewrite Permutation_app_comm. cbn. constructor; [|done]. by rewrite elem_of_app; intros [?|?].
Qed.

(** An operation that queues no hash twice and forgets none. *)
Definition kept (c c' : SessionCommon) : Prop := (tidy c -> tidy c') /\ waiting c ⊆ waiting c'.
#[export] Instance kept_preorder : PreOrder kept.
Proof. split; [by intros c|]. intros a b c [H1 H2] [H3 H4]. split; [auto|by etrans]. Qed.

(** The queues are left alone. *)
Definition same_queues (c c' : SessionCommon) : Prop :=
  missing_admin_nodes c' = missing_admin_nodes c /\ missing_nodes_hot c' = missing_nodes_hot c /\ missing_nodes_cold c' = missing_nodes_cold c.
Lemma same_kept c c' : same_queues c c' -> kept c c'.
Proof. intros (E1 & E2 & E3). split; [by apply tidy_same|]. unfold waiting. by rewrite E1, E2, E3. Qed.

Lemma push_hot_kept h c : h ∉ missing_nodes_hot c -> h ∉ missing_nodes_cold c -> kept c (push_hot h c).
Proof. intros Hh Hc. split; [by apply push_hot_tidy|]. unfold waiting, push_hot. cbn. set_solver. Qed.
Lemma push_front_kept h c : h ∉ missing_nodes_hot c -> h ∉ missing_nodes_cold c -> kept c (push_hot_front h c).
Proof. intros Hh Hc. split; [by apply push_front_tidy|]. unfold waiting, push_hot_front. cbn. set_solver. Qed.

(** A loop whose steps are related relates its ends. *)
Lemma foldl_related {A B} (R : A -> A -> Prop) `{!PreOrder R} (f : A -> B -> A) l a : (forall a b, R a (f a b)) -> R a (foldl f a l).
Proof. intros Hf. revert a. induction l as [|b l IH]; intros a; [done|]. cbn. etrans; [apply (Hf a b)|apply IH]. Qed.

Lemma want_step_kept store c h : kept c (if is_missing store h c then push_hot h c else c).
Proof. destruct (is_missing store h c) eqn:E; [|done]. apply missing_spec in E as (_ & ? & ? & _). by apply push_hot_kept. Qed.

Lemma want_hot_kept store c hs : kept c (want_hot store c hs).
Proof. apply (foldl_related kept). intros c' h. apply want_step_kept. Qed.

Lemma want_parents_kept store b c ps : kept c (want_parents store b c ps).
Proof.
  apply (foldl_related kept). intros c' p. destruct (is_missing store p c') eqn:E; [|done]. apply missing_spec in E as (_ & ? & ? & _).
  destruct b; [by apply push_front_kept|by apply push_hot_kept].
Qed.

(** After the loop nothing of the list is missing. *)
Lemma want_step_here store c h : has_node store h = false -> let c' := if is_missing store h c then push_hot h c else c in
  h ∈ waiting c' \/ h ∈ in_flight_fetches c'.
Proof.
  intros Hn. cbn. destruct (is_missing store h c) eqn:E; [left; unfold waiting, push_hot; cbn; set_solver|]. apply not_true_iff_false in E. rewrite missing_spec in E.
  unfold waiting. destruct (decide (h ∈ missing_nodes_hot c)), (decide (h ∈ missing_nodes_cold c)), (decide (h ∈ in_flight_fetches c)); try set_solver; naive_solver.
Qed.

Lemma want_hot_in_flight store c hs : in_flight_fetches (want_hot store c hs) = in_flight_fetches c.
Proof. unfold want_hot. revert c. induction hs as [|h hs IH]; intros c; cbn; [done|]. rewrite IH. by destruct (is_missing store h c). Qed.

Lemma want_hot_all store c hs h : h ∈ hs -> has_node store h = false -> h ∈ waiting (want_hot store c hs) \/ h ∈ in_flight_fetches (want_hot store c hs).
Proof.
  intros Hh Hn. rewrite want_hot_in_flight. revert c. induction Hh as [h hs|h x hs _ IH]; intros c; cbn [want_hot foldl].
  - destruct (want_step_here store c h Hn) as [Hw|Hf]; [left|right; destruct (is_missing store h c); exact Hf].
    destruct (want_hot_kept store (if is_missing store h c then push_hot h c else c) hs) as [_ Hk]. by apply Hk.
  - destruct (IH Hn (if is_missing store x c then push_hot x c else c)) as [?|Hf]; [by left|right]. by destruct (is_missing store x c).
Qed.

Section Operations.
Context `{Rmp} `{Blake3Hash} `{Ed25519} `{Blake3} `{HashOrder}.

Lemma note_node_same store n h c : same_queues c (note_node store n h c).
Proof.
  unfold note_node. set (c1 := c <| in_flight_fetches := _ |>). assert (same_queues c (foldl (fun c p => c <| local_heads := local_heads c ∖ {[p]} |>) c1 (parents n))) as Hf.
  { assert (forall c2, same_queues c c2 -> same_queues c (foldl (fun c p => c <| local_heads := local_heads c ∖ {[p]} |>) c2 (parents n))) as Hi; [|by apply Hi].
    induction (parents n) as [|p ps IH]; intros c2 Hc2; [done|]. cbn. by apply IH. }
  destruct (has_children _ _); exact Hf.
Qed.

Lemma enqueue_kept c h hint store c' : enqueue_missing c h hint store = Some c' -> kept c c'.
Proof.
  unfold enqueue_missing. case_bool_decide as Hf; [by intros [= <-]|]. destruct (bool_decide (h ∈ missing_nodes_hot c)) eqn:Eh; cbn [orb]; [by intros [= <-]|].
  destruct (bool_decide (h ∈ missing_nodes_cold c)) eqn:Ec; [by intros [= <-]|]. apply bool_decide_eq_false in Eh, Ec. intros (hot & _ & [= <-])%bind_Some. destruct hot; [by apply push_hot_kept|].
  split; [by apply push_cold_tidy|]. unfold waiting. cbn. set_solver.
Qed.

Lemma enqueue_parents_kept store n b c ps c' : enqueue_parents store n b c ps = Some c' -> kept c c'.
Proof.
  revert c. induction ps as [|p ps IH]; intros c; cbn [enqueue_parents]; [by intros [= <-]|]. intros (c1 & E1 & E)%bind_Some. etrans; [|by apply IH].
  destruct (is_missing store p c) eqn:Em; [|by injection E1 as <-]. destruct b; [|by apply enqueue_kept in E1]. injection E1 as <-.
  apply missing_spec in Em as (_ & ? & ? & _). by apply push_front_kept.
Qed.

Lemma promote_same s range : same_queues (common s) (common (promote_iblt_tier s range)).
Proof. unfold promote_iblt_tier. case_bool_decide; [done|]. by destruct (next_tier _). Qed.

(** An admin node that is gossiped and not stored ([on_admin_gossip] of [Handlers.v]). *)
Definition hear_gossip (h : NodeHash) (c : SessionCommon) : SessionCommon :=
  if bool_decide (h ∈ in_flight_fetches c) || bool_decide (h ∈ missing_admin_nodes c) then c
  else c <| missing_admin_nodes := missing_admin_nodes c ++ [h] |> <| heads_dirty := true |>.

Lemma gossip_kept h c : kept c (hear_gossip h c).
Proof.
  unfold hear_gossip. case_bool_decide; [done|]. cbn [orb]. case_bool_decide as Hh; [done|]. split; [|unfold waiting; cbn; set_solver].
  intros [Ha Ht]. split; [|exact Ht]. cbn. apply NoDup_app. split_and!; [done|by intros x Hx ->%list_elem_of_singleton|apply NoDup_singleton].
Qed.

(** What may happen to an active session. *)
Inductive active_step (s : SyncSession Active) : SyncSession Active -> Prop :=
| step_wire h w store : active_step s (on_wire_node_received s h w store)
| step_node n store blobs s' : on_node_received s n store blobs = Some s' -> active_step s s'
| step_heads m store : active_step s (handle_sync_heads s m store)
| step_sketch sk store key s' r : handle_sync_sketch_keyed s sk store key = Some (s', r) -> active_step s s'
| step_recon_fail range : active_step s (handle_sync_recon_fail s range)
| step_gossip h : active_step s (on_common (hear_gossip h) s)
| step_fetch n : 0 <= n -> active_step s (next_fetch_batch s n).1
| step_challenge sk now nonce : active_step s (generate_challenge s sk now nonce)
| step_take nonce : active_step s (take_pending_sketch s nonce).1
| step_solution nonce sol now : active_step s (verify_solution s nonce sol now).1
| step_vote voter d s' : update_difficulty_consensus s voter d = Some s' -> active_step s s'.

(** What may happen to the session with a peer, until it is replaced by a new one. *)
Definition peer_common (p : PeerSession) : SessionCommon := match p with HandshakePeer s => common s | ActivePeer s => common s end.
Inductive sync_step : PeerSession -> PeerSession -> Prop :=
| step_active s s' : active_step s s' -> sync_step (ActivePeer s) (ActivePeer s')
| step_handshake s n store s' : handshake_on_node_received s n store = Some s' -> sync_step (HandshakePeer s) (HandshakePeer s')
| step_activate s features : sync_step (HandshakePeer s) (ActivePeer (activate s features))
| step_record p h voucher : sync_step p (peer_record_vouch p h voucher).

Lemma node_kept s n store blobs s' : on_node_received s n store blobs = Some s' -> kept (common s) (common s').
Proof.
  unfold on_node_received. intros (h & _ & E)%bind_Some. set (c := note_node store n h (common s)) in E.
  set (c1 := match content n, blobs with Blob _ _ _ _ _, Some _ => _ | _, _ => _ end) in E.
  assert (kept (common s) c1) as Hk.
  { apply same_kept. pose proof (note_node_same store n h (common s)) as Hn. fold c in Hn. clear E. unfold c1. clear c1. destruct (content n); try done. destruct blobs as [b|]; [|done]. by case_match. }
  clearbody c1. destruct (is_snapshot (content n) && shallow c1); [by injection E as <-|]. destruct (shallow c1 && _); [by injection E as <-|].
  apply bind_Some in E as ([c2 full] & E2 & E).
  assert (kept (common s) c2) as Hk2.
  { etrans; [exact Hk|]. apply same_kept. destruct (shallow c1 && (0 <? max_backfill_nodes c1)); [apply bind_Some in E2 as (k & _ & [= <- _])|injection E2 as <- _]; done. }
  destruct full; [by injection E as <-|]. apply bind_Some in E as (c3 & E3 & [= <-]). cbn. etrans; [exact Hk2|]. by eapply enqueue_parents_kept.
Qed.

Lemma heads_kept s m store : kept (common s) (common (handle_sync_heads s m store)).
Proof.
  unfold handle_sync_heads. destruct (negb _); [done|]. cbn. set (c := match anchor_hash m with Some _ => _ | None => _ end).
  etrans; [|apply (foldl_related kept)]; [by apply same_kept; unfold c; destruct (anchor_hash m)|]. intros c' h.
  etrans; [|apply want_step_kept]. by apply same_kept.
Qed.

Lemma sketch_kept s sk store key s' r : handle_sync_sketch_keyed s sk store key = Some (s', r) -> kept (common s) (common s').
Proof.
  unfold handle_sync_sketch_keyed. destruct (negb _); [by intros [= <- _]|]. destruct (get_node_hashes_in_range _ _ _); [|by intros [= <- _]].
  intros (l & _ & (d & _ & E)%bind_Some)%bind_Some. destruct d as [rem|]; [|by injection E as <- _]. apply bind_Some in E as ([d' r'] & _ & E).
  destruct r' as [[[p q] st]|]; injection E as <- _; [apply want_hot_kept|apply same_kept, promote_same].
Qed.

(** Every step leaves the queues free of duplicates, and what waited waits or is
    requested. *)
Definition steady (c c' : SessionCommon) : Prop := (tidy c -> tidy c') /\ forall h, h ∈ waiting c -> h ∈ waiting c' \/ h ∈ in_flight_fetches c'.
Lemma kept_steady c c' : kept c c' -> steady c c'.
Proof. intros [Ht Hw]. split; [done|]. intros h Hh. left. by apply Hw. Qed.

Lemma active_step_steady s s' : active_step s s' -> steady (common s) (common s').
Proof.
  intros [h w store|n store blobs s2 E|m store|sk store key s2 r E|range|h|n Hn|sk now nonce|nonce|nonce sol now|voter d s2 E].
  - apply kept_steady. etrans; [|apply want_hot_kept]. by apply same_kept.
  - by eapply kept_steady, node_kept.
  - apply kept_steady, heads_kept.
  - by eapply kept_steady, sketch_kept.
  - apply kept_steady, same_kept, promote_same.
  - apply kept_steady, gossip_kept.
  - destruct (fetch_batch_runs s n Hn) as (used & rest & Ew & s2 & -> & Er & Ef & Ha & Hh & Hc & _). cbn [fst]. split; [by apply tidy_suffix|].
    intros h. rewrite Ew, elem_of_app, Er, Ef. set_solver.
  - by apply kept_steady, same_kept.
  - by apply kept_steady, same_kept.
  - apply kept_steady, same_kept. unfold verify_solution. destruct (_ !! _); [|done]. destruct (_ <? _); [done|]. by destruct (solves _ _ _).
  - unfold update_difficulty_consensus in E. apply bind_Some in E as (d' & _ & [= <-]). by apply kept_steady, same_kept.
Qed.

Lemma sync_step_steady p p' : sync_step p p' -> steady (peer_common p) (peer_common p').
Proof.
  intros [s s' Hs|s n store s' E|s features|q h voucher]; cbn [peer_common].
  - by apply active_step_steady.
  - unfold handshake_on_node_received in E. apply bind_Some in E as (h & _ & [= <-]). apply kept_steady. etrans; [apply same_kept, note_node_same|apply want_parents_kept].
  - by apply kept_steady, same_kept.
  - apply kept_steady, same_kept. destruct q as [s|s]; cbn; unfold record_vouch; repeat case_match; done.
Qed.

End Operations.

(** ** The exchange of sketches *)

Section Sketches.
Context `{Rmp} `{Blake3Hash} `{Ed25519} `{Blake3Laws} `{HashOrder}.

Lemma insert_all_for_each sk hs : insert_all sk hs = IbltTheory.for_each insert sk hs.
Proof. revert sk. induction hs as [|h hs IH]; intros sk; cbn; [done|]. destruct (insert sk h); [apply IH|done]. Qed.

Lemma touch_cells_len cs is_ id d ck cs' : touch_cells cs is_ id d ck = Some cs' -> len cs' = len cs.
Proof.
  revert cs. induction is_ as [|i is_ IH]; intros cs; cbn [touch_cells]; [by intros [= <-]|]. intros (c & _ & (m & _ & (cs1 & E1 & E)%bind_Some)%bind_Some)%bind_Some.
  apply IH in E as ->. unfold upd in E1. destruct (_ && _); [|done]. injection E1 as <-. unfold len. by rewrite length_insert.
Qed.

Lemma insert_all_keeps sk hs sk' : insert_all sk hs = Some sk' -> k sk' = k sk /\ k_iblt sk' = k_iblt sk /\ len (cells sk') = len (cells sk).
Proof.
  revert sk. induction hs as [|h hs IH]; intros sk; cbn [insert_all]; [by intros [= <-]|]. intros (s1 & E1 & E)%bind_Some. apply IH in E as (-> & -> & ->).
  unfold insert, update in E1. apply bind_Some in E1 as (is_ & _ & (cs & Ecs & [= <-])%bind_Some). apply touch_cells_len in Ecs. by split_and!.
Qed.

Lemma tier_of_cells tier : from_cell_count (cell_count tier) = tier.
Proof. by destruct tier. Qed.

(** A sketch that one side makes and the other handles. *)
Lemma exchange a b tier key range sa sb A B :
  conversation_id a = conversation_id b -> get_node_hashes_in_range sa (conversation_id a) range = Ok A ->
  get_node_hashes_in_range sb (conversation_id b) range = Ok B ->
  NoDup A -> NoDup B -> IbltTheory.ids_ok A -> IbltTheory.ids_ok B -> len A + len B <= i32_max ->
  let D := IbltTheory.outs (list_difference A B) (list_difference B A) in
  IbltTheory.peelable (cell_count tier) key D -> IbltTheory.no_collisions (cell_count tier) key D -> len D <= d_max tier ->
  exists sk P N, make_sync_sketch_keyed a range tier sa key = succeed sk /\ P ≡ₚ list_difference A B /\ N ≡ₚ list_difference B A /\
    handle_sync_sketch_keyed b sk sb key = Some (on_common (fun c => want_hot sb c P) b, Ok (Success P N)).
Proof.
  intros Hc EA EB HA HB HiA HiB Hl D Hp Hn Hlim. assert (0 <= cell_count tier) as Hpos by (by destruct tier).
  destruct (IbltTheory.reconcile_exact (cell_count tier) key A B Hpos HA HB HiA HiB Hl Hp Hn ltac:(by rewrite tier_of_cells)) as (ka & kb & kd & s' & P & N & st & Ea & Eb & Es & Ed & HP & HN).
  rewrite <- insert_all_for_each in Ea, Eb. destruct (insert_all_keeps _ _ _ Ea) as (K1 & K2 & K3). cbn in K1, K2, K3. assert (len (replicate (Z.to_nat (cell_count tier)) empty_cell) = cell_count tier) as Er by (unfold len; rewrite length_replicate; lia). rewrite Er in K3.
  exists (mkSketch (conversation_id a) (cells ka) range), P, N. split_and!; [|done|done|].
  - unfold make_sync_sketch_keyed. rewrite EA. cbn [obind]. by rewrite Ea.
  - unfold handle_sync_sketch_keyed. cbn [sketch_conversation sketch_range sketch_cells]. rewrite bool_decide_true by done. cbn [negb]. rewrite EB, K3, Eb. cbn [mbind option_bind].
    assert (from_cells_keyed (cells ka) key = ka) as -> by (destruct ka; cbn in *; by subst). rewrite Es. cbn [mbind option_bind]. by rewrite Ed.
Qed.

(** ** Tiers *)

Lemma promote_other s r r' : r <> r' -> get_iblt_tier (promote_iblt_tier s r) r' = get_iblt_tier s r'.
Proof.
  intros Hne. unfold promote_iblt_tier. case_bool_decide as He; [done|]. destruct (next_tier _); unfold get_iblt_tier; cbn.
  - case_bool_decide; [done|]. by rewrite lookup_insert_ne.
  - rewrite lookup_delete_ne by done. by rewrite (bool_decide_ext (r' ∈ exhausted_iblt_ranges (common s) ∪ {[r]}) (r' ∈ exhausted_iblt_ranges (common s))) by set_solver.
Qed.

Lemma promote_here s r : get_iblt_tier (promote_iblt_tier s r) r = match get_iblt_tier s r with Some t => next_tier t | None => None end.
Proof.
  unfold promote_iblt_tier. unfold get_iblt_tier at 2 3. case_bool_decide as He; [unfold get_iblt_tier; by rewrite bool_decide_true|]. cbn [from_option id].
  destruct (next_tier (default Small (iblt_tiers (common s) !! r))) eqn:E; unfold get_iblt_tier; cbn.
  - rewrite bool_decide_false by done. by rewrite lookup_insert_eq.
  - rewrite bool_decide_true by set_solver. done.
Qed.

End Sketches.

(** ** Checksums of shards *)

Section Shards.
Context `{Rmp} `{Blake3Hash} `{Ed25519} `{Blake3} `{HashOrder}.

#[export] Instance bytes_le_total : Total bytes_le.
Proof. intros a b. unfold bytes_le. rewrite (bytes_compare_antisym a b). destruct (bytes_compare a b); cbn; [by left|by left|by right]. Qed.
#[export] Instance bytes_le_trans : Transitive bytes_le.
Proof.
  intros a b c. unfold bytes_le. destruct (bytes_compare a b) eqn:E1; [apply bytes_compare_eq in E1 as ->; done| |done].
  destruct (bytes_compare b c) eqn:E2; [apply bytes_compare_eq in E2 as <-; by rewrite E1| |done]. by rewrite (bytes_compare_trans _ _ _ E1 E2).
Qed.
#[export] Instance bytes_le_antisym : AntiSymm eq bytes_le.
Proof.
  intros a b. unfold bytes_le. rewrite (bytes_compare_antisym a b). destruct (bytes_compare a b) eqn:E; cbn; [|done|done]. intros _ _. by apply bytes_compare_eq.
Qed.

(** The checksum of a set of hashes, in whatever order a store lists them. *)
Definition shard_checksum (hs : list NodeHash) : ShardHash := blake3 (concat (merge_sort bytes_le hs)).

Lemma sorted_same (a b : list NodeHash) : a ≡ₚ b -> merge_sort bytes_le a = merge_sort bytes_le b.
Proof.
  intros Hab. apply (StronglySorted_unique bytes_le); [apply (StronglySorted_merge_sort _); apply _|apply (StronglySorted_merge_sort _); apply _|]. by rewrite !merge_sort_Permutation.
Qed.

Lemma checksum_same a b : a ≡ₚ b -> shard_checksum a = shard_checksum b.
Proof. intros Hab. unfold shard_checksum. by rewrite (sorted_same a b). Qed.

Lemma concat_inj (a b : list bytes) : (forall x, x ∈ a -> length x = 32%nat) -> (forall x, x ∈ b -> length x = 32%nat) -> concat a = concat b -> a = b.
Proof.
  revert b. induction a as [|x a IH]; intros [|y b] Ha Hb E; [done| | |].
  - pose proof (Hb y ltac:(left)). apply (f_equal length) in E. cbn in E. rewrite length_app in E. lia.
  - pose proof (Ha x ltac:(left)). apply (f_equal length) in E. cbn in E. rewrite length_app in E. lia.
  - cbn in E. apply app_inj_1 in E as [-> E]; [|rewrite (Ha x) by left; rewrite (Hb y) by left; done]. f_equal. apply IH; [intros z Hz; apply Ha; by right|intros z Hz; apply Hb; by right|exact E].
Qed.

(** Different sets have different checksums, unless Blake3 collides on them. *)
Lemma checksum_differs a b : IbltTheory.ids_ok a -> IbltTheory.ids_ok b ->
  (blake3 (concat (merge_sort bytes_le a)) = blake3 (concat (merge_sort bytes_le b)) -> concat (merge_sort bytes_le a) = concat (merge_sort bytes_le b)) ->
  shard_checksum a = shard_checksum b -> a ≡ₚ b.
Proof.
  intros Ha Hb Hinj E%Hinj. apply concat_inj in E; [|intros x; rewrite merge_sort_Permutation; apply Ha|intros x; rewrite merge_sort_Permutation; apply Hb].
  by rewrite <- (merge_sort_Permutation bytes_le a), <- (merge_sort_Permutation bytes_le b), E.
Qed.

(** The ranges and the checksums of a store. *)
Definition range_at (start : Z) : SyncRange := mkRange start (start + SHARD_SIZE - 1).

Lemma shard_checksums_spec store cid starts (hs : Z -> list NodeHash) : (forall i, i ∈ starts -> 0 <= i <= u64_max - SHARD_SIZE) ->
  (forall i, i ∈ starts -> get_node_hashes_in_range store cid (range_at i) = Ok (hs i)) ->
  shard_checksums store cid starts = succeed ((fun i => (range_at i, shard_checksum (hs i))) <$> starts).
Proof.
  induction starts as [|i starts IH]; intros Hi Hs; [done|]. cbn [shard_checksums]. pose proof (Hi i ltac:(left)) as Hb. unfold SHARD_SIZE in *.
  rewrite chk_u64_ok by lia. cbn [mbind option_bind]. rewrite chk_u64_ok by lia. cbn [mbind option_bind]. change (mkRange i (i + 1000 - 1)) with (range_at i). rewrite (Hs i) by left. cbn [obind]. rewrite IH; [done|intros j Hj; apply Hi; by right|intros j Hj; apply Hs; by right].
Qed.

Lemma shard_starts_elem m i : 0 <= m -> i ∈ shard_starts m <-> exists q, 0 <= q <= m / SHARD_SIZE /\ i = q * SHARD_SIZE.
Proof.
  intros Hm. unfold shard_starts. rewrite list_elem_of_fmap. unfold zrange. setoid_rewrite list_elem_of_fmap. setoid_rewrite elem_of_seq. pose proof (Z.div_pos m SHARD_SIZE Hm ltac:(done)). split.
  - intros (q & -> & (j & -> & Hj)). exists (0 + Z.of_nat j). split; [lia|done].
  - intros (q & Hq & ->). exists q. split; [done|]. exists (Z.to_nat q). lia.
Qed.

(** The shards tile the ranks up to the highest head. *)
Lemma shards_tile m r : 0 <= r <= m -> exists i, i ∈ shard_starts m /\ i <= r <= range_max (range_at i) /\
  forall j, j ∈ shard_starts m -> j <= r <= range_max (range_at j) -> j = i.
Proof.
  intros Hr. assert (0 < SHARD_SIZE) as Hs by done. exists (r / SHARD_SIZE * SHARD_SIZE). pose proof (Z.div_mod r SHARD_SIZE ltac:(done)). pose proof (Z.mod_pos_bound r SHARD_SIZE Hs). split_and!.
  - apply shard_starts_elem; [lia|]. exists (r / SHARD_SIZE). split; [|done]. split; [apply Z.div_pos; lia|apply Z.div_le_mono; lia].
  - cbn. lia.
  - cbn. lia.
  - intros j (q & Hq & ->)%shard_starts_elem Hj; [|lia]. cbn in Hj. f_equal. unfold SHARD_SIZE in *. apply (Z.div_unique r 1000 q (r - q * 1000)); lia.
Qed.

Lemma local_map_lookup (f : Z -> ShardHash) starts i (m : gmap SyncRange ShardHash) : NoDup starts ->
  foldl (fun (m : gmap SyncRange ShardHash) (p : SyncRange * ShardHash) => <[p.1 := p.2]> m) m ((fun i => (range_at i, f i)) <$> starts) !! range_at i = if decide (i ∈ starts) then Some (f i) else m !! range_at i.
Proof.
  intros Hnd. revert m. induction starts as [|j starts IH]; intros m; cbn [fmap list_fmap foldl]; [by rewrite decide_False by apply not_elem_of_nil|].
  apply NoDup_cons in Hnd as [Hj Hnd]. rewrite (IH Hnd). cbn [fst snd]. destruct (decide (i ∈ starts)) as [Hi|Hi]; [by rewrite decide_True by (by right)|].
  destruct (decide (i = j)) as [->|Hne]; [rewrite lookup_insert_eq, decide_True by left; done|].
  rewrite lookup_insert_ne by (unfold range_at; congruence). rewrite decide_False by (rewrite elem_of_cons; naive_solver). done.
Qed.

Lemma shard_starts_nodup m : NoDup (shard_starts m).
Proof.
  unfold shard_starts, zrange. rewrite <- list_fmap_compose. apply NoDup_fmap_2; [|apply NoDup_seq]. intros i j E. cbn in E. unfold SHARD_SIZE in E. lia.
Qed.

End Shards.

(** ** Challenges *)

Section Challenges.
Context `{Rmp} `{Blake3Hash} `{Ed25519} `{Blake3} `{HashOrder}.

(** The search returns the least solution, and finds one if there is one. *)
Lemma solve_least fuel nonce d x sol : solve_challenge fuel nonce d x = Some sol ->
  x <= sol /\ solves nonce sol d = true /\ forall y, x <= y < sol -> solves nonce y d = false.
Proof.
  revert x. induction fuel as [|fuel IH]; intros x; cbn [solve_challenge]; [done|]. destruct (solves nonce x d) eqn:E.
  - intros [= <-]. split_and!; [lia|done|lia].
  - intros (n & [-> _]%chk_Some & En)%bind_Some. apply IH in En as (Hle & Hs & Hy). split_and!; [lia|done|]. intros y Hy'. destruct (decide (y = x)) as [->|]; [done|apply Hy; lia].
Qed.

Lemma solve_finds fuel nonce d x y : 0 <= x <= y -> y <= u64_max -> solves nonce y d = true -> (Z.to_nat (y - x) < fuel)%nat ->
  exists sol, solve_challenge fuel nonce d x = Some sol.
Proof.
  revert x. induction fuel as [|fuel IH]; intros x Hx Hy Hs Hf; [lia|]. cbn [solve_challenge]. destruct (solves nonce x d) eqn:E; [by eexists|].
  assert (x <> y) by (intros ->; congruence). rewrite chk_u64_ok by lia. cbn [mbind option_bind]. apply IH; try done; lia.
Qed.

End Challenges.

(** ** Votes *)

Definition within (a b : Z) (l : list Z) : nat := length (filter (fun v => a <= v <= b) l).

Lemma within_app a b l l' : within a b (l ++ l') = (within a b l + within a b l')%nat.
Proof. unfold within. by rewrite filter_app, length_app. Qed.

Lemma within_none a b l : (forall v, v ∈ l -> ~ (a <= v <= b)) -> within a b l = O.
Proof.
  intros Hl. unfold within. induction l as [|v l IH]; [done|]. rewrite filter_cons, decide_False by (apply Hl; left). apply IH. intros w Hw. apply Hl. by right.
Qed.

Lemma within_le a b l : (within a b l <= length l)%nat.
Proof. apply length_filter. Qed.

(** The middle of a sorted list lies where more than half of it lies. *)
Lemma middle_within a b l m : StronglySorted Z.le l -> idx l (len l / 2) = Some m -> (length l < 2 * within a b l)%nat -> a <= m <= b.
Proof.
  intros Hs [Hi Hm]%idx_Some Hmaj. set (i := Z.to_nat (len l / 2)) in *. assert (Z.of_nat i = len l / 2) as Ei by (unfold i; pose proof (Z.div_pos (len l) 2 (len_nonneg l) ltac:(lia)); lia).
  assert (2 * i <= length l < 2 * i + 2)%nat as Hhalf by (pose proof (Z.div_mod (len l) 2 ltac:(lia)); pose proof (Z.mod_pos_bound (len l) 2 ltac:(lia)); unfold len in *; lia).
  pose proof (take_drop_middle l i m Hm) as El. pose proof (lookup_lt_Some _ _ _ Hm) as Hlt.
  assert (length (take i l) = i) as Ht by (rewrite length_take; lia). assert (length (drop (S i) l) = length l - S i)%nat as Hd by apply length_drop.
  rewrite <- El in Hs, Hmaj. rewrite length_app, Ht in Hmaj. cbn [length] in Hmaj. rewrite Hd in Hmaj.
  assert (within a b (take i l ++ m :: drop (S i) l) = within a b (take i l) + within a b [m] + within a b (drop (S i) l))%nat as Ew.
  { change (m :: drop (S i) l) with ([m] ++ drop (S i) l). rewrite !within_app. lia. }
  pose proof (within_le a b (take i l)) as W1. pose proof (within_le a b (drop (S i) l)) as W2. rewrite Ht in W1. rewrite Hd in W2.
  destruct (Z.le_gt_cases a m) as [Ha|Ha]; [destruct (Z.le_gt_cases m b) as [Hb|Hb]; [done|]|]; exfalso.
  - rewrite (within_none a b [m]) in Ew by (intros v ->%list_elem_of_singleton; lia). rewrite (within_none a b (drop (S i) l)) in Ew; [lia|].
    intros v Hv. apply StronglySorted_app_1_r, StronglySorted_inv in Hs as [_ Hs]. rewrite Forall_forall in Hs. specialize (Hs v Hv). lia.
  - rewrite (within_none a b [m]) in Ew by (intros v ->%list_elem_of_singleton; lia). rewrite (within_none a b (take i l)) in Ew; [lia|].
    intros v Hv. pose proof (StronglySorted_app_1_elem_of _ _ _ v m Hs Hv ltac:(left)). lia.
Qed.

Lemma within_perm a b l l' : l ≡ₚ l' -> within a b l = within a b l'.
Proof. intros Hl. unfold within. by rewrite Hl. Qed.

(** ** Properties *)

Section Properties.
Context `{Rmp} `{Blake3Hash} `{Ed25519} `{Blake3Laws} `{HashOrderLaws}.

(** A batch of requests holds at most as many hashes as asked for, each once and
    none already requested, admin nodes first, then hot, then cold; all of it is in
    flight afterwards, nothing that waited is forgotten, and no batch comes only when
    nothing waits. *)
Theorem fetch_batch_complete s n : 0 < n ->
  exists s' r, next_fetch_batch s n = (s', r) /\
    let batch := match r with Some m => hashes m | None => [] end in
    NoDup batch /\ len batch <= n /\
    (forall h, h ∈ batch -> (h ∉ in_flight_fetches (common s)) /\ h ∈ in_flight_fetches (common s')) /\
    (exists rest, first_new (in_flight_fetches (common s)) (waiting (common s)) = batch ++ rest) /\
    (forall h, h ∈ waiting (common s) -> h ∈ waiting (common s') \/ h ∈ in_flight_fetches (common s')) /\
    (r = None -> waiting (common s') = []).
Proof.
  intros Hn. destruct (fetch_batch_runs s n ltac:(lia)) as (used & rest & Ew & s' & E & Er & Ef & _ & _ & _ & Hfull & Hmax). eexists s', _. split; [exact E|].
  set (batch := first_new (in_flight_fetches (common s)) used) in *. destruct (first_new_spec (in_flight_fetches (common s)) used) as [Hnd Hin]. fold batch in Hnd, Hin.
  assert (match match batch with [] => None | _ :: _ => Some (mkFetch (conversation_id s) batch) end with Some m => hashes m | None => [] end = batch) as -> by (by destruct batch).
  cbn zeta. split_and!; [done|done| | | |].
  - intros h Hh. apply Hin in Hh as [Hu Hn']. split; [done|]. rewrite Ef. set_solver.
  - exists (first_new (in_flight_fetches (common s) ∪ list_to_set used) rest). by rewrite Ew, first_new_app.
  - intros h. rewrite Ew, elem_of_app, Er, Ef. set_solver.
  - intros Hb. rewrite Er. destruct rest as [|x rest]; [done|]. assert (batch = []) as Eb by (by destruct batch). specialize (Hfull ltac:(done)). rewrite Eb in Hfull. unfold len in Hfull. cbn in Hfull. lia.
Qed.

(** C16: Whatever the session with a peer receives, from handshake to activity and in
    whatever order: no hash comes to wait twice among the gossiped admin nodes, nor
    twice among the other missing nodes (a gossiped hash may wait in both places and is
    requested once, see [fetch_batch_complete]); and a hash that waits goes on
    waiting until it is requested.  A request that is not answered is not repeated. *)
Theorem queues_never_lose p p' : rtc sync_step p p' -> (tidy (peer_common p) -> tidy (peer_common p')) /\
  forall q h, sync_step p' q -> h ∈ waiting (peer_common p') -> h ∈ waiting (peer_common q) \/ h ∈ in_flight_fetches (peer_common q).
Proof.
  intros Hr. split; [|by intros q h [_ Hq]%sync_step_steady; apply Hq]. induction Hr as [p|p q r [Hpq _]%sync_step_steady _ IH]; [done|]. intros Ht. by apply IH, Hpq.
Qed.

(** C15: A sketch that one peer makes of its nodes in a range tells the other exactly
    which nodes each lacks, if the differences are within the limit of the tier,
    peelable and free of checksum collisions; what is missing and not stored is
    then queued or already requested. *)
Theorem sketch_exchange a b tier key range sa sb A B :
  conversation_id a = conversation_id b -> get_node_hashes_in_range sa (conversation_id a) range = Ok A ->
  get_node_hashes_in_range sb (conversation_id b) range = Ok B ->
  NoDup A -> NoDup B -> IbltTheory.ids_ok A -> IbltTheory.ids_ok B -> len A + len B <= i32_max ->
  let D := IbltTheory.outs (list_difference A B) (list_difference B A) in
  IbltTheory.peelable (cell_count tier) key D -> IbltTheory.no_collisions (cell_count tier) key D -> len D <= d_max tier ->
  exists sk P N b', make_sync_sketch_keyed a range tier sa key = succeed sk /\
    handle_sync_sketch_keyed b sk sb key = Some (b', Ok (Success P N)) /\ P ≡ₚ list_difference A B /\ N ≡ₚ list_difference B A /\
    forall h, h ∈ A -> h ∉ B -> has_node sb h = false -> h ∈ waiting (common b') \/ h ∈ in_flight_fetches (common b').
Proof.
  intros Hc EA EB HA HB HiA HiB Hl D Hp Hn Hlim. destruct (exchange a b tier key range sa sb A B Hc EA EB HA HB HiA HiB Hl Hp Hn Hlim) as (sk & P & N & Em & HP & HN & Eh).
  exists sk, P, N, (on_common (fun c => want_hot sb c P) b). split_and!; [done..|]. intros h HhA HhB Hst. apply want_hot_all; [|done]. rewrite HP. by apply list_elem_of_difference.
Qed.

(** A range that cannot be decoded goes through the tiers once each and is then
    given up; other ranges are not affected. *)
Theorem tiers_escalate s r : get_iblt_tier s r = Some Small ->
  let s1 := promote_iblt_tier s r in let s2 := promote_iblt_tier s1 r in let s3 := promote_iblt_tier s2 r in
  get_iblt_tier s1 r = Some Medium /\ get_iblt_tier s2 r = Some Large /\ get_iblt_tier s3 r = None /\ get_iblt_tier (promote_iblt_tier s3 r) r = None /\
  forall r', r <> r' -> get_iblt_tier s3 r' = get_iblt_tier s r'.
Proof.
  intros E s1 s2 s3. assert (get_iblt_tier s1 r = Some Medium) as E1 by (unfold s1; by rewrite promote_here, E).
  assert (get_iblt_tier s2 r = Some Large) as E2 by (unfold s2; by rewrite promote_here, E1). assert (get_iblt_tier s3 r = None) as E3 by (unfold s3; by rewrite promote_here, E2).
  split_and!; [done..|by rewrite promote_here, E3|]. intros r' Hr. unfold s3, s2, s1. by rewrite !promote_other.
Qed.

(** C17: The shards of a peer tile the ranks up to its highest head.  When its
    checksums are compared with the own nodes, what is reported are shards of the
    peer: those in which the two hold different nodes, whatever the order in
    which the stores list them, and those beyond the own heads, even when both hold the
    same nodes there.  Shards beyond the heads of the peer are not reported.  Only a
    collision of Blake3 can hide a difference. *)
Theorem shards_report_differences a b sa sb (A B : Z -> list NodeHash) :
  let ma := max_head_rank sa (get_heads sa (conversation_id a)) in let mb := max_head_rank sb (get_heads sb (conversation_id b)) in
  0 <= ma <= u64_max - SHARD_SIZE -> 0 <= mb <= u64_max - SHARD_SIZE ->
  (forall i, i ∈ shard_starts ma -> get_node_hashes_in_range sa (conversation_id a) (range_at i) = Ok (A i)) ->
  (forall i, i ∈ shard_starts mb -> get_node_hashes_in_range sb (conversation_id b) (range_at i) = Ok (B i)) ->
  (forall i, IbltTheory.ids_ok (A i) /\ IbltTheory.ids_ok (B i)) ->
  (forall i, blake3 (concat (merge_sort bytes_le (A i))) = blake3 (concat (merge_sort bytes_le (B i))) ->
    concat (merge_sort bytes_le (A i)) = concat (merge_sort bytes_le (B i))) ->
  exists remote diff, make_sync_shard_checksums a sa = succeed remote /\ handle_sync_shard_checksums b remote sb = succeed diff /\
    (forall r, 0 <= r <= ma -> exists i, i ∈ shard_starts ma /\ i <= r <= range_max (range_at i)) /\
    forall r, r ∈ diff <-> exists i, r = range_at i /\ i ∈ shard_starts ma /\ ~ (i ∈ shard_starts mb /\ A i ≡ₚ B i).
Proof.
  intros ma mb Hma Hmb HA HB Hids Hinj.
  assert (forall m, 0 <= m <= u64_max - SHARD_SIZE -> forall i, i ∈ shard_starts m -> 0 <= i <= u64_max - SHARD_SIZE) as Hrange.
  { intros m Hm i (q & Hq & ->)%shard_starts_elem; [|lia]. pose proof (Z.mul_div_le m SHARD_SIZE ltac:(done)). unfold SHARD_SIZE in *. lia. }
  exists ((fun i => (range_at i, shard_checksum (A i))) <$> shard_starts ma). unfold handle_sync_shard_checksums, make_sync_shard_checksums.
  rewrite (shard_checksums_spec sa _ _ A (Hrange ma Hma) HA), (shard_checksums_spec sb _ _ B (Hrange mb Hmb) HB). cbn [obind succeed].
  eexists. split; [done|]. split; [done|]. split; [intros r Hr; destruct (shards_tile ma r Hr) as (i & Hi & Hr' & _); eauto|].
  intros r. rewrite list_elem_of_fmap. split.
  - intros (p & Er & Hp). apply list_elem_of_In, filter_In in Hp as [Hin Hne]. apply list_elem_of_In, list_elem_of_fmap in Hin as (i & -> & Hi).
    cbn [fst] in Er. exists i. split_and!; [done|done|]. intros [Hib Hperm]. cbn [fst snd] in Hne.
    rewrite (local_map_lookup (fun i => shard_checksum (B i))), decide_True in Hne by (done || apply shard_starts_nodup).
    rewrite (checksum_same _ _ Hperm), bool_decide_true in Hne by done. done.
  - intros (i & -> & Hi & Hne). exists (range_at i, shard_checksum (A i)). split; [done|]. apply list_elem_of_In, filter_In. split; [apply list_elem_of_In, list_elem_of_fmap; eauto|].
    cbn [fst snd]. rewrite (local_map_lookup (fun i => shard_checksum (B i))) by apply shard_starts_nodup. apply negb_true_iff, bool_decide_eq_false. case_decide as Hib; [|by rewrite lookup_empty].
    intros [= E]. apply Hne. split; [done|]. destruct (Hids i). apply checksum_differs; [done..|apply Hinj|]. by symmetry.
Qed.

(** A challenge is accepted once, within its minute, for a solution of the
    required difficulty, and gives access to its sketch; the search for a solution
    returns the least one whenever there is one. *)
Theorem challenge_accepted_once s sk now nonce sol t : solves nonce sol (effective_difficulty (common s)) = true ->
  let s1 := generate_challenge s sk now nonce in
  (t <= now + POW_CHALLENGE_TIMEOUT -> exists s2, verify_solution s1 nonce sol t = (s2, true) /\ (take_pending_sketch s2 nonce).2 = Some sk /\
    forall sol' t', verify_solution s2 nonce sol' t' = (s2, false)) /\
  (now + POW_CHALLENGE_TIMEOUT < t -> exists s2, verify_solution s1 nonce sol t = (s2, false) /\ forall sol' t', verify_solution s2 nonce sol' t' = (s2, false)) /\
  (0 <= sol <= u64_max -> exists least, solve_challenge (S (Z.to_nat sol)) nonce (effective_difficulty (common s)) 0 = Some least /\
    solves nonce least (effective_difficulty (common s)) = true /\ forall y, 0 <= y < least -> solves nonce y (effective_difficulty (common s)) = false).
Proof.
  intros Hs s1. assert (pending_challenges (common s1) !! nonce = Some (now + POW_CHALLENGE_TIMEOUT)) as Ep by (cbn; by rewrite lookup_insert_eq).
  assert (forall sol' t', verify_solution (forget_challenge nonce s1) nonce sol' t' = (forget_challenge nonce s1, false)) as Hgone.
  { intros sol' t'. unfold verify_solution. cbn. by rewrite lookup_delete_eq. }
  unfold verify_solution at 1 3. rewrite Ep. split_and!.
  - intros Ht. destruct (Z.ltb_spec (now + POW_CHALLENGE_TIMEOUT) t); [lia|]. change (effective_difficulty (common s1)) with (effective_difficulty (common s)). rewrite Hs.
    eexists. split; [done|]. split; [cbn; by rewrite lookup_insert_eq|exact Hgone].
  - intros Ht. destruct (Z.ltb_spec (now + POW_CHALLENGE_TIMEOUT) t); [|lia]. eexists. split; [done|exact Hgone].
  - intros Hr. destruct (solve_finds (S (Z.to_nat sol)) nonce (effective_difficulty (common s)) 0 sol ltac:(lia) ltac:(lia) Hs ltac:(lia)) as (least & El). exists least. split; [done|].
    apply solve_least in El as (_ & ? & Hy). split; [done|]. intros y Hy'. by apply Hy.
Qed.

(** As long as more than half of the votes lie between two bounds, so does the
    difficulty in force, whatever the other votes are; a vote is always counted. *)
Theorem difficulty_resists_minority s voter d a b :
  let votes := snd <$> map_to_list (<[voter := d]> (difficulty_votes (common s))) in
  exists s', update_difficulty_consensus s voter d = Some s' /\ ((length votes < 2 * within a b votes)%nat -> a <= effective_difficulty (common s') <= b).
Proof.
  intros votes. unfold update_difficulty_consensus. set (sorted := merge_sort Z.le _).
  assert (sorted ≡ₚ votes) as Hperm by (unfold sorted; rewrite merge_sort_Permutation; unfold votes; by rewrite iterate_perm).
  assert (StronglySorted Z.le sorted) as Hsort by (apply StronglySorted_merge_sort; apply _).
  assert (0 < length votes)%nat as Hpos.
  { unfold votes. rewrite length_fmap. destruct (map_to_list (<[voter := d]> _)) eqn:E; [|cbn; lia]. apply map_to_list_empty_iff in E. by apply insert_non_empty in E. }
  assert (length sorted = length votes) as El by (by rewrite Hperm). rewrite bool_decide_false by (intros E; rewrite E in El; cbn in El; lia).
  destruct (idx sorted (len sorted / 2)) as [m|] eqn:Em.
  - cbn [mbind option_bind]. eexists. split; [done|]. intros Hmaj. cbn. apply (middle_within a b sorted m Hsort Em). by rewrite El, (within_perm a b _ _ Hperm).
  - exfalso. unfold idx in Em. pose proof (Z.div_pos (len sorted) 2 (len_nonneg sorted) ltac:(lia)) as Hp. rewrite (proj2 (Z.leb_le _ _) Hp) in Em.
    apply lookup_ge_None in Em. pose proof (Z.div_lt (len sorted) 2). unfold len in *. lia.
Qed.

End Properties.

(** ** Instances of the properties *)

Import Models Format DagCodec.
#[local] Existing Instance IbltTheory.counting.
#[local] Existing Instance IbltTheory.counting_laws.

Definition room : ConversationId := replicate 32 9.
(** A store that holds the hashes [hs] in every range and no heads. *)
Definition store_of (hs : list NodeHash) : StoreView :=
  mkView (DagValid.store_lookup ∅) (fun _ => []) (fun _ => []) (fun h => bool_decide (h ∈ hs)) (fun _ _ => Ok hs).
Definition idle : SyncSession Active := activate (new_handshake room (store_of []) false 0) 0.
Definition busy : SyncSession Active :=
  on_common (fun c => c <| missing_nodes_hot := [key1; key2] |> <| missing_nodes_cold := [replicate 32 3] |> <| in_flight_fetches := {[key2]} |> <| effective_difficulty := 1 |>) idle.

Lemma fetch_batch_complete_witness : exists s' r, next_fetch_batch busy 2 = (s', r) /\
  let batch := match r with Some m => hashes m | None => [] end in
  NoDup batch /\ len batch <= 2 /\
  (forall h, h ∈ batch -> (h ∉ in_flight_fetches (common busy)) /\ h ∈ in_flight_fetches (common s')) /\
  (exists rest, first_new (in_flight_fetches (common busy)) (waiting (common busy)) = batch ++ rest) /\
  (forall h, h ∈ waiting (common busy) -> h ∈ waiting (common s') \/ h ∈ in_flight_fetches (common s')) /\
  (r = None -> waiting (common s') = []).
Proof. apply (fetch_batch_complete busy 2). lia. Defined.

(** A session is started, hears of an admin node, of heads, and requests two nodes. *)
Definition told : SyncSession Active := handle_sync_heads (on_common (hear_gossip key1) idle) (mkHeads room [key1; key2; replicate 32 3] 0 None) (store_of []).
Definition requested : SyncSession Active := (next_fetch_batch told 2).1.

Definition heard : SyncSession Active := on_common (hear_gossip key1) idle.
Lemma requested_reached : rtc sync_step (HandshakePeer (new_handshake room (store_of []) false 0)) (ActivePeer requested).
Proof.
  refine (rtc_l _ _ (ActivePeer idle) _ (step_activate _ 0) _). refine (rtc_l _ _ (ActivePeer heard) _ (step_active idle heard (step_gossip idle key1)) _).
  refine (rtc_l _ _ (ActivePeer told) _ (step_active heard told (step_heads heard (mkHeads room [key1; key2; replicate 32 3] 0 None) (store_of []))) _).
  assert (0 <= 2) as Hn by lia. exact (rtc_once _ _ (step_active told requested (step_fetch told 2 Hn))).
Qed.

Lemma start_tidy : tidy (peer_common (HandshakePeer (new_handshake room (store_of []) false 0))).
Proof. split; apply NoDup_nil_2. Qed.

Lemma queues_never_lose_witness : waiting (common told) = [key1; key1; key2; replicate 32 3] /\ waiting (common requested) = [replicate 32 3] /\ tidy (peer_common (ActivePeer requested)).
Proof.
  split; [vm_compute; reflexivity|]. split; [vm_compute; reflexivity|]. exact (proj1 (queues_never_lose _ _ requested_reached) start_tidy).
Defined.

Lemma sketch_exchange_witness : let ids1 := [IbltTheory.id_of 1; IbltTheory.id_of 2] in let ids2 := [IbltTheory.id_of 2; IbltTheory.id_of 3] in
  exists sk P N b', make_sync_sketch_keyed idle (mkRange 0 999) Tiny (store_of ids1) None = succeed sk /\
    handle_sync_sketch_keyed busy sk (store_of ids2) None = Some (b', Ok (Success P N)) /\ P ≡ₚ list_difference ids1 ids2 /\ N ≡ₚ list_difference ids2 ids1 /\
    forall h, h ∈ ids1 -> h ∉ ids2 -> has_node (store_of ids2) h = false -> h ∈ waiting (common b') \/ h ∈ in_flight_fetches (common b').
Proof.
  intros ids1 ids2.
  apply (sketch_exchange idle busy Tiny None (mkRange 0 999) (store_of ids1) (store_of ids2) ids1 ids2); try done.
  - by refine (IbltTheory.decided _ _).
  - by refine (IbltTheory.decided _ _).
  - IbltTheory.all_ids.
  - IbltTheory.all_ids.
  - exact (proj1 IbltTheory.example_decodable).
  - exact (proj2 IbltTheory.example_decodable).
Defined.

Lemma tiers_escalate_witness : get_iblt_tier (promote_iblt_tier (promote_iblt_tier (promote_iblt_tier idle (mkRange 0 999)) (mkRange 0 999)) (mkRange 0 999)) (mkRange 0 999) = None.
Proof. apply (tiers_escalate idle (mkRange 0 999)). done. Defined.

Lemma distinct_checksums : blake3 (concat (merge_sort bytes_le [key1])) = blake3 (concat (merge_sort bytes_le [key2])) ->
  concat (merge_sort bytes_le [key1]) = concat (merge_sort bytes_le [key2]).
Proof.
  intros E. assert (blake3 (concat (merge_sort bytes_le [key1])) <> blake3 (concat (merge_sort bytes_le [key2]))) as Hne.
  { apply (bool_decide_eq_false_1 _). by vm_compute. }
  destruct (Hne E).
Qed.

Lemma shards_report_differences_witness : exists remote diff, make_sync_shard_checksums idle (store_of [key1]) = succeed remote /\
  handle_sync_shard_checksums busy remote (store_of [key2]) = succeed diff /\
  (forall r, 0 <= r <= 0 -> exists i, i ∈ shard_starts 0 /\ i <= r <= range_max (range_at i)) /\
  forall r, r ∈ diff <-> exists i, r = range_at i /\ i ∈ shard_starts 0 /\ ~ (i ∈ shard_starts 0 /\ [key1] ≡ₚ [key2]).
Proof.
  refine (shards_report_differences idle busy (store_of [key1]) (store_of [key2]) (fun _ => [key1]) (fun _ => [key2]) _ _ _ _ _ (fun i => distinct_checksums));
    [by vm_compute|by vm_compute|intros i _; exact eq_refl|intros i _; exact eq_refl|].
  intros i. split; by intros x ->%list_elem_of_singleton.
Defined.

Lemma challenge_accepted_once_witness : exists s2, verify_solution (generate_challenge busy (mkSketch room [] (mkRange 0 999)) 5 key1) key1 1 7 = (s2, true) /\
  (take_pending_sketch s2 key1).2 = Some (mkSketch room [] (mkRange 0 999)) /\ forall sol' t', verify_solution s2 key1 sol' t' = (s2, false).
Proof. apply (challenge_accepted_once busy (mkSketch room [] (mkRange 0 999)) 5 key1 1 7); [by vm_compute|by vm_compute]. Defined.

Lemma difficulty_resists_minority_witness : exists s', update_difficulty_consensus busy key1 12 = Some s' /\
  ((1 < 2 * within 10 14 [12%Z])%nat -> 10 <= effective_difficulty (common s') <= 14).
Proof. apply (difficulty_resists_minority busy key1 12 10 14). Defined.

End SyncTheory.
