(* ===== verification/Cas.v ===== *)
(** Large objects fetched in chunks ([merkle-tox-core/src/cas.rs]): the bit mask of
    chunks that have arrived, and the distribution of requests over several peers.

    The verified streams of the library [bao] are the class [Bao].  [None] is a
    panic. *)

From S2P Require Import Prelude Protocol MsgPack Merkle.
From stdpp Require Import gmap.
#[local] Open Scope Z_scope.
#[local] Open Scope list_scope.

(** [bao::decode::SliceDecoder] reading to the end: the bytes of a slice, if the
    proof fits the root. *)
Class Bao := slice_decode : forall (proof root : bytes) (offset length : Z), option bytes.
(** Two slices that a root vouches for at the same place are the same. *)
Class BaoLaws `{Bao} := bao_binding : forall proof proof' root offset length d d',
  slice_decode proof root offset length = Some d -> slice_decode proof' root offset length = Some d' -> d = d'.

Module Cas.

Inductive BlobStatus := Pending | Downloading | Available | Error.

Record BlobInfo := mkInfo {
  info_hash : NodeHash;
  size : Z;
  bao_root : option bytes;
  status : BlobStatus;
  info_mask : option bytes;
  decryption_key : option bytes
}.
#[export] Instance eta_BlobInfo : Settable BlobInfo := fun i =>
  mkInfo (info_hash i) (size i) (bao_root i) (status i) (info_mask i) (decryption_key i).

Record BlobReq := mkReq { req_hash : NodeHash; req_offset : Z; req_length : Z }.
Record BlobData := mkData { data_hash : NodeHash; offset : Z; data : bytes; proof : bytes }.

Definition CHUNK_SIZE : Z := 64 * 1024.
Definition FETCH_TIMEOUT : Duration := from_secs 15.
(** The number of requests that a peer may have open. *)
Definition MAX_PER_PEER : Z := 4.

(** ** Chunks *)

Record ChunkTracker := mkTracker { tracker_hash : NodeHash; total_size : Z; received_mask : bytes }.
#[export] Instance eta_ChunkTracker : Settable ChunkTracker := fun t => mkTracker (tracker_hash t) (total_size t) (received_mask t).

Definition num_chunks (size : Z) : Z := div_ceil size CHUNK_SIZE.

Definition new_tracker (hash : NodeHash) (total_size : Z) : ChunkTracker :=
  mkTracker hash total_size (replicate (Z.to_nat (div_ceil (num_chunks total_size) 8)) 0).

Definition mark_received (t : ChunkTracker) (chunk_index : Z) : ChunkTracker :=
  let byte_idx := chunk_index / 8 in let bit_idx := chunk_index mod 8 in
  match idx (received_mask t) byte_idx with
  | Some b => t <| received_mask := <[Z.to_nat byte_idx := Z.lor b (Z.shiftl 1 bit_idx)]> (received_mask t) |>
  | None => t
  end.

Definition is_received (t : ChunkTracker) (chunk_index : Z) : bool :=
  let byte_idx := chunk_index / 8 in let bit_idx := chunk_index mod 8 in
  match idx (received_mask t) byte_idx with
  | Some b => negb (Z.land b (Z.shiftl 1 bit_idx) =? 0)
  | None => false
  end.

Definition is_complete (t : ChunkTracker) : bool := forallb (is_received t) (zrange 0 (num_chunks (total_size t))).

Definition next_missing (t : ChunkTracker) (hint : Z) : option Z :=
  match List.find (fun i => negb (is_received t i)) (zrange hint (num_chunks (total_size t))) with
  | Some i => Some i
  | None => List.find (fun i => negb (is_received t i)) (zrange 0 hint)
  end.

(** ** Fetching *)

Record SwarmSync := mkSwarm {
  info : BlobInfo;
  tracker : ChunkTracker;
  seeders : gset PhysicalDevicePk;
  active_fetches : gmap Z (PhysicalDevicePk * Instant)
}.
#[export] Instance eta_SwarmSync : Settable SwarmSync := fun s => mkSwarm (info s) (tracker s) (seeders s) (active_fetches s).

Definition new (i : BlobInfo) : SwarmSync := mkSwarm i (new_tracker (info_hash i) (size i)) ∅ ∅.
Definition add_seeder (s : SwarmSync) (peer : PhysicalDevicePk) : SwarmSync := s <| seeders := seeders s ∪ {[peer]} |>.
Definition remove_seeder (s : SwarmSync) (peer : PhysicalDevicePk) : SwarmSync :=
  s <| seeders := seeders s ∖ {[peer]} |> <| active_fetches := filter (fun f => f.2.1 <> peer) (active_fetches s) |>.
Definition clear_stalled_fetches (s : SwarmSync) (now : Instant) : SwarmSync :=
  s <| active_fetches := filter (fun f => sat_sub now f.2.2 < FETCH_TIMEOUT) (active_fetches s) |>.

Section Fetch.
Context `{HashOrder} `{Bao}.

Definition verify (d : BlobData) (root : bytes) : bool := bool_decide (slice_decode (proof d) root (offset d) (len (data d)) = Some (data d)).

(** The requests a peer has open. *)
Definition in_flight (counts : gmap PhysicalDevicePk Z) (p : PhysicalDevicePk) : Z := default 0 (counts !! p).
Definition count_up (counts : gmap PhysicalDevicePk Z) (p : PhysicalDevicePk) : gmap PhysicalDevicePk Z := <[p := in_flight counts p + 1]> counts.
Definition in_flight_per_peer (s : SwarmSync) : gmap PhysicalDevicePk Z :=
  foldl (fun counts f => count_up counts f.2.1) ∅ (iterate (active_fetches s)).

(** [min_by_key]: the first of the least. *)
Definition least (key : PhysicalDevicePk -> Z * bytes) (l : list PhysicalDevicePk) : option PhysicalDevicePk :=
  foldl (fun best p => match best with Some q => if ranked_ltb (key p) (key q) then Some p else Some q | None => Some p end) None l.

(** The seeder with the fewest open requests, among those with fewer than four. *)
Definition pick_seeder (s : SwarmSync) (counts : gmap PhysicalDevicePk Z) : option PhysicalDevicePk :=
  least (fun p => (in_flight counts p, p))
    (List.filter (fun p => in_flight counts p <? MAX_PER_PEER) (elements_of (seeders s))).

(** The loop of [next_requests], [n] rounds of it. *)
Fixpoint request_loop (n : nat) (s : SwarmSync) (counts : gmap PhysicalDevicePk Z) (hint max_total : Z) (now : Instant)
    (reqs : list (PhysicalDevicePk * BlobReq)) : option (SwarmSync * list (PhysicalDevicePk * BlobReq)) :=
  match n with
  | O => Some (s, reqs)
  | S n =>
      if max_total <=? len reqs then Some (s, reqs)
      else
        match next_missing (tracker s) hint with
        | None => Some (s, reqs)
        | Some chunk =>
            match (if bool_decide (is_Some (active_fetches s !! chunk)) then None else pick_seeder s counts) with
            | Some seeder =>
                o ← chk_u64 (chunk * CHUNK_SIZE);
                request_loop n (s <| active_fetches := <[chunk := (seeder, now)]> (active_fetches s) |>) (count_up counts seeder) (chunk + 1)
                  max_total now (reqs ++ [(seeder, mkReq (info_hash (info s)) o CHUNK_SIZE)])
            | None => request_loop n s counts (chunk + 1) max_total now reqs
            end
        end
  end.

Definition next_requests (s : SwarmSync) (max_total : Z) (now : Instant) : option (SwarmSync * list (PhysicalDevicePk * BlobReq)) :=
  request_loop (Z.to_nat (num_chunks (size (info s)))) s (in_flight_per_peer s) 0 max_total now [].

Definition on_chunk_received (s : SwarmSync) (d : BlobData) : SwarmSync * bool :=
  let chunk_idx := offset d / CHUNK_SIZE in
  let s := s <| active_fetches := delete chunk_idx (active_fetches s) |> in
  if match bao_root (info s) with Some root => negb (verify d root) | None => false end then (s, false)
  else (s <| tracker := mark_received (tracker s) chunk_idx |>, true).

Definition next_wakeup (s : SwarmSync) (now : Instant) : Instant :=
  let next := foldl (fun w f => Z.min w (f.2.2 + FETCH_TIMEOUT)) (now + from_secs 3600) (iterate (active_fetches s)) in
  let busy_peers : gset PhysicalDevicePk := list_to_set ((fun f => f.2.1) <$> iterate (active_fetches s)) in
  let has_available_seeder := existsb (fun p => negb (bool_decide (p ∈ busy_peers))) (elements_of (seeders s)) in
  if has_available_seeder &&
     existsb (fun i => negb (is_received (tracker s) i) && negb (bool_decide (is_Some (active_fetches s !! i)))) (zrange 0 (num_chunks (total_size (tracker s))))
  then now else next.

End Fetch.
End Cas.
