(* ===== verification/CasTheory.v ===== *)
(** Theorems about [Cas.v]: what the mask of chunks remembers, and how requests are
    shared out among the peers. *)

From S2P Require Import Prelude Protocol MsgPack Merkle Cas.
From stdpp Require Import gmap.
#[local] Open Scope Z_scope.
#[local] Open Scope list_scope.

Module CasTheory.
Import Cas.

(** ** The mask *)

(** A mask of the size that [new_tracker] gives it. *)
Definition tracker_ok (t : ChunkTracker) : Prop :=
  0 <= total_size t <= u64_max /\ len (received_mask t) = div_ceil (num_chunks (total_size t)) 8.

Lemma num_chunks_bounds z : 0 <= z <= u64_max -> 0 <= num_chunks z <= 2 ^ 48 /\ (0 < z -> 0 < num_chunks z).
Proof.
  unfold num_chunks, div_ceil, CHUNK_SIZE, u64_max. intros Hz. split; [split|].
  - apply Z.div_pos; lia.
  - apply Z.lt_succ_r, Z.div_lt_upper_bound; lia.
  - intros. apply Z.div_str_pos. lia.
Qed.

Lemma new_tracker_ok h z : 0 <= z <= u64_max -> tracker_ok (new_tracker h z).
Proof.
  intros Hz. split; [done|]. cbn. unfold len. rewrite length_replicate. destruct (num_chunks_bounds z Hz) as [Hn _].
  rewrite Z2Nat.id; [done|]. apply Z.div_pos; lia.
Qed.

Lemma in_mask t i : tracker_ok t -> 0 <= i < num_chunks (total_size t) -> is_Some (idx (received_mask t) (i / 8)).
Proof.
  intros [_ Hl] Hi. apply idx_is_Some. rewrite Hl. unfold div_ceil. split; [apply Z.div_pos; lia|].
  apply Z.div_lt_upper_bound; [lia|]. pose proof (Z.mul_succ_div_gt (num_chunks (total_size t) + 8 - 1) 8). lia.
Qed.

Lemma bit_set b i j : 0 <= i < 8 -> 0 <= j < 8 ->
  negb (Z.land (Z.lor b (Z.shiftl 1 i)) (Z.shiftl 1 j) =? 0) = (i =? j) || negb (Z.land b (Z.shiftl 1 j) =? 0).
Proof.
  intros Hi Hj.
  assert (Hbit : forall x k, 0 <= k -> negb (Z.land x (Z.shiftl 1 k) =? 0) = Z.testbit x k).
  { intros x k Hk. rewrite Z.shiftl_1_l. destruct (Z.testbit x k) eqn:E.
    - apply negb_true_iff, Z.eqb_neq. intros E0. apply (f_equal (fun z => Z.testbit z k)) in E0.
      by rewrite Z.land_spec, Z.pow2_bits_true, Z.bits_0, E in E0 by lia.
    - apply negb_false_iff, Z.eqb_eq, Z.bits_inj'. intros m Hm. rewrite Z.land_spec, Z.bits_0.
      destruct (decide (m = k)) as [->|Hne]; [by rewrite E|]. rewrite Z.pow2_bits_false by lia. apply andb_false_r. }
  rewrite !Hbit, Z.lor_spec, Z.shiftl_1_l by lia. rewrite orb_comm. f_equal.
  destruct (Z.eqb_spec i j) as [->|]; [apply Z.pow2_bits_true; lia|apply Z.pow2_bits_false; lia].
Qed.

Lemma mark_ok t i : tracker_ok t -> tracker_ok (mark_received t i).
Proof. unfold mark_received. intros Ht. destruct (idx _ _); [|done]. destruct Ht. split; [done|]. cbn. by rewrite len_insert. Qed.

Lemma mark_spec t i j : tracker_ok t -> 0 <= i < num_chunks (total_size t) -> 0 <= j ->
  is_received (mark_received t i) j = (i =? j) || is_received t j.
Proof.
  intros Ht Hi Hj. destruct (in_mask t i Ht Hi) as [b Eb]. unfold mark_received, is_received. rewrite Eb. cbn.
  rewrite idx_insert; [|by apply idx_lt in Eb|by apply Z.div_pos; lia].
  pose proof (Z.mod_pos_bound i 8). pose proof (Z.mod_pos_bound j 8). case_decide as E.
  - rewrite bit_set, <- E, Eb by lia. f_equal. destruct (Z.eqb_spec (i mod 8) (j mod 8)), (Z.eqb_spec i j); try done; subst; try done.
    exfalso. pose proof (Z.div_mod i 8). pose proof (Z.div_mod j 8). lia.
  - destruct (Z.eqb_spec i j); [by subst|done].
Qed.

Lemma new_received h z j : 0 <= z <= u64_max -> 0 <= j -> is_received (new_tracker h z) j = false.
Proof.
  intros Hz Hj. unfold is_received. destruct (idx _ _) as [b|] eqn:E; [|done]. apply idx_Some in E as [_ E]. cbn in E.
  apply lookup_replicate in E as [-> _]. by rewrite Z.land_0_l.
Qed.

Lemma complete_spec t : is_complete t = true <-> forall i, 0 <= i < num_chunks (total_size t) -> is_received t i = true.
Proof. unfold is_complete. rewrite forallb_forall. setoid_rewrite <- list_elem_of_In. by setoid_rewrite elem_of_zrange. Qed.

Lemma missing_Some t hint i : 0 <= hint <= num_chunks (total_size t) -> next_missing t hint = Some i ->
  0 <= i < num_chunks (total_size t) /\ is_received t i = false /\
  ((hint <= i /\ forall j, hint <= j < i -> is_received t j = true) \/ forall j, hint <= j < num_chunks (total_size t) -> is_received t j = true).
Proof.
  intros Hh. unfold next_missing. destruct (List.find _ (zrange hint _)) as [k|] eqn:E.
  - intros [= <-]. apply find_zrange_Some in E as (Hk & Hm & Hb). apply negb_true_iff in Hm. split_and!; [lia|lia|done|].
    left. split; [lia|]. intros j Hj. by apply negb_false_iff, Hb.
  - intros (Hk & Hm & Hb)%find_zrange_Some. apply negb_true_iff in Hm. split_and!; [lia|lia|done|].
    right. intros j Hj. apply negb_false_iff. by apply (proj1 (find_zrange_None _ _ _) E).
Qed.

Lemma missing_None t hint : 0 <= hint <= num_chunks (total_size t) -> next_missing t hint = None <-> is_complete t = true.
Proof.
  intros Hh. rewrite complete_spec. unfold next_missing. destruct (List.find _ (zrange hint _)) as [k|] eqn:E.
  - apply find_zrange_Some in E as (Hk & Hm & _). apply negb_true_iff in Hm. split; [done|]. intros Ha. rewrite Ha in Hm; [done|lia].
  - rewrite find_zrange_None. split.
    + intros Hb i Hi. apply negb_false_iff. destruct (decide (i < hint)); [apply Hb; lia|].
      apply (proj1 (find_zrange_None _ _ _) E). lia.
    + intros Ha j Hj. apply negb_false_iff, Ha. lia.
Qed.

(** ** Requests *)

Section Requests.
Context `{HashOrderLaws}.

(** How many chunks peer [p] is fetching. *)
Definition open (s : SwarmSync) (p : PhysicalDevicePk) : Z := Z.of_nat (base.size (filter (fun f => f.2.1 = p) (active_fetches s))).

Definition swarm_ok (s : SwarmSync) : Prop :=
  tracker_ok (tracker s) /\ size (info s) = total_size (tracker s) /\ (forall c, is_Some (active_fetches s !! c) -> 0 <= c) /\ forall p, open s p <= MAX_PER_PEER.

Lemma open_insert s c q now p : active_fetches s !! c = None ->
  open (s <| active_fetches := <[c := (q, now)]> (active_fetches s) |>) p = open s p + (if decide (q = p) then 1 else 0).
Proof.
  intros Hc. unfold open. cbn. rewrite map_filter_insert. cbn. case_decide.
  - rewrite map_size_insert_None; [lia|]. apply map_lookup_filter_None. by left.
  - rewrite delete_id by done. lia.
Qed.

Lemma count_up_spec counts q p : in_flight (count_up counts q) p = in_flight counts p + (if decide (q = p) then 1 else 0).
Proof. unfold count_up. unfold in_flight at 1. case_decide; [subst; by rewrite lookup_insert_eq|rewrite lookup_insert_ne by done; unfold in_flight; lia]. Qed.

Lemma counts_open s p : in_flight (in_flight_per_peer s) p = open s p.
Proof.
  set (mine := fun f : Z * (PhysicalDevicePk * Instant) => bool_decide (f.2.1 = p)).
  assert (Hf : forall l counts, in_flight (foldl (fun counts (f : Z * (PhysicalDevicePk * Instant)) => count_up counts f.2.1) counts l) p =
    in_flight counts p + count_if mine l).
  { induction l as [|f l IH]; intros counts; cbn [foldl]; [by rewrite count_if_nil, Z.add_0_r|]. rewrite IH, count_up_spec, count_if_cons. unfold mine at 2. case_bool_decide; case_decide; try done; lia. }
  assert (Hp : forall l k, l ≡ₚ k -> count_if mine l = count_if mine k) by (intros l k Hl; induction Hl; rewrite ?count_if_cons; lia).
  unfold in_flight_per_peer. rewrite Hf, (Hp _ _ (iterate_perm _)). unfold in_flight. rewrite lookup_empty. cbn [default from_option id]. rewrite Z.add_0_l.
  unfold open. generalize (active_fetches s). clear Hf s.
  intros m. induction m as [|c [q t] m Hm IH] using map_ind; [by rewrite map_to_list_empty, map_filter_empty, map_size_empty|].
  rewrite (Hp _ _ (map_to_list_insert m c (q, t) Hm)), count_if_cons, IH, map_filter_insert. unfold mine at 1. cbn. case_bool_decide; case_decide; try done.
  - assert (Hn : filter (fun f : Z * (PhysicalDevicePk * Instant) => f.2.1 = p) m !! c = None) by (apply map_lookup_filter_None; by left).
    rewrite map_size_insert_None by done. lia.
  - rewrite delete_id by done. lia.
Qed.

Lemma least_in key l p : least key l = Some p -> p ∈ l.
Proof.
  unfold least. assert (Hf : forall l best, foldl (fun best p => match best with Some q => if ranked_ltb (key p) (key q) then Some p else Some q | None => Some p end) best l = Some p ->
    best = Some p \/ p ∈ l).
  { clear. induction l as [|q l IH]; cbn; intros best E; [by left|]. apply IH in E as [E|E]; [|right; by right].
    destruct best as [r|]; [destruct (ranked_ltb _ _)|]; simplify_eq; try (by left); right; left. }
  intros [?|?]%Hf; done.
Qed.

Lemma least_None key l : least key l = None -> l = [].
Proof.
  unfold least. destruct l as [|q l]; [done|]. cbn. intros E. exfalso. revert q E. induction l as [|r l IH]; intros q; cbn; [done|].
  destruct (ranked_ltb _ _); apply IH.
Qed.

Lemma pick_Some s counts p : pick_seeder s counts = Some p -> p ∈ seeders s /\ in_flight counts p < MAX_PER_PEER.
Proof.
  intros Hp%least_in%list_elem_of_In%filter_In. destruct Hp as [Hp%list_elem_of_In Hc%Z.ltb_lt]. split; [by apply elem_of_elements_of|done].
Qed.

Lemma pick_None s counts p : pick_seeder s counts = None -> p ∈ seeders s -> MAX_PER_PEER <= in_flight counts p.
Proof.
  intros E%least_None Hp. apply Z.nlt_ge. intros Hlt. apply (not_elem_of_nil (A := PhysicalDevicePk) p). rewrite <- E.
  apply list_elem_of_In, filter_In. split; [by apply list_elem_of_In, elem_of_elements_of|by apply Z.ltb_lt].
Qed.

Definition missing (s : SwarmSync) (c : Z) : Prop := 0 <= c < num_chunks (total_size (tracker s)) /\ is_received (tracker s) c = false.
(** Nothing more can be asked for: every missing chunk is on its way, or every
    seeder is busy. *)
Definition exhausted (s : SwarmSync) : Prop :=
  (forall c, missing s c -> is_Some (active_fetches s !! c)) \/ forall p, p ∈ seeders s -> MAX_PER_PEER <= open s p.

(** The requests for chunks [picks], each from a peer. *)
Definition requests_for (s : SwarmSync) (picks : list (Z * PhysicalDevicePk)) : list (PhysicalDevicePk * BlobReq) :=
  (fun c => (c.2, mkReq (info_hash (info s)) (c.1 * CHUNK_SIZE) CHUNK_SIZE)) <$> picks.

(** [s'] is [s] with the chunks of [picks] under way since [now]. *)
Record picked (s s' : SwarmSync) (picks : list (Z * PhysicalDevicePk)) (now : Instant) : Prop := {
  picked_info : info s' = info s;
  picked_tracker : tracker s' = tracker s;
  picked_seeders : seeders s' = seeders s;
  picked_once : NoDup picks.*1;
  picked_new c p : (c, p) ∈ picks -> missing s c /\ p ∈ seeders s /\ active_fetches s !! c = None /\ active_fetches s' !! c = Some (p, now);
  picked_old c : c ∉ picks.*1 -> active_fetches s' !! c = active_fetches s !! c
}.

Lemma picked_nothing s now : picked s s [] now.
Proof. split; try done; [constructor|intros c p Hc; by apply not_elem_of_nil in Hc]. Qed.

Definition start_fetch (s : SwarmSync) (c : Z) (p : PhysicalDevicePk) (now : Instant) : SwarmSync :=
  s <| active_fetches := <[c := (p, now)]> (active_fetches s) |>.

Lemma picked_cons s s' picks c p now : missing s c -> p ∈ seeders s -> active_fetches s !! c = None ->
  picked (start_fetch s c p now) s' picks now -> picked s s' ((c, p) :: picks) now.
Proof.
  intros Hm Hp Hc [Hi Ht Hs Ho Hn Hk]. assert (Hfresh : c ∉ picks.*1).
  { intros ([d q] & -> & Hd)%list_elem_of_fmap. apply Hn in Hd as (_ & _ & Hd & _). cbn in Hd. by rewrite lookup_insert_eq in Hd. }
  split; try done.
  - by constructor.
  - intros d q [[= -> ->]|Hd]%elem_of_cons.
    + split_and!; [done..|]. rewrite (Hk c Hfresh). cbn. apply lookup_insert_eq.
    + destruct (Hn d q Hd) as (Hdm & Hq & Hnone & Hsome). cbn in Hnone. apply lookup_insert_None in Hnone as [Hnone _]. by split_and!.
  - intros d Hd. cbn in Hd. apply not_elem_of_cons in Hd as [Hne Hd]. rewrite (Hk d Hd). cbn. by apply lookup_insert_ne.
Qed.

Lemma start_fetch_ok s c p now : swarm_ok s -> 0 <= c -> active_fetches s !! c = None -> open s p < MAX_PER_PEER -> swarm_ok (start_fetch s c p now).
Proof.
  intros (Ht & He & Ha & Ho) Hc Hn Hp. split_and!; [done|done| |].
  - intros d. cbn. destruct (decide (c = d)) as [->|Hne]; [done|rewrite lookup_insert_ne by done; apply Ha].
  - intros q. unfold start_fetch. rewrite open_insert by done. case_decide; [subst; lia|]. rewrite Z.add_0_r. apply Ho.
Qed.

Lemma start_fetch_exhausted s c p now : active_fetches s !! c = None -> exhausted s -> exhausted (start_fetch s c p now).
Proof.
  intros Hn [Ha|Hf]; [left; intros d Hd|right; intros q Hq].
  - cbn. destruct (decide (c = d)) as [->|Hne]; [by rewrite lookup_insert_eq|rewrite lookup_insert_ne by done; by apply Ha].
  - unfold start_fetch. rewrite open_insert by done. specialize (Hf q Hq). case_decide; lia.
Qed.

Lemma request_loop_spec max_total now n : forall s counts hint reqs, swarm_ok s -> (forall p, in_flight counts p = open s p) ->
  0 <= hint <= num_chunks (total_size (tracker s)) -> len reqs <= max_total ->
  exhausted s \/ ((forall c, missing s c -> c < hint -> is_Some (active_fetches s !! c)) /\ num_chunks (total_size (tracker s)) - hint <= Z.of_nat n) ->
  exists s' picks, request_loop n s counts hint max_total now reqs = Some (s', reqs ++ requests_for s picks) /\ swarm_ok s' /\ picked s s' picks now /\
    len reqs + len picks <= max_total /\ (len reqs + len picks = max_total \/ exhausted s').
Proof.
  induction n as [|n IH]; intros s counts hint reqs Hs Hc Hh Hr Hx.
  - exists s, []. cbn. rewrite app_nil_r, Z.add_0_r. split_and!; [done|done|apply picked_nothing|done|]. right. destruct Hx as [?|[Hx Hn]]; [done|].
    left. intros c Hm. apply Hx; [done|]. destruct Hm as [? _]. lia.
  - cbn [request_loop]. destruct (Z.leb_spec max_total (len reqs)) as [Hmax|Hmax].
    { exists s, []. cbn. rewrite app_nil_r, Z.add_0_r. split_and!; [done|done|apply picked_nothing|done|left; lia]. }
    destruct (next_missing (tracker s) hint) as [c|] eqn:Ec.
    2: { exists s, []. cbn. rewrite app_nil_r, Z.add_0_r. split_and!; [done|done|apply picked_nothing|done|]. right. left. intros d [Hd Hm].
         apply missing_None in Ec; [|done]. rewrite (proj1 (complete_spec _) Ec d Hd) in Hm. done. }
    apply missing_Some in Ec as (Hcn & Hcm & Hskip); [|done].
    assert (Hnext : forall s1, tracker s1 = tracker s -> (forall d, is_Some (active_fetches s !! d) -> is_Some (active_fetches s1 !! d)) -> is_Some (active_fetches s1 !! c) ->
      (exhausted s -> exhausted s1) ->
      exhausted s1 \/ ((forall d, missing s1 d -> d < c + 1 -> is_Some (active_fetches s1 !! d)) /\ num_chunks (total_size (tracker s1)) - (c + 1) <= Z.of_nat n)).
    { intros s1 Et Hgrow Hc1 Hex. destruct Hx as [?|[Hx Hn]]; [left; by apply Hex|]. unfold missing. rewrite Et. destruct Hskip as [[Hle Hskip]|Hskip].
      - right. split; [|lia]. intros d [Hd Hm] Hlt. destruct (decide (d = c)) as [->|]; [done|]. apply Hgrow.
        destruct (decide (d < hint)); [by apply Hx|]. rewrite Hskip in Hm; [done|lia].
      - left. left. unfold missing. rewrite Et. intros d [Hd Hm]. apply Hgrow, Hx; [done|]. apply Z.nle_gt. intros ?. rewrite Hskip in Hm; [done|lia]. }
    case_bool_decide as Ha.
    { apply IH; try done; [lia|]. apply Hnext; [done|by intros|done|done]. }
    apply eq_None_not_Some in Ha. destruct (pick_seeder s counts) as [p|] eqn:Ep.
    + apply pick_Some in Ep as [Hp Hopen]. rewrite Hc in Hopen.
      assert (Hbound : 0 <= c * CHUNK_SIZE <= u64_max) by (destruct Hs as ([Hsz _] & _); pose proof (num_chunks_bounds _ Hsz); unfold CHUNK_SIZE, u64_max; lia).
      rewrite chk_u64_ok by done. cbn [mbind option_bind]. change (s <| active_fetches := _ |>) with (start_fetch s c p now).
      destruct (IH (start_fetch s c p now) (count_up counts p) (c + 1) (reqs ++ [(p, mkReq (info_hash (info s)) (c * CHUNK_SIZE) CHUNK_SIZE)])) as (s' & picks & E & Hs' & Hpk & Hlen & Hend).
      * apply start_fetch_ok; [done|lia|done|done].
      * intros q. rewrite count_up_spec, Hc. unfold start_fetch. by rewrite open_insert.
      * cbn. lia.
      * rewrite len_app. unfold len at 2. cbn. lia.
      * apply Hnext; [done| |cbn; by rewrite lookup_insert_eq|by apply start_fetch_exhausted].
        intros d Hd. cbn. destruct (decide (c = d)) as [->|Hne]; [by rewrite lookup_insert_eq|by rewrite lookup_insert_ne].
      * exists s', ((c, p) :: picks). rewrite E, <- app_assoc. rewrite len_app in Hlen, Hend. unfold len at 2 in Hlen. unfold len at 2 in Hend. cbn in Hlen, Hend.
        rewrite len_cons. split_and!; [done|done|by apply picked_cons|lia|destruct Hend; [left; lia|by right]].
    + destruct (IH s counts (c + 1) reqs) as (s' & picks & E & Hrest); try done; [lia| |by exists s', picks].
      left. right. intros p Hp. rewrite <- Hc. by apply (pick_None s).
Qed.

Lemma fewer_fetches s m : swarm_ok s -> m ⊆ active_fetches s -> swarm_ok (s <| active_fetches := m |>).
Proof.
  intros (Ht & He & Ha & Ho) Hm. split_and!; [done|done| |].
  - intros c [f Hf]. cbn in Hf. apply Ha. exists f. by eapply lookup_weaken.
  - intros p. etrans; [|apply (Ho p)]. unfold open. cbn. apply Nat2Z.inj_le, map_subseteq_size. by apply map_filter_subseteq_mono.
Qed.

Context `{Bao}.

(** Whether data are believed. *)
Definition accepted (s : SwarmSync) (d : BlobData) : bool := match bao_root (info s) with Some root => verify d root | None => true end.

(** The states of a download. *)
Inductive swarm_run : SwarmSync -> Prop :=
| run_new i : 0 <= size i <= u64_max -> swarm_run (new i)
| run_seeder s p : swarm_run s -> swarm_run (add_seeder s p)
| run_remove s p : swarm_run s -> swarm_run (remove_seeder s p)
| run_stalled s now : swarm_run s -> swarm_run (clear_stalled_fetches s now)
| run_requests s n now s' r : swarm_run s -> 0 <= n -> next_requests s n now = Some (s', r) -> swarm_run s'
| run_chunk s d : swarm_run s -> 0 <= offset d -> swarm_run (on_chunk_received s d).1.

Lemma next_requests_spec s n now : swarm_ok s -> 0 <= n -> exists s' picks, next_requests s n now = Some (s', requests_for s picks) /\
  swarm_ok s' /\ picked s s' picks now /\ len picks <= n /\ (len picks = n \/ exhausted s').
Proof.
  intros Hs Hn. pose proof Hs as ([Hsz _] & Es & _). pose proof (num_chunks_bounds _ Hsz).
  destruct (request_loop_spec n now (Z.to_nat (num_chunks (size (info s)))) s (in_flight_per_peer s) 0 []) as (s' & picks & E & Hs' & Hp & Hl & Hend); try done;
    [intros p; apply counts_open|lia| |].
  - right. split; [|rewrite Es; lia]. intros c [Hc _] Hlt. lia.
  - exists s', picks. by split_and!.
Qed.

Lemma receive_one_run s d : swarm_ok s -> swarm_ok (on_chunk_received s d).1.
Proof.
  intros IH. unfold on_chunk_received. pose proof (fewer_fetches s (delete (offset d / CHUNK_SIZE) (active_fetches s)) IH (delete_subseteq _ _)) as Hok.
  destruct (match bao_root _ with Some _ => _ | None => _ end); [done|]. destruct Hok as (Ht & He & Ha & Ho). cbn. split_and!; try done.
  - by apply mark_ok.
  - cbn in He |- *. rewrite He. unfold mark_received. by destruct (idx _ _).
Qed.

Lemma run_swarm_ok s : swarm_run s -> swarm_ok s.
Proof.
  induction 1 as [i Hi|s p _ IH|s p _ IH|s now _ IH|s n now s' r _ IH Hn E|s d _ IH Hd].
  - split_and!; [by apply new_tracker_ok|done| |].
    + intros c [f Hf]. cbn in Hf. by rewrite lookup_empty in Hf.
    + intros p. unfold open. cbn. rewrite map_filter_empty, map_size_empty. done.
  - exact IH.
  - apply (fewer_fetches (s <| seeders := seeders s ∖ {[p]} |>)); [done|]. apply map_filter_subseteq.
  - apply fewer_fetches; [done|]. apply map_filter_subseteq.
  - destruct (next_requests_spec s n now IH Hn) as (s1 & picks & E1 & Hs1 & _). rewrite E in E1. by injection E1 as <- _.
  - by apply receive_one_run.
Qed.

Definition receive_all (s : SwarmSync) (ds : list BlobData) : SwarmSync := foldl (fun s d => (on_chunk_received s d).1) s ds.

Lemma receive_one s d c : swarm_ok s -> 0 <= offset d < total_size (tracker s) -> 0 <= c ->
  info (on_chunk_received s d).1 = info s /\ total_size (tracker (on_chunk_received s d).1) = total_size (tracker s) /\
  (is_received (tracker (on_chunk_received s d).1) c = true <-> is_received (tracker s) c = true \/ accepted s d = true /\ offset d / CHUNK_SIZE = c).
Proof.
  intros (Ht & He & _) Hd Hc. unfold on_chunk_received, accepted. cbn.
  assert (Hi : 0 <= offset d / CHUNK_SIZE < num_chunks (total_size (tracker s))).
  { unfold num_chunks, div_ceil, CHUNK_SIZE in *. pose proof (Z.div_pos (offset d) (64 * 1024)).
    pose proof (Z.mul_div_le (offset d) (64 * 1024)). pose proof (Z.mul_succ_div_gt (total_size (tracker s) + 64 * 1024 - 1) (64 * 1024)). lia. }
  destruct (match bao_root (info s) with Some root => negb (verify d root) | None => false end) eqn:Ev.
  - split_and!; [done..|]. cbn. destruct (bao_root (info s)); [|done]. apply negb_true_iff in Ev. rewrite Ev. naive_solver.
  - cbn. split_and!; [done|unfold mark_received; by destruct (idx _ _)|]. rewrite mark_spec by done.
    assert (Ea : match bao_root (info s) with Some root => verify d root | None => true end = true).
    { destruct (bao_root (info s)); [by apply negb_false_iff in Ev|done]. }
    rewrite Ea, orb_true_iff, Z.eqb_eq. naive_solver.
Qed.

Lemma receive_all_spec c ds : forall s, swarm_ok s -> (forall d, d ∈ ds -> 0 <= offset d < total_size (tracker s)) -> 0 <= c ->
  total_size (tracker (receive_all s ds)) = total_size (tracker s) /\
  (is_received (tracker (receive_all s ds)) c = true <->
   is_received (tracker s) c = true \/ exists d, d ∈ ds /\ accepted s d = true /\ offset d / CHUNK_SIZE = c).
Proof.
  induction ds as [|d ds IH]; intros s Hs Hds Hc; cbn.
  { split; [done|]. split; [by left|]. intros [?|(d & Hd & _)]; [done|by apply not_elem_of_nil in Hd]. }
  destruct (receive_one s d c Hs (Hds d (list_elem_of_here _ _)) Hc) as (Ei & Et & E).
  destruct (IH (on_chunk_received s d).1) as [Et' E']; [by apply receive_one_run|rewrite Et; intros e He; apply Hds; by right|done|].
  split; [by rewrite <- Et|]. unfold receive_all in E'. rewrite E', E. unfold accepted. rewrite Ei. split.
  - intros [[Hr|[Ha Eo]]|(e & He & Hr)]; [by left|right; exists d; split; [left|done]|right; exists e; split; [by right|done]].
  - intros [Hr|(e & [->|He]%elem_of_cons & Hr)]; [by left; left|by left; right|right; by exists e].
Qed.

(** ** Properties *)

(** C29: Requests are shared out without a panic: each is for a distinct chunk that
    has not arrived and is not under way, from a known peer; no peer ever has more
    than four open; and the list is only shorter than asked for when every missing
    chunk is under way or every peer is busy. *)
Theorem requests_shared_out s n now : swarm_run s -> 0 <= n -> exists s' picks,
  next_requests s n now = Some (s', requests_for s picks) /\ picked s s' picks now /\ (forall p, open s' p <= MAX_PER_PEER) /\
  len picks <= n /\ (len picks = n \/ exhausted s').
Proof.
  intros Hs%run_swarm_ok Hn. destruct (next_requests_spec s n now Hs Hn) as (s' & picks & E & (_ & _ & _ & Ho) & Hrest). exists s', picks. tauto.
Qed.

(** C30: A download that stands still recovers: when all open requests have timed
    out, a chunk is missing and there is a peer to ask, new requests are made. *)
Theorem download_recovers s now p n : swarm_run s -> is_complete (tracker s) = false -> p ∈ seeders s -> 0 < n ->
  (forall c f, active_fetches s !! c = Some f -> f.2 + FETCH_TIMEOUT <= now) ->
  exists s' r, next_requests (clear_stalled_fetches s now) n now = Some (s', r) /\ r <> [].
Proof.
  intros Hs Hc Hp Hn Hold.
  assert (Hempty : active_fetches (clear_stalled_fetches s now) = ∅).
  { cbn. apply map_empty. intros c. apply map_lookup_filter_None. right. intros f Hf Hlt. specialize (Hold c f Hf). cbn in Hlt. unfold sat_sub in Hlt. lia. }
  destruct (next_requests_spec (clear_stalled_fetches s now) n now) as (s' & picks & E & _ & Hpk & _ & Hend); [by apply run_swarm_ok, run_stalled|lia|].
  exists s', (requests_for (clear_stalled_fetches s now) picks). split; [done|]. intros Enil. apply fmap_nil_inv in Enil. subst picks.
  assert (Hs' : active_fetches s' = ∅) by (apply map_empty; intros c; rewrite (picked_old _ _ _ _ Hpk), Hempty by apply not_elem_of_nil; apply lookup_empty).
  destruct Hend as [Hlen|[Hall|Hfull]]; [unfold len in Hlen; cbn in Hlen; lia| |].
  - apply not_true_iff_false in Hc. apply Hc, complete_spec. intros c Hcn. destruct (is_received (tracker s) c) eqn:Er; [done|exfalso].
    destruct (Hall c) as [f Hf]; [|by rewrite Hs', lookup_empty in Hf]. unfold missing. by rewrite (picked_tracker _ _ _ _ Hpk).
  - specialize (Hfull p). rewrite (picked_seeders _ _ _ _ Hpk) in Hfull. specialize (Hfull Hp). unfold open in Hfull.
    rewrite Hs', map_filter_empty, map_size_empty in Hfull. done.
Qed.

(** A download is complete exactly when verified data have arrived for every
    chunk, in any order and however often; data that the root does not vouch for
    change nothing, and two verified pieces of the same place are equal. *)
Theorem download_completes `{!BaoLaws} i ds : 0 <= size i <= u64_max -> (forall d, d ∈ ds -> 0 <= offset d < size i) ->
  (is_complete (tracker (receive_all (new i) ds)) = true <->
   forall c, 0 <= c < num_chunks (size i) -> exists d, d ∈ ds /\ accepted (new i) d = true /\ offset d / CHUNK_SIZE = c) /\
  forall root d d', bao_root i = Some root -> accepted (new i) d = true -> accepted (new i) d' = true -> offset d = offset d' -> len (data d) = len (data d') ->
    data d = data d'.
Proof.
  intros Hi Hds. assert (Hs : swarm_ok (new i)) by by apply run_swarm_ok, run_new. split.
  - rewrite complete_spec. destruct (receive_all_spec 0 ds (new i) Hs Hds) as [Et _]; [done|]. rewrite Et.
    assert (Heach : forall c, 0 <= c -> is_received (tracker (receive_all (new i) ds)) c = true <-> exists d, d ∈ ds /\ accepted (new i) d = true /\ offset d / CHUNK_SIZE = c).
    { intros c Hc. destruct (receive_all_spec c ds (new i) Hs Hds Hc) as [_ ->]. cbn. rewrite new_received by done. naive_solver. }
    split; intros Hall c Hc; specialize (Hall c Hc); apply Heach; try done; cbn in Hc; lia.
  - intros root d d' Er. unfold accepted. cbn. rewrite Er. unfold verify. intros Hd%bool_decide_eq_true Hd'%bool_decide_eq_true Eo El.
    rewrite <- Eo, <- El in Hd'. by eapply bao_binding.
Qed.

End Requests.

(** ** Instances of the properties *)

(** A root that is the content itself. *)
#[local] Instance plain_bao : Bao := fun proof root o l => if bool_decide (proof = root) then Some (take (Z.to_nat l) (drop (Z.to_nat o) proof)) else None.
#[local] Instance plain_bao_laws : BaoLaws.
Proof.
  intros p p' root o l d d'. unfold slice_decode, plain_bao. case_bool_decide as E; [|done]. case_bool_decide as E'; [|done]. subst p p'. by intros [= <-] [= <-].
Qed.

Definition object_hash : NodeHash := replicate 32 7.
Definition alice : PhysicalDevicePk := replicate 32 1.
Definition bob : PhysicalDevicePk := replicate 32 2.
(** 300000 bytes, five chunks, two peers. *)
Definition object : BlobInfo := mkInfo object_hash 300000 None Pending None None.
Definition download : SwarmSync := add_seeder (add_seeder (new object) alice) bob.

Lemma download_runs : swarm_run download.
Proof. do 2 apply run_seeder. apply run_new. by vm_compute. Qed.

Lemma requests_shared_out_witness : exists s' picks, next_requests download 4 100 = Some (s', requests_for download picks) /\ picked download s' picks 100 /\
  (forall p, open s' p <= MAX_PER_PEER) /\ len picks <= 4 /\ (len picks = 4 \/ exhausted s').
Proof. apply (requests_shared_out download 4 100); [exact download_runs|done]. Defined.

(** The peers take turns. *)
Example requests_alternate : (fun r => List.map fst r.2) <$> next_requests download 4 100 = Some [alice; bob; alice; bob].
Proof. by vm_compute. Qed.

Lemma download_recovers_witness : exists s' r, next_requests (clear_stalled_fetches download 100) 4 100 = Some (s', r) /\ r <> [].
Proof.
  apply (download_recovers download 100 alice 4); [exact download_runs|by vm_compute|by vm_compute|done|].
  intros c f Hf. cbn in Hf. by rewrite lookup_empty in Hf.
Defined.

(** Three bytes in one chunk, in two pieces. *)
Definition note_root : bytes := [5; 6; 7].
Definition note : BlobInfo := mkInfo object_hash 3 (Some note_root) Pending None None.
Definition whole : BlobData := mkData object_hash 0 [5; 6; 7] note_root.
Definition piece : BlobData := mkData object_hash 0 [5] note_root.

Lemma download_completes_witness :
  (is_complete (tracker (receive_all (new note) [whole])) = true <->
   forall c, 0 <= c < num_chunks (size note) -> exists d, d ∈ [whole] /\ accepted (new note) d = true /\ offset d / CHUNK_SIZE = c) /\
  forall root d d', bao_root note = Some root -> accepted (new note) d = true -> accepted (new note) d' = true -> offset d = offset d' -> len (data d) = len (data d') ->
    data d = data d'.
Proof. apply (download_completes note [whole]); [by vm_compute|]. intros d ->%list_elem_of_singleton. by vm_compute. Defined.

(** The length of a piece is not looked at: a verified piece of a chunk counts for
    all of it. *)
Example short_piece_completes : is_complete (tracker (receive_all (new note) [piece])) = true.
Proof. by vm_compute. Qed.

End CasTheory.
