(* ===== verification/Clock.v ===== *)
(** The network clock ([merkle-tox-core/src/clock.rs]): a weighted median of the
    offsets that peers report, approached slowly, and a time that never goes back.

    [f64] is [SpecFloat] at precision 53, as [f32] is in [Float32.v].  The time
    provider's answers are arguments.  [None] is a panic. *)

From S2P Require Import Prelude Protocol Float32 Merkle.
From stdpp Require Import gmap sorting.
From Stdlib Require Import SpecFloat.
#[local] Open Scope Z_scope.
#[local] Open Scope list_scope.

Abbreviation f64 := spec_float (only parsing).

Module F64.

Definition prec : Z := 53.
Definition emax : Z := 1024.
Definition of_Z (z : Z) : f64 := binary_normalize prec emax z 0 false.
Definition add : f64 -> f64 -> f64 := SFadd prec emax.
Definition sub : f64 -> f64 -> f64 := SFsub prec emax.
Definition mul : f64 -> f64 -> f64 := SFmul prec emax.
Definition div : f64 -> f64 -> f64 := SFdiv prec emax.
Definition neg : f64 -> f64 := SFopp.
Definition abs : f64 -> f64 := SFabs.
(** The literal nearest to [p / q]. *)
Definition lit (p q : Z) : f64 := div (of_Z p) (of_Z q).
Definition lt (x y : f64) : bool := SFltb x y.
Definition ge (x y : f64) : bool := SFleb y x.
Definition eq (x y : f64) : bool := SFeqb x y.
Definition min (x y : f64) : f64 := if F32.is_nan x then y else if F32.is_nan y then x else if lt y x then y else x.
(** [x as i64]: truncation, saturating, 0 for a NaN. *)
Definition to_i64 (x : f64) : Z :=
  match x with
  | S754_nan => 0
  | S754_infinity s => if s then i64_min else i64_max
  | _ => Z.max i64_min (Z.min i64_max (F32.trunc x))
  end.
(** [Duration::as_secs_f64] *)
Definition as_secs (d : Duration) : f64 := add (of_Z (d / NANOS_PER_SEC)) (div (of_Z (d mod NANOS_PER_SEC)) (of_Z NANOS_PER_SEC)).

End F64.

Module Clock.

(** An offset in milliseconds and its weight. *)
Definition Sample : Type := (Z * Z)%type.

Record NetworkClock := mkClock {
  peer_offsets : gmap LogicalIdentityPk (list Sample);
  device_to_identity : gmap PhysicalDevicePk LogicalIdentityPk;
  target_offset : Z;
  current_offset : f64;
  last_slew_instant : Instant;
  base_instant : Instant;
  base_system_time : Z;
  last_network_time : Z
}.
#[export] Instance eta_NetworkClock : Settable NetworkClock := fun c =>
  mkClock (peer_offsets c) (device_to_identity c) (target_offset c) (current_offset c) (last_slew_instant c) (base_instant c) (base_system_time c)
    (last_network_time c).

Definition MAX_SLEW_RATE : f64 := F64.lit 1 100.
Definition SLEW_THRESHOLD_MS : Z := 10 * 60 * 1000.
Definition MAX_OFFSET_MS : Z := 300000.

Definition new (now_inst : Instant) (now_sys : Z) : NetworkClock := mkClock ∅ ∅ 0 (F64.of_Z 0) now_inst now_inst now_sys now_sys.

(** ** The median *)

(** The values of a [BTreeMap], in the order of the keys. *)
Definition key_le {A} (x y : LogicalIdentityPk * A) : Prop := bytes_compare x.1 y.1 <> Gt.
#[export] Instance key_le_dec {A} : RelDecision (@key_le A).
Proof. intros x y. unfold key_le. apply _. Defined.
Definition values_in_order {A} (m : gmap LogicalIdentityPk A) : list A := snd <$> merge_sort key_le (map_to_list m).

(** [saturating_mul] on [i64] *)
Definition saturating_mul (a b : Z) : Z := Z.max i64_min (Z.min i64_max (a * b)).
(** [sum] with its overflow check. *)
Definition checked_sum (check : Z -> option Z) (l : list Z) : option Z := foldl (fun acc x => a ← acc; check (a + x)) (Some 0) l.

(** The average of an identity's samples, and its weight. *)
Definition identity_sample (samples : list Sample) : option Sample :=
  total_w ← checked_sum chk_u64 (snd <$> samples);
  weighted_sum ← checked_sum chk_i64 ((fun s => saturating_mul s.1 s.2) <$> samples);
  let avg_offset := if 0 <? total_w then Z.quot weighted_sum total_w else 0 in
  let avg_weight := if 0 <? total_w then wrap 32 (total_w / len samples) else 1 in
  Some (avg_offset, Z.max avg_weight 1).

Fixpoint identity_samples (l : list (list Sample)) : option (list Sample) :=
  match l with
  | [] => Some []
  | [] :: l => identity_samples l
  | samples :: l => s ← identity_sample samples; rest ← identity_samples l; Some (s :: rest)
  end.

Definition offset_le (x y : Sample) : Prop := x.1 <= y.1.
#[export] Instance offset_le_dec : RelDecision offset_le.
Proof. intros x y. unfold offset_le. apply _. Defined.

(** The scan for the median; [last] is the offset of the last sample. *)
Fixpoint scan_median (samples : list Sample) (current_weight total_weight last : Z) : option Z :=
  match samples with
  | [] => Some last
  | (offset, weight) :: rest =>
      current_weight ← chk_u64 (current_weight + weight);
      if total_weight / 2 <? current_weight then Some offset
      else if (current_weight =? total_weight / 2) && (total_weight mod 2 =? 0) then
        match rest with
        | (next, _) :: _ => x ← chk_i64 (offset + next); Some (Z.quot x 2)
        | [] => Some offset
        end
      else scan_median rest current_weight total_weight last
  end.

(** [None] inside is an early return. *)
Definition consensus_target (offsets : gmap LogicalIdentityPk (list Sample)) : option (option Z) :=
  samples ← identity_samples (values_in_order offsets);
  match samples with
  | [] => Some None
  | s :: _ =>
      let sorted := merge_sort offset_le samples in
      total_weight ← checked_sum chk_u64 (snd <$> sorted);
      target ← scan_median sorted 0 total_weight (List.last sorted s).1;
      Some (Some (Z.max (- MAX_OFFSET_MS) (Z.min MAX_OFFSET_MS target)))
  end.

(** ** Updates *)

Definition recalculate_consensus (c : NetworkClock) : option NetworkClock :=
  if bool_decide (peer_offsets c = ∅) then Some c
  else
    found ← consensus_target (peer_offsets c);
    match found with
    | None => Some c
    | Some target =>
        let c := if (target_offset c =? 0) && F64.eq (current_offset c) (F64.of_Z 0) && (base.size (peer_offsets c) =? 1)%nat
                 then c <| current_offset := F64.of_Z target |> else c in
        let c := c <| target_offset := target |> in
        difference ← chk_i64 (target - F64.to_i64 (current_offset c));
        drift ← chk_i64 (Z.abs difference);
        Some (if SLEW_THRESHOLD_MS <? drift then c <| current_offset := F64.of_Z target |> else c)
    end.

Definition update_peer_offset_weighted (c : NetworkClock) (peer : PhysicalDevicePk) (logical_pk : LogicalIdentityPk) (offset weight : Z) : option NetworkClock :=
  recalculate_consensus (c <| device_to_identity := <[peer := logical_pk]> (device_to_identity c) |>
                           <| peer_offsets := <[logical_pk := [(offset, weight)]]> (peer_offsets c) |>).

Definition update_peer_offset (c : NetworkClock) (peer : PhysicalDevicePk) (offset : Z) : option NetworkClock :=
  update_peer_offset_weighted c peer peer offset 1.

(** ** Time *)

Definition apply_slewing (c : NetworkClock) (now : Instant) : NetworkClock :=
  let elapsed := F64.mul (F64.as_secs (sat_sub now (last_slew_instant c))) (F64.of_Z 1000) in
  let c := c <| last_slew_instant := now |> in
  let target := F64.of_Z (target_offset c) in
  if F64.lt (F64.abs (F64.sub (current_offset c) target)) (F64.lit 1 10) then c <| current_offset := target |>
  else
    let max_adj := F64.mul elapsed MAX_SLEW_RATE in
    let remaining := F64.sub target (current_offset c) in
    if F64.lt (F64.of_Z 0) remaining
    then c <| current_offset := F64.add (current_offset c) (F64.min remaining max_adj) |>
    else c <| current_offset := F64.sub (current_offset c) (F64.min (F64.neg remaining) max_adj) |>.

(** [as i64] *)
Definition as_i64 (z : Z) : Z := let w := wrap 64 z in if w <=? i64_max then w else w - 2 ^ 64.

Definition network_time_ms (c : NetworkClock) (now : Instant) : option (NetworkClock * Z) :=
  let c := apply_slewing c now in
  let elapsed := as_i64 (sat_sub now (base_instant c) / 1000000) in
  x ← chk_i64 (base_system_time c + elapsed);
  net_time ← chk_i64 (x + F64.to_i64 (current_offset c));
  Some (if net_time <? last_network_time c then (c, last_network_time c) else (c <| last_network_time := net_time |>, net_time)).

Definition consensus_offset (c : NetworkClock) : Z := F64.to_i64 (current_offset c).
Definition consensus_target_offset (c : NetworkClock) : Z := target_offset c.

End Clock.
