(* ===== verification/ClockTheory.v ===== *)
(** Theorems about [Clock.v]: a majority of the weight bounds the target, and time
    does not go back. *)

From S2P Require Import Prelude Protocol Float32 F32Theory Merkle Clock.
From stdpp Require Import gmap sorting.
From Stdlib Require Import SpecFloat.
#[local] Open Scope Z_scope.
#[local] Open Scope list_scope.

Module ClockTheory.
Import Clock.

(** ** The weighted median *)










(** ** Small integers as [f64] *)




Lemma to_i64_range x : i64_min <= F64.to_i64 x <= i64_max.
Proof. unfold F64.to_i64. destruct x as [|[]| |]; unfold i64_min, i64_max; lia. Qed.

(** ** Votes *)






#[local] Instance offset_le_total : Total offset_le.
Proof. intros x y. unfold offset_le. lia. Qed.
#[local] Instance offset_le_trans : Transitive offset_le.
Proof. intros x y z. unfold offset_le. lia. Qed.






(** ** Time *)

Lemma recalculate_last c c' : recalculate_consensus c = Some c' -> last_network_time c' = last_network_time c.
Proof.
  unfold recalculate_consensus. case_bool_decide; [by intros [= <-]|]. intros E. inv_bind E. destruct v as [target|]; [|by injection E as <-].
  inv_bind E. inv_bind E. injection E as <-. destruct (_ && _ && _), (SLEW_THRESHOLD_MS <? _); done.
Qed.

Lemma slewing_last c now : last_network_time (apply_slewing c now) = last_network_time c.
Proof. unfold apply_slewing. cbv zeta. repeat case_match; done. Qed.

Lemma time_forward c now c' t : network_time_ms c now = Some (c', t) -> last_network_time c <= t /\ last_network_time c' = t.
Proof.
  unfold network_time_ms. intros E. inv_bind E. inv_bind E. injection E as E. rewrite slewing_last in E.
  destruct (Z.ltb_spec v0 (last_network_time c)); injection E as <- <-; [by rewrite slewing_last|done].
Qed.

(** What is done with a clock. *)
Inductive op := Offset (peer : PhysicalDevicePk) (logical : LogicalIdentityPk) (offset weight : Z) | Time (now : Instant).

(** The times that are read in a run. *)
Fixpoint clock_run (c : NetworkClock) (ops : list op) : option (NetworkClock * list Z) :=
  match ops with
  | [] => Some (c, [])
  | Offset peer logical offset weight :: ops => c ← update_peer_offset_weighted c peer logical offset weight; clock_run c ops
  | Time now :: ops => '(c, t) ← network_time_ms c now; '(c, ts) ← clock_run c ops; Some (c, t :: ts)
  end.

Lemma run_forward ops : forall c c' ts, clock_run c ops = Some (c', ts) -> StronglySorted Z.le (last_network_time c :: ts).
Proof.
  induction ops as [|[peer log o w|now] ops IH]; intros c c' ts E; cbn in E.
  - injection E as <- <-. repeat constructor.
  - inv_bind E. apply IH in E. apply recalculate_last in E0. by rewrite E0 in E.
  - inv_bind E. destruct v as [c1 t]. inv_bind E. destruct v as [c2 ts']. injection E as <- <-. apply time_forward in E0 as [Hle Hlast]. apply IH in E1.
    rewrite Hlast in E1. apply StronglySorted_cons in E1 as E2. destruct E2 as [Hall _]. apply StronglySorted_cons. split; [|done]. constructor; [done|].
    eapply Forall_impl; [exact Hall|]. cbn. lia.
Qed.

(** ** Properties *)


(** C32: The times that are read from a clock never decrease, whatever offsets are
    recorded in between and whatever the system's instants do. *)
Theorem time_never_goes_back c ops c' ts : clock_run c ops = Some (c', ts) -> StronglySorted Z.le (last_network_time c :: ts).
Proof. apply run_forward. Qed.

(** ** Instances of the properties *)

Definition peer1 : LogicalIdentityPk := replicate 32 1.
Definition peer2 : LogicalIdentityPk := replicate 32 2.
Definition start : NetworkClock := new 0 1000000.

(** Two honest identities have reported. *)
Definition two_peers : NetworkClock := mkClock (<[peer2 := [(6000, 1)]]> (<[peer1 := [(5000, 1)]]> ∅)) ∅ 5500 (F64.of_Z 5000) 0 0 1000000 1000000.




(** The median of the three is an honest offset. *)
Example liar_ignored : target_offset <$> update_peer_offset two_peers (replicate 32 3) (2 ^ 40) = Some 6000.
Proof. by vm_compute. Qed.

(** Two offsets that are reported by one identity each make the average overflow. *)
Example average_overflows : is_Some (update_peer_offset start peer1 (2 ^ 62)) /\
  (c ← update_peer_offset start peer1 (2 ^ 62); update_peer_offset c peer2 (2 ^ 62)) = None.
Proof. split; [eexists; vm_compute; reflexivity|by vm_compute]. Qed.

Lemma time_never_goes_back_witness : StronglySorted Z.le [1000000; 1001000; 1066000].
Proof.
  apply (time_never_goes_back start [Time 1000000000; Offset peer1 peer1 5000 1; Time (1000000000 * 61); Offset peer1 peer1 (-9000) 1] (default start (c ← network_time_ms start 1000000000; c ← update_peer_offset c.1 peer1 5000; c ← network_time_ms c (1000000000 * 61); update_peer_offset c.1 peer1 (-9000)))).
  by vm_compute.
Defined.

End ClockTheory.
