(* ===== verification/Builder.v ===== *)
(** The first nodes of conversations ([merkle-tox-core/src/builder.rs]): the agreed
    one of a private chat, and that of a group with its proof of work.

    The search for a nonce takes fuel; [mine_finds] says how much is enough. *)

From S2P Require Import Prelude Protocol MsgPack MsgPackTheory ToxTypes ToxTheory Derive MsgPackFormat Merkle MerkleModels Dag DagCodec DagWire DagTheory DagValid.
From stdpp Require Import list gmap strings.
#[local] Open Scope Z_scope.
#[local] Open Scope list_scope.

Module Builder.
Import Dag Crypto DagCodec.

Section Builder.
Context `{Rmp} `{Blake3Hash} `{Ed25519}.

Definition private_genesis (pk_a pk_b : LogicalIdentityPk) (sig : Ed25519Signature) : MerkleNode :=
  mkNode [] zero_hash zero_hash 1 0 0
    (Control (Genesis (literal "Private Chat") (match bytes_compare pk_a pk_b with Gt => pk_b | _ => pk_a end) Permissions.ALL 0 0 0)) []
    (EphemeralSignature sig) 0.

(** The MAC fills the first half of the signature. *)
Definition new_1on1_genesis (pk_a pk_b : LogicalIdentityPk) (keys : ConversationKeys) : option MerkleNode :=
  let node := private_genesis pk_a pk_b (replicate 64 0) in
  auth_data ← serialize_for_auth node;
  Some (node <| authentication := EphemeralSignature (calculate_mac keys auth_data ++ replicate 32 0) |>).

Definition group_genesis (title : bytes) (creator_pk : LogicalIdentityPk) (flags timestamp nonce : Z) (sig : Ed25519Signature) : MerkleNode :=
  mkNode [] creator_pk (to_physical creator_pk) 1 0 timestamp (Control (Genesis title creator_pk Permissions.ALL flags timestamp nonce)) [] (Signature sig) 0.

(** The loop over the nonces, from [nonce] on. *)
Fixpoint mine (fuel : nat) (title : bytes) (creator_pk : LogicalIdentityPk) (flags timestamp nonce : Z) : option Z :=
  match fuel with
  | O => None
  | S fuel =>
      found ← validate_pow_v2 creator_pk (Genesis title creator_pk Permissions.ALL flags timestamp nonce);
      if (found : bool) then Some nonce else next ← chk_u64 (nonce + 1); mine fuel title creator_pk flags timestamp next
  end.

Definition new_group_genesis (fuel : nat) (title : bytes) (creator_pk : LogicalIdentityPk) (flags timestamp : Z) (signing_key : bytes) : option MerkleNode :=
  nonce ← mine fuel title creator_pk flags timestamp 0;
  let node := group_genesis title creator_pk flags timestamp nonce (replicate 64 0) in
  auth_data ← serialize_for_auth node;
  Some (node <| authentication := Signature (sign signing_key auth_data) |>).

End Builder.

Section Theory.
Context `{RmpLaws} `{Blake3Hash} `{Ed25519Laws}.

Lemma mine_least fuel title c f t x nonce : in_u 64 x -> mine fuel title c f t x = Some nonce -> x <= nonce /\ in_u 64 nonce /\
  validate_pow_v2 c (Genesis title c Permissions.ALL f t nonce) = Some true /\
  forall y, x <= y < nonce -> validate_pow_v2 c (Genesis title c Permissions.ALL f t y) = Some false.
Proof.
  revert x. induction fuel as [|fuel IH]; intros x Hx; cbn [mine]; [done|]. intros E. inv_bind E. destruct v.
  - injection E as <-. split_and!; [lia|done|done|lia].
  - inv_bind E. apply chk_Some in E1 as [-> Hb]. apply IH in E as (Hle & Hn & Hs & Hy); [|unfold in_u, u64_max in *; lia]. split_and!; [lia|done|done|].
    intros y Hy'. destruct (decide (y = x)) as [->|]; [done|apply Hy; lia].
Qed.

Lemma mine_finds fuel title c f t x y : 0 <= x <= y -> y <= u64_max ->
  (forall z, x <= z <= y -> validate_pow_v2 c (Genesis title c Permissions.ALL f t z) = Some (z =? y)) -> (Z.to_nat (y - x) < fuel)%nat ->
  mine fuel title c f t x = Some y.
Proof.
  revert x. induction fuel as [|fuel IH]; intros x Hx Hy Hs Hf; [lia|]. cbn [mine]. rewrite Hs by lia. run. destruct (Z.eqb_spec x y) as [->|]; [done|].
  run_chk. apply IH; [lia|done| |lia]. intros z Hz. apply Hs. lia.
Qed.

Lemma genesis_node_ok title c f at_ nonce sender author t a : text_ok title -> key_ok 32 c -> in_u 64 f -> i64_range at_ -> in_u 64 nonce ->
  key_ok 32 author -> key_ok 32 sender -> i64_range t -> auth_ok a ->
  node_ok (mkNode [] author sender 1 0 t (Control (Genesis title c Permissions.ALL f at_ nonce)) [] a 0).
Proof.
  intros. unfold node_ok. cbn [parents author_pk sender_pk sequence_number topological_rank network_timestamp content metadata authentication].
  split_and!; try done; try by constructor.
Qed.

(** The bytes to sign do not depend on what authenticates. *)
Lemma group_unsigned title c f t nonce s s' : serialize_for_auth (group_genesis title c f t nonce s) = serialize_for_auth (group_genesis title c f t nonce s').
Proof. done. Qed.
Lemma private_unsigned a b s s' : serialize_for_auth (private_genesis a b s) = serialize_for_auth (private_genesis a b s').
Proof. done. Qed.

Lemma genesis_valid title c p f at_ nonce sender author seq t a lookup : let n := mkNode [] author sender seq 0 t (Control (Genesis title c p f at_ nonce)) [] a 0 in
  validate_pow n = Some true -> verify_admin_signature n = Some true -> DagValid.lookup_ok lookup -> node_ok n ->
  (forall b, to_vec content_type (content n) = ret b -> len b <= MAX_MESSAGE_SIZE) -> validate n lookup = succeed tt.
Proof.
  intros n Hpow Hsig Hl Hn Hsize. apply DagValid.validate_iff; [done|done|]. split.
  - by vm_compute.
  - constructor.
  - by vm_compute.
  - intros b Eb. specialize (Hsize b Eb). cbn. change (len []) with 0. lia.
  - cbn. destruct a; [by right|left; by eexists].
  - by intros _.
  - intros q Hq. by apply not_elem_of_nil in Hq.
  - done.
  - intros q _ _ Hq. by apply not_elem_of_nil in Hq.
  - intros basis cert E. discriminate E.
  - intros E. discriminate E.
Qed.

Lemma group_built fuel title c f t sk n : new_group_genesis fuel title c f t sk = Some n -> exists nonce v,
  mine fuel title c f t 0 = Some nonce /\ serialize_for_auth n = Some v /\ n = group_genesis title c f t nonce (sign sk v).
Proof. unfold new_group_genesis. intros E. inv_bind E. inv_bind E. exists v, v0. injection E as <-. split_and!; [done|exact E1|done]. Qed.

Lemma private_built a b keys n : new_1on1_genesis a b keys = Some n -> exists v,
  serialize_for_auth n = Some v /\ n = private_genesis a b (calculate_mac keys v ++ replicate 32 0).
Proof. unfold new_1on1_genesis. intros E. inv_bind E. exists v. injection E as <-. split; [exact E0|done]. Qed.

Lemma private_symmetric a b sig : private_genesis a b sig = private_genesis b a sig.
Proof.
  unfold private_genesis. rewrite (bytes_compare_antisym a b). destruct (bytes_compare a b) eqn:E; try done.
  apply bytes_compare_eq in E. by subst.
Qed.

(** ** Properties *)

Lemma group_hash title c f t nonce sig : node_ok (group_genesis title c f t nonce sig) -> exists h, hash (group_genesis title c f t nonce sig) = Some h.
Proof.
  intros Hn. destruct (node_codec empty_ctx (group_genesis title c f t nonce sig)) as (b & E & _); [by split|]. unfold hash.
  change (to_vec merkle_node ?n) with (serialize merkle_node empty_ctx n). rewrite E. by exists (blake3 b).
Qed.

Lemma pow_v2_total title c f t nonce : text_ok title -> key_ok 32 c -> in_u 64 f -> i64_range t -> in_u 64 nonce ->
  exists b, validate_pow_v2 c (Genesis title c Permissions.ALL f t nonce) = Some b.
Proof.
  intros. destruct (action_codec empty_ctx (Genesis title c Permissions.ALL f t nonce)) as (b & E & _); [by split_and!|]. unfold validate_pow_v2.
  change (to_vec control_action ?a) with (serialize control_action empty_ctx a). rewrite E. by eexists.
Qed.

(** The search ends at or before any solution within reach. *)
Lemma mine_ends fuel title c f t x y : (forall z, in_u 64 z -> exists b, validate_pow_v2 c (Genesis title c Permissions.ALL f t z) = Some b) ->
  0 <= x <= y -> y < x + Z.of_nat fuel -> y <= u64_max -> validate_pow_v2 c (Genesis title c Permissions.ALL f t y) = Some true ->
  exists nonce, mine fuel title c f t x = Some nonce.
Proof.
  intros Hall. revert x. induction fuel as [|fuel IH]; intros x Hx Hf Hy Hs; [lia|]. cbn [mine].
  destruct (Hall x) as [b Eb]; [unfold in_u, u64_max in *; lia|]. rewrite Eb. run. destruct b; [by exists x|].
  assert (x <> y) by (intros ->; congruence). run_chk. apply IH; [lia|lia|done|done].
Qed.

(** C33: Mining ends when a nonce solves the proof of work, with the least one that does, and
    the node is signed by its creator.  Validation accepts it, unless its nonce is 0: it
    then takes it for a node of the older scheme, and accepts it exactly if the hash of
    the node happens to solve the older proof of work. *)
Theorem group_genesis_valid fuel title flags timestamp sk y lookup :
  let pk := verifying_key sk in let action z := Genesis title pk Permissions.ALL flags timestamp z in
  text_ok title -> in_u 64 flags -> i64_range timestamp -> key_ok 32 pk -> (forall msg, key_ok 64 (sign sk msg)) -> DagValid.lookup_ok lookup ->
  (forall z b, 0 <= z <= y -> to_vec content_type (Control (action z)) = ret b -> len b <= MAX_MESSAGE_SIZE /\ Forall (in_u 8) b) ->
  0 <= y < Z.of_nat fuel -> y <= u64_max -> validate_pow_v2 pk (action y) = Some true ->
  exists n nonce h, new_group_genesis fuel title pk flags timestamp sk = Some n /\ content n = Control (action nonce) /\ hash n = Some h /\
    validate_pow_v2 pk (action nonce) = Some true /\ (forall z, 0 <= z < nonce -> validate_pow_v2 pk (action z) = Some false) /\
    verify_admin_signature n = Some true /\ (validate n lookup = succeed tt <-> nonce <> 0 \/ validate_pow_v1 pk h 0 = true).
Proof.
  intros pk action Ht Hf Hts Hk Hsig Hl Hsize Hy Hmax Hs.
  destruct (mine_ends fuel title pk flags timestamp 0 y) as [nonce Em]; [by intros z Hz; apply pow_v2_total|lia|lia|done|done|].
  pose proof Em as (_ & Hn & Hpow & Hleast)%mine_least; [|done].
  assert (forall a, auth_ok a -> node_ok (mkNode [] pk pk 1 0 timestamp (Control (action nonce)) [] a 0)) as Hok by (intros a Ha; by apply genesis_node_ok).
  assert (0 <= nonce <= y) as Hny.
  { unfold in_u in Hn. destruct (Z_lt_le_dec y nonce) as [Hlt|]; [|lia]. specialize (Hleast y ltac:(lia)). unfold action in Hs. congruence. }
  set (blank := group_genesis title pk flags timestamp nonce (replicate 64 0)).
  assert (node_ok blank) as Hblank by (apply Hok; split; [done|by repeat constructor]).
  assert (exists v, serialize_for_auth blank = Some v) as [v Ev].
  { destruct (DagTheory.content_bytes (content blank)) as (b & Eb & _); [by apply Hblank|].
    destruct (auth_data_codec empty_ctx (DagTheory.auth_data blank b)) as (d & Ed & _).
    - apply DagTheory.auth_data_of_node; [done| |done]. intros b' Eb'. destruct (Hsize nonce b' Hny Eb') as [Hb Hb8].
      split; [change (len (metadata blank)) with 0; unfold MAX_MESSAGE_SIZE in Hb; lia|done].
    - unfold serialize_for_auth. rewrite Eb. cbn [expect mbind option_bind ret]. change (to_vec wire_auth_data _) with (serialize wire_auth_data empty_ctx (DagTheory.auth_data blank b)).
      rewrite Ed. by eexists. }
  set (n := group_genesis title pk flags timestamp nonce (sign sk v)). assert (node_ok n) as Hnode by (apply Hok, Hsig).
  destruct (group_hash title pk flags timestamp nonce (sign sk v) Hnode) as [h Eh]. exists n, nonce, h.
  assert (new_group_genesis fuel title pk flags timestamp sk = Some n) as Enew.
  { unfold new_group_genesis. rewrite Em. run. fold blank. by rewrite Ev. }
  assert (verify_admin_signature n = Some true) as Hadm.
  { unfold verify_admin_signature, n. cbn [authentication sender_pk group_genesis]. unfold to_physical. unfold pk at 1. rewrite own_key_ok. cbn [negb].
    rewrite (group_unsigned title pk flags timestamp nonce (sign sk v) (replicate 64 0)). fold blank. rewrite Ev. run. unfold pk. by rewrite sign_verify. }
  assert (validate_pow n = Some (negb (nonce =? 0) || validate_pow_v1 pk h 0)) as Ep.
  { unfold validate_pow, n. cbn [content authentication group_genesis]. fold n. destruct (nonce =? 0); cbn [negb orb]; [|by rewrite Hpow].
    run. change (hash n) with (hash (group_genesis title pk flags timestamp nonce (sign sk v))). by rewrite Eh. }
  split_and!; [done|done|done|done|done|done|]. split.
  - intros Hv%DagValid.validate_iff; [|done|done]. destruct (DagValid.valid_authentic _ _ Hv) as [Hp _]; [by left|]. rewrite Ep in Hp. injection Hp as Hp.
    destruct (Z.eqb_spec nonce 0); [by right|by left].
  - intros Hor. apply genesis_valid; [| |done|done|intros b Eb; by apply (Hsize nonce b Hny)]; [|done].
    change (validate_pow n = Some true). rewrite Ep. f_equal.
    destruct (Z.eqb_spec nonce 0) as [->|]; [by destruct Hor|done].
Qed.

(** The two partners of a private chat build the same first node without talking
    to each other; it is valid, and it carries the MAC of its bytes under their
    common keys. *)
Theorem private_genesis_agreed a b keys n lookup : key_ok 32 a -> key_ok 32 b -> (forall k d, key_ok 32 (blake3_keyed k d)) ->
  new_1on1_genesis a b keys = Some n -> (forall b, to_vec content_type (content n) = ret b -> len b <= MAX_MESSAGE_SIZE) -> DagValid.lookup_ok lookup ->
  new_1on1_genesis b a keys = Some n /\ validate n lookup = succeed tt /\
  exists mac auth_data, authentication n = EphemeralSignature (mac ++ replicate 32 0) /\ serialize_for_auth n = Some auth_data /\ verify_mac keys auth_data mac = true.
Proof.
  intros Ha Hb Hmac E Hsize Hl. split.
  { unfold new_1on1_genesis in *. by rewrite <- (private_symmetric a b). }
  apply private_built in E as (v & Ev & ->). split.
  - apply genesis_valid; [done|done|done| |done]. apply genesis_node_ok; try done.
    + by destruct (bytes_compare a b).
    + split; [by vm_compute|]. by repeat constructor.
    + split; [by vm_compute|]. by repeat constructor.
    + destruct (Hmac (k_mac keys) v) as [Hl1 Hl2]. split; [rewrite length_app; unfold calculate_mac; by rewrite Hl1|]. apply Forall_app. split; [done|by repeat constructor].
  - exists (calculate_mac keys v), v. split_and!; [done|done|]. unfold verify_mac. by rewrite bool_decide_eq_true_2.
Qed.

End Theory.

(** ** Instances of the properties *)

Import Models Format.

(** A hash that is zero unless the data end in a zero: the nonce 1 solves every
    proof of work. *)
#[local] Instance easy_hash : Blake3Hash := {|
  blake3 data := if bool_decide (List.last data 0 = 0) then replicate 32 255 else replicate 32 0;
  blake3_derive _ data := take 32 (data ++ replicate 32 0);
  blake3_keyed key data := checksum (key ++ data)
|}.

Definition no_nodes : NodeLookup := mkLookup (fun _ => None) (fun _ => None) (fun _ => None) (fun _ => false) (fun _ => false) (fun _ => None).
Lemma no_nodes_ok : DagValid.lookup_ok no_nodes.
Proof. by split. Qed.

Definition mined : MerkleNode := default genesis_node (new_group_genesis 5 (literal "room") key1 7 5000 key1).

Lemma mined_runs : new_group_genesis 5 (literal "room") key1 7 5000 key1 = Some mined.
Proof. by vm_compute. Qed.

(** The size of a content is known by encoding it. *)
Lemma small_content c b : match to_vec content_type c with Some (Ok v) => len v <=? MAX_MESSAGE_SIZE | _ => true end = true ->
  to_vec content_type c = ret b -> len b <= MAX_MESSAGE_SIZE.
Proof. intros Hc E. rewrite E in Hc. by apply Z.leb_le. Qed.

(** The bytes of a content are known by encoding it. *)
Lemma small_bytes c b : match to_vec content_type c with Some (Ok v) => (len v <=? MAX_MESSAGE_SIZE) && bool_decide (Forall (in_u 8) v) | _ => true end = true ->
  to_vec content_type c = ret b -> len b <= MAX_MESSAGE_SIZE /\ Forall (in_u 8) b.
Proof. intros Hc E. rewrite E in Hc. cbn in Hc. apply andb_true_iff in Hc as [Hl%Z.leb_le Hb%bool_decide_eq_true]. done. Qed.

Lemma toy_signature msg : key_ok 64 (sign key1 msg).
Proof.
  change (sign key1 msg) with (key1 ++ checksum msg). unfold checksum. split; [rewrite length_app, be_bytes_length; done|].
  apply Forall_app. split; [by repeat constructor|apply DagTheory.be_bytes_u8].
Qed.

Lemma group_genesis_valid_witness : exists n nonce h, new_group_genesis 5 (literal "room") key1 7 5000 key1 = Some n /\
  content n = Control (Genesis (literal "room") key1 Permissions.ALL 7 5000 nonce) /\ hash n = Some h /\ (validate n no_nodes = succeed tt <-> nonce <> 0 \/ validate_pow_v1 key1 h 0 = true).
Proof.
  destruct (group_genesis_valid 5 (literal "room") 7 5000 key1 1 no_nodes) as (n & nonce & h & En & Ec & Eh & _ & _ & _ & Hv).
  - by vm_compute.
  - by vm_compute.
  - by vm_compute.
  - split; [done|by repeat constructor].
  - apply toy_signature.
  - apply no_nodes_ok.
  - intros z b Hz. apply small_bytes. assert (z = 0 \/ z = 1) as [-> | ->] by lia; vm_compute; reflexivity.
  - done.
  - done.
  - by vm_compute.
  - by exists n, nonce, h.
Defined.

Definition common_keys : ConversationKeys := derive_keys key2.
Definition chat : MerkleNode := default genesis_node (new_1on1_genesis key1 key2 common_keys).

Lemma chat_runs : new_1on1_genesis key1 key2 common_keys = Some chat.
Proof. by vm_compute. Qed.

Lemma chat_small b : to_vec content_type (content chat) = ret b -> len b <= MAX_MESSAGE_SIZE.
Proof. apply small_content. by vm_compute. Qed.

Lemma private_genesis_agreed_witness : new_1on1_genesis key2 key1 common_keys = Some chat /\ validate chat no_nodes = succeed tt /\
  exists mac auth_data, authentication chat = EphemeralSignature (mac ++ replicate 32 0) /\ serialize_for_auth chat = Some auth_data /\ verify_mac common_keys auth_data mac = true.
Proof.
  apply (private_genesis_agreed key1 key2 common_keys chat no_nodes); [| | |exact chat_runs|apply chat_small|apply no_nodes_ok].
  - split; [done|by repeat constructor].
  - split; [done|by repeat constructor].
  - intros k d. split; [apply be_bytes_length|apply DagTheory.be_bytes_u8].
Defined.

End Builder.
