(* ===== verification/Messages.v ===== *)
(** The messages that peers exchange ([merkle-tox-core/src/lib.rs]) and their parts
    ([cas.rs], [sync/mod.rs], [tox-reconcile/src/iblt.rs]) as derived types, with
    their round trips. *)

From S2P Require Import Prelude Protocol MsgPack MsgPackTheory ToxTypes ToxTheory Derive DeriveTheory MsgPackFormat Iblt Merkle Dag DagCodec SyncSession Cas.
From stdpp Require Import list gmap.
#[local] Open Scope Z_scope.
#[local] Open Scope list_scope.

Module Messages.
Import Dag IbltSketch SyncSession Cas.

Inductive ProtocolMessage :=
| CapsAnnounce (version features : Z)
| CapsAck (version features : Z)
| SyncHeadsMsg (m : SyncHeads)
| SyncSketchMsg (m : SyncSketch)
| SyncShardChecksums (conversation_id : ConversationId) (shards : list (SyncRange * ShardHash))
| SyncReconFail (conversation_id : ConversationId) (range : SyncRange)
| SyncRateLimited (conversation_id : ConversationId) (retry_after_ms : Z)
| KeywrapAck (keywrap_hash : NodeHash) (recipient_pk : PhysicalDevicePk)
| ReconPowChallenge (conversation_id : ConversationId) (nonce : PowNonce) (difficulty : Z)
| ReconPowSolution (conversation_id : ConversationId) (nonce : PowNonce) (solution : Z)
| FetchBatchMsg (m : FetchBatchReq)
| MerkleNodeMsg (conversation_id : ConversationId) (hash : NodeHash) (node : WireNode)
| BlobQuery (hash : NodeHash)
| BlobAvail (info : BlobInfo)
| BlobReqMsg (m : BlobReq)
| BlobDataMsg (m : BlobData)
| ReinclusionRequest (conversation_id : ConversationId) (sender_pk : PhysicalDevicePk) (healing_snapshot_hash : NodeHash)
| ReinclusionResponse (conversation_id : ConversationId) (accepted : bool)
| HandshakeError (conversation_id : ConversationId) (reason : bytes)
| AdminGossip (conversation_id : ConversationId) (hash : NodeHash).

(** ** Serialization, as derived *)

Section Types.
Context `{Rmp}.

Definition iblt_cell : ToxType IbltCell :=
  derive_struct (FCons i32 (FCons (array_type u8 32) (FCons u64 FNil))) (fun c => (count c, (id_sum c, (hash_sum c, tt)))) (fun '(n, (i, (h, _))) => mkCell n i h).

Definition sync_range : ToxType SyncRange :=
  derive_struct (FCons u64 (FCons u64 FNil)) (fun r => (range_min r, (range_max r, tt))) (fun '(a, (b, _)) => mkRange a b).

Definition sync_sketch : ToxType SyncSketch :=
  derive_struct (FCons key32 (FCons (vec_type iblt_cell) (FCons sync_range FNil)))
    (fun s => (sketch_conversation s, (sketch_cells s, (sketch_range s, tt)))) (fun '(c, (l, (r, _))) => mkSketch c l r).

Definition sync_heads : ToxType SyncHeads :=
  derive_struct (FCons key32 (FCons (vec_type key32) (FCons u64 (FCons (option_type key32) FNil))))
    (fun m => (heads_conversation m, (heads m, (heads_flags m, (anchor_hash m, tt))))) (fun '(c, (h, (f, (a, _)))) => mkHeads c h f a).

Definition fetch_batch_req : ToxType FetchBatchReq :=
  derive_struct (FCons key32 (FCons (vec_type key32) FNil)) (fun m => (fetch_conversation m, (hashes m, tt))) (fun '(c, (h, _)) => mkFetch c h).

Definition blob_status : ToxType BlobStatus :=
  derive_enum [
    unit_variant 0 (fun s => match s with Cas.Pending => true | _ => false end) Cas.Pending;
    unit_variant 1 (fun s => match s with Downloading => true | _ => false end) Downloading;
    unit_variant 2 (fun s => match s with Available => true | _ => false end) Available;
    unit_variant 3 (fun s => match s with Error => true | _ => false end) Error] None.

Definition blob_info : ToxType BlobInfo :=
  derive_struct (FCons key32 (FCons u64 (FCons (option_type (array_type u8 32)) (FCons blob_status (FCons (option_type blob_type) (FCons (option_type (array_type u8 32)) FNil))))))
    (fun i => (info_hash i, (size i, (bao_root i, (status i, (info_mask i, (decryption_key i, tt)))))))
    (fun '(h, (s, (b, (t, (m, (k, _)))))) => mkInfo h s b t m k).

Definition blob_req : ToxType BlobReq :=
  derive_struct (FCons key32 (FCons u64 (FCons u32 FNil))) (fun r => (req_hash r, (req_offset r, (req_length r, tt)))) (fun '(h, (o, (l, _))) => mkReq h o l).

Definition blob_data : ToxType BlobData :=
  derive_struct (FCons key32 (FCons u64 (FCons blob_type (FCons blob_type FNil))))
    (fun d => (data_hash d, (offset d, (data d, (proof d, tt))))) (fun '(h, (o, (d, (p, _)))) => mkData h o d p).

Definition message_variants : list (variant ProtocolMessage) := [
  multi_variant 0 (FCons u32 (FCons u64 FNil))
    (fun m => match m with CapsAnnounce v f => Some (v, (f, tt)) | _ => None end) (fun '(v, (f, _)) => CapsAnnounce v f);
  multi_variant 1 (FCons u32 (FCons u64 FNil))
    (fun m => match m with CapsAck v f => Some (v, (f, tt)) | _ => None end) (fun '(v, (f, _)) => CapsAck v f);
  single_variant 2 sync_heads (fun m => match m with SyncHeadsMsg h => Some h | _ => None end) SyncHeadsMsg;
  single_variant 3 sync_sketch (fun m => match m with SyncSketchMsg s => Some s | _ => None end) SyncSketchMsg;
  multi_variant 4 (FCons key32 (FCons (vec_type (tuple_type (FCons sync_range (FCons key32 FNil)))) FNil))
    (fun m => match m with SyncShardChecksums c l => Some (c, ((fun p => (p.1, (p.2, tt))) <$> l, tt)) | _ => None end)
    (fun '(c, (l, _)) => SyncShardChecksums c ((fun p => (p.1, p.2.1)) <$> l));
  multi_variant 5 (FCons key32 (FCons sync_range FNil))
    (fun m => match m with SyncReconFail c r => Some (c, (r, tt)) | _ => None end) (fun '(c, (r, _)) => SyncReconFail c r);
  multi_variant 6 (FCons key32 (FCons u32 FNil))
    (fun m => match m with SyncRateLimited c t => Some (c, (t, tt)) | _ => None end) (fun '(c, (t, _)) => SyncRateLimited c t);
  multi_variant 7 (FCons key32 (FCons key32 FNil))
    (fun m => match m with KeywrapAck h r => Some (h, (r, tt)) | _ => None end) (fun '(h, (r, _)) => KeywrapAck h r);
  multi_variant 8 (FCons key32 (FCons key32 (FCons u32 FNil)))
    (fun m => match m with ReconPowChallenge c n d => Some (c, (n, (d, tt))) | _ => None end) (fun '(c, (n, (d, _))) => ReconPowChallenge c n d);
  multi_variant 9 (FCons key32 (FCons key32 (FCons u64 FNil)))
    (fun m => match m with ReconPowSolution c n s => Some (c, (n, (s, tt))) | _ => None end) (fun '(c, (n, (s, _))) => ReconPowSolution c n s);
  single_variant 10 fetch_batch_req (fun m => match m with FetchBatchMsg r => Some r | _ => None end) FetchBatchMsg;
  multi_variant 11 (FCons key32 (FCons key32 (FCons wire_node FNil)))
    (fun m => match m with MerkleNodeMsg c h n => Some (c, (h, (n, tt))) | _ => None end) (fun '(c, (h, (n, _))) => MerkleNodeMsg c h n);
  single_variant 12 key32 (fun m => match m with BlobQuery h => Some h | _ => None end) BlobQuery;
  single_variant 13 blob_info (fun m => match m with BlobAvail i => Some i | _ => None end) BlobAvail;
  single_variant 14 blob_req (fun m => match m with BlobReqMsg r => Some r | _ => None end) BlobReqMsg;
  single_variant 15 blob_data (fun m => match m with BlobDataMsg d => Some d | _ => None end) BlobDataMsg;
  multi_variant 16 (FCons key32 (FCons key32 (FCons key32 FNil)))
    (fun m => match m with ReinclusionRequest c s h => Some (c, (s, (h, tt))) | _ => None end) (fun '(c, (s, (h, _))) => ReinclusionRequest c s h);
  multi_variant 17 (FCons key32 (FCons bool_type FNil))
    (fun m => match m with ReinclusionResponse c a => Some (c, (a, tt)) | _ => None end) (fun '(c, (a, _)) => ReinclusionResponse c a);
  multi_variant 18 (FCons key32 (FCons string_type FNil))
    (fun m => match m with HandshakeError c r => Some (c, (r, tt)) | _ => None end) (fun '(c, (r, _)) => HandshakeError c r);
  multi_variant 19 (FCons key32 (FCons key32 FNil))
    (fun m => match m with AdminGossip c h => Some (c, (h, tt)) | _ => None end) (fun '(c, (h, _)) => AdminGossip c h)].

Definition protocol_message : ToxType ProtocolMessage := derive_enum message_variants None.

End Types.

(** ** Well-formed messages *)

Import DagCodec.

Definition cell_ok (c : IbltCell) : Prop := i32_min <= count c <= i32_max /\ key_ok 32 (id_sum c) /\ in_u 64 (hash_sum c).
Definition range_ok (r : SyncRange) : Prop := in_u 64 (range_min r) /\ in_u 64 (range_max r).
Definition sketch_ok (s : SyncSketch) : Prop := key_ok 32 (sketch_conversation s) /\ each_ok cell_ok (sketch_cells s) /\ range_ok (sketch_range s).
Definition heads_ok (m : SyncHeads) : Prop :=
  key_ok 32 (heads_conversation m) /\ each_ok (key_ok 32) (heads m) /\ in_u 64 (heads_flags m) /\ optional (key_ok 32) (anchor_hash m).
Definition fetch_ok (m : FetchBatchReq) : Prop := key_ok 32 (fetch_conversation m) /\ each_ok (key_ok 32) (hashes m).
Definition info_ok (i : BlobInfo) : Prop :=
  key_ok 32 (info_hash i) /\ in_u 64 (size i) /\ optional (key_ok 32) (bao_root i) /\ optional blob_ok (info_mask i) /\ optional (key_ok 32) (decryption_key i).
Definition req_ok (r : BlobReq) : Prop := key_ok 32 (req_hash r) /\ in_u 64 (req_offset r) /\ in_u 32 (req_length r).
Definition data_ok (d : BlobData) : Prop := key_ok 32 (data_hash d) /\ in_u 64 (offset d) /\ blob_ok (data d) /\ blob_ok (proof d).

Definition message_ok (m : ProtocolMessage) : Prop :=
  match m with
  | CapsAnnounce v f | CapsAck v f => in_u 32 v /\ in_u 64 f
  | SyncHeadsMsg h => heads_ok h
  | SyncSketchMsg s => sketch_ok s
  | SyncShardChecksums c l => key_ok 32 c /\ each_ok (fun p => range_ok p.1 /\ key_ok 32 p.2) l
  | SyncReconFail c r => key_ok 32 c /\ range_ok r
  | SyncRateLimited c t => key_ok 32 c /\ in_u 32 t
  | KeywrapAck h r => key_ok 32 h /\ key_ok 32 r
  | ReconPowChallenge c n d => key_ok 32 c /\ key_ok 32 n /\ in_u 32 d
  | ReconPowSolution c n s => key_ok 32 c /\ key_ok 32 n /\ in_u 64 s
  | FetchBatchMsg r => fetch_ok r
  | MerkleNodeMsg c h n => key_ok 32 c /\ key_ok 32 h /\ wire_ok n
  | BlobQuery h => key_ok 32 h
  | BlobAvail i => info_ok i
  | BlobReqMsg r => req_ok r
  | BlobDataMsg d => data_ok d
  | ReinclusionRequest c s h => key_ok 32 c /\ key_ok 32 s /\ key_ok 32 h
  | ReinclusionResponse c _ => key_ok 32 c
  | HandshakeError c r => key_ok 32 c /\ text_ok r
  | AdminGossip c h => key_ok 32 c /\ key_ok 32 h
  end.

Section Laws.
Context `{RmpLaws}.

Lemma i32_codec : lawful i32 (fun v => i32_min <= v <= i32_max).
Proof.
  apply (lawful_weaken _ (fun v => - 2 ^ (8 * Z.of_nat 4 - 1) <= v < 2 ^ (8 * Z.of_nat 4 - 1))); [|apply (sint_lawful 4); lia].
  intros t Ht. unfold i32_min, i32_max in Ht. cbn. lia.
Qed.

Lemma status_codec : lawful blob_status (fun _ => True).
Proof.
  apply enum_lawful; [refine (bool_decide_unpack _ _); by vm_compute|].
  intros [] _; [pick_arm 0%nat|pick_arm 1%nat|pick_arm 2%nat|pick_arm 3%nat]; by apply unit_arm.
Qed.

End Laws.

#[export] Hint Resolve i32_codec status_codec bool_lawful wire_codec : codec.

Section Laws.
Context `{RmpLaws}.

Lemma cell_codec : lawful iblt_cell cell_ok.
Proof. struct_codec. Qed.
Lemma range_codec : lawful sync_range range_ok.
Proof. struct_codec. Qed.
Lemma heads_codec : lawful sync_heads heads_ok.
Proof. struct_codec. Qed.
Lemma fetch_codec : lawful fetch_batch_req fetch_ok.
Proof. struct_codec. Qed.
Lemma info_codec : lawful blob_info info_ok.
Proof. struct_codec. Qed.
Lemma req_codec : lawful blob_req req_ok.
Proof. struct_codec. Qed.
Lemma data_codec : lawful blob_data data_ok.
Proof. struct_codec. Qed.

End Laws.

#[export] Hint Resolve cell_codec range_codec heads_codec fetch_codec info_codec req_codec data_codec : codec.

Section Laws.
Context `{RmpLaws}.

Lemma sketch_codec : lawful sync_sketch sketch_ok.
Proof. struct_codec. Qed.

Lemma shard_codec : lawful (tuple_type (FCons sync_range (FCons key32 FNil))) (fun p => range_ok p.1 /\ key_ok 32 p.2.1).
Proof. eapply lawful_weaken; [|codec]. cbn. intros p Hp. split_and!; apply Hp || exact I. Qed.

End Laws.

#[export] Hint Resolve sketch_codec : codec.

Section Laws.
Context `{RmpLaws}.

Lemma shards_arm c l : message_ok (SyncShardChecksums c l) -> arm_of message_variants (SyncShardChecksums c l).
Proof.
  intros [Hc [Hs Hl]]. pick_arm 4%nat.
  eapply multi_arm; [done|apply fcons_lawful; [codec|apply fcons_lawful; [apply wide_vec; [reflexivity|apply shard_codec]|apply fnil_lawful]]|by vm_compute|reflexivity| |].
  - cbn. split; [exact Hc|]. split; [|exact I]. split; [|apply Forall_fmap; eapply Forall_impl; [exact Hl|]; by intros [r h]].
    revert Hs. unfold short, len. by rewrite !length_fmap.
  - cbn. f_equal. rewrite <- list_fmap_compose. rewrite <- (list_fmap_id l) at 2. apply list_fmap_ext. by intros i [r h] _.
Qed.

Lemma message_arm m : message_ok m -> arm_of message_variants m.
Proof.
  destruct m; intros Hm; [| | | |by apply shards_arm|..].
  - pick_arm 0%nat. many_fields.
  - pick_arm 1%nat. many_fields.
  - pick_arm 2%nat. one_field.
  - pick_arm 3%nat. one_field.
  - pick_arm 5%nat. many_fields.
  - pick_arm 6%nat. many_fields.
  - pick_arm 7%nat. many_fields.
  - pick_arm 8%nat. many_fields.
  - pick_arm 9%nat. many_fields.
  - pick_arm 10%nat. one_field.
  - pick_arm 11%nat. many_fields.
  - pick_arm 12%nat. one_field.
  - pick_arm 13%nat. one_field.
  - pick_arm 14%nat. one_field.
  - pick_arm 15%nat. one_field.
  - pick_arm 16%nat. many_fields.
  - pick_arm 17%nat. many_fields.
  - pick_arm 18%nat. many_fields.
  - pick_arm 19%nat. many_fields.
Qed.

Lemma message_lawful : lawful protocol_message message_ok.
Proof. apply enum_lawful; [refine (bool_decide_unpack _ _); by vm_compute|apply message_arm]. Qed.

(** C34: Every message of the protocol is written as one MessagePack value and read
    back, in front of any further input. *)
Theorem message_roundtrip m rest : message_ok m -> exists b, to_vec protocol_message m = ret b /\ deserialize protocol_message empty_ctx (b ++ rest) = ret (m, rest).
Proof. intros Hm. destruct (message_lawful empty_ctx m Hm) as (b & E1 & E2 & _). by exists b. Qed.

End Laws.

Import Format.

Lemma message_roundtrip_witness : exists b, to_vec protocol_message (BlobReqMsg (mkReq key1 65536 65536)) = ret b /\
  deserialize protocol_message empty_ctx (b ++ [7]) = ret (BlobReqMsg (mkReq key1 65536 65536), [7]).
Proof. apply message_roundtrip. split_and!; try (by vm_compute). by repeat constructor. Defined.

End Messages.
