(* ===== verification/Monad.v ===== *)
(** Operations that change a state, may fail with an error and may panic: the monad
    in which the engine of [merkle-tox-core] is written, its loops, and its rules of
    partial correctness. *)

From S2P Require Import Prelude Protocol Merkle.
#[local] Open Scope list_scope.

(** [None] is a panic. *)
Definition M (W A : Type) : Type := W -> option (W * A).

Section Monad.
Context {W : Type}.

Definition pure {A} (a : A) : M W A := fun w => Some (w, a).
Definition bind {A B} (m : M W A) (k : A -> M W B) : M W B := fun w => match m w with Some (w, a) => k a w | None => None end.
Definition gets {A} (f : W -> A) : M W A := fun w => Some (w, f w).
Definition modify (f : W -> W) : M W unit := fun w => Some (f w, tt).
(** A computation that may panic but leaves the state. *)
Definition lift {A} (o : option A) : M W A := fun w => match o with Some a => Some (w, a) | None => None end.

(** [Ok] and [return Err]; [?]. *)
Definition good {E A} (a : A) : M W (result E A) := pure (Ok a).
Definition fails {E A} (e : E) : M W (result E A) := pure (Err e).
Definition try {E A B} (m : M W (result E A)) (k : A -> M W (result E B)) : M W (result E B) :=
  bind m (fun r => match r with Ok a => k a | Err e => fails e end).
(** [.map_err(f)] *)
Definition mapping_err {E F A} (f : E -> F) (m : M W (result E A)) : M W (result F A) :=
  bind m (fun r => pure (match r with Ok a => Ok a | Err e => Err (f e) end)).

(** [for x in l { ... }], with what the rounds return in a row. *)
Fixpoint for_each {A} (l : list A) (f : A -> M W unit) : M W unit :=
  match l with [] => pure tt | a :: l => bind (f a) (fun _ => for_each l f) end.
Fixpoint collect {A B} (l : list A) (f : A -> M W (list B)) : M W (list B) :=
  match l with [] => pure [] | a :: l => bind (f a) (fun x => bind (collect l f) (fun y => pure (x ++ y))) end.
(** The same when a round may return early with an error. *)
Fixpoint try_collect {E A B} (l : list A) (f : A -> M W (result E (list B))) : M W (result E (list B)) :=
  match l with [] => good [] | a :: l => try (f a) (fun x => try (try_collect l f) (fun y => good (x ++ y))) end.

(** ** Rules

    [post m Q w]: if [m] does not panic from [w], what it leaves and returns
    satisfies [Q]. *)

Definition post {A} (m : M W A) (Q : W -> A -> Prop) (w : W) : Prop := forall w' a, m w = Some (w', a) -> Q w' a.

Lemma post_pure {A} (a : A) (Q : W -> A -> Prop) w : Q w a -> post (pure a) Q w.
Proof. intros HQ w' a' [= <- <-]. exact HQ. Qed.

Lemma post_bind {A B} (m : M W A) (k : A -> M W B) (Q : W -> B -> Prop) w :
  post m (fun w a => post (k a) Q w) w -> post (bind m k) Q w.
Proof. unfold post, bind. intros Hm w' b E. destruct (m w) as [[w1 a]|] eqn:E1; [|done]. by eapply (Hm w1 a). Qed.

Lemma post_mono {A} (m : M W A) (Q R : W -> A -> Prop) w : post m Q w -> (forall w' a, Q w' a -> R w' a) -> post m R w.
Proof. intros Hm HQR w' a E. by apply HQR, Hm. Qed.

Lemma post_gets {A} (f : W -> A) (Q : W -> A -> Prop) w : Q w (f w) -> post (gets f) Q w.
Proof. intros HQ w' a [= <- <-]. exact HQ. Qed.

Lemma post_modify f (Q : W -> unit -> Prop) w : Q (f w) tt -> post (modify f) Q w.
Proof. intros HQ w' a [= <- <-]. exact HQ. Qed.

Lemma post_lift {A} (o : option A) (Q : W -> A -> Prop) w : (forall a, o = Some a -> Q w a) -> post (lift o) Q w.
Proof. unfold post, lift. intros HQ w' a E. destruct o as [b|]; [|done]. injection E as <- <-. by apply HQ. Qed.

Lemma post_try {E A B} (m : M W (result E A)) (k : A -> M W (result E B)) (Q : W -> result E B -> Prop) w :
  post m (fun w r => match r with Ok a => post (k a) Q w | Err e => Q w (Err e) end) w -> post (try m k) Q w.
Proof. intros Hm. apply post_bind. eapply post_mono; [exact Hm|]. intros w' [a|e] Hr; [exact Hr|by apply post_pure]. Qed.

Lemma post_and {A} (m : M W A) (Q R : W -> A -> Prop) w : post m Q w -> post m R w -> post m (fun w a => Q w a /\ R w a) w.
Proof. intros HQ HR w' a E. split; [by apply HQ|by apply HR]. Qed.

(** Loops keep what their rounds keep. *)
Lemma post_for_each {A} (I : W -> Prop) l (f : A -> M W unit) w :
  (forall a w, a ∈ l -> I w -> post (f a) (fun w _ => I w) w) -> I w -> post (for_each l f) (fun w _ => I w) w.
Proof.
  revert w. induction l as [|a l IH]; intros w Hf HI; [by apply post_pure|]. apply post_bind.
  eapply post_mono; [apply Hf; [left|done]|]. intros w1 u HI1. apply IH; [|done]. intros b w2 Hb. apply Hf. by right.
Qed.

Lemma post_collect {A B} (I : W -> Prop) (P : B -> Prop) l (f : A -> M W (list B)) w :
  (forall a w, a ∈ l -> I w -> post (f a) (fun w x => I w /\ Forall P x) w) -> I w ->
  post (collect l f) (fun w x => I w /\ Forall P x) w.
Proof.
  revert w. induction l as [|a l IH]; intros w Hf HI; [by apply post_pure|]. apply post_bind.
  eapply post_mono; [apply Hf; [left|done]|]. intros w1 x [HI1 Hx]. apply post_bind.
  eapply post_mono; [apply IH; [|done]; intros b w2 Hb; apply Hf; by right|]. intros w2 y [HI2 Hy]. apply post_pure.
  split; [done|]. by apply Forall_app.
Qed.

Lemma post_try_collect {E A B} (I : W -> Prop) (P : B -> Prop) l (f : A -> M W (result E (list B))) w :
  (forall a w, a ∈ l -> I w -> post (f a) (fun w r => I w /\ match r with Ok x => Forall P x | Err _ => True end) w) -> I w ->
  post (try_collect l f) (fun w r => I w /\ match r with Ok x => Forall P x | Err _ => True end) w.
Proof.
  revert w. induction l as [|a l IH]; intros w Hf HI; [by apply post_pure|]. apply post_try.
  eapply post_mono; [apply Hf; [left|done]|]. intros w1 [x|e] [HI1 Hx]; [|done]. apply post_try.
  eapply post_mono; [apply IH; [|done]; intros b w2 Hb; apply Hf; by right|]. intros w2 [y|e] [HI2 Hy]; [|done]. apply post_pure.
  split; [done|]. by apply Forall_app.
Qed.

(** ** Inversion *)

Lemma bind_inv {A B} (m : M W A) (k : A -> M W B) w w' b : bind m k w = Some (w', b) -> exists w1 a, m w = Some (w1, a) /\ k a w1 = Some (w', b).
Proof. unfold bind. destruct (m w) as [[w1 a]|]; [|done]. eauto. Qed.

Lemma try_inv {E A B} (m : M W (result E A)) (k : A -> M W (result E B)) w w' r : try m k w = Some (w', r) ->
  exists w1, (exists a, m w = Some (w1, Ok a) /\ k a w1 = Some (w', r)) \/ (exists e, m w = Some (w1, Err e) /\ r = Err e /\ w' = w1).
Proof.
  intros Ht. apply bind_inv in Ht as (w1 & [a|e] & Hm & Hk).
  - exists w1. left. eauto.
  - exists w1. right. injection Hk as <- <-. eauto.
Qed.

Lemma try_ok {E A B} (m : M W (result E A)) (k : A -> M W (result E B)) w w' b : try m k w = Some (w', Ok b) ->
  exists w1 a, m w = Some (w1, Ok a) /\ k a w1 = Some (w', Ok b).
Proof. intros (w1 & [(a & Hm & Hk)|(e & _ & [=] & _)])%try_inv. eauto. Qed.

Lemma lift_inv {A} (o : option A) w w' a : lift o w = Some (w', a) -> o = Some a /\ w' = w.
Proof. unfold lift. destruct o; [|done]. by intros [= -> ->]. Qed.

(** Computations that agree on what the first step can return. *)
Lemma bind_agree {A B} (m : M W A) (k k' : A -> M W B) (P : A -> Prop) w : post m (fun _ a => P a) w ->
  (forall a w, P a -> k a w = k' a w) -> bind m k w = bind m k' w.
Proof. unfold post, bind. intros HP Hk. destruct (m w) as [[w1 a]|] eqn:E; [|done]. apply Hk. by eapply HP. Qed.

(** ** Frames

    [keeps R m]: whatever [m] returns, the state after it is related to the state
    before. *)

Definition keeps {A} (R : W -> W -> Prop) (m : M W A) : Prop := forall w w' a, m w = Some (w', a) -> R w w'.

(** What [f] reads does not change. *)
Definition same {X} (f : W -> X) (w w' : W) : Prop := f w' = f w.
#[export] Instance same_preorder {X} (f : W -> X) : PreOrder (same f).
Proof. split; [done|]. unfold same. intros w1 w2 w3 H12 H23. congruence. Qed.

Section Keeps.
Context (R : W -> W -> Prop) {HR : PreOrder R}.

Lemma keeps_pure {A} (a : A) : keeps R (pure a).
Proof. intros w w' b [= <- _]. reflexivity. Qed.

Lemma keeps_bind {A B} (m : M W A) (k : A -> M W B) : keeps R m -> (forall a, keeps R (k a)) -> keeps R (bind m k).
Proof. intros Hm Hk w w' b (w1 & a & E1 & E2)%bind_inv. etrans; [by eapply Hm|by eapply Hk]. Qed.

Lemma keeps_gets {A} (f : W -> A) : keeps R (gets f).
Proof. intros w w' b [= <- _]. reflexivity. Qed.

Lemma keeps_modify f : (forall w, R w (f w)) -> keeps R (modify f).
Proof. intros Hf w w' b [= <- _]. apply Hf. Qed.

Lemma keeps_lift {A} (o : option A) : keeps R (lift o).
Proof. intros w w' a [_ ->]%lift_inv. reflexivity. Qed.

Lemma keeps_good {E A} (a : A) : keeps R (good (E := E) a).
Proof. apply keeps_pure. Qed.

Lemma keeps_fails {E A} (e : E) : keeps R (fails (A := A) e).
Proof. apply keeps_pure. Qed.

Lemma keeps_try {E A B} (m : M W (result E A)) (k : A -> M W (result E B)) : keeps R m -> (forall a, keeps R (k a)) -> keeps R (try m k).
Proof. intros Hm Hk. apply keeps_bind; [done|]. intros [a|e]; [apply Hk|apply keeps_fails]. Qed.

Lemma keeps_mapping_err {E F A} (f : E -> F) (m : M W (result E A)) : keeps R m -> keeps R (mapping_err f m).
Proof. intros Hm. apply keeps_bind; [done|]. intros r. apply keeps_pure. Qed.

Lemma keeps_for_each {A} (l : list A) f : (forall a, keeps R (f a)) -> keeps R (for_each l f).
Proof. intros Hf. induction l; [apply keeps_pure|]. by apply keeps_bind. Qed.

Lemma keeps_collect {A B} (l : list A) (f : A -> M W (list B)) : (forall a, keeps R (f a)) -> keeps R (collect l f).
Proof. intros Hf. induction l; [apply keeps_pure|]. apply keeps_bind; [done|]. intros x. apply keeps_bind; [done|]. intros y. apply keeps_pure. Qed.

Lemma keeps_try_collect {E A B} (l : list A) (f : A -> M W (result E (list B))) : (forall a, keeps R (f a)) -> keeps R (try_collect l f).
Proof. intros Hf. induction l; [apply keeps_pure|]. apply keeps_try; [done|]. intros x. apply keeps_try; [done|]. intros y. apply keeps_pure. Qed.

End Keeps.

Lemma keeps_mono {A} (R R' : W -> W -> Prop) (m : M W A) : keeps R m -> (forall w w', R w w' -> R' w w') -> keeps R' m.
Proof. intros Hm HR w w' a E. eapply HR, Hm, E. Qed.

End Monad.

Declare Scope monad_scope.
Notation "'let*' x := m 'in' k" := (bind m (fun x => k)) (at level 10, x pattern, m at level 100, k at level 200) : monad_scope.
Notation "'let*?' x := m 'in' k" := (try m (fun x => k)) (at level 10, x pattern, m at level 100, k at level 200) : monad_scope.
Notation "m ;* k" := (bind m (fun _ : unit => k)) (at level 100, right associativity) : monad_scope.
(** [m?;] *)
Notation "m ;*? k" := (try m (fun _ : unit => k)) (at level 100, right associativity) : monad_scope.

(** Frames of operations that are proved on their own. *)
Create HintDb frames.

(** Goes through a computation: [leaf] proves that an assignment keeps the relation. *)
Ltac frame_step leaf :=
  cbv zeta beta;
  lazymatch goal with
  | |- keeps _ (bind _ _) => apply keeps_bind; [apply _| |intros ?]
  | |- keeps _ (try _ _) => apply keeps_try; [apply _| |intros ?]
  | |- keeps _ (mapping_err _ _) => apply keeps_mapping_err; [apply _|]
  | |- keeps _ (pure _) => apply keeps_pure; apply _
  | |- keeps _ (good _) => apply keeps_good; apply _
  | |- keeps _ (fails _) => apply keeps_fails; apply _
  | |- keeps _ (gets _) => apply keeps_gets; apply _
  | |- keeps _ (lift _) => apply keeps_lift; apply _
  | |- keeps _ (for_each _ _) => apply keeps_for_each; [apply _|intros ?]
  | |- keeps _ (collect _ _) => apply keeps_collect; [apply _|intros ?]
  | |- keeps _ (try_collect _ _) => apply keeps_try_collect; [apply _|intros ?]
  | |- keeps _ (match ?x with _ => _ end) => destruct x
  | |- keeps _ (modify _) => apply keeps_modify; intros ?; leaf
  end.
Ltac frame_with leaf := repeat first [assumption | solve [eauto with frames] | frame_step leaf].

(** Takes the result of a computation apart: primitive steps are computed, others leave
    an equation. *)
Ltac run_step H :=
  cbv beta zeta in H;
  lazymatch type of H with
  | bind (gets ?f) ?k ?w = ?r => change (k (f w) w = r) in H; cbv beta in H
  | bind (modify ?f) ?k ?w = ?r => change (k tt (f w) = r) in H; cbv beta in H
  | bind (pure ?a) ?k ?w = ?r => change (k a w = r) in H; cbv beta in H
  | try (good ?a) ?k ?w = ?r => change (k a w = r) in H; cbv beta in H
  | bind (lift ?o) ?k ?w = Some _ =>
      let a := fresh "a" in let w' := fresh "w" in let E := fresh "E" in
      apply bind_inv in H as (w' & a & E & H); apply lift_inv in E as [E ->]
  | bind _ _ _ = Some _ => let w := fresh "w" in let a := fresh "a" in let E := fresh "E" in apply bind_inv in H as (w & a & E & H)
  | try _ _ _ = Some (_, Ok _) => let w := fresh "w" in let a := fresh "a" in let E := fresh "E" in apply try_ok in H as (w & a & E & H)
  | lift _ _ = Some _ => apply lift_inv in H as [H ?]; subst
  | pure _ _ = Some _ => injection H as ? ?; subst
  | gets _ _ = Some _ => injection H as ? ?; subst
  | modify _ _ = Some _ => injection H as ? ?; subst
  | good _ _ = Some _ => injection H as ? ?; subst
  | fails _ _ = Some (_, Ok _) => discriminate H
  end.
