(* ===== verification/Engine.v ===== *)
(** The state of the engine ([merkle-tox-core/src/engine/mod.rs]), the traits it is
    written against ([sync/mod.rs]), its effects and events ([lib.rs]), and its small
    operations: budgets, blacklist, announced keys.

    Operations are in the monad of [Monad.v] over a [World]: the engine, the store
    behind [&dyn NodeStore], and how often the time provider has been read.  The
    answers of the time provider and the random generator are classes. *)

From S2P Require Import Prelude Protocol MsgPack ToxTypes Derive Iblt Merkle Dag DagWire Identity Conversation SyncSession Cas Clock Messages Monad.
From stdpp Require Import gmap sorting strings.
From Stdlib Require Import SpecFloat.
#[local] Open Scope Z_scope.
#[local] Open Scope list_scope.
#[local] Open Scope monad_scope.

(** ** What the engine runs on *)

(** [rand::rngs::StdRng] *)
Class StdRng := {
  rng_state : Type;
  fill_bytes : nat -> rng_state -> bytes * rng_state;
  gen_range : Z -> Z -> rng_state -> Z * rng_state
}.

(** [TimeProvider]: the answer to the n-th question; [os_instant] is the clock of the
    operating system, which [Instant::elapsed] asks. *)
Class TimeProvider := {
  now_instant : nat -> Instant;
  now_system_ms : nat -> Z;
  os_instant : nat -> Instant
}.

(** [x25519_dalek]: [diffie_hellman secret public] and the public key of a secret;
    SHA-512 and the conversion of Ed25519 keys. *)
Class X25519 := {
  diffie_hellman : bytes -> bytes -> bytes;
  x25519_public : bytes -> bytes;
  sha512 : bytes -> bytes;
  to_montgomery : bytes -> option bytes
}.

(** [VerifyingKey::verify_strict] *)
Class StrictVerify := verify_strict : bytes -> bytes -> Ed25519Signature -> bool.

Module Engine.
Import Dag Crypto Messages.

(** [NodeStore]: what it answers, and how it changes. *)
Class NodeStore (S : Type) := {
  lookup_of : S -> NodeLookup;
  get_heads : S -> ConversationId -> list NodeHash;
  set_heads : ConversationId -> list NodeHash -> S -> S * result MerkleToxError unit;
  get_admin_heads : S -> ConversationId -> list NodeHash;
  set_admin_heads : ConversationId -> list NodeHash -> S -> S * result MerkleToxError unit;
  has_node : S -> NodeHash -> bool;
  is_verified : S -> NodeHash -> bool;
  get_node : S -> NodeHash -> option MerkleNode;
  get_wire_node : S -> NodeHash -> option WireNode;
  put_node : ConversationId -> MerkleNode -> bool -> S -> option (S * result MerkleToxError unit);
  put_wire_node : ConversationId -> NodeHash -> WireNode -> S -> S * result MerkleToxError unit;
  remove_wire_node : ConversationId -> NodeHash -> S -> S * result MerkleToxError unit;
  get_speculative_nodes : S -> ConversationId -> list MerkleNode;
  mark_verified : ConversationId -> NodeHash -> S -> S * result MerkleToxError unit;
  get_last_sequence_number : S -> ConversationId -> PhysicalDevicePk -> Z;
  get_node_counts : S -> ConversationId -> Z * Z;
  get_verified_nodes_by_type : S -> ConversationId -> NodeType -> result MerkleToxError (list MerkleNode);
  get_node_hashes_in_range : S -> ConversationId -> SyncSession.SyncRange -> result MerkleToxError (list NodeHash);
  get_opaque_node_hashes : S -> ConversationId -> result MerkleToxError (list NodeHash);
  size_bytes : S -> Z;
  put_conversation_key : ConversationId -> Z -> KConv -> S -> S * result MerkleToxError unit;
  get_conversation_keys : S -> ConversationId -> result MerkleToxError (list (Z * KConv));
  update_epoch_metadata : ConversationId -> Z -> Z -> S -> S * result MerkleToxError unit;
  get_epoch_metadata : S -> ConversationId -> result MerkleToxError (option (Z * Z));
  put_ratchet_key : ConversationId -> NodeHash -> ChainKey -> Z -> S -> S * result MerkleToxError unit;
  get_ratchet_key : S -> ConversationId -> NodeHash -> result MerkleToxError (option (ChainKey * Z));
  remove_ratchet_key : ConversationId -> NodeHash -> S -> S * result MerkleToxError unit
}.

(** What the engine asks a [BlobStore]. *)
Record BlobStore := mkBlobStore {
  has_blob : NodeHash -> bool;
  get_blob_info : NodeHash -> option Cas.BlobInfo;
  get_chunk_with_proof : NodeHash -> Z -> Z -> Outcome MerkleToxError (bytes * bytes)
}.

(** ** Tasks, events, effects *)

Inductive Task :=
| RotationCheck (c : ConversationId)
| ReconciliationTask (peer : PhysicalDevicePk) (c : ConversationId)
| FetchMissing (peer : PhysicalDevicePk) (c : ConversationId)
| SwarmTask (hash : NodeHash)
| SessionPoll (peer : PhysicalDevicePk) (c : ConversationId).

Inductive NodeEvent :=
| NodeVerified (c : ConversationId) (hash : NodeHash) (node : MerkleNode)
| NodeSpeculative (c : ConversationId) (hash : NodeHash) (node : MerkleNode)
| NodeIdentityPending (c : ConversationId) (hash : NodeHash) (node : MerkleNode)
| NodeInvalidated (c : ConversationId) (hash : NodeHash)
| PeerHandshakeComplete (peer_pk : PhysicalDevicePk)
| BlobAvailable (hash : NodeHash).

Inductive Effect :=
| SendPacket (peer : PhysicalDevicePk) (m : ProtocolMessage)
| WriteStore (c : ConversationId) (node : MerkleNode) (verified : bool)
| WriteWireNode (c : ConversationId) (hash : NodeHash) (w : WireNode)
| DeleteWireNode (c : ConversationId) (hash : NodeHash)
| WriteRatchetKey (c : ConversationId) (hash : NodeHash) (key : ChainKey) (epoch : Z)
| DeleteRatchetKey (c : ConversationId) (hash : NodeHash)
| UpdateHeads (c : ConversationId) (heads : list NodeHash) (is_admin : bool)
| WriteConversationKey (c : ConversationId) (epoch : Z) (k : KConv)
| WriteEpochMetadata (c : ConversationId) (count rotation_time : Z)
| WriteBlobInfo (info : Cas.BlobInfo)
| WriteChunk (c : ConversationId) (hash : NodeHash) (offset : Z) (data : bytes) (proof : option bytes)
| EmitEvent (e : NodeEvent)
| ScheduleWakeup (task : Task) (at_ : Instant)
| NodeEquivocation (c : ConversationId) (device_pk : PhysicalDevicePk) (seq : Z) (existing conflicting : NodeHash)
| HistorySnapshotNeeded (c : ConversationId).

(** ** Budgets and backoff *)

Record CpuBudget := mkBudget { remaining_ms : f64; last_refill_ms : Z }.
#[export] Instance eta_CpuBudget : Settable CpuBudget := fun b => mkBudget (remaining_ms b) (last_refill_ms b).

Definition SKETCH_CPU_BUDGET_MS : Z := 500.
Definition SKETCH_CPU_WINDOW_MS : Z := 60000.

Definition new_budget (now_ms : Z) : CpuBudget := mkBudget (F64.of_Z SKETCH_CPU_BUDGET_MS) now_ms.

Definition refill (b : CpuBudget) (now_ms : Z) : option CpuBudget :=
  d ← chk_i64 (now_ms - last_refill_ms b);
  let elapsed := F64.of_Z (Z.max d 0) in
  let rate := F64.div (F64.of_Z SKETCH_CPU_BUDGET_MS) (F64.of_Z SKETCH_CPU_WINDOW_MS) in
  Some (mkBudget (F64.min (F64.add (remaining_ms b) (F64.mul elapsed rate)) (F64.of_Z SKETCH_CPU_BUDGET_MS)) now_ms).

Definition try_consume (b : CpuBudget) (cost_ms : f64) : CpuBudget * bool :=
  if F64.ge (remaining_ms b) cost_ms then (b <| remaining_ms := F64.sub (remaining_ms b) cost_ms |>, true) else (b, false).

Record KeyWrapPending := mkKeyWrapPending {
  pending_conversation : ConversationId;
  pending_recipient : PhysicalDevicePk;
  created_at : Instant;
  attempts : Z
}.
#[export] Instance eta_KeyWrapPending : Settable KeyWrapPending := fun p =>
  mkKeyWrapPending (pending_conversation p) (pending_recipient p) (created_at p) (attempts p).

Record HandshakeRetryState := mkRetry { retry_attempts : Z; next_retry_ms : Z; window_start_ms : Z }.
#[export] Instance eta_HandshakeRetryState : Settable HandshakeRetryState := fun r => mkRetry (retry_attempts r) (next_retry_ms r) (window_start_ms r).

Definition HANDSHAKE_RETRY_CAP : Z := 3.
Definition HANDSHAKE_RETRY_WINDOW_MS : Z := 600000.
Definition HANDSHAKE_RETRY_BASE_MS : Z := 2000.
Definition HANDSHAKE_RETRY_MAX_MS : Z := 8000.

Record BlacklistState := mkBlacklist { tier : Z; expires_at_ms : Z }.

Definition BLACKLIST_TIER1_MS : Z := 10 * 60 * 1000.
Definition BLACKLIST_TIER2_MS : Z := 60 * 60 * 1000.
Definition BLACKLIST_TIER3_MS : Z := 24 * 60 * 60 * 1000.
Definition MAX_BATCH_SIZE : Z := 64.
Definition GOSSIP_INTERVAL : Duration := from_secs 60.

Definition tier_duration (tier : Z) : Z :=
  if tier =? 1 then BLACKLIST_TIER1_MS else if tier =? 2 then BLACKLIST_TIER2_MS else BLACKLIST_TIER3_MS.
Definition escalate (s : BlacklistState) (now_ms : Z) : option BlacklistState :=
  let tier := Z.min (tier s + 1) 3 in
  expires ← chk_i64 (now_ms + tier_duration tier);
  Some (mkBlacklist tier expires).
Definition is_active (s : BlacklistState) (now_ms : Z) : bool := (0 <? tier s) && (now_ms <? expires_at_ms s).

(** ** Nodes that wait to be committed *)

Record PendingCache := mkCache {
  nodes : gmap NodeHash MerkleNode;
  wire_nodes : gmap NodeHash (ConversationId * WireNode);
  verified : gset NodeHash;
  heads : gmap ConversationId (list NodeHash);
  admin_heads : gmap ConversationId (list NodeHash);
  last_verified_sequences : gmap (ConversationId * PhysicalDevicePk) Z;
  admin_distances : gmap NodeHash Z
}.
#[export] Instance eta_PendingCache : Settable PendingCache := fun c =>
  mkCache (nodes c) (wire_nodes c) (verified c) (heads c) (admin_heads c) (last_verified_sequences c) (admin_distances c).

Definition empty_cache : PendingCache := mkCache ∅ ∅ ∅ ∅ ∅ ∅ ∅.

(** An entry of [opaque_store_usage]. *)
Record OpaqueEntry := mkOpaque { opaque_hash : NodeHash; opaque_size : Z; opaque_time : Z; opaque_sender : PhysicalDevicePk }.

(** ** The engine *)

Section State.
Context `{LruCache Identity.PathKey Z} `{LruCache NodeHash (gset NodeHash)} `{StdRng}.

Record t := mkEngine {
  self_pk : PhysicalDevicePk;
  self_logical_pk : LogicalIdentityPk;
  self_sk : option bytes;
  self_dh_sk : option bytes;
  identity_manager : Identity.t;
  clock : Clock.NetworkClock;
  sessions : gmap (PhysicalDevicePk * ConversationId) SyncSession.PeerSession;
  conversations : gmap ConversationId Conversation.Conversation;
  blob_syncs : gmap NodeHash Cas.SwarmSync;
  ephemeral_keys : gmap bytes bytes;
  peer_announcements : gmap PhysicalDevicePk ControlAction;
  rng : rng_state;
  pending_cache : PendingCache;
  highest_handled_pulse : gmap (ConversationId * PhysicalDevicePk) Z;
  latest_anchor_hashes : gmap ConversationId NodeHash;
  self_ephemeral_signing_keys : gmap Z bytes;
  peer_ephemeral_signing_keys : gmap (PhysicalDevicePk * Z) bytes;
  disclosed_signing_keys : gmap (PhysicalDevicePk * Z) bytes;
  admin_ancestors_cache : cache (K := NodeHash) (V := gset NodeHash);
  opaque_store_usage : gmap ConversationId (Z * list OpaqueEntry);
  handshake_count_since_announcement : gmap ConversationId Z;
  trust_restored_devices : gmap (ConversationId * PhysicalDevicePk) Z;
  keywrap_pending : gmap NodeHash KeyWrapPending;
  consumed_opk_ids : gmap NodeHash (NodeHash * PhysicalDevicePk * Z);
  soft_anchor_dedup : gmap ConversationId (gset (PhysicalDevicePk * NodeHash));
  verified_node_seqs : gmap (ConversationId * PhysicalDevicePk * Z) NodeHash;
  equivocations : list (ConversationId * PhysicalDevicePk * Z * NodeHash * NodeHash);
  handshake_retry_state : gmap (ConversationId * PhysicalDevicePk) HandshakeRetryState;
  keywrap_ack_counts : gmap ConversationId (Z * Z);
  peer_blacklist : gmap PhysicalDevicePk BlacklistState;
  last_gossip_time : gmap ConversationId Instant;
  self_certs : gmap ConversationId DelegationCertificate;
  promotion_locked : gset NodeHash;
  sketch_cpu_budgets : gmap PhysicalDevicePk CpuBudget;
  last_announcement_time_ms : gmap ConversationId Z
}.
#[global] Instance eta_t : Settable t := fun e =>
  mkEngine (self_pk e) (self_logical_pk e) (self_sk e) (self_dh_sk e) (identity_manager e) (clock e) (sessions e) (conversations e) (blob_syncs e)
    (ephemeral_keys e) (peer_announcements e) (rng e) (pending_cache e) (highest_handled_pulse e) (latest_anchor_hashes e)
    (self_ephemeral_signing_keys e) (peer_ephemeral_signing_keys e) (disclosed_signing_keys e) (admin_ancestors_cache e) (opaque_store_usage e)
    (handshake_count_since_announcement e) (trust_restored_devices e) (keywrap_pending e) (consumed_opk_ids e) (soft_anchor_dedup e)
    (verified_node_seqs e) (equivocations e) (handshake_retry_state e) (keywrap_ack_counts e) (peer_blacklist e) (last_gossip_time e)
    (self_certs e) (promotion_locked e) (sketch_cpu_budgets e) (last_announcement_time_ms e).

Definition ADMIN_ANCESTORS_CACHE_SIZE : Z := 20000.

(** [new], its clock made of the provider's answers. *)
Definition new (self_pk : PhysicalDevicePk) (self_logical_pk : LogicalIdentityPk) (rng : rng_state) (c : Clock.NetworkClock) : t :=
  mkEngine self_pk self_logical_pk None None Identity.new c ∅ ∅ ∅ ∅ ∅ rng empty_cache ∅ ∅ ∅ ∅ ∅ (cache_new ADMIN_ANCESTORS_CACHE_SIZE)
    ∅ ∅ ∅ ∅ ∅ ∅ ∅ [] ∅ ∅ ∅ ∅ ∅ ∅ ∅ ∅.

Definition with_full_keys (self_pk : PhysicalDevicePk) (self_logical_pk : LogicalIdentityPk) (sk dh_sk : bytes) (rng : rng_state) (c : Clock.NetworkClock) : t :=
  (new self_pk self_logical_pk rng c) <| self_sk := Some sk |> <| self_dh_sk := Some dh_sk |>.

Definition with_sk `{X25519} (self_pk : PhysicalDevicePk) (self_logical_pk : LogicalIdentityPk) (sk : bytes) (rng : rng_state) (c : Clock.NetworkClock) : option t :=
  dh ← ed25519_sk_to_x25519 sha512 sk;
  Some ((new self_pk self_logical_pk rng c) <| self_sk := Some sk |> <| self_dh_sk := Some dh |>).

(** What operations read and change. *)
Record World (S : Type) := mkWorld { engine : t; disk : S; ticks : nat }.

End State.
Arguments mkWorld {_ _ _ S} engine disk ticks.
Arguments engine {_ _ _ S} w.
Arguments disk {_ _ _ S} w.
Arguments ticks {_ _ _ S} w.

Section Operations.
Context `{LruCache Identity.PathKey Z} `{LruCache NodeHash (gset NodeHash)} `{StdRng} `{TimeProvider} {S : Type}.

#[global] Instance eta_World : Settable (World S) := fun w => mkWorld (engine w) (disk w) (ticks w).

Abbreviation Op A := (M (World S) A).
Abbreviation Fallible A := (M (World S) (result MerkleToxError A)).

Definition get_engine : Op t := gets engine.
Definition get_disk : Op S := gets disk.
Definition update (f : t -> t) : Op unit := modify (fun w => w <| engine := f (engine w) |>).
Definition update_cache (f : PendingCache -> PendingCache) : Op unit := update (fun e => e <| pending_cache := f (pending_cache e) |>).

(** ** Time and randomness *)

(** [self.clock.time_provider().now_instant()] *)
Definition tick : Op nat := let* n := gets ticks in modify (fun w => w <| ticks := Datatypes.S n |>) ;* pure n.
Definition read_instant : Op Instant := let* n := tick in pure (now_instant n).
(** [Instant::now()] *)
Definition read_os_instant : Op Instant := let* n := tick in pure (os_instant n).

(** [self.clock.network_time_ms()] *)
Definition network_time_ms : Op Z :=
  let* now := read_instant in
  let* e := get_engine in
  let* (c, ms) := lift (Clock.network_time_ms (clock e) now) in
  update (fun e => e <| clock := c |>) ;*
  pure ms.

(** [self.rng.lock().fill_bytes(&mut [0u8; n])] *)
Definition random_bytes (n : nat) : Op bytes :=
  let* e := get_engine in
  let '(b, r) := fill_bytes n (rng e) in
  update (fun e => e <| rng := r |>) ;* pure b.
Definition random_range (lo hi : Z) : Op Z :=
  let* e := get_engine in
  let '(x, r) := gen_range lo hi (rng e) in
  update (fun e => e <| rng := r |>) ;* pure x.

(** ** The pending cache *)

Definition clear_pending : Op unit := update_cache (fun _ => empty_cache).
Definition pending_cache_len : Op Z := let* e := get_engine in pure (Z.of_nat (base.size (nodes (pending_cache e)))).
Definition put_pending_node `{Rmp} `{Blake3Hash} (n : MerkleNode) : Op unit :=
  let* h := lift (hash n) in update_cache (fun c => c <| nodes := <[h := n]> (nodes c) |>).

(** ** Announced keys *)

(** The first pre-key that has not expired. *)
Definition fresh_pre_key (now_ms : Z) (pre_keys : list SignedPreKey) : option SignedPreKey :=
  List.find (fun k => now_ms <? pre_key_expires k) pre_keys.

Definition get_recipient_spk (recipient : PhysicalDevicePk) : Op (option bytes) :=
  let* now_ms := network_time_ms in
  let* e := get_engine in
  pure (match peer_announcements e !! recipient with
        | Some (Announcement pre_keys last_resort_key) =>
            Some (match fresh_pre_key now_ms pre_keys with Some k => pre_key k | None => pre_key last_resort_key end)
        | _ => None
        end).

Definition resolve_recipient_spk `{X25519} (recipient : PhysicalDevicePk) : Op bytes :=
  let* spk := get_recipient_spk recipient in
  pure (default (device_pk_to_x25519 to_montgomery recipient) spk).

(** [position] and [remove] in the keys after the first. *)
Definition take_opk (now_ms : Z) (pre_keys : list SignedPreKey) : option (SignedPreKey * list SignedPreKey) :=
  '(i, k) ← list_find (fun k => now_ms < pre_key_expires k) (drop 1 pre_keys);
  Some (k, delete (Datatypes.S i) pre_keys).

Definition consume_recipient_opk `{Blake3Hash} (recipient : PhysicalDevicePk) : Op (option (bytes * NodeHash)) :=
  let* now_ms := network_time_ms in
  let* e := get_engine in
  match peer_announcements e !! recipient with
  | Some (Announcement pre_keys last_resort_key) =>
      match take_opk now_ms pre_keys with
      | Some (opk, rest) =>
          update (fun e => e <| peer_announcements := <[recipient := Announcement rest last_resort_key]> (peer_announcements e) |>) ;*
          pure (Some (pre_key opk, blake3 (pre_key opk)))
      | None => pure None
      end
  | _ => pure None
  end.

(** The entry whose public key hashes to the identifier. *)
Definition find_opk `{Blake3Hash} `{HashOrder} (e : t) (opk : NodeHash) : option (bytes * bytes) :=
  if bool_decide (opk = zero_hash) then None
  else List.find (fun k => bool_decide (blake3 k.1 = opk)) (iterate (ephemeral_keys e)).
Definition find_opk_sk `{Blake3Hash} `{HashOrder} (e : t) (opk : NodeHash) : option bytes := snd <$> find_opk e opk.

Definition consume_opk_sk `{Blake3Hash} `{HashOrder} (opk : NodeHash) : Op (option bytes) :=
  let* e := get_engine in
  match find_opk e opk with
  | Some (pk, _) =>
      update (fun e => e <| ephemeral_keys := delete pk (ephemeral_keys e) |>) ;*
      pure (ephemeral_keys e !! pk)
  | None => pure None
  end.

(** ** Peers *)

Definition set_peer_reachable (peer : PhysicalDevicePk) (r : bool) : Op unit :=
  update (fun e => e <| sessions := map_imap (fun k s => Some (if bool_decide (k.1 = peer)
    then SyncSession.on_peer_common (fun c => c <| SyncSession.reachable := r |>) s else s)) (sessions e) |>).

Definition blacklist_escalate (peer : PhysicalDevicePk) : Op unit :=
  let* now := network_time_ms in
  let* e := get_engine in
  let* s := lift (escalate (default (mkBlacklist 0 0) (peer_blacklist e !! peer)) now) in
  update (fun e => e <| peer_blacklist := <[peer := s]> (peer_blacklist e) |>).

Definition is_blacklisted (e : t) (peer : PhysicalDevicePk) (now_ms : Z) : bool :=
  match peer_blacklist e !! peer with Some bl => is_active bl now_ms | None => false end.

(** [request_reinclusion] *)
Definition request_reinclusion (e : t) (c : ConversationId) (admin : PhysicalDevicePk) (snapshot : NodeHash) : list Effect :=
  [SendPacket admin (ReinclusionRequest c (self_pk e) snapshot)].

(** The conversation, when it is established. *)
Definition established (e : t) (c : ConversationId) : option Conversation.Established :=
  match conversations e !! c with Some (Conversation.EstablishedConv d) => Some (Conversation.state d) | _ => None end.
(** Assignment through [Conversation::Established(em)]. *)
Definition set_established (c : ConversationId) (f : Conversation.Established -> Conversation.Established) (e : t) : t :=
  e <| conversations := alter (fun conv => match conv with
         | Conversation.EstablishedConv d => Conversation.EstablishedConv (Conversation.mkConversation (Conversation.id d) (f (Conversation.state d)))
         | p => p
         end) c (conversations e) |>.
(** [matches!(conv, Established(e) if e.state.identity_pending)] *)
Definition identity_pending_in (e : t) (c : ConversationId) : bool :=
  match established e c with Some s => Conversation.identity_pending s | None => false end.

End Operations.
End Engine.
