(* ===== verification/Overlay.v ===== *)
(** The store as the engine sees it ([engine/mod.rs], [EngineStore]): the pending
    cache in front of the store, and nodes checked against it.

    Two recursions follow hashes through the cache, [admin_distance] and
    [soft_anchor_chain]; the depth of each is below the number of cached nodes, for
    hashes make no cycles, and beyond it the source overflows its stack. *)

From S2P Require Import Prelude Protocol MsgPack ToxTypes Derive Iblt Merkle Dag DagWire Identity Conversation SyncSession Cas Clock Messages Monad Engine.
From stdpp Require Import gmap sorting strings.
#[local] Open Scope Z_scope.
#[local] Open Scope list_scope.
#[local] Open Scope monad_scope.

Module Overlay.
Import Dag Crypto Engine.

Section Reads.
Context `{Rmp} `{Blake3Hash} `{HashOrder} {S : Type} `{NodeStore S}.

(** ** [NodeLookup] *)

Definition get_node_type (c : PendingCache) (st : S) (h : NodeHash) : option NodeType :=
  match nodes c !! h with Some n => Some (node_type n) | None => Dag.get_node_type (lookup_of st) h end.
Definition get_rank (c : PendingCache) (st : S) (h : NodeHash) : option Z :=
  match nodes c !! h with Some n => Some (topological_rank n) | None => Dag.get_rank (lookup_of st) h end.

(** The distance is remembered in [admin_distances]. *)
Fixpoint admin_distance (fuel : nat) (c : PendingCache) (st : S) (h : NodeHash) : option (PendingCache * option Z) :=
  match fuel with
  | O => None
  | Datatypes.S fuel =>
      match admin_distances c !! h with
      | Some dist => Some (c, Some dist)
      | None =>
          match nodes c !! h with
          | Some n =>
              if bool_decide (node_type n = Admin) then Some (c <| admin_distances := <[h := 0]> (admin_distances c) |>, Some 0)
              else
                '(c, min_dist) ← foldl (fun acc p =>
                  '(c, min_dist) ← acc;
                  '(c, d) ← admin_distance fuel c st p;
                  Some (c, match d with Some dist => Z.min min_dist dist | None => min_dist end)) (Some (c, u64_max)) (parents n);
                let d := if min_dist =? u64_max then 10 else min_dist + 1 in
                Some (c <| admin_distances := <[h := d]> (admin_distances c) |>, Some d)
          | None => Some (c, Dag.get_admin_distance (lookup_of st) h)
          end
      end
  end.

Definition cache_depth (c : PendingCache) : nat := Datatypes.S (size (nodes c)).
Definition get_admin_distance (c : PendingCache) (st : S) (h : NodeHash) : option Z :=
  match admin_distance (cache_depth c) c st h with Some (_, d) => d | None => None end.

Definition contains_node (c : PendingCache) (st : S) (h : NodeHash) : bool :=
  bool_decide (is_Some (nodes c !! h)) || Dag.contains_node (lookup_of st) h.

Fixpoint soft_anchor_chain (fuel : nat) (c : PendingCache) (st : S) (h : NodeHash) : option Z :=
  match nodes c !! h with
  | Some n =>
      match content n, fuel with
      | Control (SoftAnchor basis _), Datatypes.S fuel => Some (1 + default 0 (soft_anchor_chain fuel c st basis))
      | _, _ => Some 0
      end
  | None => Dag.get_soft_anchor_chain_length (lookup_of st) h
  end.

Definition lookup (c : PendingCache) (st : S) : NodeLookup :=
  mkLookup (get_node_type c st) (get_rank c st) (get_admin_distance c st) (contains_node c st) (Dag.has_children (lookup_of st))
    (soft_anchor_chain (cache_depth c) c st).

(** ** [NodeStore] *)

Definition get_heads (c : PendingCache) (st : S) (cid : ConversationId) : list NodeHash := default (Engine.get_heads st cid) (heads c !! cid).
Definition get_admin_heads (c : PendingCache) (st : S) (cid : ConversationId) : list NodeHash :=
  default (Engine.get_admin_heads st cid) (admin_heads c !! cid).
Definition has_node (c : PendingCache) (st : S) (h : NodeHash) : bool := bool_decide (is_Some (nodes c !! h)) || Engine.has_node st h.
Definition is_verified (c : PendingCache) (st : S) (h : NodeHash) : bool := bool_decide (h ∈ verified c) || Engine.is_verified st h.
Definition get_node (c : PendingCache) (st : S) (h : NodeHash) : option MerkleNode :=
  match nodes c !! h with Some n => Some n | None => Engine.get_node st h end.
Definition get_wire_node (c : PendingCache) (st : S) (h : NodeHash) : option WireNode :=
  match wire_nodes c !! h with Some (_, w) => Some w | None => Engine.get_wire_node st h end.
Definition get_last_sequence_number (c : PendingCache) (st : S) (cid : ConversationId) (sender : PhysicalDevicePk) : Z :=
  default (Engine.get_last_sequence_number st cid sender) (last_verified_sequences c !! (cid, sender)).

Definition get_opaque_node_hashes (c : PendingCache) (st : S) (cid : ConversationId) : result MerkleToxError (list NodeHash) :=
  match Engine.get_opaque_node_hashes st cid with
  | Err e => Err e
  | Ok hs =>
      Ok (foldl (fun hs '(h, (cid', _)) =>
            if bool_decide (cid' = cid) && negb (bool_decide (is_Some (nodes c !! h))) && negb (bool_decide (h ∈ hs)) then hs ++ [h] else hs)
          (List.filter (fun h => negb (bool_decide (is_Some (nodes c !! h)))) hs) (iterate (wire_nodes c)))
  end.

(** Nodes with their hashes. *)
Definition hashed (ns : list MerkleNode) : option (list (NodeHash * MerkleNode)) := mapM (fun n => h ← hash n; Some (h, n)) ns.

Definition get_speculative_nodes (c : PendingCache) (st : S) (cid : ConversationId) : option (list MerkleNode) :=
  spec ← hashed (Engine.get_speculative_nodes st cid);
  let spec := List.filter (fun p => negb (bool_decide (p.1 ∈ verified c))) spec in
  Some ((snd <$> spec) ++
        (snd <$> List.filter (fun p => negb (bool_decide (p.1 ∈ verified c)) && negb (bool_decide (p.1 ∈ spec.*1))) (iterate (nodes c)))).

Definition get_node_counts (c : PendingCache) (st : S) (cid : ConversationId) : Z * Z :=
  let '(ver, spec) := Engine.get_node_counts st cid in
  let new := List.filter (fun p => negb (Engine.has_node st p.1)) (iterate (nodes c)) in
  (ver + len (List.filter (fun p => bool_decide (p.1 ∈ verified c)) new),
   spec + len (List.filter (fun p => negb (bool_decide (p.1 ∈ verified c))) new)).

Definition rank_le (a b : MerkleNode) : Prop := topological_rank a <= topological_rank b.
#[global] Instance rank_le_dec : RelDecision rank_le.
Proof. intros a b. unfold rank_le. apply _. Defined.

Definition get_verified_nodes_by_type (c : PendingCache) (st : S) (cid : ConversationId) (ty : NodeType) : Outcome MerkleToxError (list MerkleNode) :=
  let? ns := Some (Engine.get_verified_nodes_by_type st cid ty) in
  match hashed ns with
  | None => None
  | Some hs =>
      succeed (merge_sort rank_le (ns ++
        (snd <$> List.filter (fun p => bool_decide (p.1 ∈ verified c) && bool_decide (node_type p.2 = ty) && negb (bool_decide (p.1 ∈ hs.*1)))
                   (iterate (nodes c)))))
  end.

Definition get_node_hashes_in_range (c : PendingCache) (st : S) (cid : ConversationId) (r : SyncSession.SyncRange) : result MerkleToxError (list NodeHash) :=
  match Engine.get_node_hashes_in_range st cid r with
  | Err e => Err e
  | Ok hs =>
      Ok (hs ++ (fst <$> List.filter (fun p => (SyncSession.range_min r <=? topological_rank p.2) && (topological_rank p.2 <=? SyncSession.range_max r) &&
                                            negb (bool_decide (p.1 ∈ hs))) (iterate (nodes c))))
  end.

(** What a session reads of the store, and of the overlay. *)
Definition store_view (st : S) : SyncSession.StoreView :=
  SyncSession.mkView (lookup_of st) (Engine.get_heads st) (Engine.get_admin_heads st) (Engine.has_node st) (Engine.get_node_hashes_in_range st).
Definition view (c : PendingCache) (st : S) : SyncSession.StoreView :=
  SyncSession.mkView (lookup c st) (get_heads c st) (get_admin_heads c st) (has_node c st) (get_node_hashes_in_range c st).

(** ** Writes *)

Definition put_node (cid : ConversationId) (n : MerkleNode) (is_ver : bool) (c : PendingCache) : option PendingCache :=
  h ← hash n;
  let c := if is_ver then c <| last_verified_sequences := <[(cid, sender_pk n) := sequence_number n]> (last_verified_sequences c) |>
                            <| verified := verified c ∪ {[h]} |>
           else c in
  Some (c <| nodes := <[h := n]> (nodes c) |>).

Definition mark_verified (cid : ConversationId) (h : NodeHash) (c : PendingCache) : PendingCache :=
  let c := c <| verified := verified c ∪ {[h]} |> in
  match nodes c !! h with
  | Some n => c <| last_verified_sequences := <[(cid, sender_pk n) := sequence_number n]> (last_verified_sequences c) |>
  | None => c
  end.

Definition put_wire_node (cid : ConversationId) (h : NodeHash) (w : WireNode) (c : PendingCache) : PendingCache :=
  c <| wire_nodes := <[h := (cid, w)]> (wire_nodes c) |>.
Definition set_heads (cid : ConversationId) (hs : list NodeHash) (c : PendingCache) : PendingCache := c <| heads := <[cid := hs]> (heads c) |>.
Definition set_admin_heads (cid : ConversationId) (hs : list NodeHash) (c : PendingCache) : PendingCache :=
  c <| admin_heads := <[cid := hs]> (admin_heads c) |>.

End Reads.

(** ** Operations *)

Section Operations.
Context `{Rmp} `{Blake3Hash} `{Ed25519} `{HashOrder} `{LruCache Identity.PathKey Z} `{LruCache NodeHash (gset NodeHash)} `{StdRng} {S : Type} `{NodeStore S}.

#[local] Abbreviation Op A := (M (World S) A).

(** A read of the overlay. *)
Definition read {A} (f : PendingCache -> S -> A) : Op A := gets (fun w => f (pending_cache (engine w)) (disk w)).

(** [overlay.remove_wire_node] *)
Definition remove_wire_node (cid : ConversationId) (h : NodeHash) : Op (result MerkleToxError unit) :=
  update_cache (fun c => c <| wire_nodes := delete h (wire_nodes c) |>) ;*
  let* st := get_disk in
  let '(st, r) := Engine.remove_wire_node cid h st in
  modify (fun w => w <| disk := st |>) ;* pure r.

(** The distances of the parents of a node, as the last rule of [validate] asks for
    them. *)
Fixpoint ask_distances (c : PendingCache) (st : S) (ps : list NodeHash) : option PendingCache :=
  match ps with
  | [] => Some c
  | p :: ps =>
      '(c, d) ← admin_distance (cache_depth c) c st p;
      match (d : option Z) with Some _ => ask_distances c st ps | None => Some c end
  end.

(** The node passes every rule before the last. *)
Definition asks_distances (n : MerkleNode) (c : PendingCache) (st : S) : option bool :=
  r ← validate n (mkLookup (get_node_type c st) (get_rank c st) (fun _ => Some 0) (contains_node c st) (Dag.has_children (lookup_of st))
                    (soft_anchor_chain (cache_depth c) c st));
  Some (is_ok r && bool_decide (node_type n = ContentNode)).

(** [node.validate(&conversation_id, &overlay)]: what it answers, and the distances
    that are remembered after it. *)
Definition validate_node (n : MerkleNode) : Op (result ValidationError unit) :=
  let* (c, st) := read (fun c st => (c, st)) in
  let* r := lift (validate n (lookup c st)) in
  let* asks := lift (asks_distances n c st) in
  (if (asks : bool) then let* c := lift (ask_distances c st (parents n)) in update_cache (fun _ => c) else pure tt) ;*
  pure r.

(** ** The admin nodes in a node's history *)

(** The loop over the stack; the last parent is visited first.  What the cache
    holds of a parent is used instead of its parents.  [look] reads the overlay, or
    the store alone. *)
Fixpoint admin_ancestors_loop (look : PendingCache -> S -> NodeHash -> option MerkleNode) (fuel : nat) (stack : list NodeHash) (visited found : gset NodeHash) :
    Op (gset NodeHash) :=
  match fuel with
  | O => lift None
  | Datatypes.S fuel =>
      match stack with
      | [] => pure found
      | parent_hash :: stack =>
          if decide (parent_hash ∈ visited) then admin_ancestors_loop look fuel stack visited found
          else
            let visited := visited ∪ {[parent_hash]} in
            let* parent := read (fun c st => look c st parent_hash) in
            match parent with
            | None => admin_ancestors_loop look fuel stack visited found
            | Some n =>
                let found := if bool_decide (node_type n = Admin) then found ∪ {[parent_hash]} else found in
                let* e := get_engine in
                let '(hit, lru) := cache_get parent_hash (admin_ancestors_cache e) in
                update (fun e => e <| admin_ancestors_cache := lru |>) ;*
                match hit with
                | Some cached => admin_ancestors_loop look fuel stack visited (found ∪ cached)
                | None => admin_ancestors_loop look fuel (rev (parents n) ++ stack) visited found
                end
            end
      end
  end.

Definition causal_context_by (look : PendingCache -> S -> NodeHash -> option MerkleNode) (fuel : nat) (n : MerkleNode) : Op Identity.CausalContext :=
  let* found := admin_ancestors_loop look fuel (rev (parents n)) ∅ ∅ in
  let* h := lift (hash n) in
  update (fun e => e <| admin_ancestors_cache := cache_push h found (admin_ancestors_cache e) |>) ;*
  pure (Identity.mkContext h found).

(** The context in which the node is judged.  [fuel] bounds the edges of its
    history. *)
Definition causal_context : nat -> MerkleNode -> Op Identity.CausalContext := causal_context_by get_node.

(** ** Identities *)

Definition is_authorized (ctx : Identity.CausalContext) (cid : ConversationId) (device : PhysicalDevicePk) (logical : LogicalIdentityPk) (now_ms rank : Z) : Op bool :=
  let* e := get_engine in
  let '(m, ok) := Identity.is_authorized (identity_manager e) ctx cid device logical now_ms rank in
  update (fun e => e <| identity_manager := m |>) ;* pure ok.

Definition authorize_device (ctx : Identity.CausalContext) (cid : ConversationId) (logical : LogicalIdentityPk) (cert : DelegationCertificate) (now_ms rank : Z)
    (h : NodeHash) : Op (result IdentityError unit) :=
  let* e := get_engine in
  let* (m, r) := lift (Identity.authorize_device (identity_manager e) ctx cid logical cert now_ms rank h) in
  update (fun e => e <| identity_manager := m |>) ;* pure r.

Definition list_active_authorized_devices (ctx : Identity.CausalContext) (cid : ConversationId) (now_ms rank : Z) : Op (list PhysicalDevicePk) :=
  let* e := get_engine in
  let '(m, ds) := Identity.list_active_authorized_devices (identity_manager e) ctx cid now_ms rank in
  update (fun e => e <| identity_manager := m |>) ;* pure ds.

(** [get_permissions(...).unwrap_or(Permissions::NONE)] *)
Definition permissions_of (e : t) (ctx : Identity.CausalContext) (cid : ConversationId) (device : PhysicalDevicePk) (logical : LogicalIdentityPk) (now_ms rank : Z) : Permissions.t :=
  default Permissions.NONE (Identity.get_permissions (identity_manager e) ctx cid device logical now_ms rank).

End Operations.
End Overlay.
