(* ===== verification/Memory.v ===== *)
(** The in-memory store ([merkle-tox-core/src/testing/store.rs]) as an implementation
    of [NodeStore] and of the blob store.

    [get_admin_distance] of the source remembers what it computes; it computes only
    for stored nodes whose distance is not remembered, and [put_node] remembers the
    distance of every node it stores ([distances_known] in [MemoryTheory.v]).  So the
    read is a function here. *)

From S2P Require Import Prelude Protocol MsgPack ToxTypes Derive Iblt Merkle Dag DagWire Identity Conversation SyncSession Cas Clock Messages Monad Engine Overlay.
From stdpp Require Import gmap sorting strings.
#[local] Open Scope Z_scope.
#[local] Open Scope list_scope.

Module Memory.
Import Dag Crypto.
#[local] Existing Instance Cas.eta_BlobInfo.

#[global] Instance SyncRange_eq_dec : EqDecision SyncSession.SyncRange.
Proof. solve_decision. Defined.
#[global] Instance SyncRange_countable : Countable SyncSession.SyncRange.
Proof. apply (inj_countable' (fun r => (SyncSession.range_min r, SyncSession.range_max r)) (fun p => SyncSession.mkRange p.1 p.2)). by intros []. Defined.

Record InMemoryStore := mkStore {
  nodes : gmap NodeHash (MerkleNode * bool);
  speculative_nodes : gset NodeHash;
  opaque_nodes : gset NodeHash;
  wire_nodes : gmap NodeHash (ConversationId * WireNode);
  children : gmap NodeHash (list NodeHash);
  admin_distance_cache : gmap NodeHash Z;
  last_sequence_numbers : gmap PhysicalDevicePk Z;
  heads : gmap ConversationId (list NodeHash);
  admin_heads : gmap ConversationId (list NodeHash);
  blobs : gmap NodeHash (Cas.BlobInfo * bytes);
  keys : gmap (ConversationId * Z) KConv;
  ratchet_keys : gmap (ConversationId * NodeHash) (ChainKey * Z);
  meta : gmap ConversationId (Z * Z);
  sketches : gmap (ConversationId * SyncSession.SyncRange) bytes;
  global_offset : option Z
}.
#[export] Instance eta_InMemoryStore : Settable InMemoryStore := fun s =>
  mkStore (nodes s) (speculative_nodes s) (opaque_nodes s) (wire_nodes s) (children s) (admin_distance_cache s) (last_sequence_numbers s)
    (heads s) (admin_heads s) (blobs s) (keys s) (ratchet_keys s) (meta s) (sketches s) (global_offset s).

Definition new : InMemoryStore := mkStore ∅ ∅ ∅ ∅ ∅ ∅ ∅ ∅ ∅ ∅ ∅ ∅ ∅ ∅ None.

(** ** [NodeLookup] *)

Definition get_node_type (s : InMemoryStore) (h : NodeHash) : option NodeType := (fun p => node_type p.1) <$> nodes s !! h.
Definition get_rank (s : InMemoryStore) (h : NodeHash) : option Z := (fun p => topological_rank p.1) <$> nodes s !! h.

Definition least_distance (ds : list (option Z)) : Z := foldl (fun m d => match d with Some d => Z.min m d | None => m end) u64_max ds.
Definition distance_after (min_dist : Z) : Z := if min_dist =? u64_max then 10 else min_dist + 1.

Fixpoint admin_distance (fuel : nat) (s : InMemoryStore) (h : NodeHash) : option Z :=
  match admin_distance_cache s !! h, fuel with
  | Some dist, _ => Some dist
  | None, O => None
  | None, S fuel =>
      '(n, _) ← nodes s !! h;
      if bool_decide (node_type n = Admin) then Some 0 else Some (distance_after (least_distance (admin_distance fuel s <$> parents n)))
  end.
Definition get_admin_distance (s : InMemoryStore) : NodeHash -> option Z := admin_distance (size (nodes s)) s.

Definition contains_node (s : InMemoryStore) (h : NodeHash) : bool := bool_decide (is_Some (nodes s !! h)).
Definition has_children (s : InMemoryStore) (h : NodeHash) : bool := match children s !! h with Some (_ :: _) => true | _ => false end.

Fixpoint soft_anchor_chain (fuel : nat) (s : InMemoryStore) (h : NodeHash) : option Z :=
  '(n, _) ← nodes s !! h;
  match content n, fuel with
  | Control (SoftAnchor basis _), S fuel => Some (1 + default 0 (soft_anchor_chain fuel s basis))
  | _, _ => Some 0
  end.

Definition lookup (s : InMemoryStore) : NodeLookup :=
  mkLookup (get_node_type s) (get_rank s) (get_admin_distance s) (contains_node s) (has_children s) (soft_anchor_chain (S (size (nodes s))) s).

Section Store.
Context `{Rmp} `{Blake3Hash} `{HashOrder}.

(** ** [NodeStore] *)

Definition get_heads (s : InMemoryStore) (cid : ConversationId) : list NodeHash := default [] (heads s !! cid).
Definition set_heads (cid : ConversationId) (hs : list NodeHash) (s : InMemoryStore) := (s <| heads := <[cid := hs]> (heads s) |>, @Ok MerkleToxError unit tt).
Definition get_admin_heads (s : InMemoryStore) (cid : ConversationId) : list NodeHash := default [] (admin_heads s !! cid).
Definition set_admin_heads (cid : ConversationId) (hs : list NodeHash) (s : InMemoryStore) :=
  (s <| admin_heads := <[cid := hs]> (admin_heads s) |>, @Ok MerkleToxError unit tt).

Definition is_verified (s : InMemoryStore) (h : NodeHash) : bool := match nodes s !! h with Some (_, v) => v | None => false end.
Definition get_node (s : InMemoryStore) (h : NodeHash) : option MerkleNode := fst <$> nodes s !! h.
Definition get_wire_node (s : InMemoryStore) (h : NodeHash) : option WireNode := snd <$> wire_nodes s !! h.

(** The greatest sequence number of a device. *)
Definition note_seq (n : MerkleNode) (seqs : gmap PhysicalDevicePk Z) : gmap PhysicalDevicePk Z :=
  <[sender_pk n := Z.max (default 0 (seqs !! sender_pk n)) (sequence_number n)]> seqs.

Definition put_node (cid : ConversationId) (n : MerkleNode) (ver : bool) (s : InMemoryStore) : option (InMemoryStore * result MerkleToxError unit) :=
  h ← hash n;
  let dist := if bool_decide (node_type n = Admin) then 0
              else distance_after (least_distance ((fun p => admin_distance_cache s !! p) <$> parents n)) in
  let s := s <| admin_distance_cache := <[h := dist]> (admin_distance_cache s) |> in
  let s := s <| children := foldl (fun m p => <[p := default [] (m !! p) ++ [h]]> m) (children s) (parents n) |> in
  let s := if ver then s <| speculative_nodes := speculative_nodes s ∖ {[h]} |> <| last_sequence_numbers := note_seq n (last_sequence_numbers s) |>
           else s <| speculative_nodes := speculative_nodes s ∪ {[h]} |> in
  Some (s <| opaque_nodes := opaque_nodes s ∖ {[h]} |> <| nodes := <[h := (n, ver)]> (nodes s) |>, Ok tt).

Definition put_wire_node (cid : ConversationId) (h : NodeHash) (w : WireNode) (s : InMemoryStore) :=
  let s := s <| wire_nodes := <[h := (cid, w)]> (wire_nodes s) |> in
  (if bool_decide (is_Some (nodes s !! h)) then s else s <| opaque_nodes := opaque_nodes s ∪ {[h]} |>, @Ok MerkleToxError unit tt).
Definition remove_wire_node (cid : ConversationId) (h : NodeHash) (s : InMemoryStore) :=
  (s <| wire_nodes := delete h (wire_nodes s) |> <| opaque_nodes := opaque_nodes s ∖ {[h]} |>, @Ok MerkleToxError unit tt).
Definition get_opaque_node_hashes (s : InMemoryStore) (cid : ConversationId) : result MerkleToxError (list NodeHash) := Ok (elements_of (opaque_nodes s)).
Definition get_speculative_nodes (s : InMemoryStore) (cid : ConversationId) : list MerkleNode := omap (get_node s) (elements_of (speculative_nodes s)).

Definition mark_verified (cid : ConversationId) (h : NodeHash) (s : InMemoryStore) :=
  let s := match nodes s !! h with
           | Some (n, _) => s <| nodes := <[h := (n, true)]> (nodes s) |> <| last_sequence_numbers := note_seq n (last_sequence_numbers s) |>
           | None => s
           end in
  (s <| speculative_nodes := speculative_nodes s ∖ {[h]} |>, @Ok MerkleToxError unit tt).

Definition get_last_sequence_number (s : InMemoryStore) (cid : ConversationId) (sender : PhysicalDevicePk) : Z := default 0 (last_sequence_numbers s !! sender).

(** The nodes with their flags, in the order of the map. *)
Definition stored (s : InMemoryStore) : list (MerkleNode * bool) := snd <$> iterate (nodes s).
Definition get_node_counts (s : InMemoryStore) (cid : ConversationId) : Z * Z :=
  (len (List.filter snd (stored s)), len (List.filter (fun p => negb p.2) (stored s))).
Definition get_verified_nodes_by_type (s : InMemoryStore) (cid : ConversationId) (ty : NodeType) : result MerkleToxError (list MerkleNode) :=
  Ok (merge_sort Overlay.rank_le (fst <$> List.filter (fun p => p.2 && bool_decide (node_type p.1 = ty)) (stored s))).
(** The hashes of the nodes: the keys under which they are stored. *)
Definition get_node_hashes_in_range (s : InMemoryStore) (cid : ConversationId) (r : SyncSession.SyncRange) : result MerkleToxError (list NodeHash) :=
  Ok (fst <$> List.filter (fun p => p.2.2 && (SyncSession.range_min r <=? topological_rank p.2.1) && (topological_rank p.2.1 <=? SyncSession.range_max r)) (iterate (nodes s))).
Definition size_bytes (s : InMemoryStore) : Z := Z.of_nat (size (nodes s)) * 512 + zsum (fun b => len b.2.2) (iterate (blobs s)).

Definition put_conversation_key (cid : ConversationId) (epoch : Z) (k : KConv) (s : InMemoryStore) :=
  (s <| keys := <[(cid, epoch) := k]> (keys s) |>, @Ok MerkleToxError unit tt).
Definition epoch_le (a b : Z * KConv) : Prop := a.1 <= b.1.
#[global] Instance epoch_le_dec : RelDecision epoch_le.
Proof. intros a b. unfold epoch_le. apply _. Defined.
Definition get_conversation_keys (s : InMemoryStore) (cid : ConversationId) : result MerkleToxError (list (Z * KConv)) :=
  Ok (merge_sort epoch_le ((fun p => (p.1.2, p.2)) <$> List.filter (fun p => bool_decide (p.1.1 = cid)) (iterate (keys s)))).
Definition update_epoch_metadata (cid : ConversationId) (count time : Z) (s : InMemoryStore) :=
  (s <| meta := <[cid := (count, time)]> (meta s) |>, @Ok MerkleToxError unit tt).
Definition get_epoch_metadata (s : InMemoryStore) (cid : ConversationId) : result MerkleToxError (option (Z * Z)) := Ok (meta s !! cid).
Definition put_ratchet_key (cid : ConversationId) (h : NodeHash) (k : ChainKey) (epoch : Z) (s : InMemoryStore) :=
  (s <| ratchet_keys := <[(cid, h) := (k, epoch)]> (ratchet_keys s) |>, @Ok MerkleToxError unit tt).
Definition get_ratchet_key (s : InMemoryStore) (cid : ConversationId) (h : NodeHash) : result MerkleToxError (option (ChainKey * Z)) := Ok (ratchet_keys s !! (cid, h)).
Definition remove_ratchet_key (cid : ConversationId) (h : NodeHash) (s : InMemoryStore) :=
  (s <| ratchet_keys := delete (cid, h) (ratchet_keys s) |>, @Ok MerkleToxError unit tt).

#[global] Instance memory_store : Engine.NodeStore InMemoryStore := {|
  Engine.lookup_of := lookup;
  Engine.get_heads := get_heads; Engine.set_heads := set_heads;
  Engine.get_admin_heads := get_admin_heads; Engine.set_admin_heads := set_admin_heads;
  Engine.has_node := contains_node; Engine.is_verified := is_verified;
  Engine.get_node := get_node; Engine.get_wire_node := get_wire_node;
  Engine.put_node := put_node; Engine.put_wire_node := put_wire_node; Engine.remove_wire_node := remove_wire_node;
  Engine.get_speculative_nodes := get_speculative_nodes; Engine.mark_verified := mark_verified;
  Engine.get_last_sequence_number := get_last_sequence_number; Engine.get_node_counts := get_node_counts;
  Engine.get_verified_nodes_by_type := get_verified_nodes_by_type;
  Engine.get_node_hashes_in_range := get_node_hashes_in_range; Engine.get_opaque_node_hashes := get_opaque_node_hashes;
  Engine.size_bytes := size_bytes;
  Engine.put_conversation_key := put_conversation_key; Engine.get_conversation_keys := get_conversation_keys;
  Engine.update_epoch_metadata := update_epoch_metadata; Engine.get_epoch_metadata := get_epoch_metadata;
  Engine.put_ratchet_key := put_ratchet_key; Engine.get_ratchet_key := get_ratchet_key; Engine.remove_ratchet_key := remove_ratchet_key
|}.

End Store.

(** ** The blob store *)

Definition has_blob (s : InMemoryStore) (h : NodeHash) : bool :=
  match blobs s !! h with Some (i, _) => match Cas.status i with Cas.Available => true | _ => false end | None => false end.
Definition get_blob_info (s : InMemoryStore) (h : NodeHash) : option Cas.BlobInfo := fst <$> blobs s !! h.
Definition put_blob_info (i : Cas.BlobInfo) (s : InMemoryStore) : InMemoryStore :=
  s <| blobs := <[Cas.info_hash i := (i, match blobs s !! Cas.info_hash i with Some (_, b) => b | None => [] end)]> (blobs s) |>.

(** [buffer[offset..end].copy_from_slice(..)]: an offset past the end panics. *)
Definition copy_at (buffer : bytes) (offset : Z) (d : bytes) : option bytes :=
  stop ← chk_usize (offset + len d);
  let stop := Z.min stop (len buffer) in
  if offset <=? stop
  then Some (take (Z.to_nat offset) buffer ++ take (Z.to_nat (stop - offset)) d ++ drop (Z.to_nat stop) buffer)
  else None.

(** The loop over the chunks: whether each has its bit in the mask, which must be long
    enough up to the first that has not. *)
Fixpoint all_received (mask : bytes) (chunks : list Z) : option bool :=
  match chunks with
  | [] => Some true
  | i :: chunks => b ← idx mask (i / 8); if Z.land b (Z.shiftl 1 (i mod 8)) =? 0 then Some false else all_received mask chunks
  end.
Definition set_bit (mask : bytes) (i : Z) : bytes :=
  match idx mask (i / 8) with Some b => <[Z.to_nat (i / 8) := Z.lor b (Z.shiftl 1 (i mod 8))]> mask | None => mask end.

Definition put_chunk (h : NodeHash) (offset : Z) (d : bytes) (s : InMemoryStore) : option InMemoryStore :=
  match blobs s !! h with
  | None => Some s
  | Some (i, buffer) =>
      let buffer := match buffer with [] => replicate (Z.to_nat (Cas.size i)) 0 | _ => buffer end in
      buffer ← copy_at buffer offset d;
      let mask := default (replicate (Z.to_nat (div_ceil (Cas.num_chunks (Cas.size i)) 8)) 0) (Cas.info_mask i) in
      let mask := set_bit mask (offset / Cas.CHUNK_SIZE) in
      complete ← all_received mask (zrange 0 (Cas.num_chunks (Cas.size i)));
      let i := i <| Cas.status := if (complete : bool) then Cas.Available else Cas.Downloading |> <| Cas.info_mask := Some mask |> in
      Some (s <| blobs := <[h := (i, buffer)]> (blobs s) |>)
  end.

Definition get_chunk (s : InMemoryStore) (h : NodeHash) (offset length : Z) : Outcome MerkleToxError bytes :=
  match blobs s !! h with
  | None => Some (Err (BlobNotFound h))
  | Some (_, buffer) =>
      match chk_usize (offset + length) with
      | None => None
      | Some stop =>
          let stop := Z.min stop (len buffer) in
          if offset <=? stop then Some (Ok (take (Z.to_nat (stop - offset)) (drop (Z.to_nat offset) buffer))) else None
      end
  end.
Definition get_chunk_with_proof (s : InMemoryStore) (h : NodeHash) (offset length : Z) : Outcome MerkleToxError (bytes * bytes) :=
  let? d := get_chunk s h offset length in Some (Ok (d, [])).

Definition blob_store (s : InMemoryStore) : Engine.BlobStore := Engine.mkBlobStore (has_blob s) (get_blob_info s) (get_chunk_with_proof s).

(** ** The other stores *)

Definition get_global_offset (s : InMemoryStore) : option Z := global_offset s.
Definition set_global_offset (offset : Z) (s : InMemoryStore) : InMemoryStore := s <| global_offset := Some offset |>.
Definition put_sketch (cid : ConversationId) (r : SyncSession.SyncRange) (sketch : bytes) (s : InMemoryStore) : InMemoryStore :=
  s <| sketches := <[(cid, r) := sketch]> (sketches s) |>.
Definition get_sketch (s : InMemoryStore) (cid : ConversationId) (r : SyncSession.SyncRange) : option bytes := sketches s !! (cid, r).

End Memory.
