(* ===== verification/EngineModels.v ===== *)
(** What the engine runs on, made of small functions: examples of runs, and instances
    of the properties, are evaluated with it.  Nothing of it is secret or random. *)

From S2P Require Import Prelude Protocol MsgPack MsgPackFormat ToxTypes Derive Iblt IbltTheory Merkle MerkleModels Dag DagWire Identity Conversation SyncSession Cas Clock Messages Monad Engine Overlay Memory.
From stdpp Require Import gmap sorting strings.
#[local] Open Scope Z_scope.
#[local] Open Scope list_scope.

Module EngineModels.
Import Dag Crypto Models Engine.

#[export] Existing Instance IbltTheory.counting.
#[export] Instance strictly : StrictVerify := fun pk msg sig => verify pk msg sig.

(** A shared secret is the sum of the two keys, byte by byte. *)
Definition sum_keys (a b : bytes) : bytes := (fun p => (p.1 + p.2) mod 256) <$> zip a b.
#[export] Instance sum_exchange : X25519 := {|
  diffie_hellman := sum_keys;
  x25519_public sk := sk;
  sha512 b := checksum b ++ checksum b;
  to_montgomery pk := Some pk
|}.

#[export] Instance whole_slices : Bao := fun proof root o l => if bool_decide (proof = root) then Some (take (Z.to_nat l) (drop (Z.to_nat o) proof)) else None.

(** Random bytes that count up. *)
#[export] Instance counting_rng : StdRng := {|
  rng_state := Z;
  fill_bytes n s := (replicate n (s mod 256), s + 1);
  gen_range lo hi s := (lo, s + 1)
|}.

(** A millisecond passes between two questions. *)
#[export] Instance steady_time : TimeProvider := {|
  now_instant n := Z.of_nat n * 1000000;
  now_system_ms n := 1000000 + Z.of_nat n;
  os_instant n := Z.of_nat n * 1000000
|}.

Definition device (b : Z) : PhysicalDevicePk := replicate 32 b.
Definition room : ConversationId := replicate 32 9.

(** An engine without keys, and one that owns its master key; their stores are empty. *)
Definition blank (b : Z) : World Memory.InMemoryStore := mkWorld (new (device b) (device b) (7 : rng_state) (Clock.new (now_instant 0) (now_system_ms 0))) Memory.new 0.
Definition fresh (b : Z) : World Memory.InMemoryStore :=
  mkWorld (with_full_keys (device b) (device b) (device b) (device b) 7 (Clock.new (now_instant 0) (now_system_ms 0))) Memory.new 0.

(** A run is evaluated as far as it is observed. *)
Lemma observe {A B} (o : option A) (f : A -> B) (v : B) : f <$> o = Some v -> exists a, o = Some a /\ f a = v.
Proof. destruct o as [a|]; [|done]. intros [= <-]. eauto. Qed.

End EngineModels.
