(* ===== verification/MemoryTheory.v ===== *)
(** The in-memory store: its distances are known, the overlay of pending writes reads
    like the store in which they are done, and a store of validated nodes is a graph
    of the expected shape. *)

From S2P Require Import Prelude Protocol MsgPack ToxTypes Derive Iblt Merkle Dag DagWire Identity Conversation SyncSession Cas Clock Messages Monad Engine Overlay Memory MsgPackFormat MerkleModels DagCodec DagValid IbltTheory EngineModels.
From stdpp Require Import gmap sorting strings.
#[local] Open Scope Z_scope.
#[local] Open Scope list_scope.

Module MemoryTheory.
Import Dag Crypto Engine.

Section Theory.
Context `{Rmp} `{Blake3Hash} `{HashOrder}.

(** ** Writes *)

Inductive write :=
| PutNode (cid : ConversationId) (n : MerkleNode) (ver : bool)
| MarkVerified (cid : ConversationId) (h : NodeHash)
| SetHeads (cid : ConversationId) (hs : list NodeHash)
| SetAdminHeads (cid : ConversationId) (hs : list NodeHash)
| PutWireNode (cid : ConversationId) (h : NodeHash) (w : WireNode).

(** Into the pending cache, and into the store. *)
Definition pend (x : write) (c : PendingCache) : option PendingCache :=
  match x with
  | PutNode cid n ver => Overlay.put_node cid n ver c
  | MarkVerified cid h => Some (Overlay.mark_verified cid h c)
  | SetHeads cid hs => Some (Overlay.set_heads cid hs c)
  | SetAdminHeads cid hs => Some (Overlay.set_admin_heads cid hs c)
  | PutWireNode cid h w => Some (Overlay.put_wire_node cid h w c)
  end.
Definition store (x : write) (s : Memory.InMemoryStore) : option Memory.InMemoryStore :=
  match x with
  | PutNode cid n ver => fst <$> Memory.put_node cid n ver s
  | MarkVerified cid h => Some (Memory.mark_verified cid h s).1
  | SetHeads cid hs => Some (Memory.set_heads cid hs s).1
  | SetAdminHeads cid hs => Some (Memory.set_admin_heads cid hs s).1
  | PutWireNode cid h w => Some (Memory.put_wire_node cid h w s).1
  end.

(** What is read of the overlay is what is read of the store. *)
Record agrees (c : PendingCache) (st s : Memory.InMemoryStore) : Prop := {
  same_nodes h : Overlay.get_node c st h = Engine.get_node s h;
  same_flags h : Overlay.is_verified c st h = Engine.is_verified s h;
  same_heads cid : Overlay.get_heads c st cid = Engine.get_heads s cid;
  same_admin_heads cid : Overlay.get_admin_heads c st cid = Engine.get_admin_heads s cid;
  same_wires h : Overlay.get_wire_node c st h = Engine.get_wire_node s h
}.

(** A node that is verified is not put again as speculative, and only known nodes are
    marked. *)
Definition permitted (x : write) (s : Memory.InMemoryStore) : bool :=
  match x with
  | PutNode _ n false => match hash n with Some h => negb (Engine.is_verified s h) | None => true end
  | MarkVerified _ h => Engine.has_node s h
  | _ => true
  end.

Lemma empty_agrees (s : Memory.InMemoryStore) : agrees empty_cache s s.
Proof. by split. Qed.

Lemma node_known (c : PendingCache) (st s : Memory.InMemoryStore) h : agrees c st s -> Overlay.has_node c st h = Engine.has_node s h.
Proof.
  intros Ha. pose proof (same_nodes _ _ _ Ha h) as E. unfold Overlay.has_node, Overlay.get_node in *. simpl in *.
  unfold Memory.contains_node, Memory.get_node in *. destruct (nodes c !! h) as [n|]; simpl.
  - by destruct (Memory.nodes s !! h).
  - destruct (Memory.nodes st !! h), (Memory.nodes s !! h); try done.
Qed.

(** One write on either side. *)
Lemma put_agrees cid n ver c c' (st s : Memory.InMemoryStore) : agrees c st s -> permitted (PutNode cid n ver) s = true -> Overlay.put_node cid n ver c = Some c' ->
  exists s', store (PutNode cid n ver) s = Some s' /\ agrees c' st s'.
Proof.
  intros [An Af Ah Aa Aw] Hx E. simpl in Hx. unfold Overlay.put_node in E. simpl. unfold Memory.put_node. destruct (hash n) as [h|]; [|done]. simpl in *. injection E as <-.
  eexists. split; [done|]. split; simpl.
  - intros k. specialize (An k). unfold Overlay.get_node, Memory.get_node in *. simpl in *. unfold Memory.get_node in *.
    destruct ver; simpl; (destruct (decide (k = h)) as [->|Hk]; [by rewrite !lookup_insert_eq|by rewrite !lookup_insert_ne by done]).
  - intros k. specialize (Af k). unfold Overlay.is_verified in *. simpl in *. unfold Memory.is_verified in *. simpl.
    destruct ver; simpl; (destruct (decide (k = h)) as [->|Hk]; [rewrite lookup_insert_eq|rewrite lookup_insert_ne by done]).
    + rewrite bool_decide_eq_true_2 by set_solver. done.
    + rewrite <- Af. f_equal. apply bool_decide_ext. set_solver.
    + rewrite Af. by apply negb_true_iff in Hx.
    + done.
  - intros k. destruct ver; apply Ah.
  - intros k. destruct ver; apply Aa.
  - intros k. destruct ver; apply Aw.
Qed.

Lemma mark_fields cid h c : let c' := Overlay.mark_verified cid h c in
  nodes c' = nodes c /\ verified c' = verified c ∪ {[h]} /\ heads c' = heads c /\ admin_heads c' = admin_heads c /\ wire_nodes c' = wire_nodes c.
Proof. unfold Overlay.mark_verified. simpl. by case_match. Qed.

Lemma mark_agrees cid h c (st s : Memory.InMemoryStore) : agrees c st s -> permitted (MarkVerified cid h) s = true ->
  agrees (Overlay.mark_verified cid h c) st (Memory.mark_verified cid h s).1.
Proof.
  intros Ha Hx. simpl in Hx. unfold Memory.contains_node in Hx. apply bool_decide_eq_true in Hx as [[n v] Hn]. destruct Ha as [An Af Ah Aa Aw].
  destruct (mark_fields cid h c) as (En & Ev & Eh & Ea & Ew). unfold Memory.mark_verified. rewrite Hn. split; simpl.
  - intros k. specialize (An k). transitivity (Overlay.get_node c st k); [unfold Overlay.get_node; by rewrite En|].
    rewrite An. simpl. unfold Memory.get_node. simpl. destruct (decide (k = h)) as [->|Hk]; [by rewrite lookup_insert_eq, Hn|by rewrite lookup_insert_ne].
  - intros k. specialize (Af k). transitivity (bool_decide (k = h) || Overlay.is_verified c st k).
    { transitivity (bool_decide (k ∈ verified c ∪ {[h]}) || Engine.is_verified st k); [unfold Overlay.is_verified; by rewrite Ev|].
      unfold Overlay.is_verified. rewrite orb_assoc. f_equal.
      destruct (decide (k = h)) as [->|Hk]; [rewrite (bool_decide_eq_true_2 (h = h)) by done; simpl; apply bool_decide_eq_true_2; set_solver|]. rewrite (bool_decide_eq_false_2 (k = h)) by done.
      apply bool_decide_ext. set_solver. }
    rewrite Af. simpl. unfold Memory.is_verified. simpl. destruct (decide (k = h)) as [->|Hk]; [by rewrite lookup_insert_eq, bool_decide_eq_true_2|].
    by rewrite lookup_insert_ne, bool_decide_eq_false_2.
  - intros k. specialize (Ah k). unfold Overlay.get_heads in *. by rewrite Eh.
  - intros k. specialize (Aa k). unfold Overlay.get_admin_heads in *. by rewrite Ea.
  - intros k. specialize (Aw k). unfold Overlay.get_wire_node in *. by rewrite Ew.
Qed.

Lemma write_agrees x c c' (st s : Memory.InMemoryStore) : agrees c st s -> permitted x s = true -> pend x c = Some c' ->
  exists s', store x s = Some s' /\ agrees c' st s'.
Proof.
  intros Ha Hx E. destruct x as [cid n ver|cid h|cid hs|cid hs|cid h w]; simpl in E; [by eapply put_agrees| | | |]; injection E as <-; eexists; (split; [done|]); [by apply mark_agrees| | |].
  all: destruct Ha as [An Af Ah Aa Aw]; split; try done.
  - intros k. specialize (Ah k). unfold Overlay.get_heads, Overlay.set_heads in *. simpl in *. unfold Memory.get_heads in *. simpl.
    destruct (decide (k = cid)) as [->|Hk]; [by rewrite !lookup_insert_eq|by rewrite !lookup_insert_ne by done].
  - intros k. specialize (Aa k). unfold Overlay.get_admin_heads, Overlay.set_admin_heads in *. simpl in *. unfold Memory.get_admin_heads in *. simpl.
    destruct (decide (k = cid)) as [->|Hk]; [by rewrite !lookup_insert_eq|by rewrite !lookup_insert_ne by done].
  - intros k. etrans; [exact (An k)|]. unfold Memory.put_wire_node. simpl. by case_bool_decide.
  - intros k. etrans; [exact (Af k)|]. unfold Memory.put_wire_node. simpl. by case_bool_decide.
  - intros k. etrans; [exact (Ah k)|]. unfold Memory.put_wire_node. simpl. by case_bool_decide.
  - intros k. etrans; [exact (Aa k)|]. unfold Memory.put_wire_node. simpl. by case_bool_decide.
  - intros k. specialize (Aw k). unfold Overlay.get_wire_node, Overlay.put_wire_node, Memory.put_wire_node in *. simpl in *. unfold Memory.get_wire_node in *. simpl in *.
    destruct (bool_decide _); simpl; (destruct (decide (k = h)) as [->|Hk]; [by rewrite !lookup_insert_eq|by rewrite !lookup_insert_ne by done]).
Qed.

(** A run of writes into the cache, each permitted by the store in which the earlier
    ones are done. *)
Fixpoint pend_all (xs : list write) (c : PendingCache) : option PendingCache :=
  match xs with [] => Some c | x :: xs => c' ← pend x c; pend_all xs c' end.
Fixpoint store_all (xs : list write) (s : Memory.InMemoryStore) : option Memory.InMemoryStore :=
  match xs with [] => Some s | x :: xs => s' ← store x s; store_all xs s' end.
Fixpoint all_permitted (xs : list write) (s : Memory.InMemoryStore) : bool :=
  match xs with [] => true | x :: xs => permitted x s && match store x s with Some s' => all_permitted xs s' | None => true end end.

Lemma run_agrees xs : forall c c' (st s : Memory.InMemoryStore), agrees c st s -> all_permitted xs s = true -> pend_all xs c = Some c' ->
  exists s', store_all xs s = Some s' /\ agrees c' st s'.
Proof.
  induction xs as [|x xs IH]; intros c c' st s Ha Hp E; [injection E as <-; eauto|]. simpl in Hp. apply andb_true_iff in Hp as [Hx Hp]. simpl in *.
  destruct (pend x c) as [c1|] eqn:E1; [|done]. destruct (write_agrees x c c1 st s Ha Hx E1) as (s1 & E2 & Ha1). rewrite E2 in Hp |- *. simpl. eapply IH; eauto.
Qed.

(** C10: The pending cache refines the store for the reads of single nodes (their
    content, type, rank, wire form, presence and verified flag) and of heads: after any
    run of writes of nodes, flags, heads and wire nodes into the cache, such a read
    through the overlay gives what it gives of the store with the same writes done,
    for every hash whether written or not.  The writes must not put a verified node
    again as speculative (the overlay keeps the flag, the store drops it) nor mark an
    unknown node.  The reads of sequence numbers, ranges and lists are not among
    these; they differ ([other_reads_differ]). *)
Theorem overlay_refines_store xs c (st : Memory.InMemoryStore) : all_permitted xs st = true -> pend_all xs empty_cache = Some c ->
  exists s, store_all xs st = Some s /\
    (forall h, Overlay.get_node c st h = Engine.get_node s h /\ Overlay.has_node c st h = Engine.has_node s h /\ Overlay.is_verified c st h = Engine.is_verified s h /\
       Overlay.get_node_type c st h = Dag.get_node_type (lookup_of s) h /\ Overlay.get_rank c st h = Dag.get_rank (lookup_of s) h /\
       Overlay.contains_node c st h = Dag.contains_node (lookup_of s) h /\ Overlay.get_wire_node c st h = Engine.get_wire_node s h) /\
    (forall cid, Overlay.get_heads c st cid = Engine.get_heads s cid /\ Overlay.get_admin_heads c st cid = Engine.get_admin_heads s cid).
Proof.
  intros Hp E. destruct (run_agrees xs empty_cache c st st (empty_agrees st) Hp E) as (s & Es & Ha). exists s. split; [done|]. pose proof Ha as [An Af Ah Aa Aw].
  split; [|done]. intros h. specialize (An h) as Hn. pose proof (node_known c st s h Ha) as Hk. split; [done|]. split; [done|]. split; [apply Af|].
  unfold Overlay.get_node_type, Overlay.get_rank, Overlay.contains_node, Overlay.get_node, Overlay.has_node in *. simpl in *.
  unfold Memory.get_node, Memory.get_node_type, Memory.get_rank in *. split; [|split; [|split; [exact Hk|apply Aw]]].
  all: destruct (nodes c !! h), (Memory.nodes s !! h) as [[]|], (Memory.nodes st !! h) as [[]|]; simpl in *; congruence.
Qed.

(** ** Distances *)

(** Every stored node has its distance remembered. *)
Definition distances_known (s : Memory.InMemoryStore) : Prop := forall h, is_Some (Memory.nodes s !! h) -> is_Some (Memory.admin_distance_cache s !! h).

Lemma store_distances x s s' : distances_known s -> store x s = Some s' -> distances_known s'.
Proof.
  intros Hs E h. destruct x as [cid n ver|cid k|cid hs|cid hs|cid k w]; simpl in E.
  - unfold Memory.put_node in E. destruct (hash n) as [k|]; [|done]. simpl in E. injection E as <-. specialize (Hs h).
    destruct ver; simpl; (destruct (decide (h = k)) as [->|Hk]; [by rewrite !lookup_insert_eq|by rewrite !lookup_insert_ne by done]).
  - injection E as <-. specialize (Hs h). unfold Memory.mark_verified. destruct (Memory.nodes s !! k) as [[n v]|] eqn:Ek; simpl; [|done].
    destruct (decide (h = k)) as [->|Hk]; [intros _; apply Hs; by rewrite Ek|by rewrite lookup_insert_ne].
  - injection E as <-. apply Hs.
  - injection E as <-. apply Hs.
  - injection E as <-. unfold Memory.put_wire_node. simpl. case_bool_decide; apply Hs.
Qed.

(** So reading a distance computes nothing that would have to be remembered. *)
Lemma distance_read (s : Memory.InMemoryStore) h : distances_known s -> Memory.get_admin_distance s h = Memory.admin_distance_cache s !! h.
Proof.
  intros Hs. unfold Memory.get_admin_distance. destruct (size (Memory.nodes s)); simpl; destruct (Memory.admin_distance_cache s !! h) eqn:E; try done.
  destruct (Memory.nodes s !! h) as [p|] eqn:En; [|done]. destruct (Hs h); [by eexists|congruence].
Qed.

Lemma stored_distances xs : forall s s', distances_known s -> store_all xs s = Some s' -> distances_known s'.
Proof.
  induction xs as [|x xs IH]; intros s s' Hs E; simpl in E; [by injection E as <-|]. destruct (store x s) as [s1|] eqn:E1; [|done].
  eapply IH; [|exact E]. by eapply store_distances.
Qed.

End Theory.

(** ** Stores of validated nodes *)

Section Graph.
Context `{Rmp} `{Blake3Hash} `{HashOrder} `{Ed25519}.

(** The graph of the stored nodes. *)
Definition graph (s : Memory.InMemoryStore) : gmap NodeHash MerkleNode := fst <$> Memory.nodes s.

(** Stores into which only nodes are put that [validate] accepts against the store as
    it then is; a node may be put again, but no two nodes have the same hash.
    Other operations leave nodes and distances alone. *)
Inductive grown : Memory.InMemoryStore -> Prop :=
| grown_new : grown Memory.new
| grown_put s cid n ver h s' : grown s -> hash n = Some h -> (forall m, graph s !! h = Some m -> m = n) -> 0 <= topological_rank n ->
    validate n (Memory.lookup s) = succeed tt -> Memory.put_node cid n ver s = Some (s', Ok tt) -> grown s'
| grown_other s s' : grown s -> graph s' = graph s -> Memory.admin_distance_cache s' = Memory.admin_distance_cache s -> grown s'.

(** Marking a node and the other writes are such operations. *)
Lemma writes_grow x s s' : grown s -> (forall cid n ver, x <> PutNode cid n ver) -> store x s = Some s' -> grown s'.
Proof.
  intros Hg Hx E. destruct x as [cid n ver|cid h|cid hs|cid hs|cid h w]; [by destruct (Hx cid n ver)|..]; simpl in E; injection E as <-; eapply grown_other; try done.
  - unfold graph, Memory.mark_verified. destruct (Memory.nodes s !! h) as [[n v]|] eqn:En; simpl; [|done]. rewrite fmap_insert. apply insert_id. by rewrite lookup_fmap, En.
  - unfold Memory.mark_verified. by destruct (Memory.nodes s !! h) as [[n v]|].
  - unfold graph, Memory.put_wire_node. by case_bool_decide.
  - unfold Memory.put_wire_node. by case_bool_decide.
Qed.

(** *** What the lookup of such a store answers *)

Record kept (s : Memory.InMemoryStore) : Prop := {
  kept_sound : DagValid.sound (graph s);
  kept_known : distances_known s;
  kept_near h d : Memory.admin_distance_cache s !! h = Some d -> DagValid.near (graph s) h d
}.

Lemma graph_lookup s h : graph s !! h = fst <$> Memory.nodes s !! h.
Proof. apply lookup_fmap. Qed.

Lemma graph_node s h n : graph s !! h = Some n -> exists v, Memory.nodes s !! h = Some (n, v).
Proof. rewrite graph_lookup. intros ([n' v] & Hn & ->)%fmap_Some. by exists v. Qed.

Lemma chain_nonneg fuel s : forall h, 0 <= default 0 (Memory.soft_anchor_chain fuel s h).
Proof.
  induction fuel as [|fuel IH]; intros h; simpl; destruct (Memory.nodes s !! h) as [[n v]|]; simpl; [|lia| |lia].
  all: destruct (content n) as [| | | |[]| | | | | | | |]; simpl; try lia. specialize (IH basis). lia.
Qed.

Lemma chain_step fuel s h n basis cert : graph s !! h = Some n -> content n = Control (SoftAnchor basis cert) ->
  Memory.soft_anchor_chain (S fuel) s h = Some (1 + default 0 (Memory.soft_anchor_chain fuel s basis)).
Proof. intros (v & Hn)%graph_node Ec. simpl. rewrite Hn. simpl. by rewrite Ec. Qed.

(** Three soft anchors in a row are three nodes, so the recursion reaches the last. *)
Lemma chain_of_three s h : DagValid.sound (graph s) -> DagValid.anchors (graph s) 3 h ->
  exists k, get_soft_anchor_chain_length (Memory.lookup s) h = Some k /\ MAX_SOFT_ANCHOR_CHAIN <= k.
Proof.
  intros Hs (n & b & c & Hn & Ec & n1 & b1 & c1 & Hn1 & Ec1 & n2 & b2 & c2 & Hn2 & Ec2 & _).
  assert (b <> h) as Hne.
  { intros ->. destruct (Hs h n Hn) as [_ Hpl]. destruct (DagValid.placed_anchor _ _ Hpl _ _ Ec) as [Ep _].
    destruct (DagValid.placed_parent _ _ Hpl h) as (m & Hm & Hlt); [rewrite Ep; by left|]. rewrite Hn in Hm. injection Hm as <-. lia. }
  assert (2 <= size (Memory.nodes s))%nat as Hsize.
  { replace (size (Memory.nodes s)) with (size (graph s)) by apply map_size_fmap. rewrite <- (insert_delete_id (graph s) h n Hn), map_size_insert_None by apply lookup_delete_eq.
    rewrite <- (insert_delete_id (delete h (graph s)) b n1) by by rewrite lookup_delete_ne. rewrite map_size_insert_None by apply lookup_delete_eq. lia. }
  change (get_soft_anchor_chain_length (Memory.lookup s) h) with (Memory.soft_anchor_chain (S (size (Memory.nodes s))) s h).
  destruct (size (Memory.nodes s)) as [|[|k]]; [lia..|]. rewrite (chain_step _ s h n b c Hn Ec), (chain_step _ s b n1 b1 c1 Hn1 Ec1), (chain_step _ s b1 n2 b2 c2 Hn2 Ec2). cbn [default from_option id].
  eexists. split; [done|]. pose proof (chain_nonneg k s b2). unfold MAX_SOFT_ANCHOR_CHAIN. lia.
Qed.

Lemma lookup_faithful s : kept s -> DagValid.faithful (graph s) (Memory.lookup s).
Proof.
  intros [Hs Hk Hn]. split; simpl.
  - intros h. rewrite graph_lookup. unfold Memory.get_rank. by destruct (Memory.nodes s !! h).
  - intros h. rewrite graph_lookup. unfold Memory.get_node_type. by destruct (Memory.nodes s !! h).
  - intros h d. rewrite distance_read by done. apply Hn.
  - intros h. by apply chain_of_three.
Qed.

(** *** Growing *)

Lemma least_from (ds : list (option Z)) : forall m,
  let f := fun m (d : option Z) => match d with Some d => Z.min m d | None => m end in
  foldl f m ds <= m /\ (forall d, Some d ∈ ds -> foldl f m ds <= d) /\ (foldl f m ds = m \/ Some (foldl f m ds) ∈ ds).
Proof.
  induction ds as [|d ds IH]; intros m f; simpl; [split_and!; [lia|by intros d ?%not_elem_of_nil|by left]|].
  destruct (IH (f m d)) as (Hle & Hall & Hex). fold f in Hle, Hall, Hex. split_and!.
  - destruct d; simpl in *; lia.
  - intros x [<-|Hx]%elem_of_cons; [simpl in *; lia|by apply Hall].
  - destruct Hex as [E|Hin]; [|right; by right]. rewrite E. destruct d as [d|]; simpl; [|by left]. destruct (Z.min_spec m d) as [[_ ->]|[_ ->]]; [by left|right; by left].
Qed.

(** The distance that [put_node] remembers. *)
Lemma put_near s n h : kept s -> validate n (Memory.lookup s) = succeed tt -> graph s ⊆ <[h := n]> (graph s) ->
  DagValid.near (<[h := n]> (graph s)) h (if bool_decide (node_type n = Admin) then 0
     else Memory.distance_after (Memory.least_distance ((fun p => Memory.admin_distance_cache s !! p) <$> parents n))).
Proof.
  intros Hk (_ & _ & _ & _ & Hn)%DagValid.validate_parents Hsub. case_bool_decide as Ea; [eapply DagValid.near_admin; [apply lookup_insert_eq|done]|].
  assert (node_type n = ContentNode) as Ec by by destruct (node_type n). destruct (decide (parents n = [])) as [Ep|Ep].
  { rewrite Ep. eapply DagValid.near_root; [apply lookup_insert_eq|done|done]. }
  destruct (Hn Ec Ep) as (_ & p & d & Hp & Hd & Hlt). simpl in Hd. rewrite distance_read in Hd by apply Hk. unfold Memory.least_distance.
  destruct (least_from ((fun p => Memory.admin_distance_cache s !! p) <$> parents n) u64_max) as (_ & Hall & Hex). set (m := foldl _ _ _) in *.
  assert (m <= d) as Hm by (apply Hall; apply list_elem_of_fmap; by exists p). unfold Memory.distance_after, MAX_ANCESTRY_HOPS in *.
  assert (m <> u64_max) as Hne by (unfold u64_max; lia). destruct Hex as [|Hex]; [done|]. apply list_elem_of_fmap in Hex as (q & Eq & Hq).
  destruct (Z.eqb_spec m u64_max); [done|]. eapply DagValid.near_parent; [apply lookup_insert_eq|exact Hq|]. eapply DagValid.near_mono; [done|]. apply (kept_near _ Hk). by rewrite <- Eq.
Qed.

Lemma put_kept s cid n ver h s' : kept s -> hash n = Some h -> (forall m, graph s !! h = Some m -> m = n) -> 0 <= topological_rank n ->
  validate n (Memory.lookup s) = succeed tt -> Memory.put_node cid n ver s = Some (s', Ok tt) -> kept s'.
Proof.
  intros Hk Hh Hsame Hr Hv E. assert (distances_known s') as Hd'.
  { eapply (store_distances (PutNode cid n ver)); [apply Hk|]. simpl. by rewrite E. }
  unfold Memory.put_node in E. rewrite Hh in E. simpl in E. injection E as E.
  assert (graph s' = <[h := n]> (graph s)) as Eg by (subst s'; unfold graph; by destruct ver; simpl; rewrite fmap_insert).
  assert (graph s ⊆ <[h := n]> (graph s)) as Hsub.
  { apply map_subseteq_spec. intros k m Hm. destruct (decide (k = h)) as [->|Hne]; [rewrite lookup_insert_eq; f_equal; symmetry; by apply Hsame|by rewrite lookup_insert_ne]. }
  split; [|done|].
  - rewrite Eg. destruct (graph s !! h) as [m|] eqn:Em.
    + rewrite (Hsame m eq_refl) in Em. rewrite insert_id by done. apply Hk.
    + eapply DagValid.sound_insert; [apply Hk|done|by apply lookup_faithful|done|done].
  - rewrite Eg. intros k d Hkd. subst s'. assert (Memory.admin_distance_cache s !! k = Some d -> DagValid.near (<[h:=n]> (graph s)) k d) as Hold.
    { intros Hc. eapply DagValid.near_mono; [done|by apply (kept_near _ Hk)]. }
    destruct ver; simpl in Hkd; (destruct (decide (k = h)) as [->|Hne]; [rewrite lookup_insert_eq in Hkd; injection Hkd as <-; by apply put_near|rewrite lookup_insert_ne in Hkd by done; by apply Hold]).
Qed.

Lemma grown_kept s : grown s -> kept s.
Proof.
  induction 1 as [|s cid n ver h s' _ IH Hh Hsame Hr Hv E|s s' _ IH Eg Ed].
  - split; [by intros h n Hn|by intros h [? ?]|done].
  - by eapply put_kept.
  - destruct IH as [Hs Hk Hn]. split; [by rewrite Eg| |by rewrite Ed, Eg]. intros h [[n v] Hh]. rewrite Ed. apply Hk.
    assert (graph s !! h = Some n) as (v' & ->)%graph_node by (by rewrite <- Eg, graph_lookup, Hh). by eexists.
Qed.

(** C2: An in-memory store into which only nodes are put that [validate] accepts
    against the store itself has no cycles.  All parents of a node are there, with
    lower ranks; those of an admin node that is no soft anchor are admin nodes; a soft
    anchor has its basis as its only parent (of whatever kind, see
    [content_basis_accepted]), and no four soft anchors follow each other.
    Every content node is at most 500 steps away from an admin node or, counting ten
    steps for it, from content without parents, which is accepted as well
    ([rootless_content_accepted]). *)
Theorem validated_graph s : grown s ->
  (forall h, ~ tc (DagValid.parent_of (graph s)) h h) /\ (forall h, ~ DagValid.anchors (graph s) 4 h) /\
  forall h n, graph s !! h = Some n ->
    (forall p, p ∈ parents n -> exists m, graph s !! p = Some m /\ topological_rank m < topological_rank n /\
      (node_type n = Admin -> is_soft_anchor (content n) = false -> node_type m = Admin)) /\
    (forall basis cert, content n = Control (SoftAnchor basis cert) -> parents n = [basis]) /\
    (node_type n = ContentNode -> exists d, DagValid.near (graph s) h d /\ d <= MAX_ANCESTRY_HOPS).
Proof. intros [Hs _ _]%grown_kept. by apply DagValid.sound_graph. Qed.

(** C39: The effective timestamp of a node in such a store is the latest timestamp
    among the node and its ancestors, and is found by a recursion no deeper than
    the rank. *)
Theorem effective_timestamp_latest s k h n : grown s -> graph s !! h = Some n -> topological_rank n < Z.of_nat k ->
  exists t, effective_timestamp k (Memory.get_node s) n = Some t /\
    (forall p m, rtc (DagValid.parent_of (graph s)) p h -> graph s !! p = Some m -> network_timestamp m <= t) /\
    exists p m, rtc (DagValid.parent_of (graph s)) p h /\ graph s !! p = Some m /\ network_timestamp m = t.
Proof.
  intros [Hs _ _]%grown_kept Hn Hk. destruct (DagValid.effective_spec (graph s) k h n Hs Hn Hk) as (t & E & Ht). exists t. split; [|exact Ht]. rewrite <- E.
  clear. revert n. induction k as [|k IH]; [done|]. intros n. simpl. generalize (Some (network_timestamp n)). induction (parents n) as [|p ps IHp]; intros acc; [done|]. simpl. rewrite IHp. f_equal.
  destruct acc as [t|]; [|done]. simpl. unfold Memory.get_node at 1. rewrite graph_lookup. destruct (fst <$> Memory.nodes s !! p) as [m|]; [|done]. simpl. by rewrite IH.
Qed.

End Graph.

Import Models Format EngineModels.

(** A node is put, marked, and made a head. *)
Definition note : MerkleNode := mkNode [] (device 1) (device 1) 1 0 5 (Text [104; 105]) [] (Signature (replicate 64 0)) 0.
Definition note_hash : NodeHash := default zero_hash (hash note).
Definition note_writes : list write := [PutNode room note false; MarkVerified room note_hash; SetHeads room [note_hash]].

Lemma note_permitted : all_permitted note_writes Memory.new = true.
Proof. by vm_compute. Qed.

Lemma overlay_refines_store_witness : exists c (s : Memory.InMemoryStore), pend_all note_writes empty_cache = Some c /\ store_all note_writes Memory.new = Some s /\
  Overlay.is_verified c Memory.new note_hash = true /\ Engine.is_verified s note_hash = true /\ Engine.get_heads s room = [note_hash].
Proof.
  destruct (observe (pend_all note_writes empty_cache) (fun c => (Overlay.is_verified c Memory.new note_hash, Overlay.get_heads c Memory.new room)) (true, [note_hash]))
    as (c & E & Hc); [vm_compute; reflexivity|]. injection Hc as Hv Hh.
  destruct (overlay_refines_store note_writes c Memory.new note_permitted E) as (s & Es & Hn & Hs). exists c, s. split; [exact E|]. split; [exact Es|]. split; [exact Hv|].
  destruct (Hn note_hash) as (_ & _ & <- & _). destruct (Hs room) as [<- _]. split; [exact Hv|exact Hh].
Defined.

(** Other reads of the overlay do not agree with the store: the last sequence number is
    that of the last write and not the highest; a range of hashes has pending nodes
    that are not verified; a stored node that has been marked as verified in the cache
    is not listed by type. *)
Definition later : MerkleNode := note <| sequence_number := 4 |>.
Definition reads_after (xs : list write) {A} (over : PendingCache -> Memory.InMemoryStore -> A) (st : Memory.InMemoryStore) : option A :=
  c ← pend_all xs empty_cache; Some (over c st).
Example other_reads_differ :
  let seq := [PutNode room later true; PutNode room note true] in
  let one := [PutNode room note false] in
  let mark := [MarkVerified room note_hash] in
  let range := SyncSession.mkRange 0 9 in
  let st := default Memory.new (store_all one Memory.new) in
  (reads_after seq (fun c st => Overlay.get_last_sequence_number c st room (device 1)) Memory.new = Some 1 /\
   (fun s => Memory.get_last_sequence_number s room (device 1)) <$> store_all seq Memory.new = Some 4) /\
  (reads_after one (fun c st => Overlay.get_node_hashes_in_range c st room range) Memory.new = Some (Ok [note_hash]) /\
   (fun s => Memory.get_node_hashes_in_range s room range) <$> store_all one Memory.new = Some (Ok [])) /\
  (reads_after mark (fun c st => Overlay.get_verified_nodes_by_type c st room ContentNode) st = Some (succeed []) /\
   (fun s => Memory.get_verified_nodes_by_type s room ContentNode) <$> store_all mark st = Some (Ok [note])).
Proof. by vm_compute. Qed.

(** *** A small graph: a genesis node, a text after it, a text without parents, and a
    soft anchor on a text *)

Definition put_in (n : MerkleNode) (s : Memory.InMemoryStore) : Memory.InMemoryStore := default s (fst <$> Memory.put_node room n true s).
Lemma put_in_grown n s : grown s -> (exists h, hash n = Some h /\ graph s !! h = None) -> 0 <= topological_rank n -> validate n (Memory.lookup s) = succeed tt -> grown (put_in n s).
Proof.
  intros Hg (h & Hh & Hnew) Hr Hv. eapply (grown_put s room n true h); [done|done|by rewrite Hnew|done|done|]. unfold put_in, Memory.put_node. by rewrite Hh.
Qed.

Definition text_at (ps : list NodeHash) (rank : Z) : MerkleNode :=
  mkNode ps (device 1) (device 1) 1 rank 4000 (Text [104; 105]) [] (EphemeralSignature DagCodec.sig0) 0.
Definition hash_of (n : MerkleNode) : NodeHash := default zero_hash (hash n).
Definition founded : Memory.InMemoryStore := put_in DagCodec.genesis_node Memory.new.
Definition answered : Memory.InMemoryStore := put_in (text_at [hash_of DagCodec.genesis_node] 1) founded.

Lemma answered_grown : grown answered.
Proof.
  apply put_in_grown; [apply put_in_grown; [apply grown_new|eexists; split; [vm_compute; reflexivity|by vm_compute]|done|by vm_compute]|..]; [|done|by vm_compute].
  eexists; split; [vm_compute; reflexivity|by vm_compute].
Qed.

Lemma validated_graph_witness : graph answered !! hash_of (text_at [hash_of DagCodec.genesis_node] 1) = Some (text_at [hash_of DagCodec.genesis_node] 1) /\
  exists d, DagValid.near (graph answered) (hash_of (text_at [hash_of DagCodec.genesis_node] 1)) d /\ d <= MAX_ANCESTRY_HOPS.
Proof.
  assert (graph answered !! hash_of (text_at [hash_of DagCodec.genesis_node] 1) = Some (text_at [hash_of DagCodec.genesis_node] 1)) as E by by vm_compute.
  split; [exact E|]. destruct (validated_graph answered answered_grown) as (_ & _ & Hall). by apply (Hall _ _ E).
Defined.

Lemma effective_timestamp_latest_witness : exists t, effective_timestamp 2 (Memory.get_node answered) (text_at [hash_of DagCodec.genesis_node] 1) = Some t /\
  forall m, graph answered !! hash_of DagCodec.genesis_node = Some m -> network_timestamp m <= t.
Proof.
  assert (graph answered !! hash_of (text_at [hash_of DagCodec.genesis_node] 1) = Some (text_at [hash_of DagCodec.genesis_node] 1)) as E by by vm_compute.
  assert (topological_rank (text_at [hash_of DagCodec.genesis_node] 1) < Z.of_nat 2) as Hk by by vm_compute.
  destruct (effective_timestamp_latest answered 2 _ _ answered_grown E Hk) as (t & Et & Hall & _). exists t. split; [exact Et|]. intros m Hm. apply (Hall (hash_of DagCodec.genesis_node)); [|exact Hm].
  apply rtc_once. exists (text_at [hash_of DagCodec.genesis_node] 1). split; [exact E|]. apply list_elem_of_here.
Defined.

(** Content without parents is accepted by an empty store, without a path to any
    genesis node. *)
Example rootless_content_accepted : validate (text_at [] 0) (Memory.lookup Memory.new) = succeed tt.
Proof. by vm_compute. Qed.

(** A soft anchor is accepted on a content node. *)
Definition anchor_on (basis : NodeHash) (rank : Z) : MerkleNode :=
  let n := mkNode [basis] (device 1) (device 1) 2 rank 5000 (Control (SoftAnchor basis (mkCert Identity.DELEGATION_VERSION room (device 11) Permissions.ALL 9000 (replicate 64 0)))) []
             (EphemeralSignature DagCodec.sig0) 0 in
  match serialize_for_auth n with Some b => n <| authentication := Signature (sign (device 1) b) |> | None => n end.
Example content_basis_accepted : let text := text_at [hash_of DagCodec.genesis_node] 1 in
  get_node_type (Memory.lookup answered) (hash_of text) = Some ContentNode /\ validate (anchor_on (hash_of text) 2) (Memory.lookup answered) = succeed tt.
Proof. by vm_compute. Qed.

End MemoryTheory.
