(* ===== verification/Verify.v ===== *)
(** Checks of nodes by the engine ([engine/processor/verification.rs], second half):
    signatures of epochs, permissions, and the second look at nodes that are
    speculative or were verified before. *)

From S2P Require Import Prelude Protocol MsgPack ToxTypes Derive Iblt Merkle Dag DagWire Identity Conversation SyncSession Cas Clock Messages Monad Engine Overlay.
From stdpp Require Import gmap sorting strings.
#[local] Open Scope Z_scope.
#[local] Open Scope list_scope.
#[local] Open Scope monad_scope.

Module Verify.
Import Dag Crypto DagWire Engine.

Definition MAX_CLOCK_SKEW_MS : Z := 600000.
Definition VOUCH_THRESHOLD : Z := 1.

(** The epoch whose key signs a node: a distribution of sender keys is signed with the
    key of the epoch before. *)
Definition signing_epoch_of (n : MerkleNode) : Z :=
  let epoch := Conversation.epoch_of (sequence_number n) in
  if is_skd (content n) then sat_sub epoch 1 else epoch.

Definition is_bootstrap (c : Content) : bool :=
  match c with
  | KeyWrap _ _ _ _ | HistoryExport _ _ _ _ _ | SenderKeyDistribution _ _ _ _ => true
  | Control (Genesis _ _ _ _ _ _) | Control (AuthorizeDevice _) | Control (AnchorSnapshot _ _) => true
  | _ => false
  end.

(** [Err]s that leave a node waiting for others. *)
Definition awaits_parents (e : ValidationError) : bool :=
  match e with MissingParents _ | TopologicalRankViolation _ _ => true | _ => false end.

Section Verify.
Context `{Rmp} `{Blake3Hash} `{Ed25519} `{StrictVerify} `{HashOrder} `{LruCache Identity.PathKey Z} `{LruCache NodeHash (gset NodeHash)} `{StdRng} `{TimeProvider}
  {S : Type} `{NodeStore S}.
(** A bound on the loops; [Some] results do not depend on it. *)
Variable fuel : nat.

#[local] Abbreviation Op A := (M (World S) A).
#[local] Abbreviation Fallible A := (M (World S) (result MerkleToxError A)).

(** ** Authenticity *)

(** The MAC of a genesis node, in the first half of its signature, under the first
    key of the conversation. *)
Definition genesis_mac_ok (e : t) (cid : ConversationId) (n : MerkleNode) (sig : Ed25519Signature) : option bool :=
  match (s ← established e cid; Conversation.get_keys s 0) with
  | Some keys => auth_data ← serialize_for_auth n; Some (bool_decide (take 32 sig = calculate_mac keys auth_data))
  | None => Some false
  end.

(** The signature with the sender's key of the epoch: over the encrypted node where
    it is known, else over the node in the clear. *)
Definition epoch_signature_ok (e : t) (wire : option WireNode) (n : MerkleNode) (sig : Ed25519Signature) : option bool :=
  match peer_ephemeral_signing_keys e !! (sender_pk n, signing_epoch_of n) with
  | None => Some false
  | Some vk =>
      if negb (key_ok vk) then Some false
      else
        on_wire ← match wire with
                  | Some w => if is_exception_node n then Some false else wire_auth ← serialize_wire_for_auth w; Some (verify_strict vk wire_auth sig)
                  | None => Some false
                  end;
        if (on_wire : bool) then Some true else plain_auth ← serialize_for_auth n; Some (verify_strict vk plain_auth sig)
  end.

(** Whether the authentication of a node holds. *)
Definition authentic (cid : ConversationId) (n : MerkleNode) (h : NodeHash) : Op bool :=
  match authentication n with
  | Signature _ => pure true
  | EphemeralSignature sig =>
      let* e := get_engine in
      if is_genesis (content n) then lift (genesis_mac_ok e cid n sig)
      else let* wire := Overlay.read (fun c st => Overlay.get_wire_node c st h) in lift (epoch_signature_ok e wire n sig)
  end.

(** ** Times *)

(** The oldest of the known parents. *)
Definition min_parent_ts (c : PendingCache) (st : S) (ps : list NodeHash) : Z :=
  foldl (fun t p => match Overlay.get_node c st p with Some n => Z.min t (network_timestamp n) | None => t end) i64_max ps.

(** The time stamp is more than ten minutes before the oldest parent or after now. *)
Definition mistimed (min_parent_ts now : Z) (n : MerkleNode) : option bool :=
  early ← (if negb (min_parent_ts =? i64_max) then lo ← chk_i64 (min_parent_ts - MAX_CLOCK_SKEW_MS); Some (network_timestamp n <? lo) else Some false);
  hi ← chk_i64 (now + MAX_CLOCK_SKEW_MS);
  Some ((early : bool) || (hi <? network_timestamp n)).

(** ** Permissions *)

Definition required_permissions (e : t) (cid : ConversationId) (n : MerkleNode) : Permissions.t :=
  match content n with
  | Control action =>
      match action with
      | AuthorizeDevice _ | RevokeDevice _ _ | SetTitle _ | SetTopic _ | Snapshot _ | AnchorSnapshot _ _ | Genesis _ _ _ _ _ _ => Permissions.ADMIN
      | SoftAnchor _ _ => Permissions.MESSAGE
      | Invite _ =>
          let flags := match conversations e !! cid with Some c => Conversation.flags_of c | None => 0 end in
          if negb (Z.land flags Conversation.FLAG_MEMBER_INVITE =? 0) then Permissions.MESSAGE else Permissions.ADMIN
      | Leave target_pk => if bool_decide (author_pk n = target_pk) then Permissions.NONE else Permissions.ADMIN
      | Announcement _ _ | HandshakePulse => Permissions.NONE
      end
  | KeyWrap _ _ _ _ => Permissions.ADMIN
  | _ => Permissions.MESSAGE
  end.

Definition check_permissions (e : t) (ctx : Identity.CausalContext) (cid : ConversationId) (n : MerkleNode) (now : Z) : result MerkleToxError unit :=
  let actual := Overlay.permissions_of e ctx cid (sender_pk n) (author_pk n) now (topological_rank n) in
  let required := required_permissions e cid n in
  if Permissions.contains actual required then Ok tt else Err (PermissionDenied (sender_pk n) required actual).

(** ** A second look *)

(** [verify_node]: its second result is always empty in the source. *)
Definition verify_node (cid : ConversationId) (n : MerkleNode) : Op bool :=
  let* now := network_time_ms in
  let* r := Overlay.validate_node n in
  match (match r with Ok _ => Some true | Err e => if awaits_parents e then Some false else None end) with
  | None => pure false
  | Some structurally_valid =>
      let* oldest := Overlay.read (fun c st => min_parent_ts c st (parents n)) in
      let* quarantined := lift (mistimed oldest now n) in
      let* ctx := Overlay.causal_context fuel n in
      let* is_authorized := Overlay.is_authorized ctx cid (sender_pk n) (author_pk n) (network_timestamp n) (topological_rank n) in
      if (is_authorized : bool) && negb quarantined then
        let* h := lift (hash n) in
        let* is_authentic :=
          match authentication n with
          | Signature _ => pure true
          | EphemeralSignature sig =>
              let* seen := Overlay.read (fun c st => Overlay.is_verified c st h) in
              if (seen : bool) then pure true
              else
                let* e := get_engine in
                let* wire := Overlay.read (fun c st => Overlay.get_wire_node c st h) in
                lift (epoch_signature_ok e wire n sig)
          end in
        if (is_authentic : bool) && structurally_valid then update_cache (Overlay.mark_verified cid h) ;* pure true else pure false
      else pure false
  end.

Definition default_ok {A} (m : result MerkleToxError (list A)) : list A := match m with Ok l => l | Err _ => [] end.

(** [revalidate_all_verified_nodes] *)
Definition revalidate_all_verified_nodes (cid : ConversationId) : Op (list Effect) :=
  let* st := get_disk in
  let all_verified := merge_sort Overlay.rank_le
    (default_ok (get_verified_nodes_by_type st cid ContentNode) ++ default_ok (get_verified_nodes_by_type st cid Admin)) in
  collect all_verified (fun n =>
    let* ok := verify_node cid n in
    if (ok : bool) then pure []
    else let* h := lift (hash n) in pure [WriteStore cid n false; EmitEvent (NodeInvalidated cid h)]).

(** The event of a node that has been verified. *)
Definition verified_event (e : t) (cid : ConversationId) (h : NodeHash) (n : MerkleNode) : Effect :=
  EmitEvent (if identity_pending_in e cid then NodeIdentityPending cid h n else NodeVerified cid h n).

(** Every session of the conversation records the sender's vouch for the parents. *)
Definition vouch_in_sessions (cid : ConversationId) (n : MerkleNode) (ss : gmap (PhysicalDevicePk * ConversationId) SyncSession.PeerSession) :=
  map_imap (fun k s => Some (if bool_decide (k.2 = cid) then foldl (fun s p => SyncSession.peer_record_vouch s p (sender_pk n)) s (parents n) else s)) ss.

(** [reverify_speculative_for_author] *)
Definition reverify_speculative_for_author (cid : ConversationId) (author : LogicalIdentityPk) : Op (list Effect) :=
  let* st := get_disk in
  collect (get_speculative_nodes st cid) (fun n =>
    if bool_decide (author_pk n = author) then
      let* ok := verify_node cid n in
      if (ok : bool) then
        let* h := lift (hash n) in
        let* st := get_disk in
        let '(st, r) := mark_verified cid h st in
        modify (fun w => w <| disk := st |>) ;*
        match r with
        | Err _ => pure []
        | Ok _ =>
            let* e := get_engine in
            update (fun e => e <| sessions := vouch_in_sessions cid n (sessions e) |>) ;*
            pure [WriteStore cid n true; verified_event e cid h n]
        end
      else pure []
    else pure []).

End Verify.
End Verify.
