(* ===== verification/SideEffects.v ===== *)
(** What a verified node does to the engine
    ([engine/processor/side_effects.rs]): administrative actions, keys, the ratchet,
    and the heads of the graph.

    A revocation or a pulse may rotate the conversation key, which authors nodes that
    have side effects of their own; [rotate] is that operation, tied in
    [Authoring.v]. *)

From S2P Require Import Prelude Protocol MsgPack ToxTypes Derive Iblt Merkle Dag DagWire Identity Conversation SyncSession Cas Clock Messages Monad Engine Overlay Verify.
From stdpp Require Import gmap sorting strings.
#[local] Open Scope Z_scope.
#[local] Open Scope list_scope.
#[local] Open Scope monad_scope.

Module SideEffects.
Import Dag Crypto Engine.

Definition PULSE_DEBOUNCE_MS : Z := 300000.

Section SideEffects.
Context `{Rmp} `{Blake3Hash} `{Ed25519} `{HashOrder} `{LruCache Identity.PathKey Z} `{LruCache NodeHash (gset NodeHash)} `{StdRng} `{TimeProvider}
  {S : Type} `{NodeStore S}.
Variable fuel : nat.

#[local] Abbreviation Op A := (M (World S) A).
#[local] Abbreviation Fallible A := (M (World S) (result MerkleToxError A)).

(** The pre-keys whose signature is the sender's. *)
Definition valid_pre_keys (sender : PhysicalDevicePk) (pre_keys : list SignedPreKey) : list SignedPreKey :=
  if key_ok sender then List.filter (fun k => verify sender (pre_key k) (pre_key_signature k)) pre_keys else [].

Definition set_anchor (cid : ConversationId) (h : NodeHash) (e : t) : t := e <| latest_anchor_hashes := <[cid := h]> (latest_anchor_hashes e) |>.
Definition add_members (cid : ConversationId) (ms : list MemberInfo) (m : Identity.t) : Identity.t :=
  foldl (fun m i => Identity.add_member m cid (member_pk i) (member_role i) (joined_at i)) m ms.

(** The vouches of a revoked device are purged. *)
Definition purge_vouches (cid : ConversationId) (target : PhysicalDevicePk) (e : t) : t :=
  e <| conversations := alter (fun c => Conversation.set_vouchers c (delete target <$> Conversation.vouchers_of c)) cid (conversations e) |>.

(** The loop over the disclosed keys: the [i]-th belongs to epoch [epoch - 1 - i]. *)
Fixpoint disclose (sender : PhysicalDevicePk) (epoch i : Z) (keys : list bytes) (m : gmap (PhysicalDevicePk * Z) bytes) : option (gmap (PhysicalDevicePk * Z) bytes) :=
  match keys with
  | [] => Some m
  | k :: keys =>
      d ← chk_u64 (epoch - 1 - i);
      disclose sender epoch (i + 1) keys (<[(sender, d) := k]> m)
  end.

(** Whether we are an admin at the rank of the node. *)
Definition self_is_admin (ctx : Identity.CausalContext) (cid : ConversationId) (rank now : Z) : Op bool :=
  let* e := get_engine in
  pure (Permissions.contains (Overlay.permissions_of e ctx cid (self_pk e) (self_logical_pk e) now rank) Permissions.ADMIN).

Section Rotation.
(** [rotate_conversation_key_impl(cid, store, post_revocation)] *)
Variable rotate : ConversationId -> bool -> Fallible (list Effect).

(** [if let Ok(effects) = self.rotate(...)] *)
Definition rotate_if_possible (cid : ConversationId) (post_revocation : bool) : Op (list Effect) :=
  let* r := rotate cid post_revocation in pure (match r with Ok fx => fx | Err _ => [] end).

(** A revocation: only its author rotates. *)
Definition on_revocation (ctx : Identity.CausalContext) (cid : ConversationId) (n : MerkleNode) (h : NodeHash) (target : PhysicalDevicePk) : Op (list Effect) :=
  update (fun e => e <| identity_manager := Identity.revoke_device (identity_manager e) cid (sender_pk n) (author_pk n) target (topological_rank n)
                                              (network_timestamp n) h |>) ;*
  update (purge_vouches cid target) ;*
  let* e := get_engine in
  if bool_decide (sender_pk n = self_pk e) then
    let* now := network_time_ms in
    let* admin := self_is_admin ctx cid (topological_rank n) now in
    if (admin : bool) then rotate_if_possible cid true else pure []
  else pure [].

(** A pulse of a rank not yet handled makes an admin rotate, at most every five
    minutes. *)
Definition on_pulse (ctx : Identity.CausalContext) (cid : ConversationId) (n : MerkleNode) : Op (list Effect) :=
  let* e := get_engine in
  let key := (cid, sender_pk n) in
  let max_rank := default 0 (highest_handled_pulse e !! key) in
  if topological_rank n <=? max_rank then update (fun e => e <| highest_handled_pulse := <[key := max_rank]> (highest_handled_pulse e) |>) ;* pure []
  else
    update (fun e => e <| highest_handled_pulse := <[key := topological_rank n]> (highest_handled_pulse e) |>) ;*
    let* now := network_time_ms in
    let* admin := self_is_admin ctx cid (topological_rank n) now in
    if (admin : bool) then
      let* e := get_engine in
      let* should_rotate := lift (match established e cid with
                                  | Some s => d ← chk_i64 (now - Conversation.last_rotation_time_ms s); Some (PULSE_DEBOUNCE_MS <=? d)
                                  | None => Some true
                                  end) in
      if (should_rotate : bool) then rotate_if_possible cid false else pure []
    else pure [].

(** A distribution of sender keys: the signing key of the epoch, the disclosed ones
    of earlier epochs, and a fresh ratchet for the current epoch. *)
Definition on_sender_keys (cid : ConversationId) (n : MerkleNode) (ephemeral_signing_pk : bytes) (disclosed_keys : list bytes) : Op unit :=
  let epoch := Conversation.epoch_of (sequence_number n) in
  let* e := get_engine in
  let has_epoch_key := match established e cid with Some s => bool_decide (is_Some (Conversation.get_keys s epoch)) | None => false end in
  let is_device_signed := match authentication n with Signature _ => true | _ => false end in
  (if has_epoch_key || is_device_signed then
     update (fun e => e <| peer_ephemeral_signing_keys := <[(sender_pk n, epoch) := ephemeral_signing_pk]> (peer_ephemeral_signing_keys e) |>) ;*
     if 0 <? epoch then
       let* disclosed := lift (disclose (sender_pk n) epoch 0 disclosed_keys (disclosed_signing_keys e)) in
       update (fun e => e <| disclosed_signing_keys := disclosed |>)
     else pure tt
   else pure tt) ;*
  update (set_established cid (fun s => if epoch =? Conversation.current_epoch s
    then s <| Conversation.sender_ratchets := delete (sender_pk n) (Conversation.sender_ratchets s) |> else s)).

(** The match on the content. *)
Definition apply_action (ctx : Identity.CausalContext) (cid : ConversationId) (n : MerkleNode) (h : NodeHash) : Fallible (list Effect) :=
  let done (m : Op unit) : Fallible (list Effect) := m ;* good [] in
  match content n with
  | Control (Genesis _ creator_pk _ flags created_at _) => done (
      update (fun e => e <| identity_manager := Identity.add_member (identity_manager e) cid creator_pk 0 created_at |>) ;*
      update (set_anchor cid h) ;*
      update (fun e => e <| conversations := alter (fun c => Conversation.set_genesis_flags c flags) cid (conversations e) |>) ;*
      update (set_established cid (fun s => s <| Conversation.identity_pending := false |>)))
  | Control (AuthorizeDevice cert) =>
      let*? _ := mapping_err IdentityFailed (Overlay.authorize_device ctx cid (author_pk n) cert (network_timestamp n) (topological_rank n) h) in
      done (update (fun e => if bool_decide (cert_device cert = self_pk e) then e <| self_certs := <[cid := cert]> (self_certs e) |> else e))
  | Control (RevokeDevice target _) => let* fx := on_revocation ctx cid n h target in good fx
  | Control (Invite i) => done (
      update (fun e => e <| identity_manager := Identity.add_member (identity_manager e) cid (invitee_pk i) (invite_role i) (network_timestamp n) |>))
  | Control (Leave logical) => done (
      update (fun e => e <| identity_manager := Identity.remove_member (identity_manager e) cid (sender_pk n) (author_pk n) logical (topological_rank n)
                                                  (network_timestamp n) h |>))
  | Control (Announcement pre_keys last_resort_key) => done (
      update (fun e => e <| peer_announcements := <[sender_pk n := Announcement (valid_pre_keys (sender_pk n) pre_keys) last_resort_key]> (peer_announcements e) |>))
  | Control (Snapshot _) => done (update (set_anchor cid h))
  | Control (AnchorSnapshot data _) => done (
      update (set_anchor cid h) ;*
      update (fun e => e <| identity_manager := add_members cid (members data) (identity_manager e) |>) ;*
      let* e := get_engine in
      if existsb (fun m => bool_decide (member_pk m = self_logical_pk e)) (members data) then
        let* now_ms := network_time_ms in
        update (fun e => e <| trust_restored_devices := <[(cid, self_pk e) := now_ms]> (trust_restored_devices e) |>)
      else pure tt)
  | Control (SoftAnchor _ _) => done (update (set_anchor cid h))
  | Control HandshakePulse => let* fx := on_pulse ctx cid n in good fx
  | SenderKeyDistribution _ _ ephemeral_signing_pk disclosed_keys => done (on_sender_keys cid n ephemeral_signing_pk disclosed_keys)
  | _ => good []
  end.

End Rotation.

(** The ratchet of the sender moves on, unless the node skips it. *)
Definition advance_ratchet (cid : ConversationId) (n : MerkleNode) (h : NodeHash) : Op (list Effect) :=
  let* now := network_time_ms in
  let* e := get_engine in
  let epoch := Conversation.epoch_of (sequence_number n) in
  match established e cid with
  | None => pure []
  | Some s =>
      if skips_ratchet n then
        update (set_established cid (fun s => Conversation.track_sender_seq s (sender_pk n) (sequence_number n) epoch)) ;* pure []
      else
        let* (s, keys) := lift (Conversation.peek_keys s (sender_pk n) (sequence_number n) now) in
        update (set_established cid (fun _ => s)) ;*
        match keys with
        | Some (_, k_next) =>
            let '(s, prev_hash) := Conversation.commit_node_key s (sender_pk n) (sequence_number n) k_next h epoch in
            update (set_established cid (fun _ => s)) ;*
            pure (WriteRatchetKey cid h k_next epoch :: match prev_hash with Some prev => [DeleteRatchetKey cid prev] | None => [] end)
        | None => pure []
        end
  end.

(** The heads without the parents of the node, and with the node. *)
Definition next_heads (hs : list NodeHash) (n : MerkleNode) (h : NodeHash) : list NodeHash :=
  let hs := List.filter (fun p => negb (bool_decide (p ∈ parents n))) hs in
  if bool_decide (h ∈ hs) then hs else hs ++ [h].

Definition update_heads (cid : ConversationId) (n : MerkleNode) (h : NodeHash) : Op (list Effect) :=
  if bool_decide (node_type n = Admin) then
    let* hs := Overlay.read (fun c st => Overlay.get_admin_heads c st cid) in
    let hs := next_heads hs n h in
    update_cache (Overlay.set_admin_heads cid hs) ;* pure [UpdateHeads cid hs true]
  else
    let* hs := Overlay.read (fun c st => Overlay.get_heads c st cid) in
    let hs := next_heads hs n h in
    update_cache (Overlay.set_heads cid hs) ;* pure [UpdateHeads cid hs false].

Definition apply_side_effects (rotate : ConversationId -> bool -> Fallible (list Effect)) (cid : ConversationId) (n : MerkleNode) : Fallible (list Effect) :=
  let* ctx := Overlay.causal_context fuel n in
  let* h := lift (hash n) in
  let*? fx := apply_action rotate ctx cid n h in
  let* ratchet := advance_ratchet cid n h in
  let* hd := update_heads cid n h in
  good (fx ++ ratchet ++ hd).

End SideEffects.
End SideEffects.
