(* ===== verification/Authoring.v ===== *)
(** Authoring of nodes ([engine/authoring.rs]): guards, parents and sequence numbers,
    signing and packing, rotation of keys and their distribution.

    [author_node_internal] applies the side effects of the new node, which may rotate
    the key, which authors nodes in turn: the operations take what they call back as
    an argument, and [rotate_at] and [author_node] tie the knots.  The nodes of a
    rotation never rotate again, so the depth given is enough
    ([rotation_depth_irrelevant] in [AuthoringTheory.v]). *)

From S2P Require Import Prelude Protocol MsgPack ToxTypes Derive Iblt Merkle Dag DagWire Identity Conversation SyncSession Cas Clock Messages Monad Engine Overlay Verify SideEffects.
From stdpp Require Import gmap sorting strings.
#[local] Open Scope Z_scope.
#[local] Open Scope list_scope.
#[local] Open Scope monad_scope.

Module Authoring.
Import Dag Crypto DagWire Messages Engine.

Definition MESSAGES_PER_EPOCH : Z := 5000.
Definition EPOCH_DURATION_MS : Z := 7 * 24 * 60 * 60 * 1000.
Definition MESSAGES_PER_ANCHOR : Z := 400.
Definition SOFT_ANCHOR_MIN_HOPS : Z := 400.
Definition SOFT_ANCHOR_MAX_HOPS : Z := 450.
Definition MESSAGES_PER_SENDER_REKEY : Z := 5000.
Definition SENDER_REKEY_DURATION_MS : Z := 7 * 24 * 60 * 60 * 1000.
Definition PRE_KEY_LIFETIME_MS : Z := 30 * 24 * 60 * 60 * 1000.

Definition zero_signature : Ed25519Signature := replicate 64 0.
(** The context without ancestors that the source calls [dummy_ctx]. *)
Definition dummy_ctx : Identity.CausalContext := Identity.mkContext zero_hash ∅.

(** [epoch << 32] on 64 bits. *)
Definition first_seq (epoch : Z) : Z := wrap 64 (Z.shiftl epoch 32).

(** Contents that an observer may author; contents that wait for a KEYWRAP_ACK. *)
Definition is_observer_safe (c : Content) : bool :=
  match c with
  | Control (Announcement _ _) | Control HandshakePulse | KeyWrap _ _ _ _ | SenderKeyDistribution _ _ _ _ => true
  | _ => false
  end.
Definition waits_for_ack (c : Content) : bool :=
  negb (is_observer_safe c) &&
  match c with Control (Genesis _ _ _ _ _ _) | Control (AuthorizeDevice _) | Control (RevokeDevice _ _) => false | _ => true end.
Definition is_healing (c : Content) : bool :=
  match c with Control (Announcement _ _) | Control HandshakePulse => true | _ => false end.
Definition affects_identity (c : Content) : bool :=
  match c with Control (AuthorizeDevice _) | Control (RevokeDevice _ _) | Control (Leave _) => true | _ => false end.
Definition is_history_export (c : Content) : bool := match c with HistoryExport _ _ _ _ _ => true | _ => false end.

Section Authoring.
Context `{Rmp} `{Blake3Hash} `{Ed25519} `{StrictVerify} `{ChaCha20} `{Zstd} `{X25519} `{HashOrder} `{LruCache Identity.PathKey Z} `{LruCache NodeHash (gset NodeHash)}
  `{StdRng} `{TimeProvider} {S : Type} `{NodeStore S}.
Variable fuel : nat.

#[local] Abbreviation Op A := (M (World S) A).
#[local] Abbreviation Fallible A := (M (World S) (result MerkleToxError A)).

(** ** The new node *)

Definition choose_parents (c : PendingCache) (st : S) (cid : ConversationId) (ct : Content) : list NodeHash :=
  let candidates :=
    match ct with
    | Control (SoftAnchor basis _) => [basis]
    | _ =>
        if bool_decide (node_type_of ct = Admin) then Overlay.get_admin_heads c st cid
        else foldl (fun p h => if bool_decide (h ∈ p) then p else p ++ [h]) (Overlay.get_heads c st cid) (Overlay.get_admin_heads c st cid)
    end in
  merge_sort bytes_le (List.filter (Overlay.is_verified c st) candidates).

Definition rank_after (c : PendingCache) (st : S) (ps : list NodeHash) : option Z :=
  match ps with [] => Some 0 | _ => chk_u64 (SyncSession.max_or_0 (omap (Overlay.get_rank c st) ps) + 1) end.

Definition current_epoch_of (e : t) (cid : ConversationId) : Z :=
  match established e cid with Some s => Conversation.current_epoch s | None => 0 end.
Definition get_sender_last_seq (e : t) (cid : ConversationId) : Z :=
  match established e cid with Some s => Conversation.get_sender_last_seq s (self_pk e) | None => 0 end.

(** The last sequence number we used: of the ratchet, the cache or the store. *)
Definition own_last_seq (e : t) (st : S) (cid : ConversationId) : Z :=
  Z.max (Z.max (get_sender_last_seq e cid) (default 0 (last_verified_sequences (pending_cache e) !! (cid, self_pk e))))
    (get_last_sequence_number st cid (self_pk e)).

Definition next_seq (last_seq epoch : Z) : option Z :=
  if Conversation.epoch_of last_seq =? epoch then chk_u64 (last_seq + 1) else Some (Z.lor (first_seq epoch) 1).

Definition draft (cid : ConversationId) (ct : Content) (meta : bytes) (use_epoch : option Z) (now : Z) : Op MerkleNode :=
  let* ps := Overlay.read (fun c st => choose_parents c st cid ct) in
  let* rank := Overlay.read (fun c st => rank_after c st ps) in
  let* rank := lift rank in
  let* e := get_engine in
  let* st := get_disk in
  let* seq := lift (next_seq (own_last_seq e st cid) (default (current_epoch_of e cid) use_epoch)) in
  pure (mkNode ps (self_logical_pk e) (self_pk e) seq rank now ct meta (EphemeralSignature zero_signature) 0).

(** ** Keys *)

(** [self_ephemeral_signing_keys.entry(epoch).or_insert_with(random)] *)
Definition signing_key (epoch : Z) : Op bytes :=
  let* e := get_engine in
  match self_ephemeral_signing_keys e !! epoch with
  | Some sk => pure sk
  | None =>
      let* sk := random_bytes 32 in
      update (fun e => e <| self_ephemeral_signing_keys := <[epoch := sk]> (self_ephemeral_signing_keys e) |>) ;*
      pure sk
  end.

(** The key of an epoch, or of the current one. *)
Definition keys_or_current (s : Conversation.Established) (epoch : Z) : option ConversationKeys :=
  match Conversation.get_keys s epoch with Some k => Some k | None => Conversation.get_keys s (Conversation.current_epoch s) end.
Definition k_conv_or_zero (s : Conversation.Established) (epoch : Z) : KConv :=
  match keys_or_current s epoch with Some k => k_conv k | None => replicate 32 0 end.
Definition own_sender_key (s : Conversation.Established) (sender : PhysicalDevicePk) (epoch : Z) (k : KConv) : SenderKey :=
  default (ratchet_init_sender k sender) (Conversation.sender_keys s !! (sender, epoch)).

Definition fresh_pack_keys (k_msg : MessageKey) (k_header : HeaderKey) : Op PackKeys :=
  let* routing_nonce := random_bytes 12 in
  let* payload_nonce := random_bytes 12 in
  pure (PackContent (mkPackKeys k_msg k_header routing_nonce payload_nonce)).

(** The keys that encrypt a content node: those of the conversation for an export of
    history, those of the ratchet otherwise. *)
Definition content_pack_keys (cid : ConversationId) (n : MerkleNode) (now : Z) : Op (option PackKeys) :=
  let* e := get_engine in
  let epoch := Conversation.epoch_of (sequence_number n) in
  match established e cid with
  | None => pure None
  | Some s =>
      if is_history_export (content n) then
        match keys_or_current s epoch with
        | Some k => let* pk := fresh_pack_keys (derive_k_payload_export (k_conv k)) (derive_k_header_export (k_conv k)) in pure (Some pk)
        | None => pure None
        end
      else
        let* (s, keys) := lift (Conversation.peek_keys s (sender_pk n) (sequence_number n) now) in
        update (set_established cid (fun _ => s)) ;*
        match keys with
        | Some (k_msg, _) =>
            let k := k_conv_or_zero s epoch in
            let* pk := fresh_pack_keys k_msg (derive_k_header_epoch k (own_sender_key s (sender_pk n) epoch k)) in pure (Some pk)
        | None => pure None
        end
  end.

(** [if let Ok(wire) = node.pack_wire(&keys, true)] *)
Definition pack_with (n : MerkleNode) (keys : option PackKeys) : Op (option WireNode) :=
  match keys with
  | None => pure None
  | Some k => let* r := lift (pack_wire n k true) in pure (match r with Ok w => Some w | Err _ => None end)
  end.

(** ** Signing *)

(** The epoch whose key signs: a distribution of sender keys takes the one before. *)
Definition signing_epoch (e : t) (cid : ConversationId) (ct : Content) (use_epoch : option Z) : Z :=
  let current := default (current_epoch_of e cid) use_epoch in
  if is_skd ct && (0 <? current) then current - 1 else current.

Definition needs_device_sig (e : t) (ct : Content) (use_epoch : option Z) : bool :=
  let eph_epoch := default 0 use_epoch in
  is_skd ct && ((eph_epoch =? 0) || negb (bool_decide (is_Some (self_ephemeral_signing_keys e !! sat_sub eph_epoch 1)))).

(** Path 1: the device signs. *)
Definition sign_as_device (n : MerkleNode) : Fallible MerkleNode :=
  let* e := get_engine in
  match self_sk e with
  | Some sk => let* auth_data := lift (serialize_for_auth n) in good (n <| authentication := Signature (sign sk auth_data) |>)
  | None => fails (CryptoError "Missing signing key for Admin node")
  end.

(** The signature with the key of the epoch. *)
Definition sign_with_epoch (cid : ConversationId) (n : MerkleNode) (use_epoch : option Z) (auth_data : bytes) : Op MerkleNode :=
  let* e := get_engine in
  let* sk := signing_key (signing_epoch e cid (content n) use_epoch) in
  pure (n <| authentication := EphemeralSignature (sign sk auth_data) |>).

(** One message more, of the conversation and of ours. *)
Definition count_message (cid : ConversationId) (n : MerkleNode) : Op unit :=
  let* e := get_engine in
  match established e cid with
  | Some s =>
      if is_history_export (content n) then pure tt
      else
        let* c1 := lift (chk_u32 (Conversation.message_count s + 1)) in
        let* c2 := lift (chk_u32 (Conversation.self_message_count s + 1)) in
        update (set_established cid (fun s => s <| Conversation.message_count := c1 |> <| Conversation.self_message_count := c2 |>))
  | None => pure tt
  end.

(** Path 3: a content node is encrypted, then the encrypted node is signed. *)
Definition sign_content (cid : ConversationId) (n : MerkleNode) (use_epoch : option Z) (now : Z) : Op (MerkleNode * option WireNode) :=
  count_message cid n ;*
  let* keys := content_pack_keys cid n now in
  let* wire := pack_with n keys in
  let* auth_data := lift (match wire with Some w => serialize_wire_for_auth w | None => serialize_for_auth n end) in
  let* n := sign_with_epoch cid n use_epoch auth_data in
  pure (n, match wire with
           | Some w => Some (mkWire (wire_parents w) (sender_hint w) (encrypted_routing w) (payload_data w) (wire_rank w) (wire_flags w) (authentication n))
           | None => None
           end).

Definition sign_node (cid : ConversationId) (n : MerkleNode) (use_epoch : option Z) (now : Z) : Fallible (MerkleNode * option WireNode) :=
  let* e := get_engine in
  let is_content_control := is_control (content n) && bool_decide (node_type n = ContentNode) in
  if bool_decide (node_type n = Admin) || needs_device_sig e (content n) use_epoch || is_content_control then
    let*? n := sign_as_device n in good (n, None)
  else if is_exception_node n then
    let* auth_data := lift (serialize_for_auth n) in
    let* n := sign_with_epoch cid n use_epoch auth_data in good (n, None)
  else let* r := sign_content cid n use_epoch now in good r.

(** The encrypted or cleartext form that is stored beside the node. *)
Definition keep_wire (cid : ConversationId) (n : MerkleNode) (h : NodeHash) (content_wire : option WireNode) (now : Z) : Op (option WireNode) :=
  let keep w := update_cache (Overlay.put_wire_node cid h w) ;* pure (Some w) in
  match content_wire with
  | Some w => keep w
  | None =>
      let* e := get_engine in
      match established e cid with
      | None => pure None
      | Some _ =>
          let* keys := (if is_exception_node n then pure (Some PackException) else content_pack_keys cid n now) in
          let* wire := pack_with n keys in
          match wire with Some w => keep w | None => pure None end
      end
  end.

(** ** Peers *)

(** Every session of the conversation advertises the new head alone. *)
Definition advertise_head (cid : ConversationId) (h : NodeHash) (e : t) : t :=
  e <| sessions := map_imap (fun k s => Some (if bool_decide (k.2 = cid)
         then SyncSession.on_peer_common (fun c => c <| SyncSession.local_heads := {[h]} |> <| SyncSession.heads_dirty := true |>) s else s)) (sessions e) |>.

Definition is_active_session (s : SyncSession.PeerSession) : bool := match s with SyncSession.ActivePeer _ => true | _ => false end.
(** The peers of the active sessions of a conversation. *)
Definition active_peers (e : t) (cid : ConversationId) : list PhysicalDevicePk :=
  (fun p => p.1.1) <$> List.filter (fun p => bool_decide (p.1.2 = cid) && is_active_session p.2) (iterate (sessions e)).
Definition gossip (e : t) (cid : ConversationId) (n : MerkleNode) (h : NodeHash) : list Effect :=
  if bool_decide (node_type n = Admin) then (fun p => SendPacket p (AdminGossip cid h)) <$> active_peers e cid else [].

(** ** [author_node_internal] *)

Section Internal.
Variable rotate : ConversationId -> bool -> Fallible (list Effect).

Definition author_node_internal (cid : ConversationId) (ct : Content) (meta : bytes) (use_epoch : option Z) : Fallible (list Effect) :=
  let* now := network_time_ms in
  let* n := draft cid ct meta use_epoch now in
  let*? (n, content_wire) := sign_node cid n use_epoch now in
  let* h := lift (hash n) in
  let* e := get_engine in
  let* c := lift (Overlay.put_node cid n true (pending_cache e)) in
  update_cache (fun _ => c) ;*
  let* wire := keep_wire cid n h content_wire now in
  let* e := get_engine in
  let metadata_effects := match established e cid with
                          | Some s => if bool_decide (node_type n = Admin) then []
                                      else [WriteEpochMetadata cid (Conversation.message_count s) (Conversation.last_rotation_time_ms s)]
                          | None => []
                          end in
  let wire_effects := match wire with Some w => [WriteWireNode cid h w] | None => [] end in
  update (advertise_head cid h) ;*
  let*? side_effects := SideEffects.apply_side_effects fuel rotate cid n in
  let* invalidated := (if affects_identity (content n) then Verify.revalidate_all_verified_nodes fuel cid else pure []) in
  let* e := get_engine in
  good (metadata_effects ++ [WriteStore cid n true] ++ wire_effects ++ side_effects ++ invalidated ++ [EmitEvent (NodeVerified cid h n)] ++ gossip e cid n h).

End Internal.

(** ** Wrapping keys for devices *)

(** An entry for one recipient: its announced key, a one-time key if there is one, and
    [authenticated] adds our own secret. *)
Definition wrap_for (e_sk : bytes) (authenticated : bool) (payload : bytes) (recipient : PhysicalDevicePk) : Op WrappedKey :=
  let* spk := resolve_recipient_spk recipient in
  let* opk := consume_recipient_opk recipient in
  let* e := get_engine in
  let auth_secret := if authenticated then (fun sk => diffie_hellman sk spk) <$> self_dh_sk e else None in
  pure (mkWrapped recipient (match opk with Some (_, id) => id | None => zero_hash end)
          (ecies_wrap diffie_hellman e_sk spk (fst <$> opk) auth_secret payload)).

(** The loop over the recipients, ourselves left out. *)
Definition wrap_for_all (e_sk : bytes) (authenticated : bool) (payload : bytes) (recipients : list PhysicalDevicePk) : Op (list WrappedKey) :=
  let* e := get_engine in
  collect (List.filter (fun r => negb (bool_decide (r = self_pk e))) recipients)
    (fun r => let* w := wrap_for e_sk authenticated payload r in pure [w]).

(** An announcement with nothing but the last-resort key. *)
Definition only_last_resort (e : t) (recipient : PhysicalDevicePk) : bool :=
  match peer_announcements e !! recipient with Some (Announcement [] _) => true | _ => false end.

Definition sent_to (ws : list WrappedKey) (s : Conversation.Established) : Conversation.Established :=
  s <| Conversation.shared_keys_sent_to := foldl (fun X w => X ∪ {[recipient_pk w]}) (Conversation.shared_keys_sent_to s) ws |>.

(** Chain key, last sequence number and header key. *)
Definition triplet (chain_key : ChainKey) (last_seq : Z) (k_header : HeaderKey) : bytes := chain_key ++ be_bytes 8 last_seq ++ k_header.

(** The header key that goes with a new sender key. *)
Definition header_for (e : t) (cid : ConversationId) (epoch : Z) (sender_key : SenderKey) : HeaderKey :=
  match established e cid with Some s => derive_k_header_epoch (k_conv_or_zero s epoch) sender_key | None => replicate 32 0 end.

(** ** Sender keys and rotation *)

Section Keys.
Variable author : ConversationId -> Content -> bytes -> option Z -> Fallible (list Effect).

Definition sender_rekey (cid : ConversationId) : Fallible (list Effect) :=
  let* e := get_engine in
  match established e cid with
  | None => good []
  | Some s =>
      let epoch := Conversation.current_epoch s in
      let* sender_key := random_bytes 32 in
      let* rekeyed := network_time_ms in
      update (fun e => set_established cid (fun s =>
        s <| Conversation.sender_keys := <[(self_pk e, epoch) := sender_key]> (Conversation.sender_keys s) |>
          <| Conversation.self_message_count := 0 |>
          <| Conversation.self_last_rekey_time_ms := rekeyed |>
          <| Conversation.shared_keys_sent_to := ∅ |>) e) ;*
      let* eph_sk := signing_key epoch in
      let* e := get_engine in
      let payload := triplet sender_key (get_sender_last_seq e cid) (header_for e cid epoch sender_key) in
      let* now := network_time_ms in
      let* e_sk := random_bytes 32 in
      let* recipients := Overlay.list_active_authorized_devices dummy_ctx cid now u64_max in
      let* wrapped_keys := wrap_for_all e_sk true payload recipients in
      update (set_established cid (sent_to wrapped_keys)) ;*
      author cid (SenderKeyDistribution (x25519_public e_sk) wrapped_keys (verifying_key eph_sk) []) [] (Some epoch)
  end.

Definition author_sender_key_distribution (cid : ConversationId) (new_generation : Z) (old_generation : option Z) : Fallible (list Effect) :=
  let* new_eph_sk := signing_key new_generation in
  let* e := get_engine in
  let disclosed_keys := match (old ← old_generation; self_ephemeral_signing_keys e !! old) with Some sk => [sk] | None => [] end in
  let* e_sk := random_bytes 32 in
  let* sender_key := random_bytes 32 in
  update (fun e => set_established cid (fun s => s <| Conversation.sender_keys := <[(self_pk e, new_generation) := sender_key]> (Conversation.sender_keys s) |>) e) ;*
  let* e := get_engine in
  let payload := triplet sender_key (first_seq new_generation) (header_for e cid new_generation sender_key) in
  let* now := network_time_ms in
  match established e cid with
  | None => fails (OtherError "Cannot author SKD: conversation not established")
  | Some _ =>
      let* recipients := Overlay.list_active_authorized_devices dummy_ctx cid now u64_max in
      let* wrapped_keys := wrap_for_all e_sk true payload recipients in
      update (set_established cid (sent_to wrapped_keys)) ;*
      author cid (SenderKeyDistribution (x25519_public e_sk) wrapped_keys (verifying_key new_eph_sk) disclosed_keys) [] (Some new_generation)
  end.

(** A distribution of our present ratchet to devices that came later. *)
Definition author_jit_sender_key_distribution (cid : ConversationId) (targets : list PhysicalDevicePk) : Fallible (list Effect) :=
  let* e := get_engine in
  match self_sk e, established e cid with
  | Some _, Some s =>
      let epoch := Conversation.current_epoch s in
      let keys := Conversation.get_keys s epoch in
      let no_keys := OtherError "No keys for current epoch" in
      let fresh := match keys with Some k => Ok (first_seq epoch, ratchet_init_sender (k_conv k) (self_pk e)) | None => Err no_keys end in
      let position := match Conversation.sender_ratchets s !! self_pk e with
                      | Some r => if Conversation.ratchet_epoch r =? epoch then Ok (Conversation.last_seq r, Conversation.next_key r) else fresh
                      | None => fresh
                      end in
      let header := match Conversation.jit_headers s !! (self_pk e, epoch) with
                    | Some h => Ok h
                    | None => match keys with
                              | Some k => Ok (derive_k_header_epoch (k_conv k) (own_sender_key s (self_pk e) epoch (k_conv k)))
                              | None => Err no_keys
                              end
                    end in
      let*? (last_seq, next_key) := pure position in
      let*? k_header := pure header in
      let payload := triplet next_key last_seq k_header in
      let* e_sk := random_bytes 32 in
      let* wrapped_keys := collect targets (fun r => let* w := wrap_for e_sk true payload r in pure [w]) in
      update (set_established cid (fun s => s <| Conversation.shared_keys_sent_to := foldl (fun X pk => X ∪ {[pk]}) (Conversation.shared_keys_sent_to s) targets |>)) ;*
      let* new_eph_sk := signing_key epoch in
      author cid (SenderKeyDistribution (x25519_public e_sk) wrapped_keys (verifying_key new_eph_sk) []) [] (Some epoch)
  | _, _ => good []
  end.

(** The key of the next epoch, or a first key. *)
Definition install_new_key (cid : ConversationId) (new_k_conv : KConv) (now : Z) : Op (option Z * Z) :=
  let* e := get_engine in
  match established e cid with
  | Some s =>
      let* (s', new_generation) := lift (Conversation.rotate s new_k_conv now) in
      update (set_established cid (fun _ => s')) ;* pure (Some (Conversation.current_epoch s), new_generation)
  | None =>
      update (fun e => e <| conversations := <[cid := Conversation.EstablishedConv (Conversation.new_established cid new_k_conv now)]> (conversations e) |>) ;*
      pure (None, 0)
  end.

Definition anchor_of (e : t) (cid : ConversationId) : NodeHash := default (to_node_hash cid) (latest_anchor_hashes e !! cid).

Definition rotate_conversation_key_impl (cid : ConversationId) (post_revocation : bool) : Fallible (list Effect) :=
  clear_pending ;*
  let* now := network_time_ms in
  let* new_k_conv := random_bytes 32 in
  let* (old_generation, new_generation) := install_new_key cid new_k_conv now in
  let* e := get_engine in
  let* k := lift (s ← established e cid; Conversation.get_keys s new_generation) in
  let* e_sk := random_bytes 32 in
  let* recipients := Overlay.list_active_authorized_devices dummy_ctx cid now u64_max in
  let recipients := List.filter (fun r => negb (only_last_resort e r && negb post_revocation)) recipients in
  let* wrapped_keys := wrap_for_all e_sk false (k_conv k) recipients in
  let* e := get_engine in
  let*? wrap_effects :=
    (if negb (bool_decide (wrapped_keys = [])) || (new_generation =? 0)
     then author cid (KeyWrap new_generation (anchor_of e cid) (x25519_public e_sk) wrapped_keys) [] (Some new_generation)
     else good []) in
  let*? skd_effects := author_sender_key_distribution cid new_generation old_generation in
  update (fun e => match old_generation with
                   | Some old => e <| self_ephemeral_signing_keys := delete old (self_ephemeral_signing_keys e) |>
                   | None => e
                   end) ;*
  good (WriteConversationKey cid new_generation new_k_conv :: wrap_effects ++ skd_effects).

End Keys.

(** The knot of rotation: [depth] rotations may be nested. *)
Fixpoint rotate_at (depth : nat) : ConversationId -> bool -> Fallible (list Effect) :=
  match depth with
  | O => fun _ _ => lift None
  | Datatypes.S depth => rotate_conversation_key_impl (author_node_internal (rotate_at depth))
  end.
Definition rotate_impl : ConversationId -> bool -> Fallible (list Effect) := rotate_at 1.
Definition rotate_conversation_key (cid : ConversationId) : Fallible (list Effect) := rotate_impl cid false.
Definition rotate_conversation_key_post_revocation (cid : ConversationId) : Fallible (list Effect) := rotate_impl cid true.
(** [author_node_internal], also as [author_node_with_epoch]. *)
Definition author_internal : ConversationId -> Content -> bytes -> option Z -> Fallible (list Effect) := author_node_internal rotate_impl.

(** ** [author_node] *)

Definition check_rotation_triggers (cid : ConversationId) : Op bool :=
  let* now := network_time_ms in
  let* e := get_engine in
  match established e cid with
  | Some s =>
      if MESSAGES_PER_EPOCH <=? Conversation.message_count s then pure true
      else let* age := lift (chk_i64 (now - Conversation.last_rotation_time_ms s)) in pure (EPOCH_DURATION_MS <=? age)
  | None => pure false
  end.

Definition check_sender_rekey_triggers (cid : ConversationId) : Op bool :=
  let* now := network_time_ms in
  let* e := get_engine in
  match established e cid with
  | Some s =>
      if MESSAGES_PER_SENDER_REKEY <=? Conversation.self_message_count s then pure true
      else let* age := lift (chk_i64 (now - Conversation.self_last_rekey_time_ms s)) in pure (SENDER_REKEY_DURATION_MS <=? age)
  | None => pure false
  end.

(** The guards of [author_node]. *)
Definition may_author (e : t) (cid : ConversationId) (ct : Content) : result MerkleToxError unit :=
  if waits_for_ack ct && existsb (fun p => bool_decide (pending_conversation p.2 = cid)) (iterate (keywrap_pending e))
  then Err (OtherError "Cannot author content: awaiting KEYWRAP_ACK (OPK consumed)")
  else
    let is_pending := match conversations e !! cid with Some (Conversation.PendingConv _) => true | _ => false end &&
                      negb (Identity.has_authorization_record (identity_manager e) cid (self_pk e)) in
    if negb (is_observer_safe ct) && (is_pending || identity_pending_in e cid)
    then Err (OtherError "Cannot author nodes: device is in observer mode (pending/identity_pending)")
    else if bool_decide (is_Some (trust_restored_devices e !! (cid, self_pk e))) && negb (is_healing ct)
    then Err (OtherError "Cannot author: device is in trust-restored observer mode")
    else Ok tt.

(** [if let Ok(effects) = m] *)
Definition or_nothing (m : Fallible (list Effect)) : Op (list Effect) := let* r := m in pure (match r with Ok fx => fx | Err _ => [] end).

(** Rotation of the conversation key when it is due, or of our sender key. *)
Definition rotate_if_due (cid : ConversationId) : Fallible (list Effect) :=
  let* due := check_rotation_triggers cid in
  let*? rotated := (if (due : bool) then let*? fx := rotate_conversation_key cid in good (fx ++ [HistorySnapshotNeeded cid]) else good []) in
  if bool_decide (rotated = []) then
    let* due := check_sender_rekey_triggers cid in
    if (due : bool) then sender_rekey author_internal cid else good []
  else good rotated.

(** Devices that lack our sender key get it before the first content they see. *)
Definition piggyback (cid : ConversationId) (ct : Content) : Op (list Effect) :=
  let* e := get_engine in
  match ct, established e cid with
  | Control _, _ | KeyWrap _ _ _ _, _ | _, None => pure []
  | _, Some s =>
      let* now := network_time_ms in
      let* authorized := Overlay.list_active_authorized_devices Identity.global cid now u64_max in
      let missing := List.filter (fun pk => negb (bool_decide (pk = self_pk e)) && negb (bool_decide (pk ∈ Conversation.shared_keys_sent_to s))) authorized in
      if bool_decide (missing = []) then pure [] else or_nothing (author_jit_sender_key_distribution author_internal cid missing)
  end.

Section AuthorNode.
(** [author_node] itself, for the anchors that it authors after a content node. *)
Variable again : ConversationId -> Content -> bytes -> Fallible (list Effect).

Definition create_snapshot_with (cid : ConversationId) : Fallible (list Effect) :=
  let* st := get_disk in
  match get_heads st cid with
  | [] => fails (Validation EmptyDag)
  | basis :: _ =>
      let* e := get_engine in
      let ms := (fun '(pk, role, joined) => mkMember pk role joined) <$> Identity.list_members (identity_manager e) cid in
      let seqs := (fun d => (d, get_last_sequence_number st cid d)) <$> Identity.list_authorized_devices (identity_manager e) cid in
      again cid (Control (Snapshot (mkSnapshot basis ms seqs))) []
  end.

Definition author_soft_anchor_with (cid : ConversationId) : Fallible (list Effect) :=
  let* st := get_disk in
  match get_admin_heads st cid with
  | [] => fails (Validation EmptyDag)
  | basis :: _ =>
      let* e := get_engine in
      match self_certs e !! cid with
      | None => fails NotAuthorized
      | Some cert => again cid (Control (SoftAnchor basis cert)) []
      end
  end.

(** After a content node: a snapshot every 400 messages, or a soft anchor far from an
    admin node. *)
Definition anchor_if_due (cid : ConversationId) : Op (list Effect) :=
  let* e := get_engine in
  let should_anchor := match established e cid with
                       | Some s => (0 <? Conversation.message_count s) && (Conversation.message_count s mod MESSAGES_PER_ANCHOR =? 0)
                       | None => false
                       end in
  if should_anchor then or_nothing (create_snapshot_with cid)
  else
    match self_certs e !! cid with
    | Some cert =>
        if Permissions.contains (cert_permissions cert) Permissions.ADMIN then pure []
        else
          let* st := get_disk in
          let distances := omap (Dag.get_admin_distance (lookup_of st)) (get_heads st cid) in
          let* hops := lift (chk_u64 (match distances with [] => 0 | d :: ds => foldl Z.min d ds end + 1)) in
          if SOFT_ANCHOR_MIN_HOPS <=? hops then
            let* threshold := random_range SOFT_ANCHOR_MIN_HOPS SOFT_ANCHOR_MAX_HOPS in
            if threshold <=? hops then or_nothing (author_soft_anchor_with cid) else pure []
          else pure []
    | None => pure []
    end.

Definition author_node_with (cid : ConversationId) (ct : Content) (meta : bytes) : Fallible (list Effect) :=
  clear_pending ;*
  let* e := get_engine in
  let*? _ := pure (may_author e cid ct) in
  let*? rotated := rotate_if_due cid in
  let* jit := piggyback cid ct in
  let*? authored := author_internal cid ct meta (match ct with KeyWrap generation _ _ _ => Some generation | _ => None end) in
  let* anchors := (if is_control ct then pure [] else anchor_if_due cid) in
  good (rotated ++ jit ++ authored ++ anchors).

End AuthorNode.

(** The anchors are control actions, which author nothing further. *)
Definition author_node : ConversationId -> Content -> bytes -> Fallible (list Effect) := author_node_with (author_node_with (fun _ _ _ => lift None)).
Definition create_snapshot : ConversationId -> Fallible (list Effect) := create_snapshot_with author_node.
Definition author_soft_anchor : ConversationId -> Fallible (list Effect) := author_soft_anchor_with author_node.

(** ** Announcements, exports, key exchange *)

(** A pre-key signed by the device; its secret is kept. *)
Definition new_pre_key : Fallible SignedPreKey :=
  let* sk_bytes := random_bytes 32 in
  let pk := x25519_public sk_bytes in
  update (fun e => e <| ephemeral_keys := <[pk := sk_bytes]> (ephemeral_keys e) |>) ;*
  let* e := get_engine in
  match self_sk e with
  | None => fails (CryptoError "Missing identity key")
  | Some sk =>
      let* now := network_time_ms in
      let* expires := lift (chk_i64 (now + PRE_KEY_LIFETIME_MS)) in
      good (mkPreKey pk (sign sk pk) expires)
  end.

Definition author_announcement (cid : ConversationId) : Fallible (list Effect) :=
  clear_pending ;*
  let*? pre_keys := try_collect (seq 0 5) (fun _ => let*? k := new_pre_key in good [k]) in
  let* lr_sk := random_bytes 32 in
  let lr_pk := x25519_public lr_sk in
  update (fun e => e <| ephemeral_keys := <[lr_pk := lr_sk]> (ephemeral_keys e) |>) ;*
  let* e := get_engine in
  let lr_sig := match self_sk e with Some sk => sign sk lr_pk | None => zero_signature end in
  let*? fx := author_node cid (Control (Announcement pre_keys (mkPreKey lr_pk lr_sig i64_max))) [] in
  let* now := network_time_ms in
  update (fun e => e <| last_announcement_time_ms := <[cid := now]> (last_announcement_time_ms e) |>) ;*
  good fx.

Definition author_history_key_export (cid : ConversationId) (blob_hash : NodeHash) (blob_size : Z) (bao_root : option bytes) : Fallible (list Effect) :=
  let* e := get_engine in
  match established e cid with
  | None => fails (KeyNotFound cid 0)
  | Some _ =>
      let* st := get_disk in
      match get_heads st cid with
      | [] => fails (Validation EmptyDag)
      | _ =>
          let* k_export := random_bytes 32 in
          let* he_sk := random_bytes 32 in
          let* now := network_time_ms in
          let* recipients := Overlay.list_active_authorized_devices dummy_ctx cid now u64_max in
          let* wrapped_keys := wrap_for_all he_sk false k_export recipients in
          author_node cid (HistoryExport blob_hash blob_size bao_root (x25519_public he_sk) wrapped_keys) []
      end
  end.

Definition get_authorized_devices (e : t) (cid : ConversationId) : list PhysicalDevicePk := Identity.list_authorized_devices (identity_manager e) cid.
(** Truncated to 32 bits. *)
Definition get_current_generation (e : t) (cid : ConversationId) : Z :=
  match established e cid with Some s => wrap 32 (Conversation.current_epoch s) | None => 0 end.

(** The cap on retries: three in ten minutes. [None] inside is "rate limited". *)
Definition retry_allowed (r : HandshakeRetryState) (now : Z) : option (HandshakeRetryState * bool) :=
  if HANDSHAKE_RETRY_CAP <=? retry_attempts r then
    window_end ← chk_i64 (window_start_ms r + HANDSHAKE_RETRY_WINDOW_MS);
    if now <? window_end then Some (r, false) else Some (r <| retry_attempts := 0 |> <| window_start_ms := now |>, true)
  else Some (if window_start_ms r =? 0 then r <| window_start_ms := now |> else r, true).

(** The conversation with the key of a generation, established if it was not. *)
Definition with_key (c : option Conversation.Conversation) (cid : ConversationId) (k : KConv) (now generation : Z) : Conversation.Conversation :=
  match default (Conversation.PendingConv (Conversation.new_pending cid)) c with
  | Conversation.PendingConv p => Conversation.EstablishedConv (Conversation.establish p k now generation)
  | Conversation.EstablishedConv d => Conversation.EstablishedConv (Conversation.mkConversation (Conversation.id d) (Conversation.add_epoch (Conversation.state d) generation k))
  end.

(** The first node that the effects write. *)
Definition written_node (fx : list Effect) : option MerkleNode :=
  List.fold_right (fun f found => match f with WriteStore _ n _ => Some n | _ => found end) None fx.

Definition author_x3dh_key_exchange (cid : ConversationId) (peer : PhysicalDevicePk) (peer_spk : bytes) : Fallible (list Effect) :=
  clear_pending ;*
  let* now := network_time_ms in
  let* e := get_engine in
  let* (r, allowed) := lift (retry_allowed (default (mkRetry 0 0 0) (handshake_retry_state e !! (cid, peer))) now) in
  update (fun e => e <| handshake_retry_state := <[(cid, peer) := r]> (handshake_retry_state e) |>) ;*
  if negb allowed then good []
  else if match peer_announcements e !! peer with Some (Announcement _ last_resort_key) => bool_decide (pre_key last_resort_key = peer_spk) | _ => false end
  then author_node cid (Control HandshakePulse) []
  else
    let* e_sk := random_bytes 32 in
    let* k_conv_0 := random_bytes 32 in
    let* opk := consume_recipient_opk peer in
    let opk_id := match opk with Some (_, id) => id | None => zero_hash end in
    let wrapped := mkWrapped peer opk_id (ecies_wrap diffie_hellman e_sk peer_spk (fst <$> opk) None k_conv_0) in
    let* e := get_engine in
    let generation := get_current_generation e cid in
    let* now := network_time_ms in
    update (fun e => e <| conversations := <[cid := with_key (conversations e !! cid) cid k_conv_0 now generation]> (conversations e) |>) ;*
    let*? fx := author_node cid (KeyWrap generation (anchor_of e cid) (x25519_public e_sk) [wrapped]) [] in
    let fx := fx ++ [WriteConversationKey cid generation k_conv_0] in
    match (if bool_decide (opk_id = zero_hash) then None else written_node fx) with
    | Some n =>
        let* kw_hash := lift (hash n) in
        let* now := read_instant in
        update (fun e => e <| keywrap_pending := <[kw_hash := mkKeyWrapPending cid peer now 0]> (keywrap_pending e) |>) ;*
        good fx
    | None => good fx
    end.

End Authoring.
End Authoring.
