(* ===== verification/Processor.v ===== *)
(** Reception of nodes ([engine/processor/verification.rs], first half, and the loops
    that look again at nodes which wait): what is checked, when a node counts as
    verified, and what follows.

    [reverify] of the source is an argument of [handle_internal]: the operation that
    looks again, or nothing; [handle_quiet] is the case [reverify = false], which the
    loops call. *)

From S2P Require Import Prelude Protocol MsgPack ToxTypes Derive Iblt Merkle Dag DagWire Identity Conversation SyncSession Cas Clock Messages Monad Engine Overlay Verify SideEffects Authoring.
From stdpp Require Import gmap sorting strings.
#[local] Open Scope Z_scope.
#[local] Open Scope list_scope.
#[local] Open Scope monad_scope.

Module Processor.
Import Dag Crypto DagWire Messages Engine Verify.

Definition MAX_SPECULATIVE_NODES_PER_CONVERSATION : Z := 1000.
Definition MAX_VERIFIED_NODES_PER_DEVICE : Z := 1000.
Definition MAX_VOUCHERS_PER_HASH : nat := 3.

(** [Vec::swap_remove] *)
Definition swap_remove {A} (i : nat) (l : list A) : list A :=
  match List.rev l with
  | [] => []
  | final :: _ => if Nat.eqb (Datatypes.S i) (length l) then take i l else take (pred (length l)) (<[i := final]> l)
  end.

(** What the first checks say of a node. *)
Record Judgement := mkJudgement {
  structurally_valid : bool;
  is_authorized : bool;
  quarantined : bool;
  context : Identity.CausalContext
}.

Section Processor.
Context `{Rmp} `{Blake3Hash} `{Ed25519} `{StrictVerify} `{ChaCha20} `{Zstd} `{X25519} `{Blake3} `{HashOrder} `{LruCache Identity.PathKey Z}
  `{LruCache NodeHash (gset NodeHash)} `{StdRng} `{TimeProvider} {S : Type} `{NodeStore S}.
Variable fuel : nat.

#[local] Abbreviation Op A := (M (World S) A).
#[local] Abbreviation Fallible A := (M (World S) (result MerkleToxError A)).

(** ** The rules of the conversation *)

(** How many devices vouch for a node. *)
Definition vouches (e : t) (cid : ConversationId) (h : NodeHash) : Z :=
  match conversations e !! cid with
  | Some c => match Conversation.vouchers_of c !! h with Some v => Z.of_nat (base.size v) | None => 0 end
  | None => 0
  end.

(** The first checks: structure, authorization, quarantine. *)
Definition judge (cid : ConversationId) (n : MerkleNode) (h : NodeHash) (now : Z) : Fallible Judgement :=
  let* r := Overlay.validate_node n in
  let*? structurally_valid := pure (match r with
    | Ok _ => Ok true
    | Err e => if awaits_parents e then Ok false else Err (Validation e)
    end) in
  let* ctx := Overlay.causal_context fuel n in
  let* authorized := Overlay.is_authorized ctx cid (sender_pk n) (author_pk n) (network_timestamp n) (topological_rank n) in
  let* oldest := Overlay.read (fun c st => min_parent_ts c st (parents n)) in
  let* unverified_parent := Overlay.read (fun c st => existsb (fun p => negb (Overlay.is_verified c st p)) (parents n)) in
  let q := unverified_parent && negb (is_bootstrap (content n)) in
  let* e := get_engine in
  let q := q || (negb authorized && negb (is_bootstrap (content n)) && (vouches e cid h <? VOUCH_THRESHOLD)) in
  let* late := lift (mistimed oldest now n) in
  good (mkJudgement structurally_valid authorized (q || late) ctx).

(** What an edit, a redaction, a reaction or a bridged message refers to. *)
Definition check_target (e : t) (st : S) (ctx : Identity.CausalContext) (cid : ConversationId) (n : MerkleNode) : result MerkleToxError unit :=
  let target h := Overlay.get_node (pending_cache e) st h in
  match content n with
  | Edit target_hash _ =>
      match target target_hash with
      | Some t =>
          match content t with
          | Text _ => if bool_decide (author_pk t = author_pk n) then Ok tt else Err (Validation EditAuthorMismatch)
          | _ => Err (Validation InvalidEditTarget)
          end
      | None => Ok tt
      end
  | Redaction target_hash _ =>
      match target target_hash with
      | Some t =>
          if bool_decide (author_pk t = author_pk n) ||
             Permissions.contains (Overlay.permissions_of e ctx cid (sender_pk n) (author_pk n) (network_timestamp n) (topological_rank n)) Permissions.ADMIN
          then Ok tt else Err (Validation RedactionPermissionDenied)
      | None => Ok tt
      end
  | Reaction target_hash _ =>
      match target target_hash with
      | Some t => if bool_decide (node_type t = Admin) then Err (Validation InvalidReactionTarget) else Ok tt
      | None => Ok tt
      end
  | LegacyBridge source_pk text message_type dedup_id =>
      if bool_decide (dedup_id = derive_legacy_bridge_dedup_id cid source_pk text message_type) then Ok tt else Err (Validation InvalidLegacyBridgeDedup)
  | _ => Ok tt
  end.

(** The ratchet has used up this place, and no key was kept for it. *)
Definition is_replay (e : t) (cid : ConversationId) (n : MerkleNode) : bool :=
  match established e cid with
  | Some s =>
      match Conversation.sender_ratchets s !! sender_pk n with
      | Some r =>
          (Conversation.ratchet_epoch r =? Conversation.epoch_of (sequence_number n)) && (sequence_number n <=? Conversation.last_seq r) &&
          negb (bool_decide (is_Some (Conversation.skipped_keys s !! (sender_pk n, sequence_number n))))
      | None => false
      end
  | None => false
  end.

(** Sequence numbers: equivocations are noted, replays refused, devices limited. *)
Definition check_sequence (cid : ConversationId) (n : MerkleNode) (h : NodeHash) : Fallible unit :=
  let* last_verified_seq := Overlay.read (fun c st => Overlay.get_last_sequence_number c st cid (sender_pk n)) in
  let* e := get_engine in
  (match verified_node_seqs e !! (cid, sender_pk n, sequence_number n) with
   | Some existing => if bool_decide (existing = h) then pure tt
                      else update (fun e => e <| equivocations := equivocations e ++ [(cid, sender_pk n, sequence_number n, existing, h)] |>)
   | None => pure tt
   end) ;*
  if (sequence_number n <=? last_verified_seq) && is_replay e cid n then fails (Validation (InvalidSequenceNumber (sequence_number n) last_verified_seq))
  else
    let* _ := lift (chk_u64 (last_verified_seq + 1)) in
    if MAX_VERIFIED_NODES_PER_DEVICE <=? Conversation.counter_of last_verified_seq then fails (Validation TooManyVerifiedNodes) else good tt.

(** ** Keys for us *)

(** The secrets that may open an entry, the announced ones and then our own. *)
Definition try_secrets {A} (e : t) (open : bytes -> option A) : option A :=
  match foldl (fun found sk => match found with Some a => Some a | None => open sk end) None (snd <$> iterate (ephemeral_keys e)) with
  | Some a => Some a
  | None => sk ← self_dh_sk e; open sk
  end.

Definition seniority_or_last (e : t) (cid : ConversationId) (device : PhysicalDevicePk) : Z * NodeHash :=
  default (u64_max, top_hash) (Identity.get_admin_seniority (identity_manager e) cid device).

(** Two keys claim the same one-time key: in a conversation of two the lesser device
    wins, in a group the senior admin. *)
Definition wins_opk (e : t) (cid : ConversationId) (sender prev_sender : PhysicalDevicePk) : bool :=
  if len (Identity.list_members (identity_manager e) cid) <=? 2
  then match bytes_compare sender prev_sender with Lt => true | _ => false end
  else ranked_ltb (seniority_or_last e cid sender) (seniority_or_last e cid prev_sender).

(** The loop over the entries of a KeyWrap: the key, and the one-time key it used. *)
Fixpoint open_key_wrap (cid : ConversationId) (n : MerkleNode) (h : NodeHash) (ephemeral_pk : bytes) (ws : list WrappedKey) : Op (option (KConv * NodeHash)) :=
  match ws with
  | [] => pure None
  | w :: ws =>
      let* e := get_engine in
      let uses_opk := negb (bool_decide (opk_id w = zero_hash)) in
      let loses := uses_opk && match consumed_opk_ids e !! opk_id w with Some (_, prev_sender, _) => negb (wins_opk e cid (sender_pk n) prev_sender) | None => false end in
      if negb (bool_decide (recipient_pk w = self_pk e)) || loses then open_key_wrap cid n h ephemeral_pk ws
      else
        (if uses_opk then update (fun e => e <| consumed_opk_ids := <[opk_id w := (h, sender_pk n, topological_rank n)]> (consumed_opk_ids e) |>) else pure tt) ;*
        match try_secrets e (fun sk => ecies_unwrap_32 diffie_hellman sk ephemeral_pk (find_opk_sk e (opk_id w)) None (ciphertext w)) with
        | Some k => pure (Some (k, opk_id w))
        | None => open_key_wrap cid n h ephemeral_pk ws
        end
  end.

(** The conversation with a received key. *)
Definition receive_key (e : t) (cid : ConversationId) (k : KConv) (now generation : Z) : Conversation.Conversation :=
  match default (Conversation.PendingConv (Conversation.new_pending cid)) (conversations e !! cid) with
  | Conversation.PendingConv p =>
      let d := Conversation.establish p k now generation in
      let has_genesis := bool_decide (is_Some (Identity.get_founder (identity_manager e) cid)) in
      Conversation.EstablishedConv (Conversation.mkConversation (Conversation.id d) ((Conversation.state d) <| Conversation.identity_pending := negb has_genesis |>))
  | Conversation.EstablishedConv d => Conversation.EstablishedConv (Conversation.mkConversation (Conversation.id d) (Conversation.add_epoch (Conversation.state d) generation k))
  end.

(** A KeyWrap: effects, and the one-time keys that are used up. *)
Definition on_key_wrap (cid : ConversationId) (n : MerkleNode) (h : NodeHash) (generation : Z) (ephemeral_pk : bytes) (ws : list WrappedKey) :
    Op (list Effect * list NodeHash) :=
  let* opened := open_key_wrap cid n h ephemeral_pk ws in
  match opened with
  | None => pure ([], [])
  | Some (k, opk) =>
      let* e := get_engine in
      update (fun e => e <| conversations := <[cid := receive_key e cid k (network_timestamp n) generation]> (conversations e) |>) ;*
      let* count := lift (chk_u32 (default 0 (handshake_count_since_announcement e !! cid) + 1)) in
      update (fun e => e <| handshake_count_since_announcement := <[cid := count]> (handshake_count_since_announcement e) |>
                         <| trust_restored_devices := delete (cid, self_pk e) (trust_restored_devices e) |>) ;*
      pure ([SendPacket (sender_pk n) (KeywrapAck h (self_pk e)); WriteConversationKey cid generation k], [opk])
  end.

(** The entries for us of a SenderKeyDistribution: the first that opens. *)
Fixpoint open_sender_key (e : t) (sender_x25519_pk ephemeral_pk : bytes) (ws : list WrappedKey) : option (bytes * NodeHash) :=
  match ws with
  | [] => None
  | w :: ws =>
      if negb (bool_decide (recipient_pk w = self_pk e)) then open_sender_key e sender_x25519_pk ephemeral_pk ws
      else
        match try_secrets e (fun sk => ecies_unwrap diffie_hellman sk ephemeral_pk (find_opk_sk e (opk_id w)) (Some (diffie_hellman sk sender_x25519_pk)) (ciphertext w)) with
        | Some payload => Some (payload, opk_id w)
        | None => open_sender_key e sender_x25519_pk ephemeral_pk ws
        end
  end.

(** What the payload of a distribution does: 72 bytes are a chain key, a place and a
    header key; 32 bytes are a sender key. *)
Definition take_sender_key (n : MerkleNode) (payload : bytes) (s : Conversation.Established) : Conversation.Established :=
  let epoch := Conversation.epoch_of (sequence_number n) in
  let key := (sender_pk n, epoch) in
  if len payload =? 72 then
    let chain_key := take 32 payload in
    let last_seq := from_be (take 8 (drop 32 payload)) in
    let k_header := drop 40 payload in
    s <| Conversation.sender_keys := <[key := chain_key]> (Conversation.sender_keys s) |>
      <| Conversation.sender_ratchets := <[sender_pk n := Conversation.mkRatchet last_seq chain_key None epoch]> (Conversation.sender_ratchets s) |>
      <| Conversation.jit_headers := <[key := k_header]> (Conversation.jit_headers s) |>
  else if len payload =? 32 then s <| Conversation.sender_keys := <[key := payload]> (Conversation.sender_keys s) |>
  else s.

Definition on_distribution (cid : ConversationId) (n : MerkleNode) (ephemeral_pk : bytes) (ws : list WrappedKey) : Op (list Effect * list NodeHash) :=
  let* e := get_engine in
  match open_sender_key e (device_pk_to_x25519 to_montgomery (sender_pk n)) ephemeral_pk ws with
  | Some (payload, opk) => update (set_established cid (take_sender_key n payload)) ;* pure ([], [opk])
  | None => pure ([], [])
  end.

(** The first entry for us of a HistoryExport; the blob is fetched. *)
Definition on_history_export (cid : ConversationId) (blob_hash : NodeHash) (blob_size : Z) (bao_root : option bytes) (ephemeral_pk : bytes) (ws : list WrappedKey) :
    Op (list Effect * list NodeHash) :=
  let* e := get_engine in
  match List.find (fun w => bool_decide (recipient_pk w = self_pk e)) ws with
  | None => pure ([], [])
  | Some w =>
      match try_secrets e (fun sk => ecies_unwrap_32 diffie_hellman sk ephemeral_pk (find_opk_sk e (opk_id w)) None (ciphertext w)) with
      | None => pure ([], [])
      | Some k_export =>
          let info := Cas.mkInfo blob_hash blob_size bao_root Cas.Pending None (Some k_export) in
          update (fun e => e <| blob_syncs := <[blob_hash := Cas.new info]> (blob_syncs e) |>) ;*
          pure ((fun p => SendPacket p (BlobQuery blob_hash)) <$> Authoring.active_peers e cid, [opk_id w])
      end
  end.

Definition receive_keys (cid : ConversationId) (n : MerkleNode) (h : NodeHash) : Op (list Effect * list NodeHash) :=
  match content n with
  | KeyWrap generation _ ephemeral_pk ws => on_key_wrap cid n h generation ephemeral_pk ws
  | SenderKeyDistribution ephemeral_pk ws _ _ => on_distribution cid n ephemeral_pk ws
  | HistoryExport blob_hash blob_size bao_root ephemeral_pk ws => on_history_export cid blob_hash blob_size bao_root ephemeral_pk ws
  | _ => pure ([], [])
  end.

(** ** The verdict *)

(** Whether the founder certified the sender of an anchor for a permission. *)
Definition founder_certified (e : t) (cid : ConversationId) (n : MerkleNode) (cert : DelegationCertificate) (permission : Permissions.t) : option bool :=
  match Identity.get_founder (identity_manager e) cid with
  | None => Some false
  | Some founder =>
      r ← Identity.verify_delegation cert founder (network_timestamp n);
      Some (is_ok r && Permissions.contains (cert_permissions cert) permission && bool_decide (cert_device cert = sender_pk n) &&
            bool_decide (cert_conversation cert = cid))
  end.

(** The chain of alternatives that makes a node verified. *)
Definition verdict (cid : ConversationId) (n : MerkleNode) (h : NodeHash) (j : Judgement) (is_authentic : bool) : Op bool :=
  let skip_generic_path := negb (is_authorized j) &&
    match content n with Control (AnchorSnapshot _ _) | Control (SoftAnchor _ _) => true | _ => false end in
  if is_authentic && structurally_valid j && negb (quarantined j) && negb skip_generic_path then pure true
  else if negb (is_authorized j) && negb (quarantined j) && structurally_valid j && negb skip_generic_path then pure true
  else if negb (is_authorized j) && negb (quarantined j) then
    match content n with
    | Control (AuthorizeDevice cert) =>
        let* r := Overlay.authorize_device (context j) cid (author_pk n) cert (network_timestamp n) (topological_rank n) h in
        pure (is_ok r && structurally_valid j)
    | Control (AnchorSnapshot _ cert) =>
        if structurally_valid j then let* e := get_engine in lift (founder_certified e cid n cert Permissions.ADMIN) else pure false
    | Control (SoftAnchor _ cert) =>
        if structurally_valid j then let* e := get_engine in lift (founder_certified e cid n cert Permissions.MESSAGE) else pure false
    | _ => pure false
    end
  else pure false.

(** Only one soft anchor of a device on a basis. *)
Definition unbranched (cid : ConversationId) (n : MerkleNode) (ver : bool) : Op bool :=
  match content n with
  | Control (SoftAnchor basis _) =>
      if ver then
        let* e := get_engine in
        let seen := default ∅ (soft_anchor_dedup e !! cid) in
        update (fun e => e <| soft_anchor_dedup := <[cid := seen ∪ {[(sender_pk n, basis)]}]> (soft_anchor_dedup e) |>) ;*
        pure (negb (bool_decide ((sender_pk n, basis) ∈ seen)))
      else pure false
  | _ => pure ver
  end.

(** The node enters the cache, if there is room for one that is not verified. *)
Definition keep_node (cid : ConversationId) (n : MerkleNode) (ver : bool) : Fallible unit :=
  let* counts := Overlay.read (fun c st => Overlay.get_node_counts c st cid) in
  if negb ver && (MAX_SPECULATIVE_NODES_PER_CONVERSATION <=? snd counts) then fails (Validation TooManySpeculativeNodes)
  else
    let* e := get_engine in
    let* c := lift (Overlay.put_node cid n ver (pending_cache e)) in
    update_cache (fun _ => c) ;* good tt.

(** The block of [handle_node_internal_ext] that yields whether the node is verified
    and authentic, with the effects and the used one-time keys. *)
Definition admit_node (cid : ConversationId) (n : MerkleNode) (h : NodeHash) (now : Z) : Fallible (bool * bool * list Effect * list NodeHash) :=
  let*? j := judge cid n h now in
  let* e := get_engine in
  let*? _ := pure (if is_authorized j || Identity.has_authorization_record (identity_manager e) cid (sender_pk n)
                   then check_permissions e (context j) cid n (network_timestamp n) else Ok tt) in
  let* st := get_disk in
  let*? _ := pure (check_target e st (context j) cid n) in
  let*? _ := (if is_authorized j then check_sequence cid n h else good tt) in
  let* (fx, opks) := (if is_authorized j then receive_keys cid n h else pure ([], [])) in
  let* is_authentic := Verify.authentic cid n h in
  let* ver := verdict cid n h j is_authentic in
  let* ver := unbranched cid n ver in
  let*? _ := keep_node cid n ver in
  good (ver, is_authentic, fx, opks).

(** ** What follows *)

Definition ensure_conversation (cid : ConversationId) (e : t) : t :=
  match conversations e !! cid with
  | Some _ => e
  | None => e <| conversations := <[cid := Conversation.PendingConv (Conversation.new_pending cid)]> (conversations e) |>
  end.

(** Every session of the conversation sees the node, and its vouches. *)
Definition tell_sessions (cid : ConversationId) (n : MerkleNode) (blobs : option BlobStore) (is_authentic : bool) : Op unit :=
  let* e := get_engine in
  let* st := get_disk in
  for_each (iterate (sessions e)) (fun '(k, s) =>
    if bool_decide (k.2 = cid) then
      let* s := lift (SyncSession.peer_on_node_received s n (Overlay.store_view st) (has_blob <$> blobs)) in
      let s := if is_authentic then foldl (fun s p => SyncSession.peer_record_vouch s p (sender_pk n)) s (parents n) else s in
      update (fun e => e <| sessions := <[k := s]> (sessions e) |>)
    else pure tt).

(** At most three vouchers of a hash are kept. *)
Definition vouch (v : Conversation.Vouchers) (h : NodeHash) (sender : PhysicalDevicePk) (now : Z) : Conversation.Vouchers :=
  let known := default ∅ (v !! h) in
  <[h := if (base.size known <? MAX_VOUCHERS_PER_HASH)%nat then <[sender := now]> known else known]> v.
Definition vouch_for_parents (cid : ConversationId) (n : MerkleNode) (now : Z) (e : t) : t :=
  e <| conversations := alter (fun c => Conversation.set_vouchers c (foldl (fun v p => vouch v p (sender_pk n) now) (Conversation.vouchers_of c) (parents n)))
                          cid (conversations e) |>.

Section Handle.
(** The second look at waiting nodes, when [reverify] is set. *)
Variable look_again : option (ConversationId -> Op (list Effect)).

(** After the node has been admitted. *)
Definition settle_node (cid : ConversationId) (n : MerkleNode) (h : NodeHash) (now : Z) (blobs : option BlobStore) (ver is_authentic : bool) : Fallible (list Effect) :=
  update (ensure_conversation cid) ;*
  tell_sessions cid n blobs is_authentic ;*
  (if is_authentic then update (vouch_for_parents cid n now) else pure tt) ;*
  (if ver then update (fun e => e <| verified_node_seqs := <[(cid, sender_pk n, sequence_number n) := h]> (verified_node_seqs e) |>) else pure tt) ;*
  let*? side_effects := (if ver || (is_authentic && is_bootstrap (content n)) then SideEffects.apply_side_effects fuel (Authoring.rotate_impl fuel) cid n else good []) in
  let* invalidated := (if ver && Authoring.affects_identity (content n) then revalidate_all_verified_nodes fuel cid else pure []) in
  let* again := match look_again with Some look => if is_authentic || ver then look cid else pure [] | None => pure [] end in
  let* e := get_engine in
  good (WriteStore cid n ver :: side_effects ++ invalidated ++ again ++
        (if ver then Authoring.gossip e cid n h else []) ++
        [if ver then verified_event e cid h n else EmitEvent (NodeSpeculative cid h n)]).

Definition handle_internal (cid : ConversationId) (n : MerkleNode) (blobs : option BlobStore) : Fallible (list Effect) :=
  let* h := lift (hash n) in
  let* now := network_time_ms in
  let* seen := Overlay.read (fun c st => Overlay.is_verified c st h || (bool_decide (is_Some look_again) && Overlay.has_node c st h)) in
  if (seen : bool) then good []
  else
    let*? (ver, is_authentic, fx, opks) := admit_node cid n h now in
    for_each opks (fun opk => let* _ := consume_opk_sk opk in pure tt) ;*
    let*? settled := settle_node cid n h now blobs ver is_authentic in
    good (fx ++ settled).

End Handle.

Definition handle_quiet : ConversationId -> MerkleNode -> option BlobStore -> Fallible (list Effect) := handle_internal None.

(** ** Nodes that wait *)

(** The effects that write a node as verified, into the cache. *)
Definition note_verified (fx : list Effect) : Op unit :=
  for_each fx (fun f => match f with
    | WriteStore cid n true =>
        let* h := lift (hash n) in
        update_cache (fun c =>
          let last := default 0 (last_verified_sequences c !! (cid, sender_pk n)) in
          c <| nodes := <[h := n]> (nodes c) |> <| verified := verified c ∪ {[h]} |>
            <| last_verified_sequences := <[(cid, sender_pk n) := Z.max last (sequence_number n)]> (last_verified_sequences c) |>)
    | _ => pure tt
    end).
Definition writes_verified (fx : list Effect) : bool := existsb (fun f => match f with WriteStore _ _ true => true | _ => false end) fx.

(** One round over the speculative nodes: effects, and whether one got verified. *)
Fixpoint reverify_round (cid : ConversationId) (ns : list MerkleNode) : Op (list Effect * bool) :=
  match ns with
  | [] => pure ([], false)
  | n :: ns =>
      let* h := lift (hash n) in
      let* is_authentic := Verify.authentic cid n h in
      let* e := get_engine in
      if negb is_authentic && (vouches e cid h <? VOUCH_THRESHOLD) then reverify_round cid ns
      else
        let* r := handle_quiet cid n None in
        match r with
        | Ok fx =>
            if writes_verified fx then
              note_verified fx ;*
              let* (more, _) := reverify_round cid ns in pure (fx ++ more, true)
            else reverify_round cid ns
        | Err _ => reverify_round cid ns
        end
  end.

Fixpoint reverify_speculative_for_conversation (rounds : nat) (cid : ConversationId) : Op (list Effect) :=
  match rounds with
  | O => lift None
  | Datatypes.S rounds =>
      let* speculative := Overlay.read (fun c st => Overlay.get_speculative_nodes c st cid) in
      let* speculative := lift speculative in
      let* (fx, verified_any) := reverify_round cid speculative in
      if (verified_any : bool) then let* more := reverify_speculative_for_conversation rounds cid in pure (fx ++ more) else pure fx
  end.

(** An entry leaves the accounts of the opaque store. *)
Definition forget_opaque (cid : ConversationId) (h : NodeHash) : Op unit :=
  let* e := get_engine in
  match opaque_store_usage e !! cid with
  | Some (total, entries) =>
      match list_find (fun o => opaque_hash o = h) entries with
      | Some (i, o) =>
          let* total := lift (chk_usize (total - opaque_size o)) in
          update (fun e => e <| opaque_store_usage := <[cid := (total, swap_remove i entries)]> (opaque_store_usage e) |>)
      | None => pure tt
      end
  | None => pure tt
  end.

(** The senders that a node of the conversation may have. *)
Definition all_senders (e : t) (cid : ConversationId) : list (PhysicalDevicePk * LogicalIdentityPk) :=
  Identity.list_all_authorized_sender_pairs (identity_manager e) cid.

(** Unpacking with the keys of the conversation, or those for exports. *)
Definition unpack_with (s : Conversation.Established) (w : WireNode) (senders : list (PhysicalDevicePk * LogicalIdentityPk)) : option (option MerkleNode) :=
  found ← Conversation.identify_sender_and_unpack s w senders;
  match found with Some n => Some (Some n) | None => Conversation.try_unpack_history_export s w senders end.

(** An opaque node that can be read by now leaves the opaque store; the flag says that
    it was handled. *)
Definition promote (s : Conversation.Established) (cid : ConversationId) (h : NodeHash) : Op (list Effect * bool) :=
  let* e := get_engine in
  if bool_decide (h ∈ promotion_locked e) then pure ([], false)
  else
    update (fun e => e <| promotion_locked := promotion_locked e ∪ {[h]} |>) ;*
    let* wire := Overlay.read (fun c st => Overlay.get_wire_node c st h) in
    let* out := match wire with
      | None => pure ([], false)
      | Some w =>
          let* unpacked := lift (unpack_with s w (all_senders e cid)) in
          match unpacked with
          | None => pure ([], false)
          | Some n =>
              forget_opaque cid h ;*
              let* st := get_disk in
              modify (fun world => world <| disk := (remove_wire_node cid h st).1 |>) ;*
              update_cache (Overlay.put_wire_node cid h w) ;*
              let* r := handle_quiet cid n None in
              update_cache (fun c => c <| wire_nodes := delete h (wire_nodes c) |>) ;*
              pure (DeleteWireNode cid h :: match r with Ok fx => fx | Err _ => [] end, is_ok r)
          end
      end in
    update (fun e => e <| promotion_locked := promotion_locked e ∖ {[h]} |>) ;*
    pure out.

Fixpoint promote_round (s : Conversation.Established) (cid : ConversationId) (hs : list NodeHash) : Op (list Effect * bool) :=
  match hs with
  | [] => pure ([], false)
  | h :: hs =>
      let* (fx, p) := promote s cid h in
      let* (more, q) := promote_round s cid hs in
      pure (fx ++ more, p || q)
  end.

Fixpoint reverify_opaque_nodes (rounds : nat) (cid : ConversationId) : Op (list Effect) :=
  match rounds with
  | O => lift None
  | Datatypes.S rounds =>
      let* hs := Overlay.read (fun c st => default_ok (Overlay.get_opaque_node_hashes c st cid)) in
      let* e := get_engine in
      match established e cid with
      | None => pure []
      | Some s =>
          let* (fx, progress) := promote_round s cid hs in
          if (progress : bool) then let* more := reverify_opaque_nodes rounds cid in pure (fx ++ more) else pure fx
      end
  end.

(** Opaque nodes first: they may be the parents of speculative ones. *)
Definition look_again (cid : ConversationId) : Op (list Effect) :=
  let* opened := reverify_opaque_nodes fuel cid in
  let* checked := reverify_speculative_for_conversation fuel cid in
  pure (opened ++ checked).

Definition handle_node_internal_ext (cid : ConversationId) (n : MerkleNode) (blobs : option BlobStore) (reverify : bool) : Fallible (list Effect) :=
  handle_internal (if reverify then Some look_again else None) cid n blobs.

Definition handle_node (cid : ConversationId) (n : MerkleNode) (blobs : option BlobStore) : Fallible (list Effect) :=
  clear_pending ;* handle_node_internal_ext cid n blobs true.

End Processor.
End Processor.
