(* ===== verification/EngineFrames.v ===== *)
(** What the operations of the engine leave alone: who we are, the accounts of the
    opaque store, and the blacklist.  Each lemma walks through its operation with
    [frames]. *)

From S2P Require Import Prelude Protocol MsgPack ToxTypes Derive Iblt Merkle Dag DagWire Identity Conversation SyncSession Cas Clock Messages Monad Engine Overlay Verify SideEffects Authoring Processor.
From stdpp Require Import gmap sorting strings.
#[local] Open Scope Z_scope.
#[local] Open Scope list_scope.
#[local] Open Scope monad_scope.

Module EngineFrames.
Import Dag Crypto DagWire Messages Engine.

Section Settled.
Context `{LruCache Identity.PathKey Z} `{LruCache NodeHash (gset NodeHash)} `{StdRng} {S : Type}.

(** Who we are, the accounts and the blacklist. *)
Definition settled (w : World S) :=
  (self_pk (engine w), self_logical_pk (engine w), self_sk (engine w), self_dh_sk (engine w), opaque_store_usage (engine w), promotion_locked (engine w),
   peer_blacklist (engine w)).

End Settled.

Ltac leaf := unfold same, settled; simpl; repeat case_match; reflexivity.
Ltac unfold_head :=
  lazymatch goal with
  | |- keeps _ ?m => let rec head t := lazymatch t with ?f _ => head f | _ => t end in let h := head m in unfold h
  end.
Ltac frames_by leaf := repeat first [assumption | solve [eauto with frames] | frame_step leaf | progress unfold_head].
Ltac frames := frames_by leaf.

(** One step of a result, with the operations of the engine unfolded. *)
Ltac step H := unfold get_engine, get_disk, update, update_cache, Overlay.read in H; run_step H.
Ltac steps H := repeat step H.

Section Frames.
Context `{Rmp} `{Blake3Hash} `{Ed25519} `{StrictVerify} `{ChaCha20} `{Zstd} `{X25519} `{Blake3} `{Bao} `{HashOrder} `{LruCache Identity.PathKey Z}
  `{LruCache NodeHash (gset NodeHash)} `{StdRng} `{TimeProvider} {S : Type} `{NodeStore S}.
Variable fuel : nat.
#[local] Abbreviation unmoved := (same (settled (S := S))).

Lemma network_time_frame : keeps unmoved (network_time_ms (S := S)).
Proof. frames. Qed.
#[local] Hint Resolve network_time_frame : frames.

Lemma ancestors_frame look n : forall st v f, keeps unmoved (Overlay.admin_ancestors_loop look n st v f).
Proof. induction n as [|n IH]; intros st v f; simpl; frames. Qed.
#[local] Hint Resolve ancestors_frame : frames.

Lemma context_frame look n m : keeps unmoved (Overlay.causal_context_by look n m).
Proof. frames. Qed.
Lemma validate_frame n : keeps unmoved (Overlay.validate_node n).
Proof. frames. Qed.
#[local] Hint Resolve context_frame validate_frame : frames.

Lemma judge_frame cid n h now : keeps unmoved (Processor.judge fuel cid n h now).
Proof. frames. Qed.

Lemma verify_frame cid n : keeps unmoved (Verify.verify_node fuel cid n).
Proof. frames. Qed.
#[local] Hint Resolve judge_frame verify_frame : frames.

Lemma revalidate_frame cid : keeps unmoved (Verify.revalidate_all_verified_nodes fuel cid).
Proof. frames. Qed.
#[local] Hint Resolve revalidate_frame : frames.

(** *** Side effects and authoring *)

Lemma side_effects_frame rotate cid n : (forall c b, keeps unmoved (rotate c b)) -> keeps unmoved (SideEffects.apply_side_effects fuel rotate cid n).
Proof. intros Hr. frames. Qed.
#[local] Hint Resolve side_effects_frame : frames.

Lemma sign_frame cid n ep now : keeps unmoved (Authoring.sign_node cid n ep now).
Proof. frames. Qed.
Lemma keep_wire_frame cid n h w now : keeps unmoved (Authoring.keep_wire cid n h w now).
Proof. frames. Qed.
#[local] Hint Resolve sign_frame keep_wire_frame : frames.

Lemma author_internal_frame rotate cid ct meta ep : (forall c b, keeps unmoved (rotate c b)) ->
  keeps unmoved (Authoring.author_node_internal fuel rotate cid ct meta ep).
Proof. intros Hr. frames. Qed.
#[local] Hint Resolve author_internal_frame : frames.

Section Keys.
Variable author : ConversationId -> Content -> bytes -> option Z -> M (World S) (result MerkleToxError (list Effect)).
Hypothesis Hauthor : forall c ct m ep, keeps unmoved (author c ct m ep).

Lemma wrap_frame e_sk a p rs : keeps unmoved (Authoring.wrap_for_all e_sk a p rs).
Proof. frames. Qed.
#[local] Hint Resolve wrap_frame : frames.

Lemma rekey_frame cid : keeps unmoved (Authoring.sender_rekey author cid).
Proof. frames. Qed.
Lemma distribution_frame cid g o : keeps unmoved (Authoring.author_sender_key_distribution author cid g o).
Proof. frames. Qed.
Lemma jit_frame cid ts : keeps unmoved (Authoring.author_jit_sender_key_distribution author cid ts).
Proof. frames. Qed.
#[local] Hint Resolve distribution_frame : frames.
Lemma rotate_frame cid b : keeps unmoved (Authoring.rotate_conversation_key_impl author cid b).
Proof. frames. Qed.
End Keys.
#[local] Hint Resolve rekey_frame jit_frame rotate_frame : frames.

Lemma rotate_at_frame d : forall cid b, keeps unmoved (Authoring.rotate_at fuel d cid b).
Proof. induction d as [|d IH]; intros cid b; simpl; frames. Qed.
#[local] Hint Resolve rotate_at_frame : frames.
Lemma author_frame cid ct meta ep : keeps unmoved (Authoring.author_internal fuel cid ct meta ep).
Proof. unfold Authoring.author_internal, Authoring.rotate_impl. frames. Qed.
#[local] Hint Resolve author_frame : frames.

Lemma author_with_frame again cid ct meta : (forall c x m, keeps unmoved (again c x m)) -> keeps unmoved (Authoring.author_node_with fuel again cid ct meta).
Proof. intros Ha. frames. Qed.
#[local] Hint Resolve author_with_frame : frames.
Lemma author_node_frame cid ct meta : keeps unmoved (Authoring.author_node fuel cid ct meta).
Proof. unfold Authoring.author_node. frames. Qed.
#[local] Hint Resolve author_node_frame : frames.

(** *** Reception *)

Lemma authentic_frame cid n h : keeps unmoved (Verify.authentic cid n h).
Proof. frames. Qed.
Lemma key_wrap_frame cid n h epk : forall ws, keeps unmoved (Processor.open_key_wrap cid n h epk ws).
Proof. intros ws. induction ws as [|w ws IH]; simpl; frames. Qed.
#[local] Hint Resolve authentic_frame key_wrap_frame : frames.
Lemma receive_frame cid n h : keeps unmoved (Processor.receive_keys cid n h).
Proof. frames. Qed.
Lemma verdict_frame cid n h j a : keeps unmoved (Processor.verdict cid n h j a).
Proof. frames. Qed.
Lemma unbranched_frame cid n v : keeps unmoved (Processor.unbranched cid n v).
Proof. frames. Qed.
Lemma keep_node_frame cid n v : keeps unmoved (Processor.keep_node cid n v).
Proof. frames. Qed.
Lemma sequence_frame cid n h : keeps unmoved (Processor.check_sequence cid n h).
Proof. frames. Qed.
#[local] Hint Resolve receive_frame verdict_frame unbranched_frame keep_node_frame sequence_frame : frames.
Lemma admit_frame cid n h now : keeps unmoved (Processor.admit_node fuel cid n h now).
Proof. frames. Qed.
#[local] Hint Resolve admit_frame : frames.

Lemma consume_frame opk : keeps unmoved (consume_opk_sk (S := S) opk).
Proof. frames. Qed.
Lemma tell_frame cid n blobs a : keeps unmoved (Processor.tell_sessions cid n blobs a).
Proof. frames. Qed.
Lemma ensure_frame cid : keeps unmoved (update (S := S) (Processor.ensure_conversation cid)).
Proof. apply keeps_modify. intros w. unfold same, settled, Processor.ensure_conversation. simpl. by case_match. Qed.
#[local] Hint Resolve consume_frame tell_frame ensure_frame : frames.

(** What looks again decides what else may change. *)
Section Look.
Variable R : World S -> World S -> Prop.
Context {HR : PreOrder R} (Hsame : forall w w', unmoved w w' -> R w w').

Lemma lifted {A} (m : M (World S) A) : keeps unmoved m -> keeps R m.
Proof. intros Hm. by eapply keeps_mono. Qed.

Lemma settle_keeps look cid n h now blobs v a : (forall l c, look = Some l -> keeps R (l c)) -> keeps R (Processor.settle_node fuel look cid n h now blobs v a).
Proof.
  intros Hlook. unfold Processor.settle_node, Authoring.rotate_impl.
  repeat first [apply lifted; solve [frames] | apply keeps_try; [done| |intros ?] | apply keeps_bind; [done| |intros ?]].
  destruct look as [l|]; [|by apply keeps_pure]. case_match; [by apply Hlook|by apply keeps_pure].
Qed.

Lemma handle_keeps look cid n blobs : (forall l c, look = Some l -> keeps R (l c)) -> keeps R (Processor.handle_internal fuel look cid n blobs).
Proof.
  intros Hlook. unfold Processor.handle_internal.
  apply keeps_bind; [done| |intros h]; [apply lifted; frames|]. apply keeps_bind; [done| |intros now]; [apply lifted; frames|].
  apply keeps_bind; [done| |intros seen]; [apply lifted; frames|]. destruct seen; [by apply keeps_good|].
  apply keeps_try; [done| |intros [[[v a] fx] opks]]; [apply lifted; frames|].
  apply keeps_bind; [done| |intros _]; [apply lifted; frames|].
  apply keeps_try; [done| |intros settled]; [by apply settle_keeps|]. by apply keeps_good.
Qed.
End Look.

Lemma quiet_frame cid n blobs : keeps unmoved (Processor.handle_quiet fuel cid n blobs).
Proof. apply handle_keeps; [apply _|done|done]. Qed.
#[local] Hint Resolve quiet_frame : frames.

Lemma reverify_round_frame cid ns : keeps unmoved (Processor.reverify_round fuel cid ns).
Proof. induction ns as [|n ns IH]; simpl; frames. Qed.
#[local] Hint Resolve reverify_round_frame : frames.
Lemma reverify_frame rounds cid : keeps unmoved (Processor.reverify_speculative_for_conversation fuel rounds cid).
Proof. induction rounds as [|rounds IH]; simpl; frames. Qed.

End Frames.
End EngineFrames.
#[export] Hint Resolve EngineFrames.network_time_frame EngineFrames.context_frame EngineFrames.validate_frame EngineFrames.judge_frame EngineFrames.verify_frame
  EngineFrames.revalidate_frame EngineFrames.side_effects_frame EngineFrames.author_internal_frame EngineFrames.rekey_frame EngineFrames.rotate_at_frame
  EngineFrames.author_frame EngineFrames.author_node_frame EngineFrames.admit_frame EngineFrames.quiet_frame EngineFrames.reverify_frame
  EngineFrames.consume_frame : frames.
