(* ===== verification/Handlers.v ===== *)
(** The messages of peers ([engine/handlers/mod.rs]): one definition per message, and
    [handle_message], which drops what blacklisted peers send.

    An operation that returns early with its effects does so with an [Ok]. *)

From S2P Require Import Prelude Protocol MsgPack ToxTypes Derive Iblt Merkle Dag DagWire Identity Conversation SyncSession Cas Clock Messages Monad Engine Overlay Verify SideEffects Authoring Processor.
From stdpp Require Import gmap sorting strings.
#[local] Open Scope Z_scope.
#[local] Open Scope list_scope.
#[local] Open Scope monad_scope.

Module Handlers.
Import Dag Crypto DagWire Messages Engine.
#[local] Existing Instance Cas.eta_BlobInfo.

Definition OPAQUE_STORE_QUOTA : Z := 100 * 1024 * 1024.
Definition MAX_OPAQUE_REQUESTS_PER_VOUCHER : Z := 500.
Definition RATE_LIMIT_BACKOFF_MS : Z := 1000.
Definition COST_PER_CELL : f64 := F64.lit 1 100.

Section Handlers.
Context `{Rmp} `{Blake3Hash} `{Ed25519} `{StrictVerify} `{ChaCha20} `{Zstd} `{X25519} `{Blake3} `{Bao} `{HashOrder} `{LruCache Identity.PathKey Z}
  `{LruCache NodeHash (gset NodeHash)} `{StdRng} `{TimeProvider} {S : Type} `{NodeStore S}.
Variable fuel : nat.

#[local] Abbreviation Op A := (M (World S) A).
#[local] Abbreviation Fallible A := (M (World S) (result MerkleToxError A)).

(** ** Sessions *)

Definition put_session (k : PhysicalDevicePk * ConversationId) (s : SyncSession.PeerSession) : Op unit :=
  update (fun e => e <| sessions := <[k := s]> (sessions e) |>).
Definition put_active (k : PhysicalDevicePk * ConversationId) (s : SyncSession.SyncSession SyncSession.Active) : Op unit := put_session k (SyncSession.ActivePeer s).

(** [if let Some(PeerSession::Active(s)) = self.sessions.get_mut(..)] *)
Definition active_session (e : t) (k : PhysicalDevicePk * ConversationId) : option (SyncSession.SyncSession SyncSession.Active) :=
  match sessions e !! k with Some (SyncSession.ActivePeer s) => Some s | _ => None end.

(** Capabilities: the sessions with the peer that still shake hands become active and
    tell their heads. *)
Definition activate_sessions (sender : PhysicalDevicePk) (features : Z) : Op (list Effect) :=
  let* e := get_engine in
  let* st := get_disk in
  collect (iterate (sessions e)) (fun '(k, s) =>
    match s with
    | SyncSession.HandshakePeer s =>
        if bool_decide (k.1 = sender) then
          let active := SyncSession.activate s features in
          let heads := SyncSession.make_sync_heads_with_store active 0 (Some (Overlay.store_view st)) in
          put_active k (SyncSession.on_common (fun c => c <| SyncSession.heads_dirty := false |>) active) ;*
          pure [SendPacket sender (SyncHeadsMsg heads)]
        else pure []
    | _ => pure []
    end).

(** The active session of a peer in a conversation, made when there is none. *)
Definition session_for (k : PhysicalDevicePk * ConversationId) : Op (SyncSession.SyncSession SyncSession.Active * Instant) :=
  let* now := read_instant in
  let* e := get_engine in
  let* v := Overlay.read Overlay.view in
  let s := match default (SyncSession.HandshakePeer (SyncSession.new_handshake k.2 v false now)) (sessions e !! k) with
           | SyncSession.HandshakePeer s => SyncSession.activate s 0
           | SyncSession.ActivePeer s => s
           end in
  put_active k s ;* pure (s, now).

(** [next_fetch_batch] and its request. *)
Definition request_batch (sender : PhysicalDevicePk) (s : SyncSession.SyncSession SyncSession.Active) : Op (list Effect) :=
  let '(s, req) := SyncSession.next_fetch_batch s MAX_BATCH_SIZE in
  put_active (sender, SyncSession.conversation_id s) s ;*
  pure match req with Some r => [SendPacket sender (FetchBatchMsg r)] | None => [] end.

Definition on_sync_heads (sender : PhysicalDevicePk) (m : SyncSession.SyncHeads) : Fallible (list Effect) :=
  let k := (sender, SyncSession.heads_conversation m) in
  let* (s, _) := session_for k in
  let* v := Overlay.read Overlay.view in
  let s := SyncSession.handle_sync_heads s m v in
  let '(s, req) := SyncSession.next_fetch_batch s MAX_BATCH_SIZE in
  put_active k s ;*
  good match req with Some r => [SendPacket sender (FetchBatchMsg r)] | None => [] end.

(** ** Sketches *)

(** A node for a peer that lacks it: the stored wire form, or packed in the clear. *)
Definition send_node (sender : PhysicalDevicePk) (cid : ConversationId) (h : NodeHash) : Op (list Effect) :=
  let* wire := Overlay.read (fun c st => Overlay.get_wire_node c st h) in
  match wire with
  | Some w => pure [SendPacket sender (MerkleNodeMsg cid h w)]
  | None =>
      let* node := Overlay.read (fun c st => Overlay.get_node c st h) in
      match node with
      | Some n =>
          let* packed := lift (pack_wire n PackException true) in
          pure match packed with Ok w => [SendPacket sender (MerkleNodeMsg cid h w)] | Err _ => [] end
      | None => pure []
      end
  end.

(** The keys of the current epoch. *)
Definition current_keys (e : t) (cid : ConversationId) : option ConversationKeys :=
  s ← established e cid; Conversation.get_keys s (Conversation.current_epoch s).
Definition k_iblt_of (e : t) (cid : ConversationId) : option bytes := (fun k => derive_k_iblt (k_conv k) cid) <$> current_keys e cid.

(** [process_sketch]: effects, and whether the sketch could be decoded. *)
Definition process_sketch (k : PhysicalDevicePk * ConversationId) (s : SyncSession.SyncSession SyncSession.Active) (sketch : SyncSession.SyncSketch)
    (k_iblt : option bytes) : Fallible (list Effect * bool) :=
  let* v := Overlay.read Overlay.view in
  let* (s, r) := lift (SyncSession.handle_sync_sketch_keyed s sketch v k_iblt) in
  put_active k s ;*
  let*? d := pure r in
  let* (fx, decode_ok) :=
    match d with
    | SyncSession.Success _ missing_remotely =>
        let* fx := collect missing_remotely (send_node k.1 (SyncSession.sketch_conversation sketch)) in pure (fx, true)
    | SyncSession.Failed => pure ([SendPacket k.1 (SyncReconFail (SyncSession.sketch_conversation sketch) (SyncSession.sketch_range sketch))], false)
    end in
  let '(s, req) := SyncSession.next_fetch_batch s MAX_BATCH_SIZE in
  put_active k s ;*
  good (fx ++ match req with Some r => [SendPacket k.1 (FetchBatchMsg r)] | None => [] end, decode_ok).

(** A sketch that cannot be decoded empties the budget and blacklists its sender. *)
Definition process_or_punish (k : PhysicalDevicePk * ConversationId) (s : SyncSession.SyncSession SyncSession.Active) (sketch : SyncSession.SyncSketch) : Fallible (list Effect) :=
  let* e := get_engine in
  let*? (fx, sketch_ok) := process_sketch k s sketch (k_iblt_of e k.2) in
  if (sketch_ok : bool) then good fx
  else
    update (fun e => e <| sketch_cpu_budgets := alter (fun b => b <| remaining_ms := F64.of_Z 0 |>) k.1 (sketch_cpu_budgets e) |>) ;*
    blacklist_escalate k.1 ;*
    good fx.

Definition on_sync_sketch (sender : PhysicalDevicePk) (sketch : SyncSession.SyncSketch) : Fallible (list Effect) :=
  let k := (sender, SyncSession.sketch_conversation sketch) in
  let* (s, now) := session_for k in
  match IbltSketch.from_cell_count (len (SyncSession.sketch_cells sketch)) with
  | IbltSketch.Medium | IbltSketch.Large =>
      let* nonce := random_bytes 32 in
      let s := SyncSession.generate_challenge s sketch now nonce in
      put_active k s ;*
      good [SendPacket sender (ReconPowChallenge k.2 nonce (SyncSession.effective_difficulty (SyncSession.common s)))]
  | _ =>
      let* budget_now := network_time_ms in
      let* e := get_engine in
      let* b := lift (refill (default (new_budget budget_now) (sketch_cpu_budgets e !! sender)) budget_now) in
      let '(b, affordable) := try_consume b (F64.mul (F64.of_Z (len (SyncSession.sketch_cells sketch))) COST_PER_CELL) in
      update (fun e => e <| sketch_cpu_budgets := <[sender := b]> (sketch_cpu_budgets e) |>) ;*
      if (affordable : bool) then process_or_punish k s sketch
      else good [SendPacket sender (SyncRateLimited k.2 RATE_LIMIT_BACKOFF_MS)]
  end.

Definition on_recon_fail (sender : PhysicalDevicePk) (cid : ConversationId) (range : SyncSession.SyncRange) : Op unit :=
  let* e := get_engine in
  match active_session e (sender, cid) with
  | Some s => put_active (sender, cid) (SyncSession.handle_sync_recon_fail s range)
  | None => pure tt
  end.

Definition on_shard_checksums (sender : PhysicalDevicePk) (cid : ConversationId) (shards : list (SyncSession.SyncRange * SyncSession.ShardHash)) : Fallible (list Effect) :=
  let* (s, _) := session_for (sender, cid) in
  let* v := Overlay.read Overlay.view in
  let* e := get_engine in
  let*? different := lift (SyncSession.handle_sync_shard_checksums s shards v) in
  try_collect different (fun range =>
    match SyncSession.get_iblt_tier s range with
    | Some tier => let*? sketch := lift (SyncSession.make_sync_sketch_keyed s range tier v (k_iblt_of e cid)) in good [SendPacket sender (SyncSketchMsg sketch)]
    | None => good []
    end).

Definition on_rate_limited (sender : PhysicalDevicePk) (cid : ConversationId) (retry_after_ms : Z) : Op unit :=
  let* e := get_engine in
  match sessions e !! (sender, cid) with
  | Some s =>
      let* now := read_instant in
      put_session (sender, cid) (SyncSession.on_peer_common (fun c => c <| SyncSession.rate_limited_until := Some (now + retry_after_ms * 1000000) |>) s)
  | None => pure tt
  end.

(** The solution to a peer's challenge; the search takes fuel. *)
Definition on_challenge (sender : PhysicalDevicePk) (cid : ConversationId) (nonce : SyncSession.PowNonce) (difficulty : Z) : Op (list Effect) :=
  let* solution := lift (SyncSession.solve_challenge fuel nonce difficulty 0) in
  pure [SendPacket sender (ReconPowSolution cid nonce solution)].

Definition on_solution (sender : PhysicalDevicePk) (cid : ConversationId) (nonce : SyncSession.PowNonce) (solution : Z) : Fallible (list Effect) :=
  let* e := get_engine in
  match active_session e (sender, cid) with
  | None => good []
  | Some s =>
      let* now := read_instant in
      let '(s, solved) := SyncSession.verify_solution s nonce solution now in
      put_active (sender, cid) s ;*
      if (solved : bool) then
        let '(s, sketch) := SyncSession.take_pending_sketch s nonce in
        put_active (sender, cid) s ;*
        match sketch with Some sk => process_or_punish (sender, cid) s sk | None => good [] end
      else good []
  end.

(** ** Acknowledged keys *)

Definition on_keywrap_ack (keywrap_hash : NodeHash) (recipient : PhysicalDevicePk) : Op unit :=
  let* e := get_engine in
  match keywrap_pending e !! keywrap_hash with
  | None => pure tt
  | Some p =>
      if bool_decide (pending_recipient p = recipient) then
        update (fun e => e <| keywrap_pending := delete keywrap_hash (keywrap_pending e) |>) ;*
        let cid := pending_conversation p in
        let '(acks, total) := default (0, 0) (keywrap_ack_counts e !! cid) in
        let* acks := lift (chk_u32 (acks + 1)) in
        let* enough := lift (if 0 <? total then twice ← chk_u32 (acks * 2); Some (total <=? twice) else Some false) in
        if (enough : bool) then
          update (fun e =>
            let e := match established e cid with
                     | Some s => e <| self_ephemeral_signing_keys := filter (fun k => Conversation.current_epoch s <= k.1) (self_ephemeral_signing_keys e) |>
                     | None => e
                     end in
            e <| keywrap_ack_counts := <[cid := (0, 0)]> (keywrap_ack_counts e) |>)
        else update (fun e => e <| keywrap_ack_counts := <[cid := (acks, total)]> (keywrap_ack_counts e) |>)
      else pure tt
  end.

(** ** Nodes *)

Definition on_fetch_batch (sender : PhysicalDevicePk) (m : SyncSession.FetchBatchReq) : Op (list Effect) :=
  let* e := get_engine in
  let cid := SyncSession.fetch_conversation m in
  match sessions e !! (sender, cid) with
  | Some _ => collect (SyncSession.hashes m) (send_node sender cid)
  | None => pure []
  end.

(** The order of eviction: locked entries last, cold before hot, then by rank. *)
Definition evict_before (locked : gset NodeHash) (rank : NodeHash -> Z) (hot_cutoff : Z) (a b : OpaqueEntry) : bool :=
  match bool_decide (opaque_hash a ∈ locked), bool_decide (opaque_hash b ∈ locked) with
  | true, false => false
  | false, true => true
  | _, _ =>
      let ra := rank (opaque_hash a) in let rb := rank (opaque_hash b) in
      match ra <? hot_cutoff, rb <? hot_cutoff with
      | true, false => true
      | false, true => false
      | _, _ => ra <=? rb
      end
  end.
Definition evicted_first (locked : gset NodeHash) (rank : NodeHash -> Z) (hot_cutoff : Z) (a b : OpaqueEntry) : Prop := evict_before locked rank hot_cutoff a b = true.
#[global] Instance evicted_first_dec locked rank cutoff : RelDecision (evicted_first locked rank cutoff).
Proof. intros a b. unfold evicted_first. apply _. Defined.

(** The loop that evicts while the quota is exceeded; each round removes an entry. *)
Fixpoint evict (n : nat) (locked : gset NodeHash) (rank : NodeHash -> Z) (hot_cutoff : Z) (total : Z) (entries : list OpaqueEntry) :
    option (Z * list OpaqueEntry * list NodeHash) :=
  if (OPAQUE_STORE_QUOTA <? total) && existsb (fun o => negb (bool_decide (opaque_hash o ∈ locked))) entries then
    match n, merge_sort (evicted_first locked rank hot_cutoff) entries with
    | Datatypes.S n, o :: rest =>
        total ← chk_usize (total - opaque_size o);
        '(total, kept, gone) ← evict n locked rank hot_cutoff total rest;
        Some (total, kept, opaque_hash o :: gone)
    | _, _ => None
    end
  else Some (total, entries, []).

Definition wire_size (w : WireNode) : Z := len (payload_data w) + len (encrypted_routing w) + len (wire_parents w) * 32.

(** A node that cannot be read yet is accounted for, within a quota per sender and
    one per conversation. *)
Definition store_opaque (sender : PhysicalDevicePk) (cid : ConversationId) (h : NodeHash) (w : WireNode) : Op (list Effect) :=
  let* now_ms := network_time_ms in
  let* e := get_engine in
  let* st := get_disk in
  let '(total, entries) := default (0, []) (opaque_store_usage e !! cid) in
  let sender_count := len (List.filter (fun o => bool_decide (opaque_sender o = sender)) entries) in
  let* (total, entries) := lift
    (if MAX_OPAQUE_REQUESTS_PER_VOUCHER <=? sender_count then Some (total, entries)
     else total ← chk_usize (total + wire_size w); Some (total, entries ++ [mkOpaque h (wire_size w) now_ms sender])) in
  let max_rank := SyncSession.max_head_rank (Overlay.store_view st) (get_heads st cid) in
  let hot_cutoff := sat_sub max_rank SyncSession.HOT_WINDOW_RANKS in
  let rank h := default 0 (Dag.get_rank (lookup_of st) h) in
  let* (total, entries, gone) := lift (evict (length entries) (promotion_locked e) rank hot_cutoff total entries) in
  update (fun e => e <| opaque_store_usage := <[cid := (total, entries)]> (opaque_store_usage e) |>) ;*
  let* e := get_engine in
  match active_session e (sender, cid) with
  | Some s => put_active (sender, cid) (SyncSession.on_wire_node_received s h w (Overlay.store_view st))
  | None => pure tt
  end ;*
  pure (DeleteWireNode cid <$> gone).

(** The sender that a cleartext node names belongs to a logical identity. *)
Definition resolve_author (senders : list (PhysicalDevicePk * LogicalIdentityPk)) (n : MerkleNode) : MerkleNode :=
  match List.find (fun p => bool_decide (p.1 = sender_pk n)) senders with Some (_, logical) => n <| author_pk := logical |> | None => n end.

(** Reading a wire node: in the clear, or by the keys of the conversation. *)
Definition read_wire (e : t) (sender : PhysicalDevicePk) (cid : ConversationId) (w : WireNode) : option (option MerkleNode) :=
  let senders := Processor.all_senders e cid in
  in_the_clear ← (if Permissions.contains (wire_flags w) FLAG_ENCRYPTED then Some None else Conversation.ok (unpack_wire_exception w));
  match in_the_clear with
  | Some n => Some (Some (resolve_author senders n))
  | None =>
      match established e cid with
      | Some s =>
          let senders := if existsb (fun p => bool_decide (p.1 = sender)) senders then senders else senders ++ [(sender, to_logical sender)] in
          Processor.unpack_with s w senders
      | None => Some None
      end
  end.

Definition on_merkle_node (sender : PhysicalDevicePk) (cid : ConversationId) (h : NodeHash) (w : WireNode) (blobs : option BlobStore) : Fallible (list Effect) :=
  let* e := get_engine in
  (if bool_decide (is_Some (active_session e (sender, cid))) then update_cache (Overlay.put_wire_node cid h w) else pure tt) ;*
  let* unpacked := lift (read_wire e sender cid w) in
  match unpacked with
  | Some n =>
      let*? fx := Processor.handle_node_internal_ext fuel cid n blobs true in
      Processor.forget_opaque cid h ;*
      good (WriteWireNode cid h w :: fx)
  | None => let* fx := store_opaque sender cid h w in good (WriteWireNode cid h w :: fx)
  end.

(** ** Blobs *)

Definition on_blob_query (sender : PhysicalDevicePk) (h : NodeHash) (blobs : option BlobStore) : list Effect :=
  match (bs ← blobs; get_blob_info bs h) with Some info => [SendPacket sender (BlobAvail info)] | None => [] end.

Definition on_blob_avail (sender : PhysicalDevicePk) (info : Cas.BlobInfo) (blobs : option BlobStore) : Op (list Effect) :=
  let h := Cas.info_hash info in
  let* e := get_engine in
  match blob_syncs e !! h with
  | Some s =>
      let mismatch := bool_decide (is_Some (Cas.bao_root (Cas.info s))) && negb (bool_decide (Cas.bao_root info = Cas.bao_root (Cas.info s))) in
      update (fun e => e <| blob_syncs := <[h := if mismatch then Cas.remove_seeder s sender else Cas.add_seeder s sender]> (blob_syncs e) |>) ;*
      pure []
  | None =>
      match blobs with
      | Some bs =>
          if has_blob bs h then pure []
          else
            let local_info := info <| Cas.status := Cas.Pending |> in
            update (fun e => e <| blob_syncs := <[h := Cas.add_seeder (Cas.new local_info) sender]> (blob_syncs e) |>) ;*
            pure [WriteBlobInfo local_info]
      | None => pure []
      end
  end.

Definition on_blob_req (sender : PhysicalDevicePk) (r : Cas.BlobReq) (blobs : option BlobStore) : Op (list Effect) :=
  match blobs with
  | Some bs =>
      let* chunk := lift (get_chunk_with_proof bs (Cas.req_hash r) (Cas.req_offset r) (Cas.req_length r)) in
      pure match chunk with
           | Ok (data, proof) => [SendPacket sender (BlobDataMsg (Cas.mkData (Cas.req_hash r) (Cas.req_offset r) data proof))]
           | Err _ => []
           end
  | None => pure []
  end.

Definition on_blob_data (sender : PhysicalDevicePk) (d : Cas.BlobData) (blobs : option BlobStore) : Op (list Effect) :=
  let h := Cas.data_hash d in
  let* e := get_engine in
  match blob_syncs e !! h with
  | None => pure []
  | Some s =>
      let '(s, received) := Cas.on_chunk_received s d in
      if received && bool_decide (is_Some blobs) then
        let cid := match List.filter (fun p => bool_decide (p.1.1 = sender)) (iterate (sessions e)) with (k, _) :: _ => k.2 | [] => zero_hash end in
        let chunk := WriteChunk cid h (Cas.offset d) (Cas.data d) (Some (Cas.proof d)) in
        if Cas.is_complete (Cas.tracker s) then
          update (fun e => e <| blob_syncs := delete h (blob_syncs e) |>) ;*
          pure [chunk; WriteBlobInfo ((Cas.info s) <| Cas.status := Cas.Available |>); EmitEvent (BlobAvailable h)]
        else update (fun e => e <| blob_syncs := <[h := s]> (blob_syncs e) |>) ;* pure [chunk]
      else update (fun e => e <| blob_syncs := <[h := Cas.remove_seeder s sender]> (blob_syncs e) |>) ;* pure []
  end.

(** ** Healing and errors *)

(** The members that an anchoring snapshot names. *)
Definition in_snapshot (n : MerkleNode) (requester : PhysicalDevicePk) : bool :=
  match content n with Control (AnchorSnapshot d _) => existsb (fun m => bool_decide (member_pk m = to_logical requester)) (members d) | _ => false end.

Definition on_reinclusion_request (sender : PhysicalDevicePk) (cid : ConversationId) (requester : PhysicalDevicePk) (snapshot_hash : NodeHash) : Op (list Effect) :=
  let* now_ms := network_time_ms in
  let* e := get_engine in
  let* st := get_disk in
  let answer b := SendPacket sender (ReinclusionResponse cid b) in
  if Identity.is_admin (identity_manager e) Identity.global cid (self_pk e) (to_logical (self_pk e)) now_ms u64_max then
    match get_node st snapshot_hash with
    | Some n =>
        if is_verified st snapshot_hash then
          if in_snapshot n requester then
            let* r := Authoring.rotate_conversation_key fuel cid in
            pure (match r with Ok fx => fx ++ [answer true] | Err _ => [answer false] end)
          else pure [answer false]
        else pure [answer false]
    | None => pure [answer false]
    end
  else pure [].

(** An admin node that is not known is fetched first. *)
Definition on_admin_gossip (sender : PhysicalDevicePk) (cid : ConversationId) (h : NodeHash) : Op unit :=
  let* known := Overlay.read (fun c st => Overlay.has_node c st h) in
  let* e := get_engine in
  match (if (known : bool) then None else active_session e (sender, cid)) with
  | Some s =>
      let c := SyncSession.common s in
      if bool_decide (h ∈ SyncSession.in_flight_fetches c) || bool_decide (h ∈ SyncSession.missing_admin_nodes c) then pure tt
      else put_active (sender, cid) (SyncSession.on_common (fun c =>
             c <| SyncSession.missing_admin_nodes := SyncSession.missing_admin_nodes c ++ [h] |> <| SyncSession.heads_dirty := true |>) s)
  | None => pure tt
  end.

(** [(BASE << attempts.min(2)).min(MAX)] *)
Definition backoff_ms (attempts : Z) : Z := Z.min (Z.shiftl HANDSHAKE_RETRY_BASE_MS (Z.min attempts 2)) HANDSHAKE_RETRY_MAX_MS.

Definition on_handshake_error (sender : PhysicalDevicePk) (cid : ConversationId) : Op unit :=
  let* now := network_time_ms in
  let* e := get_engine in
  let r := default (mkRetry 0 0 0) (handshake_retry_state e !! (cid, sender)) in
  let r := if window_start_ms r =? 0 then r <| window_start_ms := now |> else r in
  let* a := lift (chk_u32 (retry_attempts r + 1)) in
  let* next := lift (chk_i64 (now + backoff_ms a)) in
  update (fun e => e <| handshake_retry_state := <[(cid, sender) := r <| retry_attempts := a |> <| next_retry_ms := next |>]> (handshake_retry_state e) |>).

(** ** The dispatch *)

Definition dispatch (sender : PhysicalDevicePk) (m : ProtocolMessage) (blobs : option BlobStore) : Fallible (list Effect) :=
  let quiet (op : Op unit) : Fallible (list Effect) := op ;* good [] in
  let handshake_complete := EmitEvent (PeerHandshakeComplete sender) in
  match m with
  | CapsAnnounce _ features => let* fx := activate_sessions sender features in good (fx ++ [SendPacket sender (CapsAck 1 0); handshake_complete])
  | CapsAck _ features => let* fx := activate_sessions sender features in good (fx ++ [handshake_complete])
  | SyncHeadsMsg hs => on_sync_heads sender hs
  | SyncSketchMsg sketch => on_sync_sketch sender sketch
  | SyncReconFail cid range => quiet (on_recon_fail sender cid range)
  | SyncShardChecksums cid shards => on_shard_checksums sender cid shards
  | SyncRateLimited cid retry_after_ms => quiet (on_rate_limited sender cid retry_after_ms)
  | KeywrapAck h recipient => quiet (on_keywrap_ack h recipient)
  | ReconPowChallenge cid nonce difficulty => let* fx := on_challenge sender cid nonce difficulty in good fx
  | ReconPowSolution cid nonce solution => on_solution sender cid nonce solution
  | FetchBatchMsg req => let* fx := on_fetch_batch sender req in good fx
  | MerkleNodeMsg cid h w => on_merkle_node sender cid h w blobs
  | BlobQuery h => good (on_blob_query sender h blobs)
  | BlobAvail info => let* fx := on_blob_avail sender info blobs in good fx
  | BlobReqMsg r => let* fx := on_blob_req sender r blobs in good fx
  | BlobDataMsg d => let* fx := on_blob_data sender d blobs in good fx
  | ReinclusionRequest cid requester snapshot => let* fx := on_reinclusion_request sender cid requester snapshot in good fx
  | ReinclusionResponse _ _ => good []
  | HandshakeError cid _ => quiet (on_handshake_error sender cid)
  | AdminGossip cid h => quiet (on_admin_gossip sender cid h)
  end.

Definition handle_message (sender : PhysicalDevicePk) (m : ProtocolMessage) (blobs : option BlobStore) : Fallible (list Effect) :=
  clear_pending ;*
  let* now := network_time_ms in
  let* e := get_engine in
  if is_blacklisted e sender now then good [] else dispatch sender m blobs.

End Handlers.
End Handlers.
