(* ===== verification/OpaqueTheory.v ===== *)
(** The accounts of the nodes that cannot be read yet: whatever messages arrive, each
    conversation's total is the sum of its entries and within the quota, and no peer
    has more than its share. *)

From S2P Require Import Prelude Protocol MsgPack ToxTypes Derive Iblt Merkle Dag DagWire Identity Conversation SyncSession Cas Clock Messages Monad Engine Overlay Verify SideEffects Authoring Processor EngineFrames Handlers.
From stdpp Require Import gmap sorting strings.
#[local] Open Scope Z_scope.
#[local] Open Scope list_scope.
#[local] Open Scope monad_scope.

Module OpaqueTheory.
Import Dag Crypto DagWire Messages Engine.

(** ** The accounts of one conversation *)

Definition total_size (l : list OpaqueEntry) : Z := zsum opaque_size l.
Definition count_of (sender : PhysicalDevicePk) (l : list OpaqueEntry) : Z := len (List.filter (fun o => bool_decide (opaque_sender o = sender)) l).

(** The total is that of the entries, and no sender has more than 500. *)
Record balanced (total : Z) (l : list OpaqueEntry) : Prop := {
  balanced_total : total = total_size l;
  balanced_sizes : Forall (fun o => 0 <= opaque_size o) l;
  balanced_share : forall sender, count_of sender l <= Handlers.MAX_OPAQUE_REQUESTS_PER_VOUCHER
}.

Lemma filter_perm {A} (f : A -> bool) l l' : l ≡ₚ l' -> List.filter f l ≡ₚ List.filter f l'.
Proof. induction 1; simpl; repeat case_match; by eauto using Permutation. Qed.

Lemma total_size_perm l l' : l ≡ₚ l' -> total_size l = total_size l'.
Proof. unfold total_size. induction 1; simpl in *; try lia; congruence. Qed.

Lemma total_size_nonneg l : Forall (fun o => 0 <= opaque_size o) l -> 0 <= total_size l.
Proof. unfold total_size. induction 1; simpl; lia. Qed.

Lemma balanced_perm total l l' : l ≡ₚ l' -> balanced total l -> balanced total l'.
Proof.
  intros Hl [-> Hs Hc]. split; [by apply total_size_perm|by rewrite <- Hl|]. intros sender. specialize (Hc sender).
  unfold count_of, len in *. by rewrite <- (filter_perm _ _ _ Hl).
Qed.

Lemma balanced_cons total o l : balanced total (o :: l) -> balanced (total - opaque_size o) l /\ 0 <= opaque_size o <= total.
Proof.
  intros [-> [Ho Hs]%Forall_cons Hc]. unfold total_size in *. simpl. pose proof (total_size_nonneg l Hs) as Hl. unfold total_size in Hl. split; [|lia].
  split; [unfold total_size; lia|done|]. intros sender. specialize (Hc sender). unfold count_of, len in *. simpl in Hc. case_match; simpl in *; lia.
Qed.

(** [swap_remove] takes out one element. *)
Lemma swap_remove_perm {A} (l : list A) i x : l !! i = Some x -> l ≡ₚ x :: Processor.swap_remove i l.
Proof.
  intros Hi. unfold Processor.swap_remove. pose proof (rev_involutive l) as Hr. destruct (List.rev l) as [|y r]; simpl in Hr; [by subst|].
  subst l. set (l0 := List.rev r) in *. rewrite length_app. change (length [y]) with 1%nat. destruct (Nat.eqb_spec (Datatypes.S i) (length l0 + 1)) as [Hlast|Hlast].
  - rewrite lookup_app_r in Hi by lia. replace (i - length l0)%nat with 0%nat in Hi by lia. injection Hi as ->.
    rewrite take_app_le, take_ge by lia. by rewrite Permutation_app_comm.
  - apply lookup_lt_Some in Hi as Hlt. rewrite length_app in Hlt. simpl in Hlt. rewrite lookup_app_l in Hi by lia.
    replace (pred (length l0 + 1)) with (length l0) by lia. rewrite insert_app_l by lia. rewrite take_app_le by (rewrite length_insert; lia).
    rewrite take_ge by (rewrite length_insert; lia). rewrite (insert_take_drop l0 i y) by lia.
    etrans; [apply Permutation_app_comm|]. simpl. rewrite <- (take_drop_middle l0 i x Hi) at 1.
    rewrite <- !Permutation_middle. apply perm_swap.
Qed.

(** ** Eviction *)

(** Eviction ends within the quota, unless all that is left is locked; it removes
    entries and panics at none. *)
Lemma evict_spec locked rank cutoff : forall n total l, balanced total l -> total <= usize_max -> (length l <= n)%nat ->
  exists total' kept gone, Handlers.evict n locked rank cutoff total l = Some (total', kept, gone) /\ balanced total' kept /\ total' <= total /\
    (total' <= Handlers.OPAQUE_STORE_QUOTA \/ forall o, o ∈ kept -> opaque_hash o ∈ locked).
Proof.
  induction n as [|n IH]; intros total l Hb Hmax Hn.
  - destruct l; [|simpl in Hn; lia]. exists total, [], []. simpl. rewrite andb_false_r. split; [done|]. split; [done|]. split; [done|].
    right. intros o Ho. inversion Ho.
  - simpl. destruct (_ && _) eqn:Hover.
    + pose proof (merge_sort_Permutation (Handlers.evicted_first locked rank cutoff) l) as Hperm.
      destruct (merge_sort _ l) as [|o rest]; [apply Permutation_nil in Hperm as ->; by rewrite andb_false_r in Hover|].
      symmetry in Hperm. pose proof (balanced_perm _ _ _ Hperm Hb) as [Hrest Ho]%balanced_cons. apply Permutation_length in Hperm. simpl in Hperm.
      destruct (IH (total - opaque_size o) rest) as (total' & kept & gone & E & Hk & Hle & Hq); [done|lia|lia|].
      rewrite (chk_usize_ok (total - opaque_size o)) by lia. simpl. rewrite E. simpl.
      exists total', kept, (opaque_hash o :: gone). split; [done|]. split; [done|]. split; [lia|done].
    + exists total, l, []. split; [done|]. split; [done|]. split; [done|]. apply andb_false_iff in Hover as [Hq|Hall]; [left; lia|].
      right. intros o Ho. destruct (decide (opaque_hash o ∈ locked)) as [|Hout]; [done|]. exfalso.
      assert (existsb (fun o => negb (bool_decide (opaque_hash o ∈ locked))) l = true); [|congruence].
      apply existsb_exists. exists o. split; [by apply list_elem_of_In|]. by rewrite bool_decide_eq_false_2.
Qed.

(** ** The engine *)

Section Opaque.
Context `{Rmp} `{Blake3Hash} `{Ed25519} `{StrictVerify} `{ChaCha20} `{Zstd} `{X25519} `{Blake3} `{Bao} `{HashOrder} `{LruCache Identity.PathKey Z}
  `{LruCache NodeHash (gset NodeHash)} `{StdRng} `{TimeProvider} {S : Type} `{NodeStore S}.
Variable fuel : nat.

(** Between messages: nothing is locked, and every account is balanced and within the
    quota. *)
Definition accounted (u : gmap ConversationId (Z * list OpaqueEntry)) : Prop :=
  forall cid total l, u !! cid = Some (total, l) -> balanced total l /\ total <= Handlers.OPAQUE_STORE_QUOTA.
Record opaque_ok (w : World S) : Prop := {
  unlocked : promotion_locked (engine w) = ∅;
  within_quota : accounted (opaque_store_usage (engine w))
}.

(** What the operations below keep: the locks, and balanced accounts. *)
Definition accounts (w : World S) := (opaque_store_usage (engine w), promotion_locked (engine w)).
Definition kept_ok (w w' : World S) : Prop :=
  promotion_locked (engine w') = promotion_locked (engine w) /\
  (accounted (opaque_store_usage (engine w)) -> accounted (opaque_store_usage (engine w'))).
#[local] Instance kept_ok_preorder : PreOrder kept_ok.
Proof. split; [done|]. intros w1 w2 w3 [L1 A1] [L2 A2]. split; [congruence|auto]. Qed.

Lemma settled_accounts {A} (m : M (World S) A) : keeps (same EngineFrames.settled) m -> keeps (same accounts) m.
Proof. intros Hm. eapply keeps_mono; [exact Hm|]. unfold same, EngineFrames.settled, accounts. intros w w' E. congruence. Qed.
Lemma accounts_kept {A} (m : M (World S) A) : keeps (same accounts) m -> keeps kept_ok m.
Proof. intros Hm. eapply keeps_mono; [exact Hm|]. unfold same, accounts. intros w w' [= E1 E2]. split; [done|]. by rewrite E1. Qed.
Lemma settled_kept {A} (m : M (World S) A) : keeps (same EngineFrames.settled) m -> keeps kept_ok m.
Proof. intros Hm. by apply accounts_kept, settled_accounts. Qed.

Ltac leaf := unfold same, accounts; simpl; repeat case_match; reflexivity.
Ltac frames := EngineFrames.frames_by leaf.
#[local] Hint Resolve settled_accounts | 5 : frames.

Lemma accounted_insert u cid total l : accounted u -> balanced total l -> total <= Handlers.OPAQUE_STORE_QUOTA -> accounted (<[cid := (total, l)]> u).
Proof.
  intros Hu Hb Hq c t k. destruct (decide (c = cid)) as [->|Hc]; [rewrite lookup_insert_eq|rewrite lookup_insert_ne by done; apply Hu].
  by intros [= <- <-].
Qed.

Lemma forget_keeps cid h : keeps kept_ok (Processor.forget_opaque (S := S) cid h).
Proof.
  intros w w' a E. unfold Processor.forget_opaque in E. EngineFrames.steps E.
  destruct (opaque_store_usage (engine w) !! cid) as [[total l]|] eqn:Hu; [|by EngineFrames.steps E].
  destruct (list_find _ l) as [[i o]|] eqn:Hf; [|by EngineFrames.steps E]. EngineFrames.steps E. apply chk_Some in E0 as [-> Hr].
  split; [done|]. simpl. intros Ha. apply list_find_Some in Hf as (Hi & _ & _). destruct (Ha _ _ _ Hu) as [Hb Hq].
  pose proof (balanced_perm _ _ _ (swap_remove_perm l i o Hi) Hb) as [Hb' Ho]%balanced_cons. apply accounted_insert; [done|done|lia].
Qed.

Ltac kept := repeat first [assumption | apply settled_kept; solve [EngineFrames.frames] | apply accounts_kept; solve [frames] | apply keeps_try; [apply _| |intros ?]
  | apply keeps_bind; [apply _| |intros ?] | apply keeps_good; apply _ | apply keeps_pure; apply _ | apply keeps_lift; apply _ | progress cbv zeta beta
  | lazymatch goal with |- keeps _ (match ?x with _ => _ end) => destruct x end].

Lemma promote_keeps s cid h : keeps kept_ok (Processor.promote fuel s cid h).
Proof.
  intros w w' a E. unfold Processor.promote in E. EngineFrames.step E. case_bool_decide as Hl; [by EngineFrames.steps E|].
  do 2 EngineFrames.step E. apply bind_inv in E as (w1 & [fx b] & Eout & E). EngineFrames.steps E.
  match type of Eout with ?m ?w0 = _ => assert (keeps kept_ok m) as Hm end.
  { pose proof (forget_keeps cid h). kept. }
  destruct (Hm _ _ _ Eout) as [Hlock Hacc]. split; [|exact Hacc]. simpl in *. rewrite Hlock. set_solver.
Qed.

Lemma promote_round_keeps s cid hs : keeps kept_ok (Processor.promote_round fuel s cid hs).
Proof. induction hs as [|h hs IH]; simpl; [kept|]. pose proof (promote_keeps s cid h). kept. Qed.

Lemma reverify_opaque_keeps rounds cid : keeps kept_ok (Processor.reverify_opaque_nodes fuel rounds cid).
Proof.
  induction rounds as [|rounds IH]; simpl; [kept|]. kept. apply promote_round_keeps.
Qed.

Lemma handle_node_keeps cid n blobs again : keeps kept_ok (Processor.handle_node_internal_ext fuel cid n blobs again).
Proof.
  apply EngineFrames.handle_keeps; [apply _| |].
  - unfold same, EngineFrames.settled. intros w w' [= _ _ _ _ E1 E2 _]. split; [done|]. by rewrite E1.
  - intros look c. destruct again; [|done]. intros [= <-]. unfold Processor.look_again. pose proof (reverify_opaque_keeps fuel c). kept.
Qed.

Lemma count_app sender l k : count_of sender (l ++ k) = count_of sender l + count_of sender k.
Proof. unfold count_of, len. rewrite List.filter_app, length_app. lia. Qed.

(** A stored node is booked, while its sender has room. *)
Lemma book_balanced total l h size now sender : balanced total l -> 0 <= size -> count_of sender l < Handlers.MAX_OPAQUE_REQUESTS_PER_VOUCHER ->
  balanced (total + size) (l ++ [mkOpaque h size now sender]).
Proof.
  intros [-> Hs Hc] Hsize Hroom. split.
  - unfold total_size. rewrite zsum_app, zsum_cons. simpl. lia.
  - apply Forall_app. split; [done|]. by repeat constructor.
  - intros x. rewrite count_app. specialize (Hc x). unfold count_of at 2. simpl. case_bool_decide as Hx; [subst x|]; unfold len; simpl; lia.
Qed.

Lemma wire_size_nonneg w : 0 <= Handlers.wire_size w.
Proof. unfold Handlers.wire_size, len. lia. Qed.

Lemma store_opaque_ok sender cid h wire w w' fx : opaque_ok w -> Handlers.store_opaque sender cid h wire w = Some (w', fx) -> opaque_ok w'.
Proof.
  intros [Hl Ha] E. unfold Handlers.store_opaque in E. EngineFrames.step E. apply EngineFrames.network_time_frame in E0.
  unfold same, EngineFrames.settled in E0. injection E0 as _ _ _ _ Eu El _. rewrite <- El in Hl. rewrite <- Eu in Ha. clear Eu El w. rename w0 into w.
  do 2 EngineFrames.step E. destruct (default (0, []) (opaque_store_usage (engine w) !! cid)) as [total l] eqn:Hu.
  assert (balanced total l /\ total <= Handlers.OPAQUE_STORE_QUOTA) as [Hb Hq].
  { destruct (opaque_store_usage (engine w) !! cid) as [[t k]|] eqn:Hk; simpl in Hu; injection Hu as <- <-; [by apply (Ha cid)|]. split; [|done].
    split; [done|done|]. intros x. done. }
  EngineFrames.step E. destruct a0 as [total1 l1].
  assert (balanced total1 l1 /\ total1 <= usize_max) as [Hb1 Hq1].
  { destruct (Z.leb_spec Handlers.MAX_OPAQUE_REQUESTS_PER_VOUCHER (len (List.filter (fun o => bool_decide (opaque_sender o = sender)) l))) as [|Hroom].
    - injection E0 as <- <-. split; [done|]. unfold Handlers.OPAQUE_STORE_QUOTA, usize_max in *. lia.
    - destruct (chk_usize _) as [x|] eqn:Hx; [|done]. apply chk_Some in Hx as [-> Hx]. injection E0 as <- <-. split; [|lia].
      apply book_balanced; [done|apply wire_size_nonneg|done]. }
  EngineFrames.step E. destruct a0 as [[total2 l2] gone].
  match type of E1 with Handlers.evict ?n ?lk ?rk ?co _ _ = _ => destruct (evict_spec lk rk co n _ _ Hb1 Hq1 (le_n _)) as (t & k & g & E2 & Hb2 & Hle & Hq2) end.
  rewrite E2 in E1. injection E1 as -> -> ->. rewrite Hl in Hq2.
  assert (total2 <= Handlers.OPAQUE_STORE_QUOTA) as Hq3.
  { destruct Hq2 as [|Hall]; [done|]. destruct l2 as [|o l2]; [|exfalso; specialize (Hall o); set_solver].
    destruct Hb2 as [-> _ _]. done. }
  EngineFrames.steps E. destruct (Handlers.active_session _ _); unfold Handlers.put_active, Handlers.put_session in E1; EngineFrames.steps E1.
  all: split; [exact Hl|by apply accounted_insert].
Qed.

Lemma same_ok w w' : same accounts w w' -> opaque_ok w -> opaque_ok w'.
Proof. intros [= Eu El] [Hl Ha]. split; [congruence|]. by rewrite Eu. Qed.
Lemma kept_ok_ok w w' : kept_ok w w' -> opaque_ok w -> opaque_ok w'.
Proof. intros [El Eu] [Hl Ha]. split; [congruence|auto]. Qed.

(** *** Messages *)

Lemma process_sketch_frame k s sketch k_iblt : keeps (same accounts) (Handlers.process_sketch k s sketch k_iblt).
Proof. frames. Qed.
Lemma blacklist_frame peer : keeps (same accounts) (blacklist_escalate (S := S) peer).
Proof. frames. Qed.
#[local] Hint Resolve process_sketch_frame blacklist_frame : frames.
Lemma punish_frame k s sketch : keeps (same accounts) (Handlers.process_or_punish k s sketch).
Proof. frames. Qed.
#[local] Hint Resolve punish_frame : frames.

Lemma rotate_conversation_frame cid : keeps (same accounts) (Authoring.rotate_conversation_key fuel cid).
Proof. apply settled_accounts. unfold Authoring.rotate_conversation_key, Authoring.rotate_impl. auto with frames. Qed.
#[local] Hint Resolve rotate_conversation_frame : frames.

Lemma merkle_node_ok sender cid h wire blobs w w' r : opaque_ok w -> Handlers.on_merkle_node fuel sender cid h wire blobs w = Some (w', r) -> opaque_ok w'.
Proof.
  intros Hok E. unfold Handlers.on_merkle_node in E. EngineFrames.steps E.
  match type of E0 with ?m _ = _ => assert (keeps (same accounts) m) as Hm by frames end.
  apply Hm, same_ok in E0 as Hok'; [|done]. clear E0 Hm. destruct a0 as [n|].
  - eapply kept_ok_ok; [|exact Hok']. match type of E with ?m _ = _ => assert (keeps kept_ok m) as Hm end; [|by eapply Hm].
    pose proof (handle_node_keeps cid n blobs true). pose proof (forget_keeps cid h). kept.
  - EngineFrames.steps E. by eapply store_opaque_ok.
Qed.

Lemma dispatch_ok sender m blobs w w' r : opaque_ok w -> Handlers.dispatch fuel sender m blobs w = Some (w', r) -> opaque_ok w'.
Proof.
  intros Hok E.
  assert (keeps (same accounts) (Handlers.dispatch fuel sender m blobs) \/ exists cid h wire, m = MerkleNodeMsg cid h wire) as [Hq|(cid & h & wire & ->)].
  { destruct m; first [by right; eauto | left; unfold Handlers.dispatch; cbv zeta]. all: frames. }
  - eapply same_ok; [by eapply Hq|done].
  - by eapply merkle_node_ok.
Qed.

(** What an operation may do to the invariant. *)
Definition sound (w w' : World S) : Prop := opaque_ok w -> opaque_ok w'.
#[local] Instance sound_preorder : PreOrder sound.
Proof. split; [by unfold Reflexive, sound|]. unfold sound. intros w1 w2 w3 Hs Ht Hok. auto. Qed.

Lemma accounts_sound {A} (m : M (World S) A) : keeps (same accounts) m -> keeps sound m.
Proof. intros Hm. eapply keeps_mono; [exact Hm|exact same_ok]. Qed.
Lemma kept_sound {A} (m : M (World S) A) : keeps kept_ok m -> keeps sound m.
Proof. intros Hm. eapply keeps_mono; [exact Hm|exact kept_ok_ok]. Qed.
Lemma dispatch_sound sender m blobs : keeps sound (Handlers.dispatch fuel sender m blobs).
Proof. intros w w' r E Hok. by eapply dispatch_ok. Qed.

Lemma message_sound sender m blobs : keeps sound (Handlers.handle_message fuel sender m blobs).
Proof.
  unfold Handlers.handle_message. apply keeps_bind; [apply _| |intros _]; [apply accounts_sound; frames|].
  apply keeps_bind; [apply _| |intros now]; [apply accounts_sound; frames|]. apply keeps_bind; [apply _| |intros e]; [apply accounts_sound; frames|].
  case_match; [apply keeps_good; apply _|apply dispatch_sound].
Qed.

Lemma node_sound cid n blobs : keeps sound (Processor.handle_node fuel cid n blobs).
Proof.
  unfold Processor.handle_node. apply keeps_bind; [apply _| |intros _]; [apply accounts_sound; frames|]. apply kept_sound, handle_node_keeps.
Qed.

End Opaque.
End OpaqueTheory.
