(* ===== verification/Poll.v ===== *)
(** What the engine does unasked ([engine/mod.rs]): it loads a conversation from the
    store, starts sessions, and [poll]s its timers. *)

From S2P Require Import Prelude Protocol MsgPack ToxTypes Derive Iblt Merkle Dag DagWire Identity Conversation SyncSession Cas Clock Messages Monad Engine Overlay Verify SideEffects Authoring Processor Handlers.
From stdpp Require Import gmap sorting strings.
#[local] Open Scope Z_scope.
#[local] Open Scope list_scope.
#[local] Open Scope monad_scope.

Module Poll.
Import Dag Crypto DagWire Messages Engine.

Definition VOUCHER_TIMEOUT_MS : Z := 10000.
Definition TRUST_RESTORED_EXPIRY_MS : Z := 30 * 24 * 60 * 60 * 1000.
Definition REINCLUSION_REQUEST_THRESHOLD_MS : Z := 25 * 24 * 60 * 60 * 1000.
Definition MAX_HANDSHAKES_PER_ANNOUNCEMENT : Z := 100.
Definition ANNOUNCEMENT_ROTATION_INTERVAL_MS : Z := 30 * 24 * 60 * 60 * 1000.
Definition KEYWRAP_ACK_TIMEOUT : Duration := from_secs 30.
Definition MAX_KEYWRAP_RETRIES : Z := 3.

(** A map whose values are computed one by one, as by [values_mut]. *)
Definition traverse {K V W} `{Countable K} (f : V -> option W) (m : gmap K V) : option (gmap K W) :=
  map_fold (fun k v acc => m ← acc; w ← f v; Some (<[k := w]> m)) (Some ∅) m.

Section Poll.
Context `{Rmp} `{Blake3Hash} `{Ed25519} `{StrictVerify} `{ChaCha20} `{Zstd} `{X25519} `{Blake3} `{Bao} `{HashOrder} `{LruCache Identity.PathKey Z}
  `{LruCache NodeHash (gset NodeHash)} `{StdRng} `{TimeProvider} {S : Type} `{NodeStore S}.
Variable fuel : nat.

#[local] Abbreviation Op A := (M (World S) A).
#[local] Abbreviation Fallible A := (M (World S) (result MerkleToxError A)).

(** ** Loading a conversation *)

(** What an admin node of the store says of the members. *)
Definition load_action (cid : ConversationId) (n : MerkleNode) (h : NodeHash) (ctx : Identity.CausalContext) : Op unit :=
  match content n with
  | Control (Genesis _ creator_pk _ _ created_at _) =>
      update (fun e => e <| identity_manager := Identity.add_member (identity_manager e) cid creator_pk 0 created_at |>)
  | Control (AuthorizeDevice cert) =>
      let* _ := Overlay.authorize_device ctx cid (author_pk n) cert (network_timestamp n) (topological_rank n) h in pure tt
  | Control (RevokeDevice target _) =>
      update (fun e => e <| identity_manager := Identity.revoke_device (identity_manager e) cid (sender_pk n) (author_pk n) target (topological_rank n)
                                                  (network_timestamp n) h |>)
  | Control (Invite i) =>
      update (fun e => e <| identity_manager := Identity.add_member (identity_manager e) cid (invitee_pk i) (invite_role i) (network_timestamp n) |>)
  | Control (Leave logical) =>
      update (fun e => e <| identity_manager := Identity.remove_member (identity_manager e) cid (sender_pk n) (author_pk n) logical (topological_rank n)
                                                  (network_timestamp n) h |>)
  | Control (Announcement pre_keys last_resort_key) =>
      update (fun e => e <| peer_announcements := <[sender_pk n := Announcement (SideEffects.valid_pre_keys (sender_pk n) pre_keys) last_resort_key]> (peer_announcements e) |>)
  | _ => pure tt
  end.

Definition load_admin_node (cid : ConversationId) (n : MerkleNode) : Op unit :=
  let* ctx := Overlay.causal_context_by (fun _ st => get_node st) fuel n in
  load_action cid n (Identity.evaluating_node_hash ctx) ctx.

(** The last sequence numbers of the devices. *)
Definition recall_seqs (cid : ConversationId) (ns : list MerkleNode) (c : PendingCache) : PendingCache :=
  c <| last_verified_sequences := foldl (fun m n => <[(cid, sender_pk n) := Z.max (default 0 (m !! (cid, sender_pk n))) (sequence_number n)]> m)
                                    (last_verified_sequences c) ns |>.

(** The node with the greatest sequence number, the first of equals, per sender. *)
Definition last_nodes (ns : list MerkleNode) : gmap PhysicalDevicePk MerkleNode :=
  foldl (fun m n => match m !! sender_pk n with
                    | Some o => if sequence_number o <? sequence_number n then <[sender_pk n := n]> m else m
                    | None => <[sender_pk n := n]> m
                    end) ∅ ns.

(** The loop over them: the ratchets go on from the stored keys. *)
Fixpoint recall_ratchets (cid : ConversationId) (ns : list (PhysicalDevicePk * MerkleNode)) (s : Conversation.Established) : Fallible Conversation.Established :=
  match ns with
  | [] => good s
  | (sender, n) :: ns =>
      let* h := lift (hash n) in
      let* st := get_disk in
      let*? stored := pure (get_ratchet_key st cid h) in
      recall_ratchets cid ns (match stored with
                              | Some (key, epoch) => (Conversation.commit_node_key s sender (sequence_number n) key h epoch).1
                              | None => s
                              end)
  end.

(** The keys of the store: the first becomes that of epoch 0. *)
Definition recall_keys (cid : ConversationId) (keys : list (Z * KConv)) (rotation_time count : Z) : option Conversation.Established :=
  match keys with
  | [] => None
  | (_, k) :: keys =>
      let s := Conversation.state (Conversation.new_established cid k rotation_time) in
      let s := foldl (fun s p => Conversation.add_epoch s p.1 p.2) s keys in
      Some (s <| Conversation.message_count := count |>)
  end.

Definition load_conversation_state (cid : ConversationId) : Fallible unit :=
  let* st := get_disk in
  let*? admin_nodes := pure (get_verified_nodes_by_type st cid Admin) in
  for_each admin_nodes (load_admin_node cid) ;*
  let*? content_nodes := pure (get_verified_nodes_by_type st cid ContentNode) in
  let all_nodes := admin_nodes ++ content_nodes in
  update_cache (recall_seqs cid all_nodes) ;*
  let*? keys := pure (get_conversation_keys st cid) in
  let put c : Fallible unit := update (fun e => e <| conversations := <[cid := c]> (conversations e) |>) ;* good tt in
  if bool_decide (keys = []) then put (Conversation.PendingConv (Conversation.new_pending cid))
  else
    let* now := network_time_ms in
    let*? metadata := pure (get_epoch_metadata st cid) in
    let '(count, rotation_time) := default (0, now) metadata in
    match recall_keys cid keys rotation_time count with
    | Some s =>
        let*? s := recall_ratchets cid (iterate (last_nodes all_nodes)) s in
        put (Conversation.EstablishedConv (Conversation.mkConversation cid s))
    | None => put (Conversation.PendingConv (Conversation.new_pending cid))
    end.

(** ** Starting a session *)

Definition limited (min_rank min_timestamp : Z) : bool := (0 <? min_rank) || (0 <? min_timestamp).

Definition start_shallow_sync (cid : ConversationId) (peer : option PhysicalDevicePk) (min_rank min_timestamp : Z) : Op (list Effect) :=
  clear_pending ;*
  let* _ := load_conversation_state cid in
  match peer with
  | None => pure []
  | Some peer =>
      let* now := read_instant in
      let* e := get_engine in
      let* v := Overlay.read Overlay.view in
      let s := match sessions e !! (peer, cid) with
               | Some s => s
               | None => SyncSession.HandshakePeer (SyncSession.with_limits (SyncSession.new_handshake cid v (limited min_rank min_timestamp) now) min_rank min_timestamp)
               end in
      let s := if limited min_rank min_timestamp
               then SyncSession.on_peer_common (fun c => c <| SyncSession.shallow := true |> <| SyncSession.min_rank := min_rank |>
                                                           <| SyncSession.min_timestamp := min_timestamp |>) s
               else s in
      Handlers.put_session (peer, cid) s ;*
      pure [SendPacket peer (CapsAnnounce 1 0)]
  end.
Definition start_sync (cid : ConversationId) (peer : option PhysicalDevicePk) : Op (list Effect) := start_shallow_sync cid peer 0 0.

Definition start_shallow_sync_last_n (cid : ConversationId) (peer : option PhysicalDevicePk) (last_n : Z) : Op (list Effect) :=
  let* fx := start_shallow_sync cid peer 0 0 in
  update (fun e => e <| sessions := map_imap (fun k s => Some (if bool_decide (k.2 = cid)
    then SyncSession.on_peer_common (fun c => c <| SyncSession.shallow := true |> <| SyncSession.max_backfill_nodes := last_n |>
                                                <| SyncSession.backfill_count := 0 |>) s else s)) (sessions e) |>) ;*
  pure fx.

(** ** The parts of [poll] *)

(** Message keys that were kept for a day and vouches older than ten seconds go. *)
Definition fresh_vouches (now_ms : Z) (v : Conversation.Vouchers) : option Conversation.Vouchers :=
  if forallb (fun e => forallb (fun t => match chk_i64 (now_ms - t.2) with Some _ => true | None => false end) (map_to_list e.2)) (map_to_list v)
  then Some (filter (fun e => e.2 <> ∅) ((fun m => filter (fun t => now_ms - t.2 <= VOUCHER_TIMEOUT_MS) m) <$> v))
  else None.
Definition expire_keys (now_ms : Z) (c : Conversation.Conversation) : option Conversation.Conversation :=
  match c with
  | Conversation.EstablishedConv d =>
      keys ← Conversation.drop_old_keys (Conversation.skipped_keys (Conversation.state d)) now_ms;
      Some (Conversation.EstablishedConv (Conversation.mkConversation (Conversation.id d) ((Conversation.state d) <| Conversation.skipped_keys := keys |>)))
  | p => Some p
  end.
Definition expire_vouches (now_ms : Z) (c : Conversation.Conversation) : option Conversation.Conversation :=
  v ← fresh_vouches now_ms (Conversation.vouchers_of c); Some (Conversation.set_vouchers c v).

(** Restored trust lasts thirty days; then we only observe. *)
Definition expire_trust (now_ms : Z) (e : t) : option t :=
  ages ← traverse (fun heal_ts => chk_i64 (now_ms - heal_ts)) (trust_restored_devices e);
  let expired := fst <$> List.filter (fun p => TRUST_RESTORED_EXPIRY_MS <? p.2) (iterate ages) in
  Some (foldl (fun e k =>
    let e := e <| trust_restored_devices := delete k (trust_restored_devices e) |> in
    if bool_decide (k.2 = self_pk e) && bool_decide (is_Some (conversations e !! k.1))
    then e <| conversations := <[k.1 := Conversation.PendingConv (Conversation.new_pending k.1)]> (conversations e) |> else e) e expired).

(** The first admin that is not us, when the trust is about to expire. *)
Definition ask_reinclusion (now_ms : Z) : Op (list Effect) :=
  let* e := get_engine in
  collect (iterate (trust_restored_devices e)) (fun '((cid, pk), heal_ts) =>
    if negb (bool_decide (pk = self_pk e)) then pure []
    else
      let* age := lift (chk_i64 (now_ms - heal_ts)) in
      match (if (REINCLUSION_REQUEST_THRESHOLD_MS <? age) && (age <=? TRUST_RESTORED_EXPIRY_MS) then latest_anchor_hashes e !! cid else None) with
      | None => pure []
      | Some anchor =>
          let* admins := Overlay.list_active_authorized_devices Identity.global cid now_ms u64_max in
          let* e := get_engine in
          let asked a := negb (bool_decide (a = self_pk e)) && Identity.is_admin (identity_manager e) Identity.global cid a (to_logical a) now_ms u64_max in
          pure match List.find asked admins with Some a => request_reinclusion e cid a anchor | None => [] end
      end).

(** Admins rotate the keys that are due, others their sender keys. *)
Definition rotate_due (now_ms : Z) : Fallible (list Effect) :=
  let* e := get_engine in
  try_collect (fst <$> iterate (conversations e)) (fun cid =>
    let* due := Authoring.check_rotation_triggers cid in
    if (due : bool) then
      let* e := get_engine in
      if Identity.is_admin (identity_manager e) Identity.global cid (self_pk e) (to_logical (self_pk e)) now_ms u64_max
      then Authoring.rotate_conversation_key fuel cid else good []
    else
      let* due := Authoring.check_sender_rekey_triggers cid in
      if (due : bool) then Authoring.sender_rekey (Authoring.author_internal fuel) cid else good []).

(** The conversations whose announcement is used up or a month old. *)
Definition announcements_due (e : t) (now_ms : Z) : option (list ConversationId) :=
  ages ← traverse (fun last_time => chk_i64 (now_ms - last_time)) (last_announcement_time_ms e);
  let used := fst <$> List.filter (fun p => MAX_HANDSHAKES_PER_ANNOUNCEMENT <=? p.2) (iterate (handshake_count_since_announcement e)) in
  Some (used ++ (fst <$> List.filter (fun p => (ANNOUNCEMENT_ROTATION_INTERVAL_MS <=? p.2) && negb (bool_decide (p.1 ∈ used))) (iterate ages))).

Definition announce (now_ms : Z) : Op (list Effect) :=
  let* e := get_engine in
  let* due := lift (announcements_due e now_ms) in
  collect due (fun cid =>
    let* r := Authoring.author_announcement fuel cid in
    match r with
    | Ok fx =>
        update (fun e => e <| handshake_count_since_announcement := <[cid := 0]> (handshake_count_since_announcement e) |>
                           <| last_announcement_time_ms := <[cid := now_ms]> (last_announcement_time_ms e) |>) ;*
        pure fx
    | Err _ => pure []
    end).

(** [keywrap_pending.retain(..)]: the entries that wait too long leave; those that may
    be retried are returned. *)
Fixpoint expire_keywraps (l : list (NodeHash * KeyWrapPending)) (removed : gmap NodeHash KeyWrapPending) : Op (gmap NodeHash KeyWrapPending) :=
  match l with
  | [] => pure removed
  | (h, p) :: l =>
      let* now := read_os_instant in
      if since now (created_at p) <? KEYWRAP_ACK_TIMEOUT then expire_keywraps l removed
      else
        update (fun e => e <| keywrap_pending := delete h (keywrap_pending e) |>) ;*
        expire_keywraps l (if attempts p <? MAX_KEYWRAP_RETRIES then <[h := p]> removed else removed)
  end.

(** The handshake is tried again; the new entry counts the attempts. *)
Definition retry_keywrap (p : KeyWrapPending) : Op (list Effect) :=
  let cid := pending_conversation p in let peer := pending_recipient p in
  let* attempt := lift (chk_u32 (attempts p + 1)) in
  let* spk := get_recipient_spk peer in
  match spk with
  | None => pure []
  | Some spk =>
      let* r := Authoring.author_x3dh_key_exchange fuel cid peer spk in
      match r with
      | Ok fx =>
          let* e := get_engine in
          match List.find (fun q => bool_decide (pending_conversation q.2 = cid) && bool_decide (pending_recipient q.2 = peer)) (iterate (keywrap_pending e)) with
          | Some (h, _) => update (fun e => e <| keywrap_pending := alter (fun q => q <| attempts := attempt |>) h (keywrap_pending e) |>)
          | None => pure tt
          end ;*
          pure fx
      | Err _ => pure []
      end
  end.

Definition retry_keywraps : Op (list Effect) :=
  let* e := get_engine in
  let* removed := expire_keywraps (iterate (keywrap_pending e)) ∅ in
  collect (iterate removed) (fun p => retry_keywrap p.2).

(** Requests for chunks; the wakeup is the earliest of the downloads. *)
Fixpoint poll_blobs (now : Instant) (l : list (NodeHash * Cas.SwarmSync)) (wakeup : Instant) : Op (list Effect * Instant) :=
  match l with
  | [] => pure ([], wakeup)
  | (h, s) :: l =>
      let* (s, reqs) := lift (Cas.next_requests (Cas.clear_stalled_fetches s now) 4 now) in
      update (fun e => e <| blob_syncs := <[h := s]> (blob_syncs e) |>) ;*
      let* (more, wakeup) := poll_blobs now l (Z.min wakeup (Cas.next_wakeup s now)) in
      pure (((fun '(peer, r) => SendPacket peer (BlobReqMsg r)) <$> reqs) ++ more, wakeup)
  end.

(** Challenges and limits that are over. *)
Definition expire_session (now : Instant) (c : SyncSession.SessionCommon) : SyncSession.SessionCommon :=
  let c := c <| SyncSession.pending_challenges := filter (fun p => now < p.2) (SyncSession.pending_challenges c) |> in
  let c := c <| SyncSession.pending_sketches := filter (fun p => is_Some (SyncSession.pending_challenges c !! p.1)) (SyncSession.pending_sketches c) |> in
  match SyncSession.rate_limited_until c with
  | Some until => if until <=? now then c <| SyncSession.rate_limited_until := None |> else c
  | None => c
  end.

(** Shard checksums are due: new data, or a minute since the last. *)
Definition recon_due (now : Instant) (c : SyncSession.SessionCommon) : bool :=
  match SyncSession.rate_limited_until c with Some until => until <=? now | None => true end &&
  (SyncSession.recon_dirty c || (SyncSession.RECONCILIATION_INTERVAL <? since now (SyncSession.last_recon_time c))).

(** One active session. *)
Definition poll_session (now : Instant) (peer : PhysicalDevicePk) (s : SyncSession.SyncSession SyncSession.Active) :
    Op (SyncSession.SyncSession SyncSession.Active * list Effect) :=
  let s := SyncSession.on_common (expire_session now) s in
  let* st := get_disk in
  let heads := if SyncSession.heads_dirty (SyncSession.common s)
               then [SendPacket peer (SyncHeadsMsg (SyncSession.make_sync_heads_with_store s 0 (Some (Overlay.store_view st))))] else [] in
  let s := SyncSession.on_common (fun c => c <| SyncSession.heads_dirty := false |>) s in
  let* v := Overlay.read Overlay.view in
  let* (s, shards) :=
    (if recon_due now (SyncSession.common s) then
       let* r := lift (SyncSession.make_sync_shard_checksums s v) in
       pure (SyncSession.on_common (fun c => c <| SyncSession.recon_dirty := false |> <| SyncSession.last_recon_time := now |>) s,
             match r with Ok shards => [SendPacket peer (SyncShardChecksums (SyncSession.conversation_id s) shards)] | Err _ => [] end)
     else pure (s, [])) in
  let queries := (fun h => SendPacket peer (BlobQuery h)) <$> elements_of (SyncSession.missing_blobs (SyncSession.common s)) in
  let s := SyncSession.on_common (fun c => c <| SyncSession.missing_blobs := ∅ |>) s in
  let '(s, req) := SyncSession.next_fetch_batch s MAX_BATCH_SIZE in
  pure (s, heads ++ shards ++ queries ++ match req with Some r => [SendPacket peer (FetchBatchMsg r)] | None => [] end).

Fixpoint poll_sessions (now : Instant) (l : list ((PhysicalDevicePk * ConversationId) * SyncSession.PeerSession)) (wakeup : Instant) : Op (list Effect * Instant) :=
  match l with
  | [] => pure ([], wakeup)
  | (k, SyncSession.ActivePeer s) :: l =>
      if SyncSession.reachable (SyncSession.common s) then
        let* (s, fx) := poll_session now k.1 s in
        Handlers.put_active k s ;*
        let session_wakeup := SyncSession.next_wakeup s now in
        let* (more, wakeup) := poll_sessions now l (Z.min wakeup session_wakeup) in
        pure (fx ++ [ScheduleWakeup (SessionPoll k.1 k.2) session_wakeup] ++ more, wakeup)
      else poll_sessions now l wakeup
  | _ :: l => poll_sessions now l wakeup
  end.

(** The tiny sketch of a conversation. *)
Definition gossip_sketch (e : t) (v : SyncSession.StoreView) (cid : ConversationId) : option SyncSession.SyncSketch :=
  let range := SyncSession.mkRange 0 (SyncSession.max_head_rank v (SyncSession.get_heads v cid)) in
  let hs := match SyncSession.get_node_hashes_in_range v cid range with Ok hs => hs | Err _ => [] end in
  iblt ← SyncSession.insert_all (IbltSketch.new_keyed (IbltSketch.cell_count IbltSketch.Tiny) (Handlers.k_iblt_of e cid)) hs;
  Some (SyncSession.mkSketch cid (IbltSketch.cells iblt) range).

(** Every minute to every active peer. *)
Fixpoint poll_gossip (now : Instant) (cids : list ConversationId) (wakeup : Instant) : Op (list Effect * Instant) :=
  match cids with
  | [] => pure ([], wakeup)
  | cid :: cids =>
      let* e := get_engine in
      let last := default (now - GOSSIP_INTERVAL) (last_gossip_time e !! cid) in
      let due := GOSSIP_INTERVAL <=? since now last in
      let* fx :=
        (if due then
           let* v := Overlay.read Overlay.view in
           let* sketch := lift (gossip_sketch e v cid) in
           update (fun e => e <| last_gossip_time := <[cid := now]> (last_gossip_time e) |>) ;*
           pure ((fun p => SendPacket p (SyncSketchMsg sketch)) <$> Authoring.active_peers e cid)
         else pure []) in
      let* e := get_engine in
      let next_gossip := default now (last_gossip_time e !! cid) + GOSSIP_INTERVAL in
      let* (more, wakeup) := poll_gossip now cids (Z.min wakeup next_gossip) in
      pure (fx ++ more, wakeup)
  end.

(** ** [poll] *)

Definition poll (now : Instant) : Fallible (list Effect) :=
  clear_pending ;*
  let* now_ms := network_time_ms in
  let* e := get_engine in
  let* convs := lift (traverse (expire_keys now_ms) (conversations e)) in
  let* convs := lift (traverse (expire_vouches now_ms) convs) in
  let* e := lift (expire_trust now_ms (e <| conversations := convs |>)) in
  update (fun _ => e) ;*
  let* reinclusion := ask_reinclusion now_ms in
  let*? rotated := rotate_due now_ms in
  let* now_ms := network_time_ms in
  let* announced := announce now_ms in
  let* retried := retry_keywraps in
  let* e := get_engine in
  let* (requests, wakeup) := poll_blobs now (iterate (blob_syncs e)) (now + from_secs 3600) in
  let* e := get_engine in
  let* (synced, wakeup) := poll_sessions now (iterate (sessions e)) wakeup in
  let* e := get_engine in
  let* (gossiped, wakeup) := poll_gossip now (fst <$> iterate (conversations e)) wakeup in
  good (reinclusion ++ rotated ++ announced ++ retried ++ requests ++ synced ++ gossiped ++ [ScheduleWakeup (SwarmTask zero_hash) wakeup]).

End Poll.
End Poll.
