(* ===== verification/Node.v ===== *)
(** A node ([merkle-tox-core/src/node.rs]): it puts the sessions of the transport, the
    engine and the store together.  Packets go to the session of their sender, complete
    messages to the engine, and the engine's effects to the store and the sessions.

    The transport is a parameter: what it answers may depend on everything that was
    sent before.  The sessions read [network_time] themselves in the source; here the
    time is read before the packet is handled. *)

From S2P Require Import Prelude Protocol Float32 Rtt Congestion Quota Session MsgPack ToxTypes Derive Wire Iblt Merkle Dag DagWire Identity Conversation SyncSession Cas Clock Messages Monad Engine Overlay Verify SideEffects Authoring Processor Handlers Poll.
From stdpp Require Import gmap sorting strings.
#[local] Open Scope Z_scope.
#[local] Open Scope list_scope.
#[local] Open Scope monad_scope.

Module Node.
Import Dag Crypto DagWire Messages Engine.

(** The writes of a [BlobStore], and the store as the engine reads it. *)
Class BlobWrites (S : Type) := {
  blob_store : S -> BlobStore;
  put_blob_info : Cas.BlobInfo -> S -> S * result MerkleToxError unit;
  put_chunk : ConversationId -> NodeHash -> Z -> bytes -> option bytes -> S -> option (S * result MerkleToxError unit)
}.

(** [Transport::send_raw]: whether it succeeds, after what was sent before. *)
Class Transport := send_raw : list (PhysicalDevicePk * bytes) -> PhysicalDevicePk -> bytes -> bool.

(** [StdRng::seed_from_u64(rng.next_u64())] *)
Class Seeding `{StdRng} (Rng : Type) := seed_rng : rng_state -> Rng * rng_state.

(** [get_message_type] *)
Definition get_message_type (m : ProtocolMessage) : MessageType :=
  match m with
  | CapsAnnounce _ _ => Protocol.CapsAnnounce
  | CapsAck _ _ => Protocol.CapsAck
  | SyncHeadsMsg _ => Protocol.SyncHeads
  | FetchBatchMsg _ => Protocol.FetchBatchReq
  | MerkleNodeMsg _ _ _ => Protocol.MerkleNode
  | BlobQuery _ => Protocol.BlobQuery
  | BlobAvail _ => Protocol.BlobAvail
  | BlobReqMsg _ => Protocol.BlobReq
  | BlobDataMsg _ => Protocol.BlobData
  | SyncSketchMsg _ => Protocol.SyncSketch
  | SyncReconFail _ _ => Protocol.SyncReconFail
  | SyncShardChecksums _ _ => Protocol.SyncShardChecksums
  | SyncRateLimited _ _ => Protocol.SyncRateLimited
  | KeywrapAck _ _ => Protocol.KeywrapAck
  | ReconPowChallenge _ _ _ => Protocol.ReconPowChallenge
  | ReconPowSolution _ _ _ => Protocol.ReconPowSolution
  | ReinclusionRequest _ _ _ => Protocol.ReinclusionRequest
  | ReinclusionResponse _ _ => Protocol.ReinclusionResponse
  | HandshakeError _ _ => Protocol.HandshakeError
  | AdminGossip _ _ => Protocol.AdminGossip
  end.

Section Node.
Context `{Rmp} `{Blake3Hash} `{Ed25519} `{StrictVerify} `{ChaCha20} `{Zstd} `{X25519} `{Blake3} `{Bao} `{HashOrder} `{LruCache Identity.PathKey Z}
  `{LruCache NodeHash (gset NodeHash)} `{StdRng} `{TimeProvider} {S : Type} `{NodeStore S} `{BlobWrites S} `{Transport}
  {Rng : Type} `{RandSource Rng} `{!Seeding Rng} `{PowerFunctions}.
Variable fuel : nat.

#[local] Existing Instance Wire.wire_codec.
#[local] Abbreviation Session := (SequenceSession.t (Algorithm.t Rng) Rng).

(** A session and its quota. *)
Record Link := mkLink { session : Session; quota : ReassemblyQuota.t }.

(** [MerkleToxNode]; the engine and the store are the world.  [handled] is what the
    event handler was given, [None] without a handler; [sent] is what was given to the
    transport. *)
Record t := mkNode {
  world : World S;
  links : gmap PhysicalDevicePk Link;
  handled : option (list NodeEvent);
  sent : list (PhysicalDevicePk * bytes)
}.
#[global] Instance eta_node : Settable t := fun n => mkNode (world n) (links n) (handled n) (sent n).

Definition new (w : World S) : t := mkNode w ∅ None [].
Definition set_event_handler (n : t) : t := n <| handled := Some (default [] (handled n)) |>.

#[local] Abbreviation Op A := (M t A).
#[local] Abbreviation Fallible A := (M t (result MerkleToxError A)).

(** An operation of the engine. *)
Definition in_world {A} (m : M (World S) A) : Op A := fun n => match m (world n) with Some (w, a) => Some (n <| world := w |>, a) | None => None end.

Definition read_instant : Op Instant := in_world Engine.read_instant.
Definition read_system_ms : Op Z := let* n := in_world tick in pure (now_system_ms n).

(** ** Sessions *)

Definition put_link (peer : PhysicalDevicePk) (l : Link) : Op unit := modify (fun n => n <| links := <[peer := l]> (links n) |>).

(** [SequenceSession::new_at]: the engine's generator seeds that of the algorithm and
    that of the session. *)
Definition new_link (now : Instant) : Op Link :=
  let* e := in_world get_engine in
  let '(cc_rng, r) := seed_rng (rng e) in
  let '(session_rng, r) := seed_rng r in
  in_world (update (fun e => e <| rng := r |>)) ;*
  pure (mkLink (SequenceSession.new (Algorithm.new Algorithm.TAimd cc_rng) now session_rng) (ReassemblyQuota.new MAX_TOTAL_REASSEMBLY_BUFFER)).

(** The session of a peer, made when there is none. *)
Definition link_of (peer : PhysicalDevicePk) (now : Instant) : Op Link :=
  let* known := gets (fun n => links n !! peer) in
  match known with
  | Some l => pure l
  | None => let* l := new_link now in put_link peer l ;* pure l
  end.

(** A message is serialized and queued; failures are logged. *)
Definition queue_message (peer : PhysicalDevicePk) (m : ProtocolMessage) (now : Instant) : Op unit :=
  let* l := link_of peer now in
  let* payload := lift (to_vec protocol_message m) in
  match payload with
  | Ok b =>
      let* (s, _) := lift (SequenceSession.send_message_at (session l) (get_message_type m) b now) in
      put_link peer (mkLink s (quota l))
  | Err _ => pure tt
  end.

Definition send_message (peer : PhysicalDevicePk) (m : ProtocolMessage) : Op unit := let* now := read_instant in queue_message peer m now.

(** A packet to the transport; [true] if it was taken. *)
Definition transmit (n : t) (peer : PhysicalDevicePk) (p : Packet) : option (t * bool) :=
  r ← to_vec Wire.packet p;
  Some (match r with Ok b => (n <| sent := sent n ++ [(peer, b)] |>, send_raw (sent n) peer b) | Err _ => (n, false) end).

(** ** Effects *)

Definition on_disk (f : S -> option (S * result MerkleToxError unit)) : Fallible unit :=
  in_world (let* st := get_disk in let* (st, r) := lift (f st) in modify (fun w => w <| disk := st |>) ;* pure r).

Definition process_effect (f : Effect) (now : Instant) : Fallible unit :=
  match f with
  | SendPacket peer m => queue_message peer m now ;* good tt
  | WriteStore cid n ver => on_disk (put_node cid n ver)
  | WriteWireNode cid h w => on_disk (fun st => Some (put_wire_node cid h w st))
  | DeleteWireNode cid h => on_disk (fun st => Some (remove_wire_node cid h st))
  | WriteRatchetKey cid h k epoch => on_disk (fun st => Some (put_ratchet_key cid h k epoch st))
  | DeleteRatchetKey cid h => on_disk (fun st => Some (remove_ratchet_key cid h st))
  | UpdateHeads cid hs is_admin => on_disk (fun st => Some (if (is_admin : bool) then set_admin_heads cid hs st else set_heads cid hs st))
  | WriteConversationKey cid epoch k => on_disk (fun st => Some (put_conversation_key cid epoch k st))
  | WriteEpochMetadata cid count time => on_disk (fun st => Some (update_epoch_metadata cid count time st))
  | WriteBlobInfo i => on_disk (fun st => Some (put_blob_info i st))
  | WriteChunk cid h offset d proof => on_disk (put_chunk cid h offset d proof)
  | EmitEvent e => modify (fun n => n <| handled := (fun l => l ++ [e]) <$> handled n |>) ;* good tt
  | ScheduleWakeup _ _ | NodeEquivocation _ _ _ _ _ | HistorySnapshotNeeded _ => good tt
  end.
(** [next_wakeup], which effects move by reference. *)
Definition wake (f : Effect) (wakeup : Instant) : Instant := match f with ScheduleWakeup _ time => Z.min wakeup time | _ => wakeup end.

Fixpoint run_effects (fx : list Effect) (now wakeup : Instant) : Op (Instant * result MerkleToxError unit) :=
  match fx with
  | [] => pure (wakeup, Ok tt)
  | f :: fx =>
      let* r := process_effect f now in
      match r with Ok _ => run_effects fx now (wake f wakeup) | Err e => pure (wakeup, Err e) end
  end.

(** Pending nodes are forgotten once everything is committed. *)
Definition process_effects (fx : list Effect) (now wakeup : Instant) : Op (Instant * result MerkleToxError unit) :=
  let* (wakeup, r) := run_effects fx now wakeup in
  match r with Ok _ => in_world clear_pending ;* pure (wakeup, Ok tt) | Err e => pure (wakeup, Err e) end.

(** ** Packets *)

(** A complete message goes to the engine; other events are dropped. *)
Definition handle_event (peer : PhysicalDevicePk) (now : Instant) (e : SessionEvent) : Op unit :=
  match e with
  | MessageCompleted _ _ payload =>
      let* decoded := lift (from_slice protocol_message payload) in
      match decoded with
      | Ok m =>
          let* r := in_world (let* st := get_disk in Handlers.handle_message fuel peer m (Some (blob_store st))) in
          match r with Ok fx => let* _ := process_effects fx now now in pure tt | Err _ => pure tt end
      | Err _ => pure tt
      end
  | _ => pure tt
  end.

(** The loop over the events of a session. *)
Fixpoint process_events (n : nat) (peer : PhysicalDevicePk) (now : Instant) : Op unit :=
  match n with
  | O => lift None
  | Datatypes.S n =>
      let* known := gets (fun x => links x !! peer) in
      match known with
      | None => pure tt
      | Some l =>
          let '(s, event) := SequenceSession.poll_event (session l) in
          put_link peer (mkLink s (quota l)) ;*
          match event with
          | None => pure tt
          | Some e => handle_event peer now e ;* process_events n peer now
          end
      end
  end.

(** A round for each event, and one that finds none. *)
Definition process_session_events (peer : PhysicalDevicePk) (now : Instant) : Op unit :=
  let* known := gets (fun x => links x !! peer) in
  process_events (Datatypes.S (match known with Some l => length (SequenceSession.events (session l)) | None => O end)) peer now.

Fixpoint respond (peer : PhysicalDevicePk) (ps : list Packet) : Op unit :=
  match ps with
  | [] => pure tt
  | p :: ps => (fun n => match transmit n peer p with Some (n, _) => Some (n, tt) | None => None end) ;* respond peer ps
  end.

Definition handle_packet (from : PhysicalDevicePk) (d : bytes) : Op unit :=
  let* now := read_instant in
  let* decoded := lift (from_slice Wire.packet d) in
  match decoded with
  | Ok p =>
      let* l := link_of from now in
      let* now_ms := read_system_ms in
      let* (q, s, responses) := lift (SequenceSession.handle_packet (quota l) (session l) p now now_ms) in
      put_link from (mkLink s q) ;*
      respond from responses ;*
      process_session_events from now
  | Err _ => pure tt
  end.

(** ** Polling *)

(** The sender that a session flushes into; a panic of the serializer is a panic of
    the flush. *)
Definition flush_into (peer : PhysicalDevicePk) (n : option t) (p : Packet) : option t * bool :=
  match n with
  | Some n => match transmit n peer p with Some (n, ok) => (Some n, ok) | None => (None, false) end
  | None => (None, false)
  end.

Definition poll_link (peer : PhysicalDevicePk) (l : Link) (now : Instant) (now_ms : Z) (wakeup : Instant) : Op Instant :=
  let* s := (fun n => match SequenceSession.flush_packets (flush_into peer) (quota l) (session l) (Some n) now now_ms with
                      | Some (s, Some n) => Some (n, s)
                      | _ => None
                      end) in
  let offset := SequenceSession.clock_offset s in
  (if negb (offset =? 0) then
     let* e := in_world get_engine in
     let* c := lift (Clock.update_peer_offset (clock e) peer offset) in
     in_world (update (fun e => e <| clock := c |>))
   else pure tt) ;*
  let* (q, s) := lift (SequenceSession.cleanup (quota l) s now) in
  put_link peer (mkLink s q) ;*
  let* session_wakeup := lift (SequenceSession.next_wakeup s now) in
  pure (Z.min wakeup session_wakeup).

Fixpoint poll_links (ls : list (PhysicalDevicePk * Link)) (now : Instant) (now_ms : Z) (wakeup : Instant) : Op Instant :=
  match ls with
  | [] => pure wakeup
  | (peer, l) :: ls => let* wakeup := poll_link peer l now now_ms wakeup in poll_links ls now now_ms wakeup
  end.

(** [poll]: the next wakeup. *)
Definition poll : Op Instant :=
  let* now := read_instant in
  let* ms := read_system_ms in
  let now_ms := wrap 64 ms in
  let* r := in_world (Poll.poll fuel now) in
  let* (wakeup, _) := process_effects (match r with Ok fx => fx | Err _ => [] end) now (now + from_secs 3600) in
  let* ls := gets (fun n => iterate (links n)) in
  poll_links ls now now_ms wakeup.

(** ** Availability and status *)

(** The session of a peer that goes offline is dropped. *)
Definition set_peer_available (peer : PhysicalDevicePk) (available : bool) : Op unit :=
  (if available then pure tt else modify (fun n => n <| links := delete peer (links n) |>)) ;*
  in_world (set_peer_reachable peer available).

Record SessionStatus := mkSessionStatus { status_cwnd : Z; in_flight_bytes : Z; status_rtt : Duration; status_retransmits : Z }.
Record NodeStatus := mkStatus {
  status_pk : PhysicalDevicePk;
  status_heads : list NodeHash;
  verified_count : Z;
  speculative_count : Z;
  max_rank : Z;
  authorized_devices : Z;
  current_epoch : Z;
  db_size_bytes : Z;
  status_sessions : gmap PhysicalDevicePk SessionStatus
}.

Definition session_status (l : Link) : SessionStatus :=
  let s := session l in
  mkSessionStatus (cwnd (SequenceSession.congestion_control s)) (SequenceSession.in_flight s) (RttEstimator.rto (SequenceSession.rtt s)) (SequenceSession.retransmit_count s).
Definition status (n : t) (cid : ConversationId) : NodeStatus :=
  let e := engine (world n) in
  let st := disk (world n) in
  let '(ver, spec) := get_node_counts st cid in
  mkStatus (self_pk e) (get_heads st cid) ver spec (SyncSession.max_or_0 (omap (fun h => topological_rank <$> get_node st h) (get_heads st cid)))
    (len (Authoring.get_authorized_devices e cid)) (Authoring.get_current_generation e cid) (size_bytes st) (session_status <$> links n).

End Node.
End Node.
