(* ===== verification/NodeTheory.v ===== *)
(** The node as a whole: when the loop over the events of a session returns, all are
    handled, gossip is a step of a session, and what the engine is given is what the
    peer's node sent. *)

From S2P Require Import Prelude Protocol Float32 Congestion Quota Session SessionRuns SessionSystem MsgPack MsgPackTheory ToxTypes Derive ToxTheory Wire WireTheory Iblt Merkle Dag DagWire Identity Conversation SyncSession SyncTheory Cas Clock Messages Monad Engine Overlay Verify SideEffects Authoring Processor Handlers Poll Node MsgPackFormat MerkleModels IbltTheory Memory EngineModels.
From stdpp Require Import gmap sorting strings.
#[local] Open Scope Z_scope.
#[local] Open Scope list_scope.
#[local] Open Scope monad_scope.

Module NodeTheory.
Import Dag Crypto DagWire Messages Engine Node.

Section Theory.
Context `{Rmp} `{Blake3Hash} `{Ed25519} `{StrictVerify} `{ChaCha20} `{Zstd} `{X25519} `{Blake3} `{Bao} `{HashOrder} `{LruCache Identity.PathKey Z}
  `{LruCache NodeHash (gset NodeHash)} `{StdRng} `{TimeProvider} {S : Type} `{NodeStore S} `{BlobWrites S} `{Transport}
  {Rng : Type} `{RandSource Rng} `{!Seeding Rng} `{PowerFunctions}.
Variable fuel : nat.
#[local] Existing Instance Wire.wire_codec.

#[local] Abbreviation N := (Node.t (S := S) (Rng := Rng)).

(** Hearing of an admin node is a step of the session with the peer, in the sense of
    [SyncTheory.v]. *)
Lemma gossip_is_step sender cid h (w w' : World S) : Handlers.on_admin_gossip sender cid h w = Some (w', tt) ->
  sessions (engine w') = sessions (engine w) \/
  exists s, sessions (engine w) !! (sender, cid) = Some (SyncSession.ActivePeer s) /\
    sessions (engine w') = <[(sender, cid) := SyncSession.ActivePeer (SyncSession.on_common (SyncTheory.hear_gossip h) s)]> (sessions (engine w)).
Proof.
  unfold Handlers.on_admin_gossip, Overlay.read, get_engine, gets, bind. destruct (Overlay.has_node _ _ h); [intros [= <-]; by left|].
  destruct (Handlers.active_session (engine w) (sender, cid)) as [s|] eqn:Es; [|intros [= <-]; by left]. destruct (_ || _) eqn:Eb; intros [= <-]; [by left|right]. exists s.
  unfold Handlers.active_session in Es. destruct (sessions (engine w) !! (sender, cid)) as [[]|]; try done. injection Es as ->. split; [done|]. unfold SyncTheory.hear_gossip, SyncSession.on_common. cbn. by rewrite Eb.
Qed.

(** The events that a session with a peer holds. *)
Definition events_of (peer : PhysicalDevicePk) (n : N) : list SessionEvent :=
  match links n !! peer with Some l => SequenceSession.events (session l) | None => [] end.

Lemma send_events (s s' : SequenceSession.t (Algorithm.t Rng) Rng) mt d now r : SequenceSession.send_message_at s mt d now = Some (s', r) ->
  SequenceSession.events s' = SequenceSession.events s.
Proof.
  unfold SequenceSession.send_message_at. intros E. repeat case_match; simplify_eq; try done.
  destruct (Outgoing.OutgoingMessage.new _ _ _ _) as [[msg|err]|]; [|by injection E as <- _|done]. cbn in E.
  destruct (Scheduler.PriorityScheduler.update_message _ _ _); [|done]. by injection E as <- _.
Qed.

Lemma world_links {A} (m : M (World S) A) : keeps (same links) (in_world (Rng := Rng) m).
Proof. intros n n' a E. unfold in_world in E. destruct (m (world n)) as [[w x]|]; [|done]. by injection E as <- <-. Qed.

(** What leaves the events of every session. *)
Definition all_events (n : N) (peer : PhysicalDevicePk) : list SessionEvent := events_of peer n.
Definition calm (n n' : N) : Prop := forall peer, events_of peer n' = events_of peer n.
#[local] Instance calm_preorder : PreOrder calm.
Proof. split; [done|]. intros n1 n2 n3 Ha Hb peer. by rewrite Hb. Qed.

Lemma links_calm {A} (m : M N A) : keeps (same links) m -> keeps calm m.
Proof. intros Hm. eapply keeps_mono; [exact Hm|]. intros n n' E peer. unfold events_of. by rewrite E. Qed.
Lemma world_calm {A} (m : M (World S) A) : keeps calm (in_world (Rng := Rng) m).
Proof. apply links_calm, world_links. Qed.

Lemma put_calm peer (l : Link) (n : N) : SequenceSession.events (session l) = events_of peer n -> calm n (n <| links := <[peer := l]> (links n) |>).
Proof. intros E p. unfold events_of in *. simpl. destruct (decide (p = peer)) as [->|Hp]; [by rewrite lookup_insert_eq|by rewrite lookup_insert_ne]. Qed.

Lemma new_link_result now (n n' : N) l : new_link now n = Some (n', l) -> links n' = links n /\ SequenceSession.events (session l) = [].
Proof.
  intros E. unfold new_link in E. apply bind_inv in E as (n1 & e & E1 & E). apply world_links in E1. destruct (seed_rng (rng e)) as [a r1], (seed_rng r1) as [b r2].
  apply bind_inv in E as (n2 & u & E2 & E). apply world_links in E2. injection E as <- <-. split; [by rewrite E2|].
  simpl. unfold SequenceSession.new. by destruct (next_u32 b).
Qed.

(** A link holds the events that the peer's session had, if there was one. *)
Lemma link_result peer now (n n' : N) l : link_of peer now n = Some (n', l) -> calm n n' /\ SequenceSession.events (session l) = events_of peer n'.
Proof.
  intros E. unfold link_of in E. run_step E. destruct (links n !! peer) as [l0|] eqn:El.
  - run_step E. split; [done|]. unfold events_of. by rewrite El.
  - apply bind_inv in E as (n1 & l1 & E1 & E). apply new_link_result in E1 as [El1 Ev]. unfold put_link in E. run_step E. run_step E. split.
    + etrans; [|apply put_calm]; [intros p; unfold events_of; by rewrite El1|]. unfold events_of. by rewrite Ev, El1, El.
    + unfold events_of. simpl. by rewrite lookup_insert_eq.
Qed.

Lemma queue_calm peer m now : keeps calm (queue_message (S := S) (Rng := Rng) peer m now).
Proof.
  intros n n' u E. unfold queue_message in E. apply bind_inv in E as (n1 & l & E1 & E). apply link_result in E1 as [Hc Hl]. run_step E.
  destruct a as [b|e]; [|by run_step E]. run_step E. destruct a as [s r]. apply send_events in E1. unfold put_link in E. run_step E.
  etrans; [exact Hc|]. apply put_calm. simpl. congruence.
Qed.

Lemma effect_calm f now : keeps calm (process_effect (S := S) (Rng := Rng) f now).
Proof.
  assert (forall f, keeps calm (on_disk (S := S) (Rng := Rng) f)) as Hd by (intros g; apply world_calm).
  destruct f; simpl; try apply Hd; try (apply keeps_good; apply _).
  - apply keeps_bind; [apply _|apply queue_calm|intros u; apply keeps_good; apply _].
  - apply keeps_bind; [apply _|apply links_calm, keeps_modify; done|intros u; apply keeps_good; apply _].
Qed.

Lemma effects_calm fx now : forall wakeup, keeps calm (run_effects (S := S) (Rng := Rng) fx now wakeup).
Proof.
  induction fx as [|f fx IH]; intros wakeup; simpl; [apply keeps_pure; apply _|]. apply keeps_bind; [apply _|apply effect_calm|].
  intros [u|e]; [apply IH|apply keeps_pure; apply _].
Qed.

Lemma event_calm peer now e : keeps calm (handle_event (S := S) (Rng := Rng) fuel peer now e).
Proof.
  destruct e; simpl; try (apply keeps_pure; apply _). apply keeps_bind; [apply _|apply keeps_lift; apply _|]. intros [m|err]; [|apply keeps_pure; apply _].
  apply keeps_bind; [apply _|apply world_calm|]. intros [fx|err]; [|apply keeps_pure; apply _]. apply keeps_bind; [apply _| |intros u; apply keeps_pure; apply _].
  unfold process_effects. apply keeps_bind; [apply _|apply effects_calm|]. intros [wakeup [u|err]]; [|apply keeps_pure; apply _].
  apply keeps_bind; [apply _|apply world_calm|]. intros v. apply keeps_pure. apply _.
Qed.

(** The rounds of the loop, in as many steps as are allowed. *)
Lemma rounds_suffice peer now : forall k m (n : N), length (events_of peer n) = k -> (k < m)%nat ->
  process_events fuel m peer now n = process_events fuel (Datatypes.S k) peer now n /\
  forall n', process_events fuel m peer now n = Some (n', tt) -> events_of peer n' = [].
Proof.
  induction k as [|k IH]; intros m n Hk Hm; (destruct m as [|m]; [lia|]); simpl; unfold bind, gets; unfold events_of in Hk; destruct (links n !! peer) as [l|] eqn:El.
  - unfold SequenceSession.poll_event. destruct (SequenceSession.events (session l)) eqn:Ee; [|done]. split; [done|]. intros n' [= <-]. unfold events_of. simpl. by rewrite lookup_insert_eq.
  - split; [done|]. intros n' [= <-]. unfold events_of. by rewrite El.
  - unfold SequenceSession.poll_event. destruct (SequenceSession.events (session l)) as [|e es] eqn:Ee; [done|]. simpl in Hk. injection Hk as Hk.
    unfold put_link, modify. set (n1 := n <| links := _ |>). destruct (handle_event fuel peer now e n1) as [[n2 u]|] eqn:E2; [|done].
    assert (length (events_of peer n2) = k) as Hn2.
    { rewrite (event_calm _ _ _ _ _ _ E2 peer). unfold events_of, n1. simpl. by rewrite lookup_insert_eq. }
    destruct (IH m n2 Hn2) as [E3 Hend]; [lia|]. split; [|exact Hend]. by rewrite E3.
  - done.
Qed.

(** The loop over the events of a session needs no more rounds than there are events, as
    each takes one away and what the engine does meanwhile adds none; when it returns
    (no handler of an event panics or runs out of fuel) no event is left. *)
Theorem events_all_handled peer now rounds (n : N) : (length (events_of peer n) < rounds)%nat ->
  process_events fuel rounds peer now n = process_session_events fuel peer now n /\
  forall n', process_session_events fuel peer now n = Some (n', tt) -> events_of peer n' = [].
Proof.
  intros Hr. destruct (rounds_suffice peer now _ rounds n eq_refl Hr) as [E Hend].
  assert (process_session_events fuel peer now n = process_events fuel (Datatypes.S (length (events_of peer n))) peer now n) as ->.
  { unfold process_session_events, bind, gets, events_of. by destruct (links n !! peer). }
  split; [exact E|]. intros n' E'. rewrite <- E in E'. by apply Hend.
Qed.

End Theory.
(** ** From node to node *)

Import WireTheory.

Section Traffic.
Context {C : Type} `{CongestionControl C} {Rng : Type} `{RandSource Rng} `{!RandLaws Rng} `{RmpLaws}.
#[local] Existing Instance Wire.wire_codec.

(** What [queue_message] gives to a session: serialized messages, under their type. *)
Definition protocol_traffic (log : Delivery.journal) : Prop :=
  forall id mt d, (id, (mt, d)) ∈ log -> exists m, Messages.message_ok m /\ mt = get_message_type m /\ to_vec protocol_message m = ret d.

(** Two nodes talk over a network that loses, duplicates, reorders and replays
    packets and may forge acknowledgements and pings.  Whatever payload the receiving
    node takes out of its session decodes, and gives the engine a message that the
    other node queued, of the type that it was queued with. *)
Theorem engine_gets_what_was_sent (cca ccb : C) (ta tb : Instant) (ra rb : Rng) ma mb k n id mt d :
  0 <= ma -> ma * 100 <= usize_max -> 0 <= mb -> mb * 100 <= usize_max ->
  Delivery.run (Delivery.open_net cca ta ra ma ccb tb rb mb) k n -> k <= 2 ^ 32 ->
  protocol_traffic (Delivery.log n) -> Delivery.posts n = [] -> MessageCompleted id mt d ∈ Delivery.inbox n ->
  exists m, from_slice protocol_message d = ret m /\ mt = get_message_type m /\ (id, (get_message_type m, d)) ∈ Delivery.log n.
Proof.
  intros Ha Ha' Hb Hb' Hrun Hk Hlog Hposts Hin.
  destruct (Delivery.delivered_journal _ _ _ _ _ _ _ _ _ _ _ _ _ Ha Ha' Hb Hb' Hrun Hk Hin) as [Hin'|[_ Hpost]]; [|rewrite Hposts in Hpost; by apply not_elem_of_nil in Hpost].
  destruct (Hlog _ _ _ Hin') as (m & Hm & -> & Em). exists m. split; [|done].
  destruct (Messages.message_lawful empty_ctx m Hm) as (b & E1 & E2 & _). unfold to_vec, serialize_with_ctx in Em. rewrite E1 in Em. injection Em as ->.
  specialize (E2 []). rewrite app_nil_r in E2. unfold from_slice, deserialize_with_ctx. by rewrite E2.
Qed.

End Traffic.
(** ** Instances *)

Import Models Format EngineModels.

(** A generator that counts, also as a seed; a transport that takes everything. *)
#[local] Instance counting_source : RandSource Z :=
  {| next_u32 n := (n mod 2 ^ 32, n + 1); Congestion.gen_usize n := (n, n + 1); Congestion.gen_range n lo hi := (lo, n + 1) |}.
#[local] Instance counting_source_laws : RandLaws Z.
Proof. split; [intros r; unfold in_u; cbn; apply Z.mod_pos_bound; lia|cbn; lia]. Qed.
#[local] Instance counting_seeds : Seeding Z := fun r => (r, r + 1).
#[local] Instance open_transport : Transport := fun _ _ _ => true.
#[local] Instance plain_powers : PowerFunctions := {| powi x n := Nat.iter (Z.to_nat n) (F32.mul x) (F32.of_Z 1); powf x y := F32.mul x y |}.
#[local] Existing Instance Wire.wire_codec.

(** The blobs of the in-memory store: its writes never fail. *)
#[export] Instance memory_blobs : BlobWrites Memory.InMemoryStore := {|
  blob_store := Memory.blob_store;
  put_blob_info i s := (Memory.put_blob_info i s, Ok tt);
  put_chunk cid h offset d proof s := (fun s => (s, Ok tt)) <$> Memory.put_chunk h offset d s
|}.

(** A message that asks for a blob. *)
Definition query : ProtocolMessage := BlobQuery (device 3).
Definition query_bytes : bytes := match to_vec protocol_message query with Some (Ok b) => b | _ => [] end.

(** A node whose session with device 3 holds a complete message. *)
Definition waiting : Node.t (S := Memory.InMemoryStore) (Rng := Z) :=
  let s := SequenceSession.new (Algorithm.new Algorithm.TAimd (7 : Z)) 0 (8 : Z) in
  (Node.new (blank 1)) <| links := {[device 3 := mkLink (s <| SequenceSession.events := [MessageCompleted 5 Protocol.BlobQuery query_bytes; ReadyToSend] |>) (ReassemblyQuota.new 1000)]} |>.

Lemma events_all_handled_witness : exists n', process_session_events 10 (device 3) 4 waiting = Some (n', tt) /\ events_of (device 3) n' = [].
Proof.
  destruct (observe (process_session_events 10 (device 3) 4 waiting) (fun _ => tt) tt) as ([n' []] & E & _); [vm_compute; reflexivity|].
  exists n'. split; [exact E|]. apply (events_all_handled 10 (device 3) 4 3 waiting); [vm_compute; lia|exact E].
Defined.

(** One node queues the question, the other takes it out of its session. *)
Definition start_net : Delivery.net (C := Aimd.t) (Rng := Z) := Delivery.open_net Aimd.new 0 7 (2 ^ 20) Aimd.new 0 9 (2 ^ 20).
Definition envelope : bytes := match serialize_envelope Protocol.BlobQuery query_bytes with Ok b => b | Err _ => [] end.
Definition asked : SessionEvent := MessageCompleted 7 Protocol.BlobQuery query_bytes.
Definition accepted : Delivery.journal := [(7, (Protocol.BlobQuery, query_bytes))].

Lemma query_ok : Messages.message_ok query.
Proof. split; [done|]. by repeat constructor. Qed.
Lemma journal_traffic : protocol_traffic accepted.
Proof. intros id mt d [= -> -> ->]%list_elem_of_singleton. exists query. split; [exact query_ok|]. split; [done|]. by vm_compute. Qed.

Import SequenceSession Endpoint Delivery.

Lemma question_typed : typed (Received (Data 7 0 1 envelope) []).
Proof. split; [split; lia|]. split; [split; lia|]. assert (len envelope <= 100) as Hl; [apply Z.leb_le; vm_compute; reflexivity|lia]. Qed.

Lemma question_asked : exists n, Delivery.run start_net 4 n /\ log n = accepted /\ posts n = [] /\ asked ∈ inbox n.
Proof.
  destruct (observe (send_message_at (alice start_net) Protocol.BlobQuery query_bytes 5) snd (Ok 7)) as ([s1 r1] & E1 & Er); [vm_compute; reflexivity|].
  simpl in Er. subst r1. set (pkts := [Ping 6; Data 7 0 1 envelope]).
  destruct (observe ('(s1, _) ← send_message_at (alice start_net) Protocol.BlobQuery query_bytes 5; flush_packets (transport (fun _ _ => true)) (alice_quota start_net) s1 [] 6 6)
    snd pkts) as ([s2 w] & E2 & Ew); [vm_compute; reflexivity|]. rewrite E1 in E2. cbn [mbind option_bind snd] in E2, Ew. subst w.
  destruct (observe (handle_packet (bob_quota start_net) (bob start_net) (Data 7 0 1 envelope) 8 8) (fun x => (poll_event x.1.2).2) (Some asked)) as ([[q3 s3] ps] & E3 & Ee);
    [vm_compute; reflexivity|]. cbn [fst snd] in Ee. destruct (poll_event s3) as [s4 e] eqn:E4. cbn [snd] in Ee. subst e.
  set (qa := alice_quota start_net) in *. set (qb := bob_quota start_net) in *. set (sb := bob start_net) in *.
  assert (step start_net (mkNet s1 qa sb qb [] accepted [] [])) as S1
    by exact (alice_acts start_net (Sent Protocol.BlobQuery query_bytes (Ok 7)) _ _ Logic.I (do_send _ _ _ _ _ _ _ E1)).
  assert (step (mkNet s1 qa sb qb [] accepted [] []) (mkNet s2 qa sb qb pkts accepted [] [])) as S2
    by exact (alice_acts (mkNet s1 qa sb qb [] accepted [] []) (Flushed pkts) _ _ Logic.I (do_flush _ _ _ _ _ _ _ E2)).
  assert (step (mkNet s2 qa sb qb pkts accepted [] []) (mkNet s2 qa s3 q3 pkts accepted [] [])) as S3.
  { refine (bob_acts (mkNet s2 qa sb qb pkts accepted [] []) (Received (Data 7 0 1 envelope) ps) _ _ _ _ (do_receive _ _ _ _ _ _ _ _ E3)).
    - exact question_typed.
    - left. right. left. }
  assert (step (mkNet s2 qa s3 q3 pkts accepted [] []) (mkNet s2 qa s4 q3 pkts accepted [] [asked])) as S4
    by exact (bob_acts (mkNet s2 qa s3 q3 pkts accepted [] []) (Polled asked) _ _ Logic.I Logic.I (do_poll _ _ _ _ E4)).
  pose proof (run_snoc _ 3 _ _ (run_snoc _ 2 _ _ (run_snoc _ 1 _ _ (run_snoc _ 0 _ _ (run_nil start_net) S1) S2) S3) S4) as R4.
  eexists. split; [exact R4|]. split; [done|]. split; [done|]. left.
Qed.

Lemma engine_gets_what_was_sent_witness : exists n m, Delivery.run start_net 4 n /\ asked ∈ inbox n /\ from_slice protocol_message query_bytes = ret m /\
  get_message_type m = Protocol.BlobQuery.
Proof.
  destruct question_asked as (n & Hrun & Hlog & Hposts & Hin).
  destruct (engine_gets_what_was_sent Aimd.new Aimd.new 0 0 7 9 (2 ^ 20) (2 ^ 20) 4 n 7 Protocol.BlobQuery query_bytes ltac:(lia) ltac:(by vm_compute) ltac:(lia) ltac:(by vm_compute)
    Hrun ltac:(lia) ltac:(rewrite Hlog; exact journal_traffic) Hposts Hin) as (m & Em & Et & _).
  exists n, m. split; [exact Hrun|]. split; [exact Hin|]. split; [exact Em|]. by rewrite Et.
Defined.

End NodeTheory.
