(* ===== verification/EngineRuns.v ===== *)
(** Everything that can be asked of the engine, in any order, with any changes of the
    store in between: the runs, and what holds after each. *)

From S2P Require Import Prelude Protocol MsgPack ToxTypes Derive Iblt Merkle Dag DagWire Identity Conversation SyncSession Cas Clock Messages Monad Engine Overlay Verify SideEffects Authoring Processor EngineFrames Handlers OpaqueTheory Poll MsgPackFormat MerkleModels IbltTheory Memory EngineModels.
From stdpp Require Import gmap sorting strings.
#[local] Open Scope Z_scope.
#[local] Open Scope list_scope.
#[local] Open Scope monad_scope.

Module EngineRuns.
Import Dag Crypto DagWire Messages Engine.

Section Runs.
Context `{Rmp} `{Blake3Hash} `{Ed25519} `{StrictVerify} `{ChaCha20} `{Zstd} `{X25519} `{Blake3} `{Bao} `{HashOrder} `{LruCache Identity.PathKey Z}
  `{LruCache NodeHash (gset NodeHash)} `{StdRng} `{TimeProvider} {S : Type} `{NodeStore S}.
Variable fuel : nat.

(** The public operations. *)
Inductive call :=
| Message (sender : PhysicalDevicePk) (m : ProtocolMessage) (blobs : option BlobStore)
| Node (cid : ConversationId) (n : MerkleNode) (blobs : option BlobStore)
| Author (cid : ConversationId) (ct : Content) (meta : bytes)
| Announce (cid : ConversationId)
| Exchange (cid : ConversationId) (peer : PhysicalDevicePk) (spk : bytes)
| Export (cid : ConversationId) (blob_hash : NodeHash) (blob_size : Z) (bao_root : option bytes)
| Rotate (cid : ConversationId)
| StartSync (cid : ConversationId) (peer : option PhysicalDevicePk) (min_rank min_timestamp : Z)
| StartSyncLast (cid : ConversationId) (peer : option PhysicalDevicePk) (last_n : Z)
| Reachable (peer : PhysicalDevicePk) (reachable : bool)
| Tick (now : Instant).

Definition run_call (c : call) : M (World S) (result MerkleToxError (list Effect)) :=
  match c with
  | Message sender m blobs => Handlers.handle_message fuel sender m blobs
  | Node cid n blobs => Processor.handle_node fuel cid n blobs
  | Author cid ct meta => Authoring.author_node fuel cid ct meta
  | Announce cid => Authoring.author_announcement fuel cid
  | Exchange cid peer spk => Authoring.author_x3dh_key_exchange fuel cid peer spk
  | Export cid h size root => Authoring.author_history_key_export fuel cid h size root
  | Rotate cid => Authoring.rotate_conversation_key fuel cid
  | StartSync cid peer r t => let* fx := Poll.start_shallow_sync fuel cid peer r t in good fx
  | StartSyncLast cid peer n => let* fx := Poll.start_shallow_sync_last_n fuel cid peer n in good fx
  | Reachable peer b => set_peer_reachable peer b ;* good []
  | Tick now => Poll.poll fuel now
  end.

(** Whatever a call returns, the run goes on; the store changes as its owner likes. *)
Inductive reachable (w0 : World S) : World S -> Prop :=
| at_start : reachable w0 w0
| called w w' c r : reachable w0 w -> run_call c w = Some (w', r) -> reachable w0 w'
| stored w st : reachable w0 w -> reachable w0 (w <| disk := st |>).

Lemma reachable_ind_keeps w0 (P : World S -> Prop) : P w0 -> (forall c, keeps (fun w w' => P w -> P w') (run_call c)) ->
  (forall w st, P w -> P (w <| disk := st |>)) -> forall w, reachable w0 w -> P w.
Proof. intros Hstart Hc Hd w. induction 1 as [|w w' c r _ IH E|w st _ IH]; [done|by eapply Hc|by apply Hd]. Qed.

Import OpaqueTheory.

Ltac leaf := unfold same, accounts; simpl; repeat case_match; reflexivity.
Ltac frames := EngineFrames.frames_by leaf.
#[local] Hint Resolve settled_accounts | 5 : frames.

Lemma ratchets_frame cid : forall ns s, keeps (same (accounts (S := S))) (Poll.recall_ratchets cid ns s).
Proof. intros ns. induction ns as [|[k n] ns IH]; intros s; simpl; frames. Qed.
#[local] Hint Resolve ratchets_frame : frames.
Lemma load_frame cid : keeps (same accounts) (Poll.load_conversation_state fuel cid).
Proof. frames. Qed.
#[local] Hint Resolve load_frame : frames.

Lemma expire_trust_accounts now_ms e e' : Poll.expire_trust now_ms e = Some e' ->
  opaque_store_usage e' = opaque_store_usage e /\ promotion_locked e' = promotion_locked e.
Proof.
  unfold Poll.expire_trust. destruct (Poll.traverse _ _) as [ages|]; [|done]. intros [= <-].
  generalize (fst <$> List.filter (fun p => Poll.TRUST_RESTORED_EXPIRY_MS <? p.2) (iterate ages)). intros l. revert e.
  induction l as [|k l IH]; intros e; [done|]. cbn [foldl]. cbv zeta.
  match goal with |- opaque_store_usage (foldl _ ?e' l) = _ /\ _ => destruct (IH e') as [Hu Hl] end. rewrite Hu, Hl. by case_match.
Qed.

Lemma expire_keywraps_frame : forall l removed, keeps (same (accounts (S := S))) (Poll.expire_keywraps l removed).
Proof. intros l. induction l as [|[h p] l IH]; intros removed; simpl; frames. Qed.
Lemma poll_blobs_frame now : forall l wakeup, keeps (same (accounts (S := S))) (Poll.poll_blobs now l wakeup).
Proof. intros l. induction l as [|[h s] l IH]; intros wakeup; simpl; frames. Qed.
Lemma poll_sessions_frame now : forall l wakeup, keeps (same (accounts (S := S))) (Poll.poll_sessions now l wakeup).
Proof. intros l. induction l as [|[k s] l IH]; intros wakeup; simpl; frames. Qed.
Lemma poll_gossip_frame now : forall l wakeup, keeps (same (accounts (S := S))) (Poll.poll_gossip now l wakeup).
Proof. intros l. induction l as [|c l IH]; intros wakeup; simpl; frames. Qed.
Lemma rotate_due_frame now_ms : keeps (same (accounts (S := S))) (Poll.rotate_due fuel now_ms).
Proof. unfold Poll.rotate_due, Authoring.rotate_conversation_key, Authoring.rotate_impl. frames. Qed.
Lemma announce_frame now_ms : keeps (same (accounts (S := S))) (Poll.announce fuel now_ms).
Proof. frames. Qed.
#[local] Hint Resolve expire_keywraps_frame poll_blobs_frame poll_sessions_frame poll_gossip_frame rotate_due_frame announce_frame : frames.

Lemma poll_frame now : keeps (same accounts) (Poll.poll fuel now).
Proof.
  intros w w' r E. unfold Poll.poll in E. apply bind_inv in E as (w1 & u & E1 & E). assert (keeps (same accounts) (clear_pending (S := S))) as Hc by frames.
  apply Hc in E1. apply bind_inv in E as (w2 & now_ms & E2 & E). apply (settled_accounts _ EngineFrames.network_time_frame) in E2.
  do 5 EngineFrames.step E. apply expire_trust_accounts in E4 as [Hu Hl]. simpl in Hu, Hl.
  match type of E with ?m ?w0 = _ => assert (keeps (same accounts) m) as Hm by frames end.
  apply Hm in E. unfold same, accounts in *. rewrite E. simpl. rewrite Hu, Hl. congruence.
Qed.


Lemma call_sound c : keeps sound (run_call c).
Proof.
  destruct c; simpl; [apply message_sound|apply node_sound|..].
  all: apply accounts_sound; unfold Authoring.rotate_conversation_key, Authoring.rotate_impl.
  9: apply poll_frame.
  all: frames.
Qed.

(** C5: In every run of an engine, from its creation on, and whatever peers send: the
    account of each conversation's unreadable nodes is exactly the sum of its entries,
    it is within the quota of 100 MiB after each call, and no peer holds more than 500
    entries of it. *)
Theorem opaque_quota_kept (self : PhysicalDevicePk) (logical : LogicalIdentityPk) (r : rng_state) (c : Clock.NetworkClock) (st : S) w cid total l :
  reachable (mkWorld (new self logical r c) st 0) w -> opaque_store_usage (engine w) !! cid = Some (total, l) ->
  total = zsum opaque_size l /\ total <= Handlers.OPAQUE_STORE_QUOTA /\ forall sender, count_of sender l <= Handlers.MAX_OPAQUE_REQUESTS_PER_VOUCHER.
Proof.
  intros Hr Hu. assert (opaque_ok w) as [_ Ha].
  { revert Hr. apply (reachable_ind_keeps _ opaque_ok); [by split|apply call_sound|]. intros w1 st1 Hok. by apply (same_ok w1). }
  destruct (Ha _ _ _ Hu) as [[-> _ Hc] Hq]. done.
Qed.

End Runs.

Import Models Format EngineModels.

(** A peer sends a node that we cannot read. *)
Definition opaque_wire : WireNode := mkWire [] (replicate 4 0) (replicate 20 1) (replicate 30 2) 3 FLAG_ENCRYPTED (Signature (replicate 64 0)).
Definition opaque_call : call := Message (device 2) (MerkleNodeMsg room (replicate 32 5) opaque_wire) None.
Lemma opaque_quota_kept_witness : exists (w : World Memory.InMemoryStore) (r : result MerkleToxError (list Effect)) (total : Z) (l : list OpaqueEntry),
  run_call 10 opaque_call (blank 1) = Some (w, r) /\ opaque_store_usage (engine w) !! room = Some (total, l) /\ total = 50 /\ total <= Handlers.OPAQUE_STORE_QUOTA.
Proof.
  destruct (observe (run_call 10 opaque_call (blank 1)) (fun a => opaque_store_usage (engine a.1) !! room)
              (Some (50, [mkOpaque (replicate 32 5) 50 1000001 (device 2)]))) as ([w r] & E & Hu); [vm_compute; reflexivity|].
  exists w, r. cbn [fst] in Hu.
  do 2 eexists. split; [done|]. split; [exact Hu|]. split; [done|].
  eapply (opaque_quota_kept 10 _ _ _ _ _ w room); [|exact Hu]. eapply called; [apply at_start|exact E].
Defined.

End EngineRuns.
