(* ===== verification/AdmissionTheory.v ===== *)
(** Which nodes count as verified: whenever the engine admits a node as verified, the
    node was valid against the store and on time, and its parents were verified and its
    sender authorized with the permissions it needs, or vouched for, unless it is of a
    kind that may come first. *)

From S2P Require Import Prelude Protocol MsgPack ToxTypes Derive Iblt Merkle Dag DagWire Identity IdentityLaws Conversation SyncSession Cas Clock Messages Monad Engine Overlay Verify SideEffects Authoring Processor EngineFrames MsgPackFormat MerkleModels IbltTheory Memory EngineModels.
From stdpp Require Import gmap sorting strings.
#[local] Open Scope Z_scope.
#[local] Open Scope list_scope.
#[local] Open Scope monad_scope.

Module AdmissionTheory.
Import Dag Crypto DagWire Messages Engine.

(** ** Permissions are a matter of the tables *)

Section Tables.
Context `{HashOrder} `{LruCache Identity.PathKey Z}.

Lemma tables_permissions levels : forall m m' ctx cid dev log now rank, IdentityLaws.same_tables m m' ->
  Identity.get_permissions_recursive levels m' ctx cid dev log now rank = Identity.get_permissions_recursive levels m ctx cid dev log now rank.
Proof.
  induction levels as [|levels IH]; intros m m' ctx cid dev log now rank Hm; [done|]. simpl. case_decide; [done|].
  pose proof Hm as [-> _]. destruct (Identity.authorized_devices m !! (cid, dev)) as [records|]; [|done].
  generalize (@None Z) as acc. induction records as [|r records IHr]; intros acc; [done|]. simpl.
  rewrite (IdentityLaws.tables_count m m' _ _ _ _ _ _ _ Hm), (IH _ _ _ _ _ _ _ _ Hm). apply IHr.
Qed.

Lemma asking_tables m ctx cid dev log now rank : let m' := (Identity.is_authorized m ctx cid dev log now rank).1 in
  IdentityLaws.same_tables m m' /\ Identity.logical_members m' = Identity.logical_members m.
Proof.
  unfold Identity.is_authorized. case_decide; [done|]. destruct (cache_get _ _) as [hit c]. case_match; [done|].
  by destruct (Identity.is_authorized_recursive _ _ _ _ _ _ _ _).
Qed.

End Tables.

Lemma all_of_none {A} (f : A -> bool) l x : existsb (fun a => negb (f a)) l = false -> x ∈ l -> f x = true.
Proof. intros Hl Hx. apply not_false_iff_true. intros Hf. assert (existsb (fun a => negb (f a)) l = true); [|congruence].
  apply existsb_exists. exists x. split; [by apply list_elem_of_In|]. by rewrite Hf. Qed.

Section Admission.
Context `{Rmp} `{Blake3Hash} `{Ed25519} `{StrictVerify} `{ChaCha20} `{Zstd} `{X25519} `{Blake3} `{HashOrder} `{LruCache Identity.PathKey Z}
  `{LruCache NodeHash (gset NodeHash)} `{StdRng} `{TimeProvider} {S : Type} `{NodeStore S}.
Variable fuel : nat.

(** ** What looking at a node leaves alone *)

(** The cached nodes, the store, the conversations and the identities. *)
Definition standing (w : World S) :=
  (nodes (pending_cache (engine w)), verified (pending_cache (engine w)), disk w, conversations (engine w), identity_manager (engine w)).

(** What differs in the remembered distances only. *)
Definition only_distances (c c' : PendingCache) : Prop := exists d, c' = c <| admin_distances := d |>.
#[local] Instance only_distances_trans : Transitive only_distances.
Proof. intros c1 c2 c3 [d ->] [d' ->]. by exists d'. Qed.
Lemma distances_refl c : only_distances c c.
Proof. exists (admin_distances c). by destruct c. Qed.
#[local] Hint Resolve distances_refl : core.

Lemma distance_keeps n : forall (c c' : PendingCache) (st : S) h d, Overlay.admin_distance n c st h = Some (c', d) -> only_distances c c'.
Proof.
  induction n as [|n IH]; intros c c' st h d E; [done|]. simpl in E. destruct (admin_distances c !! h); [by injection E as <- _|].
  destruct (nodes c !! h) as [m|] eqn:Hm; [|by injection E as <- _]. case_bool_decide; [injection E as <- _; by eexists|].
  destruct (foldl _ _ _) as [[c1 least]|] eqn:Ef; [|done]. injection E as <- _. clear Hm. transitivity c1; [|by eexists].
  assert (forall ps (acc : option (PendingCache * Z)), (forall c0 x, acc = Some (c0, x) -> only_distances c c0) ->
    forall c1 x, foldl (fun acc p => '(c, min_dist) ← acc; '(c, d) ← Overlay.admin_distance n c st p; Some (c, match d with Some dist => Z.min min_dist dist | None => min_dist end))
            acc ps = Some (c1, x) -> only_distances c c1) as Hfold.
  { clear Ef c1 least. induction ps as [|p ps IHp]; intros acc Hacc; [exact Hacc|]. simpl. apply IHp. intros c0 x E.
    destruct acc as [[ca xa]|]; [|done]. simpl in E. destruct (Overlay.admin_distance n ca st p) as [[cb db]|] eqn:Ed; [|done]. injection E as <- _.
    transitivity ca; [by eapply Hacc|by eapply IH]. }
  eapply (Hfold (parents m)); [|exact Ef]. by intros c0 x [= <- _].
Qed.

Lemma ask_keeps ps : forall (c c' : PendingCache) (st : S), Overlay.ask_distances c st ps = Some c' -> only_distances c c'.
Proof.
  induction ps as [|p ps IH]; intros c c' st E; [by injection E as <-|].
  change (('(c1, d) ← Overlay.admin_distance (Overlay.cache_depth c) c st p; match (d : option Z) with Some _ => Overlay.ask_distances c1 st ps | None => Some c1 end) = Some c') in E.
  destruct (Overlay.admin_distance (Overlay.cache_depth c) c st p) as [[c1 d]|] eqn:Ed; [|done]. apply distance_keeps in Ed. cbn [mbind option_bind] in E.
  destruct d as [d|]; [|by injection E as <-]. apply IH in E. by transitivity c1.
Qed.

(** The state before, but for the distances that [validate] has remembered. *)
Definition measured (w w' : World S) : Prop := exists d, w' = w <| engine := (engine w) <| pending_cache := (pending_cache (engine w)) <| admin_distances := d |> |> |>.
Lemma measured_standing w w' : measured w w' -> same standing w w'.
Proof. by intros [d ->]. Qed.

Lemma validate_result n w w' r : Overlay.validate_node n w = Some (w', r) ->
  measured w w' /\ validate n (Overlay.lookup (pending_cache (engine w)) (disk w)) = Some r.
Proof.
  intros E. unfold Overlay.validate_node in E. EngineFrames.step E. EngineFrames.step E. EngineFrames.step E. rename a into r', E0 into Ev.
  EngineFrames.step E. EngineFrames.steps E. split; [|done]. clear Ev. destruct a0; EngineFrames.steps E0.
  - apply ask_keeps in E as [d ->]. by exists d.
  - exists (admin_distances (pending_cache (engine w'))). destruct w' as [e' s' t']. destruct e'. cbn. by match goal with c : PendingCache |- _ => destruct c end.
Qed.

Ltac leaf := unfold same, standing; simpl; reflexivity.
Ltac frames := EngineFrames.frames_by leaf.

Lemma ancestors_standing look m : forall stack v f, keeps (same (standing)) (Overlay.admin_ancestors_loop look m stack v f).
Proof. induction m as [|m IH]; intros st v f; simpl; frames. Qed.
#[local] Hint Resolve ancestors_standing : frames.

(** The context is that of the node. *)
Lemma context_result n w w' ctx : Overlay.causal_context fuel n w = Some (w', ctx) -> same standing w w' /\ hash n = Some (Identity.evaluating_node_hash ctx).
Proof.
  intros E. split.
  - assert (keeps (same standing) (Overlay.causal_context fuel n)) as Hk by frames. by eapply Hk.
  - unfold Overlay.causal_context, Overlay.causal_context_by in E. by EngineFrames.steps E.
Qed.

(** The tables of identities in place of the manager, whose cache of answers changes. *)
Definition asked (w w' : World S) : Prop :=
  (nodes (pending_cache (engine w')), verified (pending_cache (engine w')), disk w', conversations (engine w')) =
  (nodes (pending_cache (engine w)), verified (pending_cache (engine w)), disk w, conversations (engine w)) /\
  IdentityLaws.same_tables (identity_manager (engine w)) (identity_manager (engine w')) /\
  Identity.logical_members (identity_manager (engine w')) = Identity.logical_members (identity_manager (engine w)).

Lemma asking_result ctx cid d l ts rank (w w' : World S) b : Overlay.is_authorized ctx cid d l ts rank w = Some (w', b) ->
  b = (Identity.is_authorized (identity_manager (engine w)) ctx cid d l ts rank).2 /\
  w' = w <| engine := (engine w) <| identity_manager := (Identity.is_authorized (identity_manager (engine w)) ctx cid d l ts rank).1 |> |>.
Proof.
  intros E. unfold Overlay.is_authorized in E. EngineFrames.step E. destruct (Identity.is_authorized _ _ _ _ _ _ _) as [m ok]. by EngineFrames.steps E.
Qed.

Lemma oldest_nodes c c' (st : S) ps : nodes c' = nodes c -> Verify.min_parent_ts c' st ps = Verify.min_parent_ts c st ps.
Proof. intros En. unfold Verify.min_parent_ts, Overlay.get_node. by rewrite En. Qed.

(** The first checks are made of the state before them. *)
Lemma judge_result cid n h now w w' j : Processor.judge fuel cid n h now w = Some (w', Ok j) ->
  let e := engine w in let c := pending_cache e in let st := disk w in
  exists r late, validate n (Overlay.lookup c st) = Some r /\ Processor.structurally_valid j = is_ok r /\
    (exists w0 w1, measured w w0 /\ Overlay.causal_context fuel n w0 = Some (w1, Processor.context j)) /\
    Processor.is_authorized j = (Identity.is_authorized (identity_manager e) (Processor.context j) cid (sender_pk n) (author_pk n) (network_timestamp n) (topological_rank n)).2 /\
    Verify.mistimed (Verify.min_parent_ts c st (parents n)) now n = Some late /\
    Processor.quarantined j =
      existsb (fun p => negb (Overlay.is_verified c st p)) (parents n) && negb (Verify.is_bootstrap (content n)) ||
      (negb (Processor.is_authorized j) && negb (Verify.is_bootstrap (content n)) && (Processor.vouches e cid h <? Verify.VOUCH_THRESHOLD)) || late /\
    asked w w'.
Proof.
  intros E e c st. unfold Processor.judge in E. EngineFrames.step E. apply validate_result in E0 as [Hm Hr].
  EngineFrames.step E. EngineFrames.steps E0. EngineFrames.step E. pose proof E0 as Hctx. apply context_result in E0 as [Hs2 _].
  assert (same standing w w0) as Hs by (etrans; [by apply measured_standing|exact Hs2]). clear Hs2. unfold same, standing in Hs. injection Hs as En Ev Ed Ec Ei.
  EngineFrames.step E. apply asking_result in E0 as [-> ->]. EngineFrames.steps E. simpl in E0. rewrite (oldest_nodes _ _ _ _ En), Ed in E0.
  unfold Overlay.is_verified, Processor.vouches. rewrite Ei. simpl. rewrite Ed, Ev, Ec.
  destruct (asking_tables (identity_manager e) a1 cid (sender_pk n) (author_pk n) (network_timestamp n) (topological_rank n)) as [Ht Hl].
  exists a, a2. split; [done|]. split; [destruct a as [u|err]; [|destruct (Verify.awaits_parents err)]; by simplify_eq|].
  split; [by exists w1, w0|]. split; [done|]. split; [done|]. split; [done|]. split; [simpl; by rewrite En, Ev, Ed, Ec|done].
Qed.

Lemma check_asked (w w' : World S) ctx cid n ts : asked w w' ->
  Verify.check_permissions (engine w') ctx cid n ts = Verify.check_permissions (engine w) ctx cid n ts.
Proof.
  intros ([= _ _ _ Ec] & Ht & _). unfold Verify.check_permissions, Verify.required_permissions, Overlay.permissions_of, Identity.get_permissions.
  by rewrite (tables_permissions _ _ _ _ _ _ _ _ _ Ht), Ec.
Qed.

Lemma founder_members (e e' : t) cid n cert p : Identity.logical_members (identity_manager e') = Identity.logical_members (identity_manager e) ->
  Processor.founder_certified e' cid n cert p = Processor.founder_certified e cid n cert p.
Proof. intros Hm. unfold Processor.founder_certified, Identity.get_founder. by rewrite Hm. Qed.

(** A verdict "verified" comes of a valid node that is not quarantined; the sender is
    authorized and its signature holds, or it is not authorized, and an anchor is then
    certified by the founder. *)
Lemma verdict_justified cid n h j a (w w' : World S) : Processor.verdict cid n h j a w = Some (w', true) ->
  Processor.structurally_valid j = true /\ Processor.quarantined j = false /\ (Processor.is_authorized j = true -> a = true) /\
  (Processor.is_authorized j = false -> match content n with
     | Control (AnchorSnapshot _ cert) => Processor.founder_certified (engine w) cid n cert Permissions.ADMIN = Some true
     | Control (SoftAnchor _ cert) => Processor.founder_certified (engine w) cid n cert Permissions.MESSAGE = Some true
     | _ => True
     end).
Proof.
  intros E. unfold Processor.verdict in E. destruct j as [valid auth quar ctx]. simpl in *.
  destruct auth, quar, valid, a; simpl in E; try by EngineFrames.steps E.
  all: destruct (content n); try lazymatch goal with action : ControlAction |- _ => destruct action end; simpl in E; EngineFrames.steps E; try done.
  all: by rewrite andb_false_r in *.
Qed.

(** *** After the first checks nobody's standing changes *)

Definition identities (w : World S) := identity_manager (engine w).
Ltac leaf ::= unfold same, identities; simpl; repeat case_match; reflexivity.

Lemma open_frame cid n h epk : forall ws, keeps (same identities) (Processor.open_key_wrap cid n h epk ws).
Proof. intros ws. induction ws as [|w ws IH]; simpl; frames. Qed.
#[local] Hint Resolve open_frame : frames.
Lemma receive_identities cid n h : keeps (same identities) (Processor.receive_keys cid n h).
Proof. frames. Qed.
Lemma authentic_identities cid n h : keeps (same identities) (Verify.authentic cid n h).
Proof. frames. Qed.
Lemma sequence_identities cid n h : keeps (same identities) (Processor.check_sequence cid n h).
Proof. frames. Qed.

(** C6: Whenever the engine takes a node as verified, then in the state that it met the
    node with:
    - the node is valid against the store and not ten minutes before its parents or
      after now;
    - all its parents are verified, unless it is of one of the kinds of [is_bootstrap]
      (genesis, AuthorizeDevice, AnchorSnapshot, KeyWrap, key distribution, export);
    - if its sender is authorized in the history that the engine finds of the node, the
      sender holds the permissions that the content needs and the signature holds;
    - if its sender is not authorized, another device vouches for the node, unless it
      is of one of those kinds, which pass without authorization and without vouching;
      an anchor is in any case certified by the founder.
    The history is what [causal_context] finds before the node is judged (see
    [context_exact] of [HistoryTheory.v]). *)
Theorem verified_node_justified cid n h now (w w' : World S) auth fx opks : Processor.admit_node fuel cid n h now w = Some (w', Ok (true, auth, fx, opks)) ->
  let e := engine w in let c := pending_cache e in let st := disk w in
  validate n (Overlay.lookup c st) = Some (Ok tt) /\
  Verify.mistimed (Verify.min_parent_ts c st (parents n)) now n = Some false /\
  (Verify.is_bootstrap (content n) = true \/ forall p, p ∈ parents n -> Overlay.is_verified c st p = true) /\
  exists w0 w1 ctx, measured w w0 /\ Overlay.causal_context fuel n w0 = Some (w1, ctx) /\
    if (Identity.is_authorized (identity_manager e) ctx cid (sender_pk n) (author_pk n) (network_timestamp n) (topological_rank n)).2
    then auth = true /\ Verify.check_permissions e ctx cid n (network_timestamp n) = Ok tt
    else (Verify.is_bootstrap (content n) = true \/ Verify.VOUCH_THRESHOLD <= Processor.vouches e cid h) /\
      match content n with
      | Control (AnchorSnapshot _ cert) => Processor.founder_certified e cid n cert Permissions.ADMIN = Some true
      | Control (SoftAnchor _ cert) => Processor.founder_certified e cid n cert Permissions.MESSAGE = Some true
      | _ => True
      end.
Proof.
  intros E e c st. unfold Processor.admit_node in E. EngineFrames.step E. rename a into j.
  apply judge_result in E0 as (r & late & Hr & Hvalid & Hh & Ha & Hlate & Hq & Hasked). EngineFrames.step E.
  apply try_ok in E as (w1 & u & E1 & E). injection E1 as <- Hp. EngineFrames.step E.
  apply try_ok in E as (w2 & u2 & E2 & E). injection E2 as <- _.
  apply try_ok in E as (w3 & u3 & E3 & E).
  assert (same identities w0 w3) as Hi by (destruct (Processor.is_authorized j); [by eapply sequence_identities|by EngineFrames.steps E3]).
  apply bind_inv in E as (w4 & [fx1 opks1] & E4 & E).
  assert (same identities w3 w4) as Hi1 by (destruct (Processor.is_authorized j); [by eapply receive_identities|by EngineFrames.steps E4]).
  apply bind_inv in E as (w5 & a & E5 & E). apply authentic_identities in E5 as Hi2. apply bind_inv in E as (w6 & v & E6 & E).
  apply bind_inv in E as (w7 & v7 & E7 & E). apply try_ok in E as (w8 & u8 & E8 & E). injection E as _ -> -> _ _.
  assert (v = true) as ->.
  { unfold Processor.unbranched in E7. destruct v; [done|]. destruct (content n); try destruct action; by EngineFrames.steps E7. }
  apply verdict_justified in E6 as (Hv & Hquar & Hauth & Hanchor). rewrite Hvalid in Hv. rewrite Hq in Hquar. clear E3 E4 E5 E7 E8 Hq Hvalid.
  apply orb_false_iff in Hquar as [[Hpar Hvouch]%orb_false_iff ->]. destruct r as [[]|]; [|done].
  split; [exact Hr|]. split; [exact Hlate|]. split.
  { destruct (Verify.is_bootstrap (content n)); [by left|right]. rewrite andb_true_r in Hpar. intros p Hp'.
    by eapply (all_of_none (Overlay.is_verified c st)). }
  destruct Hh as (wa & wb & Hmw & Hctx). exists wa, wb, (Processor.context j). split; [exact Hmw|]. split; [exact Hctx|]. unfold e. rewrite <- Ha. destruct (Processor.is_authorized j).
  - split; [by apply Hauth|]. rewrite <- (check_asked _ _ _ _ _ _ Hasked). by destruct u.
  - split; [destruct (Verify.is_bootstrap (content n)); [by left|right; simpl in Hvouch; lia]|]. specialize (Hanchor eq_refl).
    assert (Identity.logical_members (identity_manager (engine w)) = Identity.logical_members (identity_manager (engine w5))) as Hm.
    { destruct Hasked as (_ & _ & Hm). unfold same, identities in *. congruence. }
    destruct (content n); try done; destruct action; try done; by rewrite (founder_members (engine w5)).
Qed.

End Admission.
Import Models Format EngineModels.

(** The founder of a room sets its title; another device receives the node. *)
Definition unsigned_title : MerkleNode := mkNode [] (device 1) (device 1) 1 0 1000002 (Control (SetTitle [1])) [] (EphemeralSignature Authoring.zero_signature) 0.
Definition title_node : MerkleNode :=
  match serialize_for_auth unsigned_title with Some b => unsigned_title <| authentication := Signature (sign (device 1) b) |> | None => unsigned_title end.
Definition title_hash : NodeHash := default zero_hash (hash title_node).

Lemma verified_node_justified_witness : exists (w' : World Memory.InMemoryStore) auth fx opks,
  Processor.admit_node 10 room title_node title_hash 1000000 (blank 2) = Some (w', Ok (true, auth, fx, opks)) /\
  validate title_node (Overlay.lookup empty_cache Memory.new) = Some (Ok tt).
Proof.
  destruct (observe (Processor.admit_node 10 room title_node title_hash 1000000 (blank 2)) (fun a => match a.2 with Ok (v, _, _, _) => v | Err _ => false end) true)
    as ([w [[[[v auth] fx] opks]|err]] & E & Hv); [vm_compute; reflexivity| |done].
  simpl in Hv. subst v. exists w, auth, fx, opks. split; [exact E|]. exact (proj1 (verified_node_justified 10 _ _ _ _ _ _ _ _ _ E)).
Defined.

End AdmissionTheory.
