(* ===== verification/AuthoringTheory.v ===== *)
(** What the engine authors: the shape of an authored node, and rotations that never
    nest. *)

From S2P Require Import Prelude Protocol MsgPack ToxTypes Derive Iblt Merkle Dag DagWire Identity IdentityLaws Conversation SyncSession Cas Clock Messages Monad Engine Overlay Verify SideEffects Authoring Processor EngineFrames AdmissionTheory MsgPackFormat MerkleModels IbltTheory Memory EngineModels.
From stdpp Require Import gmap sorting strings.
#[local] Open Scope Z_scope.
#[local] Open Scope list_scope.
#[local] Open Scope monad_scope.

Module AuthoringTheory.
Import Dag Crypto DagWire Messages Engine.

(** The nodes that are written as verified. *)
Definition writes (f : Effect) : list MerkleNode := match f with WriteStore _ n true => [n] | _ => [] end.
Definition written (fx : list Effect) : list MerkleNode := flat_map writes fx.

Lemma written_app fx gx : written (fx ++ gx) = written fx ++ written gx.
Proof. apply flat_map_app. Qed.

Section Authoring.
Context `{Rmp} `{Blake3Hash} `{Ed25519} `{StrictVerify} `{ChaCha20} `{Zstd} `{X25519} `{HashOrder} `{LruCache Identity.PathKey Z} `{LruCache NodeHash (gset NodeHash)}
  `{StdRng} `{TimeProvider} {S : Type} `{NodeStore S}.
Variable fuel : nat.

(** Who the engine's identities are, and who we are. *)
Definition persons (w : World S) := (identity_manager (engine w), self_pk (engine w), self_logical_pk (engine w)).
Ltac leaf := unfold same, persons; simpl; repeat case_match; reflexivity.
Ltac frames := EngineFrames.frames_by leaf.

(** ** The new node *)

Lemma draft_result cid ct meta ep now (w w' : World S) n : Authoring.draft cid ct meta ep now w = Some (w', n) ->
  let e := engine w in let c := pending_cache e in
  w' = w /\ content n = ct /\ sender_pk n = self_pk e /\ author_pk n = self_logical_pk e /\ parents n = Authoring.choose_parents c (disk w) cid ct /\
  Authoring.rank_after c (disk w) (parents n) = Some (topological_rank n) /\
  Authoring.next_seq (Authoring.own_last_seq e (disk w) cid) (default (Authoring.current_epoch_of e cid) ep) = Some (sequence_number n) /\
  network_timestamp n = now /\ metadata n = meta.
Proof. intros E. unfold Authoring.draft in E. by EngineFrames.steps E. Qed.

(** Signing changes nothing but the authentication. *)
Definition unsigned (n : MerkleNode) : MerkleNode := n <| authentication := EphemeralSignature Authoring.zero_signature |>.

Lemma sign_result cid n ep now (w w' : World S) n' wire : Authoring.sign_node cid n ep now w = Some (w', Ok (n', wire)) -> unsigned n' = unsigned n.
Proof.
  intros E. unfold Authoring.sign_node in E. EngineFrames.step E. destruct (_ || _).
  - EngineFrames.step E. unfold Authoring.sign_as_device in E0. EngineFrames.step E0. destruct (self_sk _); EngineFrames.steps E0. by EngineFrames.steps E.
  - destruct (is_exception_node n).
    + EngineFrames.step E. unfold Authoring.sign_with_epoch in E. EngineFrames.step E. EngineFrames.step E1. EngineFrames.step E1. EngineFrames.steps E1. by EngineFrames.steps E.
    + EngineFrames.step E. unfold Authoring.sign_content in E0. do 4 EngineFrames.step E0. EngineFrames.step E0. unfold Authoring.sign_with_epoch in E5.
      EngineFrames.step E5. EngineFrames.step E5. EngineFrames.steps E5. EngineFrames.steps E0. by EngineFrames.steps E.
Qed.

Lemma ancestors_persons look m : forall stack v f, keeps (same (persons)) (Overlay.admin_ancestors_loop look m stack v f).
Proof. induction m as [|m IH]; intros st v f; simpl; frames. Qed.
#[local] Hint Resolve ancestors_persons : frames.

Lemma sign_persons cid n ep now : keeps (same persons) (Authoring.sign_node cid n ep now).
Proof. frames. Qed.
Lemma keep_wire_persons cid n h w now : keeps (same persons) (Authoring.keep_wire cid n h w now).
Proof. frames. Qed.

Lemma gossip_written e cid n h : written (Authoring.gossip e cid n h) = [].
Proof. unfold Authoring.gossip. case_bool_decide; [|done]. by induction (Authoring.active_peers e cid). Qed.

(** *** The two halves of [author_node_internal]: the node, and what it does. *)
Lemma author_inv rotate cid ct meta ep (w w' : World S) fx : Authoring.author_node_internal fuel rotate cid ct meta ep w = Some (w', Ok fx) ->
  exists now n0 n (w0 w1 w2 : World S) side_effects invalidated before after,
    network_time_ms w = Some (w0, now) /\ Authoring.draft cid ct meta ep now w0 = Some (w0, n0) /\ unsigned n = unsigned n0 /\
    same persons w w1 /\ SideEffects.apply_side_effects fuel rotate cid n w1 = Some (w2, Ok side_effects) /\
    (if Authoring.affects_identity ct then Verify.revalidate_all_verified_nodes fuel cid else pure []) w2 = Some (w', invalidated) /\
    fx = before ++ WriteStore cid n true :: after /\ written before = [] /\ written after = written side_effects ++ written invalidated.
Proof.
  intros E. unfold Authoring.author_node_internal in E. apply bind_inv in E as (w0 & now & E0 & E). apply bind_inv in E as (w0' & n0 & E1 & E).
  pose proof (draft_result _ _ _ _ _ _ _ _ E1) as (-> & Hct & _).
  apply try_ok in E as (w1 & [n cw] & E2 & E). apply sign_result in E2 as Hn. apply sign_persons in E2.
  EngineFrames.step E. EngineFrames.step E. EngineFrames.step E. EngineFrames.step E.
  apply bind_inv in E as (w2 & wire & E5 & E). apply keep_wire_persons in E5. EngineFrames.step E. EngineFrames.step E.
  apply try_ok in E as (w3 & se & E6 & E). apply bind_inv in E as (w4 & inv & E7 & E). EngineFrames.steps E.
  assert (content n = content n0) as Hc by (by apply (f_equal content) in Hn). rewrite Hc in E7.
  exists now, n0, n, w0, (w2 <| engine := Authoring.advertise_head cid a (engine w2) |>), w3, se, inv. eexists _, _. split; [exact E0|]. split; [exact E1|]. split; [exact Hn|]. split; [|split; [exact E6|]].
  { assert (keeps (same persons) (network_time_ms (S := S))) as Hk by frames. apply Hk in E0. unfold same, persons in *. simpl in *. congruence. }
  split; [exact E7|]. split; [reflexivity|]. split; [by destruct (established _ cid); [case_bool_decide|]|].
  rewrite !written_app. destruct wire; simpl; rewrite !gossip_written, ?app_nil_r; done.
Qed.

(** ** Rotations do not nest *)

(** Contents whose side effects never rotate. *)
Definition settles (ct : Content) : bool := match ct with Control (RevokeDevice _ _) | Control HandshakePulse => false | _ => true end.

Lemma bind_ext {A B} (m : M (World S) A) (k k' : A -> M (World S) B) w : (forall a w, k a w = k' a w) -> bind m k w = bind m k' w.
Proof. intros Hk. by apply (bind_agree m k k' (fun _ => True)). Qed.

Lemma try_same {E A B} (m m' : M (World S) (result E A)) (k : A -> M (World S) (result E B)) w : m w = m' w -> try m k w = try m' k w.
Proof. unfold try, bind. by intros ->. Qed.

Lemma effects_agree r r' cid n w : settles (content n) = true -> SideEffects.apply_side_effects fuel r cid n w = SideEffects.apply_side_effects fuel r' cid n w.
Proof.
  intros Hn. unfold SideEffects.apply_side_effects. apply bind_ext. intros ctx w1. apply bind_ext. intros h w2.
  apply try_same.
  unfold SideEffects.apply_action. destruct (content n); try done. by destruct action.
Qed.

Lemma author_agree r r' cid ct meta ep w : settles ct = true ->
  Authoring.author_node_internal fuel r cid ct meta ep w = Authoring.author_node_internal fuel r' cid ct meta ep w.
Proof.
  intros Hct. unfold Authoring.author_node_internal. apply bind_ext. intros now w1.
  apply (bind_agree _ _ _ (fun n => content n = ct)); [by intros w2 n (_ & Hn & _)%draft_result|]. intros n0 w2 Hn0.
  apply (bind_agree _ _ _ (fun r => match r with Ok (n, _) => content n = ct | Err _ => True end)).
  { intros w3 [[n cw]|e] E; [|done]. apply sign_result in E. apply (f_equal content) in E. simpl in E. congruence. }
  intros [[n cw]|e] w3 Hn; [|done]. repeat (apply bind_ext; intros ? ?). apply try_same, effects_agree. by rewrite Hn.
Qed.

Lemma try_agree {E A B} (m m' : M (World S) (result E A)) (k k' : A -> M (World S) (result E B)) w :
  m w = m' w -> (forall a w, k a w = k' a w) -> try m k w = try m' k' w.
Proof. intros Hm Hk. unfold try, bind. rewrite Hm. destruct (m' w) as [[w1 [a|e]]|]; [apply Hk|done|done]. Qed.

Lemma distribution_agree (a a' : ConversationId -> Content -> bytes -> option Z -> M (World S) (result MerkleToxError (list Effect))) cid g o w :
  (forall ct meta ep w, settles ct = true -> a cid ct meta ep w = a' cid ct meta ep w) ->
  Authoring.author_sender_key_distribution a cid g o w = Authoring.author_sender_key_distribution a' cid g o w.
Proof.
  intros Ha. unfold Authoring.author_sender_key_distribution. repeat (apply bind_ext; intros ? ?). case_match; [|done].
  repeat (apply bind_ext; intros ? ?). by apply Ha.
Qed.

Lemma rotation_agree (a a' : ConversationId -> Content -> bytes -> option Z -> M (World S) (result MerkleToxError (list Effect))) cid b w : (forall ct meta ep w, settles ct = true -> a cid ct meta ep w = a' cid ct meta ep w) ->
  Authoring.rotate_conversation_key_impl a cid b w = Authoring.rotate_conversation_key_impl a' cid b w.
Proof.
  intros Ha. unfold Authoring.rotate_conversation_key_impl. repeat (apply bind_ext; intros ? ?). case_match. repeat (apply bind_ext; intros ? ?).
  apply try_agree.
  - destruct (_ || _); [by apply Ha|done].
  - intros wraps w10. apply try_agree; [|done]. by apply distribution_agree.
Qed.

(** Its nodes never rotate again: one level of rotation is all there is, whatever
    number of levels is allowed. *)
Theorem rotation_depth_irrelevant depth cid post_revocation w :
  Authoring.rotate_at fuel (Datatypes.S depth) cid post_revocation w = Authoring.rotate_impl fuel cid post_revocation w.
Proof. apply rotation_agree. intros ct meta ep w1 Hct. by apply author_agree. Qed.

End Authoring.
End AuthoringTheory.
