(* ===== verification/RotationTheory.v ===== *)
(** Who gets the keys of a rotation: after a revocation by a master key, no node that
    the engine authors wraps a key for the revoked device. *)

From S2P Require Import Prelude Protocol MsgPack ToxTypes Derive Iblt Merkle Dag DagWire Identity IdentityTheory IdentityLaws Conversation SyncSession Cas Clock Messages Monad Engine Overlay Verify SideEffects Authoring Processor EngineFrames AuthoringTheory MsgPackFormat MerkleModels IbltTheory Memory EngineModels.
From stdpp Require Import gmap sorting strings.
#[local] Open Scope Z_scope.
#[local] Open Scope list_scope.
#[local] Open Scope monad_scope.

Module RotationTheory.
Import Dag Crypto DagWire Messages Engine AuthoringTheory.

(** ** The active devices *)

Section Active.
Context `{HashOrderLaws} `{LruCacheLaws Identity.PathKey Z}.
Context (view : NodeHash -> Identity.CausalContext * Z).

(** Asking keeps what the cache is good for. *)
Definition asked (m m' : Identity.t) : Prop :=
  IdentityLaws.same_tables m m' /\ Identity.logical_members m' = Identity.logical_members m /\ (IdentityLaws.coherent view m -> IdentityLaws.coherent view m').
#[export] Instance asked_preorder : PreOrder asked.
Proof.
  split; [done|]. intros m1 m2 m3 ([Ta Tr] & M1 & C1) ([Ta' Tr'] & M2 & C2). split; [split; congruence|]. split; [congruence|auto].
Qed.

Definition entitled (m : Identity.t) (cid : ConversationId) (device : PhysicalDevicePk) : Prop :=
  exists logical now, is_Some (Identity.logical_members m !! (cid, logical)) /\ IdentityLaws.authorized m Authoring.dummy_ctx cid logical u64_max now device.

Lemma entitled_asked m m' cid d : asked m m' -> entitled m' cid d -> entitled m cid d.
Proof.
  intros (Ht & Hm & _) (logical & now & Hl & Ha). exists logical, now. rewrite <- Hm. split; [done|]. by apply (IdentityLaws.tables_authorized m m').
Qed.

Hypothesis dummy_view : IdentityLaws.consistent view Authoring.dummy_ctx u64_max.

Lemma devices_of_member cid now logical : forall ds m m' active, IdentityLaws.coherent view m ->
  Identity.active_devices_of m Authoring.dummy_ctx cid now u64_max logical ds = (m', active) ->
  asked m m' /\ forall d, d ∈ active -> IdentityLaws.authorized m Authoring.dummy_ctx cid logical u64_max now d.
Proof.
  induction ds as [|d ds IH]; intros m m' active Hm E; simpl in E; [injection E as <- <-; split; [done|set_solver]|].
  destruct (IdentityLaws.is_authorized_exact view m Authoring.dummy_ctx cid d logical now u64_max Hm dummy_view) as (m1 & ok & E1 & Hc & Ht & Hl & Hok).
  rewrite E1 in E. destruct (Identity.active_devices_of m1 _ _ _ _ _ _) as [m2 rest] eqn:E2. injection E as <- <-.
  destruct (IH _ _ _ Hc E2) as [Ha Hrest]. assert (asked m m1) as Ha1 by done. split; [by etrans|].
  assert (forall x, x ∈ rest -> IdentityLaws.authorized m Authoring.dummy_ctx cid logical u64_max now x) as Hr.
  { intros x Hx%Hrest. by apply (IdentityLaws.tables_authorized m m1). }
  destruct ok; [|exact Hr]. intros x [->|Hx]%elem_of_cons; [by apply Hok|by apply Hr].
Qed.

Lemma devices_of_members cid now ds : forall ms m m' active, IdentityLaws.coherent view m ->
  (forall logical role joined, (logical, role, joined) ∈ ms -> is_Some (Identity.logical_members m !! (cid, logical))) ->
  Identity.active_devices_for m Authoring.dummy_ctx cid now u64_max ms ds = (m', active) -> asked m m' /\ forall d, d ∈ active -> entitled m cid d.
Proof.
  induction ms as [|[[logical role] joined] ms IH]; intros m m' active Hm Hms E; simpl in E; [injection E as <- <-; split; [done|set_solver]|].
  destruct (Identity.active_devices_of m _ _ _ _ _ _) as [m1 own] eqn:E1. apply devices_of_member in E1 as [Ha Hown]; [|done].
  destruct (Identity.active_devices_for m1 _ _ _ _ _ _) as [m2 more] eqn:E2. injection E as <- <-. destruct Ha as (Ht & Hl & Hc).
  apply IH in E2 as [Ha2 Hmore]; [|auto|intros l r j Hj; rewrite Hl; apply (Hms l r j); by right]. split; [by etrans; [|exact Ha2]|].
  assert (is_Some (Identity.logical_members m !! (cid, logical))) as Hin by (apply (Hms logical role joined); by left).
  intros d [Hd|Hd]%elem_of_app; [|by apply (entitled_asked m m1); [|apply Hmore]]. exists logical, now. split; [done|].
  destruct own as [|x own]; [|by apply Hown]. apply list_elem_of_singleton in Hd as ->. by left.
Qed.

Lemma dedup_elem (l : list PhysicalDevicePk) d : d ∈ Identity.dedup l -> d ∈ l.
Proof.
  induction l as [|a l IH]; [done|]. simpl. destruct (Identity.dedup l) as [|b rest]; [set_solver|]. case_decide; set_solver.
Qed.

Lemma active_entitled m cid now m' ds : IdentityLaws.coherent view m ->
  Identity.list_active_authorized_devices m Authoring.dummy_ctx cid now u64_max = (m', ds) -> asked m m' /\ forall d, d ∈ ds -> entitled m cid d.
Proof.
  intros Hm E. unfold Identity.list_active_authorized_devices in E. destruct (Identity.active_devices_for _ _ _ _ _ _ _) as [m1 active] eqn:E1. injection E as <- <-.
  apply devices_of_members in E1 as [Ha Hd]; [|done|].
  - split; [done|]. intros d Hin%dedup_elem. apply Hd. by rewrite (merge_sort_Permutation bytes_le active) in Hin.
  - intros logical role joined Hin. unfold Identity.list_members in Hin. rewrite merge_sort_Permutation in Hin.
    apply list_elem_of_fmap in Hin as ([[c l] [r j]] & [= -> -> ->] & Hin). apply list_elem_of_In, filter_In in Hin as [Hin Hc].
    apply bool_decide_eq_true in Hc as ->. apply list_elem_of_In in Hin.
    rewrite iterate_perm, elem_of_map_to_list in Hin. eauto.
Qed.

End Active.

(** The recipients that a content names. *)
Definition wrapped_keys_of (ct : Content) : list WrappedKey :=
  match ct with KeyWrap _ _ _ ws | SenderKeyDistribution _ ws _ _ | HistoryExport _ _ _ _ ws => ws | _ => [] end.
Definition is_key_node (ct : Content) : bool := match ct with KeyWrap _ _ _ _ | SenderKeyDistribution _ _ _ _ => true | _ => false end.

Section Rotation.
Context `{Rmp} `{Blake3Hash} `{Ed25519} `{StrictVerify} `{ChaCha20} `{Zstd} `{X25519} `{HashOrderLaws} `{LruCacheLaws Identity.PathKey Z} `{LruCache NodeHash (gset NodeHash)}
  `{StdRng} `{TimeProvider} {S : Type} `{NodeStore S}.
Variable fuel : nat.

Ltac leaf := unfold same, persons; simpl; repeat case_match; reflexivity.
Ltac frames := EngineFrames.frames_by leaf.
#[local] Hint Resolve ancestors_persons sign_persons keep_wire_persons : frames.

Lemma time_persons : keeps (same persons) (network_time_ms (S := S)).
Proof. frames. Qed.
Lemma random_persons n : keeps (same persons) (random_bytes (S := S) n).
Proof. frames. Qed.
#[local] Hint Resolve time_persons random_persons : frames.

(** ** The nodes of a rotation *)

Lemma ratchet_persons cid n h : keeps (same persons) (SideEffects.advance_ratchet (S := S) cid n h).
Proof. frames. Qed.
Lemma ratchet_written cid n h (w w' : World S) fx : SideEffects.advance_ratchet cid n h w = Some (w', fx) -> written fx = [].
Proof.
  intros E. unfold SideEffects.advance_ratchet in E. EngineFrames.step E. EngineFrames.step E. destruct (established _ cid); [|by EngineFrames.steps E].
  destruct (skips_ratchet n); [by EngineFrames.steps E|]. EngineFrames.step E. destruct a0 as [s [[k k_next]|]]; EngineFrames.step E; [|by EngineFrames.steps E].
  destruct (Conversation.commit_node_key _ _ _ _ _ _) as [s' prev]. EngineFrames.steps E. by destruct prev.
Qed.

Lemma heads_quiet cid n h (w w' : World S) fx : SideEffects.update_heads cid n h w = Some (w', fx) -> same persons w w' /\ written fx = [].
Proof.
  intros E. split; [assert (keeps (same persons) (SideEffects.update_heads (S := S) cid n h)) as Hk by frames; by eapply Hk|].
  unfold SideEffects.update_heads in E. case_bool_decide; by EngineFrames.steps E.
Qed.

Lemma key_effects rotate cid n (w w' : World S) fx : is_key_node (content n) = true -> SideEffects.apply_side_effects fuel rotate cid n w = Some (w', Ok fx) ->
  same persons w w' /\ written fx = [].
Proof.
  intros Hn E. unfold SideEffects.apply_side_effects in E. apply bind_inv in E as (w1 & ctx & E1 & E).
  assert (keeps (same persons) (Overlay.causal_context (S := S) fuel n)) as Hctx by frames. apply Hctx in E1. EngineFrames.step E.
  apply try_ok in E as (w2 & act & E2 & E). apply bind_inv in E as (w3 & rat & E3 & E). apply bind_inv in E as (w4 & hd & E4 & E). injection E as <- <-.
  apply ratchet_written in E3 as Hw3. apply ratchet_persons in E3. apply heads_quiet in E4 as [E4 Hw4].
  assert (same persons w1 w2 /\ written act = []) as [E2' Hw2].
  { unfold SideEffects.apply_action in E2. destruct (content n); try done; [by EngineFrames.steps E2|].
    assert (keeps (same persons) (SideEffects.on_sender_keys (S := S) cid n ephemeral_signing_pk disclosed_keys)) as Hk by frames.
    apply bind_inv in E2 as (w2' & u & E2 & E2'). injection E2' as <- <-. split; [by eapply Hk|done]. }
  rewrite !written_app, Hw2, Hw3, Hw4. split; [|done]. by rewrite E1, E2', E3.
Qed.

Lemma key_node_written rotate cid ct meta ep (w w' : World S) fx : is_key_node ct = true -> Authoring.author_node_internal fuel rotate cid ct meta ep w = Some (w', Ok fx) ->
  same persons w w' /\ exists n, written fx = [n] /\ content n = ct.
Proof.
  intros Hct (now & n0 & n & w0 & w1 & w2 & se & inv & before & after & E0 & E1 & Hn & Hp & Ese & Einv & -> & Hb & Ha)%author_inv.
  apply draft_result in E1 as (_ & Hc & _). apply (f_equal content) in Hn. simpl in Hn. rewrite Hc in Hn.
  apply key_effects in Ese as [Hp2 Hw2]; [|by rewrite Hn]. replace (Authoring.affects_identity ct) with false in Einv by (by destruct ct). injection Einv as <- <-.
  split; [by rewrite Hp|]. exists n. rewrite written_app, Hb. simpl. by rewrite Ha, Hw2.
Qed.

(** ** The recipients *)

Lemma wrap_for_result e_sk au payload r (w w' : World S) x : Authoring.wrap_for e_sk au payload r w = Some (w', x) -> same persons w w' /\ recipient_pk x = r.
Proof.
  intros E. split; [assert (keeps (same persons) (Authoring.wrap_for (S := S) e_sk au payload r)) as Hk by frames; by eapply Hk|].
  unfold Authoring.wrap_for in E. do 2 EngineFrames.step E. by EngineFrames.steps E.
Qed.

Lemma wrap_all_result e_sk au payload rs (w w' : World S) ws : Authoring.wrap_for_all e_sk au payload rs w = Some (w', ws) ->
  same persons w w' /\ forall x, x ∈ ws -> recipient_pk x ∈ rs /\ recipient_pk x <> self_pk (engine w).
Proof.
  intros E. unfold Authoring.wrap_for_all in E. EngineFrames.step E.
  assert (forall l (w w' : World S) ws, collect l (fun r => let* w := Authoring.wrap_for e_sk au payload r in pure [w]) w = Some (w', ws) ->
    same persons w w' /\ forall x, x ∈ ws -> recipient_pk x ∈ l) as Hl.
  { clear. induction l as [|r l IH]; intros w w' ws E; [injection E as <- <-; split; [done|set_solver]|]. simpl in E.
    do 2 EngineFrames.step E. EngineFrames.steps E0. EngineFrames.steps E. apply wrap_for_result in E2 as [Hp Hr]. apply IH in E1 as [Hp' Hx].
    split; [by rewrite Hp|]. intros x [->|Hin]%elem_of_cons; [rewrite Hr; left|right; by apply Hx]. }
  apply Hl in E as [Hp Hx]. split; [done|]. intros x Hin. specialize (Hx _ Hin). apply list_elem_of_In, filter_In in Hx as [Hx Hne].
  split; [by apply list_elem_of_In|]. by apply negb_true_iff, bool_decide_eq_false in Hne.
Qed.

Context (view : NodeHash -> Identity.CausalContext * Z).
Hypothesis dummy_view : IdentityLaws.consistent view Authoring.dummy_ctx u64_max.

(** The manager changes by questions only, and we stay who we are. *)
Definition inquired (w w' : World S) : Prop := asked view (identity_manager (engine w)) (identity_manager (engine w')) /\ self_pk (engine w') = self_pk (engine w).
#[export] Instance inquired_preorder : PreOrder inquired.
Proof. split; [done|]. intros w1 w2 w3 [A1 S1] [A2 S2]. split; [by etrans|congruence]. Qed.

Lemma persons_inquired (w w' : World S) : same persons w w' -> inquired w w'.
Proof. unfold same, persons. intros [= E1 E2 E3]. unfold inquired. by rewrite E1, E2. Qed.

Definition coherent_in (w : World S) : Prop := IdentityLaws.coherent view (identity_manager (engine w)).

Lemma list_result cid now (w w' : World S) ds : coherent_in w -> Overlay.list_active_authorized_devices Authoring.dummy_ctx cid now u64_max w = Some (w', ds) ->
  inquired w w' /\ forall d, d ∈ ds -> entitled (identity_manager (engine w)) cid d.
Proof.
  intros Hw E. unfold Overlay.list_active_authorized_devices in E. EngineFrames.step E.
  destruct (Identity.list_active_authorized_devices _ _ _ _ _) as [m ds'] eqn:El. apply (active_entitled view dummy_view) in El as [Ha Hd]; [|done].
  EngineFrames.steps E. done.
Qed.

(** What the nodes of an operation may carry. *)
Definition fair (w : World S) (cid : ConversationId) (fx : list Effect) : Prop :=
  forall n x, n ∈ written fx -> x ∈ wrapped_keys_of (content n) -> recipient_pk x <> self_pk (engine w) /\ entitled (identity_manager (engine w)) cid (recipient_pk x).

Lemma fair_inquired (w w' : World S) cid fx : inquired w w' -> fair w' cid fx -> fair w cid fx.
Proof. intros [Ha Hs] Hf n x Hn Hx. destruct (Hf n x Hn Hx) as [Hne He]. rewrite <- Hs. split; [done|by eapply entitled_asked]. Qed.

Lemma inquired_coherent w w' : inquired w w' -> coherent_in w -> coherent_in w'.
Proof. intros [(_ & _ & Hc) _] Hw. by apply Hc. Qed.

Lemma bind_quiet {A B} (m : M (World S) A) (k : A -> M (World S) B) w w' b : keeps (same persons) m -> bind m k w = Some (w', b) ->
  exists w1 a, inquired w w1 /\ k a w1 = Some (w', b).
Proof. intros Hm (w1 & a & E1 & E2)%bind_inv. exists w1, a. split; [by eapply persons_inquired, Hm|done]. Qed.

(** Takes away a first step that asks nothing. *)
Ltac quiet E := let w := fresh "w" in let a := fresh "a" in let Hq := fresh "Hq" in apply bind_quiet in E as (w & a & Hq & E); [|solve [frames]].

Section Nodes.
Variable rotate : ConversationId -> bool -> M (World S) (result MerkleToxError (list Effect)).

(** The common end of a distribution: active devices, their wrapped keys, a node. *)
Lemma distribution_fair cid g o (w w' : World S) fx : coherent_in w ->
  Authoring.author_sender_key_distribution (Authoring.author_node_internal fuel rotate) cid g o w = Some (w', Ok fx) -> inquired w w' /\ fair w cid fx.
Proof.
  intros Hw E. unfold Authoring.author_sender_key_distribution in E. do 7 quiet E.
  assert (inquired w w6) as Hi by (by repeat (etrans; [eassumption|])). destruct (established _ cid); [|done].
  apply bind_inv in E as (w7 & ds & E1 & E). apply list_result in E1 as [Hi1 Hds]; [|by eapply inquired_coherent].
  apply bind_inv in E as (w8 & ws & E2 & E). apply wrap_all_result in E2 as [Hp Hx]. quiet E. apply key_node_written in E as [Hp' (n & Hn & Hc)]; [|done].
  assert (inquired w7 w8) as Hi2 by (by apply persons_inquired).
  assert (inquired w9 w') as Hi3 by (by apply persons_inquired).
  split; [by repeat (etrans; [eassumption|])|]. apply (fair_inquired w w6); [done|]. intros n' x Hn' Hin. rewrite Hn in Hn'. apply list_elem_of_singleton in Hn' as ->.
  rewrite Hc in Hin. destruct (Hx x Hin) as [Hr Hne]. destruct Hi1 as [_ Hs]. rewrite Hs in Hne. split; [done|by apply Hds].
Qed.

Lemma rotation_fair cid b (w w' : World S) fx : coherent_in w ->
  Authoring.rotate_conversation_key_impl (Authoring.author_node_internal fuel rotate) cid b w = Some (w', Ok fx) -> inquired w w' /\ fair w cid fx.
Proof.
  intros Hw E. unfold Authoring.rotate_conversation_key_impl in E. do 3 quiet E. quiet E. destruct a2 as [o g]. do 3 quiet E.
  assert (inquired w w6) as Hi by (by repeat (etrans; [eassumption|])).
  apply bind_inv in E as (w7 & ds & E1 & E). apply list_result in E1 as [Hi1 Hds]; [|by eapply inquired_coherent].
  apply bind_inv in E as (w8 & ws & E2 & E). apply wrap_all_result in E2 as [Hp Hx]. quiet E.
  apply try_ok in E as (w10 & wraps & E3 & E). apply try_ok in E as (w11 & dist & E4 & E). quiet E. injection E as <- <-.
  assert (inquired w7 w8) as Hi2 by (by apply persons_inquired). assert (inquired w w9) as Hi9 by (by repeat (etrans; [eassumption|])).
  assert (inquired w9 w10 /\ fair w cid wraps) as [Hi3 Hf].
  { destruct (_ || _); [|injection E3 as <- <-; split; [done|by intros n x Hn%not_elem_of_nil]].
    apply key_node_written in E3 as [Hp' (n & Hn & Hc)]; [|done]. split; [by apply persons_inquired|]. apply (fair_inquired w w6); [done|].
    intros n' x Hn' Hin. rewrite Hn in Hn'. apply list_elem_of_singleton in Hn' as ->. rewrite Hc in Hin. destruct (Hx x Hin) as [Hr Hne].
    destruct Hi1 as [_ Hs]. rewrite Hs in Hne. split; [done|]. apply Hds. apply list_elem_of_In, filter_In in Hr as [Hr _]. by apply list_elem_of_In. }
  assert (inquired w w10) as Hi10 by (by etrans). apply distribution_fair in E4 as [Hi4 Hf']; [|by eapply inquired_coherent].
  split; [by repeat (etrans; [eassumption|])|]. apply (fair_inquired w w10) in Hf'; [|done]. intros n x Hn. simpl in Hn. rewrite written_app in Hn.
  apply elem_of_app in Hn as [Hn|Hn]; [by apply Hf|by apply Hf'].
Qed.
End Nodes.

End Rotation.

Section Revocation.
Context `{Rmp} `{Blake3Hash} `{Ed25519} `{StrictVerify} `{ChaCha20} `{Zstd} `{X25519} `{HashOrderLaws} `{LruCacheLaws Identity.PathKey Z} `{LruCache NodeHash (gset NodeHash)}
  `{StdRng} `{TimeProvider} {S : Type} `{NodeStore S}.
Variable fuel : nat.
Ltac leaf := unfold same, persons; simpl; repeat case_match; reflexivity.
Ltac frames := EngineFrames.frames_by leaf.
#[local] Hint Resolve ancestors_persons sign_persons keep_wire_persons time_persons random_persons : frames.

(** In a rotation only the questions with the global view are asked. *)
Definition global_view (h : NodeHash) : Identity.CausalContext * Z := (Authoring.dummy_ctx, u64_max).

Lemma entitled_after_revocation m cid logical target rank now h device : IdentityLaws.ranks_ok m -> rank <= u64_max ->
  (forall l, is_Some (Identity.logical_members m !! (cid, l)) -> target <> to_physical l) ->
  entitled (Identity.revoke_device m cid (to_physical logical) logical target rank now h) cid device -> device <> target.
Proof.
  intros Hok Hr Hm (l & t & Hl & [->|(path & Hp & _)]); [intros <-; by apply (Hm l)|]. apply IdentityLaws.revoked_by_master in Hp as [Hd _]; [done|done| |done|by apply Hm].
  right. by left.
Qed.

Lemma rank_bounded c (st : S) ps r : Authoring.rank_after c st ps = Some r -> r <= u64_max.
Proof. unfold Authoring.rank_after. destruct ps; [by intros [= <-]|]. intros [-> Hr]%chk_Some. lia. Qed.

Lemma revocation_fair ctx cid n h target (w w' : World S) fx :
  SideEffects.on_revocation (Authoring.rotate_impl fuel) ctx cid n h target w = Some (w', fx) ->
  let m := Identity.revoke_device (identity_manager (engine w)) cid (sender_pk n) (author_pk n) target (topological_rank n) (network_timestamp n) h in
  forall k x, k ∈ written fx -> x ∈ wrapped_keys_of (content k) -> recipient_pk x <> self_pk (engine w) /\ entitled m cid (recipient_pk x).
Proof.
  intros E m. unfold SideEffects.on_revocation in E. EngineFrames.step E. EngineFrames.step E. EngineFrames.step E.
  case_bool_decide; [|injection E as <- <-; by intros k x Hk%not_elem_of_nil].
  apply (bind_quiet global_view) in E as (w1 & now & Hi1 & E); [|solve [frames]]. apply (bind_quiet global_view) in E as (w2 & admin & Hi2 & E); [|solve [frames]].
  destruct admin; [|injection E as <- <-; by intros k x Hk%not_elem_of_nil]. unfold SideEffects.rotate_if_possible in E. apply bind_inv in E as (w3 & [gx|err] & Er & E); injection E as <- <-;
    [|by intros k x Hk%not_elem_of_nil].
  pose proof (transitivity Hi1 Hi2) as Hi. cbn beta in Hi.
  eapply (rotation_fair fuel global_view) in Er as [_ Hf]; [|done|].
  - exact (fair_inquired global_view _ _ _ _ Hi Hf).
  - eapply inquired_coherent; [exact Hi|]. apply IdentityLaws.revoke_device_coherent.
Qed.

Lemma revalidated_written cid (w w' : World S) fx : Verify.revalidate_all_verified_nodes fuel cid w = Some (w', fx) -> written fx = [].
Proof.
  unfold Verify.revalidate_all_verified_nodes. intros E. EngineFrames.step E.
  match type of E with collect ?l _ w = _ => generalize dependent l end. intros l. revert w w' fx. induction l as [|n l IH]; intros w w' fx E; [by injection E as <- <-|]. simpl in E.
  apply bind_inv in E as (w1 & x & E1 & E). apply bind_inv in E as (w2 & y & E2 & E). injection E as <- <-. rewrite written_app, (IH _ _ _ E2), app_nil_r.
  EngineFrames.step E1. destruct a; by EngineFrames.steps E1.
Qed.

(** C7: When the owner of a master key authors a revocation, no node that follows from
    it, the new keys of the rotation among them, wraps a key for the revoked device or
    for ourselves. *)
Theorem revoked_device_gets_no_key cid target reason meta ep (w w' : World S) fx :
  let e := engine w in
  Authoring.author_internal fuel cid (Control (RevokeDevice target reason)) meta ep w = Some (w', Ok fx) ->
  self_pk e = to_physical (self_logical_pk e) -> IdentityLaws.ranks_ok (identity_manager e) ->
  (forall logical, is_Some (Identity.logical_members (identity_manager e) !! (cid, logical)) -> target <> to_physical logical) ->
  forall n x, n ∈ written fx -> x ∈ wrapped_keys_of (content n) -> recipient_pk x <> target /\ recipient_pk x <> self_pk e.
Proof.
  intros e (now & n0 & n & w0 & w1 & w2 & se & inv & before & after & E0 & E1 & Hn & Hp & Ese & Einv & -> & Hb & Ha)%author_inv Hself Hranks Hmembers k x Hk Hx.
  apply revalidated_written in Einv. rewrite Einv, app_nil_r in Ha. apply time_persons in E0 as Hp0. apply draft_result in E1 as (_ & Hc & Hs & Hau & _ & Hr & _).
  pose proof (f_equal content Hn) as Hc'. pose proof (f_equal sender_pk Hn) as Hs'. pose proof (f_equal author_pk Hn) as Hau'. pose proof (f_equal topological_rank Hn) as Hr'.
  simpl in Hc', Hs', Hau', Hr'. rewrite written_app, Hb in Hk. simpl in Hk. rewrite Ha in Hk. apply elem_of_cons in Hk as [->|Hk]; [rewrite Hc', Hc in Hx; by apply not_elem_of_nil in Hx|].
  clear Ha Hb Einv. unfold SideEffects.apply_side_effects in Ese. apply bind_inv in Ese as (w3 & ctx & Ectx & Ese).
  assert (keeps (same persons) (Overlay.causal_context (S := S) fuel n)) as Hctx by frames. apply Hctx in Ectx. EngineFrames.step Ese.
  apply try_ok in Ese as (w4 & act & E2 & Ese). apply bind_inv in Ese as (w5 & rat & E3 & Ese). apply bind_inv in Ese as (w6 & hd & E4 & Ese). injection Ese as <- <-.
  apply ratchet_written in E3. apply heads_quiet in E4 as [_ E4]. rewrite !written_app, E3, E4, !app_nil_r in Hk.
  unfold SideEffects.apply_action in E2. rewrite Hc', Hc in E2. apply bind_inv in E2 as (w7 & gx & E2 & E5). injection E5 as <- <-.
  apply revocation_fair with (k := k) (x := x) in E2 as [Hne He]; [|done|done].
  assert (same persons w w3) as Hp3 by (by rewrite Hp). unfold same, persons in Hp3, Hp0. injection Hp3 as Hm3 Hself3 _. injection Hp0 as _ Hself0 Hlog0.
  rewrite Hself3 in Hne. split; [|done]. rewrite Hm3, Hs', Hs, Hau', Hau, Hself0, Hlog0 in He. fold e in He. rewrite Hself in He.
  eapply (entitled_after_revocation (identity_manager e)); [done| |exact Hmembers|exact He]. rewrite Hr'. by eapply rank_bounded.
Qed.

End Revocation.
Import Models Format EngineModels.

(** The founder of a room, one of whose devices is to go, and a second member. *)
Definition founded : World Memory.InMemoryStore :=
  let m := Identity.mk {[(room, device 11) := [Identity.mkAuth (device 1) (device 1) Permissions.ALL i64_max 1 (device 21)]]}
             {[(room, device 1) := (0, 1); (room, device 2) := (1, 1)]} ∅ ∅ in
  let w := fresh 1 in w <| engine := (engine w) <| identity_manager := m |> |>.

Lemma founded_ranks : IdentityLaws.ranks_ok (identity_manager (engine founded)).
Proof. intros k l r Hl Hr. simpl in Hl. apply lookup_singleton_Some in Hl as [_ <-]. by apply list_elem_of_singleton in Hr as ->. Qed.
Lemma founded_members logical : is_Some (Identity.logical_members (identity_manager (engine founded)) !! (room, logical)) -> device 11 <> to_physical logical.
Proof.
  intros [x Hx]. simpl in Hx. apply lookup_insert_Some in Hx as [[[= <-] _]|[_ Hx]]; [done|]. by apply lookup_singleton_Some in Hx as [[= <-] _].
Qed.

Abbreviation revoking := (Authoring.author_internal 10 room (Control (RevokeDevice (device 11) [])) [] None founded).
Definition recipients (fx : list Effect) : list PhysicalDevicePk := recipient_pk <$> flat_map (fun n => wrapped_keys_of (content n)) (written fx).
Lemma recipients_elem fx d : d ∈ recipients fx -> exists n x, n ∈ written fx /\ x ∈ wrapped_keys_of (content n) /\ recipient_pk x = d.
Proof. intros (x & -> & (n & Hn & Hx)%list_elem_of_In%in_flat_map)%list_elem_of_fmap. apply list_elem_of_In in Hn, Hx. eauto. Qed.
Lemma founded_master : self_pk (engine founded) = to_physical (self_logical_pk (engine founded)).
Proof. reflexivity. Qed.

Lemma revoked_device_gets_no_key_witness : exists (w' : World Memory.InMemoryStore) fx n x,
  revoking = Some (w', Ok fx) /\ n ∈ written fx /\ x ∈ wrapped_keys_of (content n) /\ recipient_pk x = device 2 /\ recipient_pk x <> device 11.
Proof.
  destruct (observe revoking (fun a => match a.2 with Ok fx => recipients fx | Err _ => [] end) [device 2; device 2]) as ([w [fx|err]] & E & Hr); [vm_compute; reflexivity| |done].
  cbn [snd] in Hr. assert (device 2 ∈ recipients fx) as (n & x & Hn & Hx & Ex)%recipients_elem by (rewrite Hr; left).
  exists w, fx, n, x. split; [exact E|]. split; [exact Hn|]. split; [exact Hx|]. split; [exact Ex|].
  exact (proj1 (revoked_device_gets_no_key 10 room (device 11) [] [] None founded w fx E founded_master founded_ranks founded_members n x Hn Hx)).
Defined.

End RotationTheory.
