(* ===== verification/HistoryTheory.v ===== *)
(** The history of a node: the admin nodes that the engine finds in it, with its cache
    of earlier answers, are admin ancestors of the node in the store, and all of them as
    long as the earlier answers are complete. *)

From S2P Require Import Prelude Protocol MsgPack ToxTypes Derive Iblt Merkle Dag DagWire Identity IdentityTheory IdentityLaws Conversation SyncSession Cas Clock Messages Monad Engine Overlay MsgPackFormat MerkleModels IbltTheory Memory EngineModels.
From stdpp Require Import gmap sorting strings.
#[local] Open Scope Z_scope.
#[local] Open Scope list_scope.
#[local] Open Scope monad_scope.

Module HistoryTheory.
Import Dag Crypto DagWire Messages IdentityTheory Engine.

(** ** Ancestors *)

Section Ancestors.
Context `{Rmp} `{Blake3Hash}.
Variable view : NodeHash -> option MerkleNode.

(** What is reached from some parents. *)
Inductive ancestor : list NodeHash -> NodeHash -> Prop :=
  | ancestor_parent ps p : p ∈ ps -> ancestor ps p
  | ancestor_above ps p n q : p ∈ ps -> view p = Some n -> ancestor (parents n) q -> ancestor ps q.
Definition admin_ancestor (ps : list NodeHash) (q : NodeHash) : Prop := ancestor ps q /\ exists n, view q = Some n /\ node_type n = Admin.

Lemma ancestor_trans ps p n q : ancestor ps p -> view p = Some n -> ancestor (parents n) q -> ancestor ps q.
Proof.
  intros Hp Hn Hq. induction Hp as [ps p Hp|ps p m q' Hp Hm _ IH]; [by eapply ancestor_above|].
  eapply ancestor_above; [exact Hp|exact Hm|]. by apply IH.
Qed.

(** What the loop has and has left.  [C] says that the answers used are complete. *)
Context (C : Prop).
Record progress (ps stack : list NodeHash) (visited found : gset NodeHash) : Prop := {
  stack_above q : q ∈ stack -> ancestor ps q;
  found_above q : q ∈ found -> admin_ancestor ps q;
  roots_met p : p ∈ ps -> p ∈ visited \/ p ∈ stack;
  admins_found v n : v ∈ visited -> view v = Some n -> node_type n = Admin -> v ∈ found;
  parents_met v n : v ∈ visited -> view v = Some n ->
    (C -> forall q, admin_ancestor (parents n) q -> q ∈ found) \/ forall p, p ∈ parents n -> p ∈ visited \/ p ∈ stack
}.

Lemma progress_start ps stack : (forall p, p ∈ stack <-> p ∈ ps) -> progress ps stack ∅ ∅.
Proof. intros E. split; try set_solver. intros q Hq. apply ancestor_parent. by apply E. Qed.

Lemma progress_end ps visited found : progress ps [] visited found ->
  (forall q, q ∈ found -> admin_ancestor ps q) /\ (C -> forall q, admin_ancestor ps q -> q ∈ found).
Proof.
  intros P. split; [apply (found_above _ _ _ _ P)|]. intros HC q (Hq & n & Hn & Ht).
  assert (forall p, p ∈ ps -> p ∈ visited) as Hps by (intros p Hp; destruct (roots_met _ _ _ _ P p Hp) as [?|?%not_elem_of_nil]; done).
  clear -HC P Hq Hn Ht Hps. assert (forall l, ancestor l q -> (forall p, p ∈ l -> p ∈ visited) -> q ∈ found) as Hall; [|by eapply Hall].
  intros l Hl. induction Hl as [l p Hp|l p m q Hp Hm Hq' IH]; intros Hv; [by eapply (admins_found _ _ _ _ P); eauto|].
  destruct (parents_met _ _ _ _ P p m (Hv p Hp) Hm) as [Hc|Hc].
  - apply (Hc HC). split; [exact Hq'|]. by exists n.
  - apply IH; [done| |]; [done|]. intros x Hx. destruct (Hc x Hx) as [?|?%not_elem_of_nil]; done.
Qed.

Lemma progress_skip ps p stack visited found : p ∈ visited -> progress ps (p :: stack) visited found -> progress ps stack visited found.
Proof.
  intros Hp [Hs Hf Hr Ha Hm]. split; [set_solver|done|set_solver|done|]. intros v n Hv Hn.
  destruct (Hm v n Hv Hn) as [Hc|Hc]; [by left|right]. set_solver.
Qed.

Lemma progress_unknown ps p stack visited found : view p = None -> progress ps (p :: stack) visited found -> progress ps stack (visited ∪ {[p]}) found.
Proof.
  intros Hp [Hs Hf Hr Ha Hm]. split; [set_solver|done|set_solver| |].
  - intros v n [Hv| ->%elem_of_singleton]%elem_of_union Hn; [by eapply Ha|congruence].
  - intros v n [Hv| ->%elem_of_singleton]%elem_of_union Hn; [|congruence].
    destruct (Hm v n Hv Hn) as [Hc|Hc]; [by left|right]. set_solver.
Qed.

(** A node is met: either all admin ancestors of it are known, or its parents wait. *)
Lemma progress_known ps p n more stack visited found extra : view p = Some n -> progress ps (p :: stack) visited found ->
  (forall q, q ∈ extra -> admin_ancestor (parents n) q) -> (forall q, q ∈ more -> q ∈ parents n) ->
  (C -> forall q, admin_ancestor (parents n) q -> q ∈ extra) \/ (forall q, q ∈ parents n -> q ∈ more) ->
  progress ps (more ++ stack) (visited ∪ {[p]}) ((if bool_decide (node_type n = Admin) then found ∪ {[p]} else found) ∪ extra).
Proof.
  intros Hp [Hs Hf Hr Ha Hm] He Hmore Hd.
  assert (ancestor ps p) as Hpp by (apply Hs; left). set (found' := if bool_decide (node_type n = Admin) then found ∪ {[p]} else found).
  assert (found ⊆ found') as Hsub by (unfold found'; case_bool_decide; set_solver).
  assert (forall q, q ∈ found' -> q ∈ found \/ (q = p /\ node_type n = Admin)) as Hinv by (unfold found'; case_bool_decide; set_solver).
  split.
  - intros q [Hq|Hq]%elem_of_app; [|apply Hs; by right]. eapply ancestor_trans; [exact Hpp|exact Hp|]. by apply ancestor_parent, Hmore.
  - intros q [[Hq|[-> Ht]]%Hinv|Hq]%elem_of_union; [by apply Hf|split; eauto|]. destruct (He q Hq) as [Hup Hadm]. split; [|done]. by eapply ancestor_trans.
  - intros x Hx. specialize (Hr x Hx). set_solver.
  - intros v m [Hv| ->%elem_of_singleton]%elem_of_union Hv' Ht.
    + pose proof (Ha v m Hv Hv' Ht). set_solver.
    + replace m with n in Ht by congruence. unfold found'. rewrite bool_decide_true by done. set_solver.
  - intros v m [Hv| ->%elem_of_singleton]%elem_of_union Hv'.
    + destruct (Hm v m Hv Hv') as [Hc|Hc]; [left; intros HC q Hq; specialize (Hc HC q Hq); set_solver|right].
      intros x Hx. specialize (Hc x Hx). set_solver.
    + replace m with n by congruence. destruct Hd as [Hd|Hd]; [left; intros HC q Hq; specialize (Hd HC q Hq); set_solver|right; set_solver].
Qed.

(** ** The work that is left *)

Definition edges (h : NodeHash) : nat := match view h with Some n => length (parents n) | None => 0%nat end.
Definition edges_left (universe : list NodeHash) (visited : gset NodeHash) : nat := sum_list_with edges (filter (fun h => h ∉ visited) universe).

Lemma edges_visit universe visited p : p ∈ universe -> p ∉ visited -> (edges_left universe (visited ∪ {[p]}) + edges p <= edges_left universe visited)%nat.
Proof.
  intros Hp Hv. assert (forall l, (edges_left l (visited ∪ {[p]}) + (if decide (p ∈ l) then edges p else 0) <= edges_left l visited)%nat) as Hl.
  { intros l. unfold edges_left. induction l as [|x l IH]; [by destruct (decide (p ∈ [])) as [?%not_elem_of_nil|]|].
    rewrite !filter_cons. destruct (decide (x = p)) as [->|Hx].
    - rewrite (decide_False (P := p ∉ visited ∪ {[p]})), (decide_True (P := p ∉ visited)), (decide_True (P := p ∈ p :: l)) by set_solver. simpl.
      destruct (decide (p ∈ l)); lia.
    - destruct (decide (x ∉ visited)) as [Hxv|Hxv].
      + rewrite (decide_True (P := x ∉ visited ∪ {[p]})) by set_solver. simpl. destruct (decide (p ∈ x :: l)), (decide (p ∈ l)); try lia; set_solver.
      + rewrite (decide_False (P := x ∉ visited ∪ {[p]})) by set_solver. destruct (decide (p ∈ x :: l)), (decide (p ∈ l)); try lia; set_solver. }
  specialize (Hl universe). by rewrite decide_True in Hl.
Qed.
Lemma edges_less universe visited p : (edges_left universe (visited ∪ {[p]}) <= edges_left universe visited)%nat.
Proof.
  unfold edges_left. induction universe as [|x l IH]; [done|]. rewrite !filter_cons.
  destruct (decide (x ∉ visited ∪ {[p]})) as [Hx|Hx]; [rewrite decide_True by set_solver; simpl; lia|]. destruct (decide (x ∉ visited)); simpl; lia.
Qed.
End Ancestors.

(** ** The loop *)

Section Loop.
Context `{Rmp} `{Blake3Hash} `{Ed25519} `{HashOrder} `{LruCache Identity.PathKey Z} `{!LruCache NodeHash (gset NodeHash)} `{!LruCacheLaws NodeHash (gset NodeHash)}
  `{StdRng} {S : Type} `{NodeStore S}.

(** The answers that are kept hold only admin ancestors; they hold all of them. *)
Definition cache_sound (view : NodeHash -> option MerkleNode) (w : World S) : Prop :=
  forall h s n, contents (admin_ancestors_cache (engine w)) !! h = Some s -> view h = Some n -> forall q, q ∈ s -> admin_ancestor view (parents n) q.
Definition cache_complete (view : NodeHash -> option MerkleNode) (w : World S) : Prop :=
  forall h s n, contents (admin_ancestors_cache (engine w)) !! h = Some s -> view h = Some n -> forall q, admin_ancestor view (parents n) q -> q ∈ s.

(** Nothing but the cache of answers changes. *)
Definition but_cache (w w' : World S) : Prop := exists lru, w' = w <| engine := ((engine w) <| admin_ancestors_cache := lru |>) |>.
#[local] Instance but_cache_trans : Transitive but_cache.
Proof. intros w1 w2 w3 [c1 ->] [c2 ->]. by exists c2. Qed.

Definition view_of (w : World S) (h : NodeHash) : option MerkleNode := Overlay.get_node (pending_cache (engine w)) (disk w) h.
Lemma but_cache_view w w' : but_cache w w' -> view_of w' = view_of w.
Proof. by intros [lru ->]. Qed.

Lemma loop_exact ps universe view (w0 : World S) : (forall x n, view x = Some n -> x ∈ universe) ->
  forall fuel stack visited found (w : World S), view_of w = view -> contents (admin_ancestors_cache (engine w)) = contents (admin_ancestors_cache (engine w0)) -> cache_sound view w -> progress view (cache_complete view w0) ps stack visited found ->
  (length stack + edges_left view universe visited < fuel)%nat ->
  exists w' found', Overlay.admin_ancestors_loop Overlay.get_node fuel stack visited found w = Some (w', found') /\
    but_cache w w' /\ contents (admin_ancestors_cache (engine w')) = contents (admin_ancestors_cache (engine w)) /\
    (forall q, q ∈ found' -> admin_ancestor view ps q) /\ (cache_complete view w0 -> forall q, admin_ancestor view ps q -> q ∈ found').
Proof.
  intros Hu. induction fuel as [|fuel IH]; intros stack visited found w Hw Hw0 Hc P Hf; [lia|]. cbn [Overlay.admin_ancestors_loop].
  destruct stack as [|p stack]; [exists w, found; split_and!; try done; [by exists (admin_ancestors_cache (engine w)); destruct w as [[] ? ?]|exact (proj1 (progress_end _ _ _ _ _ P))|exact (proj2 (progress_end _ _ _ _ _ P))]|]. simpl in Hf.
  destruct (decide (p ∈ visited)) as [Hp|Hp]; [apply IH; [done|done|done|by eapply progress_skip|lia]|].
  unfold Overlay.read, get_engine, update, bind, gets. change (Overlay.get_node _ _ p) with (view_of w p). rewrite Hw.
  pose proof (edges_less view universe visited p) as Hl.
  destruct (view p) as [n|] eqn:Hn; [|apply IH; [done|done|done|by apply progress_unknown|lia]].
  destruct (get_contents p (admin_ancestors_cache (engine w))) as [Hhit Hsame].
  destruct (cache_get p (admin_ancestors_cache (engine w))) as [hit lru]. cbn [fst snd] in Hhit, Hsame. cbn.
  set (w1 := w <| engine := ((engine w) <| admin_ancestors_cache := lru |>) |>).
  assert (but_cache w w1) as Hb by (by exists lru). assert (contents (admin_ancestors_cache (engine w1)) = contents (admin_ancestors_cache (engine w))) as Hs1 by done.
  assert (view_of w1 = view) as Hv1 by done. assert (cache_sound view w1) as Hc1 by (unfold cache_sound; by rewrite Hs1). assert (contents (admin_ancestors_cache (engine w1)) = contents (admin_ancestors_cache (engine w0))) as Hw1 by congruence.
  destruct hit as [s|].
  - assert (forall q, q ∈ s -> admin_ancestor view (parents n) q) as Hs by (apply (Hc p); [by rewrite <- Hhit|done]).
    assert (cache_complete view w0 -> forall q, admin_ancestor view (parents n) q -> q ∈ s) as Hall by (intros HC; apply (HC p); [by rewrite <- Hw0, <- Hhit|done]).
    destruct (IH stack (visited ∪ {[p]}) ((if bool_decide (node_type n = Admin) then found ∪ {[p]} else found) ∪ s) w1) as (w' & found' & E & Hb' & Hs' & Hq); [done|done|done| |lia|].
    { apply (progress_known view _ ps p n [] stack); [done|done|exact Hs|by intros q ?%not_elem_of_nil|by left]. }
    exists w', found'. split; [exact E|]. split; [by transitivity w1|]. split; [by rewrite Hs'|done].
  - pose proof (edges_visit view universe visited p (Hu _ _ Hn) Hp) as Hl'. unfold edges at 1 in Hl'. rewrite Hn in Hl'.
    destruct (IH (rev (parents n) ++ stack) (visited ∪ {[p]}) (if bool_decide (node_type n = Admin) then found ∪ {[p]} else found) w1) as (w' & found' & E & Hb' & Hs' & Hq); [done|done|done| | |].
    { rewrite <- (union_empty_r_L (if _ : bool then _ else _)). apply (progress_known view _ ps p n (rev (parents n)) stack); [done|done|set_solver| |];
        [|right]; intros q; rewrite !list_elem_of_In; apply in_rev. }
    { rewrite length_app, length_rev. lia. }
    exists w', found'. split; [exact E|]. split; [by transitivity w1|]. split; [by rewrite Hs'|done].
Qed.

(** ** The context *)

Lemma causal_context_result fuel n h universe (w : World S) : hash n = Some h -> (forall x m, view_of w x = Some m -> x ∈ universe) ->
  (forall m, view_of w h = Some m -> parents m = parents n) -> cache_sound (view_of w) w ->
  (length (parents n) + sum_list_with (edges (view_of w)) universe < fuel)%nat ->
  exists w' found, Overlay.causal_context fuel n w = Some (w', Identity.mkContext h found) /\ but_cache w w' /\
    (forall q, q ∈ found -> admin_ancestor (view_of w) (parents n) q) /\ cache_sound (view_of w') w' /\
    (cache_complete (view_of w) w -> (forall q, admin_ancestor (view_of w) (parents n) q -> q ∈ found) /\ cache_complete (view_of w') w').
Proof.
  intros Hh Hu Hn Hc Hf.
  destruct (loop_exact (parents n) universe (view_of w) w Hu fuel (rev (parents n)) ∅ ∅ w) as (w1 & found & E & Hb & Hs & Hq & Hall); [done|done|done| | |].
  { apply progress_start. intros q. rewrite !list_elem_of_In. symmetry. apply in_rev. }
  { rewrite length_rev. eapply Nat.le_lt_trans; [|exact Hf]. apply Nat.add_le_mono_l. unfold edges_left. clear. induction universe as [|x l IH]; [done|].
    rewrite filter_cons. case_decide; simpl; lia. }
  exists (w1 <| engine := ((engine w1) <| admin_ancestors_cache := cache_push h found (admin_ancestors_cache (engine w1)) |>) |>), found.
  split; [unfold Overlay.causal_context, Overlay.causal_context_by, bind; by rewrite E, Hh|].
  destruct Hb as [lru ->]. split; [by eexists|]. simpl in Hs.
  assert (forall x s, contents (cache_push h found lru) !! x = Some s -> (x = h /\ s = found) \/ contents (admin_ancestors_cache (engine w)) !! x = Some s) as Hpush.
  { intros x s Hx. eapply lookup_weaken in Hx; [|apply push_contents]. rewrite Hs in Hx. apply lookup_insert_Some in Hx as [[<- <-]|[_ Hx]]; [by left|by right]. }
  split; [exact Hq|]. split.
  - intros x s m [[-> ->]|Hx]%Hpush Hm; [|by eapply Hc]. change (view_of _ h) with (view_of w h) in Hm. rewrite (Hn m Hm). apply Hq.
  - intros HC. split; [by apply Hall|]. intros x s m [[-> ->]|Hx]%Hpush Hm; [|by eapply HC]. change (view_of _ h) with (view_of w h) in Hm. rewrite (Hn m Hm). by apply Hall.
Qed.

End Loop.

(** ** Judgement *)

Section Judgement.
Context `{HashOrder} `{LruCache Identity.PathKey Z}.

(** A record or a revocation is part of a history. *)
Definition recorded (hist : NodeHash -> Prop) (h : NodeHash) : Prop := h = zero_hash \/ hist h.
Definition records_of (m : Identity.t) (cid : ConversationId) (dev : PhysicalDevicePk) := default [] (Identity.authorized_devices m !! (cid, dev)).
Definition revocations_of (m : Identity.t) (cid : ConversationId) (dev : PhysicalDevicePk) := default [] (Identity.revoked_devices m !! (cid, dev)).

(** Two managers know the same of a history. *)
Record agree (hist : NodeHash -> Prop) (cid : ConversationId) (m1 m2 : Identity.t) : Prop := {
  same_records dev r : recorded hist (Identity.auth_hash r) -> r ∈ records_of m1 cid dev <-> r ∈ records_of m2 cid dev;
  same_revocations dev v : recorded hist (Identity.revocation_hash v) -> v ∈ revocations_of m1 cid dev <-> v ∈ revocations_of m2 cid dev
}.
(** Of a device and a revocation of it by one of equal rank, both say alike whether the
    two have revoked each other. *)
Definition ties_alike (hist : NodeHash -> Prop) (cid : ConversationId) (m1 m2 : Identity.t) : Prop :=
  forall dev r v, r ∈ records_of m1 cid dev -> recorded hist (Identity.auth_hash r) -> v ∈ revocations_of m1 cid dev -> recorded hist (Identity.revocation_hash v) ->
  (Identity.revoker_seniority v).1 = Identity.auth_rank r ->
  Identity.is_mutual_revocation m1 cid (Identity.revoker_seniority v).2 (Identity.auth_hash r) = Identity.is_mutual_revocation m2 cid (Identity.revoker_seniority v).2 (Identity.auth_hash r).

Lemma agree_sym hist cid m1 m2 : agree hist cid m1 m2 -> agree hist cid m2 m1.
Proof. intros [Ha Hr]. split; intros; symmetry; auto. Qed.
Lemma ties_sym hist cid m1 m2 : agree hist cid m1 m2 -> ties_alike hist cid m1 m2 -> ties_alike hist cid m2 m1.
Proof. intros Ha Hu dev r v Hr Hrh Hv Hvh Et. symmetry. apply (Hu dev); [|done| |done|done]; [by apply (same_records _ _ _ _ Ha)|by apply (same_revocations _ _ _ _ Ha)]. Qed.

Lemma ranked_untied a b : a.1 <> b.1 -> ranked_leb a b = (a.1 <=? b.1).
Proof. intros Hne. unfold ranked_leb, ranked_compare, Z.leb. by destruct (Z.compare_spec a.1 b.1). Qed.

(** What a context says that does not speak for all histories. *)
Definition context_of (hist : NodeHash -> Prop) (ctx : Identity.CausalContext) : Prop :=
  Identity.is_global ctx = false /\ forall q, q ∈ Identity.admin_ancestor_hashes ctx <-> hist q.

(** Without a tie the order of the ranks decides about a revocation. *)
Lemma revokes_alike hist cid m1 m2 ctx1 ctx2 rank r v : context_of hist ctx1 -> context_of hist ctx2 ->
  (recorded hist (Identity.revocation_hash v) -> (Identity.revoker_seniority v).1 = Identity.auth_rank r ->
   Identity.is_mutual_revocation m1 cid (Identity.revoker_seniority v).2 (Identity.auth_hash r) = Identity.is_mutual_revocation m2 cid (Identity.revoker_seniority v).2 (Identity.auth_hash r)) ->
  Identity.revokes m1 ctx1 cid rank r v = Identity.revokes m2 ctx2 cid rank r v.
Proof.
  intros [Hg1 Hh1] [Hg2 Hh2] Htie. unfold Identity.revokes. cbn [fst]. rewrite Hg1, Hg2, !orb_false_r.
  assert (bool_decide (Identity.revocation_hash v ∈ Identity.admin_ancestor_hashes ctx1) = bool_decide (Identity.revocation_hash v ∈ Identity.admin_ancestor_hashes ctx2)) as E
    by (apply bool_decide_ext; by rewrite Hh1, Hh2). rewrite E.
  destruct (bool_decide (Identity.revocation_hash v = zero_hash) || bool_decide (Identity.revocation_hash v ∈ Identity.admin_ancestor_hashes ctx2)) eqn:Hv; [|done].
  assert (recorded hist (Identity.revocation_hash v)) as Hrec by (apply orb_true_iff in Hv as [?%bool_decide_eq_true|?%bool_decide_eq_true]; [by left|right; by apply Hh2]).
  f_equal. destruct (decide ((Identity.revoker_seniority v).1 = Identity.auth_rank r)) as [Et|Et]; [by rewrite (Htie Hrec Et)|].
  assert (ranked_leb (Identity.revoker_seniority v) (Identity.auth_rank r, Identity.auth_hash r) = ((Identity.revoker_seniority v).1 <=? Identity.auth_rank r)) as -> by by apply ranked_untied.
  by do 2 destruct (Identity.is_mutual_revocation _ _ _ _).
Qed.

Section Peers.
Context (hist : NodeHash -> Prop) (cid : ConversationId) (logical : LogicalIdentityPk) (rank : Z).

Lemma counts_agree m1 m2 ctx1 ctx2 now dev r : context_of hist ctx1 -> context_of hist ctx2 -> agree hist cid m1 m2 -> ties_alike hist cid m1 m2 ->
  counts m1 ctx1 cid logical rank now dev r -> counts m2 ctx2 cid logical rank now dev r.
Proof.
  intros H1c H2c Ha Hu [Hr Hc]. unfold Identity.record_counts in Hc. apply andb_true_iff in Hc as [[Hbasic Hseen]%andb_true_iff Hrev].
  pose proof H1c as [Hg1 Hh1]. pose proof H2c as [Hg2 Hh2]. rewrite Hg1 in Hseen.
  assert (recorded hist (Identity.auth_hash r)) as Hrec.
  { unfold recorded. destruct (decide (Identity.auth_hash r = zero_hash)) as [?|Hz]; [by left|right]. rewrite (bool_decide_false _ Hz) in Hseen. simpl in Hseen.
    rewrite negb_involutive in Hseen. apply bool_decide_eq_true in Hseen. by apply Hh1. }
  assert (r ∈ records_of m2 cid dev) as Hr2 by (by apply (same_records _ _ _ _ Ha)). split; [exact Hr2|]. unfold Identity.record_counts. rewrite Hbasic.
  apply andb_true_iff. split.
  - rewrite Hg2. destruct Hrec as [->|Hrec]; [by rewrite bool_decide_true|]. rewrite (bool_decide_true (Identity.auth_hash r ∈ _)) by (by apply Hh2). by rewrite andb_false_r.
  - rewrite negb_true_iff in Hrev |- *. apply not_true_iff_false. intros (v & Hv & Er)%existsb_exists. apply not_true_iff_false in Hrev. apply Hrev. apply existsb_exists.
    apply list_elem_of_In in Hv. assert (recorded hist (Identity.revocation_hash v)) as Hvh.
    { unfold Identity.revokes in Er. rewrite Hg2, orb_false_r in Er. apply andb_true_iff in Er as [[Ein _]%andb_true_iff _].
      apply orb_true_iff in Ein as [?%bool_decide_eq_true|?%bool_decide_eq_true]; [by left|right; by apply Hh2]. }
    assert (v ∈ revocations_of m1 cid dev) as Hv1 by (by apply (same_revocations _ _ _ _ Ha)).
    exists v. split; [by apply list_elem_of_In|]. rewrite <- Er. apply (revokes_alike hist); [done|done|]. intros _. by apply (Hu dev).
Qed.

Lemma reaches_agree m1 m2 ctx1 ctx2 levels now dev path : context_of hist ctx1 -> context_of hist ctx2 -> agree hist cid m1 m2 -> ties_alike hist cid m1 m2 ->
  reaches m1 ctx1 cid logical rank levels now dev path <-> reaches m2 ctx2 cid logical rank levels now dev path.
Proof.
  assert (forall m1 m2 ctx1 ctx2, context_of hist ctx1 -> context_of hist ctx2 -> agree hist cid m1 m2 -> ties_alike hist cid m1 m2 ->
    reaches m1 ctx1 cid logical rank levels now dev path -> reaches m2 ctx2 cid logical rank levels now dev path) as Hone.
  { clear. intros m1 m2 ctx1 ctx2 Hc1 Hc2 Ha Hu [Hp Hl]. split; [|exact Hl]. clear Hl.
    induction Hp as [dev r Hd Hc Hi|dev r path Hd Hc Hi _ IH]; [apply path_direct|apply path_via]; try done; by apply (counts_agree m1 m2 ctx1 ctx2). }
  intros Hc1 Hc2 Ha Hu. split; apply Hone; try done; [by apply agree_sym|by apply ties_sym].
Qed.

Lemma permissions_agree m1 m2 ctx1 ctx2 now dev : context_of hist ctx1 -> context_of hist ctx2 -> agree hist cid m1 m2 -> ties_alike hist cid m1 m2 ->
  Identity.get_permissions m1 ctx1 cid dev logical now rank = Identity.get_permissions m2 ctx2 cid dev logical now rank.
Proof.
  intros Hc1 Hc2 Ha Hu. unfold Identity.get_permissions. destruct (decide (dev = to_physical logical)) as [->|Hd].
  { unfold Identity.LEVELS. simpl. by rewrite !decide_True. }
  pose proof (permissions_spec m1 ctx1 cid logical rank Identity.LEVELS now dev Hd) as S1. pose proof (permissions_spec m2 ctx2 cid logical rank Identity.LEVELS now dev Hd) as S2.
  pose proof (fun path => reaches_agree m1 m2 ctx1 ctx2 Identity.LEVELS now dev path Hc1 Hc2 Ha Hu) as Hr.
  destruct (Identity.get_permissions_recursive _ m1 _ _ _ _ _ _) as [p1|], (Identity.get_permissions_recursive _ m2 _ _ _ _ _ _) as [p2|]; [f_equal| | |done].
  - destruct S1 as [_ S1], S2 as [_ S2]. apply Z.bits_inj'. intros b Hb. apply eq_true_iff_eq. rewrite (S1 b Hb), (S2 b Hb). by setoid_rewrite Hr.
  - destruct S1 as [(path & Hp) _]. apply Hr in Hp. by destruct (S2 path).
  - destruct S2 as [(path & Hp) _]. apply Hr in Hp. by destruct (S1 path).
Qed.

Lemma authorized_agree m1 m2 ctx1 ctx2 now dev : context_of hist ctx1 -> context_of hist ctx2 -> agree hist cid m1 m2 -> ties_alike hist cid m1 m2 ->
  Identity.is_authorized_recursive Identity.LEVELS m1 ctx1 cid dev logical now rank = Identity.is_authorized_recursive Identity.LEVELS m2 ctx2 cid dev logical now rank.
Proof.
  intros Hc1 Hc2 Ha Hu. destruct (decide (dev = to_physical logical)) as [->|Hd]; [unfold Identity.LEVELS; simpl; by rewrite !decide_True|].
  pose proof (authorized_spec m1 ctx1 cid logical rank Identity.LEVELS now dev Hd) as S1. pose proof (authorized_spec m2 ctx2 cid logical rank Identity.LEVELS now dev Hd) as S2.
  pose proof (fun path => reaches_agree m1 m2 ctx1 ctx2 Identity.LEVELS now dev path Hc1 Hc2 Ha Hu) as Hr.
  destruct (Identity.is_authorized_recursive _ m1 _ _ _ _ _ _) as [e1|], (Identity.is_authorized_recursive _ m2 _ _ _ _ _ _) as [e2|]; [f_equal| | |done].
  - destruct S1 as [(p1 & Hp1 & <-) S1], S2 as [(p2 & Hp2 & <-) S2]. apply Z.le_antisymm; [by apply S2, Hr|by apply S1, Hr].
  - destruct S1 as [(path & Hp & _) _]. apply Hr in Hp. by destruct (S2 path).
  - destruct S2 as [(path & Hp & _) _]. apply Hr in Hp. by destruct (S1 path).
Qed.
End Peers.
End Judgement.

(** ** The engine *)

Section Engine.
Context `{Rmp} `{Blake3Hash} `{Ed25519} `{HashOrder} `{LruCache Identity.PathKey Z} `{!LruCache NodeHash (gset NodeHash)} `{!LruCacheLaws NodeHash (gset NodeHash)}
  `{StdRng} {S : Type} `{NodeStore S}.

(** An engine that can look up the history of a node: finitely many nodes are known,
    one with the hash of [n] has its parents, kept answers hold only ancestors, and the
    loop has a round for every edge. *)
Record ready (fuel : nat) (n : MerkleNode) (h : NodeHash) (universe : list NodeHash) (w : World S) : Prop := {
  ready_hash : hash n = Some h;
  ready_finite x m : view_of w x = Some m -> x ∈ universe;
  ready_same m : view_of w h = Some m -> parents m = parents n;
  ready_cache : cache_sound (view_of w) w;
  ready_fuel : (length (parents n) + sum_list_with (edges (view_of w)) universe < fuel)%nat
}.

Lemma ready_context fuel n h universe (w : World S) : ready fuel n h universe w ->
  exists w' found, Overlay.causal_context fuel n w = Some (w', Identity.mkContext h found) /\ but_cache w w' /\
    (forall q, q ∈ found -> admin_ancestor (view_of w) (parents n) q) /\ cache_sound (view_of w') w' /\
    (cache_complete (view_of w) w -> (forall q, admin_ancestor (view_of w) (parents n) q -> q ∈ found) /\ cache_complete (view_of w') w').
Proof. intros [Hh Hu Hn Hc Hf]. by eapply causal_context_result. Qed.

Lemma ancestor_agree (v1 v2 : NodeHash -> option MerkleNode) ps q : (forall q, ancestor v1 ps q -> v2 q = v1 q) -> ancestor v1 ps q <-> ancestor v2 ps q.
Proof.
  intros Hv. split; intros Hq.
  - induction Hq as [ps p Hp|ps p m q Hp Hm Hq IH]; [by apply ancestor_parent|]. eapply ancestor_above; [exact Hp| |apply IH].
    + rewrite Hv; [done|by apply ancestor_parent].
    + intros x Hx. apply Hv. by eapply ancestor_above.
  - induction Hq as [ps p Hp|ps p m q Hp Hm Hq IH]; [by apply ancestor_parent|]. rewrite Hv in Hm by (by apply ancestor_parent).
    eapply ancestor_above; [exact Hp|exact Hm|apply IH]. intros x Hx. apply Hv. by eapply ancestor_above.
Qed.

(** C9: With a round for every edge the search for the history of a node ends, changes
    nothing but the cache of answers, and finds only admin nodes among the known
    ancestors of the node; what it keeps holds only ancestors again.  It
    finds all of them as long as the answers it has kept are complete, and then what it
    keeps is complete too.  An answer that was kept while a parent was missing is not
    complete once the parent has arrived ([kept_answer_stale]). *)
Theorem context_exact fuel n h universe (w : World S) : ready fuel n h universe w ->
  exists w' ctx, Overlay.causal_context fuel n w = Some (w', ctx) /\ Identity.evaluating_node_hash ctx = h /\ but_cache w w' /\
    (forall q, q ∈ Identity.admin_ancestor_hashes ctx -> admin_ancestor (view_of w) (parents n) q) /\ cache_sound (view_of w') w' /\
    (cache_complete (view_of w) w ->
       (forall q, admin_ancestor (view_of w) (parents n) q -> q ∈ Identity.admin_ancestor_hashes ctx) /\ cache_complete (view_of w') w').
Proof. intros (w' & found & E & Hq)%ready_context. by exists w', (Identity.mkContext h found). Qed.

(** C8: Two engines that know the same nodes in the history of a node, and of these the
    same certificates and revocations, judge devices alike in the light of that node,
    whatever else either knows and in whatever order it came, under two conditions.
    The answers that each has kept of earlier searches must be complete; and where a
    device is revoked by one of equal rank, both must say alike whether the two have
    revoked each other: the code looks for that among all it knows and not in the
    history, so that otherwise they can differ ([tie_breaks_judgement]). *)
Theorem peers_judge_alike fuel n h cid u1 u2 (w1 w2 : World S) : ready fuel n h u1 w1 -> ready fuel n h u2 w2 ->
  cache_complete (view_of w1) w1 -> cache_complete (view_of w2) w2 -> h <> zero_hash ->
  (forall q, ancestor (view_of w1) (parents n) q -> view_of w2 q = view_of w1 q) ->
  let hist := admin_ancestor (view_of w1) (parents n) in
  let m1 := identity_manager (engine w1) in let m2 := identity_manager (engine w2) in
  agree hist cid m1 m2 -> ties_alike hist cid m1 m2 ->
  exists w1' w2' ctx1 ctx2, Overlay.causal_context fuel n w1 = Some (w1', ctx1) /\ Overlay.causal_context fuel n w2 = Some (w2', ctx2) /\
    forall dev logical now rank,
      Identity.get_permissions m1 ctx1 cid dev logical now rank = Identity.get_permissions m2 ctx2 cid dev logical now rank /\
      Identity.is_authorized_recursive Identity.LEVELS m1 ctx1 cid dev logical now rank =
        Identity.is_authorized_recursive Identity.LEVELS m2 ctx2 cid dev logical now rank.
Proof.
  intros Hr1 Hr2 Hk1 Hk2 Hz Hv hist m1 m2 Ha Hu. apply ready_context in Hr1 as (w1' & f1 & E1 & _ & Hs1 & _ & Ha1). apply ready_context in Hr2 as (w2' & f2 & E2 & _ & Hs2 & _ & Ha2).
  destruct (Ha1 Hk1) as [Hall1 _], (Ha2 Hk2) as [Hall2 _].
  exists w1', w2', (Identity.mkContext h f1), (Identity.mkContext h f2). split; [exact E1|]. split; [exact E2|].
  assert (context_of hist (Identity.mkContext h f1)) as Hc1 by (split; [by apply bool_decide_eq_false|]; intros q; split; [apply Hs1|apply Hall1]).
  assert (context_of hist (Identity.mkContext h f2)) as Hc2.
  { split; [by apply bool_decide_eq_false|]. intros q. transitivity (admin_ancestor (view_of w2) (parents n) q); [split; [apply Hs2|apply Hall2]|].
    unfold hist, admin_ancestor. rewrite <- (ancestor_agree (view_of w1)) by done. split; intros [Hq Hn]; (split; [done|]); [rewrite <- Hv|rewrite Hv]; done. }
  intros dev logical now rank. split; [by apply (permissions_agree hist)|by apply (authorized_agree hist)].
Qed.

End Engine.
Import Models Format EngineModels.

(** ** Examples *)

Lemma ancestor_within view (l : list NodeHash) ps q : (forall p, p ∈ ps -> p ∈ l) -> (forall p m x, p ∈ l -> view p = Some m -> x ∈ parents m -> x ∈ l) ->
  ancestor view ps q -> q ∈ l.
Proof. intros Hps Hl Hq. induction Hq as [ps p Hp|ps p m q Hp Hm _ IH]; [by apply Hps|]. apply IH. intros x Hx. eapply (Hl p); [by apply Hps|done|done]. Qed.

(** The founder revokes two devices, then another device writes. *)
Definition by_founder (ps : list NodeHash) (rank : Z) (a : ControlAction) : MerkleNode :=
  mkNode ps (device 1) (device 1) (rank + 1) rank 1000000 (Control a) [] (Signature []) 0.
Definition earlier : MerkleNode := by_founder [] 0 (RevokeDevice (device 13) []).
Definition earlier_hash : NodeHash := default zero_hash (hash earlier).
Definition later : MerkleNode := by_founder [earlier_hash] 1 (RevokeDevice (device 12) []).
Definition later_hash : NodeHash := default zero_hash (hash later).
Definition hello : MerkleNode := mkNode [later_hash] (device 1) (device 11) 1 2 1000000 (Text [3]) [] (Signature []) 0.
Definition hello_hash : NodeHash := default zero_hash (hash hello).
Definition unrelated : MerkleNode := by_founder [] 0 (RevokeDevice (device 14) []).

Definition stored (ns : list MerkleNode) : Memory.InMemoryStore :=
  foldl (fun s n => match Memory.put_node room n true s with Some (s, _) => s | None => s end) Memory.new ns.
Definition certified (at_ : NodeHash) : Identity.AuthRecord := Identity.mkAuth (device 1) (device 1) Permissions.ALL i64_max 1 at_.
Definition counter_revocation : Identity.RevocationRecord := Identity.mkRevocation 3 (0, zero_hash) (device 99).

(** One device knows the history only, the other one more nodes, a second certificate
    and a revocation that came later. *)
Definition knows_history : World Memory.InMemoryStore :=
  (blank 2) <| disk := stored [earlier; later] |>
    <| engine := (engine (blank 2)) <| identity_manager := Identity.mk {[(room, device 11) := [certified later_hash]]} ∅ ∅ ∅ |> |>.
Definition knows_more : World Memory.InMemoryStore :=
  (blank 3) <| disk := stored [unrelated; earlier; later] |>
    <| engine := (engine (blank 3)) <| identity_manager :=
         Identity.mk {[(room, device 11) := [certified (device 98); certified later_hash]]} ∅ {[(room, device 11) := [counter_revocation]]} ∅ |> |>.

Definition all_known (w : World Memory.InMemoryStore) : list NodeHash := (map_to_list (nodes (pending_cache (engine w)))).*1 ++ (map_to_list (Memory.nodes (disk w))).*1.
Lemma known_finite (w : World Memory.InMemoryStore) x m : view_of w x = Some m -> x ∈ all_known w.
Proof.
  unfold view_of, Overlay.get_node, all_known. intros E. apply elem_of_app. destruct (nodes (pending_cache (engine w)) !! x) as [n|] eqn:En.
  - left. apply list_elem_of_fmap. exists (x, n). split; [done|]. by apply elem_of_map_to_list.
  - right. simpl in E. unfold Memory.get_node in E. destruct (Memory.nodes (disk w) !! x) as [[n v]|] eqn:Es; [|done].
    apply list_elem_of_fmap. exists (x, (n, v)). split; [done|]. by apply elem_of_map_to_list.
Qed.

Lemma ready_new (fuel : nat) (n : MerkleNode) (w : World Memory.InMemoryStore) : hash n = Some (default zero_hash (hash n)) -> view_of w (default zero_hash (hash n)) = None ->
  admin_ancestors_cache (engine w) = cache_new 0 -> (length (parents n) + sum_list_with (edges (view_of w)) (all_known w) < fuel)%nat ->
  ready fuel n (default zero_hash (hash n)) (all_known w) w.
Proof.
  intros Hh Hn Hc Hf. split; [done|by apply known_finite|by rewrite Hn| |done]. intros x s m Hx. rewrite Hc, new_contents in Hx. by apply lookup_empty_Some in Hx.
Qed.

Lemma ready_history : ready 10 hello hello_hash (all_known knows_history) knows_history.
Proof. apply ready_new; [vm_compute; reflexivity|vm_compute; reflexivity|reflexivity|]. apply Nat.ltb_lt. vm_compute. reflexivity. Qed.
Lemma ready_more : ready 10 hello hello_hash (all_known knows_more) knows_more.
Proof. apply ready_new; [vm_compute; reflexivity|vm_compute; reflexivity|reflexivity|]. apply Nat.ltb_lt. vm_compute. reflexivity. Qed.

Lemma nothing_kept (w : World Memory.InMemoryStore) : admin_ancestors_cache (engine w) = cache_new 0 -> cache_complete (view_of w) w.
Proof. intros Hc x s m Hx. rewrite Hc, new_contents in Hx. by apply lookup_empty_Some in Hx. Qed.
Lemma complete_history : cache_complete (view_of knows_history) knows_history.
Proof. by apply nothing_kept. Qed.
Lemma complete_more : cache_complete (view_of knows_more) knows_more.
Proof. by apply nothing_kept. Qed.

(** The two admin nodes are the history of the message. *)
Lemma hello_parents : parents hello = [later_hash].
Proof. reflexivity. Qed.
Lemma later_parents : parents later = [earlier_hash].
Proof. reflexivity. Qed.
Lemma earlier_parents : parents earlier = [].
Proof. reflexivity. Qed.
#[local] Opaque earlier_hash later_hash hello_hash earlier later hello.
Definition past : list NodeHash := [later_hash; earlier_hash].
Lemma past_known : view_of knows_history later_hash = Some later /\ view_of knows_history earlier_hash = Some earlier.
Proof. split; vm_compute; reflexivity. Qed.
Lemma past_closed q : ancestor (view_of knows_history) (parents hello) q -> q ∈ past.
Proof.
  destruct past_known as [Et En]. rewrite hello_parents. apply ancestor_within; [by intros p ->%list_elem_of_singleton; left|].
  intros p m x [->|[->|[]%not_elem_of_nil]%elem_of_cons]%elem_of_cons Em; [rewrite Et in Em|rewrite En in Em]; injection Em as <-.
  - rewrite later_parents. intros Hx%list_elem_of_singleton. unfold past. rewrite Hx. apply list_elem_of_further, list_elem_of_here.
  - rewrite earlier_parents. intros Hx. exfalso. exact (not_elem_of_nil x Hx).
Qed.
Lemma past_history : admin_ancestor (view_of knows_history) (parents hello) later_hash /\ admin_ancestor (view_of knows_history) (parents hello) earlier_hash.
Proof.
  destruct past_known as [Et En]. rewrite hello_parents. split.
  - split; [apply ancestor_parent; left|]. exists later. split; [exact Et|]. vm_compute. reflexivity.
  - split; [eapply ancestor_above; [left|exact Et|]; rewrite later_parents; apply ancestor_parent; left|]. exists earlier. split; [exact En|]. vm_compute. reflexivity.
Qed.
Lemma past_hashes : (device 98 ∉ past) /\ (device 99 ∉ past) /\ hello_hash <> zero_hash /\ later_hash <> zero_hash.
Proof. assert (bool_decide ((device 98 ∉ past) /\ (device 99 ∉ past) /\ hello_hash <> zero_hash /\ later_hash <> zero_hash) = true) as E by (vm_compute; reflexivity). by apply bool_decide_eq_true in E. Qed.

Lemma context_exact_witness : exists (w' : World Memory.InMemoryStore) ctx, Overlay.causal_context 10 hello knows_history = Some (w', ctx) /\
  later_hash ∈ Identity.admin_ancestor_hashes ctx /\ earlier_hash ∈ Identity.admin_ancestor_hashes ctx.
Proof.
  destruct (context_exact 10 hello hello_hash _ _ ready_history) as (w' & ctx & E & _ & _ & _ & _ & Hq). exists w', ctx. split; [exact E|].
  destruct past_history as [Ht Hn]. destruct (Hq complete_history) as [Hall _]. split; by apply Hall.
Defined.

Lemma knows_agree : agree (admin_ancestor (view_of knows_history) (parents hello)) room (identity_manager (engine knows_history)) (identity_manager (engine knows_more)).
Proof.
  destruct past_hashes as (H98 & H99 & _). assert (forall h, h ∉ past -> h <> zero_hash -> ~ recorded (admin_ancestor (view_of knows_history) (parents hello)) h) as Hno.
  { intros h Hh Hz [?|[Hq _]]; [done|]. by apply Hh, past_closed. }
  split.
  - intros dev r Hr. unfold records_of. simpl. destruct (decide (dev = device 11)) as [->|Hd].
    + rewrite !lookup_singleton_eq. simpl. split; [by apply list_elem_of_further|]. intros [->|?]%elem_of_cons; [|done]. by destruct (Hno (device 98)).
    + rewrite !lookup_singleton_ne by congruence. done.
  - intros dev v Hv. unfold revocations_of. simpl. destruct (decide (dev = device 11)) as [->|Hd].
    + rewrite lookup_singleton_eq, lookup_empty. simpl. split; [by intros ?%not_elem_of_nil|]. intros ->%list_elem_of_singleton. by destruct (Hno (device 99)).
    + rewrite lookup_singleton_ne, lookup_empty by congruence. done.
Qed.

Lemma peers_judge_alike_witness : exists (w1' w2' : World Memory.InMemoryStore) ctx1 ctx2,
  Overlay.causal_context 10 hello knows_history = Some (w1', ctx1) /\ Overlay.causal_context 10 hello knows_more = Some (w2', ctx2) /\
  Identity.get_permissions (identity_manager (engine knows_history)) ctx1 room (device 11) (device 1) 2000000 3 =
    Identity.get_permissions (identity_manager (engine knows_more)) ctx2 room (device 11) (device 1) 2000000 3.
Proof.
  destruct past_hashes as (_ & _ & Hz & _).
  destruct (peers_judge_alike 10 hello hello_hash room _ _ _ _ ready_history ready_more complete_history complete_more Hz) as (w1' & w2' & ctx1 & ctx2 & E1 & E2 & Hp).
  - intros q [->|[->|[]%not_elem_of_nil]%elem_of_cons]%past_closed%elem_of_cons; vm_compute; reflexivity.
  - exact knows_agree.
  - intros dev r v _ _ Hv _ _. exfalso. unfold revocations_of in Hv. simpl in Hv. rewrite lookup_empty in Hv. exact (not_elem_of_nil v Hv).
  - exists w1', w2', ctx1, ctx2. split; [exact E1|]. split; [exact E2|]. exact (proj1 (Hp (device 11) (device 1) 2000000 3)).
Defined.

(** The condition on ties is needed: the manager takes a revocation of the revoker into
    account that the history does not contain. *)
Definition rival (at_ : NodeHash) : Identity.AuthRecord := Identity.mkAuth (device 1) (device 1) Permissions.ALL i64_max 1 at_.
Definition rivals : gmap (ConversationId * PhysicalDevicePk) (list Identity.AuthRecord) := {[(room, device 11) := [rival (device 21)]; (room, device 12) := [rival (device 22)]]}.
Definition first_revocation : Identity.RevocationRecord := Identity.mkRevocation 2 (1, device 22) (device 31).
Definition second_revocation : Identity.RevocationRecord := Identity.mkRevocation 2 (1, device 21) (device 32).
Definition rival_context : Identity.CausalContext := Identity.mkContext (device 40) {[device 21; device 22; device 31]}.

Lemma tie_breaks_judgement : let m1 := Identity.mk rivals ∅ {[(room, device 11) := [first_revocation]]} ∅ in
  let m2 := Identity.mk rivals ∅ {[(room, device 11) := [first_revocation]; (room, device 12) := [second_revocation]]} ∅ in
  bool_decide (device 32 ∈ Identity.admin_ancestor_hashes rival_context) = false /\
  Identity.get_permissions m1 rival_context room (device 11) (device 1) 2000 5 = None /\
  Identity.get_permissions m2 rival_context room (device 11) (device 1) 2000 5 = Some Permissions.ALL.
Proof. split_and!; vm_compute; reflexivity. Qed.

(** So is that on kept answers: one that was found while a parent was missing stays when
    the parent arrives. *)
Definition hears_late : option (World Memory.InMemoryStore * Identity.CausalContext) :=
  '(w, _) ← Overlay.causal_context 10 later (blank 2);
  Overlay.causal_context 10 hello (w <| disk := stored [earlier; later] |>).
Lemma kept_answer_stale :
  (fun r => elements (Identity.admin_ancestor_hashes r.2)) <$> hears_late = Some [later_hash] /\
  (fun r => bool_decide (earlier_hash ∈ Identity.admin_ancestor_hashes r.2)) <$> Overlay.causal_context 10 hello knows_history = Some true.
Proof. split; vm_compute; reflexivity. Qed.

End HistoryTheory.
