(* ===== verification/Client.v ===== *)
(** A client of a conversation ([merkle-tox-client/src]): the state that is shown
    ([state.rs]), what a client does on its own account ([policy.rs]), and the client on
    top of a node ([lib.rs]).

    The operations of the source are asynchronous and take two locks; each is a
    sequential computation here, and [ClientLocks.v] is about the locks.  The channel of
    events is what the node has handed to its event handler; the client counts the
    events that it has taken. *)

From S2P Require Import Prelude Protocol Float32 Rtt Congestion Quota Session MsgPack ToxTypes Derive Wire Iblt Merkle Dag DagWire Identity Conversation SyncSession Cas Clock Messages Monad Engine Overlay Verify SideEffects Authoring Processor Handlers Poll Node.
From stdpp Require Import gmap sorting strings.
#[local] Open Scope Z_scope.
#[local] Open Scope list_scope.
#[local] Open Scope monad_scope.

Module Client.
Import Dag Crypto DagWire Messages Engine.

(** ** The state ([state.rs]) *)

Inductive MemberRole := Admin | Member.
#[export] Instance MemberRole_eq_dec : EqDecision MemberRole.
Proof. solve_decision. Defined.

Record MemberInfo := mkMember { public_key : LogicalIdentityPk; role : MemberRole; joined_at : Z; devices : gset PhysicalDevicePk }.
#[export] Instance eta_MemberInfo : Settable MemberInfo := fun m => mkMember (public_key m) (role m) (joined_at m) (devices m).

Record ChatMessage := mkMessage {
  message_hash : NodeHash;
  message_author : LogicalIdentityPk;
  timestamp : Z;
  message_content : Content;
  reactions : gmap bytes (gset LogicalIdentityPk);
  is_redacted : bool
}.
#[export] Instance eta_ChatMessage : Settable ChatMessage := fun m =>
  mkMessage (message_hash m) (message_author m) (timestamp m) (message_content m) (reactions m) (is_redacted m).

Record ChatState := mkState {
  state_conversation : ConversationId;
  title : bytes;
  topic : bytes;
  members : gmap LogicalIdentityPk MemberInfo;
  authorized_devices : gset PhysicalDevicePk;
  announcements : gmap PhysicalDevicePk (list SignedPreKey * SignedPreKey);
  messages : list ChatMessage;
  heads : list NodeHash;
  max_verified_rank : Z
}.
#[export] Instance eta_ChatState : Settable ChatState := fun s =>
  mkState (state_conversation s) (title s) (topic s) (members s) (authorized_devices s) (announcements s) (messages s) (heads s) (max_verified_rank s).

(** [ChatState { conversation_id, ..Default::default() }] *)
Definition default_state (cid : ConversationId) : ChatState := mkState cid [] [] ∅ ∅ ∅ [] [] 0.

(** [iter_mut().find(p)] and a change of what was found. *)
Fixpoint alter_first {A} (p : A -> bool) (f : A -> A) (l : list A) : list A :=
  match l with [] => [] | a :: l => if p a then f a :: l else a :: alter_first p f l end.

(** The heads and the rank. *)
Definition advance (h : NodeHash) (n : MerkleNode) (s : ChatState) : ChatState :=
  let hs := List.filter (fun x => negb (bool_decide (x ∈ parents n))) (heads s) in
  s <| heads := if bool_decide (h ∈ hs) then hs else hs ++ [h] |> <| max_verified_rank := Z.max (max_verified_rank s) (topological_rank n) |>.

Definition emoji_key (e : EmojiSource) : bytes := match e with Unicode x => x | CustomEmoji _ shortcode => shortcode end.
Definition react (author : LogicalIdentityPk) (key : bytes) (m : ChatMessage) : ChatMessage :=
  m <| reactions := <[key := default ∅ (reactions m !! key) ∪ {[author]}]> (reactions m) |>.

(** [entry(pk).or_insert_with(..)] *)
Definition member_or (s : ChatState) (pk : LogicalIdentityPk) (r : MemberRole) (joined : Z) : MemberInfo :=
  default (mkMember pk r joined ∅) (members s !! pk).
Definition role_of (invited : Z) : MemberRole := if invited =? 1 then Admin else Member.

Definition apply_action (n : MerkleNode) (a : ControlAction) (s : ChatState) : ChatState :=
  match a with
  | SetTitle x => s <| title := x |>
  | SetTopic x => s <| topic := x |>
  | AuthorizeDevice cert =>
      let m := member_or s (author_pk n) Member (network_timestamp n) in
      s <| members := <[author_pk n := m <| devices := devices m ∪ {[cert_device cert]} |>]> (members s) |>
        <| authorized_devices := authorized_devices s ∪ {[cert_device cert]} |>
  | RevokeDevice target _ =>
      s <| authorized_devices := authorized_devices s ∖ {[target]} |>
        <| members := (fun m => m <| devices := devices m ∖ {[target]} |>) <$> members s |>
  | Invite i => s <| members := <[invitee_pk i := member_or s (invitee_pk i) (role_of (invite_role i)) (network_timestamp n)]> (members s) |>
  | Announcement pre_keys last_resort => s <| announcements := <[sender_pk n := (pre_keys, last_resort)]> (announcements s) |>
  | _ => s
  end.

(** What a node means for the state. *)
Definition apply_content (h : NodeHash) (n : MerkleNode) (s : ChatState) : ChatState :=
  match content n with
  | Text _ | Blob _ _ _ _ _ | Location _ _ _ | Custom _ _ =>
      s <| messages := messages s ++ [mkMessage h (author_pk n) (network_timestamp n) (content n) ∅ false] |>
  | Reaction target emoji =>
      s <| messages := alter_first (fun m => bool_decide (message_hash m = target)) (react (author_pk n) (emoji_key emoji)) (messages s) |>
  | Redaction target _ =>
      s <| messages := alter_first (fun m => bool_decide (message_hash m = target)) (fun m => m <| is_redacted := true |>) (messages s) |>
  | Control a => apply_action n a s
  | _ => s
  end.
Definition apply_node_internal (h : NodeHash) (n : MerkleNode) (s : ChatState) : ChatState := apply_content h n (advance h n s).

(** ** Policy ([policy.rs]) *)

Record PolicyHandler := mkPolicy {
  should_authorize : bytes -> bytes -> bool;
  should_rotate_keys : ChatState -> bool;
  should_respond_to_pulse : bytes -> bool
}.
Definition DefaultPolicy : PolicyHandler := mkPolicy (fun author device => bool_decide (author = device)) (fun _ => false) (fun _ => true).

(** ** The client ([lib.rs]) *)

Section Client.
Context `{Rmp} `{Blake3Hash} `{Ed25519} `{StrictVerify} `{ChaCha20} `{Zstd} `{X25519} `{Blake3} `{Bao} `{HashOrder} `{LruCache Identity.PathKey Z}
  `{LruCache NodeHash (gset NodeHash)} `{StdRng} `{TimeProvider} {S : Type} `{NodeStore S} `{Node.BlobWrites S} `{Node.Transport}
  {Rng : Type} `{RandSource Rng} `{!Node.Seeding Rng} `{PowerFunctions}.
Variable fuel : nat.

Record t := mkClient {
  node : Node.t (S := S) (Rng := Rng);
  policy : PolicyHandler;
  state : ChatState;
  conversation_id : ConversationId;
  taken : nat
}.
#[global] Instance eta_client : Settable t := fun c => mkClient (node c) (policy c) (state c) (conversation_id c) (taken c).

Definition with_policy (n : Node.t (S := S) (Rng := Rng)) (cid : ConversationId) (p : PolicyHandler) : t := mkClient n p (default_state cid) cid 0.
Definition new (n : Node.t (S := S) (Rng := Rng)) (cid : ConversationId) : t := with_policy n cid DefaultPolicy.

#[local] Abbreviation Op A := (M t A).
#[local] Abbreviation Fallible A := (M t (result MerkleToxError A)).

Definition in_node {A} (m : M (Node.t (S := S) (Rng := Rng)) A) : Op A :=
  fun c => match m (node c) with Some (n, a) => Some (c <| node := n |>, a) | None => None end.
Definition in_engine {A} (m : M (World S) A) : Op A := in_node (Node.in_world m).
Definition get_engine : Op Engine.t := in_engine Engine.get_engine.
Definition get_cid : Op ConversationId := gets conversation_id.
Definition change_state (f : ChatState -> ChatState) : Op unit := modify (fun c => c <| state := f (state c) |>).

(** The time that effects are processed at. *)
Definition effect_time : Op Instant :=
  let* now := in_node Node.read_instant in let* _ := in_node Node.read_system_ms in pure now.

(** [for effect in effects { node.process_effect(..)?; }]; the hash of the last node
    that is written. *)
Fixpoint carry_out (fx : list Effect) (now : Instant) : Fallible unit :=
  match fx with [] => good tt | f :: fx => in_node (Node.process_effect f now) ;*? carry_out fx now end.
Fixpoint commit (fx : list Effect) (now : Instant) (last : NodeHash) : Fallible NodeHash :=
  match fx with
  | [] => good last
  | f :: fx =>
      let* last := lift (match f with WriteStore _ n _ => hash n | _ => Some last end) in
      in_node (Node.process_effect f now) ;*? commit fx now last
  end.

Definition author_node (ct : Content) (meta : bytes) : Fallible NodeHash :=
  let* cid := get_cid in
  let*? fx := in_engine (Authoring.author_node fuel cid ct meta) in
  let* now := effect_time in commit fx now zero_hash.

(** *** What users ask for *)

Definition send_message (text : bytes) : Fallible NodeHash := author_node (Text text) [].
Definition send_reaction (target : NodeHash) (emoji : EmojiSource) : Fallible NodeHash := author_node (Reaction target emoji) [].
Definition send_redaction (target : NodeHash) (reason : bytes) : Fallible NodeHash := author_node (Redaction target reason) [].
Definition send_location (latitude longitude : Z) (name : option bytes) : Fallible NodeHash := author_node (Location latitude longitude name) [].
Definition set_title (x : bytes) : Fallible NodeHash := author_node (Control (SetTitle x)) [].
Definition set_topic (x : bytes) : Fallible NodeHash := author_node (Control (SetTopic x)) [].
Definition invite (invitee : LogicalIdentityPk) (r : MemberRole) : Fallible NodeHash :=
  author_node (Control (Invite (mkInvite invitee (if bool_decide (r = Admin) then 1 else 0)))) [].
Definition revoke_device (target : PhysicalDevicePk) (reason : bytes) : Fallible NodeHash := author_node (Control (RevokeDevice target reason)) [].
Definition leave : Fallible NodeHash := let* e := get_engine in author_node (Control (Leave (to_logical (self_pk e)))) [].
Definition send_pulse : Fallible NodeHash := author_node (Control HandshakePulse) [].
Definition announce_keys : Fallible NodeHash :=
  let* cid := get_cid in
  let*? fx := in_engine (Authoring.author_announcement fuel cid) in
  let* now := effect_time in commit fx now zero_hash.

Definition authorize_device (device : PhysicalDevicePk) (perms : Permissions.t) (expires : Z) : Fallible NodeHash :=
  let* cid := get_cid in
  let* e := get_engine in
  match self_sk e with
  | None => fails (CryptoError "Missing signing key")
  | Some sk =>
      let* cert := lift (Identity.sign_delegation sk device perms expires cid) in
      author_node (Control (AuthorizeDevice cert)) []
  end.

(** [data.chunks(n)]; as many rounds as there are bytes are enough. *)
Fixpoint chunks_up_to (rounds n : nat) (d : bytes) : list bytes :=
  match rounds, d with Datatypes.S rounds, _ :: _ => take n d :: chunks_up_to rounds n (drop n d) | _, _ => [] end.
Definition chunks (n : nat) (d : bytes) : list bytes := chunks_up_to (length d) n d.

Fixpoint put_chunks (cid : ConversationId) (h : NodeHash) (i : Z) (cs : list bytes) : Fallible unit :=
  match cs with
  | [] => good tt
  | c :: cs => in_node (Node.on_disk (Node.put_chunk cid h (i * Cas.CHUNK_SIZE) c None)) ;*? put_chunks cid h (i + 1) cs
  end.

(** The blob is put into the store, then announced. *)
Definition store_blob (d : bytes) : Fallible NodeHash :=
  let* cid := get_cid in
  let h := blake3 d in
  in_node (Node.on_disk (fun st => Some (Node.put_blob_info (Cas.mkInfo h (len d) None Cas.Available None None) st))) ;*?
  put_chunks cid h 0 (chunks (Z.to_nat Cas.CHUNK_SIZE) d) ;*?
  good h.
Definition send_blob (name mime_type d : bytes) : Fallible NodeHash :=
  let*? h := store_blob d in author_node (Blob h name mime_type (len d) []) [].

(** *** What the client does by itself *)

(** Asked in the light of everything that is known, at any rank. *)
Definition self_is_admin (e : Engine.t) (cid : ConversationId) (now : Z) : bool :=
  Identity.is_admin (identity_manager e) Identity.global cid (self_pk e) (to_logical (self_pk e)) now u64_max.

Definition then_carry_out (m : Fallible (list Effect)) : Fallible unit := let*? fx := m in let* now := effect_time in carry_out fx now.

Definition orchestrate_actions (n : MerkleNode) : Fallible unit :=
  let* now := in_engine network_time_ms in
  let* e := get_engine in
  let* cid := get_cid in
  match content n with
  | Control (AuthorizeDevice _) | Control (RevokeDevice _ _) | Control (Invite _) | Control (Leave _) =>
      if self_is_admin e cid now then
        let* c := gets (fun c => c) in
        let* due := (if should_rotate_keys (policy c) (state c) then pure true else in_engine (Authoring.check_rotation_triggers cid)) in
        if (due : bool) then then_carry_out (in_engine (Authoring.rotate_conversation_key fuel cid)) else good tt
      else good tt
  | Control (Announcement pre_keys _) =>
      if self_is_admin e cid now then
        match List.find (fun k => now <? pre_key_expires k) pre_keys with
        | Some spk => then_carry_out (in_engine (Authoring.author_x3dh_key_exchange fuel cid (sender_pk n) (pre_key spk)))
        | None => good tt
        end
      else good tt
  | Control HandshakePulse =>
      let* p := gets policy in
      if should_respond_to_pulse p (sender_pk n) then then_carry_out (in_engine (Authoring.author_announcement fuel cid)) else good tt
  | _ => good tt
  end.

Definition check_auto_authorize (peer : PhysicalDevicePk) : Fallible unit :=
  let* e := get_engine in
  let* c := gets (fun c => c) in
  if should_authorize (policy c) (self_pk e) peer then
    match members (state c) !! to_logical (self_pk e) with
    | Some m => if bool_decide (role m = Admin) then let*? _ := authorize_device peer Permissions.ALL i64_max in good tt else good tt
    | None => good tt
    end
  else good tt.

Definition handle_event (ev : NodeEvent) : Fallible unit :=
  match ev with
  | NodeVerified cid h n =>
      let* own := get_cid in
      if bool_decide (cid = own) then change_state (apply_node_internal h n) ;* orchestrate_actions n else good tt
  | PeerHandshakeComplete peer => check_auto_authorize peer
  | _ => good tt
  end.

(** *** Rebuilding the state *)

Fixpoint apply_all (ns : list MerkleNode) (s : ChatState) : option ChatState :=
  match ns with [] => Some s | n :: ns => h ← hash n; apply_all ns (apply_node_internal h n s) end.

(** The heads of content, then those of the admin track that are not among them. *)
Definition all_heads (hs admin : list NodeHash) : list NodeHash :=
  foldl (fun hs h => if bool_decide (h ∈ hs) then hs else hs ++ [h]) hs admin.

Definition refresh_state : Fallible unit :=
  let* cid := get_cid in
  let* st := in_engine get_disk in
  let*? admin_nodes := pure (get_verified_nodes_by_type st cid Dag.Admin) in
  let*? content_nodes := pure (get_verified_nodes_by_type st cid ContentNode) in
  let* s := lift (apply_all admin_nodes (default_state cid)) in
  let* s := lift (apply_all content_nodes s) in
  change_state (fun _ => s <| heads := all_heads (get_heads st cid) (get_admin_heads st cid) |>) ;*
  good tt.

(** The handler is set and the state rebuilt; an error is logged.  The rounds of the loop
    are [step]s. *)
Definition start : Op unit := in_node (modify Node.set_event_handler) ;* let* _ := refresh_state in pure tt.

(** One event of the channel, if there is one; an error is logged. *)
Definition step : Op bool :=
  let* c := gets (fun c => c) in
  match (l ← Node.handled (node c); l !! taken c) with
  | Some ev => modify (fun c => c <| taken := Datatypes.S (taken c) |>) ;* let* _ := handle_event ev in pure true
  | None => pure false
  end.

End Client.
End Client.
