(* ===== verification/ClientTheory.v ===== *)
(** The state that a client shows: after any run of events it is what the verified nodes
    say in the order of the events, and rebuilding it from a store that lists them in
    that order gives the same but for roles, dates of joining and heads. *)

From S2P Require Import Prelude Protocol Float32 Rtt Congestion Quota Session SessionFrames MsgPack ToxTypes Derive Wire Iblt Merkle Dag DagWire Identity Conversation SyncSession Cas Clock Messages Monad Engine Overlay Verify SideEffects Authoring Processor Handlers Poll Node EngineFrames MsgPackFormat MerkleModels IbltTheory Memory EngineModels NodeTheory Client.
From stdpp Require Import gmap sorting strings.
#[local] Open Scope Z_scope.
#[local] Open Scope list_scope.
#[local] Open Scope monad_scope.

Module ClientTheory.
Import Dag Crypto DagWire Messages Engine Client.

(** ** Replaying nodes *)

(** A node with its hash, as events carry it. *)
Definition Entry : Type := NodeHash * MerkleNode.
Definition apply_entry (s : ChatState) (x : Entry) : ChatState := apply_node_internal x.1 x.2 s.
Definition replay (l : list Entry) (s : ChatState) : ChatState := foldl apply_entry s l.

Definition of_type (ty : NodeType) (l : list Entry) : list Entry := List.filter (fun x => bool_decide (node_type x.2 = ty)) l.

(** ** What survives a rebuild *)

(** What a node does to the devices: only the devices are changed by nodes of both tracks. *)
Definition devices_entry (d : gmap LogicalIdentityPk (gset PhysicalDevicePk)) (n : MerkleNode) : gmap LogicalIdentityPk (gset PhysicalDevicePk) :=
  match content n with
  | Control (AuthorizeDevice cert) => <[author_pk n := default ∅ (d !! author_pk n) ∪ {[cert_device cert]}]> d
  | Control (RevokeDevice target _) => (fun ds => ds ∖ {[target]}) <$> d
  | Control (Invite i) => <[invitee_pk i := default ∅ (d !! invitee_pk i)]> d
  | _ => d
  end.
Definition admin_entry (a : gset PhysicalDevicePk) (n : MerkleNode) : gset PhysicalDevicePk :=
  match content n with
  | Control (AuthorizeDevice cert) => a ∪ {[cert_device cert]}
  | Control (RevokeDevice target _) => a ∖ {[target]}
  | _ => a
  end.
(** What content nodes change. *)
Record Shown := mkShown { shown_title : bytes; shown_topic : bytes; shown_announcements : gmap PhysicalDevicePk (list SignedPreKey * SignedPreKey); shown_messages : list ChatMessage }.
Definition shown (s : ChatState) : Shown := mkShown (title s) (topic s) (announcements s) (messages s).
Definition shown_entry (v : Shown) (x : Entry) : Shown :=
  shown (apply_content x.1 x.2 (mkState [] (shown_title v) (shown_topic v) ∅ ∅ (shown_announcements v) (shown_messages v) [] 0)).

Record Parts := mkParts { part_shown : Shown; part_devices : gmap LogicalIdentityPk (gset PhysicalDevicePk); part_authorized : gset PhysicalDevicePk; part_rank : Z }.
Definition parts (s : ChatState) : Parts := mkParts (shown s) (devices <$> members s) (authorized_devices s) (max_verified_rank s).
Definition parts_entry (p : Parts) (x : Entry) : Parts :=
  mkParts (shown_entry (part_shown p) x) (devices_entry (part_devices p) x.2) (admin_entry (part_authorized p) x.2) (Z.max (part_rank p) (topological_rank x.2)).

Lemma parts_apply s x : parts (apply_entry s x) = parts_entry (parts s) x.
Proof.
  destruct x as [h n]. unfold parts_entry, apply_entry, apply_node_internal, apply_content, shown_entry, devices_entry, admin_entry. cbn [fst snd]. unfold apply_content.
  destruct (content n) as [| | | |a| | | | | | | |]; try (destruct a); unfold parts, advance; simpl; try done; f_equal.
  - rewrite fmap_insert. f_equal. unfold member_or. simpl. rewrite lookup_fmap. by destruct (members s !! invitee_pk _).
  - rewrite fmap_insert. f_equal. unfold member_or. simpl. rewrite lookup_fmap. by destruct (members s !! author_pk n).
  - rewrite <- !map_fmap_compose. by apply map_fmap_ext.
Qed.

Lemma parts_replay l s : parts (replay l s) = foldl parts_entry (parts s) l.
Proof. revert s. induction l as [|x l IH]; intros s; [done|]. simpl. by rewrite <- parts_apply, <- IH. Qed.

(** ** The two tracks commute *)

Lemma shown_admin v x : node_type x.2 = Dag.Admin -> shown_entry v x = v.
Proof.
  destruct v, x as [h n]. unfold node_type, node_type_of, shown_entry, apply_content. cbn [fst snd]. destruct (content n) as [| | | |a| | | | | | | |]; try done. by destruct a.
Qed.
Lemma admin_content a n : node_type n = ContentNode -> admin_entry a n = a.
Proof. unfold node_type, node_type_of, admin_entry. destruct (content n) as [| | | |c| | | | | | | |]; try done. by destruct c. Qed.

Lemma devices_commute d a b : node_type a = Dag.Admin -> node_type b = ContentNode -> devices_entry (devices_entry d a) b = devices_entry (devices_entry d b) a.
Proof.
  unfold node_type, node_type_of, devices_entry. intros Ha Hb.
  destruct (content b) as [| | | |cb| | | | | | | |]; try done. destruct cb as [| | |i| | | | | | | |]; try done.
  destruct (content a) as [| | | |ca| | | | | | | |]; try done. destruct ca as [| | | | |cert|target reason| | | | |]; try done.
  - apply map_eq. intros k. destruct (decide (k = invitee_pk i)) as [->|Hi], (decide (author_pk a = invitee_pk i)) as [E|Ha'].
    + rewrite E, !lookup_insert_eq. done.
    + rewrite lookup_insert_eq, !lookup_insert_ne, lookup_insert_eq by done. done.
    + rewrite lookup_insert_ne, <- E, !lookup_insert_ne by congruence. done.
    + rewrite lookup_insert_ne by done. destruct (decide (k = author_pk a)) as [->|Hk]; [rewrite !lookup_insert_eq, lookup_insert_ne by done; done|]. by rewrite !lookup_insert_ne.
  - apply map_eq. intros k. rewrite !lookup_fmap. destruct (decide (k = invitee_pk i)) as [->|Hi]; [|rewrite !lookup_insert_ne by congruence; by rewrite lookup_fmap].
    rewrite !lookup_insert_eq. simpl. destruct (d !! invitee_pk i); [done|]. simpl. f_equal. set_solver.
Qed.

Lemma parts_commute p a b : node_type a.2 = Dag.Admin -> node_type b.2 = ContentNode -> parts_entry (parts_entry p a) b = parts_entry (parts_entry p b) a.
Proof.
  intros Ha Hb. unfold parts_entry. simpl. f_equal; [by rewrite !(fun v => shown_admin v a Ha)|by apply devices_commute|by rewrite !(fun x => admin_content x b.2 Hb)|lia].
Qed.

(** A fold whose steps commute across two kinds does one kind first. *)
Lemma foldl_later {A B} (f : A -> B -> A) (l : list B) b : (forall s a, a ∈ l -> f (f s a) b = f (f s b) a) -> forall s, foldl f (f s b) l = f (foldl f s l) b.
Proof. induction l as [|a l IH]; intros Hc s; [done|]. simpl. rewrite <- Hc by left. apply IH. intros s' x Hx. apply Hc. by right. Qed.
Lemma foldl_two_tracks {A B} (f : A -> B -> A) (p q : B -> bool) (l : list B) : (forall b, q b = negb (p b)) -> (forall s a b, p a = true -> q b = true -> f (f s a) b = f (f s b) a) ->
  forall s, foldl f s l = foldl f (foldl f s (List.filter p l)) (List.filter q l).
Proof.
  intros Hq Hc. induction l as [|b l IH]; intros s; [done|]. simpl. rewrite (Hq b). destruct (p b) eqn:Ep; simpl; [apply IH|].
  rewrite IH. f_equal. apply foldl_later. intros s' a [_ Hpa]%list_elem_of_In%filter_In. apply Hc; [done|]. by rewrite Hq, Ep.
Qed.

Lemma parts_tracks l s : parts (replay l s) = parts (replay (of_type ContentNode l) (replay (of_type Dag.Admin l) s)).
Proof.
  rewrite !parts_replay. apply foldl_two_tracks.
  - intros b. by destruct (node_type b.2).
  - intros p a b Ha%bool_decide_eq_true Hb%bool_decide_eq_true. by apply parts_commute.
Qed.

(** ** Heads *)

Definition referenced (l : list Entry) (h : NodeHash) : bool := existsb (fun x => bool_decide (h ∈ parents x.2)) l.
(** The nodes that no other node has as a parent. *)
Definition frontier (l : list Entry) : list NodeHash := fst <$> List.filter (fun x => negb (referenced l x.1)) l.
(** Nodes come after their parents and once. *)
Inductive causal : list Entry -> Prop :=
  | causal_nil : causal []
  | causal_snoc l x : causal l -> x.1 ∉ l.*1 -> referenced (l ++ [x]) x.1 = false -> causal (l ++ [x]).

(** The same as a test. *)
Fixpoint causal_from (past l : list Entry) : bool :=
  match l with
  | [] => true
  | x :: l => negb (bool_decide (x.1 ∈ past.*1)) && negb (referenced (past ++ [x]) x.1) && causal_from (past ++ [x]) l
  end.
Lemma causal_test l : forall past, causal past -> causal_from past l = true -> causal (past ++ l).
Proof.
  induction l as [|x l IH]; intros past Hp E; [by rewrite app_nil_r|]. simpl in E. apply andb_true_iff in E as [[En%negb_true_iff%bool_decide_eq_false Er%negb_true_iff]%andb_true_iff E].
  specialize (IH (past ++ [x])). rewrite <- app_assoc in IH. apply IH; [by apply causal_snoc|done].
Qed.

Lemma content_heads h n s : heads (apply_content h n s) = heads s.
Proof. unfold apply_content. destruct (content n) as [| | | |a| | | | | | | |]; try done. by destruct a. Qed.

Lemma filter_filter {A} (p q : A -> bool) l : List.filter p (List.filter q l) = List.filter (fun x => q x && p x) l.
Proof. induction l as [|x l IH]; [done|]. simpl. destruct (q x); simpl; [|done]. by destruct (p x); rewrite IH. Qed.
Lemma filter_fst (p : NodeHash -> bool) (l : list Entry) : List.filter p l.*1 = (List.filter (fun x => p x.1) l).*1.
Proof. induction l as [|x l IH]; [done|]. rewrite fmap_cons. cbn [List.filter]. destruct (p x.1); by rewrite ?fmap_cons, IH. Qed.

Lemma frontier_snoc l x : x.1 ∉ l.*1 -> referenced (l ++ [x]) x.1 = false ->
  frontier (l ++ [x]) = List.filter (fun h => negb (bool_decide (h ∈ parents x.2))) (frontier l) ++ [x.1].
Proof.
  intros Hn Hr. unfold frontier. rewrite List.filter_app, fmap_app. simpl. rewrite Hr. simpl. f_equal. rewrite filter_fst, filter_filter. f_equal.
  apply filter_ext. intros y. unfold referenced. rewrite existsb_app. simpl. by rewrite orb_false_r, negb_orb.
Qed.

Lemma heads_frontier cid l : causal l -> heads (replay l (default_state cid)) = frontier l.
Proof.
  induction 1 as [|l x Hl IH Hn Hr]; [done|]. unfold replay in *. rewrite foldl_app. simpl. unfold apply_entry at 1, apply_node_internal. rewrite content_heads.
  unfold advance. simpl. rewrite IH, frontier_snoc by done. rewrite bool_decide_false; [done|]. intros Hin%list_elem_of_In%filter_In.
  destruct Hin as [Hin _]. apply Hn. apply list_elem_of_In in Hin. unfold frontier in Hin. apply list_elem_of_fmap in Hin as (y & -> & Hy).
  apply list_elem_of_In, filter_In in Hy as [Hy _]. apply list_elem_of_In in Hy. by apply list_elem_of_fmap_2.
Qed.

(** In whatever order nodes are told: [h] was told, and no node told after it has it as a
    parent. *)
Definition unfollowed (l : list Entry) (h : NodeHash) : Prop := exists l1 n l2, l = l1 ++ (h, n) :: l2 /\ forall x, x ∈ l2 -> h ∉ parents x.2.

Lemma unfollowed_snoc l x h : unfollowed (l ++ [x]) h <-> h = x.1 \/ (unfollowed l h /\ h ∉ parents x.2).
Proof.
  split.
  - intros (l1 & n & l2 & E & Hl). destruct l2 as [|y l2 _] using rev_ind.
    + apply app_inj_tail in E as [_ ->]. by left.
    + rewrite app_comm_cons, app_assoc in E. apply app_inj_tail in E as [-> ->]. right. split; [|apply Hl, elem_of_app; right; left].
      exists l1, n, l2. split; [done|]. intros z Hz. apply Hl, elem_of_app. by left.
  - intros [->|[(l1 & n & l2 & -> & Hl) Hx]].
    + exists l, x.2, []. split; [by destruct x|by intros y ?%not_elem_of_nil].
    + exists l1, n, (l2 ++ [x]). split; [by rewrite <- app_assoc|]. intros y [Hy| ->%list_elem_of_singleton]%elem_of_app; [by apply Hl|done].
Qed.

Lemma heads_unfollowed cid l h : h ∈ heads (replay l (default_state cid)) <-> unfollowed l h.
Proof.
  induction l as [|x l IH] using rev_ind; [split; [by intros ?%not_elem_of_nil|by intros ([] & n & l2 & [=] & _)]|].
  rewrite unfollowed_snoc, <- IH. unfold replay. rewrite foldl_app. simpl. fold (replay l (default_state cid)). unfold apply_entry at 1, apply_node_internal. rewrite content_heads.
  unfold advance. simpl. set (hs := List.filter _ _). assert (h ∈ hs <-> h ∈ heads (replay l (default_state cid)) /\ h ∉ parents x.2) as Hhs.
  { unfold hs. rewrite !list_elem_of_In, filter_In, <- !list_elem_of_In, negb_true_iff, bool_decide_eq_false. done. }
  case_bool_decide as Hin; [|rewrite elem_of_app, list_elem_of_singleton]; rewrite Hhs; [|tauto]. split; [tauto|]. intros [->|?]; [by apply Hhs|done].
Qed.

(** ** Devices *)

(** The authorized devices are those of the members. *)
Definition owned (s : ChatState) : Prop := forall d, d ∈ authorized_devices s <-> exists k m, members s !! k = Some m /\ d ∈ devices m.

Lemma owned_apply s x : owned s -> owned (apply_entry s x).
Proof.
  intros Ho d. specialize (Ho d). assert (forall s', members s' = members s -> authorized_devices s' = authorized_devices s ->
    d ∈ authorized_devices s' <-> exists k m, members s' !! k = Some m /\ d ∈ devices m) as Hsame by (by intros s' -> ->).
  destruct x as [h n]. unfold apply_entry, apply_node_internal, apply_content. cbn [fst snd]. destruct (content n) as [| | | |a| | | | | | | |]; try (by apply Hsame).
  destruct a as [| | |i| |cert|target reason| | | | |]; try (by apply Hsame); simpl.
  - rewrite Ho. unfold member_or. simpl. split; intros (k & m & Hm & Hd).
    + destruct (decide (k = invitee_pk i)) as [->|Hk]; [exists (invitee_pk i), m; by rewrite Hm, lookup_insert_eq|exists k, m; by rewrite lookup_insert_ne].
    + apply lookup_insert_Some in Hm as [[<- <-]|[Hk Hm]]; [|by exists k, m]. destruct (members s !! invitee_pk i) as [m|] eqn:Em; [by exists (invitee_pk i), m|]. simpl in Hd. set_solver.
  - unfold member_or. simpl. rewrite elem_of_union, elem_of_singleton, Ho. split.
    + intros [(k & m & Hm & Hd)| ->].
      * destruct (decide (k = author_pk n)) as [->|Hk]; [exists (author_pk n); eexists; rewrite Hm, lookup_insert_eq; split; [done|]; simpl; set_solver|exists k, m; by rewrite lookup_insert_ne].
      * exists (author_pk n). eexists. rewrite lookup_insert_eq. split; [done|]. simpl. set_solver.
    + intros (k & m & Hm & Hd). apply lookup_insert_Some in Hm as [[<- <-]|[Hk Hm]]; [|left; by exists k, m]. simpl in Hd. apply elem_of_union in Hd as [Hd|Hd%elem_of_singleton]; [|by right].
      left. destruct (members s !! author_pk n) as [m|] eqn:Em; [by exists (author_pk n), m|]. simpl in Hd. set_solver.
  - rewrite elem_of_difference, elem_of_singleton, Ho. split.
    + intros [(k & m & Hm & Hd) Ht]. exists k. eexists. rewrite lookup_fmap, Hm. split; [done|]. simpl. set_solver.
    + intros (k & m & Hm & Hd). rewrite lookup_fmap in Hm. destruct (members s !! k) as [m'|] eqn:Em; [|done]. injection Hm as <-. simpl in Hd.
      apply elem_of_difference in Hd as [Hd Ht]. split; [by exists k, m'|]. set_solver.
Qed.
Lemma owned_default cid : owned (default_state cid).
Proof. intros d. simpl. split; [set_solver|]. intros (k & m & Hm & _). by rewrite lookup_empty in Hm. Qed.
Lemma owned_replay l : forall s, owned s -> owned (replay l s).
Proof. induction l as [|x l IH]; [done|]. intros s Hs. by apply IH, owned_apply. Qed.
Lemma owned_all `{Rmp} `{Blake3Hash} ns : forall s s', apply_all ns s = Some s' -> owned s -> owned s'.
Proof.
  induction ns as [|n ns IH]; intros s s' E Hs; [by injection E as <-|]. simpl in E. destruct (hash n) as [h|]; [|done]. eapply IH; [exact E|]. exact (owned_apply s (h, n) Hs).
Qed.

(** ** Runs of a client *)

Section Runs.
Context `{Rmp} `{Blake3Hash} `{Ed25519} `{StrictVerify} `{ChaCha20} `{Zstd} `{X25519} `{Blake3} `{Bao} `{HashOrder} `{LruCache Identity.PathKey Z}
  `{LruCache NodeHash (gset NodeHash)} `{StdRng} `{TimeProvider} {S : Type} `{NodeStore S} `{Node.BlobWrites S} `{Node.Transport}
  {Rng : Type} `{RandSource Rng} `{!Node.Seeding Rng} `{PowerFunctions}.
Variable fuel : nat.
#[local] Abbreviation N := (Node.t (S := S) (Rng := Rng)).
#[local] Abbreviation C := (Client.t (S := S) (Rng := Rng)).

(** The node hands events to the handler and takes none back. *)
Definition told_more (n n' : N) : Prop := forall l, Node.handled n = Some l -> exists l', Node.handled n' = Some (l ++ l').
#[local] Instance told_more_preorder : PreOrder told_more.
Proof.
  split; [intros n l Hl; exists []; by rewrite app_nil_r|]. intros n1 n2 n3 Ha Hb l Hl. destruct (Ha l Hl) as (l1 & H1'). destruct (Hb _ H1') as (l2 & ->).
  exists (l1 ++ l2). by rewrite app_assoc.
Qed.
Lemma same_told (n n' : N) : Node.handled n' = Node.handled n -> told_more n n'.
Proof. intros E l Hl. exists []. by rewrite app_nil_r, E. Qed.

Lemma world_told {A} (m : M (World S) A) : keeps told_more (Node.in_world (Rng := Rng) m).
Proof. intros n n' a E. apply same_told. unfold Node.in_world in E. destruct (m (Node.world n)) as [[w x]|]; [|done]. by injection E as <- _. Qed.
#[local] Hint Resolve world_told : frames.

Ltac node_leaf := first [apply same_told; reflexivity | intros l; simpl; intros ->; simpl; eexists; reflexivity].
Ltac frames := EngineFrames.frames_by node_leaf.

Lemma effect_told f now : keeps told_more (Node.process_effect f now).
Proof. frames. Qed.

#[local] Hint Resolve effect_told : frames.
Lemma effects_told fx now : forall wakeup, keeps told_more (Node.run_effects fx now wakeup).
Proof. induction fx as [|f fx IH]; intros wakeup; simpl; frames. Qed.
#[local] Hint Resolve effects_told : frames.
Lemma respond_told peer ps : keeps told_more (Node.respond (S := S) (Rng := Rng) peer ps).
Proof.
  induction ps as [|p ps IH]; simpl; [frames|]. apply keeps_bind; [apply _| |intros u; exact IH]. intros n n' u E. unfold Node.transmit in E.
  destruct (to_vec Wire.packet p) as [[b|e]|]; [| |done]; simpl in E; injection E as <-; by apply same_told.
Qed.
#[local] Hint Resolve respond_told : frames.
Lemma events_told peer now k : keeps told_more (Node.process_events fuel k peer now).
Proof. induction k as [|k IH]; simpl; frames. Qed.
#[local] Hint Resolve events_told : frames.
Lemma packet_told from d : keeps told_more (Node.handle_packet (S := S) (Rng := Rng) fuel from d).
Proof. frames. Qed.
Lemma send_told peer m : keeps told_more (Node.send_message (S := S) (Rng := Rng) peer m).
Proof. frames. Qed.
Lemma available_told peer b : keeps told_more (Node.set_peer_available (S := S) (Rng := Rng) peer b).
Proof. frames. Qed.

(** Whatever a flush sends, the events stay. *)
Lemma flush_told peer (l : Node.Link) now now_ms (n n' : N) s' :
  SequenceSession.flush_packets (Node.flush_into peer) (Node.quota l) (Node.session l) (Some n) now now_ms = Some (s', Some n') -> told_more n n'.
Proof.
  intros E. set (I := fun w : option N => match w with Some m => Node.handled m = Node.handled n | None => True end).
  apply (SessionFrames.Frames.flush_ongoing _ (Node.session l) I) in E; [| |by split].
  - apply same_told, E.
  - intros w p Hw _. unfold Node.flush_into, Node.transmit. destruct w as [m|]; [|done]. destruct (to_vec Wire.packet p) as [[b|e]|]; done.
Qed.
Lemma poll_link_told peer l now now_ms wakeup : keeps told_more (Node.poll_link (S := S) (Rng := Rng) peer l now now_ms wakeup).
Proof.
  unfold Node.poll_link. apply keeps_bind; [apply _| |intros s; frames]. intros n n' s E.
  destruct (SequenceSession.flush_packets _ _ _ _ _ _) as [[s1 [n1|]]|] eqn:Ef; [|done|done]. injection E as <- _. by eapply flush_told.
Qed.
#[local] Hint Resolve poll_link_told : frames.
Lemma poll_links_told ls : forall now now_ms wakeup, keeps told_more (Node.poll_links (S := S) (Rng := Rng) ls now now_ms wakeup).
Proof. induction ls as [|[peer l] ls IH]; intros now now_ms wakeup; simpl; frames. Qed.
#[local] Hint Resolve poll_links_told : frames.
Lemma poll_told : keeps told_more (Node.poll (S := S) (Rng := Rng) fuel).
Proof. frames. Qed.

(** A client keeps what it shows and has taken, except where an event changes it. *)
Definition kept (c : C) := (policy c, state c, conversation_id c, taken c).
Definition steady (c c' : C) : Prop := same kept c c' /\ told_more (node c) (node c').
#[local] Instance steady_preorder : PreOrder steady.
Proof. split; [by split|]. intros c1 c2 c3 [Ha Hb] [Hc Hd]. split; [by etrans|by etrans]. Qed.

Lemma in_node_steady {A} (m : M N A) : keeps told_more m -> keeps steady (in_node m).
Proof. intros Hm c c' a E. unfold in_node in E. destruct (m (node c)) as [[n x]|] eqn:En; [|done]. injection E as <- _. split; [done|]. by eapply Hm. Qed.
Lemma in_engine_steady {A} (m : M (World S) A) : keeps steady (in_engine (Rng := Rng) m).
Proof. apply in_node_steady, world_told. Qed.
Lemma effect_steady f now : keeps steady (in_node (Node.process_effect f now)).
Proof. apply in_node_steady, effect_told. Qed.
#[local] Hint Resolve in_engine_steady effect_steady : frames.

Lemma time_steady : keeps steady (effect_time (S := S) (Rng := Rng)).
Proof. apply keeps_bind; [apply _|apply in_node_steady; apply world_told|intros now]. apply keeps_bind; [apply _| |intros ms; apply keeps_pure; apply _].
  apply in_node_steady. apply keeps_bind; [apply _|apply world_told|intros k; apply keeps_pure; apply _]. Qed.
#[local] Hint Resolve time_steady : frames.
Lemma carry_steady fx : forall now, keeps steady (carry_out fx now).
Proof. induction fx as [|f fx IH]; intros now; simpl; frames. Qed.
Lemma commit_steady fx : forall now last, keeps steady (commit fx now last).
Proof. induction fx as [|f fx IH]; intros now last; simpl; frames. Qed.
#[local] Hint Resolve carry_steady commit_steady : frames.

Lemma orchestrate_steady n : keeps steady (orchestrate_actions fuel n).
Proof. frames. Qed.
Lemma auto_steady peer : keeps steady (check_auto_authorize fuel peer).
Proof. frames. Qed.

(** What the events say about the conversation. *)
Definition tells (cid : ConversationId) (ev : NodeEvent) : list Entry :=
  match ev with NodeVerified c h n => if bool_decide (c = cid) then [(h, n)] else [] | _ => [] end.
Definition told (cid : ConversationId) (evs : list NodeEvent) : list Entry := flat_map (tells cid) evs.

Lemma event_state ev (c c' : C) r : handle_event fuel ev c = Some (c', r) ->
  state c' = replay (tells (conversation_id c) ev) (state c) /\ conversation_id c' = conversation_id c /\ taken c' = taken c /\ told_more (node c) (node c').
Proof.
  intros E. unfold handle_event in E. assert (forall c' : C, steady c c' -> state c' = state c /\ conversation_id c' = conversation_id c /\ taken c' = taken c /\ told_more (node c) (node c')) as Hs.
  { intros c1 [Hk Ht]. unfold same, kept in Hk. injection Hk as _ -> -> ->. done. }
  destruct ev as [cid h n| | | |peer|]; try (injection E as <- _; by apply Hs).
  - unfold get_cid in E. run_step E. unfold tells. rewrite bool_decide_decide in *. destruct (decide (cid = conversation_id c)) as [->|Hc].
    + unfold change_state in E. run_step E. apply orchestrate_steady in E as [Hk Ht]. unfold same, kept in Hk. injection Hk as _ -> -> ->. done.
    + injection E as <- _. by apply Hs.
  - apply auto_steady in E. by apply Hs.
Qed.

(** Everything that happens to a client but a rebuild: a round of its loop, what its node
    receives and does, and what users ask for. *)
Inductive Activity :=
  | Loop
  | Receive (from : PhysicalDevicePk) (d : bytes)
  | PollNode
  | SendTo (peer : PhysicalDevicePk) (m : ProtocolMessage)
  | Available (peer : PhysicalDevicePk) (b : bool)
  | AuthorNode (ct : Content)
  | AuthorizeOther (device : PhysicalDevicePk) (perms : Permissions.t) (expires : Z)
  | AnnounceKeys
  | LeaveRoom
  | SendBlob (name mime_type d : bytes).
Definition and_done {A} (m : M C A) : M C unit := let* _ := m in pure tt.
Definition act (a : Activity) : M C unit :=
  match a with
  | Loop => and_done (step fuel)
  | Receive from d => in_node (Node.handle_packet fuel from d)
  | PollNode => and_done (in_node (Node.poll fuel))
  | SendTo peer m => in_node (Node.send_message peer m)
  | Available peer b => in_node (Node.set_peer_available peer b)
  | AuthorNode ct => and_done (author_node fuel ct [])
  | AuthorizeOther device perms expires => and_done (authorize_device fuel device perms expires)
  | AnnounceKeys => and_done (announce_keys fuel)
  | LeaveRoom => and_done (leave fuel)
  | SendBlob name mime_type d => and_done (send_blob fuel name mime_type d)
  end.
Definition acts (l : list Activity) : M C unit := for_each l act.

Lemma chunks_steady cid h cs : forall i, keeps steady (put_chunks (S := S) (Rng := Rng) cid h i cs).
Proof.
  induction cs as [|c cs IH]; intros i; simpl; [apply keeps_good; apply _|]. apply keeps_try; [apply _| |intros u; apply IH]. apply in_node_steady, world_told.
Qed.
#[local] Hint Resolve chunks_steady : frames.
Lemma blob_steady d : keeps steady (store_blob (S := S) (Rng := Rng) d).
Proof.
  unfold store_blob. apply keeps_bind; [apply _|frames|intros cid]. apply keeps_try; [apply _|apply in_node_steady, world_told|intros u]. frames.
Qed.
#[local] Hint Resolve blob_steady : frames.

Lemma other_steady a : a <> Loop -> keeps steady (act a).
Proof.
  intros Ha. destruct a; [done|apply in_node_steady, packet_told| |apply in_node_steady, send_told|apply in_node_steady, available_told|..];
    unfold act, and_done; (apply keeps_bind; [apply _| |intros x; apply keeps_pure; apply _]); [apply in_node_steady, poll_told|..]; frames.
Qed.

(** What the client shows follows from the events it has taken. *)
Definition follows (c : C) : Prop := exists l, Node.handled (node c) = Some l /\ (taken c <= length l)%nat /\
  state c = replay (told (conversation_id c) (take (taken c) l)) (default_state (conversation_id c)).

Lemma step_follows (c c' : C) b : step fuel c = Some (c', b) -> follows c -> follows c' /\ conversation_id c' = conversation_id c.
Proof.
  intros E (l & Hl & Hlen & Hs). unfold step in E. run_step E. rewrite Hl in E. cbn [mbind option_bind] in E. destruct (l !! taken c) as [ev|] eqn:Ev.
  - run_step E. apply bind_inv in E as (c1 & r & E1 & E). injection E as <- _. apply event_state in E1 as (Es & Ec & Et & Hm). simpl in Es, Ec, Et.
    destruct (Hm l Hl) as (l' & Hl'). split; [|done]. exists (l ++ l'). split; [done|]. pose proof (lookup_lt_Some _ _ _ Ev) as Hlt. split; [rewrite Et, length_app; lia|].
    rewrite Es, Ec, Et, take_app_le by lia. rewrite (take_S_r _ _ _ Ev). unfold told. rewrite flat_map_app. unfold replay in *. rewrite foldl_app, Hs. simpl. by rewrite app_nil_r.
  - injection E as <- _. split; [by exists l|done].
Qed.

Lemma steady_follows (c c' : C) : steady c c' -> follows c -> follows c' /\ conversation_id c' = conversation_id c.
Proof.
  intros [Hk Ht] (l & Hl & Hlen & Hs). unfold same, kept in Hk. injection Hk as _ Es Ec Et. split; [|done]. destruct (Ht l Hl) as (l' & Hl'). exists (l ++ l').
  split; [done|]. rewrite Et, length_app. split; [lia|]. by rewrite Es, Ec, take_app_le.
Qed.

Lemma acts_follow l : forall (c c' : C) u, acts l c = Some (c', u) -> follows c -> follows c' /\ conversation_id c' = conversation_id c.
Proof.
  induction l as [|a l IH]; intros c c' u E Hf; [by injection E as <- _|]. unfold acts in E. simpl in E. apply bind_inv in E as (c1 & b & E1 & E).
  assert (follows c1 /\ conversation_id c1 = conversation_id c) as [Hf1 Hc1].
  { assert (a = Loop \/ a <> Loop) as [->|Ha] by (destruct a; (by left) || by right); [|apply steady_follows; [by eapply other_steady|done]].
    unfold act, and_done in E1. apply bind_inv in E1 as (c2 & x & E2 & E1). injection E1 as <- _. by eapply step_follows. }
  apply IH in E as [Hf' Hc']; [|done]. by rewrite Hc'.
Qed.

(** A client that was just made, with its channel. *)
Definition opened (c : C) : Prop := Node.handled (node c) = Some [] /\ taken c = 0%nat /\ state c = default_state (conversation_id c).
Lemma opened_follows c : opened c -> follows c.
Proof. intros (Hh & Ht & Hs). exists []. rewrite Ht. done. Qed.

(** The nodes that the client has been told of. *)
Definition seen (c : C) : list Entry := told (conversation_id c) (take (taken c) (default [] (Node.handled (node c)))).
Lemma follows_seen c : follows c -> state c = replay (seen c) (default_state (conversation_id c)).
Proof. intros (l & Hl & _ & Hs). unfold seen. by rewrite Hl. Qed.

Lemma apply_all_replay l : Forall (fun x : Entry => hash x.2 = Some x.1) l -> forall s, apply_all l.*2 s = Some (replay l s).
Proof. induction 1 as [|[h n] l Hx Hl IH]; intros s; [done|]. simpl in *. rewrite Hx. simpl. apply IH. Qed.

(** *** Rebuilding now and then *)

(** A rebuild is [None]. *)
Definition live (x : option Activity) : M C unit := match x with Some a => act a | None => and_done refresh_state end.
Definition lives (l : list (option Activity)) : M C unit := for_each l live.

Lemma refresh_owned (c c' : C) r : refresh_state c = Some (c', r) -> owned (state c) -> owned (state c').
Proof.
  intros E Ho. unfold refresh_state, get_cid, bind, gets, in_engine, in_node, Node.in_world, get_disk in E. cbn [gets] in E.
  unfold try, pure, bind, lift in E. destruct (get_verified_nodes_by_type _ _ Dag.Admin) as [la|e]; [|by injection E as <- _].
  destruct (get_verified_nodes_by_type _ _ ContentNode) as [lc|e]; [|by injection E as <- _]. destruct (apply_all la _) as [s1|] eqn:E1; [|done].
  destruct (apply_all lc s1) as [s2|] eqn:E2; [|done]. injection E as <- _. change (owned s2). eapply owned_all; [exact E2|]. eapply owned_all; [exact E1|]. apply owned_default.
Qed.

Lemma act_owned a (c c' : C) u : act a c = Some (c', u) -> owned (state c) -> owned (state c').
Proof.
  intros E Ho. assert (a = Loop \/ a <> Loop) as [->|Ha] by (destruct a; (by left) || by right).
  - unfold act, and_done in E. apply bind_inv in E as (c1 & b & E & E1). injection E1 as <- _. unfold step in E. run_step E.
    destruct (_ ≫= _) as [ev|]; [|by injection E as <- _]. run_step E. apply bind_inv in E as (c2 & r & E & E1). injection E1 as <- _. apply event_state in E as (-> & _).
    by apply owned_replay.
  - apply other_steady in E as [Hk _]; [|done]. unfold same, kept in Hk. by injection Hk as _ -> _ _.
Qed.

Lemma lives_owned l : forall (c c' : C) u, lives l c = Some (c', u) -> owned (state c) -> owned (state c').
Proof.
  induction l as [|x l IH]; intros c c' u E Ho; [by injection E as <- _|]. unfold lives in E. simpl in E. apply bind_inv in E as (c1 & b & E1 & E). eapply IH; [exact E|].
  destruct x as [a|]; [by eapply act_owned|]. unfold live, and_done in E1. apply bind_inv in E1 as (c2 & r & E2 & E1). injection E1 as <- _. by eapply refresh_owned.
Qed.

Lemma lives_acts (l : list (option Activity)) : None ∉ l -> exists l' : list Activity, l = Some <$> l'.
Proof.
  induction l as [|[a|] l IH]; intros Hn; [by exists []| |destruct Hn; left]. destruct IH as [l' ->]; [intros Hl; apply Hn; by right|]. by exists (a :: l').
Qed.
Lemma lives_are_acts l : forall (c : C), lives (Some <$> l) c = acts l c.
Proof. induction l as [|a l IH]; intros c; [done|]. unfold lives, acts. simpl. unfold bind. destruct (act a c) as [[c1 u]|]; [|done]. apply IH. Qed.

(** C24: A rebuild gives back what a client showed, whatever it and its node did and in
    whatever order nodes of the two tracks were verified between each other, if the
    store lists exactly the nodes that the client was told of, and each track in the
    order in which it was told of them.  Then the title, the topic, the messages with
    their reactions and redactions, the announcements, the authorized devices, the
    members with their devices and the highest rank are what they were.  The stores
    list nodes by rank, so the order can differ ([rank_order_retitles]). *)
Theorem refresh_agrees l (c0 c : C) : opened c0 -> acts l c0 = Some (c, tt) -> Forall (fun x : Entry => hash x.2 = Some x.1) (seen c) ->
  get_verified_nodes_by_type (Engine.disk (Node.world (node c))) (conversation_id c) Dag.Admin = Ok (of_type Dag.Admin (seen c)).*2 ->
  get_verified_nodes_by_type (Engine.disk (Node.world (node c))) (conversation_id c) ContentNode = Ok (of_type ContentNode (seen c)).*2 ->
  exists c', refresh_state c = Some (c', Ok tt) /\ parts (state c') = parts (state c).
Proof.
  intros Ho E Hh Ha Hc. apply opened_follows in Ho. apply acts_follow in E as [Hf%follows_seen _]; [|done].
  assert (forall ty, Forall (fun x : Entry => hash x.2 = Some x.1) (of_type ty (seen c))) as Hty.
  { intros ty. rewrite Forall_forall in Hh |- *. intros x Hx. apply Hh. apply list_elem_of_In in Hx. apply filter_In in Hx as [Hx _]. by apply list_elem_of_In. }
  eexists. split.
  - unfold refresh_state, get_cid, bind, gets, in_engine, in_node, Node.in_world, get_disk. cbn [gets]. rewrite Ha. unfold try, bind, pure at 1. rewrite Hc.
    unfold pure at 1, lift. rewrite (apply_all_replay _ (Hty Dag.Admin)), (apply_all_replay _ (Hty ContentNode)). reflexivity.
  - simpl. rewrite Hf, (parts_tracks (seen c)). done.
Qed.

(** C25: Whatever happens to a client and its node, rebuilds included, the devices it
    shows as authorized are those of the members it shows.  And as long as it has not
    rebuilt its state, the heads it shows are the nodes it was told of that no node told
    of later has as a parent; if nodes were verified after their parents and once, these
    are the nodes that are not parents of others, in the order of telling. *)
Theorem shown_state_sound l (c0 c : C) : opened c0 -> lives l c0 = Some (c, tt) ->
  (forall d, d ∈ authorized_devices (state c) <-> exists pk m, members (state c) !! pk = Some m /\ d ∈ devices m) /\
  (None ∉ l -> (forall h, h ∈ heads (state c) <-> unfollowed (seen c) h) /\ (causal (seen c) -> heads (state c) = frontier (seen c))).
Proof.
  intros Ho E. split.
  - eapply lives_owned; [exact E|]. destruct Ho as (_ & _ & ->). apply owned_default.
  - intros [l' ->]%lives_acts. rewrite lives_are_acts in E. apply opened_follows in Ho. apply acts_follow in E as [Hf%follows_seen _]; [|done]. rewrite Hf.
    split; [intros h; apply heads_unfollowed|apply heads_frontier].
Qed.

End Runs.
Import Models Format EngineModels.

(** ** Examples *)

#[local] Existing Instances NodeTheory.memory_blobs NodeTheory.counting_source NodeTheory.counting_seeds NodeTheory.open_transport NodeTheory.plain_powers.

(** The founder of a room sets its title and invites somebody; the client shows both. *)
Definition founder_client : Client.t (S := Memory.InMemoryStore) (Rng := Z) := Client.new (Node.set_event_handler (Node.new (fresh 1))) room.
Definition first_day : list Activity := [AuthorNode (Control (SetTitle [1])); AuthorNode (Control (Invite (mkInvite (device 2) 1))); Loop; Loop].
Definition evening : Client.t (S := Memory.InMemoryStore) (Rng := Z) := default founder_client (fst <$> acts 10 first_day founder_client).

Lemma founder_opened : opened founder_client.
Proof. done. Qed.
Lemma ran_to {A} (o : option (A * unit)) (a : A) : (fun _ => tt) <$> o = Some tt -> o = Some (default a (fst <$> o), tt).
Proof. by destruct o as [[x []]|]. Qed.
Lemma evening_comes : acts 10 first_day founder_client = Some (evening, tt).
Proof. apply ran_to. vm_compute. reflexivity. Qed.
Lemma evening_seen : length (seen evening) = 2%nat /\ causal_from [] (seen evening) = true /\
  forallb (fun x : Entry => bool_decide (hash x.2 = Some x.1)) (seen evening) = true.
Proof. split_and!; vm_compute; reflexivity. Qed.

Lemma refresh_agrees_witness : exists c', refresh_state evening = Some (c', Ok tt) /\ parts (state c') = parts (state evening).
Proof.
  apply (refresh_agrees 10 first_day founder_client evening founder_opened evening_comes).
  - destruct evening_seen as (_ & _ & Hh). apply Forall_forall. intros x Hx%list_elem_of_In. rewrite forallb_forall in Hh. by eapply bool_decide_eq_true, Hh.
  - vm_compute. reflexivity.
  - vm_compute. reflexivity.
Defined.

Lemma evening_lives : lives 10 (Some <$> first_day) founder_client = Some (evening, tt).
Proof. rewrite lives_are_acts. exact evening_comes. Qed.
Lemma shown_state_sound_witness : Client.heads (state evening) = frontier (seen evening).
Proof.
  destruct (shown_state_sound 10 (Some <$> first_day) founder_client evening founder_opened evening_lives) as [_ Hh].
  destruct Hh as [_ Hh]; [by intros (a & [=] & _)%list_elem_of_fmap|]. apply Hh.
  apply (causal_test (seen evening) [] causal_nil). by destruct evening_seen as (_ & Hc & _).
Defined.

(** A rebuild does not give back the role: an invited admin whose device was authorized
    later counts as a member after it. *)
Definition by_device (d : Z) (ct : Content) : MerkleNode := mkNode [] (device d) (device d) 1 0 1000 ct [] (Signature []) 0.
Definition guest_cert : DelegationCertificate := mkCert 1 room (device 22) Permissions.ALL 2000 [].
Definition guests : list Entry := [(device 101, by_device 1 (Control (Invite (mkInvite (device 2) 1)))); (device 102, by_device 2 (Control (AuthorizeDevice guest_cert)))].
Lemma rebuild_demotes :
  role <$> members (replay guests (default_state room)) !! device 2 = Some Admin /\
  role <$> members (replay (of_type ContentNode guests) (replay (of_type Dag.Admin guests) (default_state room))) !! device 2 = Some Member.
Proof. split; vm_compute; reflexivity. Qed.

(** The store lists nodes by rank: a title of lower rank that was verified later is shown
    until the rebuild, which shows the other one. *)
Definition titled (rank : Z) (title : bytes) : MerkleNode := mkNode [] (device 1) (device 1) 1 rank 1000 (Control (SetTitle title)) [] (Signature []) 0.
Definition two_titles : list Entry := (fun n => (default zero_hash (hash n), n)) <$> [titled 5 [1]; titled 3 [2]].
Definition titles_stored : Memory.InMemoryStore :=
  foldl (fun s x => match Memory.put_node room x.2 true s with Some (s, _) => s | None => s end) Memory.new two_titles.
Example rank_order_retitles : node_type (titled 5 [1]) = ContentNode /\ title (replay two_titles (default_state room)) = [2] /\
  match Memory.get_verified_nodes_by_type titles_stored room ContentNode with
  | Ok ns => title <$> apply_all ns (default_state room) = Some [1]
  | Err _ => False
  end.
Proof. split_and!; vm_compute; reflexivity. Qed.

(** The hash that [revoke_device] returns is that of the last node written, here of the
    new sender keys and not of the revocation. *)
Definition revoked : option (Client.t (S := Memory.InMemoryStore) (Rng := Z) * result MerkleToxError NodeHash) :=
  Client.revoke_device 10 (device 11) [] founder_client.
Lemma returned_hash_is_last : (fun p => match p.2 with
    | Ok h => match Engine.get_node (Engine.disk (Node.world (node p.1))) h with Some n => match content n with Control (RevokeDevice _ _) => false | _ => true end | None => false end
    | Err _ => false end) <$> revoked = Some true.
Proof. vm_compute. reflexivity. Qed.

End ClientTheory.
