(* ===== verification/BlobTheory.v ===== *)
(** Blobs that a client puts into the in-memory store can be read from it: every chunk
    lands in its place, and the blob is available once the last one is there. *)

From S2P Require Import Prelude Protocol Float32 Rtt Congestion Quota Session MsgPack ToxTypes Derive Wire Iblt Merkle Dag DagWire Identity Conversation SyncSession Cas CasTheory Clock Messages Monad Engine Overlay Memory Verify SideEffects Authoring Processor Handlers Poll Node MsgPackFormat MerkleModels IbltTheory EngineModels NodeTheory Client.
From stdpp Require Import gmap sorting strings.
#[local] Open Scope Z_scope.
#[local] Open Scope list_scope.
#[local] Open Scope monad_scope.

Module BlobTheory.
Import Dag Crypto DagWire Messages CasTheory Engine.

Definition CS : nat := Z.to_nat Cas.CHUNK_SIZE.
Lemma CS_value : Z.of_nat CS = Cas.CHUNK_SIZE.
Proof. unfold CS. by rewrite Z2Nat.id. Qed.
Lemma CS_pos : (0 < CS)%nat.
Proof. pose proof CS_value. unfold Cas.CHUNK_SIZE in *. lia. Qed.
#[local] Opaque CS.

(** The chunks of [d] from [k] on. *)
Definition rest (d : bytes) (k : nat) : list bytes := Client.chunks_up_to (length d - k * CS) CS (drop (k * CS) d).

Lemma rest_all d : Client.chunks (Z.to_nat Cas.CHUNK_SIZE) d = rest d 0.
Proof. change (Z.to_nat Cas.CHUNK_SIZE) with CS. unfold Client.chunks, rest. by rewrite Nat.sub_0_r, drop_0. Qed.
Lemma rounds_enough n d : forall r r', (0 < n)%nat -> (length d <= r)%nat -> (length d <= r')%nat -> Client.chunks_up_to r n d = Client.chunks_up_to r' n d.
Proof.
  intros r. revert d. induction r as [|r IH]; intros d r' Hn Hr Hr'.
  - destruct d; [by destruct r'|simpl in Hr; lia].
  - destruct d as [|x d]; [by destruct r'|]. destruct r' as [|r']; [simpl in Hr'; lia|]. cbn [Client.chunks_up_to]. f_equal.
    apply IH; [done|..]; rewrite length_drop; simpl length in *; lia.
Qed.
Lemma rest_cons d k : (k * CS < length d)%nat -> rest d k = take CS (drop (k * CS) d) :: rest d (Datatypes.S k).
Proof.
  intros Hk. unfold rest at 1. destruct (length d - k * CS)%nat as [|r] eqn:Er; [lia|].
  assert (drop (k * CS) d <> []) as Hd by (intros E; apply (f_equal length) in E; rewrite length_drop in E; simpl length in E; lia).
  destruct (drop (k * CS) d) as [|x l] eqn:Ed; [done|]. cbn [Client.chunks_up_to]. rewrite <- Ed. f_equal. unfold rest. rewrite drop_drop.
  replace (k * CS + CS)%nat with (Datatypes.S k * CS)%nat by lia. pose proof CS_pos. apply rounds_enough; [lia|..]; rewrite length_drop; lia.
Qed.
Lemma rest_nil d k : (length d <= k * CS)%nat -> rest d k = [].
Proof. intros Hk. unfold rest. by replace (length d - k * CS)%nat with 0%nat by lia. Qed.

(** ** One chunk *)

(** What is in the buffer after [k] chunks. *)
Definition filled (d : bytes) (k : nat) : bytes := take (k * CS) d ++ replicate (length d - k * CS) 0.

Lemma filled_length d k : length (filled d k) = length d.
Proof. unfold filled. rewrite length_app, length_take, length_replicate. lia. Qed.

Lemma copy_chunk d k : (k * CS < length d)%nat -> len d <= usize_max ->
  Memory.copy_at (filled d k) (Z.of_nat (k * CS)) (take CS (drop (k * CS) d)) = Some (filled d (Datatypes.S k)).
Proof.
  intros Hk Hd. unfold Memory.copy_at, len in *. rewrite filled_length, length_take, length_drop.
  rewrite chk_usize_ok by lia. cbn [mbind option_bind].
  set (stop := Z.min _ _). assert (stop = Z.of_nat (k * CS + Nat.min CS (length d - k * CS))) as -> by lia.
  destruct (Z.leb_spec (Z.of_nat (k * CS)) (Z.of_nat (k * CS + Nat.min CS (length d - k * CS)))); [|lia]. f_equal.
  replace (Z.to_nat (Z.of_nat (k * CS + Nat.min CS (length d - k * CS)) - Z.of_nat (k * CS))) with (Nat.min CS (length d - k * CS)) by lia. rewrite !Nat2Z.id.
  assert (length (take (k * CS) d) = (k * CS)%nat) as Hl by (rewrite length_take; lia). set (m := Nat.min CS (length d - k * CS)).
  assert (take (Datatypes.S k * CS) d = take (k * CS + m) d) as Ht.
  { unfold m. destruct (decide (CS <= length d - k * CS)%nat); [f_equal; lia|]. rewrite !take_ge by lia. done. }
  unfold filled at 1 2. rewrite take_app_le, take_take, Nat.min_id, take_take by lia. replace (Nat.min m CS) with m by lia.
  rewrite drop_app, Hl, drop_replicate, (drop_ge (take _ _)) by lia. simpl app. rewrite app_assoc, take_take_drop. unfold filled. rewrite Ht. f_equal. f_equal. lia.
Qed.

(** ** The mask *)

Definition tracked (h : NodeHash) (d mask : bytes) : Cas.ChunkTracker := Cas.mkTracker h (len d) mask.

Lemma received_spec t l : tracker_ok t -> (forall i, i ∈ l -> 0 <= i < Cas.num_chunks (Cas.total_size t)) ->
  Memory.all_received (Cas.received_mask t) l = Some (forallb (Cas.is_received t) l).
Proof.
  intros Ht. induction l as [|i l IH]; intros Hl; [done|]. simpl. destruct (in_mask t i Ht) as [b Eb]; [apply Hl; left|]. unfold Cas.is_received at 1.
  rewrite Eb. simpl. destruct (Z.land b (Z.shiftl 1 (i mod 8)) =? 0); [done|]. simpl. apply IH. intros x Hx. apply Hl. by right.
Qed.

Lemma set_bit_tracked h d mask i : Memory.set_bit mask i = Cas.received_mask (Cas.mark_received (tracked h d mask) i).
Proof. unfold Memory.set_bit, Cas.mark_received. simpl. by destruct (idx mask (i / 8)). Qed.
Lemma marked_tracked h d mask i : tracked h d (Memory.set_bit mask i) = Cas.mark_received (tracked h d mask) i.
Proof. rewrite (set_bit_tracked h d). unfold Cas.mark_received. simpl. by destruct (idx mask (i / 8)). Qed.

Lemma chunks_below (d : bytes) k : (k * CS < length d)%nat <-> Z.of_nat k < Cas.num_chunks (len d).
Proof.
  pose proof CS_value as Hc. pose proof (div_ceil_spec (len d) Cas.CHUNK_SIZE ltac:(done)) as Hd. unfold Cas.num_chunks, len in *.
  set (q := div_ceil _ _) in *. rewrite Nat2Z.inj_lt, Nat2Z.inj_mul, Hc. split; intros H; nia.
Qed.

(** The store after the first [k] chunks of [d]. *)
Definition stored_to (h : NodeHash) (d : bytes) (k : nat) (s : Memory.InMemoryStore) : Prop :=
  exists i buffer, let mask := default (replicate (Z.to_nat (div_ceil (Cas.num_chunks (len d)) 8)) 0) (Cas.info_mask i) in
    Memory.blobs s !! h = Some (i, buffer) /\ Cas.size i = len d /\
    match buffer with [] => replicate (Z.to_nat (Cas.size i)) 0 | _ => buffer end = filled d k /\ (k <> 0%nat -> buffer = filled d k) /\
    tracker_ok (tracked h d mask) /\ (forall j, 0 <= j < Cas.num_chunks (len d) -> Cas.is_received (tracked h d mask) j = (j <? Z.of_nat k)) /\
    (Cas.num_chunks (len d) <= Z.of_nat k -> Cas.status i = Cas.Available).

Lemma put_chunk_next h (d : bytes) k (s : Memory.InMemoryStore) : (k * CS < length d)%nat -> len d <= usize_max -> stored_to h d k s ->
  exists s', Memory.put_chunk h (Z.of_nat k * Cas.CHUNK_SIZE) (take CS (drop (k * CS) d)) s = Some s' /\ stored_to h d (Datatypes.S k) s'.
Proof.
  intros Hk Hd (i & buffer & Hb & Hz & Hf & _ & Ht & Hm & _). unfold Memory.put_chunk. rewrite Hb, Hf.
  replace (Z.of_nat k * Cas.CHUNK_SIZE) with (Z.of_nat (k * CS)) by (rewrite Nat2Z.inj_mul, CS_value; done). rewrite copy_chunk by done. cbn [mbind option_bind].
  rewrite Hz. set (mask := default _ (Cas.info_mask i)) in *. apply chunks_below in Hk as Hn.
  assert (Z.of_nat (k * CS) / Cas.CHUNK_SIZE = Z.of_nat k) as -> by (rewrite Nat2Z.inj_mul, CS_value; by apply Z.div_mul).
  set (mask' := Memory.set_bit mask (Z.of_nat k)). assert (tracked h d mask' = Cas.mark_received (tracked h d mask) (Z.of_nat k)) as Et by apply marked_tracked.
  assert (tracker_ok (tracked h d mask')) as Ht' by (rewrite Et; by apply mark_ok).
  assert (forall j, 0 <= j < Cas.num_chunks (len d) -> Cas.is_received (tracked h d mask') j = (j <? Z.of_nat (Datatypes.S k))) as Hm'.
  { intros j Hj. rewrite Et, mark_spec by (try done; simpl; lia). rewrite Hm by done. destruct (Z.eqb_spec (Z.of_nat k) j), (Z.ltb_spec j (Z.of_nat k)), (Z.ltb_spec j (Z.of_nat (Datatypes.S k))); simpl; lia. }
  change mask' with (Cas.received_mask (tracked h d mask')). rewrite received_spec; [|done|by intros x Hx%elem_of_zrange]. cbn [mbind option_bind].
  eexists. split; [done|]. eexists _, (filled d (Datatypes.S k)). cbn [Memory.blobs]. simpl. rewrite lookup_insert_eq.
  split; [done|]. split; [done|]. split; [|split; [done|split; [done|split; [done|]]]].
  - assert (length (filled d (Datatypes.S k)) <> 0%nat) as Hne by (rewrite filled_length; lia). by destruct (filled d (Datatypes.S k)).
  - intros Hle. simpl. enough (forallb (Cas.is_received (tracked h d mask')) (zrange 0 (Cas.num_chunks (len d))) = true) as -> by done.
    apply forallb_forall. intros x Hx%list_elem_of_In%elem_of_zrange. rewrite Hm' by done. apply Z.ltb_lt. lia.
Qed.

(** Before the first chunk. *)
Lemma stored_start h (d : bytes) st : len d <= usize_max -> Memory.blobs st !! h = None ->
  stored_to h d 0 (Memory.put_blob_info (Cas.mkInfo h (len d) None Cas.Available None None) st).
Proof.
  intros Hd Hnone. pose proof (len_nonneg d) as Hl. assert (0 <= len d <= u64_max) as Hu by (unfold usize_max, u64_max in *; lia).
  eexists (Cas.mkInfo h (len d) None Cas.Available None None), []. unfold Memory.put_blob_info. simpl. rewrite Hnone, lookup_insert_eq. split; [done|]. split; [done|].
  split; [unfold filled, len; simpl; rewrite Nat2Z.id, Nat.sub_0_r; done|]. split; [done|]. split; [by apply (new_tracker_ok h)|]. split; [|done].
  intros j Hj. pose proof (new_received h (len d) j Hu ltac:(lia)) as Hr. unfold tracked. unfold Cas.new_tracker in Hr. rewrite Hr. symmetry. apply Z.ltb_ge. lia.
Qed.

(** ** The whole blob *)

Section Blob.
Context `{Rmp} `{Blake3Hash} `{Ed25519} `{StrictVerify} `{ChaCha20} `{Zstd} `{X25519} `{Blake3} `{Bao} `{HashOrder} `{LruCache Identity.PathKey Z}
  `{LruCache NodeHash (gset NodeHash)} `{StdRng} `{TimeProvider} `{Node.Transport} {Rng : Type} `{RandSource Rng} `{!Node.Seeding Rng} `{PowerFunctions}.
#[local] Existing Instance NodeTheory.memory_blobs.
#[local] Abbreviation C := (Client.t (S := Memory.InMemoryStore) (Rng := Rng)).

Definition disk_of (c : C) : Memory.InMemoryStore := disk (Node.world (Client.node c)).
Definition with_disk (c : C) (st : Memory.InMemoryStore) : C :=
  let n := Client.node c in let w := Node.world n in c <| Client.node := n <| Node.world := w <| disk := st |> |> |>.

Lemma on_disk_run f (c : C) : Client.in_node (Node.on_disk f) c = '(st, r) ← f (disk_of c); Some (with_disk c st, r).
Proof. unfold Client.in_node, Node.on_disk, Node.in_world, bind, get_disk, gets, lift, disk_of. destruct (f _) as [[st r]|]; done. Qed.

Lemma put_chunks_run cid h (d : bytes) : len d <= usize_max -> forall rounds k (c : C), (length d - k * CS <= rounds * CS)%nat -> stored_to h d k (disk_of c) ->
  exists c', Client.put_chunks cid h (Z.of_nat k) (rest d k) c = Some (c', Ok tt) /\ exists k', (length d <= k' * CS)%nat /\ stored_to h d k' (disk_of c').
Proof.
  intros Hd. induction rounds as [|rounds IH]; intros k c Hr Hs.
  - rewrite rest_nil by lia. exists c. split; [done|]. exists k. split; [lia|done].
  - destruct (decide (k * CS < length d)%nat) as [Hk|Hk]; [|rewrite rest_nil by lia; exists c; split; [done|]; exists k; split; [lia|done]].
    rewrite rest_cons by done. cbn [Client.put_chunks]. unfold try, bind. rewrite on_disk_run.
    destruct (put_chunk_next h d k (disk_of c) Hk Hd Hs) as (s' & E & Hs'). cbn [Node.put_chunk NodeTheory.memory_blobs]. rewrite E. cbn [fmap option_fmap mbind option_bind option_map].
    replace (Z.of_nat k + 1) with (Z.of_nat (Datatypes.S k)) by lia. apply (IH (Datatypes.S k) (with_disk c s')); [lia|exact Hs'].
Qed.

(** C27: Data that a client stores as a blob for sending, in chunks of 64 KiB, is
    available from the in-memory store under its hash afterwards, with its size, and any
    part of it can be read. *)
Theorem stored_blob_readable (d : bytes) (c : C) : len d <= usize_max -> Memory.blobs (disk_of c) !! blake3 d = None ->
  exists c', Client.store_blob d c = Some (c', Ok (blake3 d)) /\ Memory.has_blob (disk_of c') (blake3 d) = true /\
    (exists i, Memory.get_blob_info (disk_of c') (blake3 d) = Some i /\ Cas.size i = len d) /\
    forall o n, 0 <= o <= len d -> 0 <= n -> o + n <= usize_max ->
      Memory.get_chunk (disk_of c') (blake3 d) o n = Some (Ok (take (Z.to_nat n) (drop (Z.to_nat o) d))).
Proof.
  intros Hd Hnone. set (h := blake3 d) in *. unfold Client.store_blob, Client.get_cid, bind at 1, gets. fold h. unfold try at 1, bind at 1. rewrite on_disk_run.
  cbn [Node.put_blob_info NodeTheory.memory_blobs mbind option_bind]. set (s0 := Memory.put_blob_info _ _). set (c0 := with_disk c s0).
  assert (stored_to h d 0 (disk_of c0)) as Hs0 by (by apply stored_start).
  destruct (put_chunks_run (Client.conversation_id c) h d Hd (length d) 0 c0) as (c' & E & k & Hk & i & buffer & Hb & Hz & Hf & Hf' & _ & _ & Hst); [pose proof CS_pos; nia|done|].
  rewrite rest_all. exists c'. split; [unfold try, bind; change 0 with (Z.of_nat 0); by rewrite E|].
  assert (Cas.num_chunks (len d) <= Z.of_nat k) as Hn by (destruct (Z.leb_spec (Cas.num_chunks (len d)) (Z.of_nat k)) as [?|Hlt]; [done|apply chunks_below in Hlt; lia]).
  split; [unfold Memory.has_blob; rewrite Hb, Hst by done; done|]. split; [exists i; unfold Memory.get_blob_info; by rewrite Hb|].
  intros o n Ho Hn0 Hon. unfold Memory.get_chunk. rewrite Hb, chk_usize_ok by lia.
  assert (buffer = d) as ->.
  { assert (filled d k = d) as Hfd by (unfold filled; rewrite take_ge, (proj2 (Nat.sub_0_le _ _) Hk) by done; simpl; by rewrite app_nil_r).
    rewrite Hfd in Hf, Hf'. destruct (decide (k = 0%nat)) as [->|Hk0]; [|by apply Hf']. destruct d; [|simpl in Hk; lia]. by destruct buffer. }
  destruct (Z.leb_spec o (Z.min (o + n) (len d))); [|lia]. f_equal. f_equal.
  destruct (Z.le_ge_cases (o + n) (len d)); [f_equal; lia|]. rewrite !take_ge; [done|..]; rewrite length_drop; unfold len in *; lia.
Qed.

End Blob.
Import Models Format EngineModels.
#[local] Existing Instances NodeTheory.memory_blobs NodeTheory.counting_source NodeTheory.counting_seeds NodeTheory.open_transport NodeTheory.plain_powers.

Definition idle_client : Client.t (S := Memory.InMemoryStore) (Rng := Z) := Client.new (Node.new (blank 1)) room.

Lemma stored_blob_readable_witness : exists c', Client.store_blob [5; 6; 7] idle_client = Some (c', Ok (blake3 [5; 6; 7])) /\
  Memory.get_chunk (disk_of c') (blake3 [5; 6; 7]) 1 2 = Some (Ok [6; 7]).
Proof.
  destruct (stored_blob_readable [5; 6; 7] idle_client ltac:(done) ltac:(reflexivity)) as (c' & E & _ & _ & Hr). exists c'. split; [exact E|].
  apply (Hr 1 2); [unfold len; simpl; lia|lia|done].
Defined.

End BlobTheory.
