(* ===== verification/ClientLocks.v ===== *)
(** The two locks of a client ([merkle-tox-client/src/lib.rs]): a mutex around the node
    and a reader-writer lock around the state.  Operations run concurrently and wait for
    the locks; all of them complete, unless the client authorizes a device by itself
    while the state is rebuilt. *)

From S2P Require Import Prelude.
From stdpp Require Import list.

Module ClientLocks.

(** ** Locks *)

(** What an operation does with the locks, in the order of the source. *)
Inductive Access := LockNode | UnlockNode | ReadState | DropRead | WriteState | DropWrite.
#[export] Instance Access_eq_dec : EqDecision Access.
Proof. solve_decision. Defined.

(** What a task holds, and what it has yet to do. *)
Record Task := mkTask { has_node : bool; reads : bool; writes : bool; todo : list Access }.

(** A task waits for the lock that it wants next.  With [fair], readers wait behind a
    writer that waits, as they do in [tokio]. *)
Definition wants_write (t : Task) : bool := match todo t with WriteState :: _ => true | _ => false end.
Definition enabled (fair : bool) (ts : list Task) (a : Access) : bool :=
  match a with
  | LockNode => negb (existsb has_node ts)
  | ReadState => negb (existsb writes ts) && negb (fair && existsb wants_write ts)
  | WriteState => negb (existsb (fun t => reads t || writes t) ts)
  | UnlockNode | DropRead | DropWrite => true
  end.
Definition access (a : Access) (t : Task) : Task :=
  match a with
  | LockNode => mkTask true (reads t) (writes t) (tail (todo t))
  | UnlockNode => mkTask false (reads t) (writes t) (tail (todo t))
  | ReadState => mkTask (has_node t) true (writes t) (tail (todo t))
  | DropRead => mkTask (has_node t) false (writes t) (tail (todo t))
  | WriteState => mkTask (has_node t) (reads t) true (tail (todo t))
  | DropWrite => mkTask (has_node t) (reads t) false (tail (todo t))
  end.

(** One task goes on. *)
Inductive step (fair : bool) : list Task -> list Task -> Prop :=
  | step_task ts i t a rest : ts !! i = Some t -> todo t = a :: rest -> enabled fair ts a = true -> step fair ts (<[i := access a t]> ts).
Inductive run (fair : bool) : nat -> list Task -> list Task -> Prop :=
  | run_start ts : run fair 0 ts ts
  | run_step n ts ts' ts'' : run fair n ts ts' -> step fair ts' ts'' -> run fair (S n) ts ts''.

Definition finished (t : Task) : Prop := todo t = [].
Definition work (ts : list Task) : nat := sum_list_with (fun t => length (todo t)) ts.

(** ** The operations of the client *)

Inductive Authorizing := NotAllowed | NotAdmin | Authorizes.
Inductive Operation :=
  | NodeVerifiedEvent (asks_policy : bool)
  | HandshakeEvent (outcome : Authorizing)
  | OtherEvent
  | AuthorOperation
  | LeaveOperation
  | BlobOperation
  | StateOperation
  | RefreshOperation
  | StartOperation.

Definition author_node : list Access := [LockNode; UnlockNode].
Definition apply_node_to_state : list Access := [WriteState; DropWrite].
Definition orchestrate_actions (asks_policy : bool) : list Access := LockNode :: (if asks_policy then [ReadState; DropRead] else []) ++ [UnlockNode].
Definition check_auto_authorize (outcome : Authorizing) : list Access :=
  [LockNode; UnlockNode] ++
  match outcome with
  | NotAllowed => []
  | NotAdmin => [ReadState; DropRead]
  | Authorizes => ReadState :: author_node ++ [DropRead]
  end.
Definition refresh_state : list Access := [LockNode; WriteState; DropWrite; UnlockNode].

Definition accesses (o : Operation) : list Access :=
  match o with
  | NodeVerifiedEvent asks_policy => apply_node_to_state ++ orchestrate_actions asks_policy
  | HandshakeEvent outcome => check_auto_authorize outcome
  | OtherEvent => []
  | AuthorOperation => author_node
  | LeaveOperation | BlobOperation => [LockNode; UnlockNode] ++ author_node
  | StateOperation => [ReadState; DropRead]
  | RefreshOperation => refresh_state
  | StartOperation => [LockNode; UnlockNode] ++ refresh_state
  end.

(** A task does some operations in a row: the loop over the events is one. *)
Definition task_of (os : list Operation) : Task := mkTask false false false (flat_map accesses os).
Definition authorizes (o : Operation) : bool := match o with HandshakeEvent Authorizes => true | _ => false end.

(** ** Order *)

(** The node is taken with nothing held, the state with nothing of the state held. *)
Fixpoint ordered (node reading writing : bool) (l : list Access) : bool :=
  match l with
  | [] => negb node && negb reading && negb writing
  | LockNode :: l => negb node && negb reading && negb writing && ordered true false false l
  | UnlockNode :: l => node && ordered false reading writing l
  | ReadState :: l => negb reading && negb writing && ordered node true false l
  | DropRead :: l => reading && ordered node false writing l
  | WriteState :: l => negb reading && negb writing && ordered node false true l
  | DropWrite :: l => writing && ordered node reading false l
  end.
Definition task_ordered (t : Task) : Prop := ordered (has_node t) (reads t) (writes t) (todo t) = true.

Lemma ordered_app l : forall node reading writing k, ordered node reading writing l = true -> ordered false false false k = true -> ordered node reading writing (l ++ k) = true.
Proof.
  induction l as [|a l IH]; intros node reading writing k Hl Hk; [by destruct node, reading, writing|].
  by destruct a, node, reading, writing; simpl in *; auto.
Qed.

Lemma operation_ordered o : authorizes o = false -> ordered false false false (accesses o) = true.
Proof. destruct o as [[]|[]| | | | | | |]; done. Qed.
Lemma task_of_ordered os : forallb (fun o => negb (authorizes o)) os = true -> task_ordered (task_of os).
Proof.
  unfold task_ordered, task_of. simpl. induction os as [|o os IH]; intros Ha; [done|]. simpl in *. apply andb_true_iff in Ha as [Ho Ha]. apply negb_true_iff in Ho.
  apply ordered_app; [by apply operation_ordered|by apply IH].
Qed.

Lemma access_ordered t a rest : task_ordered t -> todo t = a :: rest -> task_ordered (access a t).
Proof.
  unfold task_ordered. intros Ht E. rewrite E in Ht. destruct t as [n r w l]. simpl in *. subst l. destruct a, n, r, w; simpl in *; done.
Qed.

(** ** Progress *)

Lemma can_step fair ts i t a rest : ts !! i = Some t -> todo t = a :: rest -> enabled fair ts a = true -> exists ts', step fair ts ts'.
Proof. intros Hi Ht Ha. eexists. by eapply step_task. Qed.

Lemma none_of {A} (p : A -> bool) l : ~ (exists i x, l !! i = Some x /\ p x = true) -> existsb p l = false.
Proof.
  intros Hn. apply not_true_iff_false. intros (x & Hx & Hp)%existsb_exists. apply list_elem_of_In, list_elem_of_lookup in Hx as [i Hi]. apply Hn. eauto.
Qed.

Lemma holder_dec {A} (p : A -> bool) (l : list A) : (exists i x, l !! i = Some x /\ p x = true) \/ existsb p l = false.
Proof.
  destruct (existsb p l) eqn:E; [left|by right]. apply existsb_exists in E as (x & Hx & Hp). apply list_elem_of_In, list_elem_of_lookup in Hx as [i Hi]. eauto.
Qed.

Lemma progress fair ts : Forall task_ordered ts -> Forall finished ts \/ exists ts', step fair ts ts'.
Proof.
  intros Ho. rewrite Forall_lookup in Ho.
  (* whoever holds the state goes on *)
  destruct (holder_dec (fun t => reads t || writes t) ts) as [(i & t & Hi & Hh)|Hstate].
  { right. specialize (Ho i t Hi). unfold task_ordered in Ho. destruct (todo t) as [|a rest] eqn:Et; [by destruct (has_node t), (reads t), (writes t)|].
    eapply can_step; [exact Hi|exact Et|]. destruct a, (has_node t), (reads t), (writes t); simpl in *; done. }
  (* nobody does: a writer goes on *)
  destruct (holder_dec wants_write ts) as [(i & t & Hi & Hw)|Hwrite].
  { right. unfold wants_write in Hw. destruct (todo t) as [|[] rest] eqn:Et; try done. eapply can_step; [exact Hi|exact Et|]. simpl. by rewrite Hstate. }
  assert (existsb writes ts = false) as Hwr.
  { apply not_true_iff_false. intros (x & Hx & Hp)%existsb_exists. apply not_true_iff_false in Hstate. apply Hstate. apply existsb_exists. exists x. by rewrite Hp, orb_true_r. }
  assert (forall i t a rest, ts !! i = Some t -> todo t = a :: rest -> (a = LockNode -> existsb has_node ts = false) -> exists ts', step fair ts ts') as Hgo.
  { intros i t a rest Hi Et Hn. eapply can_step; [exact Hi|exact Et|]. destruct a; simpl; rewrite ?Hwr, ?Hwrite, ?Hstate; try done; [by rewrite Hn|by destruct fair]. }
  (* or who holds the node, or anybody *)
  destruct (holder_dec has_node ts) as [(i & t & Hi & Hn)|Hnode].
  - right. specialize (Ho i t Hi). unfold task_ordered in Ho. rewrite Hn in Ho. destruct (todo t) as [|a rest] eqn:Et; [done|]. apply (Hgo i t a rest Hi Et). by intros ->.
  - destruct (holder_dec (fun t => negb (bool_decide (todo t = []))) ts) as [(i & t & Hi & Ht%negb_true_iff%bool_decide_eq_false)|Hdone].
    + right. destruct (todo t) as [|a rest] eqn:Et; [done|]. by apply (Hgo i t a rest Hi Et).
    + left. apply Forall_forall. intros t Ht. destruct (decide (todo t = [])) as [|Hne]; [done|]. apply not_true_iff_false in Hdone. destruct Hdone. apply existsb_exists.
      exists t. split; [by apply list_elem_of_In|]. by rewrite bool_decide_false.
Qed.

Lemma work_insert ts : forall i t t', ts !! i = Some t -> length (todo t) = S (length (todo t')) -> work ts = S (work (<[i := t']> ts)).
Proof.
  unfold work. induction ts as [|x ts IH]; intros i t t' Hi Hl; [done|]. destruct i as [|i]; simpl in *; [injection Hi as ->; lia|]. rewrite (IH i t t') by done. lia.
Qed.

Lemma step_ordered fair ts ts' : step fair ts ts' -> Forall task_ordered ts -> Forall task_ordered ts' /\ work ts = S (work ts').
Proof.
  intros [ts0 i t a rest Hi Ht Ha] Ho. split.
  - apply Forall_insert; [done|]. eapply access_ordered; [|exact Ht]. by eapply Forall_lookup_1.
  - eapply work_insert; [exact Hi|]. rewrite Ht. destruct a; simpl; by rewrite Ht.
Qed.

Lemma run_ordered fair n ts ts' : run fair n ts ts' -> Forall task_ordered ts -> Forall task_ordered ts' /\ work ts = (n + work ts')%nat.
Proof.
  induction 1 as [ts|n ts ts1 ts2 _ IH Hs]; intros Ho; [done|]. destruct (IH Ho) as [Ho1 Hw]. destruct (step_ordered _ _ _ Hs Ho1) as [Ho2 Hw2]. split; [done|]. lia.
Qed.

(** C26: Whatever operations of a client run at once, each task some in a row: if the
    client authorizes no device by itself, then at any time some task can go on unless
    all are finished, and each takes no more steps than there are accesses to locks, so
    that all operations complete however they are scheduled. *)
Theorem operations_complete fair tasks n ts : (forall os o, os ∈ tasks -> o ∈ os -> authorizes o = false) -> run fair n (task_of <$> tasks) ts ->
  (Forall finished ts \/ exists ts', step fair ts ts') /\ (n + work ts = work (task_of <$> tasks))%nat.
Proof.
  intros Ha Hr. apply run_ordered in Hr as [Ho Hw].
  - split; [by apply progress|done].
  - apply Forall_forall. intros t (os & -> & Hos)%list_elem_of_fmap. apply task_of_ordered, forallb_forall. intros o Ho%list_elem_of_In. by rewrite (Ha os o).
Qed.

Lemma operations_complete_witness : exists ts, run true 1 (task_of <$> [[NodeVerifiedEvent true; HandshakeEvent NotAdmin]; [RefreshOperation]]) ts /\
  exists ts', step true ts ts'.
Proof.
  set (tasks := [[NodeVerifiedEvent true; HandshakeEvent NotAdmin]; [RefreshOperation]]).
  assert (run true 1 (task_of <$> tasks) (<[1%nat := access LockNode (task_of [RefreshOperation])]> (task_of <$> tasks))) as Hr.
  { eapply run_step; [apply run_start|]. by eapply step_task. }
  eexists. split; [exact Hr|].
  assert (forall os o, os ∈ tasks -> o ∈ os -> authorizes o = false) as Ha.
  { intros os o [->|[->|[]%not_elem_of_nil]%elem_of_cons]%elem_of_cons; [intros [->|[->|[]%not_elem_of_nil]%elem_of_cons]%elem_of_cons|intros [->|[]%not_elem_of_nil]%elem_of_cons]; done. }
  destruct (operations_complete true tasks 1 _ Ha Hr) as [[Hf|Hs] _]; [|exact Hs]. by apply Forall_inv in Hf.
Defined.

(** ** A deadlock *)

(** Nothing is finished and nobody can go on. *)
Definition stuck (fair : bool) (ts : list Task) : Prop := Forall (fun t => todo t <> []) ts /\ forall ts', ~ step fair ts ts'.

Lemma run_more fair n ts ts' ts'' i t a rest : run fair n ts ts' -> ts' !! i = Some t -> todo t = a :: rest -> enabled fair ts' a = true -> ts'' = <[i := access a t]> ts' ->
  run fair (S n) ts ts''.
Proof. intros Hr Hi Ht Ha ->. eapply run_step; [exact Hr|]. by eapply step_task. Qed.

(** The client authorizes a device and holds the state while it waits for the node; the
    rebuild holds the node while it waits for the state. *)
Definition authorizing : Task := mkTask false true false [LockNode; UnlockNode; DropRead].
Definition rebuilding : Task := mkTask true false false [WriteState; DropWrite; UnlockNode].
Lemma authorizing_may_deadlock fair : run fair 4 (task_of <$> [[HandshakeEvent Authorizes]; [RefreshOperation]]) [authorizing; rebuilding] /\ stuck fair [authorizing; rebuilding].
Proof.
  split.
  - refine (run_more fair 3 _ [authorizing; task_of [RefreshOperation]] _ 1 (task_of [RefreshOperation]) LockNode _ _ eq_refl eq_refl eq_refl eq_refl).
    refine (run_more fair 2 _ [mkTask false false false [ReadState; LockNode; UnlockNode; DropRead]; task_of [RefreshOperation]] _ 0 _ ReadState _ _ eq_refl eq_refl _ eq_refl);
      [|by destruct fair].
    refine (run_more fair 1 _ [mkTask true false false [UnlockNode; ReadState; LockNode; UnlockNode; DropRead]; task_of [RefreshOperation]] _ 0 _ UnlockNode _ _ eq_refl eq_refl eq_refl eq_refl).
    refine (run_more fair 0 _ (task_of <$> [[HandshakeEvent Authorizes]; [RefreshOperation]]) _ 0 _ LockNode _ (run_start _ _) eq_refl eq_refl eq_refl eq_refl).
  - split; [by repeat constructor|]. intros ts' Hs. inversion Hs as [ts i t a rest Hi Ht Ha]; subst. destruct i as [|[|i]]; [| |done]; injection Hi as <-; injection Ht as <- <-; done.
Qed.

End ClientLocks.
