(* ===== verification/Files.v ===== *)
(** The file systems of [merkle-tox-core/src/vfs.rs]: the traits [FileSystem] and
    [FileHandle], the file system in memory and the one that injects faults.
    [StdFileSystem] calls the operating system and is not modelled.

    A path is the list of its components.  A handle is a value; what it does to the
    file system is a change of the state of the latter, and [close] is its [Drop].
    The times of files are readings of the clock of the file system.

    [FilesTheory] states what the traits promise of a handle as laws; the file system in
    memory keeps them, and so does a device whose writes fail or stop half way when
    told to. *)

From S2P Require Import Prelude Protocol MsgPack Merkle Monad Congestion.
From stdpp Require Import gmap sorting strings.
From Stdlib Require Import Ascii.
#[local] Open Scope Z_scope.
#[local] Open Scope list_scope.
#[local] Open Scope monad_scope.

Module Files.

Definition Path : Type := list string.
#[export] Instance Path_eq_dec : EqDecision Path := list_eq_dec.
#[export] Instance Path_countable : Countable Path := list_countable.

(** ** Paths *)

Definition join (p : Path) (name : string) : Path := p ++ [name].
Definition parent (p : Path) : option Path := match reverse p with [] => None | _ :: l => Some (reverse l) end.
Definition file_name (p : Path) : option string := last p.

(** Splits at the last dot. *)
Fixpoint rsplit_dot (s : string) : option (string * string) :=
  match s with
  | EmptyString => None
  | String c s =>
      match rsplit_dot s with
      | Some (a, b) => Some (String c a, b)
      | None => if Ascii.eqb c "."%char then Some (EmptyString, s) else None
      end
  end.
Definition split_name (s : string) : string * option string :=
  match rsplit_dot s with Some (String c a, b) => (String c a, Some b) | _ => (s, None) end.
Definition file_stem (p : Path) : option string := (fun n => (split_name n).1) <$> file_name p.
Definition extension (p : Path) : option string := file_name p ≫= fun n => (split_name n).2.
Definition set_extension (ext : string) (p : Path) : Path :=
  match file_name p with
  | Some n => default [] (parent p) ++ [(split_name n).1 +:+ "." +:+ ext]
  | None => p
  end.

(** The order of paths: by components, these by their bytes. *)
Fixpoint path_compare (a b : Path) : comparison :=
  match a, b with
  | [], [] => Eq
  | [], _ :: _ => Lt
  | _ :: _, [] => Gt
  | x :: a, y :: b => match String.compare x y with Eq => path_compare a b | c => c end
  end.
Definition path_le (a b : Path) : Prop := path_compare a b <> Gt.
#[export] Instance path_le_dec : RelDecision path_le := fun a b => decide (path_compare a b <> Gt).

(** ** The traits *)

(** The kinds of [io::Error] that the sources tell apart or make. *)
Inductive IoError := NotFound | UnexpectedEof | InvalidData | InvalidInput | StorageFull | WriteZero | OtherIo.
#[export] Instance IoError_eq_dec : EqDecision IoError.
Proof. solve_decision. Defined.

Definition Io (W A : Type) : Type := Monad.M W (result IoError A).

Record FileMetadata := mkMetadata { file_len : Z; is_dir : bool; modified : Z }.
Inductive SeekFrom := Start (n : Z) | End (n : Z) | Current (n : Z).

Class FileSystem (F : Type) := {
  Handle : Type;
  read : Path -> Io F bytes;
  write : Path -> bytes -> Io F unit;
  rename : Path -> Path -> Io F unit;
  remove_file : Path -> Io F unit;
  remove_dir : Path -> Io F unit;
  create_dir_all : Path -> Io F unit;
  read_dir : Path -> Io F (list Path);
  metadata : Path -> Io F FileMetadata;
  exists_ : Path -> F -> bool;
  open : Path -> bool -> bool -> bool -> Io F Handle;
  close : Handle -> Monad.M F unit;
  (** The methods of a handle; [read_some] fills a buffer of the given size. *)
  read_some : Z -> Io (F * Handle) bytes;
  write_some : bytes -> Io (F * Handle) Z;
  seek : SeekFrom -> Io (F * Handle) Z;
  set_len : Z -> Io (F * Handle) unit;
  handle_metadata : F * Handle -> FileMetadata;
  try_lock_exclusive : Io (F * Handle) unit;
  try_lock_shared : Io (F * Handle) unit
}.

(** A computation on a part of the state. *)
Definition zoom {W V A} (get : W -> V) (put : V -> W -> W) (m : Monad.M V A) : Monad.M W A :=
  fun w => match m (get w) with Some (v, a) => Some (put v w, a) | None => None end.

(** The default methods of [Read], [Write] and [Seek] that the sources use.  A round
    of [read_exact] or [write_all] moves at least one byte, or ends. *)
Section Defaults.
Context {F : Type} `{FileSystem F}.

Fixpoint read_loop (fuel : nat) (n : Z) : Io (F * Handle) bytes :=
  if n <=? 0 then good [] else
  match fuel with
  | O => fails UnexpectedEof
  | S fuel =>
      let*? b := read_some n in
      if bool_decide (b = []) then fails UnexpectedEof
      else let*? rest := read_loop fuel (n - len b) in good (b ++ rest)
  end.
Definition read_exact (n : Z) : Io (F * Handle) bytes := fun w => read_loop (S (Z.to_nat (Z.min n (file_len (handle_metadata w))))) n w.

Fixpoint write_loop (fuel : nat) (b : bytes) : Io (F * Handle) unit :=
  if bool_decide (b = []) then good tt else
  match fuel with
  | O => fails WriteZero
  | S fuel =>
      let*? k := write_some b in
      if k =? 0 then fails WriteZero else write_loop fuel (drop (Z.to_nat k) b)
  end.
Definition write_all (b : bytes) : Io (F * Handle) unit := write_loop (length b) b.

Definition stream_position : Io (F * Handle) Z := seek (Current 0).

(** [let mut handle = fs.open(...)?; ...]: the handle is dropped at the end of the
    scope, also when this returns early. *)
Definition scoped {A} (h : Handle) (m : Io (F * Handle) A) : Io F A :=
  fun f => match m (f, h) with Some ((f, h), r) => (close h ;* pure r) f | None => None end.

(** [while let Ok(rest) = ...]: the result as a value. *)
Definition attempt {W A} (m : Io W A) : Monad.M W (option A) :=
  let* r := m in pure (match r with Ok a => Some a | Err _ => None end).

End Defaults.

(** ** [MemFileSystem] *)

Record MemFileSystem := mkMem { files : gmap Path (bytes * Z); dirs : gmap Path Z; now : Z }.
#[export] Instance eta_MemFileSystem : Settable MemFileSystem := fun m => mkMem (files m) (dirs m) (now m).
Definition new_mem (now : Z) : MemFileSystem := mkMem ∅ ∅ now.

(** [MemFileHandle]: it has the bytes of the file for itself. *)
Record MemFileHandle := mkHandle { data : bytes; pos : Z; path : Path; handle_modified : Z; writable : bool }.
#[export] Instance eta_MemFileHandle : Settable MemFileHandle := fun h => mkHandle (data h) (pos h) (path h) (handle_modified h) (writable h).

Module Mem.

Abbreviation Fs := MemFileSystem (only parsing).

Definition insert_file (p : Path) (d : bytes) (t : Z) (m : Fs) : Fs := m <| files := <[p := (d, t)]> (files m) |>.

Definition read (p : Path) : Io Fs bytes := fun m => Some (m, match files m !! p with Some (d, _) => Ok d | None => Err NotFound end).
Definition write (p : Path) (contents : bytes) : Io Fs unit := fun m => Some (insert_file p contents (now m) m, Ok tt).
Definition rename (from to : Path) : Io Fs unit := fun m =>
  match files m !! from with
  | Some (d, _) => Some (insert_file to d (now m) (m <| files := delete from (files m) |>), Ok tt)
  | None => Some (m, Err NotFound)
  end.
Definition remove_file (p : Path) : Io Fs unit := fun m =>
  match files m !! p with Some _ => Some (m <| files := delete p (files m) |>, Ok tt) | None => Some (m, Err NotFound) end.

Definition is_empty_dir (p : Path) (m : Fs) : bool :=
  bool_decide (Forall (fun q => ~ p `prefix_of` q) (fst <$> map_to_list (files m))) &&
  bool_decide (Forall (fun q => p `prefix_of` q -> q = p) (fst <$> map_to_list (dirs m))).
Definition remove_dir (p : Path) : Io Fs unit := fun m =>
  if is_empty_dir p m then
    match dirs m !! p with Some _ => Some (m <| dirs := delete p (dirs m) |>, Ok tt) | None => Some (m, Err NotFound) end
  else Some (m, Err OtherIo).

Definition add_dir (t : Z) (ds : gmap Path Z) (p : Path) : gmap Path Z := match ds !! p with Some _ => ds | None => <[p := t]> ds end.
Definition create_dir_all (p : Path) : Io Fs unit := fun m =>
  Some (m <| dirs := foldl (add_dir (now m)) (dirs m) ((fun k => take (S k) p) <$> seq 0 (length p)) |>, Ok tt).

(** Keys of a [BTreeMap] come in order. *)
Definition sorted_keys {A} (m : gmap Path A) : list Path := merge_sort path_le (fst <$> map_to_list m).
Definition read_dir (p : Path) : Io Fs (list Path) := fun m =>
  Some (m, Ok (filter (fun q => parent q = Some p) (sorted_keys (files m) ++ sorted_keys (dirs m)))).
Definition metadata (p : Path) : Io Fs FileMetadata := fun m =>
  Some (m, match files m !! p, dirs m !! p with
    | Some (d, t), _ => Ok (mkMetadata (len d) false t)
    | None, Some t => Ok (mkMetadata 0 true t)
    | None, None => Err NotFound
    end).
Definition exists_ (p : Path) (m : Fs) : bool := bool_decide (is_Some (files m !! p) \/ is_Some (dirs m !! p)).

Definition open (p : Path) (write create truncate : bool) : Io Fs MemFileHandle := fun m =>
  if truncate then Some (insert_file p [] (now m) m, Ok (mkHandle [] 0 p (now m) write))
  else match files m !! p with
  | Some (d, t) => Some (m, Ok (mkHandle d 0 p t write))
  | None => if create then Some (insert_file p [] (now m) m, Ok (mkHandle [] 0 p (now m) write)) else Some (m, Err NotFound)
  end.

(** [flush], which [drop] calls. *)
Definition flush (h : MemFileHandle) (m : Fs) : Fs := if writable h then insert_file (path h) (data h) (handle_modified h) m else m.
Definition close (h : MemFileHandle) : Monad.M Fs unit := fun m => Some (flush h m, tt).

(** [Cursor] over a vector. *)
Definition zeros (n : Z) : bytes := replicate (Z.to_nat n) 0.
Definition read_at (d : bytes) (p n : Z) : bytes := take (Z.to_nat n) (drop (Z.to_nat p) d).
Definition write_at (d : bytes) (p : Z) (b : bytes) : bytes :=
  take (Z.to_nat p) (d ++ zeros (p - len d)) ++ b ++ drop (Z.to_nat (p + len b)) d.
Definition resize (d : bytes) (n : Z) : bytes := take (Z.to_nat n) d ++ zeros (n - len d).

Definition read_some (n : Z) : Io (Fs * MemFileHandle) bytes := fun '(m, h) =>
  let size := len (data h) in
  let b := read_at (data h) (Z.min (pos h) size) (Z.min n size) in Some ((m, h <| pos := pos h + len b |>), Ok b).
Definition write_some (b : bytes) : Io (Fs * MemFileHandle) Z := fun '(m, h) =>
  Some ((m, h <| data := write_at (data h) (pos h) b |> <| pos := pos h + len b |> <| handle_modified := now m |>), Ok (len b)).
Definition seek (s : SeekFrom) : Io (Fs * MemFileHandle) Z := fun '(m, h) =>
  let target := match s with Start n => n | End n => len (data h) + n | Current n => pos h + n end in
  if (0 <=? target) && (target <=? u64_max) then Some ((m, h <| pos := target |>), Ok target) else Some ((m, h), Err InvalidInput).
Definition set_len (n : Z) : Io (Fs * MemFileHandle) unit := fun '(m, h) =>
  Some ((m, h <| data := resize (data h) n |> <| handle_modified := now m |>), Ok tt).
Definition handle_metadata (w : Fs * MemFileHandle) : FileMetadata := mkMetadata (len (data w.2)) false (handle_modified w.2).

#[global] Instance fs : FileSystem MemFileSystem := {|
  Files.Handle := MemFileHandle; Files.read := read; Files.write := write; Files.rename := rename; Files.remove_file := remove_file;
  Files.remove_dir := remove_dir; Files.create_dir_all := create_dir_all; Files.read_dir := read_dir; Files.metadata := metadata;
  Files.exists_ := exists_; Files.open := open; Files.close := close; Files.read_some := read_some; Files.write_some := write_some;
  Files.seek := seek; Files.set_len := set_len; Files.handle_metadata := handle_metadata;
  Files.try_lock_exclusive := good tt; Files.try_lock_shared := good tt |}.

End Mem.

(** ** [FaultInjectingFileSystem]

    Its counters are shared with its handles. *)

Record FaultInjectingFileSystem (F Rng : Type) := mkFaulty { inner : F; fail_probability : Z; enospc_at : Z; total_written : Z; thread_rng : Rng }.
Arguments mkFaulty {F Rng} _ _ _ _ _.
Arguments inner {F Rng} _.
Arguments fail_probability {F Rng} _.
Arguments enospc_at {F Rng} _.
Arguments total_written {F Rng} _.
Arguments thread_rng {F Rng} _.

Module Faulty.
Section Faulty.
Context {F Rng : Type} `{FileSystem F} `{RandSource Rng}.
Abbreviation Fs := (FaultInjectingFileSystem F Rng) (only parsing).

#[export] Instance eta_Faulty : Settable Fs := fun s => mkFaulty (inner s) (fail_probability s) (enospc_at s) (total_written s) (thread_rng s).

Definition new (f : F) (rng : Rng) : Fs := mkFaulty f 0 u64_max 0 rng.
(** The probability comes scaled by [10^6], as it is kept. *)
Definition set_fail_probability (scaled : Z) (s : Fs) : Fs := s <| fail_probability := scaled |>.
Definition set_enospc_at (limit : Z) (s : Fs) : Fs := s <| enospc_at := limit |>.

Definition should_fail : Monad.M Fs bool := fun s =>
  if fail_probability s =? 0 then Some (s, false)
  else let (x, rng) := gen_range (thread_rng s) 0 1000000 in Some (s <| thread_rng := rng |>, x <? fail_probability s).

Definition check_write (n : Z) : Io Fs unit :=
  let* failed := should_fail in
  if failed then fails OtherIo else
  let* before := gets total_written in
  modify (fun s => s <| total_written := wrap 64 (before + n) |>) ;*
  let* total := lift (chk_u64 (before + n)) in
  let* limit := gets enospc_at in
  if total >? limit then fails StorageFull else good tt.

(** The calls of the wrapped file system. *)
Definition inside {A} (m : Monad.M F A) : Monad.M Fs A := zoom inner (fun f s => s <| inner := f |>) m.
Definition inside_handle {A} (m : Monad.M (F * Handle) A) : Monad.M (Fs * Handle) A :=
  zoom (fun w : Fs * Handle => (inner w.1, w.2)) (fun v w => (w.1 <| inner := v.1 |>, v.2)) m.
Definition on_fs {A} (m : Monad.M Fs A) : Monad.M (Fs * Handle) A := zoom fst (fun s w => (s, w.2)) m.

Definition read (p : Path) : Io Fs bytes := let* failed := should_fail in if failed then fails OtherIo else inside (Files.read p).
Definition write (p : Path) (contents : bytes) : Io Fs unit := check_write (len contents) ;*? inside (Files.write p contents).
Definition rename (from to : Path) : Io Fs unit := let* failed := should_fail in if failed then fails OtherIo else inside (Files.rename from to).

Definition write_some (b : bytes) : Io (Fs * Handle) Z := on_fs (check_write (len b)) ;*? inside_handle (Files.write_some b).
Definition set_len (n : Z) : Io (Fs * Handle) unit := on_fs (check_write n) ;*? inside_handle (Files.set_len n).

#[export] Instance fs : FileSystem Fs := {|
  Files.Handle := Handle; Files.read := read; Files.write := write; Files.rename := rename;
  Files.remove_file := fun p => inside (Files.remove_file p); Files.remove_dir := fun p => inside (Files.remove_dir p);
  Files.create_dir_all := fun p => inside (Files.create_dir_all p); Files.read_dir := fun p => inside (Files.read_dir p);
  Files.metadata := fun p => inside (Files.metadata p); Files.exists_ := fun p s => Files.exists_ p (inner s);
  Files.open := fun p w c t => inside (Files.open p w c t); Files.close := fun h => inside (Files.close h);
  Files.read_some := fun n => inside_handle (Files.read_some n); Files.write_some := write_some;
  Files.seek := fun s => inside_handle (Files.seek s); Files.set_len := set_len;
  Files.handle_metadata := fun w => Files.handle_metadata (inner w.1, w.2);
  Files.try_lock_exclusive := inside_handle Files.try_lock_exclusive; Files.try_lock_shared := inside_handle Files.try_lock_shared |}.

End Faulty.
End Faulty.

End Files.

(** * What handles promise *)

Module FilesTheory.
Import Files.

(** [holds w d p]: the file of the handle has the bytes [d], the cursor is at [p].
    Reading gives a part of what there is, and something unless the end is reached;
    writing writes a part, or fails and writes nothing. *)
Class FileLaws (F : Type) `{FileSystem F} := {
  holds : F * Handle -> bytes -> Z -> Prop;
  holds_range w d p : holds w d p -> 0 <= p <= u64_max /\ len d <= u64_max;
  read_some_law w d p n : holds w d p -> 0 < n -> exists w' b, read_some n w = Some (w', Ok b) /\
    holds w' d (p + len b) /\ b `prefix_of` Mem.read_at d p n /\ (b = [] -> Mem.read_at d p n = []);
  write_some_law w d p b : holds w d p -> b <> [] -> p + len b <= u64_max -> exists w' r, write_some b w = Some (w', r) /\
    match r with Ok k => 0 < k <= len b /\ holds w' (Mem.write_at d p (take (Z.to_nat k) b)) (p + k) | Err _ => holds w' d p end;
  seek_law w d p s n : holds w d p -> n = match s with Start n => n | End n => len d + n | Current n => p + n end -> 0 <= n <= u64_max ->
    exists w', seek s w = Some (w', Ok n) /\ holds w' d n;
  set_len_law w d p n : holds w d p -> 0 <= n <= u64_max -> exists w' r, set_len n w = Some (w', r) /\
    match r with Ok _ => holds w' (Mem.resize d n) p | Err _ => holds w' d p end;
  metadata_law w d p : holds w d p -> file_len (handle_metadata w) = len d
}.

(** ** Bytes of files *)

Lemma zeros_nonpos n : n <= 0 -> Mem.zeros n = [].
Proof. intros Hn. unfold Mem.zeros. by replace (Z.to_nat n) with O by lia. Qed.

Lemma len_zeros n : 0 <= n -> len (Mem.zeros n) = n.
Proof. intros Hn. unfold len, Mem.zeros. rewrite length_replicate. lia. Qed.

Lemma len_take {A} n (l : list A) : 0 <= n -> len (take (Z.to_nat n) l) = Z.min n (len l).
Proof. intros Hn. unfold len. rewrite length_take. lia. Qed.

Lemma len_drop {A} n (l : list A) : 0 <= n -> len (drop (Z.to_nat n) l) = Z.max 0 (len l - n).
Proof. intros Hn. unfold len. rewrite length_drop. lia. Qed.

Lemma take_len {A} (l : list A) : take (Z.to_nat (len l)) l = l.
Proof. apply take_ge. unfold len. lia. Qed.

Lemma read_at_app a b c : Mem.read_at (a ++ b ++ c) (len a) (len b) = b.
Proof. unfold Mem.read_at, len. by rewrite !Nat2Z.id, drop_app_length, take_app_length. Qed.

Lemma read_at_nil d p n : len d <= p -> Mem.read_at d p n = [].
Proof. intros Hp. unfold Mem.read_at. rewrite drop_ge by (unfold len in Hp; lia). apply take_nil. Qed.

Lemma len_read_at d p n : 0 <= p -> 0 <= n -> len (Mem.read_at d p n) = Z.max 0 (Z.min n (len d - p)).
Proof. intros Hp Hn. unfold Mem.read_at. rewrite len_take, len_drop by done. lia. Qed.

Lemma read_at_clip d p n : 0 <= p -> Mem.read_at d (Z.min p (len d)) (Z.min n (len d)) = Mem.read_at d p n.
Proof.
  intros Hp. unfold Mem.read_at. replace (drop (Z.to_nat (Z.min p (len d))) d) with (drop (Z.to_nat p) d).
  - destruct (Z.min_spec n (len d)) as [[_ ->]|[Hn ->]]; [done|]. rewrite !take_ge; [done| |]; rewrite length_drop; unfold len in *; lia.
  - destruct (Z.min_spec p (len d)) as [[_ ->]|[Hl ->]]; [done|]. rewrite !drop_ge; [done| |]; unfold len in *; lia.
Qed.

Lemma read_at_step d p n k : 0 <= p -> 0 <= k <= n -> k <= len (Mem.read_at d p n) ->
  take (Z.to_nat k) (Mem.read_at d p n) ++ Mem.read_at d (p + k) (n - k) = Mem.read_at d p n.
Proof.
  intros Hp Hk Hl. unfold Mem.read_at. rewrite take_take. replace (Z.to_nat k `min` Z.to_nat n)%nat with (Z.to_nat k) by lia.
  replace (Z.to_nat (p + k)) with (Z.to_nat p + Z.to_nat k)%nat by lia. rewrite <- drop_drop.
  replace (Z.to_nat (n - k)) with (Z.to_nat n - Z.to_nat k)%nat by lia.
  rewrite <- (take_drop (Z.to_nat k) (take (Z.to_nat n) (drop (Z.to_nat p) d))). rewrite take_take.
  replace (Z.to_nat k `min` Z.to_nat n)%nat with (Z.to_nat k) by lia. f_equal. by rewrite skipn_firstn_comm.
Qed.

Lemma write_at_end d b : Mem.write_at d (len d) b = d ++ b.
Proof.
  unfold Mem.write_at. rewrite zeros_nonpos, app_nil_r by lia. rewrite take_len. rewrite drop_ge by (unfold len; lia). by rewrite app_nil_r.
Qed.

Lemma write_at_inside a b c d : len b = len c -> Mem.write_at (a ++ b ++ d) (len a) c = a ++ c ++ d.
Proof.
  intros Hl. unfold Mem.write_at. rewrite zeros_nonpos, app_nil_r by (rewrite !len_app; pose proof (len_nonneg b); pose proof (len_nonneg d); lia).
  unfold len in *. rewrite Nat2Z.id, take_app_length. do 2 f_equal. rewrite <- Hl.
  replace (Z.to_nat (Z.of_nat (length a) + Z.of_nat (length b))) with (length (a ++ b)) by (rewrite length_app; lia).
  by rewrite app_assoc, drop_app_length.
Qed.

Lemma write_at_nil d p : 0 <= p <= len d -> Mem.write_at d p [] = d.
Proof.
  intros Hp. unfold Mem.write_at. rewrite zeros_nonpos, app_nil_r by lia. change (len []) with 0. rewrite Z.add_0_r. apply take_drop.
Qed.

Lemma len_write_at d p b : 0 <= p -> len (Mem.write_at d p b) = Z.max (len d) (p + len b).
Proof.
  intros Hp. unfold Mem.write_at. pose proof (len_nonneg b). rewrite !len_app, len_take, len_app, len_drop by lia.
  destruct (Z_le_gt_dec (p - len d) 0); [rewrite zeros_nonpos by lia; change (len []) with 0|rewrite len_zeros by lia]; lia.
Qed.

(** A later write goes on where the first ended. *)
Lemma write_at_app d p a b : 0 <= p -> Mem.write_at (Mem.write_at d p a) (p + len a) b = Mem.write_at d p (a ++ b).
Proof.
  intros Hp. pose proof (len_nonneg a) as Ha. unfold Mem.write_at at 1 3. set (base := d ++ Mem.zeros (p - len d)).
  assert (len (take (Z.to_nat p) base) = p) as Hb.
  { rewrite len_take by done. unfold base. rewrite len_app. pose proof (len_nonneg d).
    destruct (Z_le_gt_dec (p - len d) 0); [rewrite zeros_nonpos by lia; change (len []) with 0|rewrite len_zeros by lia]; lia. }
  rewrite zeros_nonpos, app_nil_r by (rewrite len_write_at by done; lia).
  unfold Mem.write_at. fold base. rewrite (app_assoc _ a), take_app_le by (rewrite length_app; unfold len in *; lia).
  rewrite take_ge by (rewrite length_app; unfold len in *; lia). rewrite <- !app_assoc. do 3 f_equal.
  rewrite len_app. set (t := take (Z.to_nat p) base) in *. rewrite (app_assoc t), drop_app_ge by (rewrite length_app; unfold len in *; lia). rewrite drop_drop. f_equal.
  rewrite length_app. unfold len in *. lia.
Qed.

Lemma write_at_step d p a b k : 0 <= p -> len a = k -> Mem.write_at (Mem.write_at d p a) (p + k) b = Mem.write_at d p (a ++ b).
Proof. intros Hp <-. by apply write_at_app. Qed.

Lemma resize_cut a b : Mem.resize (a ++ b) (len a) = a.
Proof.
  unfold Mem.resize. rewrite zeros_nonpos by (rewrite len_app; pose proof (len_nonneg b); lia). rewrite app_nil_r.
  unfold len. by rewrite Nat2Z.id, take_app_length.
Qed.

Lemma resize_zero d : Mem.resize d 0 = [].
Proof. unfold Mem.resize. by rewrite zeros_nonpos by (pose proof (len_nonneg d); lia). Qed.

(** ** The default methods *)

Section Defaults.
Context {F : Type} `{FileLaws F}.

Lemma read_loop_law fuel w d p n : holds w d p -> (Z.to_nat (Z.min n (len d - p)) < fuel)%nat -> exists w', holds w' d (p + len (Mem.read_at d p n)) /\
  read_loop fuel n w = Some (w', if n <=? len (Mem.read_at d p n) then Ok (Mem.read_at d p n) else Err UnexpectedEof).
Proof.
  revert w p n. induction fuel as [|fuel IH]; intros w p n Hw Hf; [lia|]. pose proof (holds_range _ _ _ Hw) as [Hp _]; cbn [read_loop].
  destruct (Z.leb_spec n 0) as [Hn|Hn].
  { exists w. unfold Mem.read_at. replace (Z.to_nat n) with O by lia. change (len (take 0 (drop (Z.to_nat p) d))) with 0.
    rewrite Z.add_0_r. destruct (Z.leb_spec n 0); [done|lia]. }
  destruct (read_some_law w d p n Hw Hn) as (w1 & b & E & Hw1 & Hb & He). unfold try, bind. rewrite E.
  case_bool_decide as Eb.
  - rewrite (He Eb). subst b. exists w1. split; [exact Hw1|]. change (len []) with 0. by destruct (Z.leb_spec n 0); [lia|].
  - assert (0 < len b) by (destruct b; [done|rewrite len_cons; pose proof (len_nonneg b); lia]).
    destruct Hb as [c Hc]. assert (len b <= len (Mem.read_at d p n)) as Hl by (rewrite Hc, len_app; pose proof (len_nonneg c); lia).
    assert (len b <= n /\ len b <= len d - p) as [Hbn Hbd] by (rewrite len_read_at in Hl by lia; lia).
    assert (take (Z.to_nat (len b)) (Mem.read_at d p n) = b) as Ht by (rewrite Hc; unfold len; by rewrite Nat2Z.id, take_app_length).
    pose proof (read_at_step d p n (len b) ltac:(lia) ltac:(lia) Hl) as Hs. rewrite Ht in Hs.
    destruct (IH w1 (p + len b) (n - len b) Hw1 ltac:(lia)) as (w2 & Hw2 & E2). rewrite E2. exists w2. rewrite <- Hs, len_app.
    split; [by rewrite Z.add_assoc|]. set (rest := Mem.read_at d (p + len b) (n - len b)).
    destruct (Z.leb_spec (n - len b) (len rest)), (Z.leb_spec n (len b + len rest)); try lia; done.
Qed.

(** [read_exact] reads the bytes at the cursor if there are as many. *)
Lemma read_exact_law w d p n : holds w d p -> exists w', holds w' d (p + len (Mem.read_at d p n)) /\
  read_exact n w = Some (w', if n <=? len (Mem.read_at d p n) then Ok (Mem.read_at d p n) else Err UnexpectedEof).
Proof.
  intros Hw. unfold read_exact. apply read_loop_law; [done|]. rewrite (metadata_law _ _ _ Hw). pose proof (holds_range _ _ _ Hw). lia.
Qed.

Lemma read_exact_here w a b c : holds w (a ++ b ++ c) (len a) -> exists w', holds w' (a ++ b ++ c) (len a + len b) /\ read_exact (len b) w = Some (w', Ok b).
Proof.
  intros Hw. destruct (read_exact_law _ _ _ (len b) Hw) as (w' & Hw' & E). rewrite read_at_app in *.
  exists w'. split; [done|]. rewrite E. by rewrite Z.leb_refl.
Qed.

Lemma read_exact_short w a b n : holds w (a ++ b) (len a) -> len b < n -> exists w' p', holds w' (a ++ b) p' /\ read_exact n w = Some (w', Err UnexpectedEof).
Proof.
  intros Hw Hn. pose proof (len_nonneg b). pose proof (len_nonneg a). destruct (read_exact_law _ _ _ n Hw) as (w' & Hw' & E).
  exists w'. eexists. split; [done|]. rewrite E. rewrite len_read_at, len_app in * by lia. by destruct (Z.leb_spec n (Z.max 0 (Z.min n (len a + len b - len a)))); [lia|].
Qed.

(** [writes m b]: [m] writes [b] at the cursor, or fails after a part of it. *)
Definition writes (m : Io (F * Handle) unit) (b : bytes) : Prop := forall w d p, holds w d p -> p <= len d -> p + len b <= u64_max ->
  exists w' r, m w = Some (w', r) /\
    match r with
    | Ok _ => holds w' (Mem.write_at d p b) (p + len b)
    | Err _ => exists k, 0 <= k < len b /\ holds w' (Mem.write_at d p (take (Z.to_nat k) b)) (p + k)
    end.

Lemma write_loop_law fuel b : (length b <= fuel)%nat -> writes (write_loop fuel b) b.
Proof.
  revert b. induction fuel as [|fuel IH]; intros b Hf w d p Hw Hp Hb; pose proof (holds_range _ _ _ Hw) as [Hp0 _]; cbn [write_loop].
  { destruct b; [|cbn in Hf; lia]. exists w, (Ok tt). split; [done|]. rewrite write_at_nil by lia. by rewrite Z.add_0_r. }
  case_bool_decide as Eb.
  { subst b. exists w, (Ok tt). split; [done|]. rewrite write_at_nil by lia. by rewrite Z.add_0_r. }
  destruct (write_some_law w d p b Hw Eb Hb) as (w1 & r & E & Hr). unfold try, bind. rewrite E. destruct r as [k|e].
  2:{ exists w1, (Err e). split; [done|]. exists 0. split; [destruct b; [done|rewrite len_cons; pose proof (len_nonneg b); lia]|]. change (take (Z.to_nat 0) b) with (@nil Z). rewrite write_at_nil by lia. by rewrite Z.add_0_r. }
  destruct Hr as [Hk Hw1]. destruct (Z.eqb_spec k 0); [lia|].
  assert (len (take (Z.to_nat k) b) = k) as Ht by (rewrite len_take by lia; lia).
  assert (len (drop (Z.to_nat k) b) = len b - k) as Hd by (rewrite len_drop by lia; lia).
  destruct (IH (drop (Z.to_nat k) b)) with (w := w1) (d := Mem.write_at d p (take (Z.to_nat k) b)) (p := p + k) as (w2 & r2 & E2 & Hr2).
  { rewrite length_drop. lia. }
  { done. }
  { rewrite len_write_at by lia. lia. }
  { lia. }
  rewrite E2. exists w2, r2. split; [done|]. destruct r2 as [u|e].
  - rewrite (write_at_step _ _ _ _ k), take_drop, Hd in Hr2 by (done || lia). by replace (p + k + (len b - k)) with (p + len b) in Hr2 by lia.
  - destruct Hr2 as (j & Hj & Hr2). rewrite Hd in Hj. exists (k + j). split; [lia|]. rewrite (write_at_step _ _ _ _ k), <- Z.add_assoc in Hr2 by (done || lia).
    replace (take (Z.to_nat k) b ++ take (Z.to_nat j) (drop (Z.to_nat k) b)) with (take (Z.to_nat (k + j)) b) in Hr2; [done|].
    replace (Z.to_nat (k + j)) with (Z.to_nat k + Z.to_nat j)%nat by lia. by rewrite take_take_drop.
Qed.

Lemma writes_all b : writes (write_all b) b.
Proof. by apply write_loop_law. Qed.

Lemma writes_then m n a b : writes m a -> writes n b -> writes (m ;*? n) (a ++ b).
Proof.
  intros Hm Hn w d p Hw Hp Hl. pose proof (holds_range _ _ _ Hw) as [Hp0 _]. pose proof (len_nonneg a). pose proof (len_nonneg b). rewrite len_app in *.
  destruct (Hm w d p Hw Hp ltac:(lia)) as (w1 & r & E & Hr). unfold try, bind. rewrite E. destruct r as [u|e].
  2:{ destruct Hr as (k & Hk & Hr). exists w1, (Err e). split; [done|]. exists k. split; [lia|]. by rewrite take_app_le by (unfold len in *; lia). }
  destruct (Hn w1 _ _ Hr) as (w2 & r & E2 & Hr2); [rewrite len_write_at by lia; lia|lia|]. rewrite E2. exists w2, r. split; [done|]. destruct r as [v|e].
  - rewrite write_at_app in Hr2 by lia. by rewrite Z.add_assoc.
  - destruct Hr2 as (k & Hk & Hr2). rewrite write_at_app in Hr2 by lia. exists (len a + k). split; [lia|]. rewrite Z.add_assoc.
    replace (take (Z.to_nat (len a + k)) (a ++ b)) with (a ++ take (Z.to_nat k) b); [done|].
    rewrite take_app_ge by (unfold len; lia). do 2 f_equal. unfold len. lia.
Qed.

(** At the end of a file. *)
Lemma writes_end m b w d : writes m b -> holds w d (len d) -> len d + len b <= u64_max -> exists w' r, m w = Some (w', r) /\
  match r with
  | Ok _ => holds w' (d ++ b) (len d + len b)
  | Err _ => exists c, c `prefix_of` b /\ c <> b /\ holds w' (d ++ c) (len (d ++ c))
  end.
Proof.
  intros Hm Hw Hl. destruct (Hm w d (len d) Hw ltac:(lia) Hl) as (w' & r & E & Hr). exists w', r. split; [done|]. destruct r as [u|e].
  - by rewrite write_at_end in Hr.
  - destruct Hr as (k & Hk & Hr). rewrite write_at_end in Hr. exists (take (Z.to_nat k) b). split; [apply prefix_take|]. split; [intros Hc; apply (f_equal len) in Hc; rewrite len_take in Hc; lia|]. rewrite len_app, len_take by lia. by replace (Z.min k (len b)) with k by lia.
Qed.

End Defaults.

(** ** In memory *)

Definition mem_holds (w : MemFileSystem * MemFileHandle) (d : bytes) (p : Z) : Prop :=
  data w.2 = d /\ pos w.2 = p /\ 0 <= p <= u64_max /\ len d <= u64_max.

#[export] Instance mem_laws : FileLaws MemFileSystem.
Proof.
  refine {| holds := mem_holds |}.
  - intros w d p (_ & _ & Hp & Hd). by split.
  - intros [m h] d p n (<- & <- & Hp & Hd) Hn. cbn in *. rewrite read_at_clip by lia. eexists _, _. split; [reflexivity|]. split; [|by split].
    repeat split; cbn in *; try done; rewrite len_read_at by lia; lia.
  - intros [m h] d p b (<- & <- & Hp & Hd) Hb Hl. cbn in *. eexists _, _. split; [reflexivity|]. cbn. rewrite take_len.
    assert (0 < len b) by (destruct b; [done|rewrite len_cons; pose proof (len_nonneg b); lia]).
    repeat split; cbn; try lia. rewrite len_write_at by lia. lia.
  - intros [m h] d p s n (<- & <- & Hp & Hd) -> Hn. cbn in *. unfold Mem.seek.
    destruct (Z.leb_spec 0 match s with Start n => n | End n => len (data h) + n | Current n => pos h + n end); [|lia].
    destruct (Z.leb_spec match s with Start n => n | End n => len (data h) + n | Current n => pos h + n end u64_max); [|lia].
    cbn. eexists. split; [reflexivity|]. repeat split; cbn; try lia; destruct s; lia.
  - intros [m h] d p n (<- & <- & Hp & Hd) Hn. cbn in *. eexists _, _. split; [reflexivity|]. repeat split; cbn; try lia.
    unfold Mem.resize. rewrite len_app, len_take by lia. pose proof (len_nonneg (data h)).
    destruct (Z_le_gt_dec (n - len (data h)) 0); [rewrite zeros_nonpos by lia; change (len []) with 0|rewrite len_zeros by lia]; lia.
  - intros [m h] d p (<- & <- & Hp & Hd). done.
Defined.

(** ** A device that fails

    The next writes get as many bytes through as [plan] says; none is an error. *)
Record Flaky := mkFlaky { device : MemFileSystem; plan : list Z }.
#[export] Instance eta_Flaky : Settable Flaky := fun s => mkFlaky (device s) (plan s).

Definition on_device {A} (m : Monad.M MemFileSystem A) : Monad.M Flaky A := zoom device (fun f s => s <| device := f |>) m.
Definition on_device_handle {A} (m : Monad.M (MemFileSystem * MemFileHandle) A) : Monad.M (Flaky * MemFileHandle) A :=
  zoom (fun w : Flaky * MemFileHandle => (device w.1, w.2)) (fun v w => (w.1 <| device := v.1 |>, v.2)) m.
Definition flaky_write (b : bytes) : Io (Flaky * MemFileHandle) Z :=
  let* w := gets fst in
  match plan w with
  | [] => on_device_handle (Mem.write_some b)
  | k :: rest =>
      modify (fun w => (w.1 <| plan := rest |>, w.2)) ;*
      if k <=? 0 then fails StorageFull else on_device_handle (Mem.write_some (take (Z.to_nat k) b))
  end.

#[export] Instance flaky_fs : FileSystem Flaky := {|
  Files.Handle := MemFileHandle; Files.read := fun p => on_device (Mem.read p); Files.write := fun p b => on_device (Mem.write p b);
  Files.rename := fun p q => on_device (Mem.rename p q); Files.remove_file := fun p => on_device (Mem.remove_file p);
  Files.remove_dir := fun p => on_device (Mem.remove_dir p); Files.create_dir_all := fun p => on_device (Mem.create_dir_all p);
  Files.read_dir := fun p => on_device (Mem.read_dir p); Files.metadata := fun p => on_device (Mem.metadata p);
  Files.exists_ := fun p s => Mem.exists_ p (device s); Files.open := fun p w c t => on_device (Mem.open p w c t);
  Files.close := fun h => on_device (Mem.close h); Files.read_some := fun n => on_device_handle (Mem.read_some n);
  Files.write_some := flaky_write; Files.seek := fun s => on_device_handle (Mem.seek s);
  Files.set_len := fun n => on_device_handle (Mem.set_len n); Files.handle_metadata := fun w => Mem.handle_metadata (device w.1, w.2);
  Files.try_lock_exclusive := good tt; Files.try_lock_shared := good tt |}.

Definition flaky_holds (w : Flaky * MemFileHandle) : bytes -> Z -> Prop := mem_holds (device w.1, w.2).

#[export] Instance flaky_laws : FileLaws Flaky.
Proof.
  refine {| holds := flaky_holds |}.
  - intros [s h] d p Hw. exact (@holds_range MemFileSystem Mem.fs mem_laws (device s, h) d p Hw).
  - intros [s h] d p n Hw Hn. destruct (@read_some_law MemFileSystem Mem.fs mem_laws (device s, h) d p n Hw Hn) as ([f h'] & b & E & Hw' & Hb).
    cbn in *. injection E as <- <- <-. eexists _, _. split; [reflexivity|]. by split.
  - intros [s h] d p b Hw Hb Hl. pose proof (@write_some_law MemFileSystem Mem.fs mem_laws (device s, h) d p b Hw Hb Hl) as Hd. cbn. unfold flaky_write, Monad.bind, gets, modify. cbn.
    destruct (plan s) as [|k rest].
    + destruct Hd as ([f h'] & r & E & Hr). cbn in *. injection E as <- <- <-. eexists _, (Ok _). split; [reflexivity|]. exact Hr.
    + destruct (Z.leb_spec k 0); [by eexists _, (Err StorageFull)|].
      assert (take (Z.to_nat k) b <> []) as Hne. { destruct b; [done|]. by destruct (Z.to_nat k) eqn:?; [lia|]. }
      destruct (@write_some_law MemFileSystem Mem.fs mem_laws (device s, h) d p (take (Z.to_nat k) b) Hw Hne) as ([f h'] & r & E & Hr); [rewrite len_take by lia; lia|].
      cbn in *. injection E as <- <- <-. eexists _, (Ok _). split; [reflexivity|]. destruct Hr as [Hk Hr]. rewrite take_len in Hr.
      rewrite len_take in * by lia. split; [lia|]. replace (take (Z.to_nat (Z.min k (len b))) b) with (take (Z.to_nat k) b); [exact Hr|].
      destruct (Z.min_spec k (len b)) as [[_ ->]|[? ->]]; [done|]. rewrite take_len. apply take_ge. unfold len in *. lia.
  - intros [st h] d p s n Hw Hn Hr. destruct (@seek_law MemFileSystem Mem.fs mem_laws (device st, h) d p s n Hw Hn Hr) as ([f h'] & E & Hw').
    eexists. split; [cbn; unfold on_device_handle, zoom; cbn in E |- *; by rewrite E|]. done.
  - intros [st h] d p n Hw Hn. destruct (@set_len_law MemFileSystem Mem.fs mem_laws (device st, h) d p n Hw Hn) as ([f h'] & r & E & Hw').
    cbn in *. injection E as <- <- <-. eexists _, _. split; [reflexivity|]. done.
  - intros [st h] d p Hw. exact (@metadata_law MemFileSystem Mem.fs mem_laws (device st, h) d p Hw).
Defined.

End FilesTheory.
