(* ===== verification/Journal.v ===== *)
(** The journal of a conversation ([merkle-tox-fs/src/journal.rs]): a file of
    length-prefixed records behind a header of 16 bytes, with a footer while it is
    closed.

    A method works on the file system and the journal.  The time of day is an argument
    of [open].

    [JournalTheory]: reading a journal is parsing the bytes of its file, a torn or
    closed journal gives its complete records, and so whatever has been appended is
    found again. *)

From S2P Require Import Prelude Protocol MsgPack MsgPackTheory Merkle MerkleModels Monad Congestion Files.
From stdpp Require Import gmap strings.
#[local] Open Scope Z_scope.
#[local] Open Scope list_scope.
#[local] Open Scope monad_scope.

Module Journal.
Import Files.

(** ** Record types *)

Inductive JournalRecordType := Node | Vouch | Blacklist | Promotion | RatchetAdvance.
#[export] Instance JournalRecordType_eq_dec : EqDecision JournalRecordType.
Proof. solve_decision. Defined.

Definition type_byte (t : JournalRecordType) : Z :=
  match t with Node => 1 | Vouch => 2 | Blacklist => 3 | Promotion => 4 | RatchetAdvance => 5 end.
Definition try_from (value : Z) : option JournalRecordType :=
  match value with 1 => Some Node | 2 => Some Vouch | 3 => Some Blacklist | 4 => Some Promotion | 5 => Some RatchetAdvance | _ => None end.

Record JournalRecord := mkRecord { hash : NodeHash; record_type : JournalRecordType; payload : bytes; offset : Z }.

Definition JOURNAL_FOOTER_MAGIC : Z := 0x454E4421.

Section Journal.
Context `{Blake3Hash} {F : Type} `{FileSystem F}.

Record t := mkJournal { handle : Handle; generation_id : Z; has_footer : bool }.
#[export] Instance eta_t : Settable t := fun j => mkJournal (handle j) (generation_id j) (has_footer j).

(** The methods of the handle of a journal. *)
Definition on_handle {A} (m : Monad.M (F * Handle) A) : Monad.M (F * t) A :=
  zoom (fun w : F * t => (w.1, handle w.2)) (fun v w => (v.1, w.2 <| handle := v.2 |>)) m.

(** A handle that stays open when the rest succeeds. *)
Definition opened {A} (h : Handle) (m : Io (F * Handle) A) : Io F (Handle * A) := fun f =>
  match m (f, h) with
  | Some ((f, h), Ok a) => Some (f, Ok (h, a))
  | Some ((f, h), Err e) => (close h ;* fails e) f
  | None => None
  end.

Definition write_header (generation : Z) : Io (F * Handle) unit :=
  write_all (le_bytes 8 generation) ;*? write_all (replicate 8 0).

Definition read_header : Io (F * Handle) (Z * bool) :=
  let* m := gets handle_metadata in
  let*? header := read_exact 16 in
  let generation := from_le (take 8 header) in
  if file_len m >? 16 + 4 + 4 + 32 then
    let*? _ := seek (Start (file_len m - 40)) in
    let*? footer_buf := read_exact 4 in
    good (generation, bool_decide (from_le footer_buf = JOURNAL_FOOTER_MAGIC))
  else good (generation, false).

Definition open (p : Path) (now_ns : Z) : Io F t :=
  let*? h := Files.open p true true false in
  let*? o := opened h (
    let* m := gets handle_metadata in
    if file_len m <? 16 then
      set_len 0 ;*? write_header (wrap 64 now_ns) ;*? good (wrap 64 now_ns, false)
    else read_header) in
  good (mkJournal o.1 o.2.1 o.2.2).

(** ** Records *)

(** A record as it is written. *)
Definition frame (h : NodeHash) (ty : JournalRecordType) (d : bytes) : bytes := le_bytes 4 (len d) ++ h ++ [type_byte ty] ++ d.
Definition record_frame (r : JournalRecord) : bytes := frame (hash r) (record_type r) (payload r).

(** The loop of [read_all]; a round consumes at least 37 bytes. *)
Fixpoint read_records (fuel : nat) (records : list JournalRecord) : Io (F * Handle) (list JournalRecord) :=
  match fuel with
  | O => lift None
  | S fuel =>
      let*? off := stream_position in
      let cut := set_len off ;*? good records in
      let* len_buf := attempt (read_exact 4) in
      match len_buf with None => good records | Some len_buf =>
      let* hash_buf := attempt (read_exact 32) in
      match hash_buf with None => cut | Some hash_buf =>
      let* type_buf := attempt (read_exact 1) in
      match type_buf ≫= fun b => try_from (from_le b) with None => cut | Some ty =>
      let* d := attempt (read_exact (from_le len_buf)) in
      match d with None => cut | Some d =>
      if bool_decide (blake3 d = hash_buf) then read_records fuel (records ++ [mkRecord hash_buf ty d off]) else cut
      end end end end
  end.

Definition read_all_handle : Io (F * Handle) (list JournalRecord) :=
  let*? _ := seek (Start 16) in
  let* m := gets handle_metadata in
  read_records (S (Z.to_nat (file_len m))) [].
Definition read_all : Io (F * t) (list JournalRecord) := on_handle read_all_handle.

Definition end_of (records : list JournalRecord) : option Z :=
  match last records with Some r => chk_u64 (offset r + 4 + 32 + 1 + len (payload r)) | None => Some 16 end.

Definition append (ty : JournalRecordType) (d : bytes) : Io (F * t) (NodeHash * Z) :=
  let* w := gets snd in
  (if has_footer w then
     let*? records := read_all in
     let* end_offset := lift (end_of records) in
     on_handle (set_len end_offset) ;*?
     modify (fun w => (w.1, w.2 <| has_footer := false |>)) ;* good tt
   else good tt) ;*?
  let node_hash := blake3 d in
  let*? off := on_handle (seek (End 0)) in
  on_handle (
    write_all (le_bytes 4 (wrap 32 (len d))) ;*?
    write_all node_hash ;*?
    write_all [type_byte ty] ;*?
    write_all d) ;*?
  good (node_hash, off).

Definition footer (records : list JournalRecord) : bytes :=
  le_bytes 4 JOURNAL_FOOTER_MAGIC ++ le_bytes 4 (wrap 32 (len records)) ++
  blake3 (concat ((fun r => le_bytes 4 (wrap 32 (len (payload r))) ++ hash r ++ [type_byte (record_type r)] ++ payload r) <$> records)).

Definition write_footer : Io (F * t) unit :=
  let*? records := read_all in
  let checksum := blake3 (concat ((fun r => le_bytes 4 (wrap 32 (len (payload r))) ++ hash r ++ [type_byte (record_type r)] ++ payload r) <$> records)) in
  let*? _ := on_handle (seek (End 0)) in
  on_handle (
    write_all (le_bytes 4 JOURNAL_FOOTER_MAGIC) ;*?
    write_all (le_bytes 4 (wrap 32 (len records))) ;*?
    write_all checksum) ;*?
  modify (fun w => (w.1, w.2 <| has_footer := true |>)) ;*
  good tt.

Definition read_record_at (off : Z) : Io (F * t) JournalRecord := on_handle (
  let*? _ := seek (Start off) in
  let*? len_buf := read_exact 4 in
  let*? hash_buf := read_exact 32 in
  let*? type_buf := read_exact 1 in
  match try_from (from_le type_buf) with
  | None => fails InvalidData
  | Some ty => let*? d := read_exact (from_le len_buf) in good (mkRecord hash_buf ty d off)
  end).

Definition truncate (generation : Z) : Io (F * t) unit :=
  on_handle (
    set_len 16 ;*?
    let*? _ := seek (Start 0) in
    write_header generation) ;*?
  modify (fun w => (w.1, w.2 <| generation_id := generation |>)) ;*
  good tt.

(** [Drop]: the handle of a journal that is dropped is closed. *)
Definition close (j : t) : Monad.M F unit := Files.close (handle j).

End Journal.
#[global] Arguments t F {_}.
End Journal.

(** * What a journal keeps *)

(** BLAKE3 gives 32 bytes. *)
Class HashWidth `{Blake3Hash} := hash_width : forall d, len (blake3 d) = 32.

Module JournalTheory.
Import Files FilesTheory Journal.

(** What is appended. *)
Definition Entry : Type := JournalRecordType * bytes.

Section Parse.
Context `{Blake3Hash}.

Definition entry_frame (e : Entry) : bytes := frame (blake3 e.2) e.1 e.2.
Definition image (es : list Entry) : bytes := concat (entry_frame <$> es).

(** The first record of a file, and what follows it: the reference for the loop of
    [read_all]. *)
Definition parse_one (b : bytes) : option (Entry * bytes) :=
  if len b <? 37 then None else
  let n := from_le (take 4 b) in
  ty ← try_from (from_le (take 1 (drop 36 b)));
  if len b <? 37 + n then None else
  let d := take (Z.to_nat n) (drop 37 b) in
  if bool_decide (blake3 d = take 32 (drop 4 b)) then Some ((ty, d), drop (Z.to_nat n) (drop 37 b)) else None.

(** Reading stops at these bytes. *)
Definition stops (b : bytes) : Prop := parse_one b = None.

(** What a crash leaves of a record, at most: a part of it. *)
Definition torn (b : bytes) : Prop := exists e, in_u 32 (len e.2) /\ b `prefix_of` entry_frame e /\ b <> entry_frame e.

(** The records of entries from an offset on. *)
Fixpoint records_from (off : Z) (es : list Entry) : list JournalRecord :=
  match es with
  | [] => []
  | e :: es => mkRecord (blake3 e.2) e.1 e.2 off :: records_from (off + 37 + len e.2) es
  end.

Lemma len_le_bytes n v : len (le_bytes n v) = Z.of_nat n.
Proof. unfold len. by rewrite le_bytes_length. Qed.

Lemma image_app es fs : image (es ++ fs) = image es ++ image fs.
Proof. unfold image. by rewrite fmap_app, concat_app. Qed.

Lemma try_from_byte ty : try_from (type_byte ty) = Some ty.
Proof. by destruct ty. Qed.

Lemma records_from_app off es fs : records_from off (es ++ fs) = records_from off es ++ records_from (off + 37 * len es + len (concat (snd <$> es))) fs.
Proof.
  revert off. induction es as [|e es IH]; intros off.
  - cbn [app records_from fmap list_fmap concat]. change (len (@nil Entry)) with 0. change (len (@nil Z)) with 0. by replace (off + 37 * 0 + 0) with off by lia.
  - cbn [app records_from fmap list_fmap concat]. rewrite IH, len_cons, len_app.
    by replace (off + 37 + len e.2 + 37 * len es + len (concat (snd <$> es))) with (off + 37 * (1 + len es) + (len e.2 + len (concat (snd <$> es)))) by lia.
Qed.

Context `{!HashWidth}.

Lemma len_frame e : len (entry_frame e) = 37 + len e.2.
Proof.
  unfold entry_frame, frame. rewrite !len_app, hash_width, len_le_bytes. change (len [type_byte e.1]) with 1. lia.
Qed.

Lemma len_image es : len (image es) = 37 * len es + len (concat (snd <$> es)).
Proof.
  induction es as [|e es IH]; [done|]. change (image (e :: es)) with (entry_frame e ++ image es). cbn [fmap list_fmap concat].
  rewrite !len_app, IH, len_frame, len_cons. lia.
Qed.

Lemma entries_short es tail : (length es <= length (image es ++ tail))%nat.
Proof. rewrite length_app. pose proof (len_image es) as Hl. pose proof (len_nonneg (concat (snd <$> es))). unfold len in *. lia. Qed.

(** The fields of a record. *)
Lemma frame_fields e b : in_u 32 (len e.2) -> let f := entry_frame e ++ b in
  take 4 f = le_bytes 4 (len e.2) /\ from_le (take 4 f) = len e.2 /\ take 32 (drop 4 f) = blake3 e.2 /\
  take 1 (drop 36 f) = [type_byte e.1] /\ drop 37 f = e.2 ++ b.
Proof.
  intros Hl f. assert (take 4 f = le_bytes 4 (len e.2)) as Ht.
  { unfold f, entry_frame, frame. rewrite <- app_assoc. apply take_app_length'. by rewrite le_bytes_length. }
  assert (drop 4 f = blake3 e.2 ++ [type_byte e.1] ++ e.2 ++ b) as Hd.
  { unfold f, entry_frame, frame. rewrite <- !app_assoc. apply drop_app_length'. by rewrite le_bytes_length. }
  assert (length (blake3 e.2) = 32%nat) as Hw by (pose proof (hash_width e.2) as Hh; unfold len in Hh; lia).
  assert (drop 36 f = [type_byte e.1] ++ e.2 ++ b) as Hd2.
  { change 36%nat with (4 + 32)%nat. rewrite <- drop_drop, Hd. by apply drop_app_length'. }
  split_and!; [done| | | |].
  - rewrite Ht. by apply from_le_bytes.
  - rewrite Hd. by apply take_app_length'.
  - by rewrite Hd2.
  - change 37%nat with (36 + 1)%nat. by rewrite <- drop_drop, Hd2.
Qed.

Lemma parse_one_frame e b : in_u 32 (len e.2) -> parse_one (entry_frame e ++ b) = Some (e, b).
Proof.
  intros Hl. pose proof (frame_fields e b Hl) as (_ & Hn & Hh & Ht & Hd). pose proof (len_nonneg b). pose proof (len_nonneg e.2). unfold parse_one.
  rewrite len_app, len_frame, Hn, Ht, Hh, Hd. destruct (Z.ltb_spec (37 + len e.2 + len b) 37); [lia|].
  change (from_le [type_byte e.1]) with (type_byte e.1 + 256 * 0). rewrite Z.mul_0_r, Z.add_0_r, try_from_byte. cbn [mbind option_bind].
  destruct (Z.ltb_spec (37 + len e.2 + len b) (37 + len e.2)); [lia|]. unfold len. rewrite !Nat2Z.id, take_app_length, drop_app_length.
  rewrite bool_decide_true by done. by destruct e.
Qed.

(** A part of a record is no record: its length says that it goes on. *)
Lemma torn_stops b : torn b -> stops b.
Proof.
  intros (e & Hl & [c Hc] & Hne). unfold stops, parse_one. pose proof (len_frame e) as Hf. rewrite Hc, len_app in Hf.
  assert (0 < len c) as Hc0. { destruct c; [by rewrite app_nil_r in Hc|]. rewrite len_cons. pose proof (len_nonneg c). lia. }
  destruct (Z.ltb_spec (len b) 37); [done|]. pose proof (frame_fields e [] Hl) as (_ & Hn & _). rewrite app_nil_r, Hc in Hn.
  rewrite take_app_le in Hn by (unfold len in *; lia). rewrite Hn. destruct (try_from _); [|done]. cbn.
  by destruct (Z.ltb_spec (len b) (37 + len e.2)); [|lia].
Qed.

(** Neither is a footer nor a part of one: it starts with a length that no footer has. *)
Lemma footer_stops records b : b `prefix_of` footer records -> stops b.
Proof.
  intros [c Hc]. unfold stops, parse_one. destruct (Z.ltb_spec (len b) 37); [done|].
  assert (len (footer records) = 40) as Hl by (unfold footer; by rewrite !len_app, hash_width, !len_le_bytes).
  assert (take 4 b = le_bytes 4 JOURNAL_FOOTER_MAGIC) as Ht.
  { rewrite <- (take_app_le b c 4) by (unfold len in *; lia). rewrite <- Hc. unfold footer. apply take_app_length'. by rewrite le_bytes_length. }
  rewrite Ht, from_le_bytes by (unfold JOURNAL_FOOTER_MAGIC; lia). rewrite Hc, len_app in Hl. pose proof (len_nonneg c).
  destruct (try_from _); [|done]. cbn [mbind option_bind]. destruct (Z.ltb_spec (len b) (37 + JOURNAL_FOOTER_MAGIC)); [done|unfold JOURNAL_FOOTER_MAGIC in *; lia].
Qed.

End Parse.

(** ** Reading *)

Section Reading.
Context `{Blake3Hash} `{!HashWidth} {F : Type} `{FileLaws F}.

(** [n] bytes at the place [i] of [b], behind [a]. *)
Lemma read_behind w a b i n : holds w (a ++ b) (len a + i) -> 0 <= i -> exists w',
  holds w' (a ++ b) (len a + i + len (Mem.read_at b i n)) /\
  read_exact n w = Some (w', if n <=? len (Mem.read_at b i n) then Ok (Mem.read_at b i n) else Err UnexpectedEof).
Proof.
  intros Hw Hi. destruct (read_exact_law _ _ _ n Hw) as (w' & Hw' & E).
  assert (Mem.read_at (a ++ b) (len a + i) n = Mem.read_at b i n) as Hr.
  { unfold Mem.read_at. rewrite drop_app_ge by (unfold len; lia). do 2 f_equal. unfold len. lia. }
  rewrite Hr in *. eauto.
Qed.

Lemma bind_run {W A B} (m : Monad.M W A) (k : A -> Monad.M W B) w w' a : m w = Some (w', a) -> Monad.bind m k w = k a w'.
Proof. unfold Monad.bind. by intros ->. Qed.

Lemma try_run {W E A B} (m : Monad.M W (result E A)) (k : A -> Monad.M W (result E B)) w w' a : m w = Some (w', Ok a) -> try m k w = k a w'.
Proof. unfold try. intros Hm. by rewrite (bind_run _ _ _ _ _ Hm). Qed.

Lemma try_with {W E A B} (m : Monad.M W (result E A)) (k : A -> Monad.M W (result E B)) w w' r : m w = Some (w', r) ->
  try m k w = match r with Ok a => k a w' | Err e => Some (w', Err e) end.
Proof. unfold try. intros Hm. rewrite (bind_run _ _ _ _ _ Hm). by destruct r. Qed.

Lemma on_handle_run {A} (m : Monad.M (F * Handle) A) (w : F * Journal.t F) f h a : m (w.1, handle w.2) = Some ((f, h), a) ->
  on_handle m w = Some ((f, w.2 <| handle := h |>), a).
Proof. intros Hm. unfold on_handle, zoom. by rewrite Hm. Qed.

Lemma attempt_run {W A B} (m : Io W A) (k : option A -> Monad.M W B) w w' r : m w = Some (w', r) ->
  Monad.bind (attempt m) k w = k (match r with Ok a => Some a | Err _ => None end) w'.
Proof. intros Hm. apply bind_run. unfold attempt. by rewrite (bind_run _ _ _ _ _ Hm). Qed.

Lemma cut_law w a b p (acc : list JournalRecord) : holds w (a ++ b) p -> exists w' r,
  (set_len (len a) ;*? good acc) w = Some (w', r) /\ match r with Ok l => l = acc /\ holds w' a p | Err _ => holds w' (a ++ b) p end.
Proof.
  intros Hw. pose proof (holds_range _ _ _ Hw) as [_ Hl]. rewrite len_app in Hl. pose proof (len_nonneg a). pose proof (len_nonneg b).
  destruct (set_len_law _ _ _ (len a) Hw ltac:(lia)) as (w' & r & E & Hr). unfold try, Monad.bind. rewrite E. destruct r as [u|e].
  - rewrite resize_cut in Hr. by exists w', (Ok acc).
  - by exists w', (Err e).
Qed.

(** What the loop does with the bytes [b] behind [a]: nothing more than [parse_one]. *)
Lemma read_round w a b fuel acc : holds w (a ++ b) (len a) ->
  match parse_one b with
  | Some (e, b') => exists w', read_records (S fuel) acc w = read_records fuel (acc ++ [mkRecord (blake3 e.2) e.1 e.2 (len a)]) w' /\
      exists c, b = c ++ b' /\ len c = 37 + len e.2 /\ holds w' (a ++ b) (len a + len c)
  | None => exists w' r p, read_records (S fuel) acc w = Some (w', r) /\
      match r with Ok l => l = acc /\ holds w' (a ++ if len b <? 4 then b else []) p | Err _ => holds w' (a ++ b) p end
  end.
Proof.
  intros Hw. pose proof (holds_range _ _ _ Hw) as [Ha _]. cbn [read_records].
  destruct (seek_law w _ (len a) (Current 0) (len a) Hw (eq_sym (Z.add_0_r (len a))) Ha) as (w0 & E0 & Hw0). unfold stream_position. rewrite (try_run _ _ _ _ _ E0). clear E0.
  assert (forall w p, holds w (a ++ b) p -> 4 <= len b -> exists w' r p', (set_len (len a) ;*? good acc) w = Some (w', r) /\
    match r with Ok l => l = acc /\ holds w' (a ++ if len b <? 4 then b else []) p' | Err _ => holds w' (a ++ b) p' end) as Hcut.
  { intros w' p Hw' Hb. destruct (cut_law w' a b p acc Hw') as (w2 & r & E & Hr). exists w2, r, p. split; [done|].
    destruct (Z.ltb_spec (len b) 4); [lia|]. by rewrite app_nil_r. }
  rewrite <- (Z.add_0_r (len a)) in Hw0. pose proof (len_nonneg b) as Hb0.
  destruct (read_behind _ _ _ _ 4 Hw0 ltac:(lia)) as (w1 & Hw1 & E1). rewrite (attempt_run _ _ _ _ _ E1). clear E1.
  rewrite len_read_at in * by lia. destruct (Z.leb_spec 4 (Z.max 0 (Z.min 4 (len b - 0)))) as [H4|H4].
  2:{ unfold parse_one. destruct (Z.ltb_spec (len b) 37); [|lia]. exists w1, (Ok acc). eexists. split; [done|]. split; [done|].
      destruct (Z.ltb_spec (len b) 4); [exact Hw1|lia]. }
  specialize (fun w p Hw => Hcut w p Hw ltac:(lia)). replace (len a + 0 + Z.max 0 (Z.min 4 (len b - 0))) with (len a + 4) in Hw1 by lia.
  destruct (read_behind _ _ _ _ 32 Hw1 ltac:(lia)) as (w2 & Hw2 & E2). rewrite (attempt_run _ _ _ _ _ E2). clear E2.
  rewrite len_read_at in * by lia. destruct (Z.leb_spec 32 (Z.max 0 (Z.min 32 (len b - 4)))) as [H36|H36].
  2:{ unfold parse_one. destruct (Z.ltb_spec (len b) 37); [|lia]. by eapply Hcut. }
  replace (len a + 4 + Z.max 0 (Z.min 32 (len b - 4))) with (len a + 36) in Hw2 by lia.
  destruct (read_behind _ _ _ _ 1 Hw2 ltac:(lia)) as (w3 & Hw3 & E3). rewrite (attempt_run _ _ _ _ _ E3). clear E3.
  rewrite len_read_at in * by lia. destruct (Z.leb_spec 1 (Z.max 0 (Z.min 1 (len b - 36)))) as [H37|H37].
  2:{ unfold parse_one. destruct (Z.ltb_spec (len b) 37); [|lia]. by eapply Hcut. }
  replace (len a + 36 + Z.max 0 (Z.min 1 (len b - 36))) with (len a + 37) in Hw3 by lia.
  unfold parse_one. destruct (Z.ltb_spec (len b) 37) as [|H37']; [lia|]. change (Mem.read_at b 36 1) with (take 1 (drop 36 b)).
  cbn [mbind option_bind]. destruct (try_from (from_le (take 1 (drop 36 b)))) as [ty|]; [|by eapply Hcut]. cbn [mbind option_bind].
  change (Mem.read_at b 0 4) with (take 4 (drop 0 b)). change (Mem.read_at b 4 32) with (take 32 (drop 4 b)). rewrite drop_0. set (n := from_le (take 4 b)).
  destruct (read_behind _ _ _ _ n Hw3 ltac:(lia)) as (w4 & Hw4 & E4). rewrite (attempt_run _ _ _ _ _ E4). clear E4.
  assert (len (Mem.read_at b 37 n) = Z.max 0 (Z.min n (len b - 37))) as Hrl.
  { destruct (Z_le_gt_dec 0 n); [apply len_read_at; lia|]. unfold Mem.read_at. replace (Z.to_nat n) with O by lia. rewrite take_0. change (len (@nil Z)) with 0. lia. }
  rewrite Hrl in *. destruct (Z.leb_spec n (Z.max 0 (Z.min n (len b - 37)))) as [Hn|Hn].
  2:{ destruct (Z.ltb_spec (len b) (37 + n)); [|lia]. by eapply Hcut. }
  destruct (Z.ltb_spec (len b) (37 + n)); [lia|]. change (Mem.read_at b 37 n) with (take (Z.to_nat n) (drop (Z.to_nat 37) b)) in *.
  change (Z.to_nat 37) with 37%nat in *. case_bool_decide as Eh; [|by eapply Hcut]. exists w4. cbn [fst snd]. rewrite Eh. split; [done|].
  exists (take 37 b ++ take (Z.to_nat n) (drop 37 b)). rewrite <- app_assoc, take_drop, take_drop. split; [done|].
  assert (len (take 37 b) = 37) as H37b by (unfold len in *; rewrite length_take; lia).
  rewrite len_app, H37b, Hrl. split; [done|]. by rewrite Z.add_assoc.
Qed.

(** What the loop of [read_all] finds in a file: its records, up to where it stops. *)
Inductive parses : bytes -> list Entry -> bytes -> Prop :=
| parses_stop b : stops b -> parses b [] b
| parses_cons b e b' es rest : parse_one b = Some (e, b') -> parses b' es rest -> parses b (e :: es) rest.

Lemma parses_image es t : Forall (fun e => in_u 32 (len e.2)) es -> stops t -> parses (image es ++ t) es t.
Proof.
  intros Hes Ht. induction Hes as [|e es He Hes IH]; [by constructor|]. change (image (e :: es)) with (entry_frame e ++ image es). rewrite <- app_assoc.
  econstructor; [by apply parse_one_frame|done].
Qed.

Lemma parse_one_shorter b e b' : parse_one b = Some (e, b') -> (length b' + 37 <= length b)%nat.
Proof.
  unfold parse_one. destruct (Z.ltb_spec (len b) 37) as [|Hb]; [done|]. destruct (try_from _); [|done]. cbn. case_match; [done|]. case_bool_decide; [|done].
  intros [= <- <-]. rewrite !length_drop. unfold len in Hb. lia.
Qed.

Lemma parses_total b : exists es rest, parses b es rest /\ (length es <= length b)%nat.
Proof.
  remember (length b) as n eqn:Hn. revert b Hn. induction (lt_wf n) as [n _ IH]. intros b ->. destruct (parse_one b) as [[e b']|] eqn:E.
  - pose proof (parse_one_shorter _ _ _ E). destruct (IH (length b') ltac:(lia) b' eq_refl) as (es & rest & Hp & Hl).
    exists (e :: es), rest. split; [by econstructor|]. cbn. lia.
  - exists [], b. split; [by constructor|]. cbn. lia.
Qed.

Lemma read_parses w a b es rest fuel acc : parses b es rest -> holds w (a ++ b) (len a) -> (length es < fuel)%nat ->
  exists w' r p c, b = c ++ rest /\ read_records fuel acc w = Some (w', r) /\
    match r with
    | Ok l => l = acc ++ records_from (len a) es /\ holds w' (a ++ c ++ if len rest <? 4 then rest else []) p
    | Err _ => holds w' (a ++ b) p
    end.
Proof.
  intros Hp. revert w a fuel acc. induction Hp as [b Hb|b e b' es rest Hb Hp IH]; intros w a fuel acc Hw Hf; destruct fuel as [|fuel]; try (cbn in Hf; lia);
    pose proof (read_round w a b fuel acc Hw) as Hr.
  - rewrite Hb in Hr. destruct Hr as (w' & r & p & E & Hr). exists w', r, p, []. split; [done|]. split; [done|]. destruct r as [l|e]; [|done].
    by rewrite app_nil_r.
  - rewrite Hb in Hr. destruct Hr as (w1 & E & c & -> & Hc & Hw1). rewrite app_assoc, <- len_app in Hw1.
    destruct (IH w1 (a ++ c) fuel (acc ++ [mkRecord (blake3 e.2) e.1 e.2 (len a)]) Hw1) as (w' & r & p & c' & -> & E' & Hr); [cbn in Hf; lia|].
    exists w', r, p, (c ++ c'). rewrite <- app_assoc. split; [done|]. rewrite E, E'. split; [done|]. destruct r as [l|e'].
    + destruct Hr as [-> Hr]. split; [|by rewrite <- !app_assoc in *]. rewrite <- app_assoc. cbn [app records_from]. rewrite len_app, Hc. by rewrite Z.add_assoc.
    + by rewrite <- app_assoc in Hr.
Qed.

(** A journal whose file has these bytes. *)
Definition file_of (w : F * Journal.t F) (d : bytes) : Prop := exists p, holds (w.1, handle w.2) d p.

Lemma read_all_parses w hdr b es rest : file_of w (hdr ++ b) -> len hdr = 16 -> parses b es rest -> (length es <= length b)%nat ->
  exists w' r c, b = c ++ rest /\ read_all w = Some (w', r) /\ has_footer w'.2 = has_footer w.2 /\ generation_id w'.2 = generation_id w.2 /\
    match r with
    | Ok l => l = records_from 16 es /\ file_of w' (hdr ++ c ++ if len rest <? 4 then rest else [])
    | Err _ => file_of w' (hdr ++ b)
    end.
Proof.
  intros [p Hw] Hh Hp Hl. unfold read_all, on_handle, zoom, read_all_handle.
  destruct (seek_law _ _ _ (Start 16) 16 Hw eq_refl ltac:(done)) as (w1 & E1 & Hw1). rewrite (try_run _ _ _ _ _ E1). rewrite <- Hh in Hw1.
  rewrite (bind_run _ _ _ w1 (handle_metadata w1)) by done. rewrite (metadata_law _ _ _ Hw1).
  destruct (read_parses w1 hdr b es rest (S (Z.to_nat (len (hdr ++ b)))) [] Hp Hw1) as (w2 & r & p2 & c & -> & E & Hr).
  { rewrite len_app. unfold len in *. lia. }
  rewrite E. eexists _, r, c. split; [done|]. split; [reflexivity|]. split; [done|]. split; [done|]. rewrite Hh in Hr. destruct w2 as [f2 h2].
  destruct r as [l|e]; [destruct Hr as [-> Hr]; split; [done|]|]; by exists p2.
Qed.

(** ** Appending *)

Definition small (e : Entry) : Prop := in_u 32 (len e.2).

(** The file of the journal has a header, the records of [es], and bytes where reading
    stops. *)
Definition kept (w : F * Journal.t F) (es : list Entry) (tail : bytes) : Prop :=
  exists hdr, len hdr = 16 /\ Forall small es /\ stops tail /\ file_of w (hdr ++ image es ++ tail).

(** Reading leaves nothing after the records when it cuts the file. *)
Definition cut_off (tail : bytes) : Prop := tail = [] \/ 4 <= len tail.

(** Without a footer there is nothing after the records. *)
Definition ready (w : F * Journal.t F) (es : list Entry) : Prop :=
  exists tail, kept w es tail /\ cut_off tail /\ (has_footer w.2 = false -> tail = []).

Lemma stops_nil : stops [].
Proof. done. Qed.

Lemma read_all_kept w es tail : kept w es tail -> exists w' r, read_all w = Some (w', r) /\
  has_footer w'.2 = has_footer w.2 /\ generation_id w'.2 = generation_id w.2 /\
  match r with
  | Ok l => l = records_from 16 es /\ kept w' es (if len tail <? 4 then tail else [])
  | Err _ => kept w' es tail
  end.
Proof.
  intros (hdr & Hh & Hes & Ht & Hw). destruct (read_all_parses w hdr _ es tail Hw Hh (parses_image es tail Hes Ht) (entries_short es tail)) as (w' & r & c & Hc & E & Hf & Hg & Hr).
  apply app_inv_tail in Hc as <-. exists w', r. do 3 (split; [done|]). destruct r as [l|e].
  - destruct Hr as [-> Hr]. split; [done|]. exists hdr. do 2 (split; [done|]). split; [|done]. by destruct (Z.ltb_spec (len tail) 4).
  - by exists hdr.
Qed.

Lemma end_of_records es : 16 + len (image es) <= u64_max -> end_of (records_from 16 es) = Some (16 + len (image es)).
Proof.
  intros Hl. unfold end_of. destruct es as [|e es _] using rev_ind; [done|]. rewrite records_from_app. cbn [records_from]. rewrite last_snoc. cbn [offset payload].
  rewrite image_app, len_app, len_image in Hl |- *. change (image [e]) with (entry_frame e ++ []) in *. rewrite app_nil_r, len_frame in *.
  rewrite chk_u64_ok; [f_equal; lia|]. pose proof (len_nonneg es). pose proof (len_nonneg (concat (snd <$> es))). pose proof (len_nonneg e.2). lia.
Qed.

(** The cleanup of a footer. *)
Lemma cleanup_law w es : ready w es -> 16 + len (image es) <= u64_max -> exists w' r,
  (if has_footer w.2 then
     let*? records := read_all in
     let* end_offset := lift (end_of records) in
     on_handle (set_len end_offset) ;*?
     modify (fun w => (w.1, w.2 <| has_footer := false |>)) ;* good tt
   else good tt) w = Some (w', r) /\
  match r with Ok _ => kept w' es [] /\ has_footer w'.2 = false | Err _ => exists tail, kept w' es tail end.
Proof.
  intros (tail & Hk & _ & Ht) Hl. destruct (has_footer w.2) eqn:Ef; [|specialize (Ht eq_refl) as ->; by exists w, (Ok tt)].
  destruct (read_all_kept w es tail Hk) as (w1 & r1 & E1 & _ & _ & Hr1). unfold try at 1. rewrite (bind_run _ _ _ _ _ E1). clear E1.
  destruct r1 as [l|e]; [|by exists w1, (Err e); eauto]. destruct Hr1 as [-> (hdr & Hh & Hes & Hs & p & Hw)].
  rewrite (bind_run _ _ _ w1 (16 + len (image es))) by (unfold lift; by rewrite end_of_records).
  rewrite app_assoc in Hw. assert (len (hdr ++ image es) = 16 + len (image es)) as Hle by (by rewrite len_app, Hh).
  destruct (set_len_law _ _ _ (len (hdr ++ image es)) Hw) as (w2 & r2 & E2 & Hr2); [rewrite Hle; pose proof (len_nonneg (image es)); lia|].
  rewrite Hle in E2. unfold try, Monad.bind, on_handle, zoom. rewrite E2. destruct w2 as [f2 h2]. destruct r2 as [u|e].
  - rewrite resize_cut in Hr2. eexists _, (Ok tt). split; [reflexivity|]. split; [|done]. exists hdr. do 2 (split; [done|]). split; [done|]. rewrite app_nil_r. by exists p.
  - eexists _, (Err e). split; [reflexivity|]. eexists. exists hdr. do 3 (split; [done|]). exists p. by rewrite app_assoc.
Qed.

Lemma append_law w es e : ready w es -> small e -> 53 + len (image es) + len e.2 <= u64_max -> exists w' r, append e.1 e.2 w = Some (w', r) /\
  match r with
  | Ok (h, off) => h = blake3 e.2 /\ off = 16 + len (image es) /\ kept w' (es ++ [e]) [] /\ has_footer w'.2 = false
  | Err _ => exists tail, kept w' es tail
  end.
Proof.
  intros Hw He Hl. pose proof (len_nonneg e.2) as He0. unfold append. rewrite (bind_run _ _ _ w w.2) by done.
  destruct (cleanup_law w es Hw ltac:(lia)) as (w1 & r1 & E1 & Hr1). unfold try at 1. rewrite (bind_run _ _ _ _ _ E1). clear E1.
  destruct r1 as [[]|er]; [|by exists w1, (Err er)]. destruct Hr1 as [(hdr & Hh & Hes & _ & p & Hw1) Hf]. rewrite app_nil_r in Hw1. set (d := hdr ++ image es) in *.
  assert (len d = 16 + len (image es)) as Hd by (unfold d; by rewrite len_app, Hh). pose proof (len_nonneg (image es)).
  destruct (seek_law _ _ _ (End 0) (len d) Hw1 (eq_sym (Z.add_0_r _)) ltac:(lia)) as ([f2 h2] & E2 & Hw2).
  rewrite (try_with _ _ _ _ _ (on_handle_run _ _ _ _ _ E2)).
  assert (writes (write_all (le_bytes 4 (wrap 32 (len e.2))) ;*? write_all (blake3 e.2) ;*? write_all [type_byte e.1] ;*? write_all e.2) (entry_frame e)) as Hwr.
  { unfold entry_frame, frame. unfold wrap. rewrite Z.mod_small by done. repeat apply writes_then; apply writes_all. }
  destruct (writes_end _ _ _ _ Hwr Hw2) as ([f3 h3] & r3 & E3 & Hr3); [rewrite len_frame; lia|].
  erewrite try_with by (apply on_handle_run; exact E3). destruct r3 as [u|er].
  - eexists _, (Ok (_, _)). split; [reflexivity|]. split; [done|]. split; [done|]. split; [|done]. exists hdr. split; [done|].
    split; [apply Forall_app; split; [done|]; by apply Forall_singleton|]. split; [apply stops_nil|]. rewrite app_nil_r, image_app. change (image [e]) with (entry_frame e ++ []).
    rewrite app_nil_r, app_assoc. by eexists.
  - destruct Hr3 as (c & Hc & Hne & Hr3). eexists _, (Err er). split; [reflexivity|]. exists c, hdr. do 2 (split; [done|]).
    split; [apply torn_stops; by exists e|]. rewrite app_assoc. by eexists.
Qed.

(** Appends one entry after the other until one fails; how many succeeded. *)
Fixpoint append_until (es : list Entry) : Monad.M (F * Journal.t F) nat :=
  match es with
  | [] => Monad.pure O
  | e :: es =>
      let* r := append e.1 e.2 in
      match r with Ok _ => let* n := append_until es in Monad.pure (S n) | Err _ => Monad.pure O end
  end.

Lemma append_until_law new w es : ready w es -> Forall small new -> 16 + len (image (es ++ new)) <= u64_max ->
  exists w' n tail, append_until new w = Some (w', n) /\ (n <= length new)%nat /\ kept w' (es ++ take n new) tail /\ (n = length new -> cut_off tail).
Proof.
  intros Hw Hn. revert w es Hw. induction Hn as [|e new He Hn IH]; intros w es Hw Hl.
  { destruct Hw as (tail & Hk & Hc & _). exists w, O, tail. rewrite app_nil_r. done. }
  cbn [append_until]. rewrite (app_assoc es [e] new : es ++ e :: new = _), image_app, (image_app es [e]) in Hl.
  change (image [e]) with (entry_frame e ++ []) in Hl. rewrite app_nil_r, !len_app, len_frame in Hl. pose proof (len_nonneg (image new)).
  destruct (append_law w es e Hw He ltac:(lia)) as (w1 & r1 & E1 & Hr1). rewrite (bind_run _ _ _ _ _ E1). clear E1.
  destruct r1 as [[h off]|er]; [|destruct Hr1 as [tail Hr1]; exists w1, O, tail; rewrite app_nil_r; repeat split; [cbn; lia|done|done]].
  destruct Hr1 as (_ & _ & Hk & Hf). destruct (IH w1 (es ++ [e])) as (w2 & n & tail & E2 & Hle & Hk2 & Hc2); [exists []; split; [done|]; split; [by left|done]| |].
  { rewrite !image_app, !len_app. change (image [e]) with (entry_frame e ++ []). rewrite app_nil_r, len_frame. lia. }
  rewrite (bind_run _ _ _ _ _ E2). exists w2, (S n), tail. split; [done|]. split; [cbn; lia|]. split; [by rewrite <- app_assoc in Hk2|].
  intros [= Hn2]. by apply Hc2.
Qed.

(** Closing keeps the records, also when it fails half way. *)
Lemma write_footer_law w es tail : kept w es tail -> cut_off tail -> 56 + len (image es) <= u64_max -> exists w' r tail, write_footer w = Some (w', r) /\ kept w' es tail.
Proof.
  intros Hk Hcut Hl. pose proof (len_nonneg (image es)). destruct (read_all_kept w es tail Hk) as (w1 & r1 & E1 & _ & _ & Hr1). unfold write_footer. rewrite (try_with _ _ _ _ _ E1).
  destruct r1 as [l|e]; [|by exists w1, (Err e), tail]. destruct Hr1 as [-> (hdr & Hh & Hes & _ & p & Hw)].
  replace (if len tail <? 4 then tail else []) with (@nil Z) in Hw by (destruct Hcut as [-> |]; [done|]; by destruct (Z.ltb_spec (len tail) 4); [lia|]).
  rewrite app_nil_r in Hw. set (d := hdr ++ image es) in *. assert (len d = 16 + len (image es)) as Hd by (unfold d; by rewrite len_app, Hh).
  destruct (seek_law _ _ _ (End 0) (len d) Hw (eq_sym (Z.add_0_r _)) ltac:(lia)) as ([f2 h2] & E2 & Hw2). rewrite (try_with _ _ _ _ _ (on_handle_run _ _ _ _ _ E2)).
  set (records := records_from 16 es).
  assert (writes (write_all (le_bytes 4 JOURNAL_FOOTER_MAGIC) ;*? write_all (le_bytes 4 (wrap 32 (len records))) ;*?
    write_all (blake3 (concat ((fun r => le_bytes 4 (wrap 32 (len (payload r))) ++ hash r ++ [type_byte (record_type r)] ++ payload r) <$> records)))) (footer records)) as Hwr.
  { repeat apply writes_then; apply writes_all. }
  assert (len (footer records) = 40) as Hf by (unfold footer; by rewrite !len_app, hash_width, !len_le_bytes).
  destruct (writes_end _ _ _ _ Hwr Hw2) as ([f3 h3] & r3 & E3 & Hr3); [lia|]. erewrite try_with by (apply on_handle_run; exact E3). destruct r3 as [u|er].
  - eexists _, (Ok tt), (footer records). split; [reflexivity|]. exists hdr. do 2 (split; [done|]). split; [by eapply footer_stops|]. rewrite app_assoc. by eexists.
  - destruct Hr3 as (c & Hc & _ & Hr3). eexists _, (Err er), c. split; [reflexivity|]. exists hdr. do 2 (split; [done|]). split; [by eapply footer_stops|]. rewrite app_assoc. by eexists.
Qed.

(** Appends, and then [Drop], which closes the journal. *)
Definition session (new : list Entry) (dropped : bool) : Monad.M (F * Journal.t F) nat :=
  let* n := append_until new in
  if dropped && (n =? length new)%nat then let* _ := write_footer in Monad.pure n else Monad.pure n.

Lemma session_kept new dropped w es : ready w es -> Forall small new -> 56 + len (image (es ++ new)) <= u64_max ->
  exists w' n tail, session new dropped w = Some (w', n) /\ (n <= length new)%nat /\ kept w' (es ++ take n new) tail.
Proof.
  intros Hw Hn Hl. destruct (append_until_law new w es Hw Hn ltac:(lia)) as (w1 & n & tail & E & Hle & Hk & Hc). unfold session. rewrite (bind_run _ _ _ _ _ E).
  destruct dropped; [|by exists w1, n, tail]. destruct (Nat.eqb_spec n (length new)) as [->|Hne]; [|by exists w1, n, tail].
  rewrite firstn_all in *. cbn [andb]. destruct (write_footer_law w1 _ tail Hk (Hc eq_refl) Hl) as (w2 & r2 & tail2 & E2 & Hk2). rewrite (bind_run _ _ _ _ _ E2).
  exists w2, (length new), tail2. by rewrite firstn_all.
Qed.

(** C28: What has been appended to a journal is found again.  Entries are appended one
    after the other until one fails, at whatever point; if none fails, the journal may be
    closed, which may fail as well.  Whoever reads the file after that, the owner or
    another process after a crash, gets the entries that were there before and those
    whose append succeeded, in order and with the offsets at which they start, and
    nothing else; a file that cannot be cut is left as it is.  What is appended after a
    failure is not covered: it may be lost ([torn_record_hides]). *)
Theorem appended_found new dropped w es : ready w es -> Forall small new -> 56 + len (image (es ++ new)) <= u64_max ->
  exists w1 n d, session new dropped w = Some (w1, n) /\ (n <= length new)%nat /\ file_of w1 d /\
    forall w2, file_of w2 d -> exists w3 r3, read_all w2 = Some (w3, r3) /\
      match r3 with Ok l => l = records_from 16 (es ++ take n new) | Err _ => file_of w3 d end.
Proof.
  intros Hw Hn Hl. destruct (session_kept new dropped w es Hw Hn Hl) as (w1 & n & tail & E & Hle & (hdr & Hh & Hs & Ht & Hf)).
  exists w1, n. eexists. split; [exact E|]. split; [done|]. split; [exact Hf|]. intros w2 Hw2.
  destruct (read_all_parses w2 hdr _ _ tail Hw2 Hh (parses_image _ tail Hs Ht) (entries_short _ tail)) as (w3 & r3 & c & _ & E3 & _ & _ & Hr3).
  exists w3, r3. split; [exact E3|]. destruct r3 as [l|e]; [|done]. by destruct Hr3 as [-> _].
Qed.

End Reading.
(** ** Examples *)

Import Models.
#[export] Instance sum_width : HashWidth.
Proof. intros d. unfold blake3, sum_hash, checksum. unfold len. by rewrite be_bytes_length. Qed.

(** A fresh journal on a device whose writes get these bytes through. *)
Definition fresh (plan : list Z) : Flaky * Journal.t Flaky :=
  (mkFlaky (new_mem 0) plan, mkJournal (F := Flaky) (mkHandle (replicate 16 0) 16 ["journal.bin"] 0 true) 0 false).
Definition first_entry : Entry := (Node, [1; 2; 3]).
Definition second_entry : Entry := (Promotion, [4]).
Definition third_entry : Entry := (Node, [5; 6]).

Lemma fresh_ready plan : ready (fresh plan) [].
Proof.
  exists []. split; [|by split; [left|]]. exists (replicate 16 0). split; [done|]. split; [by constructor|]. split; [done|]. exists 16. split_and!; vm_compute; congruence.
Qed.

(** The second append stops after nine bytes: the reader finds the first entry. *)
Lemma appended_found_witness : exists w1 d w3 r3, session [first_entry; second_entry] true (fresh [100; 100; 100; 100; 100; 5; 0]) = Some (w1, 1%nat) /\
  file_of w1 d /\ read_all w1 = Some (w3, r3) /\ match r3 with Ok l => l = records_from 16 [first_entry] | Err _ => file_of w3 d end.
Proof.
  destruct (appended_found [first_entry; second_entry] true (fresh [100; 100; 100; 100; 100; 5; 0]) []) as (w1 & n & d & E & _ & Hd & Hr).
  - apply fresh_ready.
  - repeat constructor; vm_compute; congruence.
  - vm_compute. congruence.
  - assert (snd <$> session [first_entry; second_entry] true (fresh [100; 100; 100; 100; 100; 5; 0]) = Some 1%nat) as Hc by (vm_compute; reflexivity).
    rewrite E in Hc. injection Hc as ->. destruct (Hr w1 Hd) as (w3 & r3 & E3 & H3). exists w1, d, w3, r3. split; [exact E|]. split; [exact Hd|]. split; [exact E3|]. exact H3.
Defined.

(** The payloads that a reader finds after these appends, each tried whatever became of
    the ones before. *)
Definition appended (w : Flaky * Journal.t Flaky) (e : Entry) : option (Flaky * Journal.t Flaky) :=
  match append e.1 e.2 w with Some (w, _) => Some w | None => None end.
Definition payloads (w : Flaky * Journal.t Flaky) : option (list bytes) :=
  match read_all w with Some (_, Ok l) => Some (payload <$> l) | _ => None end.
Definition found_after (plan : list Z) (es : list Entry) : option (list bytes) :=
  foldl (fun acc e => acc ≫= fun w => appended w e) (Some (fresh plan)) es ≫= payloads.

(** An append that succeeds after one that failed half way is lost: it is written behind
    the torn record. *)
Lemma torn_record_hides :
  found_after [100; 100; 100; 100; 100; 5; 0] [first_entry; second_entry; third_entry] = Some [[1; 2; 3]] /\
  found_after [] [first_entry; second_entry; third_entry] = Some [[1; 2; 3]; [4]; [5; 6]].
Proof. split; vm_compute; reflexivity. Qed.

(** Reading does not cut less than four bytes, so the same happens after a restart. *)
Definition restarted : option (list bytes) :=
  match read_all (mkFlaky (new_mem 0) [], mkJournal (F := Flaky) (mkHandle (replicate 16 0 ++ [7]) 0 ["journal.bin"] 0 true) 0 false) with
  | Some (w, _) => appended w first_entry ≫= payloads
  | None => None
  end.
Lemma short_tail_hides : restarted = Some [].
Proof. vm_compute. reflexivity. Qed.

End JournalTheory.
